(* ===== verification/_CoqProject ===== *)
-Q . S2P
Prelude.v
Model.v
SpanLedger.v
Varint.v
SpanHist.v
Sampling.v
TraceSampling.v
Carry.v
Decided.v
TraceBuffer.v
BufferInv.v
BufferFlush.v
BufferSteps.v
BufferProps.v
IngestQueue.v
Spool.v
Forwarder.v
WriteScheduler.v
TierStore.v
RollupCaps.v
DurationStats.v
SlotFlush.v
DepTarget.v
SpanEdges.v
SpanRollups.v
Tiers.v
SpanPlan.v
SpanMerge.v
Compaction.v
CompactionInv.v
CompleteWindow.v
CompactionWorld.v
CompactionProps.v
CalcParse.v
CalcCompile.v
CalcLexProps.v
CalcRoundTrip.v
CalcProps.v
CalcExpand.v
Filter.v
FilterProps.v
FilterExact.v
Classify.v
ClassifyProps.v
Staging.v
StagingChunks.v
StagingProps.v
StagingExact.v
RedisQueue.v
RedisWorker.v
RedisWorkerProps.v
RetentionConfig.v
RetentionDrain.v
RetentionDrainProps.v
RetentionTiers.v
RetentionTrim.v
RetentionLive.v
Float64.v
Slo.v
SloEval.v
SloSeries.v
SloAlerts.v
SloValid.v
MetricSeries.v
MetricMerge.v
MetricCounter.v
TierCalendar.v
MetricCompaction.v
MetricBuilt.v
MetricTiersInv.v
MetricTiersWrite.v
MetricTiersProps.v
MetricAccumulator.v
MetricRepeats.v
Aggregates.v
MetricDerive.v
Alerts.v
AlertsProps.v
RollupReads.v
RollupReadsProps.v
