(* ===== verification/Prelude.v ===== *)
(** * SpanBarn: a verification development

    SpanBarn is a telemetry aggregator written in Go.  Spans arrive over HTTP,
    pass a tail-sampling trace buffer on the ingest pod, are spooled to disk and
    forwarded to a queue, and a worker stores them and folds them into rollup
    tables; all database writes go through one prioritised writer.  This
    development models the parts of that pipeline that carry its own logic and
    proves what each promises.  Source paths below are under [src/internal].

    ** The parts and their files

    - [Prelude]: machine integers ([wrap64], Go's truncating division), sums over
      lists and maps, the string functions the code uses, tactics and the hint
      database [spanbarn].
    - [Model]: the records [model.SpanRecord], [model.SpanLedgerRow] and
      [repository.Span], and the ledger bucket of a span.
    - [SpanLedger] ([spanledger/tally.go]): the tally that counts every span per
      project, bucket and column; [Tally_Report] with the goroutines that count
      while the sink runs.
    - [Varint], [SpanHist] ([spanhist]): quarter-octave duration histograms,
      their merge, percentiles and byte encoding.
    - [Sampling] ([sampling/minute_floor.go]): the rarity floor.
    - [TraceSampling] ([ingest/sample_ratio.go] and the ratio functions of
      [ingest/trace_buffer_decide.go]): hash sampling and the cached settings.
    - [Carry] ([ingest/trace_buffer_carry.go]): dropped traces counted on the next
      kept trace of their operation.
    - [Decided] ([ingest/trace_buffer_decided.go]): decisions remembered for late
      spans, refined to a plain list.
    - [TraceBuffer] (the other [ingest/trace_buffer*.go]): the buffer itself, all
      its operations.  [BufferInv], [BufferFlush] and [BufferSteps] prove its
      invariants for the operations, for the phases of a flush, and for runs;
      [BufferProps] states its properties.
    - [IngestQueue] ([ingest/queue.go]): the ring buffer before the spool.
    - [Spool] ([spool/spool.go]) and [Forwarder] ([forward/forwarder.go]): the
      on-disk spool with rotation and its cursor, with writes that fail at any line or
      inside one and rotations that fail at any call, and the Redis forwarder.  JSON is
      the class [LineCodec]: it may refuse a record and may give back a normalised one.
    - [WriteScheduler] ([writescheduler/scheduler.go]): the two-priority writer,
      its submitters and its watchdog as an interleaved step relation.
    - [TierStore] ([repository/repo_span_rollups.go], [repo_span_edges.go],
      [span_hist_sql.go]): chunked upserts into the tier tables; [TierWriter] is
      the interface the accumulators are proved against.
    - [RollupCaps], [DurationStats], [SlotFlush], [SpanRollups], [SpanEdges]
      ([aggregation/span_rollups.go], [span_rollup_caps.go], [span_edges.go],
      [span_rollup_http.go], [weight.go]) and [DepTarget] ([deptarget]): the
      accumulators that fold spans and calls into 5-minute slots and flush them.
      [SlotAlgebra] is what both kinds of slot promise to [SlotFlush].
    - [Tiers] ([rollup/tiers.go]): steps, buckets and the ladder of tiers.
      [SpanPlan] ([spanrollup/plan.go]): which tier answers which part of a range.
    - [SpanMerge] ([spanrollup/merge.go]) and [Compaction] ([spanrollup/compactor.go],
      [repair.go], [complete.go], and the reads of [repository/repo_span_rollups.go]):
      merging source rows into coarse ones, passes, watermarks and repairs, over a
      world of two tables, the watermarks and the outcomes of the calls to come.
      [CompactionInv] states the invariant of one table, [CompleteWindow] what the
      completeness check decides, [CompactionWorld] lifts both to the world, and
      [CompactionProps] proves the properties; [RepairTable] is what the repair
      loop needs of a table.
    - [CalcParse] and [CalcCompile] ([calcfield]): the lexer, the parser and the
      compiler of calculated fields to SQL with bound arguments, and sets of fields
      that use each other.  [CalcLexProps], [CalcRoundTrip], [CalcProps] and
      [CalcExpand] prove their properties.
    - [Filter] ([filter], [calcresolve]): the span filter, its validation and its
      compiler to SQL, over span columns, attributes and calculated fields.
      [FilterProps] and [FilterExact] prove its properties.
    - [Classify] ([worker/classify.go], [boring_policy.go]): which spans of a batch
      the worker stores, with the hourly tier and the minute floor; [ClassifyProps]
      proves its property.
    - [Staging] ([worker/staging_*.go], [repository/repo_spans_staging.go]): spans wait
      in a staging table until their trace is ready, and a flush classifies the ready
      traces in chunks and moves them.  [StagingChunks] bounds the chunks,
      [StagingProps] proves that nothing is moved twice, [StagingExact] what a flush
      collects and moves.
    - [RedisQueue] ([queue/redis_queue.go], [batch.go]): publishing, reading, claiming
      and acknowledging batches over a Redis server that is the class [RedisServer].
      [RedisWorker] ([worker/redis_worker.go], [redis_worker_ledger.go]): the worker
      that stores a batch, retries it and settles it; [RedisWorkerProps] composes the
      two.
    - [RetentionConfig] ([retention/config.go], [pressure.go], [reclaim.go]): the
      windows, the disk-pressure tiers and the eviction loop, with their
      properties.  [RetentionDrain] ([retention/retention.go],
      [parts.go], [slow_samples.go], and the span deletes of [repository]): draining
      old spans into samples, with [RetentionDrainProps].  [RetentionTiers]
      ([retention/span_rollup_tiers.go]): trimming the span tiers, over the world of
      the compactor, and that compaction over trimmed tables does what it would do
      over all rows ever held; [RetentionTrim] proves what a trim deletes and
      [RetentionLive] composes the two.
    - [Float64]: IEEE binary64 over [SpecFloat], with the lemmas that integers below
      2^53 are added, subtracted and compared exactly.
    - [Slo] and [SloEval] ([repository/repo_slos.go], [alert/slo_eval*.go],
      [service/slo*.go], [slo]): the tables, the service and the evaluator of SLOs and
      burn alerts.  [SloSeries] proves what the counts of an SLO are, [SloAlerts] the
      history of a burn alert, [SloValid] what is stored and what a healthy tick does.
    - [MetricSeries] ([metrics/interleaved.go], [derive.go]): several producers on one
      counter, and rates.  [MetricMerge] ([rollup/merge.go], [histogram.go],
      [attrs.go]): merging metric rows with dropped attributes; it and
      [MetricCounter] prove what the merged rows hold and what a reader
      ([metrics/totals.go]) computes from them.  [TierCalendar]: weeks and months.
    - [MetricCompaction] ([rollup/compactor.go], [repository/repo_metric_rollup*.go]):
      the passes of the metric tiers over a world of two tables and the calls to come.
      [MetricBuilt], [MetricTiersInv], [MetricTiersWrite] and [MetricTiersProps] prove
      the tiers exact.
    - [MetricAccumulator] ([aggregation/metric_accumulator.go]) and [MetricRepeats]
      ([metric_repeats.go]): folding data points into 5-minute rows, and the filter of
      repeated raw points.
    - [Aggregates] ([aggregation/accumulator.go], [aggregator.go], [percentile.go],
      [repository/repo_aggregates.go], [percentile_weighted.go]): counts and percentiles
      per operation, their accumulator and their table.
    - [MetricDerive] ([metrics/derive.go], [totals.go]): points grouped into series and
      turned into rates, percentiles and totals.
    - [Alerts] ([alert/evaluator.go], [metric_eval.go], [evalfail.go], [runner.go],
      [repository/repo_alerts.go], [api/alerts.go]): threshold alerts over aggregates and
      metric rollups; [AlertsProps] proves their properties.
    - [RollupReads] ([repository/repo_span_rollups_read.go], [repo_dashboard_rollups.go],
      [service/query_span_rollups.go], [query_services_rollups.go],
      [query_edges_rollups.go], [query_dashboard_rollups.go]): the coverage of the span
      tiers, planned reads with their gap check, and the reads of root groups, services,
      timeseries, dependencies and dashboard cards.  [RollupReadsProps] proves what the
      reads count; [TierTotals] is what a sum must promise to be the same in every tier.

    A Go struct is a [Record] with its fields (prefixed), a method is a definition
    named after it, the receiver is an argument and a result.  Maps are stdpp
    [gmap]s; where the code ranges over a map the model either sorts as the code
    does or is proved independent of the order.  Clock readings, outcomes of I/O
    and choices of other goroutines are arguments or steps.  Some records carry
    histories that no operation reads ([sc_entered], [sc_executed], [su_log],
    [es_log], [es_seen]), so that theorems can speak of what went in.

    ** What the theorems show

    - Conservation: every span the buffer accepts leaves through exactly one
      ledger column or is still inside ([BufferProps.ledger_balances], and
      [ledger_balances_interleaved] with ingest between the steps of a flush);
      error spans always reach the output ([error_spans_delivered]); the interleaved
      theorem asks that the cap on remembered decisions evicted none; weights count
      every trace once ([flush_counts_every_trace], [Carry.carry_counts_every_drop]).
    - Bounds and order: the cap on clean spans, caps on rollup cardinality, the
      bounded staleness of settings, FIFO and priority of the writer, decisions
      independent of map order, termination of [Drain].
    - Exactness of aggregation: histograms merge exactly, survive encoding and give
      monotone percentiles; a failed chunked write names exactly the rows to write
      again; over any run of batches and flushes with writes failing anywhere, every
      span and call is counted once ([SpanRollups.rollups_count_once],
      [edges_count_once]).
    - Compaction: whatever call a pass stops at, coarse rows are exact merges of
      their sources and buckets below the watermark are whole or absent
      ([CompactionProps.compaction_exact]); healthy passes move on and healthy
      repairs fill the gaps they can in both tables ([pass_progress], [repair_fills]);
      the runs flush into open buckets only.  Plans cover a range without gap or overlap ([SpanPlan.Plan_covers]).
    - Compaction under retention: [RetentionLive.history_exact] shows that trims take
      only rows already rolled into the tier above, so that later passes still write
      exact rows; [trim_exact] bounds and completes a trim.
    - Reads of the tiers: in every state that passes, flushes and trims of whole buckets
      reach, a read that answers from the rollups counts what all 5-minute rows ever
      written for its range hold, whichever tiers it read: the root span groups
      ([RollupReadsProps.root_groups_exact]) and the points of a dashboard card
      ([dashboard_counts_exact]).  The theorems ask for a coverage that was just read (not
      one of the minute cache), a check clock past the compacted range, flushes into open
      buckets, and, for the card, counts that are not negative with sums below 2^53.
      Percentiles and estimates by a sample rate are modelled but not part of them: an
      estimate is rounded per row, so it depends on the tier.
    - Drains copy error and durable spans before they delete them
      ([RetentionDrainProps.drain_keeps_errors], which asks that ids follow ingest
      times); eviction is bounded ([RetentionConfig.evict_bounded]).
    - Calculated fields: what parses is well formed and bounded; the parser reads back
      what a printer with the fewest parentheses writes, so precedence and grouping are
      as declared ([CalcRoundTrip.parse_show]); compiled SQL binds every literal; and a
      lookup in a set expands every field it uses, or fails for a cause that is there
      ([CalcExpand.Lookup_expands]).
    - Filters: exactly the declared filters compile, with errors that name their cause
      ([FilterExact.Compile_exact]); user text never becomes SQL, also through
      calculated fields ([filter_text_fixed]); a conjoined filter means the conjunction
      ([Conjoin_exact]).
    - Classification: error, slow and verbose traces are stored whole, every other
      trace is stored whole or not at all, and after a batch both floors count exactly
      what they kept: the minute floor at least its minimum, the hourly floor filled up
      to its minimum and never past it ([ClassifyProps.classify_exact]).
    - Staging: over any run of inserts and flushes every span is stored at most once
      and none is lost but by the drop of its trace ([StagingExact.staging_once]), a
      flush left alone moves the ready traces, the oldest first and up to its batch size
      ([flush_moves_ready]), and its chunks partition what is staged ([chunks_exact]).
    - The queue: over any run of publishers, workers, crashes and claims an item that
      was pushed is on a list of the server, was handled, or did not decode
      ([RedisWorkerProps.queue_at_least_once]), and what a worker reads it settles
      ([batches_settled]).
    - SLOs: the counts of an SLO are one series of closed minutes, none counted twice
      ([SloSeries.slo_series]); burn alerts alternate between firing and clearing
      ([SloAlerts.burn_alerts_alternate]); a healthy tick catches up
      ([SloValid.tick_catches_up]) and stored rows stay valid ([stored_rows_valid]).
    - Metrics: every data point is counted once through failing flushes
      ([MetricAccumulator.metric_samples_conserved]); the repeat filter loses no change
      ([MetricRepeats.repeats_keep_changes]); calendar buckets tile their sources
      ([TierCalendar.windows_tile]); below its watermark every tier holds exactly the
      merge of its source ([MetricTiersProps.metric_tiers_exact]); a merged counter holds
      the exact rise of its series ([MetricCounter.merge_counter_exact]), which readers
      get back ([totals_follow_sums]); chains of producers rise and never share a value
      ([MetricSeries.ChainPrevious_chains]); points are grouped by their labels
      ([MetricDerive.BuildSeries_by_labels]).
    - Aggregates: every span is counted once through failing flushes
      ([Aggregates.aggregates_count_once]), as when the spans are aggregated at once
      ([AggregateSpans_accumulates]), and weighted percentiles are exact
      ([WeightedPercentile_exact]).
    - Alerts: over any run a trigger comes no sooner than the cooldown after the one
      before ([AlertsProps.alerts_cool_down]); without a negative window the runner does
      not panic ([runner_survives]); an alert compares whole buckets
      ([sumByBucket_exact]).
    - The spool: while the reader keeps in step, what is forwarded and what is unread are
      the stored records, in order, all records of acknowledged writes among them
      ([Forwarder.spool_no_loss]).
    - Refinements: the ring buffer and the decided-trace table against lists.
    - Some theorems show behaviour that contradicts the code's comments:
      [Forwarder.outage_loses_spans], [BufferProps.refused_without_error_traces],
      [CompactionProps.repair_stops_short] and [late_flush_missed],
      [RetentionLive.repair_after_trim], [RetentionDrainProps.drain_loses_errors] and
      [evict_drops_errors], [RetentionConfig.short_window_grows],
      [FilterExact.conjoin_over_limit], [StagingExact.late_span_lost],
      [RedisWorkerProps.disk_full_counts_twice], [SloValid.count_ignores_calc],
      [accepted_never_counted], [prune_cuts_window] and [inflate_truncates],
      [MetricCounter.gap_hides_growth], [MetricAccumulator.late_point_written],
      [Aggregates.Compute_rounds] and [AlertsProps.update_stops_alerts].

    ** Bounds and fuel

    Loops that are not structural run on fuel that their lemmas prove sufficient:
    [searchLoop] and [decodeLoop] on the length of what they scan, [ensureRoomLoop]
    on the number of buffered traces (each turn removes one), [expireLoop] and
    [makeRoomLoop] on the queue, [drainLoop] on the list of clock readings, of
    which [Drain_terminates] asks one to reach the deadline, [chunksOf] on the
    number of rows, the bucket loops of compaction on [bucketFuel] (the buckets
    between start and end), [lexLoop] on the length of its input, the parser on the
    number of tokens, [resolver] on the fields not yet on its stack, and
    [deleteBatches], [deleteInChunks] and [drainOldLoop] on the rows of the table
    (each full batch deletes some).  The eviction loop runs [reclaimRounds] times, the
    worker's retries [maxRetries] times, the collecting loop of a staging flush
    on the staged traces, the counting loop of an SLO on the buckets of its
    catch-up hour, [startChainLoop] on the index (each turn goes to a smaller one),
    [leaveWindow] on the number of points and [metricLoop] on [BucketsPerPass].
    Byte counts and sums of durations that the code keeps in
    [int64] are modelled exactly or with [wrap64]; [fitsInt64] is the condition under
    which the rollup totals do not wrap.  Counters that only grow by one per span
    are plain integers.

    ** What is not modelled

    Some float functions ([math.Log2], [math.Pow], [strconv.ParseFloat]; arithmetic is
    that of [Float64]), JSON, URL
    parsing, Unicode case tables and SQLite itself are parameters or are represented
    by the effect of the statements in the source.  [AddBatch] is one step of a run although other
    goroutines may add between its spans.  Logging is represented only where it
    changes state.  HTTP handlers, SQL queries, the web client and process wiring
    are outside.  Repairs are not part of the runs with trims, because
    [repair_after_trim] shows what they do there.  The trace summaries, logs,
    metrics and prompt records that retention also deletes are not modelled.  The
    order in which SQLite returns unordered rows is the parameter [scan] of staging,
    and Redis is known only through the laws of [RedisServer].  The runs of
    [metricReach] ask that fewer than an hour passes between two calls, that rows
    written in between belong to hours not yet closed for the wait, and that the
    settings stay fixed; the trims of the metric tiers are not part of them.  Sending a
    webhook or a mail is an event with an outcome, and the SLO pass at the end of the
    alert runner's tick is that of [SloEval], a world of its own. *)
From stdpp Require Export base gmap strings list fin_maps sorting pretty.
From Stdlib Require Export ZArith Lia Ascii.

Open Scope Z_scope.

(** ** Machine integers

    Go's [/] and [%] truncate towards zero; they are [Z.quot] and [Z.rem].
    [int64] arithmetic wraps; [uint64] conversions reduce modulo 2^64. *)

Declare Scope go_scope.
Delimit Scope go_scope with go.
Notation "x '/t' y" := (Z.quot x y) (at level 40, left associativity) : go_scope.
Notation "x '%t' y" := (Z.rem x y) (at level 40, left associativity) : go_scope.
Open Scope go_scope.

Definition wrap64 (z : Z) : Z := (z + 2 ^ 63) mod 2 ^ 64 - 2 ^ 63.

Definition wrapU64 (z : Z) : Z := z mod 2 ^ 64.

Definition in_int64 (z : Z) : Prop := - 2 ^ 63 <= z < 2 ^ 63.

#[export] Instance in_int64_dec z : Decision (in_int64 z).
Proof. unfold in_int64. apply _. Defined.

(** [time.Time.Sub] saturates at the [int64] range. *)
Definition sat64 (z : Z) : Z := Z.max (- 2 ^ 63) (Z.min z (2 ^ 63 - 1)).

(** Durations are nanoseconds, as [time.Duration]. *)
Definition second : Z := 1000000000.

Definition minute : Z := 60 * second.

Definition hour : Z := 60 * minute.

Lemma wrap64_id z : in_int64 z -> wrap64 z = z.
Proof. unfold in_int64, wrap64; intros. rewrite Z.mod_small; lia. Qed.

Lemma wrap64_range z : in_int64 (wrap64 z).
Proof.
  unfold in_int64, wrap64.
  pose proof (Z.mod_pos_bound (z + 2 ^ 63) (2 ^ 64) ltac:(lia)). lia.
Qed.

Lemma wrap64_wrapU64 z : wrap64 (wrapU64 z) = wrap64 z.
Proof. unfold wrap64, wrapU64. rewrite Zplus_mod_idemp_l. done. Qed.

Lemma wrap64_add_r a b : wrap64 (a + wrap64 b) = wrap64 (a + b).
Proof.
  unfold wrap64.
  replace (a + ((b + 2 ^ 63) mod 2 ^ 64 - 2 ^ 63) + 2 ^ 63)
    with (a + (b + 2 ^ 63) mod 2 ^ 64) by lia.
  rewrite Zplus_mod_idemp_r. do 2 f_equal. lia.
Qed.

Lemma lor_shiftl_add a b s :
  0 <= s -> 0 <= a < 2 ^ s -> Z.lor a (Z.shiftl b s) = a + b * 2 ^ s.
Proof.
  intros Hs Ha.
  assert (Z.land a (Z.shiftl b s) = 0) as Hd.
  { apply Z.bits_inj'. intros n Hn. rewrite Z.land_spec, Z.bits_0.
    destruct (Z.lt_ge_cases n s).
    - rewrite Z.shiftl_spec_low by lia. by rewrite andb_false_r.
    - rewrite <- (Z.mod_small a (2 ^ s)) by lia.
      by rewrite Z.mod_pow2_bits_high by lia. }
  rewrite <- Z.lxor_lor, <- Z.add_nocarry_lxor by done.
  by rewrite Z.shiftl_mul_pow2 by lia.
Qed.

(** ** Histories

    Every entry of a history relates to the entries before it. *)

Definition along {A} (Q : list A -> A -> Prop) (l : list A) : Prop :=
  forall pre e post, l = pre ++ e :: post -> Q pre e.

Lemma along_nil {A} (Q : list A -> A -> Prop) : along Q [].
Proof. intros pre e post H. by destruct pre. Qed.

Lemma along_snoc {A} (Q : list A -> A -> Prop) l e : along Q (l ++ [e]) <-> along Q l /\ Q l e.
Proof.
  split.
  - intros H. split; [|by apply (H l e [])].
    intros pre e' post ->. apply (H pre e' (post ++ [e])). by rewrite <- app_assoc.
  - intros [H He] pre e' post Heq.
    destruct post as [|x post _] using rev_ind.
    + apply app_inj_tail in Heq as [-> ->]. done.
    + rewrite app_comm_cons, app_assoc in Heq. apply app_inj_tail in Heq as [-> _]. by apply (H pre e' post).
Qed.

(** ** Sums over lists *)

Definition sumBy {A} (f : A -> Z) (l : list A) : Z :=
  foldr (fun a acc => f a + acc) 0 l.

Section SumBy.
Context {A : Type}.
Implicit Types (f g : A -> Z) (l : list A).

Lemma sumBy_cons f a l : sumBy f (a :: l) = f a + sumBy f l.
Proof. done. Qed.

Lemma sumBy_app f l1 l2 : sumBy f (l1 ++ l2) = sumBy f l1 + sumBy f l2.
Proof. induction l1; simpl; lia. Qed.

Lemma sumBy_ext f g l : (forall a, a ∈ l -> f a = g a) -> sumBy f l = sumBy g l.
Proof.
  intros H. induction l as [|a l IH]; simpl; [done|].
  rewrite H, IH; [done| |set_solver]. intros; apply H; set_solver.
Qed.

Lemma sumBy_plus f g l : sumBy (fun a => f a + g a) l = sumBy f l + sumBy g l.
Proof. induction l; simpl; lia. Qed.

Lemma sumBy_nonneg f l : (forall a, a ∈ l -> 0 <= f a) -> 0 <= sumBy f l.
Proof.
  induction l as [|a l IH]; simpl; intros H; [lia|].
  pose proof (H a ltac:(set_solver)). pose proof (IH ltac:(set_solver)). lia.
Qed.

Lemma sumBy_zero f l : (forall a, a ∈ l -> f a = 0) -> sumBy f l = 0.
Proof.
  intros H. induction l as [|a l IH]; simpl; [done|].
  rewrite H, IH; set_solver.
Qed.

Lemma sumBy_const1 l : sumBy (fun _ => 1) l = Z.of_nat (length l).
Proof. induction l; simpl; lia. Qed.

Lemma sumBy_map {B} (h : B -> A) f (l : list B) :
  sumBy f (map h l) = sumBy (fun b => f (h b)) l.
Proof. induction l; simpl; lia. Qed.

#[export] Instance sumBy_perm f : Proper ((≡ₚ) ==> (=)) (sumBy f).
Proof. induction 1; simpl; lia. Qed.

Lemma sumBy_filter_split f (P : A -> Prop) `{!forall a, Decision (P a)} l :
  sumBy f l = sumBy f (filter P l) + sumBy f (filter (fun a => ~ P a) l).
Proof.
  induction l as [|a l IH]; simpl; [done|]. rewrite !filter_cons.
  destruct (decide (P a)), (decide (~ P a)); try tauto; simpl; lia.
Qed.
End SumBy.

(** Predicates that agree on the members of a list. *)
Lemma filter_ext_in {A} (P Q : A -> Prop) `{!forall x, Decision (P x)} `{!forall x, Decision (Q x)} (l : list A) :
  (forall x, x ∈ l -> P x <-> Q x) -> filter P l = filter Q l.
Proof.
  induction l as [|x l IH]; intros Hx; [done|]. assert (filter P l = filter Q l) as E by (apply IH; set_solver).
  destruct (decide (P x)) as [Hp|Hp].
  - rewrite !filter_cons_True; [by rewrite E| |done]. apply Hx; [by left|done].
  - rewrite !filter_cons_False; [done| |done]. intros Hq. apply Hp, Hx; [by left|done].
Qed.

(** ** Sums over finite maps *)

Definition mapSum `{Countable K} {A} (f : A -> Z) (m : gmap K A) : Z :=
  sumBy (fun kv => f kv.2) (map_to_list m).

Section MapSum.
Context `{Countable K} {A : Type}.
Implicit Types (f : A -> Z) (m : gmap K A).

Lemma mapSum_empty f : mapSum f (∅ : gmap K A) = 0.
Proof. unfold mapSum. by rewrite map_to_list_empty. Qed.

Lemma mapSum_insert_None f m k a :
  m !! k = None -> mapSum f (<[k := a]> m) = f a + mapSum f m.
Proof. intros. unfold mapSum. by rewrite map_to_list_insert. Qed.

Lemma mapSum_delete f m k a :
  m !! k = Some a -> mapSum f (delete k m) = mapSum f m - f a.
Proof.
  intros Hk. rewrite <- (insert_delete_id m k a Hk) at 2.
  rewrite mapSum_insert_None by apply lookup_delete_eq. lia.
Qed.

Lemma mapSum_delete_None f m k :
  m !! k = None -> mapSum f (delete k m) = mapSum f m.
Proof. intros. by rewrite delete_id. Qed.

Lemma mapSum_insert_Some f m k a b :
  m !! k = Some b -> mapSum f (<[k := a]> m) = mapSum f m - f b + f a.
Proof.
  intros Hk. rewrite <- insert_delete_eq.
  rewrite mapSum_insert_None by apply lookup_delete_eq.
  rewrite (mapSum_delete _ _ _ _ Hk). lia.
Qed.

(** One equation for both cases of an insert. *)
Lemma mapSum_insert f m k a :
  mapSum f (<[k := a]> m) = mapSum f m - from_option f 0 (m !! k) + f a.
Proof.
  destruct (m !! k) eqn:E; simpl;
    [by apply mapSum_insert_Some | rewrite mapSum_insert_None by done; lia].
Qed.

Lemma mapSum_delete_lookup f m k :
  mapSum f (delete k m) = mapSum f m - from_option f 0 (m !! k).
Proof.
  destruct (m !! k) eqn:E; simpl;
    [by apply mapSum_delete | rewrite mapSum_delete_None by done; lia].
Qed.

Lemma mapSum_nonneg f m :
  (forall k a, m !! k = Some a -> 0 <= f a) -> 0 <= mapSum f m.
Proof.
  intros Hf. apply sumBy_nonneg. intros [k a] Hin%elem_of_map_to_list. eauto.
Qed.

Lemma mapSum_ge f m k a :
  (forall k a, m !! k = Some a -> 0 <= f a) ->
  m !! k = Some a -> f a <= mapSum f m.
Proof.
  intros Hf Hk. rewrite <- (insert_delete_id m k a Hk).
  rewrite mapSum_insert_None by apply lookup_delete_eq.
  enough (0 <= mapSum f (delete k m)) by lia.
  apply mapSum_nonneg. intros k' a' [_ ?]%lookup_delete_Some. eauto.
Qed.
End MapSum.

(** ** Ascending lists *)

Lemma StronglySorted_lookup {A} (R : relation A) (l : list A) i j x y :
  StronglySorted R l -> (i < j)%nat -> l !! i = Some x -> l !! j = Some y -> R x y.
Proof.
  intros Hs. revert i j. induction Hs as [|a l Hs IH Ha]; intros i j Hij Hi Hj; [done|].
  destruct j as [|j]; [lia|]. destruct i as [|i]; simpl in *.
  - simplify_eq. rewrite Forall_lookup in Ha. eauto.
  - eapply (IH i j); [lia|done|done].
Qed.

(** ** Strings

    Go strings are byte strings; the functions of package [strings] work on their
    bytes. *)

Definition bytesOf (s : string) : list ascii := String.list_ascii_of_string s.

(** [strings.HasPrefix] *)
Fixpoint hasPrefix (p s : list ascii) : bool :=
  match p, s with
  | [], _ => true
  | a :: p, b :: s => bool_decide (a = b) && hasPrefix p s
  | _, [] => false
  end.

(** [strings.Index] *)
Fixpoint indexOf (sub s : list ascii) : option nat :=
  if hasPrefix sub s then Some O
  else match s with [] => None | _ :: s => S <$> indexOf sub s end.

(** [strings.TrimLeft] *)
Fixpoint trimLeft (cutset s : list ascii) : list ascii :=
  match s with
  | c :: s' => if decide (c ∈ cutset) then trimLeft cutset s' else s
  | [] => []
  end.

(** [strings.TrimPrefix] *)
Definition trimPrefix (p s : list ascii) : list ascii :=
  if hasPrefix p s then drop (length p) s else s.

(** [strings.ToLower]: a string of ASCII bytes is lowered byte by byte; for other
    strings [unicodeLower] is the result of Go's Unicode tables. *)
Definition lowerAscii (c : ascii) : ascii :=
  let n := Ascii.nat_of_ascii c in
  if (65 <=? n)%nat && (n <=? 90)%nat then Ascii.ascii_of_nat (n + 32) else c.

Definition ToLower (unicodeLower : string -> string) (s : string) : string :=
  if forallb (fun c => (Ascii.nat_of_ascii c <? 128)%nat) (bytesOf s)
  then String.string_of_list_ascii (map lowerAscii (bytesOf s))
  else unicodeLower s.

(** ** Proof automation of the development *)

Create HintDb spanbarn.
Create Rewrite HintDb spanbarn.
#[export] Hint Resolve wrap64_range : spanbarn.
#[export] Hint Rewrite @sumBy_app @mapSum_insert @mapSum_delete_lookup
  @mapSum_empty : spanbarn.

(** Split the innermost [match]/[if] scrutinee of the goal, keeping the
    equation. *)
Ltac split_match :=
  match goal with
  | |- context [match ?x with _ => _ end] =>
      lazymatch x with
      | context [match _ with _ => _ end] => fail
      | _ => destruct x eqn:?
      end
  end.

Ltac split_match_in H :=
  match type of H with
  | context [match ?x with _ => _ end] =>
      lazymatch x with
      | context [match _ with _ => _ end] => fail
      | _ => destruct x eqn:?
      end
  end.

(** Turn boolean comparison hypotheses into propositions. *)
Ltac to_prop :=
  repeat match goal with
  | H : andb _ _ = true |- _ => apply andb_prop in H as [? ?]
  | H : orb _ _ = false |- _ => apply orb_false_elim in H as [? ?]
  | H : negb _ = true |- _ => apply negb_true_iff in H
  | H : negb _ = false |- _ => apply negb_false_iff in H
  | H : (_ <? _) = true |- _ => apply Z.ltb_lt in H
  | H : (_ <? _) = false |- _ => apply Z.ltb_ge in H
  | H : (_ <=? _) = true |- _ => apply Z.leb_le in H
  | H : (_ <=? _) = false |- _ => apply Z.leb_gt in H
  | H : (_ =? _) = true |- _ => apply Z.eqb_eq in H
  | H : (_ =? _) = false |- _ => apply Z.eqb_neq in H
  | H : bool_decide _ = true |- _ => apply bool_decide_eq_true_1 in H
  | H : bool_decide _ = false |- _ => apply bool_decide_eq_false_1 in H
  end.
