(* ===== verification/Model.v ===== *)
(** * Records shared by ingest and storage ([internal/model])

    [SpanRecord] is the span between HTTP ingest and storage; [SpanLedgerRow]
    is one row of the span ledger and [SpanLedgerBucket] the 5-minute bucket a
    span is counted under.  Raw JSON payloads are byte strings. *)
From S2P Require Import Prelude.

(** [model.SpanRecord] *)
Record SpanRecord := mkSpanRecord {
  sr_ProjectID : Z;
  sr_TraceID : string;
  sr_SpanID : string;
  sr_ParentSpanID : string;
  sr_Name : string;
  sr_Service : string;
  sr_Resource : string;
  sr_Kind : string;
  sr_Status : string;
  sr_StartTimeUs : Z;
  sr_DurationUs : Z;
  sr_Attributes : string;
  sr_Events : string;
  sr_SampleWeight : Z;
}.

#[export] Instance SpanRecord_eq_dec : EqDecision SpanRecord.
Proof. solve_decision. Defined.

Definition set_SampleWeight (w : Z) (r : SpanRecord) : SpanRecord :=
  mkSpanRecord (sr_ProjectID r) (sr_TraceID r) (sr_SpanID r) (sr_ParentSpanID r)
    (sr_Name r) (sr_Service r) (sr_Resource r) (sr_Kind r) (sr_Status r)
    (sr_StartTimeUs r) (sr_DurationUs r) (sr_Attributes r) (sr_Events r) w.

(** [model.SpanLedgerBucketSeconds] *)
Definition SpanLedgerBucketSeconds : Z := 300.

(** [model.SpanLedgerBucket] *)
Definition SpanLedgerBucket (startUs : Z) : Z :=
  let sec := startUs /t 1000000 in
  sec - sec %t SpanLedgerBucketSeconds.

(** [model.SpanLedgerRow] *)
Record SpanLedgerRow := mkSpanLedgerRow {
  lr_Bucket : Z;
  lr_ProjectID : Z;
  lr_Accepted : Z;
  lr_SampledOut : Z;
  lr_ShedUnsampled : Z;
  lr_LostInBuffer : Z;
  lr_Forwarded : Z;
  lr_Processed : Z;
  lr_Failed : Z;
}.

(** [repository.Span], the stored span.  Times are nanoseconds; [None] is the
    zero [IngestedAt] and the nil [ExpiresAt]. *)
Record Span := mkSpan {
  sp_ID : Z;
  sp_ProjectID : Z;
  sp_TraceID : string;
  sp_SpanID : string;
  sp_ParentSpanID : string;
  sp_Name : string;
  sp_Service : string;
  sp_Resource : string;
  sp_Kind : string;
  sp_Status : string;
  sp_StartTimeUs : Z;
  sp_DurationUs : Z;
  sp_Attributes : string;
  sp_Events : string;
  sp_IngestedAt : option Z;
  sp_ExpiresAt : option Z;
  sp_Durable : bool;
  sp_SampleWeight : Z;
}.

#[export] Instance Span_eq_dec : EqDecision Span.
Proof. solve_decision. Defined.

(** [time.Time.Unix] of a time in nanoseconds. *)
Definition Unix (t : Z) : Z := t / second.

(** The ingest time; a zero [time.Time] is the first instant of the year 1. *)
Definition ingestedNs (s : Span) : Z := default (-62135596800 * second) (sp_IngestedAt s).

(** Rows in the order of their ids. *)
Definition byID (a b : Span) : Prop := sp_ID a <= sp_ID b.

#[export] Instance byID_dec : RelDecision byID.
Proof. intros a b. unfold byID. apply _. Defined.

(** [retentionDeleteBatch] *)
Definition retentionDeleteBatch : Z := 1000.

(** A span record with the fields the examples of the development vary. *)
Definition demoSpan (trace span parent name status : string) (start dur : Z)
  : SpanRecord :=
  mkSpanRecord 1 trace span parent name "svc" "" "server" status start dur
    "{}" "[]" 0.

(** The bucket of a span is a multiple of 300 s at or before its start second,
    for spans that started after the epoch. *)
Lemma SpanLedgerBucket_spec us :
  0 <= us ->
  SpanLedgerBucket us mod 300 = 0 /\
  SpanLedgerBucket us <= us / 1000000 < SpanLedgerBucket us + 300.
Proof.
  intros Hus. unfold SpanLedgerBucket, SpanLedgerBucketSeconds.
  rewrite Z.quot_div_nonneg by lia.
  assert (0 <= us / 1000000) by (apply Z.div_pos; lia).
  rewrite Z.rem_mod_nonneg by lia.
  pose proof (Z.mod_pos_bound (us / 1000000) 300 ltac:(lia)).
  pose proof (Z.div_mod (us / 1000000) 300 ltac:(lia)) as E.
  split; [|lia].
  replace (us / 1000000 - (us / 1000000) mod 300)
    with ((us / 1000000 / 300) * 300) by lia.
  apply Z.mod_mul. lia.
Qed.
