(* ===== verification/SpanLedger.v ===== *)
(** * The span ledger ([internal/spanledger/tally.go])

    A [Tally] counts spans per (bucket, project) row and column since the last
    report.  A Go [nil] tally counts nothing and is [None] here; the methods
    take an [option Tally].  A report takes the rows out, and puts them back
    when the sink fails while other goroutines keep counting. *)
From S2P Require Import Prelude Model.

(** [spanledger.Column] *)
Inductive Column :=
  | Accepted
  | SampledOut
  | ShedUnsampled
  | LostInBuffer
  | Forwarded
  | Processed
  | Failed.

#[export] Instance Column_eq_dec : EqDecision Column.
Proof. solve_decision. Defined.

(** The [iota] value of a column; [columnCount] is the array length. *)
Definition columnIndex (c : Column) : nat :=
  match c with
  | Accepted => 0
  | SampledOut => 1
  | ShedUnsampled => 2
  | LostInBuffer => 3
  | Forwarded => 4
  | Processed => 5
  | Failed => 6
  end.

Definition columnCount : nat := 7.

(** [rowKey]: bucket and project. *)
Abbreviation rowKey := (Z * Z)%type.

(** [Tally]: the rows, each a [[columnCount]int64]. *)
Record Tally := mkTally { tally_rows : gmap rowKey (list Z) }.

Definition zeroRow : list Z := replicate columnCount 0.

(** [New] *)
Definition Tally_New : Tally := mkTally ∅.

(** [Tally.row]: the row of [k], created empty when absent. *)
Definition Tally_row (t : Tally) (k : rowKey) : list Z := default zeroRow (tally_rows t !! k).

Definition colAdd (c : Column) (n : Z) (r : list Z) : list Z :=
  alter (Z.add n) (columnIndex c) r.

Definition colAt (c : Column) (r : list Z) : Z := default 0 (r !! columnIndex c).

(** [Tally.add] *)
Definition Tally_add (col : Column) (projectID startUs n : Z) (t : Tally) : Tally :=
  let k := (SpanLedgerBucket startUs, projectID) in
  mkTally (<[k := colAdd col n (Tally_row t k)]> (tally_rows t)).

(** [Tally.Add] *)
Definition Tally_Add (t : option Tally) (col : Column) (projectID startUs n : Z)
  : option Tally := Tally_add col projectID startUs n <$> t.

(** [Tally.AddSpans] *)
Definition Tally_AddSpans (t : option Tally) (col : Column) (spans : list SpanRecord)
  (sign : Z) : option Tally :=
  match t, spans with
  | None, _ => None
  | Some t, [] => Some t
  | Some t, _ =>
      Some (foldl (fun t s => Tally_add col (sr_ProjectID s) (sr_StartTimeUs s) sign t)
              t spans)
  end.

Definition toLedgerRow (k : rowKey) (r : list Z) : SpanLedgerRow :=
  mkSpanLedgerRow k.1 k.2 (colAt Accepted r) (colAt SampledOut r)
    (colAt ShedUnsampled r) (colAt LostInBuffer r) (colAt Forwarded r)
    (colAt Processed r) (colAt Failed r).

(** [Tally.Take]: the non-zero rows, in some order, and the cleared tally. *)
Definition Tally_Take (t : option Tally) : list SpanLedgerRow * option Tally :=
  match t with
  | None => ([], None)
  | Some t =>
      (omap (fun '(k, r) => if decide (r = zeroRow) then None
                            else Some (toLedgerRow k r))
         (map_to_list (tally_rows t)), Some Tally_New)
  end.

Definition Tally_mergeRow (s : SpanLedgerRow) (t : Tally) : Tally :=
  let k := (lr_Bucket s, lr_ProjectID s) in
  mkTally (<[k :=
    colAdd Accepted (lr_Accepted s) $ colAdd SampledOut (lr_SampledOut s) $
    colAdd ShedUnsampled (lr_ShedUnsampled s) $
    colAdd LostInBuffer (lr_LostInBuffer s) $
    colAdd Forwarded (lr_Forwarded s) $ colAdd Processed (lr_Processed s) $
    colAdd Failed (lr_Failed s) $ Tally_row t k]> (tally_rows t)).

(** [Tally.Merge] *)
Definition Tally_Merge (t : option Tally) (rs : list SpanLedgerRow) : option Tally :=
  (fun t => foldl (fun t s => Tally_mergeRow s t) t rs) <$> t.

(** [Tally.Report]: [during] is what other goroutines count between the
    [Take] and the [Merge]; [sinkOk] is whether the sink accepted the rows.
    Returns the rows the sink accepted, the error flag and the tally. *)
Definition Tally_Report (t : option Tally) (during : option Tally -> option Tally)
  (sinkOk : bool) : list SpanLedgerRow * bool * option Tally :=
  let '(rs, t) := Tally_Take t in
  match rs with
  | [] => ([], true, during t)
  | _ => if sinkOk then (rs, true, during t)
         else ([], false, Tally_Merge (during t) rs)
  end.

(** ** What a tally counts *)

Definition ledgerCount (t : option Tally) (c : Column) (k : rowKey) : Z :=
  from_option (fun t => colAt c (Tally_row t k)) 0 t.

Definition lrCol (c : Column) (s : SpanLedgerRow) : Z :=
  match c with
  | Accepted => lr_Accepted s
  | SampledOut => lr_SampledOut s
  | ShedUnsampled => lr_ShedUnsampled s
  | LostInBuffer => lr_LostInBuffer s
  | Forwarded => lr_Forwarded s
  | Processed => lr_Processed s
  | Failed => lr_Failed s
  end.

(** What a list of reported rows counts for a column and key. *)
Definition rowsCount (rs : list SpanLedgerRow) (c : Column) (k : rowKey) : Z :=
  sumBy (fun s => if decide ((lr_Bucket s, lr_ProjectID s) = k) then lrCol c s
                  else 0) rs.

(** The key a span is counted under, and how many spans of a list have it. *)
Definition spanKey (s : SpanRecord) : rowKey :=
  (SpanLedgerBucket (sr_StartTimeUs s), sr_ProjectID s).

Definition keyCount (k : rowKey) (l : list SpanRecord) : Z :=
  sumBy (fun s => if decide (spanKey s = k) then 1 else 0) l.

(** Every row is an array of [columnCount] counts. *)
Definition wfTally (t : Tally) : Prop :=
  forall k r, tally_rows t !! k = Some r -> length r = columnCount.

Definition wfLedger (t : option Tally) : Prop := from_option wfTally True t.

Arguments ledgerCount : simpl never.
Arguments Tally_add : simpl never.
Arguments Tally_mergeRow : simpl never.

Lemma columnIndex_lt c : (columnIndex c < columnCount)%nat.
Proof. destruct c; unfold columnCount; simpl; lia. Qed.

Lemma columnIndex_inj c d : columnIndex c = columnIndex d -> c = d.
Proof. destruct c, d; simpl; congruence. Qed.

Lemma colAt_colAdd c d n r :
  length r = columnCount ->
  colAt c (colAdd d n r) = colAt c r + (if decide (d = c) then n else 0).
Proof.
  intros Hr. unfold colAt, colAdd.
  assert (is_Some (r !! columnIndex c)) as [x Hx].
  { apply lookup_lt_is_Some. rewrite Hr. apply columnIndex_lt. }
  destruct (decide (d = c)) as [->|Hne].
  - rewrite list_lookup_alter_eq, Hx. simpl. lia.
  - rewrite list_lookup_alter_ne; [rewrite Hx; simpl; lia|].
    intros E. by apply columnIndex_inj in E.
Qed.

Lemma length_colAdd c n r : length (colAdd c n r) = length r.
Proof. apply length_alter. Qed.

Lemma length_row t k : wfTally t -> length (Tally_row t k) = columnCount.
Proof.
  intros Ht. unfold Tally_row. destruct (tally_rows t !! k) eqn:E; simpl; [eauto|done].
Qed.

Lemma colAt_zeroRow c : colAt c zeroRow = 0.
Proof. by destruct c. Qed.

#[export] Hint Resolve length_row : spanbarn.
#[export] Hint Rewrite length_colAdd : spanbarn.

Lemma wfTally_insert t k r :
  wfTally t -> length r = columnCount -> wfTally (mkTally (<[k := r]> (tally_rows t))).
Proof.
  intros Ht Hr k' r' H; simpl in H.
  apply lookup_insert_Some in H as [[_ <-]|[_ ?]]; eauto.
Qed.

Lemma wfTally_add t c p s n : wfTally t -> wfTally (Tally_add c p s n t).
Proof.
  intros. apply wfTally_insert; [done|]. rewrite length_colAdd. by apply length_row.
Qed.

Lemma count_insert t k r c k' :
  ledgerCount (Some (mkTally (<[k := r]> (tally_rows t)))) c k' =
  if decide (k = k') then colAt c r else ledgerCount (Some t) c k'.
Proof.
  unfold ledgerCount, Tally_row; simpl. destruct (decide (k = k')) as [->|].
  - by rewrite lookup_insert_eq.
  - by rewrite lookup_insert_ne.
Qed.

Lemma count_add t c p s n c' k' :
  wfTally t ->
  ledgerCount (Some (Tally_add c p s n t)) c' k' =
  ledgerCount (Some t) c' k' +
  (if decide (c = c') then if decide ((SpanLedgerBucket s, p) = k') then n else 0
   else 0).
Proof.
  intros Ht. unfold Tally_add. rewrite count_insert.
  destruct (decide (_ = k')) as [<-|].
  - rewrite colAt_colAdd by by apply length_row. unfold ledgerCount; simpl.
    by destruct (decide (c = c')).
  - destruct (decide (c = c')); lia.
Qed.

Lemma wfLedger_Add t c p s n : wfLedger t -> wfLedger (Tally_Add t c p s n).
Proof. destruct t; simpl; [apply wfTally_add|done]. Qed.

Lemma AddSpans_foldl t c l sign :
  Tally_AddSpans (Some t) c l sign =
  Some (foldl (fun t s => Tally_add c (sr_ProjectID s) (sr_StartTimeUs s) sign t) t l).
Proof. by destruct l. Qed.

Lemma wfLedger_AddSpans t c l sign : wfLedger t -> wfLedger (Tally_AddSpans t c l sign).
Proof.
  destruct t as [t|]; [|done]. rewrite AddSpans_foldl. simpl. revert t.
  induction l as [|s l IH]; intros t Ht; simpl; [done|].
  apply IH. by apply wfTally_add.
Qed.

Lemma wfTally_New : wfTally Tally_New.
Proof. apply map_Forall_empty. Qed.

#[export] Hint Resolve wfLedger_Add wfLedger_AddSpans wfTally_add wfTally_New : spanbarn.

Lemma count_Add t c p s n c' k' :
  wfTally t ->
  ledgerCount (Tally_Add (Some t) c p s n) c' k' =
  ledgerCount (Some t) c' k' +
  (if decide (c = c') then if decide ((SpanLedgerBucket s, p) = k') then n else 0
   else 0).
Proof. apply count_add. Qed.

Lemma count_AddSpans t c l sign c' k' :
  wfTally t ->
  ledgerCount (Tally_AddSpans (Some t) c l sign) c' k' =
  ledgerCount (Some t) c' k' + (if decide (c = c') then sign * keyCount k' l else 0).
Proof.
  rewrite AddSpans_foldl. revert t. induction l as [|s l IH]; intros t Ht; simpl.
  - destruct (decide _); lia.
  - rewrite IH by by apply wfTally_add. rewrite count_add by done.
    change (keyCount k' (s :: l)) with
      ((if decide (spanKey s = k') then 1 else 0) + keyCount k' l).
    unfold spanKey. destruct (decide (c = c')); [|lia]. destruct (decide _); lia.
Qed.

Lemma keyCount_app k l1 l2 : keyCount k (l1 ++ l2) = keyCount k l1 + keyCount k l2.
Proof. apply sumBy_app. Qed.

(** ** Reports *)

Lemma lrCol_toLedgerRow c k r : lrCol c (toLedgerRow k r) = colAt c r.
Proof. by destruct c. Qed.

Lemma count_mergeRow t s c k :
  wfTally t ->
  wfTally (Tally_mergeRow s t) /\
  ledgerCount (Some (Tally_mergeRow s t)) c k =
  ledgerCount (Some t) c k + rowsCount [s] c k.
Proof.
  intros Ht. unfold Tally_mergeRow. split.
  - apply wfTally_insert; [done|]. rewrite !length_colAdd. by apply length_row.
  - rewrite count_insert. unfold rowsCount; simpl.
    destruct (decide (_ = k)) as [<-|]; [|lia].
    rewrite !colAt_colAdd by (rewrite ?length_colAdd; by apply length_row).
    unfold ledgerCount; simpl.
    destruct c; simpl; repeat (destruct (decide _); try congruence); lia.
Qed.

Lemma count_Merge t rs c k :
  wfTally t ->
  ledgerCount (Tally_Merge (Some t) rs) c k = ledgerCount (Some t) c k + rowsCount rs c k.
Proof.
  change (Tally_Merge (Some t) rs) with (Some (foldl (fun t s => Tally_mergeRow s t) t rs)).
  revert t. induction rs as [|s rs IH]; intros t Ht; simpl; [unfold rowsCount; simpl; lia|].
  destruct (count_mergeRow t s c k Ht) as [Hw Hc].
  rewrite IH, Hc by done. unfold rowsCount; simpl. lia.
Qed.

Lemma rowsCount_Take_list c k (l : list (rowKey * list Z)) :
  rowsCount (omap (fun '(k, r) => if decide (r = zeroRow) then None
                                  else Some (toLedgerRow k r)) l) c k =
  sumBy (fun kr => if decide (kr.1 = k) then colAt c kr.2 else 0) l.
Proof.
  induction l as [|[k' r] l IH]; [done|]. csimpl.
  destruct (decide (r = zeroRow)) as [->|].
  - rewrite IH, colAt_zeroRow. destruct (decide _); lia.
  - unfold rowsCount in *; simpl. rewrite IH, lrCol_toLedgerRow.
    by destruct k'.
Qed.

Lemma sumBy_lookup (c : Column) (k : rowKey) (m : gmap rowKey (list Z)) :
  sumBy (fun kr : rowKey * list Z => if decide (kr.1 = k) then colAt c kr.2 else 0)
    (map_to_list m) =
  colAt c (default zeroRow (m !! k)).
Proof.
  induction m as [|k' r m Hk' IH] using map_ind.
  - rewrite map_to_list_empty, lookup_empty. simpl. by rewrite colAt_zeroRow.
  - rewrite map_to_list_insert by done. simpl. rewrite IH.
    destruct (decide (k' = k)) as [->|].
    + rewrite Hk', lookup_insert_eq. simpl. rewrite colAt_zeroRow. lia.
    + rewrite lookup_insert_ne by done. lia.
Qed.

Lemma rowsCount_Take t c k :
  rowsCount (Tally_Take (Some t)).1 c k = ledgerCount (Some t) c k.
Proof. simpl. rewrite rowsCount_Take_list. apply sumBy_lookup. Qed.

(** A report of the span ledger neither loses nor repeats a count: what the
    sink accepted, plus what the tally holds afterwards, is what it held before
    plus what other goroutines counted while the sink ran, in every column and
    bucket and whether or not the sink accepted the rows. *)
Theorem Report_balance t during sinkOk c k rs ok t' :
  wfTally t ->
  wfLedger (during (Some Tally_New)) ->
  is_Some (during (Some Tally_New)) ->
  Tally_Report (Some t) during sinkOk = (rs, ok, t') ->
  rowsCount rs c k + ledgerCount t' c k =
  ledgerCount (Some t) c k + ledgerCount (during (Some Tally_New)) c k.
Proof.
  intros Ht Hw [d Hd]. rewrite <- (rowsCount_Take t c k).
  unfold Tally_Report. cbn [Tally_Take fst].
  set (l := omap _ _). rewrite Hd in *.
  destruct l as [|s l]; [|destruct sinkOk]; intros [= <- <- <-]; [lia|lia|].
  match goal with |- context [ledgerCount (Some (foldl ?f _ l))] =>
    change (Some (foldl f (Tally_mergeRow s d) l)) with (Tally_Merge (Some d) (s :: l))
  end.
  rewrite count_Merge by done. unfold rowsCount at 1. simpl. lia.
Qed.

Lemma Report_balance_witness :
  ledgerCount (Tally_Report (Tally_Add (Some Tally_New) Accepted 1 600000000 5)
    (fun t => Tally_Add t Accepted 1 600000001 2) false).2 Accepted (600, 1) = 7.
Proof.
  set (t := Tally_add Accepted 1 600000000 5 Tally_New).
  set (during := fun t => Tally_Add t Accepted 1 600000001 2).
  pose proof (Report_balance t during false Accepted (600, 1)
    (Tally_Report (Some t) during false).1.1 (Tally_Report (Some t) during false).1.2
    (Tally_Report (Some t) during false).2) as H.
  assert (rowsCount (Tally_Report (Some t) during false).1.1 Accepted (600, 1) = 0) as E0
    by (vm_compute; reflexivity).
  rewrite E0 in H. change (Tally_Add (Some Tally_New) Accepted 1 600000000 5) with (Some t).
  rewrite Z.add_0_l in H. etransitivity; [apply H|vm_compute; reflexivity].
  - unfold t. auto with spanbarn.
  - apply wfLedger_Add, wfTally_New.
  - eexists. reflexivity.
  - by destruct (Tally_Report (Some t) during false) as [[? ?] ?].
Defined.
