(* ===== verification/Varint.v ===== *)
(** * Variable-length integers (Go's [encoding/binary])

    [AppendUvarint], [AppendVarint], [Uvarint] and [Varint] as the histogram
    codec uses them.  Bytes are integers in [0, 256).  [Uvarint] returns the
    value and the number of bytes read, which is not positive on failure. *)
From S2P Require Import Prelude.

Definition MaxVarintLen64 : nat := 10.

(** The loop body of [AppendUvarint]; ten bytes hold any [uint64]. *)
Fixpoint appendUvarintLoop (fuel : nat) (x : Z) : list Z :=
  match fuel with
  | O => []
  | S fuel =>
      if 128 <=? x
      then Z.lor (x mod 256) 128 :: appendUvarintLoop fuel (Z.shiftr x 7)
      else [x mod 256]
  end.

Definition AppendUvarint (buf : list Z) (x : Z) : list Z :=
  buf ++ appendUvarintLoop MaxVarintLen64 x.

Fixpoint uvarintLoop (buf : list Z) (i : nat) (x s : Z) : Z * Z :=
  match buf with
  | [] => (0, 0)
  | b :: buf' =>
      if (i =? MaxVarintLen64)%nat then (0, - (Z.of_nat i + 1))
      else if b <? 128 then
        if (i =? MaxVarintLen64 - 1)%nat && (1 <? b)
        then (0, - (Z.of_nat i + 1))
        else (Z.lor x (wrapU64 (Z.shiftl b s)), Z.of_nat i + 1)
      else uvarintLoop buf' (S i)
             (Z.lor x (wrapU64 (Z.shiftl (Z.land b 127) s))) (s + 7)
  end.

Definition Uvarint (buf : list Z) : Z * Z := uvarintLoop buf 0 0 0.

Definition AppendVarint (buf : list Z) (x : Z) : list Z :=
  let ux := wrapU64 (Z.shiftl (wrapU64 x) 1) in
  AppendUvarint buf (if x <? 0 then 2 ^ 64 - 1 - ux else ux).

Definition Varint (buf : list Z) : Z * Z :=
  let '(ux, n) := Uvarint buf in
  let x := Z.shiftr ux 1 in
  (if Z.odd ux then - x - 1 else x, n).

(** ** Round trips *)

Lemma byte_low7 x : 0 <= x -> Z.land (Z.lor (x mod 256) 128) 127 = x mod 128.
Proof.
  intros. rewrite Z.land_lor_distr_l. change (Z.land 128 127) with 0.
  rewrite Z.lor_0_r. change 127 with (Z.ones 7). change 256 with (128 * 2).
  rewrite Z.land_ones by lia. change (2 ^ 7) with 128.
  rewrite Z.rem_mul_r by lia.
  rewrite (Z.mul_comm 128), Z.mod_add by lia. by rewrite Z.mod_mod by lia.
Qed.

Lemma byte_cont x : 0 <= x -> 128 <= Z.lor (x mod 256) 128.
Proof.
  intros. pose proof (Z.mod_pos_bound x 256 ltac:(lia)).
  replace 128 with (Z.lor 0 128) at 1 by done.
  enough (Z.land (Z.lor (x mod 256) 128) 128 = 128) as E.
  { pose proof (Z.lor_nonneg (x mod 256) 128) as [_ N].
    destruct (Z.lt_ge_cases (Z.lor (x mod 256) 128) 128) as [L|]; [|done].
    assert (0 <= Z.lor (x mod 256) 128) by (apply N; lia).
    rewrite <- (Z.mod_small _ (2 ^ 7) (conj H1 L)) in E.
    rewrite <- Z.land_ones, <- Z.land_assoc in E by lia.
    change (Z.land (Z.ones 7) 128) with 0 in E. rewrite Z.land_0_r in E. lia. }
  rewrite Z.land_lor_distr_l. change (Z.land 128 128) with 128.
  apply Z.bits_inj'. intros n Hn. rewrite Z.lor_spec, Z.land_spec.
  destruct (Z.testbit 128 n); by rewrite ?orb_true_r, ?andb_false_r.
Qed.

(** Reading back a value appended at byte [i], with [acc] read so far. *)
Lemma uvarintLoop_append fuel : forall x rest i acc,
  0 <= x -> 0 <= acc < 2 ^ (7 * Z.of_nat i) ->
  (i + fuel = MaxVarintLen64)%nat ->
  acc + x * 2 ^ (7 * Z.of_nat i) < 2 ^ 64 ->
  (fuel = 0%nat -> x = 0 /\ False) ->
  uvarintLoop (appendUvarintLoop fuel x ++ rest) i acc (7 * Z.of_nat i) =
  (acc + x * 2 ^ (7 * Z.of_nat i),
   Z.of_nat i + Z.of_nat (length (appendUvarintLoop fuel x))).
Proof.
  induction fuel as [|fuel IH]; intros x rest i acc Hx Hacc Hi Hlt H0;
    [destruct (H0 eq_refl) as [_ []]|].
  assert (0 < 2 ^ (7 * Z.of_nat i)) as Hp by (apply Z.pow_pos_nonneg; lia).
  cbn [appendUvarintLoop].
  destruct (Z.leb_spec 128 x) as [Hbig|Hsmall]; cbn [app uvarintLoop].
  - destruct (Nat.eqb_spec i MaxVarintLen64); [lia|].
    destruct (Z.ltb_spec (Z.lor (x mod 256) 128) 128) as [L|_];
      [pose proof (byte_cont x Hx); lia|].
    rewrite byte_low7 by done.
    pose proof (Z.mod_pos_bound x 128 ltac:(lia)).
    assert (x mod 128 * 2 ^ (7 * Z.of_nat i) < 2 ^ 64).
    { pose proof (Z.mod_le x 128 Hx ltac:(lia)). nia. }
    rewrite Z.shiftl_mul_pow2 by lia.
    unfold wrapU64. rewrite Z.mod_small by nia.
    rewrite <- Z.shiftl_mul_pow2, lor_shiftl_add by lia.
    rewrite Z.shiftr_div_pow2 by lia. change (2 ^ 7) with 128.
    assert (2 ^ (7 * Z.of_nat (S i)) = 128 * 2 ^ (7 * Z.of_nat i)) as Epow.
    { replace (7 * Z.of_nat (S i)) with (7 + 7 * Z.of_nat i) by lia.
      by rewrite Z.pow_add_r by lia. }
    pose proof (Z.div_mod x 128 ltac:(lia)) as Ed.
    replace (7 * Z.of_nat i + 7) with (7 * Z.of_nat (S i)) by lia.
    assert (acc + x mod 128 * 2 ^ (7 * Z.of_nat i)
            + x / 128 * 2 ^ (7 * Z.of_nat (S i))
            = acc + x * 2 ^ (7 * Z.of_nat i)) as Esum.
    { rewrite Epow. rewrite Ed at 3. ring. }
    rewrite IH; [|apply Z.div_pos; lia|rewrite Epow; nia|lia| |].
    + f_equal; [lia|]. cbn [length]. lia.
    + rewrite Esum. done.
    + intros ->. exfalso.
      assert (i = 9%nat) as -> by (unfold MaxVarintLen64 in Hi; lia).
      change (7 * Z.of_nat 9) with 63 in *. nia.
  - destruct (Nat.eqb_spec i MaxVarintLen64); [lia|].
    rewrite Z.mod_small by lia.
    destruct (Z.ltb_spec x 128); [|lia].
    destruct (_ && _) eqn:E.
    + apply andb_prop in E as [E1 E2]. apply Nat.eqb_eq in E1. to_prop.
      change (MaxVarintLen64 - 1)%nat with 9%nat in E1. subst i.
      change (7 * Z.of_nat 9) with 63 in *. nia.
    + rewrite Z.shiftl_mul_pow2 by lia.
      unfold wrapU64. rewrite Z.mod_small by nia.
      rewrite <- Z.shiftl_mul_pow2, lor_shiftl_add, Z.shiftl_mul_pow2 by lia. done.
Qed.

Lemma Uvarint_roundtrip x rest :
  0 <= x < 2 ^ 64 ->
  Uvarint (AppendUvarint [] x ++ rest) =
  (x, Z.of_nat (length (AppendUvarint [] x))).
Proof.
  intros Hx. unfold Uvarint, AppendUvarint. rewrite app_nil_l.
  pose proof (uvarintLoop_append MaxVarintLen64 x rest 0 0 (proj1 Hx)) as E.
  change (7 * Z.of_nat 0) with 0 in E. rewrite Z.pow_0_r, Z.mul_1_r in E.
  rewrite E; [|lia|done|lia|done]. f_equal; lia.
Qed.

Lemma AppendUvarint_pos x : 0 <= x -> (0 < length (AppendUvarint [] x))%nat.
Proof.
  intros. unfold AppendUvarint, MaxVarintLen64. cbn [appendUvarintLoop app].
  destruct (128 <=? x); cbn [length]; lia.
Qed.

Lemma AppendUvarint_app buf x : AppendUvarint buf x = buf ++ AppendUvarint [] x.
Proof. done. Qed.

Lemma AppendVarint_app buf x : AppendVarint buf x = buf ++ AppendVarint [] x.
Proof. done. Qed.

(** The zig-zag image of an [int64]. *)
Lemma zigzag_value x :
  in_int64 x ->
  (let ux := wrapU64 (Z.shiftl (wrapU64 x) 1) in
   if x <? 0 then 2 ^ 64 - 1 - ux else ux) =
  if x <? 0 then - 2 * x - 1 else 2 * x.
Proof.
  unfold in_int64; intros. cbv zeta. unfold wrapU64.
  rewrite Z.shiftl_mul_pow2 by lia. change (2 ^ 1) with 2.
  destruct (Z.ltb_spec x 0).
  - rewrite <- (Z.mod_add x 1 (2 ^ 64)) by lia.
    rewrite (Z.mod_small (x + 1 * 2 ^ 64)) by lia.
    replace ((x + 1 * 2 ^ 64) * 2) with (2 ^ 64 + 2 * x + 1 * 2 ^ 64) by lia.
    rewrite Z.mod_add, Z.mod_small by lia. lia.
  - rewrite (Z.mod_small x), Z.mod_small by lia. lia.
Qed.

Lemma zigzag_bound x :
  in_int64 x -> 0 <= (if x <? 0 then - 2 * x - 1 else 2 * x) < 2 ^ 64.
Proof. unfold in_int64; intros. destruct (Z.ltb_spec x 0); lia. Qed.

Lemma Varint_roundtrip x rest :
  in_int64 x ->
  Varint (AppendVarint [] x ++ rest) =
  (x, Z.of_nat (length (AppendVarint [] x))).
Proof.
  intros Hx. unfold Varint, AppendVarint. cbv zeta.
  pose proof (zigzag_value x Hx) as Hz. cbv zeta in Hz. rewrite Hz.
  rewrite Uvarint_roundtrip by by apply zigzag_bound.
  destruct (Z.ltb_spec x 0) as [Hn|Hn]; f_equal;
    rewrite Z.shiftr_div_pow2 by lia; change (2 ^ 1) with 2.
  - replace (- 2 * x - 1) with (1 + 2 * (- x - 1)) by lia.
    rewrite Z.odd_add_mul_2. simpl.
    rewrite (Z.mul_comm 2), Z.div_add by lia.
    change (1 / 2) with 0. lia.
  - rewrite Z.odd_mul. simpl. rewrite (Z.mul_comm 2), Z.div_mul; lia.
Qed.

Lemma AppendVarint_pos x : in_int64 x -> (0 < length (AppendVarint [] x))%nat.
Proof.
  intros Hx. unfold AppendVarint. pose proof (zigzag_value x Hx) as Hz.
  cbv zeta in *. rewrite Hz. apply AppendUvarint_pos, zigzag_bound, Hx.
Qed.

Arguments appendUvarintLoop : simpl never.
Arguments AppendUvarint : simpl never.
Arguments AppendVarint : simpl never.
Arguments Uvarint : simpl never.
Arguments Varint : simpl never.
