(* ===== verification/SpanHist.v ===== *)
(** * Quarter-octave duration histograms ([internal/spanhist])

    [Hist] is the sparse histogram: bins in ascending index order, one per
    index, and the total count.  [Add] finds the bin by Go's
    [slices.BinarySearchFunc]; [addBin] is the linear insertion it is proved
    equal to.  [Index] and [Percentile] use float arithmetic ([math.Log2],
    division, [math.Round]); the values they produce are parameters of the
    definitions that need them. *)
From S2P Require Import Prelude Varint.

(** [Bins] *)
Definition Bins : Z := 160.

(** [Clamp] *)
Definition Clamp (i : Z) : Z := Z.min (Z.max i 0) (Bins - 1).

(** [Index]: [log2x4 us] is [int(math.Log2(float64(us)+1) * 4)]. *)
Definition Index (log2x4 : Z -> Z) (us : Z) : Z :=
  if us <=? 0 then 0 else Clamp (log2x4 us).

(** [Bin] *)
Record Bin := mkBin { b_Index : Z; b_Count : Z; b_Min : Z; b_Max : Z }.

(** [Hist] *)
Record Hist := mkHist { h_bins : list Bin; h_total : Z }.

Definition emptyHist : Hist := mkHist [] 0.

#[export] Instance Bin_eq_dec : EqDecision Bin.
Proof. solve_decision. Defined.

(** [slices.BinarySearchFunc] over the bin indexes. *)
Fixpoint searchLoop (fuel : nat) (l : list Bin) (idx : Z) (i j : nat) : nat :=
  match fuel with
  | O => i
  | S fuel =>
      if (i <? j)%nat then
        let h := ((i + j) / 2)%nat in
        match l !! h with
        | Some x => if b_Index x - idx <? 0 then searchLoop fuel l idx (S h) j
                    else searchLoop fuel l idx i h
        | None => i
        end
      else i
  end.

Definition BinarySearch (l : list Bin) (idx : Z) : nat * bool :=
  let i := searchLoop (S (length l)) l idx 0 (length l) in
  (i, match l !! i with Some x => b_Index x - idx =? 0 | None => false end).

(** The in-place merge of [Add]. *)
Definition mergeBin (cur b : Bin) : Bin :=
  mkBin (b_Index cur) (b_Count cur + b_Count b) (Z.min (b_Min cur) (b_Min b))
    (Z.max (b_Max cur) (b_Max b)).

(** [Hist.Add] *)
Definition Hist_Add (h : Hist) (b : Bin) : Hist :=
  if b_Count b <=? 0 then h
  else
    let b := mkBin (Clamp (b_Index b)) (b_Count b) (b_Min b) (b_Max b) in
    let '(i, found) := BinarySearch (h_bins h) (b_Index b) in
    mkHist
      (if negb found then take i (h_bins h) ++ b :: drop i (h_bins h)
       else alter (fun cur => mergeBin cur b) i (h_bins h))
      (h_total h + b_Count b).

(** [Hist.Merge] *)
Definition Hist_Merge (h o : Hist) : Hist := foldl Hist_Add h (h_bins o).

(** [Hist.Count] *)
Definition Hist_Count (h : Hist) : Z := h_total h.

(** [Hist.Between] *)
Definition Hist_Between (h : Hist) (lo hi : Z) : Hist :=
  foldl (fun out b =>
    if (lo <=? b_Index b) && (b_Index b <? hi)
    then mkHist (h_bins out ++ [b]) (h_total out + b_Count b) else out)
    emptyHist (h_bins h).

(** [Hist.Observe] *)
Definition Hist_Observe (log2x4 : Z -> Z) (h : Hist) (us : Z) : Hist :=
  Hist_Add h (mkBin (Index log2x4 us) 1 us us).

(** [Hist.Percentile].  [rawRank] is [int64(p/100*float64(h.total)+0.5)] and
    [interp num den width] is
    [int64(math.Round(float64(num)/float64(den)*float64(width)))]. *)
Fixpoint percentileLoop (interp : Z -> Z -> Z -> Z) (rank before : Z)
  (bins : list Bin) (last : Z) : Z :=
  match bins with
  | [] => last
  | b :: bins =>
      if before + b_Count b <? rank
      then percentileLoop interp rank (before + b_Count b) bins last
      else if b_Count b =? 1 then b_Min b
      else b_Min b + interp (rank - before - 1) (b_Count b - 1) (b_Max b - b_Min b)
  end.

Definition percentileRank (rawRank total : Z) : Z := Z.min (Z.max rawRank 1) total.

Definition Hist_Percentile (interp : Z -> Z -> Z -> Z) (rawRank : Z) (h : Hist) : Z :=
  if h_total h =? 0 then 0
  else percentileLoop interp (percentileRank rawRank (h_total h)) 0 (h_bins h)
         (from_option b_Max 0 (last (h_bins h))).

(** ** Encoding *)

Definition encodingV1 : Z := 1.

Definition encodeBin (b : Bin) : list Z :=
  AppendUvarint
    (AppendVarint
       (AppendUvarint [b_Index b mod 256] (wrapU64 (b_Count b)))
       (b_Min b))
    (wrapU64 (wrap64 (b_Max b - b_Min b))).

(** [Hist.Encode] *)
Definition Hist_Encode (h : Hist) : list Z :=
  foldl (fun out b => out ++ encodeBin b) [encodingV1] (h_bins h).

(** One iteration of the loop of [Decode]: the bin read and the bytes left, or
    [None] for [ErrCorrupt]. *)
Definition decodeBin (last : Z) (buf : list Z) : option (Bin * list Z) :=
  match buf with
  | [] => None
  | b0 :: buf =>
      if (Bins <=? b0) || (b0 <=? last) then None else
      let '(count, n) := Uvarint buf in
      if (n <=? 0) || (count =? 0) then None else
      let buf := drop (Z.to_nat n) buf in
      let '(lo, n) := Varint buf in
      if n <=? 0 then None else
      let buf := drop (Z.to_nat n) buf in
      let '(width, n) := Uvarint buf in
      if n <=? 0 then None else
      let buf := drop (Z.to_nat n) buf in
      Some (mkBin b0 (wrap64 count) lo (wrap64 (lo + wrap64 width)), buf)
  end.

(** The loop of [Decode].  Every iteration reads at least one byte, so the
    length of the buffer bounds the iterations. *)
Fixpoint decodeLoop (fuel : nat) (last : Z) (h : Hist) (buf : list Z)
  : option Hist :=
  match buf with
  | [] => Some h
  | _ =>
      match fuel with
      | O => None
      | S fuel =>
          match decodeBin last buf with
          | None => None
          | Some (b, buf) =>
              decodeLoop fuel (b_Index b)
                (mkHist (h_bins h ++ [b]) (h_total h + b_Count b)) buf
          end
      end
  end.

(** [Decode] *)
Definition Decode (buf : list Z) : option Hist :=
  match buf with
  | [] => None
  | v :: buf =>
      if negb (v =? encodingV1) then None
      else decodeLoop (length buf) (-1) emptyHist buf
  end.

(** [MergeEncoded] *)
Definition MergeEncoded (a b : list Z) : option (list Z) :=
  ha ← Decode a; hb ← Decode b; Some (Hist_Encode (Hist_Merge ha hb)).

Arguments encodeBin : simpl never.
Arguments decodeBin : simpl never.
Arguments Hist_Add : simpl never.

(** ** The invariant

    Bins ascend strictly, every index is in range, every count is positive and
    the total is the sum of the counts. *)

Definition binLt (a b : Bin) : Prop := b_Index a < b_Index b.

Definition wfBin (b : Bin) : Prop := 0 <= b_Index b < Bins /\ 0 < b_Count b.

Definition wfHist (h : Hist) : Prop :=
  StronglySorted binLt (h_bins h) /\ Forall wfBin (h_bins h) /\
  h_total h = sumBy b_Count (h_bins h).

(** The reference insertion. *)
Fixpoint addBin (b : Bin) (l : list Bin) : list Bin :=
  match l with
  | [] => [b]
  | x :: l' =>
      if b_Index b <? b_Index x then b :: l
      else if b_Index b =? b_Index x then mergeBin x b :: l'
      else x :: addBin b l'
  end.

(** What a sorted bin list holds at an index. *)
Fixpoint binAt (l : list Bin) (i : Z) : option Bin :=
  match l with
  | [] => None
  | b :: l => if b_Index b =? i then Some b else binAt l i
  end.

Lemma emptyHist_wf : wfHist emptyHist.
Proof. repeat split; constructor. Qed.

Lemma Clamp_range i : 0 <= Clamp i < Bins.
Proof. unfold Clamp, Bins. lia. Qed.

Lemma Clamp_id i : 0 <= i < Bins -> Clamp i = i.
Proof. unfold Clamp, Bins. lia. Qed.

#[export] Hint Resolve emptyHist_wf Clamp_range : spanbarn.

(** *** Binary search is linear search on ascending bins *)

Lemma searchLoop_spec fuel l idx : forall i j,
  StronglySorted binLt l ->
  (i <= j <= length l)%nat -> (j - i < fuel)%nat ->
  (forall k x, (k < i)%nat -> l !! k = Some x -> b_Index x < idx) ->
  (forall k x, (j <= k)%nat -> l !! k = Some x -> idx <= b_Index x) ->
  let r := searchLoop fuel l idx i j in
  (r <= length l)%nat /\
  (forall k x, (k < r)%nat -> l !! k = Some x -> b_Index x < idx) /\
  (forall k x, (r <= k)%nat -> l !! k = Some x -> idx <= b_Index x).
Proof.
  induction fuel as [|fuel IH]; intros i j Hs Hij Hf Hlo Hhi; [lia|].
  cbn [searchLoop]. destruct (Nat.ltb_spec i j) as [Hlt|Hge].
  2:{ assert (i = j) as -> by lia. cbv zeta. repeat split; [lia|done|done]. }
  set (h := ((i + j) / 2)%nat).
  assert (i <= h < j)%nat as Hh.
  { unfold h. split; [apply Nat.div_le_lower_bound | apply Nat.Div0.div_lt_upper_bound]; lia. }
  destruct (lookup_lt_is_Some_2 l h ltac:(lia)) as [x Hx]. rewrite Hx.
  destruct (Z.ltb_spec (b_Index x - idx) 0).
  - apply IH; [done|lia|lia| |done]. intros k y Hk Hy.
    destruct (decide (k = h)) as [->|]; [simplify_eq; lia|].
    pose proof (StronglySorted_lookup _ _ k h _ _ Hs ltac:(lia) Hy Hx).
    unfold binLt in *. lia.
  - apply IH; [done|lia|lia|done|]. intros k y Hk Hy.
    destruct (decide (k = h)) as [->|]; [simplify_eq; lia|].
    pose proof (StronglySorted_lookup _ _ h k _ _ Hs ltac:(lia) Hx Hy).
    unfold binLt in *. lia.
Qed.

(** The position the search returns splits the bins at the index. *)
Lemma BinarySearch_split l idx :
  StronglySorted binLt l ->
  exists l1 l2, l = l1 ++ l2 /\
    Forall (fun x => b_Index x < idx) l1 /\
    Forall (fun x => idx <= b_Index x) l2 /\
    BinarySearch l idx =
      (length l1, match l2 with x :: _ => b_Index x =? idx | [] => false end).
Proof.
  intros Hs. unfold BinarySearch.
  destruct (searchLoop_spec (S (length l)) l idx 0 (length l)) as (Hr & Hlo & Hhi);
    [done|lia|lia|lia|intros k x Hk Hx; apply lookup_lt_Some in Hx; lia|].
  set (r := searchLoop _ _ _ _ _) in *.
  exists (take r l), (drop r l). rewrite take_drop.
  split; [done|]. split; [|split].
  - apply Forall_lookup. intros k x [??]%lookup_take_Some. eauto.
  - apply Forall_lookup. intros k x Hx. rewrite lookup_drop in Hx.
    eapply Hhi; [|done]. lia.
  - rewrite length_take, Nat.min_l by done. f_equal.
    rewrite <- (Nat.add_0_r r) at 1. rewrite <- lookup_drop.
    destruct (drop r l) as [|x ?]; [done|]. simpl.
    destruct (Z.eqb_spec (b_Index x - idx) 0), (Z.eqb_spec (b_Index x) idx); lia || done.
Qed.

Lemma addBin_app b l1 l2 :
  Forall (fun x => b_Index x < b_Index b) l1 ->
  addBin b (l1 ++ l2) = l1 ++ addBin b l2.
Proof.
  induction 1 as [|x l1 Hx _ IH]; simpl; [done|].
  destruct (Z.ltb_spec (b_Index b) (b_Index x)); [lia|].
  destruct (Z.eqb_spec (b_Index b) (b_Index x)); [lia|]. by rewrite IH.
Qed.

(** [Add] by binary search is the linear insertion. *)
Lemma Hist_Add_addBin h b :
  StronglySorted binLt (h_bins h) -> 0 < b_Count b ->
  Hist_Add h b =
  mkHist (addBin (mkBin (Clamp (b_Index b)) (b_Count b) (b_Min b) (b_Max b)) (h_bins h))
    (h_total h + b_Count b).
Proof.
  intros Hs Hc. unfold Hist_Add. destruct (Z.leb_spec (b_Count b) 0); [lia|].
  set (b' := mkBin _ _ _ _). cbv zeta.
  destruct (BinarySearch_split (h_bins h) (b_Index b') Hs) as (l1 & l2 & E & H1 & H2 & ->).
  rewrite E, addBin_app by done. cbv iota beta. f_equal.
  destruct l2 as [|x l2]; simpl.
  - rewrite app_nil_r, firstn_all, drop_all. done.
  - inversion_clear H2 as [|?? Hx _]. change (Clamp (b_Index b)) with (b_Index b').
    destruct (Z.ltb_spec (b_Index b') (b_Index x)),
      (Z.eqb_spec (b_Index x) (b_Index b')),
      (Z.eqb_spec (b_Index b') (b_Index x)); try lia; simpl.
    + by rewrite take_app_length, drop_app_length.
    + by rewrite alter_app_r_alt, Nat.sub_diag by lia.
Qed.

Lemma addBin_Forall (P : Bin -> Prop) b l :
  (forall x, P x -> P (mergeBin x b)) -> P b -> Forall P l -> Forall P (addBin b l).
Proof.
  intros Hm Hb. induction 1 as [|x l Hx Hl IH]; simpl; [by repeat constructor|].
  repeat case_match; repeat constructor; auto.
Qed.

Lemma addBin_sorted b l : StronglySorted binLt l -> StronglySorted binLt (addBin b l).
Proof.
  induction 1 as [|x l Hs IH Hx]; simpl; [repeat constructor|].
  destruct (Z.ltb_spec (b_Index b) (b_Index x)) as [|].
  - constructor; [by constructor|]. constructor; [done|].
    eapply Forall_impl; [done|]. unfold binLt; simpl; lia.
  - destruct (Z.eqb_spec (b_Index b) (b_Index x)).
    + by constructor.
    + constructor; [done|]. apply addBin_Forall; [|unfold binLt; lia|done].
      by intros y.
Qed.

Lemma addBin_total b l : sumBy b_Count (addBin b l) = b_Count b + sumBy b_Count l.
Proof. induction l as [|x l IH]; simpl; repeat case_match; simpl in *; lia. Qed.

Lemma Hist_Add_skip h b : b_Count b <= 0 -> Hist_Add h b = h.
Proof. intros. unfold Hist_Add. destruct (Z.leb_spec (b_Count b) 0); [done|lia]. Qed.

Lemma Hist_Add_wf h b : wfHist h -> wfHist (Hist_Add h b).
Proof.
  intros (Hs & Hb & Ht). destruct (Z.le_gt_cases (b_Count b) 0).
  { by rewrite Hist_Add_skip. }
  rewrite Hist_Add_addBin by done. repeat split; simpl.
  - by apply addBin_sorted.
  - apply addBin_Forall; [|split; [apply Clamp_range|done]|done].
    intros x [??]. split; simpl; [done|lia].
  - rewrite addBin_total, Ht. simpl. lia.
Qed.

#[export] Hint Resolve Hist_Add_wf addBin_sorted : spanbarn.

(** *** Bins by index *)

Lemma binAt_index l i b : binAt l i = Some b -> b_Index b = i.
Proof.
  induction l; simpl; [done|]. case_match; [|done]. intros [= <-]. to_prop. done.
Qed.

Lemma binAt_above l i : Forall (fun x => i < b_Index x) l -> binAt l i = None.
Proof.
  induction 1 as [|x l Hx Hl IH]; simpl; [done|].
  destruct (Z.eqb_spec (b_Index x) i); [lia|done].
Qed.

Lemma binAt_head x l :
  StronglySorted binLt (x :: l) -> binAt l (b_Index x) = None.
Proof. intros [_ H]%StronglySorted_inv. by apply binAt_above. Qed.

Lemma sorted_bins_ext l1 l2 :
  StronglySorted binLt l1 -> StronglySorted binLt l2 ->
  (forall i, binAt l1 i = binAt l2 i) -> l1 = l2.
Proof.
  intros H1. revert l2. induction H1 as [|x l1 Hs1 IH Hx]; intros l2 H2 E.
  - destruct l2 as [|y l2]; [done|]. specialize (E (b_Index y)). simpl in E.
    by rewrite Z.eqb_refl in E.
  - destruct l2 as [|y l2].
    { specialize (E (b_Index x)). simpl in E. by rewrite Z.eqb_refl in E. }
    pose proof (StronglySorted_inv H2) as [Hs2 Hy].
    assert (b_Index x = b_Index y) as Hxy.
    { destruct (Z.lt_trichotomy (b_Index x) (b_Index y)) as [L|[?|L]]; [|done|];
        exfalso.
      - specialize (E (b_Index x)). simpl in E. rewrite Z.eqb_refl in E.
        destruct (Z.eqb_spec (b_Index y) (b_Index x)); [lia|].
        rewrite binAt_above in E; [done|].
        eapply Forall_impl; [done|]. unfold binLt; simpl; lia.
      - specialize (E (b_Index y)). simpl in E. rewrite Z.eqb_refl in E.
        destruct (Z.eqb_spec (b_Index x) (b_Index y)); [lia|].
        rewrite binAt_above in E; [done|].
        eapply Forall_impl; [done|]. unfold binLt; simpl; lia. }
    pose proof (E (b_Index x)) as Ex. simpl in Ex.
    rewrite Hxy, Z.eqb_refl in Ex. injection Ex as <-.
    f_equal. apply IH; [done|]. intros i.
    destruct (decide (b_Index x = i)) as [<-|Hne].
    + rewrite !binAt_head; [done|done|by constructor].
    + specialize (E i). simpl in E.
      by destruct (Z.eqb_spec (b_Index x) i).
Qed.

Definition optMerge (x y : option Bin) : option Bin :=
  match x, y with
  | None, y => y
  | x, None => x
  | Some x, Some y => Some (mergeBin x y)
  end.

Lemma binAt_addBin b l i :
  StronglySorted binLt l ->
  binAt (addBin b l) i =
  if b_Index b =? i then optMerge (binAt l i) (Some b) else binAt l i.
Proof.
  induction 1 as [|x l Hs IH Hx]; simpl.
  { by destruct (Z.eqb_spec (b_Index b) i). }
  destruct (Z.ltb_spec (b_Index b) (b_Index x)) as [L|L]; simpl.
  - destruct (Z.eqb_spec (b_Index b) i) as [<-|]; [|done].
    destruct (Z.eqb_spec (b_Index x) (b_Index b)); [lia|].
    rewrite binAt_above; [done|].
    eapply Forall_impl; [done|]. unfold binLt; simpl; lia.
  - destruct (Z.eqb_spec (b_Index b) (b_Index x)) as [Ebx|]; simpl.
    + rewrite Ebx. by destruct (Z.eqb_spec (b_Index x) i).
    + rewrite IH. destruct (Z.eqb_spec (b_Index x) i), (Z.eqb_spec (b_Index b) i);
        try lia; done.
Qed.

Lemma Hist_ext h1 h2 :
  wfHist h1 -> wfHist h2 ->
  (forall i, binAt (h_bins h1) i = binAt (h_bins h2) i) -> h1 = h2.
Proof.
  intros (S1 & _ & T1) (S2 & _ & T2) E.
  pose proof (sorted_bins_ext _ _ S1 S2 E) as Eb.
  destruct h1, h2; simpl in *. congruence.
Qed.

Lemma binAt_Hist_Add h b i :
  wfHist h -> 0 < b_Count b ->
  binAt (h_bins (Hist_Add h b)) i =
  if Clamp (b_Index b) =? i
  then optMerge (binAt (h_bins h) i)
         (Some (mkBin (Clamp (b_Index b)) (b_Count b) (b_Min b) (b_Max b)))
  else binAt (h_bins h) i.
Proof.
  intros [Hs _] Hc. rewrite Hist_Add_addBin by done. simpl.
  by rewrite binAt_addBin.
Qed.

(** Every result of [optMerge] on the same index commutes. *)
Lemma optMerge_comm x y i :
  (forall b, x = Some b -> b_Index b = i) -> (forall b, y = Some b -> b_Index b = i) ->
  optMerge x y = optMerge y x.
Proof.
  intros Hx Hy. destruct x as [x|], y as [y|]; simpl; try done.
  unfold mergeBin. do 2 f_equal; [|lia..].
  rewrite (Hx x), (Hy y); done.
Qed.

Lemma optMerge_assoc x y z : optMerge x (optMerge y z) = optMerge (optMerge x y) z.
Proof.
  destruct x, y, z; simpl; try done. unfold mergeBin; simpl. do 2 f_equal; lia.
Qed.

Lemma foldl_Add_spec l : forall h,
  wfHist h -> StronglySorted binLt l -> Forall wfBin l ->
  wfHist (foldl Hist_Add h l) /\
  forall i, binAt (h_bins (foldl Hist_Add h l)) i =
            optMerge (binAt (h_bins h) i) (binAt l i).
Proof.
  induction l as [|b l IH]; intros h Hh Hs Hb; simpl.
  { split; [done|]. intros i. by destruct (binAt _ _). }
  apply StronglySorted_inv in Hs as [Hs Hlt]. inversion_clear Hb as [|?? [Hi Hc] Hl].
  destruct (IH (Hist_Add h b)) as [Hw E]; [by apply Hist_Add_wf|done|done|].
  split; [done|]. intros i. rewrite E, binAt_Hist_Add by done.
  rewrite Clamp_id by done. destruct b as [bi bc bm bM]; simpl in *.
  destruct (Z.eqb_spec bi i) as [<-|]; [|done].
  rewrite (binAt_above l bi) by done. by destruct (binAt (h_bins h) bi).
Qed.

Lemma Hist_Merge_wf h o : wfHist h -> wfHist o -> wfHist (Hist_Merge h o).
Proof. intros Hh (Hs & Hb & _). by apply foldl_Add_spec. Qed.

Lemma binAt_Hist_Merge h o i :
  wfHist h -> wfHist o ->
  binAt (h_bins (Hist_Merge h o)) i =
  optMerge (binAt (h_bins h) i) (binAt (h_bins o) i).
Proof. intros Hh (Hs & Hb & _). by apply foldl_Add_spec. Qed.

#[export] Hint Resolve Hist_Merge_wf : spanbarn.

Lemma Hist_Merge_comm_lem a b : wfHist a -> wfHist b -> Hist_Merge a b = Hist_Merge b a.
Proof.
  intros. apply Hist_ext; auto with spanbarn. intros i.
  rewrite !binAt_Hist_Merge by done.
  by apply (optMerge_comm _ _ i); intros ? ?%binAt_index.
Qed.

Lemma Hist_Merge_assoc_lem a b c :
  wfHist a -> wfHist b -> wfHist c ->
  Hist_Merge a (Hist_Merge b c) = Hist_Merge (Hist_Merge a b) c.
Proof.
  intros. apply Hist_ext; auto with spanbarn. intros i.
  rewrite !binAt_Hist_Merge by auto with spanbarn. apply optMerge_assoc.
Qed.

Lemma Hist_Merge_Add a h b :
  wfHist a -> wfHist h -> Hist_Merge a (Hist_Add h b) = Hist_Add (Hist_Merge a h) b.
Proof.
  intros Ha Hh. destruct (Z.le_gt_cases (b_Count b) 0) as [Hc|Hc].
  { by rewrite !Hist_Add_skip. }
  apply Hist_ext; auto with spanbarn. intros i.
  rewrite binAt_Hist_Merge, !binAt_Hist_Add, binAt_Hist_Merge
    by auto with spanbarn.
  destruct (_ =? i); [apply optMerge_assoc|done].
Qed.

Lemma Hist_Add_comm h a b :
  wfHist h -> Hist_Add (Hist_Add h a) b = Hist_Add (Hist_Add h b) a.
Proof.
  intros Hh. destruct (Z.le_gt_cases (b_Count a) 0) as [|Ha].
  { by rewrite !(Hist_Add_skip _ a). }
  destruct (Z.le_gt_cases (b_Count b) 0) as [|Hb].
  { by rewrite !(Hist_Add_skip _ b). }
  apply Hist_ext; auto with spanbarn. intros i.
  rewrite !binAt_Hist_Add by auto with spanbarn.
  destruct (Z.eqb_spec (Clamp (b_Index a)) i), (Z.eqb_spec (Clamp (b_Index b)) i);
    try done.
  rewrite <- !optMerge_assoc. f_equal.
  apply (optMerge_comm _ _ i); by intros ? [= <-].
Qed.

(** ** Observations *)

Section Observations.
Context (log2x4 : Z -> Z).

Definition observeAll (h : Hist) (us : list Z) : Hist :=
  foldl (Hist_Observe log2x4) h us.

Lemma observeAll_wf us : forall h, wfHist h -> wfHist (observeAll h us).
Proof.
  induction us as [|u us IH]; intros h Hh; simpl; [done|].
  apply IH. by apply Hist_Add_wf.
Qed.

Lemma observeAll_perm_lem us vs :
  us ≡ₚ vs -> forall h, wfHist h -> observeAll h us = observeAll h vs.
Proof.
  induction 1 as [|u us vs _ IH|u v us|us vs ws _ IH1 _ IH2]; intros h Hh; simpl.
  - done.
  - apply IH. by apply Hist_Add_wf.
  - f_equal. by apply Hist_Add_comm.
  - by rewrite IH1, IH2.
Qed.

Lemma Merge_observeAll_lem a us : forall h,
  wfHist a -> wfHist h ->
  Hist_Merge a (observeAll h us) = observeAll (Hist_Merge a h) us.
Proof.
  induction us as [|u us IH]; intros h Ha Hh; simpl; [done|].
  rewrite IH by (done || by apply Hist_Add_wf). f_equal. by apply Hist_Merge_Add.
Qed.
End Observations.

(** ** Encode and decode *)

(** The field values a Go [Bin] can hold. *)
Definition int64Bin (b : Bin) : Prop :=
  b_Count b < 2 ^ 63 /\ in_int64 (b_Min b) /\ in_int64 (b_Max b).

Lemma wrap64_wrapU64_wrap64 z : wrap64 (wrapU64 (wrap64 z)) = wrap64 z.
Proof. rewrite wrap64_wrapU64. apply wrap64_id, wrap64_range. Qed.

Lemma drop_app_Z {A} (l1 l2 : list A) :
  drop (Z.to_nat (Z.of_nat (length l1))) (l1 ++ l2) = l2.
Proof. by rewrite Nat2Z.id, drop_app_length. Qed.

Lemma decodeBin_encodeBin last b rest :
  wfBin b -> int64Bin b -> last < b_Index b ->
  decodeBin last (encodeBin b ++ rest) = Some (b, rest).
Proof.
  intros [Hi Hc] (Hc2 & Hmin & Hmax) Hlast.
  unfold encodeBin.
  rewrite (AppendUvarint_app (AppendVarint _ _)), (AppendVarint_app (AppendUvarint _ _)),
    (AppendUvarint_app [_]).
  rewrite <- !app_assoc. cbn [app]. unfold decodeBin. cbv zeta.
  unfold Bins in *. rewrite (Z.mod_small (b_Index b)) by lia.
  destruct (Z.leb_spec 160 (b_Index b)); [lia|].
  destruct (Z.leb_spec (b_Index b) last); [lia|]. cbn [orb].
  replace (wrapU64 (b_Count b)) with (b_Count b)
    by (symmetry; apply Z.mod_small; lia).
  rewrite Uvarint_roundtrip by lia.
  pose proof (AppendUvarint_pos (b_Count b) ltac:(lia)).
  destruct (Z.leb_spec (Z.of_nat (length (AppendUvarint [] (b_Count b)))) 0); [lia|].
  destruct (Z.eqb_spec (b_Count b) 0); [lia|]. cbn [orb].
  rewrite drop_app_Z, Varint_roundtrip by done.
  pose proof (AppendVarint_pos (b_Min b) Hmin).
  destruct (Z.leb_spec (Z.of_nat (length (AppendVarint [] (b_Min b)))) 0); [lia|].
  rewrite drop_app_Z.
  assert (0 <= wrapU64 (wrap64 (b_Max b - b_Min b)) < 2 ^ 64) as Hw
    by (apply Z.mod_pos_bound; lia).
  rewrite Uvarint_roundtrip by done.
  pose proof (AppendUvarint_pos _ (proj1 Hw)).
  destruct (Z.leb_spec (Z.of_nat (length (AppendUvarint []
    (wrapU64 (wrap64 (b_Max b - b_Min b)))))) 0); [lia|].
  rewrite drop_app_Z, wrap64_wrapU64_wrap64, wrap64_add_r.
  replace (b_Min b + (b_Max b - b_Min b)) with (b_Max b) by lia.
  rewrite !wrap64_id by (done || unfold in_int64; lia). by destruct b.
Qed.

Lemma encodeBin_pos b : (0 < length (encodeBin b))%nat.
Proof.
  unfold encodeBin.
  rewrite AppendUvarint_app, AppendVarint_app, AppendUvarint_app.
  rewrite !length_app. simpl. lia.
Qed.

Lemma Hist_Encode_concat h :
  Hist_Encode h = encodingV1 :: concat (map encodeBin (h_bins h)).
Proof.
  unfold Hist_Encode.
  assert (forall l acc, foldl (fun out b => out ++ encodeBin b) acc l
    = acc ++ concat (map encodeBin l)) as E.
  { induction l as [|b l IH]; intros acc; cbn [foldl map concat];
      [by rewrite app_nil_r|]. rewrite IH, app_assoc. reflexivity. }
  apply E.
Qed.

Lemma decodeLoop_encode l : forall fuel last h,
  (length (concat (map encodeBin l)) <= fuel)%nat ->
  StronglySorted binLt l -> Forall wfBin l -> Forall int64Bin l ->
  (forall b, b ∈ l -> last < b_Index b) ->
  decodeLoop fuel last h (concat (map encodeBin l)) =
  Some (mkHist (h_bins h ++ l) (h_total h + sumBy b_Count l)).
Proof.
  induction l as [|b l IH]; intros fuel last h Hf Hs Hw Hb Hlast; cbn [map concat].
  - replace (decodeLoop fuel last h []) with (Some h) by by destruct fuel.
    rewrite app_nil_r. cbn. rewrite Z.add_0_r. by destruct h.
  - apply StronglySorted_inv in Hs as [Hs Hlt].
    inversion_clear Hw as [|?? Hwb Hwl]. inversion_clear Hb as [|?? Hbb Hbl].
    pose proof (encodeBin_pos b). cbn [map concat] in Hf. rewrite length_app in Hf.
    destruct fuel as [|fuel]; [lia|].
    unfold decodeLoop; fold decodeLoop.
    destruct (encodeBin b ++ concat (map encodeBin l)) as [|z zs] eqn:E.
    { apply (f_equal length) in E. rewrite length_app in E. cbn [length] in E. lia. }
    assert (last < b_Index b) as Hl by (apply Hlast; set_solver).
    rewrite <- E, (decodeBin_encodeBin last b _ Hwb Hbb Hl).
    rewrite IH; [|lia|done|done|done|].
    + rewrite sumBy_cons. cbn [h_bins h_total]. rewrite <- app_assoc.
      do 2 f_equal. lia.
    + intros b' Hb'. rewrite Forall_forall in Hlt. by apply Hlt.
Qed.

Lemma Decode_Encode_lem h :
  wfHist h -> Forall int64Bin (h_bins h) -> Decode (Hist_Encode h) = Some h.
Proof.
  intros (Hs & Hw & Ht) Hb. rewrite Hist_Encode_concat. unfold Decode.
  change (negb (encodingV1 =? encodingV1)) with false. cbv iota.
  rewrite decodeLoop_encode; [|done..|].
  - cbn. rewrite <- Ht. by destruct h.
  - intros b Hin. rewrite Forall_forall in Hw. destruct (Hw b Hin). lia.
Qed.

(** ** Percentiles

    [interp] is the float interpolation inside a bin; what the percentile
    relies on is that it stays within the width and grows with the position. *)

Class InterpLaws (interp : Z -> Z -> Z -> Z) := {
  interp_range num den width :
    0 <= num <= den -> 0 < den -> 0 <= width -> 0 <= interp num den width <= width;
  interp_mono num num' den width :
    0 <= num <= num' -> num' <= den -> 0 < den -> 0 <= width ->
    interp num den width <= interp num' den width;
}.

Section Percentiles.
Context (log2x4 : Z -> Z) (log2x4_mono : forall a b, a <= b -> log2x4 a <= log2x4 b).
Context (interp : Z -> Z -> Z -> Z) `{!InterpLaws interp}.

(** The smallest and largest duration of a bin belong to the bin. *)
Definition binRange (b : Bin) : Prop :=
  b_Min b <= b_Max b /\
  Index log2x4 (b_Min b) = b_Index b /\ Index log2x4 (b_Max b) = b_Index b.

Definition rangesOk (h : Hist) : Prop := Forall binRange (h_bins h).

Lemma Index_range us : 0 <= Index log2x4 us < Bins.
Proof. unfold Index. case_match; [unfold Bins; lia|apply Clamp_range]. Qed.

Lemma Index_mono a b : a <= b -> Index log2x4 a <= Index log2x4 b.
Proof.
  intros H. unfold Index. pose proof (log2x4_mono _ _ H).
  destruct (Z.leb_spec a 0), (Z.leb_spec b 0); unfold Clamp, Bins; lia.
Qed.

Lemma mergeBin_range x b :
  binRange x -> binRange b -> b_Index x = b_Index b -> binRange (mergeBin x b).
Proof.
  intros (Hx & Hx1 & Hx2) (Hb & Hb1 & Hb2) E. unfold binRange, mergeBin; simpl.
  split; [lia|]. split.
  - destruct (Z.min_spec (b_Min x) (b_Min b)) as [[_ ->]|[_ ->]]; congruence.
  - destruct (Z.max_spec (b_Max x) (b_Max b)) as [[_ ->]|[_ ->]]; congruence.
Qed.

Lemma addBin_ranges b l :
  binRange b -> Forall binRange l -> Forall binRange (addBin b l).
Proof.
  intros Hb. induction 1 as [|x l Hx Hl IH]; simpl.
  { by apply Forall_cons; split; [|apply Forall_nil]. }
  repeat case_match; to_prop; rewrite ?Forall_cons; auto using mergeBin_range.
Qed.

Lemma Hist_Observe_ranges h us :
  wfHist h -> rangesOk h -> rangesOk (Hist_Observe log2x4 h us).
Proof.
  intros (Hs & _ & _) Hr. unfold Hist_Observe, rangesOk.
  rewrite Hist_Add_addBin by (done || simpl; lia). simpl.
  apply addBin_ranges; [|done].
  rewrite Clamp_id by apply Index_range. split; [simpl; lia|done].
Qed.

Lemma observeAll_ranges us : forall h,
  wfHist h -> rangesOk h -> rangesOk (observeAll log2x4 h us).
Proof.
  induction us as [|u us IH]; intros h Hh Hr; simpl; [done|].
  apply IH; [by apply Hist_Add_wf|by apply Hist_Observe_ranges].
Qed.

(** The bin the percentile loop stops at holds the rank. *)
Lemma percentileLoop_spec rank bins : forall before last,
  Forall wfBin bins -> Forall binRange bins ->
  before < rank <= before + sumBy b_Count bins ->
  exists l1 b l2, bins = l1 ++ b :: l2 /\
    before + sumBy b_Count l1 < rank <= before + sumBy b_Count l1 + b_Count b /\
    b_Min b <= percentileLoop interp rank before bins last <= b_Max b.
Proof.
  induction bins as [|b bins IH]; intros before last Hw Hr Hrank.
  { simpl in Hrank. lia. }
  rewrite sumBy_cons in Hrank.
  inversion_clear Hw as [|?? [_ Hc] Hwl]. inversion_clear Hr as [|?? [Hm Hi] Hrl].
  simpl. destruct (Z.ltb_spec (before + b_Count b) rank).
  - destruct (IH (before + b_Count b) last) as (l1 & b' & l2 & -> & H1 & H2);
      [done|done|lia|].
    exists (b :: l1), b', l2. split; [done|]. rewrite sumBy_cons. split; [lia|done].
  - exists [], b, bins. simpl. split; [done|]. split; [lia|].
    destruct (Z.eqb_spec (b_Count b) 1); [lia|].
    pose proof (interp_range (rank - before - 1) (b_Count b - 1)
      (b_Max b - b_Min b) ltac:(lia) ltac:(lia) ltac:(lia)). lia.
Qed.

Lemma percentileRank_range raw total :
  0 < total -> 0 < percentileRank raw total <= total.
Proof. unfold percentileRank. lia. Qed.

Lemma percentileLoop_mono r1 r2 bins : forall before last,
  StronglySorted binLt bins -> Forall wfBin bins -> Forall binRange bins ->
  before < r1 <= r2 -> r2 <= before + sumBy b_Count bins ->
  percentileLoop interp r1 before bins last <=
  percentileLoop interp r2 before bins last.
Proof.
  induction bins as [|b bins IH]; intros before last Hs Hw Hr H1 H2; simpl; [lia|].
  rewrite sumBy_cons in H2. apply StronglySorted_inv in Hs as [Hs Hlt].
  inversion Hw as [|?? [_ Hc] Hwl]; subst. inversion Hr as [|?? [Hm [Hi Hi2]] Hrl]; subst.
  destruct (Z.ltb_spec (before + b_Count b) r1), (Z.ltb_spec (before + b_Count b) r2);
    [apply IH; (done || lia) | lia | |].
  - (* the lower rank stops in [b], the higher one goes on *)
    destruct (percentileLoop_spec r2 bins (before + b_Count b) last)
      as (l1 & b' & l2 & -> & _ & Hb'); [done|done|lia|].
    assert (b_Max b <= b_Min b') as Hle.
    { rewrite Forall_app, Forall_cons in Hlt, Hrl.
      destruct Hlt as (_ & Hlt & _), Hrl as (_ & (_ & Hi' & _) & _).
      unfold binLt in Hlt.
      destruct (Z.le_gt_cases (b_Max b) (b_Min b')) as [|G]; [done|].
      pose proof (Index_mono (b_Min b') (b_Max b) ltac:(lia)). lia. }
    destruct (Z.eqb_spec (b_Count b) 1); [lia|].
    pose proof (interp_range (r1 - before - 1) (b_Count b - 1)
      (b_Max b - b_Min b) ltac:(lia) ltac:(lia) ltac:(lia)). lia.
  - destruct (Z.eqb_spec (b_Count b) 1); [lia|].
    pose proof (interp_mono (r1 - before - 1) (r2 - before - 1) (b_Count b - 1)
      (b_Max b - b_Min b) ltac:(lia) ltac:(lia) ltac:(lia) ltac:(lia)). lia.
Qed.
End Percentiles.

(** Exact rational rounding of the interpolation satisfies the laws: half away
    from zero, as [math.Round], on non-negative operands. *)
Definition exactInterp (num den width : Z) : Z := (2 * num * width + den) / (2 * den).

#[export] Instance exactInterp_laws : InterpLaws exactInterp.
Proof.
  split; unfold exactInterp; intros.
  - split; [apply Z.div_pos; nia|].
    enough ((2 * num * width + den) / (2 * den) < width + 1) by lia.
    apply Z.div_lt_upper_bound; nia.
  - apply Z.div_le_mono; nia.
Qed.

(** [floor(4*log2(us+1))], by the exact inequality [2^k <= (us+1)^4]. *)
Definition exactLog2x4 (us : Z) : Z := Z.log2 ((Z.max us 0 + 1) ^ 4).

Lemma exactLog2x4_mono a b : a <= b -> exactLog2x4 a <= exactLog2x4 b.
Proof. intros. apply Z.log2_le_mono, Z.pow_le_mono_l. lia. Qed.

(** ** The histogram of a batch fits its encoding *)

Lemma observeAll_total log2x4 us : forall h,
  wfHist h -> h_total (observeAll log2x4 h us) = h_total h + Z.of_nat (length us).
Proof.
  induction us as [|u us IH]; intros h Hh; simpl; [lia|].
  unfold observeAll in *. simpl. rewrite IH by by apply Hist_Add_wf.
  destruct Hh as (Hs & _). unfold Hist_Observe.
  rewrite Hist_Add_addBin by (done || simpl; lia). simpl. lia.
Qed.

Lemma observeAll_extremes log2x4 us : forall h,
  wfHist h -> Forall in_int64 us ->
  Forall (fun b => in_int64 (b_Min b) /\ in_int64 (b_Max b)) (h_bins h) ->
  Forall (fun b => in_int64 (b_Min b) /\ in_int64 (b_Max b)) (h_bins (observeAll log2x4 h us)).
Proof.
  induction us as [|u us IH]; intros h Hh Hu Hb; simpl; [done|].
  apply Forall_cons in Hu as [Hu Hus]. apply IH; [by apply Hist_Add_wf|done|].
  unfold Hist_Observe. destruct Hh as (Hs & _).
  rewrite Hist_Add_addBin by (done || simpl; lia). simpl.
  apply addBin_Forall; [|done|done]. unfold in_int64 in *. simpl. intros x. lia.
Qed.

Lemma observeAll_int64 log2x4 us :
  Forall in_int64 us -> Z.of_nat (length us) < 2 ^ 63 ->
  Forall int64Bin (h_bins (observeAll log2x4 emptyHist us)).
Proof.
  intros Hu Hn.
  pose proof (observeAll_extremes log2x4 us emptyHist emptyHist_wf Hu ltac:(constructor)) as He.
  pose proof (observeAll_total log2x4 us emptyHist emptyHist_wf) as Ht.
  destruct (observeAll_wf log2x4 us emptyHist emptyHist_wf) as (_ & Hw & Hs).
  rewrite Forall_forall in *. intros b Hb. destruct (He b Hb). split; [|done].
  enough (b_Count b <= sumBy b_Count (h_bins (observeAll log2x4 emptyHist us))) by (simpl in *; lia).
  clear -Hb Hw. apply list_elem_of_split in Hb as (l1 & l2 & E). rewrite E in *.
  rewrite sumBy_app. simpl. pose proof (sumBy_nonneg b_Count l1). pose proof (sumBy_nonneg b_Count l2).
  assert (forall x, x ∈ l1 ++ b :: l2 -> 0 <= b_Count x) as Hp
    by (intros x Hx; destruct (Hw x Hx); lia).
  enough (0 <= sumBy b_Count l1 /\ 0 <= sumBy b_Count l2) by lia.
  split; [apply H|apply H0]; intros x Hx; apply Hp; rewrite elem_of_app, elem_of_cons; auto.
Qed.

(** ** Properties *)

(** C30: a histogram survives encoding: every well-formed histogram whose counts
    and durations are [int64] values decodes to itself. *)
Theorem Decode_Encode h :
  wfHist h -> Forall int64Bin (h_bins h) -> Decode (Hist_Encode h) = Some h.
Proof. apply Decode_Encode_lem. Qed.

(** Folding a batch of durations is independent of the order they arrive
    in: every permutation of the batch yields the same histogram. *)
Theorem observe_order_irrelevant log2x4 us vs :
  us ≡ₚ vs -> observeAll log2x4 emptyHist us = observeAll log2x4 emptyHist vs.
Proof. intros. apply observeAll_perm_lem; auto with spanbarn. Qed.

(** Histograms merge exactly: merging the histograms of two batches gives
    the histogram of both batches together, and merging is commutative and
    associative. *)
Theorem Merge_exact log2x4 us vs ws :
  let h := observeAll log2x4 emptyHist in
  Hist_Merge (h us) (h vs) = h (us ++ vs) /\
  Hist_Merge (h us) (h vs) = Hist_Merge (h vs) (h us) /\
  Hist_Merge (h us) (Hist_Merge (h vs) (h ws)) =
  Hist_Merge (Hist_Merge (h us) (h vs)) (h ws).
Proof.
  assert (forall l, wfHist (observeAll log2x4 emptyHist l)) as Hw
    by (intros; apply observeAll_wf; auto with spanbarn).
  split; [|split].
  - rewrite Merge_observeAll_lem by auto with spanbarn.
    unfold observeAll. rewrite foldl_app. by destruct (foldl _ emptyHist us).
  - by apply Hist_Merge_comm_lem.
  - by apply Hist_Merge_assoc_lem.
Qed.

(** The SQL conflict function agrees with the in-memory merge: merging two
    encoded histograms is encoding their merge. *)
Theorem MergeEncoded_correct a b :
  wfHist a -> wfHist b ->
  Forall int64Bin (h_bins a) -> Forall int64Bin (h_bins b) ->
  MergeEncoded (Hist_Encode a) (Hist_Encode b) = Some (Hist_Encode (Hist_Merge a b)).
Proof. intros. unfold MergeEncoded. by rewrite !Decode_Encode_lem. Qed.

(** Percentiles are monotone and stay inside the observed range: on the
    histogram of a batch of durations a higher rank never gives a lower value,
    and every percentile lies between the smallest and largest duration of the
    bin that holds its rank. *)
Theorem Percentile_monotone log2x4 interp `{!InterpLaws interp} us r1 r2 :
  (forall a b, a <= b -> log2x4 a <= log2x4 b) ->
  us <> [] -> r1 <= r2 ->
  let h := observeAll log2x4 emptyHist us in
  Hist_Percentile interp r1 h <= Hist_Percentile interp r2 h /\
  exists b, b ∈ h_bins h /\ b_Min b <= Hist_Percentile interp r1 h <= b_Max b.
Proof.
  intros Hmono Hne Hr h.
  assert (wfHist h) as Hw by (apply observeAll_wf; auto with spanbarn).
  assert (rangesOk log2x4 h) as Hrg
    by (apply observeAll_ranges; auto with spanbarn; constructor).
  assert (h_total h = Z.of_nat (length us)) as Hn.
  { unfold h. rewrite observeAll_total by auto with spanbarn. simpl. lia. }
  destruct us as [|u us']; [done|]. destruct Hw as (Hs & Hb & Ht).
  cbn [length] in Hn. unfold Hist_Percentile.
  destruct (Z.eqb_spec (h_total h) 0); [lia|].
  pose proof (percentileRank_range r1 (h_total h) ltac:(lia)) as R1.
  pose proof (percentileRank_range r2 (h_total h) ltac:(lia)) as R2.
  split.
  - apply (percentileLoop_mono log2x4); try done; [|lia].
    split; [lia|]. unfold percentileRank. lia.
  - destruct (percentileLoop_spec log2x4 interp (percentileRank r1 (h_total h))
      (h_bins h) 0 (from_option b_Max 0 (last (h_bins h)))) as (l1 & b & l2 & E & _ & Hp);
      [done|done|lia|].
    exists b. split; [rewrite E; set_solver|done].
Qed.

(** ** The properties at a concrete histogram *)

Definition demoDurations : list Z := [250000; 10; 1000; 1010].

Definition demoHist : Hist := observeAll exactLog2x4 emptyHist demoDurations.

Lemma demoHist_wf : wfHist demoHist.
Proof. apply observeAll_wf; auto with spanbarn. Qed.

Lemma demoHist_int64 : Forall int64Bin (h_bins demoHist).
Proof.
  replace (h_bins demoHist) with
    [mkBin 13 1 10 10; mkBin 39 2 1000 1010; mkBin 71 1 250000 250000] by (vm_compute; reflexivity).
  repeat constructor; simpl; lia.
Qed.

Lemma Decode_Encode_witness :
  length (h_bins demoHist) = 3%nat /\ Decode (Hist_Encode demoHist) = Some demoHist.
Proof.
  split; [vm_compute; reflexivity|].
  apply (Decode_Encode demoHist demoHist_wf demoHist_int64).
Defined.

Lemma observe_order_irrelevant_witness :
  observeAll exactLog2x4 emptyHist [3; 5000] = observeAll exactLog2x4 emptyHist [5000; 3].
Proof.
  apply (observe_order_irrelevant exactLog2x4 [3; 5000] [5000; 3]). apply perm_swap.
Defined.

Lemma MergeEncoded_correct_witness :
  MergeEncoded (Hist_Encode demoHist) (Hist_Encode demoHist) =
  Some (Hist_Encode (Hist_Merge demoHist demoHist)).
Proof.
  apply (MergeEncoded_correct demoHist demoHist demoHist_wf demoHist_wf
    demoHist_int64 demoHist_int64).
Defined.

Lemma Percentile_monotone_witness :
  Hist_Percentile exactInterp 2 demoHist = 1000 /\
  Hist_Percentile exactInterp 2 demoHist <= Hist_Percentile exactInterp 4 demoHist.
Proof.
  split; [vm_compute; reflexivity|].
  apply (Percentile_monotone exactLog2x4 exactInterp demoDurations 2 4 exactLog2x4_mono);
    [discriminate|lia].
Defined.
