(* ===== verification/Sampling.v ===== *)
(** * The survival floor ([internal/sampling/minute_floor.go])

    [MinuteFloor] counts the boring traces kept per (project, operation,
    bucket) and keeps a trace the ratio sampler skipped while fewer than the
    minimum were kept.  Buckets are keyed by one string; the proofs rest on
    that key being injective. *)
From S2P Require Import Prelude.


(** [floorBucket] *)
Record floorBucket := mkFloorBucket { fb_count : Z; fb_index : Z }.

(** [MinuteFloor]: [mf_bucket] is the bucket width in nanoseconds. *)
Record MinuteFloor := mkMinuteFloor {
  mf_buckets : gmap string floorBucket;
  mf_bucket : Z;
}.

Definition floorRetainWindow : Z := 15 * minute.

(** [NewMinuteFloor] *)
Definition NewMinuteFloor : MinuteFloor := mkMinuteFloor ∅ minute.

(** [NewBucketFloor] *)
Definition NewBucketFloor (bucket : Z) : MinuteFloor := mkMinuteFloor ∅ bucket.

(** [MinuteFloor.width] *)
Definition MinuteFloor_width (f : MinuteFloor) : Z :=
  if mf_bucket f <=? 0 then minute else mf_bucket f.

(** [time.Duration.Microseconds] *)
Definition Microseconds (d : Z) : Z := d /t 1000.

(** [MinuteFloor.BucketOf] *)
Definition BucketOf (f : MinuteFloor) (startTimeUs : Z) : Z :=
  startTimeUs /t Microseconds (MinuteFloor_width f).

(** [MinuteFloor.retainBuckets] *)
Definition retainBuckets (f : MinuteFloor) : Z :=
  let w := MinuteFloor_width f in
  let n := (floorRetainWindow + w - 1) /t w in
  if n <? 1 then 1 else n.

(** The NUL byte, and [strconv.FormatInt(_, 10)]. *)
Definition NUL : Ascii.ascii := Ascii.zero.

Definition FormatInt (z : Z) : string := pretty z.

(** [bucketKey] *)
Definition bucketKey (projectID : Z) (op : string) (bucket : Z) : string :=
  FormatInt projectID +:+ String NUL (op +:+ String NUL (FormatInt bucket)).

(** [MinuteFloor.ShouldKeep] *)
Definition ShouldKeep (f : MinuteFloor) (projectID : Z) (op : string)
  (bucket min : Z) (ratioKeep : bool) : bool * MinuteFloor :=
  let key := bucketKey projectID op bucket in
  let b := default (mkFloorBucket 0 bucket) (mf_buckets f !! key) in
  let store b := mkMinuteFloor (<[key := b]> (mf_buckets f)) (mf_bucket f) in
  if ratioKeep then
    (true, store (mkFloorBucket (fb_count b + 1) (fb_index b)))
  else if (0 <? min) && (fb_count b <? min) then
    (true, store (mkFloorBucket (fb_count b + 1) (fb_index b)))
  else (false, store b).

(** [MinuteFloor.gc]; [nowUs] is [now.UnixMicro()]. *)
Definition MinuteFloor_gc (f : MinuteFloor) (nowUs : Z) : MinuteFloor :=
  let cutoff := nowUs /t Microseconds (MinuteFloor_width f) - retainBuckets f in
  mkMinuteFloor (filter (fun kb => ~ fb_index kb.2 < cutoff) (mf_buckets f))
    (mf_bucket f).

(** ** The bucket key is injective *)

Definition noNul (s : string) : Prop := NUL ∉ String.list_ascii_of_string s.

Lemma list_ascii_app s1 s2 :
  String.list_ascii_of_string (s1 +:+ s2) =
  String.list_ascii_of_string s1 ++ String.list_ascii_of_string s2.
Proof.
  induction s1 as [|c s1 IH]; [done|].
  change (String c s1 +:+ s2) with (String c (s1 +:+ s2)).
  cbn [String.list_ascii_of_string]. by rewrite IH.
Qed.

Lemma list_ascii_inj s1 s2 :
  String.list_ascii_of_string s1 = String.list_ascii_of_string s2 -> s1 = s2.
Proof.
  intros H. apply (f_equal String.string_of_list_ascii) in H.
  by rewrite !String.string_of_list_ascii_of_string in H.
Qed.

Lemma pretty_N_go_noNul x : forall s, noNul s -> noNul (pretty_N_go x s).
Proof.
  induction (N.lt_wf_0 x) as [x _ IH]. intros s Hs.
  destruct (decide (0 < x)%N) as [Hx|Hx].
  - rewrite pretty_N_go_step by done.
    apply IH; [by apply N.div_lt|]. unfold noNul in *. simpl.
    rewrite not_elem_of_cons. split; [|done].
    assert (forall d, pretty_N_char d <> NUL) as Hd.
    { intros d. unfold pretty_N_char. repeat case_match; done. }
    intros E. symmetry in E. by apply Hd in E.
  - assert (x = 0%N) as -> by lia. by rewrite pretty_N_go_0.
Qed.

Lemma noNul_app s1 s2 : noNul s1 -> noNul s2 -> noNul (s1 +:+ s2).
Proof. unfold noNul. rewrite list_ascii_app, not_elem_of_app. done. Qed.

Lemma pretty_N_noNul (x : N) : noNul (pretty x).
Proof.
  unfold pretty, pretty_N. case_match; [unfold noNul; simpl; set_solver|].
  apply pretty_N_go_noNul. unfold noNul; simpl. set_solver.
Qed.

Lemma FormatInt_noNul z : noNul (FormatInt z).
Proof.
  unfold FormatInt. destruct z; unfold pretty at 1; simpl.
  - unfold noNul; simpl. set_solver.
  - apply pretty_N_noNul.
  - apply (noNul_app "-"); [unfold noNul; simpl; set_solver|apply pretty_N_noNul].
Qed.

Lemma sep_split {A} (c : A) (l1 l2 r1 r2 : list A) :
  c ∉ l1 -> c ∉ l2 -> l1 ++ c :: r1 = l2 ++ c :: r2 -> l1 = l2 /\ r1 = r2.
Proof.
  revert l2. induction l1 as [|a l1 IH]; intros [|b l2] H1 H2 E; simpl in *;
    simplify_eq; [done|set_solver|set_solver|].
  destruct (IH l2) as [-> ->]; set_solver.
Qed.

Lemma sep_split_r {A} (c : A) (l1 l2 r1 r2 : list A) :
  c ∉ r1 -> c ∉ r2 -> l1 ++ c :: r1 = l2 ++ c :: r2 -> l1 = l2 /\ r1 = r2.
Proof.
  intros H1 H2 E. apply (f_equal reverse) in E.
  rewrite !reverse_app, !reverse_cons, <- !app_assoc in E. simpl in E.
  apply sep_split in E as [E1 E2]; [|by rewrite elem_of_reverse..].
  by apply (inj reverse) in E1, E2.
Qed.

Lemma bucketKey_inj_lem p op b p' op' b' :
  bucketKey p op b = bucketKey p' op' b' -> p = p' /\ op = op' /\ b = b'.
Proof.
  unfold bucketKey. intros E.
  apply (f_equal String.list_ascii_of_string) in E.
  rewrite !list_ascii_app in E. simpl in E. rewrite !list_ascii_app in E. simpl in E.
  apply sep_split in E as [Ep E]; [|apply FormatInt_noNul..].
  apply sep_split_r in E as [Eo Eb]; [|apply FormatInt_noNul..].
  apply list_ascii_inj in Ep, Eo, Eb. unfold FormatInt in *.
  apply (inj pretty) in Ep, Eb. done.
Qed.

(** ** A sequence of decisions *)

(** One call of [ShouldKeep]. *)
Record floorCall := mkFloorCall {
  fc_project : Z; fc_op : string; fc_bucket : Z; fc_ratioKeep : bool }.

Definition fc_key (c : floorCall) : string :=
  bucketKey (fc_project c) (fc_op c) (fc_bucket c).

(** The verdicts of a sequence of calls with one minimum, and the floor after
    them. *)
Fixpoint floorRun (f : MinuteFloor) (min : Z) (cs : list floorCall)
  : list bool * MinuteFloor :=
  match cs with
  | [] => ([], f)
  | c :: cs =>
      let '(k, f) := ShouldKeep f (fc_project c) (fc_op c) (fc_bucket c) min
                       (fc_ratioKeep c) in
      let '(ks, f) := floorRun f min cs in
      (k :: ks, f)
  end.

Definition countAt (f : MinuteFloor) (key : string) : Z :=
  from_option fb_count 0 (mf_buckets f !! key).

(** Calls of one key, those kept, and those kept by the floor alone. *)
Definition callsOf (key : string) (cs : list floorCall) : Z :=
  sumBy (fun c => if decide (fc_key c = key) then 1 else 0) cs.

Definition keptOf (key : string) (ks : list bool) (cs : list floorCall) : Z :=
  sumBy (fun kc : bool * floorCall =>
    if decide (fc_key kc.2 = key) then if kc.1 then 1 else 0 else 0) (zip ks cs).

Definition rescuedOf (key : string) (ks : list bool) (cs : list floorCall) : Z :=
  sumBy (fun kc : bool * floorCall =>
    if decide (fc_key kc.2 = key)
    then if kc.1 && negb (fc_ratioKeep kc.2) then 1 else 0 else 0) (zip ks cs).

Lemma ShouldKeep_countAt f p op b min r k f' key :
  ShouldKeep f p op b min r = (k, f') ->
  countAt f' key =
  countAt f key + (if decide (bucketKey p op b = key) then if k then 1 else 0 else 0)
  /\ (r = true -> k = true)
  /\ (r = false -> k = (countAt f (bucketKey p op b) <? min) && (0 <? min)).
Proof.
  unfold ShouldKeep, countAt. cbv zeta.
  set (kk := bucketKey p op b). set (ob := mf_buckets f !! kk).
  assert (fb_count (default (mkFloorBucket 0 b) ob) = from_option fb_count 0 ob) as E
    by by destruct ob.
  intros H. assert (forall x, from_option fb_count 0 (<[kk := x]> (mf_buckets f) !! key) =
    if decide (kk = key) then fb_count x else from_option fb_count 0 (mf_buckets f !! key)) as L.
  { intros x. destruct (decide (kk = key)) as [<-|];
      [by rewrite lookup_insert_eq|by rewrite lookup_insert_ne]. }
  destruct r; [|destruct (_ && _) eqn:C]; injection H as <- <-; simpl; rewrite L;
    (split; [|split; [done|]]).
  1,3,5: unfold ob in *; destruct (decide (kk = key)) as [<-|]; simpl; rewrite ?E; lia.
  - done.
  - intros _. rewrite E, andb_comm in C. by rewrite C.
  - intros _. rewrite E, andb_comm in C. by rewrite C.
Qed.

(** The counter of a key counts what was kept of it; the floor alone never
    keeps more than the minimum, and keeps until the minimum is reached. *)
Lemma floorRun_spec min key : forall cs f ks f',
  floorRun f min cs = (ks, f') ->
  0 <= countAt f key ->
  length ks = length cs /\
  countAt f' key = countAt f key + keptOf key ks cs /\
  rescuedOf key ks cs <= Z.max 0 (min - countAt f key) /\
  Z.min min (countAt f key + callsOf key cs) <= Z.max (countAt f key) (countAt f' key).
Proof.
  induction cs as [|c cs IH]; intros f ks f' H H0; simpl in H.
  { injection H as <- <-. unfold keptOf, rescuedOf, callsOf; simpl. lia. }
  destruct (ShouldKeep _ _ _ _ _ _) as [k f1] eqn:E1.
  destruct (floorRun f1 min cs) as [ks1 f2] eqn:E2. injection H as <- <-.
  destruct (ShouldKeep_countAt _ _ _ _ _ _ _ _ key E1) as (Hc1 & Ht & Hf).
  destruct (IH _ _ _ E2) as (Hl & Hc & Hr & Hm); [rewrite Hc1; repeat case_match; lia|].
  change (bucketKey (fc_project c) (fc_op c) (fc_bucket c)) with (fc_key c) in *.
  unfold keptOf, rescuedOf, callsOf in *. simpl. rewrite Hc, Hc1 in *.
  assert (0 <= sumBy (fun kc : bool * floorCall =>
    if decide (fc_key kc.2 = key) then if kc.1 then 1 else 0 else 0) (zip ks1 cs)).
  { apply sumBy_nonneg. intros; repeat case_match; lia. }
  split; [by rewrite Hl|].
  destruct (decide (fc_key c = key)) as [<-|]; [|lia].
  destruct (fc_ratioKeep c) eqn:Er.
  - rewrite (Ht eq_refl) in *. simpl. lia.
  - rewrite (Hf eq_refl) in *. simpl.
    destruct (Z.ltb_spec (countAt f (fc_key c)) min), (Z.ltb_spec 0 min); simpl in *; lia.
Qed.

(** ** Garbage collection *)

Lemma retainBuckets_pos f : 1 <= retainBuckets f.
Proof. unfold retainBuckets. cbv zeta. case_match; to_prop; lia. Qed.

Lemma gc_countAt f nowUs key b :
  mf_buckets f !! key = Some b ->
  BucketOf f nowUs - 1 <= fb_index b ->
  countAt (MinuteFloor_gc f nowUs) key = countAt f key.
Proof.
  intros Hk Hi. unfold countAt, MinuteFloor_gc. cbv zeta. simpl.
  rewrite Hk. pose proof (retainBuckets_pos f). unfold BucketOf in Hi.
  rewrite (map_lookup_filter_Some_2 _ _ _ b); [done|done|]. simpl. lia.
Qed.

(** ** Properties *)

(** Floor counters never collide: two (project, operation, bucket) triples
    with the same bucket key are the same triple, whatever bytes the operation
    name holds. *)
Theorem bucketKey_injective p op b p' op' b' :
  bucketKey p op b = bucketKey p' op' b' <-> p = p' /\ op = op' /\ b = b'.
Proof. split; [apply bucketKey_inj_lem|]. by intros (-> & -> & ->). Qed.

(** The floor guarantee: over any sequence of decisions on a fresh floor,
    interleaved over any keys, at least [min] traces (or all, when fewer came)
    of every key are kept, and the floor itself adds at most [min] to the ratio
    sample. *)
Theorem floor_guarantee width min cs key :
  let '(ks, _) := floorRun (NewBucketFloor width) min cs in
  Z.min min (callsOf key cs) <= keptOf key ks cs /\
  rescuedOf key ks cs <= Z.max 0 min.
Proof.
  destruct (floorRun (NewBucketFloor width) min cs) as [ks f'] eqn:E.
  destruct (floorRun_spec min key _ _ _ _ E) as (_ & Hc & Hr & Hm); [done|].
  assert (countAt (NewBucketFloor width) key = 0) as E0 by done.
  rewrite E0 in *.
  assert (0 <= keptOf key ks cs).
  { apply sumBy_nonneg. intros; repeat case_match; lia. }
  lia.
Qed.
