(* ===== verification/TraceSampling.v ===== *)
(** * Ratio sampling of traces ([internal/ingest/sample_ratio.go] and the
      helpers of [internal/ingest/trace_buffer_decide.go])

    The sample verdict of a trace is a function of the first 16 hex digits of
    its id and of the ratio of its project and root operation.  Ratios come
    from the settings table through [CachedRatioLookup].  The settings table is
    a parameter: at time [t] it answers [repo t key], [None] for an error. *)
From Stdlib Require Import Ascii.
From S2P Require Import Prelude Model Sampling.

(** ** Hexadecimal trace ids *)

(** [hex.DecodeString]'s digit table. *)
Definition fromHexChar (c : ascii) : option Z :=
  let n := Z.of_N (N_of_ascii c) in
  if (48 <=? n) && (n <=? 57) then Some (n - 48)
  else if (97 <=? n) && (n <=? 102) then Some (n - 87)
  else if (65 <=? n) && (n <=? 70) then Some (n - 55)
  else None.

(** [hex.DecodeString]: two digits per byte; [None] is its error. *)
Fixpoint hexDecode (s : list ascii) : option (list Z) :=
  match s with
  | [] => Some []
  | [_] => None
  | a :: b :: s =>
      x ← fromHexChar a; y ← fromHexChar b;
      bs ← hexDecode s; Some (Z.lor (Z.shiftl x 4) y :: bs)
  end.

(** [binary.BigEndian.Uint64] of the first eight bytes. *)
Definition bigEndianUint64 (b : list Z) : Z :=
  foldl (fun acc x => Z.lor (Z.shiftl acc 8) x) 0 (take 8 b).

(** [traceIDSampledByRatio] *)
Definition traceIDSampledByRatio (traceID : string) (ratio : Z) : bool :=
  let cs := String.list_ascii_of_string traceID in
  if (length cs <? 16)%nat then true
  else match hexDecode (take 16 cs) with
       | None => true
       | Some b =>
           if (length b <? 8)%nat then true
           else wrap64 (bigEndianUint64 b mod wrapU64 ratio) =? 0
       end.

(** [ratioSampled] *)
Definition ratioSampled (traceID : string) (ratio : Z) : bool :=
  if ratio <=? 1 then true else traceIDSampledByRatio traceID ratio.

(** [isErrorStatus] *)
Definition isErrorStatus (s : string) : bool :=
  bool_decide (s ∈ ["error"; "ERROR"; "Error"; "2"]%string).

(** [DefaultSampleRatio] *)
Definition DefaultSampleRatio : Z := 1000.

(** ** Ratio lookup *)

(** [strconv.Atoi]: [None] is its error (syntax or range). *)
Definition atoiDigit (acc : option Z) (c : ascii) : option Z :=
  a ← acc;
  let n := Z.of_N (N_of_ascii c) in
  if (48 <=? n) && (n <=? 57) then Some (10 * a + (n - 48)) else None.

Definition atoiDigits (s : list ascii) : option Z :=
  match s with [] => None | _ => foldl atoiDigit (Some 0) s end.

Definition Atoi (s : string) : option Z :=
  let signed (neg : bool) cs :=
    n ← atoiDigits cs;
    let v := if neg : bool then - n else n in
    if (- 2 ^ 63 <=? v) && (v <? 2 ^ 63) then Some v else None in
  match String.list_ascii_of_string s with
  | "-"%char :: cs => signed true cs
  | "+"%char :: cs => signed false cs
  | cs => signed false cs
  end.

(** [cachedEntry] and [CachedRatioLookup]. *)
Record cachedEntry := mkCachedEntry { ce_value : Z; ce_expiresAt : Z }.

Record CachedRatioLookup := mkCachedRatioLookup {
  crl_cacheTTL : Z;
  crl_entries : gmap string cachedEntry;
}.

(** [NewCachedRatioLookup] *)
Definition NewCachedRatioLookup (cacheTTL : Z) : CachedRatioLookup :=
  mkCachedRatioLookup cacheTTL ∅.

(** The value [get] stores for what the settings table answered. *)
Definition settingValue (answer : option string) : Z :=
  match answer with
  | Some s => if bool_decide (s <> ""%string) then default 0 (Atoi s) else 0
  | None => 0
  end.

(** [CachedRatioLookup.get] at time [now], the table answering [repo]. *)
Definition CachedRatioLookup_get (repo : string -> option string) (now : Z)
  (key : string) (c : CachedRatioLookup) : Z * CachedRatioLookup :=
  let read :=
    let val := settingValue (repo key) in
    (val, mkCachedRatioLookup (crl_cacheTTL c)
            (<[key := mkCachedEntry val (now + crl_cacheTTL c)]> (crl_entries c))) in
  match crl_entries c !! key with
  | Some e => if now <? ce_expiresAt e then (ce_value e, c) else read
  | None => read
  end.

Definition ratioOpKey (projectID : Z) (op : string) : string :=
  "ingest.sample_ratio.project." +:+ FormatInt projectID +:+ ".op." +:+ op.

Definition ratioProjectKey (projectID : Z) : string :=
  "ingest.sample_ratio.project." +:+ FormatInt projectID.

Definition ratioDefaultKey : string := "ingest.sample_ratio.default".

(** [CachedRatioLookup.Ratio]: the three levels of [get], most specific first.
    The table may answer differently at each of the three readings. *)
Definition CachedRatioLookup_Ratio (repo : Z -> string -> option string)
  (t1 t2 t3 : Z) (projectID : Z) (op : string) (c : CachedRatioLookup)
  : Z * CachedRatioLookup :=
  let '(v, c) := CachedRatioLookup_get (repo t1) t1 (ratioOpKey projectID op) c in
  if 0 <? v then (v, c) else
  let '(v, c) := CachedRatioLookup_get (repo t2) t2 (ratioProjectKey projectID) c in
  if 0 <? v then (v, c) else
  let '(v, c) := CachedRatioLookup_get (repo t3) t3 ratioDefaultKey c in
  if 0 <? v then (v, c) else (DefaultSampleRatio, c).

(** [StaticRatioLookup.Ratio] *)
Definition StaticRatioLookup_Ratio (ratio : Z) (projectID : Z) (op : string) : Z :=
  ratio.

(** ** The digits of a trace id *)

(** The number a list of hex digits denotes. *)
Fixpoint hexNumber (acc : Z) (s : list ascii) : option Z :=
  match s with
  | [] => Some acc
  | c :: s => d ← fromHexChar c; hexNumber (16 * acc + d) s
  end.

Lemma fromHexChar_range c d : fromHexChar c = Some d -> 0 <= d < 16.
Proof. unfold fromHexChar. intros H. repeat case_match; simplify_eq; to_prop; lia. Qed.

Lemma shiftl_lor_add a b n : 0 <= n -> 0 <= b < 2 ^ n -> Z.lor (Z.shiftl a n) b = a * 2 ^ n + b.
Proof. intros. rewrite Z.lor_comm, lor_shiftl_add by lia. lia. Qed.

(** Two digits a byte, eight bytes: decoding then reading big-endian is reading
    the sixteen digits as one number. *)
Lemma hexDecode_number (s : list ascii) : forall bs acc,
  hexDecode s = Some bs ->
  hexNumber acc s = Some (foldl (fun acc x => Z.lor (Z.shiftl acc 8) x) acc bs) /\
  length s = (2 * length bs)%nat.
Proof.
  induction s as [s IH] using (induction_ltof1 _ (@length ascii)).
  destruct s as [|a [|b s]]; intros bs acc H; simpl in H; simplify_eq.
  { done. }
  destruct (fromHexChar a) as [x|] eqn:Ea; simpl in H; [|done].
  destruct (fromHexChar b) as [y|] eqn:Eb; simpl in H; [|done].
  destruct (hexDecode s) as [bs'|] eqn:Es; simpl in H; [|done]. injection H as <-.
  apply fromHexChar_range in Ea as Hx. apply fromHexChar_range in Eb as Hy.
  assert (ltof _ (@length ascii) s (a :: b :: s)) as Hlt by (unfold ltof; simpl; lia).
  cbn [hexNumber foldl]. rewrite Ea, Eb. simpl.
  rewrite (shiftl_lor_add x y 4) by lia.
  rewrite (shiftl_lor_add acc _ 8) by lia.
  destruct (IH s Hlt bs' (acc * 2 ^ 8 + (x * 2 ^ 4 + y)) Es) as [E L].
  split; [|simpl; lia]. rewrite <- E. f_equal. lia.
Qed.

Lemma hexNumber_bound s : forall acc n,
  0 <= acc -> hexNumber acc s = Some n ->
  0 <= n < (acc + 1) * 16 ^ Z.of_nat (length s).
Proof.
  induction s as [|c s IH]; intros acc n Ha H; simpl in H.
  - simplify_eq. simpl. lia.
  - destruct (fromHexChar c) as [d|] eqn:Ed; simpl in H; [|done].
    apply fromHexChar_range in Ed. apply IH in H; [|lia].
    cbn [length]. rewrite Nat2Z.inj_succ, Z.pow_succ_r by lia. nia.
Qed.

Lemma traceIDSampledByRatio_number id ratio n :
  (16 <= length (String.list_ascii_of_string id))%nat ->
  hexNumber 0 (take 16 (String.list_ascii_of_string id)) = Some n ->
  hexDecode (take 16 (String.list_ascii_of_string id)) <> None ->
  1 <= ratio < 2 ^ 63 ->
  traceIDSampledByRatio id ratio = (n mod ratio =? 0).
Proof.
  intros Hl Hn Hd Hr. unfold traceIDSampledByRatio. cbv zeta.
  rewrite (proj2 (Nat.ltb_ge _ _) Hl).
  destruct (hexDecode _) as [b|] eqn:Eb; [|done].
  destruct (hexDecode_number _ b 0 Eb) as [E L].
  rewrite length_take_le in L by done. assert (length b = 8%nat) as L8 by lia.
  rewrite L8. simpl (8 <? 8)%nat. cbn match.
  rewrite Hn in E. injection E as ->.
  unfold bigEndianUint64. rewrite (firstn_all2 b) by lia.
  set (v := foldl _ 0 b). unfold wrapU64. rewrite (Z.mod_small ratio) by lia.
  rewrite wrap64_id; [done|].
  pose proof (Z.mod_pos_bound v ratio ltac:(lia)). unfold in_int64. lia.
Qed.

(** A string of hex digits of even length decodes. *)
Lemma hexDecode_total (s : list ascii) : forall n acc,
  hexNumber acc s = Some n -> Nat.Even (length s) -> hexDecode s <> None.
Proof.
  induction s as [s IH] using (induction_ltof1 _ (@length ascii)).
  destruct s as [|a [|b s]]; intros n acc H [m Hm]; [done|simpl in Hm; lia|].
  simpl in *. destruct (fromHexChar a) as [x|]; simpl in *; [|done].
  destruct (fromHexChar b) as [y|]; simpl in *; [|done].
  assert (ltof _ (@length ascii) s (a :: b :: s)) as Hlt by (unfold ltof; simpl; lia).
  assert (hexDecode s <> None) as Hs.
  { apply (IH s Hlt n _ H). exists (m - 1)%nat. lia. }
  by destruct (hexDecode s).
Qed.

(** ** The cache *)

(** Every entry holds what the table answered at the moment it was read. *)
Definition cacheCoherent (repo : Z -> string -> option string) (now : Z)
  (c : CachedRatioLookup) : Prop :=
  forall key e, crl_entries c !! key = Some e ->
    ce_value e = settingValue (repo (ce_expiresAt e - crl_cacheTTL c) key) /\
    ce_expiresAt e - crl_cacheTTL c <= now.

Lemma get_coherent repo now now' key c v c' :
  cacheCoherent repo now c -> now <= now' -> 0 < crl_cacheTTL c ->
  CachedRatioLookup_get (repo now') now' key c = (v, c') ->
  cacheCoherent repo now' c' /\ crl_cacheTTL c' = crl_cacheTTL c /\
  exists t, now' - crl_cacheTTL c < t <= now' /\ v = settingValue (repo t key).
Proof.
  intros Hc Hn Ht. unfold CachedRatioLookup_get.
  assert (cacheCoherent repo now' c) as Hc'.
  { intros k e He. destruct (Hc k e He) as [? ?]. split; [done|lia]. }
  assert (cacheCoherent repo now' (mkCachedRatioLookup (crl_cacheTTL c)
    (<[key := mkCachedEntry (settingValue (repo now' key)) (now' + crl_cacheTTL c)]>
       (crl_entries c)))) as Hi.
  { intros k e He; simpl in *. apply lookup_insert_Some in He as [[<- <-]|[_ He]];
      simpl; [|by apply Hc'].
    replace (now' + crl_cacheTTL c - crl_cacheTTL c) with now' by lia. split; [done|lia]. }
  destruct (crl_entries c !! key) as [e|] eqn:E;
    [destruct (Z.ltb_spec now' (ce_expiresAt e))|]; intros [= <- <-].
  - destruct (Hc key e E) as [Hv He]. split; [done|split; [done|]].
    exists (ce_expiresAt e - crl_cacheTTL c). split; [lia|done].
  - split; [done|split; [done|]]. exists now'. split; [lia|done].
  - split; [done|split; [done|]]. exists now'. split; [lia|done].
Qed.

(** The first positive level, or the built-in default. *)
Definition mostSpecific (levels : list Z) : Z :=
  default DefaultSampleRatio (head (filter (fun v => 0 < v) levels)).

(** ** Properties *)

(** The sample verdict of a 16-hex-digit trace id is the divisibility of the
    number it spells: hex decoding, big-endian reading and the [uint64]/[int]
    conversions lose nothing.  An id that is too short or not hex is kept. *)
Theorem ratioSampled_spec id ratio :
  1 < ratio < 2 ^ 63 ->
  ratioSampled id ratio =
  match hexNumber 0 (take 16 (String.list_ascii_of_string id)) with
  | Some n => if (length (String.list_ascii_of_string id) <? 16)%nat then true
              else n mod ratio =? 0
  | None => true
  end.
Proof.
  intros Hr. unfold ratioSampled. destruct (Z.leb_spec ratio 1); [lia|].
  destruct (hexNumber _ _) as [n|] eqn:En.
  - destruct (Nat.ltb_spec (length (String.list_ascii_of_string id)) 16) as [Hl|Hl].
    + unfold traceIDSampledByRatio. cbv zeta. by rewrite (proj2 (Nat.ltb_lt _ _) Hl).
    + apply traceIDSampledByRatio_number; [done|done| |lia].
      eapply hexDecode_total; [done|]. rewrite length_take_le by done. by exists 8%nat.
  - unfold traceIDSampledByRatio. cbv zeta. case_match; [done|].
    destruct (hexDecode _) as [b|] eqn:Eb; [|done].
    destruct (hexDecode_number _ b 0 Eb) as [E _]. by rewrite E in En.
Qed.

Lemma ratioSampled_spec_witness :
  ratioSampled "00000000000003e8aaaaaaaaaaaaaaaa" 1000 = true /\
  ratioSampled "00000000000003E9aaaaaaaaaaaaaaaa" 1000 = false.
Proof.
  split; (rewrite (ratioSampled_spec _ 1000); [vm_compute; reflexivity|lia]).
Defined.

(** Bounded staleness of the settings cache: starting from a coherent cache
    (such as the empty one), [Ratio] answers the most specific positive setting,
    where the value of each of the three levels is one the settings table really
    held less than the cache TTL before it was asked for; the cache stays
    coherent, so this holds over any sequence of calls. *)
Theorem Ratio_bounded_staleness repo now t1 t2 t3 p op c r c' :
  cacheCoherent repo now c -> 0 < crl_cacheTTL c ->
  now <= t1 -> t1 <= t2 -> t2 <= t3 ->
  CachedRatioLookup_Ratio repo t1 t2 t3 p op c = (r, c') ->
  cacheCoherent repo t3 c' /\ crl_cacheTTL c' = crl_cacheTTL c /\
  exists u1 u2 u3,
    r = mostSpecific [settingValue (repo u1 (ratioOpKey p op));
                      settingValue (repo u2 (ratioProjectKey p));
                      settingValue (repo u3 ratioDefaultKey)] /\
    Forall (fun u => t1 - crl_cacheTTL c < u <= t3) [u1; u2; u3] /\ 0 < r.
Proof.
  intros Hc Ht H1 H2 H3. unfold CachedRatioLookup_Ratio.
  assert (forall d d' x, cacheCoherent repo d x -> d <= d' -> cacheCoherent repo d' x)
    as Hmono.
  { intros d d' x Hx ? k e He. destruct (Hx k e He). split; [done|lia]. }
  destruct (CachedRatioLookup_get (repo t1) _ _ c) as [v1 c1] eqn:E1.
  destruct (get_coherent _ _ _ _ _ _ _ Hc H1 Ht E1) as (Hc1 & T1 & u1 & Hu1 & ->).
  destruct (CachedRatioLookup_get (repo t2) _ _ c1) as [v2 c2] eqn:E2.
  destruct (get_coherent _ _ _ _ _ _ _ Hc1 H2 ltac:(lia) E2) as (Hc2 & T2 & u2 & Hu2 & ->).
  destruct (CachedRatioLookup_get (repo t3) _ _ c2) as [v3 c3] eqn:E3.
  destruct (get_coherent _ _ _ _ _ _ _ Hc2 H3 ltac:(lia) E3) as (Hc3 & T3 & u3 & Hu3 & ->).
  assert (forall vs, 0 < mostSpecific vs) as Hpos.
  { intros vs. unfold mostSpecific. induction vs as [|v vs IH]; [done|].
    rewrite filter_cons. destruct (decide (0 < v)); [done|apply IH]. }
  intros H. assert (r = mostSpecific [settingValue (repo u1 (ratioOpKey p op));
    settingValue (repo u2 (ratioProjectKey p)); settingValue (repo u3 ratioDefaultKey)]
    /\ cacheCoherent repo t3 c' /\ crl_cacheTTL c' = crl_cacheTTL c) as (-> & ? & ?).
  { unfold mostSpecific. rewrite !filter_cons, filter_nil.
    repeat match type of H with context [0 <? ?x] =>
      destruct (Z.ltb_spec 0 x); [injection H as <- <-|] end;
    try injection H as <- <-;
    repeat (destruct (decide _); [simpl; try lia|try lia]);
    split_and!; eauto; try lia; eapply Hmono; eauto; lia. }
  split; [done|split; [done|]]. exists u1, u2, u3.
  split_and!; [done| |apply Hpos]. repeat constructor; lia.
Qed.

Lemma Ratio_bounded_staleness_witness :
  let repo (t : Z) (k : string) :=
    if decide (k = ratioProjectKey 7) then Some "50"%string else None in
  exists u1 u2 u3,
    50 = mostSpecific [settingValue (repo u1 (ratioOpKey 7 "GET"));
                       settingValue (repo u2 (ratioProjectKey 7));
                       settingValue (repo u3 ratioDefaultKey)] /\
    Forall (fun u => 100 - 60 < u <= 102) [u1; u2; u3] /\ 0 < 50.
Proof.
  intros repo.
  destruct (Ratio_bounded_staleness repo 0 100 101 102 7 "GET" (NewCachedRatioLookup 60)
    50 (CachedRatioLookup_Ratio repo 100 101 102 7 "GET" (NewCachedRatioLookup 60)).2)
    as (_ & _ & H); try lia; [|reflexivity|vm_compute; reflexivity|exact H].
  intros k e He. discriminate He.
Defined.
