(* ===== verification/Carry.v ===== *)
(** * Buffered traces and the carry tally ([internal/ingest/trace_buffer.go],
      [trace_buffer_carry.go], [stampWeight] of [trace_buffer_cap.go])

    A clean trace the buffer drops is counted under its (project, root
    operation); the next trace kept as a sample of that operation carries the
    count in its weight.  The latest dropped trace that fits the span budget is
    held, to be stored as the carrier when no sampled trace comes.

    A [bufferedTrace] is a value here.  In the code it is a pointer that is in
    one place at a time (the trace map, the flush in progress, the rescue list
    or the carry tally), so a mutation is visible only where it was made. *)
From S2P Require Import Prelude Model SpanLedger TraceSampling.

(** [bufferedTrace]; [bt_rootSeen] is [None] for the zero time. *)
Record bufferedTrace := mkBufferedTrace {
  bt_id : string;
  bt_spans : list SpanRecord;
  bt_hasError : bool;
  bt_rootOp : string;
  bt_projectID : Z;
  bt_firstSeen : Z;
  bt_rootSeen : option Z;
  bt_sacrificial : bool;
  bt_seq : Z;
  bt_droppedAs : Column;
}.

Definition set_spans (x : list SpanRecord) (t : bufferedTrace) : bufferedTrace :=
  mkBufferedTrace (bt_id t) x (bt_hasError t) (bt_rootOp t) (bt_projectID t)
    (bt_firstSeen t) (bt_rootSeen t) (bt_sacrificial t) (bt_seq t) (bt_droppedAs t).

Definition set_hasError (x : bool) (t : bufferedTrace) : bufferedTrace :=
  mkBufferedTrace (bt_id t) (bt_spans t) x (bt_rootOp t) (bt_projectID t)
    (bt_firstSeen t) (bt_rootSeen t) (bt_sacrificial t) (bt_seq t) (bt_droppedAs t).

Definition set_rootOp (x : string) (t : bufferedTrace) : bufferedTrace :=
  mkBufferedTrace (bt_id t) (bt_spans t) (bt_hasError t) x (bt_projectID t)
    (bt_firstSeen t) (bt_rootSeen t) (bt_sacrificial t) (bt_seq t) (bt_droppedAs t).

Definition set_rootSeen (x : option Z) (t : bufferedTrace) : bufferedTrace :=
  mkBufferedTrace (bt_id t) (bt_spans t) (bt_hasError t) (bt_rootOp t) (bt_projectID t)
    (bt_firstSeen t) x (bt_sacrificial t) (bt_seq t) (bt_droppedAs t).

Definition set_sacrificial (x : bool) (t : bufferedTrace) : bufferedTrace :=
  mkBufferedTrace (bt_id t) (bt_spans t) (bt_hasError t) (bt_rootOp t) (bt_projectID t)
    (bt_firstSeen t) (bt_rootSeen t) x (bt_seq t) (bt_droppedAs t).

Definition set_droppedAs (x : Column) (t : bufferedTrace) : bufferedTrace :=
  mkBufferedTrace (bt_id t) (bt_spans t) (bt_hasError t) (bt_rootOp t) (bt_projectID t)
    (bt_firstSeen t) (bt_rootSeen t) (bt_sacrificial t) (bt_seq t) x.

(** [bufferedTrace.hasRoot] *)
Definition hasRoot (tr : bufferedTrace) : bool := bool_decide (is_Some (bt_rootSeen tr)).

Definition spanLen (tr : bufferedTrace) : Z := Z.of_nat (length (bt_spans tr)).

(** [traceOp] *)
Definition traceOp (tr : bufferedTrace) : string :=
  if bool_decide (bt_rootOp tr <> ""%string) then bt_rootOp tr
  else match bt_spans tr with
       | [] => bt_rootOp tr
       | sp :: _ => sr_Name sp
       end.

(** [stampWeight] *)
Definition stampWeight (w : Z) (tr : bufferedTrace) : bufferedTrace :=
  set_spans (map (set_SampleWeight w) (bt_spans tr)) tr.

(** ** The tally *)

Definition carryWait : Z := hour.

Definition defaultMaxHeldSpans : Z := 10000.

(** [carryKey]: project and root operation. *)
Abbreviation carryKey := (Z * string)%type.

(** [carryEntry] *)
Record carryEntry := mkCarryEntry {
  ce_dropped : Z;
  ce_held : option bufferedTrace;
  ce_since : Z;
}.

(** [carryTally] *)
Record carryTally := mkCarryTally {
  ct_m : gmap carryKey carryEntry;
  ct_heldSpans : Z;
  ct_maxHeldSpans : Z;
  ct_carriedTotal : Z;
  ct_uncarriedTotal : Z;
}.

(** [newCarryTally] *)
Definition newCarryTally (maxBufferedSpans : Z) : carryTally :=
  let limit := maxBufferedSpans /t 5 in
  mkCarryTally ∅ 0 (if limit <=? 0 then defaultMaxHeldSpans else limit) 0 0.

Definition heldLen (e : carryEntry) : Z := from_option spanLen 0 (ce_held e).

(** [carryTally.drop] *)
Definition carry_drop (tr : bufferedTrace) (now : Z) (c : carryTally) : carryTally :=
  if (spanLen tr =? 0) || negb (hasRoot tr) then c
  else
    let k := (bt_projectID tr, traceOp tr) in
    let e := default (mkCarryEntry 0 None now) (ct_m c !! k) in
    let held := heldLen e in
    if ct_heldSpans c - held + spanLen tr <=? ct_maxHeldSpans c then
      mkCarryTally (<[k := mkCarryEntry (ce_dropped e + 1) (Some tr) (ce_since e)]> (ct_m c))
        (ct_heldSpans c + (spanLen tr - held)) (ct_maxHeldSpans c)
        (ct_carriedTotal c) (ct_uncarriedTotal c)
    else
      mkCarryTally (<[k := mkCarryEntry (ce_dropped e + 1) (ce_held e) (ce_since e)]> (ct_m c))
        (ct_heldSpans c) (ct_maxHeldSpans c) (ct_carriedTotal c) (ct_uncarriedTotal c).

(** [carryTally.release] *)
Definition carry_release (k : carryKey) (e : carryEntry) (c : carryTally) : carryTally :=
  mkCarryTally (delete k (ct_m c)) (ct_heldSpans c - heldLen e) (ct_maxHeldSpans c)
    (ct_carriedTotal c) (ct_uncarriedTotal c).

Definition add_carried (n : Z) (c : carryTally) : carryTally :=
  mkCarryTally (ct_m c) (ct_heldSpans c) (ct_maxHeldSpans c) (ct_carriedTotal c + n)
    (ct_uncarriedTotal c).

Definition add_uncarried (n : Z) (c : carryTally) : carryTally :=
  mkCarryTally (ct_m c) (ct_heldSpans c) (ct_maxHeldSpans c) (ct_carriedTotal c)
    (ct_uncarriedTotal c + n).

(** [carryTally.take] *)
Definition carry_take (projectID : Z) (op : string) (c : carryTally) : Z * carryTally :=
  match ct_m c !! (projectID, op) with
  | None => (0, c)
  | Some e => (ce_dropped e, add_carried (ce_dropped e) (carry_release (projectID, op) e c))
  end.

(** The body of [expired]'s loop for one entry. *)
Definition expiredOne (now : Z) (all : bool) (acc : list bufferedTrace * carryTally)
  (ke : carryKey * carryEntry) : list bufferedTrace * carryTally :=
  let '(out, c) := acc in
  let '(k, e) := ke in
  if negb all && (sat64 (now - ce_since e) <? carryWait) then (out, c)
  else
    let c := carry_release k e c in
    match ce_held e with
    | None => (out, add_uncarried (ce_dropped e) c)
    | Some tr => (out ++ [stampWeight (ce_dropped e) tr], add_carried (ce_dropped e) c)
    end.

(** [carryTally.expired]: a range over the map, in some order. *)
Definition carry_expired (now : Z) (all : bool) (c : carryTally)
  : list bufferedTrace * carryTally :=
  foldl (expiredOne now all) ([], c) (map_to_list (ct_m c)).

(** [carryTally.stats] *)
Definition carry_stats (c : carryTally) : Z * Z * Z :=
  (ct_heldSpans c, ct_carriedTotal c, ct_uncarriedTotal c).

(** ** What the tally accounts for *)

(** Drops waiting for a carrier. *)
Definition pendingDrops (c : carryTally) : Z := mapSum ce_dropped (ct_m c).

(** The weight of a kept trace, as stamped on its spans. *)
Definition traceWeight (tr : bufferedTrace) : Z :=
  match bt_spans tr with [] => 0 | sp :: _ => sr_SampleWeight sp end.

(** Whether [drop] counts the trace. *)
Definition countsAsDrop (tr : bufferedTrace) : bool :=
  negb (spanLen tr =? 0) && hasRoot tr.

(** A held trace has spans, each entry counts at least its held trace, and the
    budget counter is the held spans. *)
Definition wfCarry (c : carryTally) : Prop :=
  ct_heldSpans c = mapSum heldLen (ct_m c) /\
  ct_heldSpans c <= ct_maxHeldSpans c /\ 0 <= ct_maxHeldSpans c /\
  map_Forall (fun _ e => 1 <= ce_dropped e /\
    from_option (fun tr => 0 < spanLen tr) True (ce_held e)) (ct_m c).

Lemma heldLen_nonneg e : 0 <= heldLen e.
Proof. unfold heldLen, spanLen. destruct (ce_held e); simpl; lia. Qed.

Lemma heldLen_mk d h s : heldLen (mkCarryEntry d h s) = from_option spanLen 0 h.
Proof. done. Qed.

Lemma spanLen_nonneg tr : 0 <= spanLen tr.
Proof. unfold spanLen. lia. Qed.

#[export] Hint Resolve heldLen_nonneg spanLen_nonneg : spanbarn.

Lemma spanLen_stamp w tr : spanLen (stampWeight w tr) = spanLen tr.
Proof. unfold spanLen, stampWeight. simpl. by rewrite length_map. Qed.

Lemma traceWeight_stamp w tr : 0 < spanLen tr -> traceWeight (stampWeight w tr) = w.
Proof. unfold spanLen, traceWeight. destruct tr as [? [|]]; simpl; [lia|done]. Qed.

Lemma wfCarry_new n : wfCarry (newCarryTally n).
Proof.
  unfold newCarryTally, wfCarry. cbn. rewrite mapSum_empty.
  split; [done|]. unfold defaultMaxHeldSpans.
  destruct (Z.leb_spec (n /t 5) 0); (split; [lia|split; [lia|apply map_Forall_empty]]).
Qed.

(** [drop] counts a clean rooted trace once and leaves every other one alone. *)
Lemma carry_drop_spec tr now c :
  wfCarry c ->
  wfCarry (carry_drop tr now c) /\
  pendingDrops (carry_drop tr now c) =
    pendingDrops c + (if countsAsDrop tr then 1 else 0) /\
  ct_carriedTotal (carry_drop tr now c) = ct_carriedTotal c /\
  ct_uncarriedTotal (carry_drop tr now c) = ct_uncarriedTotal c.
Proof.
  intros (Hh & Hm & Hp & Hf). unfold carry_drop, countsAsDrop, pendingDrops.
  destruct (Z.eqb_spec (spanLen tr) 0) as [Hz|Hz]; simpl; [split_and!; by try lia|].
  destruct (hasRoot tr); simpl; [|split_and!; by try lia].
  set (k := (bt_projectID tr, traceOp tr)).
  assert (from_option ce_dropped 0 (ct_m c !! k) =
    ce_dropped (default (mkCarryEntry 0 None now) (ct_m c !! k))) as E1 by by destruct (ct_m c !! k).
  assert (from_option heldLen 0 (ct_m c !! k) =
    heldLen (default (mkCarryEntry 0 None now) (ct_m c !! k))) as E2 by by destruct (ct_m c !! k).
  assert (0 <= ce_dropped (default (mkCarryEntry 0 None now) (ct_m c !! k)) /\
    from_option (fun tr => 0 < spanLen tr) True
      (ce_held (default (mkCarryEntry 0 None now) (ct_m c !! k)))) as [Hd Hl].
  { destruct (ct_m c !! k) as [e|] eqn:E; simpl; [|done].
    destruct (Hf k e E). split; [lia|done]. }
  set (e := default _ _) in *. pose proof (spanLen_nonneg tr).
  destruct (Z.leb_spec (ct_heldSpans c - heldLen e + spanLen tr) (ct_maxHeldSpans c));
    unfold wfCarry; simpl; rewrite !mapSum_insert, E1, E2, heldLen_mk; simpl;
    fold (heldLen e); (split_and!; try lia).
  - apply map_Forall_insert_2; [simpl; split; lia|done].
  - apply map_Forall_insert_2; [simpl; split; [lia|done]|done].
Qed.

(** [take] moves the drops of one operation into the caller's weight. *)
Lemma carry_take_spec p op c n c' :
  wfCarry c -> carry_take p op c = (n, c') ->
  wfCarry c' /\ 0 <= n /\
  pendingDrops c' + n = pendingDrops c /\
  ct_carriedTotal c' = ct_carriedTotal c + n /\
  ct_uncarriedTotal c' = ct_uncarriedTotal c.
Proof.
  intros (Hh & Hm & Hp & Hf). unfold carry_take, pendingDrops, wfCarry.
  destruct (ct_m c !! (p, op)) as [e|] eqn:E; intros [= <- <-]; simpl.
  - destruct (Hf _ _ E) as [Hd _]. pose proof (heldLen_nonneg e).
    rewrite !mapSum_delete_lookup, E. simpl.
    split_and!; try lia. by apply map_Forall_delete.
  - split_and!; by try lia.
Qed.

(** ** Expiry *)

Definition entryExpired (now : Z) (all : bool) (ke : carryKey * carryEntry) : Prop :=
  negb all && (sat64 (now - ce_since ke.2) <? carryWait) = false.

#[export] Instance entryExpired_dec now all ke : Decision (entryExpired now all ke).
Proof. unfold entryExpired. apply _. Defined.

Definition expiredEntries (now : Z) (all : bool) (c : carryTally)
  : list (carryKey * carryEntry) :=
  filter (entryExpired now all) (map_to_list (ct_m c)).

Definition carrierOf (ke : carryKey * carryEntry) : option bufferedTrace :=
  stampWeight (ce_dropped ke.2) <$> ce_held ke.2.

Definition carriedBy (ke : carryKey * carryEntry) : Z :=
  from_option (fun _ => ce_dropped ke.2) 0 (ce_held ke.2).

Lemma expired_fold now all l : forall out c out' c',
  NoDup l.*1 -> (forall k e, (k, e) ∈ l -> ct_m c !! k = Some e) ->
  foldl (expiredOne now all) (out, c) l = (out', c') ->
  let ex := filter (entryExpired now all) l in
  out' = out ++ omap carrierOf ex /\
  (forall f, mapSum f (ct_m c') = mapSum f (ct_m c) - sumBy (fun ke => f ke.2) ex) /\
  (forall k e, ct_m c' !! k = Some e -> ct_m c !! k = Some e /\ k ∉ ex.*1) /\
  ct_heldSpans c' = ct_heldSpans c - sumBy (fun ke => heldLen ke.2) ex /\
  ct_maxHeldSpans c' = ct_maxHeldSpans c /\
  ct_carriedTotal c' = ct_carriedTotal c + sumBy carriedBy ex /\
  ct_uncarriedTotal c' =
    ct_uncarriedTotal c + sumBy (fun ke => ce_dropped ke.2 - carriedBy ke) ex.
Proof.
  induction l as [|[k e] l IH]; intros out c out' c' Hnd Hin H; simpl in H.
  { injection H as <- <-. simpl. rewrite app_nil_r.
    split_and!; [done|intros; lia|set_solver|lia..|]. lia. }
  apply NoDup_cons in Hnd as [Hk Hnd]. cbv zeta. rewrite filter_cons.
  destruct (negb all && (sat64 (now - ce_since e) <? carryWait)) eqn:C.
  - destruct (decide (entryExpired now all (k, e))) as [D|_];
      [unfold entryExpired in D; simpl in D; congruence|].
    apply (IH out c out' c' Hnd); [|done]. intros. apply Hin. by right.
  - destruct (decide (entryExpired now all (k, e))) as [_|D]; [|done].
    assert (ct_m c !! k = Some e) as Hke by (apply Hin; by left).
    set (c1 := carry_release k e c) in *.
    assert (forall k' e', (k', e') ∈ l -> ct_m c1 !! k' = Some e') as Hin1.
    { intros k' e' H'. simpl. rewrite lookup_delete_ne; [apply Hin; by right|].
      intros <-. apply Hk. by apply (list_elem_of_fmap_2 fst _ (k, e')). }
    assert (forall f, mapSum f (delete k (ct_m c)) = mapSum f (ct_m c) - f e) as Hs.
    { intros f. rewrite mapSum_delete_lookup, Hke. done. }
    assert (forall k' e', delete k (ct_m c) !! k' = Some e' -> ct_m c !! k' = Some e' /\ k' <> k)
      as Hdl.
    { intros k' e' [??]%lookup_delete_Some. done. }
    destruct (ce_held e) as [tr|] eqn:Eh;
      (edestruct IH as (-> & Hf & Hl & -> & -> & -> & ->); [exact Hnd| |exact H|];
       [exact Hin1|]);
      rewrite !sumBy_cons, fmap_cons;
      assert (carrierOf (k, e) = stampWeight (ce_dropped e) <$> ce_held e) as Hco by done;
      assert (carriedBy (k, e) = from_option (fun _ => ce_dropped e) 0 (ce_held e)) as Hcb
        by done;
      rewrite Eh in Hco, Hcb; simpl in Hco, Hcb; csimpl; rewrite ?Hco, ?Hcb; simpl;
      rewrite <- ?app_assoc; (split_and!; try done; try lia).
    all: try (intros f; rewrite Hf, ?sumBy_cons; simpl; rewrite Hs; lia).
    all: intros k' e' H'; apply Hl in H' as [H' Hn]; apply Hdl in H' as [H' Hne];
      split; [done|]; by apply not_elem_of_cons.
Qed.

Lemma sumBy_omap_carriers (l : list (carryKey * carryEntry)) :
  (forall ke, ke ∈ l -> from_option (fun tr => 0 < spanLen tr) True (ce_held ke.2)) ->
  sumBy traceWeight (omap carrierOf l) = sumBy carriedBy l.
Proof.
  induction l as [|[k e] l IH]; intros H; [done|]. csimpl.
  specialize (IH ltac:(set_solver)). specialize (H (k, e) ltac:(set_solver)).
  unfold carrierOf at 1, carriedBy at 1. simpl in *.
  destruct (ce_held e) as [tr|]; simpl in *; [|done].
  rewrite traceWeight_stamp by done. lia.
Qed.

Lemma expired_fold_map c :
  NoDup (map_to_list (ct_m c)).*1 /\
  forall k e, (k, e) ∈ map_to_list (ct_m c) -> ct_m c !! k = Some e.
Proof. split; [apply NoDup_fst_map_to_list|]. by intros k e ?%elem_of_map_to_list. Qed.

(** [expired] hands every drop it releases to a carrier's weight or to the
    uncarried count, and with [all] it releases everything. *)
Lemma carry_expired_spec now all c out c' :
  wfCarry c -> carry_expired now all c = (out, c') ->
  wfCarry c' /\
  pendingDrops c' + sumBy traceWeight out + (ct_uncarriedTotal c' - ct_uncarriedTotal c)
    = pendingDrops c /\
  ct_carriedTotal c' = ct_carriedTotal c + sumBy traceWeight out /\
  ct_uncarriedTotal c <= ct_uncarriedTotal c' /\
  (all = true -> ct_m c' = ∅).
Proof.
  intros (Hh & Hm & Hp & Hf) H. destruct (expired_fold_map c) as [Hnd Hin].
  destruct (expired_fold _ _ _ _ _ _ _ Hnd Hin H) as (-> & Hs & Hl & E1 & E2 & E3 & E4).
  fold (expiredEntries now all c) in *. set (ex := expiredEntries now all c) in *.
  assert (forall ke, ke ∈ ex -> 1 <= ce_dropped ke.2 /\
    from_option (fun tr => 0 < spanLen tr) True (ce_held ke.2)) as Hex.
  { intros [k e] [_ Hke]%list_elem_of_filter. apply Hin in Hke. apply (Hf k e Hke). }
  rewrite app_nil_l. rewrite sumBy_omap_carriers by (intros; by apply Hex).
  assert (0 <= sumBy (fun ke => heldLen ke.2) ex).
  { apply sumBy_nonneg. intros. apply heldLen_nonneg. }
  assert (0 <= sumBy (fun ke => ce_dropped ke.2 - carriedBy ke) ex).
  { apply sumBy_nonneg. intros ke Hke%Hex. unfold carriedBy.
    destruct (ce_held ke.2); simpl; lia. }
  assert (sumBy (fun ke => ce_dropped ke.2 - carriedBy ke) ex + sumBy carriedBy ex =
    sumBy (fun ke => ce_dropped ke.2) ex) as Hsum.
  { rewrite <- sumBy_plus. apply sumBy_ext. intros. lia. }
  split_and!.
  - unfold wfCarry. rewrite Hs, E1, E2. split_and!; try lia.
    intros k e Hke. apply Hl in Hke as [Hke _]. exact (Hf k e Hke).
  - unfold pendingDrops. rewrite Hs, E4. lia.
  - lia.
  - lia.
  - intros ->. apply map_empty. intros k. destruct (ct_m c' !! k) as [e|] eqn:E; [|done].
    apply Hl in E as [E Hn]. exfalso. apply Hn.
    apply (list_elem_of_fmap_2 fst _ (k, e)). apply list_elem_of_filter.
    split; [done|]. by apply elem_of_map_to_list.
Qed.

(** ** A sequence of tally operations *)

Inductive carryOp :=
  | OpDrop (tr : bufferedTrace) (now : Z)
  | OpTake (projectID : Z) (op : string)
  | OpExpired (now : Z) (all : bool).

(** One operation: the weight it hands out, and the tally after it. *)
Definition carryStep (o : carryOp) (c : carryTally) : Z * carryTally :=
  match o with
  | OpDrop tr now => (0, carry_drop tr now c)
  | OpTake p op => carry_take p op c
  | OpExpired now all =>
      let '(out, c) := carry_expired now all c in (sumBy traceWeight out, c)
  end.

Fixpoint carryRun (os : list carryOp) (c : carryTally) : Z * carryTally :=
  match os with
  | [] => (0, c)
  | o :: os =>
      let '(w, c) := carryStep o c in
      let '(ws, c) := carryRun os c in (w + ws, c)
  end.

Definition dropsIn (os : list carryOp) : Z :=
  sumBy (fun o => match o with
                  | OpDrop tr _ => if countsAsDrop tr then 1 else 0
                  | _ => 0
                  end) os.

Lemma carryStep_spec o c w c' :
  wfCarry c -> carryStep o c = (w, c') ->
  wfCarry c' /\
  w + pendingDrops c' + ct_uncarriedTotal c' =
    dropsIn [o] + pendingDrops c + ct_uncarriedTotal c /\
  ct_carriedTotal c' = ct_carriedTotal c + w.
Proof.
  intros Hw. unfold dropsIn. destruct o as [tr now|p op|now all]; simpl; intros H.
  - injection H as <- <-. destruct (carry_drop_spec tr now c Hw) as (? & -> & -> & ->).
    split; [done|]. lia.
  - destruct (carry_take_spec _ _ _ _ _ Hw H) as (? & ? & ? & -> & ->). split; [done|]. lia.
  - destruct (carry_expired now all c) as [out c1] eqn:E. injection H as <- <-.
    destruct (carry_expired_spec _ _ _ _ _ Hw E) as (? & ? & ? & ? & _). split; [done|]. lia.
Qed.

(** ** Properties *)

(** No dropped trace is lost from the counts and none is counted twice: over
    any sequence of drops, takes and expiries, the drops counted are exactly the
    weight handed to sampled traces and expired carriers, plus the uncarried
    total, plus what still waits; and the held spans never exceed the budget. *)
Theorem carry_counts_every_drop n os :
  let '(w, c) := carryRun os (newCarryTally n) in
  dropsIn os = w + pendingDrops c + ct_uncarriedTotal c /\
  ct_carriedTotal c = w /\
  ct_heldSpans c = mapSum heldLen (ct_m c) /\
  0 <= ct_heldSpans c <= ct_maxHeldSpans c.
Proof.
  assert (forall os c0 w c, wfCarry c0 -> carryRun os c0 = (w, c) ->
    wfCarry c /\
    dropsIn os + pendingDrops c0 + ct_uncarriedTotal c0 =
      w + pendingDrops c + ct_uncarriedTotal c /\
    ct_carriedTotal c = ct_carriedTotal c0 + w) as IH.
  { clear. induction os as [|o os IH]; intros c0 w c Hw H; simpl in H.
    - injection H as <- <-. unfold dropsIn; simpl. split; [done|lia].
    - destruct (carryStep o c0) as [w1 c1] eqn:E1.
      destruct (carryRun os c1) as [w2 c2] eqn:E2. injection H as <- <-.
      destruct (carryStep_spec _ _ _ _ Hw E1) as (Hw1 & ? & ?).
      destruct (IH _ _ _ Hw1 E2) as (Hw2 & ? & ?).
      split; [done|]. unfold dropsIn in *. simpl in *. lia. }
  destruct (carryRun os (newCarryTally n)) as [w c] eqn:H.
  destruct (IH _ _ _ _ (wfCarry_new n) H) as ((Hh & Hm & _) & Hd & Hc).
  unfold pendingDrops in Hd at 1. simpl in Hd, Hc. rewrite mapSum_empty in Hd.
  split_and!; try lia. rewrite Hh. apply mapSum_nonneg. intros. apply heldLen_nonneg.
Qed.
