(* ===== verification/Decided.v ===== *)
(** * Decisions remembered for late spans
      ([internal/ingest/trace_buffer_decided.go])

    [decidedTraces] keeps each decision for the TTL, at most [max] of them,
    oldest dropped first.  The code keeps a map and a queue of references with
    a consumed prefix; the specification at the end of the file is one list,
    oldest first, and the refinement theorems say the code behaves as it.  The
    ledger is the buffer's, passed in and out. *)
From S2P Require Import Prelude Model SpanLedger TraceSampling.

Definition DefaultMaxDecidedTraces : Z := 100000.

Definition evictQueueCompactAt : nat := 1024.

(** [decision] *)
Record decision := mkDecision { dc_weight : Z; dc_seq : Z; dc_pending : bool }.

(** [decisionRef] *)
Record decisionRef := mkDecisionRef { rf_id : string; rf_seq : Z; rf_at : Z }.

Definition zeroRef : decisionRef := mkDecisionRef "" 0 0.

(** [decidedTraces] *)
Record decidedTraces := mkDecidedTraces {
  dt_m : gmap string decision;
  dt_order : list decisionRef;
  dt_head : nat;
  dt_seq : Z;
  dt_ttl : Z;
  dt_max : Z;
  dt_held : gmap string (list SpanRecord);
  dt_late : list SpanRecord;
  dt_evicted : Z;
  dt_lateKept : Z;
  dt_lateDropped : Z;
}.

(** [newDecidedTraces] *)
Definition newDecidedTraces (ttl maxEntries : Z) : decidedTraces :=
  mkDecidedTraces ∅ [] 0 0 ttl maxEntries ∅ [] 0 0 0.

Definition set_dt_m (x : gmap string decision) (d : decidedTraces) : decidedTraces :=
  mkDecidedTraces x (dt_order d) (dt_head d) (dt_seq d) (dt_ttl d) (dt_max d) (dt_held d)
    (dt_late d) (dt_evicted d) (dt_lateKept d) (dt_lateDropped d).

Definition set_dt_order (x : list decisionRef) (h : nat) (d : decidedTraces)
  : decidedTraces :=
  mkDecidedTraces (dt_m d) x h (dt_seq d) (dt_ttl d) (dt_max d) (dt_held d)
    (dt_late d) (dt_evicted d) (dt_lateKept d) (dt_lateDropped d).

Definition set_dt_seq (x : Z) (d : decidedTraces) : decidedTraces :=
  mkDecidedTraces (dt_m d) (dt_order d) (dt_head d) x (dt_ttl d) (dt_max d) (dt_held d)
    (dt_late d) (dt_evicted d) (dt_lateKept d) (dt_lateDropped d).

Definition set_dt_held (x : gmap string (list SpanRecord)) (d : decidedTraces)
  : decidedTraces :=
  mkDecidedTraces (dt_m d) (dt_order d) (dt_head d) (dt_seq d) (dt_ttl d) (dt_max d) x
    (dt_late d) (dt_evicted d) (dt_lateKept d) (dt_lateDropped d).

Definition set_dt_late (x : list SpanRecord) (d : decidedTraces) : decidedTraces :=
  mkDecidedTraces (dt_m d) (dt_order d) (dt_head d) (dt_seq d) (dt_ttl d) (dt_max d)
    (dt_held d) x (dt_evicted d) (dt_lateKept d) (dt_lateDropped d).

Definition set_dt_counts (ev kept dropped : Z) (d : decidedTraces) : decidedTraces :=
  mkDecidedTraces (dt_m d) (dt_order d) (dt_head d) (dt_seq d) (dt_ttl d) (dt_max d)
    (dt_held d) (dt_late d) ev kept dropped.

(** [decidedTraces.live] *)
Definition decided_live (ref : decisionRef) (d : decidedTraces) : bool :=
  match dt_m d !! rf_id ref with
  | Some e => dc_seq e =? rf_seq ref
  | None => false
  end.

(** [decidedTraces.pop]; called with [head < len(order)]. *)
Definition decided_pop (d : decidedTraces) : decidedTraces :=
  let ref := default zeroRef (dt_order d !! dt_head d) in
  let d' := if decided_live ref d then set_dt_m (delete (rf_id ref) (dt_m d)) d else d in
  set_dt_order (<[dt_head d := zeroRef]> (dt_order d)) (S (dt_head d)) d'.

(** [decidedTraces.compact] *)
Definition decided_compact (d : decidedTraces) : decidedTraces :=
  if (dt_head d <? evictQueueCompactAt)%nat || (dt_head d * 2 <? length (dt_order d))%nat
  then d
  else set_dt_order (drop (dt_head d) (dt_order d)) 0 d.

(** The loop of [expire]; every turn consumes a reference, so the number of
    references left is enough fuel. *)
Fixpoint expireLoop (fuel : nat) (cutoff : Z) (d : decidedTraces) : decidedTraces :=
  match fuel with
  | O => d
  | S fuel =>
      match dt_order d !! dt_head d with
      | None => d
      | Some ref =>
          if decided_live ref d && (cutoff <? rf_at ref) then d
          else expireLoop fuel cutoff (decided_pop d)
      end
  end.

(** [decidedTraces.expire] *)
Definition decided_expire (now : Z) (d : decidedTraces) : decidedTraces :=
  decided_compact
    (expireLoop (length (dt_order d) - dt_head d) (now - dt_ttl d) d).

(** The loop of [makeRoom]. *)
Fixpoint makeRoomLoop (fuel : nat) (d : decidedTraces) : decidedTraces :=
  match fuel with
  | O => d
  | S fuel =>
      if (0 <? dt_max d) && (dt_max d <=? Z.of_nat (size (dt_m d))) then
        match dt_order d !! dt_head d with
        | None => d
        | Some ref =>
            let d := if decided_live ref d
                     then set_dt_counts (dt_evicted d + 1) (dt_lateKept d)
                            (dt_lateDropped d) d
                     else d in
            makeRoomLoop fuel (decided_pop d)
        end
      else d
  end.

(** [decidedTraces.makeRoom] *)
Definition decided_makeRoom (d : decidedTraces) : decidedTraces :=
  decided_compact (makeRoomLoop (length (dt_order d) - dt_head d) d).

(** [decidedTraces.put] *)
Definition decided_put (id : string) (weight : Z) (pending : bool) (at_ : Z)
  (d : decidedTraces) : list SpanRecord * decidedTraces :=
  let held := default [] (dt_held d !! id) in
  let d := set_dt_held (delete id (dt_held d)) d in
  match dt_m d !! id with
  | Some e => (held, set_dt_m (<[id := mkDecision weight (dc_seq e) pending]> (dt_m d)) d)
  | None =>
      let d := decided_makeRoom d in
      let seq := dt_seq d + 1 in
      let d := set_dt_seq seq d in
      let d := set_dt_m (<[id := mkDecision weight seq pending]> (dt_m d)) d in
      (held, set_dt_order (dt_order d ++ [mkDecisionRef id seq at_]) (dt_head d) d)
  end.

(** The kept span of [follow]: weighted and queued for the next flush. *)
Definition keepLate (rec : SpanRecord) (weight : Z) (d : decidedTraces) : decidedTraces :=
  set_dt_counts (dt_evicted d) (dt_lateKept d + 1) (dt_lateDropped d)
    (set_dt_late (dt_late d ++ [set_SampleWeight weight rec]) d).

(** [decidedTraces.follow] *)
Definition decided_follow (rec : SpanRecord) (d : decidedTraces) (ledger : option Tally)
  : bool * decidedTraces * option Tally :=
  match dt_m d !! sr_TraceID rec with
  | None => (false, d, ledger)
  | Some e =>
      if dc_pending e then
        (true, set_dt_held (<[sr_TraceID rec :=
                 default [] (dt_held d !! sr_TraceID rec) ++ [rec]]> (dt_held d)) d, ledger)
      else if (dc_weight e =? 0) && isErrorStatus (sr_Status rec) then
        let d := set_dt_m (<[sr_TraceID rec :=
                   mkDecision 1 (dc_seq e) (dc_pending e)]> (dt_m d)) d in
        (true, keepLate rec 1 d, ledger)
      else if dc_weight e =? 0 then
        (true, set_dt_counts (dt_evicted d) (dt_lateKept d) (dt_lateDropped d + 1) d,
         Tally_Add ledger SampledOut (sr_ProjectID rec) (sr_StartTimeUs rec) 1)
      else (true, keepLate rec (dc_weight e) d, ledger)
  end.

(** [decidedTraces.takeLate] *)
Definition decided_takeLate (d : decidedTraces) : list SpanRecord * decidedTraces :=
  (dt_late d, set_dt_late [] d).

(** ** Well-formedness *)

(** The references not yet consumed. *)
Definition refs (d : decidedTraces) : list decisionRef := drop (dt_head d) (dt_order d).

(** Every reference left is live, no id has two, and every decision has one. *)
Record wfDecided (d : decidedTraces) : Prop := {
  wd_head : (dt_head d <= length (dt_order d))%nat;
  wd_live : forall ref, ref ∈ refs d -> decided_live ref d = true;
  wd_nodup : NoDup (rf_id <$> refs d);
  wd_ref : forall id e, dt_m d !! id = Some e ->
    exists ref, ref ∈ refs d /\ rf_id ref = id;
}.

Lemma wfDecided_new ttl n : wfDecided (newDecidedTraces ttl n).
Proof. split; simpl; [lia|set_solver|constructor|done]. Qed.

Lemma refs_head d ref rest :
  refs d = ref :: rest -> dt_order d !! dt_head d = Some ref.
Proof.
  unfold refs. intros H. rewrite <- (Nat.add_0_r (dt_head d)), <- lookup_drop, H. done.
Qed.

Lemma refs_nil d : refs d = [] -> dt_order d !! dt_head d = None.
Proof.
  unfold refs. intros H. rewrite <- (Nat.add_0_r (dt_head d)), <- lookup_drop, H. done.
Qed.

Lemma refs_length d : length (refs d) = (length (dt_order d) - dt_head d)%nat.
Proof. apply length_drop. Qed.

(** As many decisions as references. *)
Lemma wfDecided_size d : wfDecided d -> size (dt_m d) = length (refs d).
Proof.
  intros [_ Hl Hn Hr]. rewrite <- (length_fmap rf_id), <- size_dom.
  rewrite <- (size_list_to_set (C := gset string)) by done. f_equal.
  apply set_eq. intros id. rewrite elem_of_dom, elem_of_list_to_set, list_elem_of_fmap.
  split.
  - intros [e He]. destruct (Hr id e He) as (ref & ? & <-). eauto.
  - intros (ref & -> & Hin). apply Hl in Hin. unfold decided_live in Hin.
    case_match; [eauto|done].
Qed.

(** Popping a well-formed queue removes the oldest decision. *)
Lemma decided_pop_spec d ref rest :
  wfDecided d -> refs d = ref :: rest ->
  wfDecided (decided_pop d) /\ refs (decided_pop d) = rest /\
  dt_m (decided_pop d) = delete (rf_id ref) (dt_m d).
Proof.
  intros Hwf Hr. pose proof (refs_head _ _ _ Hr) as Hh.
  assert (dt_head d < length (dt_order d))%nat as Hlt.
  { apply lookup_lt_Some in Hh. done. }
  pose proof (wd_live _ Hwf ref ltac:(rewrite Hr; set_solver)) as Hlive.
  assert (refs (decided_pop d) = rest) as Hrest.
  { unfold refs, decided_pop. rewrite Hh. simpl. rewrite drop_insert_lt by lia.
    unfold refs in Hr. rewrite (drop_S _ ref) in Hr by done. congruence. }
  assert (dt_m (decided_pop d) = delete (rf_id ref) (dt_m d)) as Hm.
  { unfold decided_pop. rewrite Hh. simpl. by rewrite Hlive. }
  split; [|done]. pose proof (wd_nodup _ Hwf) as Hn. rewrite Hr in Hn. simpl in Hn.
  apply NoDup_cons in Hn as [Hn1 Hn2]. split.
  - unfold decided_pop. simpl. rewrite length_insert. lia.
  - intros r Hin. rewrite Hrest in Hin. unfold decided_live. rewrite Hm.
    rewrite lookup_delete_ne.
    + apply (wd_live _ Hwf). rewrite Hr. set_solver.
    + intros E. apply Hn1. rewrite E. by apply list_elem_of_fmap_2.
  - by rewrite Hrest.
  - intros id e. rewrite Hm, Hrest. intros [Hne He]%lookup_delete_Some.
    destruct (wd_ref _ Hwf _ _ He) as (r & Hin & <-). rewrite Hr in Hin. set_solver.
Qed.

Lemma refs_compact d : refs (decided_compact d) = refs d.
Proof. unfold decided_compact, refs. case_match; simpl; [done|]. by rewrite drop_0. Qed.

Lemma dt_m_compact d : dt_m (decided_compact d) = dt_m d.
Proof. unfold decided_compact. by case_match. Qed.

(** Well-formedness looks at the references and the map only. *)
Lemma wfDecided_ext d d' :
  wfDecided d -> refs d' = refs d -> dt_m d' = dt_m d ->
  (dt_head d' <= length (dt_order d'))%nat -> wfDecided d'.
Proof.
  intros [H1 H2 H3 H4] Hr Hm Hh. split; [done| | |]; rewrite ?Hr, ?Hm; auto.
  intros ref Hin. unfold decided_live. rewrite Hm. by apply H2.
Qed.

Lemma wfDecided_compact d : wfDecided d -> wfDecided (decided_compact d).
Proof.
  intros H. eapply wfDecided_ext; [done|apply refs_compact|apply dt_m_compact|].
  pose proof (wd_head _ H). unfold decided_compact. case_match; simpl; lia.
Qed.

(** Everything but the map, the references and the eviction count. *)
Definition sameRest (d d' : decidedTraces) : Prop :=
  dt_seq d' = dt_seq d /\ dt_ttl d' = dt_ttl d /\ dt_max d' = dt_max d /\
  dt_held d' = dt_held d /\ dt_late d' = dt_late d /\
  dt_lateKept d' = dt_lateKept d /\ dt_lateDropped d' = dt_lateDropped d.

#[export] Instance sameRest_preorder : PreOrder sameRest.
Proof.
  split; [intros d; by split_and!|].
  intros a b c (?&?&?&?&?&?&?) (?&?&?&?&?&?&?). split_and!; congruence.
Qed.

Lemma sameRest_pop d : sameRest d (decided_pop d).
Proof. unfold decided_pop. case_match; by split_and!. Qed.

Lemma sameRest_compact d : sameRest d (decided_compact d).
Proof. unfold decided_compact. case_match; by split_and!. Qed.

Lemma dt_evicted_compact d : dt_evicted (decided_compact d) = dt_evicted d.
Proof. unfold decided_compact. by case_match. Qed.

Lemma dt_evicted_pop d : dt_evicted (decided_pop d) = dt_evicted d.
Proof. unfold decided_pop. by case_match. Qed.

(** [d'] is [d] without its [n] oldest decisions. *)
Record dropsOldest (n : nat) (d d' : decidedTraces) : Prop := {
  do_wf : wfDecided d';
  do_refs : refs d' = drop n (refs d);
  do_m : forall id, dt_m d' !! id =
    if decide (id ∈ rf_id <$> take n (refs d)) then None else dt_m d !! id;
  do_rest : sameRest d d';
}.

Lemma dropsOldest_0 d d' :
  wfDecided d' -> refs d' = refs d -> dt_m d' = dt_m d -> sameRest d d' ->
  dropsOldest 0 d d'.
Proof.
  intros Hw Hr Hm Hs. split; [done|by rewrite drop_0| |done].
  intros id. by rewrite take_0, Hm.
Qed.

Lemma dropsOldest_pop d ref rest n d1 d' :
  wfDecided d -> refs d = ref :: rest ->
  refs d1 = rest -> dt_m d1 = delete (rf_id ref) (dt_m d) -> sameRest d d1 ->
  dropsOldest n d1 d' -> dropsOldest (S n) d d'.
Proof.
  intros Hw Hr Hr1 Hm1 Hs1 [H1 H2 H3 H4]. split; [done| | |by etransitivity].
  - rewrite H2, Hr, Hr1. done.
  - intros id. rewrite H3, Hm1, Hr, Hr1. simpl.
    destruct (decide (id = rf_id ref)) as [->|Hne].
    + rewrite (decide_True (P := rf_id ref ∈ rf_id ref :: _)) by set_solver.
      case_decide; [done|]. apply lookup_delete_eq.
    + rewrite lookup_delete_ne by done.
      destruct (decide (id ∈ rf_id <$> take n rest)) as [Hin|Hin];
        [rewrite decide_True by set_solver|rewrite decide_False by set_solver]; done.
Qed.

Lemma dropsOldest_compact n d d' : dropsOldest n d d' -> dropsOldest n d (decided_compact d').
Proof.
  intros [H1 H2 H3 H4]. split; [by apply wfDecided_compact|by rewrite refs_compact| |].
  - intros id. by rewrite dt_m_compact.
  - etransitivity; [done|apply sameRest_compact].
Qed.

(** How many decisions [expire] drops: the leading ones at or before the cutoff. *)
Fixpoint oldPrefix (cutoff : Z) (ats : list Z) : nat :=
  match ats with
  | [] => 0
  | a :: ats => if cutoff <? a then 0 else S (oldPrefix cutoff ats)
  end.

Lemma expireLoop_spec cutoff fuel : forall d,
  wfDecided d -> fuel = length (refs d) ->
  dropsOldest (oldPrefix cutoff (rf_at <$> refs d)) d (expireLoop fuel cutoff d) /\
  dt_evicted (expireLoop fuel cutoff d) = dt_evicted d.
Proof.
  induction fuel as [|fuel IH]; intros d Hw Hf.
  { destruct (refs d) eqn:Hr; [|simpl in Hf; lia]. simpl. split; [|done].
    by apply dropsOldest_0. }
  destruct (refs d) as [|ref rest] eqn:Hr; [done|]. cbn [expireLoop].
  rewrite (refs_head _ _ _ Hr).
  rewrite (wd_live _ Hw ref) by (rewrite Hr; set_solver). simpl.
  destruct (Z.ltb_spec cutoff (rf_at ref)); [split; [by apply dropsOldest_0|done]|].
  destruct (decided_pop_spec _ _ _ Hw Hr) as (Hw1 & Hr1 & Hm1).
  destruct (IH (decided_pop d) Hw1) as [Hd Hev].
  { rewrite Hr1. simpl in Hf. congruence. }
  split; [|by rewrite Hev, dt_evicted_pop].
  eapply dropsOldest_pop; eauto using sameRest_pop. by rewrite <- Hr1.
Qed.

Lemma decided_expire_spec now d :
  wfDecided d ->
  dropsOldest (oldPrefix (now - dt_ttl d) (rf_at <$> refs d)) d (decided_expire now d) /\
  dt_evicted (decided_expire now d) = dt_evicted d.
Proof.
  intros Hw. unfold decided_expire. rewrite dt_evicted_compact.
  destruct (expireLoop_spec (now - dt_ttl d) (length (dt_order d) - dt_head d) d Hw)
    as [H1 H2]; [by rewrite refs_length|].
  split; [by apply dropsOldest_compact|done].
Qed.

(** How many decisions [makeRoom] drops for a cap. *)
Definition overCap (max : Z) (n : nat) : nat :=
  if 0 <? max then Z.to_nat (Z.of_nat n - (max - 1)) else 0.

Lemma makeRoomLoop_spec fuel : forall d,
  wfDecided d -> fuel = length (refs d) ->
  dropsOldest (overCap (dt_max d) (length (refs d))) d (makeRoomLoop fuel d) /\
  dt_evicted (makeRoomLoop fuel d) =
    dt_evicted d + Z.of_nat (overCap (dt_max d) (length (refs d))).
Proof.
  unfold overCap. induction fuel as [|fuel IH]; intros d Hw Hf.
  { rewrite <- Hf. simpl makeRoomLoop.
    replace (if 0 <? dt_max d then Z.to_nat (Z.of_nat 0 - (dt_max d - 1)) else 0%nat)
      with 0%nat by (case_match; to_prop; lia).
    split; [|lia]. by apply dropsOldest_0. }
  cbn [makeRoomLoop]. rewrite (wfDecided_size d Hw).
  destruct (refs d) as [|ref rest] eqn:Hr; [done|].
  destruct (Z.ltb_spec 0 (dt_max d)) as [Hmax|Hmax]; simpl andb; cbn match;
    [|split; [by apply dropsOldest_0|lia]].
  cbn [length].
  destruct (Z.leb_spec (dt_max d) (Z.of_nat (S (length rest)))) as [Hle|Hle]; cycle 1.
  { replace (Z.to_nat _) with 0%nat by lia. split; [by apply dropsOldest_0|lia]. }
  rewrite (refs_head _ _ _ Hr).
  rewrite (wd_live _ Hw ref) by (rewrite Hr; set_solver). cbn zeta.
  set (d0 := set_dt_counts (dt_evicted d + 1) _ _ d).
  assert (wfDecided d0) as Hw0.
  { eapply wfDecided_ext; [exact Hw|done..|apply (wd_head _ Hw)]. }
  destruct (decided_pop_spec d0 _ _ Hw0 Hr) as (Hw1 & Hr1 & Hm1).
  pose proof (sameRest_pop d0) as Hs0. pose proof Hs0 as (_ & _ & Hmx & _).
  destruct (IH (decided_pop d0) Hw1) as [Hd Hev].
  { rewrite Hr1. simpl in Hf. congruence. }
  rewrite Hmx, Hr1 in Hd, Hev. change (dt_max d0) with (dt_max d) in *.
  rewrite (proj2 (Z.ltb_lt _ _) Hmax) in Hd, Hev.
  replace (Z.to_nat (Z.of_nat (S (length rest)) - (dt_max d - 1)))
    with (S (Z.to_nat (Z.of_nat (length rest) - (dt_max d - 1)))) by (simpl in *; lia).
  split; [|rewrite Hev, dt_evicted_pop; simpl; lia].
  eapply (dropsOldest_pop d ref rest); eauto.
Qed.

Lemma decided_makeRoom_spec d :
  wfDecided d ->
  dropsOldest (overCap (dt_max d) (length (refs d))) d (decided_makeRoom d) /\
  dt_evicted (decided_makeRoom d) =
    dt_evicted d + Z.of_nat (overCap (dt_max d) (length (refs d))).
Proof.
  intros Hw. unfold decided_makeRoom. rewrite dt_evicted_compact.
  destruct (makeRoomLoop_spec (length (dt_order d) - dt_head d) d Hw) as [H1 H2];
    [by rewrite refs_length|].
  split; [by apply dropsOldest_compact|done].
Qed.

(** ** The specification: one list, oldest decision first *)

Record specEntry := mkSpecEntry {
  se_id : string; se_weight : Z; se_pending : bool; se_at : Z }.

Definition specLookup (id : string) (l : list specEntry) : option specEntry :=
  head (filter (fun e => se_id e = id) l).

Definition specUpdate (id : string) (w : Z) (p : bool) (l : list specEntry)
  : list specEntry :=
  map (fun e => if decide (se_id e = id) then mkSpecEntry id w p (se_at e) else e) l.

Definition specExpire (cutoff : Z) (l : list specEntry) : list specEntry :=
  drop (oldPrefix cutoff (se_at <$> l)) l.

Definition specPut (max : Z) (id : string) (w : Z) (p : bool) (at_ : Z)
  (l : list specEntry) : list specEntry :=
  match specLookup id l with
  | Some _ => specUpdate id w p l
  | None => drop (overCap max (length l)) l ++ [mkSpecEntry id w p at_]
  end.

(** What happens to a span of a trace that may have been decided. *)
Inductive verdict := Undecided | HeldPending | LateKept (w : Z) | LateDropped.

Definition specFollow (rec : SpanRecord) (l : list specEntry) : verdict * list specEntry :=
  match specLookup (sr_TraceID rec) l with
  | None => (Undecided, l)
  | Some e =>
      if se_pending e then (HeldPending, l)
      else if decide (se_weight e = 0) then
        if isErrorStatus (sr_Status rec)
        then (LateKept 1, specUpdate (sr_TraceID rec) 1 false l)
        else (LateDropped, l)
      else (LateKept (se_weight e), l)
  end.

(** The list a well-formed [decidedTraces] stands for. *)
Definition absEntry (m : gmap string decision) (ref : decisionRef) : specEntry :=
  let e := default (mkDecision 0 0 false) (m !! rf_id ref) in
  mkSpecEntry (rf_id ref) (dc_weight e) (dc_pending e) (rf_at ref).

Definition absDecided (d : decidedTraces) : list specEntry :=
  absEntry (dt_m d) <$> refs d.

Lemma absDecided_length d : length (absDecided d) = length (refs d).
Proof. apply length_fmap. Qed.

Lemma absDecided_at d : se_at <$> absDecided d = rf_at <$> refs d.
Proof. unfold absDecided. rewrite <- list_fmap_compose. done. Qed.

Lemma filter_ids_absent id (l : list specEntry) :
  id ∉ se_id <$> l -> filter (fun e => se_id e = id) l = [].
Proof.
  induction l as [|e l IH]; [done|]. rewrite fmap_cons, not_elem_of_cons.
  intros [Hne Hin]. rewrite filter_cons, decide_False by congruence. by apply IH.
Qed.

Lemma absDecided_ids d : se_id <$> absDecided d = rf_id <$> refs d.
Proof. unfold absDecided. rewrite <- list_fmap_compose. done. Qed.

(** Looking an id up in the map is looking it up in the list. *)
Lemma lookup_refines d id :
  wfDecided d ->
  match dt_m d !! id, specLookup id (absDecided d) with
  | None, None => True
  | Some e, Some s => se_id s = id /\ se_weight s = dc_weight e /\ se_pending s = dc_pending e
  | _, _ => False
  end.
Proof.
  intros [_ Hl Hn Hr]. unfold specLookup.
  destruct (dt_m d !! id) as [e|] eqn:E.
  - destruct (Hr id e E) as (ref & Hin & Hid). subst id. clear Hl Hr.
    unfold absDecided. induction (refs d) as [|r l IH]; [set_solver|].
    simpl. rewrite filter_cons. cbn [absEntry se_id].
    destruct (decide (rf_id r = rf_id ref)) as [Heq|Hne].
    + simpl. rewrite Heq, E. done.
    + apply IH; [by apply NoDup_cons in Hn as [_ ?]|].
      apply elem_of_cons in Hin as [->|?]; done.
  - rewrite filter_ids_absent; [done|]. rewrite absDecided_ids.
    intros (ref & -> & Hin)%list_elem_of_fmap. apply Hl in Hin.
    unfold decided_live in Hin. by rewrite E in Hin.
Qed.

Lemma absEntry_ext m m' (l : list decisionRef) :
  (forall ref, ref ∈ l -> m' !! rf_id ref = m !! rf_id ref) ->
  absEntry m' <$> l = absEntry m <$> l.
Proof.
  intros H. apply list_fmap_ext. intros i ref Hi. unfold absEntry.
  rewrite H; [done|]. by eapply list_elem_of_lookup_2.
Qed.

Lemma dropsOldest_abs n d d' :
  wfDecided d -> dropsOldest n d d' -> absDecided d' = drop n (absDecided d).
Proof.
  intros Hw [_ Hr Hm _]. unfold absDecided. rewrite Hr, <- fmap_drop.
  apply absEntry_ext. intros ref Hin. rewrite Hm, decide_False; [done|].
  intros (r & E & Hin')%list_elem_of_fmap.
  pose proof (wd_nodup _ Hw) as Hn. rewrite <- (take_drop n (refs d)), fmap_app in Hn.
  apply NoDup_app in Hn as (_ & Hn & _).
  apply (Hn (rf_id ref)); [rewrite E|]; by apply list_elem_of_fmap_2.
Qed.

(** Overwriting the decision of an id. *)
Definition overwrite (id : string) (w : Z) (p : bool) (e : decision) (d : decidedTraces)
  : decidedTraces := set_dt_m (<[id := mkDecision w (dc_seq e) p]> (dt_m d)) d.

Lemma overwrite_spec id w p e d :
  wfDecided d -> dt_m d !! id = Some e ->
  wfDecided (overwrite id w p e d) /\
  absDecided (overwrite id w p e d) = specUpdate id w p (absDecided d).
Proof.
  intros Hw He. destruct Hw as [H1 H2 H3 H4]. unfold overwrite. split.
  - split; simpl; [done| |done|].
    + intros ref Hin. specialize (H2 ref Hin). unfold decided_live in *. simpl.
      destruct (decide (id = rf_id ref)) as [->|].
      * rewrite lookup_insert_eq. by rewrite He in H2.
      * by rewrite lookup_insert_ne.
    + intros id' e' Hi. change (refs _) with (refs d).
      destruct (decide (id = id')) as [<-|]; [eauto|].
      rewrite lookup_insert_ne in Hi by done. eauto.
  - unfold absDecided, specUpdate. change (refs (set_dt_m _ d)) with (refs d).
    rewrite <- list_fmap_compose. apply list_fmap_ext. intros i ref _.
    unfold compose, absEntry. cbn [se_id se_at dt_m set_dt_m].
    destruct (decide (rf_id ref = id)) as [->|].
    + by rewrite lookup_insert_eq.
    + by rewrite lookup_insert_ne.
Qed.

(** What [put] does to the fields the buffer's accounting looks at. *)
Lemma decided_put_spec id w p at_ d held d' :
  wfDecided d -> decided_put id w p at_ d = (held, d') ->
  wfDecided d' /\
  absDecided d' = specPut (dt_max d) id w p at_ (absDecided d) /\
  held = default [] (dt_held d !! id) /\ dt_held d' = delete id (dt_held d) /\
  dt_late d' = dt_late d /\ dt_max d' = dt_max d /\ dt_ttl d' = dt_ttl d /\
  dt_evicted d <= dt_evicted d' /\
  (exists s, dt_m d' !! id = Some (mkDecision w s p)) /\
  (forall id', id' <> id -> dt_m d' !! id' = dt_m d !! id' \/
     (dt_m d' !! id' = None /\ dt_evicted d < dt_evicted d')).
Proof.
  intros Hw. unfold decided_put, specPut. cbv zeta.
  pose proof (lookup_refines d id Hw) as Hlk.
  set (d0 := set_dt_held (delete id (dt_held d)) d).
  assert (wfDecided d0) as Hw0 by (eapply wfDecided_ext; [exact Hw|done..|apply Hw]).
  change (dt_m d0) with (dt_m d).
  destruct (dt_m d !! id) as [e|] eqn:E; intros [= <- <-].
  - destruct (specLookup id (absDecided d)) as [s|]; [|done].
    destruct (overwrite_spec id w p e d0 Hw0 E) as [Hw1 Ha1]. unfold overwrite in *.
    split_and!; try done.
    + eexists. simpl. apply lookup_insert_eq.
    + intros id' Hne. left. simpl. by rewrite lookup_insert_ne.
  - destruct (specLookup id (absDecided d)) as [s|]; [done|]. clear Hlk.
    destruct (decided_makeRoom_spec d0 Hw0) as [Hd Hev].
    pose proof (dropsOldest_abs _ _ _ Hw0 Hd) as Ha.
    destruct Hd as [Hwr Hrr Hmr (Hseq & Httl & Hmax & Hheld & Hlate & Hlk & Hld)].
    change (refs d0) with (refs d) in *. change (dt_m d0) with (dt_m d) in *.
    change (dt_max d0) with (dt_max d) in *.
    change (dt_evicted d0) with (dt_evicted d) in *.
    set (dr := decided_makeRoom d0) in *. set (n := overCap _ _) in *.
    assert (dt_m dr !! id = None) as Hidr.
    { rewrite Hmr. by case_decide. }
    assert (forall ref, ref ∈ refs dr -> rf_id ref <> id) as Hfresh.
    { intros ref Hin Heq. apply (wd_live _ Hwr) in Hin. unfold decided_live in Hin.
      by rewrite Heq, Hidr in Hin. }
    set (d1 := set_dt_order _ _ _).
    assert (refs d1 = refs dr ++ [mkDecisionRef id (dt_seq dr + 1) at_]) as Hr1.
    { unfold refs. simpl. rewrite drop_app_le by apply Hwr. done. }
    split_and!; try done.
    + split.
      * simpl. rewrite length_app. pose proof (wd_head _ Hwr). lia.
      * intros ref. rewrite Hr1. unfold decided_live. simpl.
        intros [Hin| ->%list_elem_of_singleton]%elem_of_app.
        -- rewrite lookup_insert_ne by (symmetry; auto). by apply (wd_live _ Hwr).
        -- simpl. rewrite lookup_insert_eq. simpl. lia.
      * rewrite Hr1, fmap_app. apply NoDup_app. split; [apply Hwr|].
        split; [|apply NoDup_singleton].
        intros x (ref & -> & Hin)%list_elem_of_fmap Hx. simpl in Hx.
        apply list_elem_of_singleton in Hx. by apply (Hfresh ref).
      * intros id' e'. rewrite Hr1. simpl. intros [[<- _]|[Hne He]]%lookup_insert_Some.
        -- eexists. split; [apply elem_of_app; right; by apply list_elem_of_singleton|done].
        -- destruct (wd_ref _ Hwr _ _ He) as (ref & ? & ?). exists ref. set_solver.
    + change (absDecided d0) with (absDecided d) in Ha. fold n.
      rewrite absDecided_length. fold n. rewrite <- Ha.
      unfold absDecided. rewrite Hr1, fmap_app. f_equal.
      * apply absEntry_ext. intros ref Hin. simpl.
        by rewrite lookup_insert_ne by (symmetry; auto).
      * simpl. unfold absEntry. simpl. by rewrite lookup_insert_eq.
    + simpl. lia.
    + eexists. simpl. apply lookup_insert_eq.
    + intros id' Hne. simpl. rewrite lookup_insert_ne, Hmr by done.
      case_decide as Hin; [|by left]. right. split; [done|].
      enough (n <> 0%nat) by lia. intros E0. rewrite E0, take_0 in Hin. set_solver.
Qed.

(** The verdict [follow] carries out, read off the change it makes. *)
Definition followVerdict (rec : SpanRecord) (d d' : decidedTraces) (followed : bool)
  : verdict :=
  if negb followed then Undecided
  else if decide (dt_lateKept d' = dt_lateKept d + 1)
       then LateKept (from_option sr_SampleWeight 0 (last (dt_late d')))
       else if decide (dt_lateDropped d' = dt_lateDropped d + 1) then LateDropped
            else HeldPending.

Lemma decided_follow_refines rec d lg b d' lg' :
  wfDecided d -> decided_follow rec d lg = (b, d', lg') ->
  wfDecided d' /\
  specFollow rec (absDecided d) = (followVerdict rec d d' b, absDecided d').
Proof.
  intros Hw. unfold decided_follow, specFollow.
  pose proof (lookup_refines d (sr_TraceID rec) Hw) as Hlk.
  destruct (dt_m d !! sr_TraceID rec) as [e|] eqn:E;
    destruct (specLookup _ _) as [s|]; try done; cycle 1.
  { intros [= <- <- <-]. done. }
  destruct Hlk as (Hid & Hsw & Hsp). rewrite Hsp, Hsw.
  assert (forall d', refs d' = refs d -> dt_m d' = dt_m d -> dt_head d' = dt_head d ->
    dt_order d' = dt_order d -> wfDecided d' /\ absDecided d' = absDecided d) as Hsame.
  { intros d1 H1 H2 H3 H4. split; [|unfold absDecided; by rewrite H1, H2].
    eapply wfDecided_ext; [exact Hw|done..|rewrite H3, H4; apply Hw]. }
  unfold followVerdict. destruct (dc_pending e) eqn:Ep; [|destruct (Z.eqb_spec (dc_weight e) 0)].
  - intros [= <- <- <-]. match goal with |- wfDecided ?x /\ _ => destruct (Hsame x) as [? ->]; try done end.
    split; [done|].
    simpl. rewrite !decide_False by lia. done.
  - rewrite (decide_True (P := dc_weight e = 0)) by done. simpl.
    destruct (isErrorStatus (sr_Status rec)); intros [= <- <- <-].
    + destruct (overwrite_spec (sr_TraceID rec) 1 false e d Hw E) as [Hw1 Ha1].
      split.
      * eapply wfDecided_ext; [exact Hw1|done..|apply Hw1].
      * simpl. rewrite decide_True by lia. rewrite last_snoc. simpl. f_equal.
        rewrite <- Ha1. done.
    + match goal with |- wfDecided ?x /\ _ => destruct (Hsame x) as [? ->]; try done end.
    split; [done|].
      simpl. rewrite decide_False, decide_True by lia. done.
  - rewrite (decide_False (P := dc_weight e = 0)) by done. simpl. intros [= <- <- <-].
    match goal with |- wfDecided ?x /\ _ => destruct (Hsame x) as [? ->]; try done end.
    split; [done|].
    simpl. rewrite decide_True, last_snoc by lia. done.
Qed.

(** ** Sequences of operations *)

Inductive decidedOp :=
  | OPut (id : string) (w : Z) (pending : bool) (at_ : Z)
  | OExpire (now : Z)
  | OFollow (rec : SpanRecord).

Definition decidedStep (o : decidedOp) (d : decidedTraces) : verdict * decidedTraces :=
  match o with
  | OPut id w p at_ => (Undecided, (decided_put id w p at_ d).2)
  | OExpire now => (Undecided, decided_expire now d)
  | OFollow rec =>
      let '(b, d', _) := decided_follow rec d None in (followVerdict rec d d' b, d')
  end.

Definition specStep (ttl max : Z) (o : decidedOp) (l : list specEntry)
  : verdict * list specEntry :=
  match o with
  | OPut id w p at_ => (Undecided, specPut max id w p at_ l)
  | OExpire now => (Undecided, specExpire (now - ttl) l)
  | OFollow rec => specFollow rec l
  end.

Fixpoint runOps {S} (step : decidedOp -> S -> verdict * S) (os : list decidedOp) (s : S)
  : list verdict * S :=
  match os with
  | [] => ([], s)
  | o :: os => let '(v, s) := step o s in let '(vs, s) := runOps step os s in (v :: vs, s)
  end.

Lemma decided_follow_limits rec d lg b d' lg' :
  decided_follow rec d lg = (b, d', lg') -> dt_max d' = dt_max d /\ dt_ttl d' = dt_ttl d.
Proof.
  unfold decided_follow. intros H. repeat case_match; simplify_eq; done.
Qed.

Lemma decidedStep_refines o d v d' :
  wfDecided d -> decidedStep o d = (v, d') ->
  wfDecided d' /\ dt_max d' = dt_max d /\ dt_ttl d' = dt_ttl d /\
  specStep (dt_ttl d) (dt_max d) o (absDecided d) = (v, absDecided d').
Proof.
  intros Hw. destruct o as [id w p at_|now|rec]; simpl.
  - destruct (decided_put id w p at_ d) as [held d1] eqn:E. intros [= <- <-]. simpl.
    destruct (decided_put_spec _ _ _ _ _ _ _ Hw E) as (? & -> & _ & _ & _ & ? & ? & _).
    done.
  - intros [= <- <-]. destruct (decided_expire_spec now d Hw) as [Hd _].
    pose proof (dropsOldest_abs _ _ _ Hw Hd) as Ha.
    destruct Hd as [Hw1 _ _ (_ & ? & ? & _)]. split_and!; try done.
    unfold specExpire. by rewrite absDecided_at, Ha.
  - destruct (decided_follow rec d None) as [[b d1] lg1] eqn:E. intros [= <- <-].
    destruct (decided_follow_refines _ _ _ _ _ _ Hw E) as [? ?].
    destruct (decided_follow_limits _ _ _ _ _ _ E). done.
Qed.

Lemma specUpdate_length id w p l : length (specUpdate id w p l) = length l.
Proof. apply length_map. Qed.

Lemma specStep_bound ttl max o l :
  0 < max -> Z.of_nat (length l) <= max ->
  Z.of_nat (length (specStep ttl max o l).2) <= max.
Proof.
  intros Hm Hl. destruct o as [id w p at_|now|rec]; simpl.
  - unfold specPut. case_match; [by rewrite specUpdate_length|].
    rewrite length_app, length_drop. simpl. unfold overCap.
    rewrite (proj2 (Z.ltb_lt _ _) Hm). lia.
  - unfold specExpire. rewrite length_drop. lia.
  - unfold specFollow. repeat case_match; simpl; rewrite ?specUpdate_length; done.
Qed.

(** Refinement: over any sequence of decisions, expiries and late spans, the
    map, the reference queue and its lazy compaction behave exactly as one list
    of decisions ordered by age: same verdict for every late span (held while
    the decision is pending, kept with the trace's weight, dropped, or reopened
    with weight 1 by an error), same decisions held, and never more than the cap. *)
Theorem decided_refines_list ttl max os :
  let '(vs, d) := runOps decidedStep os (newDecidedTraces ttl max) in
  runOps (specStep ttl max) os [] = (vs, absDecided d) /\
  Z.of_nat (size (dt_m d)) = Z.of_nat (length (absDecided d)) /\
  (max <= 0 \/ Z.of_nat (size (dt_m d)) <= max).
Proof.
  assert (forall os d vs d', wfDecided d -> runOps decidedStep os d = (vs, d') ->
    wfDecided d' /\
    runOps (specStep (dt_ttl d) (dt_max d)) os (absDecided d) = (vs, absDecided d') /\
    (0 < dt_max d -> Z.of_nat (length (absDecided d)) <= dt_max d ->
     Z.of_nat (length (absDecided d')) <= dt_max d)) as IH.
  { clear. induction os as [|o os IH]; intros d vs d' Hw H; simpl in H.
    { injection H as <- <-. done. }
    destruct (decidedStep o d) as [v d1] eqn:E1.
    destruct (runOps decidedStep os d1) as [vs1 d2] eqn:E2. injection H as <- <-.
    destruct (decidedStep_refines _ _ _ _ Hw E1) as (Hw1 & Hm & Ht & Hs).
    destruct (IH _ _ _ Hw1 E2) as (Hw2 & Hr & Hb). rewrite Hm, Ht in *.
    split; [done|]. split; [simpl; by rewrite Hs, Hr|].
    intros Hpos Hlen. apply Hb; [done|].
    pose proof (specStep_bound (dt_ttl d) _ o _ Hpos Hlen) as Hsb. by rewrite Hs in Hsb. }
  destruct (runOps decidedStep os (newDecidedTraces ttl max)) as [vs d] eqn:E.
  destruct (IH _ _ _ _ (wfDecided_new ttl max) E) as (Hw & Hr & Hb). simpl in Hb.
  rewrite (wfDecided_size d Hw), absDecided_length in *. split; [done|split; [done|]].
  destruct (Z.leb_spec max 0); [by left|right]. apply Hb; [done|lia].
Qed.
