(* ===== verification/TraceBuffer.v ===== *)
(** * The trace buffer ([internal/ingest/trace_buffer*.go])

    Spans wait here, grouped by trace, until [rootGrace] after their root span
    or the TTL after their first span; then the trace is sampled.  Error traces
    always pass.  At the span cap whole traces are evicted.

    State: [TraceBuffer] has the fields of the struct; the zero [time.Time] is
    [None]; [tb_lookup] is the answers of the [SampleRatioLookup] interface
    ([None]: no lookup); [tb_out] is every batch sent to the [Out] channel.  The
    clock [tb.now] is read as one value [now] per locked operation.  Operations
    that hold [tb.mu] are one function each; [flush], which drops the lock in
    the middle, is the composition of its locked and unlocked phases, so that
    the phases can be interleaved with [Add] (file [BufferSteps]). *)
From S2P Require Import Prelude Model SpanLedger Sampling TraceSampling Carry Decided.

Definition DefaultTraceBufferTTL : Z := 10 * minute.

Definition DefaultRootGrace : Z := 30 * second.

Definition gcInterval : Z := 5 * second.

Definition DefaultMaxBufferedSpans : Z := 50000.

(** [capPressure] *)
Record capPressure := mkCapPressure { cp_since : option Z; cp_warned : option Z }.

(** [RescueRules] *)
Record RescueRules := mkRescueRules { rr_SlowThresholdUs : Z; rr_MinTracesPerHour : Z }.

(** [RescueRules.normalised] *)
Definition normalised (r : RescueRules) : RescueRules :=
  mkRescueRules (if rr_SlowThresholdUs r <? 0 then 0 else rr_SlowThresholdUs r)
    (if rr_MinTracesPerHour r <? 0 then 0 else rr_MinTracesPerHour r).

(** [TraceBuffer] *)
Record TraceBuffer := mkTraceBuffer {
  tb_traces : gmap string bufferedTrace;
  tb_seq : Z;
  tb_ttl : Z;
  tb_lookup : option (Z -> string -> Z);
  tb_maxSpans : Z;
  tb_pressure : capPressure;
  tb_spanCount : Z;
  tb_rescue : RescueRules;
  tb_floor : option MinuteFloor;
  tb_carry : carryTally;
  tb_sacrificeQ : list string;
  tb_sacrificeHead : nat;
  tb_anyQ : list string;
  tb_anyHead : nat;
  tb_refused : Z;
  tb_evictedSacrif : Z;
  tb_evictedKept : Z;
  tb_refusedTotal : Z;
  tb_evictedSTotal : Z;
  tb_evictedKTotal : Z;
  tb_undeliverTotal : Z;
  tb_rescuedAtCap : list bufferedTrace;
  tb_evictedRescue : Z;
  tb_evictedRTotal : Z;
  tb_rootGrace : Z;
  tb_decided : decidedTraces;
  tb_ledger : option Tally;
  tb_out : list (list SpanRecord);
  tb_closed : bool;
}.

Definition set_tb_traces (x0 : gmap string bufferedTrace) (b : TraceBuffer) : TraceBuffer :=
  mkTraceBuffer x0 (tb_seq b) (tb_ttl b) (tb_lookup b) (tb_maxSpans b) (tb_pressure
    b) (tb_spanCount b) (tb_rescue b) (tb_floor b) (tb_carry b) (tb_sacrificeQ b)
    (tb_sacrificeHead b) (tb_anyQ b) (tb_anyHead b) (tb_refused b) (tb_evictedSacrif
    b) (tb_evictedKept b) (tb_refusedTotal b) (tb_evictedSTotal b) (tb_evictedKTotal
    b) (tb_undeliverTotal b) (tb_rescuedAtCap b) (tb_evictedRescue b)
    (tb_evictedRTotal b) (tb_rootGrace b) (tb_decided b) (tb_ledger b) (tb_out b)
    (tb_closed b).

Definition set_tb_seq (x0 : Z) (b : TraceBuffer) : TraceBuffer :=
  mkTraceBuffer (tb_traces b) x0 (tb_ttl b) (tb_lookup b) (tb_maxSpans b)
    (tb_pressure b) (tb_spanCount b) (tb_rescue b) (tb_floor b) (tb_carry b)
    (tb_sacrificeQ b) (tb_sacrificeHead b) (tb_anyQ b) (tb_anyHead b) (tb_refused b)
    (tb_evictedSacrif b) (tb_evictedKept b) (tb_refusedTotal b) (tb_evictedSTotal b)
    (tb_evictedKTotal b) (tb_undeliverTotal b) (tb_rescuedAtCap b) (tb_evictedRescue
    b) (tb_evictedRTotal b) (tb_rootGrace b) (tb_decided b) (tb_ledger b) (tb_out b)
    (tb_closed b).

Definition set_tb_lookup (x0 : option (Z -> string -> Z)) (b : TraceBuffer) : TraceBuffer :=
  mkTraceBuffer (tb_traces b) (tb_seq b) (tb_ttl b) x0 (tb_maxSpans b) (tb_pressure
    b) (tb_spanCount b) (tb_rescue b) (tb_floor b) (tb_carry b) (tb_sacrificeQ b)
    (tb_sacrificeHead b) (tb_anyQ b) (tb_anyHead b) (tb_refused b) (tb_evictedSacrif
    b) (tb_evictedKept b) (tb_refusedTotal b) (tb_evictedSTotal b) (tb_evictedKTotal
    b) (tb_undeliverTotal b) (tb_rescuedAtCap b) (tb_evictedRescue b)
    (tb_evictedRTotal b) (tb_rootGrace b) (tb_decided b) (tb_ledger b) (tb_out b)
    (tb_closed b).

Definition set_tb_pressure (x0 : capPressure) (b : TraceBuffer) : TraceBuffer :=
  mkTraceBuffer (tb_traces b) (tb_seq b) (tb_ttl b) (tb_lookup b) (tb_maxSpans b) x0
    (tb_spanCount b) (tb_rescue b) (tb_floor b) (tb_carry b) (tb_sacrificeQ b)
    (tb_sacrificeHead b) (tb_anyQ b) (tb_anyHead b) (tb_refused b) (tb_evictedSacrif
    b) (tb_evictedKept b) (tb_refusedTotal b) (tb_evictedSTotal b) (tb_evictedKTotal
    b) (tb_undeliverTotal b) (tb_rescuedAtCap b) (tb_evictedRescue b)
    (tb_evictedRTotal b) (tb_rootGrace b) (tb_decided b) (tb_ledger b) (tb_out b)
    (tb_closed b).

Definition set_tb_spanCount (x0 : Z) (b : TraceBuffer) : TraceBuffer :=
  mkTraceBuffer (tb_traces b) (tb_seq b) (tb_ttl b) (tb_lookup b) (tb_maxSpans b)
    (tb_pressure b) x0 (tb_rescue b) (tb_floor b) (tb_carry b) (tb_sacrificeQ b)
    (tb_sacrificeHead b) (tb_anyQ b) (tb_anyHead b) (tb_refused b) (tb_evictedSacrif
    b) (tb_evictedKept b) (tb_refusedTotal b) (tb_evictedSTotal b) (tb_evictedKTotal
    b) (tb_undeliverTotal b) (tb_rescuedAtCap b) (tb_evictedRescue b)
    (tb_evictedRTotal b) (tb_rootGrace b) (tb_decided b) (tb_ledger b) (tb_out b)
    (tb_closed b).

Definition set_tb_floor (x0 : option MinuteFloor) (b : TraceBuffer) : TraceBuffer :=
  mkTraceBuffer (tb_traces b) (tb_seq b) (tb_ttl b) (tb_lookup b) (tb_maxSpans b)
    (tb_pressure b) (tb_spanCount b) (tb_rescue b) x0 (tb_carry b) (tb_sacrificeQ b)
    (tb_sacrificeHead b) (tb_anyQ b) (tb_anyHead b) (tb_refused b) (tb_evictedSacrif
    b) (tb_evictedKept b) (tb_refusedTotal b) (tb_evictedSTotal b) (tb_evictedKTotal
    b) (tb_undeliverTotal b) (tb_rescuedAtCap b) (tb_evictedRescue b)
    (tb_evictedRTotal b) (tb_rootGrace b) (tb_decided b) (tb_ledger b) (tb_out b)
    (tb_closed b).

Definition set_tb_carry (x0 : carryTally) (b : TraceBuffer) : TraceBuffer :=
  mkTraceBuffer (tb_traces b) (tb_seq b) (tb_ttl b) (tb_lookup b) (tb_maxSpans b)
    (tb_pressure b) (tb_spanCount b) (tb_rescue b) (tb_floor b) x0 (tb_sacrificeQ b)
    (tb_sacrificeHead b) (tb_anyQ b) (tb_anyHead b) (tb_refused b) (tb_evictedSacrif
    b) (tb_evictedKept b) (tb_refusedTotal b) (tb_evictedSTotal b) (tb_evictedKTotal
    b) (tb_undeliverTotal b) (tb_rescuedAtCap b) (tb_evictedRescue b)
    (tb_evictedRTotal b) (tb_rootGrace b) (tb_decided b) (tb_ledger b) (tb_out b)
    (tb_closed b).

Definition set_tb_undeliverTotal (x0 : Z) (b : TraceBuffer) : TraceBuffer :=
  mkTraceBuffer (tb_traces b) (tb_seq b) (tb_ttl b) (tb_lookup b) (tb_maxSpans b)
    (tb_pressure b) (tb_spanCount b) (tb_rescue b) (tb_floor b) (tb_carry b)
    (tb_sacrificeQ b) (tb_sacrificeHead b) (tb_anyQ b) (tb_anyHead b) (tb_refused b)
    (tb_evictedSacrif b) (tb_evictedKept b) (tb_refusedTotal b) (tb_evictedSTotal b)
    (tb_evictedKTotal b) x0 (tb_rescuedAtCap b) (tb_evictedRescue b)
    (tb_evictedRTotal b) (tb_rootGrace b) (tb_decided b) (tb_ledger b) (tb_out b)
    (tb_closed b).

Definition set_tb_rescuedAtCap (x0 : list bufferedTrace) (b : TraceBuffer) : TraceBuffer :=
  mkTraceBuffer (tb_traces b) (tb_seq b) (tb_ttl b) (tb_lookup b) (tb_maxSpans b)
    (tb_pressure b) (tb_spanCount b) (tb_rescue b) (tb_floor b) (tb_carry b)
    (tb_sacrificeQ b) (tb_sacrificeHead b) (tb_anyQ b) (tb_anyHead b) (tb_refused b)
    (tb_evictedSacrif b) (tb_evictedKept b) (tb_refusedTotal b) (tb_evictedSTotal b)
    (tb_evictedKTotal b) (tb_undeliverTotal b) x0 (tb_evictedRescue b)
    (tb_evictedRTotal b) (tb_rootGrace b) (tb_decided b) (tb_ledger b) (tb_out b)
    (tb_closed b).

Definition set_tb_rootGrace (x0 : Z) (b : TraceBuffer) : TraceBuffer :=
  mkTraceBuffer (tb_traces b) (tb_seq b) (tb_ttl b) (tb_lookup b) (tb_maxSpans b)
    (tb_pressure b) (tb_spanCount b) (tb_rescue b) (tb_floor b) (tb_carry b)
    (tb_sacrificeQ b) (tb_sacrificeHead b) (tb_anyQ b) (tb_anyHead b) (tb_refused b)
    (tb_evictedSacrif b) (tb_evictedKept b) (tb_refusedTotal b) (tb_evictedSTotal b)
    (tb_evictedKTotal b) (tb_undeliverTotal b) (tb_rescuedAtCap b) (tb_evictedRescue
    b) (tb_evictedRTotal b) x0 (tb_decided b) (tb_ledger b) (tb_out b) (tb_closed
    b).

Definition set_tb_decided (x0 : decidedTraces) (b : TraceBuffer) : TraceBuffer :=
  mkTraceBuffer (tb_traces b) (tb_seq b) (tb_ttl b) (tb_lookup b) (tb_maxSpans b)
    (tb_pressure b) (tb_spanCount b) (tb_rescue b) (tb_floor b) (tb_carry b)
    (tb_sacrificeQ b) (tb_sacrificeHead b) (tb_anyQ b) (tb_anyHead b) (tb_refused b)
    (tb_evictedSacrif b) (tb_evictedKept b) (tb_refusedTotal b) (tb_evictedSTotal b)
    (tb_evictedKTotal b) (tb_undeliverTotal b) (tb_rescuedAtCap b) (tb_evictedRescue
    b) (tb_evictedRTotal b) (tb_rootGrace b) x0 (tb_ledger b) (tb_out b) (tb_closed
    b).

Definition set_tb_ledger (x0 : option Tally) (b : TraceBuffer) : TraceBuffer :=
  mkTraceBuffer (tb_traces b) (tb_seq b) (tb_ttl b) (tb_lookup b) (tb_maxSpans b)
    (tb_pressure b) (tb_spanCount b) (tb_rescue b) (tb_floor b) (tb_carry b)
    (tb_sacrificeQ b) (tb_sacrificeHead b) (tb_anyQ b) (tb_anyHead b) (tb_refused b)
    (tb_evictedSacrif b) (tb_evictedKept b) (tb_refusedTotal b) (tb_evictedSTotal b)
    (tb_evictedKTotal b) (tb_undeliverTotal b) (tb_rescuedAtCap b) (tb_evictedRescue
    b) (tb_evictedRTotal b) (tb_rootGrace b) (tb_decided b) x0 (tb_out b) (tb_closed
    b).

Definition set_tb_out (x0 : list (list SpanRecord)) (b : TraceBuffer) : TraceBuffer :=
  mkTraceBuffer (tb_traces b) (tb_seq b) (tb_ttl b) (tb_lookup b) (tb_maxSpans b)
    (tb_pressure b) (tb_spanCount b) (tb_rescue b) (tb_floor b) (tb_carry b)
    (tb_sacrificeQ b) (tb_sacrificeHead b) (tb_anyQ b) (tb_anyHead b) (tb_refused b)
    (tb_evictedSacrif b) (tb_evictedKept b) (tb_refusedTotal b) (tb_evictedSTotal b)
    (tb_evictedKTotal b) (tb_undeliverTotal b) (tb_rescuedAtCap b) (tb_evictedRescue
    b) (tb_evictedRTotal b) (tb_rootGrace b) (tb_decided b) (tb_ledger b) x0
    (tb_closed b).

Definition set_tb_closed (x0 : bool) (b : TraceBuffer) : TraceBuffer :=
  mkTraceBuffer (tb_traces b) (tb_seq b) (tb_ttl b) (tb_lookup b) (tb_maxSpans b)
    (tb_pressure b) (tb_spanCount b) (tb_rescue b) (tb_floor b) (tb_carry b)
    (tb_sacrificeQ b) (tb_sacrificeHead b) (tb_anyQ b) (tb_anyHead b) (tb_refused b)
    (tb_evictedSacrif b) (tb_evictedKept b) (tb_refusedTotal b) (tb_evictedSTotal b)
    (tb_evictedKTotal b) (tb_undeliverTotal b) (tb_rescuedAtCap b) (tb_evictedRescue
    b) (tb_evictedRTotal b) (tb_rootGrace b) (tb_decided b) (tb_ledger b) (tb_out b)
    x0.

Definition set_tb_sacrifice (x0 : list string) (x1 : nat) (b : TraceBuffer) : TraceBuffer :=
  mkTraceBuffer (tb_traces b) (tb_seq b) (tb_ttl b) (tb_lookup b) (tb_maxSpans b)
    (tb_pressure b) (tb_spanCount b) (tb_rescue b) (tb_floor b) (tb_carry b) x0 x1
    (tb_anyQ b) (tb_anyHead b) (tb_refused b) (tb_evictedSacrif b) (tb_evictedKept
    b) (tb_refusedTotal b) (tb_evictedSTotal b) (tb_evictedKTotal b)
    (tb_undeliverTotal b) (tb_rescuedAtCap b) (tb_evictedRescue b) (tb_evictedRTotal
    b) (tb_rootGrace b) (tb_decided b) (tb_ledger b) (tb_out b) (tb_closed b).

Definition set_tb_any (x0 : list string) (x1 : nat) (b : TraceBuffer) : TraceBuffer :=
  mkTraceBuffer (tb_traces b) (tb_seq b) (tb_ttl b) (tb_lookup b) (tb_maxSpans b)
    (tb_pressure b) (tb_spanCount b) (tb_rescue b) (tb_floor b) (tb_carry b)
    (tb_sacrificeQ b) (tb_sacrificeHead b) x0 x1 (tb_refused b) (tb_evictedSacrif b)
    (tb_evictedKept b) (tb_refusedTotal b) (tb_evictedSTotal b) (tb_evictedKTotal b)
    (tb_undeliverTotal b) (tb_rescuedAtCap b) (tb_evictedRescue b) (tb_evictedRTotal
    b) (tb_rootGrace b) (tb_decided b) (tb_ledger b) (tb_out b) (tb_closed b).

Definition set_tb_refusedCounts (x0 : Z) (x1 : Z) (b : TraceBuffer) : TraceBuffer :=
  mkTraceBuffer (tb_traces b) (tb_seq b) (tb_ttl b) (tb_lookup b) (tb_maxSpans b)
    (tb_pressure b) (tb_spanCount b) (tb_rescue b) (tb_floor b) (tb_carry b)
    (tb_sacrificeQ b) (tb_sacrificeHead b) (tb_anyQ b) (tb_anyHead b) x0
    (tb_evictedSacrif b) (tb_evictedKept b) x1 (tb_evictedSTotal b)
    (tb_evictedKTotal b) (tb_undeliverTotal b) (tb_rescuedAtCap b) (tb_evictedRescue
    b) (tb_evictedRTotal b) (tb_rootGrace b) (tb_decided b) (tb_ledger b) (tb_out b)
    (tb_closed b).

Definition set_tb_evictedSCounts (x0 : Z) (x1 : Z) (b : TraceBuffer) : TraceBuffer :=
  mkTraceBuffer (tb_traces b) (tb_seq b) (tb_ttl b) (tb_lookup b) (tb_maxSpans b)
    (tb_pressure b) (tb_spanCount b) (tb_rescue b) (tb_floor b) (tb_carry b)
    (tb_sacrificeQ b) (tb_sacrificeHead b) (tb_anyQ b) (tb_anyHead b) (tb_refused b)
    x0 (tb_evictedKept b) (tb_refusedTotal b) x1 (tb_evictedKTotal b)
    (tb_undeliverTotal b) (tb_rescuedAtCap b) (tb_evictedRescue b) (tb_evictedRTotal
    b) (tb_rootGrace b) (tb_decided b) (tb_ledger b) (tb_out b) (tb_closed b).

Definition set_tb_evictedKCounts (x0 : Z) (x1 : Z) (b : TraceBuffer) : TraceBuffer :=
  mkTraceBuffer (tb_traces b) (tb_seq b) (tb_ttl b) (tb_lookup b) (tb_maxSpans b)
    (tb_pressure b) (tb_spanCount b) (tb_rescue b) (tb_floor b) (tb_carry b)
    (tb_sacrificeQ b) (tb_sacrificeHead b) (tb_anyQ b) (tb_anyHead b) (tb_refused b)
    (tb_evictedSacrif b) x0 (tb_refusedTotal b) (tb_evictedSTotal b) x1
    (tb_undeliverTotal b) (tb_rescuedAtCap b) (tb_evictedRescue b) (tb_evictedRTotal
    b) (tb_rootGrace b) (tb_decided b) (tb_ledger b) (tb_out b) (tb_closed b).

Definition set_tb_evictedRCounts (x0 : Z) (x1 : Z) (b : TraceBuffer) : TraceBuffer :=
  mkTraceBuffer (tb_traces b) (tb_seq b) (tb_ttl b) (tb_lookup b) (tb_maxSpans b)
    (tb_pressure b) (tb_spanCount b) (tb_rescue b) (tb_floor b) (tb_carry b)
    (tb_sacrificeQ b) (tb_sacrificeHead b) (tb_anyQ b) (tb_anyHead b) (tb_refused b)
    (tb_evictedSacrif b) (tb_evictedKept b) (tb_refusedTotal b) (tb_evictedSTotal b)
    (tb_evictedKTotal b) (tb_undeliverTotal b) (tb_rescuedAtCap b) x0 x1
    (tb_rootGrace b) (tb_decided b) (tb_ledger b) (tb_out b) (tb_closed b).

(** [NewTraceBufferWithRules]; [maxDecided] is [DefaultMaxDecidedTraces]. *)
Definition newTraceBuffer (ttl maxSpans maxDecided : Z) (rules : RescueRules)
  (lookup : option (Z -> string -> Z)) : TraceBuffer :=
  let ttl := if ttl <=? 0 then DefaultTraceBufferTTL else ttl in
  let maxSpans := if maxSpans <? 0 then 0 else maxSpans in
  let rescue := normalised rules in
  mkTraceBuffer ∅ 0 ttl lookup maxSpans (mkCapPressure None None) 0 rescue
    (if 0 <? rr_MinTracesPerHour rescue then Some (NewBucketFloor hour) else None)
    (newCarryTally maxSpans) [] 0 [] 0 0 0 0 0 0 0 0 [] 0 0 DefaultRootGrace
    (newDecidedTraces ttl maxDecided) None [] false.

Definition NewTraceBufferWithRules (ttl maxSpans : Z) (rules : RescueRules)
  (lookup : option (Z -> string -> Z)) : TraceBuffer :=
  newTraceBuffer ttl maxSpans DefaultMaxDecidedTraces rules lookup.

(** [NewTraceBufferWithLimits] *)
Definition NewTraceBufferWithLimits (ttl maxSpans : Z)
  (lookup : option (Z -> string -> Z)) : TraceBuffer :=
  NewTraceBufferWithRules ttl maxSpans (mkRescueRules 0 0) lookup.

(** [NewTraceBuffer] *)
Definition NewTraceBuffer (ttl : Z) (lookup : option (Z -> string -> Z)) : TraceBuffer :=
  NewTraceBufferWithLimits ttl DefaultMaxBufferedSpans lookup.

(** [SetLedger]; the decided table shares the buffer's ledger. *)
Definition SetLedger (t : option Tally) (b : TraceBuffer) : TraceBuffer :=
  set_tb_ledger t b.

(** [SetRootGrace] *)
Definition SetRootGrace (d : Z) (b : TraceBuffer) : TraceBuffer :=
  set_tb_rootGrace (Z.max d 0) b.

(** ** Sampling decisions *)

(** [TraceBuffer.ratio] *)
Definition tb_ratio (projectID : Z) (op : string) (b : TraceBuffer) : Z :=
  match tb_lookup b with
  | None => DefaultSampleRatio
  | Some lookup => lookup projectID op
  end.

(** [TraceBuffer.sampledIn] *)
Definition sampledIn (projectID : Z) (op traceID : string) (b : TraceBuffer) : bool :=
  ratioSampled traceID (tb_ratio projectID op b).

(** [TraceBuffer.slowRoot] *)
Definition slowRoot (tr : bufferedTrace) (b : TraceBuffer) : bool :=
  let limit := rr_SlowThresholdUs (tb_rescue b) in
  if limit <=? 0 then false
  else existsb (fun sp => bool_decide (sr_ParentSpanID sp = ""%string)
                          && (limit <? sr_DurationUs sp)) (bt_spans tr).

(** [time.Time.UnixMicro] *)
Definition UnixMicro (now : Z) : Z := now / 1000.

(** [TraceBuffer.rescued] *)
Definition rescued (projectID : Z) (op : string) (now : Z) (ratioKeep : bool)
  (b : TraceBuffer) : bool * TraceBuffer :=
  match tb_floor b with
  | None => (ratioKeep, b)
  | Some floor =>
      let bucket := BucketOf floor (UnixMicro now) in
      let '(keep, floor) := ShouldKeep floor projectID op bucket
                              (rr_MinTracesPerHour (tb_rescue b)) ratioKeep in
      (keep, set_tb_floor (Some floor) b)
  end.

(** [rootlessWeight] *)
Definition rootlessWeight (sampled : bool) (ratio : Z) : Z :=
  if sampled then Z.max ratio 1 else 1.

(** [TraceBuffer.keepWeight] *)
Definition keepWeight (tr : bufferedTrace) (now : Z) (b : TraceBuffer)
  : Z * TraceBuffer :=
  if bt_hasError tr then (1, b)
  else if spanLen tr =? 0 then (0, b)
  else
    let op := traceOp tr in
    if slowRoot tr b then (1, b)
    else
      let ratio := tb_ratio (bt_projectID tr) (bt_rootOp tr) b in
      let sampled := ratioSampled (bt_id tr) ratio in
      let '(keep, b) := rescued (bt_projectID tr) op now sampled b in
      if negb keep then (0, b)
      else if negb (hasRoot tr) then (rootlessWeight sampled ratio, b)
      else
        let '(n, carry) := carry_take (bt_projectID tr) op (tb_carry b) in
        (1 + n, set_tb_carry carry b).

(** ** The ledger *)

(** [TraceBuffer.ledgerDropped]: returns the trace, marked with its exit. *)
Definition ledgerDropped (tr : bufferedTrace) (col : Column) (b : TraceBuffer)
  : bufferedTrace * TraceBuffer :=
  (set_droppedAs col tr,
   set_tb_ledger (Tally_AddSpans (tb_ledger b) col (bt_spans tr) 1) b).

(** [TraceBuffer.ledgerCarriers] *)
Definition ledgerCarriers (carriers : list bufferedTrace) (b : TraceBuffer)
  : list bufferedTrace * TraceBuffer :=
  (carriers,
   foldl (fun b tr => set_tb_ledger
            (Tally_AddSpans (tb_ledger b) (bt_droppedAs tr) (bt_spans tr) (-1)) b)
     b carriers).

(** Count a trace as dropped under [col] and let the carry tally see it: the
    tail of both branches of [evictOne] and of [flush]'s drop branch. *)
Definition dropTrace (tr : bufferedTrace) (col : Column) (now : Z) (b : TraceBuffer)
  : TraceBuffer :=
  let '(tr, b) := ledgerDropped tr col b in
  set_tb_carry (carry_drop tr now (tb_carry b)) b.

(** ** Capacity *)

(** [TraceBuffer.remove] *)
Definition tb_remove (tr : bufferedTrace) (b : TraceBuffer) : TraceBuffer :=
  set_tb_spanCount (Z.max 0 (tb_spanCount b - spanLen tr))
    (set_tb_traces (delete (bt_id tr) (tb_traces b)) b).

(** [TraceBuffer.compact] *)
Definition compactQueue (q : list string) (head : nat) : list string * nat :=
  if (head <? evictQueueCompactAt)%nat || (head * 2 <? length q)%nat
  then (q, head) else (drop head q, 0%nat).

(** Whether [nextVictim] may pick the trace a queue entry names. *)
Definition evictable (sacrificialOnly : bool) (keep : option string) (id : string)
  (traces : gmap string bufferedTrace) : option bufferedTrace :=
  match traces !! id with
  | None => None
  | Some tr =>
      if bt_hasError tr || bool_decide (keep = Some id) then None
      else if sacrificialOnly && negb (bt_sacrificial tr) then None
      else Some tr
  end.

(** The loop of [nextVictim] over the entries left: the victim and how many
    entries it consumed. *)
Fixpoint victimLoop (traces : gmap string bufferedTrace) (sacrificialOnly : bool)
  (keep : option string) (q : list string) : option bufferedTrace * nat :=
  match q with
  | [] => (None, 0%nat)
  | id :: q =>
      match evictable sacrificialOnly keep id traces with
      | Some tr => (Some tr, 1%nat)
      | None => let '(v, n) := victimLoop traces sacrificialOnly keep q in (v, S n)
      end
  end.

(** [TraceBuffer.nextVictim]; [keep] is the id of the trace that may not go. *)
Definition nextVictim (traces : gmap string bufferedTrace) (q : list string) (head : nat)
  (sacrificialOnly : bool) (keep : option string)
  : option bufferedTrace * (list string * nat) :=
  let '(v, n) := victimLoop traces sacrificialOnly keep (drop head q) in
  (v, compactQueue q (head + n)).

(** [decided.put] where the caller ignores the spans it returns. *)
Definition putDecided (id : string) (w : Z) (pending : bool) (at_ : Z) (b : TraceBuffer)
  : TraceBuffer :=
  set_tb_decided (decided_put id w pending at_ (tb_decided b)).2 b.

(** [TraceBuffer.rescueAtCap] *)
Definition rescueAtCap (tr : bufferedTrace) (now : Z) (b : TraceBuffer)
  : bool * TraceBuffer :=
  let '(w, b) := keepWeight tr now b in
  if w =? 0 then (false, b)
  else
    let tr := stampWeight w tr in
    let b := putDecided (bt_id tr) w false now b in
    let b := set_tb_rescuedAtCap (tb_rescuedAtCap b ++ [tr]) b in
    (true, set_tb_evictedRCounts (tb_evictedRescue b + spanLen tr)
             (tb_evictedRTotal b + spanLen tr) b).

(** [TraceBuffer.evictOne] *)
Definition evictOne (keep : option string) (now : Z) (b : TraceBuffer)
  : bool * TraceBuffer :=
  let '(v, (q, h)) := nextVictim (tb_traces b) (tb_sacrificeQ b) (tb_sacrificeHead b)
                        true keep in
  let b := set_tb_sacrifice q h b in
  match v with
  | Some tr =>
      let b := tb_remove tr b in
      let '(kept, b) := rescueAtCap tr now b in
      if kept then (true, b)
      else
        let b := set_tb_evictedSCounts (tb_evictedSacrif b + spanLen tr)
                   (tb_evictedSTotal b + spanLen tr) b in
        let b := dropTrace tr ShedUnsampled now b in
        (true, putDecided (bt_id tr) 0 false now b)
  | None =>
      let '(v, (q, h)) := nextVictim (tb_traces b) (tb_anyQ b) (tb_anyHead b) false keep in
      let b := set_tb_any q h b in
      match v with
      | Some tr =>
          let b := set_tb_evictedKCounts (tb_evictedKept b + spanLen tr)
                     (tb_evictedKTotal b + spanLen tr) b in
          let b := tb_remove tr b in
          let b := dropTrace tr LostInBuffer now b in
          (true, putDecided (bt_id tr) 0 false now b)
      | None => (false, b)
      end
  end.

(** [TraceBuffer.ensureRoom]: the loop, which frees one trace a turn. *)
Fixpoint ensureRoomLoop (fuel : nat) (keep : option string) (now : Z) (b : TraceBuffer)
  : bool * TraceBuffer :=
  if (0 <? tb_maxSpans b) && (tb_maxSpans b <=? tb_spanCount b) then
    match fuel with
    | O => (false, b)
    | S fuel =>
        let '(ok, b) := evictOne keep now b in
        if ok then ensureRoomLoop fuel keep now b else (false, b)
    end
  else (true, b).

Definition ensureRoom (keep : option string) (now : Z) (b : TraceBuffer)
  : bool * TraceBuffer :=
  ensureRoomLoop (S (size (tb_traces b))) keep now b.

(** ** Adding a span *)

(** [TraceBuffer.relabel] *)
Definition relabel (tr : bufferedTrace) (b : TraceBuffer) : bufferedTrace * TraceBuffer :=
  let was := bt_sacrificial tr in
  let sac := negb (sampledIn (bt_projectID tr) (bt_rootOp tr) (bt_id tr) b) in
  (set_sacrificial sac tr,
   if sac && negb was
   then set_tb_sacrifice (tb_sacrificeQ b ++ [bt_id tr]) (tb_sacrificeHead b) b
   else b).

(** [TraceBuffer.newTrace] *)
Definition newTrace (rec : SpanRecord) (now : Z) (b : TraceBuffer)
  : bufferedTrace * TraceBuffer :=
  let op := if bool_decide (sr_ParentSpanID rec = ""%string) then sr_Name rec
            else ""%string in
  let b := set_tb_seq (tb_seq b + 1) b in
  let sac := negb (sampledIn (sr_ProjectID rec) op (sr_TraceID rec) b) in
  let tr := mkBufferedTrace (sr_TraceID rec) [] false op (sr_ProjectID rec) now None
              sac (tb_seq b) Accepted in
  let b := set_tb_traces (<[sr_TraceID rec := tr]> (tb_traces b)) b in
  let b := set_tb_any (tb_anyQ b ++ [sr_TraceID rec]) (tb_anyHead b) b in
  let b := if sac then set_tb_sacrifice (tb_sacrificeQ b ++ [sr_TraceID rec])
                         (tb_sacrificeHead b) b
           else b in
  (tr, b).

(** The part of [Add] after room was made: append the span to its trace, latch
    the error and the root. *)
Definition appendSpan (rec : SpanRecord) (now : Z) (tr : bufferedTrace) (b : TraceBuffer)
  : TraceBuffer :=
  let tr := if isErrorStatus (sr_Status rec) then set_hasError true tr else tr in
  let tr := set_spans (bt_spans tr ++ [rec]) tr in
  let b := set_tb_spanCount (tb_spanCount b + 1) b in
  let '(tr, b) :=
    if bool_decide (sr_ParentSpanID rec = ""%string) && negb (hasRoot tr) then
      let tr := set_rootSeen (Some now) tr in
      if bool_decide (bt_rootOp tr = ""%string)
      then relabel (set_rootOp (sr_Name rec) tr) b
      else (tr, b)
    else (tr, b) in
  set_tb_traces (<[bt_id tr := tr]> (tb_traces b)) b.

(** [TraceBuffer.Add] *)
Definition Add (rec : SpanRecord) (now : Z) (b : TraceBuffer) : TraceBuffer :=
  let b := set_tb_ledger
             (Tally_Add (tb_ledger b) Accepted (sr_ProjectID rec) (sr_StartTimeUs rec) 1) b in
  let isErr := isErrorStatus (sr_Status rec) in
  let otr := tb_traces b !! sr_TraceID rec in
  let '(followed, b) :=
    match otr with
    | Some _ => (false, b)
    | None =>
        let '(f, d, lg) := decided_follow rec (tb_decided b) (tb_ledger b) in
        (f, set_tb_ledger lg (set_tb_decided d b))
    end in
  if followed then b
  else
    let protected := isErr || from_option bt_hasError false otr in
    let '(room, b) := ensureRoom (bt_id <$> otr) now b in
    if negb room && negb protected then
      let b := set_tb_refusedCounts (tb_refused b + 1) (tb_refusedTotal b + 1) b in
      set_tb_ledger (Tally_Add (tb_ledger b) LostInBuffer (sr_ProjectID rec)
                       (sr_StartTimeUs rec) 1) b
    else
      let '(tr, b) := match otr with
                      | Some tr => (tr, b)
                      | None => newTrace rec now b
                      end in
      appendSpan rec now tr b.

(** ** Pressure and loss reporting *)

(** [lossWindow] *)
Record lossWindow := mkLossWindow {
  lw_refused : Z; lw_evictedSacrif : Z; lw_evictedKept : Z; lw_rescued : Z;
  lw_maxSpans : Z; lw_buffered : Z; lw_traces : Z; lw_atCapFor : Z }.

(** [TraceBuffer.takeLossWindow] *)
Definition takeLossWindow (b : TraceBuffer) : lossWindow * TraceBuffer :=
  (mkLossWindow (tb_refused b) (tb_evictedSacrif b) (tb_evictedKept b)
     (tb_evictedRescue b) (tb_maxSpans b) 0 0 0,
   set_tb_refusedCounts 0 (tb_refusedTotal b)
     (set_tb_evictedSCounts 0 (tb_evictedSTotal b)
       (set_tb_evictedKCounts 0 (tb_evictedKTotal b)
         (set_tb_evictedRCounts 0 (tb_evictedRTotal b) b)))).

Definition capPressureWarnAfter : Z := 10 * minute.

Definition capPressureRepeat : Z := hour.

Definition capPressureFillPct : Z := 90.

(** [lossWindow.atCap] *)
Definition atCap (w : lossWindow) : bool :=
  if (0 <? lw_evictedSacrif w) || (0 <? lw_rescued w) || (0 <? lw_evictedKept w)
     || (0 <? lw_refused w)
  then true
  else (0 <? lw_maxSpans w) && (lw_maxSpans w * capPressureFillPct <=? lw_buffered w * 100).

(** [capPressure.observe] *)
Definition observe (w : lossWindow) (now : Z) (p : capPressure) : Z * capPressure :=
  if negb (atCap w) then (0, mkCapPressure None (cp_warned p))
  else
    let since := default now (cp_since p) in
    let held := sat64 (now - since) in
    let recently := match cp_warned p with
                    | Some t => sat64 (now - t) <? capPressureRepeat
                    | None => false
                    end in
    if (held <? capPressureWarnAfter) || recently
    then (0, mkCapPressure (Some since) (cp_warned p))
    else (held, mkCapPressure (Some since) (Some now)).

(** The lines [reportLoss] and [reportSustainedCap] write. *)
Inductive lossLog :=
  | SustainedCapWarn (minutes : Z)
  | ShedInfo
  | TelemetryLostWarn.

(** [TraceBuffer.reportLoss] with [reportSustainedCap]. *)
Definition reportLoss (w : lossWindow) : list lossLog :=
  (if lw_atCapFor w <=? 0 then [] else [SustainedCapWarn (lw_atCapFor w /t minute)]) ++
  (if ((0 <? lw_evictedSacrif w) || (0 <? lw_rescued w)) && (lw_evictedKept w =? 0)
      && (lw_refused w =? 0)
   then [ShedInfo]
   else if (lw_evictedKept w =? 0) && (lw_refused w =? 0) then []
   else [TelemetryLostWarn]).

(** ** Flushing *)

(** [TraceBuffer.due] *)
Definition due (tr : bufferedTrace) (now : Z) (b : TraceBuffer) : bool :=
  (match bt_rootSeen tr with
   | Some seen => (0 <? tb_rootGrace b) && (tb_rootGrace b <=? sat64 (now - seen))
   | None => false
   end)
  || (tb_ttl b <=? sat64 (now - bt_firstSeen tr)).

Definition arrivedBefore (a b : bufferedTrace) : Prop := bt_seq a <= bt_seq b.

#[export] Instance arrivedBefore_dec : RelDecision arrivedBefore.
Proof. intros a b. unfold arrivedBefore. apply _. Defined.

(** [sortByArrival] *)
Definition sortByArrival (trs : list bufferedTrace) : list bufferedTrace :=
  merge_sort arrivedBefore trs.

(** [TraceBuffer.pruneQueue] *)
Definition pruneQueue (q : list string) (head : nat) (b : TraceBuffer) : list string :=
  filter (fun id => is_Some (tb_traces b !! id)) (drop head q).

(** [TraceBuffer.pruneEvictionQueues] *)
Definition pruneEvictionQueues (b : TraceBuffer) : TraceBuffer :=
  let b := set_tb_sacrifice (pruneQueue (tb_sacrificeQ b) (tb_sacrificeHead b) b) 0 b in
  set_tb_any (pruneQueue (tb_anyQ b) (tb_anyHead b) b) 0 b.

(** The traces [flush] decides: the due ones of the trace map, which is ranged
    over in some order, sorted by arrival. *)
Definition toDecide (now : Z) (all : bool) (b : TraceBuffer) : list bufferedTrace :=
  sortByArrival
    (filter (fun tr => all || due tr now b) (map_to_list (tb_traces b)).*2).

(** The first locked phase of [flush]: the due traces move out of the map, each
    marked pending, and the traces rescued at the cap are taken. *)
Definition flushBegin (now : Z) (all : bool) (b : TraceBuffer)
  : list bufferedTrace * list bufferedTrace * lossWindow * TraceBuffer :=
  let trs := toDecide now all b in
  let b := foldl (fun b tr => putDecided (bt_id tr) 0 true now (tb_remove tr b)) b trs in
  let b := pruneEvictionQueues b in
  let b := set_tb_decided (decided_expire now (tb_decided b)) b in
  let kept := tb_rescuedAtCap b in
  let b := set_tb_rescuedAtCap [] b in
  let '(loss, b) := takeLossWindow b in
  let buffered := tb_spanCount b in
  let traces := Z.of_nat (size (tb_traces b)) in
  let w := mkLossWindow (lw_refused loss) (lw_evictedSacrif loss) (lw_evictedKept loss)
             (lw_rescued loss) (lw_maxSpans loss) buffered traces 0 in
  let '(atCapFor, pressure) := observe w now (tb_pressure b) in
  let loss := mkLossWindow (lw_refused loss) (lw_evictedSacrif loss) (lw_evictedKept loss)
                (lw_rescued loss) (lw_maxSpans loss) buffered traces atCapFor in
  (trs, kept, loss, set_tb_pressure pressure b).

(** One turn of [flush]'s decision loop, outside the lock: the weight, and the
    kept trace. *)
Definition decideOne (tr : bufferedTrace) (now : Z) (b : TraceBuffer)
  : Z * option bufferedTrace * TraceBuffer :=
  let '(w, b) := keepWeight tr now b in
  if 0 <? w then (w, Some (stampWeight w tr), b)
  else (w, None, dropTrace tr SampledOut now b).

Fixpoint decideLoop (trs : list bufferedTrace) (now : Z) (b : TraceBuffer)
  : list Z * list bufferedTrace * TraceBuffer :=
  match trs with
  | [] => ([], [], b)
  | tr :: trs =>
      let '(w, k, b) := decideOne tr now b in
      let '(ws, ks, b) := decideLoop trs now b in
      (w :: ws, option_list k ++ ks, b)
  end.

(** The carriers that expired, their exits taken back. *)
Definition flushCarriers (now : Z) (all : bool) (b : TraceBuffer)
  : list bufferedTrace * TraceBuffer :=
  let '(carriers, carry) := carry_expired now all (tb_carry b) in
  ledgerCarriers carriers (set_tb_carry carry b).

(** [decided.follow] on the buffer. *)
Definition followLate (b : TraceBuffer) (rec : SpanRecord) : TraceBuffer :=
  let '(_, d, lg) := decided_follow rec (tb_decided b) (tb_ledger b) in
  set_tb_ledger lg (set_tb_decided d b).

(** One turn of [settle]'s loop. *)
Definition settleOne (now : Z) (b : TraceBuffer) (trw : bufferedTrace * Z) : TraceBuffer :=
  let '(held, d) := decided_put (bt_id trw.1) trw.2 false now (tb_decided b) in
  foldl followLate (set_tb_decided d b) held.

(** [TraceBuffer.settle] *)
Definition settle (trs : list bufferedTrace) (weights : list Z) (now : Z)
  (b : TraceBuffer) : list SpanRecord * TraceBuffer :=
  let b := foldl (settleOne now) b (zip trs weights) in
  let '(late, d) := decided_takeLate (tb_decided b) in
  (late, set_tb_decided d b).

(** The batches [deliverAll] sends. *)
Definition deliverBatches (kept : list bufferedTrace) (late : list SpanRecord)
  : list (list SpanRecord) :=
  (bt_spans <$> kept) ++ (match late with [] => [] | _ => [late] end).

(** One turn of [deliverAll]'s loop; [ok] is what [deliver] returned. *)
Definition deliverOne (ok : bool) (spans : list SpanRecord) (b : TraceBuffer)
  : TraceBuffer :=
  if ok then
    set_tb_out (tb_out b ++ [spans])
      (set_tb_ledger (Tally_AddSpans (tb_ledger b) Forwarded spans 1) b)
  else set_tb_ledger (Tally_AddSpans (tb_ledger b) LostInBuffer spans 1) b.

(** [deliverAll]'s loop: [accepts i] is whether the consumer took batch [i] in
    time.  Returns the spans sent and not sent. *)
Fixpoint deliverLoop (accepts : nat -> bool) (i : nat) (batches : list (list SpanRecord))
  (b : TraceBuffer) : Z * Z * TraceBuffer :=
  match batches with
  | [] => (0, 0, b)
  | spans :: batches =>
      let b := deliverOne (accepts i) spans b in
      let '(sent, lost, b) := deliverLoop accepts (S i) batches b in
      let n := Z.of_nat (length spans) in
      if accepts i then (n + sent, lost, b) else (sent, n + lost, b)
  end.

(** [TraceBuffer.deliverAll] *)
Definition deliverAll (accepts : nat -> bool) (kept : list bufferedTrace)
  (late : list SpanRecord) (b : TraceBuffer) : Z * TraceBuffer :=
  let '(sent, lost, b) := deliverLoop accepts 0 (deliverBatches kept late) b in
  (sent, if 0 <? lost then set_tb_undeliverTotal (tb_undeliverTotal b + lost) b else b).

(** [TraceBuffer.flush] *)
Definition flush (accepts : nat -> bool) (now : Z) (all : bool) (b : TraceBuffer)
  : Z * TraceBuffer :=
  let '(trs, kept, _, b) := flushBegin now all b in
  let '(weights, decidedKept, b) := decideLoop trs now b in
  let '(carriers, b) := flushCarriers now all b in
  let '(late, b) := settle trs weights now b in
  deliverAll accepts (kept ++ decidedKept ++ carriers) late b.

(** [TraceBuffer.Flush] *)
Definition Flush (accepts : nat -> bool) (now : Z) (b : TraceBuffer) : TraceBuffer :=
  (flush accepts now false b).2.

(** ** Statistics *)

(** [BufferStats] *)
Record BufferStats := mkBufferStats {
  bs_BufferedSpans : Z; bs_BufferedTraces : Z; bs_MaxSpans : Z; bs_RefusedSpans : Z;
  bs_EvictedSacrificialSpans : Z; bs_EvictedKeptSpans : Z; bs_RescuedAtCapSpans : Z;
  bs_UndeliveredSpans : Z; bs_CarrierSpans : Z; bs_CarriedDrops : Z;
  bs_UncarriedDrops : Z; bs_DecidedTraces : Z; bs_DecidedEvicted : Z;
  bs_LateSpansKept : Z; bs_LateSpansDropped : Z }.

(** [TraceBuffer.Stats] *)
Definition Stats (b : TraceBuffer) : BufferStats :=
  let '(held, carried, uncarried) := carry_stats (tb_carry b) in
  mkBufferStats (tb_spanCount b) (Z.of_nat (size (tb_traces b))) (tb_maxSpans b)
    (tb_refusedTotal b) (tb_evictedSTotal b) (tb_evictedKTotal b) (tb_evictedRTotal b)
    (tb_undeliverTotal b) held carried uncarried
    (Z.of_nat (size (dt_m (tb_decided b)))) (dt_evicted (tb_decided b))
    (dt_lateKept (tb_decided b)) (dt_lateDropped (tb_decided b)).

(** ** Shutdown *)

(** [CloseResult] *)
Record CloseResult := mkCloseResult { cr_Traces : Z; cr_Spans : Z; cr_Kept : Z }.

(** [TraceBuffer.stopGC]: what the buffer holds once the gc loop ended. *)
Definition stopGC (b : TraceBuffer) : CloseResult :=
  mkCloseResult (Z.of_nat (size (tb_traces b))) (tb_spanCount b) 0.

(** [TraceBuffer.finish] *)
Definition finish (accepts : nat -> bool) (now : Z) (b : TraceBuffer) : Z * TraceBuffer :=
  let '(sent, b) := flush accepts now true b in (sent, set_tb_closed true b).

(** [TraceBuffer.Close]; [tb_closed] is [closeOnce]. *)
Definition Close (accepts : nat -> bool) (now : Z) (b : TraceBuffer)
  : CloseResult * TraceBuffer :=
  if tb_closed b then (mkCloseResult 0 0 0, b)
  else
    let res := stopGC b in
    let '(sent, b) := finish accepts now b in
    (mkCloseResult (cr_Traces res) (cr_Spans res) sent, b).

(** [TraceBuffer.drainStep] *)
Definition drainStep (accepts : nat -> bool) (now : Z) (b : TraceBuffer)
  : Z * Z * TraceBuffer :=
  let '(sent, b) := flush accepts now false b in
  (sent, Z.of_nat (size (filter (fun kt => hasRoot kt.2) (tb_traces b))), b).

(** The loop of [Drain]; each turn has its reading of [tb.now] and which of its
    deliveries are taken in time.  With the turns used up the loop still waits for
    its ticker: [None]. *)
Fixpoint drainLoop (deadline : Z) (turns : list (Z * (nat -> bool)))
  (b : TraceBuffer) : option (Z * TraceBuffer) :=
  match turns with
  | [] => None
  | (now, accepts) :: turns =>
      let '(sent, rooted, b) := drainStep accepts now b in
      if (rooted =? 0) || (deadline <=? now) then Some (sent, b)
      else '(s, b) ← drainLoop deadline turns b; Some (sent + s, b)
  end.

(** [TraceBuffer.Drain]; [last] is the clock at the end, where a last flush delivers to
    [accepts]. *)
Definition Drain (deadline : Z) (turns : list (Z * (nat -> bool))) (accepts : nat -> bool) (last : Z)
  (b : TraceBuffer) : option (CloseResult * TraceBuffer) :=
  if tb_closed b then Some (mkCloseResult 0 0 0, b)
  else
    let res := stopGC b in
    '(kept, b) ← drainLoop deadline turns b;
    let '(sent, b) := finish accepts last b in
    Some (mkCloseResult (cr_Traces res) (cr_Spans res) (kept + sent), b).
