(* ===== verification/BufferInv.v ===== *)
(** * Invariants of the trace buffer

    What every locked operation of [TraceBuffer] preserves: the span counter,
    the cap on clean spans, the error latch, the carry and decision tables, and
    the place every span is in.  [inside mu b] measures the spans the buffer
    holds; the ledger counts the spans that left. *)
From S2P Require Import Prelude Model SpanLedger Sampling TraceSampling Carry Decided.
From S2P Require Import TraceBuffer.

(** ** Measures of spans *)

Abbreviation measure := (SpanRecord -> Z).

(** A measure that does not look at the sample weight. *)
Definition weightFree (mu : measure) : Prop :=
  forall w r, mu (set_SampleWeight w r) = mu r.

Definition trM (mu : measure) (tr : bufferedTrace) : Z := sumBy mu (bt_spans tr).

(** The spans the buffer holds: buffered, rescued at the cap, held for a pending
    decision, and late ones waiting for the next flush. *)
Definition inside (mu : measure) (b : TraceBuffer) : Z :=
  mapSum (trM mu) (tb_traces b) + sumBy (trM mu) (tb_rescuedAtCap b) +
  mapSum (sumBy mu) (dt_held (tb_decided b)) + sumBy mu (dt_late (tb_decided b)).

(** The measure of one ledger key. *)
Definition keyM (k : rowKey) : measure := fun r => if decide (spanKey r = k) then 1 else 0.

(** A measure that is zero on every span without error status. *)
Definition errorOnly (mu : measure) : Prop :=
  forall r, isErrorStatus (sr_Status r) = false -> mu r = 0.

Lemma keyM_weightFree k : weightFree (keyM k).
Proof. intros w r. done. Qed.

Lemma sumBy_keyM k l : sumBy (keyM k) l = keyCount k l.
Proof. done. Qed.

Lemma sumBy_stamp mu w l : weightFree mu -> sumBy mu (map (set_SampleWeight w) l) = sumBy mu l.
Proof. intros H. rewrite sumBy_map. apply sumBy_ext. intros. apply H. Qed.

Lemma trM_stamp mu w tr : weightFree mu -> trM mu (stampWeight w tr) = trM mu tr.
Proof. apply sumBy_stamp. Qed.

Lemma trM_droppedAs mu c tr : trM mu (set_droppedAs c tr) = trM mu tr.
Proof. done. Qed.

(** ** The ledger's exits *)

(** What the ledger says left the buffer under a key. *)
Definition exits (k : rowKey) (t : option Tally) : Z :=
  ledgerCount t SampledOut k + ledgerCount t ShedUnsampled k +
  ledgerCount t LostInBuffer k + ledgerCount t Forwarded k.

(** Accepted, not yet left. *)
Definition unexited (k : rowKey) (t : option Tally) : Z := ledgerCount t Accepted k - exits k t.

(** The columns a dropped trace can be counted under. *)
Definition dropColumn (c : Column) : bool :=
  match c with SampledOut | ShedUnsampled | LostInBuffer => true | _ => false end.

Definition exitColumn (c : Column) : bool :=
  match c with Forwarded => true | _ => dropColumn c end.

Lemma unexited_AddSpans t c l sign k :
  wfLedger t -> is_Some t -> exitColumn c = true ->
  unexited k (Tally_AddSpans t c l sign) = unexited k t - sign * sumBy (keyM k) l.
Proof.
  intros Hw [t0 ->] Hc. rewrite sumBy_keyM. unfold unexited, exits.
  rewrite !count_AddSpans by done.
  destruct c; try discriminate Hc; repeat (destruct (decide _); try done); lia.
Qed.

Lemma unexited_Add t c p s k :
  wfLedger t -> is_Some t -> exitColumn c = true ->
  unexited k (Tally_Add t c p s 1) =
  unexited k t - (if decide ((SpanLedgerBucket s, p) = k) then 1 else 0).
Proof.
  intros Hw [t0 ->] Hc. unfold unexited, exits. rewrite !count_Add by done.
  destruct c; try discriminate Hc; repeat (destruct (decide _); try done); lia.
Qed.

Lemma unexited_accept t r k :
  wfLedger t -> is_Some t ->
  unexited k (Tally_Add t Accepted (sr_ProjectID r) (sr_StartTimeUs r) 1) =
  unexited k t + keyM k r.
Proof.
  intros Hw [t0 ->]. unfold unexited, exits, keyM, spanKey. rewrite !count_Add by done.
  repeat (destruct (decide _); try done); lia.
Qed.

Lemma is_Some_Add t c p s n : is_Some t -> is_Some (Tally_Add t c p s n).
Proof. intros [x ->]. done. Qed.

Lemma is_Some_AddSpans t c l s : is_Some t -> is_Some (Tally_AddSpans t c l s).
Proof. intros [x ->]. rewrite AddSpans_foldl. eauto. Qed.

#[export] Hint Resolve is_Some_Add is_Some_AddSpans : spanbarn.

(** ** Traces *)

Definition noErrors (l : list SpanRecord) : Prop :=
  Forall (fun r => isErrorStatus (sr_Status r) = false) l.

(** The error latch: a trace without the flag holds no error span. *)
Definition latched (tr : bufferedTrace) : Prop :=
  bt_hasError tr = false -> noErrors (bt_spans tr).

Definition cleanLen (tr : bufferedTrace) : Z := if bt_hasError tr then 0 else spanLen tr.

(** A trace the carry tally may hold: counted under a drop column, no error. *)
Definition carrierOk (tr : bufferedTrace) : Prop :=
  dropColumn (bt_droppedAs tr) = true /\ noErrors (bt_spans tr).

Definition carryOk (c : carryTally) : Prop :=
  wfCarry c /\
  map_Forall (fun _ e => from_option carrierOk True (ce_held e)) (ct_m c).

Lemma trM_errorOnly mu tr : errorOnly mu -> noErrors (bt_spans tr) -> trM mu tr = 0.
Proof.
  intros Hmu Hn. apply sumBy_zero. intros r Hr. apply Hmu.
  unfold noErrors in Hn. rewrite Forall_forall in Hn. by apply Hn.
Qed.

Lemma carryOk_new n : carryOk (newCarryTally n).
Proof. split; [apply wfCarry_new|apply map_Forall_empty]. Qed.

Lemma carryOk_drop tr now c : carryOk c -> carrierOk tr -> carryOk (carry_drop tr now c).
Proof.
  intros [Hw Hf] Htr. split; [by apply carry_drop_spec|].
  unfold carry_drop. destruct (_ || _); [done|]. cbv zeta.
  assert (from_option carrierOk True
    (ce_held (default (mkCarryEntry 0 None now) (ct_m c !! (bt_projectID tr, traceOp tr)))))
    as Hd.
  { destruct (ct_m c !! _) as [e|] eqn:E; simpl; [|done]. exact (Hf _ e E). }
  case_match; simpl; by apply map_Forall_insert_2.
Qed.

Lemma carryOk_take p op c n c' :
  carryOk c -> carry_take p op c = (n, c') -> carryOk c' /\ 0 <= n.
Proof.
  intros [Hw Hf] H. destruct (carry_take_spec _ _ _ _ _ Hw H) as (? & ? & _).
  split; [split; [done|]|done]. unfold carry_take in H.
  destruct (ct_m c !! _); simplify_eq; simpl; [by apply map_Forall_delete|done].
Qed.

Lemma carryOk_expired now all c out c' :
  carryOk c -> carry_expired now all c = (out, c') ->
  carryOk c' /\ Forall carrierOk out.
Proof.
  intros [Hw Hf] H. destruct (carry_expired_spec _ _ _ _ _ Hw H) as (? & _).
  destruct (expired_fold_map c) as [Hnd Hin].
  destruct (expired_fold _ _ _ _ _ _ _ Hnd Hin H) as (-> & _ & Hl & _).
  split; [split; [done|]|].
  - intros k e Hke. apply Hl in Hke as [Hke _]. exact (Hf k e Hke).
  - simpl. apply Forall_forall. intros tr Htr.
    apply list_elem_of_omap in Htr as ([k e] & Hke & Htr).
    apply list_elem_of_filter in Hke as [_ Hke]. apply Hin in Hke.
    unfold carrierOf in Htr. simpl in Htr. specialize (Hf k e Hke). simpl in Hf.
    destruct (ce_held e) as [h|]; simplify_eq/=. destruct Hf as [Hd Hn].
    split; [done|]. unfold noErrors in *. simpl. by apply Forall_map.
Qed.

(** ** The invariant *)

Record wfBuf (b : TraceBuffer) : Prop := {
  wb_id : forall id tr, tb_traces b !! id = Some tr -> bt_id tr = id;
  wb_count : tb_spanCount b = mapSum spanLen (tb_traces b);
  wb_seq : forall id tr, tb_traces b !! id = Some tr -> bt_seq tr <= tb_seq b;
  wb_seq_inj : forall id1 id2 tr1 tr2,
    tb_traces b !! id1 = Some tr1 -> tb_traces b !! id2 = Some tr2 ->
    bt_seq tr1 = bt_seq tr2 -> id1 = id2;
  wb_latch : forall id tr, tb_traces b !! id = Some tr -> latched tr;
  wb_cap : 0 < tb_maxSpans b -> mapSum cleanLen (tb_traces b) <= tb_maxSpans b;
  wb_decided : wfDecided (tb_decided b);
  wb_carry : carryOk (tb_carry b);
  wb_ledger : wfLedger (tb_ledger b) /\ is_Some (tb_ledger b);
  wb_disj : forall id, is_Some (tb_traces b !! id) -> dt_held (tb_decided b) !! id = None;
  wb_heldid : forall id l, dt_held (tb_decided b) !! id = Some l ->
    Forall (fun r => sr_TraceID r = id) l;
  wb_ttl : 0 < dt_ttl (tb_decided b);
}.

Lemma wfBuf_new ttl maxSpans maxDecided rules lookup :
  wfBuf (SetLedger (Some Tally_New) (newTraceBuffer ttl maxSpans maxDecided rules lookup)).
Proof.
  split; simpl; try done; rewrite ?mapSum_empty; try lia.
  - apply wfDecided_new.
  - apply carryOk_new.
  - case_match; to_prop; [done|lia].
Qed.

Lemma cleanLen_bounds tr : 0 <= cleanLen tr <= spanLen tr.
Proof. unfold cleanLen, spanLen. case_match; lia. Qed.

Lemma mapSum_cleanLen_nonneg (m : gmap string bufferedTrace) : 0 <= mapSum cleanLen m.
Proof. apply mapSum_nonneg. intros. apply cleanLen_bounds. Qed.

Lemma mapSum_spanLen_nonneg (m : gmap string bufferedTrace) : 0 <= mapSum spanLen m.
Proof. apply mapSum_nonneg. intros. apply spanLen_nonneg. Qed.

(** ** Frames: the fields the small helpers write *)

Lemma keepWeight_frame tr now b w b' :
  keepWeight tr now b = (w, b') ->
  exists f c, b' = set_tb_carry c (set_tb_floor f b) /\
    (bt_hasError tr = true -> w = 1) /\
    (carryOk (tb_carry b) -> carryOk c /\ 0 <= w).
Proof.
  assert (forall b : TraceBuffer, b = set_tb_carry (tb_carry b) (set_tb_floor (tb_floor b) b))
    as Hid by by intros [].
  unfold keepWeight. destruct (bt_hasError tr) eqn:He.
  { intros [= <- <-]. exists (tb_floor b), (tb_carry b). split; [apply Hid|].
    split; [done|]. intros; split; [done|lia]. }
  destruct (spanLen tr =? 0).
  { intros [= <- <-]. exists (tb_floor b), (tb_carry b). split; [apply Hid|].
    split; [done|]. intros; split; [done|lia]. }
  destruct (slowRoot tr b).
  { intros [= <- <-]. exists (tb_floor b), (tb_carry b). split; [apply Hid|].
    split; [done|]. intros; split; [done|lia]. }
  unfold rescued.
  assert (forall f b1, b1 = set_tb_floor f b ->
    forall keep sampled ratio (n : Z * carryTally),
    n = carry_take (bt_projectID tr) (traceOp tr) (tb_carry b) ->
    (if negb keep then (0, b1)
     else if negb (hasRoot tr) then (rootlessWeight sampled ratio, b1)
     else let '(n, carry) := n in (1 + n, set_tb_carry carry b1)) = (w, b') ->
    exists f c, b' = set_tb_carry c (set_tb_floor f b) /\
    (false = true -> w = 1) /\ (carryOk (tb_carry b) -> carryOk c /\ 0 <= w)) as Hgo.
  { intros f b1 -> keep sampled ratio [n c] Hn H. symmetry in Hn.
    destruct keep; simpl in H; [destruct (hasRoot tr); simpl in H|]; simplify_eq.
    - exists f, c. split; [done|split; [done|]]. intros Hc.
      destruct (carryOk_take _ _ _ _ _ Hc Hn). split; [done|lia].
    - exists f, (tb_carry b). split; [done|split; [done|]]. intros Hc. split; [done|].
      unfold rootlessWeight. case_match; lia.
    - exists f, (tb_carry b). split; [done|split; [done|]]. intros Hc. split; [done|lia]. }
  destruct (tb_floor b) as [fl|] eqn:Ef.
  - destruct (ShouldKeep _ _ _ _ _ _) as [keep fl'] eqn:Es.
    intros H. eapply (Hgo (Some fl') _ eq_refl); [reflexivity|]. exact H.
  - intros H. eapply (Hgo None b); [|reflexivity|exact H]. rewrite <- Ef. by destruct b.
Qed.

(** ** Moving spans without losing any

    [moves F b F' b']: going from [b] with the spans [F] in hand to [b'] with
    [F'] in hand, what the ledger lacks an exit for is still what the buffer and
    the hand hold, and no error span went anywhere but out. *)

Definition outM (mu : measure) (b : TraceBuffer) : Z := sumBy (sumBy mu) (tb_out b).

Record moves (F : list SpanRecord) (b : TraceBuffer) (F' : list SpanRecord)
  (b' : TraceBuffer) : Prop := {
  mv_ledger : forall k,
    unexited k (tb_ledger b') - inside (keyM k) b' - sumBy (keyM k) F' =
    unexited k (tb_ledger b) - inside (keyM k) b - sumBy (keyM k) F;
  mv_errors : forall mu, weightFree mu -> errorOnly mu ->
    inside mu b' + sumBy mu F' + outM mu b' = inside mu b + sumBy mu F + outM mu b;
}.

Lemma moves_refl F b : moves F b F b.
Proof. done. Qed.

Lemma moves_trans F1 b1 F2 b2 F3 b3 :
  moves F1 b1 F2 b2 -> moves F2 b2 F3 b3 -> moves F1 b1 F3 b3.
Proof.
  intros [H1 H2] [H3 H4]. split; [intros; by rewrite H3, H1|].
  intros. by rewrite H4, H2.
Qed.

(** The fields accounting and well-formedness look at. *)
Definition sameCore (b b' : TraceBuffer) : Prop :=
  tb_traces b' = tb_traces b /\ tb_seq b' = tb_seq b /\ tb_spanCount b' = tb_spanCount b /\
  tb_maxSpans b' = tb_maxSpans b /\ tb_carry b' = tb_carry b /\
  tb_rescuedAtCap b' = tb_rescuedAtCap b /\ tb_decided b' = tb_decided b /\
  tb_ledger b' = tb_ledger b /\ tb_out b' = tb_out b.

Lemma sameCore_wf b b' : sameCore b b' -> wfBuf b -> wfBuf b'.
Proof.
  intros (E1 & E2 & E3 & E4 & E5 & E6 & E7 & E8 & E9) [].
  split; rewrite ?E1, ?E2, ?E3, ?E4, ?E5, ?E6, ?E7, ?E8; done.
Qed.

Lemma sameCore_inside mu b b' : sameCore b b' -> inside mu b' = inside mu b.
Proof.
  intros (E1 & E2 & E3 & E4 & E5 & E6 & E7 & E8 & E9). unfold inside.
  by rewrite E1, E6, E7.
Qed.

Lemma sameCore_moves F b b' : sameCore b b' -> moves F b F b'.
Proof.
  intros H. split; intros; rewrite (sameCore_inside _ b b' H);
    destruct H as (E1 & E2 & E3 & E4 & E5 & E6 & E7 & E8 & E9);
    unfold outM; by rewrite ?E8, ?E9.
Qed.

Ltac solve_core := unfold sameCore; simpl; split_and!; reflexivity.

Lemma inside_remove mu tr b :
  wfBuf b -> tb_traces b !! bt_id tr = Some tr ->
  inside mu (tb_remove tr b) = inside mu b - trM mu tr.
Proof.
  intros Hw Htr. unfold inside, tb_remove. simpl.
  rewrite mapSum_delete_lookup, Htr. simpl. lia.
Qed.

Lemma tb_remove_spec F tr b :
  wfBuf b -> tb_traces b !! bt_id tr = Some tr ->
  wfBuf (tb_remove tr b) /\ moves F b (bt_spans tr ++ F) (tb_remove tr b).
Proof.
  intros Hw Htr. split.
  - destruct Hw. split; simpl; try done.
    + intros id t [_ ?]%lookup_delete_Some. eauto.
    + rewrite mapSum_delete_lookup, Htr. simpl.
      pose proof (mapSum_ge spanLen _ _ _ (fun _ t _ => spanLen_nonneg t) Htr). lia.
    + intros id t [_ ?]%lookup_delete_Some. eauto.
    + intros id1 id2 t1 t2 [_ ?]%lookup_delete_Some [_ ?]%lookup_delete_Some. eauto.
    + intros id t [_ ?]%lookup_delete_Some. eauto.
    + intros Hm. rewrite mapSum_delete_lookup, Htr. simpl.
      pose proof (cleanLen_bounds tr). specialize (wb_cap0 Hm). lia.
    + intros id [t [_ ?]%lookup_delete_Some]. eauto.
  - split; intros; rewrite inside_remove, sumBy_app by done; unfold trM, outM; simpl; lia.
Qed.

Lemma keepWeight_spec F tr now b w b' :
  wfBuf b -> keepWeight tr now b = (w, b') ->
  wfBuf b' /\ moves F b F b' /\ 0 <= w /\ (bt_hasError tr = true -> w = 1).
Proof.
  intros Hw H. destruct (keepWeight_frame _ _ _ _ _ H) as (f & c & -> & He & Hc).
  destruct (Hc (wb_carry _ Hw)) as [Hc1 Hc2]. split_and!; [|done|done|done].
  destruct Hw. split; try done.
Qed.

Lemma dropTrace_spec F tr col now b :
  wfBuf b -> dropColumn col = true -> noErrors (bt_spans tr) ->
  wfBuf (dropTrace tr col now b) /\ moves (bt_spans tr ++ F) b F (dropTrace tr col now b).
Proof.
  intros Hw Hcol Hn. unfold dropTrace, ledgerDropped. simpl. pose proof Hw as Hw0.
  destruct (wb_ledger _ Hw) as [Hl Hs]. split.
  - destruct Hw. split; simpl; try done.
    + by apply carryOk_drop.
    + split; [by apply wfLedger_AddSpans|by apply is_Some_AddSpans].
  - assert (forall mu f b, inside mu (set_tb_carry f b) = inside mu b) as E1 by done.
    assert (forall mu f b, inside mu (set_tb_ledger f b) = inside mu b) as E2 by done.
    split; intros; rewrite E1, E2, sumBy_app; simpl.
    + rewrite unexited_AddSpans by (done || by destruct col). lia.
    + change (sumBy mu (bt_spans tr)) with (trM mu tr). unfold outM. simpl.
      rewrite trM_errorOnly by done. lia.
Qed.

(** [put] of an id nothing is held for. *)
Lemma putDecided_spec F id w p at_ b :
  wfBuf b -> dt_held (tb_decided b) !! id = None ->
  wfBuf (putDecided id w p at_ b) /\ moves F b F (putDecided id w p at_ b) /\
  dt_held (tb_decided (putDecided id w p at_ b)) = dt_held (tb_decided b).
Proof.
  intros Hw Hid. unfold putDecided.
  destruct (decided_put id w p at_ (tb_decided b)) as [held d] eqn:E.
  destruct (decided_put_spec _ _ _ _ _ _ _ (wb_decided _ Hw) E)
    as (Hd & _ & _ & Hh & Hlate & _ & Httl & _).
  rewrite delete_id in Hh by done.
  assert (forall mu, inside mu (set_tb_decided d b) = inside mu b) as Ei.
  { intros mu. unfold inside. simpl. by rewrite Hh, Hlate. }
  simpl. split_and!; [|split; intros; rewrite Ei; done|done].
  destruct Hw. split; simpl; rewrite ?Hh, ?Httl; done.
Qed.

Lemma inside_rescued mu trs b :
  inside mu (set_tb_rescuedAtCap trs b) =
  inside mu b - sumBy (trM mu) (tb_rescuedAtCap b) + sumBy (trM mu) trs.
Proof. unfold inside. simpl. lia. Qed.

(** The trace map, the decisions and the limits. *)
Definition sameTables (b b' : TraceBuffer) : Prop :=
  tb_traces b' = tb_traces b /\ tb_decided b' = tb_decided b /\
  tb_maxSpans b' = tb_maxSpans b /\ tb_seq b' = tb_seq b /\ tb_out b' = tb_out b /\
  tb_lookup b' = tb_lookup b.

(** A trace eviction picked that the rules keep after all: it goes to the rescue
    list and its decision is recorded. *)
Lemma rescueAtCap_spec tr now b kept b' :
  wfBuf b -> rescueAtCap tr now b = (kept, b') ->
  exists b1, wfBuf b1 /\ sameTables b b1 /\
    (forall F, moves (bt_spans tr ++ F) b (if kept then F else bt_spans tr ++ F) b1) /\
    if kept then exists w, b' = putDecided (bt_id tr) w false now b1 else b' = b1.
Proof.
  intros Hw. unfold rescueAtCap.
  destruct (keepWeight tr now b) as [w b1] eqn:Ek.
  destruct (keepWeight_frame _ _ _ _ _ Ek) as (f & c & E1 & _ & _).
  assert (forall F, wfBuf b1 /\ moves F b F b1) as Hkw.
  { intros F. destruct (keepWeight_spec F _ _ _ _ _ Hw Ek) as (? & ? & _). done. }
  assert (sameTables b b1) as Ht by (rewrite E1; by split_and!).
  destruct (w =? 0); intros [= <- <-].
  { exists b1. split_and!; [apply (Hkw [])|apply Ht..| |done]. intros F. apply Hkw. }
  set (b2 := set_tb_rescuedAtCap (tb_rescuedAtCap b1 ++ [stampWeight w tr]) b1).
  set (n := spanLen (stampWeight w tr)).
  set (b3 := set_tb_evictedRCounts (tb_evictedRescue b2 + n) (tb_evictedRTotal b2 + n) b2).
  assert (wfBuf b2) as Hw2 by (destruct (Hkw []) as [[] _]; split; done).
  exists b3. split_and!; [|apply Ht..| |by exists w].
  - apply (sameCore_wf b2); [solve_core|done].
  - intros F. eapply moves_trans; [apply Hkw|].
    apply (moves_trans _ _ F b2); [|apply sameCore_moves; solve_core]. unfold b2.
    split; intros; rewrite inside_rescued, sumBy_app; simpl;
      rewrite trM_stamp by first [done|apply keyM_weightFree];
      unfold trM, outM; simpl; rewrite sumBy_app; lia.
Qed.

(** ** Eviction *)

Lemma victimLoop_spec traces so keep q tr n :
  victimLoop traces so keep q = (Some tr, n) ->
  exists id, traces !! id = Some tr /\ bt_hasError tr = false /\ keep <> Some id /\
    (so = true -> bt_sacrificial tr = true).
Proof.
  revert n. induction q as [|id q IH]; intros n H; simpl in H; [done|].
  destruct (evictable so keep id traces) as [t|] eqn:E.
  - injection H as -> <-. exists id. unfold evictable in E.
    destruct (traces !! id) as [t|]; [|done].
    destruct (bt_hasError t) eqn:He; [done|].
    destruct (bool_decide (keep = Some id)) eqn:Ek; [done|]. to_prop.
    destruct so, (bt_sacrificial t) eqn:Es; simpl in E; simplify_eq; done.
  - destruct (victimLoop traces so keep q) as [v m]. injection H as -> <-. eauto.
Qed.

Lemma nextVictim_spec traces q h so keep tr qh :
  nextVictim traces q h so keep = (Some tr, qh) ->
  exists id, traces !! id = Some tr /\ bt_hasError tr = false /\ keep <> Some id /\
    (so = true -> bt_sacrificial tr = true).
Proof.
  unfold nextVictim. destruct (victimLoop _ _ _ _) as [v n] eqn:E.
  intros [= -> <-]. by eapply victimLoop_spec.
Qed.

(** [b'] is [b] after evicting some clean traces other than [keep]. *)
Record evicts (keep : option string) (b b' : TraceBuffer) : Prop := {
  ev_wf : wfBuf b';
  ev_moves : forall F, moves F b F b';
  ev_traces : forall id, tb_traces b' !! id = tb_traces b !! id \/
    (tb_traces b' !! id = None /\ keep <> Some id /\
     exists tr, tb_traces b !! id = Some tr /\ bt_hasError tr = false);
  ev_held : dt_held (tb_decided b') = dt_held (tb_decided b);
  ev_late : dt_late (tb_decided b') = dt_late (tb_decided b);
  ev_limits : tb_maxSpans b' = tb_maxSpans b /\ tb_seq b' = tb_seq b /\
    tb_out b' = tb_out b /\ tb_lookup b' = tb_lookup b;
  ev_evicted : dt_evicted (tb_decided b) <= dt_evicted (tb_decided b');
  ev_m : forall id, dt_m (tb_decided b') !! id = dt_m (tb_decided b) !! id \/
    (dt_m (tb_decided b') !! id = None /\
     dt_evicted (tb_decided b) < dt_evicted (tb_decided b')) \/
    (is_Some (tb_traces b !! id) /\ tb_traces b' !! id = None /\
     exists w s, dt_m (tb_decided b') !! id = Some (mkDecision w s false));
}.

Lemma evicts_core keep b b' : wfBuf b -> sameCore b b' -> tb_lookup b' = tb_lookup b ->
  evicts keep b b'.
Proof.
  intros Hw Hc Hlk. pose proof (sameCore_wf _ _ Hc Hw) as Hw'.
  assert (forall F, moves F b F b') as Hm by (intros; by apply sameCore_moves).
  destruct Hc as (E1 & E2 & E3 & E4 & E5 & E6 & E7 & E8 & E9).
  split; rewrite ?E1, ?E2, ?E4, ?E7, ?E9; auto; done.
Qed.

Lemma ev_traces_sub keep b b' id tr :
  evicts keep b b' -> tb_traces b' !! id = Some tr -> tb_traces b !! id = Some tr.
Proof. intros H Hid. destruct (ev_traces _ _ _ H id) as [E|[E _]]; congruence. Qed.

Lemma evicts_trans keep b1 b2 b3 : evicts keep b1 b2 -> evicts keep b2 b3 -> evicts keep b1 b3.
Proof.
  intros H1 H2. split.
  - apply H2.
  - intros F. eapply moves_trans; [apply H1|apply H2].
  - intros id. destruct (ev_traces _ _ _ H2 id) as [E2|(E2 & Hk & tr & Htr & He)].
    + rewrite E2. apply (ev_traces _ _ _ H1).
    + right. split_and!; [done|done|]. exists tr. split; [|done]. by eapply ev_traces_sub.
  - by rewrite (ev_held _ _ _ H2), (ev_held _ _ _ H1).
  - by rewrite (ev_late _ _ _ H2), (ev_late _ _ _ H1).
  - destruct (ev_limits _ _ _ H1) as (?&?&?&?), (ev_limits _ _ _ H2) as (?&?&?&?).
    split_and!; congruence.
  - pose proof (ev_evicted _ _ _ H1). pose proof (ev_evicted _ _ _ H2). lia.
  - intros id. pose proof (ev_evicted _ _ _ H1). pose proof (ev_evicted _ _ _ H2).
    destruct (ev_m _ _ _ H2 id) as [E2|[[E2 ?]|([tr Htr] & Hn & E2)]].
    + rewrite E2. destruct (ev_m _ _ _ H1 id) as [E1|[[E1 ?]|(Hs & Hn & E1)]]; [by left| |].
      * right; left. split; [done|lia].
      * right; right. split_and!; [done| |done].
        destruct (tb_traces b3 !! id) eqn:E3; [|done].
        apply (ev_traces_sub _ _ _ _ _ H2) in E3. congruence.
    + right; left. split; [done|lia].
    + right; right. split_and!; [|done|done]. exists tr. by eapply ev_traces_sub.
Qed.

(** Taking a clean trace out of the map and recording its decision. *)
Lemma evicts_removed keep id tr b b1 w now :
  wfBuf b -> tb_traces b !! id = Some tr -> bt_hasError tr = false -> keep <> Some id ->
  wfBuf b1 -> (forall F, moves F b F b1) ->
  tb_traces b1 = delete id (tb_traces b) -> tb_decided b1 = tb_decided b ->
  tb_maxSpans b1 = tb_maxSpans b /\ tb_seq b1 = tb_seq b /\ tb_out b1 = tb_out b /\
    tb_lookup b1 = tb_lookup b ->
  evicts keep b (putDecided (bt_id tr) w false now b1).
Proof.
  intros Hw Htr He Hk Hw1 Hm1 Et Ed El.
  pose proof (wb_id _ Hw _ _ Htr) as Hid. rewrite Hid.
  assert (dt_held (tb_decided b1) !! id = None) as Hnh.
  { rewrite Ed. apply (wb_disj _ Hw). eauto. }
  assert (forall F, moves F b1 F (putDecided id w false now b1)) as Hm2.
  { intros F. by apply putDecided_spec. }
  destruct (putDecided_spec [] id w false now b1 Hw1 Hnh) as (Hw2 & _ & Hh2).
  unfold putDecided in *.
  destruct (decided_put id w false now (tb_decided b1)) as [held d] eqn:Ep.
  destruct (decided_put_spec _ _ _ _ _ _ _ (wb_decided _ Hw1) Ep)
    as (Hd & _ & _ & Hh & Hlate & _ & _ & Hev & [s Hs] & Hoth).
  simpl in *. rewrite Ed in *.
  split; simpl.
  - done.
  - intros F. eapply moves_trans; [apply Hm1|apply Hm2].
  - intros id'. rewrite Et. destruct (decide (id = id')) as [<-|Hne].
    + right. split_and!; [apply lookup_delete_eq|done|eauto].
    + left. by rewrite lookup_delete_ne.
  - done.
  - done.
  - done.
  - done.
  - intros id'. destruct (decide (id' = id)) as [->|Hne].
    + right; right. split_and!; [eauto|rewrite Et; apply lookup_delete_eq|by exists w, s].
    + destruct (Hoth id' Hne) as [?|?]; [by left|by right; left].
Qed.

Lemma map_size_delete_lt (m : gmap string bufferedTrace) id tr :
  m !! id = Some tr -> (size (delete id m) < size m)%nat.
Proof.
  intros H. rewrite map_size_delete_Some by eauto.
  destruct (size m) eqn:E; [|lia]. apply map_size_empty_iff in E. by rewrite E in H.
Qed.

Lemma dropTrace_tables tr col now b : sameTables b (dropTrace tr col now b).
Proof. by split_and!. Qed.

Lemma evictOne_spec keep now b ok b' :
  wfBuf b -> evictOne keep now b = (ok, b') ->
  evicts keep b b' /\
  (ok = true -> (size (tb_traces b') < size (tb_traces b))%nat) /\
  (ok = false -> sameCore b b').
Proof.
  intros Hw. unfold evictOne.
  destruct (nextVictim (tb_traces b) (tb_sacrificeQ b) _ true keep) as [v [q h]] eqn:Ev.
  set (b0 := set_tb_sacrifice q h b).
  assert (wfBuf b0) as Hw0 by (apply (sameCore_wf b); [solve_core|done]).
  assert (forall F, moves F b F b0) as Hm0 by (intros; apply sameCore_moves; solve_core).
  destruct v as [tr|].
  - destruct (nextVictim_spec _ _ _ _ _ _ _ Ev) as (id & Htr & He & Hk & _).
    pose proof (wb_id _ Hw _ _ Htr) as Hid. subst id.
    destruct (tb_remove_spec [] tr b0 Hw0 Htr) as [Hw1 _].
    assert (forall F, moves F b (bt_spans tr ++ F) (tb_remove tr b0)) as Hm1.
    { intros F. eapply moves_trans; [apply Hm0|]. by apply tb_remove_spec. }
    destruct (rescueAtCap tr now (tb_remove tr b0)) as [kept b2] eqn:Er.
    destruct (rescueAtCap_spec _ _ _ _ _ Hw1 Er)
      as (b3 & Hw3 & (Ht1 & Ht2 & Ht3 & Ht4 & Ht5 & Ht6) & Hm3 & Hb2).
    destruct kept; [destruct Hb2 as [w ->]|subst b3];
      intros [= <- <-]; (split; [|split; [|done]]).
    + eapply evicts_removed; eauto. intros F. eapply moves_trans; [apply Hm1|apply Hm3].
    + intros _. simpl. rewrite Ht1. by eapply map_size_delete_lt.
    + set (b4 := set_tb_evictedSCounts _ _ b2).
      assert (wfBuf b4) as Hw4 by (apply (sameCore_wf b2); [solve_core|done]).
      pose proof (wb_latch _ Hw _ _ Htr He) as Hn.
      assert (forall F, wfBuf (dropTrace tr ShedUnsampled now b4) /\
        moves (bt_spans tr ++ F) b4 F (dropTrace tr ShedUnsampled now b4)) as Hd
        by (intros; by apply dropTrace_spec).
      eapply evicts_removed; eauto; [apply (Hd [])|].
      intros F. eapply moves_trans; [apply Hm1|]. eapply moves_trans; [apply Hm3|].
      eapply moves_trans; [apply (sameCore_moves _ _ b4); solve_core|apply Hd].
    + intros _. simpl. rewrite Ht1. by eapply map_size_delete_lt.
  - destruct (nextVictim (tb_traces b0) (tb_anyQ b0) _ false keep) as [v [q2 h2]] eqn:Ev2.
    destruct v as [tr|]; intros [= <- <-]; cycle 1.
    { split; [apply evicts_core; [done|solve_core|done]|]. split; [done|]. intros _. solve_core. }
    destruct (nextVictim_spec _ _ _ _ _ _ _ Ev2) as (id & Htr & He & Hk & _).
    pose proof (wb_id _ Hw _ _ Htr) as Hid. subst id.
    split; [|split; [|done]].
    + set (b2 := set_tb_evictedKCounts _ _ _).
      assert (sameCore b b2) as Hc2 by solve_core.
      pose proof (sameCore_wf _ _ Hc2 Hw) as Hw2.
      assert (forall F, moves F b2 (bt_spans tr ++ F) (tb_remove tr b2)) as Hm2
        by (intros; by apply tb_remove_spec).
      destruct (tb_remove_spec [] tr b2 Hw2 Htr) as [Hw3 _].
      pose proof (wb_latch _ Hw _ _ Htr He) as Hn.
      assert (forall F, wfBuf (dropTrace tr LostInBuffer now (tb_remove tr b2)) /\
        moves (bt_spans tr ++ F) (tb_remove tr b2) F
          (dropTrace tr LostInBuffer now (tb_remove tr b2))) as Hd
        by (intros; by apply dropTrace_spec).
      eapply evicts_removed; eauto; [apply (Hd [])|].
      intros F. eapply moves_trans; [by apply (sameCore_moves F b b2)|].
      eapply moves_trans; [apply Hm2|apply Hd].
    + intros _. simpl. by eapply map_size_delete_lt.
Qed.

(** [ensureRoom] always ends: every turn frees a trace, so the fuel is never
    used up, and a negative answer means nothing evictable was found. *)
Lemma ensureRoomLoop_spec keep now fuel : forall b ok b',
  wfBuf b -> (size (tb_traces b) < fuel)%nat ->
  ensureRoomLoop fuel keep now b = (ok, b') ->
  evicts keep b b' /\
  (ok = true -> 0 < tb_maxSpans b -> tb_spanCount b' < tb_maxSpans b) /\
  (ok = false -> exists b1, wfBuf b1 /\ evictOne keep now b1 = (false, b')).
Proof.
  induction fuel as [|fuel IH]; intros b ok b' Hw Hf H; [lia|]. cbn [ensureRoomLoop] in H.
  destruct (Z.ltb_spec 0 (tb_maxSpans b)) as [Hm|Hm];
    [destruct (Z.leb_spec (tb_maxSpans b) (tb_spanCount b))|]; simpl in H; cycle 1.
  { injection H as <- <-. split; [apply evicts_core; [done|solve_core|done]|done]. }
  { injection H as <- <-. split; [apply evicts_core; [done|solve_core|done]|].
    split; [intros; lia|done]. }
  destruct (evictOne keep now b) as [ok1 b1] eqn:E1.
  destruct (evictOne_spec _ _ _ _ _ Hw E1) as (He & Hs & Hc).
  destruct ok1; cycle 1.
  { injection H as <- <-. split; [done|]. split; [done|]. eauto. }
  destruct (IH b1 ok b' (ev_wf _ _ _ He) ltac:(specialize (Hs eq_refl); lia) H)
    as (He2 & Ht & Hfl).
  destruct (ev_limits _ _ _ He) as (Hmx & _). rewrite Hmx in Ht.
  split; [by eapply evicts_trans|done].
Qed.

Lemma ensureRoom_spec keep now b ok b' :
  wfBuf b -> ensureRoom keep now b = (ok, b') ->
  evicts keep b b' /\
  (ok = true -> 0 < tb_maxSpans b -> tb_spanCount b' < tb_maxSpans b) /\
  (ok = false -> exists b1, wfBuf b1 /\ evictOne keep now b1 = (false, b')).
Proof. intros Hw. unfold ensureRoom. apply ensureRoomLoop_spec; [done|lia]. Qed.

(** ** Adding a span *)

(** [Add] after counting the span as accepted. *)
Definition acceptSpan (rec : SpanRecord) (b : TraceBuffer) : TraceBuffer :=
  set_tb_ledger (Tally_Add (tb_ledger b) Accepted (sr_ProjectID rec)
                   (sr_StartTimeUs rec) 1) b.

Lemma acceptSpan_wf rec b : wfBuf b -> wfBuf (acceptSpan rec b).
Proof.
  intros []. split; try done. simpl. destruct wb_ledger0.
  split; [by apply wfLedger_Add|by apply is_Some_Add].
Qed.

Lemma set_sacrifice_eta b : b = set_tb_sacrifice (tb_sacrificeQ b) (tb_sacrificeHead b) b.
Proof. by destruct b. Qed.

Lemma appendSpan_frame rec now tr b :
  exists tr' q h,
    appendSpan rec now tr b =
      set_tb_traces (<[bt_id tr := tr']> (tb_traces b))
        (set_tb_sacrifice q h (set_tb_spanCount (tb_spanCount b + 1) b)) /\
    bt_id tr' = bt_id tr /\ bt_spans tr' = bt_spans tr ++ [rec] /\
    bt_seq tr' = bt_seq tr /\
    bt_hasError tr' = isErrorStatus (sr_Status rec) || bt_hasError tr.
Proof.
  unfold appendSpan.
  set (t0 := if isErrorStatus (sr_Status rec) then set_hasError true tr else tr).
  assert (bt_id t0 = bt_id tr /\ bt_spans t0 = bt_spans tr /\ bt_seq t0 = bt_seq tr /\
    bt_hasError t0 = isErrorStatus (sr_Status rec) || bt_hasError tr) as (E1 & E2 & E3 & E4).
  { unfold t0. destruct (isErrorStatus (sr_Status rec)); done. }
  rewrite E2. set (b1 := set_tb_spanCount _ b).
  assert (b1 = set_tb_sacrifice (tb_sacrificeQ b) (tb_sacrificeHead b) b1) as Eb
    by (unfold b1; by destruct b).
  destruct (_ && _).
  - destruct (bool_decide _); [unfold relabel; destruct (_ && _)|].
    1: do 3 eexists; split; [simpl; rewrite E1; reflexivity|done].
    all: do 3 eexists; split; [simpl; rewrite E1; rewrite Eb at 1; reflexivity|done].
  - do 3 eexists; split; [simpl; rewrite E1; rewrite Eb at 1; reflexivity|done].
Qed.

Lemma inside_insert mu id tr' tr n q h b :
  tb_traces b !! id = Some tr ->
  inside mu (set_tb_traces (<[id := tr']> (tb_traces b))
    (set_tb_sacrifice q h (set_tb_spanCount n b))) = inside mu b - trM mu tr + trM mu tr'.
Proof. intros H. unfold inside. simpl. rewrite mapSum_insert, H. simpl. lia. Qed.

Lemma appendSpan_spec F rec now tr b :
  wfBuf b -> tb_traces b !! sr_TraceID rec = Some tr ->
  (0 < tb_maxSpans b -> tb_spanCount b < tb_maxSpans b \/
     isErrorStatus (sr_Status rec) || bt_hasError tr = true) ->
  wfBuf (appendSpan rec now tr b) /\ moves (rec :: F) b F (appendSpan rec now tr b).
Proof.
  intros Hw Htr Hroom. pose proof (wb_id _ Hw _ _ Htr) as Hid.
  destruct (appendSpan_frame rec now tr b) as (tr' & q & h & -> & Hi & Hs & Hq & He).
  rewrite Hid in *. set (id := sr_TraceID rec) in *.
  assert (spanLen tr' = spanLen tr + 1) as Hl.
  { unfold spanLen. rewrite Hs, length_app. simpl. lia. }
  split; cycle 1.
  - split; intros; rewrite (inside_insert _ _ _ tr) by done; unfold trM;
      rewrite Hs, sumBy_app; unfold outM; simpl; lia.
  - assert (forall P : bufferedTrace -> Prop, P tr' ->
      (forall i t, tb_traces b !! i = Some t -> P t) ->
      forall i t, <[id := tr']> (tb_traces b) !! i = Some t -> P t) as Hins.
    { intros P H1 H2 i t [[_ <-]|[_ ?]]%lookup_insert_Some; eauto. }
    destruct Hw. split; simpl; try done.
    + intros i t [[<- <-]|[_ ?]]%lookup_insert_Some; eauto.
    + rewrite mapSum_insert, Htr. simpl. lia.
    + apply (Hins (fun t => bt_seq t <= tb_seq b)); [rewrite Hq|]; eauto.
    + intros i1 i2 t1 t2 [[<- <-]|[Hn1 H1]]%lookup_insert_Some
        [[<- <-]|[Hn2 H2]]%lookup_insert_Some; [done| | |]; rewrite ?Hq; eauto.
    + apply (Hins latched); [|eauto]. intros Hf. rewrite He in Hf.
      apply orb_false_elim in Hf as [Hf1 Hf2]. unfold noErrors. rewrite Hs.
      apply Forall_app. split; [by apply (wb_latch0 _ _ Htr)|by repeat constructor].
    + intros Hm. rewrite mapSum_insert, Htr. simpl.
      specialize (wb_cap0 Hm). specialize (Hroom Hm).
      assert (mapSum cleanLen (tb_traces b) <= mapSum spanLen (tb_traces b)).
      { unfold mapSum. clear. induction (map_to_list (tb_traces b)) as [|[i t] l IH];
          simpl; [done|]. pose proof (cleanLen_bounds t). lia. }
      unfold cleanLen at 2 3. rewrite He.
      destruct (isErrorStatus (sr_Status rec)), (bt_hasError tr); simpl in *;
        pose proof (spanLen_nonneg tr); try lia; destruct Hroom; lia || done.
    + intros i [t [[<- _]|[_ ?]]%lookup_insert_Some]; eauto.
Qed.

Lemma newTrace_spec F rec now b tr b' :
  wfBuf b -> tb_traces b !! sr_TraceID rec = None ->
  dt_held (tb_decided b) !! sr_TraceID rec = None ->
  newTrace rec now b = (tr, b') ->
  wfBuf b' /\ moves F b F b' /\ tb_traces b' = <[sr_TraceID rec := tr]> (tb_traces b) /\
  bt_hasError tr = false /\ tb_spanCount b' = tb_spanCount b /\
  tb_maxSpans b' = tb_maxSpans b /\ tb_decided b' = tb_decided b /\ tb_out b' = tb_out b.
Proof.
  intros Hw Hno Hheld. unfold newTrace. set (op := if bool_decide _ then _ else _).
  set (sac := negb _). set (t := mkBufferedTrace _ _ _ _ _ _ _ _ _ _).
  set (b1 := set_tb_any _ _ _).
  intros [= <- <-]. set (b2 := if sac then _ else _).
  assert (sameCore b1 b2) as Hc by (unfold b2; destruct sac; solve_core).
  assert (wfBuf b1) as Hw1.
  { assert (forall id tr0, tb_traces b !! id = Some tr0 -> bt_seq tr0 <> tb_seq b + 1) as Hfr.
    { intros id tr0 H. pose proof (wb_seq _ Hw _ _ H). lia. }
    destruct Hw. split; simpl; try done.
    - intros i t0 [[<- <-]|[_ ?]]%lookup_insert_Some; eauto.
    - rewrite mapSum_insert, Hno. simpl. unfold spanLen at 2. simpl. lia.
    - intros i t0 [[_ <-]|[_ H]]%lookup_insert_Some; simpl; [lia|].
      specialize (wb_seq0 _ _ H). lia.
    - intros i1 i2 t1 t2 [[<- <-]|[Hn1 H1]]%lookup_insert_Some
        [[<- <-]|[Hn2 H2]]%lookup_insert_Some; simpl; intros E; [done| | |eauto].
      + by apply symmetry, (Hfr _ _ H2) in E.
      + by apply (Hfr _ _ H1) in E.
    - intros i t0 [[_ <-]|[_ ?]]%lookup_insert_Some; [|eauto]. intros _. constructor.
    - intros Hm. rewrite mapSum_insert, Hno. simpl. specialize (wb_cap0 Hm).
      unfold cleanLen at 2, spanLen. simpl. lia.
    - intros i [t0 [[<- _]|[_ ?]]%lookup_insert_Some]; eauto. }
  assert (moves F b F b1) as Hm1.
  { split; intros; unfold inside; simpl; rewrite mapSum_insert, Hno; simpl;
      unfold trM at 2; simpl; unfold outM; simpl; lia. }
  split; [by eapply sameCore_wf|].
  split; [eapply moves_trans; [done|by apply sameCore_moves]|].
  destruct Hc as (-> & _ & -> & -> & _ & _ & -> & _ & ->). by split_and!.
Qed.

(** [follow] on the buffer: a span of a decided trace is held, dropped with its
    exit counted, or queued as late; an error span is never dropped. *)
Lemma follow_spec F rec b f d lg :
  wfBuf b ->
  (tb_traces b !! sr_TraceID rec = None \/
   dc_pending <$> dt_m (tb_decided b) !! sr_TraceID rec = Some false) ->
  decided_follow rec (tb_decided b) (tb_ledger b) = (f, d, lg) ->
  let b' := set_tb_ledger lg (set_tb_decided d b) in
  wfBuf b' /\ moves (rec :: F) b (if f then F else rec :: F) b' /\
  dt_evicted d = dt_evicted (tb_decided b) /\
  (f = true -> is_Some (dt_m (tb_decided b) !! sr_TraceID rec)) /\
  (f = false -> d = tb_decided b /\ lg = tb_ledger b /\
     dt_m (tb_decided b) !! sr_TraceID rec = None) /\
  (forall id, dc_pending <$> dt_m d !! id = dc_pending <$> dt_m (tb_decided b) !! id) /\
  (forall id, is_Some (dt_held d !! id) -> is_Some (dt_held (tb_decided b) !! id) \/
     exists e, dt_m (tb_decided b) !! id = Some e /\ dc_pending e = true /\
       id = sr_TraceID rec).
Proof.
  intros Hw Hno H. cbv zeta. pose proof (wb_decided _ Hw) as Hwd.
  destruct (decided_follow_refines _ _ _ _ _ _ Hwd H) as [Hwd' _].
  destruct (wb_ledger _ Hw) as [Hl Hs].
  unfold decided_follow in H. set (id := sr_TraceID rec) in *.
  assert (forall d', wfDecided d' -> dt_held d' = dt_held (tb_decided b) ->
    dt_ttl d' = dt_ttl (tb_decided b) -> forall lg', wfLedger lg' -> is_Some lg' ->
    wfBuf (set_tb_ledger lg' (set_tb_decided d' b))) as Hwf.
  { intros d' H1 H2 H2' lg' H3 H4. destruct Hw. split; simpl; rewrite ?H2, ?H2'; done. }
  assert (forall w d', dt_held d' = dt_held (tb_decided b) ->
    dt_late d' = dt_late (tb_decided b) ++ [set_SampleWeight w rec] ->
    moves (rec :: F) b F (set_tb_ledger (tb_ledger b) (set_tb_decided d' b))) as Hlate.
  { intros w d' H1 H2. split; intros; unfold inside; simpl; rewrite H1, H2, sumBy_app; simpl.
    - rewrite keyM_weightFree. unfold trM. lia.
    - match goal with Hm : weightFree mu |- _ => rewrite Hm end. unfold outM. simpl. lia. }
  destruct (dt_m (tb_decided b) !! id) as [e|] eqn:E; cycle 1.
  { injection H as <- <- <-. split_and!; try done; [|by eauto].
    by apply Hwf. }
  destruct (dc_pending e) eqn:Ep; [|destruct (Z.eqb_spec (dc_weight e) 0) as [E0|E0];
    [destruct (isErrorStatus (sr_Status rec)) eqn:Er|]]; simpl in H;
    injection H as <- <- <-; (split_and!; try done; try by eauto).
  - destruct Hno as [Hno|Hno]; [|simpl in Hno; congruence].
    destruct Hw. split; simpl; try done.
    + intros i [t Ht]. rewrite lookup_insert_ne; [by eauto|]. intros <-. congruence.
    + intros i l [[<- <-]|[_ Hi]]%lookup_insert_Some; [|by eauto].
      apply Forall_app. split; [|by repeat constructor].
      destruct (dt_held (tb_decided b) !! id) as [l|] eqn:El; [by eauto|constructor].
  - split; intros; unfold inside; simpl; rewrite mapSum_insert;
      unfold outM; simpl; (destruct (dt_held (tb_decided b) !! id); simpl;
      rewrite ?sumBy_app; simpl; lia).
  - intros i. simpl. intros [x [[<- _]|[_ Hx]]%lookup_insert_Some]; [right|left]; eauto.
  - intros i. simpl. destruct (decide (id = i)) as [<-|].
    + rewrite lookup_insert_eq, E. simpl. by rewrite Ep.
    + by rewrite lookup_insert_ne.
  - apply Hwf; [done|done|done|by apply wfLedger_Add|by apply is_Some_Add].
  - split; intros; simpl.
    + rewrite unexited_Add by done.
      change (if decide _ then 1 else 0) with (keyM k rec). unfold inside; simpl. lia.
    + unfold inside, outM; simpl. match goal with Hm : errorOnly mu |- _ => rewrite Hm by done end.
      lia.
Qed.

(** What [Add] does, for the accounting and for a flush in progress. *)
Record addsSpan (rec : SpanRecord) (b b' : TraceBuffer) : Prop := {
  as_wf : wfBuf b';
  as_ledger : forall k, unexited k (tb_ledger b') - inside (keyM k) b' =
    unexited k (tb_ledger b) - inside (keyM k) b;
  as_errors : forall mu, weightFree mu -> errorOnly mu ->
    inside mu b' + outM mu b' = inside mu b + outM mu b + mu rec;
  as_out : tb_out b' = tb_out b;
  as_evicted : dt_evicted (tb_decided b) <= dt_evicted (tb_decided b');
  as_m : forall id,
    dc_pending <$> dt_m (tb_decided b') !! id = dc_pending <$> dt_m (tb_decided b) !! id \/
    (dt_m (tb_decided b') !! id = None /\
     dt_evicted (tb_decided b) < dt_evicted (tb_decided b')) \/
    (is_Some (tb_traces b !! id) /\ tb_traces b' !! id = None /\
     dc_pending <$> dt_m (tb_decided b') !! id = Some false);
  as_held : forall id, is_Some (dt_held (tb_decided b') !! id) ->
    is_Some (dt_held (tb_decided b) !! id) \/
    dc_pending <$> dt_m (tb_decided b) !! id = Some true;
  as_traces : forall id, is_Some (tb_traces b' !! id) ->
    is_Some (tb_traces b !! id) \/ dt_m (tb_decided b) !! id = None;
}.

(** The tail of [Add] for a span of no decided trace: make room, then refuse it
    or append it. *)
Definition addBuffered (rec : SpanRecord) (now : Z) (otr : option bufferedTrace)
  (b : TraceBuffer) : TraceBuffer :=
  let isErr := isErrorStatus (sr_Status rec) in
  let protected := isErr || from_option bt_hasError false otr in
  let '(room, b) := ensureRoom (bt_id <$> otr) now b in
  if negb room && negb protected then
    let b := set_tb_refusedCounts (tb_refused b + 1) (tb_refusedTotal b + 1) b in
    set_tb_ledger (Tally_Add (tb_ledger b) LostInBuffer (sr_ProjectID rec)
                     (sr_StartTimeUs rec) 1) b
  else
    let '(tr, b) := match otr with
                    | Some tr => (tr, b)
                    | None => newTrace rec now b
                    end in
    appendSpan rec now tr b.

Lemma Add_eq rec now b :
  Add rec now b =
  let b0 := acceptSpan rec b in
  match tb_traces b !! sr_TraceID rec with
  | Some tr => addBuffered rec now (Some tr) b0
  | None =>
      let '(f, d, lg) := decided_follow rec (tb_decided b0) (tb_ledger b0) in
      let b1 := set_tb_ledger lg (set_tb_decided d b0) in
      if f then b1 else addBuffered rec now None b1
  end.
Proof.
  unfold Add, addBuffered. fold (acceptSpan rec b). cbv zeta.
  change (tb_traces (acceptSpan rec b)) with (tb_traces b).
  destruct (tb_traces b !! sr_TraceID rec) as [tr|]; [done|].
  by destruct (decided_follow rec _ _) as [[[|] d] lg].
Qed.

Lemma sameTables_trans b1 b2 b3 : sameTables b1 b2 -> sameTables b2 b3 -> sameTables b1 b3.
Proof. intros (?&?&?&?&?&?) (?&?&?&?&?&?). split_and!; congruence. Qed.

(** The state [addBuffered] leaves, relative to the one after eviction. *)
Lemma addBuffered_spec F rec now b :
  wfBuf b ->
  (tb_traces b !! sr_TraceID rec = None -> dt_held (tb_decided b) !! sr_TraceID rec = None) ->
  let b' := addBuffered rec now (tb_traces b !! sr_TraceID rec) b in
  exists b1, evicts (bt_id <$> tb_traces b !! sr_TraceID rec) b b1 /\
    wfBuf b' /\ moves (rec :: F) b F b' /\ tb_decided b' = tb_decided b1 /\
    tb_out b' = tb_out b /\
    (forall id, id <> sr_TraceID rec -> tb_traces b' !! id = tb_traces b1 !! id).
Proof.
  intros Hw Hheld. cbv zeta. unfold addBuffered.
  set (id := sr_TraceID rec) in *. set (otr := tb_traces b !! id) in *.
  destruct (ensureRoom (bt_id <$> otr) now b) as [room b1] eqn:Er.
  destruct (ensureRoom_spec _ _ _ _ _ Hw Er) as (Hev & Hroom & _).
  pose proof (ev_wf _ _ _ Hev) as Hw1.
  destruct (ev_limits _ _ _ Hev) as (Hmx & _ & Hout & _).
  exists b1. split; [done|].
  destruct (negb room && negb (isErrorStatus (sr_Status rec) ||
    from_option bt_hasError false otr)) eqn:Eref.
  - to_prop. destruct (wb_ledger _ Hw1) as [Hl Hs]. simpl. split_and!; try done.
    + destruct Hw1. split; simpl; try done.
      split; [by apply wfLedger_Add|by apply is_Some_Add].
    + eapply moves_trans; [apply (ev_moves _ _ _ Hev)|]. split; intros; simpl.
      * rewrite unexited_Add by done.
        change (if decide _ then 1 else 0) with (keyM k rec). unfold inside; simpl. lia.
      * unfold inside, outM; simpl.
        match goal with Hm : errorOnly mu |- _ => rewrite Hm by done end. lia.
  - assert (0 < tb_maxSpans b1 -> tb_spanCount b1 < tb_maxSpans b1 \/
      isErrorStatus (sr_Status rec) || from_option bt_hasError false otr = true) as Hcap.
    { intros Hm. rewrite Hmx in *. destruct room; [left; auto|right].
      simpl in Eref. by apply negb_false_iff in Eref. }
    destruct otr as [tr|] eqn:Eo; unfold otr in Eo.
    + assert (tb_traces b1 !! id = Some tr) as Ht1.
      { destruct (ev_traces _ _ _ Hev id) as [E|(_ & Hk & _)]; [congruence|].
        simpl in Hk. by rewrite (wb_id _ Hw _ _ Eo) in Hk. }
      destruct (appendSpan_spec F rec now tr b1 Hw1 Ht1 Hcap) as [Hw2 Hm2].
      destruct (appendSpan_frame rec now tr b1) as (tr' & q & h & Ef & _).
      rewrite Ef in *. split_and!; try done.
      * eapply moves_trans; [apply (ev_moves _ _ _ Hev)|done].
      * simpl. intros i Hi. rewrite lookup_insert_ne; [done|].
        rewrite (wb_id _ Hw1 _ _ Ht1). congruence.
    + assert (tb_traces b1 !! id = None) as Ht1.
      { destruct (ev_traces _ _ _ Hev id) as [E|(E & _)]; congruence. }
      destruct (newTrace rec now b1) as [tr b2] eqn:En.
      destruct (newTrace_spec F rec now b1 tr b2 Hw1 Ht1) as (Hw2 & _ & Et & He & Hc & Hx & Hd & Ho);
        [rewrite (ev_held _ _ _ Hev); by apply Hheld|done|].
      destruct (newTrace_spec (rec :: F) rec now b1 tr b2 Hw1 Ht1) as (_ & Hm2 & _);
        [rewrite (ev_held _ _ _ Hev); by apply Hheld|done|].
      assert (tb_traces b2 !! id = Some tr) as Ht2 by (rewrite Et; apply lookup_insert_eq).
      destruct (appendSpan_spec F rec now tr b2 Hw2 Ht2) as [Hw3 Hm3].
      { rewrite Hx, Hc, He. exact Hcap. }
      destruct (appendSpan_frame rec now tr b2) as (tr' & q & h & Ef & _).
      rewrite Ef in *. split_and!; try done.
      * eapply moves_trans; [apply (ev_moves _ _ _ Hev)|]. by eapply moves_trans.
      * simpl. congruence.
      * simpl. intros i Hi. rewrite (wb_id _ Hw2 _ _ Ht2), Et.
        rewrite !lookup_insert_ne; [done|..]; intros E; by apply Hi.
Qed.

Lemma acceptSpan_ledger k rec b :
  wfBuf b ->
  unexited k (tb_ledger (acceptSpan rec b)) = unexited k (tb_ledger b) + keyM k rec.
Proof. intros Hw. destruct (wb_ledger _ Hw). by apply unexited_accept. Qed.

Lemma Add_spec rec now b :
  wfBuf b ->
  (tb_traces b !! sr_TraceID rec = None -> dt_m (tb_decided b) !! sr_TraceID rec = None ->
   dt_held (tb_decided b) !! sr_TraceID rec = None) ->
  addsSpan rec b (Add rec now b).
Proof.
  intros Hw Hheld. rewrite Add_eq. cbv zeta. set (id := sr_TraceID rec) in *.
  pose proof (acceptSpan_wf rec b Hw) as Hw0. set (b0 := acceptSpan rec b) in *.
  assert (forall b1 b', evicts (bt_id <$> tb_traces b !! id) b0 b1 -> wfBuf b' ->
    moves [rec] b0 [] b' -> tb_decided b' = tb_decided b1 -> tb_out b' = tb_out b0 ->
    (is_Some (tb_traces b !! id) \/ dt_m (tb_decided b) !! id = None) ->
    (forall i, i <> id -> tb_traces b' !! i = tb_traces b1 !! i) ->
    addsSpan rec b b') as Hbuf.
  { intros b1 b' Hev Hw' [Hm1 Hm2] Hd Ho Hid Ht. split; rewrite ?Hd; try done.
    - intros k. specialize (Hm1 k). unfold b0 in Hm1.
      rewrite acceptSpan_ledger in Hm1 by done.
      change (inside (keyM k) (acceptSpan rec b)) with (inside (keyM k) b) in Hm1.
      simpl in Hm1. lia.
    - intros mu H1 H2. specialize (Hm2 mu H1 H2). simpl in Hm2. rewrite Z.add_0_r in Hm2.
      rewrite Hm2. change (inside mu b0) with (inside mu b).
      change (outM mu b0) with (outM mu b). lia.
    - apply (ev_evicted _ _ _ Hev).
    - intros i. destruct (ev_m _ _ _ Hev i) as [E|[E|([t E1] & En & w & s & E2)]];
        [left; by rewrite E|by right; left|]. right; right. rewrite E2.
      split_and!; [eauto| |done]. rewrite Ht; [done|]. intros ->.
      destruct (ev_traces _ _ _ Hev id) as [E3|(_ & Hk & _)]; [congruence|].
      change (tb_traces b0) with (tb_traces b) in E1. rewrite E1 in Hk. simpl in Hk.
      by rewrite (wb_id _ Hw _ _ E1) in Hk.
    - intros i. rewrite (ev_held _ _ _ Hev). by left.
    - intros i [t Hi]. destruct (decide (i = id)) as [->|Hne]; [done|].
      rewrite Ht in Hi by done. left. exists t. by eapply (ev_traces_sub _ _ _ _ _ Hev). }
  destruct (tb_traces b !! id) as [tr|] eqn:Et.
  - destruct (addBuffered_spec [] rec now b0 Hw0) as (b1 & Hev & H1 & H2 & H3 & H4 & H5).
    { fold id. change (tb_traces b0) with (tb_traces b). by rewrite Et. }
    fold id in Hev, H1, H2, H3, H4, H5.
      change (tb_traces b0) with (tb_traces b) in Hev, H1, H2, H3, H4, H5. rewrite Et in Hev, H1, H2, H3, H4, H5.
    eapply Hbuf; eauto.
  - destruct (decided_follow rec (tb_decided b0) (tb_ledger b0)) as [[f d] lg] eqn:Ef.
    destruct (follow_spec [] rec b0 f d lg Hw0 (or_introl Et) Ef) as (Hw1 & Hm1 & Hev1 & Hyes & Hno & Hp & Hh).
    destruct f.
    + destruct Hm1 as [Hm1 Hm2]. split; try done.
      * intros k. specialize (Hm1 k). unfold b0 in Hm1.
        rewrite acceptSpan_ledger in Hm1 by done.
        change (inside (keyM k) (acceptSpan rec b)) with (inside (keyM k) b) in Hm1.
        simpl in Hm1. fold b0 in Hm1. simpl. lia.
      * intros mu H1 H2. specialize (Hm2 mu H1 H2). simpl in Hm2. rewrite Z.add_0_r in Hm2.
        rewrite Hm2. change (inside mu b0) with (inside mu b).
        change (outM mu b0) with (outM mu b). lia.
      * simpl. rewrite Hev1. done.
      * intros i. left. apply Hp.
      * intros i Hi. apply Hh in Hi as [?|(e & He & Hpe & _)]; [by left|right].
        change (tb_decided b0) with (tb_decided b) in He. rewrite He. simpl. by rewrite Hpe.
      * intros i. by left.
    + destruct (Hno eq_refl) as (-> & -> & Hm).
      assert (set_tb_ledger (tb_ledger b0) (set_tb_decided (tb_decided b0) b0) = b0) as Eb
        by by destruct b0.
      rewrite Eb in *.
      destruct (addBuffered_spec [] rec now b0 Hw0) as (b1 & Hev & H1 & H2 & H3 & H4 & H5).
      { intros _. by apply Hheld. }
      fold id in Hev, H1, H2, H3, H4, H5.
      change (tb_traces b0) with (tb_traces b) in Hev, H1, H2, H3, H4, H5. rewrite Et in Hev, H1, H2, H3, H4, H5.
      eapply Hbuf; eauto.
Qed.

(** The decisions [addBuffered] leaves are those after eviction. *)
Lemma addBuffered_decided rec now otr b :
  wfBuf b ->
  exists b1, evicts (bt_id <$> otr) b b1 /\
    tb_decided (addBuffered rec now otr b) = tb_decided b1.
Proof.
  intros Hw. unfold addBuffered.
  destruct (ensureRoom (bt_id <$> otr) now b) as [room b1] eqn:Er.
  destruct (ensureRoom_spec _ _ _ _ _ Hw Er) as (Hev & _).
  exists b1. split; [done|]. destruct (_ && _); [done|].
  destruct otr as [tr|]; [|unfold newTrace; cbv zeta];
    match goal with |- context [appendSpan rec now ?t ?x] =>
      destruct (appendSpan_frame rec now t x) as (? & ? & ? & -> & _) end; [done|].
  repeat case_match; done.
Qed.

Lemma Add_evicted_mono rec now b :
  wfBuf b -> dt_evicted (tb_decided b) <= dt_evicted (tb_decided (Add rec now b)).
Proof.
  intros Hw. rewrite Add_eq. cbv zeta. pose proof (acceptSpan_wf rec b Hw) as Hw0.
  set (b0 := acceptSpan rec b) in *.
  destruct (tb_traces b !! sr_TraceID rec) as [tr|] eqn:Et.
  - destruct (addBuffered_decided rec now (Some tr) b0 Hw0) as (b1 & Hev & ->).
    apply (ev_evicted _ _ _ Hev).
  - destruct (decided_follow rec (tb_decided b0) (tb_ledger b0)) as [[f d] lg] eqn:Ef.
    destruct (follow_spec [] rec b0 f d lg Hw0 (or_introl Et) Ef)
      as (Hw1 & _ & Hev1 & _). cbv zeta in Hw1.
    change (tb_decided b0) with (tb_decided b) in Hev1.
    destruct f; [simpl; lia|].
    destruct (addBuffered_decided rec now None _ Hw1) as (b1 & Hev & ->).
    pose proof (ev_evicted _ _ _ Hev). simpl in *. lia.
Qed.
