(* ===== verification/BufferFlush.v ===== *)
(** * The phases of a flush

    Each phase of [TraceBuffer.flush] preserves the invariants of [BufferInv]
    and moves spans without losing any.  [pendingInv P] relates the decision
    table to the ids [P] a flush in progress still has to settle. *)
From S2P Require Import Prelude Model SpanLedger Sampling TraceSampling Carry Decided.
From S2P Require Import TraceBuffer BufferInv.

(** The spans of a list of traces. *)
Definition spansOf (trs : list bufferedTrace) : list SpanRecord := concat (bt_spans <$> trs).

Lemma sumBy_spansOf mu trs : sumBy mu (spansOf trs) = sumBy (trM mu) trs.
Proof.
  induction trs as [|tr trs IH]; [done|].
  change (spansOf (tr :: trs)) with (bt_spans tr ++ spansOf trs).
  rewrite sumBy_app, IH. done.
Qed.

Lemma moves_perm F F1 b b' F' F1' :
  (forall mu, sumBy mu F = sumBy mu F1) -> (forall mu, sumBy mu F' = sumBy mu F1') ->
  moves F b F' b' -> moves F1 b F1' b'.
Proof.
  intros H1 H2 [H3 H4]. split; intros; rewrite <- ?H1, <- ?H2; auto.
Qed.

(** The decision pending for an id, if any. *)
Definition pendingAt (id : string) (b : TraceBuffer) : option bool :=
  dc_pending <$> dt_m (tb_decided b) !! id.

(** The ids [P] are the ones being decided.  A pending decision or a held span
    belongs to one of them.  As long as the cap dropped no decision, they are
    all marked pending, and no trace is both buffered and decided. *)
Record pendingInv (P : list string) (b : TraceBuffer) : Prop := {
  pi_pending : forall id, pendingAt id b = Some true -> id ∈ P;
  pi_held : forall id, is_Some (dt_held (tb_decided b) !! id) -> id ∈ P;
  pi_evicted : 0 <= dt_evicted (tb_decided b);
  pi_exact : dt_evicted (tb_decided b) = 0 ->
    (forall id, id ∈ P -> pendingAt id b = Some true) /\
    (forall id, is_Some (tb_traces b !! id) -> dt_m (tb_decided b) !! id = None);
}.

Lemma pendingInv_new ttl maxSpans maxDecided rules lookup :
  pendingInv [] (SetLedger (Some Tally_New)
    (newTraceBuffer ttl maxSpans maxDecided rules lookup)).
Proof.
  split; try done.
  - intros id [x Hx]. done.
  - intros _. split; [set_solver|]. intros id [x Hx]. done.
Qed.

(** ** Add during a flush *)

Lemma Add_pending P rec now b :
  wfBuf b -> pendingInv P b -> (P = [] \/ dt_evicted (tb_decided b) = 0) ->
  addsSpan rec b (Add rec now b) /\ pendingInv P (Add rec now b).
Proof.
  intros Hw [H1 H2 H3 H4] HP.
  assert (addsSpan rec b (Add rec now b)) as Ha.
  { apply Add_spec; [done|]. intros _ Hm.
    destruct (dt_held (tb_decided b) !! sr_TraceID rec) eqn:E; [|done]. exfalso.
    assert (sr_TraceID rec ∈ P) as Hin by eauto.
    destruct HP as [->|Hev]; [by apply not_elem_of_nil in Hin|].
    destruct (H4 Hev) as [H5 _]. specialize (H5 _ Hin). unfold pendingAt in H5.
    by rewrite Hm in H5. }
  split; [done|]. pose proof (as_evicted _ _ _ Ha) as Hmono.
  split.
  - intros id Hp. unfold pendingAt in Hp.
    destruct (as_m _ _ _ Ha id) as [E|[[E _]|(_ & _ & E)]]; rewrite E in Hp; [auto|done|done].
  - intros id Hh. destruct (as_held _ _ _ Ha id Hh); auto.
  - lia.
  - intros Hev. destruct H4 as [H4 H5]; [lia|]. split.
    + intros id Hin. specialize (H4 id Hin). unfold pendingAt in *.
      destruct (as_m _ _ _ Ha id) as [E|[[_ E]|(E & _)]]; [by rewrite E|lia|].
      apply H5 in E. by rewrite E in H4.
    + intros id Hid.
      assert (dt_m (tb_decided b) !! id = None) as Hm
        by (destruct (as_traces _ _ _ Ha id Hid); auto).
      destruct (as_m _ _ _ Ha id) as [E|[[E _]|(_ & E & _)]]; [|done|].
      * rewrite Hm in E. simpl in E. by apply fmap_None in E.
      * destruct Hid as [? Hid]. congruence.
Qed.

(** Membership in a list with a known head. *)
Ltac solve_in :=
  first [by left | by right | rewrite not_elem_of_cons; done].

(** ** The first phase *)

Definition beginOne (now : Z) (b : TraceBuffer) (tr : bufferedTrace) : TraceBuffer :=
  putDecided (bt_id tr) 0 true now (tb_remove tr b).

(** Every pending decision was taken at [now]. *)
Definition pendingSince (now : Z) (b : TraceBuffer) : Prop :=
  Forall (fun e => se_pending e = true -> se_at e = now) (absDecided (tb_decided b)).

(** One due trace moves out of the map and is marked pending. *)
Lemma beginOne_spec F now tr b :
  wfBuf b -> tb_traces b !! bt_id tr = Some tr ->
  let b' := beginOne now b tr in
  wfBuf b' /\ moves F b (bt_spans tr ++ F) b' /\
  tb_traces b' = delete (bt_id tr) (tb_traces b) /\
  dt_held (tb_decided b') = dt_held (tb_decided b) /\
  tb_out b' = tb_out b /\ tb_rescuedAtCap b' = tb_rescuedAtCap b /\
  tb_carry b' = tb_carry b /\
  dt_evicted (tb_decided b) <= dt_evicted (tb_decided b') /\
  pendingAt (bt_id tr) b' = Some true /\
  (forall id, id <> bt_id tr -> dt_m (tb_decided b') !! id = dt_m (tb_decided b) !! id \/
     (dt_m (tb_decided b') !! id = None /\
      dt_evicted (tb_decided b) < dt_evicted (tb_decided b'))) /\
  (dt_m (tb_decided b) !! bt_id tr = None -> pendingSince now b -> pendingSince now b').
Proof.
  intros Hw Htr. cbv zeta. unfold beginOne.
  destruct (tb_remove_spec F tr b Hw Htr) as [Hw1 Hm1].
  assert (dt_held (tb_decided (tb_remove tr b)) !! bt_id tr = None) as Hnh.
  { apply (wb_disj _ Hw). eauto. }
  destruct (putDecided_spec (bt_spans tr ++ F) (bt_id tr) 0 true now _ Hw1 Hnh)
    as (Hw2 & Hm2 & Hh2).
  unfold putDecided in *.
  destruct (decided_put _ _ _ _ _) as [held d] eqn:Ep. simpl in *.
  destruct (decided_put_spec _ _ _ _ _ _ _ (wb_decided _ Hw) Ep)
    as (Hd & Habs & _ & Hh & Hlate & _ & _ & Hev & [s Hs] & Hoth).
  split_and!; try done.
  - by eapply moves_trans.
  - unfold pendingAt. simpl. by rewrite Hs.
  - intros Hno. unfold pendingSince. simpl. rewrite Habs.
    pose proof (lookup_refines _ (bt_id tr) (wb_decided _ Hw)) as Hlk. rewrite Hno in Hlk.
    unfold specPut. destruct (specLookup _ _); [done|].
    intros HF. apply Forall_app. split; [by apply Forall_drop|by repeat constructor].
Qed.

Lemma beginLoop_spec now trs : forall F b,
  wfBuf b -> NoDup (bt_id <$> trs) ->
  (forall tr, tr ∈ trs -> tb_traces b !! bt_id tr = Some tr) ->
  let b' := foldl (beginOne now) b trs in
  wfBuf b' /\ moves F b (spansOf trs ++ F) b' /\
  (forall id, tb_traces b' !! id =
     if decide (id ∈ bt_id <$> trs) then None else tb_traces b !! id) /\
  dt_held (tb_decided b') = dt_held (tb_decided b) /\
  tb_out b' = tb_out b /\ tb_rescuedAtCap b' = tb_rescuedAtCap b /\
  tb_carry b' = tb_carry b /\
  dt_evicted (tb_decided b) <= dt_evicted (tb_decided b') /\
  (forall id, pendingAt id b' = Some true -> pendingAt id b = Some true \/ id ∈ bt_id <$> trs) /\
  ((forall tr, tr ∈ trs -> dt_m (tb_decided b) !! bt_id tr = None) ->
   (pendingSince now b -> pendingSince now b') /\
   (dt_evicted (tb_decided b') = dt_evicted (tb_decided b) ->
    forall id, if decide (id ∈ bt_id <$> trs) then pendingAt id b' = Some true
               else dt_m (tb_decided b') !! id = dt_m (tb_decided b) !! id)).
Proof.
  induction trs as [|tr trs IH]; intros F b Hw Hnd Hin; cbv zeta; [by split_and!; auto|].
  rewrite fmap_cons in Hnd. apply NoDup_cons in Hnd as [Hn Hnd].
  assert (tb_traces b !! bt_id tr = Some tr) as Htr by (apply Hin; by left).
  destruct (beginOne_spec F now tr b Hw Htr)
    as (Hw1 & Hm1 & Ht1 & Hh1 & Ho1 & Hr1 & Hc1 & He1 & Hp1 & Hoth1 & Hps1).
  set (b1 := beginOne now b tr) in *. simpl foldl. fold b1.
  assert (forall t, t ∈ trs -> bt_id t <> bt_id tr) as Hne.
  { intros t Ht E. apply Hn. rewrite <- E. by apply list_elem_of_fmap_2. }
  destruct (IH (bt_spans tr ++ F) b1 Hw1 Hnd)
    as (Hw2 & Hm2 & Ht2 & Hh2 & Ho2 & Hr2 & Hc2 & He2 & Hp2 & Hx2).
  { intros t Ht. rewrite Ht1, lookup_delete_ne; [apply Hin; by right|].
    intros E. by apply (Hne t Ht). }
  set (b2 := foldl (beginOne now) b1 trs) in *.
  split_and!; try congruence; try lia; try done.
  - eapply moves_trans; [exact Hm1|]. eapply moves_perm; [done| |exact Hm2].
    intros mu. change (spansOf (tr :: trs)) with (bt_spans tr ++ spansOf trs).
    rewrite !sumBy_app. lia.
  - intros id. rewrite Ht2, Ht1, fmap_cons.
    destruct (decide (id = bt_id tr)) as [->|Hid].
    + rewrite (decide_True (P := _ ∈ _ :: _)) by solve_in.
      case_decide; [done|apply lookup_delete_eq].
    + rewrite lookup_delete_ne by done.
      destruct (decide (id ∈ bt_id <$> trs));
        [rewrite decide_True by solve_in|rewrite decide_False by solve_in]; done.
  - intros id Hid. rewrite fmap_cons. destruct (Hp2 id Hid) as [H|H]; [|by right; right].
    destruct (decide (id = bt_id tr)) as [->|Hne']; [right; by left|].
    left. unfold pendingAt in *. destruct (Hoth1 id Hne') as [E|[E _]]; by rewrite E in H.
  - intros Hno.
    assert (forall t, t ∈ trs -> dt_m (tb_decided b1) !! bt_id t = None) as Hno1.
    { intros t Ht. destruct (Hoth1 _ (Hne t Ht)) as [E|[E _]]; [|done].
      rewrite E. apply Hno. by right. }
    destruct (Hx2 Hno1) as [Hx3 Hx4]. split; [intros; apply Hx3, Hps1; [apply Hno; by left|done]|].
    intros Hev id. specialize (Hx4 ltac:(lia) id). rewrite fmap_cons.
    destruct (decide (id ∈ bt_id <$> trs)) as [Hi|Hi]; [rewrite decide_True by solve_in; done|].
    destruct (decide (id = bt_id tr)) as [->|Hid].
    + rewrite decide_True by solve_in. unfold pendingAt in *. by rewrite Hx4.
    + rewrite decide_False by solve_in. rewrite Hx4.
      destruct (Hoth1 id Hid) as [E|[_ E]]; [done|lia].
Qed.

(** [expire] forgets no decision taken at [now]. *)
Lemma oldPrefix_le cutoff ats i a :
  (i < oldPrefix cutoff ats)%nat -> ats !! i = Some a -> a <= cutoff.
Proof.
  revert i. induction ats as [|x ats IH]; intros i Hi Ha; simpl in *; [lia|].
  destruct (Z.ltb_spec cutoff x); [lia|]. destruct i as [|i]; simplify_eq/=; [lia|].
  apply (IH i); [lia|done].
Qed.

Lemma expire_pending now b id :
  wfBuf b ->
  dt_m (decided_expire now (tb_decided b)) !! id = dt_m (tb_decided b) !! id \/
  (dt_m (decided_expire now (tb_decided b)) !! id = None /\
   (pendingSince now b -> pendingAt id b <> Some true)).
Proof.
  intros Hw. destruct (decided_expire_spec now _ (wb_decided _ Hw)) as [[_ Hr Hm _] _].
  rewrite Hm. case_decide as Hin; [right; split; [done|]|by left].
  intros Hps Hp. apply list_elem_of_fmap in Hin as (ref & -> & Hin).
  apply list_elem_of_lookup in Hin as [i Hi].
  apply lookup_take_Some in Hi as [Hi Hlt].
  assert (rf_at ref <= now - dt_ttl (tb_decided b)) as Hat.
  { eapply oldPrefix_le; [exact Hlt|]. by rewrite list_lookup_fmap, Hi. }
  unfold pendingSince in Hps. rewrite Forall_forall in Hps.
  specialize (Hps (absEntry (dt_m (tb_decided b)) ref)).
  unfold pendingAt in Hp. pose proof (wb_ttl _ Hw).
  assert (rf_at ref = now) as E; [|lia]. apply Hps.
  - unfold absDecided. apply list_elem_of_fmap_2. by eapply list_elem_of_lookup_2.
  - unfold absEntry. simpl. by destruct (dt_m _ !! _); simplify_eq/=.
Qed.

(** ** What is decided, and in which order *)

Lemma toDecide_perm now all b :
  toDecide now all b ≡ₚ filter (fun tr => all || due tr now b) (map_to_list (tb_traces b)).*2.
Proof. unfold toDecide, sortByArrival. by rewrite merge_sort_Permutation. Qed.

Lemma toDecide_in now all b tr :
  wfBuf b ->
  tr ∈ toDecide now all b <->
  tb_traces b !! bt_id tr = Some tr /\ (all || due tr now b = true).
Proof.
  intros Hw. rewrite toDecide_perm, list_elem_of_filter, list_elem_of_fmap. split.
  - intros [Hd ([id t] & -> & Hin)]. apply elem_of_map_to_list in Hin. simpl.
    rewrite (wb_id _ Hw _ _ Hin). split; [done|]. by apply Is_true_true.
  - intros [Hin Hd]. split; [by apply Is_true_true|].
    exists (bt_id tr, tr). split; [done|]. by apply elem_of_map_to_list.
Qed.

Lemma traces_ids b : wfBuf b ->
  bt_id <$> (map_to_list (tb_traces b)).*2 = (map_to_list (tb_traces b)).*1.
Proof.
  intros Hw. rewrite <- list_fmap_compose. apply list_fmap_ext.
  intros i [id tr] Hi. simpl. apply (wb_id _ Hw).
  apply elem_of_map_to_list. by eapply list_elem_of_lookup_2.
Qed.

Lemma toDecide_nodup now all b : wfBuf b -> NoDup (bt_id <$> toDecide now all b).
Proof.
  intros Hw. rewrite toDecide_perm.
  eapply sublist_NoDup; [|apply fmap_sublist, sublist_filter].
  rewrite traces_ids by done. apply NoDup_fst_map_to_list.
Qed.

(** Sorting by arrival gives one order, whatever order the map was ranged in. *)
Lemma sortByArrival_unique l1 l2 :
  l1 ≡ₚ l2 -> (forall a b, a ∈ l1 -> b ∈ l1 -> bt_seq a = bt_seq b -> a = b) ->
  sortByArrival l1 = sortByArrival l2.
Proof.
  intros Hp Hinj. unfold sortByArrival.
  assert (Total arrivedBefore) as Ht by (intros a b; unfold arrivedBefore; lia).
  assert (Transitive arrivedBefore) as Htr by (intros a b c; unfold arrivedBefore; lia).
  apply (StronglySorted_unique_strong arrivedBefore).
  - intros x1 x2. rewrite !merge_sort_Permutation. intros H1 H2 H3 H4.
    rewrite <- Hp in H2. apply Hinj; [done|done|]. unfold arrivedBefore in *. lia.
  - by apply StronglySorted_merge_sort.
  - by apply StronglySorted_merge_sort.
  - by rewrite !merge_sort_Permutation.
Qed.

(** ** The whole first phase *)

Lemma expire_wf now b :
  wfBuf b -> wfBuf (set_tb_decided (decided_expire now (tb_decided b)) b) /\
  forall F, moves F b F (set_tb_decided (decided_expire now (tb_decided b)) b).
Proof.
  intros Hw. destruct (decided_expire_spec now _ (wb_decided _ Hw)) as [[Hd _ _ Hs] _].
  destruct Hs as (_ & Httl & _ & Hh & Hl & _). split.
  - destruct Hw. split; simpl; rewrite ?Hh, ?Httl; done.
  - intros F. split; intros; unfold inside, outM; simpl; rewrite Hh, Hl; done.
Qed.

Record begins (all : bool) (b : TraceBuffer) (trs kept : list bufferedTrace)
  (b' : TraceBuffer) : Prop := {
  bg_wf : wfBuf b';
  bg_moves : forall F, moves F b (spansOf trs ++ spansOf kept ++ F) b';
  bg_pending : pendingInv (bt_id <$> trs) b';
  bg_latched : Forall latched trs;
  bg_kept : kept = tb_rescuedAtCap b;
  bg_rescued : tb_rescuedAtCap b' = [];
  bg_carry : tb_carry b' = tb_carry b;
  bg_out : tb_out b' = tb_out b;
  bg_traces : all = true -> tb_traces b' = ∅;
  bg_evicted : dt_evicted (tb_decided b) <= dt_evicted (tb_decided b');
}.

(** The first phase after the due traces left the map. *)
Definition beginTail (now : Z) (b : TraceBuffer)
  : list bufferedTrace * lossWindow * TraceBuffer :=
  let b := pruneEvictionQueues b in
  let b := set_tb_decided (decided_expire now (tb_decided b)) b in
  let kept := tb_rescuedAtCap b in
  let b := set_tb_rescuedAtCap [] b in
  let '(loss, b) := takeLossWindow b in
  let buffered := tb_spanCount b in
  let traces := Z.of_nat (size (tb_traces b)) in
  let w := mkLossWindow (lw_refused loss) (lw_evictedSacrif loss) (lw_evictedKept loss)
             (lw_rescued loss) (lw_maxSpans loss) buffered traces 0 in
  let '(atCapFor, pressure) := observe w now (tb_pressure b) in
  let loss := mkLossWindow (lw_refused loss) (lw_evictedSacrif loss) (lw_evictedKept loss)
                (lw_rescued loss) (lw_maxSpans loss) buffered traces atCapFor in
  (kept, loss, set_tb_pressure pressure b).

Lemma flushBegin_eq now all b :
  flushBegin now all b =
  let trs := toDecide now all b in
  let '(kept, loss, b') := beginTail now (foldl (beginOne now) b trs) in
  (trs, kept, loss, b').
Proof.
  unfold flushBegin, beginTail. cbv zeta.
  change (fun b tr => putDecided (bt_id tr) 0 true now (tb_remove tr b)) with (beginOne now).
  generalize (foldl (beginOne now) b (toDecide now all b)). intros b1.
  destruct (takeLossWindow _) as [l b2]. by destruct (observe _ _ _).
Qed.

Lemma beginTail_spec now b kept loss b' :
  wfBuf b -> beginTail now b = (kept, loss, b') ->
  wfBuf b' /\ (forall F, moves F b (spansOf kept ++ F) b') /\
  tb_decided b' = decided_expire now (tb_decided b) /\ tb_traces b' = tb_traces b /\
  kept = tb_rescuedAtCap b /\ tb_rescuedAtCap b' = [] /\ tb_carry b' = tb_carry b /\
  tb_out b' = tb_out b.
Proof.
  intros Hw. unfold beginTail. cbv zeta.
  destruct (takeLossWindow _) as [l b5] eqn:El. destruct (observe _ _ _) as [cap pr].
  intros [= <- _ <-]. unfold takeLossWindow in El. injection El as _ <-.
  set (b2 := pruneEvictionQueues b).
  set (b3 := set_tb_decided (decided_expire now (tb_decided b2)) b2).
  set (b4 := set_tb_rescuedAtCap [] b3).
  match goal with |- wfBuf ?x /\ _ => set (b6 := x) end.
  assert (wfBuf b2) as Hw2 by (apply (sameCore_wf b); [solve_core|done]).
  destruct (expire_wf now b2 Hw2) as [Hw3 Hm3]. fold b3 in Hw3, Hm3.
  assert (wfBuf b4) as Hw4 by (destruct Hw3; split; done).
  split_and!; try reflexivity.
  - apply (sameCore_wf b4); [solve_core|done].
  - intros F. eapply moves_trans; [apply (sameCore_moves _ b b2); solve_core|].
    eapply moves_trans; [apply Hm3|].
    apply (moves_trans _ _ (spansOf (tb_rescuedAtCap b3) ++ F) b4);
      [|apply sameCore_moves; solve_core].
    split; intros; unfold b4; rewrite inside_rescued, sumBy_app, sumBy_spansOf;
      unfold outM; simpl; lia.
Qed.

(** The pending ids after the loop and the expiry. *)
Lemma begin_pending now trs b b1 b' :
  wfBuf b -> pendingInv [] b -> wfBuf b1 ->
  (forall tr, tr ∈ trs -> tb_traces b !! bt_id tr = Some tr) ->
  tb_decided b' = decided_expire now (tb_decided b1) -> tb_traces b' = tb_traces b1 ->
  (forall id, tb_traces b1 !! id =
     if decide (id ∈ bt_id <$> trs) then None else tb_traces b !! id) ->
  dt_held (tb_decided b1) = dt_held (tb_decided b) ->
  dt_evicted (tb_decided b) <= dt_evicted (tb_decided b1) ->
  (forall id, pendingAt id b1 = Some true -> pendingAt id b = Some true \/ id ∈ bt_id <$> trs) ->
  ((forall tr, tr ∈ trs -> dt_m (tb_decided b) !! bt_id tr = None) ->
   (pendingSince now b -> pendingSince now b1) /\
   (dt_evicted (tb_decided b1) = dt_evicted (tb_decided b) ->
    forall id, if decide (id ∈ bt_id <$> trs) then pendingAt id b1 = Some true
               else dt_m (tb_decided b1) !! id = dt_m (tb_decided b) !! id)) ->
  pendingInv (bt_id <$> trs) b'.
Proof.
  intros Hw [P1 P2 P3 P4] Hw1 Hin Ed Et Ht1 Hh1 He1 Hp1 Hx1.
  destruct (decided_expire_spec now _ (wb_decided _ Hw1)) as [[_ _ _ (_&_&_&Hh&_)] Hev3].
  split; unfold pendingAt; rewrite ?Ed.
  - intros id Hid.
    destruct (expire_pending now b1 id Hw1) as [E|[E _]]; rewrite E in Hid; [|done].
    destruct (Hp1 id Hid) as [H|H]; [|done]. apply P1 in H. by apply not_elem_of_nil in H.
  - intros id. rewrite Hh, Hh1. intros Hi. apply P2 in Hi. by apply not_elem_of_nil in Hi.
  - rewrite Hev3. lia.
  - rewrite Hev3. intros Hev. destruct (P4 ltac:(lia)) as [_ Hdis].
    destruct Hx1 as [Hx1 Hx2]; [intros tr Htr; apply Hdis; eauto|].
    assert (pendingSince now b1) as Hps.
    { apply Hx1. unfold pendingSince. apply Forall_forall. intros e He Hpe.
      apply list_elem_of_fmap in He as (ref & -> & Hr). unfold absEntry in Hpe. simpl in Hpe.
      destruct (dt_m (tb_decided b) !! rf_id ref) as [dd|] eqn:Em; [|done].
      exfalso. apply (not_elem_of_nil (rf_id ref)). apply P1. unfold pendingAt.
      rewrite Em. simpl in *. by rewrite Hpe. }
    split.
    + intros id Hid. specialize (Hx2 ltac:(lia) id). rewrite decide_True in Hx2 by done.
      destruct (expire_pending now b1 id Hw1) as [E|[_ E]]; [|by destruct (E Hps)].
      by rewrite E.
    + intros id Hid. rewrite Et, Ht1 in Hid. specialize (Hx2 ltac:(lia) id).
      destruct (decide (id ∈ _)); [by destruct Hid|].
      destruct (expire_pending now b1 id Hw1) as [E|[E _]]; [|done].
      rewrite E, Hx2. by apply Hdis.
Qed.

Lemma flushBegin_spec now all b trs kept loss b' :
  wfBuf b -> pendingInv [] b -> flushBegin now all b = (trs, kept, loss, b') ->
  begins all b trs kept b'.
Proof.
  intros Hw Hp. rewrite flushBegin_eq. cbv zeta.
  assert (forall tr, tr ∈ toDecide now all b -> tb_traces b !! bt_id tr = Some tr) as Hin.
  { intros tr Htr. by apply (toDecide_in now all b tr Hw) in Htr as [? _]. }
  pose proof (fun F => beginLoop_spec now _ F b Hw (toDecide_nodup now all b Hw) Hin) as HB.
  cbv zeta in HB. pose proof (fun tr => toDecide_in now all b tr Hw) as Hall.
  generalize dependent (foldl (beginOne now) b (toDecide now all b)). intros b1 HB.
  revert Hin HB Hall. generalize (toDecide now all b). intros trs0 Hin HB Hall.
  destruct (beginTail now b1) as [[k0 l0] b0] eqn:Et. intros [= -> -> <- ->].
  destruct (HB []) as (Hw1 & _ & Ht1 & Hh1 & Ho1 & Hr1 & Hc1 & He1 & Hp1 & Hx1).
  destruct (beginTail_spec _ _ _ _ _ Hw1 Et) as (Hw2 & Hm2 & Ed & Etr & Ek & Er & Ec & Eo).
  split; try congruence.
  - intros F. destruct (HB F) as (_ & Hm1 & _). eapply moves_trans; [exact Hm1|].
    eapply moves_perm; [done| |apply Hm2]. intros mu. rewrite !sumBy_app. lia.
  - apply (begin_pending now trs b b1); done.
  - apply Forall_forall. intros tr Htr. apply (wb_latch _ Hw (bt_id tr)). by apply Hin.
  - intros ->. apply map_empty. intros id. rewrite Etr, Ht1. case_decide as Hd; [done|].
    destruct (tb_traces b !! id) as [tr|] eqn:E; [|done]. exfalso. apply Hd.
    rewrite <- (wb_id _ Hw _ _ E). apply list_elem_of_fmap_2, Hall.
    rewrite (wb_id _ Hw _ _ E). done.
  - rewrite Ed. destruct (decided_expire_spec now _ (wb_decided _ Hw1)) as [_ ->]. done.
Qed.

(** ** Deciding, outside the lock *)

Lemma pendingInv_same P b b' :
  tb_decided b' = tb_decided b -> tb_traces b' = tb_traces b ->
  pendingInv P b -> pendingInv P b'.
Proof. intros E1 E2 []. split; unfold pendingAt in *; rewrite ?E1, ?E2; done. Qed.

Lemma decideOne_spec tr now b w k b' :
  wfBuf b -> latched tr -> decideOne tr now b = (w, k, b') ->
  wfBuf b' /\ sameTables b b' /\ tb_rescuedAtCap b' = tb_rescuedAtCap b /\ 0 <= w /\
  (bt_hasError tr = true -> w = 1) /\
  k = (if 0 <? w then Some (stampWeight w tr) else None) /\
  forall F, moves (bt_spans tr ++ F) b (spansOf (option_list k) ++ F) b'.
Proof.
  intros Hw Hl. unfold decideOne. destruct (keepWeight tr now b) as [w1 b1] eqn:Ek.
  destruct (keepWeight_frame _ _ _ _ _ Ek) as (f & c & E1 & _ & _).
  destruct (keepWeight_spec [] _ _ _ _ _ Hw Ek) as (Hw1 & _ & Hpos & Herr).
  assert (forall F, moves F b F b1) as Hm1.
  { intros F. by destruct (keepWeight_spec F _ _ _ _ _ Hw Ek) as (_ & ? & _). }
  assert (sameTables b b1) as Ht by (rewrite E1; by split_and!).
  assert (tb_rescuedAtCap b1 = tb_rescuedAtCap b) as Hr by by rewrite E1.
  destruct (0 <? w1) eqn:E0; intros [= <- <- <-].
  - split_and!; try done; [by destruct Ht as (?&?&?&?&?&?)..|by rewrite E0|].
    intros F. eapply moves_trans; [apply Hm1|]. unfold spansOf. simpl. rewrite app_nil_r.
    split; intros; rewrite !sumBy_app, sumBy_stamp by first [done|apply keyM_weightFree]; done.
  - assert (noErrors (bt_spans tr)) as Hn.
    { apply Hl. destruct (bt_hasError tr); [|done]. specialize (Herr eq_refl). by subst. }
    assert (forall F, wfBuf (dropTrace tr SampledOut now b1) /\
      moves (bt_spans tr ++ F) b1 F (dropTrace tr SampledOut now b1)) as Hd
      by (intros; by apply dropTrace_spec).
    split_and!; try done; [apply (Hd [])|by destruct Ht as (?&?&?&?&?&?)..|by rewrite E0|].
    intros F. eapply moves_trans; [apply Hm1|apply Hd].
Qed.

(** ** Expired carriers *)

Lemma ledgerCarriers_spec cs : forall F b,
  wfBuf b -> Forall carrierOk cs ->
  let b' := (ledgerCarriers cs b).2 in
  wfBuf b' /\ sameTables b b' /\ tb_rescuedAtCap b' = tb_rescuedAtCap b /\
  tb_carry b' = tb_carry b /\ moves F b (spansOf cs ++ F) b'.
Proof.
  induction cs as [|tr cs IH]; intros F b Hw Hc; simpl; [by split_and!|].
  apply Forall_cons in Hc as [[Hcol Hn] Hc].
  destruct (wb_ledger _ Hw) as [Hl Hs].
  set (b1 := set_tb_ledger _ b).
  assert (wfBuf b1) as Hw1.
  { destruct Hw. split; try done. simpl.
    split; [by apply wfLedger_AddSpans|by apply is_Some_AddSpans]. }
  destruct (IH (bt_spans tr ++ F) b1 Hw1 Hc) as (Hw2 & Ht2 & Hr2 & Hc2 & Hm2).
  simpl in *. split_and!; try done; [by destruct Ht2 as (?&?&?&?&?&?)..|].
  eapply moves_trans; [|eapply moves_perm; [done| |exact Hm2]; cycle 1].
  - split; intros; simpl; rewrite sumBy_app.
    + rewrite unexited_AddSpans by (done || by destruct (bt_droppedAs tr)).
      change (inside (keyM k) b1) with (inside (keyM k) b). lia.
    + change (inside mu b1) with (inside mu b). change (outM mu b1) with (outM mu b).
      change (sumBy mu (bt_spans tr)) with (trM mu tr).
      rewrite trM_errorOnly by done. lia.
  - intros mu. change (spansOf (tr :: cs)) with (bt_spans tr ++ spansOf cs).
    rewrite !sumBy_app. lia.
Qed.

Lemma flushCarriers_spec now all b cs b' :
  wfBuf b -> flushCarriers now all b = (cs, b') ->
  wfBuf b' /\ sameTables b b' /\ tb_rescuedAtCap b' = tb_rescuedAtCap b /\
  (all = true -> ct_m (tb_carry b') = ∅) /\
  forall F, moves F b (spansOf cs ++ F) b'.
Proof.
  intros Hw. unfold flushCarriers.
  destruct (carry_expired now all (tb_carry b)) as [cs0 c] eqn:E.
  destruct (carryOk_expired _ _ _ _ _ (wb_carry _ Hw) E) as [Hc Hcs].
  destruct (carry_expired_spec _ _ _ _ _ (proj1 (wb_carry _ Hw)) E) as (_ & _ & _ & _ & Hall).
  set (b1 := set_tb_carry c b).
  assert (wfBuf b1) as Hw1 by (destruct Hw; split; done).
  pose proof (fun F => ledgerCarriers_spec cs0 F b1 Hw1 Hcs) as HL. cbv zeta in HL.
  unfold ledgerCarriers in *. simpl in HL. intros [= <- <-].
  destruct (HL []) as (Hw2 & Ht2 & Hr2 & Hc2 & _).
  split_and!; try done; [by destruct Ht2 as (?&?&?&?&?&?)..| |].
  - intros. rewrite Hc2. by apply Hall.
  - intros F. destruct (HL F) as (_ & _ & _ & _ & Hm).
    apply (moves_trans _ _ F b1); [by split|exact Hm].
Qed.

(** ** Settling *)

(** The spans held for a trace follow its decision: none waits again. *)
Lemma followHeld_spec id held : forall F b,
  wfBuf b -> Forall (fun r => sr_TraceID r = id) held -> pendingAt id b = Some false ->
  let b' := foldl followLate b held in
  wfBuf b' /\ moves (held ++ F) b F b' /\ tb_traces b' = tb_traces b /\
  tb_out b' = tb_out b /\ tb_rescuedAtCap b' = tb_rescuedAtCap b /\
  tb_carry b' = tb_carry b /\
  dt_evicted (tb_decided b') = dt_evicted (tb_decided b) /\
  (forall i, pendingAt i b' = pendingAt i b) /\
  (forall i, is_Some (dt_held (tb_decided b') !! i) -> is_Some (dt_held (tb_decided b) !! i)).
Proof.
  induction held as [|r held IH]; intros F b Hw Hid Hp; cbv zeta; [by split_and!|].
  apply Forall_cons in Hid as [Hr Hid].
  destruct (decided_follow r (tb_decided b) (tb_ledger b)) as [[f d] lg] eqn:Ef.
  destruct (follow_spec (held ++ F) r b f d lg Hw) as (Hw1 & Hm1 & Hev1 & _ & Hno & Hpend & Hheld);
    [right; by rewrite Hr|done|].
  assert (followLate b r = set_tb_ledger lg (set_tb_decided d b)) as Efl
    by (unfold followLate; by rewrite Ef).
  cbn [foldl]. rewrite Efl. set (b1 := set_tb_ledger lg _) in *.
  destruct f; cycle 1.
  { destruct (Hno eq_refl) as (_ & _ & Hm). rewrite Hr in Hm. unfold pendingAt in Hp.
    by rewrite Hm in Hp. }
  destruct (IH F b1 Hw1 Hid) as (Hw2 & Hm2 & Ht2 & Ho2 & Hr2 & Hc2 & He2 & Hp2 & Hh2).
  { unfold pendingAt in *. simpl. by rewrite Hpend. }
  split_and!; try done.
  - by eapply moves_trans.
  - rewrite He2. done.
  - intros i. rewrite Hp2. apply Hpend.
  - intros i Hi. apply Hh2 in Hi. apply Hheld in Hi as [?|(e & He & Hpe & ->)]; [done|].
    unfold pendingAt in Hp. rewrite Hr in He. rewrite He in Hp. simpl in Hp. congruence.
Qed.

Lemma settleOne_spec now tr w P b :
  wfBuf b -> pendingInv (bt_id tr :: P) b -> bt_id tr ∉ P ->
  let b' := settleOne now b (tr, w) in
  wfBuf b' /\ (forall F, moves F b F b') /\ pendingInv P b' /\
  tb_traces b' = tb_traces b /\ tb_out b' = tb_out b /\
  tb_rescuedAtCap b' = tb_rescuedAtCap b /\ tb_carry b' = tb_carry b /\
  dt_evicted (tb_decided b) <= dt_evicted (tb_decided b').
Proof.
  intros Hw [P1 P2 P3 P4] Hnin. cbv zeta. unfold settleOne. simpl.
  destruct (decided_put (bt_id tr) w false now (tb_decided b)) as [held d] eqn:Ep.
  destruct (decided_put_spec _ _ _ _ _ _ _ (wb_decided _ Hw) Ep)
    as (Hd & _ & Hheld & Hh & Hlate & _ & Httl & Hev & [s Hs] & Hoth).
  set (id := bt_id tr) in *. set (b1 := set_tb_decided d b).
  assert (wfBuf b1) as Hw1.
  { destruct Hw. split; simpl; rewrite ?Hh, ?Httl; try done.
    - intros i Hi. destruct (decide (id = i)) as [<-|]; [apply lookup_delete_eq|].
      rewrite lookup_delete_ne by done. auto.
    - intros i l [_ Hi]%lookup_delete_Some. eauto. }
  assert (forall F, moves F b (held ++ F) b1) as Hm1.
  { intros F. split; intros; unfold inside, outM; simpl; rewrite Hh, Hlate, sumBy_app,
      mapSum_delete_lookup, Hheld; destruct (dt_held (tb_decided b) !! id); simpl; lia. }
  assert (Forall (fun r => sr_TraceID r = id) held) as Hids.
  { rewrite Hheld. destruct (dt_held (tb_decided b) !! id) eqn:E; [|constructor].
    by apply (wb_heldid _ Hw). }
  assert (pendingAt id b1 = Some false) as Hp1.
  { unfold pendingAt. simpl. by rewrite Hs. }
  pose proof (fun F => followHeld_spec id held F b1 Hw1 Hids Hp1) as HF. cbv zeta in HF.
  destruct (HF []) as (Hw2 & _ & Ht2 & Ho2 & Hr2 & Hc2 & He2 & Hpd2 & Hh2).
  generalize dependent (foldl followLate b1 held). intros b2 HF Hw2 Ht2 Ho2 Hr2 Hc2 He2 Hpd2 Hh2.
  assert (forall i, i <> id -> pendingAt i b1 = pendingAt i b \/
    (pendingAt i b1 = None /\ dt_evicted (tb_decided b) < dt_evicted d)) as Hoth1.
  { intros i Hi. unfold pendingAt. simpl. destruct (Hoth i Hi) as [->|[-> ?]]; auto. }
  simpl in He2. split_and!; try done; [| |lia].
  - intros F. eapply moves_trans; [apply Hm1|]. by destruct (HF F) as (_ & ? & _).
  - split.
    + intros i Hi. rewrite Hpd2 in Hi. destruct (decide (i = id)) as [->|Hne]; [congruence|].
      destruct (Hoth1 i Hne) as [E|[E _]]; rewrite E in Hi; [|done].
      apply P1, elem_of_cons in Hi as [?|?]; done.
    + intros i Hi. apply Hh2 in Hi. simpl in Hi. rewrite Hh in Hi.
      destruct Hi as [x [Hne Hi]%lookup_delete_Some].
      assert (i ∈ id :: P) as Hin by eauto. apply elem_of_cons in Hin as [?|?]; congruence.
    + lia.
    + intros He0. destruct (P4 ltac:(lia)) as [Q1 Q2]. split.
      * intros i Hi. rewrite Hpd2. assert (i <> id) as Hne by congruence.
        destruct (Hoth1 i Hne) as [E|[_ E]]; [|lia]. rewrite E. apply Q1. by right.
      * intros i Hi. rewrite Ht2 in Hi. simpl in Hi. apply Q2 in Hi as Hm.
        assert (i <> id) as Hne.
        { intros ->. specialize (Q1 id ltac:(by left)). unfold pendingAt in Q1. by rewrite Hm in Q1. }
        specialize (Hpd2 i). destruct (Hoth1 i Hne) as [E|[_ E]]; [|lia].
        rewrite E in Hpd2. unfold pendingAt in Hpd2. rewrite Hm in Hpd2.
        by apply fmap_None in Hpd2.
Qed.

Lemma settleLoop_spec now trws : forall P b,
  wfBuf b -> pendingInv ((bt_id <$> trws.*1) ++ P) b -> NoDup ((bt_id <$> trws.*1) ++ P) ->
  let b' := foldl (settleOne now) b trws in
  wfBuf b' /\ (forall F, moves F b F b') /\ pendingInv P b' /\
  tb_traces b' = tb_traces b /\ tb_out b' = tb_out b /\
  tb_rescuedAtCap b' = tb_rescuedAtCap b /\ tb_carry b' = tb_carry b /\
  dt_evicted (tb_decided b) <= dt_evicted (tb_decided b').
Proof.
  induction trws as [|[tr w] trws IH]; intros P b Hw Hp Hnd; cbv zeta; [by split_and!|].
  simpl in Hp, Hnd. apply NoDup_cons in Hnd as [Hn Hnd].
  destruct (settleOne_spec now tr w _ b Hw Hp Hn) as (Hw1 & Hm1 & Hp1 & ? & ? & ? & ? & ?).
  cbn [foldl]. set (b1 := settleOne now b (tr, w)) in *.
  destruct (IH P b1 Hw1 Hp1 Hnd) as (Hw2 & Hm2 & Hp2 & ? & ? & ? & ? & ?).
  split_and!; try done; try congruence; [|lia].
  intros F. by eapply moves_trans.
Qed.

Lemma settle_spec trs ws now late b b' :
  wfBuf b -> pendingInv (bt_id <$> trs) b -> NoDup (bt_id <$> trs) -> length ws = length trs ->
  settle trs ws now b = (late, b') ->
  wfBuf b' /\ (forall F, moves F b (late ++ F) b') /\ pendingInv [] b' /\
  tb_traces b' = tb_traces b /\ tb_out b' = tb_out b /\
  tb_rescuedAtCap b' = tb_rescuedAtCap b /\ tb_carry b' = tb_carry b /\
  dt_late (tb_decided b') = [] /\ dt_held (tb_decided b') = ∅ /\
  dt_evicted (tb_decided b) <= dt_evicted (tb_decided b').
Proof.
  intros Hw Hp Hnd Hlen. unfold settle.
  assert ((zip trs ws).*1 = trs) as Hz by (apply fst_zip; lia).
  destruct (settleLoop_spec now (zip trs ws) [] b Hw) as (Hw1 & Hm1 & Hp1 & Ht & Ho & Hr & Hc & He).
  { by rewrite Hz, app_nil_r. }
  { by rewrite Hz, app_nil_r. }
  generalize dependent (foldl (settleOne now) b (zip trs ws)).
  intros b1 Hw1 Hm1 Hp1 Ht Ho Hr Hc He. simpl. intros [= <- <-]. simpl.
  split_and!; try done.
  - pose proof (wb_decided _ Hw1) as [? ? ? ?].
    destruct Hw1; split; simpl; try done.
  - intros F. eapply moves_trans; [apply Hm1|].
    split; intros; unfold inside, outM; simpl; rewrite sumBy_app; lia.
  - destruct Hp1 as [Q1 Q2 Q3 Q4]. split; done.
  - apply map_empty. intros id. destruct (dt_held (tb_decided b1) !! id) eqn:E; [|done].
    exfalso. apply (not_elem_of_nil id). apply (pi_held _ _ Hp1). eauto.
Qed.

(** ** Delivery *)

Lemma deliverOne_spec ok spans b :
  wfBuf b ->
  let b' := deliverOne ok spans b in
  wfBuf b' /\ tb_traces b' = tb_traces b /\ tb_decided b' = tb_decided b /\
  tb_rescuedAtCap b' = tb_rescuedAtCap b /\ tb_carry b' = tb_carry b /\
  (forall k F, unexited k (tb_ledger b') - inside (keyM k) b' - sumBy (keyM k) F =
     unexited k (tb_ledger b) - inside (keyM k) b - sumBy (keyM k) (spans ++ F)) /\
  (forall mu, outM mu b' = outM mu b + (if ok then sumBy mu spans else 0)).
Proof.
  intros Hw. cbv zeta. destruct (wb_ledger _ Hw) as [Hl Hs]. unfold deliverOne.
  destruct ok; (split_and!; try done).
  1, 4: destruct Hw; split; try done; simpl;
    split; [by apply wfLedger_AddSpans|by apply is_Some_AddSpans].
  - intros k F. simpl. rewrite unexited_AddSpans, sumBy_app by done.
    unfold inside. simpl. lia.
  - intros mu. unfold outM. simpl. rewrite sumBy_app. simpl. lia.
  - intros k F. simpl. rewrite unexited_AddSpans, sumBy_app by done.
    unfold inside. simpl. lia.
  - intros mu. unfold outM. simpl. lia.
Qed.

Lemma deliverLoop_spec accepts batches : forall i F b sent lost b',
  wfBuf b -> deliverLoop accepts i batches b = (sent, lost, b') ->
  wfBuf b' /\ tb_traces b' = tb_traces b /\ tb_decided b' = tb_decided b /\
  tb_rescuedAtCap b' = tb_rescuedAtCap b /\ tb_carry b' = tb_carry b /\
  (forall k, unexited k (tb_ledger b') - inside (keyM k) b' - sumBy (keyM k) F =
     unexited k (tb_ledger b) - inside (keyM k) b - sumBy (keyM k) (concat batches ++ F)) /\
  sent + lost = Z.of_nat (length (concat batches)) /\ 0 <= lost /\
  ((forall j, accepts j = true) -> lost = 0 /\
     forall mu, outM mu b' = outM mu b + sumBy mu (concat batches)).
Proof.
  induction batches as [|spans batches IH]; intros i F b sent lost b' Hw H.
  { simpl in H. injection H as <- <- <-. split_and!; try done.
    intros _. split; [done|]. intros mu. simpl. lia. }
  cbn [deliverLoop] in H. cbv zeta in H.
  destruct (deliverOne_spec (accepts i) spans b Hw) as (Hw1 & T1 & D1 & R1 & C1 & L1 & O1).
  destruct (deliverLoop accepts (S i) batches _) as [[s1 l1] b1] eqn:E1.
  destruct (IH _ F _ _ _ _ Hw1 E1) as (Hw2 & T2 & D2 & R2 & C2 & L2 & S2 & N2 & O2).
  cbn [concat]. rewrite length_app, Nat2Z.inj_add.
  assert (b' = b1 /\ sent + lost = Z.of_nat (length spans) + (s1 + l1) /\ 0 <= lost /\
    (accepts i = true -> lost = l1)) as (-> & E2 & E3 & E4).
  { destruct (accepts i); injection H as <- <- <-; split_and!; try done; lia. }
  split_and!; try congruence; try lia.
  - intros k. rewrite L2, L1. rewrite !sumBy_app. lia.
  - intros Hall. destruct (O2 Hall) as [-> O3]. rewrite E4 by done. split; [done|].
    intros mu. rewrite O3, O1, Hall, sumBy_app. lia.
Qed.

Lemma deliverBatches_concat mu kept late :
  sumBy mu (concat (deliverBatches kept late)) = sumBy mu (spansOf kept ++ late).
Proof.
  unfold deliverBatches. rewrite concat_app, !sumBy_app. fold (spansOf kept). f_equal.
  destruct late; simpl; [done|]. by rewrite app_nil_r.
Qed.

Lemma decideLoop_spec now trs : forall F b ws ks b',
  wfBuf b -> Forall latched trs -> decideLoop trs now b = (ws, ks, b') ->
  wfBuf b' /\ sameTables b b' /\ tb_rescuedAtCap b' = tb_rescuedAtCap b /\
  length ws = length trs /\ moves (spansOf trs ++ F) b (spansOf ks ++ F) b'.
Proof.
  induction trs as [|tr trs IH]; intros F b ws ks b' Hw Hl H; simpl in H.
  { injection H as <- <- <-. by split_and!. }
  apply Forall_cons in Hl as [Hl1 Hl].
  destruct (decideOne tr now b) as [[w k] b1] eqn:E1.
  destruct (decideLoop trs now b1) as [[ws1 ks1] b2] eqn:E2. injection H as <- <- <-.
  destruct (decideOne_spec _ _ _ _ _ _ Hw Hl1 E1) as (Hw1 & T1 & R1 & _ & _ & _ & M1).
  destruct (IH (spansOf (option_list k) ++ F) _ _ _ _ Hw1 Hl E2) as (Hw2 & T2 & R2 & L2 & M2).
  split; [done|]. split; [by eapply sameTables_trans|].
  split_and!; [congruence|simpl; congruence|].
  eapply moves_trans; [|eapply moves_perm; [done| |exact M2]].
  - eapply moves_perm; [| |apply (M1 (spansOf trs ++ F))].
    + intros mu. change (spansOf (tr :: trs)) with (bt_spans tr ++ spansOf trs).
      rewrite !sumBy_app. lia.
    + intros mu. rewrite !sumBy_app. lia.
  - intros mu. rewrite !sumBy_app, !sumBy_spansOf, sumBy_app. lia.
Qed.

(** ** A whole flush *)

Record flushes (all : bool) (b b' : TraceBuffer) : Prop := {
  fs_wf : wfBuf b';
  fs_pending : pendingInv [] b';
  fs_ledger : forall k, unexited k (tb_ledger b') - inside (keyM k) b' =
    unexited k (tb_ledger b) - inside (keyM k) b;
  fs_empty : tb_rescuedAtCap b' = [] /\ dt_late (tb_decided b') = [] /\
    dt_held (tb_decided b') = ∅;
  fs_all : all = true -> tb_traces b' = ∅ /\ ct_m (tb_carry b') = ∅;
}.

Lemma flush_spec accepts now all b sent b' :
  wfBuf b -> pendingInv [] b -> flush accepts now all b = (sent, b') ->
  flushes all b b' /\
  ((forall j, accepts j = true) -> forall mu, weightFree mu -> errorOnly mu ->
     inside mu b' + outM mu b' = inside mu b + outM mu b).
Proof.
  intros Hw Hp. unfold flush, deliverAll.
  destruct (flushBegin now all b) as [[[trs kept] loss] b1] eqn:E1.
  pose proof (flushBegin_spec _ _ _ _ _ _ _ Hw Hp E1) as [Hw1 M1 Hp1 Hl1 K1 R1 C1 O1 T1 _].
  assert (NoDup (bt_id <$> trs)) as Hnd.
  { rewrite flushBegin_eq in E1. cbv zeta in E1.
    destruct (beginTail _ _) as [[? ?] ?]. injection E1 as <- _ _ _. by apply toDecide_nodup. }
  destruct (decideLoop trs now b1) as [[ws ks] b2] eqn:E2.
  destruct (decideLoop_spec _ _ (spansOf kept) _ _ _ _ Hw1 Hl1 E2) as (Hw2 & T2 & R2 & L2 & M2).
  destruct (flushCarriers now all b2) as [cs b3] eqn:E3.
  destruct (flushCarriers_spec _ _ _ _ _ Hw2 E3) as (Hw3 & T3 & R3 & C3 & M3).
  destruct (settle trs ws now b3) as [late b4] eqn:E4.
  pose proof (sameTables_trans _ _ _ T2 T3) as (Et & Ed & _ & _ & _ & _).
  destruct (settle_spec _ _ _ _ _ _ Hw3 (pendingInv_same _ _ _ Ed Et Hp1) Hnd L2 E4)
    as (Hw4 & M4 & Hp4 & T4 & O4 & R4 & C4 & Lt4 & H4 & _).
  destruct (deliverLoop accepts 0 _ b4) as [[s lost] b5] eqn:E5. intros [= <- <-].
  destruct (deliverLoop_spec _ _ _ [] _ _ _ _ Hw4 E5) as (Hw5 & T5 & D5 & R5 & C5 & L5 & _ & _ & O5).
  set (b6 := if 0 <? lost then _ else b5).
  assert (sameCore b5 b6) as Hc by (unfold b6; case_match; solve_core).
  assert (moves [] b (spansOf (kept ++ ks ++ cs) ++ late ++ []) b4) as MM.
  { pose proof (moves_trans _ _ _ _ _ _ M2 (M3 _)) as M23.
    pose proof (moves_trans _ _ _ _ _ _ M23 (M4 _)) as M24.
    assert (moves [] b (spansOf trs ++ spansOf kept) b1) as M1'.
    { apply (moves_perm [] [] b b1 (spansOf trs ++ spansOf kept ++ []) _); [done| |apply M1].
      intros mu. by rewrite app_nil_r. }
    refine (moves_perm [] [] b b4 _ _ _ _ (moves_trans _ _ _ _ _ _ M1' M24)); [done|].
    intros mu. rewrite app_nil_r, !sumBy_app, !sumBy_spansOf, !sumBy_app. lia. }
  destruct MM as [ML ME]. split; [split|].
  - by eapply sameCore_wf.
  - destruct Hc as (Et6 & _ & _ & _ & _ & _ & Ed6 & _).
    eapply pendingInv_same; [| |exact Hp4]; congruence.
  - intros k. rewrite (sameCore_inside _ _ _ Hc).
    destruct Hc as (_ & _ & _ & _ & _ & _ & _ & -> & _).
    specialize (L5 k). specialize (ML k).
    rewrite app_nil_r in *. rewrite deliverBatches_concat in L5.
    rewrite sumBy_app in *. simpl in *. lia.
  - destruct Hc as (_ & _ & _ & _ & _ & -> & -> & _). rewrite R5, D5. split_and!; try done.
    rewrite R4, R3, R2. done.
  - intros Hall. destruct Hc as (-> & _ & _ & _ & -> & _). rewrite T5, C5, T4, C4.
    split; [|by apply C3]. rewrite Et. by apply T1.
  - intros Hacc mu H1 H2. rewrite (sameCore_inside _ _ _ Hc).
    assert (outM mu b6 = outM mu b5) as ->.
    { destruct Hc as (_ & _ & _ & _ & _ & _ & _ & _ & Eo). unfold outM. by rewrite Eo. }
    destruct (O5 Hacc) as [_ O6]. rewrite O6, deliverBatches_concat.
    specialize (ME mu H1 H2). rewrite !sumBy_app in *. simpl in *.
    unfold inside in *. rewrite T5, D5, R5. lia.
Qed.
