(* ===== verification/BufferSteps.v ===== *)
(** * Runs of the trace buffer

    Two kinds of runs.  [runBuf] composes the public operations one after the
    other.  [step] interleaves [Add] with the phases of one flush in progress:
    the gc goroutine decides traces outside the buffer's lock while ingest
    keeps adding spans.  The theorems say where every span goes. *)
From S2P Require Import Prelude Model SpanLedger Sampling TraceSampling Carry Decided.
From S2P Require Import TraceBuffer BufferInv BufferFlush.

(** ** Operations one after the other *)

Inductive bufOp :=
  | BAdd (rec : SpanRecord) (now : Z)
  | BFlush (accepts : nat -> bool) (now : Z)
  | BRootGrace (d : Z)
  | BSettings (lookup : option (Z -> string -> Z))
  | BFloorGC (nowUs : Z).

(** [BSettings] is the lookup's answers changing; [BFloorGC] is the floor's own
    garbage collection goroutine. *)
Definition bufStep (b : TraceBuffer) (o : bufOp) : TraceBuffer :=
  match o with
  | BAdd rec now => Add rec now b
  | BFlush accepts now => Flush accepts now b
  | BRootGrace d => SetRootGrace d b
  | BSettings lookup => set_tb_lookup lookup b
  | BFloorGC nowUs => set_tb_floor ((fun f => MinuteFloor_gc f nowUs) <$> tb_floor b) b
  end.

Definition runBuf (b : TraceBuffer) (os : list bufOp) : TraceBuffer := foldl bufStep b os.

(** A buffer as it is built, with a fresh ledger. *)
Definition freshBuffer (ttl maxSpans : Z) (rules : RescueRules)
  (lookup : option (Z -> string -> Z)) : TraceBuffer :=
  SetLedger (Some Tally_New) (NewTraceBufferWithRules ttl maxSpans rules lookup).

(** The spans a run adds, and whether every delivery of it succeeds. *)
Definition addedSpans (os : list bufOp) : list SpanRecord :=
  omap (fun o => match o with BAdd rec _ => Some rec | _ => None end) os.

Definition alwaysAccepts (o : bufOp) : Prop :=
  match o with BFlush accepts _ => forall i, accepts i = true | _ => True end.

Definition bufInv (b : TraceBuffer) : Prop := wfBuf b /\ pendingInv [] b.

Lemma bufInv_fresh ttl maxSpans rules lookup :
  bufInv (freshBuffer ttl maxSpans rules lookup).
Proof. split; [apply wfBuf_new|apply pendingInv_new]. Qed.

Lemma bufInv_core b b' :
  sameCore b b' -> bufInv b -> bufInv b'.
Proof.
  intros Hc [Hw Hp]. split; [by eapply sameCore_wf|].
  destruct Hc as (E1 & _ & _ & _ & _ & _ & E7 & _). by eapply pendingInv_same.
Qed.

Lemma bufStep_spec b o :
  bufInv b ->
  bufInv (bufStep b o) /\
  (forall k, unexited k (tb_ledger (bufStep b o)) - inside (keyM k) (bufStep b o) =
     unexited k (tb_ledger b) - inside (keyM k) b) /\
  (alwaysAccepts o -> forall mu, weightFree mu -> errorOnly mu ->
     inside mu (bufStep b o) + outM mu (bufStep b o) =
     inside mu b + outM mu b + sumBy mu (addedSpans [o])).
Proof.
  intros [Hw Hp].
  assert (forall b', sameCore b b' -> bufInv b' /\
    (forall k, unexited k (tb_ledger b') - inside (keyM k) b' =
       unexited k (tb_ledger b) - inside (keyM k) b) /\
    (alwaysAccepts o -> forall mu, weightFree mu -> errorOnly mu ->
       inside mu b' + outM mu b' = inside mu b + outM mu b + 0)) as Hsame.
  { intros b' Hc. split; [by eapply bufInv_core|].
    split; intros; rewrite (sameCore_inside _ _ _ Hc);
      destruct Hc as (E1 & E2 & E3 & E4 & E5 & E6 & E7 & E8 & E9);
      unfold outM; rewrite ?E8, ?E9; lia. }
  destruct o as [rec now|accepts now|d|lookup|nowUs]; simpl.
  - destruct (Add_pending [] rec now b Hw Hp (or_introl eq_refl)) as [Ha Hp'].
    split; [split; [apply Ha|done]|]. split; [apply Ha|].
    intros _ mu H1 H2. unfold addedSpans. simpl. rewrite (as_errors _ _ _ Ha mu H1 H2). lia.
  - unfold Flush. destruct (flush accepts now false b) as [sent b'] eqn:E.
    destruct (flush_spec _ _ _ _ _ _ Hw Hp E) as [[F1 F2 F3 _ _] Herr]. simpl.
    split; [done|split; [done|]]. intros Hacc mu H1 H2. rewrite (Herr Hacc mu H1 H2).
    unfold addedSpans. simpl. lia.
  - apply (Hsame (SetRootGrace d b)). solve_core.
  - apply (Hsame (set_tb_lookup lookup b)). solve_core.
  - apply (Hsame (set_tb_floor _ b)). solve_core.
Qed.

Lemma runBuf_spec os : forall b,
  bufInv b ->
  bufInv (runBuf b os) /\
  (forall k, unexited k (tb_ledger (runBuf b os)) - inside (keyM k) (runBuf b os) =
     unexited k (tb_ledger b) - inside (keyM k) b) /\
  (Forall alwaysAccepts os -> forall mu, weightFree mu -> errorOnly mu ->
     inside mu (runBuf b os) + outM mu (runBuf b os) =
     inside mu b + outM mu b + sumBy mu (addedSpans os)).
Proof.
  unfold runBuf. induction os as [|o os IH]; intros b Hb.
  { simpl. split; [done|split; [done|]]. intros. unfold addedSpans. simpl. lia. }
  cbn [foldl]. destruct (bufStep_spec b o Hb) as (H1 & H2 & H3).
  destruct (IH _ H1) as (H4 & H5 & H6). split; [done|]. split.
  - intros k. by rewrite H5, H2.
  - intros [Ho Hos]%Forall_cons mu Hm He. rewrite (H6 Hos mu Hm He), (H3 Ho mu Hm He).
    assert (addedSpans (o :: os) = addedSpans [o] ++ addedSpans os) as ->.
    { unfold addedSpans. by destruct o. }
    rewrite sumBy_app. lia.
Qed.

Lemma fresh_ledger ttl maxSpans rules lookup k :
  unexited k (tb_ledger (freshBuffer ttl maxSpans rules lookup)) -
  inside (keyM k) (freshBuffer ttl maxSpans rules lookup) = 0.
Proof.
  unfold inside. simpl. rewrite !mapSum_empty. unfold unexited, exits, ledgerCount. simpl.
  unfold Tally_row. simpl. rewrite lookup_empty. simpl. done.
Qed.

Lemma inside_empty mu b :
  tb_traces b = ∅ -> tb_rescuedAtCap b = [] -> dt_held (tb_decided b) = ∅ ->
  dt_late (tb_decided b) = [] -> inside mu b = 0.
Proof. unfold inside. intros -> -> -> ->. rewrite !mapSum_empty. done. Qed.

(** [Close] on a buffer that was not closed empties it. *)
Lemma Close_spec accepts now b res b' :
  bufInv b -> tb_closed b = false -> Close accepts now b = (res, b') ->
  bufInv b' /\ (forall mu, inside mu b' = 0) /\ ct_m (tb_carry b') = ∅ /\
  (forall k, unexited k (tb_ledger b') = unexited k (tb_ledger b) - inside (keyM k) b) /\
  ((forall j, accepts j = true) -> forall mu, weightFree mu -> errorOnly mu ->
     outM mu b' = inside mu b + outM mu b).
Proof.
  intros [Hw Hp] Hc. unfold Close, finish. rewrite Hc.
  destruct (flush accepts now true b) as [sent b1] eqn:E. intros [= <- <-].
  destruct (flush_spec _ _ _ _ _ _ Hw Hp E) as [[F1 F2 F3 (R & L & H) F5] Herr].
  destruct (F5 eq_refl) as [T C].
  assert (forall mu, inside mu (set_tb_closed true b1) = 0) as H0.
  { intros mu. by apply inside_empty. }
  assert (forall mu, inside mu b1 = 0) as H1 by (intros mu; by apply inside_empty).
  split; [apply (bufInv_core b1); [solve_core|done]|].
  split; [done|]. split; [done|]. split.
  - intros k. specialize (F3 k). rewrite H1 in F3. simpl. lia.
  - intros Ha mu Hm He. specialize (Herr Ha mu Hm He). rewrite H1 in Herr.
    unfold outM in *. simpl. lia.
Qed.

(** ** [closeOnce] is only done by [Close] and [Drain] *)

Lemma foldl_closed {A} (f : TraceBuffer -> A -> TraceBuffer) l :
  (forall b a, tb_closed (f b a) = tb_closed b) ->
  forall b, tb_closed (foldl f b l) = tb_closed b.
Proof. intros Hf. induction l as [|a l IH]; intros b; simpl; [done|]. by rewrite IH, Hf. Qed.

Lemma keepWeight_closed tr now b : tb_closed (keepWeight tr now b).2 = tb_closed b.
Proof.
  destruct (keepWeight tr now b) as [w b'] eqn:E.
  by destruct (keepWeight_frame _ _ _ _ _ E) as (f & c & -> & _).
Qed.

Lemma evictOne_closed keep now b : tb_closed (evictOne keep now b).2 = tb_closed b.
Proof.
  unfold evictOne, rescueAtCap.
  destruct (nextVictim _ _ _ _ _) as [[tr|] [q h]].
  - pose proof (keepWeight_closed tr now (tb_remove tr (set_tb_sacrifice q h b))) as Hk.
    destruct (keepWeight _ _ _) as [w b1]. destruct (w =? 0); exact Hk.
  - destruct (nextVictim _ _ _ _ _) as [[tr|] [q2 h2]]; done.
Qed.

Lemma ensureRoomLoop_closed fuel keep now : forall b,
  tb_closed (ensureRoomLoop fuel keep now b).2 = tb_closed b.
Proof.
  induction fuel as [|fuel IH]; intros b; cbn [ensureRoomLoop]; [by case_match|].
  destruct (_ && _); [|done].
  pose proof (evictOne_closed keep now b) as He.
  destruct (evictOne keep now b) as [[] b1]; simpl in *; [by rewrite IH|done].
Qed.

Lemma Add_closed rec now b : tb_closed (Add rec now b) = tb_closed b.
Proof.
  assert (forall otr b, tb_closed (addBuffered rec now otr b) = tb_closed b) as Hb.
  { clear b. intros otr b. unfold addBuffered, ensureRoom.
    pose proof (ensureRoomLoop_closed (S (size (tb_traces b))) (bt_id <$> otr) now b) as He.
    destruct (ensureRoomLoop _ _ _ b) as [room b1]. simpl in He. destruct (_ && _); [done|].
    destruct otr as [tr|]; [|unfold newTrace; cbv zeta];
      match goal with |- context [appendSpan rec now ?t ?x] =>
        destruct (appendSpan_frame rec now t x) as (? & ? & ? & -> & _) end; [done|].
    simpl. rewrite <- He. by destruct (negb _). }
  rewrite Add_eq. cbv zeta. destruct (tb_traces b !! _); [by rewrite Hb|].
  destruct (decided_follow _ _ _) as [[[] d] lg]; [done|]. by rewrite Hb.
Qed.

Lemma decideLoop_closed now trs : forall b, tb_closed (decideLoop trs now b).2 = tb_closed b.
Proof.
  induction trs as [|tr trs IH]; intros b; simpl; [done|]. unfold decideOne.
  pose proof (keepWeight_closed tr now b) as Hk.
  destruct (keepWeight tr now b) as [w b1]. simpl in Hk.
  destruct (0 <? w).
  - specialize (IH b1). destruct (decideLoop trs now b1) as [[? ?] ?]. simpl in *. congruence.
  - specialize (IH (dropTrace tr SampledOut now b1)).
    destruct (decideLoop trs now _) as [[? ?] ?]. simpl in *. congruence.
Qed.

Lemma deliverLoop_closed accepts batches : forall i b,
  tb_closed (deliverLoop accepts i batches b).2 = tb_closed b.
Proof.
  induction batches as [|l batches IH]; intros i b; simpl; [done|].
  specialize (IH (S i) (deliverOne (accepts i) l b)).
  destruct (deliverLoop _ _ _ _) as [[? ?] ?]. unfold deliverOne in IH.
  destruct (accepts i); done.
Qed.

Lemma flushBegin_closed now all b : tb_closed (flushBegin now all b).2 = tb_closed b.
Proof.
  rewrite flushBegin_eq. cbv zeta.
  rewrite <- (foldl_closed (beginOne now) (toDecide now all b) (fun _ _ => eq_refl) b).
  generalize (foldl (beginOne now) b (toDecide now all b)). intros b1.
  unfold beginTail, takeLossWindow. cbv zeta. by destruct (observe _ _ _).
Qed.

Lemma flushCarriers_closed now all b : tb_closed (flushCarriers now all b).2 = tb_closed b.
Proof.
  unfold flushCarriers, ledgerCarriers. destruct (carry_expired now all (tb_carry b)) as [cs c].
  cbn [snd]. by rewrite foldl_closed.
Qed.

Lemma settle_closed trs ws now b : tb_closed (settle trs ws now b).2 = tb_closed b.
Proof.
  unfold settle. cbv zeta. unfold decided_takeLate. cbn [snd tb_closed set_tb_decided].
  apply foldl_closed. intros b0 [tr w]. unfold settleOne. simpl.
  destruct (decided_put _ _ _ _ _) as [held d].
  rewrite foldl_closed; [done|]. intros b5 r. unfold followLate.
  by destruct (decided_follow _ _ _) as [[? ?] ?].
Qed.

Lemma deliverAll_closed accepts kept late b :
  tb_closed (deliverAll accepts kept late b).2 = tb_closed b.
Proof.
  unfold deliverAll. pose proof (deliverLoop_closed accepts (deliverBatches kept late) 0 b) as H.
  destruct (deliverLoop _ _ _ _) as [[sent lost] b1]. simpl in *. by destruct (0 <? lost).
Qed.

Lemma flush_closed accepts now all b : tb_closed (flush accepts now all b).2 = tb_closed b.
Proof.
  unfold flush. pose proof (flushBegin_closed now all b) as H1.
  destruct (flushBegin now all b) as [[[trs kept] loss] b1].
  pose proof (decideLoop_closed now trs b1) as H2.
  destruct (decideLoop trs now b1) as [[ws ks] b2].
  pose proof (flushCarriers_closed now all b2) as H3.
  destruct (flushCarriers now all b2) as [cs b3].
  pose proof (settle_closed trs ws now b3) as H4.
  destruct (settle trs ws now b3) as [late b4].
  rewrite deliverAll_closed. cbn [snd] in *. congruence.
Qed.

Lemma runBuf_closed os : forall b, tb_closed (runBuf b os) = tb_closed b.
Proof.
  apply foldl_closed. intros b []; simpl; try done; [apply Add_closed|apply flush_closed].
Qed.

(** ** Ingest and the gc goroutine interleaved *)

(** Where the goroutine that flushes is. *)
Inductive flight :=
  | Idle
  | Deciding (now : Z) (all : bool) (todo : list bufferedTrace)
      (done : list (bufferedTrace * Z)) (kept : list bufferedTrace)
  | Settling (now : Z) (done : list (bufferedTrace * Z)) (kept : list bufferedTrace)
  | Delivering (batches : list (list SpanRecord)) (lost : Z).

(** The buffer, the flush in progress, and two records of what happened: the
    spans added and the batches whose delivery timed out. *)
Record sys := mkSys {
  s_buf : TraceBuffer;
  s_flight : flight;
  s_added : list SpanRecord;
  s_undelivered : list (list SpanRecord);
}.

Inductive step : sys -> sys -> Prop :=
  | step_add rec now b fl ad un :
      step (mkSys b fl ad un) (mkSys (Add rec now b) fl (ad ++ [rec]) un)
  | step_begin now all b trs kept loss b' ad un :
      flushBegin now all b = (trs, kept, loss, b') ->
      step (mkSys b Idle ad un) (mkSys b' (Deciding now all trs [] kept) ad un)
  | step_decide now all tr todo dn kept b w k b' ad un :
      decideOne tr now b = (w, k, b') ->
      step (mkSys b (Deciding now all (tr :: todo) dn kept) ad un)
           (mkSys b' (Deciding now all todo (dn ++ [(tr, w)]) (kept ++ option_list k)) ad un)
  | step_carriers now all dn kept b cs b' ad un :
      flushCarriers now all b = (cs, b') ->
      step (mkSys b (Deciding now all [] dn kept) ad un)
           (mkSys b' (Settling now dn (kept ++ cs)) ad un)
  | step_settle now dn kept b late b' ad un :
      settle dn.*1 dn.*2 now b = (late, b') ->
      step (mkSys b (Settling now dn kept) ad un)
           (mkSys b' (Delivering (deliverBatches kept late) 0) ad un)
  | step_deliver ok spans batches lost b ad un :
      step (mkSys b (Delivering (spans :: batches) lost) ad un)
           (mkSys (deliverOne ok spans b)
              (Delivering batches (if ok then lost else Z.of_nat (length spans) + lost)) ad
              (if ok then un else un ++ [spans]))
  | step_flushed lost b ad un :
      step (mkSys b (Delivering [] lost) ad un)
           (mkSys (if 0 <? lost then set_tb_undeliverTotal (tb_undeliverTotal b + lost) b
                   else b) Idle ad un)
  | step_settings lookup b fl ad un :
      step (mkSys b fl ad un) (mkSys (set_tb_lookup lookup b) fl ad un)
  | step_rootGrace d b fl ad un :
      step (mkSys b fl ad un) (mkSys (SetRootGrace d b) fl ad un)
  | step_floorGC nowUs b fl ad un :
      step (mkSys b fl ad un)
        (mkSys (set_tb_floor ((fun f => MinuteFloor_gc f nowUs) <$> tb_floor b) b) fl ad un).

(** A step after which [Stats] still reports no decision dropped by the cap. *)
Definition quietStep (s s' : sys) : Prop :=
  step s s' /\ bs_DecidedEvicted (Stats (s_buf s')) = 0.

(** The spans in the hands of the flushing goroutine, and the ids it decides. *)
Definition flightSpans (fl : flight) : list SpanRecord :=
  match fl with
  | Idle => []
  | Deciding _ _ todo _ kept => spansOf todo ++ spansOf kept
  | Settling _ _ kept => spansOf kept
  | Delivering batches _ => concat batches
  end.

Definition flightIds (fl : flight) : list string :=
  match fl with
  | Deciding _ _ todo dn _ => (bt_id <$> dn.*1) ++ (bt_id <$> todo)
  | Settling _ dn _ => bt_id <$> dn.*1
  | _ => []
  end.

Definition flightTodo (fl : flight) : list bufferedTrace :=
  match fl with Deciding _ _ todo _ _ => todo | _ => [] end.

Record sysInv (s : sys) : Prop := {
  si_wf : wfBuf (s_buf s);
  si_pending : pendingInv (flightIds (s_flight s)) (s_buf s);
  si_nodup : NoDup (flightIds (s_flight s));
  si_latched : Forall latched (flightTodo (s_flight s));
  si_ledger : forall k, unexited k (tb_ledger (s_buf s)) =
    inside (keyM k) (s_buf s) + sumBy (keyM k) (flightSpans (s_flight s));
  si_errors : forall mu, weightFree mu -> errorOnly mu ->
    sumBy mu (s_added s) =
    inside mu (s_buf s) + sumBy mu (flightSpans (s_flight s)) + outM mu (s_buf s) +
    sumBy (sumBy mu) (s_undelivered s);
}.

(** A step that moves spans between the buffer and the hand. *)
Lemma sysInv_moves b fl ad un b' fl' :
  sysInv (mkSys b fl ad un) -> wfBuf b' -> pendingInv (flightIds fl') b' ->
  NoDup (flightIds fl') -> Forall latched (flightTodo fl') ->
  moves (flightSpans fl) b (flightSpans fl') b' ->
  sysInv (mkSys b' fl' ad un).
Proof.
  intros [_ _ _ _ L E] Hw Hp Hnd Hl [ML ME]. simpl in *. split; simpl; try done.
  - intros k. specialize (L k). specialize (ML k). lia.
  - intros mu H1 H2. specialize (E mu H1 H2). specialize (ME mu H1 H2). lia.
Qed.

Lemma sysInv_core b fl ad un b' :
  sameCore b b' -> sysInv (mkSys b fl ad un) -> sysInv (mkSys b' fl ad un).
Proof.
  intros Hc Hs. pose proof Hs as [Hw Hp Hn Hl _ _]. simpl in *.
  apply (sysInv_moves b fl ad un); try done.
  - by eapply sameCore_wf.
  - destruct Hc as (E1 & _ & _ & _ & _ & _ & E7 & _). by eapply pendingInv_same.
  - by apply sameCore_moves.
Qed.

Lemma sysInv_add rec now b fl ad un :
  sysInv (mkSys b fl ad un) -> dt_evicted (tb_decided (Add rec now b)) = 0 ->
  sysInv (mkSys (Add rec now b) fl (ad ++ [rec]) un).
Proof.
  intros [Hw Hp Hn Hl L E] Hev. simpl in *.
  pose proof (Add_evicted_mono rec now b Hw). pose proof (pi_evicted _ _ Hp).
  destruct (Add_pending _ rec now b Hw Hp) as [Ha Hp']; [right; lia|].
  split; simpl; try done.
  - apply Ha.
  - intros k. specialize (L k). pose proof (as_ledger _ _ _ Ha k). lia.
  - intros mu H1 H2. specialize (E mu H1 H2). rewrite sumBy_app. simpl.
    pose proof (as_errors _ _ _ Ha mu H1 H2). lia.
Qed.

Lemma sysInv_deliver ok spans batches lost lost' b ad un :
  sysInv (mkSys b (Delivering (spans :: batches) lost) ad un) ->
  sysInv (mkSys (deliverOne ok spans b) (Delivering batches lost') ad
            (if ok then un else un ++ [spans])).
Proof.
  intros [Hw Hp Hn Hl L E]. simpl in *.
  destruct (deliverOne_spec ok spans b Hw) as (Hw1 & T1 & D1 & R1 & _ & L1 & O1).
  split; simpl; try done.
  - eapply pendingInv_same; done.
  - intros k. specialize (L k). specialize (L1 k (concat batches)). lia.
  - intros mu H1 H2. specialize (E mu H1 H2). rewrite O1. rewrite sumBy_app in E.
    assert (inside mu (deliverOne ok spans b) = inside mu b) as ->
      by (unfold inside; by rewrite T1, D1, R1).
    destruct ok; [lia|]. rewrite sumBy_app. simpl. lia.
Qed.

Lemma sysInv_step s s' : sysInv s -> quietStep s s' -> sysInv s'.
Proof.
  intros Hs [Hst Hq]. change (dt_evicted (tb_decided (s_buf s')) = 0) in Hq.
  pose proof Hs as [Hw Hp Hn Hl _ _].
  destruct Hst as [rec now b fl ad un|now all b trs kept loss b' ad un E
    |now all tr todo dn kept b w k b' ad un E|now all dn kept b cs b' ad un E
    |now dn kept b late b' ad un E|ok spans batches lost b ad un|lost b ad un
    |lookup b fl ad un|d b fl ad un|nowUs b fl ad un]; simpl in *.
  - by apply sysInv_add.
  - pose proof (flushBegin_spec _ _ _ _ _ _ _ Hw Hp E) as [Hw1 M1 Hp1 Hl1 _ _ _ _ _ _].
    apply (sysInv_moves b Idle ad un); try done; simpl.
    + rewrite flushBegin_eq in E. cbv zeta in E.
      destruct (beginTail _ _) as [[? ?] ?]. injection E as <- _ _ _. by apply toDecide_nodup.
    + eapply moves_perm; [done| |apply (M1 [])]. intros mu. by rewrite app_nil_r.
  - apply Forall_cons in Hl as [Hl1 Hl2].
    destruct (decideOne_spec _ _ _ _ _ _ Hw Hl1 E) as (Hw1 & (T1 & D1 & _) & _ & _ & _ & _ & M1).
    assert ((bt_id <$> (dn ++ [(tr, w)]).*1) ++ (bt_id <$> todo) =
      (bt_id <$> dn.*1) ++ (bt_id <$> tr :: todo)) as Eids.
    { rewrite !fmap_app. simpl. by rewrite <- app_assoc. }
    eapply sysInv_moves; [exact Hs|done|..|done|]; simpl; rewrite ?Eids; try done.
    + eapply pendingInv_same; done.
    + eapply moves_perm; [| |apply (M1 (spansOf todo ++ spansOf kept))]; intros mu.
      * change (spansOf (tr :: todo)) with (bt_spans tr ++ spansOf todo).
        by rewrite !sumBy_app, Z.add_assoc.
      * rewrite !sumBy_app, !sumBy_spansOf, sumBy_app. lia.
  - rewrite app_nil_r in *.
    destruct (flushCarriers_spec _ _ _ _ _ Hw E) as (Hw1 & (T1 & D1 & _) & _ & _ & M1).
    eapply sysInv_moves; [exact Hs|done|..|done|]; simpl; try done.
    + eapply pendingInv_same; done.
    + eapply moves_perm; [done| |apply M1]. intros mu.
      rewrite !sumBy_app, !sumBy_spansOf, sumBy_app. simpl. lia.
  - assert (length dn.*2 = length dn.*1) as Hlen by by rewrite !length_fmap.
    destruct (settle_spec _ _ _ _ _ _ Hw Hp Hn Hlen E) as (Hw1 & M1 & Hp1 & _).
    eapply sysInv_moves; [exact Hs|done|..]; simpl; try done; [constructor|].
    eapply moves_perm; [done| |apply M1]. intros mu.
    rewrite deliverBatches_concat, !sumBy_app. lia.
  - by eapply sysInv_deliver.
  - assert (sysInv (mkSys b Idle ad un)) as H.
    { apply (sysInv_moves b (Delivering [] lost) ad un); try done. }
    eapply sysInv_core; [|exact H]. case_match; solve_core.
  - eapply sysInv_core; [|exact Hs]. solve_core.
  - eapply sysInv_core; [|exact Hs]. solve_core.
  - eapply sysInv_core; [|exact Hs]. solve_core.
Qed.

(** The system at start. *)
Definition freshSys (ttl maxSpans : Z) (rules : RescueRules)
  (lookup : option (Z -> string -> Z)) : sys :=
  mkSys (freshBuffer ttl maxSpans rules lookup) Idle [] [].

Lemma sysInv_fresh ttl maxSpans rules lookup : sysInv (freshSys ttl maxSpans rules lookup).
Proof.
  destruct (bufInv_fresh ttl maxSpans rules lookup) as [Hw Hp].
  split; simpl; [done|done|constructor|constructor| |].
  - intros k. pose proof (fresh_ledger ttl maxSpans rules lookup k) as H. simpl in H. lia.
  - intros mu _ _. unfold inside. simpl. by rewrite !mapSum_empty.
Qed.

Lemma sysInv_run s s' : sysInv s -> rtc quietStep s s' -> sysInv s'.
Proof. intros Hs. induction 1; [done|]. apply IHrtc. by eapply sysInv_step. Qed.
