(* ===== verification/BufferProps.v ===== *)
(** * Properties of the trace buffer

    The promises the trace buffer's comments make, over any sequence of public
    operations and over any interleaving of ingest with a flush. *)
From S2P Require Import Prelude Model SpanLedger Sampling TraceSampling Carry Decided.
From S2P Require Import TraceBuffer BufferInv BufferFlush BufferSteps.

(** ** Copies of a span, whatever its weight *)

Definition copyM (r : SpanRecord) : measure := fun x =>
  if decide (set_SampleWeight 0 x = set_SampleWeight 0 r) then 1 else 0.

Definition copies (r : SpanRecord) (l : list SpanRecord) : Z := sumBy (copyM r) l.

Lemma copyM_weightFree r : weightFree (copyM r).
Proof. by intros w []. Qed.

Lemma copyM_errorOnly r : isErrorStatus (sr_Status r) = true -> errorOnly (copyM r).
Proof.
  intros Hr x Hx. unfold copyM. case_decide as E; [|done].
  apply (f_equal sr_Status) in E. simpl in E. congruence.
Qed.

Lemma outM_concat mu b : outM mu b = sumBy mu (concat (tb_out b)).
Proof.
  unfold outM. induction (tb_out b) as [|l ls IH]; simpl; [done|]. by rewrite sumBy_app, IH.
Qed.

(** ** Weights *)

Lemma keepWeight_carry tr now b w b' :
  wfCarry (tb_carry b) -> keepWeight tr now b = (w, b') ->
  ct_uncarriedTotal (tb_carry b') = ct_uncarriedTotal (tb_carry b) /\
  (if countsAsDrop tr && (0 <? w)
   then w + pendingDrops (tb_carry b') = 1 + pendingDrops (tb_carry b)
   else tb_carry b' = tb_carry b).
Proof.
  intros Hc. unfold keepWeight, countsAsDrop.
  destruct (bt_hasError tr).
  { intros [= <- <-]. split; [done|]. destruct (_ && _); done. }
  destruct (Z.eqb_spec (spanLen tr) 0) as [E0|E0]; [by intros [= <- <-]|].
  destruct (slowRoot tr b).
  { intros [= <- <-]. split; [done|]. destruct (_ && _); done. }
  cbv zeta. destruct (rescued _ _ _ _ b) as [keep b1] eqn:Er.
  assert (tb_carry b1 = tb_carry b) as Eb.
  { unfold rescued in Er. destruct (tb_floor b); [|by injection Er as _ <-].
    destruct (ShouldKeep _ _ _ _ _ _). by injection Er as _ <-. }
  destruct keep; simpl; [|intros [= <- <-]; by rewrite andb_false_r, Eb].
  destruct (hasRoot tr); simpl; [|intros [= <- <-]; by rewrite Eb].
  destruct (carry_take _ _ _) as [n c] eqn:Et. intros [= <- <-]. rewrite Eb in Et.
  destruct (carry_take_spec _ _ _ _ _ Hc Et) as (_ & Hn & Hp & _ & Hu). simpl.
  rewrite (proj2 (Z.ltb_lt 0 (1 + n))) by lia. split; [done|]. lia.
Qed.

(** The traces a decision counts, and the weight it gave them. *)
Definition countedTraces (trs : list bufferedTrace) : Z :=
  sumBy (fun tr => if countsAsDrop tr then 1 else 0) trs.

Definition countedWeight (trs : list bufferedTrace) (ws : list Z) : Z :=
  sumBy (fun tw : bufferedTrace * Z => if countsAsDrop tw.1 then tw.2 else 0) (zip trs ws).

Lemma decideOne_counts tr now b w k b' :
  wfBuf b -> latched tr -> decideOne tr now b = (w, k, b') ->
  (if countsAsDrop tr then w else 0) + pendingDrops (tb_carry b') +
    ct_uncarriedTotal (tb_carry b') =
  (if countsAsDrop tr then 1 else 0) + pendingDrops (tb_carry b) +
    ct_uncarriedTotal (tb_carry b).
Proof.
  intros Hw Hl. unfold decideOne. destruct (keepWeight tr now b) as [w1 b1] eqn:Ek.
  pose proof (wb_carry _ Hw) as [Hc _].
  destruct (keepWeight_carry _ _ _ _ _ Hc Ek) as [Hu Hp].
  destruct (keepWeight_spec [] _ _ _ _ _ Hw Ek) as (Hw1 & _ & Hpos & _).
  destruct (Z.ltb_spec 0 w1) as [H0|H0]; intros [= <- <- <-].
  - destruct (countsAsDrop tr); simpl in Hp; [lia|]. rewrite Hp. done.
  - assert (w1 = 0) as -> by lia. rewrite andb_false_r in Hp.
    unfold dropTrace, ledgerDropped. simpl.
    destruct (wb_carry _ Hw1) as [Hc1 _].
    destruct (carry_drop_spec (set_droppedAs SampledOut tr) now _ Hc1) as (_ & -> & _ & ->).
    change (countsAsDrop (set_droppedAs SampledOut tr)) with (countsAsDrop tr).
    rewrite Hp. destruct (countsAsDrop tr); lia.
Qed.

Lemma decideLoop_counts now trs : forall b ws ks b',
  wfBuf b -> Forall latched trs -> decideLoop trs now b = (ws, ks, b') ->
  countedWeight trs ws + pendingDrops (tb_carry b') + ct_uncarriedTotal (tb_carry b') =
  countedTraces trs + pendingDrops (tb_carry b) + ct_uncarriedTotal (tb_carry b).
Proof.
  unfold countedWeight, countedTraces.
  induction trs as [|tr trs IH]; intros b ws ks b' Hw Hl H; simpl in H.
  { injection H as <- <- <-. simpl. lia. }
  apply Forall_cons in Hl as [Hl1 Hl].
  destruct (decideOne tr now b) as [[w k] b1] eqn:E1.
  destruct (decideLoop trs now b1) as [[ws1 ks1] b2] eqn:E2. injection H as <- <- <-.
  destruct (decideOne_spec _ _ _ _ _ _ Hw Hl1 E1) as (Hw1 & _).
  pose proof (decideOne_counts _ _ _ _ _ _ Hw Hl1 E1). specialize (IH _ _ _ _ Hw1 Hl E2).
  simpl. lia.
Qed.

Lemma flushCarriers_counts now all b cs b' :
  wfBuf b -> flushCarriers now all b = (cs, b') ->
  sumBy traceWeight cs + pendingDrops (tb_carry b') + ct_uncarriedTotal (tb_carry b') =
  pendingDrops (tb_carry b) + ct_uncarriedTotal (tb_carry b) /\
  (all = true -> pendingDrops (tb_carry b') = 0).
Proof.
  intros Hw. unfold flushCarriers.
  destruct (carry_expired now all (tb_carry b)) as [cs0 c] eqn:E.
  destruct (carryOk_expired _ _ _ _ _ (wb_carry _ Hw) E) as [Hc Hcs].
  destruct (carry_expired_spec _ _ _ _ _ (proj1 (wb_carry _ Hw)) E) as (_ & Hp & _ & _ & Hall).
  assert (wfBuf (set_tb_carry c b)) as Hw1 by (destruct Hw; split; done).
  destruct (ledgerCarriers_spec cs0 [] _ Hw1 Hcs) as (_ & _ & _ & Hcc & _). cbv zeta in Hcc.
  intros [= <- <-]. unfold ledgerCarriers in Hcc. simpl in Hcc. rewrite Hcc.
  split; [lia|]. intros ->. unfold pendingDrops. rewrite Hall by done. apply mapSum_empty.
Qed.

(** ** Drain *)

Lemma drainLoop_spec deadline turns : forall b,
  bufInv b -> tb_closed b = false -> (exists t, t ∈ turns /\ deadline <= t.1) ->
  exists s b', drainLoop deadline turns b = Some (s, b') /\
    bufInv b' /\ tb_closed b' = false /\
    forall k, unexited k (tb_ledger b') - inside (keyM k) b' =
      unexited k (tb_ledger b) - inside (keyM k) b.
Proof.
  induction turns as [|[t accepts] turns IH]; intros b Hb Hcl (t0 & Hin & Hd);
    [by apply not_elem_of_nil in Hin|]. destruct Hb as [Hw Hp].
  cbn [drainLoop]. unfold drainStep.
  pose proof (flush_closed accepts t false b) as Hc1.
  destruct (flush accepts t false b) as [sent b1] eqn:E1. simpl in Hc1.
  destruct (flush_spec _ _ _ _ _ _ Hw Hp E1) as [[F1 F2 F3 _ _] _].
  destruct ((_ =? 0) || (deadline <=? t)) eqn:Eb.
  { exists sent, b1. split; [done|]. split; [by split|]. split; [congruence|done]. }
  to_prop. apply elem_of_cons in Hin as [->|Hin]; [cbn in Hd; lia|].
  destruct (IH b1 (conj F1 F2) ltac:(congruence) (ex_intro _ t0 (conj Hin Hd)))
    as (s & b' & -> & H1 & H2 & H3).
  simpl. exists (sent + s), b'. split_and!; [done|done|done|].
  intros k. rewrite H3. apply F3.
Qed.

(** ** Properties *)

(** Conservation: over any sequence of [Add], [Flush] and settings changes,
    every span [Add] accepted is still inside the buffer or left through exactly
    one of sampled out, shed, lost or forwarded, per project and 5-minute
    bucket; after [Close] nothing is inside, so the exits add up to what was
    accepted. *)
Theorem ledger_balances ttl maxSpans rules lookup os accepts now k :
  let b := runBuf (freshBuffer ttl maxSpans rules lookup) os in
  let t := tb_ledger b in
  let t' := tb_ledger (Close accepts now b).2 in
  ledgerCount t Accepted k =
    ledgerCount t SampledOut k + ledgerCount t ShedUnsampled k +
    ledgerCount t LostInBuffer k + ledgerCount t Forwarded k + inside (keyM k) b /\
  ledgerCount t' Accepted k =
    ledgerCount t' SampledOut k + ledgerCount t' ShedUnsampled k +
    ledgerCount t' LostInBuffer k + ledgerCount t' Forwarded k.
Proof.
  cbv zeta. pose proof (bufInv_fresh ttl maxSpans rules lookup) as H0.
  pose proof (fresh_ledger ttl maxSpans rules lookup k) as HL.
  destruct (runBuf_spec os _ H0) as (H1 & H2 & _). specialize (H2 k).
  pose proof (runBuf_closed os (freshBuffer ttl maxSpans rules lookup)) as Hcl.
  set (b := runBuf _ os) in *.
  destruct (Close accepts now b) as [res b'] eqn:E.
  destruct (Close_spec _ _ _ _ _ H1 Hcl E) as (_ & _ & _ & H3 & _). specialize (H3 k).
  unfold unexited, exits in *. simpl. lia.
Qed.

(** C1: the same under concurrency: with ingest adding spans between any two
    steps of a flush (while traces are decided outside the lock, while carriers
    expire, before and after decisions settle, between deliveries), accepted is
    exits plus what the buffer and the flushing goroutine hold, as long as the
    cap on remembered decisions dropped none; and every error span added is held,
    sent to [Out], or in a batch whose delivery timed out. *)
Theorem ledger_balances_interleaved ttl maxSpans rules lookup s k r :
  rtc quietStep (freshSys ttl maxSpans rules lookup) s ->
  isErrorStatus (sr_Status r) = true ->
  let t := tb_ledger (s_buf s) in
  ledgerCount t Accepted k =
    ledgerCount t SampledOut k + ledgerCount t ShedUnsampled k +
    ledgerCount t LostInBuffer k + ledgerCount t Forwarded k +
    inside (keyM k) (s_buf s) + keyCount k (flightSpans (s_flight s)) /\
  copies r (s_added s) =
    inside (copyM r) (s_buf s) + copies r (flightSpans (s_flight s)) +
    copies r (concat (tb_out (s_buf s))) + sumBy (copies r) (s_undelivered s).
Proof.
  intros Hrun Hr. cbv zeta.
  pose proof (sysInv_run _ _ (sysInv_fresh ttl maxSpans rules lookup) Hrun) as [_ _ _ _ L E].
  specialize (L k). specialize (E _ (copyM_weightFree r) (copyM_errorOnly r Hr)).
  rewrite outM_concat in E. unfold unexited, exits in L. rewrite sumBy_keyM in L.
  split; [lia|].
  change (sumBy (copies r) (s_undelivered s)) with
    (sumBy (sumBy (copyM r)) (s_undelivered s)).
  unfold copies. lia.
Qed.

(** C2: the one guarantee the buffer makes: an error span is never sampled out,
    shed, refused or lost.  Whatever happened before (evictions at the cap, late
    arrival, pending decisions), after [Close] with a consumer that keeps up,
    [Out] received exactly as many copies of each error span as were added. *)
Theorem error_spans_delivered ttl maxSpans rules lookup os accepts now r :
  isErrorStatus (sr_Status r) = true ->
  Forall alwaysAccepts os -> (forall i, accepts i = true) ->
  copies r (concat (tb_out
    (Close accepts now (runBuf (freshBuffer ttl maxSpans rules lookup) os)).2)) =
  copies r (addedSpans os).
Proof.
  intros Hr Hos Hacc. pose proof (bufInv_fresh ttl maxSpans rules lookup) as H0.
  destruct (runBuf_spec os _ H0) as (H1 & _ & H2).
  specialize (H2 Hos _ (copyM_weightFree r) (copyM_errorOnly r Hr)).
  pose proof (runBuf_closed os (freshBuffer ttl maxSpans rules lookup)) as Hcl.
  set (b := runBuf _ os) in *.
  destruct (Close accepts now b) as [res b'] eqn:E.
  destruct (Close_spec _ _ _ _ _ H1 Hcl E) as (_ & _ & _ & _ & H3).
  specialize (H3 Hacc _ (copyM_weightFree r) (copyM_errorOnly r Hr)).
  rewrite !outM_concat in *. unfold copies. simpl. rewrite H3, H2.
  unfold inside. simpl. rewrite !mapSum_empty. lia.
Qed.

(** C26: the span counter is exact and the cap holds: at any time the spans of
    traces without an error number at most [maxSpans]; only error traces may
    take the buffer past it. *)
Theorem clean_spans_capped ttl maxSpans rules lookup os :
  let b := runBuf (freshBuffer ttl maxSpans rules lookup) os in
  tb_spanCount b = mapSum spanLen (tb_traces b) /\
  (0 < tb_maxSpans b -> mapSum cleanLen (tb_traces b) <= tb_maxSpans b).
Proof.
  cbv zeta. destruct (runBuf_spec os _ (bufInv_fresh ttl maxSpans rules lookup)) as ([Hw _] & _).
  split; apply Hw.
Qed.

(** Every trace is counted once: in any flush of any reachable buffer, the
    weights given to the kept rooted traces and to the expired carriers, plus
    the drops that still wait and the ones given up, are the rooted traces
    decided plus the drops that waited before; and a flush of everything leaves
    no drop waiting. *)
Theorem flush_counts_every_trace ttl maxSpans rules lookup os now all :
  let b := runBuf (freshBuffer ttl maxSpans rules lookup) os in
  let '(trs, kept, _, b1) := flushBegin now all b in
  let '(ws, _, b2) := decideLoop trs now b1 in
  let '(cs, b3) := flushCarriers now all b2 in
  countedWeight trs ws + sumBy traceWeight cs + pendingDrops (tb_carry b3) +
    ct_uncarriedTotal (tb_carry b3) =
  countedTraces trs + pendingDrops (tb_carry b) + ct_uncarriedTotal (tb_carry b) /\
  (all = true -> pendingDrops (tb_carry b3) = 0).
Proof.
  cbv zeta. destruct (runBuf_spec os _ (bufInv_fresh ttl maxSpans rules lookup))
    as ([Hw Hp] & _).
  set (b := runBuf _ os) in *.
  destruct (flushBegin now all b) as [[[trs kept] loss] b1] eqn:E1.
  pose proof (flushBegin_spec _ _ _ _ _ _ _ Hw Hp E1) as [Hw1 _ _ Hl1 _ _ C1 _ _ _].
  destruct (decideLoop trs now b1) as [[ws ks] b2] eqn:E2.
  destruct (decideLoop_spec _ _ [] _ _ _ _ Hw1 Hl1 E2) as (Hw2 & _).
  pose proof (decideLoop_counts _ _ _ _ _ _ Hw1 Hl1 E2) as H2.
  destruct (flushCarriers now all b2) as [cs b3] eqn:E3.
  destruct (flushCarriers_counts _ _ _ _ _ Hw2 E3) as [H3 H4].
  rewrite C1 in H2. split; [lia|done].
Qed.

(** Decisions do not depend on Go's map iteration order: whatever order [l]
    the trace map is ranged over in, the due traces sorted by arrival are the
    same list, ordered by arrival, without duplicates. *)
Theorem decision_order_deterministic ttl maxSpans rules lookup os now all l :
  let b := runBuf (freshBuffer ttl maxSpans rules lookup) os in
  l ≡ₚ (map_to_list (tb_traces b)).*2 ->
  sortByArrival (filter (fun tr => all || due tr now b) l) = toDecide now all b /\
  StronglySorted (fun t u => bt_seq t < bt_seq u) (toDecide now all b).
Proof.
  cbv zeta. destruct (runBuf_spec os _ (bufInv_fresh ttl maxSpans rules lookup))
    as ([Hw _] & _). set (b := runBuf _ os) in *. intros Hl.
  assert (forall t u, t ∈ toDecide now all b -> u ∈ toDecide now all b ->
    bt_seq t = bt_seq u -> t = u) as Hinj.
  { intros t u Ht Hu E. apply (toDecide_in _ _ _ _ Hw) in Ht as [Ht _], Hu as [Hu _].
    pose proof (wb_seq_inj _ Hw _ _ _ _ Ht Hu E) as Eid. rewrite Eid in Ht. congruence. }
  split.
  - apply sortByArrival_unique; [by rewrite Hl|].
    intros t u. rewrite Hl, <- (toDecide_perm now all b). apply Hinj.
  - assert (StronglySorted arrivedBefore (toDecide now all b)) as Hs.
    { apply StronglySorted_merge_sort; intros ?; unfold arrivedBefore; lia. }
    pose proof (NoDup_fmap_1 bt_id _ (toDecide_nodup now all b Hw)) as Hnd.
    revert Hinj Hnd Hs. generalize (toDecide now all b).
    induction l0 as [|t l0 IH]; intros Hinj Hnd Hs; [constructor|].
    apply NoDup_cons in Hnd as [Hn Hnd]. inversion Hs as [|? ? Hs1 Hs2]; subst.
    constructor.
    + apply IH; [|done|done]. intros x y Hx Hy. apply Hinj; by right.
    + rewrite Forall_forall in *. intros u Hu. specialize (Hs2 u Hu).
      unfold arrivedBefore in Hs2.
      enough (bt_seq t <> bt_seq u) by lia. intros E. apply Hn.
      rewrite (Hinj t u); [done|by left|by right|done].
Qed.

(** C29: [Drain] ends, with its deadline, and loses nothing: whichever deliveries of
    each turn time out, once a clock reading reaches the deadline it returns, the buffer is empty, and the ledger's exits
    add up to the spans accepted. *)
Theorem Drain_terminates ttl maxSpans rules lookup os deadline turns accepts last t :
  t ∈ turns.*1 -> deadline <= t ->
  exists res b',
    Drain deadline turns accepts last (runBuf (freshBuffer ttl maxSpans rules lookup) os)
      = Some (res, b') /\
    (forall mu, inside mu b' = 0) /\ pendingDrops (tb_carry b') = 0 /\
    forall k, unexited k (tb_ledger b') = 0.
Proof.
  intros (turn & -> & Hin)%list_elem_of_fmap Hd. pose proof (bufInv_fresh ttl maxSpans rules lookup) as H0.
  destruct (runBuf_spec os _ H0) as (H1 & H2 & _).
  pose proof (runBuf_closed os (freshBuffer ttl maxSpans rules lookup)) as Hcl.
  pose proof (fresh_ledger ttl maxSpans rules lookup) as HL.
  set (b := runBuf _ os) in *. unfold Drain. rewrite Hcl.
  change (tb_closed (freshBuffer ttl maxSpans rules lookup)) with false in *. cbn match.
  destruct (drainLoop_spec deadline turns b H1 Hcl (ex_intro _ turn (conj Hin Hd)))
    as (s & b1 & -> & [Hw Hp] & Hc1 & H3).
  cbn [mbind option_bind]. unfold finish.
  destruct (flush accepts last true b1) as [sent b2] eqn:E2.
  destruct (flush_spec _ _ _ _ _ _ Hw Hp E2) as [[F1 F2 F3 (R & L & H) F5] _].
  destruct (F5 eq_refl) as [T C].
  do 2 eexists. split; [reflexivity|].
  split; [intros mu; by apply inside_empty|]. split.
  - unfold pendingDrops. simpl. rewrite C. apply mapSum_empty.
  - intros k. specialize (F3 k). specialize (H3 k). specialize (H2 k). specialize (HL k).
    rewrite (inside_empty (keyM k) b2) in F3 by done. simpl. lia.
Qed.

(** ** Witnesses *)

(** Two spans of one clean trace and an error span of another; ratio 1000, so
    the clean trace is dropped unless it is rescued. *)
Definition w_clean1 : SpanRecord :=
  demoSpan "00000000000000010000000000000000" "s1" "" "GET /a" "ok" 1000000 5.
Definition w_clean2 : SpanRecord :=
  demoSpan "00000000000000010000000000000000" "s2" "s1" "db" "ok" 1000001 3.
Definition w_error : SpanRecord :=
  demoSpan "00000000000000020000000000000000" "e1" "" "GET /b" "error" 1000002 9.

Definition w_lookup : option (Z -> string -> Z) := Some (StaticRatioLookup_Ratio 1000).
Definition w_rules : RescueRules := mkRescueRules 0 0.
Definition w_ops : list bufOp :=
  [BAdd w_clean1 10; BAdd w_error 11; BAdd w_clean2 12;
   BFlush (fun _ => true) (31 * second)].

Lemma ledger_balances_interleaved_witness :
  exists s,
    rtc quietStep (freshSys (600 * second) 50 w_rules w_lookup) s /\
    s_flight s <> Idle /\
    (let t := tb_ledger (s_buf s) in
     ledgerCount t Accepted (0, 1) =
       ledgerCount t SampledOut (0, 1) + ledgerCount t ShedUnsampled (0, 1) +
       ledgerCount t LostInBuffer (0, 1) + ledgerCount t Forwarded (0, 1) +
       inside (keyM (0, 1)) (s_buf s) + keyCount (0, 1) (flightSpans (s_flight s)) /\
     copies w_error (s_added s) =
       inside (copyM w_error) (s_buf s) + copies w_error (flightSpans (s_flight s)) +
       copies w_error (concat (tb_out (s_buf s))) +
       sumBy (copies w_error) (s_undelivered s)).
Proof.
  set (b1 := Add w_error 11 (Add w_clean1 10 (freshBuffer (600 * second) 50 w_rules w_lookup))).
  set (r := flushBegin (31 * second) false b1).
  assert (flushBegin (31 * second) false b1 = (r.1.1.1, r.1.1.2, r.1.2, r.2)) as Hr.
  { fold r. clearbody r. destruct r as [[[? ?] ?] ?]. reflexivity. }
  set (s := mkSys (Add w_clean2 (31 * second) r.2)
    (Deciding (31 * second) false r.1.1.1 [] r.1.1.2)
    ([] ++ [w_clean1] ++ [w_error] ++ [w_clean2]) []).
  assert (rtc quietStep (freshSys (600 * second) 50 w_rules w_lookup) s) as Hrun.
  { eapply rtc_l; [split; [apply (step_add w_clean1 10)|vm_compute; reflexivity]|].
    eapply rtc_l; [split; [apply (step_add w_error 11)|vm_compute; reflexivity]|].
    eapply rtc_l; [split; [apply (step_begin (31 * second) false _ r.1.1.1 r.1.1.2 r.1.2 r.2);
      exact Hr|vm_compute; reflexivity]|].
    eapply rtc_l; [split; [apply (step_add w_clean2 (31 * second))|vm_compute; reflexivity]|].
    apply rtc_refl. }
  exists s. split; [exact Hrun|]. split; [discriminate|].
  exact (ledger_balances_interleaved _ _ _ _ s (0, 1) w_error Hrun eq_refl).
Defined.

Lemma error_spans_delivered_witness :
  copies w_error (concat (tb_out (Close (fun _ => true) (40 * second)
    (runBuf (freshBuffer (600 * second) 2 w_rules w_lookup) w_ops)).2)) = 1.
Proof.
  rewrite (error_spans_delivered (600 * second) 2 w_rules w_lookup w_ops (fun _ => true)
    (40 * second) w_error); [vm_compute; reflexivity|reflexivity| |reflexivity].
  repeat constructor.
Defined.

Lemma clean_spans_capped_witness :
  let b := runBuf (freshBuffer (600 * second) 2 w_rules w_lookup) w_ops in
  0 < tb_maxSpans b /\ mapSum cleanLen (tb_traces b) <= tb_maxSpans b.
Proof.
  cbv zeta. split; [vm_compute; reflexivity|].
  apply (clean_spans_capped (600 * second) 2 w_rules w_lookup w_ops). vm_compute. reflexivity.
Defined.

Lemma flush_counts_every_trace_witness :
  let b := runBuf (freshBuffer (600 * second) 50 w_rules w_lookup)
             [BAdd w_clean1 10; BAdd w_error 11] in
  let '(trs, kept, _, b1) := flushBegin 20 true b in
  let '(ws, _, b2) := decideLoop trs 20 b1 in
  let '(cs, b3) := flushCarriers 20 true b2 in
  countedTraces trs = 2 /\ pendingDrops (tb_carry b3) = 0.
Proof.
  pose proof (flush_counts_every_trace (600 * second) 50 w_rules w_lookup
    [BAdd w_clean1 10; BAdd w_error 11] 20 true) as H.
  cbv zeta in *.
  set (b := runBuf _ _) in *.
  assert (countedTraces (flushBegin 20 true b).1.1.1 = 2) as H2 by (vm_compute; reflexivity).
  destruct (flushBegin 20 true b) as [[[trs kept] loss] b1].
  destruct (decideLoop trs 20 b1) as [[ws ks] b2].
  destruct (flushCarriers 20 true b2) as [cs b3].
  destruct H as [_ H]. split; [exact H2|exact (H eq_refl)].
Defined.

Lemma decision_order_deterministic_witness :
  let b := runBuf (freshBuffer (600 * second) 50 w_rules w_lookup)
             [BAdd w_clean1 10; BAdd w_error 11] in
  sortByArrival (filter (fun tr => true || due tr 20 b) (reverse (map_to_list (tb_traces b)).*2))
    = toDecide 20 true b /\ length (toDecide 20 true b) = 2%nat.
Proof.
  cbv zeta.
  destruct (decision_order_deterministic (600 * second) 50 w_rules w_lookup
    [BAdd w_clean1 10; BAdd w_error 11] 20 true
    (reverse (map_to_list (tb_traces (runBuf (freshBuffer (600 * second) 50 w_rules w_lookup)
      [BAdd w_clean1 10; BAdd w_error 11]))).*2)) as [H _];
    [apply reverse_Permutation|].
  split; [exact H|vm_compute; reflexivity].
Defined.

Lemma Drain_terminates_witness :
  exists res b', Drain (60 * second) [(32 * second, fun _ => true); (61 * second, fun i => (0 <? i)%nat)] (fun _ => true)
    (62 * second) (runBuf (freshBuffer (600 * second) 2 w_rules w_lookup) w_ops) = Some (res, b') /\
    (forall mu, inside mu b' = 0) /\ pendingDrops (tb_carry b') = 0 /\
    forall k, unexited k (tb_ledger b') = 0.
Proof.
  apply (Drain_terminates (600 * second) 2 w_rules w_lookup w_ops (60 * second)
    [(32 * second, fun _ => true); (61 * second, fun i => (0 <? i)%nat)] (fun _ => true) (62 * second) (61 * second));
    [right; left|vm_compute; discriminate].
Defined.

(** ** A refused span in a buffer without error traces

    [nextVictim] consumes the queue entry of the trace [keep] it may not evict,
    so that trace can no longer be found as a victim. *)

(** The refusal rule of [Add]'s comment ("only refused when the buffer is full
    of ... error traces") does not hold: with one span of room, adding two spans
    of trace A consumes A's queue entry, and a span of trace B is then refused
    although the only buffered trace is clean. *)
Theorem refused_without_error_traces :
  let b := runBuf (freshBuffer (600 * second) 1 w_rules (Some (StaticRatioLookup_Ratio 1)))
             [BAdd w_clean1 10; BAdd w_clean2 11] in
  let spanB := demoSpan "00000000000000030000000000000000" "b1" "" "GET /c" "ok" 1000003 4 in
  map_Forall (fun _ tr => bt_hasError tr = false) (tb_traces b) /\
  sr_TraceID spanB ≠ sr_TraceID w_clean1 /\ size (tb_traces b) = 1%nat /\
  tb_refusedTotal (Add spanB 12 b) = tb_refusedTotal b + 1 /\
  tb_traces (Add spanB 12 b) !! sr_TraceID spanB = None.
Proof.
  cbv zeta. split_and!; try (vm_compute; reflexivity); [|discriminate].
  apply map_Forall_to_list. vm_compute. repeat constructor.
Qed.
