(* ===== verification/IngestQueue.v ===== *)
(** * The in-memory span queue ([internal/ingest/queue.go])

    A ring buffer of fixed capacity: [Enqueue] never blocks and refuses when
    full, [Drain] takes everything.  The specification is a list with a length
    bound; the ring implements it for every operation sequence. *)
From S2P Require Import Prelude Model.

Definition DefaultQueueCapacity : Z := 32768.

(** [Queue]: [buf] has [capacity] slots; the zero record fills unused ones. *)
Record Queue := mkQueue {
  q_buf : list SpanRecord; q_head : Z; q_count : Z; q_capacity : Z }.

Definition zeroSpan : SpanRecord := mkSpanRecord 0 "" "" "" "" "" "" "" "" 0 0 "" "" 0.

(** [NewQueue] *)
Definition NewQueue (capacity : Z) : Queue :=
  let capacity := if capacity <=? 0 then DefaultQueueCapacity else capacity in
  mkQueue (replicate (Z.to_nat capacity) zeroSpan) 0 0 capacity.

(** [Queue.Enqueue] *)
Definition Enqueue (record : SpanRecord) (q : Queue) : bool * Queue :=
  if q_capacity q <=? q_count q then (false, q)
  else
    let idx := (q_head q + q_count q) %t q_capacity q in
    (true, mkQueue (<[Z.to_nat idx := record]> (q_buf q)) (q_head q) (q_count q + 1)
             (q_capacity q)).

(** The slot [Drain] reads at turn [i]. *)
Definition slot (q : Queue) (i : nat) : SpanRecord :=
  default zeroSpan (q_buf q !! Z.to_nat ((q_head q + Z.of_nat i) %t q_capacity q)).

(** [Queue.Drain]; a nil result is the empty list. *)
Definition Queue_Drain (q : Queue) : list SpanRecord * Queue :=
  if q_count q =? 0 then ([], q)
  else (map (slot q) (seq 0 (Z.to_nat (q_count q))),
        mkQueue (q_buf q) 0 0 (q_capacity q)).

(** [Queue.Len] *)
Definition Queue_Len (q : Queue) : Z := q_count q.

(** ** The list a ring stands for *)

Definition contents (q : Queue) : list SpanRecord := map (slot q) (seq 0 (Z.to_nat (q_count q))).

Record wfQueue (q : Queue) : Prop := {
  wq_cap : 0 < q_capacity q;
  wq_buf : Z.of_nat (length (q_buf q)) = q_capacity q;
  wq_head : 0 <= q_head q < q_capacity q;
  wq_count : 0 <= q_count q <= q_capacity q;
}.

Lemma wfQueue_new c : wfQueue (NewQueue c).
Proof.
  unfold NewQueue. cbv zeta. assert (0 < if c <=? 0 then DefaultQueueCapacity else c).
  { unfold DefaultQueueCapacity. case_match; to_prop; lia. }
  split; simpl; rewrite ?length_replicate; lia.
Qed.

(** Distinct turns read distinct slots. *)
Lemma slot_index_inj q i j :
  wfQueue q -> 0 <= i < q_capacity q -> 0 <= j < q_capacity q ->
  (q_head q + i) %t q_capacity q = (q_head q + j) %t q_capacity q -> i = j.
Proof.
  intros [Hc _ Hh _] Hi Hj. rewrite !Z.rem_mod_nonneg by lia. intros E.
  pose proof (Z.div_mod (q_head q + i) (q_capacity q) ltac:(lia)) as E1.
  pose proof (Z.div_mod (q_head q + j) (q_capacity q) ltac:(lia)) as E2.
  rewrite E in E1. generalize dependent ((q_head q + j) mod q_capacity q).
  generalize dependent ((q_head q + i) / q_capacity q).
  generalize dependent ((q_head q + j) / q_capacity q). intros a b m _ E1 E2.
  destruct (Z.lt_trichotomy a b) as [H|[->|H]]; [nia|lia|nia].
Qed.

Lemma Enqueue_spec r q ok q' :
  wfQueue q -> Enqueue r q = (ok, q') ->
  wfQueue q' /\ q_capacity q' = q_capacity q /\
  ok = (Z.of_nat (length (contents q)) <? q_capacity q) /\
  contents q' = if ok then contents q ++ [r] else contents q.
Proof.
  intros Hw. unfold Enqueue, contents. rewrite length_map, length_seq.
  pose proof Hw as [Hc Hb Hh Hn]. rewrite Z2Nat.id by lia.
  destruct (Z.leb_spec (q_capacity q) (q_count q)); intros [= <- <-].
  { split_and!; [done|done|symmetry; apply Z.ltb_ge; lia|done]. }
  set (idx := (q_head q + q_count q) %t q_capacity q).
  assert (0 <= idx < q_capacity q) as Hidx.
  { unfold idx. rewrite Z.rem_mod_nonneg by lia. apply Z.mod_pos_bound. lia. }
  split_and!; [|done|symmetry; apply Z.ltb_lt; lia|].
  { split; simpl; rewrite ?length_insert; lia. }
  cbn [q_count]. replace (Z.to_nat (q_count q + 1)) with (S (Z.to_nat (q_count q))) by lia.
  rewrite seq_S, map_app. f_equal.
  - apply map_ext_in. intros i Hi%in_seq. unfold slot. simpl.
    rewrite list_lookup_insert_ne; [done|]. intros E.
    assert (Z.of_nat i = q_count q); [|lia].
    apply (slot_index_inj q); [done|lia|lia|]. fold idx.
    assert (0 <= (q_head q + Z.of_nat i) %t q_capacity q) by (apply Z.rem_nonneg; lia). lia.
  - cbn [map]. f_equal. unfold slot. simpl. rewrite Z2Nat.id by lia. fold idx.
    rewrite list_lookup_insert_eq by lia. done.
Qed.

Lemma Drain_spec q out q' :
  wfQueue q -> Queue_Drain q = (out, q') ->
  wfQueue q' /\ q_capacity q' = q_capacity q /\ out = contents q /\ contents q' = [].
Proof.
  intros Hw. unfold Queue_Drain, contents. destruct (Z.eqb_spec (q_count q) 0) as [E|E];
    intros [= <- <-]; [by rewrite E|].
  destruct Hw. split_and!; try done. split; simpl; lia || done.
Qed.

(** ** Sequences of operations *)

Inductive queueOp := QEnqueue (r : SpanRecord) | QDrain.

(** The spans each operation returns, [Enqueue]'s verdict as a singleton. *)
Definition queueStep (o : queueOp) (q : Queue) : (bool + list SpanRecord) * Queue :=
  match o with
  | QEnqueue r => let '(ok, q) := Enqueue r q in (inl ok, q)
  | QDrain => let '(out, q) := Queue_Drain q in (inr out, q)
  end.

(** The specification: a list of at most [cap] spans. *)
Definition listStep (cap : Z) (o : queueOp) (l : list SpanRecord)
  : (bool + list SpanRecord) * list SpanRecord :=
  match o with
  | QEnqueue r => if Z.of_nat (length l) <? cap then (inl true, l ++ [r]) else (inl false, l)
  | QDrain => (inr l, [])
  end.

Fixpoint runQueue {S} (step : queueOp -> S -> (bool + list SpanRecord) * S)
  (os : list queueOp) (s : S) : list (bool + list SpanRecord) * S :=
  match os with
  | [] => ([], s)
  | o :: os => let '(r, s) := step o s in let '(rs, s) := runQueue step os s in (r :: rs, s)
  end.

Lemma queueStep_refines o q r q' :
  wfQueue q -> queueStep o q = (r, q') ->
  wfQueue q' /\ q_capacity q' = q_capacity q /\
  listStep (q_capacity q) o (contents q) = (r, contents q').
Proof.
  intros Hw. destruct o as [x|]; simpl.
  - destruct (Enqueue x q) as [ok q1] eqn:E. intros [= <- <-].
    destruct (Enqueue_spec _ _ _ _ Hw E) as (? & ? & Hok & ->). split_and!; [done|done|].
    rewrite Hok. by destruct (_ <? _).
  - destruct (Queue_Drain q) as [out q1] eqn:E. intros [= <- <-].
    destruct (Drain_spec _ _ _ Hw E) as (? & ? & -> & ->). done.
Qed.

(** The ring buffer is a bounded FIFO queue: for every capacity and every
    sequence of enqueues and drains the answers and contents are those of a list
    of at most [capacity] spans: nothing is lost, duplicated or reordered, and a
    span is refused exactly when the queue is full. *)
Theorem queue_refines_list capacity os :
  let q0 := NewQueue capacity in
  let '(rs, q) := runQueue queueStep os q0 in
  runQueue (listStep (q_capacity q0)) os [] = (rs, contents q) /\
  Queue_Len q = Z.of_nat (length (contents q)) /\ Queue_Len q <= q_capacity q0.
Proof.
  cbv zeta. pose proof (wfQueue_new capacity) as Hw0.
  assert (contents (NewQueue capacity) = []) as E0 by done.
  assert (forall os q rs q', wfQueue q -> runQueue queueStep os q = (rs, q') ->
    wfQueue q' /\ q_capacity q' = q_capacity q /\
    runQueue (listStep (q_capacity q)) os (contents q) = (rs, contents q')) as IH.
  { clear. induction os as [|o os IH]; intros q rs q' Hw H; simpl in H.
    { injection H as <- <-. done. }
    destruct (queueStep o q) as [r q1] eqn:E1.
    destruct (runQueue queueStep os q1) as [rs1 q2] eqn:E2. injection H as <- <-.
    destruct (queueStep_refines _ _ _ _ Hw E1) as (Hw1 & Hc1 & Hs).
    destruct (IH _ _ _ Hw1 E2) as (Hw2 & Hc2 & Hr). rewrite Hc1 in *.
    split_and!; [done|done|]. simpl. by rewrite Hs, Hr. }
  destruct (runQueue queueStep os (NewQueue capacity)) as [rs q] eqn:E.
  destruct (IH _ _ _ _ Hw0 E) as ([_ _ _ Hn] & Hc & Hr). rewrite E0 in Hr.
  split; [done|]. unfold contents, Queue_Len. rewrite length_map, length_seq. lia.
Qed.
