(* ===== verification/Spool.v ===== *)
(** * The durable spool ([internal/spool/spool.go])

    An append-only NDJSON file with one rotated predecessor, read from a byte
    cursor.  File contents are byte lists.  [encoding/json]'s [Marshal] and
    [Unmarshal] of a span are the two functions of the class [LineCodec]; all the
    spool relies on is that an encoding holds no newline.  In particular a record
    may come back changed: JSON compacts and escapes the raw attributes and
    replaces bytes that are no UTF-8 ([reread]).  The calls of a [Write] may fail
    anywhere, a line may be torn and a rotation may stop after any of its calls;
    reads succeed, and the failing calls of the reader are the publisher's (file
    [Forwarder]). *)
From Stdlib Require Import Ascii.
From S2P Require Import Prelude Model.

Definition newline : ascii := "010"%char.

Class LineCodec := {
  marshal : SpanRecord -> option (list ascii);
  unmarshal : list ascii -> option SpanRecord;
  marshal_one_line : forall r data, marshal r = Some data -> newline ∉ data;
}.

(** The write handle: a rotation that fails leaves it closed, and may leave no
    current file ([Closed true]). *)
Inductive handle := Open | Closed (missing : bool).

(** [Spool]: [sp_cur] and [sp_old] are the two files ([None]: no rotated file),
    [sp_cursor] the cursor file. *)
Record Spool := mkSpool {
  sp_maxBytes : Z;
  sp_handle : handle;
  sp_size : Z;
  sp_cur : list ascii;
  sp_old : option (list ascii);
  sp_cursor : option Z;
  sp_readUndecodable : Z;
  sp_undecodable : Z;
  sp_unloggedLines : Z;
  sp_lastLinesLog : option Z;
}.

Definition DefaultMaxBytes : Z := Z.shiftl 64 20.

Definition undecodableLogInterval : Z := minute.

(** [NewSpool] on a directory with the given files. *)
Definition NewSpool (maxBytes : Z) (cur : list ascii) (old : option (list ascii))
  (cursor : option Z) : Spool :=
  mkSpool (if maxBytes <=? 0 then DefaultMaxBytes else maxBytes) Open
    (Z.of_nat (length cur)) cur old cursor 0 0 0 None.

Definition set_files (size : Z) (cur : list ascii) (old : option (list ascii)) (s : Spool)
  : Spool :=
  mkSpool (sp_maxBytes s) (sp_handle s) size cur old (sp_cursor s) (sp_readUndecodable s)
    (sp_undecodable s) (sp_unloggedLines s) (sp_lastLinesLog s).

Definition set_handle (h : handle) (s : Spool) : Spool :=
  mkSpool (sp_maxBytes s) h (sp_size s) (sp_cur s) (sp_old s) (sp_cursor s)
    (sp_readUndecodable s) (sp_undecodable s) (sp_unloggedLines s) (sp_lastLinesLog s).

Definition set_cursorFile (c : option Z) (s : Spool) : Spool :=
  mkSpool (sp_maxBytes s) (sp_handle s) (sp_size s) (sp_cur s) (sp_old s) c
    (sp_readUndecodable s) (sp_undecodable s) (sp_unloggedLines s) (sp_lastLinesLog s).

Definition set_undecodable (rd un ul : Z) (last : option Z) (s : Spool) : Spool :=
  mkSpool (sp_maxBytes s) (sp_handle s) (sp_size s) (sp_cur s) (sp_old s) (sp_cursor s)
    rd un ul last.

(** The outcome of writing one line: [LineFailed n] is an error after [n] bytes
    of it reached the file. *)
Inductive lineResult := LineOK | LineFailed (n : nat).

(** The outcome of the calls of a rotation. *)
Inductive rotateResult := RotateOK | CloseFailed | RenameFailed | OpenFailed.

(** The outcomes of the calls of one [Write]; lines past the end of the list are
    written. *)
Record writeIO := mkIO { io_lines : list lineResult; io_rotate : rotateResult }.

#[export] Instance handle_eq_dec : EqDecision handle.
Proof. solve_decision. Defined.

Section Codec.
Context `{LineCodec}.

(** [Spool.rotate], with whether it returns an error.  Closing a closed file is an
    error; no rename is called when a rotated file is still there. *)
Definition rotate (io : rotateResult) (s : Spool) : bool * Spool :=
  match sp_handle s with
  | Closed _ => (true, s)
  | Open =>
      match io, sp_old s with
      | CloseFailed, _ | RenameFailed, None | OpenFailed, Some _ =>
          (true, set_handle (Closed false) s)
      | OpenFailed, None =>
          (true, set_handle (Closed true) (set_files (sp_size s) [] (Some (sp_cur s)) s))
      | (RotateOK | RenameFailed), Some _ => (false, set_files 0 [] (sp_old s) s)
      | RotateOK, None => (false, set_files 0 [] (Some (sp_cur s)) s)
      end
  end.

(** The loop of [Spool.Write], with whether it returns an error.  A torn line stays
    in the file and is not counted in the size. *)
Fixpoint writeLines (io : list lineResult) (records : list SpanRecord) (s : Spool)
  : bool * Spool :=
  match records with
  | [] => (false, s)
  | r :: records =>
      match marshal r, sp_handle s with
      | None, _ | _, Closed _ => (true, s)
      | Some data, Open =>
          let line := data ++ [newline] in
          match hd LineOK io with
          | LineOK =>
              writeLines (tl io) records
                (set_files (sp_size s + Z.of_nat (length line)) (sp_cur s ++ line)
                   (sp_old s) s)
          | LineFailed n =>
              (true, set_files (sp_size s) (sp_cur s ++ take n line) (sp_old s) s)
          end
      end
  end.

(** [Spool.Write]: append every record, then rotate past the limit. *)
Definition Spool_Write (io : writeIO) (records : list SpanRecord) (s : Spool)
  : bool * Spool :=
  let '(err, s) := writeLines (io_lines io) records s in
  if err : bool then (true, s)
  else if sp_maxBytes s <=? sp_size s then rotate (io_rotate io) s else (false, s).

(** The complete lines of a byte sequence, newlines included; a trailing
    fragment without one is left out. [acc] is the line being read. *)
Fixpoint splitLines (acc bytes : list ascii) : list (list ascii) :=
  match bytes with
  | [] => []
  | c :: bytes =>
      if decide (c = newline) then (acc ++ [c]) :: splitLines [] bytes
      else splitLines (acc ++ [c]) bytes
  end.

(** The loop of [readFile] over the lines: the records, the position after the
    last line read and the lines that did not decode. *)
Fixpoint readLoop (limit : nat) (pos : Z) (lines : list (list ascii))
  : list SpanRecord * Z * Z :=
  match limit, lines with
  | O, _ | _, [] => ([], pos, 0)
  | S limit', line :: lines =>
      let pos := pos + Z.of_nat (length line) in
      match unmarshal line with
      | Some rec => let '(rs, p, u) := readLoop limit' pos lines in (rec :: rs, p, u)
      | None => let '(rs, p, u) := readLoop limit pos lines in (rs, p, u + 1)
      end
  end.

(** [Spool.readFile] *)
Definition readFile (content : list ascii) (cursor : Z) (limit : nat)
  : list SpanRecord * Z * Z :=
  readLoop limit cursor (splitLines [] (drop (Z.to_nat cursor) content)).

(** [Spool.countUndecodable] with [logUndecodable]. *)
Definition countUndecodable (now : Z) (s : Spool) : Spool :=
  let un := sp_undecodable s + sp_readUndecodable s in
  let ul := sp_unloggedLines s + sp_readUndecodable s in
  let due := match sp_lastLinesLog s with
             | Some t => undecodableLogInterval <=? sat64 (now - t)
             | None => true
             end in
  if (0 <? ul) && due then set_undecodable 0 un 0 (Some now) s
  else set_undecodable 0 un ul (sp_lastLinesLog s) s.

(** The tail of [Spool.Read]: the current file, which may be missing,
    from a cursor that may be past its end. *)
Definition readCurrent (cursor : Z) (limit : nat) (s : Spool)
  : list SpanRecord * Z * Spool :=
  if bool_decide (sp_handle s = Closed true) then ([], cursor, s)
  else
  let cursor := if (0 <? cursor) && (Z.of_nat (length (sp_cur s)) <? cursor) then 0
                else cursor in
  let '(rs, next, u) := readFile (sp_cur s) cursor limit in
  (rs, next, set_undecodable (sp_readUndecodable s + u) (sp_undecodable s)
               (sp_unloggedLines s) (sp_lastLinesLog s) s).

(** [Spool.Read] *)
Definition Spool_Read (now cursor : Z) (limit : nat) (s : Spool)
  : list SpanRecord * Z * Spool :=
  let s := set_undecodable 0 (sp_undecodable s) (sp_unloggedLines s) (sp_lastLinesLog s) s in
  match sp_old s with
  | Some old =>
      let '(rs, next, u) := readFile old cursor limit in
      let s := set_undecodable u (sp_undecodable s) (sp_unloggedLines s)
                 (sp_lastLinesLog s) s in
      match rs with
      | _ :: _ => (rs, next, s)
      | [] =>
          let s := set_files (sp_size s) (sp_cur s) None s in
          readCurrent 0 limit (countUndecodable now s)
      end
  | None => readCurrent cursor limit s
  end.

(** [Spool.SaveCursor] *)
Definition SaveCursor (now pos : Z) (s : Spool) : Spool :=
  set_cursorFile (Some pos) (countUndecodable now s).

(** [Spool.LoadCursor] *)
Definition LoadCursor (s : Spool) : Z := default 0 (sp_cursor s).

(** ** Files of encoded records *)

(** The line of a record that marshals. *)
Definition encodeLine (r : SpanRecord) : list ascii := default [] (marshal r) ++ [newline].

(** What JSON gives back for a record. *)
Definition reread (r : SpanRecord) : option SpanRecord :=
  data ← marshal r; unmarshal (data ++ [newline]).

(** A record that JSON encodes and decodes again. *)
Definition storable (r : SpanRecord) : Prop := is_Some (reread r).

Definition encodeAll (rs : list SpanRecord) : list ascii := concat (encodeLine <$> rs).

Lemma encodeAll_cons r rs : encodeAll (r :: rs) = encodeLine r ++ encodeAll rs.
Proof. done. Qed.

Lemma encodeAll_app l1 l2 : encodeAll (l1 ++ l2) = encodeAll l1 ++ encodeAll l2.
Proof. unfold encodeAll. by rewrite fmap_app, concat_app. Qed.

Lemma reread_line r r' : reread r = Some r' -> unmarshal (encodeLine r) = Some r'.
Proof. unfold reread, encodeLine. destruct (marshal r); done. Qed.

(** Splitting a file of encoded records gives its lines back. *)
Lemma splitLines_line l acc rest :
  newline ∉ l -> splitLines acc (l ++ newline :: rest) = (acc ++ l ++ [newline]) :: splitLines [] rest.
Proof.
  revert acc. induction l as [|c l IH]; intros acc Hl; cbn [app splitLines].
  - by rewrite decide_True.
  - apply not_elem_of_cons in Hl as [Hc Hl]. rewrite decide_False by congruence.
    rewrite IH by done. by rewrite <- app_assoc.
Qed.

Lemma marshal_line r : newline ∉ default [] (marshal r).
Proof. destruct (marshal r) eqn:E; [by apply (marshal_one_line r)|apply not_elem_of_nil]. Qed.

Lemma splitLines_encodeAll rs : splitLines [] (encodeAll rs) = encodeLine <$> rs.
Proof.
  induction rs as [|r rs IH]; [done|]. rewrite encodeAll_cons. unfold encodeLine at 1.
  rewrite <- app_assoc. simpl. rewrite splitLines_line by apply marshal_line.
  rewrite IH. done.
Qed.

(** Reading a file of storable records from a record boundary. *)
Lemma readLoop_encoded limit : forall pos rs, Forall storable rs ->
  readLoop limit pos (encodeLine <$> rs) =
  (omap reread (take limit rs), pos + Z.of_nat (length (encodeAll (take limit rs))), 0).
Proof.
  induction limit as [|limit IH]; intros pos rs Hs;
    [destruct rs; unfold encodeAll; simpl; by rewrite ?Z.add_0_r|].
  destruct Hs as [|r rs [r' Hr] Hs]; [unfold encodeAll; simpl; by rewrite ?Z.add_0_r|].
  rewrite fmap_cons. cbn [readLoop]. cbv zeta. rewrite (reread_line _ _ Hr), IH by done. cbn [take].
  rewrite encodeAll_cons, length_app, Nat2Z.inj_add, Z.add_assoc. csimpl. by rewrite Hr.
Qed.

Lemma readFile_encoded rs n limit : Forall storable rs ->
  readFile (encodeAll rs) (Z.of_nat (length (encodeAll (take n rs)))) limit =
  (omap reread (take limit (drop n rs)),
   Z.of_nat (length (encodeAll (take n rs))) +
   Z.of_nat (length (encodeAll (take limit (drop n rs)))), 0).
Proof.
  intros Hs. unfold readFile. rewrite Nat2Z.id.
  assert (drop (length (encodeAll (take n rs))) (encodeAll rs) = encodeAll (drop n rs)) as ->.
  { rewrite <- (take_drop n rs) at 2. rewrite encodeAll_app. apply drop_app_length. }
  rewrite splitLines_encodeAll. by apply readLoop_encoded, Forall_drop.
Qed.

(** No line is torn. *)
Definition untorn (io : list lineResult) : Prop :=
  Forall (fun r => match r with LineOK | LineFailed O => True | _ => False end) io.

(** The loop appends whole lines: all of them when it returns no error. *)
Lemma writeLines_files : forall rs io s, untorn io ->
  exists stored, stored `prefix_of` rs /\ ((writeLines io rs s).1 = false -> stored = rs) /\
  Forall (fun r => is_Some (marshal r)) stored /\ (sp_handle s <> Open -> stored = []) /\
  (writeLines io rs s).2 =
    set_files (sp_size s + Z.of_nat (length (encodeAll stored))) (sp_cur s ++ encodeAll stored) (sp_old s) s.
Proof.
  assert (forall s, s = set_files (sp_size s + Z.of_nat (length (encodeAll [])))
    (sp_cur s ++ encodeAll []) (sp_old s) s) as Hid.
  { intros s. simpl. rewrite app_nil_r, Z.add_0_r. by destruct s. }
  induction rs as [|r rs IH]; intros io s Hu; cbn [writeLines].
  { exists []. by split_and!; try apply Hid. }
  assert (exists stored, stored `prefix_of` r :: rs /\ (true = false -> stored = r :: rs) /\
    Forall (fun r => is_Some (marshal r)) stored /\ (sp_handle s <> Open -> stored = []) /\
    s = set_files (sp_size s + Z.of_nat (length (encodeAll stored))) (sp_cur s ++ encodeAll stored) (sp_old s) s) as Hnone.
  { exists []. by split_and!; try apply Hid; try apply prefix_nil. }
  destruct (marshal r) as [data|] eqn:Em; [|done]. destruct (sp_handle s) eqn:Eh; [|done].
  assert (untorn (tl io)) as Hu' by (unfold untorn in *; destruct Hu; [constructor|done]).
  destruct io as [|[|[|n]] io]; cbn [hd tl take] in *; try (by inversion Hu).
  1,2: edestruct (IH _ (set_files (sp_size s + Z.of_nat (length (data ++ [newline]))) (sp_cur s ++ data ++ [newline]) (sp_old s) s) Hu')
      as (stored & [post Hpre] & Hok & Hm & Hc & E); exists (r :: stored);
    (assert (encodeLine r = data ++ [newline]) as El by (unfold encodeLine; by rewrite Em)); split_and!;
    [exists post; by rewrite Hpre|intros; f_equal; auto|by constructor; [rewrite Em|]|done|
     rewrite E, encodeAll_cons, El, !length_app; unfold set_files; cbn [sp_size sp_cur sp_old sp_maxBytes sp_handle sp_cursor sp_readUndecodable sp_undecodable sp_unloggedLines sp_lastLinesLog]; f_equal; [rewrite ?length_app; lia|by rewrite !app_assoc]].
  destruct Hnone as (stored & ? & ? & ? & ? & E). exists stored. cbn [fst snd]. rewrite app_nil_r. split_and!; try done.
  rewrite <- E. by destruct s.
Qed.
End Codec.
