(* ===== verification/Forwarder.v ===== *)
(** * Forwarding the spool ([internal/forward/forwarder.go], [RedisForwarder])

    The forwarder reads batches from the spool at its cursor and publishes them
    to the write queue.  [Publish] is a parameter of each tick: [None] when it
    succeeded, [Some msg] with the error's text; the outcomes of the calls of a
    write are parameters of the write.  The theorems say when the records that
    writes stored, all those of acknowledged writes among them, are published in
    order, and that a rotation while the cursor still belongs to a removed file
    loses spans. *)
From Stdlib Require Import Ascii.
From S2P Require Import Prelude Model SpanLedger Spool.

Definition defaultBatchSize : nat := 500.

Definition maxRetryDelay : Z := 30 * second.

Definition dropReportInterval : Z := minute.

(** [strings.Contains] *)
Fixpoint containsBytes (sub s : list ascii) : bool :=
  hasPrefix sub s || match s with [] => false | _ :: s => containsBytes sub s end.

Definition Contains (s sub : string) : bool :=
  containsBytes (String.list_ascii_of_string sub) (String.list_ascii_of_string s).

(** [isQueueFullError]; [None] is a nil error. *)
Definition isQueueFullError (err : option string) : bool :=
  match err with
  | None => false
  | Some s => Contains s "OOM" || Contains s "maxmemory"
  end.

(** [RedisForwarder] with its spool, the local variables [cursor] and
    [retryDelay] of [Run], and the batches it disposed of, in order: [true] for
    published, [false] for dropped because the queue was full. *)
Record RedisForwarder := mkRedisForwarder {
  rf_spool : Spool;
  rf_cursor : Z;
  rf_retryDelay : Z;
  rf_ledger : option Tally;
  rf_droppedBatches : Z;
  rf_droppedSpans : Z;
  rf_lastDropReport : option Z;
  rf_batches : list (bool * list SpanRecord);
}.

Definition set_spool (s : Spool) (f : RedisForwarder) : RedisForwarder :=
  mkRedisForwarder s (rf_cursor f) (rf_retryDelay f) (rf_ledger f) (rf_droppedBatches f)
    (rf_droppedSpans f) (rf_lastDropReport f) (rf_batches f).

Definition set_loop (cursor delay : Z) (f : RedisForwarder) : RedisForwarder :=
  mkRedisForwarder (rf_spool f) cursor delay (rf_ledger f) (rf_droppedBatches f)
    (rf_droppedSpans f) (rf_lastDropReport f) (rf_batches f).

Definition set_drops (ledger : option Tally) (batches spans : Z) (last : option Z)
  (f : RedisForwarder) : RedisForwarder :=
  mkRedisForwarder (rf_spool f) (rf_cursor f) (rf_retryDelay f) ledger batches spans last
    (rf_batches f).

Definition logBatch (published : bool) (rs : list SpanRecord) (f : RedisForwarder)
  : RedisForwarder :=
  mkRedisForwarder (rf_spool f) (rf_cursor f) (rf_retryDelay f) (rf_ledger f)
    (rf_droppedBatches f) (rf_droppedSpans f) (rf_lastDropReport f)
    (rf_batches f ++ [(published, rs)]).

(** [RedisForwarder.reportDrops] *)
Definition reportDrops (now : Z) (force : bool) (f : RedisForwarder) : RedisForwarder :=
  let recent := match rf_lastDropReport f with
                | Some t => sat64 (now - t) <? dropReportInterval
                | None => false
                end in
  if (rf_droppedBatches f =? 0) || (negb force && recent) then f
  else set_drops (rf_ledger f) 0 0 (Some now) f.

(** [RedisForwarder.dropBatch] *)
Definition dropBatch (now : Z) (records : list SpanRecord) (f : RedisForwarder)
  : RedisForwarder :=
  reportDrops now false
    (set_drops (Tally_AddSpans (rf_ledger f) Failed records 1) (rf_droppedBatches f + 1)
       (rf_droppedSpans f + Z.of_nat (length records)) (rf_lastDropReport f) f).

Section Codec.
Context `{LineCodec}.

(** [RedisForwarder.forwardBatch]: the next cursor, the batch size and whether
    an error is returned.  [publish] is what [Publish] returned, [ctxErr]
    whether the context had ended. *)
Definition forwardBatch (now : Z) (publish : option string) (ctxErr : bool) (cursor : Z)
  (f : RedisForwarder) : Z * Z * bool * RedisForwarder :=
  let f := reportDrops now false f in
  let '(records, newCursor, sp) := Spool_Read now cursor defaultBatchSize (rf_spool f) in
  let f := set_spool sp f in
  match records with
  | [] => (cursor, 0, false, f)
  | _ =>
      let finishBatch published f :=
        let f := logBatch published records f in
        (newCursor, Z.of_nat (length records), false,
         set_spool (SaveCursor now newCursor (rf_spool f)) f) in
      match publish with
      | None => finishBatch true f
      | Some _ =>
          if ctxErr then (cursor, 0, true, f)
          else if negb (isQueueFullError publish) then (cursor, 0, true, f)
          else finishBatch false (dropBatch now records f)
      end
  end.

(** One tick of [RedisForwarder.Run]. *)
Definition runTick (now : Z) (publish : option string) (f : RedisForwarder)
  : RedisForwarder :=
  let '(next, _, err, f) := forwardBatch now publish false (rf_cursor f) f in
  if err : bool then set_loop (rf_cursor f) (Z.min (rf_retryDelay f * 2 + second) maxRetryDelay) f
  else set_loop next 0 f.

(** The loop of [RedisForwarder.Drain]: [publishes] is what each [Publish]
    returned; with them used up the loop is still running ([None]). *)
Fixpoint drainBatches (now : Z) (publishes : list (option string)) (ctxErr : bool)
  (cursor total : Z) (f : RedisForwarder) : option (Z * bool * RedisForwarder) :=
  match publishes with
  | [] => None
  | p :: publishes =>
      let '(next, n, err, f) := forwardBatch now p ctxErr cursor f in
      if err : bool then Some (total, true, f)
      else if n =? 0 then Some (total, false, f)
      else drainBatches now publishes ctxErr next (total + n) f
  end.

(** [RedisForwarder.Drain]: the spans sent, the error flag, and the final drop
    report. *)
Definition Forwarder_Drain (now : Z) (publishes : list (option string)) (ctxErr : bool)
  (f : RedisForwarder) : option (Z * bool * RedisForwarder) :=
  '(total, err, f) ← drainBatches now publishes ctxErr (LoadCursor (rf_spool f)) 0 f;
  Some (total, err, reportDrops now true f).

(** A forwarder on an empty spool directory. *)
Definition freshForwarder (maxBytes : Z) (ledger : option Tally) : RedisForwarder :=
  mkRedisForwarder (NewSpool maxBytes [] None None) 0 0 ledger 0 0 None [].

(** ** The writer and the forwarder together *)

Inductive fwdEvent :=
  | FWrite (io : writeIO) (rs : list SpanRecord)
  | FTick (now : Z) (publish : option string).

Definition fwdStep (f : RedisForwarder) (e : fwdEvent) : RedisForwarder :=
  match e with
  | FWrite io rs => set_spool (Spool_Write io rs (rf_spool f)).2 f
  | FTick now publish => runTick now publish f
  end.

Definition runFwd (f : RedisForwarder) (es : list fwdEvent) : RedisForwarder :=
  foldl fwdStep f es.


Fixpoint acknowledged (f : RedisForwarder) (es : list fwdEvent) : list SpanRecord :=
  match es with
  | [] => []
  | e :: es =>
      (match e with
       | FWrite io rs => if (Spool_Write io rs (rf_spool f)).1 then [] else rs
       | FTick _ _ => []
       end) ++ acknowledged (fwdStep f e) es
  end.

(** What the forwarder disposed of, in order. *)
Definition consumed (f : RedisForwarder) : list SpanRecord := concat (rf_batches f).*2.





(** The spans of a file after a byte offset. *)
Definition spansAfter (cursor : Z) (content : list ascii) : list SpanRecord :=
  omap unmarshal (splitLines [] (drop (Z.to_nat cursor) content)).

(** What the spool still holds for the reader. *)
Definition unread (f : RedisForwarder) : list SpanRecord :=
  let s := rf_spool f in
  match sp_old s with
  | Some old => spansAfter (rf_cursor f) old ++ spansAfter 0 (sp_cur s)
  | None =>
      if Z.of_nat (length (sp_cur s)) <? rf_cursor f then spansAfter 0 (sp_cur s)
      else spansAfter (rf_cursor f) (sp_cur s)
  end.

(** ** The invariant *)

Definition at_boundary (n : nat) (rs : list SpanRecord) : Z :=
  Z.of_nat (length (encodeAll (take n rs))).





Lemma at_boundary_le n rs : at_boundary n rs <= Z.of_nat (length (encodeAll rs)).
Proof.
  unfold at_boundary. rewrite <- (take_drop n rs) at 2. rewrite encodeAll_app, length_app. lia.
Qed.


(** The invariant looks at the files, the cursor and the batches only. *)
Definition sameFiles (s s' : Spool) : Prop :=
  sp_maxBytes s' = sp_maxBytes s /\ sp_size s' = sp_size s /\ sp_cur s' = sp_cur s /\
  sp_handle s' = sp_handle s.

Lemma boundary_next n k rs :
  (n <= length rs)%nat ->
  exists n', (n' <= length rs)%nat /\ at_boundary n' rs =
    at_boundary n rs + Z.of_nat (length (encodeAll (take k (drop n rs)))) /\
    take k (drop n rs) ++ drop n' rs = drop n rs.
Proof.
  intros Hn. exists (n + length (take k (drop n rs)))%nat.
  assert (take (length (take k (drop n rs))) (drop n rs) = take k (drop n rs)) as Et.
  { rewrite length_take, length_drop. destruct (Nat.le_ge_cases k (length rs - n)).
    - by rewrite Nat.min_l by lia.
    - rewrite Nat.min_r by lia. rewrite !firstn_all2 by (rewrite ?length_drop; lia). done. }
  split_and!.
  - rewrite length_take, length_drop. lia.
  - unfold at_boundary. rewrite <- take_take_drop, encodeAll_app, length_app, Et. lia.
  - rewrite <- drop_drop, <- Et at 1. apply take_drop.
Qed.


Lemma encodeAll_nil rs : encodeAll rs = [] -> rs = [].
Proof. destruct rs as [|r rs]; [done|]. rewrite encodeAll_cons. unfold encodeLine. by destruct (default [] (marshal r)). Qed.

Lemma countUndecodable_files now s :
  sameFiles s (countUndecodable now s) /\ sp_old (countUndecodable now s) = sp_old s.
Proof. unfold countUndecodable. cbv zeta. by destruct (_ && _). Qed.

(** Reading the current file, in step with it or from past its end. *)
Lemma readCurrent_spec rc n cursor sp rs next sp' :
  Forall storable rc -> (sp_handle sp = Closed true -> sp_cur sp = []) ->
  sp_cur sp = encodeAll rc -> (n <= length rc)%nat ->
  (cursor = at_boundary n rc \/ (n = 0%nat /\ Z.of_nat (length (encodeAll rc)) < cursor)) ->
  readCurrent cursor defaultBatchSize sp = (rs, next, sp') ->
  sameFiles sp sp' /\ sp_old sp' = sp_old sp /\
  (rs <> [] -> exists n', (n' <= length rc)%nat /\ next = at_boundary n' rc /\
     rs ++ omap reread (drop n' rc) = omap reread (drop n rc)).
Proof.
  intros Hst Hm Ec Hn Hcu. unfold readCurrent. case_bool_decide as Eh; [by intros [= <- <- <-]|]. clear Hm.
  rewrite Ec. cbv zeta. set (c := if (0 <? cursor) && _ then 0 else cursor).
  assert (c = at_boundary n rc) as Hc.
  { unfold c. destruct Hcu as [->|[-> Hlt]].
    - pose proof (at_boundary_le n rc).
      destruct (Z.ltb_spec (Z.of_nat (length (encodeAll rc))) (at_boundary n rc)); [lia|].
      by rewrite andb_false_r.
    - rewrite (proj2 (Z.ltb_lt _ _) Hlt), (proj2 (Z.ltb_lt 0 cursor)) by lia. done. }
  rewrite Hc. unfold at_boundary at 1. rewrite readFile_encoded by done.
  intros [= <- <- <-]. split_and!; try done. intros _.
  destruct (boundary_next n defaultBatchSize rc Hn) as (n' & H1 & H2 & H3).
  exists n'. rewrite H2. split_and!; [done|done|]. by rewrite <- omap_app, H3.
Qed.

















(** ** Properties *)


(** ** Spans a queue outage loses *)

Definition allOK : writeIO := mkIO [] RotateOK.

(** A healthy forwarder with the given files, cursor and batches. *)
Definition forwarderAt (maxBytes : Z) (cur : list ascii) (old : option (list ascii)) (cursor : Z)
  (batches : list (bool * list SpanRecord)) (f : RedisForwarder) : Prop :=
  sp_maxBytes (rf_spool f) = maxBytes /\ sp_handle (rf_spool f) = Open /\
  sp_size (rf_spool f) = Z.of_nat (length (sp_cur (rf_spool f))) /\ sp_cur (rf_spool f) = cur /\
  sp_old (rf_spool f) = old /\ rf_cursor f = cursor /\ rf_batches f = batches /\
  rf_droppedBatches f = 0 /\ rf_droppedSpans f = 0.

Lemma writeLines_ok rs : Forall storable rs -> forall s, sp_handle s = Open -> (writeLines [] rs s).1 = false.
Proof.
  induction 1 as [|r rs [r' Hr] Hrs IH]; intros s Hh; [done|]. cbn [writeLines]. unfold reread in Hr.
  destruct (marshal r); [|done]. rewrite Hh. by apply IH.
Qed.

Lemma write_at maxBytes cur old cursor bs f rs : forwarderAt maxBytes cur old cursor bs f -> Forall storable rs ->
  (Spool_Write allOK rs (rf_spool f)).1 = false /\
  (Z.of_nat (length (cur ++ encodeAll rs)) < maxBytes ->
     forwarderAt maxBytes (cur ++ encodeAll rs) old cursor bs (fwdStep f (FWrite allOK rs))) /\
  (maxBytes <= Z.of_nat (length (cur ++ encodeAll rs)) -> old = None ->
     forwarderAt maxBytes [] (Some (cur ++ encodeAll rs)) cursor bs (fwdStep f (FWrite allOK rs))).
Proof.
  intros (Em & Eh & Es & Ec & Eo & Ecu & Eb & Ed & Eds) Hrs.
  destruct (writeLines_files rs [] (rf_spool f) (List.Forall_nil _)) as (stored & _ & Hall & _ & _ & E).
  pose proof (writeLines_ok rs Hrs _ Eh) as Hok. rewrite (Hall Hok) in E. cbn [fwdStep]. unfold Spool_Write.
  destruct (writeLines _ rs (rf_spool f)) as [err s1]. cbn [fst snd io_lines allOK] in *. subst err s1. cbn [sp_maxBytes sp_size set_files].
  rewrite Em, Es, <- Nat2Z.inj_add, <- length_app, Ec. unfold rotate. cbn [sp_handle sp_old set_files io_rotate allOK]. rewrite Eh, Eo.
  destruct (Z.leb_spec maxBytes (Z.of_nat (length (cur ++ encodeAll rs)))); destruct old; cbn [fst snd];
    split_and!; intros; try done; try lia; unfold forwarderAt; cbn; rewrite ?Eh; done.
Qed.

(** A tick that publishes the whole rotated file. *)
Lemma tick_reads maxBytes cur rs bs f now : forwarderAt maxBytes cur (Some (encodeAll rs)) 0 bs f -> Forall storable rs ->
  rs <> [] -> (length rs <= defaultBatchSize)%nat ->
  forwarderAt maxBytes cur (Some (encodeAll rs)) (Z.of_nat (length (encodeAll rs))) (bs ++ [(true, omap reread rs)]) (fwdStep f (FTick now None)).
Proof.
  intros (Em & Eh & Es & Ec & Eo & Ecu & Eb & Ed & Eds) Hst Hne Hlen. cbn [fwdStep]. unfold runTick, forwardBatch.
  assert (reportDrops now false f = f) as -> by (unfold reportDrops; by rewrite Ed).
  unfold Spool_Read. cbn [sp_old set_undecodable]. rewrite Eo, Ecu.
  pose proof (readFile_encoded rs 0 defaultBatchSize Hst) as Hr.
  change (take 0 rs) with (@nil SpanRecord) in Hr. change (drop 0 rs) with rs in Hr. change (Z.of_nat (length (encodeAll []))) with 0 in Hr.
  rewrite (firstn_all2 rs) in Hr by done. rewrite Hr, Z.add_0_l. destruct (omap reread rs) as [|r0 l0] eqn:Er.
  { destruct Hst as [|r rs [r' Hr'] _]; [done|]. cbn in Er. by rewrite Hr' in Er. }
  destruct (countUndecodable_files now (set_undecodable 0 (sp_undecodable (rf_spool f)) (sp_unloggedLines (rf_spool f)) (sp_lastLinesLog (rf_spool f))
    (set_undecodable 0 (sp_undecodable (rf_spool f)) (sp_unloggedLines (rf_spool f)) (sp_lastLinesLog (rf_spool f)) (rf_spool f)))) as [(C1 & C2 & C3 & C5) C4].
  unfold forwarderAt. cbn. unfold SaveCursor. cbn. rewrite C1, C2, C3, C4, C5, Eb. cbn. done.
Qed.

(** A tick that removes a rotated file its cursor is past, and publishes nothing: the
    cursor stays. *)
Lemma tick_removes maxBytes rs old cursor bs f now publish : forwarderAt maxBytes (encodeAll rs) (Some old) cursor bs f -> Forall storable rs ->
  Z.of_nat (length old) <= cursor -> (rs = [] \/ exists msg, publish = Some msg /\ isQueueFullError (Some msg) = false) ->
  forwarderAt maxBytes (encodeAll rs) None cursor bs (fwdStep f (FTick now publish)).
Proof.
  intros (Em & Eh & Es & Ec & Eo & Ecu & Eb & Ed & Eds) Hst Hlen Hp. cbn [fwdStep]. unfold runTick, forwardBatch.
  assert (reportDrops now false f = f) as -> by (unfold reportDrops; by rewrite Ed).
  unfold Spool_Read. cbn [sp_old set_undecodable]. rewrite Eo, Ecu. unfold readFile at 1. rewrite drop_ge by lia. cbn [splitLines readLoop].
  unfold defaultBatchSize. cbn [readLoop].
  set (s1 := set_files _ _ None _). destruct (countUndecodable_files now s1) as [(C1 & C2 & C3 & C5) C4].
  destruct (readCurrent 0 500 (countUndecodable now s1)) as [[rs' next] sp'] eqn:ER.
  assert (rs = [] -> rs' = []) as Hnil.
  { intros ->. revert ER. unfold readCurrent. rewrite C5, C3. cbn [sp_handle sp_cur s1 set_files set_undecodable]. rewrite Eh, Ec, bool_decide_false by done.
    cbn. by intros [= <- _ _]. }
  destruct (readCurrent_spec rs 0 0 (countUndecodable now s1) rs' next sp') as ((F1 & F2 & F3 & F5) & F4 & _);
    [done|rewrite C5; cbn; congruence|by rewrite C3|lia|by left|done|].
  assert (forall d, forwarderAt maxBytes (encodeAll rs) None cursor bs (set_loop cursor d (set_spool sp' f))) as Hat.
  { intros d. unfold forwarderAt. cbn. rewrite F1, F2, F3, F4, F5, C1, C2, C3, C4, C5. done. }
  destruct rs' as [|r0 l]; [apply Hat|]. destruct Hp as [->|(msg & -> & Hq)]; [by specialize (Hnil eq_refl)|].
  rewrite Hq. cbn [negb]. change (rf_cursor (set_spool sp' f)) with (rf_cursor f). rewrite Ecu. apply Hat.
Qed.

(** C40: a queue outage loses spans, against the comment on [RedisForwarder] ("the
    cursor advances only after a successful Publish, so a Redis outage causes the
    spool to accumulate without losing data"): [Read] removes the drained rotated
    file but the forwarder keeps its old cursor when the publish fails, and after
    the next rotation that cursor skips the new rotated file.  For any records and
    limit: when [rs1] filled the file and was published, a publish fails once, and
    the records that fill the file next take no more bytes than [rs1], all of them
    are gone.  Every write returned nil, nothing is unread, nothing was dropped or
    reported. *)
Theorem outage_loses_spans maxBytes lg rs1 rs2 rs3 t1 t2 t3 msg :
  0 < maxBytes -> Forall storable (rs1 ++ rs2 ++ rs3) -> (length rs1 <= defaultBatchSize)%nat ->
  maxBytes <= Z.of_nat (length (encodeAll rs1)) -> Z.of_nat (length (encodeAll rs2)) < maxBytes ->
  maxBytes <= Z.of_nat (length (encodeAll (rs2 ++ rs3))) <= Z.of_nat (length (encodeAll rs1)) ->
  isQueueFullError (Some msg) = false ->
  let es := [FWrite allOK rs1; FTick t1 None; FWrite allOK rs2; FTick t2 (Some msg); FWrite allOK rs3; FTick t3 None] in
  let f := runFwd (freshForwarder maxBytes lg) es in
  acknowledged (freshForwarder maxBytes lg) es = rs1 ++ rs2 ++ rs3 /\ consumed f = omap reread rs1 /\ unread f = [] /\
  Forall (fun b => b.1 = true) (rf_batches f) /\ rf_droppedSpans f = 0.
Proof.
  intros Hm [H1 [H2 H3]%Forall_app]%Forall_app Hlen L1 L2 [L3 L4] Hq. cbv zeta. unfold runFwd. cbn [foldl acknowledged].
  set (f0 := freshForwarder maxBytes lg).
  assert (forwarderAt maxBytes [] None 0 [] f0) as A0.
  { unfold forwarderAt, f0, freshForwarder, NewSpool. cbn. destruct (Z.leb_spec maxBytes 0); [lia|done]. }
  destruct (write_at _ _ _ _ _ _ _ A0 H1) as (W1 & _ & A1). specialize (A1 L1 eq_refl). set (f1 := fwdStep f0 _) in *.
  assert (rs1 <> []) as Hne by (intros ->; cbn in L1; lia).
  pose proof (tick_reads _ _ _ _ _ t1 A1 H1 Hne Hlen) as A2. set (f2 := fwdStep f1 _) in *.
  destruct (write_at _ _ _ _ _ _ _ A2 H2) as (W2 & A3 & _). specialize (A3 L2). set (f3 := fwdStep f2 _) in *.
  pose proof (tick_removes _ rs2 _ _ _ _ t2 (Some msg) A3 H2 ltac:(cbn; lia) ltac:(right; eauto)) as A4. set (f4 := fwdStep f3 _) in *.
  rewrite encodeAll_app in L3, L4.
  destruct (write_at _ _ _ _ _ _ _ A4 H3) as (W3 & _ & A5). specialize (A5 L3 eq_refl). set (f5 := fwdStep f4 _) in *.
  pose proof (tick_removes _ [] _ _ _ _ t3 None A5 (List.Forall_nil _) L4 (or_introl eq_refl)) as A6. set (f6 := fwdStep f5 _) in *.
  rewrite W1, W2, W3, app_nil_r. destruct A6 as (_ & _ & _ & Ec & Eo & Ecu & Eb & _ & Eds).
  split_and!; [done| |unfold unread; rewrite Eo, Ec, Ecu|by rewrite Eb; repeat constructor|done].
  - unfold consumed. rewrite Eb. cbn. apply app_nil_r.
  - cbn. rewrite (proj2 (Z.ltb_lt _ _)) by lia. done.
Qed.

End Codec.

(** ** A codec *)

Fixpoint posBits (p : positive) : list ascii :=
  match p with
  | xH => ["1"%char]
  | xO p => "0"%char :: posBits p
  | xI p => "1"%char :: posBits p
  end.

Fixpoint bitsPos (l : list ascii) : option positive :=
  match l with
  | [] => None
  | [c] => Some xH
  | c :: l => p ← bitsPos l; Some (if decide (c = "1"%char) then xI p else xO p)
  end.

Lemma bitsPos_posBits p : bitsPos (posBits p) = Some p.
Proof.
  induction p as [p IH|p IH|]; simpl; [| |done];
    (destruct (posBits p) eqn:E; [by destruct p|]; rewrite IH; simpl; reflexivity).
Qed.

Definition spanFields (r : SpanRecord) : list (Z + string) :=
  [inl (sr_ProjectID r); inr (sr_TraceID r); inr (sr_SpanID r); inr (sr_ParentSpanID r);
   inr (sr_Name r); inr (sr_Service r); inr (sr_Resource r); inr (sr_Kind r);
   inr (sr_Status r); inl (sr_StartTimeUs r); inl (sr_DurationUs r);
   inr (sr_Attributes r); inr (sr_Events r); inl (sr_SampleWeight r)].

Definition fieldsSpan (l : list (Z + string)) : option SpanRecord :=
  match l with
  | [inl a; inr b; inr c; inr d; inr e; inr f; inr g; inr h; inr i; inl j; inl k; inr l;
     inr m; inl n] => Some (mkSpanRecord a b c d e f g h i j k l m n)
  | _ => None
  end.

#[export] Instance SpanRecord_countable : Countable SpanRecord.
Proof. apply (inj_countable spanFields fieldsSpan). by intros []. Defined.

Lemma posBits_line p : newline ∉ posBits p.
Proof.
  induction p as [p IH|p IH|]; simpl; rewrite not_elem_of_cons; (split; [done|]);
    [done|done|apply not_elem_of_nil].
Qed.

Lemma bitsPos_line p :
  bitsPos (take (length (posBits p ++ [newline]) - 1) (posBits p ++ [newline])) = Some p.
Proof.
  rewrite length_app. change (length [newline]) with 1%nat.
  rewrite Nat.add_sub, take_app_length. apply bitsPos_posBits.
Qed.

Definition bitMarshal (r : SpanRecord) : list ascii := posBits (encode r).

Definition bitUnmarshal (l : list ascii) : option SpanRecord :=
  match bitsPos (take (length l - 1) l) with Some p => decode p | None => None end.

Lemma bitUnmarshal_bitMarshal r : bitUnmarshal (bitMarshal r ++ [newline]) = Some r.
Proof. unfold bitUnmarshal, bitMarshal. rewrite bitsPos_line. apply decode_encode. Qed.

Definition rawLen : nat := 40.

(** A codec that meets the law: the record as a line of binary digits.  As JSON
    does with raw attributes, it does not give every record back unchanged: it drops
    leading blanks of the attributes.  Records with attributes too long to encode are
    refused. *)
Fixpoint trimBlanks (s : string) : string :=
  match s with String c s' => if Ascii.eqb c " " then trimBlanks s' else s | EmptyString => s end.

Definition compacted (r : SpanRecord) : SpanRecord :=
  mkSpanRecord (sr_ProjectID r) (sr_TraceID r) (sr_SpanID r) (sr_ParentSpanID r) (sr_Name r) (sr_Service r) (sr_Resource r) (sr_Kind r)
    (sr_Status r) (sr_StartTimeUs r) (sr_DurationUs r) (trimBlanks (sr_Attributes r)) (sr_Events r) (sr_SampleWeight r).

Definition bitJSON (r : SpanRecord) : option (list ascii) :=
  if (String.length (sr_Attributes r) <=? rawLen)%nat then Some (bitMarshal (compacted r)) else None.

Lemma bitJSON_line r data : bitJSON r = Some data -> newline ∉ data.
Proof. unfold bitJSON. case_match; [|done]. intros [= <-]. apply posBits_line. Qed.

#[export] Instance bitCodec : LineCodec :=
  { marshal := bitJSON; unmarshal := bitUnmarshal; marshal_one_line := bitJSON_line }.

Lemma bitCodec_storable r : is_Some (marshal r) -> storable r.
Proof.
  unfold storable, reread. cbn. unfold bitJSON. case_match; [|by intros [? ?]]. intros _. cbn.
  rewrite bitUnmarshal_bitMarshal. done.
Qed.

(** ** Witnesses *)

Definition f_span : SpanRecord := mkSpanRecord 1 "a" "b" "" "n" "" "" "" "" 7 1 " {}" "" 1.


Definition f_lineLen : Z := Z.of_nat (length (encodeAll [f_span])).

(** Two spans fill a file. *)
Definition f_max : Z := 2 * f_lineLen.



Lemma outage_loses_spans_witness :
  let es := [FWrite allOK [f_span; f_span]; FTick 1 None; FWrite allOK [f_span];
             FTick 2 (Some "dial tcp: connection refused"%string); FWrite allOK [f_span]; FTick 3 None] in
  let f := runFwd (freshForwarder f_max None) es in
  acknowledged (freshForwarder f_max None) es = [f_span; f_span] ++ [f_span] ++ [f_span] /\
  consumed f = omap reread [f_span; f_span] /\ unread f = [] /\
  Forall (fun b => b.1 = true) (rf_batches f) /\ rf_droppedSpans f = 0.
Proof.
  assert (Forall storable ([f_span; f_span] ++ [f_span] ++ [f_span])) as Hs
    by (apply Forall_forall; intros r Hr; apply bitCodec_storable; cbn in Hr; set_unfold in Hr; destruct_or! Hr; subst; eexists; reflexivity).
  apply (outage_loses_spans f_max None [f_span; f_span] [f_span] [f_span] 1 2 3 "dial tcp: connection refused"%string);
    [vm_compute; reflexivity|exact Hs|vm_compute; lia|vm_compute; discriminate|vm_compute; reflexivity|
     vm_compute; split; discriminate|vm_compute; reflexivity].
Defined.
