(* ===== verification/WriteScheduler.v ===== *)
(** * The write scheduler ([internal/writescheduler/scheduler.go])

    All database writes run on one goroutine, high priority first.  [Submit]
    callers, the scheduler goroutine and the watchdog are interleaved by a step
    relation: every channel operation and every arm of a [select] is a step.
    A caller is identified by a number; its job's function is the environment's,
    which chooses the result when the job finishes. *)
From S2P Require Import Prelude.

(** [Priority] *)
Inductive Priority := Low | High.

#[export] Instance Priority_eq_dec : EqDecision Priority.
Proof. solve_decision. Defined.

Definition NoRows : Z := -1.

(** [result]: rows and whether the job returned an error. *)
Record result := mkResult { res_rows : Z; res_err : bool }.

(** Channel capacities of [New]. *)
Definition highCap : nat := 64.

Definition lowCap : nat := 512.

(** [Scheduler.logSlowWrite]: the level of the slow-write line, if any. *)
Inductive logLevel := LevelWarn | LevelError.

Definition slowThreshold : Z := 2 * second.

Definition reportThreshold : Z := 10 * second.

Definition stuckThreshold : Z := 30 * second.

Definition logSlowWrite (dur : Z) : option logLevel :=
  if dur <? slowThreshold then None
  else if reportThreshold <=? dur then Some LevelError else Some LevelWarn.

(** Where the scheduler goroutine is: the two [select]s of [Run], executing a
    job (in [Run] or in [drain]), the two [select]s of [drain], after [drain]
    and after [close(stopped)]. *)
Inductive pc :=
  | AtOuter | AtInner
  | Executing (id : nat) (draining : bool)
  | DrainOuter | DrainInner
  | Returned | Closed.

(** How [SubmitRows] returned. *)
Inductive outcome := GotResult (r : result) | ErrStopped | CtxErr.

(** Where a caller of [SubmitRows] is: before the enqueue [select], after it, or
    returned. *)
Inductive caller := Enqueueing (p : Priority) | Waiting (p : Priority) | Finished (o : outcome).

(** [Scheduler] with its callers.  [sc_results] are the filled result channels,
    [sc_entered] the jobs that entered each queue and [sc_executed] the jobs that
    started executing, oldest first. *)
Record Scheduler := mkScheduler {
  sc_high : list nat;
  sc_low : list nat;
  sc_pc : pc;
  sc_callers : gmap nat caller;
  sc_results : gmap nat result;
  sc_entered : Priority -> list nat;
  sc_executed : list (Priority * nat);
  sc_inFlight : bool;
  sc_curSeq : Z;
  sc_dumpedAt : Z;
  sc_dumping : option Z;
  sc_dumps : list Z;
}.

Definition sc_stopped (s : Scheduler) : Prop := sc_pc s = Closed.

(** [New] *)
Definition newScheduler : Scheduler :=
  mkScheduler [] [] AtOuter ∅ ∅ (fun _ => []) [] false 0 0 None [].

Definition queueOf (p : Priority) (s : Scheduler) : list nat :=
  match p with Low => sc_low s | High => sc_high s end.

Definition capOf (p : Priority) : nat := match p with Low => lowCap | High => highCap end.

Definition set_caller (id : nat) (c : caller) (s : Scheduler) : Scheduler :=
  mkScheduler (sc_high s) (sc_low s) (sc_pc s) (<[id := c]> (sc_callers s)) (sc_results s)
    (sc_entered s) (sc_executed s) (sc_inFlight s) (sc_curSeq s) (sc_dumpedAt s)
    (sc_dumping s) (sc_dumps s).

Definition set_pc (x : pc) (s : Scheduler) : Scheduler :=
  mkScheduler (sc_high s) (sc_low s) x (sc_callers s) (sc_results s)
    (sc_entered s) (sc_executed s) (sc_inFlight s) (sc_curSeq s) (sc_dumpedAt s)
    (sc_dumping s) (sc_dumps s).

(** [ch <- j] *)
Definition enqueue (id : nat) (p : Priority) (s : Scheduler) : Scheduler :=
  mkScheduler
    (match p with High => sc_high s ++ [id] | Low => sc_high s end)
    (match p with Low => sc_low s ++ [id] | High => sc_low s end)
    (sc_pc s) (<[id := Waiting p]> (sc_callers s)) (sc_results s)
    (fun q => if decide (p = q) then sc_entered s q ++ [id] else sc_entered s q)
    (sc_executed s) (sc_inFlight s) (sc_curSeq s) (sc_dumpedAt s)
    (sc_dumping s) (sc_dumps s).

(** Receive the head of a queue and start [execute]: the in-flight record is
    set and the sequence number bumped. *)
Definition startJob (p : Priority) (id : nat) (rest : list nat) (draining : bool)
  (s : Scheduler) : Scheduler :=
  mkScheduler
    (match p with High => rest | Low => sc_high s end)
    (match p with Low => rest | High => sc_low s end)
    (Executing id draining) (sc_callers s) (sc_results s) (sc_entered s)
    (sc_executed s ++ [(p, id)]) true (sc_curSeq s + 1) (sc_dumpedAt s)
    (sc_dumping s) (sc_dumps s).

(** The end of [execute]: the in-flight record is cleared and the result sent. *)
Definition finishJob (id : nat) (draining : bool) (r : result) (s : Scheduler) : Scheduler :=
  mkScheduler (sc_high s) (sc_low s) (if draining then DrainOuter else AtOuter)
    (sc_callers s) (<[id := r]> (sc_results s)) (sc_entered s) (sc_executed s) false
    (sc_curSeq s) (sc_dumpedAt s)
    (sc_dumping s) (sc_dumps s).

(** One tick of [watchdog] that dumps: the job's sequence number is read under the
    mutex and the stacks are logged; [dumpedAt] is written under the mutex later,
    when another job may already be in flight. *)
Definition watchdogDump (s : Scheduler) : Scheduler :=
  mkScheduler (sc_high s) (sc_low s) (sc_pc s) (sc_callers s) (sc_results s) (sc_entered s)
    (sc_executed s) (sc_inFlight s) (sc_curSeq s) (sc_dumpedAt s)
    (Some (sc_curSeq s)) (sc_dumps s ++ [sc_curSeq s]).

Definition watchdogMark (seq : Z) (s : Scheduler) : Scheduler :=
  mkScheduler (sc_high s) (sc_low s) (sc_pc s) (sc_callers s) (sc_results s) (sc_entered s)
    (sc_executed s) (sc_inFlight s) (sc_curSeq s) seq None (sc_dumps s).

Inductive sstep : Scheduler -> Scheduler -> Prop :=
  (** [SubmitRows]: the first check *)
  | submit_open id p s :
      sc_callers s !! id = None -> ~ sc_stopped s ->
      sstep s (set_caller id (Enqueueing p) s)
  | submit_stopped id s :
      sc_callers s !! id = None -> sc_stopped s ->
      sstep s (set_caller id (Finished ErrStopped) s)
  (** the enqueue [select] *)
  | enqueue_send id p s :
      sc_callers s !! id = Some (Enqueueing p) -> (length (queueOf p s) < capOf p)%nat ->
      sstep s (enqueue id p s)
  | enqueue_ctx id p s :
      sc_callers s !! id = Some (Enqueueing p) ->
      sstep s (set_caller id (Finished CtxErr) s)
  | enqueue_stopped id p s :
      sc_callers s !! id = Some (Enqueueing p) -> sc_stopped s ->
      sstep s (set_caller id (Finished ErrStopped) s)
  (** the result [select], with its inner one *)
  | wait_result id p r s :
      sc_callers s !! id = Some (Waiting p) -> sc_results s !! id = Some r ->
      sstep s (set_caller id (Finished (GotResult r)) s)
  | wait_stopped id p s :
      sc_callers s !! id = Some (Waiting p) -> sc_stopped s -> sc_results s !! id = None ->
      sstep s (set_caller id (Finished ErrStopped) s)
  | wait_ctx id p s :
      sc_callers s !! id = Some (Waiting p) ->
      sstep s (set_caller id (Finished CtxErr) s)
  (** [Run]'s outer and inner [select] *)
  | run_outer_high id rest s :
      sc_pc s = AtOuter -> sc_high s = id :: rest -> sstep s (startJob High id rest false s)
  | run_outer_default s :
      sc_pc s = AtOuter -> sc_high s = [] -> sstep s (set_pc AtInner s)
  | run_inner_high id rest s :
      sc_pc s = AtInner -> sc_high s = id :: rest -> sstep s (startJob High id rest false s)
  | run_inner_low id rest s :
      sc_pc s = AtInner -> sc_low s = id :: rest -> sstep s (startJob Low id rest false s)
  | run_inner_ctx s :
      sc_pc s = AtInner -> sstep s (set_pc DrainOuter s)
  (** [execute] returning *)
  | exec_done id d r s :
      sc_pc s = Executing id d -> sstep s (finishJob id d r s)
  (** [drain] *)
  | drain_high id rest s :
      sc_pc s = DrainOuter -> sc_high s = id :: rest -> sstep s (startJob High id rest true s)
  | drain_high_empty s :
      sc_pc s = DrainOuter -> sc_high s = [] -> sstep s (set_pc DrainInner s)
  | drain_low id rest s :
      sc_pc s = DrainInner -> sc_low s = id :: rest -> sstep s (startJob Low id rest true s)
  | drain_low_empty s :
      sc_pc s = DrainInner -> sc_low s = [] -> sstep s (set_pc Returned s)
  | close_stopped s :
      sc_pc s = Returned -> sstep s (set_pc Closed s)
  (** [watchdog]: a job in flight for longer than the threshold, not dumped yet *)
  | watchdog_dump age s :
      sc_dumping s = None ->
      sc_inFlight s = true -> stuckThreshold <= age -> sc_curSeq s <> sc_dumpedAt s ->
      sstep s (watchdogDump s)
  | watchdog_mark seq s :
      sc_dumping s = Some seq -> sstep s (watchdogMark seq s).

(** ** The invariant *)

Definition executedOf (p : Priority) (s : Scheduler) : list nat :=
  omap (fun pe : Priority * nat => if decide (pe.1 = p) then Some pe.2 else None) (sc_executed s).

Definition executedIds (s : Scheduler) : list nat := (sc_executed s).*2.

(** The job being executed, if any. *)
Definition running (s : Scheduler) : option nat :=
  match sc_pc s with Executing id _ => Some id | _ => None end.

(** The last job the watchdog has dumped or is dumping. *)
Definition lastDump (s : Scheduler) : Z := default (sc_dumpedAt s) (sc_dumping s).

Record schedInv (s : Scheduler) : Prop := {
  ii_fifo : forall p, sc_entered s p = executedOf p s ++ queueOf p s;
  ii_caps : forall p, (length (queueOf p s) <= capOf p)%nat;
  ii_nodup : NoDup (sc_entered s High ++ sc_entered s Low);
  ii_fresh : forall id p, id ∈ sc_entered s p ->
    exists c, (sc_callers s !! id) = Some c /\ (forall q, c <> Enqueueing q);
  ii_results : forall id r, sc_results s !! id = Some r ->
    id ∈ executedIds s /\ running s <> Some id;
  ii_done : forall id, id ∈ executedIds s -> is_Some (sc_results s !! id) \/ running s = Some id;
  ii_running : forall id, running s = Some id ->
    id ∈ executedIds s /\ sc_results s !! id = None;
  ii_outcomes : forall id o, sc_callers s !! id = Some (Finished o) ->
    match o with
    | GotResult r => sc_results s !! id = Some r
    | ErrStopped => (id ∉ executedIds s) /\ sc_stopped s
    | CtxErr => True
    end;
  ii_waiting : forall id p, sc_callers s !! id = Some (Waiting p) -> id ∈ sc_entered s p;
  ii_watch : lastDump s <= sc_curSeq s /\ Forall (fun d => d <= lastDump s) (sc_dumps s) /\
    StronglySorted Z.lt (sc_dumps s) /\ 0 <= sc_curSeq s;
}.

Lemma schedInv_new : schedInv newScheduler.
Proof.
  split; simpl; try done.
  - by intros [].
  - intros []; simpl; unfold lowCap, highCap; lia.
  - constructor.
  - intros id p H. by apply not_elem_of_nil in H.
  - intros id H. by apply not_elem_of_nil in H.
  - split_and!; try done; constructor.
Qed.

Lemma nodup_entered p s : NoDup (sc_entered s High ++ sc_entered s Low) -> NoDup (sc_entered s p).
Proof. intros (H1 & _ & H2)%NoDup_app. by destruct p. Qed.

Lemma executedOf_in p id s : id ∈ executedOf p s -> id ∈ executedIds s.
Proof.
  unfold executedOf, executedIds. intros ([q x] & Hin & E)%list_elem_of_omap. simpl in E.
  case_decide; simplify_eq. by apply (list_elem_of_fmap_2 snd _ (p, id)).
Qed.

Lemma executedIds_in id s : id ∈ executedIds s -> exists p, id ∈ executedOf p s.
Proof.
  unfold executedOf, executedIds. intros ([p x] & -> & Hin)%list_elem_of_fmap.
  exists p. apply list_elem_of_omap. exists (p, x). split; [done|]. simpl. by rewrite decide_True.
Qed.

(** A queued job has not started. *)
Lemma queued_not_executed p id s :
  schedInv s -> id ∈ queueOf p s -> id ∉ executedIds s.
Proof.
  intros Hi Hq Hx. apply executedIds_in in Hx as [q Hx].
  pose proof (ii_nodup _ Hi) as Hn. pose proof (ii_fifo _ Hi) as Hf.
  destruct (decide (p = q)) as [->|Hne].
  - apply (nodup_entered q) in Hn. rewrite Hf in Hn.
    apply NoDup_app in Hn as (_ & Hd & _). by apply (Hd id).
  - apply NoDup_app in Hn as (_ & Hd & _).
    assert (id ∈ sc_entered s p) as H1 by (rewrite Hf; apply elem_of_app; by right).
    assert (id ∈ sc_entered s q) as H2 by (rewrite Hf; apply elem_of_app; by left).
    destruct p, q; try done; by apply (Hd id).
Qed.

Lemma schedInv_caller id c s :
  schedInv s ->
  (forall x, sc_callers s !! id = Some x -> forall q, c <> Enqueueing q) ->
  (forall p, c <> Waiting p) ->
  (forall o, c = Finished o ->
     match o with
     | GotResult r => sc_results s !! id = Some r
     | ErrStopped => (id ∉ executedIds s) /\ sc_stopped s
     | CtxErr => True
     end) ->
  (sc_callers s !! id = None -> forall p, id ∉ sc_entered s p) ->
  schedInv (set_caller id c s).
Proof.
  intros [] Hx Hw Ho Hno. split; try done; simpl.
  - intros i p Hi. destruct (decide (id = i)) as [<-|].
    + rewrite lookup_insert_eq. exists c. split; [done|].
      destruct (sc_callers s !! id) as [x|] eqn:E; [by eapply Hx|]. by destruct (Hno eq_refl p).
    + rewrite lookup_insert_ne by done. eauto.
  - intros i o. destruct (decide (id = i)) as [<-|].
    + rewrite lookup_insert_eq. intros [= ->]. by apply Ho.
    + rewrite lookup_insert_ne by done. apply ii_outcomes0.
  - intros i p. destruct (decide (id = i)) as [<-|].
    + rewrite lookup_insert_eq. intros [= ->]. by destruct (Hw p).
    + rewrite lookup_insert_ne by done. apply ii_waiting0.
Qed.

Lemma schedInv_pc x s :
  schedInv s -> running s = None -> (forall id d, x <> Executing id d) ->
  sc_pc s <> Closed -> schedInv (set_pc x s).
Proof.
  intros [] Hr Hx Hc.
  assert (running (set_pc x s) = None) as Hr'.
  { unfold running. simpl. destruct x; try done. by destruct (Hx id draining). }
  split; try done; rewrite ?Hr'; try rewrite Hr in *; try done.
  intros id o H. specialize (ii_outcomes0 id o H). destruct o; try done.
  by destruct ii_outcomes0.
Qed.

Lemma executedOf_start p q id rest d s :
  executedOf q (startJob p id rest d s) =
  executedOf q s ++ (if decide (p = q) then [id] else []).
Proof. unfold executedOf. simpl. rewrite omap_app. csimpl. by case_decide. Qed.

Lemma schedInv_start p id rest d s :
  schedInv s -> queueOf p s = id :: rest -> running s = None -> sc_pc s <> Closed ->
  schedInv (startJob p id rest d s).
Proof.
  intros Hi Hq Hr Hc.
  assert (id ∉ executedIds s) as Hnx by (eapply (queued_not_executed p); [done|rewrite Hq; by left]).
  assert (executedIds (startJob p id rest d s) = executedIds s ++ [id]) as Eids.
  { unfold executedIds. simpl. by rewrite fmap_app. }
  assert (forall q, queueOf q (startJob p id rest d s) =
    if decide (p = q) then rest else queueOf q s) as Eq by by intros []; destruct p.
  destruct Hi. split; rewrite ?Eids; try done.
  - intros q. rewrite executedOf_start, Eq. simpl. rewrite ii_fifo0.
    case_decide; [subst q; rewrite Hq; by rewrite <- app_assoc|by rewrite app_nil_r].
  - intros q. rewrite Eq. specialize (ii_caps0 q). case_decide; [|done]. subst q.
    rewrite Hq in ii_caps0. simpl in ii_caps0. lia.
  - intros i r H. destruct (ii_results0 i r H) as [H1 _]. unfold running. simpl.
    split; [set_solver|]. intros [= ->]. done.
  - intros i [Hin| ->%list_elem_of_singleton]%elem_of_app; [|by right].
    destruct (ii_done0 i Hin) as [?|?]; [by left|congruence].
  - intros i. unfold running. simpl. intros [= <-]. split; [set_solver|].
    destruct (sc_results s !! id) eqn:E; [|done]. by destruct (ii_results0 _ _ E).
  - intros i o H. specialize (ii_outcomes0 i o H). destruct o; try done.
    by destruct ii_outcomes0.
  - destruct ii_watch0 as (? & ? & ? & ?). unfold lastDump in *. simpl. split_and!; try done; lia.
Qed.

Lemma schedInv_finish id d r s :
  schedInv s -> sc_pc s = Executing id d -> schedInv (finishJob id d r s).
Proof.
  intros [] Hpc.
  assert (running s = Some id) as Hr by (unfold running; by rewrite Hpc).
  assert (running (finishJob id d r s) = None) as Hr' by (unfold running; simpl; by destruct d).
  destruct (ii_running0 id Hr) as [Hin Hno].
  split; try done; rewrite ?Hr'; try done; simpl.
  - intros i r' [[<- _]|[_ H]]%lookup_insert_Some; [done|]. by destruct (ii_results0 _ _ H).
  - intros i Hi. left. destruct (decide (id = i)) as [<-|Hne]; [rewrite lookup_insert_eq; eauto|].
    rewrite lookup_insert_ne by done. destruct (ii_done0 i Hi); [done|congruence].
  - intros i o H. specialize (ii_outcomes0 i o H). destruct o as [r'| |]; [| |done].
    + rewrite lookup_insert_ne; [done|]. intros ->. congruence.
    + destruct ii_outcomes0 as [_ Hs]. unfold sc_stopped in Hs. congruence.
Qed.

Lemma schedInv_enqueue id p s :
  schedInv s -> sc_callers s !! id = Some (Enqueueing p) ->
  (length (queueOf p s) < capOf p)%nat -> schedInv (enqueue id p s).
Proof.
  intros [] Hc Hroom.
  assert (forall q, id ∉ sc_entered s q) as Hnew.
  { intros q Hin. destruct (ii_fresh0 id q Hin) as (c & E & Hn). rewrite Hc in E.
    injection E as <-. by destruct (Hn p). }
  assert (forall q, queueOf q (enqueue id p s) =
    if decide (p = q) then queueOf q s ++ [id] else queueOf q s) as Eq by by intros []; destruct p.
  split; try done; simpl.
  - intros q. rewrite Eq, ii_fifo0. change (executedOf q (enqueue id p s)) with (executedOf q s).
    case_decide; [by rewrite app_assoc|done].
  - intros q. rewrite Eq. case_decide; [subst q; rewrite length_app; simpl; lia|done].
  - assert (sc_entered (enqueue id p s) High ++ sc_entered (enqueue id p s) Low ≡ₚ
      id :: (sc_entered s High ++ sc_entered s Low)) as Hp.
    { unfold enqueue. cbn [sc_entered]. destruct p; repeat case_decide; try done.
      - rewrite app_assoc. symmetry. apply Permutation_cons_append.
      - rewrite <- app_assoc. symmetry. apply Permutation_middle. }
    unfold enqueue in Hp. cbn [sc_entered] in Hp. rewrite Hp. apply NoDup_cons. split; [|done].
    rewrite not_elem_of_app. done.
  - intros i q Hi. destruct (decide (id = i)) as [<-|Hne].
    + rewrite lookup_insert_eq. eexists. split; [done|]. done.
    + rewrite lookup_insert_ne by done. apply (ii_fresh0 i q).
      case_decide; [|done]. apply elem_of_app in Hi as [?|Hi]; [done|].
      apply list_elem_of_singleton in Hi. congruence.
  - intros i o. destruct (decide (id = i)) as [<-|]; [by rewrite lookup_insert_eq|].
    rewrite lookup_insert_ne by done. apply ii_outcomes0.
  - intros i q. destruct (decide (id = i)) as [<-|].
    + rewrite lookup_insert_eq. intros [= ->]. rewrite decide_True by done. set_solver.
    + rewrite lookup_insert_ne by done. intros Hi%ii_waiting0. case_decide; set_solver.
Qed.

Lemma schedInv_mark seq s :
  schedInv s -> sc_dumping s = Some seq -> schedInv (watchdogMark seq s).
Proof.
  intros [] Hd. split; try done. unfold lastDump in *. rewrite Hd in ii_watch0. done.
Qed.

Lemma schedInv_dump s :
  schedInv s -> sc_dumping s = None -> sc_curSeq s <> sc_dumpedAt s -> schedInv (watchdogDump s).
Proof.
  intros [] Hd Hne. split; try done. unfold lastDump in *. rewrite Hd in ii_watch0. simpl in *.
  destruct ii_watch0 as (Hle & Hall & Hs & Hp).
  split_and!; [lia| | |done].
  - apply Forall_app. split; [|by repeat constructor].
    eapply Forall_impl; [exact Hall|]. simpl. lia.
  - revert Hs Hall. generalize (sc_dumps s). clear -Hle Hne.
    induction l as [|x l IH]; intros Hs Hall; simpl; [repeat constructor|].
    inversion Hs; subst. apply Forall_cons in Hall as [Hx Hall].
    constructor; [by apply IH|]. apply Forall_app. split; [done|]. repeat constructor. lia.
Qed.

Lemma schedInv_step s s' : schedInv s -> sstep s s' -> schedInv s'.
Proof.
  intros Hi Hst. pose proof Hi as Hi0.
  assert (forall x, sc_pc s = x -> (forall id d, x <> Executing id d) -> running s = None) as Hrun.
  { intros x E Hx. unfold running. rewrite E. destruct x; try done. by destruct (Hx id draining). }
  assert (forall id, sc_callers s !! id = None -> forall p, id ∉ sc_entered s p) as Hnone.
  { intros id E p Hin. destruct (ii_fresh _ Hi id p Hin) as (c & Hc & _). congruence. }
  assert (forall id p, sc_callers s !! id = Some (Enqueueing p) -> id ∉ executedIds s) as Henq.
  { intros id p E Hx. apply executedIds_in in Hx as [q Hx].
    destruct (ii_fresh _ Hi id q) as (c & Hc & Hn).
    - rewrite (ii_fifo _ Hi). apply elem_of_app. by left.
    - rewrite E in Hc. injection Hc as <-. by destruct (Hn p). }
  assert (forall id, sc_callers s !! id = None -> id ∉ executedIds s) as Hnew.
  { intros id E Hx. apply executedIds_in in Hx as [q Hx].
    apply (Hnone id E q). rewrite (ii_fifo _ Hi). apply elem_of_app. by left. }
  destruct Hst; try (by apply schedInv_enqueue); try (by apply schedInv_finish);
    try (by apply schedInv_dump); try (by apply schedInv_mark);
    try (apply schedInv_caller; [done|intros ?; congruence|done|intros o [= <-]|by apply Hnone]);
    try (apply schedInv_pc; [done|by eapply Hrun|done|congruence]);
    try (apply schedInv_start; [done|done|by eapply Hrun|congruence]);
    try done; eauto.
  split; [|done]. intros Hx. destruct (ii_done _ Hi id Hx) as [[r Hr]|Hr]; [congruence|].
  unfold running, sc_stopped in *. by destruct (sc_pc s).
Qed.

Lemma schedInv_reachable s : rtc sstep newScheduler s -> schedInv s.
Proof.
  intros H. apply (rtc_ind_r (R := sstep) schedInv newScheduler); [apply schedInv_new| |done].
  intros y z _ Hyz IH. by eapply schedInv_step.
Qed.

(** Once closed, no job starts. *)
Lemma closed_step s s' :
  sstep s s' -> sc_stopped s -> sc_stopped s' /\ sc_executed s' = sc_executed s.
Proof. unfold sc_stopped. intros Hst Hc. destruct Hst; simpl; split; congruence. Qed.

Lemma closed_run s s' :
  rtc sstep s s' -> sc_stopped s -> sc_executed s' = sc_executed s.
Proof.
  induction 1 as [|x y z Hxy _ IH]; intros Hc; [done|].
  destruct (closed_step _ _ Hxy Hc) as [H1 H2]. rewrite IH by done. done.
Qed.

(** The next start while a high-priority job waits. *)
Definition nextIsHigh (j : nat) (s0 s : Scheduler) : Prop :=
  (sc_executed s = sc_executed s0 /\ head (sc_high s) = Some j /\
   (sc_pc s = AtOuter \/ sc_pc s = DrainOuter \/ exists id d, sc_pc s = Executing id d)) \/
  exists more, sc_executed s = sc_executed s0 ++ (High, j) :: more.

Lemma nextIsHigh_step j s0 s s' : nextIsHigh j s0 s -> sstep s s' -> nextIsHigh j s0 s'.
Proof.
  intros [(He & Hh & Hpc)|[more He]] Hst.
  - assert (forall id rest, sc_high s = id :: rest -> id = j) as Hj.
    { intros id rest E. rewrite E in Hh. by injection Hh. }
    assert (forall x, sc_pc s = x -> x = AtOuter \/ x = DrainOuter \/
      exists id d, x = Executing id d) as Hpc' by (intros x <-; done).
    destruct Hst; try (left; simpl; by split_and!);
      try (match goal with E : sc_high _ = ?i :: ?r |- _ =>
        right; exists []; simpl; by rewrite He, (Hj i r E) end);
      try (match goal with E : sc_high _ = [] |- _ => by rewrite E in Hh end);
      try (match goal with E : sc_pc _ = _ |- _ =>
        apply Hpc' in E as [?|[?|(? & ? & ?)]]; discriminate end).
    + left. destruct p; simpl; [done|]. split_and!; [done| |done].
      by destruct (sc_high s).
    + left. simpl. split_and!; [done|done|]. destruct d; auto.
  - right. destruct Hst; simpl; try (by exists more).
    all: rewrite He; eexists; rewrite <- app_assoc; reflexivity.
Qed.

(** ** Properties *)

(** C28: the write queue loses and repeats nothing, whatever the interleaving of
    submitters, cancelled contexts, shutdown and the scheduler: per priority the
    jobs that entered the queue are those executed, in order, followed by those
    still queued; no job is executed twice; the queues respect their capacity;
    and the watchdog dumps a stuck job at most once. *)
Theorem scheduler_fifo s :
  rtc sstep newScheduler s ->
  (forall p, sc_entered s p = executedOf p s ++ queueOf p s /\
     (length (queueOf p s) <= capOf p)%nat /\ NoDup (executedOf p s)) /\
  StronglySorted Z.lt (sc_dumps s).
Proof.
  intros Hr%schedInv_reachable. split; [|apply (ii_watch _ Hr)].
  intros p. split_and!; [apply Hr|apply Hr|].
  pose proof (nodup_entered p s (ii_nodup _ Hr)) as Hn. rewrite (ii_fifo _ Hr) in Hn.
  by apply NoDup_app in Hn as [? _].
Qed.

(** C27: what [SubmitRows] returns is true: a result means the job was executed
    and this is its result; [ErrStopped] means the job was not executed and never
    will be; and a job that was executed has its result delivered or still
    running, so shutdown never strands a caller whose write happened. *)
Theorem submit_outcome_sound s s' id :
  rtc sstep newScheduler s -> rtc sstep s s' ->
  (forall r, sc_callers s !! id = Some (Finished (GotResult r)) ->
     id ∈ executedIds s /\ sc_results s !! id = Some r) /\
  (sc_callers s !! id = Some (Finished ErrStopped) -> id ∉ executedIds s') /\
  (id ∈ executedIds s -> is_Some (sc_results s !! id) \/ running s = Some id).
Proof.
  intros Hr%schedInv_reachable Hs'. split_and!.
  - intros r H. pose proof (ii_outcomes _ Hr id _ H) as E. simpl in E.
    destruct (ii_results _ Hr id r E). done.
  - intros H. destruct (ii_outcomes _ Hr id _ H) as [Hn Hc]. simpl in *.
    unfold executedIds. by rewrite (closed_run _ _ Hs' Hc).
  - apply (ii_done _ Hr).
Qed.

(** An admin write waits for at most one transaction: when a high-priority job
    is first in its queue while any job executes, the next job started, in the
    main loop or while draining at shutdown, is that one, however many
    low-priority jobs are queued and whatever is submitted meanwhile. *)
Theorem high_priority_runs_next s s' i d j rest :
  sc_pc s = Executing i d -> sc_high s = j :: rest -> rtc sstep s s' ->
  sc_executed s' <> sc_executed s ->
  exists more, sc_executed s' = sc_executed s ++ (High, j) :: more.
Proof.
  intros Hpc Hh Hs' Hne.
  assert (nextIsHigh j s s') as [(E & _)|H]; [|done|done].
  apply (rtc_ind_r (R := sstep) (nextIsHigh j s) s); [| |done].
  - left. split_and!; [done|by rewrite Hh|eauto].
  - intros y z _ Hyz IH. by eapply nextIsHigh_step.
Qed.

(** ** A run the properties apply to

    A low-priority write executes while an admin write is queued behind it. *)
Definition demoBusy : Scheduler :=
  enqueue 1 High (set_caller 1 (Enqueueing High)
    (startJob Low 0 [] false (set_pc AtInner
      (enqueue 0 Low (set_caller 0 (Enqueueing Low) newScheduler))))).

Definition demoNext : Scheduler :=
  set_caller 0 (Finished (GotResult (mkResult 3 false)))
    (startJob High 1 [] false (finishJob 0 false (mkResult 3 false) demoBusy)).

Lemma demoBusy_run : rtc sstep newScheduler demoBusy.
Proof.
  unfold demoBusy.
  eapply rtc_l; [apply (submit_open 0 Low); done|].
  eapply rtc_l; [apply (enqueue_send 0 Low); [done|simpl; unfold lowCap; lia]|].
  eapply rtc_l; [by apply run_outer_default|].
  eapply rtc_l; [by apply run_inner_low|].
  eapply rtc_l; [apply (submit_open 1 High); done|].
  eapply rtc_l; [apply (enqueue_send 1 High); [done|simpl; unfold highCap; lia]|]. done.
Qed.

Lemma demoNext_run : rtc sstep demoBusy demoNext.
Proof.
  eapply rtc_l; [by apply (exec_done 0 false (mkResult 3 false))|].
  eapply rtc_l; [by apply run_outer_high|].
  eapply rtc_l; [apply (wait_result 0 Low (mkResult 3 false)); reflexivity|]. done.
Qed.

Lemma scheduler_fifo_witness :
  rtc sstep newScheduler demoBusy /\ sc_entered demoBusy Low = [0%nat] /\
  executedOf Low demoBusy ++ queueOf Low demoBusy = [0%nat].
Proof.
  split; [exact demoBusy_run|]. split; [reflexivity|].
  destruct (scheduler_fifo demoBusy demoBusy_run) as [H _]. destruct (H Low) as [E _].
  rewrite <- E. reflexivity.
Defined.

Lemma submit_outcome_sound_witness :
  sc_callers demoNext !! 0%nat = Some (Finished (GotResult (mkResult 3 false))) /\
  0%nat ∈ executedIds demoNext.
Proof.
  assert (sc_callers demoNext !! 0%nat = Some (Finished (GotResult (mkResult 3 false)))) as H
    by reflexivity.
  split; [exact H|].
  destruct (submit_outcome_sound demoNext demoNext 0
    (rtc_trans _ _ _ demoBusy_run demoNext_run) (rtc_refl _ _)) as [H1 _].
  apply (H1 _ H).
Defined.

Lemma high_priority_runs_next_witness :
  sc_pc demoBusy = Executing 0 false /\ sc_high demoBusy = [1%nat] /\
  exists more, sc_executed demoNext = sc_executed demoBusy ++ (High, 1%nat) :: more.
Proof.
  split; [reflexivity|]. split; [reflexivity|].
  apply (high_priority_runs_next demoBusy demoNext 0 false 1 []);
    [reflexivity|reflexivity|exact demoNext_run|discriminate].
Defined.
