(* ===== verification/TierStore.v ===== *)
(** * Tiered rollup tables ([internal/repository/repo_span_rollups.go],
    [repo_span_edges.go], [span_hist_sql.go])

    A table is a finite map from its primary key to its rows.  [upsert] is the
    [ON CONFLICT DO UPDATE] of the add statements and [replaceRow] the
    [INSERT OR REPLACE] of compaction.  [writeTierRows] writes sorted chunks,
    each a transaction that the database commits or rolls back as a whole;
    which chunks fail is the environment's choice.  [TierWriter] is what the
    accumulators rely on. *)
From S2P Require Import Prelude Varint SpanHist.

(** [SpanRollup]; the bucket is its Unix second. *)
Record SpanRollup := mkSpanRollup {
  ro_StepSeconds : Z;
  ro_Bucket : Z;
  ro_ProjectID : Z;
  ro_Service : string;
  ro_Name : string;
  ro_Kind : string;
  ro_IsRoot : bool;
  ro_Status : string;
  ro_HTTPStatus : Z;
  ro_Count : Z;
  ro_WeightedCount : Z;
  ro_WeightedSpans : Z;
  ro_SumDurationUs : Z;
  ro_MinUs : Z;
  ro_MaxUs : Z;
  ro_Hist : list Z;
}.

(** [SpanEdge] *)
Record SpanEdge := mkSpanEdge {
  ed_StepSeconds : Z;
  ed_Bucket : Z;
  ed_ProjectID : Z;
  ed_Source : string;
  ed_Target : string;
  ed_TargetType : string;
  ed_Count : Z;
  ed_ErrorCount : Z;
  ed_WeightedCount : Z;
  ed_WeightedSpans : Z;
  ed_SumDurationUs : Z;
  ed_MinUs : Z;
  ed_MaxUs : Z;
  ed_Hist : list Z;
}.

(** [SpanEdge.IsMarker] *)
Definition IsMarker (e : SpanEdge) : bool := bool_decide (ed_Target e = ""%string).

(** [SpanEdgeMarker] *)
Definition SpanEdgeMarker (step bucket : Z) : SpanEdge :=
  mkSpanEdge step bucket 0 "" "" "" 0 0 0 0 0 0 0 (Hist_Encode emptyHist).

(** [spanHistMerge], the SQL function [span_hist_merge]. *)
Definition spanHistMerge (a b : list Z) : list Z :=
  match MergeEncoded a b with
  | Some merged => merged
  | None => match Decode a with None => b | Some _ => a end
  end.

(** [compareBool] *)
Definition compareBool (a b : bool) : comparison :=
  if Bool.eqb a b then Eq else if a then Gt else Lt.

(** [cmp.Or]: the first comparison that is not equal. *)
Fixpoint cmpOr (cs : list comparison) : comparison :=
  match cs with
  | [] => Eq
  | Eq :: cs => cmpOr cs
  | c :: _ => c
  end.

(** [compareSpanRollupKey] *)
Definition compareSpanRollupKey (a b : SpanRollup) : comparison :=
  cmpOr [Z.compare (ro_StepSeconds a) (ro_StepSeconds b);
    Z.compare (ro_Bucket a) (ro_Bucket b);
    Z.compare (ro_ProjectID a) (ro_ProjectID b);
    String.compare (ro_Service a) (ro_Service b);
    String.compare (ro_Name a) (ro_Name b);
    String.compare (ro_Kind a) (ro_Kind b);
    compareBool (ro_IsRoot a) (ro_IsRoot b);
    String.compare (ro_Status a) (ro_Status b);
    Z.compare (ro_HTTPStatus a) (ro_HTTPStatus b)].

(** [compareSpanEdgeKey] *)
Definition compareSpanEdgeKey (a b : SpanEdge) : comparison :=
  cmpOr [Z.compare (ed_StepSeconds a) (ed_StepSeconds b);
    Z.compare (ed_Bucket a) (ed_Bucket b);
    Z.compare (ed_ProjectID a) (ed_ProjectID b);
    String.compare (ed_Source a) (ed_Source b);
    String.compare (ed_Target a) (ed_Target b);
    String.compare (ed_TargetType a) (ed_TargetType b)].

(** The primary keys. *)
Abbreviation rollupPK := (Z * Z * Z * string * string * string * bool * string * Z)%type.

Abbreviation edgePK := (Z * Z * Z * string * string * string)%type.

Definition spanRollupPK (s : SpanRollup) : rollupPK :=
  (ro_StepSeconds s, ro_Bucket s, ro_ProjectID s, ro_Service s, ro_Name s, ro_Kind s,
   ro_IsRoot s, ro_Status s, ro_HTTPStatus s).

Definition spanEdgePK (e : SpanEdge) : edgePK :=
  (ed_StepSeconds e, ed_Bucket e, ed_ProjectID e, ed_Source e, ed_Target e, ed_TargetType e).

(** [spanRollupAddSQL]: the row after a conflict; [ex] is the excluded row. *)
Definition spanRollupAddSQL (old ex : SpanRollup) : SpanRollup :=
  mkSpanRollup (ro_StepSeconds old) (ro_Bucket old) (ro_ProjectID old) (ro_Service old)
    (ro_Name old) (ro_Kind old) (ro_IsRoot old) (ro_Status old) (ro_HTTPStatus old)
    (ro_Count old + ro_Count ex)
    (ro_WeightedCount old + ro_WeightedCount ex)
    (ro_WeightedSpans old + ro_WeightedSpans ex)
    (ro_SumDurationUs old + ro_SumDurationUs ex)
    (Z.min (ro_MinUs old) (ro_MinUs ex))
    (Z.max (ro_MaxUs old) (ro_MaxUs ex))
    (spanHistMerge (ro_Hist old) (ro_Hist ex)).

(** [spanEdgeAddSQL] *)
Definition spanEdgeAddSQL (old ex : SpanEdge) : SpanEdge :=
  mkSpanEdge (ed_StepSeconds old) (ed_Bucket old) (ed_ProjectID old) (ed_Source old)
    (ed_Target old) (ed_TargetType old)
    (ed_Count old + ed_Count ex)
    (ed_ErrorCount old + ed_ErrorCount ex)
    (ed_WeightedCount old + ed_WeightedCount ex)
    (ed_WeightedSpans old + ed_WeightedSpans ex)
    (ed_SumDurationUs old + ed_SumDurationUs ex)
    (Z.min (ed_MinUs old) (ed_MinUs ex))
    (Z.max (ed_MaxUs old) (ed_MaxUs ex))
    (spanHistMerge (ed_Hist old) (ed_Hist ex)).

(** ** Chunked writes *)

(** What a failed write reports: [UnwrittenRowsError] with the rows not
    written, or an error that names none. *)
Inductive writeError (T : Type) := UnwrittenRows (rows : list T) | OtherError.
Arguments UnwrittenRows {T}.
Arguments OtherError {T}.

Definition spanRollupChunk : nat := 500.

(** [slices.Chunk] *)
Fixpoint chunksOf {A} (fuel n : nat) (l : list A) : list (list A) :=
  match fuel, l with
  | S fuel, _ :: _ => take n l :: chunksOf fuel n (drop n l)
  | _, _ => []
  end.

Definition Chunk {A} (n : nat) (l : list A) : list (list A) := chunksOf (length l) n l.

Section Writes.
Context {T K : Type} `{Countable K}.
Context (pk : T -> K) (onConflict : T -> T -> T) (compare : T -> T -> comparison).

Abbreviation table := (gmap K T).

(** One execution of an add statement. *)
Definition upsert (t : table) (row : T) : table :=
  match t !! pk row with
  | None => <[pk row := row]> t
  | Some old => <[pk row := onConflict old row]> t
  end.

(** One execution of a replace statement. *)
Definition replaceRow (t : table) (row : T) : table := <[pk row := row]> t.

(** [writeTierChunk]: one transaction; [false] is an error of any of its
    steps, after which [Rollback] leaves the table as it was. *)
Definition writeTierChunk (query : table -> T -> table) (ok : bool) (chunk : list T)
  (t : table) : option table :=
  if ok then Some (foldl query t chunk) else None.

Definition rowLe (a b : T) : Prop := compare a b <> Gt.

#[export] Instance rowLe_dec : RelDecision rowLe.
Proof. intros a b. unfold rowLe. apply _. Defined.

(** The loop of [writeTierRows]. *)
Fixpoint tierLoop (query : table -> T -> table) (oks : list bool) (sorted : list T)
  (chunks : list (list T)) (written : nat) (t : table) : option (writeError T) * table :=
  match chunks with
  | [] => (None, t)
  | c :: chunks =>
      match writeTierChunk query (hd true oks) c t with
      | None => (Some (UnwrittenRows (drop written sorted)), t)
      | Some t => tierLoop query (tl oks) sorted chunks (written + length c) t
      end
  end.

(** [writeTierRows]: [oks] says which chunks the database commits. *)
Definition writeTierRows (query : table -> T -> table) (chunkRows : nat)
  (oks : list bool) (rows : list T) (t : table) : option (writeError T) * table :=
  let sorted := merge_sort rowLe rows in
  tierLoop query oks sorted (Chunk chunkRows sorted) 0 t.
End Writes.

(** [Repository.AddSpanRollups], [ReplaceSpanRollups], [AddSpanEdges] and
    [ReplaceSpanEdges] *)
Definition AddSpanRollups : list bool -> list SpanRollup -> gmap rollupPK SpanRollup ->
  option (writeError SpanRollup) * gmap rollupPK SpanRollup :=
  writeTierRows compareSpanRollupKey (upsert spanRollupPK spanRollupAddSQL) spanRollupChunk.

Definition ReplaceSpanRollups : list bool -> list SpanRollup -> gmap rollupPK SpanRollup ->
  option (writeError SpanRollup) * gmap rollupPK SpanRollup :=
  writeTierRows compareSpanRollupKey (replaceRow spanRollupPK) spanRollupChunk.

Definition AddSpanEdges : list bool -> list SpanEdge -> gmap edgePK SpanEdge ->
  option (writeError SpanEdge) * gmap edgePK SpanEdge :=
  writeTierRows compareSpanEdgeKey (upsert spanEdgePK spanEdgeAddSQL) spanRollupChunk.

Definition ReplaceSpanEdges : list bool -> list SpanEdge -> gmap edgePK SpanEdge ->
  option (writeError SpanEdge) * gmap edgePK SpanEdge :=
  writeTierRows compareSpanEdgeKey (replaceRow spanEdgePK) spanRollupChunk.

(** ** What a tier writer promises *)

(** The rows a failed write says were not written. *)
Definition unwrittenRows {T} (rows : list T) (e : option (writeError T)) : list T :=
  match e with
  | None => []
  | Some (UnwrittenRows un) => un
  | Some OtherError => rows
  end.

(** A writer folds some of the rows into the table and names exactly the
    others; when no chunk fails it reports no error. *)
Class TierWriter {T K : Type} `{Countable K} (pk : T -> K) (onConflict : T -> T -> T)
  (write : list bool -> list T -> gmap K T -> option (writeError T) * gmap K T) := {
  tw_split oks rows t e t' :
    write oks rows t = (e, t') ->
    exists written, rows ≡ₚ written ++ unwrittenRows rows e /\
      t' = foldl (upsert pk onConflict) t written;
  tw_healthy rows t : (write [] rows t).1 = None;
}.

(** ** Lemmas *)

Lemma concat_chunksOf {A} (n fuel : nat) : forall l : list A,
  (0 < n)%nat -> (length l <= fuel)%nat -> mjoin (chunksOf fuel n l) = l.
Proof.
  induction fuel as [|fuel IH]; intros [|x l] Hn Hl; simpl in *; try done; [lia|].
  rewrite IH; [by rewrite take_drop| done|]. rewrite length_drop. simpl. lia.
Qed.

Lemma concat_Chunk {A} (n : nat) (l : list A) : (0 < n)%nat -> mjoin (Chunk n l) = l.
Proof. intros. by apply concat_chunksOf. Qed.

Section WriteLemmas.
Context {T K : Type} `{Countable K}.
Context (pk : T -> K) (onConflict : T -> T -> T) (compare : T -> T -> comparison).

Abbreviation addAll := (foldl (upsert pk onConflict)).

(** The loop writes a prefix of the sorted rows and reports the rest. *)
Lemma tierLoop_spec (query : gmap K T -> T -> gmap K T) sorted chunks : forall oks written t e t',
  drop written sorted = mjoin chunks ->
  tierLoop query oks sorted chunks written t = (e, t') ->
  exists done, mjoin chunks = done ++ unwrittenRows (mjoin chunks) e /\
    t' = foldl query t done /\ (e = None <-> Forall (eq true) (take (length chunks) oks)) /\
    e <> Some OtherError.
Proof.
  induction chunks as [|c chunks IH]; intros oks written t e t' Hd; simpl.
  { intros [= <- <-]. by exists []. }
  unfold writeTierChunk. destruct oks as [|[] oks]; simpl.
  3:{ intros [= <- <-]. exists []. simpl. rewrite Hd. simpl. split_and!; try done.
      split; [done|]. by inversion 1. }
  all: intros Hl; apply IH in Hl as (w & E & -> & Hn & Ho);
    [|by rewrite <- drop_drop, Hd; simpl; rewrite drop_app_length].
  all: exists (c ++ w); rewrite foldl_app; split_and!; try done.
  1,3: rewrite <- app_assoc, E at 1; destruct e as [[un|]|]; try done; simpl; congruence.
  - rewrite Hn. by rewrite take_nil.
  - rewrite Hn. split; [by constructor|by inversion 1].
Qed.

Lemma writeTierRows_spec query n oks rows (t : gmap K T) e t' :
  (0 < n)%nat ->
  writeTierRows compare query n oks rows t = (e, t') ->
  exists written, rows ≡ₚ written ++ unwrittenRows rows e /\ t' = foldl query t written /\
    (e = None <->
     Forall (eq true) (take (length (Chunk n (merge_sort (rowLe compare) rows))) oks)).
Proof.
  intros Hn Hw. unfold writeTierRows in Hw.
  apply tierLoop_spec in Hw as (w & E & Ht & Hs & Ho); [|by rewrite concat_Chunk].
  exists w. split_and!; [|done|done].
  rewrite concat_Chunk in E by done.
  rewrite <- (merge_sort_Permutation (rowLe compare) rows) at 1. rewrite E at 1.
  by destruct e as [[un|]|].
Qed.

(** A write that fails has a chunk that did. *)
Lemma writeTierRows_fails query n oks rows (t : gmap K T) err t' :
  writeTierRows compare query n oks rows t = (Some err, t') -> false ∈ oks.
Proof.
  unfold writeTierRows. generalize (merge_sort (rowLe compare) rows) at 1. intros sorted.
  generalize (Chunk n (merge_sort (rowLe compare) rows)) 0%nat. intros chunks.
  revert oks t. induction chunks as [|c chunks IH]; intros oks t written; cbn [tierLoop]; [done|].
  destruct oks as [|[] oks]; cbn [hd tl writeTierChunk]; [|intros E; right; by eapply IH|left].
  intros E. apply IH in E. by apply not_elem_of_nil in E.
Qed.

Lemma upsert_other t row q : q <> pk row -> upsert pk onConflict t row !! q = t !! q.
Proof. intros Hq. unfold upsert. by case_match; rewrite lookup_insert_ne. Qed.

Lemma upsert_same t row :
  upsert pk onConflict t row !! pk row =
  Some (from_option (fun old => onConflict old row) row (t !! pk row)).
Proof. unfold upsert. by case_match; rewrite lookup_insert_eq. Qed.

Lemma addAll_other w : forall t q, q ∉ pk <$> w -> addAll t w !! q = t !! q.
Proof.
  induction w as [|r w IH]; intros t q Hq; csimpl in *; [done|].
  apply not_elem_of_cons in Hq as [Hr Hq]. rewrite IH by done. by apply upsert_other.
Qed.

(** Rows with distinct keys meet the table as it was. *)
Lemma addAll_in w : forall t row, NoDup (pk <$> w) -> row ∈ w ->
  addAll t w !! pk row =
  Some (from_option (fun old => onConflict old row) row (t !! pk row)).
Proof.
  induction w as [|r w IH]; intros t row Hn Hin; csimpl in *; [by apply not_elem_of_nil in Hin|].
  apply NoDup_cons in Hn as [Hr Hn]. apply elem_of_cons in Hin as [->|Hin].
  - rewrite addAll_other by done. apply upsert_same.
  - rewrite IH by done. f_equal. rewrite upsert_other; [done|].
    intros E. apply Hr. rewrite <- E. by apply list_elem_of_fmap_2.
Qed.

(** A row that was written, or was there before, is there. *)
Lemma addAll_is_Some w : forall t q,
  q ∈ pk <$> w \/ is_Some (t !! q) -> is_Some (addAll t w !! q).
Proof.
  induction w as [|r w IH]; intros t q; csimpl.
  { intros [[]%not_elem_of_nil|?]; done. }
  intros Hq. apply IH. destruct (decide (q = pk r)) as [->|Hne].
  - right. rewrite upsert_same. eauto.
  - rewrite upsert_other by done. rewrite elem_of_cons in Hq.
    destruct Hq as [[?|?]|?]; [done|by left|by right].
Qed.

(** So their order does not matter. *)
Lemma addAll_perm w w' t : w ≡ₚ w' -> NoDup (pk <$> w) -> addAll t w = addAll t w'.
Proof.
  intros Hp Hn. apply map_eq. intros q.
  assert (NoDup (pk <$> w')) as Hn' by by rewrite <- Hp.
  destruct (decide (q ∈ pk <$> w)) as [Hq|Hq].
  - apply list_elem_of_fmap in Hq as (row & -> & Hin).
    rewrite !addAll_in; try done. by rewrite <- Hp.
  - rewrite !addAll_other; try done. by rewrite <- Hp.
Qed.
End WriteLemmas.

Section Writers.
Context {T K : Type} `{Countable K}.
Context (pk : T -> K) (onConflict : T -> T -> T) (compare : T -> T -> comparison).

Lemma writeTierRows_writer n :
  (0 < n)%nat ->
  TierWriter pk onConflict (writeTierRows compare (upsert pk onConflict) n).
Proof.
  intros Hn. split.
  - intros oks rows t e t' (w & ? & ? & _)%writeTierRows_spec; eauto.
  - intros rows t. destruct (writeTierRows _ _ _ _ _ _) as [e t'] eqn:E.
    apply writeTierRows_spec in E as (w & _ & _ & Hs); [|done].
    simpl. apply Hs. rewrite take_nil. constructor.
Qed.
End Writers.

#[export] Instance AddSpanRollups_writer :
  TierWriter spanRollupPK spanRollupAddSQL AddSpanRollups.
Proof. apply writeTierRows_writer. unfold spanRollupChunk. lia. Qed.

#[export] Instance AddSpanEdges_writer : TierWriter spanEdgePK spanEdgeAddSQL AddSpanEdges.
Proof. apply writeTierRows_writer. unfold spanRollupChunk. lia. Qed.

(** Writing again what a failed write left gives the undisturbed table. *)
Lemma retry_exact {T K : Type} `{Countable K} (pk : T -> K) onConflict write
  `{!TierWriter pk onConflict write} oks rows (t : gmap K T) :
  NoDup (pk <$> rows) ->
  (write [] (unwrittenRows rows (write oks rows t).1) (write oks rows t).2).2 =
  (write [] rows t).2.
Proof.
  intros Hn. destruct (write oks rows t) as [e t1] eqn:E1. simpl.
  destruct (write [] (unwrittenRows rows e) t1) as [e2 t2] eqn:E2.
  destruct (write [] rows t) as [e3 t3] eqn:E3. simpl.
  pose proof (tw_healthy (unwrittenRows rows e) t1) as H2.
  pose proof (tw_healthy rows t) as H3. rewrite E2 in H2. rewrite E3 in H3. simpl in *. subst.
  apply tw_split in E1 as (w1 & P1 & ->), E2 as (w2 & P2 & ->), E3 as (w3 & P3 & ->).
  simpl in *. rewrite app_nil_r in P2, P3.
  rewrite <- foldl_app. apply addAll_perm.
  - by rewrite <- P3, <- P2.
  - by rewrite <- P2, <- P1.
Qed.

(** ** Properties *)

(** A rollup write that stops at a failed chunk loses nothing and doubles
    nothing: its error names exactly the rows that are not in the table, so
    writing those again yields the table an undisturbed write would have left,
    whichever chunk failed. *)
Theorem AddSpanRollups_retry oks rows t :
  NoDup (spanRollupPK <$> rows) ->
  (AddSpanRollups [] (unwrittenRows rows (AddSpanRollups oks rows t).1)
    (AddSpanRollups oks rows t).2).2 = (AddSpanRollups [] rows t).2.
Proof. apply (retry_exact spanRollupPK spanRollupAddSQL AddSpanRollups). Qed.

Definition demoRow (name : string) (n : Z) : SpanRollup :=
  mkSpanRollup 300 600 1 "svc" name "server" true "ok" 200 n n n (n * 10) 10 10
    (Hist_Encode emptyHist).

Lemma AddSpanRollups_retry_witness :
  (AddSpanRollups [false] [demoRow "b" 2; demoRow "a" 1] ∅).1 =
    Some (UnwrittenRows [demoRow "a" 1; demoRow "b" 2]) /\
  (AddSpanRollups [] [demoRow "a" 1; demoRow "b" 2] ∅).2 =
  (AddSpanRollups [] [demoRow "b" 2; demoRow "a" 1] ∅).2.
Proof.
  split; [vm_compute; reflexivity|].
  apply (AddSpanRollups_retry [false] [demoRow "b" 2; demoRow "a" 1] ∅).
  apply NoDup_cons_2; [|apply NoDup_singleton]. by intros ?%list_elem_of_singleton.
Defined.
