(* ===== verification/RollupCaps.v ===== *)
(** * Cardinality caps of the span rollups
    ([internal/aggregation/span_rollup_caps.go])

    [rollupCaps] admits a bounded number of services per project and hour, and
    of names per service, project and hour; what is over a cap folds into
    [OtherName]. *)
From S2P Require Import Prelude Model.

(** [OtherName] *)
Definition OtherName : string := "~other".

(** [SpanRollupConfig] *)
Record SpanRollupConfig := mkSpanRollupConfig {
  cfg_MaxNames : Z;
  cfg_MaxServices : Z;
  cfg_MaxEdgeTargets : Z;
  cfg_FlushInterval : Z;
  cfg_HTTPStatus : bool;
}.

(** [SpanRollupConfig.withDefaults] *)
Definition withDefaults (c : SpanRollupConfig) : SpanRollupConfig :=
  let orDefault x d := if x <=? 0 then d else x in
  mkSpanRollupConfig (orDefault (cfg_MaxNames c) 300) (orDefault (cfg_MaxServices c) 200)
    (orDefault (cfg_MaxEdgeTargets c) 200) (orDefault (cfg_FlushInterval c) (30 * second))
    (cfg_HTTPStatus c).

(** [capKey]: hour, project and service (empty for the per-project set). *)
Abbreviation capKey := (Z * Z * string)%type.

(** [rollupCaps] *)
Record rollupCaps := mkRollupCaps {
  rc_services : gmap capKey (gset string);
  rc_names : gmap capKey (gset string);
  rc_overflowed : gset capKey;
}.

(** [newRollupCaps] *)
Definition newRollupCaps : rollupCaps := mkRollupCaps ∅ ∅ ∅.

(** [admitOne] *)
Definition admitOne (sets : gmap capKey (gset string)) (k : capKey) (v : string) (limit : Z)
  : bool * gmap capKey (gset string) :=
  let set := default ∅ (sets !! k) in
  let sets := <[k := set]> sets in
  if decide (v ∈ set) then (true, sets)
  else if limit <=? Z.of_nat (size set) then (false, sets)
  else (true, <[k := {[v]} ∪ set]> sets).

(** [rollupCaps.reportOnce] *)
Definition reportOnce (k : capKey) (c : rollupCaps) : bool * rollupCaps :=
  if decide (k ∈ rc_overflowed c) then (false, c)
  else (true, mkRollupCaps (rc_services c) (rc_names c) ({[k]} ∪ rc_overflowed c)).

(** The hour of a bucket. *)
Definition capHour (bucket : Z) : Z := bucket - bucket %t 3600.

(** [rollupCaps.caps_admit]: the service and name a span is recorded under, whether it
    is the first over a cap, and the caps afterwards. *)
Definition caps_admit (projectID : Z) (service name : string) (bucket : Z) (cfg : SpanRollupConfig)
  (c : rollupCaps) : (string * string * bool) * rollupCaps :=
  let hour := capHour bucket in
  let '(ok, services) := admitOne (rc_services c) (hour, projectID, ""%string) service
                           (cfg_MaxServices cfg) in
  let c := mkRollupCaps services (rc_names c) (rc_overflowed c) in
  if negb ok then
    let '(first, c) := reportOnce (hour, projectID, ""%string) c in
    ((OtherName, OtherName, first), c)
  else
    let '(ok, names) := admitOne (rc_names c) (hour, projectID, service) name
                          (cfg_MaxNames cfg) in
    let c := mkRollupCaps (rc_services c) names (rc_overflowed c) in
    if negb ok then
      let '(first, c) := reportOnce (hour, projectID, service) c in
      ((service, OtherName, first), c)
    else ((service, name, false), c).

(** The first hour [prune] keeps. *)
Definition pruneKeep (nowUnix : Z) : Z := nowUnix - nowUnix %t 3600 - 3600.

(** [rollupCaps.prune] *)
Definition prune (nowUnix : Z) (c : rollupCaps) : rollupCaps :=
  let keep := pruneKeep nowUnix in
  mkRollupCaps (filter (fun kv => ~ (kv.1.1.1 < keep)) (rc_services c))
    (filter (fun kv => ~ (kv.1.1.1 < keep)) (rc_names c))
    (filter (fun k => ~ (k.1.1 < keep)) (rc_overflowed c)).

(** ** Runs of admissions and prunes *)

Inductive capOp :=
  | CapAdmit (projectID : Z) (service name : string) (bucket : Z)
  | CapPrune (nowUnix : Z).

(** What an admission recorded: hour, project, service and name. *)
Abbreviation recorded := (Z * Z * string * string)%type.

Definition capStep (cfg : SpanRollupConfig) (st : rollupCaps * list recorded) (op : capOp)
  : rollupCaps * list recorded :=
  match op with
  | CapAdmit p s n b =>
      let '((s', n', _), c) := caps_admit p s n b cfg st.1 in
      (c, st.2 ++ [(capHour b, p, s', n')])
  | CapPrune now => (prune now st.1, st.2)
  end.

Definition capRun (cfg : SpanRollupConfig) (ops : list capOp) : rollupCaps * list recorded :=
  foldl (capStep cfg) (newRollupCaps, []) ops.

(** The services recorded for a project and hour, and the names recorded under
    one of its services. *)
Definition recordedServices (h p : Z) (l : list recorded) : gset string :=
  list_to_set (omap (fun r => if decide (r.1.1 = (h, p)) then Some r.1.2 else None) l).

Definition recordedNames (h p : Z) (s : string) (l : list recorded) : gset string :=
  list_to_set (omap (fun r => if decide (r.1 = (h, p, s)) then Some r.2 else None) l).

(** The values a cap set holds. *)
Definition capSet (sets : gmap capKey (gset string)) (k : capKey) : gset string :=
  default ∅ (sets !! k).

Lemma capSet_insert sets k s k' :
  capSet (<[k := s]> sets) k' = if decide (k = k') then s else capSet sets k'.
Proof. unfold capSet. rewrite lookup_insert. by case_decide. Qed.

Lemma admitOne_spec sets k v limit ok sets' :
  admitOne sets k v limit = (ok, sets') ->
  (ok = true -> v ∈ capSet sets' k) /\
  (forall k', capSet sets k' ⊆ capSet sets' k') /\
  (forall k', Z.of_nat (size (capSet sets k')) <= limit ->
     Z.of_nat (size (capSet sets' k')) <= limit).
Proof.
  unfold admitOne. change (default ∅ (sets !! k)) with (capSet sets k).
  assert (forall k', capSet (<[k := capSet sets k]> sets) k' = capSet sets k') as Hid.
  { intros k'. rewrite capSet_insert. case_decide; by subst. }
  destruct (decide (v ∈ capSet sets k)) as [Hv|Hv];
    [|destruct (Z.leb_spec limit (Z.of_nat (size (capSet sets k))))];
    intros [= <- <-].
  - split_and!; intros *; by rewrite ?Hid.
  - split_and!; intros *; by rewrite ?Hid.
  - rewrite insert_insert_eq. split_and!.
    + intros _. rewrite capSet_insert, decide_True by done. set_solver.
    + intros k'. rewrite capSet_insert. case_decide; subst; set_solver.
    + intros k' Hs. rewrite capSet_insert. case_decide; [subst k'|done].
      rewrite size_union by set_solver. rewrite size_singleton. lia.
Qed.

(** The invariant of a run, for an hour the prunes keep: the sets are within
    their caps and hold every recorded value other than [OtherName]. *)
Definition capInv (cfg : SpanRollupConfig) (h : Z) (st : rollupCaps * list recorded) : Prop :=
  (forall p, Z.of_nat (size (capSet (rc_services st.1) (h, p, ""%string))) <= cfg_MaxServices cfg) /\
  (forall p s, Z.of_nat (size (capSet (rc_names st.1) (h, p, s))) <= cfg_MaxNames cfg) /\
  (forall p s n, (h, p, s, n) ∈ st.2 ->
     (s = OtherName \/ s ∈ capSet (rc_services st.1) (h, p, ""%string)) /\
     (n = OtherName \/ n ∈ capSet (rc_names st.1) (h, p, s))).

Lemma capInv_grow cfg h c c' l l' :
  capInv cfg h (c, l) ->
  (forall k, Z.of_nat (size (capSet (rc_services c) k)) <= cfg_MaxServices cfg ->
     Z.of_nat (size (capSet (rc_services c') k)) <= cfg_MaxServices cfg) ->
  (forall k, Z.of_nat (size (capSet (rc_names c) k)) <= cfg_MaxNames cfg ->
     Z.of_nat (size (capSet (rc_names c') k)) <= cfg_MaxNames cfg) ->
  (forall k, capSet (rc_services c) k ⊆ capSet (rc_services c') k) ->
  (forall k, capSet (rc_names c) k ⊆ capSet (rc_names c') k) ->
  (forall p s n, (h, p, s, n) ∈ l' -> (h, p, s, n) ∈ l \/
     (s = OtherName \/ s ∈ capSet (rc_services c') (h, p, ""%string)) /\
     (n = OtherName \/ n ∈ capSet (rc_names c') (h, p, s))) ->
  capInv cfg h (c', l').
Proof.
  intros (H1 & H2 & H3) Hs Hn Gs Gn Hl. split_and!; simpl in *; [auto|auto|].
  intros p s n [Hin|?]%Hl; [|done]. destruct (H3 p s n Hin) as [Ha Hb].
  split; [destruct Ha; [by left|right; by apply Gs]|destruct Hb; [by left|right; by apply Gn]].
Qed.

Lemma capInv_admit cfg h p s n b st :
  capInv cfg h st -> capInv cfg h (capStep cfg st (CapAdmit p s n b)).
Proof.
  destruct st as [c l]. intros Hi. unfold capStep, caps_admit. cbn [fst snd].
  destruct (admitOne (rc_services c) _ _ _) as [ok1 svc] eqn:E1.
  apply admitOne_spec in E1 as (Hin1 & Hg1 & Hs1). cbn [rc_services rc_names rc_overflowed].
  destruct (admitOne (rc_names c) _ _ _) as [ok2 nms] eqn:E2.
  apply admitOne_spec in E2 as (Hin2 & Hg2 & Hs2).
  unfold reportOnce. destruct ok1; cbn [negb].
  2:{ case_decide; (eapply capInv_grow; [exact Hi|try done..]); simpl;
      intros p' s' n' [?|E%list_elem_of_singleton]%elem_of_app; auto;
      injection E as -> -> -> ->; auto. }
  destruct ok2; cbn [negb].
  2:{ case_decide; (eapply capInv_grow; [exact Hi|try done..]); simpl;
      intros p' s' n' [?|E%list_elem_of_singleton]%elem_of_app; auto;
      injection E as -> -> -> ->; auto. }
  eapply capInv_grow; [exact Hi|done..|]. simpl.
  intros p' s' n' [?|E%list_elem_of_singleton]%elem_of_app; [auto|].
  injection E as -> -> -> ->. auto.
Qed.

Lemma capSet_prune (keep : Z) (sets : gmap capKey (gset string)) (k : capKey) :
  keep <= k.1.1 ->
  capSet (filter (fun kv => ~ (kv.1.1.1 < keep)) sets) k = capSet sets k.
Proof.
  intros Hk. unfold capSet. f_equal.
  destruct (sets !! k) as [v|] eqn:E; [apply map_lookup_filter_Some|apply map_lookup_filter_None].
  - split; [done|]. simpl. lia.
  - by left.
Qed.

Lemma capInv_prune cfg h now c l :
  pruneKeep now <= h -> capInv cfg h (c, l) -> capInv cfg h (prune now c, l).
Proof.
  intros Hk (H1 & H2 & H3). split_and!; simpl in *.
  - intros p. by rewrite capSet_prune.
  - intros p s. by rewrite capSet_prune.
  - intros p s n. rewrite !capSet_prune by done. apply H3.
Qed.

Lemma capInv_run cfg h ops :
  0 <= cfg_MaxServices cfg -> 0 <= cfg_MaxNames cfg ->
  (forall now, CapPrune now ∈ ops -> pruneKeep now <= h) ->
  capInv cfg h (capRun cfg ops).
Proof.
  intros Hs Hn. unfold capRun.
  assert (capInv cfg h (newRollupCaps, [])) as Hi.
  { assert (forall k, size (capSet ∅ k) = 0%nat) as E0
      by (intros; unfold capSet; rewrite lookup_empty; apply size_empty).
    split_and!; simpl; [intros; rewrite E0; lia..|].
    intros p s n Hin. by apply not_elem_of_nil in Hin. }
  revert Hi. generalize (newRollupCaps, @nil recorded).
  induction ops as [|op ops IH]; intros st Hi Hp; simpl; [done|].
  apply IH; [|intros now Hin; apply Hp; by right].
  destruct op as [p s n b|now]; [by apply capInv_admit|].
  destruct st as [c l]. apply capInv_prune; [apply Hp; by left|done].
Qed.

(** ** Properties *)

Lemma size_within_other (X Y : gset string) limit :
  (forall x, x ∈ X -> x = OtherName \/ x ∈ Y) -> Z.of_nat (size Y) <= limit ->
  Z.of_nat (size X) <= limit + 1.
Proof.
  intros Hx Hy. assert (X ⊆ {[OtherName]} ∪ Y) as Hsub.
  { intros x Hin. destruct (Hx x Hin) as [->|?]; set_solver. }
  apply subseteq_size in Hsub. pose proof (size_union_alt {[OtherName]} Y) as E.
  rewrite size_singleton in E. pose proof (subseteq_size (Y ∖ {[OtherName]}) Y ltac:(set_solver)).
  lia.
Qed.

(** One project cannot grow the rollups without bound: whatever spans arrive
    in whatever order, the services recorded for a project in an hour are at most
    [MaxServices] plus [OtherName], and the names recorded under one of its
    services at most [MaxNames] plus [OtherName], as long as the hour is not
    pruned. *)
Theorem caps_bound cfg ops h p s :
  0 <= cfg_MaxServices cfg -> 0 <= cfg_MaxNames cfg ->
  (forall now, CapPrune now ∈ ops -> pruneKeep now <= h) ->
  let l := (capRun cfg ops).2 in
  Z.of_nat (size (recordedServices h p l)) <= cfg_MaxServices cfg + 1 /\
  Z.of_nat (size (recordedNames h p s l)) <= cfg_MaxNames cfg + 1.
Proof.
  intros Hs Hn Hp. destruct (capInv_run cfg h ops Hs Hn Hp) as (H1 & H2 & H3). cbv zeta. split.
  - eapply size_within_other; [|apply (H1 p)].
    intros x ([[[h' p'] s'] n'] & Hin & E)%elem_of_list_to_set%list_elem_of_omap.
    simpl in E. case_decide; simplify_eq. by apply (H3 p x n').
  - eapply size_within_other; [|apply (H2 p s)].
    intros x ([[[h' p'] s'] n'] & Hin & E)%elem_of_list_to_set%list_elem_of_omap.
    simpl in E. case_decide; simplify_eq. by apply (H3 p s x).
Qed.

Lemma caps_bound_witness :
  let ops := [CapAdmit 1 "svc" "a" 7200; CapPrune 7300; CapAdmit 1 "svc" "b" 7500;
              CapAdmit 1 "svc" "c" 7800; CapAdmit 1 "new" "d" 7800] in
  let cfg := mkSpanRollupConfig 1 1 1 1 false in
  recordedNames 7200 1 "svc" (capRun cfg ops).2 = {["a"; OtherName]}%string /\
  Z.of_nat (size (recordedNames 7200 1 "svc" (capRun cfg ops).2)) <= 1 + 1.
Proof.
  cbv zeta. split; [vm_compute; reflexivity|].
  apply (caps_bound (mkSpanRollupConfig 1 1 1 1 false)); [simpl; lia..|].
  intros now Hin. repeat (apply elem_of_cons in Hin as [Hin|Hin]; [try discriminate|]).
  - injection Hin as ->. vm_compute. discriminate.
  - by apply not_elem_of_nil in Hin.
Defined.
