(* ===== verification/DurationStats.v ===== *)
(** * Counts and durations of a slot
    ([internal/aggregation/weight.go], [durationStats] of [span_rollups.go])

    [durationStats] sums in [int64] arithmetic, which wraps.  [exactStats] is
    what a list of spans should give; as long as the sums of the list fit
    ([fitsInt64]) folding it with [ds_observe], in any order and in parts that
    are merged, gives exactly that. *)
From S2P Require Import Prelude Model Varint SpanHist TierStore.

(** [spanWeights] *)
Record spanWeights := mkSpanWeights { w_count : Z; w_spans : Z }.

(** [spanWeights.add] *)
Definition spanWeights_add (w : spanWeights) (s : Span) : spanWeights :=
  if sp_SampleWeight s <=? 0 then w
  else mkSpanWeights (wrap64 (w_count w + sp_SampleWeight s)) (wrap64 (w_spans w + 1)).

(** [durationStats] *)
Record durationStats := mkDurationStats {
  ds_count : Z;
  ds_weights : spanWeights;
  ds_sum : Z;
  ds_min : Z;
  ds_max : Z;
  ds_hist : Hist;
}.

(** The zero value a new slot starts from. *)
Definition zeroStats : durationStats := mkDurationStats 0 (mkSpanWeights 0 0) 0 0 0 emptyHist.

(** [durationStats.observe] *)
Definition ds_observe (log2x4 : Z -> Z) (d : durationStats) (s : Span) : durationStats :=
  let '(mn, mx) := if ds_count d =? 0 then (sp_DurationUs s, sp_DurationUs s)
                   else (ds_min d, ds_max d) in
  mkDurationStats (wrap64 (ds_count d + 1)) (spanWeights_add (ds_weights d) s)
    (wrap64 (ds_sum d + sp_DurationUs s)) (Z.min mn (sp_DurationUs s))
    (Z.max mx (sp_DurationUs s)) (Hist_Observe log2x4 (ds_hist d) (sp_DurationUs s)).

(** [durationStats.merge] *)
Definition ds_merge (d o : durationStats) : durationStats :=
  mkDurationStats (wrap64 (ds_count d + ds_count o))
    (mkSpanWeights (wrap64 (w_count (ds_weights d) + w_count (ds_weights o)))
       (wrap64 (w_spans (ds_weights d) + w_spans (ds_weights o))))
    (wrap64 (ds_sum d + ds_sum o)) (Z.min (ds_min d) (ds_min o)) (Z.max (ds_max d) (ds_max o))
    (Hist_Merge (ds_hist d) (ds_hist o)).

(** ** The reference *)

Definition weightOf (s : Span) : Z := Z.max 0 (sp_SampleWeight s).

Definition weighted (s : Span) : Z := if sp_SampleWeight s <=? 0 then 0 else 1.

Definition minOf (l : list Z) : Z := match l with [] => 0 | x :: l => foldr Z.min x l end.

Definition maxOf (l : list Z) : Z := match l with [] => 0 | x :: l => foldr Z.max x l end.

Definition durationsOf (l : list Span) : list Z := sp_DurationUs <$> l.

Definition exactStats (log2x4 : Z -> Z) (l : list Span) : durationStats :=
  mkDurationStats (Z.of_nat (length l)) (mkSpanWeights (sumBy weightOf l) (sumBy weighted l))
    (sumBy sp_DurationUs l) (minOf (durationsOf l)) (maxOf (durationsOf l))
    (observeAll log2x4 emptyHist (durationsOf l)).

(** The totals of the spans are [int64] values. *)
Definition fitsInt64 (l : list Span) : Prop :=
  Z.of_nat (length l) < 2 ^ 63 /\ sumBy weightOf l < 2 ^ 63 /\
  sumBy (fun s => Z.abs (sp_DurationUs s)) l < 2 ^ 63.

(** ** Extremes *)

Lemma minOf_spec l : l <> [] -> minOf l ∈ l /\ forall x, x ∈ l -> minOf l <= x.
Proof.
  destruct l as [|x l]; [done|intros _]. simpl. induction l as [|y l [IH1 IH2]]; simpl.
  { split; [by left|]. intros y ->%list_elem_of_singleton. lia. }
  split.
  - destruct (Z.min_spec y (foldr Z.min x l)) as [[_ ->]|[_ ->]]; [by right; left|].
    apply elem_of_cons in IH1 as [->|?]; [by left|by right; right].
  - intros z [->|[->|Hz]%elem_of_cons]%elem_of_cons; [|lia|].
    + pose proof (IH2 x ltac:(by left)). lia.
    + pose proof (IH2 z ltac:(by right)). lia.
Qed.

Lemma maxOf_minOf l : maxOf l = - minOf (Z.opp <$> l).
Proof.
  destruct l as [|x l]; [done|]. unfold maxOf, minOf. csimpl.
  induction l as [|y l IH]; csimpl; [lia|]. rewrite IH. lia.
Qed.

Lemma minOf_unique l m : m ∈ l -> (forall x, x ∈ l -> m <= x) -> minOf l = m.
Proof.
  intros Hin Hle. destruct (minOf_spec l) as [H1 H2]; [by destruct l; [apply not_elem_of_nil in Hin|]|].
  apply Z.le_antisymm; auto.
Qed.

Lemma minOf_app l1 l2 : l1 <> [] -> l2 <> [] -> minOf (l1 ++ l2) = Z.min (minOf l1) (minOf l2).
Proof.
  intros H1%minOf_spec H2%minOf_spec. destruct H1 as [I1 L1], H2 as [I2 L2].
  apply minOf_unique.
  - apply elem_of_app. destruct (Z.min_spec (minOf l1) (minOf l2)) as [[_ ->]|[_ ->]]; auto.
  - intros x [Hx|Hx]%elem_of_app; [pose proof (L1 x Hx)|pose proof (L2 x Hx)]; lia.
Qed.

#[export] Instance minOf_perm : Proper ((≡ₚ) ==> (=)) minOf.
Proof.
  intros l1 l2 Hp. destruct l1 as [|x l1].
  { by apply Permutation_nil in Hp as ->. }
  assert (l2 <> []) as Hne by (intros ->; by apply Permutation_nil_r in Hp).
  destruct (minOf_spec l2 Hne) as [H1 H2]. apply minOf_unique; [by rewrite Hp|].
  intros y. rewrite Hp. auto.
Qed.

Lemma maxOf_app l1 l2 : l1 <> [] -> l2 <> [] -> maxOf (l1 ++ l2) = Z.max (maxOf l1) (maxOf l2).
Proof.
  intros. rewrite !maxOf_minOf, fmap_app, minOf_app; [lia|by destruct l1|by destruct l2].
Qed.

#[export] Instance maxOf_perm : Proper ((≡ₚ) ==> (=)) maxOf.
Proof. intros l1 l2 Hp. rewrite !maxOf_minOf. by rewrite Hp. Qed.

(** ** Fitting totals *)

#[export] Instance fitsInt64_perm : Proper ((≡ₚ) ==> iff) fitsInt64.
Proof. intros l1 l2 Hp. unfold fitsInt64. by rewrite Hp. Qed.

Lemma sumBy_weightOf_nonneg l : 0 <= sumBy weightOf l.
Proof. apply sumBy_nonneg. unfold weightOf. lia. Qed.

Lemma sumBy_abs_bound l :
  Z.abs (sumBy sp_DurationUs l) <= sumBy (fun s => Z.abs (sp_DurationUs s)) l.
Proof. induction l; simpl; lia. Qed.

Lemma sumBy_weighted_bound l : 0 <= sumBy weighted l <= Z.of_nat (length l).
Proof.
  induction l as [|s l IH]; simpl; [lia|].
  assert (0 <= weighted s <= 1) by (unfold weighted; case_match; lia). lia.
Qed.

Lemma fitsInt64_app l1 l2 : fitsInt64 (l1 ++ l2) -> fitsInt64 l1 /\ fitsInt64 l2.
Proof.
  unfold fitsInt64. rewrite length_app, !sumBy_app.
  pose proof (sumBy_weightOf_nonneg l1). pose proof (sumBy_weightOf_nonneg l2).
  pose proof (sumBy_abs_bound l1). pose proof (sumBy_abs_bound l2). lia.
Qed.

Lemma fitsInt64_in l s : fitsInt64 l -> s ∈ l -> in_int64 (sp_DurationUs s).
Proof.
  intros (_ & _ & H) (l1 & l2 & ->)%list_elem_of_split. rewrite sumBy_app in H. simpl in H.
  pose proof (sumBy_abs_bound l1). pose proof (sumBy_abs_bound l2). unfold in_int64. lia.
Qed.

(** ** Folding spans is exact *)

Section Exact.
Context (log2x4 : Z -> Z).
Abbreviation exact := (exactStats log2x4).

#[export] Instance exactStats_perm : Proper ((≡ₚ) ==> (=)) (exactStats log2x4).
Proof.
  intros l1 l2 Hp. unfold exactStats, durationsOf.
  assert (sp_DurationUs <$> l1 ≡ₚ sp_DurationUs <$> l2) as Hd by by rewrite Hp.
  rewrite (observeAll_perm_lem log2x4 _ _ Hd) by auto with spanbarn.
  by rewrite Hd, Hp.
Qed.

Lemma exactStats_merge l1 l2 :
  l1 <> [] -> l2 <> [] -> fitsInt64 (l1 ++ l2) ->
  ds_merge (exact l1) (exact l2) = exact (l1 ++ l2).
Proof.
  intros H1 H2 Hf. pose proof Hf as (Hn & Hw & Hs).
  unfold ds_merge, exactStats. cbn [ds_count ds_weights ds_sum ds_min ds_max ds_hist w_count w_spans].
  assert (durationsOf (l1 ++ l2) = durationsOf l1 ++ durationsOf l2) as Ed by apply fmap_app.
  rewrite Ed, !sumBy_app, !length_app in *.
  pose proof (sumBy_weightOf_nonneg l1). pose proof (sumBy_weightOf_nonneg l2).
  pose proof (sumBy_abs_bound l1). pose proof (sumBy_abs_bound l2).
  pose proof (sumBy_weighted_bound l1). pose proof (sumBy_weighted_bound l2).
  rewrite !wrap64_id by (unfold in_int64; lia).
  rewrite minOf_app, maxOf_app by (by destruct l1, l2).
  rewrite Merge_observeAll_lem by auto using observeAll_wf with spanbarn.
  f_equal; [lia|].
  unfold observeAll. by rewrite foldl_app.
Qed.

Lemma exactStats_singleton s :
  fitsInt64 [s] -> ds_observe log2x4 zeroStats s = exact [s].
Proof.
  intros (_ & Hw & Hd). simpl in *. unfold ds_observe, exactStats, durationsOf. simpl.
  rewrite Z.min_id, Z.max_id, !wrap64_id by (unfold in_int64; lia).
  f_equal; [|lia]. unfold spanWeights_add, weightOf, weighted. simpl.
  unfold weightOf in Hw. destruct (Z.leb_spec (sp_SampleWeight s) 0); simpl.
  - by rewrite Z.max_l by lia.
  - rewrite !wrap64_id by (unfold in_int64; lia). f_equal; lia.
Qed.

Lemma exactStats_observe l s :
  l <> [] -> fitsInt64 (l ++ [s]) -> ds_observe log2x4 (exact l) s = exact (l ++ [s]).
Proof.
  intros Hne Hf. pose proof Hf as (Hn & Hw & Hs). unfold ds_observe, exactStats.
  assert (durationsOf (l ++ [s]) = durationsOf l ++ [sp_DurationUs s]) as ->
    by (unfold durationsOf; by rewrite fmap_app).
  cbn [ds_count ds_weights ds_sum ds_min ds_max ds_hist].
  destruct (Z.eqb_spec (Z.of_nat (length l)) 0); [destruct l; simpl in *; [done|lia]|].
  rewrite !sumBy_app, !length_app in *. simpl in *.
  pose proof (sumBy_weightOf_nonneg l). pose proof (sumBy_abs_bound l).
  pose proof (sumBy_weighted_bound l).
  assert (0 <= weightOf s) by (unfold weightOf; lia).
  rewrite minOf_app, maxOf_app by (by destruct l). simpl.
  rewrite !wrap64_id by (unfold in_int64; lia).
  f_equal; [lia| |lia|unfold observeAll; by rewrite foldl_app].
  unfold spanWeights_add, weightOf, weighted in *. cbn [w_count w_spans].
  destruct (Z.leb_spec (sp_SampleWeight s) 0); [f_equal; lia|].
  rewrite !wrap64_id by (unfold in_int64; lia). f_equal; lia.
Qed.

(** The histogram of such spans can be encoded. *)
Lemma exactStats_int64 l : fitsInt64 l -> Forall int64Bin (h_bins (ds_hist (exact l))).
Proof.
  intros Hf. simpl. apply observeAll_int64; [|by destruct Hf; unfold durationsOf; rewrite length_fmap].
  apply Forall_forall. intros d (s & -> & Hin)%list_elem_of_fmap. by eapply fitsInt64_in.
Qed.

Lemma exactStats_hist l1 l2 :
  fitsInt64 (l1 ++ l2) ->
  spanHistMerge (Hist_Encode (ds_hist (exact l1))) (Hist_Encode (ds_hist (exact l2))) =
  Hist_Encode (ds_hist (exact (l1 ++ l2))).
Proof.
  intros Hf. pose proof (fitsInt64_app _ _ Hf) as [F1 F2].
  unfold spanHistMerge, MergeEncoded.
  assert (forall l, wfHist (ds_hist (exact l))) as Hw
    by (intros; apply observeAll_wf; auto with spanbarn).
  rewrite !Decode_Encode_lem by auto using exactStats_int64. simpl. f_equal.
  rewrite Merge_observeAll_lem by auto using observeAll_wf with spanbarn.
  unfold durationsOf. rewrite fmap_app. unfold observeAll. by rewrite foldl_app.
Qed.

(** The totals of two lists, as the database adds them. *)
Lemma exactStats_app l1 l2 :
  l1 <> [] -> l2 <> [] ->
  let a := exact l1 in let b := exact l2 in let c := exact (l1 ++ l2) in
  ds_count c = ds_count a + ds_count b /\
  w_count (ds_weights c) = w_count (ds_weights a) + w_count (ds_weights b) /\
  w_spans (ds_weights c) = w_spans (ds_weights a) + w_spans (ds_weights b) /\
  ds_sum c = ds_sum a + ds_sum b /\
  ds_min c = Z.min (ds_min a) (ds_min b) /\ ds_max c = Z.max (ds_max a) (ds_max b).
Proof.
  intros H1 H2. simpl. unfold durationsOf.
  rewrite length_app, !sumBy_app, fmap_app, minOf_app, maxOf_app by (by destruct l1, l2).
  split_and!; lia.
Qed.
End Exact.
