(* ===== verification/SlotFlush.v ===== *)
(** * Flushing slots into a tier table
    ([unwrittenSlots] and [requeueSlots] of
    [internal/aggregation/span_rollups.go])

    The span rollups and the span edges keep their open buckets in a map of
    slots, hand the rows of all slots to a writer and put back what was not
    written.  [SlotAlgebra] states what both kinds of slot have in common: a
    slot stands for the list of items folded into it.  The lemmas account for
    every item through an add, a write that may stop half way, and a requeue. *)
From S2P Require Import Prelude Varint SpanHist TierStore.

Section Slots.
Context {K V R : Type} `{Countable K}.

(** [unwrittenSlots] *)
Definition unwrittenSlots (slots : gmap K V) (err : writeError R) (keyOf : R -> K)
  : gmap K V :=
  match err with
  | OtherError => slots
  | UnwrittenRows rows =>
      foldl (fun unwritten row =>
        match slots !! keyOf row with
        | Some sl => <[keyOf row := sl]> unwritten
        | None => unwritten
        end) ∅ rows
  end.

(** The body of [requeueSlots]'s loop. *)
Definition requeueOne (keep : K -> bool) (merge : V -> V -> V) (st : Z * gmap K V)
  (ksl : K * V) : Z * gmap K V :=
  let '(refused, dst) := st in
  let '(k, sl) := ksl in
  if negb (keep k) then (refused + 1, dst)
  else match dst !! k with
       | Some cur => (refused, <[k := merge cur sl]> dst)
       | None => (refused, <[k := sl]> dst)
       end.

(** [requeueSlots]: the number of slots refused and the new slots. *)
Definition requeueSlots (dst src : gmap K V) (keep : K -> bool) (merge : V -> V -> V)
  : Z * gmap K V :=
  foldl (requeueOne keep merge) (0, dst) (map_to_list src).

(** The rows of all slots. *)
Definition slotRows (toRow : K -> V -> R) (slots : gmap K V) : list R :=
  (fun ksl => toRow ksl.1 ksl.2) <$> map_to_list slots.

(** A slot that is created on its first item. *)
Definition observeSlot {I} (zero : V) (obs : V -> I -> V) (k : K) (i : I)
  (slots : gmap K V) : gmap K V :=
  <[k := obs (default zero (slots !! k)) i]> slots.
End Slots.

(** What a kind of slot promises: [exact l] is the slot of the items [l], for
    lists that [fits]; observing, merging and the database's conflict clause all
    agree with it, and rows identify their slot. *)
Class SlotAlgebra {K V R PK I : Type} `{Countable K, Countable PK}
  (zero : V) (obs : V -> I -> V) (mrg : V -> V -> V) (toRow : K -> V -> R)
  (keyOf : R -> K) (pk : R -> PK) (conflict : R -> R -> R)
  (fits : list I -> Prop) (exact : list I -> V) := {
  sa_fits l l' : fits l -> l' ⊆+ l -> fits l';
  sa_perm l l' : l ≡ₚ l' -> exact l = exact l';
  sa_first i : fits [i] -> obs zero i = exact [i];
  sa_obs l i : l <> [] -> fits (l ++ [i]) -> obs (exact l) i = exact (l ++ [i]);
  sa_merge l l' : l <> [] -> l' <> [] -> fits (l ++ l') -> mrg (exact l) (exact l') = exact (l ++ l');
  sa_conflict k l l' : l <> [] -> l' <> [] -> fits (l ++ l') ->
    conflict (toRow k (exact l)) (toRow k (exact l')) = toRow k (exact (l ++ l'));
  sa_keyOf k v : keyOf (toRow k v) = k;
  sa_pk k k' v v' : pk (toRow k v) = pk (toRow k' v') <-> k = k';
}.

Section Accounting.
Context {K V R PK I : Type} `{Countable K, Countable PK}.
Context (zero : V) (obs : V -> I -> V) (mrg : V -> V -> V) (toRow : K -> V -> R).
Context (keyOf : R -> K) (pk : R -> PK) (conflict : R -> R -> R).
Context (fits : list I -> Prop) (exact : list I -> V).
Context `{!SlotAlgebra zero obs mrg toRow keyOf pk conflict fits exact}.
(** The keys an item can be recorded under; other rows of the table are not
    the accumulator's. *)
Context (valid : K -> Prop).

Implicit Types (g : K -> list I) (k : K).

Definition slotOf (l : list I) : option V :=
  match l with [] => None | _ => Some (exact l) end.

(** The slots stand for the items [g], the table for the items [g]. *)
Definition holds (m : gmap K V) g : Prop := forall k, m !! k = slotOf (g k).

Definition stored (t : gmap PK R) g : Prop :=
  forall k, valid k -> t !! pk (toRow k zero) = toRow k <$> slotOf (g k).

Lemma slotOf_Some l : l <> [] -> slotOf l = Some (exact l).
Proof. by destruct l. Qed.

Lemma slotOf_perm l l' : l ≡ₚ l' -> slotOf l = slotOf l'.
Proof.
  intros Hp. destruct l as [|i l]; [by apply Permutation_nil in Hp as ->|].
  rewrite !slotOf_Some; [|intros ->; by apply Permutation_nil_r in Hp|done].
  f_equal. by apply sa_perm.
Qed.

Lemma holds_perm m g g' : (forall k, g k ≡ₚ g' k) -> holds m g -> holds m g'.
Proof. intros Hp Hh k. rewrite (Hh k). by apply slotOf_perm. Qed.

Lemma stored_perm t g g' : (forall k, g k ≡ₚ g' k) -> stored t g -> stored t g'.
Proof. intros Hp Hh k Hk. by rewrite (Hh k Hk), (slotOf_perm _ _ (Hp k)). Qed.

Lemma fits_app l l' : fits (l ++ l') -> fits l /\ fits l'.
Proof.
  intros Hf. split; (eapply sa_fits; [exact Hf|]);
    [apply submseteq_inserts_r|apply submseteq_inserts_l]; done.
Qed.

(** Adding an item. *)
Lemma holds_observe m g k i :
  holds m g -> fits (g k ++ [i]) ->
  holds (observeSlot zero obs k i m) (fun k' => if decide (k = k') then g k ++ [i] else g k').
Proof.
  intros Hh Hf k'. unfold observeSlot. rewrite lookup_insert. case_decide; [|apply Hh].
  subst k'. rewrite (Hh k). destruct (g k) as [|i' l]; simpl in *.
  - by rewrite sa_first.
  - f_equal. by apply (sa_obs (i' :: l)).
Qed.

(** Putting slots back. *)
Lemma requeue_fold keep l : forall refused dst gd gs,
  holds dst gd -> NoDup l.*1 -> (forall k v, (k, v) ∈ l -> v = exact (gs k) /\ gs k <> []) ->
  (forall k, k ∈ l.*1 -> fits (gd k ++ gs k)) ->
  holds (foldl (requeueOne keep mrg) (refused, dst) l).2
    (fun k => if decide (k ∈ l.*1) then if keep k then gd k ++ gs k else gd k else gd k).
Proof.
  induction l as [|[k v] l IH]; intros refused dst gd gs Hd Hn Hl Hf; csimpl in *; [done|].
  apply NoDup_cons in Hn as [Hk Hn].
  destruct (Hl k v ltac:(by left)) as [-> Hne].
  assert (forall k' v', (k', v') ∈ l -> v' = exact (gs k') /\ gs k' <> []) as Hl'
    by (intros; apply Hl; by right).
  destruct (keep k) eqn:Ek; simpl.
  - assert (holds (<[k := exact (gd k ++ gs k)]> dst)
      (fun k' => if decide (k = k') then gd k ++ gs k else gd k')) as Hd'.
    { intros k'. rewrite lookup_insert. case_decide; [|apply Hd]. symmetry. apply slotOf_Some.
      intros [_ ?]%app_nil. done. }
    assert ((match dst !! k with
      | Some cur => (refused, <[k:=mrg cur (exact (gs k))]> dst)
      | None => (refused, <[k:=exact (gs k)]> dst) end) =
      (refused, <[k := exact (gd k ++ gs k)]> dst)) as ->.
    { pose proof (Hf k ltac:(by left)) as Hfk. rewrite (Hd k).
      destruct (gd k) as [|i l'] eqn:E; simpl; [done|].
      do 2 f_equal. by apply (sa_merge (i :: l') (gs k)). }
    eapply holds_perm, (IH refused _ _ gs Hd' Hn Hl').
    + intros k'. destruct (decide (k = k')) as [<-|Hkk]; simpl.
      * rewrite (decide_False (P := k ∈ l.*1)) by done.
        rewrite (decide_True (P := k = k)), (decide_True (P := k ∈ k :: l.*1)) by (done || by left).
        by rewrite Ek.
      * rewrite (decide_False (P := k = k')) by done.
        destruct (decide (k' ∈ l.*1)), (decide (k' ∈ k :: l.*1)) as [Hx|Hx]; try done.
        -- destruct Hx. by right.
        -- apply elem_of_cons in Hx as [?|?]; congruence.
    + intros k' Hk'. simpl. rewrite decide_False by (intros <-; done). apply Hf. by right.
  - eapply holds_perm, (IH (refused + 1) _ _ gs Hd Hn Hl').
    + intros k'. simpl.
      destruct (decide (k' ∈ l.*1)), (decide (k' ∈ k :: l.*1)) as [Hx|Hx]; try done.
      * destruct Hx. by right.
      * apply elem_of_cons in Hx as [->|?]; [by rewrite Ek|done].
    + intros k' Hk'. apply Hf. by right.
Qed.

Lemma requeue_holds keep dst src gd gs :
  holds dst gd -> holds src gs -> (forall k, fits (gd k ++ gs k)) ->
  holds (requeueSlots dst src keep mrg).2 (fun k => gd k ++ if keep k then gs k else []).
Proof.
  intros Hd Hs Hf. eapply holds_perm, requeue_fold; [|exact Hd|apply NoDup_fst_map_to_list| |].
  - intros k. simpl. destruct (decide (k ∈ (map_to_list src).*1)) as [Hin|Hin].
    + instantiate (1 := gs). by destruct (keep k); rewrite ?app_nil_r.
    + assert (src !! k = None) as E.
      { destruct (src !! k) as [v|] eqn:E; [|done]. destruct Hin.
        apply (list_elem_of_fmap_2' fst _ (k, v)); [by apply elem_of_map_to_list|done]. }
      rewrite (Hs k) in E. destruct (gs k); [|done]. destruct (keep k); by rewrite app_nil_r.
  - intros k v Hkv%elem_of_map_to_list. rewrite (Hs k) in Hkv.
    destruct (gs k); simpl in *; [done|]. by injection Hkv as <-.
  - intros k _. apply Hf.
Qed.

(** Writing the slots. *)
Lemma pk_iff k k' v v' : pk (toRow k v) = pk (toRow k' v') <-> k = k'.
Proof. eapply (sa_pk (SlotAlgebra := SlotAlgebra0)). Qed.

Lemma keyOf_row k v : keyOf (toRow k v) = k.
Proof. eapply (sa_keyOf (SlotAlgebra := SlotAlgebra0)). Qed.

Lemma slotRows_in m r : r ∈ slotRows toRow m <-> exists k v, m !! k = Some v /\ r = toRow k v.
Proof.
  unfold slotRows. rewrite list_elem_of_fmap. split.
  - intros ([k v] & -> & Hin%elem_of_map_to_list). eauto.
  - intros (k & v & Hin & ->). exists (k, v). by rewrite elem_of_map_to_list.
Qed.

Lemma slotRows_NoDup m : NoDup (pk <$> slotRows toRow m).
Proof.
  unfold slotRows. rewrite <- list_fmap_compose. apply NoDup_fmap_2_strong; [|apply NoDup_map_to_list].
  intros [k v] [k' v'] Hx%elem_of_map_to_list Hy%elem_of_map_to_list E.
  simpl in E. apply pk_iff in E.
  subst. congruence.
Qed.

Lemma unwritten_lookup (m : gmap K V) (rows : list R) k : forall acc : gmap K V,
  foldl (fun unwritten row =>
    match m !! keyOf row with
    | Some sl => <[keyOf row := sl]> unwritten
    | None => unwritten
    end) acc rows !! k =
  if decide (k ∈ keyOf <$> rows) then match m !! k with Some v => Some v | None => acc !! k end
  else acc !! k.
Proof.
  induction rows as [|r rows IH]; intros acc; csimpl; [done|]. rewrite IH.
  assert ((match m !! keyOf r with Some sl => <[keyOf r := sl]> acc | None => acc end) !! k =
    if decide (keyOf r = k) then match m !! k with Some v => Some v | None => acc !! k end
    else acc !! k) as ->.
  { destruct (decide (keyOf r = k)) as [<-|Hk]; destruct (m !! keyOf r); try done.
    - by rewrite lookup_insert_eq.
    - by rewrite lookup_insert_ne. }
  destruct (decide (keyOf r = k)), (decide (k ∈ keyOf <$> rows)),
    (decide (k ∈ keyOf r :: (keyOf <$> rows))) as [Hx|Hx];
    rewrite ?elem_of_cons in Hx; try (destruct (m !! k); done); naive_solver.
Qed.

Section Write.
Context (write : list bool -> list R -> gmap PK R -> option (writeError R) * gmap PK R).
Context `{!TierWriter pk conflict write}.
Context (m : gmap K V) (gm : K -> list I) (Hm : holds m gm).
Context (extras : list R).
Context (Hmv : forall k v, m !! k = Some v -> valid k).
Context (Hx : forall r, r ∈ extras ->
  (forall k v, valid k -> pk r <> pk (toRow k v)) /\ m !! keyOf r = None).
Context (Hnx : NoDup (pk <$> extras)).

Lemma rows_NoDup : NoDup (pk <$> (extras ++ slotRows toRow m)).
Proof.
  rewrite fmap_app. apply NoDup_app. split_and!; [done| |apply slotRows_NoDup].
  intros q (r & -> & Hr)%list_elem_of_fmap (r' & E & Hr')%list_elem_of_fmap.
  apply slotRows_in in Hr' as (k & v & Hk & ->).
  destruct (Hx r Hr) as [Hr' _]. by destruct (Hr' k v); [eapply Hmv|].
Qed.

Lemma row_in l k : gm k <> [] -> extras ++ slotRows toRow m ≡ₚ l -> toRow k (exact (gm k)) ∈ l.
Proof.
  intros Hne <-. apply elem_of_app. right. apply slotRows_in. exists k, (exact (gm k)).
  by rewrite (Hm k), slotOf_Some.
Qed.

(** A row of the write with the key of a slot is the slot's row. *)
Lemma row_of l r k v : valid k -> extras ++ slotRows toRow m ≡ₚ l -> r ∈ l -> pk r = pk (toRow k v) ->
  r = toRow k (exact (gm k)) /\ gm k <> [].
Proof.
  intros Hv <- [Hr|Hr]%elem_of_app E; [by destruct (Hx r Hr) as [Hr' _]; destruct (Hr' k v)|].
  apply slotRows_in in Hr as (k' & v' & Hk & ->). apply pk_iff in E as ->.
  rewrite (Hm k) in Hk. destruct (gm k); simpl in *; [done|]. by injection Hk as <-.
Qed.

Lemma write_account t gs oks e t' :
  stored t gs -> (forall k, fits (gs k ++ gm k)) ->
  write oks (extras ++ slotRows toRow m) t = (e, t') ->
  exists gw gu, (forall k, gm k = gw k ++ gu k) /\ stored t' (fun k => gs k ++ gw k) /\
    holds (from_option (fun err => unwrittenSlots m err keyOf) ∅ e) gu.
Proof.
  intros Ht Hf Hw. apply tw_split in Hw as (w & Hp & ->).
  set (un := unwrittenRows (extras ++ slotRows toRow m) e) in *.
  pose proof rows_NoDup as Hn. rewrite Hp, fmap_app in Hn.
  apply NoDup_app in Hn as (Hnw & Hwu & _).
  set (inW k := bool_decide (pk (toRow k zero) ∈ pk <$> w)).
  exists (fun k => if inW k then gm k else []), (fun k => if inW k then [] else gm k).
  split_and!.
  - intros k. destruct (inW k); by rewrite ?app_nil_r.
  - intros k Hv. unfold inW.
    destruct (bool_decide_reflect (pk (toRow k zero) ∈ pk <$> w)) as [Hin|Hin].
    2:{ rewrite addAll_other by done. rewrite app_nil_r. by apply Ht. }
    apply list_elem_of_fmap in Hin as (r & E & Hr).
    destruct (row_of _ r k zero Hv Hp) as [-> Hne]; [apply elem_of_app; by left|done|].
    rewrite E, addAll_in by done. rewrite <- E, (Ht k Hv).
    pose proof (Hf k) as Hfk. destruct (gs k) as [|i l] eqn:Eg; simpl.
    + by rewrite slotOf_Some.
    + do 2 f_equal. by apply (sa_conflict k (i :: l) (gm k)).
  - intros k. unfold inW.
    assert (gm k <> [] -> pk (toRow k zero) ∉ pk <$> w -> toRow k (exact (gm k)) ∈ un) as Hun.
    { intros Hne Hnin. pose proof (row_in _ k Hne Hp) as [Hi|Hi]%elem_of_app; [|done].
      destruct Hnin. apply list_elem_of_fmap. eexists. split; [|done]. by apply pk_iff. }
    destruct (bool_decide_reflect (pk (toRow k zero) ∈ pk <$> w)) as [Hin|Hin].
    + assert (forall r, r ∈ un -> pk r <> pk (toRow k zero)) as Hno.
      { intros r Hr E. apply (Hwu _ Hin). rewrite <- E. by apply list_elem_of_fmap_2. }
      destruct e as [[rows|]|]; simpl; [| |done].
      * rewrite unwritten_lookup, lookup_empty. case_decide as Hd; [|done].
        destruct (m !! k) as [v|] eqn:Emk; [|done].
        apply list_elem_of_fmap in Hd as (r & -> & Hr).
        assert (r ∈ extras ++ slotRows toRow m) as Hr'
          by (rewrite Hp; apply elem_of_app; by right).
        apply elem_of_app in Hr' as [Hr'|Hr']; [destruct (Hx r Hr'); congruence|].
        apply slotRows_in in Hr' as (k' & v' & _ & ->).
        destruct (Hno _ Hr). apply pk_iff. by rewrite keyOf_row.
      * destruct (gm k) as [|i l] eqn:E; [by rewrite (Hm k), E|].
        destruct (Hno (toRow k (exact (gm k)))); [|by apply pk_iff].
        apply (row_in _ k); [by rewrite E|done].
    + destruct (gm k) as [|i l] eqn:E.
      * assert (m !! k = None) as Emk by by rewrite (Hm k), E.
        destruct e as [[rows|]|]; simpl; [|done|done].
        rewrite unwritten_lookup, lookup_empty, Emk. by case_decide.
      * rewrite <- E in *. assert (gm k <> []) as Hne by by rewrite E.
        specialize (Hun Hne Hin).
        destruct e as [[rows|]|]; simpl; [|apply Hm|by apply not_elem_of_nil in Hun].
        rewrite unwritten_lookup, lookup_empty, (Hm k), slotOf_Some by done.
        rewrite decide_True; [done|]. apply list_elem_of_fmap. eexists. split; [|exact Hun].
        by rewrite keyOf_row.
Qed.
End Write.

(** ** Histories *)

(** The items recorded under a key. *)
Definition under (k : K) (log : list (K * I)) : list I :=
  omap (fun ki => if decide (ki.1 = k) then Some ki.2 else None) log.

Lemma under_app k log log' : under k (log ++ log') = under k log ++ under k log'.
Proof. apply omap_app. Qed.

Lemma under_submseteq k log : under k log ⊆+ log.*2.
Proof.
  unfold under. induction log as [|[k' i] log IH]; csimpl; [done|].
  case_decide; [by apply submseteq_skip|by apply submseteq_cons].
Qed.

(** [m'] is [m] with the items that the history gained folded in. *)
Definition folds (m : gmap K V) (log : list (K * I)) (m' : gmap K V) (log' : list (K * I)) : Prop :=
  exists new, log' = log ++ new /\
    forall g, holds m g -> (forall k, fits (g k ++ under k new)) ->
      holds m' (fun k => g k ++ under k new).

Lemma folds_refl m log : folds m log m log.
Proof.
  exists []. split; [by rewrite app_nil_r|]. intros g Hg _.
  eapply holds_perm, Hg. intros k. by rewrite app_nil_r.
Qed.

Lemma folds_trans m log m' log' m'' log'' :
  folds m log m' log' -> folds m' log' m'' log'' -> folds m log m'' log''.
Proof.
  intros (n1 & -> & H1) (n2 & -> & H2). exists (n1 ++ n2). split; [by rewrite app_assoc|].
  intros g Hg Hf.
  assert (forall k, fits ((g k ++ under k n1) ++ under k n2)) as Hf'
    by (intros k; by rewrite <- app_assoc, <- under_app).
  eapply holds_perm, H2; [|apply H1; [done|]|done].
  - intros k. simpl. by rewrite under_app, app_assoc.
  - intros k. by destruct (fits_app _ _ (Hf' k)).
Qed.

Lemma folds_observe m log k i :
  folds m log (observeSlot zero obs k i m) (log ++ [(k, i)]).
Proof.
  exists [(k, i)]. split; [done|]. intros g Hg Hf. eapply holds_perm, holds_observe; [|done|].
  - intros k'. simpl. unfold under. simpl. case_decide; [by subst|by rewrite app_nil_r].
  - specialize (Hf k). unfold under in Hf. simpl in Hf. by rewrite decide_True in Hf.
Qed.

Lemma folds_foldl {S A} (slots : S -> gmap K V) (log : S -> list (K * I)) (f : S -> A -> S) l :
  (forall s a, folds (slots s) (log s) (slots (f s a)) (log (f s a))) ->
  forall s, folds (slots s) (log s) (slots (foldl f s l)) (log (foldl f s l)).
Proof.
  intros Hf. induction l as [|a l IH]; intros s; simpl; [apply folds_refl|].
  eapply folds_trans; [apply Hf|apply IH].
Qed.

(** Every recorded item is in an open slot, in the table, or lost, and what is
    lost is late. *)
Definition accounted (late : K -> Prop) (m : gmap K V) (t : gmap PK R) (log : list (K * I)) : Prop :=
  exists go gs gl, holds m go /\ stored t gs /\
    (forall k, under k log ≡ₚ go k ++ gs k ++ gl k) /\ (forall k, gl k <> [] -> late k).

Definition validLog (log : list (K * I)) : Prop := Forall (fun ki => valid ki.1) log.

Lemma validLog_under k log : validLog log -> under k log <> [] -> valid k.
Proof.
  intros Hl Hu. unfold under in Hu. destruct (omap _ _) as [|i l] eqn:E; [done|].
  assert (i ∈ omap (fun ki : K * I => if decide (ki.1 = k) then Some ki.2 else None) log) as Hin
    by (rewrite E; by left).
  apply list_elem_of_omap in Hin as ([k' i'] & Hin & Ei). simpl in Ei. case_decide; [|done].
  subst. by apply (proj1 (Forall_forall _ _) Hl _ Hin).
Qed.

Lemma accounted_empty late : accounted late ∅ ∅ [].
Proof. exists (fun _ => []), (fun _ => []), (fun _ => []). split_and!; try done; intros k; done. Qed.

Lemma accounted_late (late late' : K -> Prop) m t log :
  (forall k, late k -> late' k) -> accounted late m t log -> accounted late' m t log.
Proof. intros Hl (go & gs & gl & ? & ? & ? & ?). exists go, gs, gl. split_and!; auto. Qed.

Lemma fits_under k log : fits log.*2 -> fits (under k log).
Proof. intros Hf. eapply sa_fits; [exact Hf|apply under_submseteq]. Qed.

Lemma accounted_folds late m t log m' log' :
  accounted late m t log -> folds m log m' log' -> fits log'.*2 -> accounted late m' t log'.
Proof.
  intros (go & gs & gl & Hm & Ht & Hp & Hl) (new & -> & Hn) Hf.
  exists (fun k => go k ++ under k new), gs, gl. split_and!; [|done| |done].
  - apply Hn; [done|]. intros k. eapply sa_fits; [apply (fits_under k), Hf|].
    rewrite under_app, Hp. solve_submseteq.
  - intros k. rewrite under_app, Hp. solve_Permutation.
Qed.

Lemma accounted_flush (late : K -> Prop) write `{!TierWriter pk conflict write} extras keep
  m t log m2 log2 oks e t' :
  accounted late m t log -> folds ∅ log m2 log2 -> fits log2.*2 ->
  validLog log ->
  (forall r, r ∈ extras ->
     (forall k v, valid k -> pk r <> pk (toRow k v)) /\ m !! keyOf r = None) ->
  NoDup (pk <$> extras) ->
  (forall k, keep k = false -> late k) ->
  write oks (extras ++ slotRows toRow m) t = (e, t') ->
  accounted late
    (from_option (fun err => (requeueSlots m2 (unwrittenSlots m err keyOf) keep mrg).2) m2 e)
    t' log2.
Proof.
  intros (go & gs & gl & Hm & Ht & Hp & Hl) (new & -> & Hn) Hf Hv Hx Hnx Hk Hw.
  assert (forall k, fits (go k ++ gs k ++ gl k ++ under k new)) as Hfk.
  { intros k. eapply sa_fits; [apply (fits_under k), Hf|]. rewrite under_app, Hp.
    solve_submseteq. }
  eapply write_account in Hw as (gw & gu & Eg & Ht' & Hu); try done.
  2:{ intros k v Hkv. apply (validLog_under k log); [done|]. rewrite (Hm k) in Hkv.
      intros Hu. pose proof (Hp k) as Hpk. rewrite Hu in Hpk.
      apply Permutation_nil in Hpk as [Hg _]%app_nil. by rewrite Hg in Hkv. }
  2:{ intros k. eapply sa_fits; [apply (Hfk k)|]. solve_submseteq. }
  assert (holds m2 (fun k => under k new)) as Hm2.
  { apply (Hn (fun _ => [])); [by intros k; rewrite lookup_empty|].
    intros k. eapply sa_fits; [apply (Hfk k)|]. solve_submseteq. }
  destruct e as [err|]; simpl in *.
  - exists (fun k => under k new ++ if keep k then gu k else []), (fun k => gs k ++ gw k),
      (fun k => gl k ++ if keep k then [] else gu k). split_and!; [|done| |].
    + apply requeue_holds; [done|done|]. intros k. eapply sa_fits; [apply (Hfk k)|].
      rewrite Eg. solve_submseteq.
    + intros k. rewrite under_app, Hp, Eg. destruct (keep k); solve_Permutation.
    + intros k. destruct (keep k) eqn:E; [rewrite app_nil_r; apply Hl|by intros _; apply Hk].
  - exists (fun k => under k new), (fun k => gs k ++ gw k), gl. split_and!; [done|done| |done].
    intros k. rewrite under_app, Hp, Eg. specialize (Hu k). rewrite lookup_empty in Hu.
    destruct (gu k); [|done]. solve_Permutation.
Qed.
End Accounting.
