(* ===== verification/DepTarget.v ===== *)
(** * Calls a set of spans shows ([internal/deptarget])

    The attributes of a span are JSON; decoding them and parsing a URL are
    parameters: [stringAttrs] gives the decoded object's attributes, [Some s]
    for a string value and [None] for any other value, and fails when the JSON
    does not decode; [hostname] is [url.Parse] followed by [Hostname]. *)
From S2P Require Import Prelude Model.

(** [TypeService] *)
Definition TypeService : string := "service".

(** [IsClientKind] *)
Definition IsClientKind (kind : string) : bool :=
  bool_decide (kind = "client"%string) || bool_decide (kind = "CLIENT"%string).

(** [rule] and [rules] *)
Record rule := mkRule { ru_key : string; ru_targetType : string; ru_hostOnly : bool }.

Definition rules : list rule :=
  [mkRule "db.system" "database" false;
   mkRule "db.name" "database" false;
   mkRule "peer.service" TypeService false;
   mkRule "rpc.service" "rpc" false;
   mkRule "messaging.system" "messaging" false;
   mkRule "aws.service" "aws" false;
   mkRule "http.url" "http" true;
   mkRule "url.full" "http" true;
   mkRule "http.host" "http" false;
   mkRule "server.address" "network" false;
   mkRule "net.peer.name" "network" false].

(** [Call] *)
Record Call := mkCall {
  call_Span : nat;
  call_Source : string;
  call_Target : string;
  call_TargetType : string;
}.

Abbreviation attrMap := (gmap string (option string)).

(** [StringAttr] *)
Definition StringAttr (attrs : attrMap) (key : string) : option string :=
  match attrs !! key with
  | Some (Some s) => if decide (s = ""%string) then None else Some s
  | _ => None
  end.

Section Calls.
Context (stringAttrs : string -> option attrMap) (hostname : string -> option string).

(** [Host] *)
Definition Host (rawURL : string) : string := default ""%string (hostname rawURL).

(** The rule loop of [Extract]. *)
Fixpoint extractRules (attrs : attrMap) (rs : list rule) : string * string :=
  match rs with
  | [] => (""%string, ""%string)
  | r :: rs =>
      match StringAttr attrs (ru_key r) with
      | None => extractRules attrs rs
      | Some v =>
          if negb (ru_hostOnly r) then (v, ru_targetType r)
          else if decide (Host v = ""%string) then extractRules attrs rs
          else (Host v, ru_targetType r)
      end
  end.

(** [Extract] *)
Definition Extract (attrJSON : string) : string * string :=
  if bool_decide (attrJSON = ""%string) || bool_decide (attrJSON = "{}"%string)
  then (""%string, ""%string)
  else match stringAttrs attrJSON with
       | None => (""%string, ""%string)
       | Some attrs => extractRules attrs rules
       end.

(** The first loop of [Calls]: the spans by trace and span id (a later span
    replaces an earlier one), and the calls of the client spans. *)
Definition byIDStep (byID : gmap (string * string) nat) (isp : nat * Span)
  : gmap (string * string) nat :=
  <[(sp_TraceID isp.2, sp_SpanID isp.2) := isp.1]> byID.

Definition clientCall (isp : nat * Span) : option Call :=
  if negb (IsClientKind (sp_Kind isp.2)) then None
  else
    let '(target, targetType) := Extract (sp_Attributes isp.2) in
    if decide (target = ""%string) then None
    else Some (mkCall isp.1 (sp_Service isp.2) target targetType).

(** The second loop of [Calls]. *)
Definition serviceCall (spans : list Span) (byID : gmap (string * string) nat) (sp : Span)
  : option Call :=
  if bool_decide (sp_ParentSpanID sp = ""%string) || bool_decide (sp_Service sp = ""%string)
  then None
  else
    p ← byID !! (sp_TraceID sp, sp_ParentSpanID sp);
    parent ← spans !! p;
    if bool_decide (sp_Service parent = ""%string) ||
       bool_decide (sp_Service parent = sp_Service sp) then None
    else Some (mkCall p (sp_Service parent) (sp_Service sp) TypeService).

(** [Calls], with [emit] collecting. *)
Definition Calls (spans : list Span) : list Call :=
  let indexed := imap pair spans in
  let byID := foldl byIDStep ∅ indexed in
  omap clientCall indexed ++ omap (serviceCall spans byID) spans.

(** ** Lemmas *)

(** [byID] holds the last span of each id. *)
Definition lastWithID (spans : list Span) (q : string * string) (p : nat) (sp : Span) : Prop :=
  spans !! p = Some sp /\ (sp_TraceID sp, sp_SpanID sp) = q /\
  forall p' sp', (p < p')%nat -> spans !! p' = Some sp' ->
    (sp_TraceID sp', sp_SpanID sp') <> q.

Lemma byID_spec spans : forall q p,
  foldl byIDStep ∅ (imap pair spans) !! q = Some p <-> exists sp, lastWithID spans q p sp.
Proof.
  unfold lastWithID.
  induction spans as [|sp spans IH] using rev_ind; intros q p.
  { simpl. split; [done|]. intros (sp & Hsp & _). by rewrite lookup_nil in Hsp. }
  rewrite imap_app, foldl_app. simpl. unfold byIDStep at 1. simpl. rewrite Nat.add_0_r.
  destruct (decide ((sp_TraceID sp, sp_SpanID sp) = q)) as [Hq|Hq].
  - rewrite Hq, lookup_insert_eq. split.
    + intros [= <-]. exists sp. split_and!; [|done|].
      * rewrite lookup_app_r, Nat.sub_diag by lia. done.
      * intros p' sp' Hlt E%lookup_lt_Some. rewrite length_app in E. simpl in E. lia.
    + intros (sp' & E & Hq' & Hlast). destruct (decide (p = length spans)) as [->|Hne]; [done|].
      exfalso. pose proof (lookup_lt_Some _ _ _ E) as Hl. rewrite length_app in Hl. simpl in Hl.
      apply (Hlast (length spans) sp); [lia| |done].
      rewrite lookup_app_r, Nat.sub_diag by lia. done.
  - rewrite lookup_insert_ne by done. rewrite IH. split.
    + intros (sp' & E & Hq' & Hlast). exists sp'. split_and!; [by apply lookup_app_l_Some|done|].
      intros p' sp2 Hlt [E2|[_ E2]]%lookup_app_Some; [by eapply Hlast|].
      destruct (p' - length spans)%nat; simpl in E2; simplify_eq. done.
    + intros (sp' & E & Hq' & Hlast). exists sp'.
      apply lookup_app_Some in E as [E|[_ E]].
      * split_and!; [done|done|]. intros p' sp2 Hlt E2. eapply Hlast; [done|].
        by apply lookup_app_l_Some.
      * destruct (p - length spans)%nat; simpl in E; simplify_eq.
Qed.

Lemma Calls_target spans c : c ∈ Calls spans ->
  call_Target c <> ""%string /\ (call_Span c < length spans)%nat.
Proof.
  unfold Calls. intros [Hc|Hc]%elem_of_app.
  - apply list_elem_of_omap in Hc as ([i sp] & Hin & E). unfold clientCall in E. simpl in E.
    apply elem_of_lookup_imap in Hin as (i' & sp' & [= -> ->] & Hl).
    destruct (IsClientKind _); simpl in E; [|done]. destruct (Extract _) as [tg ty].
    case_decide; simplify_eq. simpl. split; [done|]. by apply lookup_lt_Some in Hl.
  - apply list_elem_of_omap in Hc as (sp & Hin & E). unfold serviceCall in E.
    destruct (bool_decide (sp_ParentSpanID sp = ""%string)); [done|]. simpl in E.
    destruct (bool_decide_reflect (sp_Service sp = ""%string)); [done|].
    apply bind_Some in E as (p & _ & E). apply bind_Some in E as (par & Hp & E).
    destruct (_ || _); simplify_eq. simpl. split; [done|]. by apply lookup_lt_Some in Hp.
Qed.
End Calls.

(** ** Properties *)

(** [Calls] emits exactly the calls a batch shows: one per client span whose
    attributes name a dependency, carried by that span, and one per span whose
    parent (the last span of the batch with that trace and span id) belongs to
    another named service, carried by the parent. *)
Theorem Calls_exact stringAttrs hostname spans c :
  c ∈ Calls stringAttrs hostname spans <->
  (exists i sp, spans !! i = Some sp /\ IsClientKind (sp_Kind sp) = true /\
     let '(target, targetType) := Extract stringAttrs hostname (sp_Attributes sp) in
     target <> ""%string /\ c = mkCall i (sp_Service sp) target targetType) \/
  (exists sp p parent, sp ∈ spans /\ sp_ParentSpanID sp <> ""%string /\
     lastWithID spans (sp_TraceID sp, sp_ParentSpanID sp) p parent /\
     sp_Service sp <> ""%string /\ sp_Service parent <> ""%string /\
     sp_Service parent <> sp_Service sp /\
     c = mkCall p (sp_Service parent) (sp_Service sp) TypeService).
Proof.
  unfold Calls. rewrite elem_of_app. f_equiv.
  - rewrite list_elem_of_omap. split.
    + intros ([i sp] & (? & ? & [= <- <-] & Hl)%elem_of_lookup_imap & E). exists i, sp.
      unfold clientCall in E. simpl in E. destruct (IsClientKind _); simpl in E; [|done].
      destruct (Extract _ _ _) as [tg ty]. case_decide; simplify_eq. done.
    + intros (i & sp & Hl & Hk & Hc). exists (i, sp).
      split; [apply elem_of_lookup_imap; eauto|]. unfold clientCall. simpl. rewrite Hk. simpl.
      destruct (Extract _ _ _) as [tg ty]. destruct Hc as [Hne ->]. by case_decide.
  - rewrite list_elem_of_omap. split.
    + intros (sp & Hin & E). unfold serviceCall in E.
      destruct (bool_decide_reflect (sp_ParentSpanID sp = ""%string)); [done|]. simpl in E.
      destruct (bool_decide_reflect (sp_Service sp = ""%string)); [done|].
      apply bind_Some in E as (p & Hp & E). apply byID_spec in Hp as (par & Hl).
      destruct Hl as (Hl & Hq & Hlast). rewrite Hl in E. simpl in E.
      destruct (bool_decide_reflect (sp_Service par = ""%string)); [done|]. simpl in E.
      case_bool_decide; simplify_eq. exists sp, p, par. unfold lastWithID.
      split_and!; try done; congruence.
    + intros (sp & p & par & Hin & H1 & Hl & H2 & H3 & H4 & ->). exists sp. split; [done|].
      unfold serviceCall. rewrite !bool_decide_false by done. simpl.
      assert (foldl byIDStep ∅ (imap pair spans) !! (sp_TraceID sp, sp_ParentSpanID sp) = Some p)
        as -> by (apply byID_spec; eauto).
      destruct Hl as (Hl & _). simpl. rewrite Hl. simpl. by rewrite !bool_decide_false.
Qed.
