(* ===== verification/SpanEdges.v ===== *)
(** * Span edges ([internal/aggregation/span_edges.go])

    [spanEdges] folds the calls of a batch into 5-minute slots per (project,
    source, target, target type) and writes them with a marker row per bucket.
    Clock readings are arguments: [now i] is the reading taken for the [i]-th
    span or call.  [es_log] and [es_seen] are histories: the calls folded so far
    with the key each was recorded under, and the buckets marked so far. *)
From S2P Require Import Prelude Model Varint SpanHist TierStore RollupCaps DurationStats.
From S2P Require Import SlotFlush DepTarget.

(** [SpanRollupStep] *)
Definition SpanRollupStep : Z := 300.

(** [spanRollupRequeueAge] *)
Definition spanRollupRequeueAge : Z := hour.

(** [arrivalBucket]; [now] is the clock's reading if it is needed. *)
Definition arrivalBucket (s : Span) (now : Z) : Z :=
  let at_ := default now (sp_IngestedAt s) in
  Unix at_ - Unix at_ %t SpanRollupStep.

(** [spanEdgeKey]: bucket, project, source, target and target type. *)
Record spanEdgeKey := mkSpanEdgeKey {
  ek_bucket : Z;
  ek_projectID : Z;
  ek_source : string;
  ek_target : string;
  ek_targetType : string;
}.

#[export] Instance spanEdgeKey_eq_dec : EqDecision spanEdgeKey.
Proof. solve_decision. Defined.

#[export] Program Instance spanEdgeKey_countable : Countable spanEdgeKey :=
  inj_countable'
    (fun k => (ek_bucket k, ek_projectID k, ek_source k, ek_target k, ek_targetType k))
    (fun t => let '(b, p, s, g, y) := t in mkSpanEdgeKey b p s g y) _.
Next Obligation. by intros []. Qed.

(** [spanEdgeSlot] *)
Record spanEdgeSlot := mkSpanEdgeSlot { es_stats : durationStats; es_errors : Z }.

(** [spanEdges]; the writer is the database's table. *)
Record spanEdges := mkSpanEdges {
  es_slots : gmap spanEdgeKey spanEdgeSlot;
  es_buckets : gset Z;
  es_caps : rollupCaps;
  es_cfg : SpanRollupConfig;
  es_log : list (spanEdgeKey * Span);
  es_seen : gset Z;
}.

(** [newSpanEdges] *)
Definition newSpanEdges (cfg : SpanRollupConfig) : spanEdges :=
  mkSpanEdges ∅ ∅ newRollupCaps cfg [] ∅.

(** [spanEdgeSlot.row] *)
Definition edgeRow (k : spanEdgeKey) (sl : spanEdgeSlot) : SpanEdge :=
  let d := es_stats sl in
  mkSpanEdge SpanRollupStep (ek_bucket k) (ek_projectID k) (ek_source k) (ek_target k)
    (ek_targetType k) (ds_count d) (es_errors sl) (w_count (ds_weights d))
    (w_spans (ds_weights d)) (ds_sum d) (ds_min d) (ds_max d) (Hist_Encode (ds_hist d)).

(** [spanEdgeRowKey] *)
Definition spanEdgeRowKey (row : SpanEdge) : spanEdgeKey :=
  mkSpanEdgeKey (ed_Bucket row) (ed_ProjectID row) (ed_Source row) (ed_Target row)
    (ed_TargetType row).

(** The merge of [spanEdges.requeue]. *)
Definition edgeMerge (cur sl : spanEdgeSlot) : spanEdgeSlot :=
  mkSpanEdgeSlot (ds_merge (es_stats cur) (es_stats sl)) (wrap64 (es_errors cur + es_errors sl)).

Definition zeroEdge : spanEdgeSlot := mkSpanEdgeSlot zeroStats 0.

Section Edges.
Context (log2x4 : Z -> Z) (unicodeLower : string -> string).
Context (stringAttrs : string -> option attrMap) (hostname : string -> option string).

(** [rollupStatus] *)
Definition rollupStatus (status : string) : string :=
  let s := ToLower unicodeLower status in
  if bool_decide (s = "error"%string) then "error"
  else if bool_decide (s = "ok"%string) then "ok" else "unset".

(** The end of [addCall]: observe the span and count its error. *)
Definition edgeObserve (sl : spanEdgeSlot) (s : Span) : spanEdgeSlot :=
  mkSpanEdgeSlot (ds_observe log2x4 (es_stats sl) s)
    (if bool_decide (rollupStatus (sp_Status s) = "error"%string)
     then wrap64 (es_errors sl + 1) else es_errors sl).

(** [spanEdges.addCall] *)
Definition addCall (now : Z) (c : Call) (s : Span) (e : spanEdges) : spanEdges :=
  let bucket := arrivalBucket s now in
  let capCfg := mkSpanRollupConfig (cfg_MaxEdgeTargets (es_cfg e))
                  (cfg_MaxServices (es_cfg e)) 0 0 false in
  let '((source, target, _), caps) :=
    caps_admit (sp_ProjectID s) (call_Source c)
      (call_Target c +:+ String Ascii.zero (call_TargetType c)) bucket capCfg (es_caps e) in
  let target := if decide (target = OtherName) then target else call_Target c in
  let k := mkSpanEdgeKey bucket (sp_ProjectID s) source target (call_TargetType c) in
  mkSpanEdges (observeSlot zeroEdge edgeObserve k s (es_slots e)) (es_buckets e) caps (es_cfg e)
    (es_log e ++ [(k, s)]) (es_seen e).

(** [spanEdges.add] *)
Definition edges_add (nowMark nowCall : nat -> Z) (spans : list Span) (e : spanEdges)
  : spanEdges :=
  let calls := Calls stringAttrs hostname spans in
  let mark := foldr (fun isp bs => {[arrivalBucket isp.2 (nowMark isp.1)]} ∪ bs) ∅
                (imap pair spans) in
  let e := mkSpanEdges (es_slots e) (mark ∪ es_buckets e) (es_caps e) (es_cfg e) (es_log e)
             (mark ∪ es_seen e) in
  foldl (fun e ic => from_option (fun s => addCall (nowCall ic.1) ic.2 s e) e
                       (spans !! call_Span ic.2))
    e (imap pair calls).

(** [spanEdges.requeue] *)
Definition edges_requeue (now : Z) (slots : gmap spanEdgeKey spanEdgeSlot) (buckets : gset Z)
  (e : spanEdges) : Z * spanEdges :=
  let oldest := Unix (now - spanRollupRequeueAge) in
  let kept := filter (fun b => oldest <= b) buckets in
  let '(lost, slots) := requeueSlots (es_slots e) slots (fun k => oldest <=? ek_bucket k)
                          edgeMerge in
  (lost, mkSpanEdges slots (kept ∪ es_buckets e) (es_caps e) (es_cfg e) (es_log e)
     (es_seen e)).

(** [spanEdges.flush] up to its unlock: the slots and buckets to write, and the
    accumulator that other goroutines go on using. *)
Definition edges_take (now : Z) (e : spanEdges)
  : gmap spanEdgeKey spanEdgeSlot * gset Z * spanEdges :=
  (es_slots e, es_buckets e,
   mkSpanEdges ∅ ∅ (prune (Unix now) (es_caps e)) (es_cfg e) (es_log e) (es_seen e)).

(** The rows of a flush. *)
Definition edgeRows (slots : gmap spanEdgeKey spanEdgeSlot) (buckets : gset Z) : list SpanEdge :=
  (SpanEdgeMarker SpanRollupStep <$> elements buckets) ++ slotRows edgeRow slots.

(** The rest of [spanEdges.flush]; [oks] says which chunks the database
    commits, [now] is the clock's reading at a requeue. *)
Definition edges_write (now : Z) (oks : list bool) (slots : gmap spanEdgeKey spanEdgeSlot)
  (buckets : gset Z) (e : spanEdges) (t : gmap edgePK SpanEdge)
  : option (writeError SpanEdge) * spanEdges * gmap edgePK SpanEdge :=
  if decide (buckets = ∅ /\ slots = ∅) then (None, e, t)
  else
    match AddSpanEdges oks (edgeRows slots buckets) t with
    | (None, t) => (None, e, t)
    | (Some err, t) =>
        (Some err, (edges_requeue now (unwrittenSlots slots err spanEdgeRowKey) buckets e).2, t)
    end.

(** ** The slot algebra of the edges *)

Definition isErrorSpan (s : Span) : Z :=
  if bool_decide (rollupStatus (sp_Status s) = "error"%string) then 1 else 0.

Definition exactEdge (l : list Span) : spanEdgeSlot :=
  mkSpanEdgeSlot (exactStats log2x4 l) (sumBy isErrorSpan l).

Lemma sumBy_isError_bound l : 0 <= sumBy isErrorSpan l <= Z.of_nat (length l).
Proof.
  induction l as [|s l IH]; simpl; [lia|].
  assert (0 <= isErrorSpan s <= 1) by (unfold isErrorSpan; case_match; lia). lia.
Qed.

Lemma errors_fit l1 l2 :
  fitsInt64 (l1 ++ l2) -> in_int64 (sumBy isErrorSpan l1 + sumBy isErrorSpan l2).
Proof.
  intros (Hn & _). rewrite length_app in Hn.
  pose proof (sumBy_isError_bound l1). pose proof (sumBy_isError_bound l2).
  unfold in_int64. lia.
Qed.

#[export] Instance edge_slots :
  SlotAlgebra zeroEdge edgeObserve edgeMerge edgeRow spanEdgeRowKey spanEdgePK
    spanEdgeAddSQL fitsInt64 exactEdge.
Proof.
  assert (forall l i, fitsInt64 (l ++ [i]) ->
    (if bool_decide (rollupStatus (sp_Status i) = "error"%string)
     then wrap64 (sumBy isErrorSpan l + 1) else sumBy isErrorSpan l) =
    sumBy isErrorSpan (l ++ [i])) as Herr.
  { intros l i Hf. pose proof (errors_fit l [i] Hf) as He. rewrite sumBy_app. simpl in *.
    rewrite Z.add_0_r in *. destruct (bool_decide _) eqn:E.
    - assert (isErrorSpan i = 1) as Hi by (unfold isErrorSpan; by rewrite E).
      rewrite Hi in *. by rewrite wrap64_id.
    - assert (isErrorSpan i = 0) as -> by (unfold isErrorSpan; by rewrite E). lia. }
  split.
  - intros l l' Hf (k & Hp)%submseteq_Permutation. rewrite Hp in Hf.
    by destruct (fitsInt64_app _ _ Hf).
  - intros l l' Hp. unfold exactEdge. by rewrite Hp.
  - intros i Hf. unfold edgeObserve, exactEdge. f_equal; [by apply exactStats_singleton|].
    apply (Herr []). done.
  - intros l i Hne Hf. unfold edgeObserve, exactEdge. f_equal; [by apply exactStats_observe|].
    by apply Herr.
  - intros l l' H1 H2 Hf. unfold edgeMerge, exactEdge. f_equal; [by apply exactStats_merge|].
    cbn [es_errors]. rewrite wrap64_id by by apply errors_fit. by rewrite sumBy_app.
  - intros k l l' H1 H2 Hf.
    destruct (exactStats_app log2x4 l l' H1 H2) as (E1 & E2 & E3 & E4 & E5 & E6).
    unfold edgeRow, spanEdgeAddSQL, exactEdge. cbn -[exactStats].
    rewrite <- (exactStats_hist log2x4 l l' Hf), E1, E2, E3, E4, E5, E6.
    by rewrite sumBy_app.
  - by intros [] v.
  - intros [] [] v v'. split; [|by intros [= -> -> -> -> ->]].
    unfold spanEdgePK, edgeRow. simpl. by intros [= -> -> -> -> ->].
Qed.

(** ** Every call is accounted for *)

Abbreviation edgesFold e e' := (folds fitsInt64 exactEdge (es_slots e) (es_log e)
  (es_slots e') (es_log e')).

(** The keys of calls: a marker is a row without a target. *)
Definition edgeValid (k : spanEdgeKey) : Prop := ek_target k <> ""%string.

Abbreviation edgesAccounted late e t :=
  (accounted zeroEdge edgeRow spanEdgePK exactEdge edgeValid late (es_slots e) t (es_log e)).

Lemma addCall_folds now c s e : edgesFold e (addCall now c s e).
Proof.
  unfold addCall. destruct (caps_admit _ _ _ _ _ _) as [[[src tgt] first] caps].
  cbn [es_slots es_log]. eapply (folds_observe zeroEdge edgeObserve). apply edge_slots.
Qed.

Lemma addCall_valid now c s e :
  call_Target c <> ""%string ->
  validLog edgeValid (es_log e) -> validLog edgeValid (es_log (addCall now c s e)).
Proof.
  intros Hc Hv. unfold addCall. destruct (caps_admit _ _ _ _ _ _) as [[[src tgt] first] caps].
  cbn [es_log]. apply Forall_app. split; [done|]. repeat constructor. unfold edgeValid. simpl.
  by case_decide as E; [rewrite E|].
Qed.

Lemma addCall_marks now c s e :
  es_buckets (addCall now c s e) = es_buckets e /\ es_seen (addCall now c s e) = es_seen e.
Proof. unfold addCall. by destruct (caps_admit _ _ _ _ _ _) as [[[src tgt] first] caps]. Qed.

(** What batches do to the edges. *)
Definition edgesGrow (e e' : spanEdges) : Prop :=
  edgesFold e e' /\ (validLog edgeValid (es_log e) -> validLog edgeValid (es_log e')) /\
  exists nb, es_buckets e' = nb ∪ es_buckets e /\ es_seen e' = nb ∪ es_seen e.

Lemma edgesGrow_refl e : edgesGrow e e.
Proof.
  split_and!; [|done|exists ∅; split; set_solver].
  eapply (folds_refl zeroEdge edgeObserve). apply edge_slots.
Qed.

Lemma edgesGrow_trans e e' e'' : edgesGrow e e' -> edgesGrow e' e'' -> edgesGrow e e''.
Proof.
  intros (F1 & V1 & nb1 & B1 & S1) (F2 & V2 & nb2 & B2 & S2). split_and!; [|by auto|].
  - eapply (folds_trans zeroEdge edgeObserve); [apply edge_slots|exact F1|exact F2].
  - exists (nb2 ∪ nb1). rewrite B2, B1, S2, S1. split; set_solver.
Qed.

Lemma edges_add_grow nowMark nowCall spans e :
  edgesGrow e (edges_add nowMark nowCall spans e).
Proof.
  unfold edges_add. set (mark := foldr _ _ _). set (e0 := mkSpanEdges _ _ _ _ _ _).
  apply (edgesGrow_trans _ e0).
  { destruct (edgesGrow_refl e) as (F & V & _). split_and!; [done|done|by exists mark]. }
  assert (forall ic, ic ∈ imap pair (Calls stringAttrs hostname spans) ->
    call_Target ic.2 <> ""%string) as Hc.
  { intros [i c] (i' & c' & [= -> ->] & Hl)%elem_of_lookup_imap.
    apply list_elem_of_lookup_2, Calls_target in Hl. by destruct Hl. }
  revert Hc. generalize e0. generalize (imap pair (Calls stringAttrs hostname spans)).
  induction l as [|ic l IH]; intros e1 Hc; simpl; [apply edgesGrow_refl|].
  eapply edgesGrow_trans, IH; [|intros; apply Hc; by right].
  destruct (spans !! _) as [s|]; simpl; [|apply edgesGrow_refl].
  split_and!; [apply addCall_folds|apply addCall_valid, Hc; by left|].
  destruct (addCall_marks (nowCall ic.1) ic.2 s e1) as [-> ->]. exists ∅. split; set_solver.
Qed.

(** The marker of a bucket. *)
Definition markerPK (b : Z) : edgePK := (SpanRollupStep, b, 0, "", "", "")%string.

(** Every bucket that was marked is open, has its marker row, or was given up
    for its age. *)
Definition marksAccounted (late : Z -> Prop) (e : spanEdges) (t : gmap edgePK SpanEdge) : Prop :=
  forall b, b ∈ es_seen e -> b ∈ es_buckets e \/ is_Some (t !! markerPK b) \/ late b.

Definition edgesInv (late : Z -> Prop) (e : spanEdges) (t : gmap edgePK SpanEdge) : Prop :=
  edgesAccounted (fun k => late (ek_bucket k)) e t /\ validLog edgeValid (es_log e) /\
  marksAccounted late e t.

Lemma edgesInv_grow late e e' t :
  edgesInv late e t -> edgesGrow e e' -> fitsInt64 (es_log e').*2 -> edgesInv late e' t.
Proof.
  intros (HA & HV & HM) (F & V & nb & B & S) Hf. split_and!; [|auto|].
  - eapply (accounted_folds zeroEdge edgeObserve); [apply edge_slots|exact HA|exact F|done].
  - intros b. rewrite B, S. intros [Hb|Hb]%elem_of_union; [set_solver|].
    destruct (HM b Hb) as [?|?]; [set_solver|by right].
Qed.

Lemma edges_write_rows now oks slots buckets e t :
  edges_write now oks slots buckets e t =
  match AddSpanEdges oks (edgeRows slots buckets) t with
  | (None, t) => (None, e, t)
  | (Some err, t) =>
      (Some err, (edges_requeue now (unwrittenSlots slots err spanEdgeRowKey) buckets e).2, t)
  end.
Proof. unfold edges_write. case_decide as E; [|done]. by destruct E as [-> ->]. Qed.

Lemma markers_NoDup (buckets : gset Z) :
  NoDup (spanEdgePK <$> (SpanEdgeMarker SpanRollupStep <$> elements buckets)).
Proof.
  rewrite <- list_fmap_compose. apply NoDup_fmap_2; [|apply NoDup_elements].
  intros b b' E. by injection E.
Qed.

Lemma marker_rows (late : spanEdgeKey -> Prop) e t (buckets : gset Z) :
  edgesAccounted late e t -> validLog edgeValid (es_log e) ->
  forall r, r ∈ SpanEdgeMarker SpanRollupStep <$> elements buckets ->
    (forall k v, edgeValid k -> spanEdgePK r <> spanEdgePK (edgeRow k v)) /\
    es_slots e !! spanEdgeRowKey r = None.
Proof.
  intros (go & gs & gl & Hm & _ & Hp & _) Hv r (b & -> & _)%list_elem_of_fmap. split.
  - intros k v Hk [= _ _ _ E _]. by destruct Hk.
  - rewrite (Hm _). destruct (go _) as [|s l] eqn:E; [done|].
    set (k := spanEdgeRowKey _) in *. destruct (validLog_under edgeValid k (es_log e) Hv); [|done].
    intros Hu. pose proof (Hp k) as Hpk. by rewrite Hu, E in Hpk; apply Permutation_nil in Hpk.
Qed.

(** A flush of the edges keeps the account, whatever chunk fails and whatever
    batches arrive while it writes. *)
Lemma edges_flush_inv late nowTake now oks e e2 t err e3 t' :
  edgesInv late e t ->
  edgesGrow (edges_take nowTake e).2 e2 -> fitsInt64 (es_log e2).*2 ->
  (false ∈ oks -> forall b, b < Unix (now - spanRollupRequeueAge) -> late b) ->
  edges_write now oks (edges_take nowTake e).1.1 (edges_take nowTake e).1.2 e2 t = (err, e3, t') ->
  edgesInv late e3 t'.
Proof.
  intros (HA & HV & HM) (F & V & nb & B & S) Hf Hlate Hw. cbn [fst snd edges_take] in *.
  cbn [es_slots es_log es_buckets es_seen] in *. specialize (V HV).
  rewrite edges_write_rows in Hw.
  destruct (AddSpanEdges oks (edgeRows (es_slots e) (es_buckets e)) t) as [er t1] eqn:Ew.
  set (keep k := negb (bool_decide (false ∈ oks)) || (Unix (now - spanRollupRequeueAge) <=? ek_bucket k)).
  assert (forall k, keep k = false -> late (ek_bucket k)) as Hk
    by (intros k [Ho%negb_false_iff%bool_decide_eq_true Hk%Z.leb_gt]%orb_false_iff; by apply Hlate).
  assert (is_Some er -> false ∈ oks) as Hfail by (intros [err' ->]; by eapply writeTierRows_fails).
  pose proof Ew as Ew'. unfold edgeRows in Ew'.
  eapply (accounted_flush zeroEdge edgeObserve edgeMerge edgeRow spanEdgeRowKey spanEdgePK
    spanEdgeAddSQL fitsInt64 exactEdge edgeValid (fun k => late (ek_bucket k)) AddSpanEdges
    _ keep (es_slots e) t (es_log e) (es_slots e2) (es_log e2)) in Ew'; try done;
    [|by eapply marker_rows|apply markers_NoDup].
  apply tw_split in Ew as (w & Hp & ->).
  set (un := unwrittenRows _ _) in *.
  assert (forall b, b ∈ es_buckets e ->
    is_Some (foldl (upsert spanEdgePK spanEdgeAddSQL) t w !! markerPK b) \/
    exists er', er = Some er') as Hb.
  { intros b Hb. destruct er as [er'|]; [by right; eauto|]. left.
    apply (addAll_is_Some spanEdgePK spanEdgeAddSQL w t (markerPK b)). left.
    unfold un in Hp. simpl in Hp. rewrite app_nil_r in Hp.
    apply list_elem_of_fmap. exists (SpanEdgeMarker SpanRollupStep b). split; [done|].
    rewrite <- Hp. unfold edgeRows. apply elem_of_app. left. apply list_elem_of_fmap_2.
    by apply elem_of_elements. }
  assert (forall b, is_Some (t !! markerPK b) ->
    is_Some (foldl (upsert spanEdgePK spanEdgeAddSQL) t w !! markerPK b)) as Hold
    by (intros b ?; apply (addAll_is_Some spanEdgePK spanEdgeAddSQL w t (markerPK b)); by right).
  destruct er as [er'|]; injection Hw as <- <- <-; simpl in Ew'.
  - assert (false ∈ oks) as Ho by eauto. unfold keep in Ew'. rewrite bool_decide_eq_true_2 in Ew' by done. cbn [negb orb] in Ew'.
    unfold edges_requeue. destruct (requeueSlots _ _ _ _) as [lost sl] eqn:Er.
    simpl in Ew'. unfold edgesInv. split_and!; [exact Ew'|done|].
    intros b Hs. cbn [es_seen es_buckets] in *. rewrite S in Hs. rewrite B.
    apply elem_of_union in Hs as [Hs|Hs]; [left; set_solver|].
    destruct (HM b Hs) as [Hin|[Hin|Hin]]; [|by right; left; auto|by right; right].
    destruct (decide (Unix (now - spanRollupRequeueAge) <= b)); [|right; right; apply Hlate; [done|lia]].
    left. apply elem_of_union. left. by apply elem_of_filter.
  - split_and!; [exact Ew'|done|]. intros b Hs. rewrite S in Hs. rewrite B.
    apply elem_of_union in Hs as [Hs|Hs]; [left; set_solver|].
    destruct (HM b Hs) as [Hin|[Hin|Hin]]; [|by right; left; auto|by right; right].
    destruct (Hb b Hin) as [?|[? ?]]; [by right; left|done].
Qed.
End Edges.
