(* ===== verification/SpanRollups.v ===== *)
(** * Span rollups ([internal/aggregation/span_rollups.go],
    [span_rollup_http.go])

    [SpanRollups] folds every span into the 5-minute slot of its key, hands the
    calls of a batch to [spanEdges], and flushes both into their tables.
    [su_log] is a history: the spans folded so far with the key each was recorded
    under.  A run is a list of batches and flushes; each flush may fail at any
    chunk and other goroutines add batches while it writes. *)
From S2P Require Import Prelude Model Varint SpanHist TierStore RollupCaps DurationStats.
From S2P Require Import SlotFlush DepTarget SpanEdges.

(** ** The response code of a root span *)

(** [httpStatusKeys] *)
Definition dquote : ascii := "034"%char.

Definition quoted (s : string) : list ascii := dquote :: bytesOf s ++ [dquote].

Definition httpStatusKeys : list (list ascii) :=
  [quoted "http.response.status_code"; quoted "http.status_code"].

Definition isDigit (c : ascii) : bool :=
  (48 <=? Ascii.nat_of_ascii c)%nat && (Ascii.nat_of_ascii c <=? 57)%nat.

(** The digit loop of [codeAfterKey]: the code, and how many digits were read,
    four at most. *)
Fixpoint codeDigits (room : nat) (code : Z) (rest : list ascii) : Z * nat :=
  match room, rest with
  | S room, c :: rest =>
      if isDigit c then
        let '(code, n) := codeDigits room (code * 10 + (Z.of_nat (Ascii.nat_of_ascii c) - 48)) rest in
        (code, S n)
      else (code, O)
  | _, _ => (code, O)
  end.

Definition blanks : list ascii := [" "; "009"; "013"; "010"]%char.

(** [codeAfterKey] *)
Definition codeAfterKey (attrs key : list ascii) : Z :=
  match indexOf key attrs with
  | None => 0
  | Some i =>
      let rest := trimLeft blanks (drop (i + length key) attrs) in
      if negb (hasPrefix [":"%char] rest) then 0
      else
        let rest := trimPrefix [dquote] (trimLeft blanks (drop 1 rest)) in
        let '(code, n) := codeDigits 4 0 rest in
        if (n =? 0)%nat || (3 <? n)%nat then 0 else code
  end.

(** [httpStatusOf] *)
Fixpoint firstCode (attrs : list ascii) (keys : list (list ascii)) : Z :=
  match keys with
  | [] => 0
  | key :: keys =>
      let code := codeAfterKey attrs key in if 0 <? code then code else firstCode attrs keys
  end.

Definition httpStatusOf (attrs : string) : Z := firstCode (bytesOf attrs) httpStatusKeys.

(** ** Slots *)

(** [spanRollupKey] *)
Record spanRollupKey := mkSpanRollupKey {
  rk_bucket : Z;
  rk_projectID : Z;
  rk_service : string;
  rk_name : string;
  rk_kind : string;
  rk_root : bool;
  rk_status : string;
  rk_http : Z;
}.

#[export] Instance spanRollupKey_eq_dec : EqDecision spanRollupKey.
Proof. solve_decision. Defined.

#[export] Program Instance spanRollupKey_countable : Countable spanRollupKey :=
  inj_countable'
    (fun k => (rk_bucket k, rk_projectID k, rk_service k, rk_name k, rk_kind k, rk_root k,
               rk_status k, rk_http k))
    (fun t => let '(b, p, s, n, k, r, st, h) := t in mkSpanRollupKey b p s n k r st h) _.
Next Obligation. by intros []. Qed.

(** [SpanRollups]; a slot is its [durationStats]. *)
Record SpanRollups := mkSpanRollups {
  su_slots : gmap spanRollupKey durationStats;
  su_caps : rollupCaps;
  su_cfg : SpanRollupConfig;
  su_edges : spanEdges;
  su_log : list (spanRollupKey * Span);
}.

(** [NewSpanRollups] *)
Definition NewSpanRollups (cfg : SpanRollupConfig) : SpanRollups :=
  let cfg := withDefaults cfg in
  mkSpanRollups ∅ newRollupCaps cfg (newSpanEdges cfg) [].

(** [spanRollupSlot.row] *)
Definition rollupRow (k : spanRollupKey) (d : durationStats) : SpanRollup :=
  mkSpanRollup SpanRollupStep (rk_bucket k) (rk_projectID k) (rk_service k) (rk_name k)
    (rk_kind k) (rk_root k) (rk_status k) (rk_http k) (ds_count d) (w_count (ds_weights d))
    (w_spans (ds_weights d)) (ds_sum d) (ds_min d) (ds_max d) (Hist_Encode (ds_hist d)).

(** [spanRollupRowKey] *)
Definition spanRollupRowKey (row : SpanRollup) : spanRollupKey :=
  mkSpanRollupKey (ro_Bucket row) (ro_ProjectID row) (ro_Service row) (ro_Name row)
    (ro_Kind row) (ro_IsRoot row) (ro_Status row) (ro_HTTPStatus row).

Section Rollups.
Context (log2x4 : Z -> Z) (unicodeLower : string -> string).
Context (stringAttrs : string -> option attrMap) (hostname : string -> option string).

(** [SpanRollups.Add] *)
Definition SpanRollups_Add (now : Z) (s : Span) (r : SpanRollups) : SpanRollups :=
  let bucket := arrivalBucket s now in
  let root := bool_decide (sp_ParentSpanID s = ""%string) in
  let code := if root && cfg_HTTPStatus (su_cfg r) then httpStatusOf (sp_Attributes s) else 0 in
  let '((service, name, _), caps) :=
    caps_admit (sp_ProjectID s) (sp_Service s) (sp_Name s) bucket (su_cfg r) (su_caps r) in
  let k := mkSpanRollupKey bucket (sp_ProjectID s) service name
             (ToLower unicodeLower (sp_Kind s)) root
             (rollupStatus unicodeLower (sp_Status s)) code in
  mkSpanRollups (observeSlot zeroStats (ds_observe log2x4) k s (su_slots r)) caps (su_cfg r)
    (su_edges r) (su_log r ++ [(k, s)]).

(** [SpanRollups.AddBatch] *)
Definition AddBatch (now nowMark nowCall : nat -> Z) (spans : list Span) (r : SpanRollups)
  : SpanRollups :=
  let r := foldl (fun r isp => SpanRollups_Add (now isp.1) isp.2 r) r (imap pair spans) in
  mkSpanRollups (su_slots r) (su_caps r) (su_cfg r)
    (edges_add log2x4 unicodeLower stringAttrs hostname nowMark nowCall spans (su_edges r))
    (su_log r).

(** [SpanRollups.requeue] *)
Definition rollups_requeue (now : Z) (slots : gmap spanRollupKey durationStats)
  (r : SpanRollups) : Z * SpanRollups :=
  let oldest := Unix (now - spanRollupRequeueAge) in
  let '(lost, slots) := requeueSlots (su_slots r) slots (fun k => oldest <=? rk_bucket k)
                          ds_merge in
  (lost, mkSpanRollups slots (su_caps r) (su_cfg r) (su_edges r) (su_log r)).

(** [SpanRollups.flushRollups] up to its unlock: the slots to write, and the
    accumulator other goroutines go on using. *)
Definition rollups_take (now : Z) (r : SpanRollups)
  : gmap spanRollupKey durationStats * SpanRollups :=
  (su_slots r,
   mkSpanRollups ∅ (prune (Unix now) (su_caps r)) (su_cfg r) (su_edges r) (su_log r)).

(** The rest of [SpanRollups.flushRollups]. *)
Definition rollups_write (now : Z) (oks : list bool)
  (slots : gmap spanRollupKey durationStats) (r : SpanRollups) (t : gmap rollupPK SpanRollup)
  : option (writeError SpanRollup) * SpanRollups * gmap rollupPK SpanRollup :=
  if decide (slots = ∅) then (None, r, t)
  else
    match AddSpanRollups oks (slotRows rollupRow slots) t with
    | (None, t) => (None, r, t)
    | (Some err, t) =>
        (Some err, (rollups_requeue now (unwrittenSlots slots err spanRollupRowKey) r).2, t)
    end.

(** A batch with the clock readings of its [AddBatch]. *)
Record batch := mkBatch {
  ba_now : nat -> Z;
  ba_nowMark : nat -> Z;
  ba_nowCall : nat -> Z;
  ba_spans : list Span;
}.

Definition addBatches (bs : list batch) (r : SpanRollups) : SpanRollups :=
  foldl (fun r b => AddBatch (ba_now b) (ba_nowMark b) (ba_nowCall b) (ba_spans b) r) r bs.

(** What happens around a [Flush]: the clock at each take and requeue, the
    chunks the database commits, and the batches that other goroutines add
    while each half writes. *)
Record flushEnv := mkFlushEnv {
  fe_take : Z; fe_requeue : Z; fe_oks : list bool; fe_during : list batch;
  fe_takeEdges : Z; fe_requeueEdges : Z; fe_oksEdges : list bool; fe_duringEdges : list batch;
}.

(** The accumulator and its two tables. *)
Abbreviation system := (SpanRollups * gmap rollupPK SpanRollup * gmap edgePK SpanEdge)%type.

Definition set_edges (e : spanEdges) (r : SpanRollups) : SpanRollups :=
  mkSpanRollups (su_slots r) (su_caps r) (su_cfg r) e (su_log r).

(** [SpanRollups.Flush]: whether each half failed, and the system afterwards. *)
Definition SpanRollups_Flush (f : flushEnv) (st : system) : bool * bool * system :=
  let '(r, t, te) := st in
  let '(slots, r) := rollups_take (fe_take f) r in
  let r := addBatches (fe_during f) r in
  let '(err, r, t) := rollups_write (fe_requeue f) (fe_oks f) slots r t in
  let '(eslots, buckets, e) := edges_take (fe_takeEdges f) (su_edges r) in
  let r := addBatches (fe_duringEdges f) (set_edges e r) in
  let '(errE, e, te) := edges_write (fe_requeueEdges f) (fe_oksEdges f) eslots buckets
                          (su_edges r) te in
  (bool_decide (is_Some err), bool_decide (is_Some errE), (set_edges e r, t, te)).

Inductive rollupOp := OpBatch (b : batch) | OpFlush (f : flushEnv).

Definition rollupStep (st : system) (op : rollupOp) : system :=
  match op with
  | OpBatch b => (addBatches [b] st.1.1, st.1.2, st.2)
  | OpFlush f => (SpanRollups_Flush f st).2
  end.

Definition rollupRun (cfg : SpanRollupConfig) (ops : list rollupOp) : system :=
  foldl rollupStep (NewSpanRollups cfg, ∅, ∅) ops.

(** ** The account *)

#[export] Instance rollup_slots :
  SlotAlgebra zeroStats (ds_observe log2x4) ds_merge rollupRow spanRollupRowKey spanRollupPK
    spanRollupAddSQL fitsInt64 (exactStats log2x4).
Proof.
  split.
  - intros l l' Hf (k & Hp)%submseteq_Permutation. rewrite Hp in Hf.
    by destruct (fitsInt64_app _ _ Hf).
  - intros l l' Hp. by rewrite Hp.
  - apply exactStats_singleton.
  - apply exactStats_observe.
  - apply exactStats_merge.
  - intros k l l' H1 H2 Hf.
    destruct (exactStats_app log2x4 l l' H1 H2) as (E1 & E2 & E3 & E4 & E5 & E6).
    unfold rollupRow, spanRollupAddSQL. cbn -[exactStats].
    by rewrite <- (exactStats_hist log2x4 l l' Hf), E1, E2, E3, E4, E5, E6.
  - by intros [] v.
  - intros [] [] v v'. split; [|by intros [= -> -> -> -> -> -> -> ->]].
    unfold spanRollupPK, rollupRow. simpl. by intros [= -> -> -> -> -> -> -> ->].
Qed.

Abbreviation rollupsFold r r' := (folds fitsInt64 (exactStats log2x4) (su_slots r) (su_log r)
  (su_slots r') (su_log r')).

Abbreviation rollupsAccounted late r t :=
  (accounted zeroStats rollupRow spanRollupPK (exactStats log2x4) (fun _ => True) late
    (su_slots r) t (su_log r)).

(** What batches do: both histories grow, and every span is recorded once. *)
Definition rollupsGrow (r r' : SpanRollups) (spans : list Span) : Prop :=
  rollupsFold r r' /\ (su_log r').*2 = (su_log r).*2 ++ spans /\
  edgesGrow log2x4 unicodeLower (su_edges r) (su_edges r').

Lemma rollupsGrow_refl r : rollupsGrow r r [].
Proof.
  split_and!; [|by rewrite app_nil_r|apply edgesGrow_refl].
  eapply (folds_refl zeroStats (ds_observe log2x4)). apply rollup_slots.
Qed.

Lemma rollupsGrow_trans r r' r'' l l' :
  rollupsGrow r r' l -> rollupsGrow r' r'' l' -> rollupsGrow r r'' (l ++ l').
Proof.
  intros (F1 & L1 & E1) (F2 & L2 & E2). split_and!.
  - eapply (folds_trans zeroStats (ds_observe log2x4)); [apply rollup_slots|exact F1|exact F2].
  - by rewrite L2, L1, app_assoc.
  - by eapply edgesGrow_trans.
Qed.

Lemma Add_grow now s r : rollupsGrow r (SpanRollups_Add now s r) [s].
Proof.
  unfold SpanRollups_Add. destruct (caps_admit _ _ _ _ _ _) as [[[svc nm] first] caps].
  split_and!; [| |apply edgesGrow_refl]; cbn [su_slots su_log].
  - eapply (folds_observe zeroStats (ds_observe log2x4)). apply rollup_slots.
  - by rewrite fmap_app.
Qed.

Lemma Adds_grow now (l : list (nat * Span)) : forall r,
  rollupsGrow r (foldl (fun r isp => SpanRollups_Add (now isp.1) isp.2 r) r l) l.*2.
Proof.
  induction l as [|[i s] l IH]; intros r; csimpl; [apply rollupsGrow_refl|].
  eapply (rollupsGrow_trans _ _ _ [s]); [apply Add_grow|apply IH].
Qed.

Lemma imap_pair_snd {A} (l : list A) : (imap pair l).*2 = l.
Proof.
  rewrite fmap_imap. change (imap (fun n => snd ∘ pair n) l) with (imap (const (@id A)) l).
  by rewrite imap_const, list_fmap_id.
Qed.

Lemma AddBatch_grow now nowMark nowCall spans r :
  rollupsGrow r (AddBatch now nowMark nowCall spans r) spans.
Proof.
  unfold AddBatch. pose proof (Adds_grow now (imap pair spans) r) as (F & L & E).
  rewrite imap_pair_snd in L.
  split_and!; [exact F|exact L|]. eapply edgesGrow_trans; [exact E|]. apply edges_add_grow.
Qed.

Definition spansIn (bs : list batch) : list Span := mjoin (ba_spans <$> bs).

Lemma addBatches_grow bs : forall r, rollupsGrow r (addBatches bs r) (spansIn bs).
Proof.
  unfold addBatches, spansIn.
  induction bs as [|b bs IH]; intros r; csimpl; [apply rollupsGrow_refl|].
  exact (rollupsGrow_trans _ _ _ _ _ (AddBatch_grow _ _ _ _ r) (IH _)).
Qed.

Lemma rollups_write_rows now oks slots r t :
  rollups_write now oks slots r t =
  match AddSpanRollups oks (slotRows rollupRow slots) t with
  | (None, t) => (None, r, t)
  | (Some err, t) =>
      (Some err, (rollups_requeue now (unwrittenSlots slots err spanRollupRowKey) r).2, t)
  end.
Proof. unfold rollups_write. case_decide as E; [|done]. by rewrite E. Qed.

(** A flush of the rollups keeps the account. *)
Lemma rollups_flush_inv (late : Z -> Prop) nowTake now oks r r2 t err r3 t' :
  rollupsAccounted (fun k => late (rk_bucket k)) r t ->
  rollupsFold (rollups_take nowTake r).2 r2 -> fitsInt64 (su_log r2).*2 ->
  (false ∈ oks -> forall b, b < Unix (now - spanRollupRequeueAge) -> late b) ->
  rollups_write now oks (rollups_take nowTake r).1 r2 t = (err, r3, t') ->
  rollupsAccounted (fun k => late (rk_bucket k)) r3 t' /\ su_log r3 = su_log r2 /\
  su_edges r3 = su_edges r2.
Proof.
  intros HA F Hf Hlate Hw. cbn [fst snd rollups_take] in *. cbn [su_slots su_log] in *.
  rewrite rollups_write_rows in Hw.
  destruct (AddSpanRollups oks (slotRows rollupRow (su_slots r)) t) as [er t1] eqn:Ew.
  set (keep k := negb (bool_decide (false ∈ oks)) || (Unix (now - spanRollupRequeueAge) <=? rk_bucket k)).
  assert (forall k, keep k = false -> late (rk_bucket k)) as Hk
    by (intros k [Ho%negb_false_iff%bool_decide_eq_true Hk%Z.leb_gt]%orb_false_iff; by apply Hlate).
  assert (is_Some er -> keep = (fun k => Unix (now - spanRollupRequeueAge) <=? rk_bucket k)) as Hkeep.
  { intros [err' ->]. unfold keep. by rewrite bool_decide_eq_true_2 by by eapply writeTierRows_fails. }
  eapply (accounted_flush zeroStats (ds_observe log2x4) ds_merge rollupRow spanRollupRowKey
    spanRollupPK spanRollupAddSQL fitsInt64 (exactStats log2x4) (fun _ => True)
    (fun k => late (rk_bucket k)) AddSpanRollups [] keep (su_slots r) t (su_log r)
    (su_slots r2) (su_log r2)) in Ew; try done.
  - destruct er as [er'|]; injection Hw as <- <- <-; [|done].
    cbn [from_option] in Ew. unfold rollups_requeue.
    rewrite <- Hkeep by eauto. destruct (requeueSlots _ _ keep _) as [lost sl]. done.
  - by apply Forall_true.
  - by intros ? ?%not_elem_of_nil.
  - constructor.
Qed.

(** The spans an operation folds, in order, and the times a failed flush puts slots back. *)
Definition opSpans (op : rollupOp) : list Span :=
  match op with
  | OpBatch b => ba_spans b
  | OpFlush f => spansIn (fe_during f) ++ spansIn (fe_duringEdges f)
  end.

Definition requeueTimes (ops : list rollupOp) : list Z :=
  omap (fun op => match op with
    | OpFlush f => if bool_decide (false ∈ fe_oks f) then Some (fe_requeue f) else None
    | _ => None
    end) ops.

Definition requeueTimesEdges (ops : list rollupOp) : list Z :=
  omap (fun op => match op with
    | OpFlush f => if bool_decide (false ∈ fe_oksEdges f) then Some (fe_requeueEdges f) else None
    | _ => None
    end) ops.

(** A bucket is late for a requeue when it is older than an hour. *)
Definition lateFor (times : list Z) (b : Z) : Prop :=
  exists now, now ∈ times /\ b < Unix (now - spanRollupRequeueAge).

Abbreviation edgesOf st := (su_edges st.1.1).

(** The two accounts, and the histories since an earlier state. *)
Abbreviation rollupsInv lr st := (rollupsAccounted (fun k => lr (rk_bucket k)) st.1.1 st.1.2).

Abbreviation edgesInvOf le st := (edgesInv log2x4 unicodeLower le (edgesOf st) st.2).

Definition historyOf (st st' : system) (spans : list Span) : Prop :=
  (su_log st'.1.1).*2 = (su_log st.1.1).*2 ++ spans /\
  exists new, es_log (edgesOf st') = es_log (edgesOf st) ++ new.

Lemma fits_prefix {K} (log log' new : list (K * Span)) :
  log' = log ++ new -> fitsInt64 log'.*2 -> fitsInt64 log.*2.
Proof. intros -> Hf. rewrite fmap_app in Hf. by destruct (fitsInt64_app _ _ Hf). Qed.

Lemma batch_rollups (lr : Z -> Prop) b st :
  rollupsInv lr st -> fitsInt64 (su_log (rollupStep st (OpBatch b)).1.1).*2 ->
  rollupsInv lr (rollupStep st (OpBatch b)).
Proof.
  intros HR Hf. pose proof (AddBatch_grow (ba_now b) (ba_nowMark b) (ba_nowCall b)
    (ba_spans b) st.1.1) as (F & _).
  eapply (accounted_folds zeroStats (ds_observe log2x4)); [apply rollup_slots|exact HR|exact F|done].
Qed.

Lemma batch_edges (le : Z -> Prop) b st :
  edgesInvOf le st -> fitsInt64 (es_log (edgesOf (rollupStep st (OpBatch b)))).*2 ->
  edgesInvOf le (rollupStep st (OpBatch b)).
Proof.
  intros HE Hf. pose proof (AddBatch_grow (ba_now b) (ba_nowMark b) (ba_nowCall b)
    (ba_spans b) st.1.1) as (_ & _ & E).
  eapply edgesInv_grow; [exact HE|exact E|done].
Qed.

(** The two halves of [Flush], with the states between them. *)
Lemma Flush_split f st :
  exists r2 r3 t' r5 e6 te' err errE,
    rollupsGrow (rollups_take (fe_take f) st.1.1).2 r2 (spansIn (fe_during f)) /\
    rollups_write (fe_requeue f) (fe_oks f) (rollups_take (fe_take f) st.1.1).1 r2 st.1.2
      = (err, r3, t') /\
    rollupsGrow (set_edges (edges_take (fe_takeEdges f) (su_edges r3)).2 r3) r5
      (spansIn (fe_duringEdges f)) /\
    edges_write (fe_requeueEdges f) (fe_oksEdges f)
      (edges_take (fe_takeEdges f) (su_edges r3)).1.1
      (edges_take (fe_takeEdges f) (su_edges r3)).1.2 (su_edges r5) st.2 = (errE, e6, te') /\
    (SpanRollups_Flush f st).2 = (set_edges e6 r5, t', te').
Proof.
  destruct st as [[r t] te]. unfold SpanRollups_Flush. cbn [fst snd rollups_take edges_take].
  destruct (rollups_write _ _ _ _ _) as [[err r3] t'] eqn:E1.
  destruct (edges_write _ _ _ _ _ _) as [[errE e6] te'] eqn:E2.
  eexists _, r3, t', _, e6, te', err, errE. split_and!; [apply addBatches_grow|exact E1| |exact E2|done].
  apply addBatches_grow.
Qed.

Lemma edges_write_log now oks slots buckets e t :
  es_log (edges_write now oks slots buckets e t).1.2 = es_log e.
Proof.
  rewrite edges_write_rows. destruct (AddSpanEdges _ _ _) as [[err|] t']; simpl; [|done].
  unfold edges_requeue. by destruct (requeueSlots _ _ _ _).
Qed.

Lemma rollups_write_log now oks slots r t :
  su_log (rollups_write now oks slots r t).1.2 = su_log r /\
  su_edges (rollups_write now oks slots r t).1.2 = su_edges r.
Proof.
  rewrite rollups_write_rows. destruct (AddSpanRollups _ _ _) as [[err|] t']; simpl; [|done].
  unfold rollups_requeue. by destruct (requeueSlots _ _ _ _).
Qed.

Lemma step_history op st : historyOf st (rollupStep st op) (opSpans op).
Proof.
  destruct op as [b|f].
  - destruct (AddBatch_grow (ba_now b) (ba_nowMark b) (ba_nowCall b) (ba_spans b) st.1.1)
      as (_ & L & (new & E & _) & _). split; [exact L|by exists new].
  - destruct (Flush_split f st) as (r2 & r3 & t' & r5 & e6 & te' & err & errE & G1 & W1 & G2 & W2 & E).
    unfold historyOf, rollupStep, opSpans. rewrite E. cbn [fst snd set_edges su_log su_edges].
    destruct G1 as (_ & L1 & (n1 & X1 & _) & _), G2 as (_ & L2 & (n2 & X2 & _) & _).
    pose proof (rollups_write_log (fe_requeue f) (fe_oks f)
      (rollups_take (fe_take f) st.1.1).1 r2 st.1.2) as [Y1 Y2].
    pose proof (edges_write_log (fe_requeueEdges f) (fe_oksEdges f)
      (edges_take (fe_takeEdges f) (su_edges r3)).1.1
      (edges_take (fe_takeEdges f) (su_edges r3)).1.2 (su_edges r5) st.2) as Y3.
    rewrite W1 in Y1, Y2. rewrite W2 in Y3. simpl in Y1, Y2, Y3, X1, X2, L1, L2.
    split; [by rewrite L2, Y1, L1, app_assoc|].
    exists (n1 ++ n2). by rewrite Y3, X2, Y2, X1, app_assoc.
Qed.

Lemma flush_rollups (lr : Z -> Prop) f st :
  rollupsInv lr st -> fitsInt64 (su_log (rollupStep st (OpFlush f)).1.1).*2 ->
  (false ∈ fe_oks f -> forall b, b < Unix (fe_requeue f - spanRollupRequeueAge) -> lr b) ->
  rollupsInv lr (rollupStep st (OpFlush f)).
Proof.
  intros HR F1 Hlr. cbn [rollupStep] in *.
  destruct (Flush_split f st) as (r2 & r3 & t' & r5 & e6 & te' & err & errE & G1 & W1 & G2 & W2 & E).
  rewrite E in *. cbn [fst snd set_edges su_log] in *.
  pose proof (rollups_write_log (fe_requeue f) (fe_oks f)
    (rollups_take (fe_take f) st.1.1).1 r2 st.1.2) as [Y1 _].
  rewrite W1 in Y1. cbn [fst snd] in Y1.
  destruct G1 as (D1 & _), G2 as (D2 & _). pose proof D2 as (n2 & X2 & _).
  cbn [set_edges su_log] in X2.
  assert (fitsInt64 (su_log r2).*2) as F1' by (rewrite <- Y1; by eapply fits_prefix).
  eapply rollups_flush_inv in W1 as (HR' & _); [|exact HR|exact D1|exact F1'|exact Hlr].
  eapply (accounted_folds zeroStats (ds_observe log2x4)); [apply rollup_slots|exact HR'|exact D2|done].
Qed.

Lemma flush_edges (le : Z -> Prop) f st :
  edgesInvOf le st -> fitsInt64 (es_log (edgesOf (rollupStep st (OpFlush f)))).*2 ->
  (false ∈ fe_oksEdges f -> forall b, b < Unix (fe_requeueEdges f - spanRollupRequeueAge) -> le b) ->
  edgesInvOf le (rollupStep st (OpFlush f)).
Proof.
  intros HE F2 Hle. cbn [rollupStep] in *.
  destruct (Flush_split f st) as (r2 & r3 & t' & r5 & e6 & te' & err & errE & G1 & W1 & G2 & W2 & E).
  rewrite E in *. cbn [fst snd set_edges su_edges] in *.
  pose proof (edges_write_log (fe_requeueEdges f) (fe_oksEdges f)
    (edges_take (fe_takeEdges f) (su_edges r3)).1.1
    (edges_take (fe_takeEdges f) (su_edges r3)).1.2 (su_edges r5) st.2) as Y3.
  rewrite W2 in Y3. cbn [fst snd] in Y3. rewrite Y3 in F2.
  pose proof (rollups_write_log (fe_requeue f) (fe_oks f)
    (rollups_take (fe_take f) st.1.1).1 r2 st.1.2) as [_ Ed].
  rewrite W1 in Ed. cbn [fst snd] in Ed.
  destruct G1 as (_ & _ & E1), G2 as (_ & _ & E2). pose proof E2 as ((m2 & Z2 & _) & _).
  cbn [set_edges su_edges edges_take snd es_log] in Z2.
  assert (edgesInv log2x4 unicodeLower le (su_edges r3) st.2) as HE'.
  { rewrite Ed. eapply edgesInv_grow; [exact HE|exact E1|]. rewrite <- Ed. by eapply fits_prefix. }
  eapply edges_flush_inv; [exact HE'|exact E2|exact F2|exact Hle|exact W2].
Qed.

Lemma edgesInv_late (le le' : Z -> Prop) e t :
  (forall b, le b -> le' b) -> edgesInv log2x4 unicodeLower le e t ->
  edgesInv log2x4 unicodeLower le' e t.
Proof.
  intros Hl (HA & HV & HM). split_and!; [|done|].
  - eapply accounted_late, HA. intros k. apply Hl.
  - intros b Hb. destruct (HM b Hb) as [?|[?|?]]; auto.
Qed.

Lemma run_history cfg ops :
  (su_log (rollupRun cfg ops).1.1).*2 = mjoin (opSpans <$> ops).
Proof.
  unfold rollupRun. induction ops as [|op ops IH] using rev_ind; [done|].
  rewrite foldl_app, fmap_app, join_app, <- IH. simpl. rewrite app_nil_r.
  apply step_history.
Qed.

Lemma lateFor_app l l' b : lateFor l b -> lateFor (l ++ l') b.
Proof. intros (now & ? & ?). exists now. rewrite elem_of_app. auto. Qed.

Lemma lateFor_last l now b : b < Unix (now - spanRollupRequeueAge) -> lateFor (l ++ [now]) b.
Proof. intros Hb. exists now. split; [|done]. apply elem_of_app. right. by left. Qed.

Lemma run_rollups cfg ops :
  fitsInt64 (su_log (rollupRun cfg ops).1.1).*2 ->
  rollupsInv (lateFor (requeueTimes ops)) (rollupRun cfg ops).
Proof.
  unfold rollupRun. induction ops as [|op ops IH] using rev_ind; intros F1.
  { apply accounted_empty. }
  rewrite foldl_app in *. cbn [foldl] in *. set (st := foldl rollupStep _ ops) in *.
  destruct (step_history op st) as [L _].
  assert (rollupsInv (lateFor (requeueTimes (ops ++ [op]))) st) as HR.
  { unfold requeueTimes. rewrite omap_app.
    eapply accounted_late, IH; [intros k; apply lateFor_app|].
    rewrite L in F1. by destruct (fitsInt64_app _ _ F1). }
  destruct op as [b|f]; [by apply batch_rollups|]. apply flush_rollups; try done.
  intros Ho b Hb. unfold requeueTimes. rewrite omap_app. cbn [omap list_omap].
  rewrite bool_decide_eq_true_2 by done. by apply lateFor_last.
Qed.

Lemma run_edges cfg ops :
  fitsInt64 (es_log (edgesOf (rollupRun cfg ops))).*2 ->
  edgesInvOf (lateFor (requeueTimesEdges ops)) (rollupRun cfg ops).
Proof.
  unfold rollupRun. induction ops as [|op ops IH] using rev_ind; intros F2.
  { split_and!; [apply accounted_empty|constructor|]. intros b Hb. simpl in Hb. set_solver. }
  rewrite foldl_app in *. cbn [foldl] in *. set (st := foldl rollupStep _ ops) in *.
  destruct (step_history op st) as [_ (new & X)].
  assert (edgesInvOf (lateFor (requeueTimesEdges (ops ++ [op]))) st) as HE.
  { unfold requeueTimesEdges. rewrite omap_app.
    eapply edgesInv_late, IH; [intros b; apply lateFor_app|]. by eapply fits_prefix. }
  destruct op as [b|f]; [by apply batch_edges|]. apply flush_edges; try done.
  intros Ho b Hb. unfold requeueTimesEdges. rewrite omap_app. cbn [omap list_omap].
  rewrite bool_decide_eq_true_2 by done. by apply lateFor_last.
Qed.
End Rollups.

(** ** Properties *)

(** C3: the rollups count every span exactly once: after any sequence of batches
    and flushes, with any chunk of any write failing and batches arriving while a
    flush writes, every span was recorded under one key, and the spans of a key are
    split between its open slot, its stored row and what was given up; the slot and
    the row hold exactly the counts, weights, durations and histogram of their
    share, and spans are given up only when a failed flush found their bucket more
    than an hour old. *)
Theorem rollups_count_once log2x4 unicodeLower stringAttrs hostname cfg ops :
  fitsInt64 (mjoin (opSpans <$> ops)) ->
  let '(r, t, te) := rollupRun log2x4 unicodeLower stringAttrs hostname cfg ops in
  (su_log r).*2 = mjoin (opSpans <$> ops) /\
  forall k, exists inSlot inRow lost,
    under k (su_log r) ≡ₚ inSlot ++ inRow ++ lost /\
    su_slots r !! k = slotOf (exactStats log2x4) inSlot /\
    t !! spanRollupPK (rollupRow k zeroStats) =
      rollupRow k <$> slotOf (exactStats log2x4) inRow /\
    (lost <> [] -> lateFor (requeueTimes ops) (rk_bucket k)).
Proof.
  intros Hf. pose proof (run_history log2x4 unicodeLower stringAttrs hostname cfg ops) as Hh.
  pose proof (run_rollups log2x4 unicodeLower stringAttrs hostname cfg ops) as Hi.
  destruct (rollupRun _ _ _ _ cfg ops) as [[r t] te]. simpl in *.
  split; [done|]. rewrite Hh in Hi. destruct (Hi Hf) as (go & gs & gl & Hm & Ht & Hp & Hl).
  intros k. exists (go k), (gs k), (gl k). split_and!; auto.
Qed.

(** C4: the edges count every call exactly once, in the same sense, and every
    bucket a span arrived in keeps its marker: it is still open, its marker row is
    stored, or a failed flush found it more than an hour old. *)
Theorem edges_count_once log2x4 unicodeLower stringAttrs hostname cfg ops :
  let '(r, t, te) := rollupRun log2x4 unicodeLower stringAttrs hostname cfg ops in
  let e := su_edges r in
  fitsInt64 (es_log e).*2 ->
  (forall k, ek_target k <> ""%string -> exists inSlot inRow lost,
    under k (es_log e) ≡ₚ inSlot ++ inRow ++ lost /\
    es_slots e !! k = slotOf (exactEdge log2x4 unicodeLower) inSlot /\
    te !! spanEdgePK (edgeRow k zeroEdge) =
      edgeRow k <$> slotOf (exactEdge log2x4 unicodeLower) inRow /\
    (lost <> [] -> lateFor (requeueTimesEdges ops) (ek_bucket k))) /\
  (forall b, b ∈ es_seen e ->
    b ∈ es_buckets e \/ is_Some (te !! markerPK b) \/ lateFor (requeueTimesEdges ops) b).
Proof.
  pose proof (run_edges log2x4 unicodeLower stringAttrs hostname cfg ops) as Hi.
  destruct (rollupRun _ _ _ _ cfg ops) as [[r t] te]. intros e Hfe. simpl in *.
  destruct (Hi Hfe) as ((go & gs & gl & Hm & Ht & Hp & Hl) & _ & HM).
  split; [|done]. intros k Hk. exists (go k), (gs k), (gl k). split_and!; auto.
Qed.

(** ** The properties at a concrete run *)

(** A web span calls a database span's service; the first write fails, a second
    batch arrives meanwhile, and the next flush succeeds. *)
Definition demoStored (id parent service kind attrs : string) (dur : Z) : Span :=
  mkSpan 0 1 "t1" id parent "GET /" service "" kind "ok" 0 dur attrs "[]"
    (Some (1000 * second)) None false 4.

Definition demoSpans : list Span :=
  [demoStored "a" "" "web" "server" "{}" 250; demoStored "b" "a" "db" "server" "{}" 90].

Definition demoBatch : batch := mkBatch (fun _ => 0) (fun _ => 0) (fun _ => 0) demoSpans.

Definition demoOps : list rollupOp :=
  [OpBatch demoBatch;
   OpFlush (mkFlushEnv (1000 * second) (1001 * second) [false] [demoBatch]
              (1000 * second) (1001 * second) [false] []);
   OpFlush (mkFlushEnv (1002 * second) (1002 * second) [] [] (1002 * second) (1002 * second) [] [])].

Definition demoRun : SpanRollups * gmap rollupPK SpanRollup * gmap edgePK SpanEdge :=
  rollupRun exactLog2x4 id (fun _ => None) (fun _ => None)
    (mkSpanRollupConfig 0 0 0 0 true) demoOps.

Lemma rollups_count_once_witness :
  let k := mkSpanRollupKey 900 1 "web" "GET /" "server" true "ok" 0 in
  ro_Count <$> (demoRun.1.2 !! spanRollupPK (rollupRow k zeroStats)) = Some 2 /\
  (su_log demoRun.1.1).*2 = demoSpans ++ demoSpans.
Proof.
  split; [vm_compute; reflexivity|].
  assert (fitsInt64 (mjoin (opSpans <$> demoOps))) as Hf
    by (unfold fitsInt64; vm_compute; by split_and!).
  pose proof (rollups_count_once exactLog2x4 id (fun _ => None) (fun _ => None)
    (mkSpanRollupConfig 0 0 0 0 true) demoOps Hf) as H.
  unfold demoRun. destruct (rollupRun _ _ _ _ _ demoOps) as [[r t] te].
  destruct H as [H _]. cbn [fst snd]. rewrite H. vm_compute. reflexivity.
Defined.

Lemma edges_count_once_witness :
  let k := mkSpanEdgeKey 900 1 "web" "db" "service" in
  ed_Count <$> (demoRun.2 !! spanEdgePK (edgeRow k zeroEdge)) = Some 2 /\
  exists inSlot inRow lost,
    under k (es_log (su_edges demoRun.1.1)) ≡ₚ inSlot ++ inRow ++ lost.
Proof.
  split; [vm_compute; reflexivity|].
  pose proof (edges_count_once exactLog2x4 id (fun _ => None) (fun _ => None)
    (mkSpanRollupConfig 0 0 0 0 true) demoOps) as H.
  assert (fitsInt64 (es_log (su_edges demoRun.1.1)).*2) as Hf
    by (unfold fitsInt64; vm_compute; by split_and!).
  unfold demoRun in *. destruct (rollupRun _ _ _ _ _ demoOps) as [[r t] te].
  destruct (H Hf) as [H1 _].
  destruct (H1 (mkSpanEdgeKey 900 1 "web" "db" "service")) as (a & b & c & Hp & _); [discriminate|].
  by exists a, b, c.
Defined.
