(* ===== verification/Tiers.v ===== *)
(** * Bucket arithmetic of the rollup tiers ([internal/rollup/tiers.go])

    Times are nanoseconds since the Unix epoch, in UTC.  Go's [Truncate] counts
    from the year 1, a whole number of days before the epoch, so for the fixed
    steps it is truncation of the nanoseconds.  Weeks and months go through the
    proleptic Gregorian calendar of package [time]. *)
From S2P Require Import Prelude.

(** Step widths *)
Definition Step5m : Z := 300.

Definition StepHour : Z := 3600.

Definition StepDay : Z := 86400.

Definition StepWeek : Z := 604800.

Definition StepMonth : Z := 2592000.

(** [Tier] and [Ladder]; labels are left out. *)
Record Tier := mkTier { tier_Step : Z; tier_Source : Z }.

Definition Ladder : list Tier :=
  [mkTier StepHour Step5m; mkTier StepDay StepHour; mkTier StepWeek StepDay;
   mkTier StepMonth StepWeek].

(** ** Calendar dates (package [time]) *)

Definition dayNs : Z := 86400 * second.

Definition daysFromCivil (y m d : Z) : Z :=
  let y := if m <=? 2 then y - 1 else y in
  let era := y / 400 in
  let yoe := y - era * 400 in
  let doy := (153 * (if 2 <? m then m - 3 else m + 9) + 2) / 5 + d - 1 in
  let doe := yoe * 365 + yoe / 4 - yoe / 100 + doy in
  era * 146097 + doe - 719468.

Definition civilFromDays (days : Z) : Z * Z * Z :=
  let z := days + 719468 in
  let era := z / 146097 in
  let doe := z - era * 146097 in
  let yoe := (doe - doe / 1460 + doe / 36524 - doe / 146096) / 365 in
  let doy := doe - (365 * yoe + yoe / 4 - yoe / 100) in
  let mp := (5 * doy + 2) / 153 in
  let d := doy - (153 * mp + 2) / 5 + 1 in
  let m := if mp <? 10 then mp + 3 else mp - 9 in
  (yoe + era * 400 + (if m <=? 2 then 1 else 0), m, d).

(** [time.Date] at midnight, normalising month and day. *)
Definition Date (y m d : Z) : Z :=
  (daysFromCivil (y + (m - 1) / 12) ((m - 1) mod 12 + 1) 1 + d - 1) * dayNs.

(** [time.Time.AddDate] *)
Definition AddDate (t years months days : Z) : Z :=
  let '(y, m, d) := civilFromDays (t / dayNs) in
  Date (y + years) (m + months) (d + days) + t mod dayNs.

(** [time.Time.Weekday], Sunday is 0; the epoch was a Thursday. *)
Definition Weekday (t : Z) : Z := (t / dayNs + 4) mod 7.

(** [TruncateBucket] *)
Definition TruncateBucket (t step : Z) : Z :=
  if step =? StepMonth then
    let '(y, m, _) := civilFromDays (t / dayNs) in Date y m 1
  else if step =? StepWeek then
    let '(y, m, d) := civilFromDays (t / dayNs) in
    let day := Date y m d in
    AddDate day 0 0 (- ((Weekday day + 6) mod 7))
  else if step <=? 0 then t
  else t - t mod (step * second).

(** [NextBucket] *)
Definition NextBucket (start step : Z) : Z :=
  if step =? StepMonth then AddDate start 0 1 0
  else if step =? StepWeek then AddDate start 0 0 7
  else if step <=? 0 then start else start + step * second.

(** [PrevBucket] *)
Definition PrevBucket (start step : Z) : Z :=
  if step =? StepMonth then AddDate start 0 (-1) 0
  else if step =? StepWeek then AddDate start 0 0 (-7)
  else if step <=? 0 then start else start - step * second.

(** [sourceWindow] *)
Definition sourceWindow (tier : Tier) (bucket : Z) : Z * Z :=
  (TruncateBucket bucket (tier_Source tier),
   TruncateBucket (NextBucket bucket (tier_Step tier)) (tier_Source tier)).

(** [BucketClosed] *)
Definition BucketClosed (start step now : Z) : bool := NextBucket start step <=? now.

(** ** The fixed steps *)

(** The steps of the span tiers. *)
Definition fixedStep (step : Z) : Prop := step = Step5m \/ step = StepHour \/ step = StepDay.

Lemma NextBucket_fixed start step :
  fixedStep step -> NextBucket start step = start + step * second.
Proof. by intros [->|[->| ->]]. Qed.

Lemma TruncateBucket_fixed t step :
  fixedStep step -> TruncateBucket t step = t - t mod (step * second).
Proof. by intros [->|[->| ->]]. Qed.

Lemma fixedStep_pos step : fixedStep step -> 0 < step * second.
Proof. by intros [->|[->| ->]]. Qed.

(** A bucket holds the times that truncate to it. *)
Lemma TruncateBucket_spec t step :
  fixedStep step ->
  TruncateBucket t step <= t < NextBucket (TruncateBucket t step) step /\
  (step * second | TruncateBucket t step).
Proof.
  intros Hs. pose proof (fixedStep_pos step Hs) as Hp.
  rewrite NextBucket_fixed, TruncateBucket_fixed by done.
  pose proof (Z.mod_pos_bound t _ Hp). split; [lia|].
  exists (t / (step * second)). pose proof (Z.div_mod t (step * second) ltac:(lia)). lia.
Qed.

Lemma TruncateBucket_aligned t step :
  fixedStep step -> TruncateBucket t step = t <-> (step * second | t).
Proof.
  intros Hs. pose proof (fixedStep_pos step Hs) as Hp. rewrite TruncateBucket_fixed by done.
  rewrite <- Z.mod_divide by lia. pose proof (Z.mod_pos_bound t _ Hp). lia.
Qed.

(** Calendar buckets at known dates: 2024-02-29T12:00Z is a Thursday. *)
Example calendar_buckets :
  TruncateBucket (1709208000 * second) StepMonth = 1706745600 * second /\
  NextBucket (1706745600 * second) StepMonth = 1709251200 * second /\
  TruncateBucket (1709208000 * second) StepWeek = 1708905600 * second /\
  Date 2024 2 30 = Date 2024 3 1.
Proof. by vm_compute. Qed.
