(* ===== verification/SpanPlan.v ===== *)
(** * Which tier segments a read uses ([internal/spanrollup/plan.go],
    [complete.go])

    [Plan] covers a time range with whole days, hours and 5-minute buckets of the
    tiers; [Complete] checks that every bucket of a plan holds rows or is quiet.
    Database counts are functions that may fail ([None]). *)
From S2P Require Import Prelude Tiers.

(** [SpanRollupSegment] *)
Record SpanRollupSegment := mkSegment { sg_Step : Z; sg_From : Z; sg_To : Z }.

(** [SpanRollupCoverage] *)
Record SpanRollupCoverage := mkCoverage { cov_Oldest : gmap Z Z; cov_Through : gmap Z Z }.

(** The span [Ladder], [coarseFirst] and [sourceOf] *)
Definition spanLadder : list Tier := [mkTier StepHour Step5m; mkTier StepDay StepHour].

Definition coarseFirst : list Z := [StepDay; StepHour].

Definition sourceOf (step : Z) : Z :=
  from_option tier_Source 0 (head (filter (fun t => tier_Step t = step) spanLadder)).

(** [aligned] *)
Definition aligned (align step : Z) : bool :=
  (align =? 0) || ((step <=? align) && (align %t step =? 0)).

(** The run of whole buckets [coarseSegment] takes. *)
Fixpoint runEnd (fuel : nat) (step to through end_ : Z) : Z :=
  match fuel with
  | O => end_
  | S fuel =>
      let next := NextBucket end_ step in
      if (next <=? to) && (next <=? through) then runEnd fuel step to through next else end_
  end.

(** Enough turns for any run that starts at [cur]. *)
Definition bucketFuel (cur to : Z) : nat := Z.to_nat ((to - cur) / second + 1).

(** The body of [coarseSegment]'s loop. *)
Definition coarseAt (cur to align : Z) (cov : SpanRollupCoverage) (step : Z)
  : option SpanRollupSegment :=
  if negb (aligned align step) || negb (TruncateBucket cur step =? cur) then None
  else
    match cov_Oldest cov !! step, cov_Through cov !! sourceOf step with
    | Some oldest, Some through =>
        if negb (oldest <? cur) then None
        else
          let e := runEnd (bucketFuel cur to) step to through cur in
          if cur <? e then Some (mkSegment step cur e) else None
    | _, _ => None
    end.

Fixpoint firstSegment (cur to align : Z) (cov : SpanRollupCoverage) (steps : list Z)
  : option SpanRollupSegment :=
  match steps with
  | [] => None
  | step :: steps =>
      match coarseAt cur to align cov step with
      | Some seg => Some seg
      | None => firstSegment cur to align cov steps
      end
  end.

(** [coarseSegment] *)
Definition coarseSegment (cur to align : Z) (cov : SpanRollupCoverage)
  : option SpanRollupSegment := firstSegment cur to align cov coarseFirst.

(** A 5-minute bucket joins the last segment when it continues it; segments are
    kept last first. *)
Definition push5m (cur next : Z) (rsegs : list SpanRollupSegment) : list SpanRollupSegment :=
  match rsegs with
  | s :: rest =>
      if (sg_Step s =? Step5m) && (sg_To s =? cur) then mkSegment (sg_Step s) (sg_From s) next :: rest
      else mkSegment Step5m cur next :: rsegs
  | [] => [mkSegment Step5m cur next]
  end.

(** The loop of [Plan]; [None] is [nil, false]. *)
Fixpoint planLoop (fuel : nat) (cur to align : Z) (cov : SpanRollupCoverage)
  (rsegs : list SpanRollupSegment) : option (list SpanRollupSegment) :=
  match fuel with
  | O => Some (reverse rsegs)
  | S fuel =>
      if negb (cur <? to) then Some (reverse rsegs)
      else
        match coarseSegment cur to align cov with
        | Some seg => planLoop fuel (sg_To seg) to align cov (seg :: rsegs)
        | None =>
            match cov_Oldest cov !! Step5m with
            | None => None
            | Some oldest =>
                if cur <? oldest then None
                else
                  let next := NextBucket cur Step5m in
                  planLoop fuel next to align cov (push5m cur next rsegs)
            end
        end
  end.

(** [Plan] *)
Definition Plan (from to align : Z) (cov : SpanRollupCoverage)
  : option (list SpanRollupSegment) :=
  if negb (from <? to) || negb (aligned align Step5m) then None
  else
    let cur := TruncateBucket from Step5m in
    planLoop (bucketFuel cur to) cur to align cov [].

(** ** Completeness of a plan *)

(** [maxQuietBuckets] *)
Definition maxQuietBuckets : Z := 32.

Section Completeness.
Context (count : Z -> Z -> Z -> option Z).
Context (arrivals : option (Z -> Z -> option bool)).

(** [bucketsBefore] *)
Fixpoint bucketsLoop (fuel : nat) (step to open b n end_ : Z) : Z * Z :=
  match fuel with
  | O => (n, end_)
  | S fuel =>
      if (b <? to) && (b <? open)
      then bucketsLoop fuel step to open (NextBucket b step) (n + 1) (NextBucket b step)
      else (n, end_)
  end.

Definition bucketsBefore (seg : SpanRollupSegment) (open : Z) : Z * Z :=
  bucketsLoop (bucketFuel (sg_From seg) (sg_To seg)) (sg_Step seg) (sg_To seg) open
    (sg_From seg) 0 (sg_From seg).

(** [emptyBucketsQuiet] *)
Fixpoint quietLoop (fuel : nat) (arrived : Z -> Z -> option bool) (step to b : Z) : option bool :=
  match fuel with
  | O => Some true
  | S fuel =>
      if negb (b <? to) then Some true
      else
        let next := NextBucket b step in
        n ← count step b next;
        if 0 <? n then quietLoop fuel arrived step to next
        else
          a ← arrived b next;
          if (a : bool) then Some false else quietLoop fuel arrived step to next
  end.

Definition emptyBucketsQuiet (arrived : Z -> Z -> option bool) (seg : SpanRollupSegment)
  : option bool :=
  quietLoop (bucketFuel (sg_From seg) (sg_To seg)) arrived (sg_Step seg) (sg_To seg) (sg_From seg).

(** [segmentCovered] *)
Definition segmentCovered (seg : SpanRollupSegment) (open : Z) : option bool :=
  let '(want, end_) := bucketsBefore seg open in
  if want =? 0 then Some true
  else
    got ← count (sg_Step seg) (sg_From seg) end_;
    if want <=? got then Some true
    else
      match arrivals with
      | None => Some false
      | Some arrived =>
          if negb (sg_Step seg =? Step5m) || (maxQuietBuckets <? want - got) then Some false
          else emptyBucketsQuiet arrived (mkSegment (sg_Step seg) (sg_From seg) end_)
      end.

(** [Complete] *)
Fixpoint Complete (segs : list SpanRollupSegment) (open : Z) : option bool :=
  match segs with
  | [] => Some true
  | seg :: segs =>
      ok ← segmentCovered seg open;
      if (ok : bool) then Complete segs open else Some false
  end.

(** [windowComplete] *)
Definition windowComplete (step start end_ : Z) : option bool :=
  segmentCovered (mkSegment step start end_) end_.
End Completeness.

(** ** What a plan covers *)

(** The segments follow each other from [cur] to [e]. *)
Fixpoint tiles (cur : Z) (segs : list SpanRollupSegment) (e : Z) : Prop :=
  match segs with
  | [] => cur = e
  | s :: segs => sg_From s = cur /\ sg_From s < sg_To s /\ tiles (sg_To s) segs e
  end.

(** A segment is made of whole buckets that its tier holds. *)
Definition segmentHeld (to align : Z) (cov : SpanRollupCoverage) (s : SpanRollupSegment) : Prop :=
  aligned align (sg_Step s) = true /\
  (sg_Step s * second | sg_From s) /\ (sg_Step s * second | sg_To s) /\
  ((sg_Step s = Step5m /\ exists o, cov_Oldest cov !! Step5m = Some o /\ o <= sg_From s) \/
   (sg_Step s ∈ coarseFirst /\ sg_To s <= to /\
    exists o th, cov_Oldest cov !! sg_Step s = Some o /\ o < sg_From s /\
      cov_Through cov !! sourceOf (sg_Step s) = Some th /\ sg_To s <= th)).

Lemma tiles_app cur segs s e e' :
  tiles cur segs e -> sg_From s = e -> sg_From s < sg_To s -> sg_To s = e' ->
  tiles cur (segs ++ [s]) e'.
Proof.
  revert cur. induction segs as [|x segs IH]; intros cur; simpl.
  - intros. subst. by split_and!.
  - intros (? & ? & ?) ? ? ?. split_and!; auto.
Qed.

(** The last segment can be taken off. *)
Lemma tiles_snoc cur segs s e : tiles cur (segs ++ [s]) e ->
  tiles cur segs (sg_From s) /\ sg_From s < sg_To s /\ sg_To s = e.
Proof.
  revert cur. induction segs as [|x segs IH]; intros cur; simpl.
  - intros (? & ? & ?). by split_and!.
  - intros (? & ? & (? & ? & ?)%IH). by split_and!.
Qed.

Lemma runEnd_spec fuel step to through : forall e,
  fixedStep step -> (step * second | e) ->
  let r := runEnd fuel step to through e in
  e <= r /\ (step * second | r) /\ (e < r -> r <= to /\ r <= through).
Proof.
  induction fuel as [|fuel IH]; intros e Hs Hd; simpl; [split_and!; try done; lia|].
  destruct ((NextBucket e step <=? to) && (NextBucket e step <=? through)) eqn:E; to_prop.
  2:{ split_and!; try done; lia. }
  rewrite NextBucket_fixed in * by done. pose proof (fixedStep_pos step Hs).
  destruct (IH (e + step * second) Hs) as (R1 & R2 & R3).
  { apply Z.divide_add_r; [done|apply Z.divide_refl]. }
  split_and!; [lia|done|]. intros _.
  destruct (Z.eq_dec (runEnd fuel step to through (e + step * second)) (e + step * second))
    as [->|]; [lia|apply R3; lia].
Qed.

Lemma coarseSegment_spec cur to align cov seg :
  coarseSegment cur to align cov = Some seg ->
  sg_From seg = cur /\ cur < sg_To seg /\ segmentHeld to align cov seg /\
  (Step5m * second | sg_To seg) /\ sg_To seg <= to.
Proof.
  assert (forall step, step ∈ coarseFirst -> coarseAt cur to align cov step = Some seg ->
    sg_From seg = cur /\ cur < sg_To seg /\ segmentHeld to align cov seg /\
    (Step5m * second | sg_To seg) /\ sg_To seg <= to) as Hone.
  { intros step Hin Hc. unfold coarseAt in Hc.
    assert (fixedStep step /\ (Step5m | step)) as [Hs H5].
    { apply elem_of_cons in Hin as [->|[->|[]%not_elem_of_nil]%elem_of_cons];
        (split; [unfold fixedStep; auto|]); [by exists 288|by exists 12]. }
    destruct (aligned align step) eqn:Ea, (TruncateBucket cur step =? cur) eqn:Et;
      simpl in Hc; try done.
    destruct (cov_Oldest cov !! step) as [o|] eqn:Eo; [|done].
    destruct (cov_Through cov !! sourceOf step) as [th|] eqn:Eth; [|done].
    destruct (o <? cur) eqn:Elt; simpl in Hc; [|done]. to_prop.
    apply TruncateBucket_aligned in Et; [|done].
    destruct (runEnd_spec (bucketFuel cur to) step to th cur Hs Et) as (R1 & R2 & R3).
    destruct (cur <? runEnd _ step to th cur) eqn:Ec; [|done]. injection Hc as <-. to_prop.
    destruct (R3 Ec) as [R4 R6]. simpl. split_and!; try done.
    - unfold segmentHeld. simpl. split_and!; try done. right. split_and!; try done. by exists o, th.
    - eapply Z.divide_trans; [|exact R2]. by apply Z.mul_divide_mono_r. }
  unfold coarseSegment, coarseFirst, firstSegment.
  destruct (coarseAt cur to align cov StepDay) eqn:E1;
    [intros [= <-]; apply (Hone StepDay); [by left|done]|].
  destruct (coarseAt cur to align cov StepHour) eqn:E2;
    [intros [= <-]; apply (Hone StepHour); [by right; left|done]|done].
Qed.

(** The loop keeps the plan contiguous and every segment held. *)
Definition planInv (start cur to align : Z) (cov : SpanRollupCoverage)
  (rsegs : list SpanRollupSegment) : Prop :=
  tiles start (reverse rsegs) cur /\ Forall (segmentHeld to align cov) rsegs /\
  (Step5m * second | cur) /\ cur < to + Step5m * second.

Lemma push5m_inv start cur to align cov rsegs o :
  planInv start cur to align cov rsegs -> cur < to -> aligned align Step5m = true ->
  cov_Oldest cov !! Step5m = Some o -> o <= cur ->
  planInv start (NextBucket cur Step5m) to align cov (push5m cur (NextBucket cur Step5m) rsegs).
Proof.
  intros (Ht & Hh & Hd & Hc) Hlt Ha Ho Hle.
  rewrite NextBucket_fixed by (unfold fixedStep; auto).
  pose proof (fixedStep_pos Step5m ltac:(unfold fixedStep; auto)) as Hp.
  assert ((Step5m * second | cur + Step5m * second)) as Hd' by (apply Z.divide_add_r; [done|apply Z.divide_refl]).
  assert (segmentHeld to align cov (mkSegment Step5m cur (cur + Step5m * second))) as Hnew.
  { unfold segmentHeld. simpl. split_and!; try done. left. split; [done|]. by exists o. }
  assert (planInv start (cur + Step5m * second) to align cov
    (mkSegment Step5m cur (cur + Step5m * second) :: rsegs)) as Hpush.
  { split_and!; [|by constructor|done|lia]. rewrite reverse_cons.
    eapply tiles_app; [exact Ht|done|simpl; lia|done]. }
  unfold push5m. destruct rsegs as [|s rest]; [done|].
  destruct ((sg_Step s =? Step5m) && (sg_To s =? cur)) eqn:E; [|done]. to_prop.
  rewrite reverse_cons in Ht. apply tiles_snoc in Ht as (Ht & Hs & _).
  apply Forall_cons in Hh as [(H1 & H2 & H3 & H4) Hh].
  split_and!; [|constructor; [|done]|done|lia].
  - rewrite reverse_cons. eapply tiles_app; [exact Ht|done|simpl; lia|done].
  - unfold segmentHeld. cbn [sg_Step sg_From sg_To]. rewrite H in *.
    split_and!; [done|done|done|]. left. split; [done|].
    destruct H4 as [(_ & H4)|(H4 & _)]; [done|]. exfalso.
    by apply elem_of_cons in H4 as [?|[?|[]%not_elem_of_nil]%elem_of_cons].
Qed.

(** Each turn takes at least one second off what is left. *)
Lemma bucketFuel_step cur cur' to fuel :
  (bucketFuel cur to <= S fuel)%nat -> cur < to -> cur + second <= cur' ->
  (bucketFuel cur' to <= fuel)%nat.
Proof.
  unfold bucketFuel. intros Hf Hlt Hc.
  assert ((to - cur') / second + 1 <= (to - cur) / second).
  { rewrite <- (Z.div_add _ 1 second) by done. apply Z.div_le_mono; unfold second in *; lia. }
  assert (0 <= (to - cur) / second) by (apply Z.div_pos; unfold second; lia). lia.
Qed.

Lemma bucketFuel_pos cur to fuel :
  (bucketFuel cur to <= fuel)%nat -> cur < to -> (0 < fuel)%nat.
Proof.
  unfold bucketFuel. intros Hf Hlt.
  assert (0 <= (to - cur) / second) by (apply Z.div_pos; unfold second; lia). lia.
Qed.

Lemma planLoop_spec fuel to align cov start : forall cur rsegs,
  (bucketFuel cur to <= fuel)%nat -> aligned align Step5m = true ->
  planInv start cur to align cov rsegs ->
  match planLoop fuel cur to align cov rsegs with
  | Some segs => Forall (segmentHeld to align cov) segs /\
      exists e, tiles start segs e /\ to <= e /\ e < to + Step5m * second
  | None => exists b, cur <= b < to /\ forall o, cov_Oldest cov !! Step5m = Some o -> b < o
  end.
Proof.
  assert (0 < second) as Hsec by done.
  induction fuel as [|fuel IH]; intros cur rsegs Hf Ha Hi; simpl.
  - destruct Hi as (Ht & Hh & Hd & Hc). split; [by apply Forall_reverse|]. exists cur.
    split_and!; try done. destruct (Z.le_gt_cases to cur); [done|].
    pose proof (bucketFuel_pos cur to 0 Hf ltac:(lia)). lia.
  - destruct (cur <? to) eqn:E; simpl; to_prop.
    2:{ destruct Hi as (Ht & Hh & Hd & Hc). split; [by apply Forall_reverse|]. by exists cur. }
    destruct (coarseSegment cur to align cov) as [seg|] eqn:Es.
    + apply coarseSegment_spec in Es as (Hf1 & Hf2 & Hh & Hd & Hto).
      assert (planInv start (sg_To seg) to align cov (seg :: rsegs)) as Hi'.
      { destruct Hi as (Ht & Hhs & Hdc & _).
        pose proof (fixedStep_pos Step5m ltac:(unfold fixedStep; auto)).
        split_and!; [|by constructor|done|lia]. rewrite reverse_cons.
        eapply tiles_app; [exact Ht|done|lia|done]. }
      assert (cur + second <= sg_To seg) as Hadv.
      { destruct Hi as (_ & _ & Hdc & _). destruct Hdc as [a Ea], Hd as [b Eb].
        unfold Step5m, second in *. nia. }
      pose proof (IH (sg_To seg) (seg :: rsegs) (bucketFuel_step _ _ _ _ Hf E Hadv) Ha Hi') as H'.
      destruct (planLoop _ _ _ _ _ _); [done|]. destruct H' as (b & Hb & Ho). exists b.
      split; [lia|done].
    + destruct (cov_Oldest cov !! Step5m) as [o|] eqn:Eo; [|by exists cur; split; [lia|]].
      destruct (cur <? o) eqn:Ec; to_prop; [exists cur; split; [lia|by intros ? [= <-]]|].
      assert (cur + second <= NextBucket cur Step5m) as Hadv
        by (rewrite NextBucket_fixed by (unfold fixedStep; auto); unfold Step5m, second; lia).
      pose proof (IH _ _ (bucketFuel_step _ _ _ _ Hf E Hadv) Ha
        (push5m_inv _ _ _ _ _ _ o Hi E Ha Eo Ec)) as H'.
      destruct (planLoop _ _ _ _ _ _); [done|]. destruct H' as (b & Hb & Ho). exists b.
      split; [lia|done].
Qed.

(** ** Properties *)

Lemma Plan_spec from to align cov :
  match Plan from to align cov with
  | Some segs =>
      Forall (segmentHeld to align cov) segs /\
      exists e, tiles (TruncateBucket from Step5m) segs e /\ to <= e < to + Step5m * second
  | None => to <= from \/ aligned align Step5m = false \/
      exists b, TruncateBucket from Step5m <= b < to /\
        forall o, cov_Oldest cov !! Step5m = Some o -> b < o
  end.
Proof.
  unfold Plan. destruct (from <? to) eqn:E, (aligned align Step5m) eqn:Ea; simpl; to_prop; auto.
  destruct (TruncateBucket_spec from Step5m ltac:(unfold fixedStep; auto)) as [Hb Hd].
  assert (planInv (TruncateBucket from Step5m) (TruncateBucket from Step5m) to align cov []) as Hi.
  { pose proof (fixedStep_pos Step5m ltac:(unfold fixedStep; auto)).
    split_and!; [done|constructor|done|lia]. }
  pose proof (planLoop_spec _ to align cov _ _ _ (Nat.le_refl _) Ea Hi) as Hp.
  destruct (planLoop _ _ _ _ _ _) as [segs|]; [|by right; right].
  destruct Hp as [Hh (e & Ht & He & He')]. split; [done|]. by exists e.
Qed.

(** C35: a plan covers the range exactly: its segments follow each other without gap
    or overlap from the 5-minute bucket that holds [from] to the end of the one that
    holds the last instant before [to]; every segment is made of whole buckets of its
    tier that do not straddle the caller's chart buckets, coarse tiers only past their
    oldest bucket and up to what was compacted.  There is no plan only when the range
    is empty, the chart width is not a multiple of 5 minutes, or some bucket of the
    range is older than the 5-minute tier: the search itself always ends. *)
Theorem Plan_covers from to align cov :
  match Plan from to align cov with
  | Some segs =>
      Forall (segmentHeld to align cov) segs /\
      exists e, tiles (TruncateBucket from Step5m) segs e /\ to <= e < to + Step5m * second
  | None => to <= from \/ aligned align Step5m = false \/
      exists b, TruncateBucket from Step5m <= b < to /\
        forall o, cov_Oldest cov !! Step5m = Some o -> b < o
  end.
Proof. apply Plan_spec. Qed.

(** Ten minutes, an hour and ten minutes around a compacted hour. *)
Example Plan_example :
  Plan (3000 * second) (7800 * second) 0
    (mkCoverage {[Step5m := 0; StepHour := 0]} {[Step5m := 7200 * second]}) =
  Some [mkSegment Step5m (3000 * second) (3600 * second);
        mkSegment StepHour (3600 * second) (7200 * second);
        mkSegment Step5m (7200 * second) (7800 * second)].
Proof. vm_compute. reflexivity. Qed.
