(* ===== verification/SpanMerge.v ===== *)
(** * Building a coarse bucket ([internal/spanrollup/merge.go], the bucket builds of
    [compactor.go], and the window read of [repo_span_rollups.go])

    [mergeTier] folds source rows into one row per key; a coarse bucket is the
    merge of every source row of its window, written whole. *)
From S2P Require Import Prelude Model Varint SpanHist TierStore DurationStats SlotFlush.
From S2P Require Import Tiers SpanPlan.

Section MergeTier.
Context {R K : Type} `{Countable K}.
Context (key : R -> K) (first : R -> R) (add : R -> R -> R).
Context (hist : R -> list Z) (setHist : list Z -> R -> R).

(** The accumulators by key, and the keys in order of appearance. *)
Abbreviation mergeState := (gmap K (R * Hist) * list K)%type.

(** One turn of [mergeTier]'s loop. *)
Definition mergeStep (st : mergeState) (r : R) : mergeState :=
  let '(byKey, order) := st in
  let k := key r in
  let '((row, h), order) :=
    match byKey !! k with
    | Some a => (a, order)
    | None => ((first r, emptyHist), order ++ [k])
    end in
  let row := add row r in
  let h := match Decode (hist r) with Some x => Hist_Merge h x | None => h end in
  (<[k := (row, h)]> byKey, order).

(** [mergeTier] *)
Definition mergeTier (rows : list R) : list R :=
  let '(byKey, order) := foldl mergeStep (∅, []) rows in
  omap (fun k => (fun a : R * Hist => setHist (Hist_Encode a.2) a.1) <$> byKey !! k) order.
End MergeTier.

(** [rowKey] and [edgeKey] *)
Abbreviation rollupKey := (Z * string * string * string * bool * string * Z)%type.

Abbreviation edgeKey := (Z * string * string * string)%type.

Definition rollupKeyOf (r : SpanRollup) : rollupKey :=
  (ro_ProjectID r, ro_Service r, ro_Name r, ro_Kind r, ro_IsRoot r, ro_Status r, ro_HTTPStatus r).

Definition edgeKeyOf (e : SpanEdge) : edgeKey :=
  (ed_ProjectID e, ed_Source e, ed_Target e, ed_TargetType e).

(** The closures of [Merge]. *)
Definition rollupFirst (step bucket : Z) (r : SpanRollup) : SpanRollup :=
  mkSpanRollup step bucket (ro_ProjectID r) (ro_Service r) (ro_Name r) (ro_Kind r) (ro_IsRoot r)
    (ro_Status r) (ro_HTTPStatus r) 0 0 0 0 (ro_MinUs r) (ro_MaxUs r) (ro_Hist r).

Definition rollupAdd (a r : SpanRollup) : SpanRollup :=
  mkSpanRollup (ro_StepSeconds a) (ro_Bucket a) (ro_ProjectID a) (ro_Service a) (ro_Name a)
    (ro_Kind a) (ro_IsRoot a) (ro_Status a) (ro_HTTPStatus a)
    (wrap64 (ro_Count a + ro_Count r)) (wrap64 (ro_WeightedCount a + ro_WeightedCount r))
    (wrap64 (ro_WeightedSpans a + ro_WeightedSpans r))
    (wrap64 (ro_SumDurationUs a + ro_SumDurationUs r))
    (Z.min (ro_MinUs a) (ro_MinUs r)) (Z.max (ro_MaxUs a) (ro_MaxUs r)) (ro_Hist a).

Definition setRollupHist (h : list Z) (r : SpanRollup) : SpanRollup :=
  mkSpanRollup (ro_StepSeconds r) (ro_Bucket r) (ro_ProjectID r) (ro_Service r) (ro_Name r)
    (ro_Kind r) (ro_IsRoot r) (ro_Status r) (ro_HTTPStatus r) (ro_Count r) (ro_WeightedCount r)
    (ro_WeightedSpans r) (ro_SumDurationUs r) (ro_MinUs r) (ro_MaxUs r) h.

(** [Merge] *)
Definition Merge (rows : list SpanRollup) (step bucket : Z) : list SpanRollup :=
  mergeTier rollupKeyOf (rollupFirst step bucket) rollupAdd ro_Hist setRollupHist rows.

(** The closures of [MergeEdges]. *)
Definition edgeFirst (step bucket : Z) (e : SpanEdge) : SpanEdge :=
  mkSpanEdge step bucket (ed_ProjectID e) (ed_Source e) (ed_Target e) (ed_TargetType e)
    0 0 0 0 0 (ed_MinUs e) (ed_MaxUs e) (ed_Hist e).

Definition edgeAdd (a e : SpanEdge) : SpanEdge :=
  mkSpanEdge (ed_StepSeconds a) (ed_Bucket a) (ed_ProjectID a) (ed_Source a) (ed_Target a)
    (ed_TargetType a) (wrap64 (ed_Count a + ed_Count e)) (wrap64 (ed_ErrorCount a + ed_ErrorCount e))
    (wrap64 (ed_WeightedCount a + ed_WeightedCount e))
    (wrap64 (ed_WeightedSpans a + ed_WeightedSpans e))
    (wrap64 (ed_SumDurationUs a + ed_SumDurationUs e))
    (Z.min (ed_MinUs a) (ed_MinUs e)) (Z.max (ed_MaxUs a) (ed_MaxUs e)) (ed_Hist a).

Definition setEdgeHist (h : list Z) (e : SpanEdge) : SpanEdge :=
  mkSpanEdge (ed_StepSeconds e) (ed_Bucket e) (ed_ProjectID e) (ed_Source e) (ed_Target e)
    (ed_TargetType e) (ed_Count e) (ed_ErrorCount e) (ed_WeightedCount e) (ed_WeightedSpans e)
    (ed_SumDurationUs e) (ed_MinUs e) (ed_MaxUs e) h.

(** [MergeEdges] *)
Definition MergeEdges (rows : list SpanEdge) (step bucket : Z) : list SpanEdge :=
  mergeTier edgeKeyOf (edgeFirst step bucket) edgeAdd ed_Hist setEdgeHist rows.

(** ** The merge, key by key *)

Section MergeLemmas.
Context {R K : Type} `{Countable K}.
Context (key : R -> K) (first : R -> R) (add : R -> R -> R).
Context (hist : R -> list Z) (setHist : list Z -> R -> R).

Definition foldHist (h : Hist) (r : R) : Hist :=
  match Decode (hist r) with Some x => Hist_Merge h x | None => h end.

(** What the rows of one key fold into. *)
Definition accOf (k : K) (rows : list R) : option (R * Hist) :=
  match filter (fun r => key r = k) rows with
  | [] => None
  | r :: rs => Some (foldl add (first r) (r :: rs), foldl foldHist emptyHist (r :: rs))
  end.

Lemma accOf_snoc k rows r :
  accOf k (rows ++ [r]) =
  if decide (key r = k) then
    let '(row, h) := default (first r, emptyHist) (accOf k rows) in
    Some (add row r, foldHist h r)
  else accOf k rows.
Proof.
  unfold accOf. rewrite filter_app. simpl. rewrite filter_cons, filter_nil. case_decide.
  - destruct (filter _ rows) as [|r0 rs]; [done|]. simpl. by rewrite !foldl_app.
  - by rewrite app_nil_r.
Qed.

Lemma mergeFold_spec rows byKey order :
  foldl (mergeStep key first add hist) (∅, []) rows = (byKey, order) ->
  (forall k, byKey !! k = accOf k rows) /\ NoDup order /\
  (forall k, k ∈ order <-> is_Some (accOf k rows)).
Proof.
  revert byKey order. induction rows as [|r rows IH] using rev_ind; intros byKey order.
  { intros [= <- <-]. split_and!; [done|constructor|]. intros k. rewrite elem_of_nil.
    split; [done|]. by intros [? ?]. }
  rewrite foldl_app. destruct (foldl _ (∅, []) rows) as [bk od] eqn:E.
  destruct (IH bk od eq_refl) as (Hb & Hn & Ho). simpl.
  assert (forall (x : R * Hist) k, byKey = <[key r := (add x.1 r, foldHist x.2 r)]> bk ->
    x = default (first r, emptyHist) (accOf (key r) rows) ->
    byKey !! k = accOf k (rows ++ [r])) as Hlook.
  { intros x k -> Hx. rewrite accOf_snoc, lookup_insert. case_decide; [|apply Hb].
    subst k. rewrite <- Hx. by destruct x. }
  destruct (bk !! key r) as [[row h]|] eqn:Ek; intros [= <- <-]; rewrite Hb in Ek.
  - split_and!; [intros k; apply (Hlook (row, h)); [done|by rewrite Ek]|done|].
    intros k. rewrite Ho, accOf_snoc. case_decide; [|done]. subst k. rewrite Ek. simpl.
    split; [intros _; eauto|eauto].
  - split_and!.
    + intros k. apply (Hlook (first r, emptyHist)); [done|by rewrite Ek].
    + apply NoDup_app. split_and!; [done| |apply NoDup_singleton].
      intros k Hk ->%list_elem_of_singleton. rewrite Ho, Ek in Hk. by destruct Hk.
    + intros k. rewrite elem_of_app, list_elem_of_singleton, Ho, accOf_snoc.
      case_decide as Hd; [|naive_solver]. subst k. rewrite Ek. simpl. naive_solver.
Qed.

Lemma mergeTier_in rows x :
  x ∈ mergeTier key first add hist setHist rows <->
  exists k a, accOf k rows = Some a /\ x = setHist (Hist_Encode a.2) a.1.
Proof.
  unfold mergeTier. destruct (foldl _ _ rows) as [bk od] eqn:E.
  destruct (mergeFold_spec rows bk od E) as (Hb & Hn & Ho). rewrite list_elem_of_omap. split.
  - intros (k & Hk & Hx). rewrite Hb in Hx. destruct (accOf k rows) as [a|] eqn:Ea; [|done].
    injection Hx as <-. eauto.
  - intros (k & a & Ha & ->). exists k. rewrite Hb, Ha. split; [|done].
    apply Ho. rewrite Ha. eauto.
Qed.

Lemma mergeTier_keys rows :
  (forall k a, accOf k rows = Some a -> key (setHist (Hist_Encode a.2) a.1) = k) ->
  NoDup (key <$> mergeTier key first add hist setHist rows).
Proof.
  intros Hk. unfold mergeTier. destruct (foldl _ _ rows) as [bk od] eqn:E.
  destruct (mergeFold_spec rows bk od E) as (Hb & Hn & Ho).
  assert (Forall (fun k => is_Some (accOf k rows)) od) as Hod
    by (apply Forall_forall; intros; by apply Ho).
  clear E Ho. induction od as [|k od IH]; [constructor|].
  apply NoDup_cons in Hn as [Hnk Hn]. apply Forall_cons in Hod as [[a Ha] Hod].
  csimpl. rewrite Hb, Ha. csimpl. apply NoDup_cons. split; [|by apply IH].
  rewrite (Hk k a Ha). intros (x & Ex & Hx)%list_elem_of_fmap.
  apply list_elem_of_omap in Hx as (k' & Hin & Hx). rewrite Hb in Hx.
  destruct (accOf k' rows) as [a'|] eqn:Ea'; [|done]. injection Hx as <-.
  rewrite (Hk k' a' Ea') in Ex. congruence.
Qed.
End MergeLemmas.

(** ** Rows that stand for spans *)

(** The row of a tier for a key and the statistics of its spans. *)
Definition rowAt (step bucket : Z) (k : rollupKey) (d : durationStats) : SpanRollup :=
  let '(p, s, n, kd, rt, st, http) := k in
  mkSpanRollup step bucket p s n kd rt st http (ds_count d) (w_count (ds_weights d))
    (w_spans (ds_weights d)) (ds_sum d) (ds_min d) (ds_max d) (Hist_Encode (ds_hist d)).

Section MergeRows.
Context (log2x4 : Z -> Z).
Abbreviation exact := (exactStats log2x4).

(** Source rows: bucket, key and the spans each stands for. *)
Abbreviation item := (Z * rollupKey * list Span)%type.

Definition itemRow (src : Z) (i : item) : SpanRollup := rowAt src i.1.1 i.1.2 (exact i.2).

Definition spansAt (k : rollupKey) (items : list item) : list Span :=
  mjoin (snd <$> filter (fun i => i.1.2 = k) items).

Lemma rollupKeyOf_rowAt step b k d : rollupKeyOf (rowAt step b k d) = k.
Proof. by destruct k as [[[[[[p s] n] kd] rt] st] http]. Qed.

Lemma rollupAdd_rowAt step b src b' k l l' h :
  l <> [] -> l' <> [] -> fitsInt64 (l ++ l') ->
  rollupAdd (setRollupHist h (rowAt step b k (exact l))) (rowAt src b' k (exact l')) =
  setRollupHist h (rowAt step b k (exact (l ++ l'))).
Proof.
  intros H1 H2 Hf. destruct k as [[[[[[p s] n] kd] rt] st] http].
  pose proof (exactStats_merge log2x4 l l' H1 H2 Hf) as E.
  unfold rollupAdd, setRollupHist, rowAt. cbn -[exactStats].
  pose proof (f_equal ds_count E) as E1. pose proof (f_equal ds_sum E) as E2.
  pose proof (f_equal ds_weights E) as E3. pose proof (f_equal ds_min E) as E4.
  pose proof (f_equal ds_max E) as E5. rewrite <- E1, <- E2, <- E3, <- E4, <- E5. done.
Qed.

Lemma rollupFirst_rowAt step b src b' k l :
  l <> [] -> fitsInt64 l ->
  rollupAdd (rollupFirst step b (rowAt src b' k (exact l))) (rowAt src b' k (exact l)) =
  setRollupHist (Hist_Encode (ds_hist (exact l))) (rowAt step b k (exact l)).
Proof.
  intros Hne (Hn & Hw & Hs). destruct k as [[[[[[p s] n] kd] rt] st] http].
  pose proof (sumBy_weightOf_nonneg l). pose proof (sumBy_abs_bound l).
  pose proof (sumBy_weighted_bound l).
  unfold rollupAdd, rollupFirst, setRollupHist, rowAt. simpl.
  rewrite !wrap64_id, Z.min_id, Z.max_id by (unfold in_int64; lia). done.
Qed.

Lemma foldHist_row src b k l l' :
  fitsInt64 (l ++ l') ->
  foldHist ro_Hist (ds_hist (exact l)) (rowAt src b k (exact l')) = ds_hist (exact (l ++ l')).
Proof.
  intros Hf. pose proof (fitsInt64_app _ _ Hf) as [F1 F2].
  destruct k as [[[[[[p s] n] kd] rt] st] http]. unfold foldHist. cbn [rowAt ro_Hist].
  assert (forall x, wfHist (ds_hist (exact x))) as Hw
    by (intros; apply observeAll_wf; auto with spanbarn).
  rewrite Decode_Encode_lem by auto using exactStats_int64. simpl.
  rewrite Merge_observeAll_lem by auto using observeAll_wf with spanbarn.
  unfold durationsOf. rewrite fmap_app. unfold observeAll. by rewrite foldl_app.
Qed.

(** The rows of one key fold into the row of all their spans. *)
Lemma fold_items src step b k (items : list item) : forall l h,
  l <> [] -> Forall (fun i => i.1.2 = k /\ i.2 <> []) items ->
  fitsInt64 (l ++ mjoin (snd <$> items)) ->
  foldl rollupAdd (setRollupHist h (rowAt step b k (exact l))) (itemRow src <$> items) =
    setRollupHist h (rowAt step b k (exact (l ++ mjoin (snd <$> items)))) /\
  foldl (foldHist ro_Hist) (ds_hist (exact l)) (itemRow src <$> items) =
    ds_hist (exact (l ++ mjoin (snd <$> items))).
Proof.
  induction items as [|[[b' k'] l'] items IH]; intros l h Hne Hi Hf.
  { change (mjoin (snd <$> ([] : list item))) with (@nil Span). by rewrite app_nil_r. }
  rewrite fmap_cons, fmap_cons in *.
  change (mjoin ((b', k', l').2 :: (snd <$> items))) with (l' ++ mjoin (snd <$> items)) in *.
  cbn [foldl].
  apply Forall_cons in Hi as [[E Hl'] Hi]. simpl in E, Hl'. subst k'.
  rewrite app_assoc in *. pose proof (fitsInt64_app _ _ Hf) as [F1 _].
  assert (l ++ l' <> []) as Hne' by (intros [? _]%app_nil; done).
  destruct (IH (l ++ l') h Hne' Hi Hf) as [I1 I2].
  change (itemRow src (b', k, l')) with (rowAt src b' k (exact l')).
  rewrite rollupAdd_rowAt by done. rewrite foldHist_row by done. by rewrite I1, I2.
Qed.

Lemma filter_itemRow src k (items : list item) :
  filter (fun r => rollupKeyOf r = k) (itemRow src <$> items) =
  itemRow src <$> filter (fun i : item => i.1.2 = k) items.
Proof.
  induction items as [|i items IH]; [done|]. csimpl. rewrite !filter_cons, IH.
  assert (rollupKeyOf (itemRow src i) = i.1.2) as -> by apply rollupKeyOf_rowAt. by case_decide.
Qed.

Lemma accOf_items src step b k (items : list item) :
  Forall (fun i => i.2 <> []) items -> fitsInt64 (spansAt k items) ->
  accOf rollupKeyOf (rollupFirst step b) rollupAdd ro_Hist k (itemRow src <$> items) =
  match filter (fun i : item => i.1.2 = k) items with
  | [] => None
  | i :: _ => Some (setRollupHist (Hist_Encode (ds_hist (exact i.2)))
                      (rowAt step b k (exact (spansAt k items))),
                    ds_hist (exact (spansAt k items)))
  end.
Proof.
  intros Hne Hf. unfold accOf, spansAt in *. rewrite filter_itemRow.
  assert (Forall (fun i : item => i.1.2 = k /\ i.2 <> []) (filter (fun i : item => i.1.2 = k) items))
    as Hall.
  { apply Forall_forall. intros i [E Hi]%list_elem_of_filter. rewrite Forall_forall in Hne. auto. }
  destruct (filter _ items) as [|[[b' k'] l] rest]; [done|].
  apply Forall_cons in Hall as [[E Hl] Hall]. simpl in E, Hl. subst k'.
  rewrite !fmap_cons in *. cbn [foldl].
  change (itemRow src (b', k, l)) with (rowAt src b' k (exact l)).
  change (mjoin ((b', k, l).2 :: (snd <$> rest))) with (l ++ mjoin (snd <$> rest)) in *.
  pose proof (fitsInt64_app _ _ Hf) as [F1 _]. rewrite rollupFirst_rowAt by done.
  pose proof (foldHist_row src b' k [] l F1) as E0.
  change (ds_hist (exact [])) with emptyHist in E0. rewrite app_nil_l in E0. rewrite E0.
  destruct (fold_items src step b k rest l (Hist_Encode (ds_hist (exact l))) Hl Hall Hf) as [I1 I2].
  by rewrite I1, I2.
Qed.

Lemma spansAt_nil k (items : list item) :
  Forall (fun i => i.2 <> []) items ->
  spansAt k items <> [] <-> filter (fun i : item => i.1.2 = k) items <> [].
Proof.
  intros Hne. unfold spansAt. destruct (filter _ items) as [|i rest] eqn:E; [done|].
  split; [done|]. intros _ Hnil. rewrite fmap_cons in Hnil.
  assert (i ∈ items) as Hi.
  { eapply list_elem_of_filter. rewrite E. by left. }
  rewrite Forall_forall in Hne. apply (Hne i Hi).
  by apply app_nil in Hnil as [? _].
Qed.

(** ** Properties *)

(** Merging source rows into a coarse bucket is exact: when each source row holds
    the statistics of its spans, the merge has one row per key that occurs, no two for
    the same key, and the row of a key holds the statistics (counts, sample weights,
    duration sum, extremes and histogram) of all the spans of that key, as if they had
    been folded into the coarse bucket one by one; only the totals of a key must fit
    [int64]. *)
Theorem Merge_exact_rows src step b (items : list item) :
  Forall (fun i => i.2 <> []) items -> (forall k, fitsInt64 (spansAt k items)) ->
  NoDup (rollupKeyOf <$> Merge (itemRow src <$> items) step b) /\
  forall r, r ∈ Merge (itemRow src <$> items) step b <->
    exists k, spansAt k items <> [] /\ r = rowAt step b k (exact (spansAt k items)).
Proof.
  intros Hne Hf. unfold Merge.
  assert (forall h k d, setRollupHist (Hist_Encode (ds_hist d)) (setRollupHist h (rowAt step b k d))
    = rowAt step b k d) as Hset by by intros h [[[[[[p s] n] kd] rt] st] http] d.
  assert (forall k a, accOf rollupKeyOf (rollupFirst step b) rollupAdd ro_Hist k
      (itemRow src <$> items) = Some a <->
    exists i rest, filter (fun i : item => i.1.2 = k) items = i :: rest /\
      a = (setRollupHist (Hist_Encode (ds_hist (exact i.2)))
             (rowAt step b k (exact (spansAt k items))), ds_hist (exact (spansAt k items)))) as Hacc.
  { intros k a. rewrite accOf_items by done. destruct (filter _ items) as [|i rest].
    - split; [done|]. by intros (? & ? & ? & _).
    - split; [intros [= <-]; eauto|]. by intros (? & ? & [= <- <-] & ->). }
  split.
  - apply mergeTier_keys. intros k a (i & rest & _ & ->)%Hacc. cbn [fst snd].
    rewrite Hset. apply rollupKeyOf_rowAt.
  - intros r. rewrite mergeTier_in. split.
    + intros (k & a & (i & rest & Hi & ->)%Hacc & ->). exists k. cbn [fst snd].
      rewrite Hset. split; [|done]. apply spansAt_nil; [done|]. by rewrite Hi.
    + intros (k & Hk%spansAt_nil & ->); [|done]. destruct (filter _ items) as [|i rest] eqn:Ei; [done|].
      eexists k, _. split; [apply Hacc; eauto|]. cbn [fst snd]. by rewrite Hset.
Qed.
End MergeRows.

Definition demoKey (name : string) : rollupKey := (1, "svc", name, "server", true, "ok", 200).

Definition demoTimed (dur : Z) : Span :=
  mkSpan 0 1 "t1" "s1" "" "op" "svc" "" "server" "ok" 0 dur "{}" "[]" None None false 4.

Lemma Merge_exact_rows_witness :
  let items := [(0, demoKey "a", [demoTimed 10]); (300, demoKey "a", [demoTimed 30])] in
  rowAt 3600 0 (demoKey "a") (exactStats exactLog2x4 [demoTimed 10; demoTimed 30]) ∈
    Merge (itemRow exactLog2x4 300 <$> items) 3600 0.
Proof.
  intros items. apply (Merge_exact_rows exactLog2x4 300 3600 0 items).
  - repeat constructor; done.
  - intros k. unfold spansAt, items. rewrite !filter_cons, filter_nil. cbn [fst snd].
    case_decide; vm_compute; split_and!; reflexivity.
  - exists (demoKey "a"). split; [|by vm_compute]. by vm_compute.
Defined.
