(* ===== verification/Compaction.v ===== *)
(** * The span rollup compactor ([internal/spanrollup/compactor.go], [repair.go], and
    the tier reads of [repo_span_rollups.go], [repo_span_rollups_read.go] and
    [repo_span_edges.go])

    The compactor runs in a small monad over the database it reads and writes and its
    own fields.  Every database call may fail: the world carries the outcomes of the
    calls to come, in order, and a call past the end of the list succeeds.  The reads
    of one completeness check are one call.  Times are nanoseconds, stored buckets and
    watermarks are Unix seconds, as in the tables. *)
From S2P Require Import Prelude Model Varint SpanHist TierStore.
From S2P Require Import Tiers SpanPlan SpanMerge.

(** ** Reads of a tier table *)

Section TierReads.
Context {T K : Type} `{Countable K}.
Context (stepOf bucketOf : T -> Z).

(** [WHERE step_seconds = ? AND bucket >= ? AND bucket < ?] *)
Definition inWindow (step from to : Z) (r : T) : Prop :=
  stepOf r = step /\ Unix from <= bucketOf r < Unix to.

#[export] Instance inWindow_dec step from to r : Decision (inWindow step from to r).
Proof. unfold inWindow. apply _. Defined.

Definition tierWindow (t : gmap K T) (step from to : Z) : list T :=
  (map_to_list (filter (fun kv => inWindow step from to kv.2) t)).*2.

(** [Repository.oldestTierBucket] *)
Definition oldestTierBucket (t : gmap K T) (step : Z) : option Z :=
  match bucketOf <$> filter (fun r => stepOf r = step) (map_to_list t).*2 with
  | [] => None
  | b :: bs => Some (foldr Z.min b bs * second)
  end.

(** [Repository.countTierBuckets] *)
Definition countTierBuckets (t : gmap K T) (step from to : Z) : Z :=
  Z.of_nat (length (remove_dups (bucketOf <$> tierWindow t step from to))).
End TierReads.

(** [Repository.SpanRollupWindow] and [SpanEdgeWindow] *)
Definition SpanRollupWindow : gmap rollupPK SpanRollup -> Z -> Z -> Z -> list SpanRollup :=
  tierWindow ro_StepSeconds ro_Bucket.

Definition SpanEdgeWindow : gmap edgePK SpanEdge -> Z -> Z -> Z -> list SpanEdge :=
  tierWindow ed_StepSeconds ed_Bucket.

(** [Repository.CountSpanRollupBuckets] and [CountSpanEdgeBuckets] *)
Definition CountSpanRollupBuckets : gmap rollupPK SpanRollup -> Z -> Z -> Z -> Z :=
  countTierBuckets ro_StepSeconds ro_Bucket.

Definition CountSpanEdgeBuckets : gmap edgePK SpanEdge -> Z -> Z -> Z -> Z :=
  countTierBuckets ed_StepSeconds ed_Bucket.

(** [Repository.OldestSpanRollupBucket] and [OldestSpanEdgeBucket] *)
Definition OldestSpanRollupBucket : gmap rollupPK SpanRollup -> Z -> option Z :=
  oldestTierBucket ro_StepSeconds ro_Bucket.

Definition OldestSpanEdgeBucket : gmap edgePK SpanEdge -> Z -> option Z :=
  oldestTierBucket ed_StepSeconds ed_Bucket.

(** [Repository.SpansIngestedBetween] over the [ingested_at] of the raw spans; the
    bounds are whole seconds. *)
Definition SpansIngestedBetween (ingested : list Z) (from to : Z) : bool :=
  existsb (fun t => (Unix from * second <=? t) && (t <? Unix to * second)) ingested.

(** [Arrivals] *)
Definition Arrivals (rollups : gmap rollupPK SpanRollup) (ingested : list Z) (from to : Z) : bool :=
  (0 <? CountSpanRollupBuckets rollups Step5m from to) || SpansIngestedBetween ingested from to.

(** ** The world *)

(** [Config]: what the passes read of it. *)
Record Config := mkConfig { cfg_BucketsPerPass : nat; cfg_Lag : Z }.

(** [Config.withDefaults]; non-positive values take the default. *)
Definition withDefaults (bucketsPerPass lag : Z) : Config :=
  mkConfig (if bucketsPerPass <=? 0 then 12 else Z.to_nat bucketsPerPass)
    (if lag <=? 0 then 10 * minute else lag).

(** The database tables, the fields of [Compactor], and the outcomes to come. *)
Record world := mkWorld {
  w_rollups : gmap rollupPK SpanRollup;
  w_edges : gmap edgePK SpanEdge;
  w_marks : gmap Z Z;
  w_ingested : list Z;
  w_busy : bool;
  w_repaired : option Z;
  w_faults : list bool;
}.

Definition setRollups (t : gmap rollupPK SpanRollup) (w : world) : world :=
  mkWorld t (w_edges w) (w_marks w) (w_ingested w) (w_busy w) (w_repaired w) (w_faults w).

Definition setEdges (t : gmap edgePK SpanEdge) (w : world) : world :=
  mkWorld (w_rollups w) t (w_marks w) (w_ingested w) (w_busy w) (w_repaired w) (w_faults w).

Definition setMarks (m : gmap Z Z) (w : world) : world :=
  mkWorld (w_rollups w) (w_edges w) m (w_ingested w) (w_busy w) (w_repaired w) (w_faults w).

Definition setBusy (b : bool) (w : world) : world :=
  mkWorld (w_rollups w) (w_edges w) (w_marks w) (w_ingested w) b (w_repaired w) (w_faults w).

Definition setRepaired (r : option Z) (w : world) : world :=
  mkWorld (w_rollups w) (w_edges w) (w_marks w) (w_ingested w) (w_busy w) r (w_faults w).

Definition setFaults (fs : list bool) (w : world) : world :=
  mkWorld (w_rollups w) (w_edges w) (w_marks w) (w_ingested w) (w_busy w) (w_repaired w) fs.

(** A call returns a value or an error, and the world after it. *)
Definition M (A : Type) : Type := world -> option A * world.

#[export] Instance M_ret : MRet M := fun A a w => (Some a, w).

#[export] Instance M_bind : MBind M := fun A B f m w =>
  match m w with
  | (Some a, w) => f a w
  | (None, w) => (None, w)
  end.

(** A database call that only reads; [None] is its error. *)
Definition attempt {A} (f : world -> option A) : M A := fun w =>
  (if hd true (w_faults w) then f w else None, setFaults (tl (w_faults w)) w).

Definition reads {A} (f : world -> A) : M A := attempt (fun w => Some (f w)).

Definition update (f : world -> world) : M unit := fun w => (Some tt, f w).

(** ** Repository calls *)

(** [SpanRollupWatermark] *)
Definition SpanRollupWatermark (step : Z) : M (option Z) :=
  reads (fun w => (fun s => s * second) <$> w_marks w !! step).

(** [SetSpanRollupWatermark] *)
Definition SetSpanRollupWatermark (step through : Z) : M unit :=
  _ ← reads (fun _ => tt);
  update (fun w => setMarks
    (<[step := from_option (Z.max (Unix through)) (Unix through) (w_marks w !! step)]> (w_marks w)) w).

(** The chunked writes take as many outcomes as they have chunks. *)
Definition replaceRollups (rows : list SpanRollup) : M unit := fun w =>
  let '(err, t) := ReplaceSpanRollups (w_faults w) rows (w_rollups w) in
  (match err with None => Some tt | Some _ => None end,
   setFaults (drop (length (Chunk spanRollupChunk rows)) (w_faults w)) (setRollups t w)).

Definition replaceEdges (rows : list SpanEdge) : M unit := fun w =>
  let '(err, t) := ReplaceSpanEdges (w_faults w) rows (w_edges w) in
  (match err with None => Some tt | Some _ => None end,
   setFaults (drop (length (Chunk spanRollupChunk rows)) (w_faults w)) (setEdges t w)).

(** [windowComplete] over each table, with the arguments the compactor gives it. *)
Definition rollupsComplete (w : world) (step start end_ : Z) : option bool :=
  windowComplete (fun s f t => Some (CountSpanRollupBuckets (w_rollups w) s f t))
    (Some (fun f t => Some (SpansIngestedBetween (w_ingested w) f t))) step start end_.

Definition edgesComplete (w : world) (step start end_ : Z) : option bool :=
  windowComplete (fun s f t => Some (CountSpanEdgeBuckets (w_edges w) s f t))
    (Some (fun f t => Some (Arrivals (w_rollups w) (w_ingested w) f t))) step start end_.

(** ** The compactor *)

(** [Compactor.compactRollupBucket] *)
Definition compactRollupBucket (tier : Tier) (start end_ : Z) : M nat :=
  ok ← attempt (fun w => rollupsComplete w (tier_Source tier) start end_);
  if negb ok then mret 0%nat
  else
    src ← reads (fun w => SpanRollupWindow (w_rollups w) (tier_Source tier) start end_);
    match src with
    | [] => mret 0%nat
    | _ =>
        let merged := Merge src (tier_Step tier) (Unix start) in
        _ ← replaceRollups merged;
        mret (length merged)
    end.

(** [Compactor.compactEdgeBucket] *)
Definition compactEdgeBucket (tier : Tier) (start end_ : Z) : M nat :=
  ok ← attempt (fun w => edgesComplete w (tier_Source tier) start end_);
  if negb ok then mret 0%nat
  else
    src ← reads (fun w => SpanEdgeWindow (w_edges w) (tier_Source tier) start end_);
    match src with
    | [] => mret 0%nat
    | _ =>
        let merged := MergeEdges src (tier_Step tier) (Unix start) in
        _ ← replaceEdges merged;
        mret (length merged)
    end.

(** [Compactor.compactBucket] *)
Definition compactBucket (tier : Tier) (start end_ : Z) : M nat :=
  n ← compactRollupBucket tier start end_;
  m ← compactEdgeBucket tier start end_;
  mret (n + m)%nat.

(** [Compactor.tierStart] *)
Definition tierStart (tier : Tier) : M (option Z) :=
  through ← SpanRollupWatermark (tier_Source tier);
  match through with
  | Some through => mret (Some (TruncateBucket through (tier_Step tier)))
  | None =>
      oldest ← reads (fun w => OldestSpanRollupBucket (w_rollups w) (tier_Source tier));
      mret ((fun o => TruncateBucket o (tier_Step tier)) <$> oldest)
  end.

(** [time.Time{}]: the first instant of the year 1. *)
Definition zeroTime : Z := -62135596800 * second.

(** [Compactor.readyThrough] *)
Definition readyThrough (cfg : Config) (now : Z) (tier : Tier) : M Z :=
  if tier_Source tier =? Step5m then mret (now - cfg_Lag cfg)
  else
    below ← SpanRollupWatermark Step5m;
    mret (default zeroTime below).

(** The loop of [compactTier]; [n] is what is left of [BucketsPerPass].  A cancelled
    context is a failed read. *)
Fixpoint compactLoop (tier : Tier) (ready : Z) (n buckets rows : nat) (start : Z)
  : M (nat * nat) :=
  match n with
  | O => mret (buckets, rows)
  | S n =>
      _ ← reads (fun _ => tt);
      let end_ := NextBucket start (tier_Step tier) in
      if ready <? end_ then mret (buckets, rows)
      else
        k ← compactBucket tier start end_;
        _ ← SetSpanRollupWatermark (tier_Source tier) end_;
        compactLoop tier ready n (S buckets) (rows + k) end_
  end.

(** [Compactor.compactTier] *)
Definition compactTier (cfg : Config) (now : Z) (tier : Tier) : M (nat * nat) :=
  start ← tierStart tier;
  match start with
  | None => mret (0, 0)%nat
  | Some start =>
      ready ← readyThrough cfg now tier;
      compactLoop tier ready (cfg_BucketsPerPass cfg) 0 0 start
  end.

(** The walk up the ladder in [RunOnce]. *)
Fixpoint compactLadder (cfg : Config) (now : Z) (tiers : list Tier) : M unit :=
  match tiers with
  | [] => mret tt
  | tier :: tiers =>
      r ← compactTier cfg now tier;
      _ ← update (fun w => if (cfg_BucketsPerPass cfg <=? r.1)%nat then setBusy true w else w);
      compactLadder cfg now tiers
  end.

(** [tierTable] *)
Record tierTable := mkTierTable {
  tt_count : world -> Z -> Z -> Z -> Z;
  tt_complete : world -> Z -> Z -> Z -> option bool;
  tt_oldest : world -> Z -> option Z;
  tt_build : Tier -> Z -> Z -> M nat;
}.

(** [Compactor.tables] *)
Definition rollupTable : tierTable :=
  mkTierTable (fun w => CountSpanRollupBuckets (w_rollups w)) rollupsComplete
    (fun w => OldestSpanRollupBucket (w_rollups w)) compactRollupBucket.

Definition edgeTable : tierTable :=
  mkTierTable (fun w => CountSpanEdgeBuckets (w_edges w)) edgesComplete
    (fun w => OldestSpanEdgeBucket (w_edges w)) compactEdgeBucket.

Definition tables : list tierTable := [rollupTable; edgeTable].

(** [Compactor.repairBucket] *)
Definition repairBucket (tier : Tier) (t : tierTable) (start end_ : Z) : M nat :=
  have ← reads (fun w => tt_count t w (tier_Step tier) start end_);
  if 0 <? have then mret 0%nat
  else
    ok ← attempt (fun w => tt_complete t w (tier_Source tier) start end_);
    if negb ok then mret 0%nat else tt_build t tier start end_.

(** The loop of [repairTable]. *)
Fixpoint repairLoop (fuel : nat) (tier : Tier) (t : tierTable) (through : Z)
  (buckets rows : nat) (start : Z) : M (nat * nat) :=
  match fuel with
  | O => mret (buckets, rows)
  | S fuel =>
      let end_ := NextBucket start (tier_Step tier) in
      if through <? end_ then mret (buckets, rows)
      else
        _ ← reads (fun _ => tt);
        n ← repairBucket tier t start end_;
        repairLoop fuel tier t through (if (0 <? n)%nat then S buckets else buckets) (rows + n) end_
  end.

(** [Compactor.repairTable] *)
Definition repairTable (tier : Tier) (t : tierTable) (through : Z) : M (nat * nat) :=
  oldest ← reads (fun w => tt_oldest t w (tier_Source tier));
  match oldest with
  | None => mret (0, 0)%nat
  | Some oldest =>
      let start := TruncateBucket oldest (tier_Step tier) in
      let start := if start <? oldest then NextBucket start (tier_Step tier) else start in
      repairLoop (bucketFuel start through) tier t through 0 0 start
  end.

(** The loop of [repairTier] over the tables. *)
Fixpoint repairTables (tier : Tier) (ts : list tierTable) (through : Z) (buckets rows : nat)
  : M (nat * nat) :=
  match ts with
  | [] => mret (buckets, rows)
  | t :: ts =>
      r ← repairTable tier t through;
      repairTables tier ts through (buckets + r.1) (rows + r.2)
  end.

(** [Compactor.repairTier] *)
Definition repairTier (tier : Tier) : M (nat * nat) :=
  through ← SpanRollupWatermark (tier_Source tier);
  match through with
  | None => mret (0, 0)%nat
  | Some through => repairTables tier tables through 0 0
  end.

Fixpoint repairLadder (tiers : list Tier) : M unit :=
  match tiers with
  | [] => mret tt
  | tier :: tiers => _ ← repairTier tier; repairLadder tiers
  end.

(** [repairInterval] *)
Definition repairInterval : Z := hour.

(** [Compactor.repairIfDue] *)
Definition repairIfDue (now : Z) : M unit := fun w =>
  match w_repaired w with
  | Some r => if sat64 (now - r) <? repairInterval then (Some tt, w)
              else repairLadder spanLadder (setRepaired (Some now) w)
  | None => repairLadder spanLadder (setRepaired (Some now) w)
  end.

(** [Compactor.RunOnce]; the clock is read for the hourly tier and for the repair. *)
Definition RunOnce (cfg : Config) (now repairNow : Z) : M unit :=
  _ ← update (setBusy false);
  _ ← compactLadder cfg now spanLadder;
  repairIfDue repairNow.
