(* ===== verification/CompactionInv.v ===== *)
(** * What compaction keeps true of a tier table

    One table of the two the compactor builds, over any type of row: a coarse row is
    always the merge of its source window as the table holds it, and a bucket below
    the watermark is whole or absent.  [CompactionProps] instantiates both tables. *)
From S2P Require Import Prelude Model Varint SpanHist TierStore.
From S2P Require Import Tiers SpanPlan SpanMerge Compaction.

(** The tiers the compactor builds. *)
Definition coarse (S : Z) : Prop := S = StepHour \/ S = StepDay.

Definition tierOf (S : Z) : Tier := mkTier S (sourceOf S).

Lemma coarse_fixed S : coarse S -> fixedStep S.
Proof. intros [->| ->]; unfold fixedStep; auto. Qed.

Lemma coarse_source S : coarse S ->
  (S = StepHour /\ sourceOf S = Step5m) \/ (S = StepDay /\ sourceOf S = StepHour).
Proof. intros [->| ->]; [by left|by right]. Qed.

Lemma coarse_pos S : coarse S -> 0 < S.
Proof. by intros [->| ->]. Qed.

Lemma sourceOf_inj S S' : coarse S -> coarse S' -> sourceOf S = sourceOf S' -> S = S'.
Proof. by intros [->| ->] [->| ->]. Qed.

Lemma Unix_second b : Unix (b * second) = b.
Proof. unfold Unix. by apply Z.div_mul. Qed.

(** Aligned buckets that meet are equal. *)
Lemma aligned_between S a b : 0 < S -> (S | a) -> (S | b) -> a < b + S -> b < a + S -> a = b.
Proof. intros Hp [x ->] [y ->] H1 H2. f_equal. nia. Qed.

Section Table.
Context {T K : Type} `{Countable K}.
Context (stepOf bucketOf : T -> Z) (pk : T -> K) (merge : list T -> Z -> Z -> list T).

Abbreviation table := (gmap K T).
Abbreviation window := (tierWindow stepOf bucketOf).

(** What the merge of a table promises. *)
Class MergeLaws : Prop := {
  pk_at r r' : pk r = pk r' -> stepOf r = stepOf r' /\ bucketOf r = bucketOf r';
  merge_at rows step b r : r ∈ merge rows step b -> stepOf r = step /\ bucketOf r = b;
  merge_nodup rows step b : NoDup (pk <$> merge rows step b);
  merge_nil step b : merge [] step b = [];
}.
Context {laws : MergeLaws}.

(** The tier holds a row of the bucket. *)
Definition hasAt (t : table) (S b : Z) : Prop :=
  map_Exists (fun _ r => stepOf r = S /\ bucketOf r = b) t.

(** The source rows of a coarse bucket, and the rows it is built of. *)
Definition sources (t : table) (S b : Z) : list T :=
  window t (sourceOf S) (b * second) ((b + S) * second).

Definition built (t : table) (S b : Z) : list T := merge (sources t S b) S b.

Definition wholeAt (t : table) (S b : Z) : Prop := forall r, r ∈ built t S b -> t !! pk r = Some r.

Definition hoursHeld (t : table) (b : Z) : Prop :=
  forall h, (StepHour | h) -> b <= h < b + StepDay -> hasAt t StepHour h.

(** Keys match, steps are known, buckets are aligned and after 1970. *)
Definition keysOk (t : table) : Prop :=
  forall k r, t !! k = Some r ->
    pk r = k /\ fixedStep (stepOf r) /\ (stepOf r | bucketOf r) /\ 0 <= bucketOf r.

(** [c5 b]: the hour [b] passes the completeness check of its 5-minute buckets.
    [hz]: no 5-minute bucket before it takes writes.  [older s e]: the tier that
    [tierStart] asks has a row of step [s] before [e]. *)
Record tableInv (c5 : Z -> Prop) (marks : gmap Z Z) (hz : Z) (older : Z -> Z -> Prop)
  (t : table) : Prop := {
  ti_keys : keysOk t;
  ti_built k r : t !! k = Some r -> coarse (stepOf r) -> r ∈ built t (stepOf r) (bucketOf r);
  ti_hour b : hasAt t StepHour b -> c5 b /\ (b + StepHour) * second <= hz;
  ti_day b : hasAt t StepDay b ->
    (exists th, marks !! Step5m = Some th /\ b + StepDay <= th) /\ hoursHeld t b;
  ti_start S b : coarse S -> marks !! sourceOf S = None -> hasAt t S b -> older (sourceOf S) (b + S);
  ti_whole S b th : coarse S -> marks !! sourceOf S = Some th -> b + S <= th ->
    hasAt t S b -> wholeAt t S b;
}.

(** The check that a coarse bucket passed when it was written still passes. *)
Definition completeAt (c5 : Z -> Prop) (t : table) (S b : Z) : Prop :=
  if decide (S = StepHour) then c5 b else hoursHeld t b.

Lemma hasAt_complete c5 marks hz older t S b :
  tableInv c5 marks hz older t -> coarse S -> hasAt t S b -> completeAt c5 t S b.
Proof.
  intros Hi HS Hb. unfold completeAt. destruct HS as [->| ->]; case_decide; try done.
  - by destruct (ti_hour _ _ _ _ _ Hi _ Hb).
  - by destruct (ti_day _ _ _ _ _ Hi _ Hb).
Qed.

(** ** Windows *)

Lemma elem_of_window (t : table) step from to r :
  r ∈ window t step from to <->
  inWindow stepOf bucketOf step from to r /\ exists k, t !! k = Some r.
Proof.
  unfold tierWindow. rewrite list_elem_of_fmap. split.
  - intros ([k x] & -> & [Hl Hp]%elem_of_map_to_list%map_lookup_filter_Some). eauto.
  - intros [Hp [k Hk]]. exists (k, r). split; [done|].
    apply elem_of_map_to_list, map_lookup_filter_Some. done.
Qed.

Lemma window_ext (t t' : table) step from to :
  (forall k r, inWindow stepOf bucketOf step from to r -> t !! k = Some r <-> t' !! k = Some r) ->
  window t step from to = window t' step from to.
Proof.
  intros He. unfold tierWindow. do 2 f_equal. apply map_eq. intros k. apply option_eq. intros r.
  rewrite !map_lookup_filter_Some. simpl. naive_solver.
Qed.

Lemma sources_in t S b r :
  r ∈ sources t S b -> stepOf r = sourceOf S /\ b <= bucketOf r < b + S /\ exists k, t !! k = Some r.
Proof.
  unfold sources. rewrite elem_of_window. unfold inWindow. rewrite !Unix_second. naive_solver.
Qed.

Lemma sources_ext t t' S b :
  (forall k r, stepOf r = sourceOf S -> b <= bucketOf r < b + S ->
    t !! k = Some r <-> t' !! k = Some r) ->
  sources t S b = sources t' S b.
Proof.
  intros He. apply window_ext. intros k r [Hs Hb]. rewrite !Unix_second in Hb. auto.
Qed.

Lemma built_inj t S b r r' : r ∈ built t S b -> r' ∈ built t S b -> pk r = pk r' -> r = r'.
Proof.
  unfold built. pose proof (merge_nodup (sources t S b) S b) as Hn. revert Hn.
  induction (merge _ S b) as [|x l IH]; intros Hn H1 H2 E; [by apply not_elem_of_nil in H1|].
  apply NoDup_cons in Hn as [Hx Hn].
  apply elem_of_cons in H1 as [->|H1], H2 as [->|H2]; try done; auto.
  - destruct Hx. rewrite E. by apply list_elem_of_fmap_2.
  - destruct Hx. rewrite <- E. by apply list_elem_of_fmap_2.
Qed.

(** ** Writing rows of one bucket *)

Abbreviation replaceAll := (foldl (replaceRow pk)).

Lemma replaceAll_Some written : forall (t : table) k r,
  replaceAll t written !! k = Some r ->
  (r ∈ written /\ pk r = k) \/ (t !! k = Some r /\ k ∉ pk <$> written).
Proof.
  induction written as [|x w IH]; intros t k r Hl; csimpl in *.
  { right. split; [done|apply not_elem_of_nil]. }
  rewrite elem_of_cons, not_elem_of_cons.
  apply IH in Hl as [[Hin E]|[Hl Hk]]; [by auto|].
  unfold replaceRow in Hl. rewrite lookup_insert in Hl. case_decide; [|by auto].
  injection Hl as ->. by auto.
Qed.

Lemma replaceAll_other written : forall (t : table) k,
  k ∉ pk <$> written -> replaceAll t written !! k = t !! k.
Proof.
  induction written as [|x w IH]; intros t k Hk; csimpl in *; [done|].
  apply not_elem_of_cons in Hk as [? ?]. rewrite IH by done. by apply lookup_insert_ne.
Qed.

Lemma replaceAll_is_Some written : forall (t : table) k,
  k ∈ pk <$> written \/ is_Some (t !! k) -> is_Some (replaceAll t written !! k).
Proof.
  induction written as [|x w IH]; intros t k; csimpl.
  { intros [[]%not_elem_of_nil|?]; done. }
  rewrite elem_of_cons. intros Hk. apply IH. unfold replaceRow. rewrite lookup_insert.
  case_decide; [by right; eauto|]. destruct Hk as [[?|?]|?]; [congruence|by left|by right].
Qed.

Section Written.
Context (t : table) (S b : Z) (written : list T).
Context (Hkeys : keysOk t) (Hw : forall r, r ∈ written -> r ∈ built t S b).
Abbreviation t' := (replaceAll t written).

Lemma written_at r : r ∈ written -> stepOf r = S /\ bucketOf r = b.
Proof. intros Hr%Hw. by eapply merge_at. Qed.

Lemma written_lookup r : r ∈ written -> t' !! pk r = Some r.
Proof.
  intros Hr. destruct (replaceAll_is_Some written t (pk r)) as [x Hx].
  { left. by apply list_elem_of_fmap_2. }
  rewrite Hx. apply replaceAll_Some in Hx as [[Hin E]|[_ []]];
    [|by apply list_elem_of_fmap_2]. f_equal. eapply built_inj; eauto.
Qed.

(** Rows of other buckets stay. *)
Lemma write_other k r : ~ (stepOf r = S /\ bucketOf r = b) -> t !! k = Some r <-> t' !! k = Some r.
Proof.
  intros Hne. split.
  - intros Hl. rewrite replaceAll_other; [done|]. intros (x & -> & Hx)%list_elem_of_fmap.
    destruct (Hkeys _ _ Hl) as [E _]. destruct (pk_at _ _ E) as [E1 E2].
    rewrite E1, E2 in Hne. by apply Hne, written_at.
  - intros [[Hin _]|[Hl _]]%replaceAll_Some; [|done]. by apply written_at in Hin.
Qed.

Lemma write_keys : coarse S -> (S | b) -> 0 <= b -> keysOk t'.
Proof.
  intros HS Hd Hb k r [[Hin E]|[Hl _]]%replaceAll_Some; [|by apply Hkeys].
  apply written_at in Hin as [-> ->]. split_and!; auto using coarse_fixed.
Qed.

Lemma write_hasAt S' b' : hasAt t S' b' -> hasAt t' S' b'.
Proof.
  intros (k & r & Hl & E1 & E2). destruct (replaceAll_is_Some written t k) as [x Hx]; [eauto|].
  exists k, x. split; [done|]. apply replaceAll_Some in Hx as [[Hin E]|[Hx _]]; [|by simplify_eq].
  destruct (Hkeys _ _ Hl) as [E' _]. rewrite <- E in E'. destruct (pk_at _ _ E'). by simplify_eq.
Qed.

Lemma write_hasAt_inv S' b' : hasAt t' S' b' -> hasAt t S' b' \/ (S' = S /\ b' = b /\ written <> []).
Proof.
  intros (k & r & [[Hin _]|[Hl _]]%replaceAll_Some & E1 & E2).
  - right. destruct (written_at _ Hin) as [F1 F2]. split_and!; [congruence..|].
    intros ->. by apply not_elem_of_nil in Hin.
  - left. by exists k, r.
Qed.

(** Only the day above an hour sees its rows. *)
Lemma write_sources S' b' : coarse S' -> ~ (sourceOf S' = S /\ b' <= b < b' + S') ->
  sources t' S' b' = sources t S' b'.
Proof.
  intros HS' Hne. symmetry. apply sources_ext. intros k r Hs Hb. apply write_other.
  intros [E1 E2]. apply Hne. split; [congruence|lia].
Qed.

Lemma write_sources_self : coarse S -> sources t' S b = sources t S b.
Proof. intros HS. apply write_sources; [done|]. intros [E _]. by destruct HS as [->| ->]. Qed.
End Written.

(** ** One bucket build *)

(** What a build of the bucket [b] of tier [S] may do to the table: write some of the
    merged rows if the window is complete, and all of them if it succeeds. *)
Definition buildStep (c5 : Z -> Prop) (S b : Z) (ok : bool) (t t' : table) : Prop :=
  exists written, t' = replaceAll t written /\
    (forall r, r ∈ written -> r ∈ built t S b) /\
    (written <> [] -> completeAt c5 t S b) /\
    (ok = true -> completeAt c5 t S b -> forall r, r ∈ built t S b -> r ∈ written).

(** No day bucket that holds rows was built from this hour. *)
Definition dayFree (t : table) (S b : Z) : Prop :=
  S = StepHour -> forall d, d <= b < d + StepDay -> ~ hasAt t StepDay d.

Lemma buildStep_inv c5 marks hz older S b ok t t' :
  tableInv c5 marks hz older t -> coarse S -> (S | b) -> 0 <= b ->
  (S = StepHour -> (b + StepHour) * second <= hz) ->
  (S = StepDay -> exists th, marks !! Step5m = Some th /\ b + StepDay <= th) ->
  (marks !! sourceOf S = None -> older (sourceOf S) (b + S)) ->
  dayFree t S b ->
  (ok = true \/ forall th, marks !! sourceOf S = Some th -> th < b + S) ->
  buildStep c5 S b ok t t' ->
  tableInv c5 marks hz older t' /\ (ok = true -> hasAt t' S b -> wholeAt t' S b).
Proof.
  intros Hi HS Hd Hb0 Hhour Hday Hst Hfree Hok (w & -> & Hw & Hc & Hall).
  pose proof (ti_keys _ _ _ _ _ Hi) as Hk.
  assert (ok = true -> hasAt (replaceAll t w) S b -> wholeAt (replaceAll t w) S b) as Hwhole.
  { intros Ho Ha r Hr. unfold built in Hr. rewrite write_sources_self in Hr by eauto.
    apply (written_lookup t S b); [done|]. apply Hall; [done| |done].
    apply (write_hasAt_inv t S b w Hw) in Ha as [Ha|(_ & _ & Ha)]; [|by apply Hc].
    by eapply hasAt_complete. }
  split; [|done].
  assert (forall S' b', coarse S' -> hasAt t S' b' ->
    sources (replaceAll t w) S' b' = sources t S' b') as Hsrc.
  { intros S' b' HS' Ha'. apply (write_sources t S b w Hk Hw); [done|]. intros [E1 E2].
    destruct (coarse_source S' HS') as [[-> E]|[-> E]]; rewrite E in E1; subst S.
    - by destruct HS.
    - by apply (Hfree eq_refl b'). }
  constructor.
  - by apply (write_keys t S b).
  - intros k r [[Hin E]|[Hl _]]%replaceAll_Some HSr.
    + destruct (written_at t S b w Hw r Hin) as [-> ->]. unfold built.
      rewrite write_sources_self by eauto. by apply Hw.
    + unfold built. rewrite Hsrc; [by eapply ti_built|done|]. by exists k, r.
  - intros b' [Ha|(<- & -> & Hne)]%(write_hasAt_inv t S b w Hw); [by eapply ti_hour|].
    split; [|by apply Hhour]. apply Hc in Hne. unfold completeAt in Hne. by case_decide.
  - intros b' Ha. assert ((exists th, marks !! Step5m = Some th /\ b' + StepDay <= th) /\
      hoursHeld t b') as [? Hh].
    { apply (write_hasAt_inv t S b w Hw) in Ha as [Ha|(<- & -> & Hne)]; [by eapply ti_day|].
      split; [by apply Hday|]. apply Hc in Hne. unfold completeAt in Hne. by case_decide. }
    split; [done|]. intros h ? ?. apply (write_hasAt t w Hk). by apply Hh.
  - intros S' b' HS' Hm [Ha|(-> & -> & _)]%(write_hasAt_inv t S b w Hw); [by eapply ti_start|auto].
  - intros S' b' th HS' Hm Hle Ha.
    destruct (decide (S' = S /\ b' = b)) as [[-> ->]|Hne].
    { destruct Hok as [Ho|Hlt]; [by apply Hwhole|]. specialize (Hlt th Hm). lia. }
    apply (write_hasAt_inv t S b w Hw) in Ha as [Ha|(-> & -> & _)]; [|tauto].
    intros r Hr. unfold built in Hr. rewrite Hsrc in Hr by done.
    apply (write_other t S b w Hk Hw); [|by eapply ti_whole].
    intros [E1 E2]. apply merge_at in Hr as [??]. apply Hne. split; congruence.
Qed.

(** ** Moving the watermark *)

Lemma setMark_inv c5 marks hz older S e t :
  tableInv c5 marks hz older t -> coarse S ->
  (forall th, marks !! sourceOf S = Some th -> th <= e) ->
  (forall b, b + S <= e -> hasAt t S b -> wholeAt t S b) ->
  tableInv c5 (<[sourceOf S := e]> marks) hz older t.
Proof.
  intros Hi HS Hle Hw. destruct Hi as [Hk Hb Hh Hd Hs Hwh]. constructor; try done.
  - intros b Ha. destruct (Hd b Ha) as [(th & Hm & ?) ?]. split; [|done].
    rewrite lookup_insert. case_decide as E; [|by eauto]. exists e. split; [done|].
    rewrite E in Hle. specialize (Hle th Hm). lia.
  - intros S' b HS'. rewrite lookup_insert. case_decide; [done|]. by apply Hs.
  - intros S' b th HS'. rewrite lookup_insert. case_decide as E; [|by apply Hwh].
    apply sourceOf_inj in E as <-; [|done..]. intros [= <-]. apply Hw.
Qed.

(** ** Writes to open 5-minute buckets *)

(** The rest of the world moves: rows of 5-minute buckets from [hz] on change. *)
Lemma frame_inv (c5 c5' : Z -> Prop) marks hz hz' (older older' : Z -> Z -> Prop) t t' :
  tableInv c5 marks hz older t ->
  (forall k r, stepOf r <> Step5m \/ bucketOf r * second < hz ->
    t !! k = Some r <-> t' !! k = Some r) ->
  keysOk t' -> hz <= hz' ->
  (forall b, (b + StepHour) * second <= hz -> c5 b -> c5' b) ->
  (forall s e, older s e -> older' s e) ->
  tableInv c5' marks hz' older' t'.
Proof.
  intros [Hk Hb Hh Hd Hs Hwh] Hsame Hk' Hhz Hc Ho.
  assert (forall S b, coarse S -> hasAt t' S b <-> hasAt t S b) as Hhas.
  { intros S b HS. split; intros (k & r & Hl & <- & E); exists k, r; (split; [|done]);
      eapply Hsame; eauto; left; by destruct HS as [->| ->]. }
  assert (forall S b, coarse S -> hasAt t S b -> sources t' S b = sources t S b) as Hsrc.
  { intros S b HS Ha. symmetry. apply sources_ext. intros k r Es Eb. apply Hsame.
    destruct (coarse_source S HS) as [[-> E]|[-> E]]; [right|left; rewrite Es, E; done].
    destruct (Hh b Ha) as [_ ?]. unfold second in *. lia. }
  assert (forall k r, coarse (stepOf r) -> t' !! k = Some r -> t !! k = Some r) as Hback.
  { intros k r HS. apply Hsame. left. by destruct HS as [->| ->]. }
  constructor; [done|..].
  - intros k r Hl HS. unfold built. rewrite Hsrc; [by eapply Hb; eauto|done|].
    exists k, r. split; [by apply Hback|done].
  - intros b [? ?]%Hhas%Hh; [|by left]. split; [by apply Hc|lia].
  - intros b [? Hhd]%Hhas%Hd; [|by right]. split; [done|]. intros h ? ?.
    apply Hhas; [by left|]. by apply Hhd.
  - intros S b HS Hm Ha%Hhas; [|done]. by apply Ho, Hs.
  - intros S b th HS Hm Hle Ha%Hhas r Hr; [|done]. unfold built in Hr.
    rewrite Hsrc in Hr by done. pose proof (merge_at _ _ _ _ Hr) as [E _].
    apply Hsame; [left; rewrite E; by destruct HS as [->| ->]|]. by eapply Hwh.
Qed.
End Table.

Arguments MergeLaws {T K} stepOf bucketOf pk merge.
