(* ===== verification/CompleteWindow.v ===== *)
(** * What the completeness check of a window means

    [windowComplete] decides from bucket counts whether a coarse bucket may be built.
    Over the counts of a table it says that every source bucket holds rows or, in the
    5-minute tier, that nothing arrived in it. *)
From S2P Require Import Prelude Model Varint SpanHist TierStore.
From S2P Require Import Tiers SpanPlan SpanMerge Compaction CompactionInv.

(** ** The buckets of a window *)

Lemma bucketsLoop_run step to fuel : forall m b n,
  fixedStep step -> (m <= fuel)%nat -> to = b + Z.of_nat m * (step * second) ->
  bucketsLoop fuel step to to b n b = (n + Z.of_nat m, to).
Proof.
  induction fuel as [|fuel IH]; intros m b n Hs Hm Hto; simpl.
  { assert (m = 0%nat) as -> by lia. f_equal; lia. }
  pose proof (fixedStep_pos step Hs). destruct m as [|m].
  - assert ((b <? to) = false) as -> by lia. simpl. f_equal; lia.
  - assert ((b <? to) = true) as -> by lia. simpl. rewrite NextBucket_fixed by done.
    rewrite (IH m) by (done || lia). f_equal. lia.
Qed.

Lemma bucketFuel_enough step m b :
  fixedStep step -> (m <= bucketFuel (b * second) ((b + Z.of_nat m * step) * second))%nat.
Proof.
  intros Hs. unfold bucketFuel.
  replace ((b + Z.of_nat m * step) * second - b * second) with (Z.of_nat m * step * second) by lia.
  rewrite Z.div_mul by done. assert (0 < step) by by destruct Hs as [->|[->| ->]]. nia.
Qed.

Lemma bucketsBefore_window step m b :
  fixedStep step ->
  let to := (b + Z.of_nat m * step) * second in
  bucketsBefore (mkSegment step (b * second) to) to = (Z.of_nat m, to).
Proof.
  intros Hs to. unfold bucketsBefore. cbn [sg_Step sg_From sg_To].
  rewrite (bucketsLoop_run step to _ m); [done|done|by apply bucketFuel_enough|].
  unfold to. lia.
Qed.

(** The starts of [m] buckets from [b] on. *)
Definition bucketStarts (step b : Z) (m : nat) : list Z := (fun i => b + Z.of_nat i * step) <$> seq 0 m.

Lemma elem_of_bucketStarts step b m x :
  0 < step -> (step | b) ->
  x ∈ bucketStarts step b m <-> (step | x) /\ b <= x < b + Z.of_nat m * step.
Proof.
  intros Hp [q ->]. unfold bucketStarts. rewrite list_elem_of_fmap. split.
  - intros (i & -> & Hi%elem_of_seq). split; [exists (q + Z.of_nat i); lia|nia].
  - intros [[y ->] Hx]. exists (Z.to_nat (y - q)). rewrite elem_of_seq.
    rewrite Z2Nat.id by nia. split; [lia|nia].
Qed.

Lemma NoDup_bucketStarts step b m : 0 < step -> NoDup (bucketStarts step b m).
Proof.
  intros Hp. apply NoDup_fmap_2; [|apply NoDup_seq]. intros i j E. nia.
Qed.

(** ** The check depends on its window only *)

Lemma quietLoop_ext (count count' : Z -> Z -> Z -> option Z) (arr arr' : Z -> Z -> option bool)
  step to fuel : forall b m,
  fixedStep step -> to = b + Z.of_nat m * (step * second) ->
  (forall f u, b <= f -> u <= to -> count step f u = count' step f u /\ arr f u = arr' f u) ->
  quietLoop count fuel arr step to b = quietLoop count' fuel arr' step to b.
Proof.
  induction fuel as [|fuel IH]; intros b m Hs Hto He; simpl; [done|].
  pose proof (fixedStep_pos step Hs). destruct (b <? to) eqn:E; simpl; to_prop; [|done].
  destruct m as [|m]; [lia|]. rewrite NextBucket_fixed by done.
  destruct (He b (b + step * second)) as [-> ->]; [lia|lia|].
  rewrite (IH (b + step * second) m); [done|done|lia|]. intros f u ? ?. apply He; lia.
Qed.

Lemma windowComplete_ext (count count' : Z -> Z -> Z -> option Z) (arr arr' : Z -> Z -> option bool)
  step m b :
  fixedStep step ->
  let to := (b + Z.of_nat m * step) * second in
  (forall f u, b * second <= f -> u <= to ->
    count step f u = count' step f u /\ (step = Step5m -> arr f u = arr' f u)) ->
  windowComplete count (Some arr) step (b * second) to =
  windowComplete count' (Some arr') step (b * second) to.
Proof.
  intros Hs to He. subst to. unfold windowComplete, segmentCovered.
  rewrite (bucketsBefore_window step m b Hs). cbn [sg_Step sg_From sg_To].
  destruct (Z.of_nat m =? 0); [done|]. destruct (He (b * second) ((b + Z.of_nat m * step) * second)) as [-> _]; [lia|lia|].
  destruct (count' step (b * second) ((b + Z.of_nat m * step) * second)) as [got|]; [|done]. simpl.
  destruct (Z.of_nat m <=? got); [done|].
  destruct (step =? Step5m) eqn:E5; [|done]. apply Z.eqb_eq in E5. cbn [negb orb].
  destruct (_ <? _); [done|]. unfold emptyBucketsQuiet. cbn [sg_Step sg_From sg_To].
  apply (quietLoop_ext _ _ _ _ _ _ _ _ m); [done|lia|]. intros f u Hf Hu.
  destruct (He f u Hf Hu). split; auto.
Qed.

(** ** The check over a table *)

Section Counts.
Context {T K : Type} `{Countable K}.
Context (stepOf bucketOf : T -> Z) (pk : T -> K).
Abbreviation has := (hasAt stepOf bucketOf).
Abbreviation cnt := (countTierBuckets stepOf bucketOf).

Lemma window_nil (t : gmap K T) S b e :
  b <= e ->
  tierWindow stepOf bucketOf t S (b * second) (e * second) = [] <->
  forall x, b <= x < e -> ~ has t S x.
Proof.
  intros Hle. split.
  - intros Hnil x Hx (k & r & Hl & <- & <-).
    assert (r ∈ tierWindow stepOf bucketOf t (stepOf r) (b * second) (e * second)) as Hin.
    { apply elem_of_window. unfold inWindow. rewrite !Unix_second. eauto. }
    rewrite Hnil in Hin. by apply not_elem_of_nil in Hin.
  - intros Hn. destruct (tierWindow _ _ _ _ _ _) as [|r l] eqn:E; [done|].
    assert (r ∈ tierWindow stepOf bucketOf t S (b * second) (e * second)) as Hin
      by (rewrite E; by left).
    apply elem_of_window in Hin as [[<- Hr] [k Hk]]. rewrite !Unix_second in Hr.
    destruct (Hn _ Hr). by exists k, r.
Qed.

(** The distinct buckets of a window are among its bucket starts. *)
Lemma window_buckets (t : gmap K T) step m b x :
  keysOk stepOf bucketOf pk t -> fixedStep step -> (step | b) ->
  x ∈ remove_dups (bucketOf <$> tierWindow stepOf bucketOf t step (b * second)
        ((b + Z.of_nat m * step) * second)) <->
  has t step x /\ x ∈ bucketStarts step b m.
Proof.
  intros Hk Hs Hb. assert (0 < step) as Hp by by destruct Hs as [->|[->| ->]].
  rewrite elem_of_remove_dups, list_elem_of_fmap, elem_of_bucketStarts by done. split.
  - intros (r & -> & [[<- Hr] [k Hl]]%elem_of_window). rewrite !Unix_second in Hr.
    split; [by exists k, r|]. split; [by apply (Hk k r)|done].
  - intros ((k & r & Hl & <- & <-) & Hd & Hx). exists r. split; [done|]. apply elem_of_window.
    unfold inWindow. rewrite !Unix_second. eauto.
Qed.

Lemma count_full (t : gmap K T) step m b :
  keysOk stepOf bucketOf pk t -> fixedStep step -> (step | b) ->
  Z.of_nat m <= cnt t step (b * second) ((b + Z.of_nat m * step) * second) <->
  forall x, x ∈ bucketStarts step b m -> has t step x.
Proof.
  intros Hk Hs Hb. unfold countTierBuckets. rewrite <- Nat2Z.inj_le.
  pose proof (fun x => window_buckets t step m b x Hk Hs Hb) as Hin.
  set (l := remove_dups _) in *. assert (NoDup l) as Hn by apply NoDup_remove_dups.
  assert (l ⊆+ bucketStarts step b m) as Hsub.
  { apply NoDup_submseteq; [done|]. intros x Hx. by apply Hin. }
  assert (0 < step) as Hp by by destruct Hs as [->|[->| ->]].
  assert (length (bucketStarts step b m) = m) as Hlen
    by (unfold bucketStarts; by rewrite length_fmap, length_seq).
  split.
  - intros Hle x Hx. apply Hin. rewrite <- Hlen in Hle.
    by rewrite (submseteq_length_Permutation _ _ Hsub Hle).
  - intros Hall. rewrite <- Hlen. apply submseteq_length. apply NoDup_submseteq;
      [by apply NoDup_bucketStarts|]. intros x Hx. apply Hin. auto.
Qed.

Lemma count_one (t : gmap K T) step b :
  keysOk stepOf bucketOf pk t -> fixedStep step -> (step | b) ->
  0 < cnt t step (b * second) ((b + step) * second) <-> has t step b.
Proof.
  intros Hk Hs Hb. pose proof (count_full t step 1 b Hk Hs Hb) as Hc.
  replace (b + Z.of_nat 1 * step) with (b + step) in Hc by lia.
  rewrite <- Z.le_succ_l. change (Z.succ 0) with (Z.of_nat 1). rewrite Hc.
  assert (0 < step) as Hp by by destruct Hs as [->|[->| ->]]. split.
  - intros Hx. apply Hx. apply elem_of_bucketStarts; [done..|]. split; [done|lia].
  - intros ? x [Hd Hx]%elem_of_bucketStarts; [|done..].
    by rewrite (aligned_between step x b Hp Hd Hb) by lia.
Qed.

Section Checked.
Context (t : gmap K T) (arr : Z -> Z -> bool).
Context (Hk : keysOk stepOf bucketOf pk t).
Abbreviation complete := (windowComplete (fun s f u => Some (cnt t s f u))
                            (Some (fun f u => Some (arr f u)))).

Lemma quietLoop_sound step to fuel : forall b m,
  fixedStep step -> (step | b) -> (m <= fuel)%nat -> to = (b + Z.of_nat m * step) * second ->
  match quietLoop (fun s f u => Some (cnt t s f u)) fuel (fun f u => Some (arr f u)) step to
    (b * second) with
  | Some ok => ok = true <-> forall x, x ∈ bucketStarts step b m ->
      has t step x \/ arr (x * second) ((x + step) * second) = false
  | None => False
  end.
Proof.
  induction fuel as [|fuel IH]; intros b m Hs Hb Hm Hto; simpl.
  { assert (m = 0%nat) as -> by lia. split; [|done]. intros _ x. by intros ?%not_elem_of_nil. }
  pose proof (fixedStep_pos step Hs) as Hpos. assert (0 < step) as Hp by (unfold second in *; lia).
  destruct m as [|m].
  { assert ((b * second <? to) = false) as -> by lia. simpl. split; [|done].
    intros _ x. by intros ?%not_elem_of_nil. }
  assert ((b * second <? to) = true) as -> by (unfold second in *; nia). simpl.
  rewrite NextBucket_fixed by done.
  replace (b * second + step * second) with ((b + step) * second) by lia.
  assert ((step | b + step)) as Hb' by (apply Z.divide_add_r; [done|apply Z.divide_refl]).
  specialize (IH (b + step) m Hs Hb' ltac:(lia) ltac:(lia)).
  assert (forall P : Z -> Prop, (forall x, x ∈ bucketStarts step b (Datatypes.S m) -> P x) <->
    P b /\ forall x, x ∈ bucketStarts step (b + step) m -> P x) as Hsplit.
  { intros P. split.
    - intros HP. split; [apply HP, elem_of_bucketStarts; [done..|split; [done|nia]]|].
      intros x [Hd Hx]%elem_of_bucketStarts; [|done..]. apply HP, elem_of_bucketStarts; [done..|].
      split; [done|nia].
    - intros [HPb HP] x [Hd Hx]%elem_of_bucketStarts; [|done..].
      destruct (Z.lt_ge_cases x (b + step)).
      + by rewrite (aligned_between step x b Hp Hd Hb) by lia.
      + apply HP, elem_of_bucketStarts; [done..|]. split; [done|lia]. }
  pose proof (count_one t step b Hk Hs Hb) as H1.
  destruct (0 <? cnt t step (b * second) ((b + step) * second)) eqn:E; to_prop.
  - destruct (quietLoop _ _ _ _ _ _); [|done]. rewrite IH, Hsplit. tauto.
  - destruct (arr (b * second) ((b + step) * second)) eqn:Ea; simpl.
    + split; [done|]. intros Hx. apply Hsplit in Hx as [[Hh|Hf] _]; [|congruence].
      apply H1 in Hh. lia.
    + destruct (quietLoop _ _ _ _ _ _); [|done]. rewrite IH, Hsplit. tauto.
Qed.

(** A window passes when its buckets hold rows, or are few 5-minute buckets in which
    nothing arrived; the check never fails on healthy reads. *)
Lemma windowComplete_spec step m b :
  fixedStep step -> (step | b) ->
  exists ok, complete step (b * second) ((b + Z.of_nat m * step) * second) = Some ok /\
    (ok = true <->
      (forall x, x ∈ bucketStarts step b m -> has t step x) \/
      (step = Step5m /\
       Z.of_nat m - cnt t step (b * second) ((b + Z.of_nat m * step) * second) <= maxQuietBuckets /\
       forall x, x ∈ bucketStarts step b m ->
         has t step x \/ arr (x * second) ((x + step) * second) = false)).
Proof.
  intros Hs Hb. unfold windowComplete, segmentCovered.
  rewrite (bucketsBefore_window step m b Hs). cbn [sg_Step sg_From sg_To].
  destruct (Z.of_nat m =? 0) eqn:E0; to_prop.
  { exists true. split; [done|]. split; [|done]. intros _. left.
    assert (m = 0%nat) as -> by lia. intros x. by intros ?%not_elem_of_nil. }
  simpl. pose proof (count_full t step m b Hk Hs Hb) as Hc.
  set (got := cnt t step _ _) in *.
  destruct (Z.of_nat m <=? got) eqn:Eg; to_prop.
  { exists true. split; [done|]. split; [|done]. intros _. left. by apply Hc. }
  destruct (step =? Step5m) eqn:E5, (maxQuietBuckets <? Z.of_nat m - got) eqn:Eq; simpl; to_prop.
  1,3,4: exists false; split; [done|]; split; [done|];
    intros [Hx%Hc|(? & ? & _)]; [lia|unfold Step5m in *; lia].
  pose proof (quietLoop_sound step ((b + Z.of_nat m * step) * second) _ b m Hs Hb
    (bucketFuel_enough step m b Hs) eq_refl) as Hq.
  unfold emptyBucketsQuiet. cbn [sg_Step sg_From sg_To].
  destruct (quietLoop _ _ _ _ _ _) as [ok|]; [|done]. exists ok. split; [done|].
  rewrite Hq. split; [by right|]. intros [Hx|(_ & _ & Hx)]; [|done]. auto.
Qed.

(** For a day only its 24 hours count. *)
Lemma dayComplete b :
  (StepDay | b) ->
  (complete StepHour (b * second) ((b + StepDay) * second) = Some true <->
   hoursHeld stepOf bucketOf t b) /\
  is_Some (complete StepHour (b * second) ((b + StepDay) * second)).
Proof.
  intros Hb. assert ((StepHour | b)) as Hb' by (eapply Z.divide_trans; [|exact Hb]; by exists 24).
  destruct (windowComplete_spec StepHour 24 b ltac:(unfold fixedStep; auto) Hb') as (ok & E & Hok).
  change (b + Z.of_nat 24 * StepHour) with (b + StepDay) in *. rewrite E. split; [|eauto].
  assert (ok = true <-> Some ok = Some true) as <- by (split; congruence). rewrite Hok.
  unfold hoursHeld. split.
  - intros [Hx|[? _]]; [|done]. intros h Hd Hh. apply Hx, elem_of_bucketStarts; done.
  - intros Hh. left. intros x [Hd Hx]%elem_of_bucketStarts; [|done..]. by apply Hh.
Qed.
End Checked.
End Counts.
