(* ===== verification/CompactionWorld.v ===== *)
(** * Compaction passes keep both tables exact

    The invariant of [CompactionInv] for [span_rollups] and [span_edges] together with
    the watermarks, kept by every call of a compaction pass whichever of its database
    calls fail. *)
From S2P Require Import Prelude Model Varint SpanHist TierStore.
From S2P Require Import Tiers SpanPlan SpanMerge Compaction CompactionInv CompleteWindow.

(** ** The merges of the two tables *)

Lemma foldl_keeps {A B} (f : A -> A -> A) (g : A -> B) l : forall x,
  (forall a r, g (f a r) = g a) -> g (foldl f x l) = g x.
Proof. induction l as [|r l IH]; intros x Hg; simpl; [done|]. by rewrite IH, Hg. Qed.

Lemma accOf_key {R K} `{Countable K} (key : R -> K) first add hist k rows a :
  accOf key first add hist k rows = Some a ->
  exists r l, key r = k /\ a.1 = foldl add (first r) l.
Proof.
  unfold accOf. destruct (filter _ rows) as [|r l] eqn:E; [done|]. intros [= <-].
  exists r, (r :: l). split; [|done].
  assert (r ∈ filter (fun r => key r = k) rows) as Hr by (rewrite E; by left).
  by apply list_elem_of_filter in Hr as [? _].
Qed.

#[export] Instance rollup_laws : MergeLaws ro_StepSeconds ro_Bucket spanRollupPK Merge.
Proof.
  split.
  - intros r r' E. by injection E.
  - intros rows step b r (k & a & Ha & ->)%mergeTier_in.
    apply accOf_key in Ha as (r0 & l & _ & ->). unfold setRollupHist. simpl.
    by rewrite !foldl_keeps by done.
  - intros rows step b. pose (g := fun q : rollupPK =>
      let '(s, bk, p, sv, n, kd, rt, st, h) := q in (p, sv, n, kd, rt, st, h) : rollupKey).
    apply (NoDup_fmap_1 g). rewrite <- list_fmap_compose. apply mergeTier_keys.
    intros k a (r0 & l & <- & ->)%accOf_key. unfold rollupKeyOf, setRollupHist. simpl.
    by rewrite !foldl_keeps by done.
  - done.
Qed.

#[export] Instance edge_laws : MergeLaws ed_StepSeconds ed_Bucket spanEdgePK MergeEdges.
Proof.
  split.
  - intros r r' E. by injection E.
  - intros rows step b r (k & a & Ha & ->)%mergeTier_in.
    apply accOf_key in Ha as (r0 & l & _ & ->). unfold setEdgeHist. simpl.
    by rewrite !foldl_keeps by done.
  - intros rows step b. pose (g := fun q : edgePK =>
      let '(s, bk, p, sr, tg, ty) := q in (p, sr, tg, ty) : edgeKey).
    apply (NoDup_fmap_1 g). rewrite <- list_fmap_compose. apply mergeTier_keys.
    intros k a (r0 & l & <- & ->)%accOf_key. unfold edgeKeyOf, setEdgeHist. simpl.
    by rewrite !foldl_keeps by done.
  - done.
Qed.

(** ** The invariant of the world *)

Abbreviation rollupHas := (hasAt ro_StepSeconds ro_Bucket).
Abbreviation edgeHas := (hasAt ed_StepSeconds ed_Bucket).
Abbreviation rollupBuilt := (built ro_StepSeconds ro_Bucket Merge).
Abbreviation edgeBuilt := (built ed_StepSeconds ed_Bucket MergeEdges).
Abbreviation rollupWhole := (wholeAt ro_StepSeconds ro_Bucket spanRollupPK Merge).
Abbreviation edgeWhole := (wholeAt ed_StepSeconds ed_Bucket spanEdgePK MergeEdges).
Abbreviation rollupKeys := (keysOk ro_StepSeconds ro_Bucket spanRollupPK).
Abbreviation edgeKeys := (keysOk ed_StepSeconds ed_Bucket spanEdgePK).
Abbreviation rollupInv := (tableInv ro_StepSeconds ro_Bucket spanRollupPK Merge).
Abbreviation edgeInv := (tableInv ed_StepSeconds ed_Bucket spanEdgePK MergeEdges).

Definition rollupHour (w : world) (b : Z) : Prop :=
  rollupsComplete w Step5m (b * second) ((b + StepHour) * second) = Some true.

Definition edgeHour (w : world) (b : Z) : Prop :=
  edgesComplete w Step5m (b * second) ((b + StepHour) * second) = Some true.

Definition olderRollup (w : world) (s e : Z) : Prop := exists b, b < e /\ rollupHas (w_rollups w) s b.

Definition marksInv (marks : gmap Z Z) (hz : Z) : Prop :=
  forall S th, coarse S -> marks !! sourceOf S = Some th ->
    (S | th) /\ 0 <= th /\ (S = StepHour -> th * second <= hz) /\
    (S = StepDay -> exists th5, marks !! Step5m = Some th5 /\ th <= th5).

(** Both tables and the watermarks, when no 5-minute bucket before [hz] takes writes. *)
Definition worldInv (hz : Z) (w : world) : Prop :=
  rollupInv (rollupHour w) (w_marks w) hz (olderRollup w) (w_rollups w) /\
  edgeInv (edgeHour w) (w_marks w) hz (olderRollup w) (w_edges w) /\
  marksInv (w_marks w) hz.

(** ** Completeness depends on the 5-minute rows before the horizon *)

Lemma count_below {T K} `{Countable K} (stepOf bucketOf : T -> Z) (t t' : gmap K T) hz f u :
  (forall k r, stepOf r = Step5m -> bucketOf r * second < hz -> t !! k = Some r <-> t' !! k = Some r) ->
  u <= hz ->
  countTierBuckets stepOf bucketOf t Step5m f u = countTierBuckets stepOf bucketOf t' Step5m f u.
Proof.
  intros Hs Hu. unfold countTierBuckets. do 4 f_equal. apply window_ext. intros k r [E Hb].
  apply Hs; [done|]. unfold Unix in Hb. pose proof (Z.mul_div_le u second ltac:(done)).
  unfold second in *. lia.
Qed.

(** The 5-minute rows and the raw spans before [hz] are the same. *)
Definition sameBelow (hz : Z) (w w' : world) : Prop :=
  (forall k r, ro_StepSeconds r = Step5m -> ro_Bucket r * second < hz ->
    w_rollups w !! k = Some r <-> w_rollups w' !! k = Some r) /\
  (forall k r, ed_StepSeconds r = Step5m -> ed_Bucket r * second < hz ->
    w_edges w !! k = Some r <-> w_edges w' !! k = Some r) /\
  (forall f u, u <= hz ->
    SpansIngestedBetween (w_ingested w) f u = SpansIngestedBetween (w_ingested w') f u).

Lemma rollupHour_frame hz w w' b :
  sameBelow hz w w' -> (b + StepHour) * second <= hz -> rollupHour w b -> rollupHour w' b.
Proof.
  intros (Hr & _ & Hi) Hb. unfold rollupHour, rollupsComplete.
  change (b + StepHour) with (b + Z.of_nat 12 * Step5m) in *.
  rewrite (windowComplete_ext _ (fun s f t => Some (CountSpanRollupBuckets (w_rollups w') s f t)) _
    (fun f t => Some (SpansIngestedBetween (w_ingested w') f t))); [done|unfold fixedStep; auto|].
  intros f u _ Hu. rewrite (Hi f u) by lia. split; [|done]. f_equal.
  unfold CountSpanRollupBuckets. apply (count_below _ _ _ _ hz); [done|lia].
Qed.

Lemma edgeHour_frame hz w w' b :
  sameBelow hz w w' -> (b + StepHour) * second <= hz -> edgeHour w b -> edgeHour w' b.
Proof.
  intros (Hr & He & Hi) Hb. unfold edgeHour, edgesComplete.
  change (b + StepHour) with (b + Z.of_nat 12 * Step5m) in *.
  rewrite (windowComplete_ext _ (fun s f t => Some (CountSpanEdgeBuckets (w_edges w') s f t)) _
    (fun f t => Some (Arrivals (w_rollups w') (w_ingested w') f t))); [done|unfold fixedStep; auto|].
  intros f u _ Hu. unfold Arrivals. rewrite (Hi f u) by lia.
  unfold CountSpanEdgeBuckets, CountSpanRollupBuckets.
  rewrite (count_below _ _ (w_edges w) (w_edges w') hz) by (done || lia).
  by rewrite (count_below _ _ (w_rollups w) (w_rollups w') hz) by (done || lia).
Qed.

(** The world moves on outside the compactor: 5-minute buckets from [hz] on change. *)
Lemma worldInv_frame hz hz' w w' :
  worldInv hz w -> hz <= hz' -> sameBelow hz w w' -> w_marks w' = w_marks w ->
  rollupKeys (w_rollups w') -> edgeKeys (w_edges w') ->
  (forall k r, ro_StepSeconds r <> Step5m ->
    w_rollups w !! k = Some r <-> w_rollups w' !! k = Some r) ->
  (forall k r, ed_StepSeconds r <> Step5m ->
    w_edges w !! k = Some r <-> w_edges w' !! k = Some r) ->
  (forall s b, rollupHas (w_rollups w) s b -> rollupHas (w_rollups w') s b) ->
  worldInv hz' w'.
Proof.
  intros (Hr & He & Hm) Hhz Hs Em Kr Ke Or Oe Hh. unfold worldInv. rewrite Em.
  assert (forall s e, olderRollup w s e -> olderRollup w' s e) as Ho
    by (intros s e (b & ? & ?); exists b; auto).
  split_and!.
  - eapply frame_inv; try done; [apply rollup_laws| |by intros; eapply rollupHour_frame].
    intros k r Hc. destruct (decide (ro_StepSeconds r = Step5m)); [|by apply Or].
    apply (proj1 Hs); [done|]. by destruct Hc.
  - eapply frame_inv; try done; [apply edge_laws| |by intros; eapply edgeHour_frame].
    intros k r Hc. destruct (decide (ed_StepSeconds r = Step5m)); [|by apply Oe].
    apply (proj1 (proj2 Hs)); [done|]. by destruct Hc.
  - intros S th HS Hth. destruct (Hm S th HS Hth) as (? & ? & H5 & ?). split_and!; try done.
    intros ES. specialize (H5 ES). lia.
Qed.

(** ** Bucket builds *)

Lemma buildStep_rows {T K} `{Countable K} (stepOf bucketOf : T -> Z) (pk : T -> K) merge
  `{!MergeLaws stepOf bucketOf pk merge} c5 S b ok (t t' : gmap K T) :
  keysOk stepOf bucketOf pk t -> buildStep stepOf bucketOf pk merge c5 S b ok t t' ->
  (forall k r, stepOf r <> S -> t !! k = Some r <-> t' !! k = Some r) /\
  (forall S' b', hasAt stepOf bucketOf t S' b' -> hasAt stepOf bucketOf t' S' b') /\
  (forall S' b', S' <> S -> hasAt stepOf bucketOf t' S' b' -> hasAt stepOf bucketOf t S' b').
Proof.
  intros Hk (w & -> & Hw & _). split_and!.
  - intros k r Hne. eapply (write_other stepOf bucketOf pk merge t S b); eauto. by intros [? _].
  - intros. eapply (write_hasAt stepOf bucketOf pk merge); eauto.
  - intros S' b' Hne Ha. by eapply (write_hasAt_inv stepOf bucketOf pk merge) in Ha as [?|[? _]]; eauto.
Qed.

(** A chunked replace writes some of its rows, and all of them when it succeeds. *)
Lemma replace_spec {T K} `{Countable K} (pk : T -> K) compare oks rows (t : gmap K T) :
  match writeTierRows compare (replaceRow pk) spanRollupChunk oks rows t with
  | (err, t') => exists written, t' = foldl (replaceRow pk) t written /\
      (forall r, r ∈ written -> r ∈ rows) /\ (err = None -> forall r, r ∈ rows -> r ∈ written) /\
      (oks = [] -> err = None)
  end.
Proof.
  destruct (writeTierRows _ _ _ _ _ _) as [err t'] eqn:E.
  apply writeTierRows_spec in E as (w & Hp & -> & Hn); [|unfold spanRollupChunk; lia].
  exists w. split_and!; [done| | |].
  - intros r Hr. rewrite Hp. by apply elem_of_app; left.
  - intros -> r Hr. rewrite Hp in Hr. by rewrite app_nil_r in Hr.
  - intros ->. apply Hn. rewrite take_nil. constructor.
Qed.

Lemma attempt_eq {A} (f : world -> option A) w :
  attempt f w = (if hd true (w_faults w) then f w else None, setFaults (tl (w_faults w)) w).
Proof. done. Qed.

Lemma reads_eq {A} (f : world -> A) w :
  reads f w = (if hd true (w_faults w) then Some (f w) else None, setFaults (tl (w_faults w)) w).
Proof. done. Qed.

Abbreviation rollupStep := (buildStep ro_StepSeconds ro_Bucket spanRollupPK Merge).
Abbreviation edgeStep := (buildStep ed_StepSeconds ed_Bucket spanEdgePK MergeEdges).
Abbreviation rollupComplete := (completeAt ro_StepSeconds ro_Bucket).
Abbreviation edgeComplete := (completeAt ed_StepSeconds ed_Bucket).

(** The check the code runs is the one the invariant speaks of. *)
Lemma rollupsComplete_iff w S b :
  coarse S -> (S | b) -> rollupKeys (w_rollups w) ->
  exists ok, rollupsComplete w (sourceOf S) (b * second) ((b + S) * second) = Some ok /\
    (ok = true <-> rollupComplete (rollupHour w) (w_rollups w) S b).
Proof.
  intros HS Hd Hk. unfold completeAt. destruct (coarse_source S HS) as [[-> E]|[-> E]]; rewrite E.
  - rewrite decide_True by done. unfold rollupHour.
    destruct (windowComplete_spec ro_StepSeconds ro_Bucket spanRollupPK (w_rollups w)
      (SpansIngestedBetween (w_ingested w)) Hk Step5m 12 b) as (ok & Eq & _);
      [unfold fixedStep; auto|eapply Z.divide_trans; [|exact Hd]; by exists 12|].
    change (b + Z.of_nat 12 * Step5m) with (b + StepHour) in Eq. unfold rollupsComplete.
    exists ok. split; [exact Eq|]. unfold CountSpanRollupBuckets. rewrite Eq. split; congruence.
  - rewrite decide_False by done.
    destruct (dayComplete ro_StepSeconds ro_Bucket spanRollupPK (w_rollups w)
      (SpansIngestedBetween (w_ingested w)) Hk b Hd) as [Hiff [ok Eq]].
    exists ok. split; [exact Eq|]. rewrite <- Hiff, Eq. split; congruence.
Qed.

Lemma edgesComplete_iff w S b :
  coarse S -> (S | b) -> edgeKeys (w_edges w) ->
  exists ok, edgesComplete w (sourceOf S) (b * second) ((b + S) * second) = Some ok /\
    (ok = true <-> edgeComplete (edgeHour w) (w_edges w) S b).
Proof.
  intros HS Hd Hk. unfold completeAt. destruct (coarse_source S HS) as [[-> E]|[-> E]]; rewrite E.
  - rewrite decide_True by done. unfold edgeHour.
    destruct (windowComplete_spec ed_StepSeconds ed_Bucket spanEdgePK (w_edges w)
      (Arrivals (w_rollups w) (w_ingested w)) Hk Step5m 12 b) as (ok & Eq & _);
      [unfold fixedStep; auto|eapply Z.divide_trans; [|exact Hd]; by exists 12|].
    change (b + Z.of_nat 12 * Step5m) with (b + StepHour) in Eq. unfold edgesComplete.
    exists ok. split; [exact Eq|]. unfold CountSpanEdgeBuckets. rewrite Eq. split; congruence.
  - rewrite decide_False by done.
    destruct (dayComplete ed_StepSeconds ed_Bucket spanEdgePK (w_edges w)
      (Arrivals (w_rollups w) (w_ingested w)) Hk b Hd) as [Hiff [ok Eq]].
    exists ok. split; [exact Eq|]. rewrite <- Hiff, Eq. split; congruence.
Qed.

Definition okOf {A} (r : option A) : bool := match r with Some _ => true | None => false end.

(** Both bucket builds are this program, over the table they read and write. *)
Section Build.
Context {T K : Type} `{Countable K}.
Context (stepOf bucketOf : T -> Z) (pk : T -> K) (merge : list T -> Z -> Z -> list T).
Context {laws : MergeLaws stepOf bucketOf pk merge}.
Context (compare : T -> T -> comparison).
Context (get : world -> gmap K T) (set : gmap K T -> world -> world).
Context (get_faults : forall fs w, get (setFaults fs w) = get w).
Context (set_faults : forall fs t w, set t (setFaults fs w) = setFaults fs (set t w)).
Context (set_get : forall w, set (get w) w = w).
Context (complete : world -> Z -> Z -> Z -> option bool) (c5 : world -> Z -> Prop).

Definition replaceIn (rows : list T) : M unit := fun w =>
  let '(err, t) := writeTierRows compare (replaceRow pk) spanRollupChunk (w_faults w) rows (get w) in
  (match err with None => Some tt | Some _ => None end,
   setFaults (drop (length (Chunk spanRollupChunk rows)) (w_faults w)) (set t w)).

Definition buildBucket (tier : Tier) (start end_ : Z) : M nat :=
  ok ← attempt (fun w => complete w (tier_Source tier) start end_);
  if negb ok then mret 0%nat
  else
    src ← reads (fun w => tierWindow stepOf bucketOf (get w) (tier_Source tier) start end_);
    match src with
    | [] => mret 0%nat
    | _ =>
        let merged := merge src (tier_Step tier) (Unix start) in
        _ ← replaceIn merged;
        mret (length merged)
    end.

Lemma buildBucket_step w S b ok :
  complete w (sourceOf S) (b * second) ((b + S) * second) = Some ok ->
  (ok = true <-> completeAt stepOf bucketOf (c5 w) (get w) S b) ->
  match buildBucket (tierOf S) (b * second) ((b + S) * second) w with
  | (res, w') => exists fs t', w' = setFaults fs (set t' w) /\
      buildStep stepOf bucketOf pk merge (c5 w) S b (okOf res) (get w) t' /\
      (w_faults w = [] -> fs = [] /\ okOf res = true)
  end.
Proof.
  intros Ec Hok.
  assert (forall fs o, (o = false \/ ok = false \/ built stepOf bucketOf merge (get w) S b = []) ->
    (w_faults w = [] -> fs = [] /\ o = true) ->
    exists fs' t', setFaults fs w = setFaults fs' (set t' w) /\
      buildStep stepOf bucketOf pk merge (c5 w) S b o (get w) t' /\
      (w_faults w = [] -> fs' = [] /\ o = true)) as Hnone.
  { intros fs o Ho Hf. exists fs, (get w). split; [by rewrite set_get|]. split; [|done].
    exists []. split_and!; [done|by intros ? ?%not_elem_of_nil|done|].
    intros -> Hcomp%Hok r Hr. destruct Ho as [?|[?|E]]; [done|congruence|by rewrite E in Hr]. }
  unfold buildBucket, mbind, M_bind. rewrite attempt_eq. cbn [tierOf tier_Source tier_Step].
  rewrite Ec. destruct (hd true (w_faults w)) eqn:E1.
  2:{ apply Hnone; [by left|]. intros Ew. by rewrite Ew in E1. }
  destruct ok; cbn [negb]; cbn beta iota; [|apply Hnone; [by right; left|by intros ->]].
  rewrite reads_eq, get_faults. cbn [setFaults w_faults].
  destruct (hd true (tl (w_faults w))) eqn:E2.
  2:{ apply Hnone; [by left|]. intros Ew. by rewrite Ew in E2. }
  fold (sources stepOf bucketOf (get w) S b).
  destruct (sources _ _ _ S b) as [|x src] eqn:Es.
  { apply Hnone; [|by intros ->]. right. right. unfold built. rewrite Es. by eapply merge_nil. }
  rewrite <- Es, Unix_second. fold (built stepOf bucketOf merge (get w) S b).
  unfold replaceIn. rewrite !get_faults. cbn [setFaults w_faults].
  pose proof (replace_spec pk compare (tl (tl (w_faults w)))
    (built stepOf bucketOf merge (get w) S b) (get w)) as Hr.
  destruct (writeTierRows _ _ _ _ _ _) as [err t'].
  destruct Hr as (wr & Ht & Hin & Hall & Hh).
  destruct err; eexists _, t'; (split; [rewrite !set_faults; reflexivity|]).
  all: split; [exists wr; split_and!; [done|done|intros _; by apply Hok|intros Ho _; by try apply Hall]|].
  all: intros Ew; rewrite Ew in *; simpl; rewrite drop_nil; split; [done|]; by specialize (Hh eq_refl).
Qed.
End Build.

Lemma compactRollupBucket_step w S b :
  coarse S -> (S | b) -> rollupKeys (w_rollups w) ->
  match compactRollupBucket (tierOf S) (b * second) ((b + S) * second) w with
  | (res, w') => exists fs t', w' = setFaults fs (setRollups t' w) /\
      rollupStep (rollupHour w) S b (okOf res) (w_rollups w) t' /\
      (w_faults w = [] -> fs = [] /\ okOf res = true)
  end.
Proof.
  intros HS Hd Hk. destruct (rollupsComplete_iff w S b HS Hd Hk) as (ok & Ec & Hok).
  by apply (buildBucket_step ro_StepSeconds ro_Bucket spanRollupPK Merge compareSpanRollupKey
    w_rollups setRollups ltac:(done) ltac:(done) ltac:(by intros []) rollupsComplete rollupHour w S b ok).
Qed.

Lemma compactEdgeBucket_step w S b :
  coarse S -> (S | b) -> edgeKeys (w_edges w) ->
  match compactEdgeBucket (tierOf S) (b * second) ((b + S) * second) w with
  | (res, w') => exists fs t', w' = setFaults fs (setEdges t' w) /\
      edgeStep (edgeHour w) S b (okOf res) (w_edges w) t' /\
      (w_faults w = [] -> fs = [] /\ okOf res = true)
  end.
Proof.
  intros HS Hd Hk. destruct (edgesComplete_iff w S b HS Hd Hk) as (ok & Ec & Hok).
  by apply (buildBucket_step ed_StepSeconds ed_Bucket spanEdgePK MergeEdges compareSpanEdgeKey
    w_edges setEdges ltac:(done) ltac:(done) ltac:(by intros []) edgesComplete edgeHour w S b ok).
Qed.

(** ** Builds and watermarks keep the invariant *)

(** What a build of bucket [b] needs of the watermarks. *)
Definition mayBuild (hz : Z) (w : world) (S b : Z) : Prop :=
  coarse S /\ (S | b) /\ 0 <= b /\
  (S = StepHour -> (b + StepHour) * second <= hz) /\
  (S = StepDay -> exists th, w_marks w !! Step5m = Some th /\ b + StepDay <= th) /\
  (w_marks w !! sourceOf S = None -> olderRollup w (sourceOf S) (b + S)).

Lemma build_keeps hz w w' : worldInv hz w ->
  (forall k r, ro_StepSeconds r = Step5m -> w_rollups w !! k = Some r <-> w_rollups w' !! k = Some r) ->
  (forall k r, ed_StepSeconds r = Step5m -> w_edges w !! k = Some r <-> w_edges w' !! k = Some r) ->
  (forall s b, rollupHas (w_rollups w) s b -> rollupHas (w_rollups w') s b) ->
  w_marks w' = w_marks w -> w_ingested w' = w_ingested w ->
  rollupInv (rollupHour w) (w_marks w) hz (olderRollup w) (w_rollups w') ->
  edgeInv (edgeHour w) (w_marks w) hz (olderRollup w) (w_edges w') ->
  worldInv hz w'.
Proof.
  intros (_ & _ & Hm) Hr He Hh Em Ei Ir Ie. unfold worldInv. rewrite Em.
  assert (sameBelow hz w w') as Hs by (split_and!; [auto|auto|by rewrite Ei]).
  assert (forall s e, olderRollup w s e -> olderRollup w' s e) as Ho
    by (intros s e (b & ? & ?); exists b; auto).
  split_and!; [| |done].
  - eapply (frame_inv _ _ _ _ (rollupHour w)); try done; [by eapply ti_keys|].
    by intros; eapply rollupHour_frame.
  - eapply (frame_inv _ _ _ _ (edgeHour w)); try done; [by eapply ti_keys|].
    by intros; eapply edgeHour_frame.
Qed.

Lemma sourceOf_ne S : coarse S -> S <> Step5m /\ sourceOf S <> S.
Proof. by intros [->| ->]. Qed.

(** A build of one bucket of [span_rollups]. *)
Lemma rollup_build hz w S b ok fs t' :
  worldInv hz w -> mayBuild hz w S b ->
  dayFree ro_StepSeconds ro_Bucket (w_rollups w) S b ->
  (ok = true \/ forall th, w_marks w !! sourceOf S = Some th -> th < b + S) ->
  rollupStep (rollupHour w) S b ok (w_rollups w) t' ->
  let w' := setFaults fs (setRollups t' w) in
  worldInv hz w' /\ (ok = true -> rollupHas t' S b -> rollupWhole t' S b) /\
  (forall x, rollupHas t' (sourceOf S) x <-> rollupHas (w_rollups w) (sourceOf S) x) /\
  (forall S' x, rollupHas (w_rollups w) S' x -> rollupHas t' S' x).
Proof.
  intros Hi (HS & Hd & Hb & Hh & Hday & Hst) Hf Hok Hstep w'.
  pose proof Hi as (Hr & He & Hm). pose proof (sourceOf_ne S HS) as [Hne5 Hne].
  destruct (buildStep_rows _ _ _ _ _ _ _ _ _ _ (ti_keys _ _ _ _ _ _ _ _ _ Hr) Hstep) as (Hrows & Hup & Hdn).
  destruct (buildStep_inv _ _ _ _ _ _ _ _ _ _ _ _ _ Hr HS Hd Hb Hh Hday Hst Hf Hok Hstep) as [Hr' Hwh].
  split_and!; [|done| |done].
  - apply (build_keeps hz w); try done. intros k r E. apply Hrows. congruence.
  - intros x. split; [by apply Hdn|by apply Hup].
Qed.

Lemma edge_build hz w S b ok fs t' :
  worldInv hz w -> mayBuild hz w S b ->
  dayFree ed_StepSeconds ed_Bucket (w_edges w) S b ->
  (ok = true \/ forall th, w_marks w !! sourceOf S = Some th -> th < b + S) ->
  edgeStep (edgeHour w) S b ok (w_edges w) t' ->
  let w' := setFaults fs (setEdges t' w) in
  worldInv hz w' /\ (ok = true -> edgeHas t' S b -> edgeWhole t' S b).
Proof.
  intros Hi (HS & Hd & Hb & Hh & Hday & Hst) Hf Hok Hstep w'.
  pose proof Hi as (Hr & He & Hm). pose proof (sourceOf_ne S HS) as [Hne5 Hne].
  destruct (buildStep_rows _ _ _ _ _ _ _ _ _ _ (ti_keys _ _ _ _ _ _ _ _ _ He) Hstep) as (Hrows & Hup & Hdn).
  destruct (buildStep_inv _ _ _ _ _ _ _ _ _ _ _ _ _ He HS Hd Hb Hh Hday Hst Hf Hok Hstep) as [He' Hwh].
  split; [|done]. apply (build_keeps hz w); try done. intros k r E. apply Hrows. congruence.
Qed.

(** Where a pass continues: at the watermark, or at the oldest source bucket. *)
Definition startAt (w : world) (S b : Z) : Prop :=
  coarse S /\ (S | b) /\ 0 <= b /\
  match w_marks w !! sourceOf S with
  | Some th => th = b
  | None => (forall x, rollupHas (w_rollups w) (sourceOf S) x -> b <= x) /\
      olderRollup w (sourceOf S) (b + S)
  end.

Lemma startAt_dayFree {T K} `{Countable K} (stepOf bucketOf : T -> Z) pk merge c5 hz older w S b
  (t : gmap K T) :
  tableInv stepOf bucketOf pk merge c5 (w_marks w) hz older t -> startAt w S b ->
  dayFree stepOf bucketOf t S b.
Proof.
  intros Hi (_ & _ & _ & Hst) -> d Hd Ha.
  destruct (ti_day _ _ _ _ _ _ _ _ _ Hi d Ha) as [(th & E & Hle) _].
  change (sourceOf StepHour) with Step5m in Hst. rewrite E in Hst. lia.
Qed.

Lemma compactBucket_inv hz w S b res w' :
  worldInv hz w -> startAt w S b -> mayBuild hz w S b ->
  compactBucket (tierOf S) (b * second) ((b + S) * second) w = (res, w') ->
  worldInv hz w' /\ w_marks w' = w_marks w /\ startAt w' S b /\
  (okOf res = true -> (rollupHas (w_rollups w') S b -> rollupWhole (w_rollups w') S b) /\
    (edgeHas (w_edges w') S b -> edgeWhole (w_edges w') S b)).
Proof.
  intros Hi Hst Hmay. unfold compactBucket, mbind, M_bind.
  pose proof Hmay as (HS & Hd & Hb & _). pose proof Hi as (Hr & He & _).
  assert (forall ok : bool, ok = true \/ forall th, w_marks w !! sourceOf S = Some th -> th < b + S) as Hok.
  { intros ok. right. intros th E. destruct Hst as (_ & _ & _ & Hst). rewrite E in Hst.
    pose proof (coarse_pos S HS). lia. }
  pose proof (compactRollupBucket_step w S b HS Hd (ti_keys _ _ _ _ _ _ _ _ _ Hr)) as H1.
  destruct (compactRollupBucket _ _ _ w) as [r1 w1]. destruct H1 as (fs1 & t1 & -> & Hs1 & _).
  destruct (rollup_build hz w S b (okOf r1) fs1 t1 Hi Hmay) as (Hi1 & Hw1 & Hsrc & Hup);
    [by eapply startAt_dayFree|apply Hok|done|].
  set (w1 := setFaults fs1 (setRollups t1 w)) in *.
  assert (startAt w1 S b) as Hst1.
  { destruct Hst as (? & ? & ? & Hst). split_and!; try done. cbn.
    destruct (w_marks w !! sourceOf S); [done|]. destruct Hst as [Hmin (x & ? & Hx)]. split.
    - intros y Hy%Hsrc. by apply Hmin.
    - exists x. split; [done|]. by apply Hup. }
  destruct r1 as [n|]; [|intros [= <- <-]; by split_and!].
  assert (mayBuild hz w1 S b) as Hmay1.
  { destruct Hmay as (? & ? & ? & ? & ? & Hold). split_and!; try done. intros Hm.
    destruct (Hold Hm) as (x & ? & ?). exists x. split; [done|]. by apply Hup. }
  pose proof (compactEdgeBucket_step w1 S b HS Hd (ti_keys _ _ _ _ _ _ _ _ _ He)) as H2.
  destruct (compactEdgeBucket _ _ _ w1) as [r2 w2]. destruct H2 as (fs2 & t2 & -> & Hs2 & _).
  destruct (edge_build hz w1 S b (okOf r2) fs2 t2 Hi1 Hmay1) as (Hi2 & Hw2);
    [eapply startAt_dayFree; [apply Hi1|done]|apply Hok|done|].
  destruct r2 as [m|]; intros [= <- <-]; split_and!; try done.
  intros _. split; [by apply Hw1|by apply Hw2].
Qed.

(** Below the next watermark there is the bucket just built and what was whole before. *)
Lemma startAt_below {T K} `{Countable K} (stepOf bucketOf : T -> Z) pk merge c5 hz w S b b'
  (t : gmap K T) :
  tableInv stepOf bucketOf pk merge c5 (w_marks w) hz (olderRollup w) t -> startAt w S b ->
  b' + S <= b + S -> hasAt stepOf bucketOf t S b' ->
  b' = b \/ wholeAt stepOf bucketOf pk merge t S b'.
Proof.
  intros Hi (HS & Hd & Hb & Hst) Hle Ha. pose proof (coarse_pos S HS) as Hp.
  assert ((S | b')) as Hd'.
  { destruct Ha as (k & r & Hl & <- & <-). by apply (ti_keys _ _ _ _ _ _ _ _ _ Hi k r). }
  destruct (w_marks w !! sourceOf S) as [th|] eqn:E.
  - subst th. destruct (Z.le_gt_cases (b' + S) b); [right; by eapply ti_whole|].
    left. apply (aligned_between S); [done..|lia|lia].
  - destruct (ti_start _ _ _ _ _ _ _ _ _ Hi S b' HS E Ha) as (x & Hx & Hx').
    destruct Hst as [Hmin _]. specialize (Hmin x Hx'). left.
    apply (aligned_between S); [done..|lia|lia].
Qed.

Lemma SetSpanRollupWatermark_inv hz w S b res w' :
  worldInv hz w -> startAt w S b -> mayBuild hz w S b ->
  (rollupHas (w_rollups w) S b -> rollupWhole (w_rollups w) S b) ->
  (edgeHas (w_edges w) S b -> edgeWhole (w_edges w) S b) ->
  SetSpanRollupWatermark (sourceOf S) ((b + S) * second) w = (res, w') ->
  worldInv hz w' /\ (okOf res = true -> startAt w' S (b + S) /\
    w_marks w' = <[sourceOf S := b + S]> (w_marks w)).
Proof.
  intros Hi Hst Hmay Hwr Hwe. unfold SetSpanRollupWatermark, mbind, M_bind. rewrite reads_eq.
  destruct (hd true (w_faults w)); [|by intros [= <- <-]]. unfold update. intros [= <- <-].
  cbn [setFaults w_marks]. pose proof Hi as (Hr & He & Hm). pose proof Hst as (HS & Hd & Hb & Hst').
  pose proof (coarse_pos S HS) as Hp.
  assert (forall th, w_marks w !! sourceOf S = Some th -> th <= b + S) as Hle.
  { intros th E. rewrite E in Hst'. lia. }
  assert (from_option (Z.max (Unix ((b + S) * second))) (Unix ((b + S) * second))
    (w_marks w !! sourceOf S) = b + S) as ->.
  { rewrite Unix_second. destruct (w_marks w !! sourceOf S) as [th|]; simpl; [|done].
    specialize (Hle th eq_refl). lia. }
  assert ((S | b + S)) as Hd' by (apply Z.divide_add_r; [done|apply Z.divide_refl]).
  split.
  2:{ intros _. split; [|done]. split_and!; [done..|lia|]. cbn. by rewrite lookup_insert_eq. }
  destruct Hmay as (_ & _ & _ & Hh & Hday & _). split_and!.
  - apply setMark_inv; try done. intros b' Hb' Ha.
    destruct (startAt_below _ _ _ _ _ _ _ _ _ b' _ Hr Hst Hb' Ha) as [->|?]; auto.
  - apply setMark_inv; try done. intros b' Hb' Ha.
    destruct (startAt_below _ _ _ _ _ _ _ _ _ b' _ He Hst Hb' Ha) as [->|?]; auto.
  - intros S' th HS'. cbn. rewrite lookup_insert. case_decide as E.
    + apply sourceOf_inj in E as <-; [|done..]. intros [= <-]. split_and!; try done; [lia|..].
      * intros ->. by apply Hh.
      * intros ->. destruct (Hday eq_refl) as (th5 & E5 & ?). exists th5.
        by rewrite lookup_insert_ne.
    + intros Eth. destruct (Hm S' th HS' Eth) as (? & ? & ? & H5). split_and!; try done.
      intros ->. destruct (H5 eq_refl) as (th5 & E5 & ?). rewrite lookup_insert.
      case_decide as E'; [|by eauto]. exists (b + S). split; [done|].
      rewrite E' in Hle. specialize (Hle th5 E5). lia.
Qed.

(** How far a tier's source is ready. *)
Definition readyAt (hz : Z) (w : world) (S ready : Z) : Prop :=
  (S = StepHour -> ready <= hz) /\
  (S = StepDay -> ready < 0 \/ exists th, w_marks w !! Step5m = Some th /\ ready = th * second).

Lemma ready_mayBuild hz w S b ready :
  startAt w S b -> readyAt hz w S ready -> (b + S) * second <= ready -> mayBuild hz w S b.
Proof.
  intros (HS & Hd & Hb & Hst) [R1 R2] Hle. pose proof (coarse_pos S HS).
  split_and!; try done.
  - intros ->. specialize (R1 eq_refl). lia.
  - intros ->. destruct (R2 eq_refl) as [?|(th & E & ->)]; [unfold second, StepDay in *; lia|].
    exists th. split; [done|]. unfold second in *. lia.
  - intros E. rewrite E in Hst. by destruct Hst.
Qed.

Lemma compactLoop_inv hz S ready n : forall b k rows w res w',
  worldInv hz w -> startAt w S b -> readyAt hz w S ready ->
  compactLoop (tierOf S) ready n k rows (b * second) w = (res, w') -> worldInv hz w'.
Proof.
  induction n as [|n IH]; intros b k rows w res w' Hi Hst Hr; simpl.
  { by intros [= <- <-]. }
  pose proof Hst as (HS & _). unfold mbind, M_bind. rewrite reads_eq.
  destruct (hd true (w_faults w)); [|by intros [= <- <-]].
  rewrite NextBucket_fixed by by apply coarse_fixed.
  replace (b * second + S * second) with ((b + S) * second) by lia.
  destruct (ready <? (b + S) * second) eqn:E; to_prop; [by intros [= <- <-]|].
  set (w0 := setFaults _ w). assert (worldInv hz w0) as Hi0 by done.
  pose proof (ready_mayBuild hz w0 S b ready Hst Hr E) as Hmay.
  destruct (compactBucket _ _ _ w0) as [r1 w1] eqn:E1.
  destruct (compactBucket_inv hz w0 S b r1 w1 Hi0 Hst Hmay E1) as (Hi1 & Em1 & Hst1 & Hw1).
  destruct r1 as [j|]; [|by intros [= <- <-]]. destruct (Hw1 eq_refl) as [Hwr Hwe].
  assert (readyAt hz w1 S ready) as Hr1 by (destruct Hr; split; [done|by rewrite Em1]).
  pose proof (ready_mayBuild hz w1 S b ready Hst1 Hr1 E) as Hmay1.
  destruct (SetSpanRollupWatermark _ _ w1) as [r2 w2] eqn:E2.
  destruct (SetSpanRollupWatermark_inv hz w1 S b r2 w2 Hi1 Hst1 Hmay1 Hwr Hwe E2) as (Hi2 & Hst2).
  destruct r2 as [[]|]; [|by intros [= <- <-]]. destruct (Hst2 eq_refl) as [Hst3 Em2].
  apply IH; [done|done|]. destruct Hr1 as [R1 R2]. split; [done|]. intros ->. rewrite Em2.
  rewrite lookup_insert_ne by done. by apply R2.
Qed.

Lemma oldest_spec {T K} `{Countable K} (stepOf bucketOf : T -> Z) (t : gmap K T) s :
  match oldestTierBucket stepOf bucketOf t s with
  | Some o => exists x, o = x * second /\ hasAt stepOf bucketOf t s x /\
      forall y, hasAt stepOf bucketOf t s y -> x <= y
  | None => forall y, ~ hasAt stepOf bucketOf t s y
  end.
Proof.
  unfold oldestTierBucket.
  assert (forall y, hasAt stepOf bucketOf t s y <->
    y ∈ bucketOf <$> filter (fun r => stepOf r = s) (map_to_list t).*2) as Hin.
  { intros y. rewrite list_elem_of_fmap. split.
    - intros (k & r & Hl & E & <-). exists r. split; [done|]. apply list_elem_of_filter.
      split; [done|]. apply list_elem_of_fmap. exists (k, r). split; [done|].
      by apply elem_of_map_to_list.
    - intros (r & -> & [E ([k r'] & -> & Hl%elem_of_map_to_list)%list_elem_of_fmap]%list_elem_of_filter).
      by exists k, r'. }
  destruct (bucketOf <$> _) as [|b bs].
  { intros y Hy%Hin. by apply not_elem_of_nil in Hy. }
  exists (foldr Z.min b bs). split; [done|].
  assert (foldr Z.min b bs ∈ b :: bs /\ forall y, y ∈ b :: bs -> foldr Z.min b bs <= y) as [H1 H2].
  { clear Hin. induction bs as [|c bs [I1 I2]]; simpl.
    - split; [by left|]. intros y ->%list_elem_of_singleton. done.
    - split.
      + destruct (Z.min_spec c (foldr Z.min b bs)) as [[_ ->]|[_ ->]]; [by right; left|].
        apply elem_of_cons in I1 as [->|I1]; [by left|by right; right].
      + intros y [->|[->|Hy]%elem_of_cons]%elem_of_cons; [| |].
        * pose proof (I2 b ltac:(by left)). lia.
        * lia.
        * pose proof (I2 y ltac:(by right)). lia. }
  split; [by apply Hin|]. intros y Hy%Hin. by apply H2.
Qed.

Lemma Truncate_second x S : coarse S -> 0 <= x ->
  exists b, TruncateBucket (x * second) S = b * second /\ (S | b) /\ 0 <= b /\ b <= x < b + S.
Proof.
  intros HS Hx. pose proof (coarse_pos S HS) as Hp.
  rewrite TruncateBucket_fixed by by apply coarse_fixed.
  rewrite Z.mul_mod_distr_r by (unfold second; lia).
  exists (x - x mod S). pose proof (Z.mod_pos_bound x S Hp).
  pose proof (Z.div_mod x S ltac:(lia)). pose proof (Z.div_pos x S Hx Hp).
  split_and!; [lia|exists (x / S); lia|nia|lia|lia].
Qed.

Lemma compactTier_inv hz cfg now S w res w' :
  coarse S -> worldInv hz w -> now - cfg_Lag cfg <= hz ->
  compactTier cfg now (tierOf S) w = (res, w') -> worldInv hz w'.
Proof.
  intros HS Hi Hnow. unfold compactTier, tierStart, SpanRollupWatermark, mbind, M_bind.
  rewrite reads_eq. cbn [tierOf tier_Source tier_Step].
  destruct (hd true (w_faults w)); [|by intros [= <- <-]].
  pose proof Hi as (Hr & He & Hm).
  assert (forall fs b, startAt w S b ->
    match readyThrough cfg now (tierOf S) (setFaults fs w) with
    | (Some ready, w1) => compactLoop (tierOf S) ready (cfg_BucketsPerPass cfg) 0 0 (b * second) w1
    | (None, w1) => (None, w1)
    end = (res, w') -> worldInv hz w') as Hgo.
  { intros fs b Hst. unfold readyThrough. cbn [tierOf tier_Source].
    destruct (coarse_source S HS) as [[-> E]|[-> E]]; rewrite E; cbn -[compactLoop].
    - apply compactLoop_inv; [done|done|]. by split.
    - unfold SpanRollupWatermark, mbind, M_bind. rewrite reads_eq. cbn [setFaults w_faults w_marks].
      destruct (hd true fs); [|by intros [= <- <-]]. apply compactLoop_inv; [done|done|].
      split; [done|]. intros _. cbn. destruct (w_marks w !! Step5m) as [th|]; [right; by exists th|by left]. }
  destruct (w_marks w !! sourceOf S) as [th|] eqn:Eth; cbn [fmap option_fmap option_map].
  - destruct (Hm S th HS Eth) as (Hd & H0 & _).
    assert (TruncateBucket (th * second) S = th * second) as ->.
    { apply TruncateBucket_aligned; [by apply coarse_fixed|]. by apply Z.mul_divide_mono_r. }
    apply Hgo. split_and!; try done. by rewrite Eth.
  - rewrite reads_eq. cbn [setFaults w_faults w_rollups].
    destruct (hd true _); [|by intros [= <- <-]].
    pose proof (oldest_spec ro_StepSeconds ro_Bucket (w_rollups w) (sourceOf S)) as Ho.
    unfold OldestSpanRollupBucket. destruct (oldestTierBucket _ _ _ _) as [o|]; [|by intros [= <- <-]].
    destruct Ho as (x & -> & Hx & Hmin). cbn [fmap option_fmap option_map].
    assert (0 <= x) as Hx0.
    { destruct Hx as (k & r & Hl & _ & <-). by apply (ti_keys _ _ _ _ _ _ _ _ _ Hr k r). }
    destruct (Truncate_second x S HS Hx0) as (b & -> & Hd & Hb & Hle). apply Hgo.
    split_and!; try done. rewrite Eth. split; [|exists x; split; [lia|done]].
    intros y Hy%Hmin. lia.
Qed.
