(* ===== verification/CompactionProps.v ===== *)
(** * Properties of span rollup compaction

    Compaction passes that stop anywhere, healthy repairs and writes to open 5-minute
    buckets, in any order: coarse rows are always the exact merge of their sources, and
    buckets below the watermark are whole or absent.  A repair fills every gap it can;
    a repair that stops in the middle of a write leaves its bucket short for good. *)
From S2P Require Import Prelude Model Varint SpanHist TierStore.
From S2P Require Import Tiers SpanPlan SpanMerge Compaction CompactionInv CompleteWindow.
From S2P Require Import SpanEdges CompactionWorld.

(** ** A pass over the ladder *)

Lemma compactLadder_inv hz cfg now tiers : forall w,
  Forall (fun t => exists S, coarse S /\ t = tierOf S) tiers ->
  worldInv hz w -> now - cfg_Lag cfg <= hz ->
  worldInv hz (compactLadder cfg now tiers w).2.
Proof.
  induction tiers as [|t tiers IH]; intros w Ht Hi Hn; [done|].
  apply Forall_cons in Ht as [(S & HS & ->) Ht]. simpl. unfold mbind, M_bind.
  destruct (compactTier cfg now (tierOf S) w) as [r w1] eqn:E.
  pose proof (compactTier_inv hz cfg now S w r w1 HS Hi Hn E) as Hi1.
  destruct r as [[k rows]|]; [|done]. unfold update. apply IH; [done| |done].
  by destruct (_ <=? _)%nat.
Qed.

Lemma spanLadder_coarse : Forall (fun t => exists S, coarse S /\ t = tierOf S) spanLadder.
Proof.
  repeat constructor; [exists StepHour|exists StepDay]; (split; [|done]); [by left|by right].
Qed.

(** ** Repairs *)

(** A repaired bucket lies below the watermark. *)
Definition repairAt (w : world) (S b : Z) : Prop :=
  coarse S /\ (S | b) /\ 0 <= b /\ exists th, w_marks w !! sourceOf S = Some th /\ b + S <= th.

Lemma repairAt_mayBuild hz w S b : worldInv hz w -> repairAt w S b -> mayBuild hz w S b.
Proof.
  intros (_ & _ & Hm) (HS & Hd & Hb & th & Hth & Hle).
  destruct (Hm S th HS Hth) as (_ & _ & H5 & Hh). split_and!; try done.
  - intros ->. specialize (H5 eq_refl). unfold second in *. lia.
  - intros ->. destruct (Hh eq_refl) as (th5 & E5 & ?). exists th5. split; [done|lia].
  - by rewrite Hth.
Qed.

(** An hour that holds no rows is in no day that does. *)
Lemma empty_dayFree {T K} `{Countable K} (stepOf bucketOf : T -> Z) pk merge c5 marks hz older S b
  (t : gmap K T) :
  tableInv stepOf bucketOf pk merge c5 marks hz older t -> (S | b) ->
  ~ hasAt stepOf bucketOf t S b -> dayFree stepOf bucketOf t S b.
Proof.
  intros Hi Hd Hno -> d Hdb Ha. destruct (ti_day _ _ _ _ _ _ _ _ _ Hi d Ha) as [_ Hh].
  by apply Hno, Hh.
Qed.

(** What a healthy repair call keeps and only adds to. *)
Definition repaired (hz : Z) (w w' : world) : Prop :=
  worldInv hz w' /\ w_faults w' = [] /\ w_marks w' = w_marks w /\ w_ingested w' = w_ingested w.

(** Every key of the source rows is merged. *)
Lemma Merge_keys rows S b k : k ∈ rollupKeyOf <$> rows -> k ∈ rollupKeyOf <$> Merge rows S b.
Proof.
  intros (r & -> & Hr)%list_elem_of_fmap.
  assert (is_Some (accOf rollupKeyOf (rollupFirst S b) rollupAdd ro_Hist (rollupKeyOf r) rows)) as [a Ha].
  { unfold accOf. destruct (filter _ rows) eqn:E; [|eauto]. exfalso.
    apply (not_elem_of_nil r). rewrite <- E. by apply list_elem_of_filter. }
  assert (rollupKeyOf (setRollupHist (Hist_Encode a.2) a.1) = rollupKeyOf r) as <-.
  { apply accOf_key in Ha as (r0 & l & <- & ->). unfold rollupKeyOf, setRollupHist. simpl.
    by rewrite !foldl_keeps by done. }
  apply list_elem_of_fmap_2, mergeTier_in. eauto.
Qed.

Lemma Merge_nonempty rows S b : rows <> [] -> Merge rows S b <> [].
Proof.
  destruct rows as [|r rows]; [done|]. intros _ E.
  pose proof (Merge_keys (r :: rows) S b (rollupKeyOf r) ltac:(by left)) as Hk.
  rewrite E in Hk. by apply not_elem_of_nil in Hk.
Qed.

Lemma MergeEdges_nonempty rows S b : rows <> [] -> MergeEdges rows S b <> [].
Proof.
  destruct rows as [|e rows]; [done|]. intros _ E.
  assert (is_Some (accOf edgeKeyOf (edgeFirst S b) edgeAdd ed_Hist (edgeKeyOf e) (e :: rows))) as [a Ha].
  { unfold accOf. rewrite filter_cons_True by done. eauto. }
  apply (not_elem_of_nil (setEdgeHist (Hist_Encode a.2) a.1)). rewrite <- E. apply mergeTier_in. eauto.
Qed.

Abbreviation rollupSources := (sources ro_StepSeconds ro_Bucket).
Abbreviation edgeSources := (sources ed_StepSeconds ed_Bucket).

(** A coarse bucket that can be built: its source window is complete and holds rows. *)
Definition rollupCan (w : world) (S b : Z) : Prop :=
  rollupComplete (rollupHour w) (w_rollups w) S b /\ rollupSources (w_rollups w) S b <> [].

Definition edgeCan (w : world) (S b : Z) : Prop :=
  edgeComplete (edgeHour w) (w_edges w) S b /\ edgeSources (w_edges w) S b <> [].

Lemma repairBucket_rollups hz w S b :
  worldInv hz w -> w_faults w = [] -> repairAt w S b ->
  match repairBucket (tierOf S) rollupTable (b * second) ((b + S) * second) w with
  | (res, w') => repaired hz w w' /\ okOf res = true /\ w_edges w' = w_edges w /\
      (forall S' x, rollupHas (w_rollups w) S' x -> rollupHas (w_rollups w') S' x) /\
      (forall k r, ro_StepSeconds r <> S -> w_rollups w !! k = Some r <-> w_rollups w' !! k = Some r) /\
      (rollupCan w S b -> rollupHas (w_rollups w') S b)
  end.
Proof.
  intros Hi Hf Hat. pose proof Hat as (HS & Hd & Hb & th & Hth & Hle). pose proof Hi as (Hr & He & Hm).
  pose proof (ti_keys _ _ _ _ _ _ _ _ _ Hr) as Hk.
  destruct (rollupsComplete_iff w S b HS Hd Hk) as (ok & Ec & Hok).
  unfold repairBucket, mbind, M_bind. rewrite reads_eq, Hf. cbn [hd tl].
  cbn [rollupTable tt_count tt_complete tt_build tierOf tier_Step tier_Source].
  pose proof (count_one ro_StepSeconds ro_Bucket spanRollupPK (w_rollups w) S b Hk
    (coarse_fixed S HS) Hd) as H1. unfold CountSpanRollupBuckets.
  destruct (0 <? countTierBuckets _ _ _ S _ _) eqn:E0; to_prop.
  { split; [by split_and!|]. split_and!; try done. intros _. by apply H1. }
  rewrite attempt_eq. cbn [setFaults w_faults hd tl].
  change (rollupsComplete (setFaults [] w)) with (rollupsComplete w). rewrite Ec.
  destruct ok; cbn [negb].
  2:{ split; [by split_and!|]. split_and!; try done. intros [Hc _]. by apply Hok in Hc. }
  pose proof (compactRollupBucket_step (setFaults [] w) S b HS Hd Hk) as Hstep.
  change (setFaults [] (setFaults [] w)) with (setFaults [] w).
  change (mkTier S (sourceOf S)) with (tierOf S).
  destruct (compactRollupBucket _ _ _ _) as [res w'].
  destruct Hstep as (fs & t' & -> & Hs & Hfs). destruct (Hfs eq_refl) as [-> Er]. rewrite Er in *.
  assert (~ rollupHas (w_rollups w) S b) as Hno by (intros ?%H1; lia).
  destruct (rollup_build hz (setFaults [] w) S b true [] t') as (Hi' & _ & _ & Hup);
    [done|by apply (repairAt_mayBuild hz w)|by eapply empty_dayFree|by left|done|].
  destruct (buildStep_rows _ _ _ _ _ _ _ _ _ _ Hk Hs) as (Hrows & _ & _).
  split; [by split_and!|]. split_and!; try done. intros [Hc Hsrc].
  destruct Hs as (wr & Et & Hin & _ & Hall). cbn in Et. subst t'.
  destruct (rollupBuilt (w_rollups w) S b) as [|r l] eqn:Eb.
  { by apply (Merge_nonempty _ S b) in Hsrc. }
  assert (r ∈ rollupBuilt (w_rollups w) S b) as Hrb by (rewrite Eb; by left).
  pose proof (Hall eq_refl Hc r Hrb) as Hrw. exists (spanRollupPK r), r.
  split; [by eapply (written_lookup ro_StepSeconds ro_Bucket spanRollupPK Merge)|].
  apply (@merge_at _ _ _ _ spanRollupPK Merge rollup_laws _ _ _ _ Hrb).
Qed.

Lemma repairBucket_edges hz w S b :
  worldInv hz w -> w_faults w = [] -> repairAt w S b ->
  match repairBucket (tierOf S) edgeTable (b * second) ((b + S) * second) w with
  | (res, w') => repaired hz w w' /\ okOf res = true /\ w_rollups w' = w_rollups w /\
      (forall S' x, edgeHas (w_edges w) S' x -> edgeHas (w_edges w') S' x) /\
      (forall k r, ed_StepSeconds r <> S -> w_edges w !! k = Some r <-> w_edges w' !! k = Some r) /\
      (edgeCan w S b -> edgeHas (w_edges w') S b)
  end.
Proof.
  intros Hi Hf Hat. pose proof Hat as (HS & Hd & Hb & th & Hth & Hle). pose proof Hi as (Hr & He & Hm).
  pose proof (ti_keys _ _ _ _ _ _ _ _ _ He) as Hk.
  destruct (edgesComplete_iff w S b HS Hd Hk) as (ok & Ec & Hok).
  unfold repairBucket, mbind, M_bind. rewrite reads_eq, Hf. cbn [hd tl].
  cbn [edgeTable tt_count tt_complete tt_build tierOf tier_Step tier_Source].
  pose proof (count_one ed_StepSeconds ed_Bucket spanEdgePK (w_edges w) S b Hk
    (coarse_fixed S HS) Hd) as H1. unfold CountSpanEdgeBuckets.
  destruct (0 <? countTierBuckets _ _ _ S _ _) eqn:E0; to_prop.
  { split; [by split_and!|]. split_and!; try done. intros _. by apply H1. }
  rewrite attempt_eq. cbn [setFaults w_faults hd tl].
  change (edgesComplete (setFaults [] w)) with (edgesComplete w). rewrite Ec.
  destruct ok; cbn [negb].
  2:{ split; [by split_and!|]. split_and!; try done. intros [Hc _]. by apply Hok in Hc. }
  pose proof (compactEdgeBucket_step (setFaults [] w) S b HS Hd Hk) as Hstep.
  change (setFaults [] (setFaults [] w)) with (setFaults [] w).
  change (mkTier S (sourceOf S)) with (tierOf S).
  destruct (compactEdgeBucket _ _ _ _) as [res w'].
  destruct Hstep as (fs & t' & -> & Hs & Hfs). destruct (Hfs eq_refl) as [-> Er]. rewrite Er in *.
  assert (~ edgeHas (w_edges w) S b) as Hno by (intros ?%H1; lia).
  destruct (edge_build hz (setFaults [] w) S b true [] t') as (Hi' & _);
    [done|by apply (repairAt_mayBuild hz w)|by eapply empty_dayFree|by left|done|].
  destruct (buildStep_rows _ _ _ _ _ _ _ _ _ _ Hk Hs) as (Hrows & Hup & _).
  split; [by split_and!|]. split_and!; try done. intros [Hc Hsrc].
  destruct Hs as (wr & Et & Hin & _ & Hall). cbn in Et. subst t'.
  destruct (edgeBuilt (w_edges w) S b) as [|r l] eqn:Eb.
  { by apply (MergeEdges_nonempty _ S b) in Hsrc. }
  assert (r ∈ edgeBuilt (w_edges w) S b) as Hrb by (rewrite Eb; by left).
  pose proof (Hall eq_refl Hc r Hrb) as Hrw. exists (spanEdgePK r), r.
  split; [by eapply (written_lookup ed_StepSeconds ed_Bucket spanEdgePK MergeEdges)|].
  apply (@merge_at _ _ _ _ spanEdgePK MergeEdges edge_laws _ _ _ _ Hrb).
Qed.

Lemma repaired_refl hz w : worldInv hz w -> w_faults w = [] -> repaired hz w w.
Proof. intros. by split_and!. Qed.

Lemma repaired_trans hz w w1 w2 : repaired hz w w1 -> repaired hz w1 w2 -> repaired hz w w2.
Proof. intros (? & ? & E1 & E2) (? & ? & E3 & E4). split_and!; congruence. Qed.

(** The two tables, as the repair loop sees them. *)
Class RepairTable (tt : tierTable) : Prop := {
  rt_bucket hz w S b :
    worldInv hz w -> w_faults w = [] -> repairAt w S b ->
    match repairBucket (tierOf S) tt (b * second) ((b + S) * second) w with
    | (res, w') => repaired hz w w' /\ okOf res = true
    end;
  rt_oldest hz w s o :
    worldInv hz w -> tt_oldest tt w s = Some o -> exists x, o = x * second /\ 0 <= x;
}.

#[export] Instance rollupTable_repair : RepairTable rollupTable.
Proof.
  split.
  - intros hz w S b Hi Hf Hat. pose proof (repairBucket_rollups hz w S b Hi Hf Hat) as Hb.
    destruct (repairBucket _ _ _ _ w). by destruct Hb as (? & ? & _).
  - intros hz w s o (Hr & _ & _) Eo. pose proof (oldest_spec ro_StepSeconds ro_Bucket (w_rollups w) s) as Ho.
    cbn in Eo. unfold OldestSpanRollupBucket in Eo. rewrite Eo in Ho.
    destruct Ho as (x & -> & (k & r & Hl & _ & <-) & _). eexists. split; [done|].
    by apply (ti_keys _ _ _ _ _ _ _ _ _ Hr k r).
Qed.

#[export] Instance edgeTable_repair : RepairTable edgeTable.
Proof.
  split.
  - intros hz w S b Hi Hf Hat. pose proof (repairBucket_edges hz w S b Hi Hf Hat) as Hb.
    destruct (repairBucket _ _ _ _ w). by destruct Hb as (? & ? & _).
  - intros hz w s o (_ & Hr & _) Eo. pose proof (oldest_spec ed_StepSeconds ed_Bucket (w_edges w) s) as Ho.
    cbn in Eo. unfold OldestSpanEdgeBucket in Eo. rewrite Eo in Ho.
    destruct Ho as (x & -> & (k & r & Hl & _ & <-) & _). eexists. split; [done|].
    by apply (ti_keys _ _ _ _ _ _ _ _ _ Hr k r).
Qed.

Lemma repairLoop_inv tt `{!RepairTable tt} hz S th fuel : forall b k rows w,
  worldInv hz w -> w_faults w = [] -> coarse S -> (S | b) -> 0 <= b ->
  w_marks w !! sourceOf S = Some th ->
  match repairLoop fuel (tierOf S) tt (th * second) k rows (b * second) w with
  | (res, w') => repaired hz w w' /\ okOf res = true
  end.
Proof.
  induction fuel as [|fuel IH]; intros b k rows w Hi Hf HS Hd Hb Hth; simpl.
  { split; [by apply repaired_refl|done]. }
  pose proof (coarse_pos S HS) as Hp. rewrite NextBucket_fixed by by apply coarse_fixed.
  replace (b * second + S * second) with ((b + S) * second) by lia.
  destruct (th * second <? (b + S) * second) eqn:E; to_prop.
  { split; [by apply repaired_refl|done]. }
  unfold mbind, M_bind. rewrite reads_eq, Hf. cbn [hd tl].
  assert (repairAt (setFaults [] w) S b) as Hat.
  { split_and!; try done. exists th. split; [done|]. unfold second in *. lia. }
  pose proof (rt_bucket hz (setFaults [] w) S b Hi eq_refl Hat) as Hbk.
  destruct (repairBucket _ _ _ _ _) as [r1 w1]. destruct Hbk as [Hrep Hok].
  destruct r1 as [n|]; [|done]. destruct Hrep as (Hi1 & Hf1 & Em & Ei).
  assert ((S | b + S)) as Hd' by (apply Z.divide_add_r; [done|apply Z.divide_refl]).
  specialize (IH (b + S) (if (0 <? n)%nat then Datatypes.S k else k) (rows + n)%nat w1 Hi1 Hf1 HS Hd'
    ltac:(lia) ltac:(by rewrite Em)).
  destruct (repairLoop _ _ _ _ _ _ _ _) as [r2 w2]. destruct IH as [Hrep2 Hok2]. split; [|done].
  eapply repaired_trans; [|exact Hrep2]. by split_and!.
Qed.

(** Where a repair starts: the first bucket that begins at or after the oldest row. *)
Lemma repairStart x S : coarse S -> 0 <= x ->
  let start := TruncateBucket (x * second) S in
  exists b, (if start <? x * second then NextBucket start S else start) = b * second /\
    (S | b) /\ 0 <= b /\ x <= b /\ forall b', (S | b') -> x <= b' -> b <= b'.
Proof.
  intros HS Hx. destruct (Truncate_second x S HS Hx) as (b & -> & Hd & Hb & Hle). simpl.
  pose proof (coarse_pos S HS) as Hp.
  destruct (b * second <? x * second) eqn:E; to_prop.
  - exists (b + S). rewrite NextBucket_fixed by by apply coarse_fixed.
    split_and!; [lia|by apply Z.divide_add_r; [|apply Z.divide_refl]|lia|lia|].
    intros b' Hd' Hx'. destruct (Z.le_gt_cases (b + S) b') as [|Hlt]; [done|exfalso].
    assert (b < b') by (unfold second in *; lia).
    pose proof (aligned_between S b b' Hp Hd Hd' ltac:(lia) ltac:(lia)). lia.
  - exists b. split_and!; try done; [unfold second in *; lia|]. intros b' _ ?. unfold second in *. lia.
Qed.

Lemma repairTable_inv tt `{!RepairTable tt} hz S th w :
  worldInv hz w -> w_faults w = [] -> coarse S -> w_marks w !! sourceOf S = Some th ->
  match repairTable (tierOf S) tt (th * second) w with
  | (res, w') => repaired hz w w' /\ okOf res = true
  end.
Proof.
  intros Hi Hf HS Hth. unfold repairTable, mbind, M_bind. rewrite reads_eq, Hf. cbn [hd tl].
  cbn [tierOf tier_Source tier_Step].
  destruct (tt_oldest tt w (sourceOf S)) as [o|] eqn:Eo.
  2:{ split; [|done]. by split_and!. }
  destruct (rt_oldest hz w (sourceOf S) o Hi Eo) as (x & -> & Hx).
  destruct (repairStart x S HS Hx) as (b & -> & Hd & Hb & _ & _).
  exact (repairLoop_inv tt hz S th _ b 0 0 (setFaults [] w) Hi eq_refl HS Hd Hb Hth).
Qed.

Lemma repairTables_inv hz S th ts : forall k rows w,
  Forall RepairTable ts ->
  worldInv hz w -> w_faults w = [] -> coarse S -> w_marks w !! sourceOf S = Some th ->
  match repairTables (tierOf S) ts (th * second) k rows w with
  | (res, w') => repaired hz w w' /\ okOf res = true
  end.
Proof.
  induction ts as [|tt ts IH]; intros k rows w Hts Hi Hf HS Hth; simpl.
  { split; [by apply repaired_refl|done]. }
  apply Forall_cons in Hts as [Ht Hts]. unfold mbind, M_bind.
  pose proof (repairTable_inv tt hz S th w Hi Hf HS Hth) as H1.
  destruct (repairTable _ _ _ w) as [[[a c]|] w1]; [|by destruct H1].
  destruct H1 as [Hr1 _]. pose proof Hr1 as (Hi1 & Hf1 & Em & _).
  specialize (IH (k + a)%nat (rows + c)%nat w1 Hts Hi1 Hf1 HS ltac:(by rewrite Em)).
  destruct (repairTables _ _ _ _ _ _) as [r2 w2]. destruct IH as [Hr2 ?].
  split; [by eapply repaired_trans|done].
Qed.

Lemma repairLadder_inv hz tiers : forall w,
  Forall (fun t => exists S, coarse S /\ t = tierOf S) tiers ->
  worldInv hz w -> w_faults w = [] ->
  match repairLadder tiers w with (res, w') => repaired hz w w' /\ okOf res = true end.
Proof.
  induction tiers as [|t tiers IH]; intros w Ht Hi Hf; simpl.
  { split; [by apply repaired_refl|done]. }
  apply Forall_cons in Ht as [(S & HS & ->) Ht]. unfold repairTier, SpanRollupWatermark, mbind, M_bind.
  rewrite reads_eq, Hf. cbn [hd tl tierOf tier_Source].
  assert (worldInv hz (setFaults [] w)) as Hi0 by done.
  destruct (w_marks w !! sourceOf S) as [th|] eqn:Eth; cbn [fmap option_fmap option_map].
  2:{ by apply (IH (setFaults [] w)). }
  pose proof (repairTables_inv hz S th tables 0 0 (setFaults [] w)
    ltac:(do 2 (apply Forall_cons; split; [apply _|]); constructor) Hi0 eq_refl HS Eth) as H1.
  change (mkTier S (sourceOf S)) with (tierOf S).
  destruct (repairTables _ _ _ _ _ _) as [[[a c]|] w1]; [|by destruct H1].
  destruct H1 as [Hr1 _]. pose proof Hr1 as (Hi1 & Hf1 & _).
  specialize (IH w1 Ht Hi1 Hf1). destruct (repairLadder _ _) as [r2 w2]. destruct IH as [Hr2 ?].
  split; [by eapply repaired_trans|done].
Qed.

Lemma repairIfDue_inv hz now w :
  worldInv hz w -> w_faults w = [] -> worldInv hz (repairIfDue now w).2.
Proof.
  intros Hi Hf. assert (worldInv hz (repairLadder spanLadder (setRepaired (Some now) w)).2) as H1.
  { pose proof (repairLadder_inv hz spanLadder (setRepaired (Some now) w) spanLadder_coarse Hi Hf) as H1.
    destruct (repairLadder _ _). by destruct H1 as [(? & _) _]. }
  unfold repairIfDue. destruct (w_repaired w); [|done]. by destruct (_ <? _).
Qed.

(** ** Flushes into open buckets *)

(** A row of an open 5-minute bucket. *)
Definition openRow {T} (stepOf bucketOf : T -> Z) (hz : Z) (r : T) : Prop :=
  stepOf r = Step5m /\ (Step5m | bucketOf r) /\ 0 <= bucketOf r /\ hz <= bucketOf r * second.

Section Flushes.
Context {T K : Type} `{Countable K}.
Context (stepOf bucketOf : T -> Z) (pk : T -> K) (onConflict : T -> T -> T).
Context (pk_steps : forall r r', pk r = pk r' -> stepOf r = stepOf r' /\ bucketOf r = bucketOf r').
Context (conflict_pk : forall old new, pk (onConflict old new) = pk old).

Lemma upsertAll_frame hz rows : forall t : gmap K T,
  keysOk stepOf bucketOf pk t -> Forall (openRow stepOf bucketOf hz) rows ->
  let t' := foldl (upsert pk onConflict) t rows in
  keysOk stepOf bucketOf pk t' /\
  (forall k r, stepOf r <> Step5m \/ bucketOf r * second < hz -> t !! k = Some r <-> t' !! k = Some r) /\
  (forall s b, hasAt stepOf bucketOf t s b -> hasAt stepOf bucketOf t' s b).
Proof.
  induction rows as [|row rows IH]; intros t Hk Hrows; simpl; [done|].
  apply Forall_cons in Hrows as [(H1 & H2 & H3 & H4) Hrows].
  set (x := from_option (fun old => onConflict old row) row (t !! pk row)).
  assert (upsert pk onConflict t row = <[pk row := x]> t) as ->
    by (unfold upsert, x; by destruct (t !! pk row)).
  assert (pk x = pk row) as Ex.
  { unfold x. destruct (t !! pk row) as [old|] eqn:E; simpl; [|done].
    rewrite conflict_pk. by apply Hk in E as [? _]. }
  destruct (pk_steps _ _ Ex) as [Es Eb].
  assert (keysOk stepOf bucketOf pk (<[pk row := x]> t)) as Hk'.
  { intros k r Hl. rewrite lookup_insert in Hl. case_decide; [|by apply Hk]. injection Hl as <-.
    rewrite Es, Eb, H1. split_and!; try done; [congruence|]. unfold fixedStep. auto. }
  destruct (IH _ Hk' Hrows) as (I1 & I2 & I3). split_and!; [done| |].
  - intros k r Hc. rewrite <- I2 by done. rewrite lookup_insert. case_decide as Ek; [|done].
    split; intros Hl.
    + apply Hk in Hl as [E _]. rewrite <- Ek in E. destruct (pk_steps _ _ E) as [E1 E2].
      rewrite E1, E2 in Hc. destruct Hc; [done|lia].
    + injection Hl as <-. rewrite Es, Eb in Hc. destruct Hc; [done|lia].
  - intros s b (k & r & Hl & <- & <-). apply I3.
    destruct (decide (k = pk row)) as [->|Hne].
    + exists (pk row), x. rewrite lookup_insert_eq. split; [done|].
      apply Hk in Hl as [E _]. destruct (pk_steps _ _ E). split; congruence.
    + exists k, r. by rewrite lookup_insert_ne.
Qed.
End Flushes.

(** ** Runs *)

(** The states the compactor and the flushes reach.  [hz] is how far compaction may
    have got: the latest [now - Lag] a pass used.  Passes may fail at any call; a
    flush may stop at any chunk; retention may delete raw spans; repairs are healthy. *)
Inductive reach (cfg : Config) : Z -> world -> Prop :=
| reach_init hz w :
    (forall k r, w_rollups w !! k = Some r -> spanRollupPK r = k /\ openRow ro_StepSeconds ro_Bucket hz r) ->
    (forall k r, w_edges w !! k = Some r -> spanEdgePK r = k /\ openRow ed_StepSeconds ed_Bucket hz r) ->
    w_marks w = ∅ -> reach cfg hz w
| reach_pass hz w now fs :
    reach cfg hz w ->
    reach cfg (Z.max hz (now - cfg_Lag cfg)) (compactLadder cfg now spanLadder (setFaults fs w)).2
| reach_repair hz w now :
    reach cfg hz w -> reach cfg hz (repairIfDue now (setFaults [] w)).2
| reach_rollups hz w oks rows :
    reach cfg hz w -> Forall (openRow ro_StepSeconds ro_Bucket hz) rows ->
    reach cfg hz (setRollups (AddSpanRollups oks rows (w_rollups w)).2 w)
| reach_edges hz w oks rows :
    reach cfg hz w -> Forall (openRow ed_StepSeconds ed_Bucket hz) rows ->
    reach cfg hz (setEdges (AddSpanEdges oks rows (w_edges w)).2 w)
| reach_ingest hz w t :
    reach cfg hz w -> hz <= t ->
    reach cfg hz (mkWorld (w_rollups w) (w_edges w) (w_marks w) (t :: w_ingested w) (w_busy w)
                    (w_repaired w) (w_faults w))
| reach_retention hz w kept :
    reach cfg hz w -> kept ⊆ w_ingested w ->
    reach cfg hz (mkWorld (w_rollups w) (w_edges w) (w_marks w) kept (w_busy w)
                    (w_repaired w) (w_faults w)).

Lemma open_tableInv {T K} `{Countable K} (stepOf bucketOf : T -> Z) (pk : T -> K) merge c5 hz hz' older
  (t : gmap K T) :
  (forall k r, t !! k = Some r -> pk r = k /\ openRow stepOf bucketOf hz r) ->
  tableInv stepOf bucketOf pk merge c5 ∅ hz' older t.
Proof.
  intros Ho.
  assert (forall S b, coarse S -> ~ hasAt stepOf bucketOf t S b) as Hno.
  { intros S b HS (k & r & (_ & E & _)%Ho & <- & _). rewrite E in HS. by destruct HS. }
  constructor.
  - intros k r (E & Es & ? & ? & _)%Ho. rewrite Es. split_and!; try done. unfold fixedStep. auto.
  - intros k r Hl HS. exfalso. by apply (Hno _ (bucketOf r) HS); exists k, r.
  - intros b Ha. exfalso. by eapply Hno; [|exact Ha]; left.
  - intros b Ha. exfalso. by eapply Hno; [|exact Ha]; right.
  - intros S b HS _ Ha. by apply Hno in Ha.
  - intros S b th HS Hm. by rewrite lookup_empty in Hm.
Qed.

(** A window that is complete stays so when raw spans are deleted. *)
Lemma complete_fewer {T K} `{Countable K} (stepOf bucketOf : T -> Z) (pk : T -> K) (t : gmap K T)
  (arr arr' : Z -> Z -> bool) b :
  keysOk stepOf bucketOf pk t -> (Step5m | b) -> (forall f u, arr' f u = true -> arr f u = true) ->
  let cnt := fun s f u => Some (countTierBuckets stepOf bucketOf t s f u) in
  windowComplete cnt (Some (fun f u => Some (arr f u))) Step5m (b * second) ((b + StepHour) * second)
    = Some true ->
  windowComplete cnt (Some (fun f u => Some (arr' f u))) Step5m (b * second) ((b + StepHour) * second)
    = Some true.
Proof.
  intros Hk Hb Harr cnt. change (b + StepHour) with (b + Z.of_nat 12 * Step5m).
  assert (fixedStep Step5m) as Hs by (unfold fixedStep; auto).
  destruct (windowComplete_spec stepOf bucketOf pk t arr Hk Step5m 12 b Hs Hb) as (ok & E & Hok).
  destruct (windowComplete_spec stepOf bucketOf pk t arr' Hk Step5m 12 b Hs Hb) as (ok' & E' & Hok').
  unfold cnt. rewrite E, E'. intros [= Et]. f_equal. apply Hok'. apply Hok in Et.
  destruct Et as [?|(? & ? & Hx)]; [by left|right]. split_and!; try done. intros x Hin.
  destruct (Hx x Hin) as [?|Hf]; [by left|right].
  destruct (arr' _ _) eqn:Ea; [|done]. apply Harr in Ea. congruence.
Qed.

Lemma ingested_fewer kept l f u :
  kept ⊆ l -> SpansIngestedBetween kept f u = true -> SpansIngestedBetween l f u = true.
Proof.
  intros Hsub. unfold SpansIngestedBetween. rewrite !existsb_exists.
  intros (t & Ht & E). exists t. split; [|done]. apply list_elem_of_In, Hsub. by apply list_elem_of_In.
Qed.

Lemma retention_inv hz w kept :
  worldInv hz w -> kept ⊆ w_ingested w ->
  worldInv hz (mkWorld (w_rollups w) (w_edges w) (w_marks w) kept (w_busy w) (w_repaired w) (w_faults w)).
Proof.
  intros (Hr & He & Hm) Hsub. set (w' := mkWorld _ _ _ kept _ _ _).
  assert (forall b, (StepHour | b) -> (Step5m | b)) as H5
    by (intros b Hb; eapply Z.divide_trans; [|exact Hb]; by exists 12).
  assert (forall b, rollupHas (w_rollups w) StepHour b -> rollupHour w' b) as Cr.
  { intros b Ha. destruct (ti_hour _ _ _ _ _ _ _ _ _ Hr b Ha) as [Hc _].
    eapply (complete_fewer ro_StepSeconds ro_Bucket spanRollupPK); [by eapply ti_keys| | |exact Hc].
    - apply H5. destruct Ha as (k & r & Hl & <- & <-). by apply (ti_keys _ _ _ _ _ _ _ _ _ Hr k r).
    - intros f u. by apply ingested_fewer. }
  assert (forall b, edgeHas (w_edges w) StepHour b -> edgeHour w' b) as Ce.
  { intros b Ha. destruct (ti_hour _ _ _ _ _ _ _ _ _ He b Ha) as [Hc _].
    eapply (complete_fewer ed_StepSeconds ed_Bucket spanEdgePK); [by eapply ti_keys| | |exact Hc].
    - apply H5. destruct Ha as (k & r & Hl & <- & <-). by apply (ti_keys _ _ _ _ _ _ _ _ _ He k r).
    - intros f u. unfold Arrivals. rewrite !orb_true_iff. intros [?|Hi]; [by left|right].
      by eapply ingested_fewer. }
  split_and!; [| |done].
  - destruct Hr as [R1 R2 R3 R4 R5 R6]. constructor; try done. intros b Ha. split; [by apply Cr|].
    by apply R3.
  - destruct He as [R1 R2 R3 R4 R5 R6]. constructor; try done. intros b Ha. split; [by apply Ce|].
    by apply R3.
Qed.

Lemma init_inv hz w :
  (forall k r, w_rollups w !! k = Some r -> spanRollupPK r = k /\ openRow ro_StepSeconds ro_Bucket hz r) ->
  (forall k r, w_edges w !! k = Some r -> spanEdgePK r = k /\ openRow ed_StepSeconds ed_Bucket hz r) ->
  w_marks w = ∅ -> worldInv hz w.
Proof.
  intros Hr He Hm. unfold worldInv. rewrite Hm. split_and!; [by eapply open_tableInv..|].
  intros S th _ E. by rewrite lookup_empty in E.
Qed.

Lemma pass_inv hz cfg now fs w :
  worldInv hz w ->
  worldInv (Z.max hz (now - cfg_Lag cfg)) (compactLadder cfg now spanLadder (setFaults fs w)).2.
Proof.
  intros Hi. apply compactLadder_inv; [apply spanLadder_coarse| |lia]. pose proof Hi as (Hr & He & _).
  apply (worldInv_frame hz _ w); try done; [lia|by eapply ti_keys..].
Qed.

Lemma flushRollups_world hz oks rows w :
  worldInv hz w -> Forall (openRow ro_StepSeconds ro_Bucket hz) rows ->
  worldInv hz (setRollups (AddSpanRollups oks rows (w_rollups w)).2 w).
Proof.
  intros Hi Hrows. pose proof Hi as (Hr & He & _).
  destruct (AddSpanRollups oks rows (w_rollups w)) as [e t'] eqn:E.
  apply tw_split in E as (written & Hp & ->). cbn [snd].
  destruct (upsertAll_frame ro_StepSeconds ro_Bucket spanRollupPK spanRollupAddSQL
    ltac:(intros r r' Er; by injection Er) ltac:(done) hz written (w_rollups w)
    (ti_keys _ _ _ _ _ _ _ _ _ Hr)) as (K1 & K2 & K3).
  { rewrite Hp in Hrows. by apply Forall_app in Hrows as [? _]. }
  apply (worldInv_frame hz _ w); try done; [split_and!; cbn; auto|by eapply ti_keys|cbn; auto].
Qed.

Lemma flushEdges_world hz oks rows w :
  worldInv hz w -> Forall (openRow ed_StepSeconds ed_Bucket hz) rows ->
  worldInv hz (setEdges (AddSpanEdges oks rows (w_edges w)).2 w).
Proof.
  intros Hi Hrows. pose proof Hi as (Hr & He & _).
  destruct (AddSpanEdges oks rows (w_edges w)) as [e t'] eqn:E.
  apply tw_split in E as (written & Hp & ->). cbn [snd].
  destruct (upsertAll_frame ed_StepSeconds ed_Bucket spanEdgePK spanEdgeAddSQL
    ltac:(intros r r' Er; by injection Er) ltac:(done) hz written (w_edges w)
    (ti_keys _ _ _ _ _ _ _ _ _ He)) as (K1 & K2 & K3).
  { rewrite Hp in Hrows. by apply Forall_app in Hrows as [? _]. }
  apply (worldInv_frame hz _ w); try done; [split_and!; cbn; auto|by eapply ti_keys|cbn; auto].
Qed.

Lemma ingest_inv hz t w :
  worldInv hz w -> hz <= t ->
  worldInv hz (mkWorld (w_rollups w) (w_edges w) (w_marks w) (t :: w_ingested w) (w_busy w)
                 (w_repaired w) (w_faults w)).
Proof.
  intros Hi Ht. pose proof Hi as (Hr & He & _).
  apply (worldInv_frame hz _ w); try done; [|by eapply ti_keys..].
  split_and!; try done. intros f u Hu. cbn.
  assert ((t <? Unix u * second) = false) as ->; [|by rewrite andb_false_r].
  apply Z.ltb_ge. unfold Unix. pose proof (Z.mul_div_le u second ltac:(done)). lia.
Qed.

Lemma reach_inv cfg hz w : reach cfg hz w -> worldInv hz w.
Proof.
  induction 1; auto using init_inv, pass_inv, repairIfDue_inv, flushRollups_world, flushEdges_world,
    ingest_inv, retention_inv.
Qed.

(** ** Healthy passes *)

Lemma compactBucket_healthy w S b :
  coarse S -> (S | b) -> rollupKeys (w_rollups w) -> edgeKeys (w_edges w) -> w_faults w = [] ->
  exists n w', compactBucket (tierOf S) (b * second) ((b + S) * second) w = (Some n, w') /\
    w_faults w' = [].
Proof.
  intros HS Hd Hr He Hf. unfold compactBucket, mbind, M_bind.
  pose proof (compactRollupBucket_step w S b HS Hd Hr) as H1.
  destruct (compactRollupBucket _ _ _ w) as [r1 w1]. destruct H1 as (fs1 & t1 & -> & _ & H1).
  destruct (H1 Hf) as [-> E1]. destruct r1 as [n|]; [|done].
  pose proof (compactEdgeBucket_step (setFaults [] (setRollups t1 w)) S b HS Hd He) as H2.
  destruct (compactEdgeBucket _ _ _ _) as [r2 w2]. destruct H2 as (fs2 & t2 & -> & _ & H2).
  destruct (H2 eq_refl) as [-> E2]. destruct r2 as [m|]; [|done]. by eexists _, _.
Qed.

(** Without failures the loop stops at its budget or at the first bucket that is not ready. *)
Lemma compactLoop_healthy hz S ready n : forall b k rows w,
  worldInv hz w -> startAt w S b -> readyAt hz w S ready -> w_faults w = [] ->
  exists done rows' w', compactLoop (tierOf S) ready n k rows (b * second) w = (Some (k + done, rows')%nat, w') /\
    (done <= n)%nat /\ w_faults w' = [] /\
    ((done < n)%nat -> ready < (b + (Z.of_nat done + 1) * S) * second) /\
    ((0 < done)%nat -> (b + Z.of_nat done * S) * second <= ready) /\
    w_marks w' = match done with
                 | O => w_marks w
                 | _ => <[sourceOf S := b + Z.of_nat done * S]> (w_marks w)
                 end.
Proof.
  induction n as [|n IH]; intros b k rows w Hi Hst Hr Hf; simpl.
  { exists 0%nat, rows, w. rewrite Nat.add_0_r. split_and!; try done; lia. }
  pose proof Hst as (HS & Hd & _). pose proof Hi as (Hir & Hie & _).
  unfold mbind, M_bind. rewrite reads_eq, Hf. cbn [hd tl].
  rewrite NextBucket_fixed by by apply coarse_fixed.
  replace (b * second + S * second) with ((b + S) * second) by lia.
  destruct (ready <? (b + S) * second) eqn:E; to_prop.
  { exists 0%nat, rows. eexists. rewrite Nat.add_0_r. split_and!; try done; [lia| |lia].
    intros _. replace (b + (Z.of_nat 0 + 1) * S) with (b + S) by lia. done. }
  set (w0 := setFaults [] w). assert (worldInv hz w0) as Hi0 by done.
  pose proof (ready_mayBuild hz w0 S b ready Hst Hr E) as Hmay.
  destruct (compactBucket_healthy w0 S b HS Hd (ti_keys _ _ _ _ _ _ _ _ _ Hir)
    (ti_keys _ _ _ _ _ _ _ _ _ Hie) eq_refl) as (j & w1 & E1 & Hf1).
  destruct (compactBucket_inv hz w0 S b _ w1 Hi0 Hst Hmay E1) as (Hi1 & Em1 & Hst1 & Hw1).
  rewrite E1. destruct (Hw1 eq_refl) as [Hwr Hwe].
  assert (readyAt hz w1 S ready) as Hr1 by (destruct Hr; split; [done|by rewrite Em1]).
  pose proof (ready_mayBuild hz w1 S b ready Hst1 Hr1 E) as Hmay1.
  destruct (SetSpanRollupWatermark _ _ w1) as [r2 w2] eqn:E2.
  destruct (SetSpanRollupWatermark_inv hz w1 S b r2 w2 Hi1 Hst1 Hmay1 Hwr Hwe E2) as (Hi2 & Hst2).
  unfold SetSpanRollupWatermark, mbind, M_bind in E2. rewrite reads_eq, Hf1 in E2. cbn [hd tl] in E2.
  injection E2 as <- <-. destruct (Hst2 eq_refl) as [Hst3 Em2]. clear Hst2.
  set (w2 := setMarks _ _) in *.
  destruct (IH (b + S) (Datatypes.S k) (rows + j)%nat w2 Hi2 Hst3) as
    (dn & rows' & w' & El & Hle & Hf' & Hlt & Hle' & Hmk);
    [|done|].
  { destruct Hr1 as [R1 R2]. split; [done|]. intros ->. rewrite Em2.
    rewrite lookup_insert_ne by done. by apply R2. }
  exists (Datatypes.S dn), rows', w'. rewrite El.
  replace (k + Datatypes.S dn)%nat with (Datatypes.S k + dn)%nat by lia.
  replace (b + (Z.of_nat (Datatypes.S dn) + 1) * S) with (b + S + (Z.of_nat dn + 1) * S) by lia.
  replace (b + Z.of_nat (Datatypes.S dn) * S) with (b + S + Z.of_nat dn * S) by lia.
  split_and!; [done|lia|done| | |].
  - intros Hd'. apply Hlt. lia.
  - intros _. destruct dn as [|dn]; [rewrite Z.add_0_r; lia|]. apply Hle'. lia.
  - rewrite Hmk, Em2, Em1. destruct dn; [by rewrite Z.add_0_r|]. by rewrite insert_insert_eq.
Qed.

(** ** Repair fills what it can *)

(** What the repair loop needs of a table to fill its gaps: the buckets it holds and the
    ones it can build. *)
Class FillTable (tt : tierTable) (has can : world -> Z -> Z -> Prop) : Prop := {
  ft_repair :: RepairTable tt;
  ft_bucket hz w S b :
    worldInv hz w -> w_faults w = [] -> repairAt w S b ->
    match repairBucket (tierOf S) tt (b * second) ((b + S) * second) w with
    | (res, w') => (forall S' x, has w S' x -> has w' S' x) /\ (can w S b -> has w' S b) /\
        (forall x, repairAt w S x -> can w S x -> can w' S x)
    end;
  ft_frame w fs S b : (has (setFaults fs w) S b <-> has w S b) /\ (can (setFaults fs w) S b <-> can w S b);
}.

#[export] Instance rollupTable_fills : FillTable rollupTable (fun w => rollupHas (w_rollups w)) rollupCan.
Proof.
  split; [apply _| |done]. intros hz w S b Hi Hf Hat. pose proof (repairBucket_rollups hz w S b Hi Hf Hat) as Hbk.
  destruct (repairBucket _ _ _ _ w) as [res w']. destruct Hbk as ((_ & _ & _ & Ei) & _ & Ee & Hup & Hrows & Hfill).
  split; [done|]. split; [done|]. intros x Hax [Hc Hs]. pose proof Hax as (HS & _). pose proof (sourceOf_ne S HS) as [Hne5 Hne]. split.
  - unfold completeAt in *. case_decide as ES; [|intros h ? ?; by apply Hup, Hc]. subst S.
    destruct (repairAt_mayBuild hz w StepHour x Hi Hax) as (_ & _ & _ & Hhz & _).
    apply (rollupHour_frame hz w); [|by apply Hhz|done].
    split_and!; [intros k' r' Es _; apply Hrows; by rewrite Es|by rewrite Ee|by rewrite Ei].
  - rewrite <- (sources_ext _ _ (w_rollups w)); [done|]. intros k' r' Es _. apply Hrows. congruence.
Qed.

#[export] Instance edgeTable_fills : FillTable edgeTable (fun w => edgeHas (w_edges w)) edgeCan.
Proof.
  split; [apply _| |done]. intros hz w S b Hi Hf Hat. pose proof (repairBucket_edges hz w S b Hi Hf Hat) as Hbk.
  destruct (repairBucket _ _ _ _ w) as [res w']. destruct Hbk as ((_ & _ & _ & Ei) & _ & Ee & Hup & Hrows & Hfill).
  split; [done|]. split; [done|]. intros x Hax [Hc Hs]. pose proof Hax as (HS & _). pose proof (sourceOf_ne S HS) as [Hne5 Hne]. split.
  - unfold completeAt in *. case_decide as ES; [|intros h ? ?; by apply Hup, Hc]. subst S.
    destruct (repairAt_mayBuild hz w StepHour x Hi Hax) as (_ & _ & _ & Hhz & _).
    apply (edgeHour_frame hz w); [|by apply Hhz|done].
    split_and!; [by rewrite Ee|intros k' r' Es _; apply Hrows; by rewrite Es|by rewrite Ei].
  - rewrite <- (sources_ext _ _ (w_edges w)); [done|]. intros k' r' Es _. apply Hrows. congruence.
Qed.

Lemma repairLoop_fills tt has can `{!FillTable tt has can} hz S th fuel : forall b k rows w,
  worldInv hz w -> w_faults w = [] -> coarse S -> (S | b) -> 0 <= b ->
  w_marks w !! sourceOf S = Some th -> (bucketFuel (b * second) (th * second) <= fuel)%nat ->
  let w' := (repairLoop fuel (tierOf S) tt (th * second) k rows (b * second) w).2 in
  (forall S' x, has w S' x -> has w' S' x) /\
  (forall x, (S | x) -> b <= x -> x + S <= th -> can w S x -> has w' S x).
Proof.
  induction fuel as [|fuel IH]; intros b k rows w Hi Hf HS Hd Hb Hth Hfuel;
    pose proof (coarse_pos S HS) as Hp; simpl.
  { split; [done|]. intros x _ Hx Hxth. exfalso.
    pose proof (bucketFuel_pos _ _ _ Hfuel ltac:(unfold second; lia)). lia. }
  rewrite NextBucket_fixed by by apply coarse_fixed.
  replace (b * second + S * second) with ((b + S) * second) by lia.
  destruct (th * second <? (b + S) * second) eqn:E; to_prop.
  { split; [done|]. intros x _ ? ?. unfold second in *. lia. }
  assert (b + S <= th) as Hle by (unfold second in *; lia).
  unfold mbind, M_bind. rewrite reads_eq, Hf. cbn [hd tl].
  set (w0 := setFaults [] w). assert (worldInv hz w0) as Hi0 by done.
  assert (forall x, (S | x) -> b <= x -> x + S <= th -> repairAt w0 S x) as Hat
    by (intros x ? ? ?; split_and!; [done|done|lia|by exists th]).
  pose proof (rt_bucket (tt := tt) hz w0 S b Hi0 eq_refl (Hat b Hd ltac:(lia) Hle)) as Hrep.
  pose proof (ft_bucket (tt := tt) (has := has) (can := can) hz w0 S b Hi0 eq_refl (Hat b Hd ltac:(lia) Hle)) as Hbk.
  destruct (repairBucket _ _ _ _ w0) as [r1 w1].
  destruct Hrep as ((Hi1 & Hf1 & Em & Ei) & Hok), Hbk as (Hup & Hfill & Hcan). destruct r1 as [n|]; [|done].
  assert ((S | b + S)) as Hd' by (apply Z.divide_add_r; [done|apply Z.divide_refl]).
  destruct (IH (b + S) (if (0 <? n)%nat then Datatypes.S k else k) (rows + n)%nat w1 Hi1 Hf1 HS Hd'
    ltac:(lia) ltac:(by rewrite Em)) as [Hup2 Hfill2].
  { eapply bucketFuel_step; [exact Hfuel|unfold second; lia|unfold second; nia]. }
  assert (forall S' x, (has w S' x -> has w0 S' x) /\ (can w S' x -> can w0 S' x)) as Hfr
    by (intros S' x; destruct (ft_frame (tt := tt) (has := has) (can := can) w [] S' x) as [[_ H1] [_ H2]]; by split).
  split; [by intros; apply Hup2, Hup, Hfr|]. intros x Hdx Hbx Hxth Hc%(Hfr S x).
  destruct (Z.le_gt_cases (b + S) x) as [Hge|Hlt]; [apply Hfill2; [done|done|done|]; apply Hcan; [by apply Hat|done]|].
  assert (x = b) as -> by (apply (aligned_between S x b Hp Hdx Hd); lia). apply Hup2, Hfill, Hc.
Qed.

Lemma repairTable_fills tt has can `{!FillTable tt has can} hz w S th b x0 :
  worldInv hz w -> coarse S -> w_marks w !! sourceOf S = Some th ->
  tt_oldest tt w (sourceOf S) = Some (x0 * second) -> (forall fs, tt_oldest tt (setFaults fs w) = tt_oldest tt w) ->
  (S | b) -> x0 <= b -> b + S <= th -> can w S b ->
  has (repairTable (tierOf S) tt (th * second) (setFaults [] w)).2 S b.
Proof.
  intros Hi HS Hth Ho Hold Hd Hx Hle Hc. unfold repairTable, mbind, M_bind. rewrite reads_eq. cbn [setFaults w_faults hd tl].
  cbn [tierOf tier_Source tier_Step]. rewrite Hold, Ho.
  destruct (rt_oldest (tt := tt) hz w (sourceOf S) (x0 * second) Hi Ho) as (x & Ex & Hx0).
  assert (x0 = x) as -> by (unfold second in *; lia).
  destruct (repairStart x S HS Hx0) as (b0 & -> & Hd0 & Hb0 & _ & Hmin).
  eapply (repairLoop_fills tt has can hz S th _ b0 0 0 (setFaults [] w)); try done; [by apply Hmin|by apply (ft_frame (tt := tt) (has := has) (can := can))].
Qed.

(** ** Properties *)

(** C6: compaction counts every span once.  In every state that passes stopping at any
    database call, healthy repairs, flushes into open 5-minute buckets and retention of
    raw spans reach, in any order, each hourly and daily row is exactly one of the rows that merging its source
    window gives, and each coarse bucket below the watermark of its source tier is
    absent or holds all of them, in both tables. *)
Theorem compaction_exact cfg hz w S b :
  reach cfg hz w -> coarse S ->
  (forall k r, w_rollups w !! k = Some r -> ro_StepSeconds r = S -> ro_Bucket r = b ->
    r ∈ Merge (SpanRollupWindow (w_rollups w) (sourceOf S) (b * second) ((b + S) * second)) S b) /\
  (forall k e, w_edges w !! k = Some e -> ed_StepSeconds e = S -> ed_Bucket e = b ->
    e ∈ MergeEdges (SpanEdgeWindow (w_edges w) (sourceOf S) (b * second) ((b + S) * second)) S b) /\
  (forall th, w_marks w !! sourceOf S = Some th -> b + S <= th ->
    (rollupHas (w_rollups w) S b -> forall r,
      r ∈ Merge (SpanRollupWindow (w_rollups w) (sourceOf S) (b * second) ((b + S) * second)) S b ->
      w_rollups w !! spanRollupPK r = Some r) /\
    (edgeHas (w_edges w) S b -> forall e,
      e ∈ MergeEdges (SpanEdgeWindow (w_edges w) (sourceOf S) (b * second) ((b + S) * second)) S b ->
      w_edges w !! spanEdgePK e = Some e)).
Proof.
  intros (Hr & He & _)%reach_inv HS. split_and!.
  - intros k r Hl <- <-. exact (ti_built _ _ _ _ _ _ _ _ _ Hr k r Hl HS).
  - intros k e Hl <- <-. exact (ti_built _ _ _ _ _ _ _ _ _ He k e Hl HS).
  - intros th Hth Hle. split; intros Ha.
    + exact (ti_whole _ _ _ _ _ _ _ _ _ Hr S b th HS Hth Hle Ha).
    + exact (ti_whole _ _ _ _ _ _ _ _ _ He S b th HS Hth Hle Ha).
Qed.

(** A healthy pass makes progress: from a reachable state a tier whose calls all
    succeed moves its watermark by whole buckets as far as its source is ready, and
    stops short of that only when it has used its budget of buckets. *)
Theorem pass_progress cfg hz w now S th ready :
  reach cfg hz w -> coarse S -> w_marks w !! sourceOf S = Some th ->
  readyThrough cfg now (tierOf S) (setFaults [] w) = (Some ready, setFaults [] w) ->
  exists n rows w', compactTier cfg now (tierOf S) (setFaults [] w) = (Some (n, rows), w') /\
    w_marks w' !! sourceOf S = Some (th + Z.of_nat n * S) /\
    (n <= cfg_BucketsPerPass cfg)%nat /\
    ((n < cfg_BucketsPerPass cfg)%nat -> ready < (th + (Z.of_nat n + 1) * S) * second) /\
    ((0 < n)%nat -> (th + Z.of_nat n * S) * second <= ready).
Proof.
  intros Hreach%reach_inv HS Hth Er.
  set (hz' := Z.max hz (now - cfg_Lag cfg)).
  assert (worldInv hz' (setFaults [] w)) as Hi.
  { pose proof Hreach as (Hr & He & _).
    apply (worldInv_frame hz hz' w); try done; [unfold hz'; lia|by eapply ti_keys..]. }
  pose proof Hi as (_ & _ & Hm). destruct (Hm S th HS Hth) as (Hd & H0 & _).
  assert (startAt (setFaults [] w) S th) as Hst by (split_and!; try done; cbn; by rewrite Hth).
  assert (readyAt hz' (setFaults [] w) S ready) as Hra.
  { unfold readyThrough in Er. cbn [tierOf tier_Source] in Er.
    destruct (coarse_source S HS) as [[-> E]|[-> E]]; rewrite E in Er; split; try done.
    - intros _. cbn in Er. injection Er as <-. unfold hz'. lia.
    - intros _. cbn in Er. injection Er as <-. cbn.
      destruct (w_marks w !! Step5m) as [th5|]; [right; by exists th5|by left]. }
  destruct (compactLoop_healthy hz' S ready (cfg_BucketsPerPass cfg) th 0 0 _ Hi Hst Hra eq_refl)
    as (n & rows & w' & El & Hle & _ & Hlt & Hge & Hmk).
  exists n, rows, w'. split.
  { assert (tierStart (tierOf S) (setFaults [] w) = (Some (Some (th * second)), setFaults [] w)) as Est.
    { unfold tierStart, SpanRollupWatermark, mbind, M_bind. rewrite reads_eq.
      cbn [setFaults w_faults hd tl w_marks tierOf tier_Source tier_Step]. rewrite Hth.
      cbn [fmap option_fmap option_map].
      assert (TruncateBucket (th * second) S = th * second) as ->; [|done].
      apply TruncateBucket_aligned; [by apply coarse_fixed|]. by apply Z.mul_divide_mono_r. }
    unfold compactTier, mbind, M_bind. rewrite Est, Er. exact El. }
  split_and!; try done. rewrite Hmk. destruct n; [|by rewrite lookup_insert_eq].
  cbn. by rewrite Hth, Z.add_0_r.
Qed.

(** C33: a healthy repair closes every gap it can, in both tables.  In every state that
    passes stopping at any call, healthy repairs, flushes into open buckets and deletions
    of raw spans reach: an hour or day below the watermark whose source window passes the
    completeness check and holds rows, and that starts no earlier than the oldest source
    bucket of its table, holds all its merged rows after the repair of the table, whether
    it was left out before or not. *)
Theorem repair_fills cfg hz w S th b x0 :
  reach cfg hz w -> coarse S -> w_marks w !! sourceOf S = Some th -> (S | b) -> x0 <= b -> b + S <= th ->
  (OldestSpanRollupBucket (w_rollups w) (sourceOf S) = Some (x0 * second) ->
   rollupsComplete w (sourceOf S) (b * second) ((b + S) * second) = Some true ->
   SpanRollupWindow (w_rollups w) (sourceOf S) (b * second) ((b + S) * second) <> [] ->
   let w' := (repairTable (tierOf S) rollupTable (th * second) (setFaults [] w)).2 in
   rollupHas (w_rollups w') S b /\ rollupWhole (w_rollups w') S b) /\
  (OldestSpanEdgeBucket (w_edges w) (sourceOf S) = Some (x0 * second) ->
   edgesComplete w (sourceOf S) (b * second) ((b + S) * second) = Some true ->
   SpanEdgeWindow (w_edges w) (sourceOf S) (b * second) ((b + S) * second) <> [] ->
   let w' := (repairTable (tierOf S) edgeTable (th * second) (setFaults [] w)).2 in
   edgeHas (w_edges w') S b /\ edgeWhole (w_edges w') S b).
Proof.
  intros Hi%reach_inv HS Hth Hd Hx Hle. pose proof Hi as (Hr & He & _).
  split; intros Ho Hc Hsrc; cbv zeta.
  - assert (rollupCan w S b) as Hcan.
    { split; [|done]. destruct (rollupsComplete_iff w S b HS Hd (ti_keys _ _ _ _ _ _ _ _ _ Hr)) as (ok & E & Hok). apply Hok. congruence. }
    pose proof (repairTable_fills rollupTable _ _ hz w S th b x0 Hi HS Hth Ho ltac:(done) Hd Hx Hle Hcan) as Ha. split; [done|].
    pose proof (repairTable_inv rollupTable hz S th (setFaults [] w) Hi eq_refl HS Hth) as Hrep.
    destruct (repairTable _ _ _ _) as [res w1]. destruct Hrep as [((Hr1 & _) & _ & Em & _) _].
    eapply ti_whole; [exact Hr1|done|by rewrite Em|done|done].
  - assert (edgeCan w S b) as Hcan.
    { split; [|done]. destruct (edgesComplete_iff w S b HS Hd (ti_keys _ _ _ _ _ _ _ _ _ He)) as (ok & E & Hok). apply Hok. congruence. }
    pose proof (repairTable_fills edgeTable _ _ hz w S th b x0 Hi HS Hth Ho ltac:(done) Hd Hx Hle Hcan) as Ha. split; [done|].
    pose proof (repairTable_inv edgeTable hz S th (setFaults [] w) Hi eq_refl HS Hth) as Hrep.
    destruct (repairTable _ _ _ _) as [res w1]. destruct Hrep as [((_ & He1 & _) & _ & Em & _) _].
    eapply ti_whole; [exact He1|done|by rewrite Em|done|done].
Qed.

(** ** A repair that stops half way *)

Lemma writeTierRows_stops {T K} `{Countable K} (compare : T -> T -> comparison)
  (query : gmap K T -> T -> gmap K T) n oks rows (t : gmap K T) :
  (0 < n < length rows)%nat ->
  exists un, writeTierRows compare query n (true :: false :: oks) rows t =
    (Some (UnwrittenRows un), foldl query t (take n (merge_sort (rowLe compare) rows))).
Proof.
  intros Hn. unfold writeTierRows, Chunk. set (l := merge_sort _ rows).
  assert (length l = length rows) as Hl
    by (unfold l; by rewrite (Permutation_length (merge_sort_Permutation _ rows))).
  destruct (length l) as [|m] eqn:Em; [lia|]. destruct l as [|x l'] eqn:El; [done|].
  cbn [chunksOf]. destruct (drop n (x :: l')) as [|y rest] eqn:Ed.
  { assert (length (drop n (x :: l')) = 0%nat) as H0 by by rewrite Ed.
    rewrite length_drop, Em in H0. lia. }
  destruct m as [|m]; [lia|]. cbn. by eexists.
Qed.

(** The outcomes of a repair of one bucket whose second chunk fails. *)
Definition secondChunkFails : list bool := [true; true; true; true; true; false].

Lemma faults_set fs w : w_faults (setFaults fs w) = fs.
Proof. done. Qed.

Lemma setFaults_twice fs fs' w : setFaults fs (setFaults fs' w) = setFaults fs w.
Proof. done. Qed.

Section HalfWay.
Context (w : world) (S b : Z).
Context (Hk : rollupKeys (w_rollups w)) (HS : coarse S) (Hd : (S | b)).
Abbreviation rows := (rollupBuilt (w_rollups w) S b).
Abbreviation written := (take spanRollupChunk (merge_sort (rowLe compareSpanRollupKey) rows)).
Abbreviation t1 := (foldl (replaceRow spanRollupPK) (w_rollups w) written).

Lemma written_rows r : r ∈ written -> r ∈ rows.
Proof.
  intros Hr. rewrite <- (merge_sort_Permutation (rowLe compareSpanRollupKey) rows).
  by eapply subseteq_take.
Qed.

(** The repair up to the failed chunk. *)
Lemma repairBucket_fails :
  ~ rollupHas (w_rollups w) S b ->
  rollupsComplete w (sourceOf S) (b * second) ((b + S) * second) = Some true ->
  (spanRollupChunk < length rows)%nat ->
  exists fs, repairBucket (tierOf S) rollupTable (b * second) ((b + S) * second)
    (setFaults secondChunkFails w) = (None, setFaults fs (setRollups t1 w)).
Proof.
  intros Hno Hc Hlen.
  destruct (writeTierRows_stops compareSpanRollupKey (replaceRow spanRollupPK) spanRollupChunk []
    rows (w_rollups w)) as [un Ew]; [unfold spanRollupChunk in *; lia|].
  pose proof (count_one ro_StepSeconds ro_Bucket spanRollupPK (w_rollups w) S b Hk
    (coarse_fixed S HS) Hd) as H1.
  assert (forall fs, rollupsComplete (setFaults fs w) (sourceOf S) (b * second) ((b + S) * second) =
    Some true) as Hc' by done.
  unfold repairBucket, mbind, M_bind, secondChunkFails.
  rewrite reads_eq, faults_set, setFaults_twice. cbn [hd tl].
  change (tt_count rollupTable (setFaults ?fs w)) with (CountSpanRollupBuckets (w_rollups w)).
  unfold CountSpanRollupBuckets. cbn [tierOf tier_Step tier_Source].
  destruct (0 <? countTierBuckets _ _ _ S _ _) eqn:E0; to_prop; [by destruct Hno; apply H1|].
  rewrite attempt_eq, faults_set, setFaults_twice. cbn [hd tl rollupTable tt_complete tt_build].
  rewrite Hc'. cbn [negb]. cbn beta iota. unfold compactRollupBucket, mbind, M_bind.
  rewrite attempt_eq, faults_set, setFaults_twice. cbn [hd tl tier_Source tier_Step].
  rewrite Hc'. cbn [negb]. cbn beta iota.
  rewrite reads_eq, faults_set, setFaults_twice. cbn [hd tl].
  change (w_rollups (setFaults ?fs w)) with (w_rollups w).
  change (SpanRollupWindow (w_rollups w) (tier_Source (tierOf S)) (b * second) ((b + S) * second))
    with (rollupSources (w_rollups w) S b). cbn [tierOf tier_Step].
  destruct (rollupSources (w_rollups w) S b) as [|x src] eqn:Es.
  { unfold built in Hlen. rewrite Es in Hlen. cbn in Hlen. lia. }
  cbn beta iota zeta. rewrite <- Es, Unix_second. change (Merge (rollupSources (w_rollups w) S b) S b) with rows.
  unfold replaceRollups, ReplaceSpanRollups. rewrite faults_set.
  change (w_rollups (setFaults ?fs w)) with (w_rollups w). rewrite Ew. by eexists.
Qed.

(** One chunk does not hold all the rows. *)
Lemma written_misses :
  ~ rollupHas (w_rollups w) S b -> (spanRollupChunk < length rows)%nat ->
  exists r, r ∈ rows /\ t1 !! spanRollupPK r = None.
Proof.
  intros Hno Hlen.
  destruct (decide (Exists (fun r => t1 !! spanRollupPK r = None) rows)) as [Hex|Hnex].
  { by apply Exists_exists in Hex as (r & ? & ?); exists r. }
  exfalso. assert (rows ⊆+ written) as Hsub.
  { apply NoDup_submseteq; [eapply NoDup_fmap_1, (@merge_nodup _ _ _ _ spanRollupPK Merge rollup_laws)|].
    intros r Hr. destruct (t1 !! spanRollupPK r) as [x|] eqn:E.
    - apply replaceAll_Some in E as [[Hin Ex]|[Hl _]].
      + by rewrite <- (built_inj ro_StepSeconds ro_Bucket spanRollupPK Merge (w_rollups w) S b x r
          (written_rows x Hin) Hr Ex).
      + destruct Hno. exists (spanRollupPK r), x. split; [done|]. apply Hk in Hl as [Ex _].
        destruct (@pk_at _ _ _ _ spanRollupPK Merge rollup_laws _ _ Ex) as [-> ->].
        apply (@merge_at _ _ _ _ spanRollupPK Merge rollup_laws _ _ _ _ Hr).
    - destruct Hnex. apply Exists_exists. by exists r. }
  apply submseteq_length in Hsub. rewrite length_take in Hsub. lia.
Qed.

Lemma written_has : (spanRollupChunk < length rows)%nat -> rollupHas t1 S b.
Proof.
  intros Hlen. destruct written as [|r l] eqn:E.
  { apply (f_equal length) in E. rewrite length_take in E.
    rewrite (Permutation_length (merge_sort_Permutation _ rows)) in E.
    unfold spanRollupChunk in *. cbn [length] in E. lia. }
  rewrite <- E. assert (r ∈ written) as Hr by (rewrite E; by left).
  exists (spanRollupPK r), r. split.
  - by apply (written_lookup ro_StepSeconds ro_Bucket spanRollupPK Merge (w_rollups w) S b written written_rows).
  - apply (@merge_at _ _ _ _ spanRollupPK Merge rollup_laws _ _ _ _ (written_rows r Hr)).
Qed.
End HalfWay.

(** A repair skips a bucket that holds rows. *)
Lemma repairBucket_skips w S b :
  rollupKeys (w_rollups w) -> coarse S -> (S | b) -> rollupHas (w_rollups w) S b ->
  w_rollups (repairBucket (tierOf S) rollupTable (b * second) ((b + S) * second) w).2 = w_rollups w.
Proof.
  intros Hk HS Hd Ha. unfold repairBucket, mbind, M_bind. rewrite reads_eq.
  destruct (hd true (w_faults w)); [|done].
  cbn [rollupTable tt_count tierOf tier_Step]. unfold CountSpanRollupBuckets.
  apply (count_one ro_StepSeconds ro_Bucket spanRollupPK (w_rollups w) S b Hk
    (coarse_fixed S HS) Hd) in Ha. apply Z.ltb_lt in Ha. by rewrite Ha.
Qed.

(** A repair can leave a bucket short for good.  When the merged rows of a left-out
    bucket need more than one chunk and the second chunk fails, the repair reports an
    error with some rows written, and every later repair of that bucket leaves it as it
    is, because it skips buckets that hold rows; a pass never returns below its
    watermark either.  The rows of the other chunks stay missing while their source rows
    are there. *)
Theorem repair_stops_short w S b :
  rollupKeys (w_rollups w) -> coarse S -> (S | b) -> 0 <= b -> ~ rollupHas (w_rollups w) S b ->
  rollupsComplete w (sourceOf S) (b * second) ((b + S) * second) = Some true ->
  (spanRollupChunk < length (rollupBuilt (w_rollups w) S b))%nat ->
  exists w1,
    repairBucket (tierOf S) rollupTable (b * second) ((b + S) * second)
      (setFaults secondChunkFails w) = (None, w1) /\
    (exists r, r ∈ rollupBuilt (w_rollups w1) S b /\ w_rollups w1 !! spanRollupPK r = None) /\
    forall fs, w_rollups (repairBucket (tierOf S) rollupTable (b * second) ((b + S) * second)
      (setFaults fs w1)).2 = w_rollups w1.
Proof.
  intros Hk HS Hd Hb Hno Hc Hlen.
  destruct (repairBucket_fails w S b Hk HS Hd Hno Hc Hlen) as [fs0 E].
  pose proof (written_rows w S b) as Hw. eexists. split_and!; [exact E| |].
  - destruct (written_misses w S b Hk Hno Hlen) as (r & Hr & Hm). exists r. split; [|done].
    cbn [setFaults setRollups w_rollups]. unfold built.
    by rewrite (write_sources_self ro_StepSeconds ro_Bucket spanRollupPK Merge _ S b).
  - intros fs. rewrite repairBucket_skips; try done; cbn [setFaults setRollups w_rollups].
    + by apply (write_keys ro_StepSeconds ro_Bucket spanRollupPK Merge _ S b).
    + by apply written_has.
Qed.

(** ** The properties at concrete states *)

Definition demoSource (name : string) : SpanRollup :=
  mkSpanRollup Step5m 0 1 "svc" name "server" true "ok" 200 1 1 1 10 10 10 (Hist_Encode emptyHist).

Definition demoCfg : Config := withDefaults 0 0.

(** One 5-minute row, and a raw span in a bucket without rows if [ingested] says so. *)
Definition demoWorld (ingested : list Z) : world :=
  mkWorld {[spanRollupPK (demoSource "GET /") := demoSource "GET /"]} ∅ ∅ ingested false None [].

Definition demoPassed (ingested : list Z) : world :=
  (compactLadder demoCfg (2 * hour) spanLadder (setFaults [] (demoWorld ingested))).2.

Lemma demo_reach ingested : reach demoCfg (6600 * second) (demoPassed ingested).
Proof.
  apply (reach_pass demoCfg 0 (demoWorld ingested) (2 * hour) []). apply reach_init.
  - intros k r Hl. cbn in Hl. apply lookup_singleton_Some in Hl as [<- <-]. split; [done|].
    split_and!; [done|by exists 0|done|done].
  - intros k e Hl. cbn in Hl. by rewrite lookup_empty in Hl.
  - done.
Qed.

Lemma compaction_exact_witness :
  w_marks (demoPassed []) !! Step5m = Some 3600 /\
  exists r, Merge (SpanRollupWindow (w_rollups (demoPassed [])) Step5m 0 (3600 * second)) StepHour 0 = [r] /\
    w_rollups (demoPassed []) !! spanRollupPK r = Some r.
Proof.
  split; [vm_compute; reflexivity|]. eexists. split; [vm_compute; reflexivity|].
  destruct (compaction_exact demoCfg (6600 * second) (demoPassed []) StepHour 0 (demo_reach [])
    ltac:(by left)) as (_ & _ & Hwhole).
  apply (Hwhole 3600).
  - vm_compute. reflexivity.
  - vm_compute. discriminate.
  - eexists (StepHour, 0, 1, "svc", "GET /", "server", true, "ok", 200), _.
    split; [vm_compute; reflexivity|]. by vm_compute.
  - apply list_elem_of_In. vm_compute. left. reflexivity.
Defined.

Lemma pass_progress_witness :
  exists n rows w', compactTier demoCfg (4 * hour) (tierOf StepHour) (setFaults [] (demoPassed [])) =
    (Some (n, rows), w') /\ w_marks w' !! Step5m = Some (3600 + Z.of_nat n * StepHour).
Proof.
  destruct (pass_progress demoCfg (6600 * second) (demoPassed []) (4 * hour) StepHour 3600
    (4 * hour - 10 * minute) (demo_reach []) ltac:(by left)) as (n & rows & w' & E & Hm & _).
  - vm_compute. reflexivity.
  - reflexivity.
  - exists n, rows, w'. split; [exact E|exact Hm].
Defined.

(** The pass left the hour out because a span arrived in a bucket without rows; when
    retention has deleted that span, a repair builds the hour. *)
Definition demoRetained : world :=
  let w := demoPassed [600 * second] in
  mkWorld (w_rollups w) (w_edges w) (w_marks w) [] (w_busy w) (w_repaired w) (w_faults w).

Lemma repair_fills_witness :
  SpanRollupWindow (w_rollups demoRetained) StepHour 0 (3600 * second) = [] /\
  rollupHas (w_rollups (repairTable (tierOf StepHour) rollupTable (3600 * second)
    (setFaults [] demoRetained)).2) StepHour 0.
Proof.
  split; [vm_compute; reflexivity|].
  apply (repair_fills demoCfg (6600 * second) demoRetained StepHour 3600 0 0).
  - apply (reach_retention demoCfg _ (demoPassed [600 * second]) []); [apply demo_reach|].
    apply list_subseteq_nil.
  - by left.
  - vm_compute. reflexivity.
  - by exists 0.
  - lia.
  - vm_compute. discriminate.
  - vm_compute. reflexivity.
  - vm_compute. reflexivity.
  - vm_compute. discriminate.
Defined.

(** Left out, with one row more than a chunk holds. *)
Definition manySources : list SpanRollup := (fun i => demoSource (pretty (N.of_nat i))) <$> seq 0 501.

Definition manyWorld : world :=
  mkWorld (list_to_map ((fun r => (spanRollupPK r, r)) <$> manySources)) ∅ {[Step5m := StepHour]} []
    false None [].

Lemma manySources_names : NoDup (rollupKeyOf <$> manySources).
Proof.
  unfold manySources. rewrite <- list_fmap_compose. apply NoDup_fmap_2; [|apply NoDup_seq].
  intros i j E. unfold rollupKeyOf, demoSource in E. simpl in E. injection E as E.
  apply pretty_N_inj in E. lia.
Qed.

Lemma manyWorld_lookup k r :
  w_rollups manyWorld !! k = Some r <-> k = spanRollupPK r /\ r ∈ manySources.
Proof.
  unfold manyWorld. cbn [w_rollups]. rewrite <- elem_of_list_to_map.
  - rewrite list_elem_of_fmap. split; [intros (x & [= -> ->] & ?); done|].
    intros [-> ?]. by exists r.
  - rewrite <- list_fmap_compose.
    apply (NoDup_fmap_1 (fun q : rollupPK =>
      let '(s, bk, p, sv, n, kd, rt, st, h) := q in (p, sv, n, kd, rt, st, h) : rollupKey)).
    rewrite <- list_fmap_compose. exact manySources_names.
Qed.

Lemma manySources_at r : r ∈ manySources -> ro_StepSeconds r = Step5m /\ ro_Bucket r = 0.
Proof. by intros (i & -> & _)%list_elem_of_fmap. Qed.

Lemma manyWorld_keys : rollupKeys (w_rollups manyWorld).
Proof.
  intros k r [-> Hr]%manyWorld_lookup. apply manySources_at in Hr as [-> ->].
  split_and!; [done|unfold fixedStep; auto|by exists 0|done].
Qed.

Lemma manyWorld_rows : (spanRollupChunk < length (rollupBuilt (w_rollups manyWorld) StepHour 0))%nat.
Proof.
  assert (rollupKeyOf <$> manySources ⊆+ rollupKeyOf <$> rollupBuilt (w_rollups manyWorld) StepHour 0) as Hs.
  { apply NoDup_submseteq; [apply manySources_names|].
    intros k (r & -> & Hr)%list_elem_of_fmap.
    assert (r ∈ rollupSources (w_rollups manyWorld) StepHour 0) as Hin.
    { apply elem_of_window. destruct (manySources_at r Hr) as [E1 E2].
      split; [by split; [|rewrite E2]|]. exists (spanRollupPK r). by apply manyWorld_lookup. }
    apply Merge_keys. by apply list_elem_of_fmap_2. }
  apply submseteq_length in Hs. rewrite !length_fmap in Hs.
  assert (length manySources = 501%nat) as El by (unfold manySources; by rewrite length_fmap, length_seq).
  unfold spanRollupChunk. lia.
Qed.

Lemma repair_stops_short_witness :
  exists w1, repairBucket (tierOf StepHour) rollupTable (0 * second) ((0 + StepHour) * second)
    (setFaults secondChunkFails manyWorld) = (None, w1).
Proof.
  destruct (repair_stops_short manyWorld StepHour 0 manyWorld_keys ltac:(by left) ltac:(by exists 0)
    ltac:(lia)) as (w1 & E & _).
  - intros (k & r & [_ [Er _]%manySources_at]%manyWorld_lookup & E & _). rewrite Er in E. discriminate.
  - destruct (windowComplete_spec ro_StepSeconds ro_Bucket spanRollupPK (w_rollups manyWorld)
      (SpansIngestedBetween []) manyWorld_keys Step5m 12 0 ltac:(unfold fixedStep; auto) ltac:(by exists 0))
      as (ok & E & Hok).
    assert (ok = true) as ->; [|exact E]. apply Hok. right. split_and!; [done| |by right].
    unfold countTierBuckets, maxQuietBuckets. lia.
  - exact manyWorld_rows.
  - exists w1. exact E.
Defined.

(** ** Rows that come after the lag *)

Definition lateRow : SpanRollup :=
  mkSpanRollup Step5m 3300 1 "svc" "GET /" "server" true "ok" 200 1 1 1 10 10 10 (Hist_Encode emptyHist).

(** A failed flush keeps a bucket for [spanRollupRequeueAge], which is longer than the
    compaction lag: a row of 00:55 is written at 01:40, after 00:00 to 01:00 was
    compacted at 01:10, and no later pass or repair brings it into the hour. *)
Example late_flush_missed :
  let w1 := (RunOnce demoCfg (4200 * second) (4200 * second) (demoWorld [])).2 in
  let w2 := setRollups (AddSpanRollups [] [lateRow] (w_rollups w1)).2 w1 in
  let w3 := (RunOnce demoCfg (8 * hour) (8 * hour) w2).2 in
  (Unix (6000 * second - spanRollupRequeueAge) <=? ro_Bucket lateRow) = true /\
  ro_Count <$> SpanRollupWindow (w_rollups w3) StepHour 0 (3600 * second) = [1] /\
  ro_Count <$> Merge (SpanRollupWindow (w_rollups w3) Step5m 0 (3600 * second)) StepHour 0 = [2].
Proof. vm_compute. split_and!; reflexivity. Qed.
