(* ===== verification/CalcParse.v ===== *)
(** * Calculated fields: lexer and parser ([internal/calcfield/lex.go], [parse.go])

    The input is the bytes of the expression; a function of the lexer that returns how
    many bytes it took returns the rest here.  Every error wraps [ErrInvalid] and ends
    the parse, so errors are [None].  A [float64] literal is kept as its text, which
    determines it; whether [strconv.ParseFloat] accepts it is computed. *)
From S2P Require Import Prelude.

(** ** Caps *)

Definition MaxLength : nat := 500.

Definition MaxDepth : nat := 16.

Definition MaxNodes : nat := 200.

Definition MaxCallArgs : nat := 8.

Definition maxIdentLen : nat := 200.

(** ** Tokens *)

(** What a number literal holds: an [int64], or the [float64] its text denotes. *)
Inductive number := NumInt (v : Z) | NumFloat (lit : string).

(** [token]: the type with the fields it uses. *)
Inductive token :=
| tEOF
| tNumber (num : number)
| tString (text : string)
| tWord (text : string)
| tQuoted (text : string)
| tOp (text : string)
| tLParen
| tRParen
| tComma.

#[export] Instance number_eq_dec : EqDecision number.
Proof. solve_decision. Defined.

#[export] Instance token_eq_dec : EqDecision token.
Proof. solve_decision. Defined.

(** [reserved] *)
Definition reserved (s : string) : bool := bool_decide (s ∈ ["and"; "or"; "not"]).

Abbreviation code := Ascii.nat_of_ascii.

Definition between (a b : nat) (c : ascii) : bool := (a <=? code c)%nat && (code c <=? b)%nat.

(** [isWordStart]: an underscore or an ASCII letter. *)
Definition isWordStart (c : ascii) : bool := (code c =? 95)%nat || between 97 122 c || between 65 90 c.

Definition isDigit (c : ascii) : bool := between 48 57 c.

Definition isWordPart (c : ascii) : bool := isWordStart c || isDigit c || (code c =? 46)%nat.

(** The longest prefix whose bytes satisfy [p], and the rest. *)
Fixpoint spanWhile (p : ascii -> bool) (s : list ascii) : list ascii * list ascii :=
  match s with
  | c :: s' => if p c then let '(a, b) := spanWhile p s' in (c :: a, b) else ([], s)
  | [] => ([], [])
  end.

Abbreviation text := String.string_of_list_ascii.

Definition lower (s : list ascii) : list ascii := map lowerAscii s.

(** [lexWord] *)
Definition lexWord (s : list ascii) : option (token * list ascii) :=
  match s with
  | [] => None
  | c :: s' =>
      let '(a, rest) := spanWhile isWordPart s' in
      let word := c :: a in
      if (maxIdentLen <? length word)%nat then None
      else Some (tWord (if reserved (text (lower word)) then text (lower word) else text word), rest)
  end.

(** The value of decimal digits. *)
Definition digitsValue (ds : list ascii) : Z :=
  foldl (fun v c => v * 10 + (Z.of_nat (code c) - 48)) 0 ds.

(** [strconv.ParseInt(lit, 10, 64)] of digits *)
Definition ParseInt (ds : list ascii) : option Z :=
  let v := digitsValue ds in if v <=? 2 ^ 63 - 1 then Some v else None.

(** [strconv.ParseFloat(lit, 64)] of digits with [frac] digits after the point fails
    when the value rounds to infinity: at 2^1024 - 2^970 or above. *)
Definition ParseFloatOk (int frac : list ascii) : bool :=
  digitsValue (int ++ frac) <? (2 ^ 1024 - 2 ^ 970) * 10 ^ Z.of_nat (length frac).

Definition point : ascii := "."%char.

(** [lexNumber] *)
Definition lexNumber (s : list ascii) : option (token * list ascii) :=
  let '(int, s1) := spanWhile isDigit s in
  let '(isFloat, frac, s2) :=
    match s1 with
    | c :: d :: _ =>
        if bool_decide (c = point) && isDigit d
        then let '(frac, s2) := spanWhile isDigit (tl s1) in (true, frac, s2)
        else (false, [], s1)
    | _ => (false, [], s1)
    end in
  let lit := int ++ (if isFloat then point :: frac else []) in
  if (match s2 with c :: _ => isWordStart c || bool_decide (c = point) | [] => false end) then None
  else
    match (if isFloat then None else ParseInt int) with
    | Some v => Some (tNumber (NumInt v), s2)
    | None => if ParseFloatOk int frac then Some (tNumber (NumFloat (text lit)), s2) else None
    end.

Definition quote : ascii := "'"%char.

Definition nul : ascii := Ascii.ascii_of_nat 0.

(** The loop of [lexString]: the text, with two quotes for one, and the rest. *)
Fixpoint stringBody (s : list ascii) : option (list ascii * list ascii) :=
  match s with
  | [] => None
  | c :: s1 =>
      if bool_decide (c = quote) then
        match s1 with
        | d :: s2 =>
            if bool_decide (d = quote)
            then '(b, rest) ← stringBody s2; Some (quote :: b, rest)
            else Some ([], s1)
        | [] => Some ([], [])
        end
      else if bool_decide (c = nul) then None
      else '(b, rest) ← stringBody s1; Some (c :: b, rest)
  end.

(** [lexString] *)
Definition lexString (s : list ascii) : option (token * list ascii) :=
  '(b, rest) ← stringBody (tl s); Some (tString (text b), rest).

Definition backtick : ascii := Ascii.ascii_of_nat 96.

(** The bytes a quoted identifier refuses: double quote, backslash and NUL. *)
Definition refusedInQuoted : list ascii := [Ascii.ascii_of_nat 34; Ascii.ascii_of_nat 92; nul].

(** [lexQuoted] *)
Definition lexQuoted (s : list ascii) : option (token * list ascii) :=
  let '(name, s1) := spanWhile (fun c => negb (bool_decide (c = backtick))) (tl s) in
  match s1 with
  | [] => None
  | _ :: rest =>
      if bool_decide (name = []) || (maxIdentLen <? length name)%nat ||
         existsb (fun c => bool_decide (c ∈ refusedInQuoted)) name
      then None
      else Some (tQuoted (text name), rest)
  end.

(** [lexSymbol] *)
Definition lexSymbol (s : list ascii) : option (token * list ascii) :=
  let one :=
    match s with
    | c :: rest =>
        let t := text [c] in
        if bool_decide (t ∈ ["+"; "-"; "*"; "/"; "%"; "="; "<"; ">"]) then Some (tOp t, rest)
        else if bool_decide (t = "(") then Some (tLParen, rest)
        else if bool_decide (t = ")") then Some (tRParen, rest)
        else if bool_decide (t = ",") then Some (tComma, rest)
        else None
    | [] => None
    end in
  match s with
  | c :: d :: rest =>
      if bool_decide (text [c; d] ∈ ["<="; ">="; "!="; "<>"; "=="]) then Some (tOp (text [c; d]), rest)
      else one
  | _ => one
  end.

(** [lexOne] *)
Definition lexOne (s : list ascii) : option (token * list ascii) :=
  match s with
  | [] => None
  | c :: _ =>
      if isDigit c then lexNumber s
      else if isWordStart c then lexWord s
      else if bool_decide (c = quote) then lexString s
      else if bool_decide (c = backtick) then lexQuoted s
      else lexSymbol s
  end.

Definition isBlank (c : ascii) : bool := bool_decide (code c ∈ [32; 9; 10; 13]%nat).

(** The loop of [lex]; every turn takes at least one byte. *)
Fixpoint lexLoop (fuel : nat) (s : list ascii) : option (list token) :=
  match s with
  | [] => Some [tEOF]
  | c :: s' =>
      match fuel with
      | O => None
      | S fuel =>
          if isBlank c then lexLoop fuel s'
          else
            '(t, rest) ← lexOne s;
            toks ← lexLoop fuel rest;
            Some (t :: toks)
      end
  end.

(** [lex] *)
Definition lex (src : string) : option (list token) :=
  lexLoop (length (bytesOf src)) (bytesOf src).

(** ** Expressions *)

(** [node] *)
Inductive node :=
| kNumber (num : number)
| kString (text : string)
| kIdent (text : string)
| kUnary (op : string) (x : node)
| kBinary (op : string) (l r : node)
| kCall (fn : string) (args : list node).

(** [functions]: the least and the largest number of arguments. *)
Definition functions (fn : string) : option (nat * nat) :=
  if bool_decide (fn = "coalesce") then Some (2%nat, MaxCallArgs)
  else if bool_decide (fn = "if") then Some (3%nat, 3%nat)
  else if bool_decide (fn = "concat") then Some (2%nat, MaxCallArgs)
  else if bool_decide (fn = "lower") then Some (1%nat, 1%nat)
  else None.

(** ** Parser *)

(** [parser]: the tokens from [pos] on, and the nodes made. *)
Record parser := mkParser { p_toks : list token; p_nodes : nat }.

(** A parse function of the receiver; [None] is an error. *)
Definition P (A : Type) : Type := parser -> option (A * parser).

#[export] Instance P_ret : MRet P := fun A a p => Some (a, p).

#[export] Instance P_bind : MBind P := fun A B f m p =>
  match m p with Some (a, p) => f a p | None => None end.

Definition failP {A} : P A := fun _ => None.

(** [parser.peek] *)
Definition peek : P token := fun p => Some (default tEOF (head (p_toks p)), p).

Definition advance (p : parser) : parser := mkParser (tl (p_toks p)) (p_nodes p).

(** [parser.next]: the end of the expression is not passed. *)
Definition next : P token := fun p =>
  let t := default tEOF (head (p_toks p)) in
  Some (t, if bool_decide (t = tEOF) then p else advance p).

(** [parser.accept] of a word *)
Definition acceptWord (w : string) : P bool := fun p =>
  if bool_decide (head (p_toks p) = Some (tWord w)) then Some (true, advance p) else Some (false, p).

(** [parser.mk] *)
Definition mk (n : node) : P node := fun p =>
  let p := mkParser (p_toks p) (S (p_nodes p)) in
  if (MaxNodes <? p_nodes p)%nat then None else Some (n, p).

(** [parser.binary] *)
Definition binary (op : string) (l r : node) : P node := mk (kBinary op l r).

(** The operator that [pick] takes, if the next token is one. *)
Definition acceptOp (pick : token -> option string) : P (option string) := fun p =>
  match pick (default tEOF (head (p_toks p))) with
  | Some op => Some (Some op, advance p)
  | None => Some (None, p)
  end.

(** A loop [for err == nil && accept(op)] that parses an operand and joins it to the
    left; it takes at least one token per turn. *)
Fixpoint joinLoop (fuel : nat) (pick : token -> option string) (operand : P node) (l : node) : P node :=
  match fuel with
  | O => mret l
  | S fuel =>
      op ← acceptOp pick;
      match op with
      | None => mret l
      | Some op =>
          r ← operand;
          l ← binary op l r;
          joinLoop fuel pick operand l
      end
  end.

Definition byTokens {A} (f : nat -> P A) : P A := fun p => f (length (p_toks p)) p.

Definition joined (pick : token -> option string) (operand : P node) : P node :=
  l ← operand; byTokens (fun fuel => joinLoop fuel pick operand l).

Definition isWord (w : string) (t : token) : option string :=
  if bool_decide (t = tWord w) then Some w else None.

Definition opIn (ops : list string) (t : token) : option string :=
  match t with tOp s => if bool_decide (s ∈ ops) then Some s else None | _ => None end.

(** [compareOps] *)
Definition compareOps : list string := ["="; "=="; "!="; "<>"; "<"; "<="; ">"; ">="].

(** The parse functions one level deeper. *)
Record parsers := mkParsers { P_or : P node; P_not : P node; P_unary : P node }.

(** The arguments of [parseCall]; every turn takes at least one token or ends. *)
Fixpoint callArgs (fuel : nat) (arg : P node) (args : list node) : P (list node) :=
  match fuel with
  | O => failP
  | S fuel =>
      t ← peek;
      if bool_decide (t = tRParen) then mret args
      else
        a ← arg;
        let args := args ++ [a] in
        if (MaxCallArgs <? length args)%nat then failP
        else
          t ← peek;
          if bool_decide (t = tComma) then _ ← next; callArgs fuel arg args
          else mret args
  end.

(** [parser.parseCall] *)
Definition parseCall (deeper : parsers) (name : string) : P node :=
  let fn := text (lower (bytesOf name)) in
  match functions fn with
  | None => failP
  | Some (least, most) =>
      _ ← next;
      args ← callArgs (S MaxCallArgs) (P_or deeper) [];
      t ← next;
      if negb (bool_decide (t = tRParen)) then failP
      else if (length args <? least)%nat || (most <? length args)%nat then failP
      else mk (kCall fn args)
  end.

(** [parser.parsePrimary] *)
Definition parsePrimary (deeper : parsers) : P node :=
  t ← next;
  match t with
  | tNumber n => mk (kNumber n)
  | tString s => mk (kString s)
  | tQuoted s => mk (kIdent s)
  | tWord s =>
      u ← peek;
      if bool_decide (u = tLParen) then parseCall deeper s
      else if reserved s then failP
      else mk (kIdent s)
  | tLParen =>
      x ← P_or deeper;
      t ← next;
      if bool_decide (t = tRParen) then mret x else failP
  | _ => failP
  end.

(** [parser.parseUnary] *)
Definition parseUnary (deeper : parsers) : P node :=
  op ← acceptOp (opIn ["-"; "+"]);
  match op with
  | None => parsePrimary deeper
  | Some op =>
      x ← P_unary deeper;
      if bool_decide (op = "+") then mret x else mk (kUnary "-" x)
  end.

(** [parser.parseProduct] and [parseSum] *)
Definition parseProduct (deeper : parsers) : P node := joined (opIn ["*"; "/"; "%"]) (parseUnary deeper).

Definition parseSum (deeper : parsers) : P node := joined (opIn ["+"; "-"]) (parseProduct deeper).

(** [parser.parseCompare] *)
Definition parseCompare (deeper : parsers) : P node :=
  l ← parseSum deeper;
  op ← acceptOp (opIn compareOps);
  match op with
  | None => mret l
  | Some op => r ← parseSum deeper; binary op l r
  end.

(** [parser.parseNot] *)
Definition parseNot (deeper : parsers) : P node :=
  n ← acceptWord "not";
  if (n : bool) then x ← P_not deeper; mk (kUnary "not" x) else parseCompare deeper.

(** [parser.parseAnd] and [parseOr] *)
Definition parseAnd (deeper : parsers) : P node := joined (isWord "and") (parseNot deeper).

Definition parseOr (deeper : parsers) : P node := joined (isWord "or") (parseAnd deeper).

(** The parse functions with [d] levels left; below the last every one is too deep. *)
Fixpoint parsersAt (d : nat) : parsers :=
  match d with
  | O => mkParsers failP failP failP
  | S d =>
      let deeper := parsersAt d in
      mkParsers (parseOr deeper) (parseNot deeper) (parseUnary deeper)
  end.

(** [strings.TrimSpace(src) == ""] for ASCII white space; other white space does not
    lex either. *)
Definition blank (src : string) : bool :=
  forallb (fun c => bool_decide (code c ∈ [32; 9; 10; 11; 12; 13]%nat)) (bytesOf src).

(** [Parse]; the first level has depth 1. *)
Definition Parse (src : string) : option node :=
  if blank src then None
  else if (MaxLength <? length (bytesOf src))%nat then None
  else
    toks ← lex src;
    '(root, p) ← P_or (parsersAt MaxDepth) (mkParser toks 0);
    if bool_decide (default tEOF (head (p_toks p)) = tEOF) then Some root else None.

(** [Expr.Idents]: once each, in order of first use. *)
Fixpoint identsOf (n : node) : list string :=
  match n with
  | kNumber _ | kString _ => []
  | kIdent s => [s]
  | kUnary _ x => identsOf x
  | kBinary _ l r => identsOf l ++ identsOf r
  | kCall _ args => mjoin (identsOf <$> args)
  end.

Definition Idents (e : node) : list string :=
  foldl (fun out s => if decide (s ∈ out) then out else out ++ [s]) [] (identsOf e).

(** Precedence, nesting and calls on examples. *)
Example parse_precedence :
  Parse "a + b * 2 >= 10 and not lower(`x-y`) = 'it''s'" =
  Some (kBinary "and"
    (kBinary ">=" (kBinary "+" (kIdent "a") (kBinary "*" (kIdent "b") (kNumber (NumInt 2))))
      (kNumber (NumInt 10)))
    (kUnary "not" (kBinary "=" (kCall "lower" [kIdent "x-y"]) (kString "it's")))).
Proof. vm_compute. reflexivity. Qed.

Example parse_errors :
  Parse "a; drop table spans" = None /\ Parse "coalesce(a)" = None /\ Parse "((a)" = None /\
  Parse "1.5e3" = None /\ Parse "" = None /\ Parse "a b" = None /\ Parse "and" = None.
Proof. vm_compute. split_and!; reflexivity. Qed.
