(* ===== verification/CalcCompile.v ===== *)
(** * Calculated fields: compiler and field sets ([internal/calcfield/compile.go],
    [set.go])

    Compilation threads the budget of terms that all the compilers of one lookup
    share.  The operand resolver of the caller is a parameter. *)
From S2P Require Import Prelude CalcParse.

(** [maxExpansion] *)
Definition maxExpansion : Z := 2000.

(** A bound argument: a number or a text. *)
Inductive arg := ANum (n : number) | AText (s : string).

(** Why a compilation fails: the budget, a field that does not parse, a cycle, the
    caller's resolver, a nil expression, or the end of the model's fuel. *)
Inductive cerr := EBudget | EBad | ECycle | EOperand | ENil | EFuel.

(** A computation over the shared budget. *)
Definition C (A : Type) : Type := Z -> (A * Z) + cerr.

#[export] Instance C_ret : MRet C := fun A a b => inl (a, b).

#[export] Instance C_bind : MBind C := fun A B f m b =>
  match m b with inl (a, b) => f a b | inr e => inr e end.

Definition failC {A} (e : cerr) : C A := fun _ => inr e.

(** SQL text and its bound arguments. *)
Abbreviation sqlArgs := (string * list arg)%type.

(** [Resolver] *)
Definition Resolver : Type := string -> C sqlArgs.

(** [compiler.spend] *)
Definition spend (n : Z) : C unit := fun b => if b - n <? 0 then inr EBudget else inl (tt, b - n).

(** [binarySQL]; a missing key reads as the empty text. *)
Definition binarySQL (op : string) : string :=
  if bool_decide (op ∈ ["+"; "-"; "*"; "%"; "="; "<>"; "<"; "<="; ">"; ">="]) then op
  else if bool_decide (op = "==") then "="
  else if bool_decide (op = "!=") then "<>"
  else if bool_decide (op = "and") then "AND"
  else if bool_decide (op = "or") then "OR"
  else "".

(** [strings.Join] *)
Definition stringsJoin (parts : list string) (sep : string) : string := String.concat sep parts.

(** [concatSQL] *)
Definition concatSQL (parts : list string) : string :=
  ("(" +:+ stringsJoin ((fun p => "COALESCE(CAST(" +:+ p +:+ " AS TEXT), '')") <$> parts) " || " +:+ ")")%string.

(** The SQL of [compiler.unary], [binary] and [call] around their operands. *)
Definition unarySQL (op x : string) : string :=
  (if bool_decide (op = "not") then "(NOT " +:+ x +:+ ")" else "(0 - " +:+ x +:+ ")")%string.

Definition joinSQL (op l r : string) : string :=
  (if bool_decide (op = "/") then "(CAST(" +:+ l +:+ " AS REAL) / " +:+ r +:+ ")"
   else "(" +:+ l +:+ " " +:+ binarySQL op +:+ " " +:+ r +:+ ")")%string.

Definition callSQL (fn : string) (parts : list string) : string :=
  let part i := nth i parts ""%string in
  (if bool_decide (fn = "coalesce") then "COALESCE(" +:+ stringsJoin parts ", " +:+ ")"
   else if bool_decide (fn = "lower") then "lower(" +:+ part 0%nat +:+ ")"
   else if bool_decide (fn = "if") then
     "(CASE WHEN " +:+ part 0%nat +:+ " THEN " +:+ part 1%nat +:+ " ELSE " +:+ part 2%nat +:+ " END)"
   else concatSQL parts)%string.

(** [compiler.node], with [unary], [binary] and [call]. *)
Fixpoint compileNode (resolve : Resolver) (n : node) : C sqlArgs :=
  _ ← spend 1;
  match n with
  | kNumber v => mret ("?"%string, [ANum v])
  | kString s => mret ("?"%string, [AText s])
  | kIdent key => resolve key
  | kUnary op x =>
      r ← compileNode resolve x;
      mret (unarySQL op r.1, r.2)
  | kBinary op l r =>
      a ← compileNode resolve l;
      b ← compileNode resolve r;
      mret (joinSQL op a.1 b.1, a.2 ++ b.2)
  | kCall fn args =>
      rs ← (fix go (l : list node) : C (list sqlArgs) :=
              match l with
              | [] => mret []
              | x :: l => r ← compileNode resolve x; rs ← go l; mret (r :: rs)
              end) args;
      mret (callSQL fn rs.*1, mjoin rs.*2)
  end.

(** The arguments of a call, in order. *)
Fixpoint compileArgs (resolve : Resolver) (l : list node) : C (list sqlArgs) :=
  match l with
  | [] => mret []
  | x :: l => r ← compileNode resolve x; rs ← compileArgs resolve l; mret (r :: rs)
  end.

(** [Expr.Compile] *)
Definition Expr_Compile (e : node) (resolve : Resolver) : sqlArgs + cerr :=
  match compileNode resolve e maxExpansion with inl (r, _) => inl r | inr e => inr e end.

(** [Compile] *)
Definition Compile (src : string) (resolve : Resolver) : sqlArgs + cerr :=
  match Parse src with None => inr EBad | Some e => Expr_Compile e resolve end.

(** ** Field sets *)

(** [Field] *)
Record Field := mkField { fd_Name : string; fd_Expression : string }.

(** The caller's resolver of columns and attributes; [None] is its error. *)
Definition Operand : Type := string -> option sqlArgs.

Definition ofOperand (operand : Operand) : Resolver := fun key b =>
  match operand key with Some r => inl (r, b) | None => inr EOperand end.

(** [Set]: an expression that did not parse is [None], as a nil pointer. *)
Record Set_ := mkSet {
  st_exprs : gmap string (option node);
  st_bad : gset string;
  st_operand : Operand;
  st_builtin : string -> bool;
}.

(** One turn of the loop of [NewSet]. *)
Definition addField (st : gmap string (option node) * gset string) (f : Field)
  : gmap string (option node) * gset string :=
  let e := Parse (fd_Expression f) in
  (<[fd_Name f := e]> st.1,
   match e with None => {[fd_Name f]} ∪ st.2 | Some _ => st.2 end).

(** [NewSet] *)
Definition NewSet (fields : list Field) (operand : Operand) (builtin : string -> bool) : Set_ :=
  let '(exprs, bad) := foldl addField (∅, ∅) fields in mkSet exprs bad operand builtin.

(** [Set.Has] *)
Definition Has (s : Set_) (name : string) : bool :=
  bool_decide (is_Some (st_exprs s !! name)) && negb (st_builtin s name).

(** [Set.compile] *)
Definition compileField (s : Set_) (resolve : Resolver) (name : string) : C sqlArgs :=
  if bool_decide (name ∈ st_bad s) then failC EBad
  else
    match st_exprs s !! name with
    | Some (Some e) => compileNode resolve e
    | _ => failC ENil
    end.

(** [Set.resolver]; the stack grows with every expansion, so [fuel] is how many fields
    are not on it. *)
Fixpoint resolver (s : Set_) (fuel : nat) (stack : list string) : Resolver := fun key =>
  if negb (Has s key) then ofOperand (st_operand s) key
  else if decide (key ∈ stack) then failC ECycle
  else
    match fuel with
    | O => failC EFuel
    | S fuel => compileField s (resolver s fuel (stack ++ [key])) key
    end.

(** [Set.Lookup] *)
Definition Lookup (s : Set_) (name : string) : option (sqlArgs + cerr) :=
  if negb (Has s name) then None
  else Some
    match compileField s (resolver s (size (st_exprs s)) [name]) name maxExpansion with
    | inl (r, _) => inl r
    | inr e => inr e
    end.

(** [Set.Validate]: the fields in the order the map is ranged over. *)
Definition Validate (s : Set_) (order : list string) : option cerr :=
  head (omap (fun name => match Lookup s name with Some (inr e) => Some e | _ => None end) order).

(** Two fields, one used by the other. *)
Definition demoOperand : Operand := fun key => Some ("json_extract(attributes, ?)"%string, [AText key]).

Example lookup_example :
  let s := NewSet [mkField "ms" "duration_us / 1000"; mkField "slow" "ms > 250";
                   mkField "a" "b + 1"; mkField "b" "a"] demoOperand (fun _ => false) in
  Lookup s "slow" =
    Some (inl ("((CAST(json_extract(attributes, ?) AS REAL) / ?) > ?)"%string,
               [AText "duration_us"; ANum (NumInt 1000); ANum (NumInt 250)])) /\
  Lookup s "a" = Some (inr ECycle) /\ Lookup s "http.route" = None.
Proof. vm_compute. split_and!; reflexivity. Qed.
