(* ===== verification/CalcLexProps.v ===== *)
(** * What the lexer and the parser of calculated fields guarantee

    Every token is well formed and every turn takes input, so the loops have enough
    fuel; a parsed expression uses only the operators and functions of the grammar,
    with the right number of arguments, and no more terms than the cap. *)
From S2P Require Import Prelude CalcParse.

(** ** Well-formed tokens and expressions *)

Definition identOk (s : string) : Prop :=
  bytesOf s <> [] /\ (length (bytesOf s) <= maxIdentLen)%nat /\
  Forall (fun c => c ∉ refusedInQuoted) (bytesOf s).

Definition numberOk (n : number) : Prop :=
  match n with NumInt v => 0 <= v <= 2 ^ 63 - 1 | NumFloat lit => bytesOf lit <> [] end.

Definition textOk (s : string) : Prop := Forall (fun c => c <> nul) (bytesOf s).

Definition symbolOps : list string := ["+"; "-"; "*"; "/"; "%"] ++ compareOps.

Definition tokenOk (t : token) : Prop :=
  match t with
  | tNumber n => numberOk n
  | tString s => textOk s
  | tWord s | tQuoted s => identOk s
  | tOp s => s ∈ symbolOps
  | _ => True
  end.

Definition binaryOps : list string := symbolOps ++ ["and"; "or"].

Definition arityOk (fn : string) (n : nat) : Prop :=
  exists lo hi, functions fn = Some (lo, hi) /\ (lo <= n <= hi)%nat.

Fixpoint wfNode (n : node) : Prop :=
  match n with
  | kNumber v => numberOk v
  | kString s => textOk s
  | kIdent s => identOk s
  | kUnary op x => op ∈ ["-"; "not"] /\ wfNode x
  | kBinary op l r => op ∈ binaryOps /\ wfNode l /\ wfNode r
  | kCall fn args =>
      arityOk fn (length args) /\
      (fix all (l : list node) : Prop := match l with [] => True | x :: l => wfNode x /\ all l end) args
  end.

Fixpoint nodeCount (n : node) : nat :=
  match n with
  | kNumber _ | kString _ | kIdent _ => 1
  | kUnary _ x => S (nodeCount x)
  | kBinary _ l r => S (nodeCount l + nodeCount r)
  | kCall _ args => S (sum_list (nodeCount <$> args))
  end.

Lemma wfNode_call fn args :
  wfNode (kCall fn args) <-> arityOk fn (length args) /\ Forall wfNode args.
Proof.
  simpl. apply and_iff_compat_l. induction args as [|x l IH]; [by split; constructor|].
  by rewrite Forall_cons, <- IH.
Qed.

(** Induction over expressions with the arguments of calls. *)
Lemma node_ind' (Q : node -> Prop) :
  (forall v, Q (kNumber v)) -> (forall s, Q (kString s)) -> (forall s, Q (kIdent s)) ->
  (forall op x, Q x -> Q (kUnary op x)) -> (forall op l r, Q l -> Q r -> Q (kBinary op l r)) ->
  (forall fn args, Forall Q args -> Q (kCall fn args)) -> forall n, Q n.
Proof.
  intros H1 H2 H3 H4 H5 H6. fix IH 1. intros [v|s|s|op x|op l r|fn args].
  - apply H1.
  - apply H2.
  - apply H3.
  - apply H4, IH.
  - apply H5; apply IH.
  - apply H6. induction args as [|x l IHl]; constructor; [apply IH|apply IHl].
Qed.

(** ** Lexing *)

Lemma bytesOf_text s : bytesOf (text s) = s.
Proof. apply String.list_ascii_of_string_of_list_ascii. Qed.

Lemma spanWhile_spec p s a b :
  spanWhile p s = (a, b) -> s = a ++ b /\ Forall (fun c => p c = true) a.
Proof.
  revert a b. induction s as [|c s IH]; intros a b; simpl; [intros [= <- <-]; done|].
  destruct (p c) eqn:Ec; [|intros [= <- <-]; done].
  destruct (spanWhile p s) as [a' b'] eqn:E. intros [= <- <-].
  destruct (IH a' b' eq_refl) as [-> Hf]. split; [done|by constructor].
Qed.

Lemma wordPart_fine c : isWordPart c = true -> c ∉ refusedInQuoted.
Proof.
  intros Hc Hin. assert (code c = 34 \/ code c = 92 \/ code c = 0)%nat as Hn.
  { apply elem_of_cons in Hin as [->|[->|[->|[]%not_elem_of_nil]%elem_of_cons]%elem_of_cons];
      [by left|by right; left|by right; right]. }
  unfold isWordPart, isWordStart, isDigit, between in Hc.
  destruct Hn as [E|[E|E]]; rewrite E in Hc; discriminate.
Qed.

Lemma lowerAscii_fine c : isWordPart c = true -> isWordPart (lowerAscii c) = true.
Proof.
  unfold lowerAscii. destruct (65 <=? code c)%nat eqn:E1, (code c <=? 90)%nat eqn:E2; try done.
  intros _. simpl. apply Nat.leb_le in E1, E2. unfold isWordPart, isWordStart, between.
  rewrite Ascii.nat_ascii_embedding by lia.
  assert ((97 <=? code c + 32)%nat = true) as -> by (apply Nat.leb_le; lia).
  assert ((code c + 32 <=? 122)%nat = true) as -> by (apply Nat.leb_le; lia).
  simpl. by rewrite orb_true_r.
Qed.

Lemma digitsValue_nonneg ds : Forall (fun c => isDigit c = true) ds -> 0 <= digitsValue ds.
Proof.
  unfold digitsValue. assert (forall v, 0 <= v -> Forall (fun c => isDigit c = true) ds ->
    0 <= foldl (fun v c => v * 10 + (Z.of_nat (code c) - 48)) v ds) as Hg; [|auto with lia].
  induction ds as [|c ds IH]; intros v Hv Hf; simpl; [done|].
  apply Forall_cons in Hf as [Hc Hf]. apply IH; [|done].
  unfold isDigit, between in Hc. apply andb_prop in Hc as [H1%Nat.leb_le H2]. lia.
Qed.

Lemma lexWord_spec c s t rest :
  isWordStart c = true -> lexWord (c :: s) = Some (t, rest) ->
  tokenOk t /\ (length rest <= length s)%nat.
Proof.
  intros Hc. unfold lexWord. destruct (spanWhile isWordPart s) as [a b] eqn:E.
  apply spanWhile_spec in E as [-> Hf].
  destruct (maxIdentLen <? length (c :: a))%nat eqn:El; [done|]. apply Nat.ltb_ge in El.
  assert (Forall (fun c => isWordPart c = true) (c :: a)) as Hw
    by (constructor; [unfold isWordPart; by rewrite Hc|done]).
  intros [= <- <-]. rewrite length_app. split; [|lia].
  assert (forall l, l <> [] -> (length l <= maxIdentLen)%nat -> Forall (fun c => isWordPart c = true) l ->
    identOk (text l)) as Hid.
  { intros l Hne Hl Hl'. unfold identOk. rewrite bytesOf_text. split_and!; try done.
    eapply Forall_impl; [exact Hl'|]. apply wordPart_fine. }
  unfold tokenOk. destruct (reserved _); [apply (Hid (lower (c :: a)))|by apply (Hid (c :: a))].
  - done.
  - unfold lower. by rewrite length_map.
  - unfold lower. clear -Hw. induction Hw; constructor; auto using lowerAscii_fine.
Qed.

Lemma lexNumber_spec c s t rest :
  isDigit c = true -> lexNumber (c :: s) = Some (t, rest) ->
  tokenOk t /\ (length rest <= length s)%nat.
Proof.
  intros Hc. unfold lexNumber. destruct (spanWhile isDigit (c :: s)) as [int s1] eqn:E.
  assert (exists int', int = c :: int') as [int' ->].
  { simpl in E. rewrite Hc in E. destruct (spanWhile isDigit s). injection E as <- <-. eauto. }
  apply spanWhile_spec in E as [Es Hf]. injection Es as ->.
  set (m := match s1 with | [] => _ | _ => _ end).
  assert (length m.2 <= length s1)%nat as Hm.
  { unfold m. destruct s1 as [|x [|y s1]]; simpl; [lia|simpl; lia|].
    destruct (bool_decide (x = point) && isDigit y); [|simpl; lia].
    destruct (isDigit y); [|simpl; lia].
    destruct (spanWhile isDigit s1) as [fr s2] eqn:E2. apply spanWhile_spec in E2 as [-> _].
    simpl. rewrite length_app. lia. }
  destruct m as [[isFloat frac] s2]. cbn [snd] in Hm.
  destruct (match s2 with [] => false | x :: _ => _ end); [done|]. rewrite length_app.
  destruct (if isFloat then None else ParseInt (c :: int')) as [v|] eqn:Ep.
  - intros [= <- <-]. split; [|lia]. destruct isFloat; [done|]. unfold ParseInt in Ep.
    destruct (digitsValue (c :: int') <=? 2 ^ 63 - 1) eqn:Ev; [|done]. injection Ep as <-.
    apply Z.leb_le in Ev. split; [by apply digitsValue_nonneg|done].
  - destruct (ParseFloatOk _ _); [|done]. intros [= <- <-]. split; [|lia].
    done.
Qed.

Lemma stringBody_spec : forall s b rest,
  stringBody s = Some (b, rest) -> Forall (fun c => c <> nul) b /\ (length rest < length s)%nat.
Proof.
  intros s. remember (length s) as n eqn:En. revert s En.
  induction n as [n IH] using lt_wf_ind. intros s -> b rest. destruct s as [|c s1]; [done|]. simpl. case_bool_decide as Hc.
  - destruct s1 as [|d s2]; [intros [= <- <-]; by split; [|simpl; lia]|].
    case_bool_decide.
    + destruct (stringBody s2) as [[b' r']|] eqn:E; [|done]. simpl. intros [= <- <-].
      apply (IH (length s2)) in E as [? ?]; [|simpl; lia|done]. split; [by constructor|simpl in *; lia].
    + intros [= <- <-]. split; [done|simpl; lia].
  - case_bool_decide; [done|]. destruct (stringBody s1) as [[b' r']|] eqn:E; [|done].
    simpl. intros [= <- <-]. apply (IH (length s1)) in E as [? ?]; [|simpl; lia|done].
    split; [by constructor|simpl in *; lia].
Qed.

(** A list of literals is part of another. *)
Ltac in_literals H :=
  repeat (apply elem_of_cons in H as [->|H]; [by apply (bool_decide_unpack _); vm_compute|]);
  by apply not_elem_of_nil in H.

Lemma oneOps s : s ∈ ["+"; "-"; "*"; "/"; "%"; "="; "<"; ">"] -> s ∈ symbolOps.
Proof. intros H. in_literals H. Qed.

Lemma twoOps s : s ∈ ["<="; ">="; "!="; "<>"; "=="] -> s ∈ symbolOps.
Proof. intros H. in_literals H. Qed.

Lemma lexSymbol_spec s t rest :
  lexSymbol s = Some (t, rest) -> tokenOk t /\ (length rest < length s)%nat.
Proof.
  unfold lexSymbol. destruct s as [|c s1]; [done|].
  assert (forall o, o = (let t := text [c] in
        if bool_decide (t ∈ ["+"; "-"; "*"; "/"; "%"; "="; "<"; ">"]) then Some (tOp t, s1)
        else if bool_decide (t = "(") then Some (tLParen, s1)
        else if bool_decide (t = ")") then Some (tRParen, s1)
        else if bool_decide (t = ",") then Some (tComma, s1)
        else None) -> o = Some (t, rest) -> tokenOk t /\ (length rest < length (c :: s1))%nat) as Hone.
  { intros o -> E. cbv zeta in E. case_bool_decide as H1; [|repeat case_bool_decide; simplify_eq; (split; [done|simpl; lia])].
    injection E as <- <-. split; [|simpl; lia]. by apply oneOps. }
  destruct s1 as [|d s2]; [by apply Hone|]. case_bool_decide as H2; [|by apply Hone].
  intros [= <- <-]. split; [|simpl; lia]. by apply twoOps.
Qed.

Lemma lexOne_spec s t rest :
  lexOne s = Some (t, rest) -> tokenOk t /\ (length rest < length s)%nat.
Proof.
  unfold lexOne. destruct s as [|c s]; [done|]. cbn [length].
  destruct (isDigit c) eqn:E1; [intros [??]%lexNumber_spec; [split; [done|lia]|done]|].
  destruct (isWordStart c) eqn:E2; [intros [??]%lexWord_spec; [split; [done|lia]|done]|].
  case_bool_decide.
  { unfold lexString. cbn [tl]. destruct (stringBody s) as [[b r]|] eqn:E; [|done]. simpl.
    intros [= <- <-]. apply stringBody_spec in E as [? ?]. split; [|lia].
    unfold tokenOk, textOk. by rewrite bytesOf_text. }
  case_bool_decide; [|by intros ?%lexSymbol_spec].
  unfold lexQuoted. cbn [tl]. destruct (spanWhile _ s) as [name s1] eqn:E.
  apply spanWhile_spec in E as [-> _]. destruct s1 as [|x s2]; [done|].
  destruct (bool_decide (name = []) || _ || _) eqn:Eb; [done|]. intros [= <- <-].
  apply orb_false_elim in Eb as [[Hn Hl]%orb_false_elim Hr].
  apply bool_decide_eq_false_1 in Hn. apply Nat.ltb_ge in Hl.
  split; [|rewrite length_app; simpl; lia]. unfold tokenOk, identOk. rewrite bytesOf_text.
  split_and!; try done. apply Forall_forall. intros y Hy Hin.
  assert (existsb (fun c => bool_decide (c ∈ refusedInQuoted)) name = true) as Ht; [|congruence].
  apply existsb_exists. exists y. split; [by apply list_elem_of_In|by apply bool_decide_eq_true_2].
Qed.

(** The lexer yields good tokens that end in [tEOF], and its fuel is enough: more of it
    changes nothing. *)
Lemma lexLoop_ok fuel : forall s toks,
  lexLoop fuel s = Some toks -> Forall tokenOk toks /\ exists l, toks = l ++ [tEOF].
Proof.
  assert (Forall tokenOk [tEOF] /\ exists l, [tEOF] = l ++ [tEOF]) as Hend.
  { split; [by apply Forall_singleton|by exists []]. }
  induction fuel as [|fuel IH]; intros [|c s] toks; cbn [lexLoop]; [by intros [= <-]|done|by intros [= <-]|].
  destruct (isBlank c); [by apply IH|].
  destruct (lexOne (c :: s)) as [[t rest]|] eqn:E; [|done]. simpl.
  destruct (lexLoop fuel rest) as [ts|] eqn:El; [|done]. simpl. intros [= <-].
  apply lexOne_spec in E as [? _]. apply IH in El as [? (l & ->)].
  split; [by constructor|by exists (t :: l)].
Qed.

Lemma lexLoop_fuel fuel fuel' : forall s,
  (length s <= fuel)%nat -> (length s <= fuel')%nat -> lexLoop fuel s = lexLoop fuel' s.
Proof.
  revert fuel'. induction fuel as [|fuel IH]; intros [|fuel'] [|c s] H1 H2; cbn [lexLoop length] in *; try done; try lia.
  destruct (isBlank c); [apply IH; lia|].
  destruct (lexOne (c :: s)) as [[t rest]|] eqn:E; [|done]. simpl.
  apply lexOne_spec in E as [_ Hl]. simpl in Hl. by rewrite (IH fuel' rest) by lia.
Qed.

(** ** The parser of calculated fields: types, caps and round trip *)

(** ** What every parse function guarantees *)

(** The state a parse function leaves: good tokens, none added, and exactly the nodes
    of [made] counted. *)
Definition leaves (p p' : parser) (made : nat) : Prop :=
  Forall tokenOk (p_toks p') /\ (length (p_toks p') <= length (p_toks p))%nat /\
  p_nodes p' = (p_nodes p + made)%nat /\ (p_nodes p' <= MaxNodes)%nat.

Definition ready (p : parser) : Prop := Forall tokenOk (p_toks p) /\ (p_nodes p <= MaxNodes)%nat.

Definition parsesOk (m : P node) : Prop :=
  forall p n p', m p = Some (n, p') -> ready p -> wfNode n /\ leaves p p' (nodeCount n).

Lemma leaves_ready p p' k : leaves p p' k -> ready p'.
Proof. by intros (? & _ & _ & ?). Qed.

Lemma leaves_trans p p1 p2 a b : leaves p p1 a -> leaves p1 p2 b -> leaves p p2 (a + b).
Proof. intros (? & ? & ? & ?) (? & ? & ? & ?). split_and!; try done; lia. Qed.

Lemma leaves_refl p : ready p -> leaves p p 0.
Proof. intros [? ?]. split_and!; try done; lia. Qed.

Lemma leaves_advance p : ready p -> leaves p (advance p) 0.
Proof.
  intros [Ht ?]. split_and!; cbn; try lia; destruct (p_toks p); try done; simpl; try lia.
  by apply Forall_cons in Ht as [_ ?].
Qed.

Lemma head_ok p t : ready p -> head (p_toks p) = Some t -> tokenOk t.
Proof. intros [Ht _] E. destruct (p_toks p); [done|]. injection E as ->. by apply Forall_cons in Ht as [? _]. Qed.

(** A token the next parse function may use. *)
Lemma default_ok p : ready p -> tokenOk (default tEOF (head (p_toks p))).
Proof. intros Hr. destruct (head (p_toks p)) eqn:E; [|done]. by eapply head_ok. Qed.

Lemma next_ok p t p' : next p = Some (t, p') -> ready p -> tokenOk t /\ leaves p p' 0.
Proof.
  unfold next. intros [= <- <-] Hr. split; [by apply default_ok|].
  case_bool_decide; [by apply leaves_refl|by apply leaves_advance].
Qed.

Lemma mk_ok n p n' p' :
  mk n p = Some (n', p') -> ready p -> n' = n /\ leaves p p' 1.
Proof.
  unfold mk. cbn [p_nodes]. intros E Hr. destruct (MaxNodes <? _)%nat eqn:El; [done|].
  injection E as <- <-. apply Nat.ltb_ge in El. split; [done|].
  destruct Hr. split_and!; cbn; try done; lia.
Qed.

(** The operators a level picks are binary operators, and the end is none of them. *)
Definition picksOk (pick : token -> option string) : Prop :=
  pick tEOF = None /\ forall t op, pick t = Some op -> op ∈ binaryOps.

Lemma isWord_picks w : w ∈ ["and"; "or"] -> picksOk (isWord w).
Proof.
  intros Hw. split; [done|]. unfold isWord. intros t op. case_bool_decide; [|done].
  intros [= <-]. unfold binaryOps. rewrite elem_of_app. by right.
Qed.

Lemma opIn_picks ops : (forall s, s ∈ ops -> s ∈ symbolOps) -> picksOk (opIn ops).
Proof.
  intros Ho. split; [done|]. intros t op. unfold opIn. destruct t; try done.
  case_bool_decide; [|done]. intros [= <-]. unfold binaryOps. rewrite elem_of_app. left. auto.
Qed.

Lemma acceptOp_ok pick p o p' :
  pick tEOF = None -> acceptOp pick p = Some (o, p') -> ready p ->
  leaves p p' 0 /\
  match o with
  | Some op => pick (default tEOF (head (p_toks p))) = Some op /\
      (length (p_toks p') < length (p_toks p))%nat
  | None => p' = p /\ pick (default tEOF (head (p_toks p))) = None
  end.
Proof.
  intros Hp Ha Hr. unfold acceptOp in Ha.
  destruct (pick (default tEOF (head (p_toks p)))) as [op|] eqn:E; injection Ha as <- <-.
  - split; [by apply leaves_advance|]. split; [done|]. cbn.
    destruct (p_toks p); [simpl in E; congruence|]. simpl. lia.
  - split; [by apply leaves_refl|done].
Qed.

Lemma joinLoop_ok pick operand fuel : forall l p n p',
  picksOk pick -> parsesOk operand -> wfNode l ->
  joinLoop fuel pick operand l p = Some (n, p') -> ready p ->
  wfNode n /\ exists k, nodeCount n = (nodeCount l + k)%nat /\ leaves p p' k.
Proof.
  induction fuel as [|fuel IH]; intros l p n p' Hpick Hop Hl; cbn [joinLoop].
  { intros [= <- <-] Hr. split; [done|]. exists 0%nat. split; [lia|by apply leaves_refl]. }
  unfold mbind, P_bind. destruct (acceptOp pick p) as [[o p1]|] eqn:E1; [|done]. intros E Hr.
  apply acceptOp_ok in E1 as [L1 H1]; [|apply Hpick|done].
  destruct o as [op|]; [|injection E as <- <-; split; [done|]; exists 0%nat; split; [lia|done]].
  destruct (operand p1) as [[r p2]|] eqn:E2; [|done].
  destruct (Hop _ _ _ E2 (leaves_ready _ _ _ L1)) as [Hwr L2].
  destruct (binary op l r p2) as [[l' p3]|] eqn:E3; [|done].
  apply mk_ok in E3 as [-> L3]; [|by eapply leaves_ready].
  assert (wfNode (kBinary op l r)) as Hwl.
  { split; [|done]. destruct H1 as [H1 _]. by eapply Hpick. }
  apply IH in E as (Hn & k & Hk & L4); try done; [|by eapply leaves_ready].
  split; [done|]. exists (nodeCount r + 1 + k)%nat. split; [simpl in Hk; lia|].
  replace (nodeCount r + 1 + k)%nat with (0 + (nodeCount r + (1 + k)))%nat by lia.
  eapply leaves_trans; [exact L1|]. eapply leaves_trans; [exact L2|].
  eapply leaves_trans; [exact L3|done].
Qed.

(** A turn of the loop takes a token, so the number of tokens is fuel enough. *)
Lemma joinLoop_fuel pick operand fuel fuel' : forall l p,
  picksOk pick -> parsesOk operand -> ready p ->
  (length (p_toks p) <= fuel)%nat -> (fuel <= fuel')%nat ->
  joinLoop fuel pick operand l p = joinLoop fuel' pick operand l p.
Proof.
  revert fuel'. induction fuel as [|fuel IH]; intros fuel' l p Hpick Hop Hr Hf Hle.
  { destruct fuel' as [|fuel']; [done|]. cbn [joinLoop]. unfold mbind, P_bind, acceptOp.
    destruct (p_toks p) eqn:Et; [|cbn in Hf; lia]. cbn. by rewrite (proj1 Hpick). }
  destruct fuel' as [|fuel']; [lia|]. cbn [joinLoop]. unfold mbind, P_bind.
  destruct (acceptOp pick p) as [[[op|] p1]|] eqn:E1; [|done..].
  apply acceptOp_ok in E1 as [L1 [_ H1]]; [|apply Hpick|done].
  destruct (operand p1) as [[r p2]|] eqn:E2; [|done].
  destruct (Hop _ _ _ E2 (leaves_ready _ _ _ L1)) as [_ L2].
  destruct (binary op l r p2) as [[l' p3]|] eqn:E3; [|done].
  apply mk_ok in E3 as [_ L3]; [|by eapply leaves_ready].
  apply IH; try done; [by eapply leaves_ready| |lia].
  destruct L2 as (_ & ? & _), L3 as (_ & ? & _). lia.
Qed.

Lemma joined_ok pick operand : picksOk pick -> parsesOk operand -> parsesOk (joined pick operand).
Proof.
  intros Hp Hop p n p' E Hr. unfold joined, mbind, P_bind in E.
  destruct (operand p) as [[l p1]|] eqn:E1; [|done].
  destruct (Hop _ _ _ E1 Hr) as [Hl L1]. unfold byTokens in E.
  eapply joinLoop_ok in E as (Hn & k & Hk & L2); try done; [|by eapply leaves_ready].
  split; [done|]. rewrite Hk. by eapply leaves_trans.
Qed.

Lemma callArgs_ok arg fuel : forall args p args' p',
  parsesOk arg -> Forall wfNode args -> (length args <= MaxCallArgs)%nat ->
  callArgs fuel arg args p = Some (args', p') -> ready p ->
  Forall wfNode args' /\ (length args' <= MaxCallArgs)%nat /\
  exists k, sum_list (nodeCount <$> args') = (sum_list (nodeCount <$> args) + k)%nat /\ leaves p p' k.
Proof.
  induction fuel as [|fuel IH]; intros args p args' p' Harg Hargs Hlen; cbn [callArgs]; [done|].
  unfold mbind, P_bind, peek. case_bool_decide.
  { intros [= <- <-] Hr. split_and!; try done. exists 0%nat. split; [lia|by apply leaves_refl]. }
  intros E Hr. destruct (arg p) as [[a p1]|] eqn:E1; [|done].
  destruct (Harg _ _ _ E1 Hr) as [Ha L1].
  destruct (MaxCallArgs <? length (args ++ [a]))%nat eqn:El; [done|]. apply Nat.ltb_ge in El.
  assert (Forall wfNode (args ++ [a])) as Hargs' by (apply Forall_app; split; [done|by constructor]).
  assert (sum_list (nodeCount <$> args ++ [a]) = (sum_list (nodeCount <$> args) + nodeCount a)%nat) as Es.
  { clear. induction args as [|x l IHl]; [simpl; lia|]. rewrite <- app_comm_cons, !fmap_cons. simpl.
    rewrite IHl. lia. }
  revert E. case_bool_decide.
  - destruct (next p1) as [[t p2]|] eqn:E2; [|done]. intros E.
    apply next_ok in E2 as [_ L2]; [|by eapply leaves_ready].
    apply IH in E as (? & ? & k & Hk & L3); try done; [|by eapply leaves_ready].
    split_and!; try done. exists (nodeCount a + k)%nat. split; [lia|].
    replace (nodeCount a + k)%nat with (nodeCount a + (0 + k))%nat by lia.
    eapply leaves_trans; [exact L1|]. by eapply leaves_trans.
  - intros [= <- <-]. split_and!; try done. exists (nodeCount a). by split.
Qed.

Definition levelOk (d : parsers) : Prop :=
  parsesOk (P_or d) /\ parsesOk (P_not d) /\ parsesOk (P_unary d).

Lemma parseCall_ok d name : levelOk d -> parsesOk (parseCall d name).
Proof.
  intros (Hor & _) p n p' E Hr. unfold parseCall in E.
  destruct (functions _) as [[least most]|] eqn:Ef; [|done]. unfold mbind, P_bind in E.
  destruct (next p) as [[t p1]|] eqn:E1; [|done]. apply next_ok in E1 as [_ L1]; [|done].
  destruct (callArgs _ _ _ p1) as [[args p2]|] eqn:E2; [|done].
  apply callArgs_ok in E2 as (Hargs & _ & k & Hk & L2);
    [|done|constructor|unfold MaxCallArgs; simpl; lia|by eapply leaves_ready].
  destruct (next p2) as [[t' p3]|] eqn:E3; [|done].
  apply next_ok in E3 as [_ L3]; [|by eapply leaves_ready].
  destruct (negb _); [done|]. destruct (_ || _) eqn:Eb; [done|].
  apply orb_false_elim in Eb as [Hlo%Nat.ltb_ge Hhi%Nat.ltb_ge].
  apply mk_ok in E as [-> L4]; [|by eapply leaves_ready]. split.
  - apply wfNode_call. split; [|done]. by exists least, most.
  - cbn [nodeCount]. rewrite Hk. simpl.
    replace (S k) with (0 + (k + (0 + 1)))%nat by lia.
    eapply leaves_trans; [exact L1|]. eapply leaves_trans; [exact L2|]. by eapply leaves_trans.
Qed.

Lemma parsePrimary_ok d : levelOk d -> parsesOk (parsePrimary d).
Proof.
  intros Hd p n p' E Hr. unfold parsePrimary, mbind, P_bind in E.
  destruct (next p) as [[t p1]|] eqn:E1; [|done]. apply next_ok in E1 as [Ht L1]; [|done].
  assert (forall m n p', wfNode m -> nodeCount m = 1%nat -> mk m p1 = Some (n, p') ->
    wfNode n /\ leaves p p' (nodeCount n)) as Hleaf.
  { intros m n0 p0 Hm Hc Em. apply mk_ok in Em as [-> L2]; [|by eapply leaves_ready].
    split; [done|]. rewrite Hc. by apply (leaves_trans p p1 p0 0 1). }
  destruct t; try done; try (by eapply Hleaf; [..|exact E]).
  - unfold peek in E. revert E. case_bool_decide.
    + intros E. destruct (parseCall_ok d text Hd _ _ _ E (leaves_ready _ _ _ L1)) as [? L2].
      split; [done|]. by apply (leaves_trans p p1 p' 0).
    + destruct (reserved text); [done|]. intros E. by eapply Hleaf; [..|exact E].
  - destruct (P_or d p1) as [[x p2]|] eqn:E2; [|done].
    destruct (proj1 Hd _ _ _ E2 (leaves_ready _ _ _ L1)) as [Hx L2].
    destruct (next p2) as [[t' p3]|] eqn:E3; [|done].
    apply next_ok in E3 as [_ L3]; [|by eapply leaves_ready]. revert E.
    case_bool_decide; [|done]. intros [= <- <-]. split; [done|].
    replace (nodeCount x) with (0 + (nodeCount x + 0))%nat by lia.
    eapply leaves_trans; [exact L1|]. by eapply leaves_trans.
Qed.

Lemma parseUnary_ok d : levelOk d -> parsesOk (parseUnary d).
Proof.
  intros Hd p n p' E Hr. unfold parseUnary, mbind, P_bind in E.
  destruct (acceptOp _ p) as [[o p1]|] eqn:E1; [|done].
  apply acceptOp_ok in E1 as [L1 _]; [|done|done]. destruct o as [op|].
  - destruct (P_unary d p1) as [[x p2]|] eqn:E2; [|done].
    destruct (proj2 (proj2 Hd) _ _ _ E2 (leaves_ready _ _ _ L1)) as [Hx L2]. revert E.
    case_bool_decide.
    + intros [= <- <-]. split; [done|]. by apply (leaves_trans p p1 p2 0).
    + intros E. apply mk_ok in E as [-> L3]; [|by eapply leaves_ready]. split; [by split; [left|]|].
      cbn [nodeCount]. replace (S (nodeCount x)) with (0 + (nodeCount x + 1))%nat by lia.
      eapply leaves_trans; [exact L1|]. by eapply leaves_trans.
  - destruct (parsePrimary_ok d Hd _ _ _ E (leaves_ready _ _ _ L1)) as [? L2].
    split; [done|]. by apply (leaves_trans p p1 p' 0).
Qed.

Lemma parseSum_ok d : levelOk d -> parsesOk (parseSum d).
Proof.
  intros Hd. apply joined_ok; [apply opIn_picks; intros s H; in_literals H|].
  apply joined_ok; [apply opIn_picks; intros s H; in_literals H|]. by apply parseUnary_ok.
Qed.

Lemma parseCompare_ok d : levelOk d -> parsesOk (parseCompare d).
Proof.
  intros Hd p n p' E Hr. unfold parseCompare, mbind, P_bind in E.
  destruct (parseSum d p) as [[l p1]|] eqn:E1; [|done].
  destruct (parseSum_ok d Hd _ _ _ E1 Hr) as [Hl L1].
  destruct (acceptOp _ p1) as [[o p2]|] eqn:E2; [|done].
  apply acceptOp_ok in E2 as [L2 H2]; [|done|by eapply leaves_ready].
  destruct o as [op|]; [|injection E as <- <-; destruct H2 as [-> _]; done].
  destruct (parseSum d p2) as [[r p3]|] eqn:E3; [|done].
  destruct (parseSum_ok d Hd _ _ _ E3 (leaves_ready _ _ _ L2)) as [Hwr L3].
  apply mk_ok in E as [-> L4]; [|by eapply leaves_ready].
  assert (picksOk (opIn compareOps)) as [_ Hp] by (apply opIn_picks; intros s H; in_literals H).
  split; [split; [destruct H2 as [H2 _]; by eapply Hp|done]|]. cbn [nodeCount].
  replace (S (nodeCount l + nodeCount r)) with (nodeCount l + (0 + (nodeCount r + 1)))%nat by lia.
  eapply leaves_trans; [exact L1|]. eapply leaves_trans; [exact L2|]. by eapply leaves_trans.
Qed.

Lemma parseNot_ok d : levelOk d -> parsesOk (parseNot d).
Proof.
  intros Hd p n p' E Hr. unfold parseNot, acceptWord, mbind, P_bind in E. revert E.
  case_bool_decide; [|intros E; by apply (parseCompare_ok d Hd _ _ _ E)].
  destruct (P_not d (advance p)) as [[x p2]|] eqn:E2; [|done]. intros E.
  destruct (proj1 (proj2 Hd) _ _ _ E2 (leaves_ready _ _ _ (leaves_advance p Hr))) as [Hx L2].
  apply mk_ok in E as [-> L3]; [|by eapply leaves_ready].
  split; [by split; [right; left|]|]. cbn [nodeCount].
  replace (S (nodeCount x)) with (0 + (nodeCount x + 1))%nat by lia.
  eapply leaves_trans; [by apply leaves_advance|]. by eapply leaves_trans.
Qed.

Lemma parseOr_ok d : levelOk d -> parsesOk (parseOr d).
Proof.
  intros Hd. apply joined_ok; [apply isWord_picks; by right; left|].
  apply joined_ok; [apply isWord_picks; by left|]. by apply parseNot_ok.
Qed.

Lemma parsersAt_ok d : levelOk (parsersAt d).
Proof.
  induction d as [|d IH]; simpl; [by split_and!|].
  split_and!; [by apply parseOr_ok|by apply parseNot_ok|by apply parseUnary_ok].
Qed.

(** ** Properties *)

(** What [Parse] returns is well formed and within the cap on nodes. *)
Lemma Parse_ok src e :
  Parse src = Some e -> wfNode e /\ (nodeCount e <= MaxNodes)%nat.
Proof.
  unfold Parse. generalize MaxDepth as D. intros D. destruct (blank src); [done|]. destruct (_ <? _)%nat; [done|].
  destruct (lex src) as [toks|] eqn:El; [|done]. cbn [mbind option_bind].
  destruct (P_or (parsersAt D) _) as [[root p]|] eqn:E; [|done]. cbn [mbind option_bind].
  case_bool_decide; [|done]. intros [= <-]. apply lexLoop_ok in El as [Ht _].
  destruct (proj1 (parsersAt_ok D) _ _ _ E) as [Hw (_ & _ & Hc & Hle)].
  { split; [done|]. cbn. unfold MaxNodes. lia. }
  split; [done|]. cbn in Hc. lia.
Qed.

(** An expression that parses is well formed: its operators and functions are those
    of the grammar, every call has the number of arguments its function takes, integer
    literals are [int64] values, identifiers are not empty, within the length cap and
    without double quotes, backslashes and NUL bytes, strings hold no NUL byte, and
    there are at most [MaxNodes] terms. *)
Theorem Parse_wf src e :
  Parse src = Some e -> wfNode e /\ (nodeCount e <= MaxNodes)%nat.
Proof. apply Parse_ok. Qed.

Lemma Parse_wf_witness :
  exists e, Parse "coalesce(`user-id`, lower(name)) != 'x'" = Some e /\ wfNode e.
Proof.
  eexists. split; [vm_compute; reflexivity|].
  eapply (Parse_wf "coalesce(`user-id`, lower(name)) != 'x'"). vm_compute. reflexivity.
Defined.
