(* ===== verification/CalcRoundTrip.v ===== *)
(** * Every expression can be written: parsing a printed expression gives it back

    [show] writes an expression as tokens, with parentheses only around operands whose
    operator binds less tightly than their place asks for; the parser reads exactly that
    expression from them, as long as it is within the caps on nesting and terms. *)
From S2P Require Import Prelude CalcParse CalcLexProps.

(** ** Printing *)

(** How tightly an operator binds: [or], [and], comparisons, sums, products. *)
Definition opLevel (op : string) : nat :=
  if bool_decide (op = "or") then 0
  else if bool_decide (op = "and") then 1
  else if bool_decide (op ∈ ["="; "=="; "!="; "<>"; "<"; "<="; ">"; ">="]) then 3
  else if bool_decide (op ∈ ["+"; "-"]) then 4
  else 5.

(** Operators group to the left, but comparisons do not group. *)
Definition leftLevel (op : string) : nat := if (opLevel op =? 3)%nat then 4 else opLevel op.

(** How tightly an expression holds together; [not] binds less than a comparison, a
    minus sign more than a product. *)
Definition level (n : node) : nat :=
  match n with
  | kBinary op _ _ => opLevel op
  | kUnary op _ => if bool_decide (op = "not") then 2 else 6
  | _ => 7
  end.

Definition opToken (op : string) : token :=
  if bool_decide (op ∈ ["and"; "or"]) then tWord op else tOp op.

Fixpoint commaSep (l : list (list token)) : list token :=
  match l with
  | [] => []
  | [ts] => ts
  | ts :: l => ts ++ tComma :: commaSep l
  end.

(** An expression in a place that takes expressions of level [lvl] and above. *)
Fixpoint showAt (lvl : nat) (n : node) : list token :=
  let body :=
    match n with
    | kNumber v => [tNumber v]
    | kString s => [tString s]
    | kIdent s => [tQuoted s]
    | kUnary op x => if bool_decide (op = "not") then tWord "not" :: showAt 2 x else tOp "-" :: showAt 6 x
    | kBinary op l r => showAt (leftLevel op) l ++ opToken op :: showAt (S (opLevel op)) r
    | kCall fn args => tWord fn :: tLParen :: commaSep (showAt 0 <$> args) ++ [tRParen]
    end in
  if (lvl <=? level n)%nat then body else tLParen :: body ++ [tRParen].

Definition show : node -> list token := showAt 0.

(** Nesting levels a printed expression takes. *)
Fixpoint depthAt (lvl : nat) (n : node) : nat :=
  let body :=
    match n with
    | kNumber _ | kString _ | kIdent _ => 1
    | kUnary op x => S (if bool_decide (op = "not") then depthAt 2 x else depthAt 6 x)
    | kBinary op l r => Nat.max (depthAt (leftLevel op) l) (depthAt (S (opLevel op)) r)
    | kCall _ args => S (max_list (depthAt 0 <$> args))
    end%nat in
  if (lvl <=? level n)%nat then body else S body.

Definition depth : node -> nat := depthAt 0.

(** [a + b * c - (d - e)] *)
Example show_example :
  let id s := kIdent s in
  show (kBinary "-" (kBinary "+" (id "a") (kBinary "*" (id "b") (id "c"))) (kBinary "-" (id "d") (id "e"))) =
  [tQuoted "a"; tOp "+"; tQuoted "b"; tOp "*"; tQuoted "c"; tOp "-";
   tLParen; tQuoted "d"; tOp "-"; tQuoted "e"; tRParen].
Proof. reflexivity. Qed.

Lemma showAt_show lvl n :
  showAt lvl n = if (lvl <=? level n)%nat then show n else tLParen :: show n ++ [tRParen].
Proof. by destruct n. Qed.

Lemma depthAt_depth lvl n : depthAt lvl n = if (lvl <=? level n)%nat then depth n else S (depth n).
Proof. by destruct n. Qed.

Lemma depth_pos n : (1 <= depth n)%nat.
Proof.
  induction n as [v|v|v|op x IH|op l r IHl IHr|fn args IH] using node_ind'; unfold depth; cbn; try lia.
  rewrite depthAt_depth. case_match; lia.
Qed.

(** ** Steps of the parser on known tokens *)

(** One case per literal of a list. *)
Ltac each_of H := repeat (apply elem_of_cons in H as [->|H]); [..|by apply not_elem_of_nil in H].

Definition hd1 (p : parser) : token := default tEOF (head (p_toks p)).

Lemma mk_some n p : (p_nodes p < MaxNodes)%nat -> mk n p = Some (n, mkParser (p_toks p) (S (p_nodes p))).
Proof. intros Hp. unfold mk. cbn [p_nodes p_toks]. assert ((MaxNodes <? S (p_nodes p))%nat = false) as ->; [apply Nat.ltb_ge; lia|done]. Qed.

(** The parse function of each level, from [parseOr] to [parsePrimary]. *)
Definition parseAt (d : parsers) (lvl : nat) : P node :=
  match lvl with
  | 0 => parseOr d | 1 => parseAnd d | 2 => parseNot d | 3 => parseCompare d
  | 4 => parseSum d | 5 => parseProduct d | 6 => parseUnary d | _ => parsePrimary d
  end%nat.

(** The levels that are loops, and what they pick. *)
Definition joinLevel (p : nat) : Prop := p ∈ [0; 1; 4; 5]%nat.

Definition pickAt (p : nat) : token -> option string :=
  match p with
  | 0 => isWord "or" | 1 => isWord "and" | 4 => opIn ["+"; "-"] | _ => opIn ["*"; "/"; "%"]
  end%nat.

Lemma parseAt_join d p : joinLevel p -> parseAt d p = joined (pickAt p) (parseAt d (S p)).
Proof. intros Hp. unfold joinLevel in Hp. each_of Hp; reflexivity. Qed.

(** The level that a token, as an operator between operands, belongs to. *)
Definition tokenLevel (t : token) : option nat :=
  match t with
  | tWord s => if bool_decide (s = "or") then Some 0 else if bool_decide (s = "and") then Some 1 else None
  | tOp s =>
      if bool_decide (s ∈ compareOps) then Some 3
      else if bool_decide (s ∈ ["+"; "-"]) then Some 4
      else if bool_decide (s ∈ ["*"; "/"; "%"]) then Some 5 else None
  | _ => None
  end%nat.

(** No level from [lvl] on takes the token. *)
Definition follows (lvl : nat) (t : token) : Prop := forall j, tokenLevel t = Some j -> (j < lvl)%nat.

Lemma follows_le lvl lvl' t : follows lvl t -> (lvl <= lvl')%nat -> follows lvl' t.
Proof. intros Hf Hle j Hj. specialize (Hf j Hj). lia. Qed.

(** A token that ends an expression. *)
Definition stops (t : token) : Prop := t = tEOF \/ t = tRParen \/ t = tComma.

Lemma stops_follows lvl t : stops t -> follows lvl t.
Proof. by intros [->|[->| ->]] j. Qed.

Lemma pick_level p t op : joinLevel p -> pickAt p t = Some op -> tokenLevel t = Some p.
Proof.
  intros Hp. unfold joinLevel in Hp. each_of Hp; cbn [pickAt].
  1,2: unfold isWord; case_bool_decide; [by subst t|done].
  all: destruct t; try done; cbn [opIn]; case_bool_decide as Hs; [intros _|done]; each_of Hs; done.
Qed.

Lemma compare_level t op : opIn compareOps t = Some op -> tokenLevel t = Some 3%nat.
Proof.
  destruct t; try done. cbn [opIn tokenLevel]. case_bool_decide; [|done]. done.
Qed.

Lemma follows_pick p lvl t : joinLevel p -> follows lvl t -> (lvl <= p)%nat -> pickAt p t = None.
Proof.
  intros Hp Hf Hle. destruct (pickAt p t) as [op|] eqn:E; [|done]. apply pick_level in E; [|done].
  specialize (Hf p E). lia.
Qed.

Lemma follows_compare lvl t : follows lvl t -> (lvl <= 3)%nat -> opIn compareOps t = None.
Proof.
  intros Hf Hle. destruct (opIn compareOps t) as [op|] eqn:E; [|done]. apply compare_level in E.
  specialize (Hf 3%nat E). lia.
Qed.

(** The token of an operator is taken by its level and left by the tighter ones. *)
Lemma opToken_level op : op ∈ binaryOps -> tokenLevel (opToken op) = Some (opLevel op).
Proof. intros Hop. unfold binaryOps, symbolOps, compareOps in Hop. cbn [app] in Hop. each_of Hop; reflexivity. Qed.

Lemma opToken_pick op : op ∈ binaryOps -> joinLevel (opLevel op) -> pickAt (opLevel op) (opToken op) = Some op.
Proof.
  intros Hop. unfold binaryOps, symbolOps, compareOps in Hop. cbn [app] in Hop. unfold joinLevel.
  each_of Hop; intros Hj; try reflexivity; by apply (bool_decide_pack _) in Hj.
Qed.

Lemma opLevel_cases op : op ∈ binaryOps ->
  joinLevel (opLevel op) /\ leftLevel op = opLevel op \/
  opLevel op = 3%nat /\ leftLevel op = 4%nat /\ opIn compareOps (opToken op) = Some op.
Proof.
  intros Hop. unfold binaryOps, symbolOps, compareOps in Hop. cbn [app] in Hop. unfold joinLevel.
  each_of Hop; (by right) || (left; split; [by apply (bool_decide_unpack _)|reflexivity]).
Qed.

Lemma joined_one pick operand p n p1 :
  operand p = Some (n, p1) -> pick (hd1 p1) = None -> joined pick operand p = Some (n, p1).
Proof.
  intros E Hp. unfold joined, mbind, P_bind, byTokens. rewrite E.
  destruct (length (p_toks p1)); [done|]. cbn [joinLoop]. unfold mbind, P_bind, acceptOp.
  fold (hd1 p1). by rewrite Hp.
Qed.

Lemma joinLoop_stop fuel pick operand n p : pick (hd1 p) = None -> joinLoop fuel pick operand n p = Some (n, p).
Proof.
  intros Hp. destruct fuel; [done|]. cbn [joinLoop]. unfold mbind, P_bind, acceptOp. fold (hd1 p). by rewrite Hp.
Qed.

(** What a level reads, the level below it reads when nothing follows that it takes and
    the first token is no prefix operator of its own. *)
Definition startsAt (lvl : nat) (t : token) : Prop :=
  ((lvl <= 2)%nat -> t <> tWord "not") /\ ((lvl <= 6)%nat -> opIn ["-"; "+"] t = None).

Lemma below_step d lvl p n p1 : (lvl < 7)%nat ->
  parseAt d (S lvl) p = Some (n, p1) -> follows lvl (hd1 p1) ->
  (lvl = 2%nat -> hd1 p <> tWord "not") -> (lvl = 6%nat -> opIn ["-"; "+"] (hd1 p) = None) ->
  parseAt d lvl p = Some (n, p1).
Proof.
  intros Hl E Hf Hn Hs. assert (joinLevel lvl -> parseAt d lvl p = Some (n, p1)) as Hj.
  { intros Hj. rewrite parseAt_join by done. apply joined_one; [done|]. by eapply follows_pick. }
  destruct lvl as [|[|[|[|[|[|[|]]]]]]]; [..|lia]; try (by apply Hj, (bool_decide_unpack _)); clear Hj.
  - cbn [parseAt]. unfold parseNot, mbind, P_bind, acceptWord. case_bool_decide as H; [|done].
    destruct Hn; [done|]. unfold hd1. by rewrite H.
  - cbn [parseAt] in *. unfold parseCompare, mbind, P_bind, acceptOp. rewrite E. fold (hd1 p1).
    by rewrite (follows_compare 3 _ Hf).
  - cbn [parseAt] in *. unfold parseUnary, mbind, P_bind, acceptOp. fold (hd1 p). by rewrite Hs.
Qed.

Lemma below d lvl j p n p1 : (lvl <= j <= 7)%nat ->
  parseAt d j p = Some (n, p1) -> follows lvl (hd1 p1) ->
  ((lvl <= 2 < j)%nat -> hd1 p <> tWord "not") -> ((lvl <= 6 < j)%nat -> opIn ["-"; "+"] (hd1 p) = None) ->
  parseAt d lvl p = Some (n, p1).
Proof.
  intros [Hle H7]. induction Hle as [|j Hle IH]; [done|]. intros E Hf Hn Hs. apply IH; [lia| |done|..].
  - apply below_step; [lia|done|by eapply follows_le|..]; intros ->; [apply Hn|apply Hs]; lia.
  - intros ?. apply Hn. lia.
  - intros ?. apply Hs. lia.
Qed.

(** ** The round trip *)

Abbreviation at_ ts k := (mkParser ts k).

(** In its place a printed expression followed by [rest] parses to it and leaves [rest]. *)
Definition readsAt (lvl : nat) (n : node) : Prop :=
  forall d rest k, (depthAt lvl n <= S d)%nat -> follows lvl (hd1 (at_ rest k)) -> (k + nodeCount n <= MaxNodes)%nat ->
  parseAt (parsersAt d) lvl (at_ (showAt lvl n ++ rest) k) = Some (n, at_ rest (k + nodeCount n)).

(** A loop's first operand and some of its turns read the expression; [rest] may go on
    with another operator of the level. *)
Definition loopReads (p : nat) (n : node) : Prop :=
  forall d rest k, (depthAt p n <= S d)%nat -> follows (S p) (hd1 (at_ rest k)) -> (k + nodeCount n <= MaxNodes)%nat ->
  exists x p1 turns,
    parseAt (parsersAt d) (S p) (at_ (showAt p n ++ rest) k) = Some (x, p1) /\
    (turns + length rest <= length (p_toks p1))%nat /\
    forall fuel, joinLoop (turns + fuel) (pickAt p) (parseAt (parsersAt d) (S p)) x p1 =
      joinLoop fuel (pickAt p) (parseAt (parsersAt d) (S p)) n (at_ rest (k + nodeCount n)).

Lemma next_at t ts k : t <> tEOF -> next (at_ (t :: ts) k) = Some (t, at_ ts k).
Proof. intros Ht. unfold next. cbn [p_toks head default]. by rewrite bool_decide_eq_false_2. Qed.

Lemma advance_at t ts k : advance (at_ (t :: ts) k) = at_ ts k.
Proof. done. Qed.

Lemma nodeCount_pos n : (1 <= nodeCount n)%nat.
Proof. destruct n; simpl; lia. Qed.

Lemma functions_names fn p : functions fn = Some p ->
  text (lower (bytesOf fn)) = fn /\ reserved fn = false.
Proof.
  unfold functions. repeat case_bool_decide; subst; try done; intros _; by vm_compute.
Qed.

(** What a printed expression starts with. *)
Lemma showAt_head n : wfNode n -> forall lvl, exists t ts, showAt lvl n = t :: ts /\ ~ stops t /\
  ((3 <= lvl)%nat -> t <> tWord "not") /\ ((7 <= lvl)%nat -> opIn ["-"; "+"] t = None).
Proof.
  assert (forall t, t <> tEOF -> t <> tRParen -> t <> tComma -> ~ stops t) as Hs by (by intros t ? ? ? [?|[?|?]]).
  intros Hw. induction n as [v|s|s|op x IH|op l r IHl _|fn args _] using node_ind'; intros lvl; rewrite showAt_show;
    (match goal with |- context [(lvl <=? level ?n)%nat] => destruct (Nat.leb_spec lvl (level n)) as [El|El] end; [|by eexists _, _; split; [reflexivity|]; split_and!; [apply Hs|..]]).
  1-3: by eexists _, _; split; [reflexivity|]; split_and!; [apply Hs|..].
  - unfold show. cbn [showAt level] in *.
    case_bool_decide; eexists _, _; (split; [reflexivity|]); (split_and!; [by apply Hs|intros ?..]); try done; lia.
  - unfold show. cbn [showAt level] in *. destruct Hw as (Hop & Hl & _).
    destruct (IHl Hl (leftLevel op)) as (t & ts & -> & H1 & H2 & H3). eexists t, _. split; [reflexivity|].
    assert (opLevel op <= leftLevel op)%nat as Hle by (unfold leftLevel; case_match eqn:E; [apply Nat.eqb_eq in E|]; lia).
    split_and!; [done|intros ?; apply H2; lia|intros ?; apply H3; lia].
  - apply wfNode_call in Hw as [(lo & hi & Hf & _) _]. apply functions_names in Hf as [_ Hr].
    eexists _, _. split; [reflexivity|]. split_and!; [by apply Hs| |done]. intros _ [= ->]. done.
Qed.

Lemma head_starts n lvl rest k : wfNode n ->
  ((3 <= lvl)%nat -> hd1 (at_ (showAt lvl n ++ rest) k) <> tWord "not") /\
  ((7 <= lvl)%nat -> opIn ["-"; "+"] (hd1 (at_ (showAt lvl n ++ rest) k)) = None).
Proof. intros Hw. by destruct (showAt_head n Hw lvl) as (t & ts & -> & _ & H2 & H3). Qed.

(** The same tokens serve every place up to the level of the expression. *)
Lemma reads_below n lvl j : wfNode n -> (lvl <= j <= 7)%nat -> showAt lvl n = showAt j n -> depthAt lvl n = depthAt j n ->
  readsAt j n -> readsAt lvl n.
Proof.
  intros Hw Hj Es Ed Hr d rest k Hd Hf Hk. rewrite Es. pose proof (head_starts n j rest k Hw) as [H2 H3].
  apply (below _ lvl j); [done|apply Hr; [lia|apply follows_le with lvl; [done|lia]|done]|done|..]; intros ?; [apply H2|apply H3]; lia.
Qed.

Lemma level_le n : (level n <= 7)%nat.
Proof. destruct n; cbn; try lia; [by case_bool_decide; lia|]. unfold opLevel. repeat case_bool_decide; lia. Qed.

(** An expression that is read at its own level is read everywhere. *)
Lemma reads_everywhere n : wfNode n -> readsAt (level n) n -> forall lvl, (lvl <= 7)%nat -> readsAt lvl n.
Proof.
  intros Hw Hr. pose proof (level_le n) as H7.
  assert (forall lvl, (lvl <= level n)%nat -> readsAt lvl n) as Hlow.
  { intros lvl Hl. apply (reads_below n lvl (level n)); try done; rewrite ?showAt_show, ?depthAt_depth;
      by rewrite !(proj2 (Nat.leb_le _ _)). }
  intros lvl Hl. destruct (Nat.le_gt_cases lvl (level n)) as [?|Hg]; [by apply Hlow|].
  assert (forall i, (level n < i)%nat -> showAt i n = tLParen :: show n ++ [tRParen] /\ depthAt i n = S (depth n)) as Hp.
  { intros i Hi. by rewrite showAt_show, depthAt_depth, (proj2 (Nat.leb_gt _ _)). }
  destruct (Hp lvl Hg) as [Es Ed]. destruct (Hp 7%nat) as [Es7 Ed7]; [lia|].
  apply (reads_below n lvl 7); [done|lia|congruence|congruence|].
  intros d rest k Hd Hf Hk. rewrite Es7. cbn [app parseAt]. rewrite <- app_assoc. cbn [app].
  unfold parsePrimary, mbind, P_bind. rewrite next_at by done. destruct d as [|d]; [pose proof (depth_pos n); lia|].
  cbn [parsersAt P_or].
  pose proof (Hlow 0%nat ltac:(lia) d (tRParen :: rest) k) as H0. cbn [parseAt] in H0. unfold show in *.
  rewrite H0; [by rewrite next_at|unfold depth in *; lia|apply stops_follows; by right; left|done].
Qed.

(** Reading by the turns of a loop. *)
Lemma loop_of_reads p n : level n <> p -> (S p <= 7)%nat -> readsAt (S p) n -> loopReads p n.
Proof.
  intros Hne Hp Hr d rest k Hd Hf Hk.
  assert (showAt p n = showAt (S p) n /\ depthAt p n = depthAt (S p) n) as [-> Ed].
  { rewrite !showAt_show, !depthAt_depth.
    destruct (Nat.leb_spec p (level n)), (Nat.leb_spec (S p) (level n)); try done; lia. }
  exists n, (at_ rest (k + nodeCount n)), 0%nat. split_and!; [apply Hr; [lia|done|done]|cbn; lia|done].
Qed.

Lemma reads_of_loop p n : joinLevel p -> loopReads p n -> readsAt p n.
Proof.
  intros Hp Hl d rest k Hd Hf Hk.
  destruct (Hl d rest k Hd ltac:(apply follows_le with p; [done|lia]) Hk) as (x & p1 & turns & E & Ht & Hj).
  rewrite parseAt_join by done. unfold joined, mbind, P_bind, byTokens. rewrite E.
  replace (length (p_toks p1)) with (turns + (length (p_toks p1) - turns))%nat by lia. rewrite Hj.
  apply joinLoop_stop. by eapply follows_pick.
Qed.

Lemma showAt_binary op l r :
  showAt (opLevel op) (kBinary op l r) = showAt (leftLevel op) l ++ opToken op :: showAt (S (opLevel op)) r.
Proof. cbn [showAt level]. by rewrite Nat.leb_refl. Qed.

Lemma depthAt_binary op l r :
  depthAt (opLevel op) (kBinary op l r) = Nat.max (depthAt (leftLevel op) l) (depthAt (S (opLevel op)) r).
Proof. cbn [depthAt level]. by rewrite Nat.leb_refl. Qed.

(** The left operand is read by the turns so far, the operator and the right one by one
    more. *)
Lemma loop_binary op l r : op ∈ binaryOps -> joinLevel (opLevel op) -> leftLevel op = opLevel op ->
  loopReads (opLevel op) l -> readsAt (S (opLevel op)) r -> loopReads (opLevel op) (kBinary op l r).
Proof.
  intros Hop Hj El Hl Hr d rest k Hd Hf Hk. rewrite depthAt_binary, El in Hd. rewrite showAt_binary, El, <- app_assoc.
  cbn [nodeCount app] in *. set (p := opLevel op) in *. set (rest1 := opToken op :: showAt (S p) r ++ rest).
  destruct (Hl d rest1 k) as (x & p1 & turns & E & Ht & Hloop); [lia| |lia|].
  { intros j. cbn. rewrite opToken_level by done. intros [= <-]. unfold p. lia. }
  exists x, p1, (turns + 1)%nat. split_and!; [exact E| |].
  { unfold rest1 in Ht. cbn [length] in Ht. rewrite length_app in Ht. lia. }
  intros fuel. rewrite <- Nat.add_assoc, Hloop. cbn [Nat.add joinLoop]. unfold mbind, P_bind, acceptOp, rest1 at 1.
  cbn [p_toks head default]. unfold id. unfold p at 1. rewrite opToken_pick by done. unfold rest1. rewrite advance_at.
  rewrite (Hr d rest (k + nodeCount l)%nat) by (done || lia). unfold binary. rewrite mk_some by (cbn; lia).
  cbn [p_toks p_nodes]. do 2 f_equal. lia.
Qed.

Lemma reads_compare op l r : op ∈ binaryOps -> opLevel op = 3%nat -> leftLevel op = 4%nat ->
  opIn compareOps (opToken op) = Some op -> readsAt 4 l -> readsAt 4 r -> readsAt 3 (kBinary op l r).
Proof.
  intros Hop E3 E4 Ho Hl Hr d rest k Hd Hf Hk. rewrite <- E3 in Hd. rewrite depthAt_binary, E3, E4 in Hd.
  rewrite <- E3 at 2. rewrite showAt_binary, E3, E4, <- app_assoc. cbn [nodeCount app parseAt] in *.
  specialize (Hl d (opToken op :: showAt 4 r ++ rest) k ltac:(lia)). cbn [parseAt] in Hl.
  specialize (Hr d rest (k + nodeCount l)%nat ltac:(lia)). cbn [parseAt] in Hr.
  unfold parseCompare, mbind, P_bind. rewrite Hl; [|intros j; cbn; rewrite opToken_level, E3 by done; intros [= <-]; lia|lia].
  unfold acceptOp. cbn [p_toks head default]. unfold id. rewrite Ho, advance_at.
  rewrite Hr; [|apply follows_le with 3%nat; [done|lia]|lia].
  unfold binary. rewrite mk_some by (cbn; lia). cbn. do 3 f_equal. lia.
Qed.

Lemma reads_minus x : wfNode x -> readsAt 6 x -> readsAt 6 (kUnary "-" x).
Proof.
  intros Hw Hx d rest k Hd Hf Hk. cbn [showAt depthAt level parseAt nodeCount] in *.
  rewrite bool_decide_eq_false_2 in * by done. cbn [Nat.leb app] in *.
  destruct d as [|d]; [rewrite depthAt_depth in Hd; pose proof (depth_pos x); case_match; lia|].
  specialize (Hx d rest k ltac:(lia) Hf ltac:(lia)). cbn [parseAt] in Hx.
  unfold parseUnary at 1, mbind, P_bind, acceptOp. cbn [p_toks head from_option id opIn].
  rewrite bool_decide_eq_true_2 by by left. rewrite advance_at. cbn [parsersAt P_unary]. rewrite Hx.
  rewrite bool_decide_eq_false_2 by done. rewrite mk_some by (cbn; lia). cbn. do 3 f_equal. lia.
Qed.

Lemma reads_not x : wfNode x -> readsAt 2 x -> readsAt 2 (kUnary "not" x).
Proof.
  intros Hw Hx d rest k Hd Hf Hk. cbn [showAt depthAt level parseAt nodeCount] in *.
  rewrite bool_decide_eq_true_2 in * by done. cbn [Nat.leb app] in *.
  destruct d as [|d]; [rewrite depthAt_depth in Hd; pose proof (depth_pos x); case_match; lia|].
  specialize (Hx d rest k ltac:(lia) Hf ltac:(lia)). cbn [parseAt] in Hx.
  unfold parseNot at 1, mbind, P_bind, acceptWord. cbn [p_toks head].
  rewrite bool_decide_eq_true_2 by done. rewrite advance_at. cbn [parsersAt P_not]. rewrite Hx.
  rewrite mk_some by (cbn; lia). cbn. do 3 f_equal. lia.
Qed.

(** The arguments of a call. *)
Lemma callArgs_reads d rest args : forall done k fuel,
  Forall wfNode args -> Forall (readsAt 0) args -> Forall (fun a => depth a <= S d)%nat args ->
  (length done + length args <= MaxCallArgs)%nat -> (length args < fuel)%nat ->
  (k + sum_list (nodeCount <$> args) <= MaxNodes)%nat ->
  callArgs fuel (parseOr (parsersAt d)) done (at_ (commaSep (showAt 0 <$> args) ++ tRParen :: rest) k) =
  Some (done ++ args, at_ (tRParen :: rest) (k + sum_list (nodeCount <$> args))).
Proof.
  induction args as [|a args IH]; intros dn k fuel Hw Hr Hd Hlen Hf Hk.
  { destruct fuel as [|fuel]; [simpl in Hf; lia|]. cbn. by rewrite app_nil_r, Nat.add_0_r. }
  destruct fuel as [|fuel]; [simpl in Hf; lia|].
  apply Forall_cons in Hw as [Hwa Hw], Hr as [Hra Hr], Hd as [Hda Hd].
  rewrite !fmap_cons in *. cbn [sum_list_with length] in *. unfold id in *.
  set (tail := match args with [] => tRParen :: rest
    | _ => tComma :: commaSep (showAt 0 <$> args) ++ tRParen :: rest end).
  assert (commaSep (showAt 0 a :: (showAt 0 <$> args)) ++ tRParen :: rest = showAt 0 a ++ tail) as ->.
  { unfold tail. destruct args; [done|]. rewrite fmap_cons. cbn [commaSep]. by rewrite <- app_assoc. }
  destruct (showAt_head a Hwa 0) as (t & ts & Es & Ht & _).
  cbn [callArgs]. unfold mbind, P_bind, peek. cbn [p_toks].
  assert (head (showAt 0 a ++ tail) = Some t) as -> by by rewrite Es.
  cbn [default]. rewrite bool_decide_eq_false_2; [|intros E; apply Ht; right; left; exact E].
  specialize (Hra d tail k Hda). cbn [parseAt] in Hra. rewrite Hra; [| |lia].
  2:{ apply stops_follows. unfold tail. destruct args; [by right; left|by right; right]. }
  assert ((MaxCallArgs <? length (dn ++ [a]))%nat = false) as ->.
  { apply Nat.ltb_ge. rewrite length_app. simpl. lia. }
  cbn [p_toks]. unfold tail. destruct args as [|a' args'].
  - cbn. by rewrite Nat.add_0_r.
  - cbn [head default]. rewrite bool_decide_eq_true_2 by done. rewrite next_at by done.
    rewrite IH; try done; [|rewrite length_app; simpl in *; lia|simpl in *; lia|lia].
    rewrite <- app_assoc. cbn [app]. do 3 f_equal. lia.
Qed.

Lemma reads_call fn args :
  wfNode (kCall fn args) -> Forall (readsAt 0) args -> readsAt 7 (kCall fn args).
Proof.
  intros [(lo & hi & Hf & Hlo) Hw]%wfNode_call Hr d rest k Hd _ Hk.
  cbn [depthAt level Nat.leb nodeCount parseAt] in *. destruct (functions_names fn _ Hf) as [Hlow _].
  assert (hi <= MaxCallArgs /\ 1 <= lo)%nat as [Hhi Hlo1].
  { revert Hf. unfold functions. unfold MaxCallArgs. repeat case_bool_decide; intros [=]; lia. }
  assert (Forall (fun a => depth a <= d)%nat args) as Hda.
  { apply Forall_forall. intros a Ha. pose proof (max_list_elem_of_le (depth a) (depthAt 0 <$> args)) as Hm.
    assert (depth a ∈ depthAt 0 <$> args) as Hin by by apply (list_elem_of_fmap_2 (depthAt 0)).
    specialize (Hm Hin). lia. }
  destruct d as [|d].
  { destruct args as [|a args]; [simpl in Hlo; lia|]. apply Forall_cons in Hda as [Ha _]. pose proof (depth_pos a). lia. }
  cbn [showAt level Nat.leb app]. rewrite <- app_assoc. cbn [app].
  unfold parsePrimary, mbind, P_bind, peek. rewrite next_at by done. cbn [p_toks head default].
  rewrite bool_decide_eq_true_2 by done.
  unfold parseCall. rewrite Hlow, Hf. unfold mbind, P_bind. rewrite next_at by done.
  cbn [parsersAt P_or]. rewrite callArgs_reads; try done; [|simpl; lia|lia|lia]. rewrite next_at by done. cbn [app].
  rewrite bool_decide_eq_true_2 by done. cbn [negb].
  assert ((length args <? lo)%nat || (hi <? length args)%nat = false) as ->.
  { apply orb_false_intro; apply Nat.ltb_ge; lia. }
  rewrite mk_some by (cbn; lia). cbn [p_toks p_nodes]. do 3 f_equal. lia.
Qed.

Lemma reads_leaf n :
  match n with kNumber _ | kString _ | kIdent _ => True | _ => False end -> readsAt 7 n.
Proof.
  intros Hn d rest k Hd _ Hk. destruct n; try done.
  all: cbn [nodeCount showAt level Nat.leb app parseAt] in *; unfold parsePrimary, mbind, P_bind.
  all: rewrite next_at by done; rewrite mk_some by (cbn; lia); cbn [p_toks p_nodes].
  all: do 3 f_equal; lia.
Qed.

Lemma joinLevel_le p : joinLevel p -> (S p <= 7)%nat.
Proof. unfold joinLevel. intros Hp. each_of Hp; lia. Qed.

(** What the induction carries: an expression is read in every place, and by the turns of
    every loop. *)
Definition readsBack (n : node) : Prop :=
  (forall lvl, (lvl <= 7)%nat -> readsAt lvl n) /\ forall p, joinLevel p -> loopReads p n.

Lemma readsBack_own n : wfNode n -> readsAt (level n) n ->
  (joinLevel (level n) -> loopReads (level n) n) -> readsBack n.
Proof.
  intros Hw Hr Hl. pose proof (reads_everywhere n Hw Hr) as Hall. split; [done|]. intros p Hp.
  destruct (decide (level n = p)) as [<-|Hne]; [by apply Hl|]. pose proof (joinLevel_le p Hp).
  apply loop_of_reads; [done|lia|]. by apply Hall.
Qed.

Lemma reads_back n : wfNode n -> readsBack n.
Proof.
  induction n as [v|s|s|op x IH|op l r IHl IHr|fn args IH] using node_ind'; intros Hw.
  1-3: by apply readsBack_own; [done|apply reads_leaf|intros H; apply joinLevel_le in H; cbn in H; lia].
  - destruct Hw as [Hop Hw]. destruct (IH Hw) as [Hx _].
    apply elem_of_cons in Hop as [->|Hop]; [|apply list_elem_of_singleton in Hop as ->].
    + apply readsBack_own; [by split; [left|]|by apply reads_minus; [|apply Hx; lia]|intros H; by apply (bool_decide_pack _) in H].
    + apply readsBack_own; [by split; [right; left|]|by apply reads_not; [|apply Hx; lia]|intros H; by apply (bool_decide_pack _) in H].
  - pose proof Hw as (Hop & Hl & Hr). destruct (IHl Hl) as [Hl1 Hl2], (IHr Hr) as [Hr1 _].
    destruct (opLevel_cases op Hop) as [[Hj El]|(E3 & E4 & Ho)].
    + assert (loopReads (opLevel op) (kBinary op l r)) as Hlp.
      { apply loop_binary; try done; [by apply Hl2|]. apply Hr1. by apply joinLevel_le. }
      apply readsBack_own; [done|by apply reads_of_loop|done].
    + apply readsBack_own; [done| |]; cbn [level]; rewrite E3; [|intros H; by apply (bool_decide_pack _) in H].
      apply reads_compare; try done; [apply Hl1|apply Hr1]; lia.
  - apply readsBack_own; [done| |intros H; apply joinLevel_le in H; cbn in H; lia]. apply reads_call; [done|].
    apply wfNode_call in Hw as [_ Hw]. rewrite Forall_forall in *. intros x Hx. apply (IH x Hx (Hw x Hx)). lia.
Qed.

(** ** Properties *)

Lemma parsersAt_or d : P_or (parsersAt (S d)) = parseAt (parsersAt d) 0.
Proof. done. Qed.

(** C39: every well-formed expression within the caps on nesting and terms can be written,
    and the parser knows precedence and grouping: from its tokens, printed with parentheses
    only where an operand binds less tightly than its place asks for (the right operand of
    a sum that is a sum, a comparison inside a comparison, a sum in a product, and so on),
    it reads the expression back, takes all of them and counts exactly its terms. *)
Theorem parse_show e :
  wfNode e -> (depth e <= MaxDepth)%nat -> (nodeCount e <= MaxNodes)%nat ->
  P_or (parsersAt MaxDepth) (mkParser (show e ++ [tEOF]) 0) =
  Some (e, mkParser [tEOF] (nodeCount e)).
Proof.
  intros Hw Hd Hc. destruct (reads_back e Hw) as [Hr _]. change MaxDepth with (S 15) in *. rewrite parsersAt_or.
  apply (Hr 0%nat (Nat.le_0_l 7)); [done|apply stops_follows; by left|done].
Qed.

Lemma parse_show_witness :
  let e := kBinary "-" (kBinary "+" (kIdent "a") (kBinary "*" (kNumber (NumInt 1)) (kIdent "b")))
             (kCall "if" [kUnary "not" (kIdent "b"); kUnary "-" (kIdent "c"); kString "x"]) in
  P_or (parsersAt MaxDepth) (mkParser (show e ++ [tEOF]) 0) = Some (e, mkParser [tEOF] 12).
Proof.
  intros e. apply (parse_show e).
  - assert (forall s, s ∈ ["a"; "b"; "c"] -> identOk s) as Hi.
    { intros s Hs. repeat (apply elem_of_cons in Hs as [->|Hs];
        [split_and!; [done|vm_compute; lia|repeat constructor; by apply (bool_decide_unpack _)]|]).
      by apply not_elem_of_nil in Hs. }
    cbn [wfNode e]. split_and!; try (by apply Hi; apply (bool_decide_unpack _)).
    all: try by apply (bool_decide_unpack _).
    + exists 3%nat, 3%nat. by split; [|simpl; lia].
  - vm_compute. lia.
  - vm_compute. lia.
Defined.
