(* ===== verification/CalcProps.v ===== *)
(** * The compiler of calculated fields: bound literals, expansion, termination *)
From stdpp Require Import relations.
From S2P Require Import Prelude CalcParse CalcLexProps CalcCompile.

(** ** Placeholders *)

Definition questionMark : ascii := "?"%char.

(** The placeholders of a SQL text. *)
Definition placeholders (s : string) : nat := length (filter (eq questionMark) (bytesOf s)).

Lemma bytesOf_app s t : bytesOf (s +:+ t) = bytesOf s ++ bytesOf t.
Proof. induction s as [|c s IH]; [done|]. change (c :: bytesOf (s +:+ t) = c :: bytesOf s ++ bytesOf t). by rewrite IH. Qed.

Lemma placeholders_app s t : placeholders (s +:+ t) = (placeholders s + placeholders t)%nat.
Proof. unfold placeholders. by rewrite bytesOf_app, filter_app, length_app. Qed.

Lemma placeholders_concat sep parts :
  placeholders sep = 0%nat ->
  placeholders (String.concat sep parts) = sum_list (placeholders <$> parts).
Proof.
  intros Hs. induction parts as [|p [|q parts] IH]; [done|rewrite fmap_cons; cbn [String.concat sum_list_with fmap list_fmap]; unfold id; lia|].
  rewrite fmap_cons. change (String.concat sep (p :: q :: parts))
    with (p +:+ sep +:+ String.concat sep (q :: parts)).
  rewrite !placeholders_app, IH, Hs. cbn [sum_list_with]. unfold id. lia.
Qed.

(** The fixed fragments of SQL hold no placeholder. *)
Ltac count_placeholders :=
  rewrite ?placeholders_app;
  repeat match goal with
  | |- context [placeholders (String ?c ?s)] => change (placeholders (String c s)) with 0%nat
  end;
  rewrite ?fmap_cons, ?fmap_nil; cbn [sum_list_with]; unfold id; lia.

Lemma binarySQL_fixed op : placeholders (binarySQL op) = 0%nat.
Proof.
  unfold binarySQL. case_bool_decide as Hop; [|by repeat case_bool_decide].
  repeat (apply elem_of_cons in Hop as [->|Hop]; [done|]). by apply not_elem_of_nil in Hop.
Qed.

Lemma unarySQL_count op x : placeholders (unarySQL op x) = placeholders x.
Proof. unfold unarySQL. case_bool_decide; count_placeholders. Qed.

Lemma joinSQL_count op l r : placeholders (joinSQL op l r) = (placeholders l + placeholders r)%nat.
Proof.
  unfold joinSQL. case_bool_decide; rewrite ?placeholders_app, ?binarySQL_fixed; count_placeholders.
Qed.

Lemma concatSQL_count parts : placeholders (concatSQL parts) = sum_list (placeholders <$> parts).
Proof.
  unfold concatSQL, stringsJoin. assert (forall p, placeholders ("COALESCE(CAST(" +:+ p +:+ " AS TEXT), '')") = placeholders p) as Hp
    by (intros p; count_placeholders).
  rewrite !placeholders_app. rewrite placeholders_concat by done.
  rewrite <- list_fmap_compose. rewrite (list_fmap_ext _ placeholders parts); [count_placeholders|].
  intros i p _. apply Hp.
Qed.

Lemma callSQL_count fn parts :
  arityOk fn (length parts) -> placeholders (callSQL fn parts) = sum_list (placeholders <$> parts).
Proof.
  intros (lo & hi & Hf & Hlen). unfold callSQL. cbv beta zeta.
  destruct (decide (fn = "coalesce")) as [->|N1].
  { rewrite bool_decide_eq_true_2 by done. unfold stringsJoin.
    rewrite !placeholders_app, placeholders_concat by done. count_placeholders. }
  rewrite bool_decide_eq_false_2 by done.
  destruct (decide (fn = "lower")) as [->|N2].
  { rewrite bool_decide_eq_true_2 by done. vm_compute in Hf. injection Hf as <- <-.
    destruct parts as [|p [|q l]]; cbn [length] in Hlen; try lia. cbn [nth]. count_placeholders. }
  rewrite bool_decide_eq_false_2 by done.
  destruct (decide (fn = "if")) as [->|N3].
  { rewrite bool_decide_eq_true_2 by done. vm_compute in Hf. injection Hf as <- <-.
    destruct parts as [|p [|q [|r [|x l]]]]; cbn [length] in Hlen; try lia.
    cbn [nth]. count_placeholders. }
  rewrite bool_decide_eq_false_2 by done. apply concatSQL_count.
Qed.

(** ** Compiling calls *)

Lemma compileNode_call resolve fn args b :
  compileNode resolve (kCall fn args) b =
  (_ ← spend 1; rs ← compileArgs resolve args; mret (callSQL fn rs.*1, mjoin rs.*2)) b.
Proof.
  cbn [compileNode]. unfold mbind, C_bind. destruct (spend 1 b) as [[[] b1]|e]; [|done].
  set (go := fix go (l : list node) : C (list sqlArgs) := match l with [] => _ | x :: l => _ end).
  assert (forall l b, go l b = compileArgs resolve l b) as ->; [|done].
  induction l as [|x l IH]; intros b2; cbn; [done|]. unfold mbind, C_bind.
  destruct (compileNode resolve x b2) as [[r b3]|e]; [|done]. by rewrite IH.
Qed.

(** Compiling an expression unfolds to its operands. *)
Lemma spend_inv b b' : spend 1 b = inl (tt, b') -> b' = b - 1 /\ 0 <= b'.
Proof. unfold spend. destruct (b - 1 <? 0) eqn:E; [done|]. intros [= <-]. to_prop. lia. Qed.

(** A resolver whose SQL has one placeholder per argument. *)
Definition binds (resolve : Resolver) : Prop :=
  forall key b r b', resolve key b = inl (r, b') -> placeholders r.1 = length r.2.

Lemma compile_binds resolve n : binds resolve -> wfNode n -> forall b r b',
  compileNode resolve n b = inl (r, b') -> placeholders r.1 = length r.2.
Proof.
  intros Hr. induction n as [v|s|s|op x IH|op l r IHl IHr|fn args IH] using node_ind'; intros Hw b res b' E.
  6: { rewrite compileNode_call in E. apply wfNode_call in Hw as [Ha Hw].
    unfold mbind, C_bind in E. destruct (spend 1 b) as [[[] b1]|]; [|done].
    assert (forall l b rs b', Forall (fun n => wfNode n -> forall b r b',
        compileNode resolve n b = inl (r, b') -> placeholders r.1 = length r.2) l ->
      Forall wfNode l -> compileArgs resolve l b = inl (rs, b') ->
      length rs = length l /\ sum_list (placeholders <$> rs.*1) = length (mjoin rs.*2)) as Hargs.
    { clear. induction l as [|x l IHl]; intros b rs b' Hi Hw E; cbn in E; [by injection E as <- <-|].
      apply Forall_cons in Hi as [Hx Hi], Hw as [Hwx Hw]. unfold mbind, C_bind in E.
      destruct (compileNode resolve x b) as [[r b1]|] eqn:Ex; [|done].
      destruct (compileArgs resolve l b1) as [[rs' b2]|] eqn:El; [|done]. injection E as <- <-.
      destruct (IHl _ _ _ Hi Hw El) as [E1 E2]. specialize (Hx Hwx _ _ _ Ex).
      split; [cbn [length]; lia|]. rewrite !fmap_cons. cbn [sum_list_with]. unfold id.
      change (mjoin (r.2 :: rs'.*2)) with (r.2 ++ mjoin rs'.*2). rewrite length_app, Hx.
      f_equal. exact E2. }
    destruct (compileArgs resolve args b1) as [[rs b2]|] eqn:Ea; [|done]. injection E as <- <-.
    destruct (Hargs _ _ _ _ IH Hw Ea) as [E1 E2]. cbn [fst snd].
    rewrite callSQL_count; [done|]. by rewrite length_fmap, E1. }
  all: cbn [compileNode] in E; unfold mbind, C_bind in E; destruct (spend 1 b) as [[[] b1]|]; try done.
  1,2: by injection E as <- <-.
  - by eapply Hr.
  - destruct (compileNode resolve x b1) as [[rx b2]|] eqn:Ex; [|done]. injection E as <- <-.
    cbn [fst snd]. rewrite unarySQL_count. eapply IH; [by apply Hw|exact Ex].
  - destruct (compileNode resolve l b1) as [[rl b2]|] eqn:El; [|done].
    destruct (compileNode resolve r b2) as [[rr b3]|] eqn:Er; [|done]. injection E as <- <-.
    destruct Hw as (_ & Hwl & Hwr). cbn [fst snd]. rewrite joinSQL_count, length_app.
    rewrite (IHl Hwl _ _ _ El), (IHr Hwr _ _ _ Er). done.
Qed.

(** ** Literals do not reach the SQL text *)

(** The expression without the values of its literals. *)
Fixpoint erase (n : node) : node :=
  match n with
  | kNumber _ | kString _ => kNumber (NumInt 0)
  | kIdent s => kIdent s
  | kUnary op x => kUnary op (erase x)
  | kBinary op l r => kBinary op (erase l) (erase r)
  | kCall fn args => kCall fn (erase <$> args)
  end.

(** The same text, the same number of arguments and the same budget left. *)
Definition sameSQL (x y : (sqlArgs * Z) + cerr) : Prop :=
  match x, y with
  | inl (r, b), inl (r', b') => r.1 = r'.1 /\ length r.2 = length r'.2 /\ b = b'
  | inr e, inr e' => e = e'
  | _, _ => False
  end.

Lemma compile_erase resolve n : forall b,
  sameSQL (compileNode resolve n b) (compileNode resolve (erase n) b).
Proof.
  induction n as [v|s|s|op x IH|op l r IHl IHr|fn args IH] using node_ind'; intros b.
  6: { cbn [erase]. rewrite !compileNode_call. unfold mbind, C_bind.
    destruct (spend 1 b) as [[[] b1]|]; [|done].
    assert (forall l b, Forall (fun n => forall b,
        sameSQL (compileNode resolve n b) (compileNode resolve (erase n) b)) l ->
      match compileArgs resolve l b, compileArgs resolve (erase <$> l) b with
      | inl (rs, b1), inl (rs', b2) => rs.*1 = rs'.*1 /\ length (mjoin rs.*2) = length (mjoin rs'.*2) /\ b1 = b2
      | inr e, inr e' => e = e'
      | _, _ => False
      end) as Hargs.
    { clear. induction l as [|x l IHl]; intros b Hi; [done|]. apply Forall_cons in Hi as [Hx Hi].
      specialize (Hx b). rewrite fmap_cons. cbn [compileArgs]. unfold mbind, C_bind.
      destruct (compileNode resolve x b) as [[r b1]|], (compileNode resolve (erase x) b) as [[r' b2]|];
        try done. destruct Hx as (E1 & E2 & <-). specialize (IHl b1 Hi).
      destruct (compileArgs resolve l b1) as [[rs b3]|], (compileArgs resolve (erase <$> l) b1) as [[rs' b4]|];
        try done. destruct IHl as (E3 & E4 & <-). unfold mret, C_ret. rewrite !fmap_cons.
      change (mjoin (r.2 :: rs.*2)) with (r.2 ++ mjoin rs.*2).
      change (mjoin (r'.2 :: rs'.*2)) with (r'.2 ++ mjoin rs'.*2). rewrite !length_app.
      split_and!; congruence. }
    specialize (Hargs args b1 IH).
    destruct (compileArgs resolve args b1) as [[rs b3]|], (compileArgs resolve (erase <$> args) b1) as [[rs' b4]|];
      try done. destruct Hargs as (E1 & E2 & <-). cbn. rewrite E1. done. }
  all: cbn [erase compileNode]; unfold mbind, C_bind; destruct (spend 1 b) as [[[] b1]|]; try done.
  - by destruct (resolve s b1) as [[r b2]|].
  - specialize (IH b1). destruct (compileNode resolve x b1) as [[r b2]|],
      (compileNode resolve (erase x) b1) as [[r' b3]|]; try done.
    destruct IH as (E1 & E2 & <-). cbn. by rewrite E1.
  - specialize (IHl b1). destruct (compileNode resolve l b1) as [[x b2]|],
      (compileNode resolve (erase l) b1) as [[x' b3]|]; try done.
    destruct IHl as (E1 & E2 & <-). specialize (IHr b2).
    destruct (compileNode resolve r b2) as [[y b4]|], (compileNode resolve (erase r) b2) as [[y' b5]|]; try done.
    destruct IHr as (E3 & E4 & <-). cbn. rewrite E1, E3, !length_app. split_and!; congruence.
Qed.

Lemma compile_shape resolve e e' r :
  erase e = erase e' -> Expr_Compile e resolve = inl r ->
  exists args, Expr_Compile e' resolve = inl (r.1, args) /\ length args = length r.2.
Proof.
  intros He. unfold Expr_Compile.
  pose proof (compile_erase resolve e maxExpansion) as H1.
  pose proof (compile_erase resolve e' maxExpansion) as H2. rewrite <- He in H2.
  destruct (compileNode resolve e maxExpansion) as [[x b1]|]; [|done]. intros [= <-].
  destruct (compileNode resolve (erase e) maxExpansion) as [[y b2]|]; [|done].
  destruct (compileNode resolve e' maxExpansion) as [[z b3]|]; [|done].
  destruct H1 as (E1 & E2 & _), H2 as (E3 & E4 & _). exists z.2.
  split; [|congruence]. destruct z. simpl in *. congruence.
Qed.

(** A compiled expression binds its literals.  When every operand of the caller
    carries one argument per placeholder, so does the compiled SQL, and two expressions
    that differ only in the values of their literals compile to the same text. *)
Theorem Compile_binds resolve src src' e e' sql args :
  binds resolve -> Parse src = Some e -> Parse src' = Some e' -> erase e = erase e' ->
  Compile src resolve = inl (sql, args) ->
  placeholders sql = length args /\
  exists args', Compile src' resolve = inl (sql, args') /\ length args' = length args.
Proof.
  intros Hb Hp Hp' He. unfold Compile. rewrite Hp, Hp'. intros Hc. split.
  - unfold Expr_Compile in Hc.
    destruct (compileNode resolve e maxExpansion) as [[r b]|] eqn:E; [|done]. injection Hc as ->.
    by apply (compile_binds resolve e Hb (proj1 (Parse_ok _ _ Hp)) _ (sql, args) _ E).
  - destruct (compile_shape _ _ _ _ He Hc) as (args' & ? & ?). by exists args'.
Qed.

Lemma demoOperand_binds : binds (ofOperand demoOperand).
Proof. intros key b r b' [= <- <-]. reflexivity. Qed.

Lemma Compile_binds_witness :
  exists args', Compile "name = '?; DROP TABLE spans'" (ofOperand demoOperand) =
    inl ("(json_extract(attributes, ?) = ?)"%string, args') /\ length args' = 2%nat.
Proof.
  refine (proj2 (Compile_binds (ofOperand demoOperand) "name = 'x'" "name = '?; DROP TABLE spans'"
    (kBinary "=" (kIdent "name") (kString "x")) (kBinary "=" (kIdent "name") (kString "?; DROP TABLE spans"))
    "(json_extract(attributes, ?) = ?)" [AText "name"; AText "x"] demoOperand_binds _ _ _ _));
    vm_compute; reflexivity.
Defined.
