(* ===== verification/CalcExpand.v ===== *)
(** * Field sets: what a lookup expands to and how it fails

    [Set.Lookup] inlines the fields a field reads.  The inlined expression is given by a
    relation; a lookup that returns compiles exactly that expression, within the budget,
    and one that fails does so for a field that does not parse, a cycle, an operand the
    caller refuses, or an expansion of more terms than the budget. *)
From stdpp Require Import relations.
From S2P Require Import Prelude CalcParse CalcLexProps CalcCompile CalcProps.

(** ** Inlining *)

(** [expands s stack n e]: [e] is [n] with the fields of [s] in place of their names;
    the fields on [stack] are being expanded already. *)
Inductive expands (s : Set_) : list string -> node -> node -> Prop :=
| x_number stack v : expands s stack (kNumber v) (kNumber v)
| x_string stack v : expands s stack (kString v) (kString v)
| x_operand stack k : Has s k = false -> expands s stack (kIdent k) (kIdent k)
| x_field stack k root e :
    Has s k = true -> k ∉ stack -> st_exprs s !! k = Some (Some root) ->
    expands s (stack ++ [k]) root e -> expands s stack (kIdent k) e
| x_unary stack op x x' : expands s stack x x' -> expands s stack (kUnary op x) (kUnary op x')
| x_binary stack op l r l' r' :
    expands s stack l l' -> expands s stack r r' ->
    expands s stack (kBinary op l r) (kBinary op l' r')
| x_call stack fn args args' :
    Forall2 (expands s stack) args args' -> expands s stack (kCall fn args) (kCall fn args').

(** [e] compiles to [r] with the caller's operands, at the cost of its size. *)
Definition compilesTo (operand : Operand) (e : node) (r : sqlArgs) : Prop :=
  forall b, Z.of_nat (nodeCount e) <= b ->
    compileNode (ofOperand operand) e b = inl (r, b - Z.of_nat (nodeCount e)).

(** What a successful compilation of [n] under [stack] shows. *)
Definition expanded (s : Set_) (stack : list string) (n : node) (b : Z) (r : sqlArgs) (b' : Z) : Prop :=
  exists e, expands s stack n e /\ Z.of_nat (nodeCount e) <= b - b' /\ 0 <= b' /\
    compilesTo (st_operand s) e r.

Lemma spend_ok b : 1 <= b -> spend 1 b = inl (tt, b - 1).
Proof. intros. unfold spend. destruct (b - 1 <? 0) eqn:E; [to_prop; lia|done]. Qed.

Lemma resolver_inv s fuel stack key b r b' :
  resolver s fuel stack key b = inl (r, b') ->
  (Has s key = false /\ st_operand s key = Some r /\ b' = b) \/
  (exists fuel' root, fuel = S fuel' /\ Has s key = true /\ key ∉ stack /\
     st_exprs s !! key = Some (Some root) /\
     compileNode (resolver s fuel' (stack ++ [key])) root b = inl (r, b')).
Proof.
  intros E. assert (exists k, k = Has s key) as [k Hk] by eauto.
  destruct fuel as [|fuel]; cbn [resolver] in E; rewrite <- Hk in E; destruct k; cbn [negb] in E.
  - destruct (decide _); done.
  - left. unfold ofOperand in E. destruct (st_operand s key); [|done]. by injection E as <- <-.
  - destruct (decide (key ∈ stack)); [done|]. right. unfold compileField in E.
    destruct (bool_decide (key ∈ st_bad s)); [done|].
    destruct (st_exprs s !! key) as [[root|]|]; try done. by exists fuel, root.
  - left. unfold ofOperand in E. destruct (st_operand s key); [|done]. by injection E as <- <-.
Qed.

(** The arguments of a call expand one by one. *)
Lemma compileArgs_expands s stack resolve l : 
  Forall (fun n => forall b r b', compileNode resolve n b = inl (r, b') -> expanded s stack n b r b') l ->
  forall b rs b', 0 <= b -> compileArgs resolve l b = inl (rs, b') ->
  exists es, Forall2 (expands s stack) l es /\
    Z.of_nat (sum_list (nodeCount <$> es)) <= b - b' /\ 0 <= b' /\
    forall c, Z.of_nat (sum_list (nodeCount <$> es)) <= c ->
      compileArgs (ofOperand (st_operand s)) es c = inl (rs, c - Z.of_nat (sum_list (nodeCount <$> es))).
Proof.
  induction 1 as [|x l Hx Hl IH]; intros b rs b' Hb E; cbn [compileArgs] in E.
  { injection E as <- <-. exists []. split_and!; [constructor|cbn; lia|done|].
    intros c _. cbn. unfold mret, C_ret. do 2 f_equal. lia. }
  unfold mbind, C_bind in E.
  destruct (compileNode resolve x b) as [[r b1]|] eqn:Ex; [|done].
  destruct (compileArgs resolve l b1) as [[rs' b2]|] eqn:El; [|done]. injection E as <- <-.
  destruct (Hx _ _ _ Ex) as (e & He & Hc & H0 & Ht).
  destruct (IH _ _ _ H0 El) as (es & Hes & Hc' & H0' & Ht').
  exists (e :: es). rewrite fmap_cons. cbn [sum_list_with]. unfold id in *.
  split_and!; [by constructor|lia|done|]. intros c Hle. cbn [compileArgs]. unfold mbind, C_bind.
  rewrite Ht by lia. cbn. rewrite Ht' by lia. cbn. unfold mret, C_ret. do 2 f_equal. lia.
Qed.

(** A compilation that returns has compiled the inlined expression. *)
Lemma compile_expands s fuel : forall stack n b r b',
  compileNode (resolver s fuel stack) n b = inl (r, b') -> expanded s stack n b r b'.
Proof.
  induction fuel as [fuel IHf] using lt_wf_ind. intros stack n.
  induction n as [v|v|k|op x IH|op l r IHl IHr|fn args IH] using node_ind'; intros b res b' E.
  6: { rewrite compileNode_call in E. unfold mbind, C_bind in E.
    destruct (spend 1 b) as [[[] b1]|] eqn:Es; [|done]. apply spend_inv in Es as [-> H1].
    destruct (compileArgs _ args (b - 1)) as [[rs b2]|] eqn:Ea; [|done]. injection E as <- <-.
    destruct (compileArgs_expands _ _ _ _ IH _ _ _ H1 Ea) as (es & He & Hc & H0 & Ht).
    exists (kCall fn es). cbn [nodeCount]. split_and!; [by constructor|lia|done|].
    intros c Hle. cbn [nodeCount] in Hle. rewrite compileNode_call. unfold mbind, C_bind. rewrite spend_ok by lia.
    rewrite Ht by lia. cbn [nodeCount]. unfold mret, C_ret. do 2 f_equal. lia. }
  all: cbn [compileNode] in E; unfold mbind, C_bind in E;
    destruct (spend 1 b) as [[[] b1]|] eqn:Es; try done; apply spend_inv in Es as [-> H1].
  1,2: injection E as <- <-; eexists; split_and!; [constructor|cbn; lia|done|];
    intros c Hle; cbn in Hle; cbn [compileNode]; unfold mbind, C_bind; rewrite spend_ok by lia;
    cbn; unfold mret, C_ret; do 2 f_equal; lia.
  - destruct (resolver_inv _ _ _ _ _ _ _ E) as [(Hh & Ho & ->)|(fuel' & root & -> & Hh & Hn & Hl & Hc)].
    + exists (kIdent k). split_and!; [by constructor|cbn; lia|done|].
      intros c Hle. cbn in Hle. cbn [compileNode]. unfold mbind, C_bind. rewrite spend_ok by lia.
      cbn. unfold ofOperand. rewrite Ho. done.
    + destruct (IHf fuel' ltac:(lia) _ _ _ _ _ Hc) as (e & He & Hle & H0 & Ht).
      exists e. split_and!; [by eapply x_field|lia|done|done].
  - destruct (compileNode _ x (b - 1)) as [[rx b2]|] eqn:Ex; [|done]. injection E as <- <-.
    destruct (IH _ _ _ Ex) as (e & He & Hc & H0 & Ht).
    exists (kUnary op e). cbn [nodeCount]. split_and!; [by constructor|lia|done|].
    intros c Hle. cbn [nodeCount compileNode] in *. unfold mbind, C_bind. rewrite spend_ok, Ht by lia.
    unfold mret, C_ret. do 2 f_equal. lia.
  - destruct (compileNode _ l (b - 1)) as [[rl b2]|] eqn:El; [|done].
    destruct (compileNode _ r b2) as [[rr b3]|] eqn:Er; [|done]. injection E as <- <-.
    destruct (IHl _ _ _ El) as (e1 & He1 & Hc1 & H01 & Ht1).
    destruct (IHr _ _ _ Er) as (e2 & He2 & Hc2 & H02 & Ht2).
    exists (kBinary op e1 e2). cbn [nodeCount]. split_and!; [by constructor|lia|done|].
    intros c Hle. cbn [nodeCount compileNode] in *. unfold mbind, C_bind.
    rewrite spend_ok, Ht1 by lia. rewrite Ht2 by lia. unfold mret, C_ret. do 2 f_equal. lia.
Qed.

(** ** The price of an expansion *)

(** The terms of an expression whose identifiers bring [f] more. *)
Fixpoint nodeTerms (f : string -> nat) (n : node) : nat :=
  match n with
  | kNumber _ | kString _ => 1
  | kIdent k => S (f k)
  | kUnary _ x => S (nodeTerms f x)
  | kBinary _ l r => S (nodeTerms f l + nodeTerms f r)
  | kCall _ args => S (sum_list (nodeTerms f <$> args))
  end.

(** The terms a field brings, unless it is on the stack already. *)
Fixpoint fieldTerms (s : Set_) (fuel : nat) (stack : list string) (k : string) : nat :=
  match fuel with
  | O => 0
  | S fuel =>
      if Has s k && negb (bool_decide (k ∈ stack)) then
        match st_exprs s !! k with
        | Some (Some root) => nodeTerms (fieldTerms s fuel (stack ++ [k])) root
        | _ => 0
        end
      else 0
  end.

(** The terms of the field [name] with the fields it uses in place of their names; no
    field is expanded inside itself, so the fields of the set bound the nesting. *)
Definition expansionTerms (s : Set_) (name : string) : Z :=
  Z.of_nat (fieldTerms s (S (size (st_exprs s))) [] name).

(** [m] spends [cost], and is over the budget only when the budget is smaller. *)
Definition priced {A} (m : C A) (cost : nat) : Prop :=
  forall b, 0 <= b ->
  match m b with
  | inl (_, b') => b' = b - Z.of_nat cost /\ 0 <= b'
  | inr EBudget => b < Z.of_nat cost
  | inr _ => True
  end.

Lemma priced_bind {A B} (m : C A) (k : A -> C B) c1 c2 :
  priced m c1 -> (forall a, priced (k a) c2) -> priced (m ≫= k) (c1 + c2).
Proof.
  intros Hm Hk b Hb. specialize (Hm b Hb). unfold mbind, C_bind. destruct (m b) as [[a b1]|e].
  - destruct Hm as [-> H1]. specialize (Hk a _ H1). destruct (k a _) as [[x b2]|[]]; try done; lia.
  - destruct e; try done. lia.
Qed.

Lemma priced_ret {A} (a : A) : priced (mret a) 0.
Proof. intros b Hb. cbn. lia. Qed.

Lemma priced_ret_after {A B} (m : C A) (k : A -> B) c : priced m c -> priced (a ← m; mret (k a)) c.
Proof. intros Hm. rewrite <- (Nat.add_0_r c). apply priced_bind; [done|]. intros a. apply priced_ret. Qed.

Lemma priced_spend : priced (spend 1) 1.
Proof. intros b Hb. unfold spend. destruct (b - 1 <? 0) eqn:E; to_prop; lia. Qed.

Lemma compileNode_priced resolve f : (forall k, priced (resolve k) (f k)) ->
  forall n, priced (compileNode resolve n) (nodeTerms f n).
Proof.
  intros Hf. induction n as [v|v|k|op x IH|op l r IHl IHr|fn args IH] using node_ind'.
  6: { assert (priced (compileArgs resolve args) (sum_list (nodeTerms f <$> args))) as Ha.
    { induction IH as [|x l Hx _ IHl]; [apply priced_ret|]. cbn [compileArgs]. rewrite fmap_cons. cbn [sum_list_with].
      unfold id. apply priced_bind; [done|]. intros r. by apply priced_ret_after. }
    intros b Hb. rewrite compileNode_call. revert b Hb. apply (priced_bind _ _ 1); [apply priced_spend|].
    intros _. by apply priced_ret_after. }
  all: cbn [compileNode nodeTerms]; apply (priced_bind _ _ 1); [apply priced_spend|]; intros _.
  - apply priced_ret.
  - apply priced_ret.
  - apply Hf.
  - by apply priced_ret_after.
  - apply priced_bind; [done|]. intros a. by apply priced_ret_after.
Qed.

Lemma priced_field s name fuel stack : Has s name = true -> name ∉ stack ->
  (forall k, priced (resolver s fuel (stack ++ [name]) k) (fieldTerms s fuel (stack ++ [name]) k)) ->
  priced (compileField s (resolver s fuel (stack ++ [name])) name) (fieldTerms s (S fuel) stack name).
Proof.
  intros Hh Hn Hf. unfold compileField. case_bool_decide; [by intros b|]. cbn [fieldTerms].
  rewrite Hh, bool_decide_eq_false_2 by done. cbn [andb negb].
  destruct (st_exprs s !! name) as [[root|]|]; [by apply compileNode_priced|by intros b..].
Qed.

Lemma resolver_priced s fuel : forall stack k, priced (resolver s fuel stack k) (fieldTerms s fuel stack k).
Proof.
  induction fuel as [|fuel IH]; intros stack k; cbn [resolver]; destruct (Has s k) eqn:Hh; cbn [negb].
  - destruct (decide _); by intros b.
  - intros b Hb. cbn. unfold ofOperand. destruct (st_operand s k); [lia|done].
  - destruct (decide (k ∈ stack)); [by intros b|]. by apply priced_field.
  - intros b Hb. cbn [fieldTerms]. rewrite Hh. cbn. unfold ofOperand. destruct (st_operand s k); [lia|done].
Qed.

Lemma Lookup_priced s name : Has s name = true ->
  priced (compileField s (resolver s (size (st_exprs s)) [name]) name) (fieldTerms s (S (size (st_exprs s))) [] name).
Proof.
  intros Hh. apply (priced_field s name _ []); [done|by apply not_elem_of_nil|]. intros k. apply resolver_priced.
Qed.

(** ** Failures *)

(** [reads s x y]: the expression of field [x] uses field [y]. *)
Definition reads (s : Set_) (x y : string) : Prop :=
  exists root, st_exprs s !! x = Some (Some root) /\ y ∈ identsOf root /\ Has s y = true.

(** A set whose nil expressions are all recorded as bad. *)
Definition setOK (s : Set_) : Prop := forall n, st_exprs s !! n = Some None -> n ∈ st_bad s.

(** Why the lookup of [name] fails: the model's fuel and nil expressions are never it. *)
Definition failure (s : Set_) (name : string) (e : cerr) : Prop :=
  match e with
  | EBudget => 2000 < expansionTerms s name
  | EBad => exists k, rtc (reads s) name k /\ k ∈ st_bad s
  | ECycle => exists k, rtc (reads s) name k /\ tc (reads s) k k
  | EOperand => exists t root k, rtc (reads s) name t /\ st_exprs s !! t = Some (Some root) /\
      k ∈ identsOf root /\ Has s k = false /\ st_operand s k = None
  | ENil | EFuel => False
  end.

(** A compilation fails on the budget or on an identifier. *)
Lemma compile_fails resolve n : forall b e, compileNode resolve n b = inr e ->
  e = EBudget \/ exists k b', k ∈ identsOf n /\ resolve k b' = inr e.
Proof.
  induction n as [v|v|k|op x IH|op l r IHl IHr|fn args IH] using node_ind'; intros b e E.
  6: { rewrite compileNode_call in E. unfold mbind, C_bind in E.
    destruct (spend 1 b) as [[[] b1]|] eqn:Es; [clear Es|unfold spend in Es; case_match; simplify_eq; auto].
    destruct (compileArgs resolve args b1) as [[rs b2]|e'] eqn:Ea; [done|]. injection E as ->.
    cbn [identsOf]. revert b1 Ea. induction IH as [|x l Hx Hl IHl]; intros b1 Ea; [done|].
    cbn [compileArgs] in Ea. unfold mbind, C_bind in Ea. rewrite fmap_cons.
    change (mjoin (identsOf x :: (identsOf <$> l))) with (identsOf x ++ mjoin (identsOf <$> l)).
    destruct (compileNode resolve x b1) as [[r b2]|e'] eqn:Ex.
    - destruct (compileArgs resolve l b2) as [[rs' b3]|e'] eqn:El; [done|]. injection Ea as ->.
      destruct (IHl _ El) as [|(k & b' & ? & ?)]; [by left|right; exists k, b'; set_solver].
    - injection Ea as ->. destruct (Hx _ _ Ex) as [|(k & b' & ? & ?)]; [by left|right; exists k, b'; set_solver]. }
  all: cbn [compileNode] in E; unfold mbind, C_bind in E;
    (destruct (spend 1 b) as [[[] b1]|] eqn:Es; [clear Es|unfold spend in Es; case_match; simplify_eq; auto]);
    try done; cbn [identsOf].
  - right. exists k, b1. set_solver.
  - destruct (compileNode resolve x b1) as [[r b2]|e'] eqn:Ex; [done|]. injection E as ->. by eapply IH.
  - destruct (compileNode resolve l b1) as [[rl b2]|e'] eqn:El.
    + destruct (compileNode resolve r b2) as [[rr b3]|e'] eqn:Er; [done|]. injection E as ->.
      destruct (IHr _ _ Er) as [|(k & b' & ? & ?)]; [by left|right; exists k, b'; set_solver].
    + injection E as ->. destruct (IHl _ _ El) as [|(k & b' & ? & ?)]; [by left|right; exists k, b'; set_solver].
Qed.

Section stack.
Context (s : Set_) (name : string) (Hs : setOK s).

(** The stack of an expansion: fields of the set, once each, all on the way from [name]
    to the field [t] whose expression is being compiled. *)
Record stackOK (stack : list string) (t : string) : Prop := {
  sk_nodup : NoDup stack;
  sk_fields k : k ∈ stack -> Has s k = true;
  sk_here : t ∈ stack;
  sk_from k : k ∈ stack -> rtc (reads s) name k;
  sk_to k : k ∈ stack -> rtc (reads s) k t;
}.

Lemma Has_dom k : Has s k = true -> k ∈ dom (st_exprs s).
Proof. unfold Has. rewrite andb_true_iff, bool_decide_eq_true. intros [H _]. by apply elem_of_dom. Qed.

(** A stack that holds as many fields as the set leaves none out. *)
Lemma stack_full stack t k :
  stackOK stack t -> (size (st_exprs s) <= length stack)%nat -> Has s k = true -> k ∈ stack.
Proof.
  intros [Hn Hf _ _ _] Hsz Hk. destruct (decide (k ∈ stack)) as [|Hk']; [done|].
  assert (list_to_set (C := gset string) (k :: stack) ⊆ dom (st_exprs s)) as Hsub.
  { intros x [->|Hx]%elem_of_list_to_set%elem_of_cons; apply Has_dom; auto. }
  apply subseteq_size in Hsub. rewrite size_list_to_set, size_dom in Hsub by (by constructor).
  cbn [length] in Hsub. lia.
Qed.

Lemma stackOK_push stack t k :
  stackOK stack t -> reads s t k -> k ∉ stack -> stackOK (stack ++ [k]) k.
Proof.
  intros [Hn Hf Ht Hfrom Hto] Hr Hk. split.
  - apply NoDup_app. split_and!; [done|set_solver|apply NoDup_singleton].
  - intros x [Hx|E%list_elem_of_singleton]%elem_of_app; [|subst x]; [by apply Hf|]. by destruct Hr as (? & _ & _ & ?).
  - set_solver.
  - intros x [Hx|E%list_elem_of_singleton]%elem_of_app; [|subst x]; [by apply Hfrom|]. eapply rtc_r; [by apply Hfrom|done].
  - intros x [Hx|E%list_elem_of_singleton]%elem_of_app; [|subst x]; [|done]. eapply rtc_r; [by apply Hto|done].
Qed.

Lemma compileField_fails fuel : forall stack t b e,
  stackOK stack t -> (size (st_exprs s) <= length stack + fuel)%nat ->
  compileField s (resolver s fuel stack) t b = inr e -> e <> EBudget -> failure s name e.
Proof.
  induction fuel as [|fuel IH]; intros stack t b e Hst Hsz E He; unfold compileField in E;
    (destruct (bool_decide (t ∈ st_bad s)) eqn:Hb;
     [injection E as <-; exists t; split; [by eapply sk_from, sk_here|by apply bool_decide_eq_true in Hb]|];
     apply bool_decide_eq_false in Hb;
     destruct (st_exprs s !! t) as [[root|]|] eqn:Hx;
     [|by apply Hs in Hx|apply not_elem_of_dom in Hx; destruct Hx; by eapply Has_dom, sk_fields, sk_here];
     destruct (compile_fails _ _ _ _ E) as [->|(k & b' & Hk & Ek)]; [done|];
     cbn [resolver] in Ek; destruct (Has s k) eqn:Hh; cbn [negb] in Ek;
     [|unfold ofOperand in Ek; destruct (st_operand s k) eqn:Ho; [done|injection Ek as <-; exists t, root, k; split_and!; [by eapply sk_from, sk_here|done..]]];
     assert (reads s t k) as Hr by (by exists root);
     destruct (decide (k ∈ stack)) as [Hin|Hnot];
     [injection Ek as <-; exists k; split; [by eapply sk_from|eapply tc_rtc_l; [by eapply sk_to|by apply tc_once]]|]).
  - destruct Hnot. eapply stack_full; [done|lia|done].
  - eapply IH; [by eapply stackOK_push| |exact Ek|exact He]. rewrite length_app. cbn [length]. lia.
Qed.
End stack.

(** ** Sets as [NewSet] builds them *)

(** After the fields [fs], every expression is that of a field of its name, and a field
    is bad when an expression stored under its name does not parse. *)
Definition builtFrom (fs : list Field) (st : gmap string (option node) * gset string) : Prop :=
  (forall n e, st.1 !! n = Some e -> exists f, f ∈ fs /\ fd_Name f = n /\ Parse (fd_Expression f) = e) /\
  (forall n, n ∈ st.2 <-> exists f, f ∈ fs /\ fd_Name f = n /\ Parse (fd_Expression f) = None).

Lemma addField_built fs st f : builtFrom fs st -> builtFrom (fs ++ [f]) (addField st f).
Proof.
  intros [He Hb]. unfold addField. split; cbn [fst snd].
  - intros n e. destruct (decide (fd_Name f = n)) as [Hn|Hn].
    + rewrite Hn, lookup_insert_eq. intros [= <-]. exists f. set_solver.
    + rewrite lookup_insert_ne by done. intros (g & ? & ? & ?)%He. exists g. set_solver.
  - intros n. destruct (Parse (fd_Expression f)) eqn:Ep.
    + rewrite Hb. split; intros (g & Hg & Hn & Hp); exists g; [set_solver|].
      apply elem_of_app in Hg as [?|Eg%list_elem_of_singleton]; [done|]. congruence.
    + rewrite elem_of_union, elem_of_singleton, Hb. split.
      * intros [->|(g & ? & ? & ?)]; [exists f|exists g]; set_solver.
      * intros (g & Hg & Hn & Hp). apply elem_of_app in Hg as [?|Eg%list_elem_of_singleton]; [eauto|].
        left. congruence.
Qed.

Lemma NewSet_built fields operand builtin :
  let s := NewSet fields operand builtin in
  builtFrom fields (st_exprs s, st_bad s) /\ st_operand s = operand.
Proof.
  assert (forall fs done st, builtFrom done st -> builtFrom (done ++ fs) (foldl addField st fs)) as H.
  { induction fs as [|f fs IH]; intros prev st Hst; [by rewrite app_nil_r|].
    cbn [foldl]. change (f :: fs) with ([f] ++ fs). rewrite (assoc_L app). by apply IH, addField_built. }
  unfold NewSet. specialize (H fields [] (∅, ∅)). destruct (foldl addField _ fields) as [exprs bad].
  split; [|done]. apply H. split; [by intros n e Hn|]. intros n. cbn. split; [set_solver|].
  intros (f & Hf & _). by apply not_elem_of_nil in Hf.
Qed.

Lemma built_ok fields s : builtFrom fields (st_exprs s, st_bad s) -> setOK s.
Proof. intros [He Hb] n Hn. apply Hb. by apply He in Hn. Qed.

(** C36: [Set.Lookup] on the set [NewSet] builds returns in every case.  It falls through
    exactly when the name is no calculated field.  An SQL text is the compilation of the
    field's expression with the fields it uses inlined, over the caller's operands, and
    then the expansion has at most 2000 terms.  A failure has its cause: the expansion has
    more than 2000 terms; a field that [name] uses, directly or not, names an operand that
    the caller refuses; such a field's stored expression does not parse; or such a field
    uses itself. *)
Theorem Lookup_expands fields operand builtin name :
  let s := NewSet fields operand builtin in
  match Lookup s name with
  | None => Has s name = false
  | Some (inl r) =>
      expansionTerms s name <= 2000 /\
      exists root e, st_exprs s !! name = Some (Some root) /\ expands s [name] root e /\
        Z.of_nat (nodeCount e) <= expansionTerms s name /\ Expr_Compile e (ofOperand operand) = inl r
  | Some (inr EBad) =>
      exists k f, rtc (reads s) name k /\ f ∈ fields /\ fd_Name f = k /\ Parse (fd_Expression f) = None
  | Some (inr ECycle) => exists k, rtc (reads s) name k /\ tc (reads s) k k
  | Some (inr EOperand) =>
      exists t root k, rtc (reads s) name t /\ st_exprs s !! t = Some (Some root) /\ k ∈ identsOf root /\
        Has s k = false /\ operand k = None
  | Some (inr EBudget) => 2000 < expansionTerms s name
  | Some (inr ENil) | Some (inr EFuel) => False
  end.
Proof.
  destruct (NewSet_built fields operand builtin) as [Hb Ho]. intros s. unfold Lookup.
  fold s in Hb, Ho. destruct (Has s name) eqn:Hh; cbn [negb]; [|done].
  assert (stackOK s name [name] name) as Hst.
  { split; [apply NoDup_singleton|..]; intros; repeat match goal with
      | H : _ ∈ [_] |- _ => apply list_elem_of_singleton in H; subst end; try done; set_solver. }
  pose proof (Lookup_priced s name Hh maxExpansion ltac:(done)) as Hp. fold (expansionTerms s name) in Hp.
  destruct (compileField s _ name maxExpansion) as [[r b]|e] eqn:E.
  - destruct Hp as [-> Hp]. split; [unfold maxExpansion in Hp; lia|]. unfold compileField in E.
    destruct (bool_decide _); [done|]. destruct (st_exprs s !! name) as [[root|]|] eqn:Hx; try done.
    destruct (compile_expands _ _ _ _ _ _ _ E) as (e & He & Hc & H0 & Ht).
    exists root, e. split_and!; [done|done|lia|]. unfold Expr_Compile. rewrite Ho in Ht. by rewrite Ht by lia.
  - assert (e <> EBudget -> failure s name e) as Hf.
    { intros He. by eapply (compileField_fails s name (built_ok fields s Hb)); [done| |done|done]; cbn [length]; lia. }
    destruct e; try (specialize (Hf ltac:(done)); cbn [failure] in Hf; try done).
    + unfold maxExpansion in Hp. lia.
    + destruct Hf as (k & Hk & (f & Hf & Hn & He)%Hb). by exists k, f.
    + by rewrite Ho in Hf.
Qed.
