(* ===== verification/Filter.v ===== *)
(** * The span filter: model and compiler ([internal/filter], [internal/calcresolve])

    A filter is a group of conditions with at most one level of nested groups.  It is
    validated and compiled to a SQL predicate with bound arguments.  Decoding JSON and
    [strconv.ParseFloat] are parameters. *)
From S2P Require Import Prelude CalcParse CalcCompile.

(** ** The model *)

(** [Op] and its constants *)
Definition OpEq : string := "=".
Definition OpNe : string := "!=".
Definition OpGt : string := ">".
Definition OpLt : string := "<".
Definition OpGte : string := ">=".
Definition OpLte : string := "<=".
Definition OpContains : string := "contains".
Definition OpStartsWith : string := "starts-with".
Definition OpExists : string := "exists".
Definition OpNotExists : string := "does-not-exist".
Definition OpIn : string := "in".
Definition OpNotIn : string := "not-in".

(** [MatchAnd] and [MatchOr] *)
Definition MatchAnd : string := "and".
Definition MatchOr : string := "or".

(** The limits. *)
Definition maxConditions : nat := 32.
Definition maxValues : nat := 100.
Definition maxKeyLen : nat := 200.
Definition maxValueLen : nat := 1024.

(** [Node] *)
Inductive Node := mkNode {
  nd_Key : string;
  nd_Op : string;
  nd_Value : string;
  nd_Values : list string;
  nd_Match : string;
  nd_Filters : list Node;
}.

(** The reasons of [ErrInvalid], and a calculated field that does not compile. *)
Inductive filterErr :=
| FRoot | FMatch | FTooMany | FNested | FBoth | FEmptyGroup
| FKey | FValueCount | FValueLen | FOp | FNumber | FField (e : cerr) | FJSON.

(** [len] of a Go string. *)
Definition len (s : string) : nat := length (bytesOf s).

Definition isOneOf (s : string) (l : list string) : bool := bool_decide (s ∈ l).

(** [validateCondition]; [None] is no error. *)
Definition validateCondition (c : Node) : option filterErr :=
  if bool_decide (nd_Key c = ""%string) || (maxKeyLen <? len (nd_Key c))%nat ||
     existsb (fun x => bool_decide (x ∈ refusedInQuoted)) (bytesOf (nd_Key c))
  then Some FKey
  else if isOneOf (nd_Op c) [OpExists; OpNotExists] then None
  else if isOneOf (nd_Op c) [OpIn; OpNotIn] then
    if (length (nd_Values c) =? 0)%nat || (maxValues <? length (nd_Values c))%nat then Some FValueCount
    else if existsb (fun v => (maxValueLen <? len v)%nat) (nd_Values c) then Some FValueLen
    else None
  else if isOneOf (nd_Op c) [OpEq; OpNe; OpGt; OpLt; OpGte; OpLte; OpContains; OpStartsWith] then
    if (maxValueLen <? len (nd_Value c))%nat then Some FValueLen else None
  else Some FOp.

(** A node with filters or a match is a group. *)
Definition isGroup (c : Node) : bool :=
  negb (bool_decide (nd_Filters c = [])) || negb (bool_decide (nd_Match c = ""%string)).

(** [validateSubgroup], with [validateGroup] for its last call. *)
Definition validateSubgroup (validateGroup : Node -> nat -> nat -> nat + filterErr) (depth : nat) (c : Node)
  (count : nat) : nat + filterErr :=
  if (1 <=? depth)%nat then inr FNested
  else if negb (bool_decide (nd_Key c = ""%string)) || negb (bool_decide (nd_Op c = ""%string)) then inr FBoth
  else if bool_decide (nd_Filters c = []) then inr FEmptyGroup
  else validateGroup c (S depth) count.

(** The loop of [validateGroup], from the conditions counted so far to those counted at
    the end. *)
Section ValidateMembers.
Context (subgroup : Node -> nat -> nat + filterErr).

Fixpoint validateMembers (l : list Node) (count : nat) : nat + filterErr :=
  match l with
  | [] => inl count
  | c :: l =>
      if isGroup c then
        match subgroup c count with inl count => validateMembers l count | inr e => inr e end
      else if (maxConditions <? S count)%nat then inr FTooMany
      else match validateCondition c with None => validateMembers l (S count) | Some e => inr e end
  end.
End ValidateMembers.

(** [validateGroup] *)
Fixpoint validateGroup (g : Node) (depth count : nat) : nat + filterErr :=
  match g with
  | mkNode _ _ _ _ m filters =>
      if negb (isOneOf m [""; MatchAnd; MatchOr]) then inr FMatch
      else validateMembers (validateSubgroup validateGroup depth) filters count
  end.

(** [Expr.Validate] of a root; a nil root is valid. *)
Definition Validate (e : option Node) : option filterErr :=
  match e with
  | None => None
  | Some e =>
      if negb (bool_decide (nd_Key e = ""%string)) || negb (bool_decide (nd_Op e = ""%string)) then Some FRoot
      else match validateGroup e 0 0 with inl _ => None | inr err => Some err end
  end.

(** [Parse]; [trimSpace] and [decode] are the standard library's. *)
Definition Filter_Parse (trimSpace : string -> string) (decode : string -> option Node) (raw : string)
  : option Node + filterErr :=
  let raw := trimSpace raw in
  if isOneOf raw [""; "null"]%string then inl None
  else
    match decode raw with
    | None => inr FJSON
    | Some e =>
        match Validate (Some e) with
        | Some err => inr err
        | None => if bool_decide (nd_Filters e = []) then inl None else inl (Some e)
        end
    end.

(** [Marshal]; [None] of the encoder is an error. *)
Definition Filter_Marshal (trimSpace : string -> string) (encode : Node -> option string) (e : option Node)
  : string :=
  match e with
  | None => ""
  | Some g => if bool_decide (nd_Filters g = []) then "" else default ""%string (trimSpace <$> encode g)
  end.

(** A condition. *)
Definition cond (key op value : string) : Node := mkNode key op value [] "" [].

(** [FromLegacy] *)
Definition FromLegacy (service operation status : string) (minDurationUs : Z) : option Node :=
  let text key v := if bool_decide (v = ""%string) then [] else [cond key OpEq v] in
  let fs := text "service"%string service ++ text "name"%string operation ++ text "status"%string status ++
            (if 0 <? minDurationUs then [cond "duration_us" OpGte (pretty minDurationUs)] else []) in
  if bool_decide (fs = []) then None else Some (mkNode "" "" "" [] MatchAnd fs).

(** ** Keys *)

(** [colKind] *)
Inductive colKind := colText | colInt.

#[export] Instance colKind_eq_dec : EqDecision colKind.
Proof. solve_decision. Defined.

(** [columns] *)
Definition columns : list (string * (string * colKind)) :=
  [("service", ("service", colText)); ("name", ("name", colText)); ("operation", ("name", colText));
   ("kind", ("kind", colText)); ("status", ("status", colText)); ("resource", ("resource", colText));
   ("trace_id", ("trace_id", colText)); ("span_id", ("span_id", colText));
   ("parent_span_id", ("parent_span_id", colText)); ("duration_us", ("duration_us", colInt));
   ("duration", ("duration_us", colInt)); ("start_time_us", ("start_time_us", colInt));
   ("http_status", ("http_status", colInt))]%string.

Definition columnOf (key : string) : option (string * colKind) :=
  snd <$> List.find (fun c => bool_decide (c.1 = key)) columns.

(** [attrPrefix] *)
Definition attrPrefix : string := "attributes.".

(** [operand]: a column, an attribute path, or a calculated field. *)
Inductive operand :=
| oCol (col : string) (kind : colKind)
| oAttr (path : string)
| oCalc (x : sqlArgs).

(** [Resolver]: no such key, the SQL of the key, or an error. *)
Definition FilterResolver : Type := string -> option (sqlArgs + cerr).

(** [IsColumn] *)
Definition IsColumn (key : string) : bool := bool_decide (is_Some (columnOf key)).

(** [strings.CutPrefix(key, attrPrefix)] with a rest that is not empty. *)
Definition attrRest (key : string) : option string :=
  if hasPrefix (bytesOf attrPrefix) (bytesOf key) then
    let rest := text (drop (len attrPrefix) (bytesOf key)) in
    if bool_decide (rest = ""%string) then None else Some rest
  else None.

(** [AttrKey] *)
Definition AttrKey (name : string) : string :=
  if IsColumn name || hasPrefix (bytesOf attrPrefix) (bytesOf name) then attrPrefix +:+ name else name.

(** [IsBuiltin] *)
Definition IsBuiltin (key : string) : bool :=
  match attrRest key with Some _ => true | None => IsColumn key end.

Definition dquote : string := String (Ascii.ascii_of_nat 34) EmptyString.

(** The path of an attribute. *)
Definition attrPath (key : string) : string := "$." +:+ dquote +:+ key +:+ dquote.

(** [resolveBuiltin]; a missing column reads as the zero value. *)
Definition resolveBuiltin (key : string) : operand :=
  match attrRest key with
  | Some rest => oAttr (attrPath rest)
  | None => match columnOf key with Some (name, kind) => oCol name kind | None => oCol "" colText end
  end.

(** [resolve] *)
Definition resolve (key : string) (r : option FilterResolver) : operand + filterErr :=
  if IsBuiltin key then inl (resolveBuiltin key)
  else
    match r with
    | None => inl (oAttr (attrPath key))
    | Some r =>
        match r key with
        | Some (inr e) => inr (FField e)
        | Some (inl x) => inl (oCalc x)
        | None => inl (oAttr (attrPath key))
        end
    end.

(** [resolveBuiltinOrAttr] *)
Definition resolveBuiltinOrAttr (key : string) : operand :=
  if IsBuiltin key then resolveBuiltin key else oAttr (attrPath key).

(** [ValueSQL] *)
Definition ValueSQL (key : string) : sqlArgs :=
  match resolveBuiltinOrAttr key with
  | oAttr path =>
      ("(CASE WHEN json_valid(attributes) THEN json_extract(attributes, ?) END)"%string, [AText path])
  | oCol col _ => (col, [])
  | oCalc _ => ("", [])%string
  end.

(** [calcresolve.NewSet] and [calcresolve.Resolver] *)
Definition calcSet (fields : list Field) : Set_ := NewSet fields (fun key => Some (ValueSQL key)) IsBuiltin.

Definition calcResolver (set : Set_) : FilterResolver := fun key => Lookup set key.

(** ** SQL of an operand *)

Definition sql (text : string) (args : list arg) : sqlArgs := (text, args).

(** [operand.isInt] *)
Definition isInt (o : operand) : bool :=
  match o with oCol _ colInt => true | _ => false end.

(** [operand.text] *)
Definition operandText (o : operand) : sqlArgs :=
  match o with
  | oCalc (x, args) =>
      sql ("(CASE typeof(" +:+ x +:+ ") WHEN 'real' THEN printf('%.15g', " +:+ x +:+ ") ELSE CAST(" +:+ x +:+
           " AS TEXT) END)") (args ++ (args ++ args))
  | oCol col colInt => sql ("CAST(" +:+ col +:+ " AS TEXT)") []
  | oCol col colText => (col, [])
  | oAttr path =>
      ("(CASE WHEN NOT json_valid(attributes) THEN NULL ELSE CASE json_type(attributes, ?)
		WHEN 'true' THEN 'true' WHEN 'false' THEN 'false'
		ELSE CAST(json_extract(attributes, ?) AS TEXT) END END)"%string, [AText path; AText path])
  end.

(** [operand.number] *)
Definition operandNumber (o : operand) : sqlArgs :=
  match o with
  | oCalc (x, args) =>
      sql ("(CASE WHEN typeof(" +:+ x +:+ ") IN ('integer','real') THEN " +:+ x +:+ " END)") (args ++ args)
  | oCol col _ => (col, [])
  | oAttr path =>
      ("(CASE WHEN json_valid(attributes) AND json_type(attributes, ?) IN ('integer','real')
		THEN json_extract(attributes, ?) END)"%string, [AText path; AText path])
  end.

(** [operand.present] *)
Definition operandPresent (o : operand) : sqlArgs :=
  match o with
  | oCalc (x, args) => sql ("(" +:+ x +:+ ") IS NOT NULL") args
  | oAttr path =>
      ("(CASE WHEN json_valid(attributes) THEN json_extract(attributes, ?) END) IS NOT NULL"%string,
       [AText path])
  | oCol col colInt => sql (col +:+ " IS NOT NULL") []
  | oCol col colText => sql ("COALESCE(" +:+ col +:+ ", '') <> ''") []
  end.

(** [negate]: a missing key also matches. *)
Definition negate (ref : sqlArgs) (tail : string) (vals : list arg) : sqlArgs :=
  sql ("(" +:+ ref.1 +:+ " IS NULL OR " +:+ ref.1 +:+ " " +:+ tail +:+ ")") ((ref.2 ++ ref.2) ++ vals).

(** ** Runes *)

(** [utf8.RuneCountInString]: the length of the first rune, one byte where the bytes are
    not UTF-8. *)
Definition continuation (lo hi : nat) (c : ascii) : bool :=
  let n := Ascii.nat_of_ascii c in (lo <=? n)%nat && (n <=? hi)%nat.

Definition runeSize (s : list ascii) : nat :=
  match s with
  | [] => 0
  | c0 :: rest =>
      let n := Ascii.nat_of_ascii c0 in
      let ok (k : nat) (lo hi : nat) : nat :=
        match rest with
        | c1 :: rest =>
            if continuation lo hi c1 && (k - 2 <=? length rest)%nat &&
               forallb (continuation 128 191) (take (k - 2) rest)
            then k else 1
        | [] => 1
        end%nat in
      if (n <? 194)%nat then 1
      else if (n <=? 223)%nat then ok 2 128 191
      else if (n =? 224)%nat then ok 3 160 191
      else if (n =? 237)%nat then ok 3 128 159
      else if (n <=? 239)%nat then ok 3 128 191
      else if (n =? 240)%nat then ok 4 144 191
      else if (n <=? 243)%nat then ok 4 128 191
      else if (n =? 244)%nat then ok 4 128 143
      else 1
  end%nat.

Fixpoint runeCount (fuel : nat) (s : list ascii) : nat :=
  match fuel, s with
  | S fuel, _ :: _ => S (runeCount fuel (drop (runeSize s) s))
  | _, _ => O
  end.

Definition RuneCountInString (s : string) : Z := Z.of_nat (runeCount (len s) (bytesOf s)).

(** ** Compilation *)

Section Compile.
(** [strconv.ParseFloat]: the float that a text denotes, unless it denotes none. *)
Context (ParseFloat : string -> option number).

(** [numArg] *)
Definition numArg (v : string) : arg + filterErr :=
  match ParseFloat v with Some f => inl (ANum f) | None => inr FNumber end.

(** [compileEquality] *)
Definition compileEquality (o : operand) (c : Node) : sqlArgs + filterErr :=
  let finish (ref : sqlArgs) (val : arg) : sqlArgs + filterErr :=
    inl (if bool_decide (nd_Op c = OpEq) then sql (ref.1 +:+ " = ?") (ref.2 ++ [val])
         else negate ref "<> ?" [val]) in
  match o with
  | oCol col colInt =>
      match numArg (nd_Value c) with inl f => finish (col, []) f | inr e => inr e end
  | oCalc _ =>
      match ParseFloat (nd_Value c) with
      | Some f => finish (operandNumber o) (ANum f)
      | None => finish (operandText o) (AText (nd_Value c))
      end
  | _ => finish (operandText o) (AText (nd_Value c))
  end.

(** [orderSQL] *)
Definition orderSQL (op : string) : string :=
  if isOneOf op [OpGt; OpLt; OpGte; OpLte] then op else ""%string.

(** [compileOrdering] *)
Definition compileOrdering (o : operand) (c : Node) : sqlArgs + filterErr :=
  let sym := orderSQL (nd_Op c) in
  let order (ref : sqlArgs) (val : arg) : sqlArgs := sql (ref.1 +:+ " " +:+ sym +:+ " ?") (ref.2 ++ [val]) in
  match o, numArg (nd_Value c) with
  | oCol col colInt, inl f => inl (order (col, []) f)
  | oCol _ colInt, inr e => inr e
  | _, inl f => inl (order (operandNumber o) f)
  | _, inr _ => inl (order (operandText o) (AText (nd_Value c)))
  end.

(** [compileSubstring] *)
Definition compileSubstring (o : operand) (c : Node) : sqlArgs :=
  let ref := operandText o in
  if bool_decide (nd_Op c = OpContains)
  then sql ("instr(" +:+ ref.1 +:+ ", ?) > 0") (ref.2 ++ [AText (nd_Value c)])
  else sql ("substr(" +:+ ref.1 +:+ ", 1, ?) = ?")
         (ref.2 ++ [ANum (NumInt (RuneCountInString (nd_Value c))); AText (nd_Value c)]).

(** The values of [compileIn]. *)
Fixpoint inValues (int : bool) (values : list string) : list arg + filterErr :=
  match values with
  | [] => inl []
  | v :: values =>
      match (if int then numArg v else inl (AText v)) with
      | inr e => inr e
      | inl a => match inValues int values with inl l => inl (a :: l) | inr e => inr e end
      end
  end.

(** The placeholders of [compileIn]: [strings.Repeat("?,", n)] without the last comma. *)
Definition marks (n : nat) : string := stringsJoin (replicate n "?"%string) ",".

(** [compileIn] *)
Definition compileIn (o : operand) (c : Node) : sqlArgs + filterErr :=
  let ref := match o with oCol col colInt => (col, []) | _ => operandText o end in
  let ms := marks (length (nd_Values c)) in
  match inValues (isInt o) (nd_Values c) with
  | inr e => inr e
  | inl vals =>
      inl (if bool_decide (nd_Op c = OpIn) then sql (ref.1 +:+ " IN (" +:+ ms +:+ ")") (ref.2 ++ vals)
           else negate ref ("NOT IN (" +:+ ms +:+ ")") vals)
  end.

(** [compileCondition] *)
Definition compileCondition (c : Node) (r : option FilterResolver) : sqlArgs + filterErr :=
  match resolve (nd_Key c) r with
  | inr e => inr e
  | inl o =>
      let op := nd_Op c in
      if bool_decide (op = OpExists) then inl (operandPresent o)
      else if bool_decide (op = OpNotExists) then
        let s := operandPresent o in inl (sql ("NOT (" +:+ s.1 +:+ ")") s.2)
      else if isOneOf op [OpEq; OpNe] then compileEquality o c
      else if isOneOf op [OpGt; OpLt; OpGte; OpLte] then compileOrdering o c
      else if isOneOf op [OpContains; OpStartsWith] then inl (compileSubstring o c)
      else if isOneOf op [OpIn; OpNotIn] then compileIn o c
      else inr FOp
  end.

(** The loop of [compileGroup]. *)
Section CompileMembers.
Context (one : Node -> sqlArgs + filterErr).

Fixpoint compileMembers (l : list Node) : list sqlArgs + filterErr :=
  match l with
  | [] => inl []
  | c :: l =>
      match one c with
      | inr e => inr e
      | inl s => match compileMembers l with inl rest => inl (s :: rest) | inr e => inr e end
      end
  end.
End CompileMembers.

(** [compileGroup] *)
Fixpoint compileGroup (g : Node) (r : option FilterResolver) : sqlArgs + filterErr :=
  match g with
  | mkNode _ _ _ _ m filters =>
      let join := (if bool_decide (m = MatchOr) then " OR " else " AND ")%string in
      match compileMembers (fun c => if bool_decide (nd_Filters c = []) then compileCondition c r
                                     else compileGroup c r) filters with
      | inr e => inr e
      | inl parts => inl (sql ("(" +:+ stringsJoin parts.*1 join +:+ ")") (mjoin parts.*2))
      end
  end.

(** [CompileWith] and [Compile]; a nil or empty filter is the empty predicate. *)
Definition CompileWith (e : option Node) (r : option FilterResolver) : sqlArgs + filterErr :=
  match e with
  | None => inl ("", [])%string
  | Some g =>
      if bool_decide (nd_Filters g = []) then inl ("", [])%string
      else match Validate e with Some err => inr err | None => compileGroup g r end
  end.

Definition Filter_Compile (e : option Node) : sqlArgs + filterErr := CompileWith e None.
End Compile.

(** ** Grouping *)

(** [ValidateKey] *)
Definition ValidateKey (key : string) : option filterErr := validateCondition (cond key OpExists "").

(** [TextSQL] and [TextSQLWith] *)
Definition TextSQL (key : string) : sqlArgs := operandText (resolveBuiltinOrAttr key).

Definition TextSQLWith (key : string) (r : option FilterResolver) : sqlArgs + filterErr :=
  match resolve key r with inr e => inr e | inl o => inl (operandText o) end.

(** [GroupCondition] *)
Definition GroupCondition (key value : string) : Node :=
  if bool_decide (value = ""%string) then cond key OpNotExists "" else cond key OpEq value.

(** A group. *)
Definition group (m : string) (filters : list Node) : Node := mkNode "" "" "" [] m filters.

(** [Conjoin] *)
Definition Conjoin (base : option Node) (conds : list Node) : option Node :=
  match base with
  | None => Some (group MatchAnd conds)
  | Some b =>
      if bool_decide (nd_Filters b = []) then Some (group MatchAnd conds)
      else if negb (bool_decide (nd_Match b = MatchOr)) || (length (nd_Filters b) =? 1)%nat then
        Some (group MatchAnd (nd_Filters b ++ conds))
      else if existsb (fun n => negb (bool_decide (nd_Filters n = []))) (nd_Filters b) then None
      else Some (group MatchAnd (group MatchOr (nd_Filters b) :: conds))
  end.

(** A filter with a group, compiled. *)
Example compile_example :
  let e := group MatchAnd [cond "kind" OpEq "server";
             group MatchOr [cond "url.path" OpStartsWith "/api"; cond "duration" OpGte "500"]] in
  Filter_Compile (fun v => Some (NumFloat v)) (Some e) =
    inl ("(kind = ? AND (substr((CASE WHEN NOT json_valid(attributes) THEN NULL ELSE CASE json_type(attributes, ?)
		WHEN 'true' THEN 'true' WHEN 'false' THEN 'false'
		ELSE CAST(json_extract(attributes, ?) AS TEXT) END END), 1, ?) = ? OR duration_us >= ?))"%string,
      [AText "server"; AText (attrPath "url.path"); AText (attrPath "url.path"); ANum (NumInt 4);
       AText "/api"; ANum (NumFloat "500")]).
Proof. vm_compute. reflexivity. Qed.
