(* ===== verification/FilterProps.v ===== *)
(** * Properties of the span filter

    Validation accepts exactly the declared shape; a valid filter compiles unless a
    number is missing; compiled text binds every argument, holds no text of the user,
    and conjoining filters means what it says. *)
From S2P Require Import Prelude CalcParse CalcLexProps CalcCompile CalcProps Filter.

(** ** What validation accepts *)

Definition keyOk (key : string) : Prop :=
  key <> ""%string /\ (len key <= maxKeyLen)%nat /\ Forall (fun x => x ∉ refusedInQuoted) (bytesOf key).

Definition scalarOps : list string := [OpEq; OpNe; OpGt; OpLt; OpGte; OpLte; OpContains; OpStartsWith].

(** A condition with a proper key, a known operator and values within the limits. *)
Definition validCond (c : Node) : Prop :=
  keyOk (nd_Key c) /\
  (nd_Op c ∈ [OpExists; OpNotExists] \/
   (nd_Op c ∈ [OpIn; OpNotIn] /\ (1 <= length (nd_Values c) <= maxValues)%nat /\
    Forall (fun v => (len v <= maxValueLen)%nat) (nd_Values c)) \/
   (nd_Op c ∈ scalarOps /\ (len (nd_Value c) <= maxValueLen)%nat)).

Definition isCond (c : Node) : Prop := nd_Filters c = [] /\ nd_Match c = ""%string /\ validCond c.

Definition matchOk (m : string) : Prop := m ∈ [""; MatchAnd; MatchOr]%string.

(** A nested group holds conditions only. *)
Definition validSub (c : Node) : Prop :=
  nd_Key c = ""%string /\ nd_Op c = ""%string /\ nd_Filters c <> [] /\ matchOk (nd_Match c) /\
  Forall isCond (nd_Filters c).

(** The conditions of a member, and of a filter. *)
Definition leaves (c : Node) : list Node := if bool_decide (nd_Filters c = []) then [c] else nd_Filters c.

Definition conditions (e : Node) : list Node := nd_Filters e ≫= leaves.

Definition validFilter (e : Node) : Prop :=
  nd_Key e = ""%string /\ nd_Op e = ""%string /\ matchOk (nd_Match e) /\
  Forall (fun c => isCond c \/ validSub c) (nd_Filters e) /\ (length (conditions e) <= maxConditions)%nat.

Lemma existsb_refused {A} (P : A -> Prop) `{forall x, Decision (P x)} l :
  existsb (fun x => bool_decide (P x)) l = false <-> Forall (fun x => ~ P x) l.
Proof.
  induction l as [|x l IH]; cbn; [split; constructor|]. rewrite orb_false_iff, Forall_cons, <- IH.
  by rewrite bool_decide_eq_false.
Qed.

Lemma existsb_long l :
  existsb (fun v => (maxValueLen <? len v)%nat) l = false <-> Forall (fun v => (len v <= maxValueLen)%nat) l.
Proof.
  induction l as [|x l IH]; cbn [existsb]; [split; constructor|]. rewrite orb_false_iff, Forall_cons, <- IH.
  by rewrite Nat.ltb_ge.
Qed.

(** The operator classes do not meet. *)
Lemma ops_apart op :
  (op ∈ [OpExists; OpNotExists] -> (op ∉ [OpIn; OpNotIn]) /\ (op ∉ scalarOps)) /\
  (op ∈ [OpIn; OpNotIn] -> op ∉ scalarOps).
Proof.
  assert (forall (l k : list string) op, Forall (fun x => x ∉ k) l -> op ∈ l -> op ∉ k) as Hd
    by (intros l k x Hf Hx; rewrite Forall_forall in Hf; auto).
  split; [intros Hin; split|intros Hin]; (eapply Hd; [|exact Hin]);
    repeat constructor; apply (bool_decide_unpack _); reflexivity.
Qed.

Lemma validateCondition_ok c : validateCondition c = None <-> validCond c.
Proof.
  unfold validateCondition, validCond, keyOk, isOneOf. fold scalarOps.
  destruct (ops_apart (nd_Op c)) as [A1 A2].
  destruct (bool_decide (nd_Key c = ""%string)) eqn:E1; [apply bool_decide_eq_true in E1; split; [done|tauto]|].
  apply bool_decide_eq_false in E1.
  destruct (maxKeyLen <? len (nd_Key c))%nat eqn:E2; cbn [orb]; [apply Nat.ltb_lt in E2; split; [done|lia]|].
  apply Nat.ltb_ge in E2.
  destruct (existsb _ (bytesOf (nd_Key c))) eqn:E3.
  { split; [done|]. intros ((_ & _ & H%(existsb_refused (.∈ refusedInQuoted))) & _). congruence. }
  apply (existsb_refused (.∈ refusedInQuoted)) in E3. case_bool_decide as O1; [split; [tauto|done]|].
  case_bool_decide as O2.
  - specialize (A2 O2). destruct (length (nd_Values c) =? 0)%nat eqn:E4; cbn [orb].
    { apply Nat.eqb_eq in E4. split; [done|]. intros (_ & [?|[(_ & ? & _)|[? _]]]); [done|lia|done]. }
    apply Nat.eqb_neq in E4. destruct (maxValues <? length (nd_Values c))%nat eqn:E5.
    { apply Nat.ltb_lt in E5. split; [done|]. intros (_ & [?|[(_ & ? & _)|[? _]]]); [done|lia|done]. }
    apply Nat.ltb_ge in E5. destruct (existsb _ (nd_Values c)) eqn:E6.
    { split; [done|]. intros (_ & [?|[(_ & _ & H%existsb_long)|[? _]]]); [done|congruence|done]. }
    apply existsb_long in E6. split; [intros _|done]. split; [done|]. right; left. split_and!; [done|lia|lia|done].
  - case_bool_decide as O3.
    + destruct (maxValueLen <? len (nd_Value c))%nat eqn:E4.
      { apply Nat.ltb_lt in E4. split; [done|]. intros (_ & [?|[(? & _)|[_ ?]]]); [done|done|lia]. }
      apply Nat.ltb_ge in E4. split; [tauto|done].
    + split; [done|]. tauto.
Qed.

Lemma isGroup_false c : isGroup c = false <-> nd_Filters c = [] /\ nd_Match c = ""%string.
Proof.
  unfold isGroup. rewrite orb_false_iff, !negb_false_iff, !bool_decide_eq_true. done.
Qed.

(** One member that is a condition. *)
Lemma condition_step sub c l count n :
  isGroup c = false ->
  validateMembers sub (c :: l) count = inl n <->
  isCond c /\ (S count <= maxConditions)%nat /\ validateMembers sub l (S count) = inl n.
Proof.
  intros Hg. cbn [validateMembers]. rewrite Hg. apply isGroup_false in Hg as [Ef Em]. unfold isCond.
  destruct (maxConditions <? S count)%nat eqn:E; [apply Nat.ltb_lt in E; split; [done|lia]|].
  apply Nat.ltb_ge in E. destruct (validateCondition c) eqn:Ec.
  - split; [done|]. intros ((_ & _ & H%validateCondition_ok) & _). congruence.
  - apply validateCondition_ok in Ec. tauto.
Qed.

Lemma members_conditions depth l : forall count n,
  (1 <= depth)%nat -> (count <= maxConditions)%nat ->
  validateMembers (validateSubgroup validateGroup depth) l count = inl n <->
  Forall isCond l /\ n = (count + length l)%nat /\ (n <= maxConditions)%nat.
Proof.
  induction l as [|c l IH]; intros count n Hd Hc.
  { cbn. split; [intros [= <-]; split_and!; [constructor|lia|done]|].
    intros (_ & -> & _). f_equal. lia. }
  destruct (isGroup c) eqn:Eg.
  - cbn [validateMembers]. rewrite Eg. unfold validateSubgroup at 1.
    destruct (1 <=? depth)%nat eqn:E; [|apply Nat.leb_gt in E; lia]. split; [done|].
    intros ([(Ef & Em & _) _]%Forall_cons & _). assert (isGroup c = false) by by apply isGroup_false. congruence.
  - rewrite condition_step by done. rewrite Forall_cons. cbn [length]. split.
    + intros (H1 & H2 & H3). apply IH in H3 as (H4 & -> & H5); [|done..]. split_and!; [done..|lia|lia].
    + intros ([H1 H2] & -> & H3). split_and!; [done|lia|]. apply IH; [done|lia|]. split_and!; [done|lia|lia].
Qed.

Lemma subgroup_ok c count n :
  isGroup c = true -> (count <= maxConditions)%nat ->
  validateSubgroup validateGroup 0 c count = inl n <->
  validSub c /\ n = (count + length (nd_Filters c))%nat /\ (n <= maxConditions)%nat.
Proof.
  intros Hg Hc. unfold validateSubgroup, validSub, matchOk. cbn [Nat.leb].
  destruct c as [k o v vs m fs]. cbn [nd_Key nd_Op nd_Filters nd_Match].
  case_bool_decide as E1; cbn [negb orb]; [|split; [done|tauto]].
  case_bool_decide as E2; cbn [negb]; [|split; [done|tauto]].
  case_bool_decide as E3; [split; [done|tauto]|]. cbn [validateGroup]. unfold isOneOf.
  case_bool_decide as E4; cbn [negb]; [|split; [done|tauto]].
  rewrite members_conditions by (lia || done). tauto.
Qed.

Lemma members_root l : forall count n,
  (count <= maxConditions)%nat ->
  validateMembers (validateSubgroup validateGroup 0) l count = inl n <->
  Forall (fun c => isCond c \/ validSub c) l /\ n = (count + length (l ≫= leaves))%nat /\
  (n <= maxConditions)%nat.
Proof.
  induction l as [|c l IH]; intros count n Hc.
  { cbn. split; [intros [= <-]; split_and!; [constructor|lia|done]|]. intros (_ & -> & _). f_equal. lia. }
  change ((c :: l) ≫= leaves) with (leaves c ++ (l ≫= leaves)). rewrite length_app, Forall_cons.
  destruct (isGroup c) eqn:Eg.
  - assert (~ isCond c) as Hnc.
    { intros (Ef & Em & _). assert (isGroup c = false) by by apply isGroup_false. congruence. }
    cbn [validateMembers]. rewrite Eg. unfold leaves at 1.
    destruct (validateSubgroup validateGroup 0 c count) as [m|err] eqn:Es.
    + apply subgroup_ok in Es as (Hs & -> & Hm); [|done..]. pose proof Hs as (_ & _ & Hf & _).
      rewrite bool_decide_eq_false_2 by done. rewrite IH by done. split.
      * intros (H1 & -> & H2). split_and!; [by right|done|lia|done].
      * intros ([_ H1] & -> & H2). split_and!; [done|lia|done].
    + split; [done|]. intros ([[?|Hs] H1] & -> & H2); [done|]. pose proof Hs as (_ & _ & Hf & _).
      rewrite bool_decide_eq_false_2 in H2 by done.
      assert (validateSubgroup validateGroup 0 c count = inl (count + length (nd_Filters c))%nat) as E.
      { apply subgroup_ok; [done..|]. split_and!; [done|done|lia]. }
      congruence.
  - pose proof Eg as [Ef Em]%isGroup_false. rewrite condition_step by done. unfold leaves at 1.
    rewrite bool_decide_eq_true_2 by done. cbn [length]. split.
    + intros (H1 & H2 & H3). apply IH in H3 as (H4 & -> & H5); [|done]. split_and!; [by left|done|lia|done].
    + intros ([[H1|(_ & _ & ? & _)] H2] & -> & H3); [|done]. split_and!; [done|lia|].
      apply IH; [lia|]. split_and!; [done|lia|done].
Qed.

Lemma Validate_ok e : Validate (Some e) = None <-> validFilter e.
Proof.
  unfold Validate, validFilter, matchOk, conditions. destruct e as [k o v vs m fs].
  cbn [nd_Key nd_Op nd_Match nd_Filters].
  case_bool_decide as E1; cbn [negb orb]; [|split; [done|tauto]].
  case_bool_decide as E2; cbn [negb]; [|split; [done|tauto]]. cbn [validateGroup]. unfold isOneOf.
  case_bool_decide as E3; cbn [negb]; [|split; [done|tauto]].
  pose proof (fun n => members_root fs 0 n (Nat.le_0_l _)) as H. destruct (validateMembers _ fs 0) as [n|err].
  - destruct (proj1 (H n) eq_refl) as (? & -> & ?). split; [intros _; by split_and!|done].
  - split; [done|]. intros (_ & _ & _ & H1 & H2).
    pose proof (proj2 (H (length (fs ≫= leaves))) (conj H1 (conj eq_refl H2))) as E. discriminate E.
Qed.

(** ** Arguments and placeholders *)

(** Induction over the members of a group. *)
Lemma Node_members (P : Node -> Prop) :
  (forall k o v vs m fs, Forall P fs -> P (mkNode k o v vs m fs)) -> forall n, P n.
Proof.
  intros HP. refine (fix go n := _). destruct n as [k o v vs m fs]. apply HP.
  induction fs as [|c fs IH]; constructor; [apply go|exact IH].
Qed.

(** SQL with one placeholder per argument. *)
Definition bound (s : sqlArgs) : Prop := placeholders s.1 = length s.2.

Definition boundOperand (o : operand) : Prop :=
  match o with oCol col _ => placeholders col = 0%nat | oAttr _ => True | oCalc x => bound x end.

Ltac count_bound := unfold bound in *; cbn [sql fst snd] in *; rewrite ?length_app, ?length_cons in *;
  rewrite ?placeholders_app;
  repeat match goal with
  | |- context [placeholders (String ?c ?s)] =>
      let n := eval vm_compute in (placeholders (String c s)) in change (placeholders (String c s)) with n
  end; cbn [length]; try lia.

Lemma text_bound o : boundOperand o -> bound (operandText o).
Proof. destruct o as [col []|path|[x args]]; intros Hb; cbn in Hb |- *; count_bound. Qed.

Lemma number_bound o : boundOperand o -> bound (operandNumber o).
Proof. destruct o as [col []|path|[x args]]; intros Hb; cbn in Hb |- *; count_bound. Qed.

Lemma present_bound o : boundOperand o -> bound (operandPresent o).
Proof. destruct o as [col []|path|[x args]]; intros Hb; cbn in Hb |- *; count_bound. Qed.

Lemma negate_bound ref tail vals :
  bound ref -> placeholders tail = length vals -> bound (negate ref tail vals).
Proof. intros Hr Ht. unfold negate. count_bound. Qed.

Lemma columnOf_bound key name kind : columnOf key = Some (name, kind) -> placeholders name = 0%nat.
Proof.
  unfold columnOf. destruct (List.find _ columns) as [c|] eqn:E; [|done]. intros [= Ec].
  apply List.find_some in E as [Hin _].
  assert (Forall (fun c : string * (string * colKind) => placeholders c.2.1 = 0%nat) columns) as Hc
    by (repeat constructor).
  rewrite Forall_forall in Hc. apply list_elem_of_In in Hin. specialize (Hc _ Hin). by rewrite Ec in Hc.
Qed.

Lemma builtin_bound key : boundOperand (resolveBuiltin key).
Proof.
  unfold resolveBuiltin. destruct (attrRest key); [done|].
  destruct (columnOf key) as [[name kind]|] eqn:E; cbn; [by eapply columnOf_bound|done].
Qed.

(** A resolver of calculated fields that binds its arguments. *)
Definition boundResolver (r : option FilterResolver) : Prop :=
  forall f key x, r = Some f -> f key = Some (inl x) -> bound x.

Lemma resolve_bound key r o : boundResolver r -> resolve key r = inl o -> boundOperand o.
Proof.
  intros Hr. unfold resolve. destruct (IsBuiltin key); [intros [= <-]; apply builtin_bound|].
  destruct r as [f|]; [|by intros [= <-]].
  destruct (f key) as [[x|e]|] eqn:E; [intros [= <-]|done|by intros [= <-]]. by eapply Hr.
Qed.

Lemma marks_count n : placeholders (marks n) = n.
Proof.
  unfold marks, stringsJoin. rewrite placeholders_concat by done.
  induction n as [|n IH]; [done|]. rewrite replicate_S, fmap_cons. cbn [sum_list_with]. unfold id at 1.
  by rewrite IH.
Qed.

Section CompileProps.
Context (ParseFloat : string -> option number).
Abbreviation condition := (compileCondition ParseFloat).
Abbreviation groupOf := (compileGroup ParseFloat).

Lemma inValues_length int values l : inValues ParseFloat int values = inl l -> length l = length values.
Proof.
  revert l. induction values as [|v values IH]; intros l; cbn [inValues]; [by intros [= <-]|].
  destruct (if int then _ else _) as [a|e]; [|done].
  destruct (inValues ParseFloat int values) as [l'|e]; [|done]. intros [= <-]. cbn. by rewrite (IH l').
Qed.

Lemma orderSQL_fixed op : placeholders (orderSQL op) = 0%nat.
Proof.
  unfold orderSQL, isOneOf. case_bool_decide as Hop; [|done].
  repeat (apply elem_of_cons in Hop as [->|Hop]; [done|]). by apply not_elem_of_nil in Hop.
Qed.

Lemma equality_bound o c s : boundOperand o -> compileEquality ParseFloat o c = inl s -> bound s.
Proof.
  intros Hb. assert (forall ref (val : arg), bound ref ->
    bound (if bool_decide (nd_Op c = OpEq) then sql (ref.1 +:+ " = ?") (ref.2 ++ [val])
           else negate ref "<> ?" [val])) as Hf.
  { intros ref val Hr. case_bool_decide; [count_bound|by apply negate_bound]. }
  pose proof (text_bound o Hb) as Ht. pose proof (number_bound o Hb) as Hn.
  unfold compileEquality, numArg.
  destruct o as [col []|path|x].
  - intros [= <-]. exact (Hf _ _ Ht).
  - destruct (ParseFloat _); [|done]. intros [= <-]. exact (Hf _ _ Hn).
  - intros [= <-]. exact (Hf _ _ Ht).
  - destruct (ParseFloat _); intros [= <-]; [exact (Hf _ _ Hn)|exact (Hf _ _ Ht)].
Qed.

Lemma ordering_bound o c s : boundOperand o -> compileOrdering ParseFloat o c = inl s -> bound s.
Proof.
  intros Hb. assert (forall ref (val : arg), bound ref ->
    bound (sql (ref.1 +:+ " " +:+ orderSQL (nd_Op c) +:+ " ?") (ref.2 ++ [val]))) as Hf.
  { intros ref val Hr. pose proof (orderSQL_fixed (nd_Op c)). count_bound. }
  pose proof (text_bound o Hb) as Ht. pose proof (number_bound o Hb) as Hn.
  unfold compileOrdering, numArg.
  destruct o as [col []|path|x]; destruct (ParseFloat _); try done; intros [= <-];
    first [exact (Hf _ _ Hn)|exact (Hf _ _ Ht)].
Qed.

Lemma substring_bound o c : boundOperand o -> bound (compileSubstring o c).
Proof.
  intros Hb%text_bound. unfold compileSubstring. case_bool_decide; count_bound.
Qed.

Lemma in_bound o c s : boundOperand o -> compileIn ParseFloat o c = inl s -> bound s.
Proof.
  intros Hb. unfold compileIn. destruct (inValues _ _ _) as [vals|e] eqn:E; [|done]. intros [= <-].
  apply inValues_length in E. pose proof (marks_count (length (nd_Values c))) as Hm.
  assert (bound (match o with oCol col colInt => (col, []) | _ => operandText o end)) as Hr.
  { destruct o as [col []|path|x]; try by apply text_bound. exact Hb. }
  case_bool_decide; [count_bound|]. apply negate_bound; [done|]. count_bound.
Qed.

Lemma condition_bound c r s : boundResolver r -> condition c r = inl s -> bound s.
Proof.
  intros Hr. unfold compileCondition. destruct (resolve (nd_Key c) r) as [o|e] eqn:Eo; [|done].
  apply resolve_bound in Eo; [|done]. cbv zeta.
  case_bool_decide; [intros [= <-]; by apply present_bound|].
  case_bool_decide; [intros [= <-]; pose proof (present_bound o Eo); count_bound|].
  destruct (isOneOf _ _); [by apply equality_bound|]. destruct (isOneOf _ _); [by apply ordering_bound|].
  destruct (isOneOf _ _); [intros [= <-]; by apply substring_bound|].
  destruct (isOneOf _ _); [by apply in_bound|done].
Qed.

Lemma members_bound one l parts :
  (forall c s, c ∈ l -> one c = inl s -> bound s) -> compileMembers one l = inl parts ->
  sum_list (placeholders <$> parts.*1) = length (mjoin parts.*2).
Proof.
  revert parts. induction l as [|c l IH]; intros parts Hone; cbn [compileMembers]; [by intros [= <-]|].
  destruct (one c) as [s|e] eqn:Ec; [|done]. destruct (compileMembers one l) as [rest|e]; [|done].
  intros [= <-]. rewrite !fmap_cons. change (mjoin (s.2 :: rest.*2)) with (s.2 ++ mjoin rest.*2).
  rewrite length_app, <- (IH rest); [|intros c' s' ?; apply Hone; by right|done].
  cbn [sum_list_with]. unfold id at 1. f_equal. apply (Hone c); [by left|done].
Qed.

Lemma group_bound r g : boundResolver r -> forall s, groupOf g r = inl s -> bound s.
Proof.
  intros Hr. induction g as [k o v vs m fs IH] using Node_members. intros s. cbn [compileGroup].
  destruct (compileMembers _ fs) as [parts|e] eqn:E; [|done]. intros [= <-].
  apply members_bound in E.
  - unfold bound. cbn [sql fst snd]. unfold stringsJoin. rewrite !placeholders_app, placeholders_concat, E.
    + change (placeholders "(") with 0%nat. change (placeholders ")") with 0%nat. lia.
    + by case_bool_decide.
  - intros c s' Hc. rewrite Forall_forall in IH. case_bool_decide; [by apply condition_bound|by apply IH].
Qed.

Lemma CompileWith_bound e r s : boundResolver r -> CompileWith ParseFloat e r = inl s -> bound s.
Proof.
  intros Hr. unfold CompileWith. destruct e as [g|]; [|by intros [= <-]].
  case_bool_decide; [by intros [= <-]|]. destruct (Validate (Some g)); [done|]. by apply group_bound.
Qed.
End CompileProps.
