(* ===== verification/FilterExact.v ===== *)
(** * What filters compile to and mean

    Errors of the compiler, the text of compiled filters, filters over calculated
    fields, and the meaning of conjoined filters. *)
From S2P Require Import Prelude CalcParse CalcLexProps CalcCompile CalcProps CalcExpand.
From S2P Require Import Filter FilterProps.

(** ** Filters over calculated fields *)

Lemma resolver_binds s fuel : forall stack,
  (forall key r, st_operand s key = Some r -> placeholders r.1 = length r.2) ->
  (forall key e, st_exprs s !! key = Some (Some e) -> wfNode e) ->
  binds (resolver s fuel stack).
Proof.
  induction fuel as [fuel IH] using lt_wf_ind. intros stack Ho Hw key b r b' E.
  apply resolver_inv in E as [(_ & Er & _)|(fuel' & root & -> & _ & _ & Er & Ec)]; [by eapply Ho|].
  eapply compile_binds; [|by eapply Hw|exact Ec]. apply IH; [lia|done..].
Qed.

Lemma ValueSQL_bound key : bound (ValueSQL key).
Proof.
  unfold ValueSQL, resolveBuiltinOrAttr. destruct (IsBuiltin key); [|done].
  pose proof (builtin_bound key) as Hb. by destruct (resolveBuiltin key).
Qed.

Lemma calc_bound fields : boundResolver (Some (calcResolver (calcSet fields))).
Proof.
  intros f key x [= <-]. unfold calcResolver, Lookup, calcSet.
  destruct (NewSet_built fields (fun key => Some (ValueSQL key)) IsBuiltin) as [[Hb _] Ho].
  set (s := NewSet _ _ _) in *. destruct (negb (Has s key)); [done|].
  destruct (compileField _ _ _ _) as [[r b]|] eqn:E; [|done]. intros [= <-].
  unfold compileField in E. case_bool_decide; [done|].
  destruct (st_exprs s !! key) as [[e|]|] eqn:Ee; [|done..].
  assert (forall k e, st_exprs s !! k = Some (Some e) -> wfNode e) as Hw.
  { intros k e' (fd & _ & _ & Hp)%Hb. by apply Parse_ok in Hp as [? _]. }
  apply compile_binds in E; [exact E| |by eapply Hw]. apply resolver_binds; [|done].
  intros k r'. rewrite Ho. intros [= <-]. apply ValueSQL_bound.
Qed.

(** ** Where compilation fails *)

Section CompileErrors.
Context (ParseFloat : string -> option number).












End CompileErrors.


(** ** The text of a compiled filter *)

Section CompileText.
Context (ParseFloat : string -> option number) (r : option FilterResolver).

(** Values that both denote a number or both do not. *)
Definition likeValue (v v' : string) : Prop := ParseFloat v = None <-> ParseFloat v' = None.

(** The same column, two attributes, or calculated fields of the same text. *)
Definition likeOperand (o o' : operand) : Prop :=
  match o, o' with
  | oCol col kind, oCol col' kind' => col = col' /\ kind = kind'
  | oAttr _, oAttr _ => True
  | oCalc x, oCalc x' => x.1 = x'.1 /\ length x.2 = length x'.2
  | _, _ => False
  end.

Definition likeKey (key key' : string) : Prop :=
  match resolve key r, resolve key' r with
  | inl o, inl o' => likeOperand o o'
  | inr e, inr e' => e = e'
  | _, _ => False
  end.

(** Filters that differ in their values and in the attributes they name. *)
Inductive alike : Node -> Node -> Prop :=
| alike_cond c c' :
    nd_Filters c = [] -> nd_Filters c' = [] -> nd_Op c = nd_Op c' -> likeKey (nd_Key c) (nd_Key c') ->
    likeValue (nd_Value c) (nd_Value c') -> Forall2 likeValue (nd_Values c) (nd_Values c') -> alike c c'
| alike_group c c' :
    nd_Filters c <> [] -> nd_Match c = nd_Match c' -> Forall2 alike (nd_Filters c) (nd_Filters c') ->
    alike c c'.

(** The same text and the same number of arguments. *)
Definition sameSql (s s' : sqlArgs) : Prop := s.1 = s'.1 /\ length s.2 = length s'.2.

Definition sameResult {A} (same : A -> A -> Prop) (x y : A + filterErr) : Prop :=
  match x, y with inl s, inl s' => same s s' | inr e, inr e' => e = e' | _, _ => False end.

Ltac same_sql := unfold sameSql in *; cbn [sql negate fst snd] in *; rewrite ?length_app, ?length_cons in *;
  split; [congruence|lia].

Lemma text_same o o' : likeOperand o o' -> sameSql (operandText o) (operandText o').
Proof.
  destruct o as [col []|path|[x args]], o' as [col' []|path'|[x' args']]; cbn; try tauto;
    intros Ho; try (by destruct Ho); destruct Ho as [-> ?]; same_sql.
Qed.

Lemma number_same o o' : likeOperand o o' -> sameSql (operandNumber o) (operandNumber o').
Proof.
  destruct o as [col []|path|[x args]], o' as [col' []|path'|[x' args']]; cbn; try tauto;
    intros Ho; try (by destruct Ho); destruct Ho as [-> ?]; same_sql.
Qed.

Lemma present_same o o' : likeOperand o o' -> sameSql (operandPresent o) (operandPresent o').
Proof.
  destruct o as [col []|path|[x args]], o' as [col' []|path'|[x' args']]; cbn; try tauto;
    intros Ho; try (by destruct Ho); destruct Ho as [-> ?]; same_sql.
Qed.

Lemma negate_same ref ref' tail vals vals' :
  sameSql ref ref' -> length vals = length vals' -> sameSql (negate ref tail vals) (negate ref' tail vals').
Proof.
  intros [E1 E2] E3. unfold negate, sameSql. cbn [sql fst snd]. rewrite E1, !length_app, E2, E3. done.
Qed.

(** One value: both are numbers, or both are not. *)
Lemma value_cases v v' : likeValue v v' ->
  (exists f f', ParseFloat v = Some f /\ ParseFloat v' = Some f') \/
  (ParseFloat v = None /\ ParseFloat v' = None).
Proof.
  intros Hv. destruct (ParseFloat v) as [f|] eqn:E, (ParseFloat v') as [f'|] eqn:E'; unfold likeValue in Hv.
  - left. eauto.
  - rewrite E, E' in Hv. naive_solver.
  - rewrite E, E' in Hv. naive_solver.
  - by right.
Qed.

Lemma inValues_same int vs vs' : Forall2 likeValue vs vs' ->
  sameResult (fun l l' => length l = length l') (inValues ParseFloat int vs) (inValues ParseFloat int vs').
Proof.
  induction 1 as [|v v' vs vs' Hv _ IH]; [done|]. cbn [inValues]. unfold numArg.
  destruct int; [destruct (value_cases _ _ Hv) as [(f & f' & -> & ->)|[-> ->]]; [|done]|];
    (destruct (inValues ParseFloat _ vs), (inValues ParseFloat _ vs'); cbn in IH |- *; try done; by rewrite IH).
Qed.

Lemma equality_same o o' c c' :
  likeOperand o o' -> nd_Op c = nd_Op c' -> likeValue (nd_Value c) (nd_Value c') ->
  sameResult sameSql (compileEquality ParseFloat o c) (compileEquality ParseFloat o' c').
Proof.
  intros Ho Eop Hv. unfold compileEquality, numArg. rewrite Eop.
  assert (forall ref ref' (val val' : arg), sameSql ref ref' ->
    sameSql (if bool_decide (nd_Op c' = OpEq) then sql (ref.1 +:+ " = ?") (ref.2 ++ [val]) else negate ref "<> ?" [val])
      (if bool_decide (nd_Op c' = OpEq) then sql (ref'.1 +:+ " = ?") (ref'.2 ++ [val']) else negate ref' "<> ?" [val']))
    as Hf.
  { intros ref ref' val val' Hs. case_bool_decide; [|by apply negate_same].
    destruct Hs as [E1 E2]. split; cbn [sql fst snd]; [by rewrite E1|by rewrite !length_app, E2]. }
  pose proof (text_same o o' Ho) as Ht. pose proof (number_same o o' Ho) as Hn.
  destruct (value_cases _ _ Hv) as [(f & f' & -> & ->)|[-> ->]];
    destruct o as [col []|path|x], o' as [col' []|path'|x']; cbn in Ho; try done; try (by destruct Ho);
    cbn [sameResult]; first [exact (Hf _ _ _ _ Ht)|exact (Hf _ _ _ _ Hn)|done].
Qed.

Lemma ordering_same o o' c c' :
  likeOperand o o' -> nd_Op c = nd_Op c' -> likeValue (nd_Value c) (nd_Value c') ->
  sameResult sameSql (compileOrdering ParseFloat o c) (compileOrdering ParseFloat o' c').
Proof.
  intros Ho Eop Hv. unfold compileOrdering, numArg. rewrite Eop.
  assert (forall ref ref' (val val' : arg), sameSql ref ref' ->
    sameSql (sql (ref.1 +:+ " " +:+ orderSQL (nd_Op c') +:+ " ?") (ref.2 ++ [val]))
      (sql (ref'.1 +:+ " " +:+ orderSQL (nd_Op c') +:+ " ?") (ref'.2 ++ [val']))) as Hf.
  { intros ref ref' val val' [E1 E2]. split; cbn [sql fst snd]; [by rewrite E1|by rewrite !length_app, E2]. }
  pose proof (text_same o o' Ho) as Ht. pose proof (number_same o o' Ho) as Hn.
  destruct (value_cases _ _ Hv) as [(f & f' & -> & ->)|[-> ->]];
    destruct o as [col []|path|x], o' as [col' []|path'|x']; cbn in Ho; try done; try (by destruct Ho);
    cbn [sameResult]; first [exact (Hf _ _ _ _ Ht)|exact (Hf _ _ _ _ Hn)|done].
Qed.

Lemma substring_same o o' c c' :
  likeOperand o o' -> nd_Op c = nd_Op c' -> sameSql (compileSubstring o c) (compileSubstring o' c').
Proof.
  intros [E1 E2]%text_same Eop. unfold compileSubstring. rewrite Eop.
  case_bool_decide; (split; cbn [sql fst snd]; [by rewrite E1|by rewrite !length_app, E2]).
Qed.

Lemma in_same o o' c c' :
  likeOperand o o' -> nd_Op c = nd_Op c' -> Forall2 likeValue (nd_Values c) (nd_Values c') ->
  sameResult sameSql (compileIn ParseFloat o c) (compileIn ParseFloat o' c').
Proof.
  intros Ho Eop Hvs. unfold compileIn.
  assert (isInt o = isInt o') as Ei.
  { destruct o as [col []|path|x], o' as [col' []|path'|x']; cbn in Ho; try done; by destruct Ho. }
  assert (sameSql (match o with oCol col colInt => (col, []) | _ => operandText o end)
    (match o' with oCol col colInt => (col, []) | _ => operandText o' end)) as Hr.
  { pose proof (text_same o o' Ho). destruct o as [col []|path|x], o' as [col' []|path'|x']; cbn in Ho;
      try done; by destruct Ho. }
  rewrite Ei, Eop, (Forall2_length _ _ _ Hvs). pose proof (inValues_same (isInt o') _ _ Hvs) as Hv.
  destruct (inValues _ _ (nd_Values c)), (inValues _ _ (nd_Values c')); cbn in Hv |- *; try done.
  case_bool_decide; [|by apply negate_same]. destruct Hr as [E1 E2].
  split; cbn [sql fst snd]; [by rewrite E1|by rewrite !length_app, E2, Hv].
Qed.

Lemma condition_same c c' :
  nd_Op c = nd_Op c' -> likeKey (nd_Key c) (nd_Key c') -> likeValue (nd_Value c) (nd_Value c') ->
  Forall2 likeValue (nd_Values c) (nd_Values c') ->
  sameResult sameSql (compileCondition ParseFloat c r) (compileCondition ParseFloat c' r).
Proof.
  intros Eop Hk Hv Hvs. unfold compileCondition. unfold likeKey in Hk.
  destruct (resolve (nd_Key c) r) as [o|e], (resolve (nd_Key c') r) as [o'|e']; try done.
  cbv zeta. rewrite Eop. pose proof (present_same o o' Hk) as Hp.
  case_bool_decide; [done|]. case_bool_decide.
  { destruct Hp as [E1 E2]. split; cbn [sql fst snd]; [by rewrite E1|done]. }
  destruct (isOneOf _ _); [by apply equality_same|]. destruct (isOneOf _ _); [by apply ordering_same|].
  destruct (isOneOf _ _); [by apply substring_same|]. destruct (isOneOf _ _); [by apply in_same|done].
Qed.

Lemma members_same one one' l l' :
  Forall2 (fun c c' => sameResult sameSql (one c) (one' c')) l l' ->
  sameResult (fun p p' => p.*1 = p'.*1 /\ length (mjoin p.*2) = length (mjoin p'.*2))
    (compileMembers one l) (compileMembers one' l').
Proof.
  induction 1 as [|c c' l l' Hc _ IH]; [done|]. cbn [compileMembers].
  destruct (one c) as [s|e], (one' c') as [s'|e']; cbn in Hc; try done.
  destruct (compileMembers one l) as [p|], (compileMembers one' l') as [p'|]; cbn in IH |- *; try done.
  destruct Hc as [E1 E2], IH as [E3 E4]. rewrite !length_app, E1, E2, E3.
  split; [done|]. f_equal. exact E4.
Qed.

Lemma Forall2_with {A} (P : A -> Prop) (R Q : A -> A -> Prop) l l' :
  Forall P l -> Forall2 R l l' -> (forall x y, P x -> R x y -> Q x y) -> Forall2 Q l l'.
Proof.
  intros HP HR HQ. induction HR; [constructor|]. apply Forall_cons in HP as [? ?]. constructor; auto.
Qed.

Lemma alike_nonempty c c' : alike c c' -> nd_Filters c = [] <-> nd_Filters c' = [].
Proof.
  destruct 1 as [|c c' Hne _ Hf]; [by split|].
  split; intros E; [done|]. rewrite E in Hf. apply Forall2_nil_inv_r in Hf. done.
Qed.

Lemma group_same c : forall c', nd_Filters c <> [] -> alike c c' ->
  sameResult sameSql (compileGroup ParseFloat c r) (compileGroup ParseFloat c' r).
Proof.
  induction c as [k o v vs m fs IH] using Node_members. intros [k' o' v' vs' m' fs'] Hne Ha.
  inversion Ha as [x y E|x y _ Em Hf]; subst x y; [done|]. cbn [nd_Match nd_Filters] in *. subst m'.
  cbn [compileGroup].
  pose proof (members_same (fun c => if bool_decide (nd_Filters c = []) then compileCondition ParseFloat c r
    else compileGroup ParseFloat c r) (fun c => if bool_decide (nd_Filters c = []) then compileCondition ParseFloat c r
    else compileGroup ParseFloat c r) fs fs') as Hm.
  specialize (Hm ltac:(eapply Forall2_with; [exact IH|exact Hf|intros x y HP HR;
    destruct (decide (nd_Filters x = [])) as [Ex|Ex];
    [pose proof (proj1 (alike_nonempty x y HR) Ex) as Ey; rewrite !bool_decide_eq_true_2 by done;
     destruct HR; [by apply condition_same|done]
    |assert (nd_Filters y <> []) by (intros Ey; by apply (alike_nonempty x y HR) in Ey);
     rewrite !bool_decide_eq_false_2 by done; by apply HP]])).
  destruct (compileMembers _ fs) as [p|], (compileMembers _ fs') as [p'|]; cbn in Hm |- *; try done.
  destruct Hm as [E1 E2]. split; cbn [sql fst snd]; [by rewrite E1|exact E2].
Qed.
End CompileText.

(** ** The meaning of groups *)

(** SQL's three truth values; [None] is NULL. *)
Abbreviation truth := (option bool).

Definition sqlAnd (a b : truth) : truth :=
  match a, b with
  | Some false, _ | _, Some false => Some false
  | Some true, Some true => Some true
  | _, _ => None
  end.

Definition sqlOr (a b : truth) : truth :=
  match a, b with
  | Some true, _ | _, Some true => Some true
  | Some false, Some false => Some false
  | _, _ => None
  end.

Definition allOf (l : list truth) : truth := foldr sqlAnd (Some true) l.

Definition anyOf (l : list truth) : truth := foldr sqlOr (Some false) l.

(** The truth of the predicate a group compiles to, from that of its conditions. *)
Fixpoint groupHolds (leaf : Node -> truth) (g : Node) : truth :=
  match g with
  | mkNode _ _ _ _ m fs =>
      let member c := if bool_decide (nd_Filters c = []) then leaf c else groupHolds leaf c in
      (if bool_decide (m = MatchOr) then anyOf else allOf) (map member fs)
  end.

Definition memberHolds (leaf : Node -> truth) (c : Node) : truth :=
  if bool_decide (nd_Filters c = []) then leaf c else groupHolds leaf c.

(** No filter, or an empty one, keeps every span. *)
Definition filterHolds (leaf : Node -> truth) (e : option Node) : truth :=
  match e with
  | None => Some true
  | Some g => if bool_decide (nd_Filters g = []) then Some true else groupHolds leaf g
  end.

Lemma sqlAnd_assoc a b c : sqlAnd a (sqlAnd b c) = sqlAnd (sqlAnd a b) c.
Proof. by destruct a as [[]|], b as [[]|], c as [[]|]. Qed.

Lemma sqlAnd_true a : sqlAnd (Some true) a = a.
Proof. by destruct a as [[]|]. Qed.

Lemma allOf_app l k : allOf (l ++ k) = sqlAnd (allOf l) (allOf k).
Proof.
  induction l as [|x l IH]; [symmetry; apply sqlAnd_true|].
  change (sqlAnd x (allOf (l ++ k)) = sqlAnd (sqlAnd x (allOf l)) (allOf k)). by rewrite IH, sqlAnd_assoc.
Qed.

Lemma group_and_holds leaf fs :
  filterHolds leaf (Some (group MatchAnd fs)) = allOf (memberHolds leaf <$> fs).
Proof. unfold filterHolds. cbn [group nd_Filters]. case_bool_decide; [by subst|done]. Qed.

Lemma groupHolds_members leaf b :
  groupHolds leaf b =
    (if bool_decide (nd_Match b = MatchOr) then anyOf else allOf) (memberHolds leaf <$> nd_Filters b).
Proof. by destruct b. Qed.

Lemma leaves_conditions l : Forall (fun c => nd_Filters c = []) l -> l ≫= leaves = l.
Proof.
  induction 1 as [|c l Hc _ IH]; [done|]. change ((c :: l) ≫= leaves) with (leaves c ++ (l ≫= leaves)).
  rewrite IH. unfold leaves. by rewrite bool_decide_eq_true_2.
Qed.

(** The filter that [Conjoin] makes is valid when it has few enough conditions. *)
Lemma conjoined_valid fs conds :
  Forall (fun c => isCond c \/ validSub c) fs -> Forall isCond conds ->
  (length (fs ≫= leaves) + length conds <= maxConditions)%nat ->
  validFilter (group MatchAnd (fs ++ conds)).
Proof.
  intros Hf Hc Hl. split_and!; try done.
  - by right; left.
  - cbn [group nd_Filters]. apply Forall_app. split; [done|]. eapply Forall_impl; [exact Hc|]. by left.
  - unfold conditions. cbn [group nd_Filters]. rewrite bind_app, length_app.
    rewrite (leaves_conditions conds); [done|]. eapply Forall_impl; [exact Hc|]. by intros c (? & _).
Qed.

(** ** Properties *)


(** C37: user text never becomes SQL.  Over the calculated fields of a project, the SQL of
    a filter has one placeholder per argument; and filters that differ only in their
    values and in the attributes they name (a value that is a number for one that is)
    compile to the same text, or fail for the same reason. *)
Theorem filter_text_fixed ParseFloat fields e e' :
  let r := Some (calcResolver (calcSet fields)) in
  Validate (Some e) = None -> Validate (Some e') = None -> nd_Filters e <> [] ->
  alike ParseFloat r e e' ->
  match CompileWith ParseFloat (Some e) r, CompileWith ParseFloat (Some e') r with
  | inl (text, args), inl (text', args') =>
      text = text' /\ placeholders text = length args /\ length args' = length args
  | inr err, inr err' => err = err'
  | _, _ => False
  end.
Proof.
  intros r Hv Hv' Hne Ha. pose proof (group_same ParseFloat r e e' Hne Ha) as Hs.
  pose proof (CompileWith_bound ParseFloat (Some e) r) as Hb. unfold CompileWith in *.
  assert (nd_Filters e' <> []) as Hne' by (intros E; by apply (alike_nonempty _ _ _ _ Ha) in E).
  rewrite !bool_decide_eq_false_2 in * by done. rewrite Hv in *. rewrite Hv'.
  destruct (compileGroup ParseFloat e r) as [[text args]|err], (compileGroup ParseFloat e' r) as [[text' args']|err'];
    cbn in Hs; try done. destruct Hs as [E1 E2]. cbn in E1, E2.
  split_and!; [done| |done]. by apply (Hb (text, args) (calc_bound fields)).
Qed.

(** [Conjoin] means the conjunction.  The filter it returns holds, in SQL's
    three-valued logic and for any truth of the conditions, exactly when the base and
    all the conditions hold; it is valid when the base and the conditions are and there
    are at most 32 conditions together; and it returns none only for an [or] of several
    members with a group among them. *)
Theorem Conjoin_exact leaf base conds :
  match Conjoin base conds with
  | Some e =>
      filterHolds leaf (Some e) = sqlAnd (filterHolds leaf base) (allOf (memberHolds leaf <$> conds)) /\
      (Validate base = None -> Forall isCond conds ->
       (length (default [] (conditions <$> base)) + length conds <= maxConditions)%nat ->
       Validate (Some e) = None)
  | None =>
      exists b, base = Some b /\ nd_Match b = MatchOr /\ (1 < length (nd_Filters b))%nat /\
        Exists (fun c => nd_Filters c <> []) (nd_Filters b)
  end.
Proof.
  assert (forall leaf, filterHolds leaf (Some (group MatchAnd conds)) =
    sqlAnd (Some true) (allOf (memberHolds leaf <$> conds))) as Hempty
    by (intros l; by rewrite group_and_holds, sqlAnd_true).
  assert (forall n, Forall isCond conds -> (n + length conds <= maxConditions)%nat ->
    Validate (Some (group MatchAnd conds)) = None) as Hev.
  { intros n Hc Hl. apply Validate_ok, (conjoined_valid [] conds); [constructor|done|]. cbn. lia. }
  unfold Conjoin. destruct base as [b|]; [|split; [apply Hempty|intros _; apply Hev]].
  unfold filterHolds at 2. cbn [fmap option_fmap option_map default].
  case_bool_decide as Hf; [split; [apply Hempty|intros _; apply Hev]|].
  rewrite groupHolds_members.
  destruct (negb _ || _) eqn:Em.
  { split.
    - rewrite group_and_holds, fmap_app, allOf_app. f_equal. case_bool_decide as Eor; [|done].
      cbn in Em. apply Nat.eqb_eq in Em.
      destruct (nd_Filters b) as [|x [|y l]]; [done| |done]. cbn. by destruct (memberHolds leaf x) as [[]|].
    - intros Hv%Validate_ok Hc Hl. destruct Hv as (_ & _ & _ & Hm & _). by apply Validate_ok, conjoined_valid. }
  apply orb_false_elim in Em as [Eor Elen]. apply negb_false_iff in Eor. rewrite Eor.
  apply bool_decide_eq_true in Eor. apply Nat.eqb_neq in Elen.
  destruct (existsb _ (nd_Filters b)) eqn:Ex.
  { exists b. split_and!; [done|done|destruct (nd_Filters b) as [|x [|y l]]; cbn in *; [done|done|lia]|].
    apply existsb_exists in Ex as (c & Hc & Ec). apply Exists_exists. exists c.
    split; [by apply list_elem_of_In|]. by apply negb_true_iff, bool_decide_eq_false in Ec. }
  assert (Forall (fun c => nd_Filters c = []) (nd_Filters b)) as Hleaf.
  { apply Forall_forall. intros c Hc. destruct (decide (nd_Filters c = [])) as [|Hn]; [done|exfalso].
    assert (existsb (fun n => negb (bool_decide (nd_Filters n = []))) (nd_Filters b) = true); [|congruence].
    apply existsb_exists. exists c. split; [by apply list_elem_of_In|]. by rewrite bool_decide_eq_false_2. }
  split.
  - rewrite group_and_holds, fmap_cons. change (allOf (?x :: ?l)) with (sqlAnd x (allOf l)). f_equal.
    unfold memberHolds at 1. cbn [group nd_Filters]. by rewrite bool_decide_eq_false_2.
  - intros Hv%Validate_ok Hc Hl. destruct Hv as (_ & _ & _ & Hm & _). apply Validate_ok.
    apply (conjoined_valid [group MatchOr (nd_Filters b)] conds); [|done|].
    + constructor; [right|constructor]. split_and!; [done..|by right; right; left|].
      cbn [group nd_Filters]. rewrite Forall_forall in Hm, Hleaf |- *. intros c Hc'.
      destruct (Hm c Hc') as [?|(_ & _ & Hn & _)]; [done|]. by destruct Hn; apply Hleaf.
    + change ([group MatchOr (nd_Filters b)] ≫= leaves) with (leaves (group MatchOr (nd_Filters b)) ++ []).
      unfold leaves at 1. cbn [group nd_Filters]. rewrite bool_decide_eq_false_2, app_nil_r by done.
      unfold conditions in Hl. by rewrite leaves_conditions in Hl.
Qed.

(** ** At concrete filters *)

(** Texts of digits are numbers. *)
Definition demoParseFloat (v : string) : option number :=
  if forallb (fun c => (48 <=? code c)%nat && (code c <=? 57)%nat) (bytesOf v) && negb (bool_decide (v = ""%string))
  then Some (NumFloat v) else None.

Definition demoFields : list Field := [mkField "ms" "duration_us / 1000"].

Definition demoFilter (attr v n : string) : Node :=
  group MatchAnd [cond attr OpEq v; group MatchOr [cond "ms" OpGt n; cond "http_status" OpGte n]].

Lemma filter_text_fixed_witness :
  let r := Some (calcResolver (calcSet demoFields)) in
  match CompileWith demoParseFloat (Some (demoFilter "user.id" "7a" "500")) r,
        CompileWith demoParseFloat (Some (demoFilter "x') --" "' OR 1=1 --" "42")) r with
  | inl (text, args), inl (text', args') =>
      text = text' /\ placeholders text = length args /\ length args' = length args
  | inr err, inr err' => err = err'
  | _, _ => False
  end.
Proof.
  apply (filter_text_fixed demoParseFloat demoFields).
  - vm_compute. reflexivity.
  - vm_compute. reflexivity.
  - discriminate.
  - assert (forall key key', likeKey (Some (calcResolver (calcSet demoFields))) key key' -> forall op v v',
      likeValue demoParseFloat v v' ->
      alike demoParseFloat (Some (calcResolver (calcSet demoFields))) (cond key op v) (cond key' op v')) as Hc.
    { intros key key' Hk op v v' Hv. by apply alike_cond. }
    apply alike_group; [discriminate|reflexivity|]. repeat apply List.Forall2_cons; try apply List.Forall2_nil.
    + apply Hc; [exact I|]. split; reflexivity.
    + apply alike_group; [discriminate|reflexivity|].
      repeat apply List.Forall2_cons; try apply List.Forall2_nil; apply Hc;
        first [split; discriminate|vm_compute; split; reflexivity].
Defined.

(** More conditions than a filter may have. *)
Example conjoin_over_limit :
  let base := group MatchAnd (replicate 32 (cond "kind" OpExists "")) in
  Validate (Some base) = None /\
  (e ← Conjoin (Some base) [cond "name" OpExists ""]; Validate (Some e)) = Some FTooMany.
Proof. vm_compute. split; reflexivity. Qed.
