(* ===== verification/Classify.v ===== *)
(** * Which spans a worker stores ([internal/worker/classify.go], [boring_policy.go])

    Traces with an error, a slow span or a verbose project are stored; of the others
    the hourly tier keeps some for good and the ratio sampler and the minute floor keep
    some for a while, each trace whole.  Floors are [sampling.MinuteFloor]s that live
    across batches; [rand.IntN] is a parameter, asked once per draw. *)
From S2P Require Import Prelude Model Sampling TraceSampling.

(** ** The policy *)

(** [boringEntry] and [CachedBoringPolicy] *)
Record boringEntry := mkBoringEntry { be_value : string; be_expiresAt : Z }.

Record CachedBoringPolicy := mkCachedBoringPolicy {
  cbp_cacheTTL : Z;
  cbp_entries : gmap string boringEntry;
}.

(** [NewCachedBoringPolicy] *)
Definition NewCachedBoringPolicy (cacheTTL : Z) : CachedBoringPolicy := mkCachedBoringPolicy cacheTTL ∅.

(** [CachedBoringPolicy.get] at time [now]; the settings table answers [repo]. *)
Definition boring_get (repo : string -> option string) (now : Z) (key : string) (p : CachedBoringPolicy)
  : string * CachedBoringPolicy :=
  let read :=
    let val := default ""%string (repo key) in
    (val, mkCachedBoringPolicy (cbp_cacheTTL p)
            (<[key := mkBoringEntry val (now + cbp_cacheTTL p)]> (cbp_entries p))) in
  match cbp_entries p !! key with
  | Some e => if now <? be_expiresAt e then (be_value e, p) else read
  | None => read
  end.

(** A setting that holds a number of at least zero. *)
Definition settingNumber (s : string) : option Z :=
  if bool_decide (s = ""%string) then None
  else n ← Atoi s; if 0 <=? n then Some n else None.

(** The two levels of [SampleRatio], [MinTracesPerMinute] and [MinTracesPerHour]: the
    project's setting, the global one, and a default. *)
Definition leveled (repo : Z -> string -> option string) (t1 t2 : Z) (base : string) (dflt projectID : Z)
  (p : CachedBoringPolicy) : Z * CachedBoringPolicy :=
  let '(s, p) := boring_get (repo t1) t1 (base +:+ ".project." +:+ FormatInt projectID) p in
  match settingNumber s with
  | Some n => (n, p)
  | None =>
      let '(s, p) := boring_get (repo t2) t2 base p in
      (default dflt (settingNumber s), p)
  end.

(** [DefaultMinTracesPerMinute] and [DefaultMinTracesPerHour] *)
Definition DefaultMinTracesPerMinute : Z := 1.

Definition DefaultMinTracesPerHour : Z := 1.

(** [CachedBoringPolicy.SampleRatio], [MinTracesPerMinute] and [MinTracesPerHour] *)
Definition SampleRatio (repo : Z -> string -> option string) (t1 t2 : Z) :=
  leveled repo t1 t2 "boring.sample_ratio" 0.

Definition MinTracesPerMinute (repo : Z -> string -> option string) (t1 t2 : Z) :=
  leveled repo t1 t2 "boring.min_traces_per_minute" DefaultMinTracesPerMinute.

Definition MinTracesPerHour (repo : Z -> string -> option string) (t1 t2 : Z) :=
  leveled repo t1 t2 "boring.min_traces_per_hour" DefaultMinTracesPerHour.

(** [CachedBoringPolicy.VerboseUntil]; [None] is the zero time.  Times are nanoseconds
    and never wrap. *)
Definition VerboseUntil (repo : string -> option string) (now projectID : Z) (p : CachedBoringPolicy)
  : option Z * CachedBoringPolicy :=
  let '(s, p) := boring_get repo now ("boring.verbose_until.project." +:+ FormatInt projectID) p in
  (if bool_decide (s = ""%string) then None else (fun ts => ts * second) <$> Atoi s, p).

(** [BoringPolicyReader], as one batch sees it: a batch asks each question once per
    project. *)
Record BoringPolicyReader := mkPolicy {
  bp_SampleRatio : Z -> Z;
  bp_VerboseUntil : Z -> option Z;
  bp_MinTracesPerMinute : Z -> Z;
  bp_MinTracesPerHour : Z -> Z;
}.

(** ** Splitting a batch *)

(** [boringTrace] *)
Record boringTrace := mkBoringTrace { bt_projectID : Z; bt_spans : list Span }.

(** [verboseProjects] *)
Definition verboseProjects (spans : list Span) (policy : option BoringPolicyReader) (now : Z) : gmap Z bool :=
  match policy with
  | None => ∅
  | Some p =>
      foldl (fun m s =>
        match m !! sp_ProjectID s with
        | Some _ => m
        | None =>
            let verbose := match bp_VerboseUntil p (sp_ProjectID s) with
                           | Some until => now <? until
                           | None => false
                           end in
            <[sp_ProjectID s := verbose]> m
        end) ∅ spans
  end.

Definition isVerbose (verbose : gmap Z bool) (p : Z) : bool := default false (verbose !! p).

(** A span that makes its trace dirty. *)
Definition dirtySpan (slowThresholdUs : Z) (s : Span) : bool :=
  bool_decide (sp_Status s = "error") || (slowThresholdUs <? sp_DurationUs s).

(** [interestingTraceIDs] *)
Definition interestingTraceIDs (spans : list Span) (verbose : gmap Z bool) (slowThresholdUs : Z)
  : gset string :=
  foldl (fun m s =>
    if isVerbose verbose (sp_ProjectID s) || dirtySpan slowThresholdUs s then {[sp_TraceID s]} ∪ m else m)
    ∅ spans.

(** One span of [splitBoringTraces]: the result, the order and the boring traces. *)
Definition splitOne (interesting : gset string)
  (st : list Span * list string * gmap string boringTrace) (s : Span)
  : list Span * list string * gmap string boringTrace :=
  let '(result, order, traces) := st in
  if bool_decide (sp_TraceID s ∈ interesting) then (result ++ [s], order, traces)
  else
    match traces !! sp_TraceID s with
    | None => (result, order ++ [sp_TraceID s], <[sp_TraceID s := mkBoringTrace (sp_ProjectID s) [s]]> traces)
    | Some bt =>
        (result, order, <[sp_TraceID s := mkBoringTrace (bt_projectID bt) (bt_spans bt ++ [s])]> traces)
    end.

(** [splitBoringTraces] *)
Definition splitBoringTraces (spans : list Span) (interesting : gset string)
  : list Span * list string * gmap string boringTrace :=
  foldl (splitOne interesting) ([], [], ∅) spans.

(** [traceRoot] of a trace that has spans. *)
Definition traceRoot (spans : list Span) : option Span :=
  match List.find (fun s => bool_decide (sp_ParentSpanID s = ""%string)) spans with
  | Some s => Some s
  | None => head spans
  end.

(** ** Verdicts *)

(** The floors, the caches of one batch and the draws so far. *)
Record classifier := mkClassifier {
  cl_floor : option MinuteFloor;
  cl_hourly : option MinuteFloor;
  cl_hourMin : gmap Z Z;
  cl_ratio : gmap Z Z;
  cl_min : gmap Z Z;
  cl_draws : nat;
}.

(** A batch starts with empty caches. *)
Definition newBatch (floor hourly : option MinuteFloor) : classifier := mkClassifier floor hourly ∅ ∅ ∅ 0.

(** A cached policy answer. *)
Definition cachedAnswer (f : Z -> Z) (projectID : Z) (c : gmap Z Z) : Z * gmap Z Z :=
  match c !! projectID with
  | Some v => (v, c)
  | None => (f projectID, <[projectID := f projectID]> c)
  end.

Definition markDurable (s : Span) : Span :=
  mkSpan (sp_ID s) (sp_ProjectID s) (sp_TraceID s) (sp_SpanID s) (sp_ParentSpanID s) (sp_Name s)
    (sp_Service s) (sp_Resource s) (sp_Kind s) (sp_Status s) (sp_StartTimeUs s) (sp_DurationUs s)
    (sp_Attributes s) (sp_Events s) (sp_IngestedAt s) (sp_ExpiresAt s) true (sp_SampleWeight s).

Definition setExpiry (at_ : Z) (s : Span) : Span :=
  mkSpan (sp_ID s) (sp_ProjectID s) (sp_TraceID s) (sp_SpanID s) (sp_ParentSpanID s) (sp_Name s)
    (sp_Service s) (sp_Resource s) (sp_Kind s) (sp_Status s) (sp_StartTimeUs s) (sp_DurationUs s)
    (sp_Attributes s) (sp_Events s) (sp_IngestedAt s) (Some at_) (sp_Durable s) (sp_SampleWeight s).

(** [hourlyTier.admit]: whether the spans are to be marked durable. *)
Definition tier_admits (policy : option BoringPolicyReader) (projectID : Z) (spans : list Span)
  (cl : classifier) : bool * classifier :=
  match policy, cl_hourly cl, traceRoot spans with
  | Some p, Some f, Some root =>
      let '(min, cache) := cachedAnswer (bp_MinTracesPerHour p) projectID (cl_hourMin cl) in
      let '(ok, f) := ShouldKeep f projectID (sp_Name root) (BucketOf f (sp_StartTimeUs root)) min false in
      (ok, mkClassifier (cl_floor cl) (Some f) cache (cl_ratio cl) (cl_min cl) (cl_draws cl))
  | _, _, _ => (false, cl)
  end.

(** [boringSampler.ratioVerdict] *)
Definition ratioVerdict (intN : nat -> Z -> Z) (p : BoringPolicyReader) (projectID : Z) (cl : classifier)
  : bool * classifier :=
  let '(ratio, cache) := cachedAnswer (bp_SampleRatio p) projectID (cl_ratio cl) in
  let next draws := mkClassifier (cl_floor cl) (cl_hourly cl) (cl_hourMin cl) cache (cl_min cl) draws in
  if ratio =? 1 then (true, next (cl_draws cl))
  else if 1 <? ratio then (intN (cl_draws cl) ratio =? 0, next (S (cl_draws cl)))
  else (false, next (cl_draws cl)).

(** [boringTraceKey] *)
Definition boringTraceKey (spans : list Span) : option (string * Z) :=
  (fun root => (sp_Name root, sp_StartTimeUs root /t 60000000)) <$> traceRoot spans.

(** [boringSampler.keep]; a trace has spans. *)
Definition sampler_keep (intN : nat -> Z -> Z) (p : BoringPolicyReader) (bt : boringTrace) (cl : classifier)
  : bool * classifier :=
  let '(ratioKeep, cl) := ratioVerdict intN p (bt_projectID bt) cl in
  match cl_floor cl, boringTraceKey (bt_spans bt) with
  | Some f, Some (op, minute) =>
      let '(min, cache) := cachedAnswer (bp_MinTracesPerMinute p) (bt_projectID bt) (cl_min cl) in
      let '(ok, f) := ShouldKeep f (bt_projectID bt) op minute min ratioKeep in
      (ok, mkClassifier (Some f) (cl_hourly cl) (cl_hourMin cl) (cl_ratio cl) cache (cl_draws cl))
  | _, _ => (ratioKeep, cl)
  end.

(** [stampBoringExpiry] *)
Definition stampBoringExpiry (retention now : Z) (spans : list Span) : list Span :=
  if retention <=? 0 then spans
  else (fun s => setExpiry (default now (sp_IngestedAt s) + retention) s) <$> spans.

(** The groups of [markVerboseClean]: the positions of a trace, and whether it is dirty;
    and the trace ids in the order they are first seen. *)
Definition groupOne (slowThresholdUs : Z) (st : gmap string (list nat * bool) * list string)
  (at_ : nat * Span) : gmap string (list nat * bool) * list string :=
  let '(groups, order) := st in
  let id := sp_TraceID at_.2 in
  let dirty := dirtySpan slowThresholdUs at_.2 in
  match groups !! id with
  | None => (<[id := ([at_.1], dirty)]> groups, order ++ [id])
  | Some (idx, d) => (<[id := (idx ++ [at_.1], d || dirty)]> groups, order)
  end.

(** One trace of [markVerboseClean]. *)
Definition markOne (policy : option BoringPolicyReader) (verbose : gmap Z bool)
  (groups : gmap string (list nat * bool)) (st : list Span * classifier) (id : string)
  : list Span * classifier :=
  let '(result, cl) := st in
  let '(idx, dirty) := default ([], false) (groups !! id) in
  let spans := omap (fun i => result !! i) idx in
  match spans with
  | [] => st
  | first :: _ =>
      if dirty || negb (isVerbose verbose (sp_ProjectID first)) then st
      else
        let '(ok, cl) := tier_admits policy (sp_ProjectID first) spans cl in
        (if ok then foldl (fun l i => alter markDurable i l) result idx else result, cl)
  end.

(** [hourlyTier.markVerboseClean]; a nil tier does nothing. *)
Definition markVerboseClean (policy : option BoringPolicyReader) (result : list Span) (verbose : gmap Z bool)
  (slowThresholdUs : Z) (cl : classifier) : list Span * classifier :=
  match policy, cl_hourly cl with
  | Some _, Some _ =>
      let '(groups, order) := foldl (groupOne slowThresholdUs) (∅, []) (zip (seq 0 (length result)) result) in
      foldl (markOne policy verbose groups) (result, cl) order
  | _, _ => (result, cl)
  end.

(** The loop over the boring traces. *)
Definition storeOne (intN : nat -> Z -> Z) (p : BoringPolicyReader) (boringRetention now : Z)
  (traces : gmap string boringTrace) (st : list Span * classifier) (id : string) : list Span * classifier :=
  let '(result, cl) := st in
  match traces !! id with
  | None => st
  | Some bt =>
      let '(durable, cl) := tier_admits (Some p) (bt_projectID bt) (bt_spans bt) cl in
      if durable then (result ++ (markDurable <$> bt_spans bt), cl)
      else
        let '(ok, cl) := sampler_keep intN p bt cl in
        if ok then (result ++ stampBoringExpiry boringRetention now (bt_spans bt), cl) else (result, cl)
  end.

(** [classifySpansForStorage] *)
Definition classifySpansForStorage (intN : nat -> Z -> Z) (spans : list Span)
  (slowThresholdUs boringRetention now : Z) (policy : option BoringPolicyReader)
  (floor hourly : option MinuteFloor) : list Span * classifier :=
  let cl := newBatch floor hourly in
  if slowThresholdUs <=? 0 then (spans, cl)
  else
    let verbose := verboseProjects spans policy now in
    let interesting := interestingTraceIDs spans verbose slowThresholdUs in
    let '(result, order, traces) := splitBoringTraces spans interesting in
    let '(result, cl) := markVerboseClean policy result verbose slowThresholdUs cl in
    match policy with
    | None => (result, cl)
    | Some p => foldl (storeOne intN p boringRetention now traces) (result, cl) order
    end.
