(* ===== verification/ClassifyProps.v ===== *)
(** * What classification stores

    The spans stored are those of the interesting traces, in order, and then the kept
    boring traces, each whole; the minute floor keeps its minimum of every operation and
    the hourly tier no more than its own. *)
From S2P Require Import Prelude Model Sampling TraceSampling Classify.

(** ** Splitting *)

Definition traceOf (id : string) (spans : list Span) : list Span := filter (fun s => sp_TraceID s = id) spans.

(** The values of a list in the order they are first seen. *)
Definition firstSeen (l : list string) : list string :=
  foldl (fun acc x => if bool_decide (x ∈ acc) then acc else acc ++ [x]) [] l.

Lemma firstSeen_snoc l x :
  firstSeen (l ++ [x]) = if bool_decide (x ∈ firstSeen l) then firstSeen l else firstSeen l ++ [x].
Proof. unfold firstSeen. by rewrite foldl_snoc. Qed.

Lemma elem_of_firstSeen l x : x ∈ firstSeen l <-> x ∈ l.
Proof.
  induction l as [|y l IH] using rev_ind; [done|]. rewrite firstSeen_snoc.
  case_bool_decide; rewrite ?elem_of_app, ?list_elem_of_singleton; set_solver.
Qed.

Lemma NoDup_firstSeen l : NoDup (firstSeen l).
Proof.
  induction l as [|y l IH] using rev_ind; [constructor|]. rewrite firstSeen_snoc.
  case_bool_decide; [done|]. apply NoDup_app. split_and!; [done| |apply NoDup_singleton].
  intros x Hx ->%list_elem_of_singleton. done.
Qed.

Definition boringSpans (interesting : gset string) (spans : list Span) : list Span :=
  filter (fun s => sp_TraceID s ∉ interesting) spans.

(** The boring traces hold the spans of their ids. *)
Definition splitOf (interesting : gset string) (spans : list Span)
  (st : list Span * list string * gmap string boringTrace) : Prop :=
  let '(result, order, traces) := st in
  result = filter (fun s => sp_TraceID s ∈ interesting) spans /\
  order = firstSeen (sp_TraceID <$> boringSpans interesting spans) /\
  (forall id, is_Some (traces !! id) <-> id ∈ order) /\
  forall id bt, traces !! id = Some bt ->
    bt_spans bt = traceOf id spans /\ Some (bt_projectID bt) = sp_ProjectID <$> head (traceOf id spans).

Lemma traceOf_app id l k : traceOf id (l ++ k) = traceOf id l ++ traceOf id k.
Proof. apply filter_app. Qed.

Lemma splitOne_spec interesting spans st s :
  splitOf interesting spans st -> splitOf interesting (spans ++ [s]) (splitOne interesting st s).
Proof.
  destruct st as [[result order] traces]. intros (-> & -> & Hd & Ht). unfold splitOne.
  case_bool_decide as Hin.
  - split_and!.
    + rewrite filter_app. by rewrite filter_cons_True, filter_nil.
    + unfold boringSpans. by rewrite filter_app, filter_cons_False, filter_nil, app_nil_r by tauto.
    + exact Hd.
    + intros id bt Hl. rewrite traceOf_app. unfold traceOf at 2 4.
      assert (id <> sp_TraceID s) as Hne.
      { intros ->. assert (sp_TraceID s ∈ firstSeen (sp_TraceID <$> boringSpans interesting spans)) as Hs
          by (apply Hd; eauto).
        apply elem_of_firstSeen, list_elem_of_fmap in Hs as (s' & E & [Hn _]%list_elem_of_filter).
        by rewrite E in Hin. }
      rewrite filter_cons_False, filter_nil, app_nil_r by done. by apply Ht.
  - assert (boringSpans interesting (spans ++ [s]) = boringSpans interesting spans ++ [s]) as Eb.
    { unfold boringSpans. by rewrite filter_app, filter_cons_True, filter_nil. }
    assert (filter (fun s => sp_TraceID s ∈ interesting) (spans ++ [s]) =
      filter (fun s => sp_TraceID s ∈ interesting) spans) as Ef.
    { by rewrite filter_app, filter_cons_False, filter_nil, app_nil_r. }
    assert (traceOf (sp_TraceID s) (spans ++ [s]) = traceOf (sp_TraceID s) spans ++ [s]) as Es.
    { rewrite traceOf_app. unfold traceOf at 2. by rewrite filter_cons_True, filter_nil. }
    assert (forall id, id <> sp_TraceID s -> traceOf id (spans ++ [s]) = traceOf id spans) as Eo.
    { intros id Hne. rewrite traceOf_app. unfold traceOf at 2.
      by rewrite filter_cons_False, filter_nil, app_nil_r by done. }
    assert (is_Some (traces !! sp_TraceID s) <-> sp_TraceID s ∈ firstSeen (sp_TraceID <$> boringSpans interesting spans))
      as Hs by apply Hd.
    destruct (traces !! sp_TraceID s) as [bt|] eqn:El; unfold splitOf; rewrite Eb, fmap_app, Ef; cbn [fmap list_fmap];
      rewrite firstSeen_snoc.
    + rewrite bool_decide_eq_true_2 by by apply Hs. split_and!; [done|done| |].
      * intros id. rewrite <- Hd, lookup_insert. case_decide as Ei; [subst id; rewrite El; split; eauto|done].
      * intros id bt'. rewrite lookup_insert. case_decide as Ei.
        -- intros [= <-]. subst id. destruct (Ht _ _ El) as [E1 E2]. cbn. rewrite Es, E1. split; [done|].
           rewrite E2. rewrite <- E1 in *. by destruct (bt_spans bt).
        -- intros Hl. rewrite Eo by done. by apply Ht.
    + rewrite bool_decide_eq_false_2 by (intros H%Hs; by destruct H). split_and!; [done|done| |].
      * intros id. rewrite elem_of_app, list_elem_of_singleton, <- Hd, lookup_insert.
        case_decide as Ei; [subst id|]; naive_solver.
      * intros id bt'. rewrite lookup_insert. case_decide as Ei.
        -- intros [= <-]. subst id. cbn. rewrite Es.
           assert (traceOf (sp_TraceID s) spans = []) as ->.
           { destruct (traceOf (sp_TraceID s) spans) as [|s' l] eqn:E; [done|exfalso].
             assert (s' ∈ traceOf (sp_TraceID s) spans) as [E' Hs']%list_elem_of_filter by (rewrite E; by left).
             destruct (proj2 Hs) as [? ?]; [|done]. apply elem_of_firstSeen, list_elem_of_fmap.
             exists s'. split; [done|]. apply list_elem_of_filter. by rewrite E'. }
           done.
        -- intros Hl. rewrite Eo by done. by apply Ht.
Qed.

Lemma split_spec interesting spans : splitOf interesting spans (splitBoringTraces spans interesting).
Proof.
  unfold splitBoringTraces. induction spans as [|s spans IH] using rev_ind.
  - split_and!; [done|done| |]; [|by intros id bt].
    intros id. cbn. split; [intros [? ?]; done|]. by intros ?%not_elem_of_nil.
  - rewrite foldl_snoc. by apply splitOne_spec.
Qed.

(** ** Interesting traces *)

(** A project in verbose mode. *)
Definition verboseNow (policy : option BoringPolicyReader) (now p : Z) : bool :=
  match policy with
  | None => false
  | Some pol => match bp_VerboseUntil pol p with Some until => now <? until | None => false end
  end.

Lemma verbose_spec policy now spans s :
  s ∈ spans -> isVerbose (verboseProjects spans policy now) (sp_ProjectID s) = verboseNow policy now (sp_ProjectID s).
Proof.
  intros Hs. destruct policy as [p|]; [|done]. unfold verboseProjects, isVerbose.
  assert ((forall q b, foldl (fun m s =>
        match m !! sp_ProjectID s with
        | Some _ => m
        | None => <[sp_ProjectID s := match bp_VerboseUntil p (sp_ProjectID s) with
            | Some until => now <? until | None => false end]> m
        end) (∅ : gmap Z bool) spans !! q = Some b -> b = verboseNow (Some p) now q) /\
    forall s, s ∈ spans -> is_Some (foldl (fun m s =>
        match m !! sp_ProjectID s with
        | Some _ => m
        | None => <[sp_ProjectID s := match bp_VerboseUntil p (sp_ProjectID s) with
            | Some until => now <? until | None => false end]> m
        end) (∅ : gmap Z bool) spans !! sp_ProjectID s)) as [H1 H2].
  { clear s Hs. induction spans as [|x spans IH] using rev_ind; [split; [done|by intros s ?%not_elem_of_nil]|].
    rewrite !foldl_snoc. destruct IH as [I1 I2]. set (m := foldl _ _ spans) in *.
    destruct (m !! sp_ProjectID x) as [b|] eqn:E.
    - split; [done|]. intros s [Hs| ->%list_elem_of_singleton]%elem_of_app; [by apply I2|by rewrite E; eauto].
    - split.
      + intros q b. rewrite lookup_insert. case_decide as Eq; [|apply I1]. intros [= <-]. by subst q.
      + intros s Hs. rewrite lookup_insert. case_decide; [eauto|].
        apply elem_of_app in Hs as [Hs| ->%list_elem_of_singleton]; [by apply I2|done]. }
  destruct (H2 s Hs) as [b Hb]. rewrite Hb. cbn. by apply H1.
Qed.

(** A trace with an error span, a slow span or a span of a verbose project. *)
Definition interestingTrace (policy : option BoringPolicyReader) (now slow : Z) (spans : list Span) (id : string)
  : Prop :=
  exists s, s ∈ spans /\ sp_TraceID s = id /\
    (verboseNow policy now (sp_ProjectID s) = true \/ sp_Status s = "error"%string \/ slow < sp_DurationUs s).

Lemma interesting_spec policy now slow spans id :
  id ∈ interestingTraceIDs spans (verboseProjects spans policy now) slow <->
  interestingTrace policy now slow spans id.
Proof.
  set (verbose := verboseProjects spans policy now).
  assert (forall l m, id ∈ foldl (fun m s => if isVerbose verbose (sp_ProjectID s) || dirtySpan slow s
      then {[sp_TraceID s]} ∪ m else m) (m : gset string) l <->
    id ∈ m \/ exists s, s ∈ l /\ sp_TraceID s = id /\
      isVerbose verbose (sp_ProjectID s) || dirtySpan slow s = true) as H.
  { induction l as [|x l IH]; intros m; cbn [foldl].
    { split; [by left|]. intros [?|(s & ?%not_elem_of_nil & _)]; done. }
    rewrite IH. destruct (isVerbose verbose (sp_ProjectID x) || dirtySpan slow x) eqn:E.
    - rewrite elem_of_union, elem_of_singleton. split.
      + intros [[-> |?]|(s & Hs & Hx)]; [right; exists x; split; [by left|done]|by left|].
        right. exists s. split; [by right|done].
      + intros [?|(s & [->|Hs]%elem_of_cons & <- & Hx)]; [by left; right|by left; left|].
        right. by exists s.
    - split; [intros [?|(s & Hs & Hx)]; [by left|right; exists s; split; [by right|done]]|].
      intros [?|(s & [->|Hs]%elem_of_cons & E1 & Hx)]; [by left|congruence|right; by exists s]. }
  unfold interestingTraceIDs, interestingTrace. rewrite H. split.
  - intros [?%elem_of_empty|(s & Hs & E & Hx)]; [done|]. exists s. split_and!; [done|done|].
    unfold verbose in Hx. rewrite (verbose_spec policy now spans s Hs) in Hx. unfold dirtySpan in Hx.
    apply orb_true_iff in Hx as [?|[Hx|Hx]%orb_true_iff]; [by left|right; left; by apply bool_decide_eq_true in Hx|].
    right; right. to_prop. lia.
  - intros (s & Hs & E & Hx). right. exists s. split_and!; [done|done|]. unfold verbose, dirtySpan.
    rewrite (verbose_spec policy now spans s Hs), !orb_true_iff, bool_decide_eq_true, Z.ltb_lt. tauto.
Qed.

(** ** Verdicts and counters *)

(** What happens to a boring trace. *)
Inductive verdict := Durable | Sampled | Dropped.

#[export] Instance verdict_eq_dec : EqDecision verdict.
Proof. solve_decision. Defined.

Definition applyVerdict (retention now : Z) (v : verdict) (spans : list Span) : list Span :=
  match v with
  | Durable => markDurable <$> spans
  | Sampled => stampBoringExpiry retention now spans
  | Dropped => []
  end.

(** The counter of a floor that may be absent. *)
Definition countOf (f : option MinuteFloor) (key : string) : Z := from_option (fun f => countAt f key) 0 f.

Definition cacheOk (f : Z -> Z) (c : gmap Z Z) : Prop := forall p v, c !! p = Some v -> v = f p.

Lemma cachedAnswer_ok f p c v c' : cacheOk f c -> cachedAnswer f p c = (v, c') -> v = f p /\ cacheOk f c'.
Proof.
  intros Hc. unfold cachedAnswer. destruct (c !! p) as [x|] eqn:E; intros [= <- <-]; [split; [by apply Hc|done]|].
  split; [done|]. intros q v. rewrite lookup_insert. case_decide as E'; [intros [= <-]; by subst q|apply Hc].
Qed.

(** The caches hold answers of the policy, and the hourly floor has its width. *)
Record clOK (p : BoringPolicyReader) (width : Z) (cl : classifier) : Prop := {
  ok_hourMin : cacheOk (bp_MinTracesPerHour p) (cl_hourMin cl);
  ok_min : cacheOk (bp_MinTracesPerMinute p) (cl_min cl);
  ok_width f : cl_hourly cl = Some f -> mf_bucket f = width;
}.

(** The operation and the minute, or the hour, of a trace. *)
Definition minuteOf (bt : boringTrace) : option (Z * string * Z) :=
  (fun k => (bt_projectID bt, k.1, k.2)) <$> boringTraceKey (bt_spans bt).

Definition hourOf (width : Z) (bt : boringTrace) : option (Z * string * Z) :=
  (fun root => (bt_projectID bt, sp_Name root, BucketOf (NewBucketFloor width) (sp_StartTimeUs root)))
    <$> traceRoot (bt_spans bt).

Definition keyOf (k : Z * string * Z) : string := bucketKey k.1.1 k.1.2 k.2.

Lemma keyOf_inj k k' : keyOf k = keyOf k' -> k = k'.
Proof. destruct k as [[p o] b], k' as [[p' o'] b']. intros (E1 & E2 & E3)%bucketKey_inj_lem. cbn in *. congruence. Qed.

Definition at1 (cond : bool) : Z := if cond then 1 else 0.

(** What a counter that admits up to [m] stands at after [n] more were offered. *)
Definition filledTo (m c n : Z) : Z := if 0 <? m then Z.max c (Z.min m (c + n)) else c.

Lemma filledTo_0 m c : filledTo m c 0 = c.
Proof. unfold filledTo. case_match; lia. Qed.

Lemma filledTo_add m c n n' : 0 <= n -> 0 <= n' -> filledTo m (filledTo m c n) n' = filledTo m c (n + n').
Proof. unfold filledTo. intros. destruct (0 <? m); lia. Qed.

Lemma filledTo_1 m c : filledTo m c 1 = c + at1 ((0 <? m) && (c <? m)).
Proof. unfold filledTo, at1. destruct (Z.ltb_spec 0 m), (Z.ltb_spec c m); cbn; lia. Qed.

Lemma ShouldKeep_width f p op b min r : mf_bucket (ShouldKeep f p op b min r).2 = mf_bucket f.
Proof. unfold ShouldKeep. cbv zeta. by repeat case_match. Qed.

Lemma tier_admits_spec p width bt cl ok cl' :
  clOK p width cl -> tier_admits (Some p) (bt_projectID bt) (bt_spans bt) cl = (ok, cl') ->
  clOK p width cl' /\ cl_floor cl' = cl_floor cl /\ (is_Some (cl_hourly cl') <-> is_Some (cl_hourly cl)) /\
  forall k, countOf (cl_hourly cl') (keyOf k) =
      countOf (cl_hourly cl) (keyOf k) + at1 (ok && bool_decide (hourOf width bt = Some k)) /\
    (is_Some (cl_hourly cl) -> hourOf width bt = Some k ->
     ok = (0 <? bp_MinTracesPerHour p (bt_projectID bt)) &&
          (countOf (cl_hourly cl) (keyOf k) <? bp_MinTracesPerHour p (bt_projectID bt))).
Proof.
  intros [O1 O2 O3]. unfold tier_admits.
  destruct (cl_hourly cl) as [f|] eqn:Ef.
  2:{ intros [= <- <-]. rewrite Ef. split_and!; [by split; rewrite ?Ef|done|done|]. intros k. cbn. split; [done|by intros [? ?]]. }
  destruct (traceRoot (bt_spans bt)) as [root|] eqn:Er.
  2:{ intros [= <- <-]. rewrite Ef. split_and!; [by split; rewrite ?Ef|done|done|]. intros k. unfold hourOf. rewrite Er. cbn. split; [lia|done]. }
  destruct (cachedAnswer _ _ _) as [min cache] eqn:Ec. apply cachedAnswer_ok in Ec as [-> Hc]; [|done].
  pose proof (ShouldKeep_width f (bt_projectID bt) (sp_Name root) (BucketOf f (sp_StartTimeUs root))
    (bp_MinTracesPerHour p (bt_projectID bt)) false) as Hw.
  destruct (ShouldKeep _ _ _ _ _ _) as [k f'] eqn:Ek. intros [= <- <-]. cbn [snd] in Hw.
  assert (hourOf width bt = Some (bt_projectID bt, sp_Name root, BucketOf f (sp_StartTimeUs root))) as Eh.
  { unfold hourOf. rewrite Er. cbn. do 2 f_equal. unfold BucketOf, MinuteFloor_width. cbn. by rewrite (O3 f). }
  split_and!; [split; [done|done|intros ? [= <-]; rewrite Hw; by apply O3]|done|by split; eauto|].
  intros key. destruct (ShouldKeep_countAt _ _ _ _ _ _ _ _ (keyOf key) Ek) as (Hn & _ & Hf).
  cbn [cl_hourly countOf from_option]. rewrite Hn, Eh. split.
  - f_equal. destruct k; cbn [andb at1]; [|by destruct (decide _)].
    destruct (decide _) as [Ed|Ed]; case_bool_decide as Eb; try done.
    + destruct Eb. f_equal. by apply keyOf_inj.
    + by injection Eb as <-.
  - intros _ [= <-]. rewrite (Hf eq_refl). apply andb_comm.
Qed.

Lemma ratioVerdict_frame intN p pid cl ok cl' :
  ratioVerdict intN p pid cl = (ok, cl') ->
  cl_floor cl' = cl_floor cl /\ cl_hourly cl' = cl_hourly cl /\ cl_hourMin cl' = cl_hourMin cl /\
  cl_min cl' = cl_min cl.
Proof.
  unfold ratioVerdict. destruct (cachedAnswer _ _ _) as [ratio cache].
  repeat (destruct (_ =? _) || destruct (_ <? _)); by intros [= <- <-].
Qed.

Lemma sampler_keep_spec intN p width bt cl ok cl' :
  clOK p width cl -> bt_spans bt <> [] -> sampler_keep intN p bt cl = (ok, cl') ->
  clOK p width cl' /\ cl_hourly cl' = cl_hourly cl /\
  (is_Some (cl_floor cl) -> is_Some (cl_floor cl') /\
   forall k, countOf (cl_floor cl') (keyOf k) =
       countOf (cl_floor cl) (keyOf k) + at1 (ok && bool_decide (minuteOf bt = Some k)) /\
     (ok = false -> minuteOf bt = Some k ->
      bp_MinTracesPerMinute p (bt_projectID bt) <= Z.max 0 (countOf (cl_floor cl) (keyOf k)))).
Proof.
  intros [O1 O2 O3] Hne. unfold sampler_keep.
  destruct (ratioVerdict intN p (bt_projectID bt) cl) as [rk cl1] eqn:Er.
  apply ratioVerdict_frame in Er as (E1 & E2 & E3 & E4). rewrite E1.
  assert (clOK p width cl1) as Hok by (split; rewrite ?E2, ?E3, ?E4; done).
  destruct (cl_floor cl) as [f|] eqn:Ef.
  2:{ intros [= <- <-]. split_and!; [done|done|]. by intros [? ?]. }
  destruct (boringTraceKey (bt_spans bt)) as [[op minute]|] eqn:Ek.
  2:{ exfalso. unfold boringTraceKey in Ek. apply fmap_None in Ek. unfold traceRoot in Ek.
      destruct (List.find _ _); [done|]. by destruct (bt_spans bt). }
  destruct (cachedAnswer _ _ _) as [min cache] eqn:Ec. rewrite E4 in Ec.
  apply cachedAnswer_ok in Ec as [-> Hc]; [|done].
  destruct (ShouldKeep _ _ _ _ _ _) as [k f'] eqn:Es. intros [= <- <-]. cbn [cl_hourly cl_floor].
  split_and!; [destruct Hok; by split|done|]. intros _. split; [eauto|]. intros key.
  assert (minuteOf bt = Some (bt_projectID bt, op, minute)) as Em by (unfold minuteOf; by rewrite Ek).
  destruct (ShouldKeep_countAt _ _ _ _ _ _ _ _ (keyOf key) Es) as (Hn & Ht & Hf).
  cbn [countOf from_option]. rewrite Hn, Em. split.
  - f_equal. destruct k; cbn [andb at1]; [|by destruct (decide _)].
    destruct (decide _) as [Ed|Ed]; case_bool_decide as Eb; try done.
    + destruct Eb. f_equal. by apply keyOf_inj.
    + by injection Eb as <-.
  - intros -> [= <-]. destruct rk; [by specialize (Ht eq_refl)|]. specialize (Hf eq_refl).
    symmetry in Hf. apply andb_false_iff in Hf as [H|H]; to_prop; unfold keyOf; cbn in *; lia.
Qed.

(** ** The loop over the boring traces *)

Section StoreLoop.
Context (intN : nat -> Z -> Z) (p : BoringPolicyReader) (retention now width : Z).
Context (traces : gmap string boringTrace) (T : string -> boringTrace).

Definition countWhere (P : string -> verdict -> bool) (order : list string) (vs : list verdict) : Z :=
  sumBy (fun iv : string * verdict => at1 (P iv.1 iv.2)) (zip order vs).

(** Boring traces of a minute that the hourly tier left, and those of them kept. *)
Definition offered (k : Z * string * Z) : list string -> list verdict -> Z :=
  countWhere (fun id v => negb (bool_decide (v = Durable)) && bool_decide (minuteOf (T id) = Some k)).

Definition sampled (k : Z * string * Z) : list string -> list verdict -> Z :=
  countWhere (fun id v => bool_decide (v = Sampled) && bool_decide (minuteOf (T id) = Some k)).

(** Traces of an hour. *)
Definition tracesOf (k : Z * string * Z) (order : list string) : Z :=
  sumBy (fun id => at1 (bool_decide (hourOf width (T id) = Some k))) order.

Lemma tracesOf_nonneg k order : 0 <= tracesOf k order.
Proof. apply sumBy_nonneg. intros id _. unfold at1. by case_match. Qed.

(** Boring traces of an hour marked durable. *)
Definition durables (k : Z * string * Z) : list string -> list verdict -> Z :=
  countWhere (fun id v => bool_decide (v = Durable) && bool_decide (hourOf width (T id) = Some k)).

Lemma countWhere_cons P id v order vs :
  countWhere P (id :: order) (v :: vs) = at1 (P id v) + countWhere P order vs.
Proof. done. Qed.

Lemma countWhere_nonneg P order vs : 0 <= countWhere P order vs.
Proof. apply sumBy_nonneg. intros [id v] _. unfold at1. cbn. by destruct (P id v). Qed.

(** What a run of the loop shows, for its verdicts. *)
Record stored (order : list string) (result : list Span) (cl : classifier) (vs : list verdict)
  (result' : list Span) (cl' : classifier) : Prop := {
  st_length : length vs = length order;
  st_result : result' = result ++
    mjoin (zip_with (fun id v => applyVerdict retention now v (bt_spans (T id))) order vs);
  st_minute k : is_Some (cl_floor cl) ->
    Z.min (bp_MinTracesPerMinute p k.1.1) (Z.max 0 (countOf (cl_floor cl) (keyOf k)) + offered k order vs) <=
    Z.max 0 (countOf (cl_floor cl) (keyOf k)) + sampled k order vs;
  st_floor k : is_Some (cl_floor cl) ->
    countOf (cl_floor cl') (keyOf k) = countOf (cl_floor cl) (keyOf k) + sampled k order vs;
  st_some : is_Some (cl_hourly cl') <-> is_Some (cl_hourly cl);
  st_hour k : countOf (cl_hourly cl') (keyOf k) = countOf (cl_hourly cl) (keyOf k) + durables k order vs;
  st_filled k : is_Some (cl_hourly cl) -> countOf (cl_hourly cl') (keyOf k) =
    filledTo (bp_MinTracesPerHour p k.1.1) (countOf (cl_hourly cl) (keyOf k)) (tracesOf k order);
}.

Lemma project_of_hour bt k : hourOf width bt = Some k -> bt_projectID bt = k.1.1.
Proof. unfold hourOf. destruct (traceRoot _); [|done]. by intros [= <-]. Qed.

Lemma project_of_minute bt k : minuteOf bt = Some k -> bt_projectID bt = k.1.1.
Proof. unfold minuteOf. destruct (boringTraceKey _); [|done]. by intros [= <-]. Qed.

Lemma hour_step bt cl ok cl' k : clOK p width cl -> tier_admits (Some p) (bt_projectID bt) (bt_spans bt) cl = (ok, cl') ->
  is_Some (cl_hourly cl) ->
  countOf (cl_hourly cl') (keyOf k) = filledTo (bp_MinTracesPerHour p k.1.1) (countOf (cl_hourly cl) (keyOf k))
    (at1 (bool_decide (hourOf width bt = Some k))).
Proof.
  intros Hok Ha Hs. destruct (tier_admits_spec p width bt cl ok cl' Hok Ha) as (_ & _ & _ & Hh). destruct (Hh k) as [-> Hx].
  case_bool_decide as E; [|cbn; by rewrite andb_false_r, filledTo_0, Z.add_0_r].
  rewrite (Hx Hs E), (project_of_hour _ _ E), andb_true_r. cbn [at1]. by rewrite filledTo_1.
Qed.

Lemma storeLoop_spec order : forall result cl,
  Forall (fun id => traces !! id = Some (T id) /\ bt_spans (T id) <> []) order -> clOK p width cl ->
  exists vs, stored order result cl vs
    (foldl (storeOne intN p retention now traces) (result, cl) order).1
    (foldl (storeOne intN p retention now traces) (result, cl) order).2.
Proof.
  induction order as [|id order IH]; intros result cl Ht Hok.
  { exists []. split; [done|cbn; by rewrite app_nil_r|..]; try done; intros k; unfold offered, sampled, durables, countWhere, tracesOf;
      cbn; rewrite ?filledTo_0; try done; lia. }
  apply Forall_cons in Ht as [[Hl Hne] Ht]. cbn [foldl storeOne]. rewrite Hl.
  destruct (tier_admits (Some p) (bt_projectID (T id)) (bt_spans (T id)) cl) as [d cl1] eqn:Ed.
  destruct (tier_admits_spec p width (T id) cl d cl1 Hok Ed) as (Hok1 & Ef1 & Hs1 & Hh1).
  assert (forall k, tracesOf k (id :: order) = at1 (bool_decide (hourOf width (T id) = Some k)) + tracesOf k order) as Etr by done.
  assert (forall k c', is_Some (cl_hourly cl) ->
    c' = filledTo (bp_MinTracesPerHour p k.1.1) (countOf (cl_hourly cl1) (keyOf k)) (tracesOf k order) ->
    c' = filledTo (bp_MinTracesPerHour p k.1.1) (countOf (cl_hourly cl) (keyOf k)) (tracesOf k (id :: order))) as Hfill.
  { intros k c' Hs ->. rewrite (hour_step (T id) cl d cl1 k Hok Ed Hs), Etr. apply filledTo_add; [|apply tracesOf_nonneg].
    unfold at1. by case_bool_decide. }
  destruct d.
  - destruct (IH (result ++ (markDurable <$> bt_spans (T id))) cl1 Ht Hok1) as [vs [L R M F HS H X]].
    exists (Durable :: vs). split.
    + cbn. by rewrite L.
    + rewrite R. cbn [zip_with applyVerdict]. change (mjoin (?x :: ?l)) with (x ++ mjoin l). by rewrite (assoc_L app).
    + intros k Hf. rewrite Ef1 in M. unfold offered, sampled in *. rewrite !countWhere_cons. cbn. by apply M.
    + intros k Hf. rewrite Ef1 in F. unfold sampled in *. rewrite countWhere_cons. cbn. by apply F.
    + by rewrite HS.
    + intros k. rewrite H. destruct (Hh1 k) as [-> _]. unfold durables. rewrite countWhere_cons. cbn [andb].
      rewrite (bool_decide_eq_true_2 (Durable = Durable)) by done. cbn [andb]. lia.
    + intros k Hs. apply Hfill; [done|]. by apply X, Hs1.
  - destruct (sampler_keep intN p (T id) cl1) as [ok cl2] eqn:Es.
    destruct (sampler_keep_spec intN p width (T id) cl1 ok cl2 Hok1 Hne Es) as (Hok2 & Eh2 & Hf2).
    rewrite Ef1 in Hf2.
    assert ((if ok then (result ++ stampBoringExpiry retention now (bt_spans (T id)), cl2) else (result, cl2)) =
      (if ok then result ++ stampBoringExpiry retention now (bt_spans (T id)) else result, cl2)) as -> by by destruct ok.
    destruct (IH (if ok then result ++ stampBoringExpiry retention now (bt_spans (T id)) else result) cl2 Ht Hok2)
      as [vs [L R M F HS H X]].
    exists ((if ok then Sampled else Dropped) :: vs). split.
    + cbn. by rewrite L.
    + rewrite R. cbn [zip_with]. change (mjoin (?x :: ?l)) with (x ++ mjoin l).
      destruct ok; cbn [applyVerdict]; [by rewrite (assoc_L app)|done].
    + intros k Hf. destruct (Hf2 Hf) as [Hs Hc]. specialize (M k Hs). destruct (Hc k) as [Hn Hlow]. rewrite Hn in M.
      pose proof (countWhere_nonneg (fun id v => negb (bool_decide (v = Durable)) &&
        bool_decide (minuteOf (T id) = Some k)) order vs) as Hp.
      pose proof (countWhere_nonneg (fun id v => bool_decide (v = Sampled) &&
        bool_decide (minuteOf (T id) = Some k)) order vs) as Hp'.
      unfold offered, sampled in *. rewrite !countWhere_cons.
      destruct (decide (minuteOf (T id) = Some k)) as [E|E].
      * rewrite !(bool_decide_eq_true_2 _ E), !andb_true_r in *. rewrite (project_of_minute _ _ E) in Hlow.
        destruct ok; cbn [at1] in M.
        -- change (at1 (negb (bool_decide (Sampled = Durable)))) with 1.
           change (at1 (bool_decide (Sampled = Sampled))) with 1. lia.
        -- change (at1 (negb (bool_decide (Dropped = Durable)))) with 1.
           change (at1 (bool_decide (Dropped = Sampled))) with 0. specialize (Hlow eq_refl E). lia.
      * rewrite !(bool_decide_eq_false_2 _ E), !andb_false_r in *. cbn [at1] in *. lia.
    + intros k Hf. destruct (Hf2 Hf) as [Hs Hc]. rewrite (F k Hs). destruct (Hc k) as [-> _]. unfold sampled. rewrite countWhere_cons.
      destruct ok; [rewrite (bool_decide_eq_true_2 (Sampled = Sampled)) by done|rewrite (bool_decide_eq_false_2 (Dropped = Sampled)) by done]; lia.
    + by rewrite HS, Eh2.
    + intros k. rewrite H, Eh2. destruct (Hh1 k) as [-> _]. unfold durables. rewrite countWhere_cons.
      assert (bool_decide ((if ok then Sampled else Dropped) = Durable) = false) as -> by by destruct ok.
      cbn [andb at1]. lia.
    + intros k Hs. apply Hfill; [done|]. rewrite <- Eh2. apply X. by rewrite Eh2, Hs1.
Qed.
End StoreLoop.

(** ** Verbose traces *)

Definition markIf (marked : gset string) (s : Span) : Span :=
  if bool_decide (sp_TraceID s ∈ marked) then markDurable s else s.

Lemma markIf_trace marked s : sp_TraceID (markIf marked s) = sp_TraceID s.
Proof. unfold markIf. by case_bool_decide. Qed.

(** The spans of a list with their positions. *)
Definition positioned (l : list Span) : list (nat * Span) := zip (seq 0 (length l)) l.

Lemma positioned_lookup l i s : (i, s) ∈ positioned l <-> l !! i = Some s.
Proof.
  unfold positioned. rewrite list_elem_of_lookup. split.
  - intros [j (x & y & [= <- <-] & E1 & E2)%lookup_zip_with_Some]. apply lookup_seq in E1 as [-> _]. done.
  - intros Hl. exists i. apply lookup_zip_with_Some. exists i, s. split_and!; [done| |done].
    apply lookup_seq. split; [done|]. by apply lookup_lt_Some in Hl.
Qed.

Lemma positioned_spans l : (positioned l).*2 = l.
Proof. unfold positioned. apply snd_zip. rewrite length_seq. done. Qed.

Definition groupOf (id : string) (ps : list (nat * Span)) : list (nat * Span) :=
  filter (fun q => sp_TraceID q.2 = id) ps.

Lemma groups_order slow ps :
  (foldl (groupOne slow) (∅, []) ps).2 = firstSeen (sp_TraceID <$> ps.*2) /\
  forall id, is_Some ((foldl (groupOne slow) (∅, []) ps).1 !! id) <-> id ∈ sp_TraceID <$> ps.*2.
Proof.
  induction ps as [|[i s] ps [IH1 IH2]] using rev_ind.
  { split; [done|]. intros id. cbn. split; [by intros [? ?]|by intros ?%not_elem_of_nil]. }
  rewrite foldl_snoc. destruct (foldl (groupOne slow) (∅, []) ps) as [groups order]. cbn [fst snd] in IH1, IH2. subst order.
  rewrite !fmap_app. cbn [fmap list_fmap snd]. rewrite firstSeen_snoc. unfold groupOne. cbn [fst snd].
  specialize (IH2 (sp_TraceID s)) as Hs. destruct (groups !! sp_TraceID s) as [[idx d]|] eqn:Es; cbn [fst snd].
  - rewrite bool_decide_eq_true_2 by (apply elem_of_firstSeen, Hs; eauto). split; [done|]. intros id.
    rewrite lookup_insert, elem_of_app, list_elem_of_singleton, <- IH2. case_decide; [subst id|]; naive_solver.
  - rewrite bool_decide_eq_false_2 by (rewrite elem_of_firstSeen, <- Hs; by intros [? ?]). split; [done|]. intros id.
    rewrite lookup_insert, elem_of_app, list_elem_of_singleton, <- IH2. case_decide; [subst id|]; naive_solver.
Qed.

Lemma groupOf_nil id ps : id ∉ sp_TraceID <$> ps.*2 -> groupOf id ps = [].
Proof.
  intros Hn. destruct (groupOf id ps) as [|[i s] g] eqn:Eg; [done|exfalso].
  assert ((i, s) ∈ groupOf id ps) as [E Hs]%list_elem_of_filter by (rewrite Eg; by left).
  apply Hn, list_elem_of_fmap. exists s. split; [done|]. apply list_elem_of_fmap. by exists (i, s).
Qed.

Lemma groups_spec slow ps id :
  default ([], false) ((foldl (groupOne slow) (∅, []) ps).1 !! id) =
  ((groupOf id ps).*1, existsb (dirtySpan slow) (groupOf id ps).*2).
Proof.
  induction ps as [|[i s] ps IH] using rev_ind; [done|]. rewrite foldl_snoc.
  pose proof (proj2 (groups_order slow ps) (sp_TraceID s)) as Hn.
  destruct (foldl (groupOne slow) (∅, []) ps) as [groups order]. cbn [fst] in IH, Hn. unfold groupOne. cbn [fst snd].
  unfold groupOf. rewrite filter_app. fold (groupOf id ps).
  destruct (decide (sp_TraceID s = id)) as [<-|Ei].
  - rewrite filter_cons_True, filter_nil, !fmap_app, existsb_app by done. cbn. rewrite orb_false_r.
    destruct (groups !! sp_TraceID s) as [[idx d]|] eqn:Es; cbn [fst]; rewrite lookup_insert_eq; cbn.
    + cbn in IH. by injection IH as -> ->.
    + rewrite groupOf_nil by (rewrite <- Hn; by intros [? ?]). done.
  - rewrite filter_cons_False, filter_nil, app_nil_r by done.
    destruct (groups !! sp_TraceID s) as [[idx d]|]; cbn [fst]; by rewrite lookup_insert_ne.
Qed.

Lemma groupOf_spans id l : (groupOf id (positioned l)).*2 = traceOf id l.
Proof.
  rewrite <- (positioned_spans l) at 2. unfold groupOf, traceOf. generalize (positioned l). clear l.
  induction l as [|[i s] l IH]; [done|]. rewrite fmap_cons. cbn [snd].
  destruct (decide (sp_TraceID s = id)) as [E|E].
  - by rewrite !filter_cons_True, fmap_cons, IH.
  - by rewrite !filter_cons_False by done.
Qed.

(** The spans read back at the positions of a trace. *)
Lemma read_back l marked id :
  omap (fun i => (markIf marked <$> l) !! i) (groupOf id (positioned l)).*1 = markIf marked <$> traceOf id l.
Proof.
  rewrite <- groupOf_spans.
  assert (Forall (fun q : nat * Span => l !! q.1 = Some q.2) (groupOf id (positioned l))) as Hf.
  { apply Forall_forall. intros [i s] [_ Hs]%list_elem_of_filter. by apply positioned_lookup. }
  induction Hf as [|[i s] ps Hs _ IH]; [done|]. rewrite !fmap_cons. cbn [fst snd] in *. cbn [omap list_omap].
  rewrite list_lookup_fmap, Hs. cbn. by f_equal.
Qed.

Lemma alter_all idx : forall (l : list Span) j,
  foldl (fun l i => alter markDurable i l) l idx !! j =
    if bool_decide (j ∈ idx) then markDurable <$> l !! j else l !! j.
Proof.
  induction idx as [|i idx IH]; intros l j; cbn [foldl].
  { by rewrite bool_decide_eq_false_2 by apply not_elem_of_nil. }
  rewrite IH. destruct (decide (i = j)) as [->|Hne].
  - rewrite list_lookup_alter_eq. rewrite (bool_decide_eq_true_2 (j ∈ j :: idx)) by by left.
    case_bool_decide; [|done]. by destruct (l !! j).
  - rewrite list_lookup_alter_ne by done.
    assert (bool_decide (j ∈ i :: idx) = bool_decide (j ∈ idx)) as -> by (apply bool_decide_ext; set_solver). done.
Qed.

Lemma mark_all l marked id :
  foldl (fun l i => alter markDurable i l) (markIf marked <$> l) (groupOf id (positioned l)).*1 =
  markIf ({[id]} ∪ marked) <$> l.
Proof.
  apply list_eq. intros j. rewrite alter_all, !list_lookup_fmap. destruct (l !! j) as [s|] eqn:E; cbn; [|by case_bool_decide].
  assert (j ∈ (groupOf id (positioned l)).*1 <-> sp_TraceID s = id) as Hj.
  { rewrite list_elem_of_fmap. split.
    - intros ([i x] & -> & [Hx Hp]%list_elem_of_filter). apply positioned_lookup in Hp. cbn in *. congruence.
    - intros Hs. exists (j, s). split; [done|]. apply list_elem_of_filter. split; [done|]. by apply positioned_lookup. }
  destruct (decide (sp_TraceID s = id)) as [Ei|Ei].
  - rewrite bool_decide_eq_true_2 by by apply Hj. unfold markIf.
    rewrite (bool_decide_eq_true_2 (sp_TraceID s ∈ {[id]} ∪ marked)) by set_solver. by case_bool_decide.
  - rewrite bool_decide_eq_false_2 by by rewrite Hj. unfold markIf.
    assert (bool_decide (sp_TraceID s ∈ {[id]} ∪ marked) = bool_decide (sp_TraceID s ∈ marked)) as ->
      by (apply bool_decide_ext; set_solver).
    done.
Qed.

(** The trace of an id, with the project of its first span. *)
Definition boringOf (spans : list Span) (id : string) : boringTrace :=
  mkBoringTrace (default 0 (sp_ProjectID <$> head (traceOf id spans))) (traceOf id spans).

(** A trace without error and slow spans that starts in a verbose project. *)
Definition cleanIn (verbose : Z -> bool) (slow : Z) (spans : list Span) (id : string) : bool :=
  negb (existsb (dirtySpan slow) (traceOf id spans)) &&
  from_option (fun s => verbose (sp_ProjectID s)) false (head (traceOf id spans)).

Lemma traceRoot_markIf marked l : traceRoot (markIf marked <$> l) = markIf marked <$> traceRoot l.
Proof.
  unfold traceRoot.
  assert (List.find (fun s => bool_decide (sp_ParentSpanID s = ""%string)) (markIf marked <$> l) =
    markIf marked <$> List.find (fun s => bool_decide (sp_ParentSpanID s = ""%string)) l) as ->.
  { induction l as [|s l IH]; [done|]. rewrite fmap_cons. cbn [List.find].
    assert (sp_ParentSpanID (markIf marked s) = sp_ParentSpanID s) as -> by (unfold markIf; by case_bool_decide).
    by case_bool_decide. }
  destruct (List.find _ l); [done|]. by destruct l.
Qed.

Lemma hourOf_markIf width marked q l :
  hourOf width (mkBoringTrace q (markIf marked <$> l)) = hourOf width (mkBoringTrace q l).
Proof.
  unfold hourOf. cbn [bt_spans bt_projectID]. rewrite traceRoot_markIf. destruct (traceRoot l) as [s|]; [|done].
  cbn. unfold markIf. by case_bool_decide.
Qed.

Section MarkLoop.
Context (p : BoringPolicyReader) (width slow : Z) (verbose : gmap Z bool) (l : list Span).
Abbreviation groups := (foldl (groupOne slow) (∅, []) (positioned l)).1.
Abbreviation markStep := (markOne (Some p) verbose groups).

(** The traces of an hour that are marked, and those that the tier is asked about. *)
Definition marksOf (marked : gset string) (k : Z * string * Z) (ids : list string) : Z :=
  sumBy (fun id => at1 (bool_decide (id ∈ marked) && bool_decide (hourOf width (boringOf l id) = Some k))) ids.

Definition cleanOf (v : Z -> bool) (k : Z * string * Z) (ids : list string) : Z :=
  sumBy (fun id => at1 (cleanIn v slow l id && bool_decide (hourOf width (boringOf l id) = Some k))) ids.

Lemma cleanOf_nonneg v k ids : 0 <= cleanOf v k ids.
Proof. apply sumBy_nonneg. intros id _. unfold at1. by case_match. Qed.

(** What marking shows: the marked traces are clean ones, every mark is counted, and the
    tier's counters fill up to their minimum. *)
Record markedSo (ids : list string) (cl : classifier) (marked : gset string) (cl' : classifier) : Prop := {
  mk_clean id : id ∈ marked -> id ∈ ids /\ cleanIn (isVerbose verbose) slow l id = true;
  mk_ok : clOK p width cl';
  mk_floor : cl_floor cl' = cl_floor cl;
  mk_some : is_Some (cl_hourly cl') <-> is_Some (cl_hourly cl);
  mk_hour k : countOf (cl_hourly cl') (keyOf k) = countOf (cl_hourly cl) (keyOf k) + marksOf marked k ids;
  mk_filled k : is_Some (cl_hourly cl) -> countOf (cl_hourly cl') (keyOf k) =
    filledTo (bp_MinTracesPerHour p k.1.1) (countOf (cl_hourly cl) (keyOf k)) (cleanOf (isVerbose verbose) k ids);
}.

Lemma markedSo_none id cl : clOK p width cl -> cleanIn (isVerbose verbose) slow l id = false ->
  markedSo [id] cl ∅ cl.
Proof.
  intros Hok Hc. split; [by intros i ?%elem_of_empty|done|done|done| |]; intros k.
  - unfold marksOf. rewrite sumBy_cons, bool_decide_eq_false_2 by set_solver. cbn. lia.
  - intros _. unfold cleanOf. rewrite sumBy_cons, Hc. cbn [andb at1 sumBy foldr]. by rewrite filledTo_0.
Qed.

Lemma markOne_spec marked cl id : clOK p width cl ->
  exists new cl', markStep (markIf marked <$> l, cl) id = (markIf (new ∪ marked) <$> l, cl') /\
    markedSo [id] cl new cl'.
Proof.
  intros Hok. unfold markOne. rewrite groups_spec, read_back, groupOf_spans.
  assert (forall r : list Span * classifier, r = (markIf marked <$> l, cl) ->
    cleanIn (isVerbose verbose) slow l id = false ->
    exists new cl', r = (markIf (new ∪ marked) <$> l, cl') /\ markedSo [id] cl new cl') as Hskip.
  { intros r -> Hc. exists ∅, cl. rewrite (left_id_L ∅ (∪)). split; [done|]. by apply markedSo_none. }
  destruct (traceOf id l) as [|s0 spans] eqn:Et.
  { apply Hskip; [done|]. unfold cleanIn. by rewrite Et. }
  destruct (fmap (markIf marked) (s0 :: spans)) as [|x xs] eqn:Ex; [done|].
  assert (x = markIf marked s0) as -> by by injection Ex.
  assert (sp_ProjectID (markIf marked s0) = sp_ProjectID s0) as -> by (unfold markIf; by case_bool_decide).
  assert (cleanIn (isVerbose verbose) slow l id =
    negb (existsb (dirtySpan slow) (s0 :: spans) || negb (isVerbose verbose (sp_ProjectID s0)))) as Ec.
  { unfold cleanIn. rewrite Et, negb_orb, negb_involutive. done. }
  destruct (_ || negb _) eqn:Ed; [by apply Hskip|]. rewrite <- Ex, <- Et. clear xs Ex Hskip.
  set (bt := mkBoringTrace (sp_ProjectID s0) (markIf marked <$> traceOf id l)).
  destruct (tier_admits (Some p) (sp_ProjectID s0) (markIf marked <$> traceOf id l) cl) as [ok cl1] eqn:Ea.
  destruct (tier_admits_spec p width bt cl ok cl1 Hok Ea) as (Hok1 & Ef & Hs & Hh).
  assert (hourOf width (boringOf l id) = hourOf width bt) as Eh.
  { unfold bt. rewrite hourOf_markIf. unfold boringOf. by rewrite Et. }
  exists (if ok then {[id]} else ∅), cl1. split.
  { destruct ok; [by rewrite mark_all|by rewrite (left_id_L ∅ (∪))]. }
  split; [|done|done|done| |]; [|intros k..].
  - destruct ok; [intros i ->%elem_of_singleton; split; [by left|done]|by intros i ?%elem_of_empty].
  - destruct (Hh k) as [-> _]. unfold marksOf. rewrite sumBy_cons, Eh. change (sumBy _ []) with 0. rewrite Z.add_0_r.
    do 3 f_equal. destruct ok; symmetry; [apply bool_decide_eq_true_2|apply bool_decide_eq_false_2]; set_solver.
  - intros Hsome. unfold cleanOf. rewrite sumBy_cons, Ec, Eh. change (sumBy _ []) with 0. rewrite Z.add_0_r.
    by apply hour_step with ok.
Qed.

Lemma markedSo_cons id ids cl new cl1 marked cl' :
  id ∉ ids -> markedSo [id] cl new cl1 -> markedSo ids cl1 marked cl' ->
  markedSo (id :: ids) cl (marked ∪ new) cl'.
Proof.
  intros Hn [A1 A2 A3 A4 A5 A6] [B1 B2 B3 B4 B5 B6]. split.
  - intros i [Hi|Hi]%elem_of_union; [destruct (B1 i Hi); split; [by right|done]|].
    destruct (A1 i Hi) as [->%list_elem_of_singleton ?]. split; [by left|done].
  - done.
  - congruence.
  - by rewrite B4.
  - intros k. rewrite B5, A5. unfold marksOf. rewrite !sumBy_cons. change (sumBy _ []) with 0. rewrite Z.add_0_r, <- Z.add_assoc.
    do 2 f_equal; [do 2 f_equal; apply bool_decide_ext|].
    + split; [set_solver|]. intros [Hi|?]%elem_of_union; [by destruct (B1 id Hi)|done].
    + apply sumBy_ext. intros i Hi. do 2 f_equal. apply bool_decide_ext. split; [set_solver|].
      intros [?|Hx]%elem_of_union; [done|]. destruct (A1 i Hx) as [->%list_elem_of_singleton _]. done.
  - intros k Hs. rewrite (B6 k (proj2 A4 Hs)), (A6 k Hs). unfold cleanOf. rewrite !sumBy_cons. change (sumBy _ []) with 0.
    rewrite Z.add_0_r, filledTo_add; [done| |apply cleanOf_nonneg]. unfold at1. by case_match.
Qed.

Lemma markLoop_spec order : NoDup order -> forall marked cl, clOK p width cl ->
  exists new cl', foldl markStep (markIf marked <$> l, cl) order = (markIf (new ∪ marked) <$> l, cl') /\
    markedSo order cl new cl'.
Proof.
  induction 1 as [|id order Hn Hd IH]; intros marked cl Hok.
  { exists ∅, cl. rewrite (left_id_L ∅ (∪)). split; [done|]. split; [by intros i ?%elem_of_empty|done|done|done| |]; intros k;
      unfold marksOf, cleanOf; cbn; rewrite ?filledTo_0; try done; lia. }
  cbn [foldl]. destruct (markOne_spec marked cl id Hok) as (new1 & cl1 & -> & H1).
  destruct (IH (new1 ∪ marked) cl1) as (new & cl' & -> & H2); [by destruct H1|].
  exists (new ∪ new1), cl'. rewrite (assoc_L (∪)). split; [done|]. by apply markedSo_cons with cl1.
Qed.
End MarkLoop.

Lemma markIf_none (l : list Span) : markIf ∅ <$> l = l.
Proof.
  induction l as [|s l IH]; [done|]. rewrite fmap_cons, IH. done.
Qed.

Lemma markVerbose_spec p width slow verbose l cl :
  clOK p width cl ->
  exists marked, (markVerboseClean (Some p) l verbose slow cl).1 = markIf marked <$> l /\
    markedSo p width slow verbose l (firstSeen (sp_TraceID <$> l)) cl marked
      (markVerboseClean (Some p) l verbose slow cl).2.
Proof.
  intros Hok. unfold markVerboseClean. destruct (cl_hourly cl) as [f|] eqn:Eh.
  - fold (positioned l). destruct (groups_order slow (positioned l)) as [Eo _]. rewrite positioned_spans in Eo.
    destruct (markLoop_spec p width slow verbose l _ (NoDup_firstSeen (sp_TraceID <$> l)) ∅ cl Hok)
      as (marked & cl' & E & Hm). rewrite markIf_none, (right_id_L ∅ (∪)), <- Eo in E. exists marked.
    destruct (foldl (groupOne slow) (∅, []) (positioned l)) as [groups order]. cbn [fst snd] in E. by rewrite E.
  - exists ∅. rewrite markIf_none. split; [done|]. split; [by intros i ?%elem_of_empty|done|done|done| |]; intros k.
    + unfold marksOf. rewrite sumBy_zero; [cbn [snd]; lia|]. intros i _. by rewrite bool_decide_eq_false_2 by set_solver.
    + rewrite Eh. by intros [? ?].
Qed.

(** ** Property *)

Definition hourWidth (hourly : option MinuteFloor) : Z := from_option mf_bucket 0 hourly.

(** The trace of an interesting id is all in the filtered list. *)
Lemma traceOf_filter (I : gset string) spans id : id ∈ I ->
  traceOf id (filter (fun s => sp_TraceID s ∈ I) spans) = traceOf id spans.
Proof.
  intros Hi. unfold traceOf. rewrite list_filter_filter_l; [done|]. intros s ->. done.
Qed.

Lemma firstSeen_filter (I : gset string) spans id :
  id ∈ firstSeen (sp_TraceID <$> filter (fun s => sp_TraceID s ∈ I) spans) -> id ∈ I.
Proof. intros (s & -> & [? _]%list_elem_of_filter)%elem_of_firstSeen%list_elem_of_fmap. done. Qed.

Lemma cleanIn_filter policy now slow spans (I : gset string) id : id ∈ I ->
  cleanIn (isVerbose (verboseProjects spans policy now)) slow (filter (fun s => sp_TraceID s ∈ I) spans) id =
  cleanIn (verboseNow policy now) slow spans id.
Proof.
  intros Hi. unfold cleanIn. rewrite traceOf_filter by done. f_equal.
  destruct (traceOf id spans) as [|s l] eqn:E; [done|]. cbn. apply verbose_spec.
  assert (s ∈ traceOf id spans) as [_ ?]%list_elem_of_filter by (rewrite E; by left). done.
Qed.

(** C31: classification stores what it should, in whole traces, and its floors count what
    they kept.  With a threshold of zero it stores the batch and counts nothing.  Otherwise
    the spans of traces with an error span, a slow span or a span of a verbose project are
    stored, in order, unchanged but for durable marks on whole traces that are free of
    error and slow spans and start in a verbose project; and every other trace, in the
    order they are first seen, is stored whole as durable, stored whole with an expiry, or
    not stored.  Of every project, operation and minute the minute floor has at least its
    minimum kept, counting what earlier batches kept, or all that the hourly tier left,
    and afterwards counts exactly the sampled traces on top of what it counted.  The hourly
    floor afterwards counts exactly the traces made durable, verbose and boring, on top of
    what it counted, and that is its count filled up to the project's minimum by the
    traces of that hour that ask for it: no batch goes over the minimum, none stops short
    of it, and without an hourly floor nothing is made durable. *)
Theorem classify_exact intN spans slow retention now p floor hourly :
  let out := (classifySpansForStorage intN spans slow retention now (Some p) floor hourly).1 in
  let after := (classifySpansForStorage intN spans slow retention now (Some p) floor hourly).2 in
  let width := hourWidth hourly in
  (slow <= 0 /\ out = spans /\ cl_floor after = floor /\ cl_hourly after = hourly) \/
  (0 < slow /\ exists (I marked : gset string) (vs : list verdict),
    let order := firstSeen (sp_TraceID <$> boringSpans I spans) in
    let main := firstSeen (sp_TraceID <$> filter (fun s => sp_TraceID s ∈ I) spans) in
    (forall id, id ∈ I <-> interestingTrace (Some p) now slow spans id) /\
    length vs = length order /\
    out = (markIf marked <$> filter (fun s => sp_TraceID s ∈ I) spans) ++
      mjoin (zip_with (fun id v => applyVerdict retention now v (traceOf id spans)) order vs) /\
    (forall id, id ∈ marked -> id ∈ main /\ cleanIn (verboseNow (Some p) now) slow spans id = true) /\
    (forall k, is_Some floor ->
      Z.min (bp_MinTracesPerMinute p k.1.1)
        (Z.max 0 (countOf floor (keyOf k)) + offered (boringOf spans) k order vs) <=
      Z.max 0 (countOf floor (keyOf k)) + sampled (boringOf spans) k order vs) /\
    (forall k, is_Some floor ->
      countOf (cl_floor after) (keyOf k) = countOf floor (keyOf k) + sampled (boringOf spans) k order vs) /\
    (is_Some (cl_hourly after) <-> is_Some hourly) /\
    (forall k, countOf (cl_hourly after) (keyOf k) = countOf hourly (keyOf k) +
      marksOf width spans marked k main + durables width (boringOf spans) k order vs) /\
    (forall k, is_Some hourly -> countOf (cl_hourly after) (keyOf k) =
      filledTo (bp_MinTracesPerHour p k.1.1) (countOf hourly (keyOf k))
        (cleanOf width slow spans (verboseNow (Some p) now) k main + tracesOf width (boringOf spans) k order))).
Proof.
  intros out after width. unfold out, after, classifySpansForStorage.
  destruct (slow <=? 0) eqn:E0; to_prop; [by left|right].
  split; [done|]. set (verbose := verboseProjects spans (Some p) now).
  set (I := interestingTraceIDs spans verbose slow). pose proof (split_spec I spans) as Hs.
  destruct (splitBoringTraces spans I) as [[result order] traces]. destruct Hs as (-> & -> & Hd & Ht).
  assert (clOK p width (newBatch floor hourly)) as Hok.
  { split; [done|done|]. intros f E. cbn in E. unfold width, hourWidth. by rewrite E. }
  set (l := filter _ spans). destruct (markVerbose_spec p width slow verbose l _ Hok) as (marked & E1 & Hm).
  destruct (markVerboseClean (Some p) l verbose slow (newBatch floor hourly)) as [result1 cl1]. cbn [fst snd] in E1, Hm.
  subst result1. destruct Hm as [M1 M2 M3 M4 M5 M6]. cbn [newBatch cl_floor cl_hourly] in M3, M4, M5, M6.
  set (order := firstSeen (sp_TraceID <$> boringSpans I spans)) in *.
  destruct (storeLoop_spec intN p retention now width traces (boringOf spans) order (markIf marked <$> l) cl1)
    as [vs [L R M F S H X]]; [|done|].
  { apply Forall_forall. intros id Hid. destruct (proj2 (Hd id) Hid) as [bt Hb]. destruct (Ht id bt Hb) as [B1 B2].
    assert (traceOf id spans <> []) as Hne by (intros E; by rewrite E in B2). split; [|done].
    rewrite Hb. unfold boringOf. rewrite <- B2, <- B1. by destruct bt. }
  rewrite M3 in M, F. set (main := firstSeen (sp_TraceID <$> l)) in *.
  assert (forall id, id ∈ main -> id ∈ I) as Hmain by (intros id; apply firstSeen_filter).
  assert (forall id, id ∈ main -> boringOf l id = boringOf spans id) as Hbo.
  { intros id Hi. unfold boringOf, l. by rewrite traceOf_filter by auto. }
  exists I, marked, vs. split_and!; [apply interesting_spec|done|exact R| |exact M|exact F|by rewrite S| |].
  - intros id Hi. destruct (M1 id Hi) as [Hin Hc]. split; [done|]. rewrite <- Hc. symmetry. apply cleanIn_filter. auto.
  - intros k. rewrite H, M5. f_equal. f_equal. apply sumBy_ext. intros id Hi. by rewrite Hbo.
  - intros k Hh. rewrite (X k (proj2 M4 Hh)), (M6 k Hh).
    rewrite filledTo_add by (apply cleanOf_nonneg || apply tracesOf_nonneg). do 2 f_equal. apply sumBy_ext. intros id Hi.
    rewrite Hbo by done. do 2 f_equal. apply cleanIn_filter. auto.
Qed.
