(* ===== verification/Staging.v ===== *)
(** * Moving staged traces ([internal/worker/staging_*.go], [repository/repo_spans_staging.go])

    The worker appends spans to [spans_staging]; the flusher reads traces that are old
    enough, drops replayed rows, classifies what is left, and commits it in chunks of
    bounded size, each of which stores the kept spans, deletes the staged rows, and is then
    handed to the accumulator.  Other goroutines stage spans and collect old rows between
    any two database calls of a flush: the state carries, for every call to come, what they
    do before it and whether it succeeds.  The order in which SQLite returns rows is the
    parameter [scan].  Trace summaries and prompt records are not part of the state. *)
From S2P Require Import Prelude Model Sampling Classify.

(** ** Configuration *)

(** [StagingFlusherConfig] *)
Record StagingFlusherConfig := mkFlusherConfig {
  fc_Window : Z;
  fc_FlushInterval : Z;
  fc_GCInterval : Z;
  fc_MaxAge : Z;
  fc_BatchTraces : Z;
  fc_SlowThresholdUs : Z;
  fc_BoringRetention : Z;
}.

(** The defaults of [NewStagingFlusher] *)
Definition orDefault (x d : Z) : Z := if x <=? 0 then d else x.

Definition NewStagingFlusher (c : StagingFlusherConfig) : StagingFlusherConfig :=
  mkFlusherConfig (orDefault (fc_Window c) (90 * second)) (orDefault (fc_FlushInterval c) (10 * second))
    (orDefault (fc_GCInterval c) minute) (orDefault (fc_MaxAge c) (15 * minute))
    (orDefault (fc_BatchTraces c) 200) (fc_SlowThresholdUs c) (fc_BoringRetention c).

(** ** Replayed rows *)

(** The key [dropReplayedSpans] compares: project, trace and span id. *)
Definition replayKey (s : Span) : Z * string * string := (sp_ProjectID s, sp_TraceID s, sp_SpanID s).

(** One row of [dropReplayedSpans]: the kept keys, the rows kept, the ids dropped. *)
Definition replayOne (st : gmap (Z * string * string) Z * list Span * gmap Z (list Z)) (s : Span)
  : gmap (Z * string * string) Z * list Span * gmap Z (list Z) :=
  let '(kept, unique, replayed) := st in
  if bool_decide (sp_SpanID s = ""%string) then (kept, unique ++ [s], replayed)
  else
    match kept !! replayKey s with
    | None => (<[replayKey s := sp_ID s]> kept, unique ++ [s], replayed)
    | Some first => (kept, unique, <[first := default [] (replayed !! first) ++ [sp_ID s]]> replayed)
    end.

(** [dropReplayedSpans] *)
Definition dropReplayedSpans (spans : list Span) : list Span * gmap Z (list Z) :=
  let '(_, unique, replayed) := foldl replayOne (∅, [], ∅) spans in (unique, replayed).

(** ** Chunks *)

(** [stagingChunkRows] *)
Definition stagingChunkRows : nat := 300.

(** [tracePart] *)
Record tracePart := mkTracePart { tp_key : Z * string; tp_stagedIDs : list Z; tp_refresh : bool }.

(** [stagingChunk] *)
Record stagingChunk := mkChunk {
  ch_traceIDs : list string;
  ch_spans : list Span;
  ch_interesting : list Span;
  ch_rows : nat;
  ch_part : option tracePart;
}.

Definition emptyChunk : stagingChunk := mkChunk [] [] [] 0 None.

(** [spansByTrace] *)
Definition spansByTrace (spans : list Span) : gmap string (list Span) :=
  foldl (fun out s => <[sp_TraceID s := default [] (out !! sp_TraceID s) ++ [s]]> out) ∅ spans.

(** [newTracePart] *)
Definition newTracePart (s : Span) : stagingChunk :=
  mkChunk [sp_TraceID s] [] [] 0 (Some (mkTracePart (sp_ProjectID s, sp_TraceID s) [] false)).

Definition partIDs (c : stagingChunk) : list Z := from_option tp_stagedIDs [] (ch_part c).

Definition addPartIDs (ids : list Z) (c : stagingChunk) : option tracePart :=
  (fun p => mkTracePart (tp_key p) (tp_stagedIDs p ++ ids) (tp_refresh p)) <$> ch_part c.

(** One staged row of [traceParts]: the parts cut, the current one, and the kept spans
    whose row is still to come. *)
Definition partOne (maxRows : nat) (st : list stagingChunk * stagingChunk * gmap Z Span) (s : Span)
  : list stagingChunk * stagingChunk * gmap Z Span :=
  let '(out, cur, keptByID) := st in
  let k := option_list (keptByID !! sp_ID s) in
  let rows := (1 + length k)%nat in
  let full := negb (bool_decide (partIDs cur = [])) && (maxRows <? ch_rows cur + rows)%nat in
  let out := if full then out ++ [cur] else out in
  let cur := if full then newTracePart s else cur in
  (out,
   mkChunk (ch_traceIDs cur) (ch_spans cur ++ [s]) (ch_interesting cur ++ k) (ch_rows cur + rows)
     (addPartIDs [sp_ID s] cur),
   delete (sp_ID s) keptByID).

(** [traceParts]; it is called on traces that have staged rows. *)
Definition traceParts (staged kept : list Span) (maxRows : nat) : list stagingChunk :=
  match merge_sort byID staged with
  | [] => []
  | (first :: _) as rows =>
      let keptByID : gmap Z Span := foldl (fun m s => <[sp_ID s := s]> m) ∅ kept in
      let '(out, cur, remaining) := foldl (partOne maxRows) ([], newTracePart first, keptByID) rows in
      let extra := filter (fun s => is_Some (remaining !! sp_ID s)) kept in
      out ++ [mkChunk (ch_traceIDs cur) (ch_spans cur) (ch_interesting cur ++ extra)
                (ch_rows cur + length extra)
                ((fun p => mkTracePart (tp_key p) (tp_stagedIDs p) (negb (bool_decide (kept = []))))
                   <$> ch_part cur)]
  end.

(** One trace of [stagingChunks]. *)
Definition chunkOne (staged kept : gmap string (list Span)) (maxRows : nat)
  (st : list stagingChunk * stagingChunk) (id : string) : list stagingChunk * stagingChunk :=
  let '(out, cur) := st in
  let s := default [] (staged !! id) in
  let k := default [] (kept !! id) in
  let rows := (length s + length k)%nat in
  let cut := negb (bool_decide (ch_traceIDs cur = [])) &&
             ((maxRows <? ch_rows cur + rows) || (maxRows <? rows))%nat in
  let out := if cut then out ++ [cur] else out in
  let cur := if cut then emptyChunk else cur in
  if (maxRows <? rows)%nat then (out ++ traceParts s k maxRows, cur)
  else
    (out, mkChunk (ch_traceIDs cur ++ [id]) (ch_spans cur ++ s) (ch_interesting cur ++ k) (ch_rows cur + rows)
            (ch_part cur)).

(** [stagingChunks] *)
Definition stagingChunks (traceIDs : list string) (spans interesting : list Span) (maxRows : nat)
  : list stagingChunk :=
  let '(out, cur) := foldl (chunkOne (spansByTrace spans) (spansByTrace interesting) maxRows)
                       ([], emptyChunk) traceIDs in
  if bool_decide (ch_traceIDs cur = []) then out else out ++ [cur].

(** [stagingChunk.addReplayedRows] *)
Definition addReplayedRows (replayed : gmap Z (list Z)) (c : stagingChunk) : stagingChunk :=
  mkChunk (ch_traceIDs c) (ch_spans c) (ch_interesting c) (ch_rows c)
    (addPartIDs (mjoin ((fun s => default [] (replayed !! sp_ID s)) <$> ch_spans c)) c).

(** ** The tables *)

(** What other goroutines do between the calls of a flush: stage a batch, or delete one
    batch of old rows. *)
Inductive envAction :=
  | EnvStage (now : Z) (spans : list Span)
  | EnvCollect (cutoff : Z).

(** The staging and span tables, the floors, the spans handed to the accumulator, and
    the calls to come.  [sg_entered] holds every row ever staged, [sg_shed] the rows
    collected for their age, and [sg_late] the rows staged during a flush for a trace
    that was staged before. A stored span keeps the id of its staged row. *)
Record staging := mkStaging {
  sg_rows : list Span;
  sg_nextID : Z;
  sg_spans : list Span;
  sg_floor : option MinuteFloor;
  sg_hourly : option MinuteFloor;
  sg_added : list Span;
  sg_calls : list (list envAction * bool);
  sg_entered : list Span;
  sg_shed : list Span;
  sg_late : list Span;
}.

Definition setRows (rows : list Span) (w : staging) : staging :=
  mkStaging rows (sg_nextID w) (sg_spans w) (sg_floor w) (sg_hourly w) (sg_added w) (sg_calls w)
    (sg_entered w) (sg_shed w) (sg_late w).

Definition sampleWeightArg (w : Z) : Z := if w <=? 0 then 0 else w.

(** The row [InsertSpansStaging] writes; [ingested_at] is [CURRENT_TIMESTAMP], in seconds. *)
Definition stagedRow (id now : Z) (s : Span) : Span :=
  mkSpan id (sp_ProjectID s) (sp_TraceID s) (sp_SpanID s) (sp_ParentSpanID s) (sp_Name s) (sp_Service s)
    (sp_Resource s) (sp_Kind s) (sp_Status s) (sp_StartTimeUs s) (sp_DurationUs s) (sp_Attributes s)
    (sp_Events s) (Some (Unix now * second)) None false (sampleWeightArg (sp_SampleWeight s)).

Definition stagedRows (id now : Z) (spans : list Span) : list Span :=
  imap (fun i s => stagedRow (id + Z.of_nat i) now s) spans.

(** [Repository.InsertSpansStaging] *)
Definition InsertSpansStaging (now : Z) (spans : list Span) (w : staging) : staging :=
  let rows := stagedRows (sg_nextID w) now spans in
  mkStaging (sg_rows w ++ rows) (sg_nextID w + Z.of_nat (length spans)) (sg_spans w) (sg_floor w) (sg_hourly w)
    (sg_added w) (sg_calls w) (sg_entered w ++ rows) (sg_shed w) (sg_late w).

(** One statement of [DeleteStagingOlderThan], and the rows it deletes. *)
Definition collectBatch (cutoff : Z) (w : staging) : nat * staging :=
  let victims := take (Z.to_nat retentionDeleteBatch) (filter (fun s => ingestedNs s < cutoff) (sg_rows w)) in
  (length victims,
   mkStaging (filter (fun s => sp_ID s ∉ sp_ID <$> victims) (sg_rows w)) (sg_nextID w) (sg_spans w) (sg_floor w)
     (sg_hourly w) (sg_added w) (sg_calls w) (sg_entered w) (sg_shed w ++ victims) (sg_late w)).

(** [Repository.DeleteStagingOlderThan] with the outcomes of its statements; a full batch
    deletes rows, so the rows are fuel enough. *)
Fixpoint collectLoop (fuel : nat) (cutoff : Z) (oks : list bool) (total : nat) (w : staging)
  : option nat * staging :=
  match fuel with
  | O => (Some total, w)
  | S fuel =>
      if hd true oks then
        let '(n, w) := collectBatch cutoff w in
        if (n <? Z.to_nat retentionDeleteBatch)%nat then (Some (total + n)%nat, w)
        else collectLoop fuel cutoff (tl oks) (total + n) w
      else (None, w)
  end.

Definition DeleteStagingOlderThan (cutoff : Z) (oks : list bool) (w : staging) : option nat * staging :=
  collectLoop (S (length (sg_rows w))) cutoff oks 0 w.

(** [StagingFlusher.gcOnce] *)
Definition gcOnce (c : StagingFlusherConfig) (now : Z) (oks : list bool) (w : staging) : staging :=
  (DeleteStagingOlderThan (now - fc_MaxAge c) oks w).2.

Definition runEnv (w : staging) (a : envAction) : staging :=
  match a with
  | EnvStage now spans =>
      let late := filter (fun s => sp_TraceID s ∈ sp_TraceID <$> sg_entered w)
                    (stagedRows (sg_nextID w) now spans) in
      let w := InsertSpansStaging now spans w in
      mkStaging (sg_rows w) (sg_nextID w) (sg_spans w) (sg_floor w) (sg_hourly w) (sg_added w) (sg_calls w)
        (sg_entered w) (sg_shed w) (sg_late w ++ late)
  | EnvCollect cutoff => (collectBatch cutoff w).2
  end.

(** ** A flush *)

Definition F (A : Type) : Type := staging -> option A * staging.

#[export] Instance F_ret : MRet F := fun A a w => (Some a, w).

#[export] Instance F_bind : MBind F := fun A B f m w =>
  match m w with (Some a, w) => f a w | (None, w) => (None, w) end.

Definition popCall (w : staging) : staging :=
  mkStaging (sg_rows w) (sg_nextID w) (sg_spans w) (sg_floor w) (sg_hourly w) (sg_added w) (tl (sg_calls w))
    (sg_entered w) (sg_shed w) (sg_late w).

(** A database call: what others do before it, then its effect when it succeeds. *)
Definition dbCall {A} (f : staging -> A * staging) : F A := fun w =>
  let '(env, ok) := hd ([], true) (sg_calls w) in
  let w := foldl runEnv (popCall w) env in
  if ok then let '(a, w) := f w in (Some a, w) else (None, w).

Section Flush.
Context (scan : list Span -> list Span).

(** The oldest ingest time of a trace. *)
Definition oldest (rows : list Span) (id : string) : Z :=
  match ingestedNs <$> filter (fun s => sp_TraceID s = id) rows with
  | [] => 0
  | t :: l => foldl Z.min t l
  end.

Definition olderTrace (rows : list Span) (a b : string) : Prop := oldest rows a <= oldest rows b.

#[export] Instance olderTrace_dec rows : RelDecision (olderTrace rows).
Proof. intros a b. unfold olderTrace. apply _. Defined.

(** SQL's [LIMIT]; a negative one does not limit. *)
Definition sqlLimit {A} (limit : Z) (l : list A) : list A := if limit <? 0 then l else take (Z.to_nat limit) l.

(** The traces whose oldest row is older than the cutoff, oldest first. *)
Definition readyIDs (cutoff limit : Z) (rows : list Span) : list string :=
  let ids := elements (list_to_set (C := gset string) (sp_TraceID <$> rows)) in
  sqlLimit limit (merge_sort (olderTrace rows) (filter (fun id => oldest rows id < cutoff) ids)).

(** [Repository.ReadyStagingTraceIDs] *)
Definition ReadyStagingTraceIDs (cutoff limit : Z) : F (list string) :=
  dbCall (fun w => (readyIDs cutoff limit (scan (sg_rows w)), w)).

(** [Repository.GetStagingSpansByTraceIDs] *)
Definition GetStagingSpansByTraceIDs (traceIDs : list string) : F (list Span) :=
  match traceIDs with
  | [] => mret []
  | _ => dbCall (fun w => (filter (fun s => sp_TraceID s ∈ traceIDs) (scan (sg_rows w)), w))
  end.

(** The transaction of a chunk: the kept spans are inserted and rows leave staging. *)
Definition moveRows (interesting : list Span) (gone : Span -> bool) (w : staging) : staging :=
  mkStaging (filter (fun s => gone s = false) (sg_rows w)) (sg_nextID w) (sg_spans w ++ interesting) (sg_floor w)
    (sg_hourly w) (sg_added w) (sg_calls w) (sg_entered w) (sg_shed w) (sg_late w).

(** [Repository.CommitStagingFlush] *)
Definition CommitStagingFlush (traceIDs : list string) (interesting : list Span) : F unit :=
  match traceIDs with
  | [] => mret tt
  | _ => dbCall (fun w => (tt, moveRows interesting (fun s => bool_decide (sp_TraceID s ∈ traceIDs)) w))
  end.

(** [Repository.CommitStagingTracePart] *)
Definition CommitStagingTracePart (key : Z * string) (stagedIDs : list Z) (interesting : list Span) : F unit :=
  match stagedIDs with
  | [] => mret tt
  | _ =>
      dbCall (fun w =>
        (tt, moveRows interesting
               (fun s => bool_decide (sp_ID s ∈ stagedIDs) && bool_decide (sp_TraceID s = key.2)) w))
  end.

(** [SpanAccumulator.AddBatch], when there is an accumulator. *)
Definition addBatch (accumulator : bool) (spans : list Span) : F unit := fun w =>
  (Some tt,
   mkStaging (sg_rows w) (sg_nextID w) (sg_spans w) (sg_floor w) (sg_hourly w)
     (if accumulator then sg_added w ++ spans else sg_added w) (sg_calls w) (sg_entered w) (sg_shed w) (sg_late w)).

(** [StagingFlusher.commitChunk] *)
Definition commitChunk (accumulator : bool) (c : stagingChunk) : F unit :=
  _ ← match ch_part c with
      | Some p => CommitStagingTracePart (tp_key p) (tp_stagedIDs p) (ch_interesting c)
      | None => CommitStagingFlush (ch_traceIDs c) (ch_interesting c)
      end;
  addBatch accumulator (ch_spans c).

Fixpoint commitChunks (accumulator : bool) (replayed : gmap Z (list Z)) (chunks : list stagingChunk) : F unit :=
  match chunks with
  | [] => mret tt
  | c :: chunks =>
      _ ← commitChunk accumulator (addReplayedRows replayed c);
      commitChunks accumulator replayed chunks
  end.

(** Classification moves the floors. *)
Definition classifyStaged (c : StagingFlusherConfig) (intN : nat -> Z -> Z) (now : Z)
  (policy : option BoringPolicyReader) (spans : list Span) : F (list Span) := fun w =>
  let '(out, cl) := classifySpansForStorage intN spans (fc_SlowThresholdUs c) (fc_BoringRetention c) now policy
                      (sg_floor w) (sg_hourly w) in
  (Some out,
   mkStaging (sg_rows w) (sg_nextID w) (sg_spans w) (cl_floor cl) (cl_hourly cl) (sg_added w) (sg_calls w)
     (sg_entered w) (sg_shed w) (sg_late w)).

(** What a flush brings with it: two clock readings, the policy, the draws. *)
Record flushInput := mkFlushInput {
  fi_start : Z;
  fi_classify : Z;
  fi_policy : option BoringPolicyReader;
  fi_intN : nat -> Z -> Z;
}.

(** [StagingFlusher.flushOnce] *)
Definition flushOnce (c : StagingFlusherConfig) (accumulator : bool) (fi : flushInput) : F nat :=
  traceIDs ← ReadyStagingTraceIDs (fi_start fi - fc_Window c) (fc_BatchTraces c);
  if bool_decide (traceIDs = []) then mret 0%nat
  else
    spans ← GetStagingSpansByTraceIDs traceIDs;
    let '(spans, replayed) := dropReplayedSpans spans in
    interesting ← classifyStaged c (fi_intN fi) (fi_classify fi) (fi_policy fi) spans;
    _ ← commitChunks accumulator replayed (stagingChunks traceIDs spans interesting stagingChunkRows);
    mret (length traceIDs).

(** [maxFlushIterationsPerTick] *)
Definition maxFlushIterationsPerTick : nat := 8.

(** A tick of [StagingFlusher.flushLoop], with an input for each of its flushes. *)
Fixpoint flushTickLoop (c : StagingFlusherConfig) (accumulator : bool) (fis : list flushInput) (w : staging)
  : staging :=
  match fis with
  | [] => w
  | fi :: fis =>
      match flushOnce c accumulator fi w with
      | (None, w) => w
      | (Some n, w) => if Z.of_nat n <? fc_BatchTraces c then w else flushTickLoop c accumulator fis w
      end
  end.

Definition flushTick (c : StagingFlusherConfig) (accumulator : bool) (fis : list flushInput) (w : staging) : staging :=
  flushTickLoop c accumulator (take maxFlushIterationsPerTick fis) w.
End Flush.
