(* ===== verification/StagingChunks.v ===== *)
(** * What a flush does with the rows it read

    Replayed rows are dropped once per key, classification keeps rows it was given, and
    chunks partition the rows into whole traces, or parts of one trace, within the cap. *)
From S2P Require Import Prelude Model Sampling Classify ClassifyProps Staging.

(** ** Lists of rows *)

Definition idsOf (l : list Span) : list Z := sp_ID <$> l.

#[export] Instance idsOf_perm : Proper ((≡ₚ) ==> (≡ₚ)) idsOf.
Proof. intros l k E. unfold idsOf. by rewrite E. Qed.

Lemma idsOf_app l k : idsOf (l ++ k) = idsOf l ++ idsOf k.
Proof. apply fmap_app. Qed.

Lemma filter_or_perm {A} (P Q : A -> Prop) `{!forall x, Decision (P x)} `{!forall x, Decision (Q x)} (l : list A) :
  (forall x, x ∈ l -> P x -> Q x -> False) -> filter P l ++ filter Q l ≡ₚ filter (fun x => P x \/ Q x) l.
Proof.
  induction l as [|x l IH]; intros Hx; [done|].
  assert (filter P l ++ filter Q l ≡ₚ filter (fun x => P x \/ Q x) l) as IH' by (apply IH; set_solver).
  destruct (decide (P x)) as [Hp|Hp].
  - rewrite (filter_cons_True P), (filter_cons_False Q), (filter_cons_True (fun x => P x \/ Q x)); [|tauto| |done].
    + cbn. by rewrite IH'.
    + intros Hq. apply (Hx x); [by left|done|done].
  - rewrite (filter_cons_False P) by done. destruct (decide (Q x)).
    + rewrite (filter_cons_True Q), (filter_cons_True (fun x => P x \/ Q x)) by tauto.
      by rewrite <- Permutation_middle, IH'.
    + rewrite (filter_cons_False Q), (filter_cons_False (fun x => P x \/ Q x)) by tauto. done.
Qed.

Lemma filter_all {A} (P : A -> Prop) `{!forall x, Decision (P x)} (l : list A) :
  (forall x, x ∈ l -> P x) -> filter P l = l.
Proof.
  induction l as [|x l IH]; intros Hx; [done|]. rewrite filter_cons_True by (apply Hx; by left).
  f_equal. apply IH. intros y Hy. apply Hx. by right.
Qed.

(** The traces of distinct ids, one after the other, are the rows of those ids. *)
Lemma traces_perm ids l :
  NoDup ids -> mjoin ((fun id => traceOf id l) <$> ids) ≡ₚ filter (fun s => sp_TraceID s ∈ ids) l.
Proof.
  induction 1 as [|id ids Hn _ IH].
  - cbn. induction l as [|s l IH]; [done|]. rewrite filter_cons_False by apply not_elem_of_nil. done.
  - rewrite fmap_cons. change (mjoin (?x :: ?k)) with (x ++ mjoin k). rewrite IH. unfold traceOf.
    rewrite filter_or_perm.
    + apply reflexive_eq, list_filter_iff. intros s. set_solver.
    + intros s _ -> ?. done.
Qed.

Lemma NoDup_ids_inj l a b : NoDup (idsOf l) -> a ∈ l -> b ∈ l -> sp_ID a = sp_ID b -> a = b.
Proof.
  intros Hn [i Hi]%list_elem_of_lookup [j Hj]%list_elem_of_lookup E.
  assert (i = j) as ->; [|congruence].
  eapply NoDup_lookup; [exact Hn| |]; unfold idsOf; rewrite list_lookup_fmap; [by rewrite Hi|]. rewrite Hj, E. done.
Qed.

Lemma elem_of_ids l i : i ∈ idsOf l <-> exists s, s ∈ l /\ sp_ID s = i.
Proof. unfold idsOf. rewrite list_elem_of_fmap. naive_solver. Qed.

Lemma NoDup_of_ids l : NoDup (idsOf l) -> NoDup l.
Proof. apply NoDup_fmap_1. Qed.

Lemma NoDup_ids_sub l k : l ⊆+ k -> NoDup (idsOf k) -> NoDup (idsOf l).
Proof.
  intros [r Hr]%(fmap_submseteq sp_ID)%submseteq_Permutation Hk. unfold idsOf in *. rewrite Hr in Hk.
  by apply NoDup_app in Hk as [? _].
Qed.

(** ** Classification keeps rows it was given *)

(** A span without what classification sets. *)
Definition bare (s : Span) : Span :=
  mkSpan (sp_ID s) (sp_ProjectID s) (sp_TraceID s) (sp_SpanID s) (sp_ParentSpanID s) (sp_Name s)
    (sp_Service s) (sp_Resource s) (sp_Kind s) (sp_Status s) (sp_StartTimeUs s) (sp_DurationUs s)
    (sp_Attributes s) (sp_Events s) (sp_IngestedAt s) None false (sp_SampleWeight s).

Lemma bare_ids (l k : list Span) : bare <$> l = bare <$> k -> idsOf l = idsOf k.
Proof.
  intros E. assert (sp_ID <$> (bare <$> l) = sp_ID <$> (bare <$> k)) as H by by rewrite E.
  rewrite <- !list_fmap_compose in H. exact H.
Qed.

Lemma bare_stamp retention now l : bare <$> stampBoringExpiry retention now l = bare <$> l.
Proof. unfold stampBoringExpiry. destruct (_ <=? _); [done|]. by rewrite <- list_fmap_compose. Qed.

Lemma bare_durable (l : list Span) : bare <$> (markDurable <$> l) = bare <$> l.
Proof. by rewrite <- list_fmap_compose. Qed.

Lemma bare_markIf marked (l : list Span) : bare <$> (markIf marked <$> l) = bare <$> l.
Proof.
  rewrite <- list_fmap_compose. apply list_fmap_ext. intros i s _. cbn. unfold markIf. by case_bool_decide.
Qed.

Lemma storeLoop_bare intN p retention now traces spans order : forall result cl,
  Forall (fun id => exists bt, traces !! id = Some bt /\ bt_spans bt = traceOf id spans) order ->
  exists sel, sel `sublist_of` order /\
    bare <$> (foldl (storeOne intN p retention now traces) (result, cl) order).1 =
    (bare <$> result) ++ (bare <$> mjoin ((fun id => traceOf id spans) <$> sel)).
Proof.
  induction order as [|id order IH]; intros result cl Hf.
  { exists []. cbn. by rewrite app_nil_r. }
  apply Forall_cons in Hf as [(bt & Hb & Es) Hf]. cbn [foldl]. unfold storeOne at 2. rewrite Hb, Es.
  destruct (tier_admits _ _ _ cl) as [d cl1].
  assert (forall kept cl', bare <$> kept = bare <$> traceOf id spans -> exists sel, sel `sublist_of` id :: order /\
    bare <$> (foldl (storeOne intN p retention now traces) (result ++ kept, cl') order).1 =
    (bare <$> result) ++ (bare <$> mjoin ((fun id => traceOf id spans) <$> sel))) as Hkeep.
  { intros kept cl' Ek. destruct (IH (result ++ kept) cl' Hf) as (sel & Hsub & E).
    exists (id :: sel). split; [by constructor|]. rewrite E, fmap_cons. change (mjoin (?x :: ?k)) with (x ++ mjoin k).
    by rewrite !fmap_app, Ek, (assoc_L app). }
  destruct d; [by apply Hkeep, bare_durable|]. destruct (sampler_keep intN p bt cl1) as [ok cl2].
  destruct ok; [by apply Hkeep, bare_stamp|].
  destruct (IH result cl2 Hf) as (sel & Hsub & E). exists sel. split; [by constructor|done].
Qed.

(** What is stored are rows of the batch, each at most once, dirty ones among them. *)
Lemma classify_kept intN spans slow retention now policy floor hourly :
  exists kept, kept ⊆+ spans /\ (forall s, s ∈ spans -> dirtySpan slow s = true -> s ∈ kept) /\
    bare <$> (classifySpansForStorage intN spans slow retention now policy floor hourly).1 = bare <$> kept.
Proof.
  unfold classifySpansForStorage. destruct (slow <=? 0) eqn:E0; [by exists spans|].
  set (I := interestingTraceIDs spans (verboseProjects spans policy now) slow).
  pose proof (split_spec I spans) as Hs. destruct (splitBoringTraces spans I) as [[result order] traces].
  destruct Hs as (-> & Eo & Hd & Ht). set (l := filter _ spans).
  assert (forall s, s ∈ spans -> dirtySpan slow s = true -> s ∈ l) as Hdirty.
  { intros s Hin Hx. apply list_elem_of_filter. split; [|done]. apply interesting_spec. exists s.
    split_and!; [done|done|]. unfold dirtySpan in Hx. right. apply orb_true_iff in Hx as [Hx|Hx]; [left|right; to_prop; lia].
    by apply bool_decide_eq_true in Hx. }
  destruct policy as [p|].
  2:{ exists l. split_and!; [by apply sublist_submseteq, sublist_filter|done|done]. }
  assert (exists marked, (markVerboseClean (Some p) l (verboseProjects spans (Some p) now) slow (newBatch floor hourly)).1
    = markIf marked <$> l) as [marked Em].
  { destruct (markVerbose_spec p (hourWidth hourly) slow (verboseProjects spans (Some p) now) l
      (newBatch floor hourly)) as (marked & E & _); [|by exists marked].
    split; [done|done|]. intros f E. cbn in E. unfold hourWidth. by rewrite E. }
  destruct (markVerboseClean _ _ _ _ _) as [result1 cl1]. cbn [fst] in Em. subst result1.
  destruct (storeLoop_bare intN p retention now traces spans order (markIf marked <$> l) cl1) as (sel & Hsub & E).
  { apply Forall_forall. intros id [bt Hb]%Hd. exists bt. split; [done|]. by apply Ht. }
  exists (l ++ mjoin ((fun id => traceOf id spans) <$> sel)). rewrite E, bare_markIf, fmap_app. split_and!; [|set_solver|done].
  assert (NoDup sel) as Hn by (eapply sublist_NoDup; [|exact Hsub]; rewrite Eo; apply NoDup_firstSeen).
  rewrite traces_perm by done. unfold l. rewrite filter_or_perm; [by apply sublist_submseteq, sublist_filter|].
  intros s _ Hi Hsel. assert (sp_TraceID s ∈ order) as Ho by (by eapply elem_of_sublist).
  rewrite Eo in Ho. apply elem_of_firstSeen, list_elem_of_fmap in Ho as (x & Ex & [Hx _]%list_elem_of_filter).
  by rewrite Ex in Hi.
Qed.

(** ** Replayed rows *)

(** A row that repeats another: the same project, trace and span id. *)
Definition copyOf (s u : Span) : Prop := replayKey s = replayKey u /\ sp_SpanID u <> ""%string.

Definition keyed (l : list Span) : list Span := filter (fun s => sp_SpanID s <> ""%string) l.

(** What [dropReplayedSpans] knows after a prefix of the rows. *)
Record replayOK (spans : list Span) (kept : gmap (Z * string * string) Z) (unique : list Span)
  (replayed : gmap Z (list Z)) : Prop := {
  rp_sub : unique `sublist_of` spans;
  rp_keys : NoDup (replayKey <$> keyed unique);
  rp_kept k i : kept !! k = Some i <-> exists u, u ∈ keyed unique /\ replayKey u = k /\ sp_ID u = i;
  rp_all s : s ∈ spans -> s ∈ unique \/ exists u l, u ∈ unique /\ copyOf s u /\
    replayed !! sp_ID u = Some l /\ sp_ID s ∈ l;
  rp_from j l i : replayed !! j = Some l -> i ∈ l ->
    exists u s, u ∈ unique /\ sp_ID u = j /\ s ∈ spans /\ sp_ID s = i /\ copyOf s u;
}.

Lemma keyed_app l k : keyed (l ++ k) = keyed l ++ keyed k.
Proof. apply filter_app. Qed.

Lemma replayOne_ok spans st s :
  replayOK spans st.1.1 st.1.2 st.2 ->
  replayOK (spans ++ [s]) (replayOne st s).1.1 (replayOne st s).1.2 (replayOne st s).2.
Proof.
  destruct st as [[kept unique] replayed]. cbn [fst snd]. intros [R1 R2 R3 R4 R5]. unfold replayOne.
  assert (unique ++ [s] `sublist_of` spans ++ [s]) as Hsub by by apply sublist_app.
  case_bool_decide as Es; [|destruct (kept !! replayKey s) as [first|] eqn:Ek]; cbn [fst snd].
  - split; [done|..].
    + rewrite keyed_app. unfold keyed at 2. rewrite filter_cons_False, filter_nil, app_nil_r by tauto. done.
    + rewrite keyed_app. unfold keyed at 2. rewrite filter_cons_False, filter_nil, app_nil_r by tauto. done.
    + intros x [Hx|Hx]%elem_of_app; [|left; set_solver].
      destruct (R4 x Hx) as [?|(u & l & Hu & Hr)]; [left; set_solver|]. right. exists u, l. split; [set_solver|done].
    + intros j l i Hj Hi. destruct (R5 j l i Hj Hi) as (u & x & Hu & E & Hx & Hr).
      exists u, x. split_and!; [set_solver|done|set_solver|by destruct Hr|by destruct Hr].
  - apply R3 in Ek as (u & Hu & Eu & <-). pose proof Hu as [Hne Hu']%list_elem_of_filter.
    assert (copyOf s u) as Hc by (split; [done|]; done).
    split; [etrans; [exact R1|by apply sublist_inserts_r]|done|done|..].
    + intros x [Hx|Hx%list_elem_of_singleton]%elem_of_app.
      * destruct (R4 x Hx) as [?|(v & l & Hv & Hcv & El & Hin)]; [by left|right].
        destruct (decide (sp_ID u = sp_ID v)) as [E|E].
        -- exists v, (l ++ [sp_ID s]). rewrite E, lookup_insert_eq, El. cbn. set_solver.
        -- exists v, l. rewrite lookup_insert_ne by done. done.
      * right. subst x. eexists u, _. rewrite lookup_insert_eq. split_and!; [done|done|done|set_solver].
    + intros j l i. destruct (decide (sp_ID u = j)) as [<-|E].
      * rewrite lookup_insert_eq. intros [= <-] [Hi|Hi%list_elem_of_singleton]%elem_of_app.
        -- destruct (replayed !! sp_ID u) as [l|] eqn:El; [|by apply not_elem_of_nil in Hi].
           destruct (R5 _ l i El Hi) as (v & x & Hv & Ev & Hx & Hr). exists v, x. split_and!; [done|done|set_solver|by destruct Hr|by destruct Hr].
        -- exists u, s. split_and!; [done|done|set_solver|done|done].
      * rewrite lookup_insert_ne by done. intros El Hi. destruct (R5 _ l i El Hi) as (v & x & Hv & Ev & Hx & Hr).
        exists v, x. split_and!; [done|done|set_solver|by destruct Hr|by destruct Hr].
  - assert (keyed (unique ++ [s]) = keyed unique ++ [s]) as Ea.
    { rewrite keyed_app. unfold keyed at 2. by rewrite filter_cons_True, filter_nil. }
    split; [done|..].
    + rewrite Ea, fmap_app. apply NoDup_app. split_and!; [done| |apply NoDup_singleton].
      intros k Hk ->%list_elem_of_singleton. apply list_elem_of_fmap in Hk as (u & E & Hu).
      assert (kept !! replayKey s = Some (sp_ID u)) as Hs by (apply R3; eauto). congruence.
    + intros k i. rewrite Ea. destruct (decide (replayKey s = k)) as [<-|E].
      * rewrite lookup_insert_eq. split.
        -- intros [= <-]. exists s. set_solver.
        -- intros (u & [Hu|Hu%list_elem_of_singleton]%elem_of_app & Eu & <-); [|by subst u].
           assert (kept !! replayKey s = Some (sp_ID u)) as Hs by (apply R3; eauto). congruence.
      * rewrite lookup_insert_ne by done. rewrite R3. split; intros (u & Hu & Hr); exists u; [set_solver|].
        split; [|done]. apply elem_of_app in Hu as [?|Hu%list_elem_of_singleton]; [done|].
        subst u. by destruct Hr.
    + intros x [Hx|Hx]%elem_of_app; [|left; set_solver].
      destruct (R4 x Hx) as [?|(u & l & Hu & Hr)]; [left; set_solver|]. right. exists u, l. split; [set_solver|done].
    + intros j l i Hj Hi. destruct (R5 j l i Hj Hi) as (u & x & Hu & E & Hx & Hr).
      exists u, x. split_and!; [set_solver|done|set_solver|by destruct Hr|by destruct Hr].
Qed.

Lemma replay_spec spans :
  exists kept, replayOK spans kept (dropReplayedSpans spans).1 (dropReplayedSpans spans).2.
Proof.
  unfold dropReplayedSpans.
  assert (replayOK spans (foldl replayOne (∅, [], ∅) spans).1.1 (foldl replayOne (∅, [], ∅) spans).1.2
    (foldl replayOne (∅, [], ∅) spans).2) as H.
  { induction spans as [|s spans IH] using rev_ind.
    - split; [done|constructor| | |]; cbn.
      + intros k i. split; [done|]. by intros (u & ?%not_elem_of_nil & _).
      + by intros s ?%not_elem_of_nil.
      + done.
    - rewrite foldl_snoc. by apply replayOne_ok. }
  destruct (foldl replayOne (∅, [], ∅) spans) as [[kept unique] replayed]. by exists kept.
Qed.

(** ** Parts of a trace *)

(** A chunk of the rows [U] and the spans kept of them [I], within the cap. *)
Record chunkOK (U I : list Span) (maxRows : nat) (c : stagingChunk) : Prop := {
  co_rows : ch_rows c = (length (ch_spans c) + length (ch_interesting c))%nat;
  co_cap : (ch_rows c <= maxRows)%nat;
  co_ids : ch_traceIDs c <> [];
  co_spans s : s ∈ ch_spans c -> s ∈ U /\ sp_TraceID s ∈ ch_traceIDs c;
  co_interesting : ch_interesting c ≡ₚ filter (fun k => sp_ID k ∈ idsOf (ch_spans c)) I;
  co_part : match ch_part c with
            | None => forall s, s ∈ U -> sp_TraceID s ∈ ch_traceIDs c -> s ∈ ch_spans c
            | Some p => tp_stagedIDs p = idsOf (ch_spans c) /\ ch_spans c <> [] /\ ch_traceIDs c = [(tp_key p).2]
            end;
}.

Definition keptMap (kept : list Span) : gmap Z Span := foldl (fun m s => <[sp_ID s := s]> m) ∅ kept.

Lemma keptMap_spec kept i k : NoDup (idsOf kept) -> keptMap kept !! i = Some k <-> k ∈ kept /\ sp_ID k = i.
Proof.
  unfold keptMap. induction kept as [|x kept IH] using rev_ind; intros Hn.
  { split; [done|]. by intros [?%not_elem_of_nil _]. }
  unfold idsOf in Hn. rewrite fmap_app in Hn. apply NoDup_app in Hn as (Hn & Hd & _). rewrite foldl_snoc.
  destruct (decide (sp_ID x = i)) as [<-|E].
  - rewrite lookup_insert_eq. split; [intros [= <-]; set_solver|].
    intros [[Hk|Hk%list_elem_of_singleton]%elem_of_app Ek]; [|by subst k].
    exfalso. apply (Hd (sp_ID k)); [by apply list_elem_of_fmap_2|]. rewrite Ek. set_solver.
  - rewrite lookup_insert_ne, IH by done. set_solver.
Qed.

Lemma kept_perm kept l :
  NoDup (idsOf kept) -> NoDup (idsOf l) ->
  omap (fun s => keptMap kept !! sp_ID s) l ≡ₚ filter (fun k => sp_ID k ∈ idsOf l) kept.
Proof.
  intros Hk Hl. apply NoDup_Permutation.
  - apply NoDup_of_ids. induction l as [|s l IH]; [constructor|]. apply NoDup_cons in Hl as [Hs Hl].
    cbn [omap list_omap]. destruct (keptMap kept !! sp_ID s) as [k|] eqn:E; [|by apply IH].
    apply keptMap_spec in E as [_ E]; [|done]. cbn. apply NoDup_cons. split; [|by apply IH].
    intros (x & E' & Hx)%list_elem_of_fmap. apply list_elem_of_omap in Hx as (y & Hy & [_ Ey]%keptMap_spec); [|done].
    apply Hs. apply list_elem_of_fmap. exists y. split; [|done]. change (sp_ID <$> ?x) with (idsOf x) in *. congruence.
  - apply NoDup_filter. by apply NoDup_of_ids.
  - intros x. rewrite list_elem_of_omap, list_elem_of_filter, elem_of_ids. split.
    + intros (y & Hy & [Hx E]%keptMap_spec); [|done]. eauto.
    + intros [(s & Hs & E) Hx]. exists s. split; [done|]. apply keptMap_spec; done.
Qed.
(** A part of trace [t], whose rows so far may be none. *)
Record partOK (t : string) (kept : list Span) (maxRows : nat) (c : stagingChunk) : Prop := {
  pt_part : exists p, ch_part c = Some p /\ (tp_key p).2 = t /\ tp_stagedIDs p = idsOf (ch_spans c);
  pt_ids : ch_traceIDs c = [t];
  pt_rows : ch_rows c = (length (ch_spans c) + length (ch_interesting c))%nat;
  pt_cap : (ch_rows c <= maxRows)%nat;
  pt_kept : ch_interesting c = omap (fun s => keptMap kept !! sp_ID s) (ch_spans c);
}.

(** The state of [traceParts] after the rows [past]. *)
Record partsOK (t : string) (kept : list Span) (maxRows : nat) (past : list Span)
  (st : list stagingChunk * stagingChunk * gmap Z Span) : Prop := {
  ps_rows : mjoin (ch_spans <$> st.1.1) ++ ch_spans st.1.2 = past;
  ps_out : Forall (fun c => partOK t kept maxRows c /\ ch_spans c <> []) st.1.1;
  ps_cur : partOK t kept maxRows st.1.2;
  ps_some : past <> [] -> ch_spans st.1.2 <> [];
  ps_map i : st.2 !! i = if decide (i ∈ idsOf past) then None else keptMap kept !! i;
}.

Lemma newTracePart_ok kept maxRows s : partOK (sp_TraceID s) kept maxRows (newTracePart s).
Proof. split; try done; [by eexists|cbn; lia]. Qed.

Lemma omap_snoc {A B} (f : A -> option B) l x : omap f (l ++ [x]) = omap f l ++ option_list (f x).
Proof. by rewrite omap_app. Qed.

Lemma partOne_ok t kept maxRows past st s :
  (2 <= maxRows)%nat -> sp_TraceID s = t -> NoDup (idsOf (past ++ [s])) ->
  partsOK t kept maxRows past st -> partsOK t kept maxRows (past ++ [s]) (partOne maxRows st s).
Proof.
  intros Hmax Et Hn [P1 P2 P3 _ P4]. destruct st as [[out cur] m]. cbn [fst snd] in *. unfold partOne.
  unfold idsOf in Hn. rewrite fmap_app in Hn. apply NoDup_app in Hn as (_ & Hd & _). change (sp_ID <$> ?x) with (idsOf x) in Hd.
  assert (sp_ID s ∉ idsOf past) as Hs by (intros Hx; by apply (Hd _ Hx), list_elem_of_here).
  assert (m !! sp_ID s = keptMap kept !! sp_ID s) as Em by (by rewrite P4, decide_False by done).
  rewrite Em. set (k := option_list (keptMap kept !! sp_ID s)).
  assert (length k <= 1)%nat as Hk by (unfold k; destruct (keptMap kept !! sp_ID s); cbn; lia).
  assert (forall c, partOK t kept maxRows c -> (ch_rows c + (1 + length k) <= maxRows)%nat ->
    partOK t kept maxRows (mkChunk (ch_traceIDs c) (ch_spans c ++ [s]) (ch_interesting c ++ k) (ch_rows c + (1 + length k))
      (addPartIDs [sp_ID s] c))) as Hadd.
  { intros c [(p & E1 & E2 & E3) O2 O3 O4 O5] Hle. split; cbn [ch_part ch_traceIDs ch_spans ch_interesting ch_rows]; [|done| |done|].
    - unfold addPartIDs. rewrite E1. cbn. eexists. split_and!; [done|done|]. cbn. rewrite E3. unfold idsOf. by rewrite fmap_app.
    - rewrite !length_app, O3. cbn. lia.
    - rewrite omap_snoc, O5. done. }
  assert (forall i, delete (sp_ID s) m !! i = if decide (i ∈ idsOf (past ++ [s])) then None else keptMap kept !! i) as Hmap.
  { intros i. unfold idsOf. rewrite fmap_app. destruct (decide (sp_ID s = i)) as [<-|E].
    - rewrite lookup_delete_eq, decide_True by set_solver. done.
    - rewrite lookup_delete_ne, P4 by done. unfold idsOf. destruct (decide (i ∈ sp_ID <$> past)).
      + by rewrite decide_True by set_solver.
      + by rewrite decide_False by set_solver. }
  destruct P3 as [(p & E1 & E2 & E3) O2 O3 O4 O5] eqn:EP3. clear EP3.
  assert (partIDs cur = idsOf (ch_spans cur)) as Ep by (unfold partIDs; by rewrite E1).
  assert (forall l : list Span, l ++ [s] <> []) as Hsn by (by intros []).
  rewrite Ep. destruct (negb _ && _) eqn:Ef; split; cbn [fst snd ch_spans]; try done.
  - rewrite fmap_app, <- P1. cbn. rewrite join_app. cbn. by rewrite !app_nil_r.
  - apply andb_true_iff in Ef as [Ef _]. apply negb_true_iff, bool_decide_eq_false in Ef.
    apply Forall_app. split; [done|]. apply Forall_singleton. split; [by split; eauto|].
    intros E. by rewrite E in Ef.
  - subst t. apply Hadd; [apply newTracePart_ok|cbn; lia].
  - by rewrite <- P1, (assoc_L app).
  - apply Hadd; [by split; eauto|]. apply andb_false_iff in Ef as [Ef|Ef].
    + apply negb_false_iff, bool_decide_eq_true in Ef. unfold idsOf in Ef. apply fmap_nil_inv in Ef.
      rewrite O3, O5, Ef. cbn. lia.
    + apply Nat.ltb_ge in Ef. lia.
Qed.

Lemma traceParts_ok t staged kept maxRows :
  (2 <= maxRows)%nat -> staged <> [] -> Forall (fun s => sp_TraceID s = t) staged ->
  NoDup (idsOf staged) -> (forall k, k ∈ kept -> sp_ID k ∈ idsOf staged) ->
  mjoin (ch_spans <$> traceParts staged kept maxRows) ≡ₚ staged /\
  Forall (fun c => partOK t kept maxRows c /\ ch_spans c <> []) (traceParts staged kept maxRows).
Proof.
  intros Hmax Hne Ht Hn Hk. unfold traceParts. pose proof (merge_sort_Permutation byID staged) as Hp.
  destruct (merge_sort byID staged) as [|first l] eqn:Es; [by apply Permutation_nil in Hp|].
  rewrite <- Hp in Ht, Hn. set (rows := first :: l) in *. fold (keptMap kept).
  assert (partsOK t kept maxRows rows (foldl (partOne maxRows) ([], newTracePart first, keptMap kept) rows)) as HP.
  { assert (forall pre post, rows = pre ++ post ->
      partsOK t kept maxRows pre (foldl (partOne maxRows) ([], newTracePart first, keptMap kept) pre)) as H;
      [|apply (H rows []); by rewrite app_nil_r].
    intros pre. induction pre as [|s pre IH] using rev_ind; intros post E.
    - apply Forall_cons in Ht as [<- _]. split; cbn; [done|constructor|apply newTracePart_ok|done|].
      intros i. rewrite decide_False by apply not_elem_of_nil. done.
    - rewrite <- (assoc_L app) in E. rewrite foldl_snoc. apply partOne_ok; [done| | |by eapply IH].
      + rewrite Forall_forall in Ht. apply Ht. rewrite E. set_solver.
      + rewrite E, (assoc_L app) in Hn. unfold idsOf in *. rewrite fmap_app in Hn. by apply NoDup_app in Hn as [? _]. }
  destruct (foldl _ _ rows) as [[out cur] m]. destruct HP as [P1 P2 P3 P5 P4]. cbn [fst snd] in *.
  set (extra := filter (fun s => is_Some (m !! sp_ID s)) kept).
  assert (extra = []) as ->.
  { destruct extra as [|x k] eqn:E; [done|exfalso].
    assert (x ∈ extra) as [Hx Hin]%list_elem_of_filter by (rewrite E; by left).
    rewrite P4, decide_True in Hx; [by destruct Hx|]. unfold idsOf. rewrite Hp. by apply Hk. }
  rewrite app_nil_r, Nat.add_0_r. split.
  - rewrite fmap_app, join_app. cbn [fmap list_fmap mjoin list_join ch_spans]. rewrite app_nil_r, P1. done.
  - apply Forall_app. split; [done|]. apply Forall_singleton. split; [|by apply P5].
    destruct P3 as [(p & E1 & E2 & E3) O2 O3 O4 O5]. split; try done. cbn. rewrite E1. cbn. by eexists.
Qed.

(** ** Chunks *)

Lemma spansByTrace_lookup id l : default [] (spansByTrace l !! id) = traceOf id l.
Proof.
  unfold spansByTrace. induction l as [|s l IH] using rev_ind; [done|]. rewrite foldl_snoc, traceOf_app. unfold traceOf at 2.
  destruct (decide (sp_TraceID s = id)) as [<-|E].
  - rewrite lookup_insert_eq, filter_cons_True, filter_nil, <- IH by done. done.
  - rewrite lookup_insert_ne, filter_cons_False, filter_nil, app_nil_r by done. done.
Qed.

Section Chunks.
Context (U I : list Span) (maxRows : nat).
Hypotheses (Hmax : (2 <= maxRows)%nat) (HU : NoDup (idsOf U)) (HI : NoDup (idsOf I)).
Hypothesis Hfrom : forall k, k ∈ I -> exists s, s ∈ U /\ sp_ID s = sp_ID k /\ sp_TraceID s = sp_TraceID k.

Abbreviation rowsOf ids := (mjoin ((fun id => traceOf id U) <$> ids)).

Lemma elem_of_rowsOf ids s : s ∈ rowsOf ids <-> s ∈ U /\ sp_TraceID s ∈ ids.
Proof.
  rewrite list_elem_of_join. split.
  - intros (l & Hs & (id & -> & Hid)%list_elem_of_fmap). apply list_elem_of_filter in Hs as [<- Hs]. done.
  - intros [Hs Hid]. eexists. split; [|apply list_elem_of_fmap; by exists (sp_TraceID s)]. by apply list_elem_of_filter.
Qed.

(** Kept spans chosen by trace, or by the ids of rows of whole traces. *)
Lemma interesting_by_id ids k :
  k ∈ I -> sp_TraceID k ∈ ids <-> sp_ID k ∈ idsOf (rowsOf ids).
Proof.
  intros Hk. destruct (Hfrom k Hk) as (s & Hs & Ei & Et). rewrite elem_of_ids. split.
  - intros Hid. exists s. rewrite elem_of_rowsOf, Et. done.
  - intros (x & [Hx Hid]%elem_of_rowsOf & Ex). assert (x = s) as ->; [|by rewrite Et in Hid].
    eapply NoDup_ids_inj; [exact HU|done|done|congruence].
Qed.

(** A chunk of whole traces, with the ids it holds. *)
Record wholeOK (c : stagingChunk) : Prop := {
  wh_part : ch_part c = None;
  wh_nodup : NoDup (ch_traceIDs c);
  wh_spans : ch_spans c = rowsOf (ch_traceIDs c);
  wh_kept : ch_interesting c = mjoin ((fun id => traceOf id I) <$> ch_traceIDs c);
  wh_rows : ch_rows c = (length (ch_spans c) + length (ch_interesting c))%nat;
  wh_cap : (ch_rows c <= maxRows)%nat;
}.

Lemma whole_chunk c : wholeOK c -> ch_traceIDs c <> [] -> chunkOK U I maxRows c.
Proof.
  intros [W1 W2 W3 W4 W5 W6] Hne. split; [done|done|done|..].
  - intros s. by rewrite W3, elem_of_rowsOf.
  - rewrite W4, traces_perm by done. apply reflexive_eq, filter_ext_in. intros k Hk. rewrite W3.
    by apply interesting_by_id.
  - rewrite W1. intros s Hs Hid. by rewrite W3, elem_of_rowsOf.
Qed.

Lemma part_chunk id c :
  (forall s, s ∈ ch_spans c -> s ∈ traceOf id U) -> NoDup (idsOf (ch_spans c)) -> ch_spans c <> [] ->
  partOK id (traceOf id I) maxRows c -> chunkOK U I maxRows c.
Proof.
  intros Hsub Hnd Hne [(p & E1 & E2 & E3) O2 O3 O4 O5].
  assert (NoDup (idsOf (traceOf id I))) as Hn by (eapply NoDup_ids_sub; [apply sublist_submseteq, sublist_filter|done]).
  split; [done|done|by rewrite O2|..].
  - intros s [<- Hs]%Hsub%list_elem_of_filter. rewrite O2. set_solver.
  - rewrite O5, kept_perm by done. unfold traceOf. rewrite list_filter_filter. apply reflexive_eq, filter_ext_in.
    intros k Hk. split; [by intros []|]. intros Hi. split; [done|].
    apply elem_of_ids in Hi as (s & Hs & Ei). apply Hsub, list_elem_of_filter in Hs as [<- Hs].
    destruct (Hfrom k Hk) as (x & Hx & Ex & <-). f_equal. eapply NoDup_ids_inj; [exact HU|done|done|congruence].
  - rewrite E1. split_and!; [done|done|]. by rewrite O2, E2.
Qed.

(** The state of [stagingChunks] after the ids [past]. *)
Record chunksOK (past : list string) (st : list stagingChunk * stagingChunk) : Prop := {
  cs_rows : mjoin (ch_spans <$> st.1) ++ ch_spans st.2 ≡ₚ rowsOf past;
  cs_out : Forall (chunkOK U I maxRows) st.1;
  cs_ids : Forall (fun c => forall id, id ∈ ch_traceIDs c -> id ∈ past) st.1;
  cs_cur : wholeOK st.2;
  cs_sub : forall id, id ∈ ch_traceIDs st.2 -> id ∈ past;
}.

Lemma empty_ok : wholeOK emptyChunk.
Proof. split; try done; [constructor|cbn; lia]. Qed.

Lemma mjoin_snoc {A} (l : list (list A)) x : mjoin (l ++ [x]) = mjoin l ++ x.
Proof. rewrite join_app. cbn. by rewrite app_nil_r. Qed.

Lemma parts_chunks id :
  (maxRows < length (traceOf id U) + length (traceOf id I))%nat ->
  mjoin (ch_spans <$> traceParts (traceOf id U) (traceOf id I) maxRows) ≡ₚ traceOf id U /\
  Forall (fun c => chunkOK U I maxRows c /\ ch_traceIDs c = [id]) (traceParts (traceOf id U) (traceOf id I) maxRows).
Proof.
  intros Hr. assert (NoDup (idsOf (traceOf id U))) as Hn by (eapply NoDup_ids_sub; [apply sublist_submseteq, sublist_filter|done]).
  assert (forall k, k ∈ traceOf id I -> sp_ID k ∈ idsOf (traceOf id U)) as Hk.
  { intros k [Ek Hk]%list_elem_of_filter. destruct (Hfrom k Hk) as (s & Hs & E1 & E2). apply elem_of_ids. exists s.
    split; [|done]. apply list_elem_of_filter. split; [congruence|done]. }
  destruct (traceParts_ok id (traceOf id U) (traceOf id I) maxRows) as [HP HF]; [done| | |done|done|].
  - intros E. rewrite E in Hk, Hr. destruct (traceOf id I) as [|k l]; [cbn in Hr; lia|].
    by apply (not_elem_of_nil (A := Z) (sp_ID k)), Hk, list_elem_of_here.
  - apply Forall_forall. by intros s [? _]%list_elem_of_filter.
  - split; [done|]. apply Forall_forall. intros c Hc. rewrite Forall_forall in HF. destruct (HF c Hc) as [Ho Hne].
    split; [|by destruct Ho]. apply (part_chunk id); [| |done|done].
    + intros s Hs. rewrite <- HP. apply list_elem_of_join. exists (ch_spans c). split; [done|]. by apply list_elem_of_fmap_2.
    + rewrite <- HP in Hn. eapply NoDup_ids_sub; [|exact Hn].
      apply list_elem_of_split in Hc as (l1 & l2 & ->). rewrite fmap_app, join_app, fmap_cons.
      change (mjoin (?x :: ?k)) with (x ++ mjoin k). by apply submseteq_inserts_l, submseteq_inserts_r.
Qed.

Lemma chunkOne_ok past st id :
  id ∉ past -> chunksOK past st ->
  chunksOK (past ++ [id]) (chunkOne (spansByTrace U) (spansByTrace I) maxRows st id).
Proof.
  intros Hid [C1 C2 C5 C3 C4]. destruct st as [out cur]. cbn [fst snd] in *. unfold chunkOne.
  rewrite !spansByTrace_lookup. set (rows := (length (traceOf id U) + length (traceOf id I))%nat).
  set (cut := negb _ && _). set (out' := if cut then out ++ [cur] else out). set (cur' := if cut then emptyChunk else cur).
  assert (mjoin (ch_spans <$> out') ++ ch_spans cur' ≡ₚ rowsOf past) as C1'.
  { unfold out', cur'. destruct cut; [|done]. rewrite fmap_app. cbn [fmap list_fmap]. rewrite mjoin_snoc. cbn. by rewrite app_nil_r. }
  assert (Forall (chunkOK U I maxRows) out') as C2'.
  { unfold out'. destruct cut eqn:Ec; [|done]. apply Forall_app. split; [done|]. apply Forall_singleton, whole_chunk; [done|].
    unfold cut in Ec. apply andb_true_iff in Ec as [Ec _]. by apply negb_true_iff, bool_decide_eq_false in Ec. }
  assert (wholeOK cur') as C3' by (unfold cur'; destruct cut; [apply empty_ok|done]).
  assert (forall i, i ∈ ch_traceIDs cur' -> i ∈ past) as C4'.
  { unfold cur'. destruct cut; [|done]. by intros i ?%not_elem_of_nil. }
  assert (Forall (fun c => forall i, i ∈ ch_traceIDs c -> i ∈ past ++ [id]) out') as C5'.
  { assert (Forall (fun c => forall i, i ∈ ch_traceIDs c -> i ∈ past ++ [id]) out) as H.
    { eapply Forall_impl; [exact C5|]. intros c Hc i Hi%Hc. set_solver. }
    unfold out'. destruct cut; [|done]. apply Forall_app. split; [done|]. apply Forall_singleton. intros i Hi%C4. set_solver. }
  destruct (maxRows <? rows)%nat eqn:Er.
  - apply Nat.ltb_lt in Er. destruct (parts_chunks id Er) as [HP HF]. split; cbn [fst snd].
    + rewrite fmap_app, join_app, HP, fmap_app. cbn [fmap list_fmap]. rewrite mjoin_snoc, <- C1'. solve_Permutation.
    + apply Forall_app. split; [done|]. eapply Forall_impl; [exact HF|]. by intros c [].
    + apply Forall_app. split; [done|]. eapply Forall_impl; [exact HF|]. intros c [_ E] i. rewrite E. set_solver.
    + done.
    + intros i Hi%C4'. set_solver.
  - apply Nat.ltb_ge in Er. destruct C3' as [W1 W2 W3 W4 W5 W6]. split; cbn [fst snd]; [|done|done| |].
    + cbn [ch_spans]. rewrite fmap_app. cbn [fmap list_fmap]. by rewrite mjoin_snoc, <- C1', (assoc_L app).
    + split; cbn [ch_part ch_traceIDs ch_spans ch_interesting ch_rows]; [done|..].
      * apply NoDup_app. split_and!; [done| |apply NoDup_singleton]. intros i Hi ->%list_elem_of_singleton. by apply Hid, C4'.
      * rewrite fmap_app. cbn [fmap list_fmap]. by rewrite mjoin_snoc, W3.
      * rewrite fmap_app. cbn [fmap list_fmap]. by rewrite mjoin_snoc, W4.
      * rewrite !length_app, W5. unfold rows. lia.
      * revert W6 W5 Er. unfold cur'. destruct cut eqn:Ec; cbn [emptyChunk ch_rows]; [lia|]. intros W6 W5 Er.
        unfold cut in Ec. apply andb_false_iff in Ec as [Ec|Ec].
        -- apply negb_false_iff, bool_decide_eq_true in Ec. unfold cur' in W3, W4.
           destruct C3 as [_ _ V3 V4 V5 _]. rewrite V5, V3, V4, Ec. cbn. lia.
        -- apply orb_false_iff in Ec as [Ec _]. apply Nat.ltb_ge in Ec. lia.
    + intros i [Hi%C4'|Hi]%elem_of_app; set_solver.
Qed.

Lemma chunks_spec ids :
  NoDup ids ->
  mjoin (ch_spans <$> stagingChunks ids U I maxRows) ≡ₚ rowsOf ids /\
  Forall (fun c => chunkOK U I maxRows c /\ forall id, id ∈ ch_traceIDs c -> id ∈ ids) (stagingChunks ids U I maxRows).
Proof.
  intros Hn. unfold stagingChunks.
  assert (chunksOK ids (foldl (chunkOne (spansByTrace U) (spansByTrace I) maxRows) ([], emptyChunk) ids)) as HC.
  { induction ids as [|id ids IH] using rev_ind.
    - split; [done|constructor|constructor|apply empty_ok|done].
    - apply NoDup_app in Hn as (Hn & Hd & _). rewrite foldl_snoc. apply chunkOne_ok; [|by apply IH].
      intros Hid. apply (Hd id Hid), list_elem_of_here. }
  destruct (foldl _ _ ids) as [out cur]. destruct HC as [C1 C2 C5 C3 C4]. cbn [fst snd] in *.
  assert (Forall (fun c => chunkOK U I maxRows c /\ forall id, id ∈ ch_traceIDs c -> id ∈ ids) out) as HF by by apply Forall_and.
  case_bool_decide as E.
  - split; [|done]. destruct C3 as [_ _ W3 _ _ _]. rewrite W3, E in C1. cbn in C1. by rewrite app_nil_r in C1.
  - split; [|apply Forall_app; split; [done|]; apply Forall_singleton; split; [by apply whole_chunk|done]].
    rewrite fmap_app. cbn [fmap list_fmap]. by rewrite mjoin_snoc.
Qed.
End Chunks.
