(* ===== verification/StagingProps.v ===== *)
(** * Staged rows are moved once

    The invariant of the staging world, kept by staging, by collection and by flushes whose
    calls fail anywhere while other goroutines work. *)
From S2P Require Import Prelude Model Sampling Classify ClassifyProps Staging StagingChunks.

(** ** The invariant *)

(** Every row ever staged is in staging, handed to the accumulator, a copy of a row handed
    over, collected, or late; what is stored are rows handed over, once each, and all dirty
    ones among them. *)
Record stagingOK (slow : Z) (w : staging) : Prop := {
  so_ids : NoDup (idsOf (sg_entered w));
  so_next s : s ∈ sg_entered w -> sp_ID s < sg_nextID w;
  so_rows : sg_rows w `sublist_of` sg_entered w;
  so_once : NoDup (idsOf (sg_added w));
  so_added a : a ∈ sg_added w -> a ∈ sg_entered w /\ a ∉ sg_rows w;
  so_cover s : s ∈ sg_entered w -> s ∈ sg_rows w \/ s ∈ sg_added w \/
    (exists a, a ∈ sg_added w /\ copyOf s a) \/ s ∈ sg_shed w \/ s ∈ sg_late w;
  so_stored : NoDup (idsOf (sg_spans w));
  so_from k : k ∈ sg_spans w -> exists a, a ∈ sg_added w /\ bare k = bare a;
  so_dirty a : a ∈ sg_added w -> dirtySpan slow a = true -> exists k, k ∈ sg_spans w /\ bare k = bare a;
}.

Lemma elem_of_rows slow w s : stagingOK slow w -> s ∈ sg_rows w -> s ∈ sg_entered w.
Proof. intros Hok Hs. eapply elem_of_sublist; [done|apply (so_rows _ _ Hok)]. Qed.

Lemma stagedRows_cons id now s spans :
  stagedRows id now (s :: spans) = stagedRow id now s :: stagedRows (id + 1) now spans.
Proof.
  unfold stagedRows. rewrite imap_cons, Z.add_0_r. f_equal. apply imap_ext. intros i x _. cbn. f_equal. lia.
Qed.

Lemma stagedRows_ids now spans : forall id,
  NoDup (idsOf (stagedRows id now spans)) /\
  forall s, s ∈ stagedRows id now spans -> id <= sp_ID s < id + Z.of_nat (length spans).
Proof.
  induction spans as [|x spans IH]; intros id.
  { split; [constructor|]. by intros s ?%not_elem_of_nil. }
  rewrite stagedRows_cons. destruct (IH (id + 1)) as [H1 H2]. split.
  - cbn. apply NoDup_cons. split; [|done]. intros (s & E & Hs)%list_elem_of_fmap. apply H2 in Hs. lia.
  - intros s [->|Hs]%elem_of_cons; cbn [length]; [cbn; lia|]. apply H2 in Hs. lia.
Qed.

Lemma stage_ok slow now spans w : stagingOK slow w -> stagingOK slow (InsertSpansStaging now spans w).
Proof.
  intros [O1 O2 O3 O4 O5 O6 O7 O8 O9]. destruct (stagedRows_ids now spans (sg_nextID w)) as [N1 N2].
  assert (forall s, s ∈ sg_entered w -> s ∉ stagedRows (sg_nextID w) now spans) as Hd.
  { intros s Hs%O2 Hx%N2. lia. }
  split; cbn [InsertSpansStaging sg_entered sg_nextID sg_rows sg_added sg_spans sg_shed sg_late]; try done.
  - rewrite idsOf_app. apply NoDup_app. split_and!; [done| |done].
    intros i (s & Hs & <-)%elem_of_ids (x & Hx & E)%elem_of_ids. apply O2 in Hs. apply N2 in Hx. lia.
  - intros s [Hs%O2|Hs%N2]%elem_of_app; lia.
  - by apply sublist_app.
  - intros a Ha. destruct (O5 a Ha) as [He Hr]. split; [set_solver|]. intros [?|Hx]%elem_of_app; [done|]. by apply (Hd a).
  - intros s [Hs|Hs]%elem_of_app; [|left; set_solver]. destruct (O6 s Hs) as [?|?]; [left; set_solver|by right].
Qed.

Lemma collect_ok slow cutoff w : stagingOK slow w -> stagingOK slow (collectBatch cutoff w).2.
Proof.
  intros Hok. pose proof Hok as [O1 O2 O3 O4 O5 O6 O7 O8 O9]. unfold collectBatch. set (victims := take _ _).
  assert (forall s, s ∈ victims -> s ∈ sg_rows w) as Hv.
  { intros s Hs. eapply elem_of_sublist; [exact Hs|]. etrans; [apply sublist_take|apply sublist_filter]. }
  split; cbn [snd sg_entered sg_nextID sg_rows sg_added sg_spans sg_shed sg_late]; try done.
  - etrans; [apply sublist_filter|done].
  - intros a Ha. destruct (O5 a Ha) as [He Hr]. split; [done|]. intros [_ ?]%list_elem_of_filter. done.
  - intros s Hs. destruct (O6 s Hs) as [Hr|[?|[?|[?|?]]]]; [|tauto|tauto|set_solver|tauto].
    destruct (decide (sp_ID s ∈ sp_ID <$> victims)) as [Hi|Hi].
    + do 3 right. left. apply list_elem_of_fmap in Hi as (v & E & Hvv).
      assert (s = v) as ->; [|set_solver]. eapply (NoDup_ids_inj (sg_entered w)); [done|done| |done].
      by eapply elem_of_rows, Hv.
    + left. by apply list_elem_of_filter.
Qed.

Lemma runEnv_ok slow a w : stagingOK slow w -> stagingOK slow (runEnv w a).
Proof.
  intros Hok. destruct a as [now spans|cutoff]; [|by apply collect_ok].
  pose proof (stage_ok slow now spans w Hok) as [O1 O2 O3 O4 O5 O6 O7 O8 O9].
  split; try done. intros s Hs. destruct (O6 s Hs) as [?|[?|[?|[?|?]]]]; [tauto|tauto|tauto|tauto|].
  do 4 right. cbn. apply elem_of_app. by left.
Qed.

(** ** Calls *)

(** A call does what others do first, and then its own effect, or nothing. *)
Lemma dbCall_spec {A} (P : staging -> Prop) (f : staging -> A * staging) w :
  (forall w, P w -> P (popCall w)) -> (forall w a, P w -> P (runEnv w a)) -> P w ->
  exists w1, P w1 /\ (dbCall f w = (None, w1) \/ dbCall f w = (Some (f w1).1, (f w1).2)).
Proof.
  intros Hpop Henv HP. unfold dbCall. destruct (hd ([], true) (sg_calls w)) as [env ok].
  assert (P (foldl runEnv (popCall w) env)) as H1.
  { apply Hpop in HP. revert HP. generalize (popCall w). induction env as [|a env IH]; intros w0 HP; [done|].
    by apply IH, Henv. }
  exists (foldl runEnv (popCall w) env). split; [done|]. destruct ok; [|by left]. right. by destruct (f _).
Qed.

Lemma pop_ok slow w : stagingOK slow w -> stagingOK slow (popCall w).
Proof. by intros []. Qed.

(** ** Committing chunks *)

Ltac in_app := apply elem_of_app; tauto.

Section Commit.
Context (slow : Z) (R U I kept : list Span) (ids : list string) (replayed : gmap Z (list Z)).
Hypothesis HR : exists keys, replayOK R keys U replayed.
Hypothesis HRids : NoDup (idsOf R).
Hypotheses (Hkept : kept ⊆+ U) (Hbare : bare <$> I = bare <$> kept).
Hypothesis Hdirty : forall s, s ∈ U -> dirtySpan slow s = true -> s ∈ kept.

(** A flush that read [R] and has the chunks [cs] to commit. *)
Record flushing (cs : list stagingChunk) (w : staging) : Prop := {
  fl_ok : stagingOK slow w;
  fl_R s : s ∈ R -> s ∈ sg_entered w;
  fl_ids id : id ∈ ids -> id ∈ sp_TraceID <$> sg_entered w;
  fl_read s : s ∈ sg_rows w -> sp_TraceID s ∈ ids -> s ∈ R \/ s ∈ sg_late w;
  fl_chunks : Forall (fun c => chunkOK U I stagingChunkRows c /\ forall id, id ∈ ch_traceIDs c -> id ∈ ids) cs;
  fl_nodup : NoDup (idsOf (mjoin (ch_spans <$> cs)));
  fl_todo s : s ∈ mjoin (ch_spans <$> cs) -> sp_ID s ∉ idsOf (sg_added w);
}.

Lemma flushing_pop cs w : flushing cs w -> flushing cs (popCall w).
Proof. intros []. split; try done. by apply pop_ok. Qed.

Lemma flushing_env cs w a : flushing cs w -> flushing cs (runEnv w a).
Proof.
  intros [F1 F2 F3 F4 F5 F6 F7]. pose proof (runEnv_ok slow a w F1) as Hok.
  destruct a as [now spans|cutoff]; split; try done; cbn [runEnv].
  - intros s Hs. cbn. set_solver.
  - intros id Hid%F3. cbn. rewrite fmap_app. set_solver.
  - intros s. cbn. intros [Hs|Hs]%elem_of_app Ht.
    + destruct (F4 s Hs Ht); [by left|right; set_solver].
    + right. apply elem_of_app. right. apply list_elem_of_filter. split; [by apply F3|done].
  - intros s [_ Hs]%list_elem_of_filter. by apply F4.
Qed.

Lemma U_in_R s : s ∈ U -> s ∈ R.
Proof. destruct HR as [keys [H1 _ _ _ _]]. intros Hs. by eapply elem_of_sublist. Qed.

Lemma U_inj a b : a ∈ U -> b ∈ U -> sp_ID a = sp_ID b -> a = b.
Proof. intros Ha%U_in_R Hb%U_in_R. by eapply NoDup_ids_inj. Qed.

Lemma kept_of_I k : k ∈ I -> exists x, x ∈ U /\ x ∈ kept /\ bare k = bare x.
Proof.
  intros Hk. assert (bare k ∈ bare <$> kept) as (x & E & Hx)%list_elem_of_fmap.
  { rewrite <- Hbare. by apply list_elem_of_fmap_2. }
  exists x. split_and!; [by eapply elem_of_submseteq|done|done].
Qed.

Lemma bare_id a b : bare a = bare b -> sp_ID a = sp_ID b.
Proof. intros E. change (sp_ID (bare a) = sp_ID (bare b)). by rewrite E. Qed.

(** A transaction that deletes rows of the chunk, copies of them and late rows. *)
Lemma move_ok c cs gone w :
  flushing (c :: cs) w ->
  (forall s, s ∈ sg_rows w -> gone s = true ->
     s ∈ ch_spans c \/ (exists u, u ∈ ch_spans c /\ copyOf s u) \/ s ∈ sg_late w) ->
  (forall s, s ∈ ch_spans c -> gone s = true) ->
  flushing cs (addBatch true (ch_spans c) (moveRows (ch_interesting c) gone w)).2.
Proof.
  intros [F1 F2 F3 F4 F5 F6 F7] Hg Hall. pose proof F1 as [O1 O2 O3 O4 O5 O6 O7 O8 O9].
  apply Forall_cons in F5 as [[[C1 C2 C3 C4 C5 C6] _] F5]. rewrite fmap_cons in F6, F7.
  change (mjoin (?x :: ?k)) with (x ++ mjoin k) in F6, F7. rewrite idsOf_app in F6. apply NoDup_app in F6 as (N1 & N2 & N3).
  assert (forall s, s ∈ ch_spans c -> s ∈ sg_entered w) as He by (intros s [Hs _]%C4; by apply F2, U_in_R).
  assert (forall k, k ∈ ch_interesting c <-> k ∈ I /\ sp_ID k ∈ idsOf (ch_spans c)) as Hi.
  { intros k. rewrite C5, list_elem_of_filter. tauto. }
  assert (forall k, k ∈ ch_interesting c -> exists a, a ∈ ch_spans c /\ bare k = bare a) as Hfrom.
  { intros k [Hk (s & Hs & E)%elem_of_ids]%Hi. destruct (kept_of_I k Hk) as (x & Hx & _ & Ex).
    exists x. split; [|done]. assert (x = s) as ->; [|done]. apply U_inj; [done|by apply C4|].
    rewrite E. symmetry. by apply bare_id. }
  split; [split|..]; cbn [addBatch moveRows snd sg_entered sg_nextID sg_rows sg_added sg_spans sg_shed sg_late]; try done.
  - etrans; [apply sublist_filter|done].
  - rewrite idsOf_app. apply NoDup_app. split_and!; [done| |done].
    intros i Hi' (s & Hs & <-)%elem_of_ids. apply (F7 s); [in_app|done].
  - intros a [Ha|Ha]%elem_of_app.
    + destruct (O5 a Ha) as [? Hr]. split; [done|]. by intros [_ ?]%list_elem_of_filter.
    + split; [by apply He|]. intros [E _]%list_elem_of_filter. by rewrite Hall in E.
  - intros s Hs. destruct (O6 s Hs) as [Hr|[?|[(a & ? & ?)|[?|?]]]]; [|right; left; in_app|right; right; left; exists a; split; [in_app|done]|tauto|tauto].
    destruct (gone s) eqn:Eg; [|left; by apply list_elem_of_filter].
    destruct (Hg s Hr Eg) as [?|[(u & ? & ?)|?]]; [right; left; in_app|right; right; left; exists u; split; [in_app|done]|tauto].
  - rewrite idsOf_app. apply NoDup_app. split_and!; [done| |].
    + intros i (k & Hk & <-)%elem_of_ids (x & Hx & E)%elem_of_ids. destruct (O8 k Hk) as (a & Ha & Ea).
      destruct (Hfrom x Hx) as (b & Hb & Eb). apply (F7 b); [in_app|]. apply elem_of_ids. exists a. split; [done|].
      apply bare_id in Ea, Eb. congruence.
    + rewrite C5. eapply NoDup_ids_sub; [apply sublist_submseteq, sublist_filter|]. rewrite (bare_ids _ _ Hbare).
      eapply NoDup_ids_sub; [exact Hkept|]. destruct HR as [keys [H1 _ _ _ _]].
      eapply NoDup_ids_sub; [by apply sublist_submseteq|done].
  - intros k [Hk|Hk]%elem_of_app; [destruct (O8 k Hk) as (a & ? & ?)|destruct (Hfrom k Hk) as (a & ? & ?)];
      exists a; (split; [in_app|done]).
  - intros a [Ha|Ha]%elem_of_app Hx.
    + destruct (O9 a Ha Hx) as (k & ? & ?). exists k. split; [in_app|done].
    + destruct (C4 a Ha) as [HaU _]. assert (bare a ∈ bare <$> I) as (k & E & Hk)%list_elem_of_fmap.
      { rewrite Hbare. apply list_elem_of_fmap_2. by apply Hdirty. }
      exists k. split; [|done]. apply elem_of_app. right. apply Hi. split; [done|]. apply elem_of_ids. exists a.
      split; [done|]. by apply bare_id.
  - intros s [_ Hs]%list_elem_of_filter. by apply F4.
  - intros s Hs. rewrite idsOf_app, elem_of_app. intros [?|Hx]; [apply (F7 s); [in_app|done]|].
    apply (N2 (sp_ID s)); [done|]. apply elem_of_ids. eauto.
Qed.
Lemma commitChunk_ok c cs w :
  flushing (c :: cs) w ->
  (exists w', commitChunk true (addReplayedRows replayed c) w = (Some tt, w') /\ flushing cs w') \/
  (exists w', commitChunk true (addReplayedRows replayed c) w = (None, w') /\ stagingOK slow w').
Proof.
  intros HF. pose proof (fl_chunks _ _ HF) as [[[C1 C2 C3 C4 C5 C6] Hids] _]%Forall_cons.
  unfold commitChunk. cbn [addReplayedRows ch_part ch_interesting ch_traceIDs ch_spans].
  assert (forall gone, (forall w1, flushing (c :: cs) w1 -> forall s, s ∈ sg_rows w1 -> gone s = true ->
      s ∈ ch_spans c \/ (exists u, u ∈ ch_spans c /\ copyOf s u) \/ s ∈ sg_late w1) ->
    (forall s, s ∈ ch_spans c -> gone s = true) ->
    let m := _ ← dbCall (fun w => (tt, moveRows (ch_interesting c) gone w)); addBatch true (ch_spans c) in
    (exists w', m w = (Some tt, w') /\ flushing cs w') \/ (exists w', m w = (None, w') /\ stagingOK slow w')) as Hmove.
  { intros gone Hg Hall m.
    destruct (dbCall_spec (flushing (c :: cs)) (fun w => (tt, moveRows (ch_interesting c) gone w)) w
      (flushing_pop _) (fun w a => flushing_env _ w a) HF) as (w1 & H1 & [E|E]); unfold m, mbind, F_bind; rewrite E.
    - right. eexists. split; [done|]. apply (fl_ok _ _ H1).
    - left. eexists. split; [done|]. apply move_ok; [done|by apply Hg|done]. }
  unfold addPartIDs. destruct (ch_part c) as [p|] eqn:Ep; cbn [fmap option_fmap option_map tp_stagedIDs tp_key].
  - destruct C6 as (E1 & E2 & E3). unfold CommitStagingTracePart. set (more := mjoin _). rewrite E1.
    destruct (idsOf (ch_spans c) ++ more) as [|i l] eqn:El.
    { exfalso. apply app_eq_nil in El as [El _]. by apply fmap_nil_inv in El. }
    rewrite <- El. apply Hmove.
    + intros w1 [F1 F2 _ _ _ _ _] s Hs [Hi Ht]%andb_true_iff. apply bool_decide_eq_true in Hi, Ht.
      apply elem_of_app in Hi as [(x & Hx & Ex)%elem_of_ids|Hi].
      * left. assert (s = x) as ->; [|done]. eapply (NoDup_ids_inj (sg_entered w1)); [apply F1|by eapply elem_of_rows|apply F2, U_in_R; by apply C4|done].
      * right; left. apply list_elem_of_join in Hi as (li & Hi & (u & -> & Hu)%list_elem_of_fmap).
        destruct (replayed !! sp_ID u) as [lu|] eqn:Er; [|by apply not_elem_of_nil in Hi].
        destruct HR as [keys HK]. destruct (rp_from _ _ _ _ HK _ _ _ Er Hi) as (v & x & Hv & Ev & Hx & Ex & Hc).
        assert (v = u) as -> by (apply U_inj; [done|by apply C4|done]).
        assert (s = x) as ->; [|by exists u]. eapply (NoDup_ids_inj (sg_entered w1)); [apply F1|by eapply elem_of_rows|by apply F2|done].
    + intros s Hs. apply andb_true_iff. rewrite !bool_decide_eq_true. split; [apply elem_of_app; left; apply elem_of_ids; eauto|].
      destruct (C4 s Hs) as [_ Hx]. rewrite E3 in Hx. by apply list_elem_of_singleton in Hx.
  - unfold CommitStagingFlush. destruct (ch_traceIDs c) as [|id l] eqn:Ei; [done|]. rewrite <- Ei in *. apply Hmove.
    + intros w1 [F1 F2 _ F4 _ _ _] s Hs Ht. apply bool_decide_eq_true in Ht.
      destruct (F4 s Hs (Hids _ Ht)) as [Hr|?]; [|tauto]. destruct HR as [keys HK].
      destruct (rp_all _ _ _ _ HK s Hr) as [Hu|(u & lu & Hu & Hc & _)]; [left; by apply C6|].
      right; left. exists u. split; [|done]. apply C6; [done|]. destruct Hc as [Hk _]. unfold replayKey in Hk. congruence.
    + intros s Hs. apply bool_decide_eq_true. by apply C4.
Qed.

Lemma commitChunks_ok cs : forall w,
  flushing cs w ->
  (exists w', commitChunks true replayed cs w = (Some tt, w') /\ flushing [] w') \/
  (exists w', commitChunks true replayed cs w = (None, w') /\ stagingOK slow w').
Proof.
  induction cs as [|c cs IH]; intros w HF; [by left; exists w|]. cbn [commitChunks]. unfold mbind, F_bind.
  destruct (commitChunk_ok c cs w HF) as [(w1 & -> & H1)|(w1 & -> & H1)]; [by apply IH|]. right. by exists w1.
Qed.
End Commit.

(** ** Flushes *)

(** What a flush knows once it has classified what it read. *)
Record flushRead (slow : Z) (ids : list string) (R U I kept : list Span) (replayed : gmap Z (list Z)) : Prop := {
  fr_replay : exists keys, replayOK R keys U replayed;
  fr_R : NoDup (idsOf R);
  fr_of s : s ∈ R -> sp_TraceID s ∈ ids;
  fr_ids : NoDup ids;
  fr_kept : kept ⊆+ U;
  fr_bare : bare <$> I = bare <$> kept;
  fr_dirty s : s ∈ U -> dirtySpan slow s = true -> s ∈ kept;
}.

Lemma fr_U slow ids R U I kept replayed : flushRead slow ids R U I kept replayed -> NoDup (idsOf U).
Proof.
  intros [[keys [H1 _ _ _ _]] H2 _ _ _ _ _]. eapply NoDup_ids_sub; [by apply sublist_submseteq|done].
Qed.

Lemma fr_chunks slow ids R U I kept replayed :
  flushRead slow ids R U I kept replayed ->
  mjoin (ch_spans <$> stagingChunks ids U I stagingChunkRows) ≡ₚ U /\
  Forall (fun c => chunkOK U I stagingChunkRows c /\ forall id, id ∈ ch_traceIDs c -> id ∈ ids)
    (stagingChunks ids U I stagingChunkRows).
Proof.
  intros HR. pose proof HR as [[keys HK] F2 F3 F4 F5 F6 F7].
  destruct (chunks_spec U I stagingChunkRows) with (ids := ids) as [H1 H2]; [unfold stagingChunkRows; lia|by eapply fr_U| | |done|].
  - rewrite (bare_ids _ _ F6). eapply NoDup_ids_sub; [done|by eapply fr_U].
  - intros k Hk. assert (bare k ∈ bare <$> kept) as (x & E & Hx)%list_elem_of_fmap.
    { rewrite <- F6. by apply list_elem_of_fmap_2. }
    exists x. split_and!; [by eapply elem_of_submseteq|symmetry; by apply bare_id|].
    change (sp_TraceID (bare x) = sp_TraceID (bare k)). by rewrite E.
  - split; [|done]. rewrite H1, traces_perm by done. apply reflexive_eq, filter_all. intros s Hs.
    apply F3. by eapply elem_of_sublist; [|apply HK].
Qed.

Lemma sqlLimit_sublist {A} limit (l : list A) : sqlLimit limit l `sublist_of` l.
Proof. unfold sqlLimit. case_match; [done|apply sublist_take]. Qed.

Section Flush.
Context (scan : list Span -> list Span) (Hscan : forall l, scan l ≡ₚ l).
Context (c : StagingFlusherConfig).
Abbreviation slow := (fc_SlowThresholdUs c).

Lemma ready_spec cutoff limit w :
  stagingOK slow w ->
  (exists w1, ReadyStagingTraceIDs scan cutoff limit w = (None, w1) /\ stagingOK slow w1) \/
  (exists ids w1, ReadyStagingTraceIDs scan cutoff limit w = (Some ids, w1) /\ stagingOK slow w1 /\ NoDup ids /\
     forall id, id ∈ ids -> id ∈ sp_TraceID <$> sg_entered w1).
Proof.
  intros Hok. unfold ReadyStagingTraceIDs, readyIDs.
  match goal with |- context [dbCall ?f w] =>
    destruct (dbCall_spec (stagingOK slow) f w (pop_ok slow) (fun w a => runEnv_ok slow a w) Hok) as (w1 & H1 & [->| ->]) end;
    [by left; exists w1|]. right. eexists _, w1. split; [done|]. cbn [fst].
  match goal with |- context [merge_sort ?R ?l] => pose proof (merge_sort_Permutation R l) as Hp end.
  split_and!; [done| |].
  - eapply sublist_NoDup; [|apply sqlLimit_sublist]. rewrite Hp. apply NoDup_filter, NoDup_elements.
  - intros id Hid. eapply elem_of_sublist in Hid; [|apply sqlLimit_sublist]. rewrite Hp in Hid.
    apply list_elem_of_filter in Hid as [_ Hid%elem_of_elements%elem_of_list_to_set].
    apply list_elem_of_fmap in Hid as (s & -> & Hs). rewrite Hscan in Hs.
    apply list_elem_of_fmap_2. by eapply elem_of_rows.
Qed.

Lemma read_spec ids w :
  ids <> [] -> stagingOK slow w -> (forall id, id ∈ ids -> id ∈ sp_TraceID <$> sg_entered w) ->
  (exists w1, GetStagingSpansByTraceIDs scan ids w = (None, w1) /\ stagingOK slow w1) \/
  (exists R w1, GetStagingSpansByTraceIDs scan ids w = (Some R, w1) /\ stagingOK slow w1 /\
     (forall id, id ∈ ids -> id ∈ sp_TraceID <$> sg_entered w1) /\
     R ≡ₚ filter (fun s => sp_TraceID s ∈ ids) (sg_rows w1)).
Proof.
  intros Hne Hok Hids. unfold GetStagingSpansByTraceIDs. destruct ids as [|i l]; [done|]. set (ids := i :: l) in *.
  match goal with |- context [dbCall ?f w] =>
    destruct (dbCall_spec (fun w => stagingOK slow w /\ forall id, id ∈ ids -> id ∈ sp_TraceID <$> sg_entered w) f w)
      as (w1 & [H1 H2] & [->| ->]) end.
  - intros w0 [? ?]. split; [by apply pop_ok|done].
  - intros w0 a [H0 H]. split; [by apply runEnv_ok|]. intros id Hid%H. destruct a; cbn; [rewrite fmap_app; set_solver|done].
  - done.
  - left. by exists w1.
  - right. eexists _, w1. split_and!; [done|done|done|]. cbn [fst]. by rewrite Hscan.
Qed.

(** Classification starts the commits. *)
Lemma flush_starts ids R w intN now policy U replayed :
  stagingOK slow w -> NoDup ids -> (forall id, id ∈ ids -> id ∈ sp_TraceID <$> sg_entered w) ->
  R ≡ₚ filter (fun s => sp_TraceID s ∈ ids) (sg_rows w) -> dropReplayedSpans R = (U, replayed) ->
  exists I kept w', classifyStaged c intN now policy U w = (Some I, w') /\
    flushRead slow ids R U I kept replayed /\
    flushing slow R U I ids (stagingChunks ids U I stagingChunkRows) w'.
Proof.
  intros Hok Hn Hids HR Ed. unfold classifyStaged.
  destruct (classify_kept intN U slow (fc_BoringRetention c) now policy (sg_floor w) (sg_hourly w)) as (kept & K1 & K2 & K3).
  destruct (classifySpansForStorage _ _ _ _ _ _ _ _) as [I cl]. cbn [fst] in K3.
  exists I, kept. eexists. split; [done|].
  assert (forall s, s ∈ R -> s ∈ sg_rows w /\ sp_TraceID s ∈ ids) as Hin.
  { intros s Hs. rewrite HR in Hs. apply list_elem_of_filter in Hs. tauto. }
  assert (flushRead slow ids R U I kept replayed) as Hf.
  { destruct (replay_spec R) as [keys HK]. rewrite Ed in HK. split; [by exists keys| |by intros s [_ ?]%Hin|done|done|done|done].
    rewrite HR. eapply NoDup_ids_sub; [apply sublist_submseteq; etrans; [apply sublist_filter|apply (so_rows _ _ Hok)]|apply Hok]. }
  split; [done|]. destruct (fr_chunks _ _ _ _ _ _ _ Hf) as [C1 C2].
  destruct Hf as [[keys HK] F2 F3 F4 F5 F6 F7].
  assert (forall s, s ∈ R -> s ∈ sg_entered w) as He by (intros s [Hs _]%Hin; by eapply elem_of_rows).
  split; [by destruct Hok|done|done| |done| |].
  - intros s Hs Ht. left. rewrite HR. by apply list_elem_of_filter.
  - rewrite C1. eapply NoDup_ids_sub; [by apply sublist_submseteq, HK|done].
  - intros s Hs (a & Ha & E)%elem_of_ids. rewrite C1 in Hs. cbn [sg_added] in Ha.
    assert (s ∈ R) as HsR by (by eapply elem_of_sublist; [|apply HK]).
    destruct (so_added _ _ Hok a Ha) as [Hae Har]. apply Har.
    assert (a = s) as ->; [|by apply Hin]. eapply (NoDup_ids_inj (sg_entered w)); [apply Hok|done|by apply He|done].
Qed.

Lemma flushOnce_ok fi w : stagingOK slow w -> stagingOK slow (flushOnce scan c true fi w).2.
Proof.
  intros Hok. unfold flushOnce. unfold mbind at 1, F_bind at 1.
  destruct (ready_spec (fi_start fi - fc_Window c) (fc_BatchTraces c) w Hok) as [(w1 & -> & H1)|(ids & w1 & -> & H1 & Hn & Hids)];
    [done|]. case_bool_decide as Ei; [done|]. unfold mbind at 1, F_bind at 1.
  destruct (read_spec ids w1 Ei H1 Hids) as [(w2 & -> & H2)|(R & w2 & -> & H2 & Hids2 & HR)]; [done|].
  destruct (dropReplayedSpans R) as [U replayed] eqn:Ed. unfold mbind at 1, F_bind at 1.
  destruct (flush_starts ids R w2 (fi_intN fi) (fi_classify fi) (fi_policy fi) U replayed H2 Hn Hids2 HR Ed)
    as (I & kept & w3 & -> & Hf & HF). unfold mbind, F_bind. pose proof Hf as [G1 G2 _ _ G5 G6 G7].
  destruct (commitChunks_ok slow R U I kept ids replayed G1 G2 G5 G6 G7 _ w3 HF) as [(w4 & -> & H4)|(w4 & -> & H4)]; [|done].
  apply (fl_ok _ _ _ _ _ _ _ H4).
Qed.

Lemma flushTick_ok fis w : stagingOK slow w -> stagingOK slow (flushTick scan c true fis w).
Proof.
  unfold flushTick. generalize (take maxFlushIterationsPerTick fis). clear fis. intros fis. revert w.
  induction fis as [|fi fis IH]; intros w Hok; [done|]. cbn [flushTickLoop].
  pose proof (flushOnce_ok fi w Hok) as H1. destruct (flushOnce scan c true fi w) as [[n|] w1]; cbn [snd] in H1; [|done].
  destruct (_ <? _); [done|by apply IH].
Qed.

Lemma gcOnce_ok now oks w : stagingOK slow w -> stagingOK slow (gcOnce c now oks w).
Proof.
  unfold gcOnce, DeleteStagingOlderThan. generalize 0%nat, (S (length (sg_rows w))). intros total fuel. revert oks total w.
  induction fuel as [|fuel IH]; intros oks total w Hok; [done|]. cbn [collectLoop]. destruct (hd true oks); [|done].
  pose proof (collect_ok slow (now - fc_MaxAge c) w Hok) as H1. destruct (collectBatch _ w) as [n w1]. cbn [snd] in H1.
  destruct (_ <? _)%nat; [done|by apply IH].
Qed.
End Flush.

(** ** Runs *)

(** The worker stages a batch, the flusher's ticker fires, the collector's ticker fires. *)
Inductive stagingOp :=
  | OpStage (now : Z) (spans : list Span)
  | OpFlush (inputs : list flushInput) (calls : list (list envAction * bool))
  | OpCollect (now : Z) (oks : list bool).

Definition setCalls (calls : list (list envAction * bool)) (w : staging) : staging :=
  mkStaging (sg_rows w) (sg_nextID w) (sg_spans w) (sg_floor w) (sg_hourly w) (sg_added w) calls
    (sg_entered w) (sg_shed w) (sg_late w).

Definition runOp (scan : list Span -> list Span) (c : StagingFlusherConfig) (w : staging) (op : stagingOp) : staging :=
  match op with
  | OpStage now spans => InsertSpansStaging now spans w
  | OpFlush inputs calls => flushTick scan c true inputs (setCalls calls w)
  | OpCollect now oks => gcOnce c now oks w
  end.

Definition newStaging (floor hourly : option MinuteFloor) : staging := mkStaging [] 1 [] floor hourly [] [] [] [] [].

Definition runStaging (scan : list Span -> list Span) (c : StagingFlusherConfig) (floor hourly : option MinuteFloor)
  (ops : list stagingOp) : staging :=
  foldl (runOp scan c) (newStaging floor hourly) ops.

Lemma runOp_ok scan c op w :
  (forall l, scan l ≡ₚ l) -> stagingOK (fc_SlowThresholdUs c) w -> stagingOK (fc_SlowThresholdUs c) (runOp scan c w op).
Proof.
  intros Hs Hok. destruct op as [now spans|inputs calls|now oks]; cbn [runOp];
    [by apply stage_ok|apply flushTick_ok; [done|by destruct Hok]|by apply gcOnce_ok].
Qed.

Lemma runStaging_ok scan c floor hourly ops :
  (forall l, scan l ≡ₚ l) -> stagingOK (fc_SlowThresholdUs c) (runStaging scan c floor hourly ops).
Proof.
  intros Hs. unfold runStaging. induction ops as [|op ops IH] using rev_ind.
  - split; cbn; try by constructor. all: by intros s ?%not_elem_of_nil.
  - rewrite foldl_snoc. by apply runOp_ok.
Qed.

(** ** Flushes without interference *)

(** The rows a committed chunk deletes. *)
Definition goneBy (c : stagingChunk) (s : Span) : bool :=
  match ch_part c with
  | Some p => bool_decide (sp_ID s ∈ tp_stagedIDs p) && bool_decide (sp_TraceID s = (tp_key p).2)
  | None => bool_decide (sp_TraceID s ∈ ch_traceIDs c)
  end.

Lemma dbCall_quiet {A} (f : staging -> A * staging) w :
  sg_calls w = [] -> dbCall f w = (Some (f w).1, (f w).2).
Proof.
  intros E. assert (popCall w = w) as Ep by (destruct w; cbn in *; by subst). unfold dbCall. rewrite E. cbn.
  rewrite Ep. by destruct (f w).
Qed.

Lemma commitChunks_quiet replayed cs : forall w,
  sg_calls w = [] ->
  Forall (fun c => match ch_part c with Some p => tp_stagedIDs p <> [] | None => ch_traceIDs c <> [] end) cs ->
  exists w', commitChunks true replayed cs w = (Some tt, w') /\ sg_calls w' = [] /\
    sg_rows w' = filter (fun s => Forall (fun c => goneBy (addReplayedRows replayed c) s = false) cs) (sg_rows w) /\
    sg_added w' = sg_added w ++ mjoin (ch_spans <$> cs) /\ sg_spans w' = sg_spans w ++ mjoin (ch_interesting <$> cs).
Proof.
  induction cs as [|c cs IH]; intros w Hq Hne.
  { exists w. split_and!; [done|done| |by rewrite app_nil_r|by rewrite app_nil_r].
    symmetry. apply filter_all. intros s _. constructor. }
  apply Forall_cons in Hne as [Hc Hne]. cbn [commitChunks]. unfold mbind, F_bind.
  assert (exists w1, commitChunk true (addReplayedRows replayed c) w = (Some tt, w1) /\ sg_calls w1 = [] /\
    sg_rows w1 = filter (fun s => goneBy (addReplayedRows replayed c) s = false) (sg_rows w) /\
    sg_added w1 = sg_added w ++ ch_spans c /\ sg_spans w1 = sg_spans w ++ ch_interesting c) as (w1 & -> & Q1 & R1 & A1 & S1).
  { unfold commitChunk, goneBy. cbn [addReplayedRows ch_part ch_interesting ch_traceIDs ch_spans]. unfold addPartIDs.
    destruct (ch_part c) as [p|]; cbn [fmap option_fmap option_map tp_stagedIDs tp_key].
    - unfold CommitStagingTracePart. set (l := tp_stagedIDs p ++ _).
      destruct l as [|i k] eqn:El; [by apply app_eq_nil in El as [? _]|]. unfold mbind, F_bind.
      rewrite dbCall_quiet by done. eexists. split; [done|]. cbn. done.
    - unfold CommitStagingFlush. destruct (ch_traceIDs c) as [|i k]; [done|]. unfold mbind, F_bind.
      rewrite dbCall_quiet by done. eexists. split; [done|]. cbn. done. }
  destruct (IH w1 Q1 Hne) as (w2 & -> & Q2 & R2 & A2 & S2). exists w2. split_and!; [done|done| | |].
  - rewrite R2, R1, list_filter_filter. apply list_filter_iff. intros s. rewrite Forall_cons. tauto.
  - by rewrite A2, A1, <- (assoc_L app).
  - by rewrite S2, S1, <- (assoc_L app).
Qed.
