(* ===== verification/StagingExact.v ===== *)
(** * Properties of the staging flush

    Rows are handed over once and stored at most once under any interference; a flush that
    is left alone moves every ready trace, and a collection every old row; and a row that
    arrives for a trace while it is being flushed is lost. *)
From S2P Require Import Prelude Model Sampling Classify ClassifyProps Staging StagingChunks StagingProps.

(** ** Readiness *)

Lemma oldest_le rows s : s ∈ rows -> oldest rows (sp_TraceID s) <= ingestedNs s.
Proof.
  intros Hs. unfold oldest.
  assert (ingestedNs s ∈ ingestedNs <$> filter (fun x => sp_TraceID x = sp_TraceID s) rows) as Hi.
  { apply list_elem_of_fmap_2. by apply list_elem_of_filter. }
  destruct (ingestedNs <$> _) as [|t l]; [by apply not_elem_of_nil in Hi|].
  assert (forall l a, foldl Z.min a l <= a /\ forall x, x ∈ l -> foldl Z.min a l <= x) as Hm.
  { clear. induction l as [|y l IH]; intros a; cbn [foldl]; [split; [lia|by intros x ?%not_elem_of_nil]|].
    destruct (IH (Z.min a y)) as [H1 H2]. split; [lia|]. intros x [->|Hx]%elem_of_cons; [lia|by apply H2]. }
  destruct (Hm l t) as [H1 H2]. apply elem_of_cons in Hi as [->|Hi]; [done|by apply H2].
Qed.

Lemma oldest_attained rows id : id ∈ sp_TraceID <$> rows ->
  exists s, s ∈ rows /\ sp_TraceID s = id /\ ingestedNs s = oldest rows id.
Proof.
  intros (s0 & -> & Hs0)%list_elem_of_fmap. unfold oldest.
  assert (ingestedNs s0 ∈ ingestedNs <$> filter (fun x => sp_TraceID x = sp_TraceID s0) rows) as Hi.
  { apply list_elem_of_fmap_2. by apply list_elem_of_filter. }
  assert (forall x, x ∈ ingestedNs <$> filter (fun x => sp_TraceID x = sp_TraceID s0) rows ->
    exists s, s ∈ rows /\ sp_TraceID s = sp_TraceID s0 /\ ingestedNs s = x) as Hx.
  { intros x (s & -> & [? ?]%list_elem_of_filter)%list_elem_of_fmap. by exists s. }
  destruct (ingestedNs <$> _) as [|t l]; [by apply not_elem_of_nil in Hi|]. apply Hx.
  clear. revert t. induction l as [|y l IH]; intros t; cbn [foldl]; [by left|].
  destruct (Z.min_spec t y) as [[_ ->]|[_ ->]]; specialize (IH t) as I1; specialize (IH y) as I2; set_solver.
Qed.

(** A trace with a row older than the cutoff. *)
Definition ready (cutoff : Z) (rows : list Span) (id : string) : Prop :=
  exists s, s ∈ rows /\ sp_TraceID s = id /\ ingestedNs s < cutoff.

(** A trace with a row that no row of another is older than. *)
Definition notYounger (rows : list Span) (id id' : string) : Prop :=
  exists s, s ∈ rows /\ sp_TraceID s = id /\
    forall s', s' ∈ rows -> sp_TraceID s' = id' -> ingestedNs s <= ingestedNs s'.

Lemma ready_oldest cutoff rows id : ready cutoff rows id <-> id ∈ sp_TraceID <$> rows /\ oldest rows id < cutoff.
Proof.
  split.
  - intros (s & Hs & <- & Hc). split; [by apply list_elem_of_fmap_2|]. pose proof (oldest_le rows s Hs). lia.
  - intros [(s & Hs & E & Ho)%oldest_attained Hc]. exists s. split_and!; [done|done|lia].
Qed.

Lemma olderTrace_notYounger rows id id' : id ∈ sp_TraceID <$> rows -> olderTrace rows id id' -> notYounger rows id id'.
Proof.
  intros (s & Hs & E & Ho)%oldest_attained Hle. exists s. split_and!; [done|done|]. intros s' Hs' <-.
  pose proof (oldest_le rows s' Hs'). unfold olderTrace in Hle. lia.
Qed.

#[export] Instance olderTrace_trans rows : Transitive (olderTrace rows).
Proof. unfold olderTrace. intros a b c. lia. Qed.

#[export] Instance olderTrace_total rows : Total (olderTrace rows).
Proof. unfold olderTrace. intros a b. lia. Qed.

(** Ready traces, each once, as many as the limit allows and the oldest first. *)
Definition readySelection (cutoff limit : Z) (rows : list Span) (ids : list string) : Prop :=
  NoDup ids /\ (forall id, id ∈ ids -> ready cutoff rows id) /\
  (0 <= limit -> Z.of_nat (length ids) <= limit) /\
  (forall id, ready cutoff rows id -> id ∉ ids ->
     Z.of_nat (length ids) = limit /\ forall id', id' ∈ ids -> notYounger rows id' id).

Lemma readyIDs_selection cutoff limit rows : readySelection cutoff limit rows (readyIDs cutoff limit rows).
Proof.
  unfold readyIDs. set (all := filter _ _). pose proof (merge_sort_Permutation (olderTrace rows) all) as Hp.
  pose proof (StronglySorted_merge_sort (olderTrace rows) all) as Hs. set (l := merge_sort _ _) in *.
  assert (forall id, id ∈ l <-> ready cutoff rows id) as Hin.
  { intros id. rewrite Hp. unfold all. rewrite list_elem_of_filter, elem_of_elements, elem_of_list_to_set, ready_oldest. tauto. }
  assert (NoDup l) as Hd by (rewrite Hp; apply NoDup_filter, NoDup_elements).
  pose proof (sqlLimit_sublist limit l) as Hsub. split_and!.
  - by eapply sublist_NoDup.
  - intros id Hid. apply Hin. by eapply elem_of_sublist.
  - intros Hl. unfold sqlLimit. rewrite (proj2 (Z.ltb_ge limit 0)) by done. rewrite length_take. lia.
  - intros id Hr%Hin Hn. unfold sqlLimit in *. destruct (Z.ltb_spec limit 0) as [?|Hl]; [done|].
    assert (id ∈ drop (Z.to_nat limit) l) as Hdrop.
    { rewrite <- (take_drop (Z.to_nat limit) l), elem_of_app in Hr. tauto. }
    split.
    { rewrite length_take. destruct (Nat.le_gt_cases (length l) (Z.to_nat limit)) as [Hle|?]; [|lia].
      rewrite drop_ge in Hdrop by done. by apply not_elem_of_nil in Hdrop. }
    intros id' Hid'. apply olderTrace_notYounger.
    { eapply elem_of_sublist in Hid'; [|exact Hsub]. apply Hin, ready_oldest in Hid'. tauto. }
    rewrite <- (take_drop (Z.to_nat limit) l) in Hs. eapply StronglySorted_app_1_elem_of in Hs; eauto.
Qed.

Lemma readySelection_perm cutoff limit rows rows' ids :
  rows ≡ₚ rows' -> readySelection cutoff limit rows ids -> readySelection cutoff limit rows' ids.
Proof.
  intros Hp. unfold readySelection, ready, notYounger. setoid_rewrite Hp. done.
Qed.

Lemma ready_in cutoff limit rows id : id ∈ readyIDs cutoff limit rows -> id ∈ sp_TraceID <$> rows.
Proof.
  intros Hid. destruct (readyIDs_selection cutoff limit rows) as (_ & Hr & _). by apply Hr, ready_oldest in Hid as [? _].
Qed.

(** ** What a flush left alone does *)

(** Its chunks delete exactly the rows of the traces it read. *)
Lemma gone_iff slow ids R U I kept replayed s :
  flushRead slow ids R U I kept replayed -> (sp_TraceID s ∈ ids -> s ∈ R) ->
  Forall (fun c => goneBy (addReplayedRows replayed c) s = false) (stagingChunks ids U I stagingChunkRows) <->
  sp_TraceID s ∉ ids.
Proof.
  intros HR Hin. destruct (fr_chunks _ _ _ _ _ _ _ HR) as [C1 C2]. destruct HR as [[keys HK] F2 F3 F4 F5 F6 F7].
  rewrite Forall_forall in C2. rewrite Forall_forall. split.
  - intros Hg Hid. specialize (Hin Hid).
    assert (exists u, u ∈ U /\ (s = u \/ (copyOf s u /\ exists l, replayed !! sp_ID u = Some l /\ sp_ID s ∈ l)))
      as (u & Hu & Hs).
    { destruct (rp_all _ _ _ _ HK s Hin) as [?|(u & l & ? & ? & ? & ?)]; [exists s; tauto|exists u; eauto 10]. }
    rewrite <- C1 in Hu. apply list_elem_of_join in Hu as (l & Hu & (c & -> & Hc)%list_elem_of_fmap).
    destruct (C2 c Hc) as [[D1 D2 D3 D4 D5 D6] D7]. specialize (Hg c Hc). unfold goneBy in Hg.
    cbn [addReplayedRows ch_part ch_traceIDs] in Hg. unfold addPartIDs in Hg.
    assert (sp_TraceID s = sp_TraceID u) as Et by (destruct Hs as [->|[[Hk _] _]]; [done|unfold replayKey in Hk; congruence]).
    destruct (D4 u Hu) as [_ Hut]. destruct (ch_part c) as [p|]; cbn [fmap option_fmap option_map tp_stagedIDs tp_key] in Hg.
    + destruct D6 as (E1 & _ & E3). rewrite E3 in Hut. apply list_elem_of_singleton in Hut.
      rewrite (bool_decide_eq_true_2 (sp_TraceID s = _)), andb_true_r in Hg by congruence.
      apply bool_decide_eq_false in Hg. apply Hg. rewrite E1. apply elem_of_app.
      destruct Hs as [->|[_ (l & El & Hl)]]; [left; by apply list_elem_of_fmap_2|right].
      apply list_elem_of_join. exists l. split; [done|]. apply list_elem_of_fmap. exists u. by rewrite El.
    + apply bool_decide_eq_false in Hg. by rewrite Et in Hg.
  - intros Hid c Hc. destruct (C2 c Hc) as [[D1 D2 D3 D4 D5 D6] D7]. unfold goneBy.
    cbn [addReplayedRows ch_part ch_traceIDs]. unfold addPartIDs.
    destruct (ch_part c) as [p|]; cbn [fmap option_fmap option_map tp_stagedIDs tp_key].
    + destruct D6 as (E1 & _ & E3). apply andb_false_iff. right. apply bool_decide_eq_false. intros E.
      apply Hid, D7. rewrite E3, E. by left.
    + apply bool_decide_eq_false. by intros ?%D7.
Qed.

Lemma chunks_nonempty U I (ids : list string) cs :
  Forall (fun c => chunkOK U I stagingChunkRows c /\ forall id, id ∈ ch_traceIDs c -> id ∈ ids) cs ->
  Forall (fun c => match ch_part c with Some p => tp_stagedIDs p <> [] | None => ch_traceIDs c <> [] end) cs.
Proof.
  intros H. eapply Forall_impl; [exact H|]. intros c [[D1 D2 D3 D4 D5 D6] _]. cbn in D6. destruct (ch_part c) as [p|]; [|done].
  destruct D6 as (-> & E2 & _). by intros ?%fmap_nil_inv.
Qed.

(** Rows moved by a flush that is left alone: [U] is one row per key of the ready traces. *)
Lemma flush_quiet scan c fi w :
  (forall l, scan l ≡ₚ l) -> stagingOK (fc_SlowThresholdUs c) w -> sg_calls w = [] ->
  let ids := readyIDs (fi_start fi - fc_Window c) (fc_BatchTraces c) (scan (sg_rows w)) in
  exists w', flushOnce scan c true fi w = (Some (length ids), w') /\
  sg_rows w' = filter (fun s => sp_TraceID s ∉ ids) (sg_rows w) /\
  exists U, sg_added w' ≡ₚ sg_added w ++ U /\ NoDup (replayKey <$> keyed U) /\
    (forall u, u ∈ U -> u ∈ sg_rows w /\ sp_TraceID u ∈ ids) /\
    (forall s, s ∈ sg_rows w -> sp_TraceID s ∈ ids -> s ∈ U \/ exists u, u ∈ U /\ copyOf s u).
Proof.
  intros Hscan Hok Hq ids. unfold flushOnce, ReadyStagingTraceIDs. unfold mbind at 1, F_bind at 1.
  rewrite dbCall_quiet by done. cbn [fst snd]. fold ids.
  assert (forall id, id ∈ ids -> id ∈ sp_TraceID <$> sg_entered w) as Hids.
  { intros id Hid%ready_in. rewrite Hscan in Hid. apply list_elem_of_fmap in Hid as (s & -> & Hs).
    apply list_elem_of_fmap_2. by eapply elem_of_rows. }
  case_bool_decide as Ei.
  { exists w. cbn. rewrite Ei. split_and!; [done| |].
    - symmetry. apply filter_all. intros s _. apply not_elem_of_nil.
    - exists []. rewrite app_nil_r. split_and!; [done|constructor| |]; [by intros u ?%not_elem_of_nil|].
      by intros s _ ?%not_elem_of_nil. }
  unfold mbind at 1, F_bind at 1. unfold GetStagingSpansByTraceIDs. destruct ids as [|i l] eqn:El; [done|]. rewrite <- El in *.
  rewrite dbCall_quiet by done. cbn [fst snd]. set (R := filter _ (scan (sg_rows w))).
  assert (R ≡ₚ filter (fun s => sp_TraceID s ∈ ids) (sg_rows w)) as HR by (unfold R; by rewrite Hscan).
  destruct (dropReplayedSpans R) as [U replayed] eqn:Ed. unfold mbind at 1, F_bind at 1.
  destruct (flush_starts c ids R w (fi_intN fi) (fi_classify fi) (fi_policy fi) U replayed Hok
    (proj1 (readyIDs_selection _ _ _)) Hids HR Ed) as (I & kept & w3 & E3 & Hf & HF). rewrite E3.
  destruct (fr_chunks _ _ _ _ _ _ _ Hf) as [C1 C2].
  assert (sg_rows w3 = sg_rows w /\ sg_added w3 = sg_added w /\ sg_calls w3 = []) as (Er & Ea & Ec).
  { unfold classifyStaged in E3. destruct (classifySpansForStorage _ _ _ _ _ _ _ _). injection E3 as <- <-. done. }
  unfold mbind, F_bind.
  destruct (commitChunks_quiet replayed _ w3 Ec (chunks_nonempty U I ids _ C2)) as (w4 & -> & _ & R4 & A4 & _).
  cbn [mret F_ret fst snd]. exists w4. split_and!; [done| |].
  - rewrite R4, Er. apply filter_ext_in. intros s Hs. eapply gone_iff; [done|]. intros Ht. rewrite HR. by apply list_elem_of_filter.
  - exists U. rewrite A4, Ea, C1. destruct Hf as [[keys HK] F2 F3 F4 F5 F6 F7]. split_and!; [done|apply HK| |].
    + intros u Hu. assert (u ∈ R) as Hr by (by eapply elem_of_sublist; [|apply HK]). rewrite HR in Hr.
      apply list_elem_of_filter in Hr. tauto.
    + intros s Hs Ht. destruct (rp_all _ _ _ _ HK s) as [?|(u & lu & ? & ? & _)]; [|by left|right; by exists u].
      rewrite HR. by apply list_elem_of_filter.
Qed.

(** ** Collection *)

Definition old (cutoff : Z) (l : list Span) : list Span := filter (fun s => ingestedNs s < cutoff) l.

Lemma collectBatch_split cutoff w :
  NoDup (idsOf (sg_rows w)) ->
  let victims := take (Z.to_nat retentionDeleteBatch) (old cutoff (sg_rows w)) in
  let w' := (collectBatch cutoff w).2 in
  old cutoff (sg_rows w') = drop (Z.to_nat retentionDeleteBatch) (old cutoff (sg_rows w)) /\
  filter (fun s => ~ ingestedNs s < cutoff) (sg_rows w') = filter (fun s => ~ ingestedNs s < cutoff) (sg_rows w) /\
  sg_shed w' = sg_shed w ++ victims.
Proof.
  intros Hn victims w'. cbn [w' collectBatch snd sg_rows sg_shed]. fold (old cutoff (sg_rows w)). fold victims.
  change (sp_ID <$> victims) with (idsOf victims).
  assert (forall s, s ∈ sg_rows w -> sp_ID s ∈ idsOf victims <-> s ∈ victims) as Hid.
  { intros s Hs. split; [|intros ?; apply elem_of_ids; eauto]. intros (v & Hv & E)%elem_of_ids.
    assert (s = v) as ->; [|done]. eapply (NoDup_ids_inj (sg_rows w)); [done|done| |done].
    eapply elem_of_sublist; [exact Hv|]. etrans; [apply sublist_take|apply sublist_filter]. }
  split_and!; [| |done].
  - unfold old at 1. rewrite list_filter_filter.
    rewrite (filter_ext_in _ (fun s => s ∉ victims /\ ingestedNs s < cutoff)).
    2:{ intros s Hs. rewrite (Hid s Hs). tauto. }
    rewrite <- list_filter_filter. fold (old cutoff (sg_rows w)).
    assert (NoDup (old cutoff (sg_rows w))) as Hno by (apply NoDup_filter; by apply NoDup_of_ids).
    rewrite <- (take_drop (Z.to_nat retentionDeleteBatch) (old cutoff (sg_rows w))) in Hno.
    rewrite <- (take_drop (Z.to_nat retentionDeleteBatch) (old cutoff (sg_rows w))) at 1.
    apply NoDup_app in Hno as (_ & Hd & _). rewrite filter_app. fold victims in Hd |- *.
    rewrite (filter_all _ (drop _ _)).
    + assert (filter (fun s => s ∉ victims) victims = []) as ->; [|done].
      destruct (filter (fun s => s ∉ victims) victims) as [|x l] eqn:E; [done|].
      assert (x ∈ filter (fun s => s ∉ victims) victims) as [? ?]%list_elem_of_filter by (rewrite E; by left). done.
    + intros s Hs Hv. by apply (Hd s).
  - rewrite list_filter_filter. apply filter_ext_in. intros s Hs. rewrite (Hid s Hs). split; [tauto|].
    intros Hy. split; [done|]. intros Hv. eapply elem_of_sublist in Hv; [|apply sublist_take].
    by apply list_elem_of_filter in Hv as [? _].
Qed.

Lemma collectLoop_exact cutoff fuel : forall total w,
  NoDup (idsOf (sg_rows w)) -> (length (old cutoff (sg_rows w)) < fuel)%nat ->
  exists w', collectLoop fuel cutoff [] total w = (Some (total + length (old cutoff (sg_rows w)))%nat, w') /\
    sg_rows w' = filter (fun s => ~ ingestedNs s < cutoff) (sg_rows w) /\
    sg_shed w' = sg_shed w ++ old cutoff (sg_rows w).
Proof.
  induction fuel as [|fuel IH]; intros total w Hn Hf; [lia|]. cbn [collectLoop hd tl].
  destruct (collectBatch_split cutoff w Hn) as (B1 & B2 & B3). unfold old in B3 at 1.
  assert ((collectBatch cutoff w).1 = length (take (Z.to_nat retentionDeleteBatch) (old cutoff (sg_rows w)))) as En by done.
  assert (NoDup (idsOf (sg_rows (collectBatch cutoff w).2))) as Hn1.
  { eapply NoDup_ids_sub; [|exact Hn]. apply sublist_submseteq. cbn. apply sublist_filter. }
  destruct (collectBatch cutoff w) as [n w1]. cbn [fst snd] in *.
  set (b := Z.to_nat retentionDeleteBatch) in *. assert (b = 1000%nat) as Eb by done. clearbody b.
  rewrite length_take in En. fold (old cutoff (sg_rows w)) in B3. destruct (n <? b)%nat eqn:E; to_prop.
  - apply Nat.ltb_lt in E. exists w1. rewrite En. split_and!.
    + do 3 f_equal. lia.
    + rewrite <- B2. symmetry. apply filter_all. intros s Hs Ho.
      assert (s ∈ old cutoff (sg_rows w1)) as Hx by (by apply list_elem_of_filter).
      rewrite B1, drop_ge in Hx by lia. by apply not_elem_of_nil in Hx.
    + rewrite B3, take_ge by lia. done.
  - apply Nat.ltb_ge in E. assert (length (old cutoff (sg_rows w1)) + b = length (old cutoff (sg_rows w)))%nat as El.
    { rewrite B1, length_drop. lia. }
    destruct (IH (total + n)%nat w1 Hn1) as (w2 & -> & R2 & S2); [lia|]. exists w2. split_and!.
    + do 2 f_equal. lia.
    + by rewrite R2, B2.
    + rewrite S2, B3, B1, <- (assoc_L app), take_drop. done.
Qed.

(** ** Properties *)

Definition demoFlusher : StagingFlusherConfig := NewStagingFlusher (mkFlusherConfig 0 0 0 0 0 1000 0).

Definition demoFlush : flushInput := mkFlushInput (100 * second) (100 * second) None (fun _ _ => 0).

Definition demoStaged (trace span status : string) (dur : Z) : Span :=
  mkSpan 0 1 trace span "" "GET /" "api" "" "server" status 0 dur "{}" "[]" None None false 1.

(** A trace of two spans, one of them staged twice; a flush whose commit fails, and one
    that does not. *)
Definition demoOps : list stagingOp :=
  [OpStage 0 [demoStaged "t" "a" "ok" 5; demoStaged "t" "b" "error" 5; demoStaged "t" "a" "ok" 5];
   OpFlush [demoFlush] [([], true); ([], true); ([], false)];
   OpFlush [demoFlush] []].

(** C11: staged rows are handed over and stored at most once.  Whatever is staged, flushed
    and collected, with calls of a flush failing anywhere and other goroutines staging and
    collecting between them: no row is handed to the accumulator twice, and one that was has
    left staging; every row ever staged is in staging, was handed over, repeats a row that
    was, was collected for its age, or arrived during a flush for a trace staged before; and
    the stored spans are rows handed over, each stored once, with every error and slow
    row handed over among them. *)
Theorem staging_once scan c floor hourly ops :
  (forall l, scan l ≡ₚ l) ->
  let w := runStaging scan c floor hourly ops in
  NoDup (idsOf (sg_added w)) /\
  (forall a, a ∈ sg_added w -> a ∈ sg_entered w /\ a ∉ sg_rows w) /\
  (forall s, s ∈ sg_entered w -> s ∈ sg_rows w \/ s ∈ sg_added w \/
     (exists a, a ∈ sg_added w /\ copyOf s a) \/ s ∈ sg_shed w \/ s ∈ sg_late w) /\
  NoDup (idsOf (sg_spans w)) /\
  (forall k, k ∈ sg_spans w -> exists a, a ∈ sg_added w /\ bare k = bare a) /\
  (forall a, a ∈ sg_added w -> sp_Status a = "error"%string \/ fc_SlowThresholdUs c < sp_DurationUs a ->
     exists k, k ∈ sg_spans w /\ bare k = bare a).
Proof.
  intros Hs w. destruct (runStaging_ok scan c floor hourly ops Hs) as [O1 O2 O3 O4 O5 O6 O7 O8 O9].
  split_and!; try done. intros a Ha Hd. apply O9; [done|]. unfold dirtySpan. apply orb_true_iff.
  destruct Hd as [Hd|Hd]; [left; by apply bool_decide_eq_true|right; to_prop; lia].
Qed.

Lemma staging_once_witness :
  (idsOf (sg_added (runStaging (fun l => l) demoFlusher None None demoOps)) = [1; 2] /\
   idsOf (sg_spans (runStaging (fun l => l) demoFlusher None None demoOps)) = [1; 2]) /\
  NoDup (idsOf (sg_added (runStaging (fun l => l) demoFlusher None None demoOps))).
Proof.
  split; [split; vm_compute; reflexivity|].
  exact (proj1 (staging_once (fun l => l) demoFlusher None None demoOps (fun l => Permutation_refl l))).
Defined.

(** C32: a flush that is left alone moves the ready traces.  In any reachable state, when no
    call fails and nobody interferes, it picks traces that have a row older than the window,
    each once and no more than the batch size, and leaves such a trace only when the batch
    is full and every trace picked has a row that is at least as old; it answers their
    number; exactly their rows leave staging; what the accumulator receives are those
    rows without repeats; and when the number is below the batch size, only rows younger
    than the window are left. *)
Theorem flush_moves_ready scan c floor hourly ops fi :
  (forall l, scan l ≡ₚ l) ->
  let w := setCalls [] (runStaging scan c floor hourly ops) in
  let cutoff := fi_start fi - fc_Window c in
  exists (ids : list string) w' U, readySelection cutoff (fc_BatchTraces c) (sg_rows w) ids /\
    flushOnce scan c true fi w = (Some (length ids), w') /\
    sg_rows w' = filter (fun s => sp_TraceID s ∉ ids) (sg_rows w) /\
    sg_added w' ≡ₚ sg_added w ++ U /\ NoDup (replayKey <$> keyed U) /\
    (forall u, u ∈ U -> u ∈ sg_rows w /\ sp_TraceID u ∈ ids) /\
    (forall s, s ∈ sg_rows w -> sp_TraceID s ∈ ids -> s ∈ U \/ exists u, u ∈ U /\ copyOf s u) /\
    (Z.of_nat (length ids) < fc_BatchTraces c -> forall s, s ∈ sg_rows w' -> cutoff <= ingestedNs s).
Proof.
  intros Hs w cutoff. assert (stagingOK (fc_SlowThresholdUs c) w) as Hok by by destruct (runStaging_ok scan c floor hourly ops Hs).
  destruct (flush_quiet scan c fi w Hs Hok eq_refl) as (w' & E & Hr & U & H1 & H2 & H3 & H4).
  pose proof (readySelection_perm _ _ _ _ _ (Hs (sg_rows w))
    (readyIDs_selection cutoff (fc_BatchTraces c) (scan (sg_rows w)))) as Hsel.
  change (fi_start fi - fc_Window c) with cutoff in E, Hr, H3, H4. set (ids := readyIDs _ _ _) in *. exists ids, w', U. split_and!; try done.
  intros Hl s Hx. rewrite Hr in Hx. apply list_elem_of_filter in Hx as [Hn Hx].
  destruct (Z.le_gt_cases cutoff (ingestedNs s)) as [?|Hc]; [done|]. exfalso.
  destruct Hsel as (_ & _ & _ & Hrest). destruct (Hrest (sp_TraceID s)) as [? _]; [by exists s|done|lia].
Qed.

Lemma flush_moves_ready_witness :
  let w := setCalls [] (runStaging (fun l => l) demoFlusher None None (take 2 demoOps)) in
  idsOf (sg_rows w) = [1; 2; 3] /\
  exists (ids : list string) w', flushOnce (fun l => l) demoFlusher true demoFlush w = (Some (length ids), w') /\
    sg_rows w' = filter (fun s => sp_TraceID s ∉ ids) (sg_rows w).
Proof.
  split; [vm_compute; reflexivity|].
  destruct (flush_moves_ready (fun l => l) demoFlusher None None (take 2 demoOps) demoFlush (fun l => Permutation_refl l))
    as (ids & w' & U & _ & E & Hr & _).
  exists ids, w'. split; [exact E|exact Hr].
Defined.

Lemma kept_join (I : list Span) cs :
  NoDup (idsOf (mjoin (ch_spans <$> cs))) ->
  Forall (fun c => ch_interesting c ≡ₚ filter (fun k => sp_ID k ∈ idsOf (ch_spans c)) I) cs ->
  mjoin (ch_interesting <$> cs) ≡ₚ filter (fun k => sp_ID k ∈ idsOf (mjoin (ch_spans <$> cs))) I.
Proof.
  induction cs as [|c cs IH]; intros Hn Hf.
  { cbn. clear. induction I as [|k I IH]; [done|]. rewrite filter_cons_False by apply not_elem_of_nil. done. }
  apply Forall_cons in Hf as [Hc Hf]. rewrite !fmap_cons in *. change (mjoin (?x :: ?k)) with (x ++ mjoin k) in *.
  rewrite idsOf_app in Hn. apply NoDup_app in Hn as (_ & Hd & Hn). rewrite IH, Hc by done.
  rewrite filter_or_perm by (intros k _; apply Hd). apply reflexive_eq, list_filter_iff. intros k.
  by rewrite idsOf_app, elem_of_app.
Qed.

(** Chunks cut what a flush moves without loss and within the cap.  For rows with
    distinct ids of distinct traces, however they are classified: the chunks hold every row
    left after replays once and every span kept once, each chunk has at most 300 of them and
    counts them right, a chunk of whole traces holds all rows of its traces, and a part
    names exactly the rows it holds. *)
Theorem chunks_exact ids R intN slow retention now policy floor hourly :
  NoDup ids -> NoDup (idsOf R) -> (forall s, s ∈ R -> sp_TraceID s ∈ ids) ->
  let U := (dropReplayedSpans R).1 in
  let I := (classifySpansForStorage intN U slow retention now policy floor hourly).1 in
  let chunks := stagingChunks ids U I stagingChunkRows in
  mjoin (ch_spans <$> chunks) ≡ₚ U /\ mjoin (ch_interesting <$> chunks) ≡ₚ I /\
  forall c, c ∈ chunks ->
    ch_rows c = (length (ch_spans c) + length (ch_interesting c))%nat /\ (ch_rows c <= 300)%nat /\
    match ch_part c with
    | None => forall s, s ∈ U -> sp_TraceID s ∈ ch_traceIDs c -> s ∈ ch_spans c
    | Some p => tp_stagedIDs p = idsOf (ch_spans c) /\ forall s, s ∈ ch_spans c -> sp_TraceID s = (tp_key p).2
    end.
Proof.
  intros Hn HR Hids U I chunks. destruct (classify_kept intN U slow retention now policy floor hourly) as (kept & K1 & K2 & K3).
  fold I in K3. destruct (replay_spec R) as [keys HK]. fold U in HK.
  assert (flushRead slow ids R U I kept (dropReplayedSpans R).2) as Hf by (split; [by exists keys|done..]).
  destruct (fr_chunks _ _ _ _ _ _ _ Hf) as [C1 C2]. fold chunks in C1, C2. split_and!; [done| |].
  - rewrite kept_join with (I := I).
    + apply reflexive_eq, filter_all. intros k Hk. rewrite C1, elem_of_ids.
      assert (bare k ∈ bare <$> kept) as (x & E & Hx)%list_elem_of_fmap by (rewrite <- K3; by apply list_elem_of_fmap_2).
      exists x. split; [by eapply elem_of_submseteq|]. symmetry. by apply bare_id.
    + rewrite C1. by eapply fr_U.
    + eapply Forall_impl; [exact C2|]. intros c [Hc _]. apply Hc.
  - intros c Hc. rewrite Forall_forall in C2. destruct (C2 c Hc) as [[D1 D2 D3 D4 D5 D6] _].
    split_and!; [done|exact D2|]. destruct (ch_part c) as [p|]; [|done]. destruct D6 as (E1 & _ & E3). split; [done|].
    intros s [_ Hs]%D4. rewrite E3 in Hs. by apply list_elem_of_singleton in Hs.
Qed.

Lemma chunks_exact_witness :
  let R := stagedRows 1 0 [demoStaged "t" "a" "ok" 5; demoStaged "u" "b" "error" 5; demoStaged "t" "a" "ok" 5] in
  let U := (dropReplayedSpans R).1 in
  let I := (classifySpansForStorage (fun _ _ => 0) U 1000 0 0 None None None).1 in
  length I = 1%nat /\ mjoin (ch_interesting <$> stagingChunks ["t"; "u"]%string U I stagingChunkRows) ≡ₚ I.
Proof.
  intros R U I. split; [vm_compute; reflexivity|].
  apply (chunks_exact ["t"; "u"]%string R (fun _ _ => 0) 1000 0 0 None None None).
  - apply (bool_decide_unpack _). vm_compute. exact Logic.I.
  - apply (bool_decide_unpack _). vm_compute. exact Logic.I.
  - apply Forall_forall. apply (bool_decide_unpack _). vm_compute. exact Logic.I.
Defined.

(** Collection bounds the age of staged rows.  In any reachable state a collection whose
    statements succeed takes exactly the rows older than the maximum age, however many
    batches that needs. *)
Theorem collection_exact scan c floor hourly ops now :
  (forall l, scan l ≡ₚ l) ->
  let w := runStaging scan c floor hourly ops in
  let w' := gcOnce c now [] w in
  sg_rows w' = filter (fun s => ~ ingestedNs s < now - fc_MaxAge c) (sg_rows w) /\
  sg_shed w' = sg_shed w ++ filter (fun s => ingestedNs s < now - fc_MaxAge c) (sg_rows w).
Proof.
  intros Hs w w'. pose proof (runStaging_ok scan c floor hourly ops Hs) as Hok. fold w in Hok.
  destruct (collectLoop_exact (now - fc_MaxAge c) (S (length (sg_rows w))) 0 w) as (w2 & E & Hr & Hd).
  - eapply NoDup_ids_sub; [apply sublist_submseteq, Hok|apply Hok].
  - pose proof (length_filter (fun s => ingestedNs s < now - fc_MaxAge c) (sg_rows w)). unfold old. lia.
  - unfold w', gcOnce, DeleteStagingOlderThan. rewrite E. done.
Qed.

Lemma collection_exact_witness :
  let w := runStaging (fun l => l) demoFlusher None None (take 2 demoOps) in
  idsOf (sg_shed (gcOnce demoFlusher (3600 * second) [] w)) = [1; 2; 3] /\
  sg_shed (gcOnce demoFlusher (3600 * second) [] w) =
    sg_shed w ++ filter (fun s => ingestedNs s < 3600 * second - fc_MaxAge demoFlusher) (sg_rows w).
Proof.
  split; [vm_compute; reflexivity|].
  exact (proj2 (collection_exact (fun l => l) demoFlusher None None (take 2 demoOps) (3600 * second) (fun l => Permutation_refl l))).
Defined.

(** A row that arrives for a trace while that trace is being flushed can be lost.  The
    flush reads the trace, then an error span of it is staged, then the commit deletes
    every row of the trace: the span is neither staged nor stored, was not collected,
    and the accumulator never saw it. *)
Theorem late_span_lost :
  exists w s, w = runStaging (fun l => l) demoFlusher None None
      [OpStage 0 [demoStaged "t" "a" "ok" 5];
       OpFlush [demoFlush] [([], true); ([], true); ([EnvStage (99 * second) [demoStaged "t" "b" "error" 5]], true)]] /\
    s ∈ sg_entered w /\ sp_Status s = "error"%string /\
    s ∉ sg_rows w /\ s ∉ sg_added w /\ s ∉ sg_shed w /\ sp_ID s ∉ idsOf (sg_spans w).
Proof.
  eexists _, (stagedRow 2 (99 * second) (demoStaged "t" "b" "error" 5)). split; [vm_compute; reflexivity|].
  cbn [sg_entered sg_rows sg_added sg_shed sg_spans]. split_and!; [|done|..]; apply (bool_decide_unpack _); vm_compute; exact I.
Qed.
