(* ===== verification/RedisQueue.v ===== *)
(** * The write queue ([internal/queue/redis_queue.go], [batch.go])

    Batches of records wait on Redis lists.  A consumer moves a batch to a processing list
    and removes it from there once it is handled, so that a reply that gets lost or a writer
    that dies leaves the batch where [reclaim] finds it.  Redis is an interface: what the
    queue needs of its list commands.  Every command has an outcome, before which other
    clients may push; JSON is a pair of parameters. *)
From S2P Require Import Prelude Model.

(** ** The list commands *)

Inductive side := LEFT | RIGHT.

(** The lists of a server, each from left to right. *)
Definition lists : Type := string -> list string.

Definition put (key : string) (l : list string) (s : lists) : lists :=
  fun k => if bool_decide (k = key) then l else s k.

Definition pushSide (to : side) (x : string) (l : list string) : list string :=
  match to with LEFT => x :: l | RIGHT => l ++ [x] end.

Definition popRight (l : list string) : option (list string * string) :=
  match last l with Some x => Some (removelast l, x) | None => None end.

(** Drops the first element equal to [x]. *)
Fixpoint removeFirst (x : string) (l : list string) : list string :=
  match l with
  | [] => []
  | y :: l => if bool_decide (y = x) then l else y :: removeFirst x l
  end.

(** What the queue needs of a Redis server: LPUSH, LMOVE from the right end, and LREM with
    count 1, as documented. *)
Class RedisServer (R : Type) := {
  rd_lists : R -> lists;
  rd_LPush : string -> string -> R -> R;
  rd_LMove : string -> string -> side -> R -> option string * R;
  rd_LRem : string -> string -> R -> R;
  rd_LPush_spec key x r k : rd_lists (rd_LPush key x r) k = put key (x :: rd_lists r key) (rd_lists r) k;
  rd_LMove_spec src dst to r :
    match popRight (rd_lists r src) with
    | None => rd_LMove src dst to r = (None, r)
    | Some (rest, x) => exists r', rd_LMove src dst to r = (Some x, r') /\
        forall k, rd_lists r' k =
          (let s := put src rest (rd_lists r) in put dst (pushSide to x (s dst)) s) k
    end;
  rd_LRem_spec key x r k : rd_lists (rd_LRem key x r) k = put key (removeFirst x (rd_lists r key)) (rd_lists r) k;
}.

(** A server that keeps its lists in a map. *)
Definition mapLists (m : gmap string (list string)) : lists := fun k => default [] (m !! k).

Lemma mapLists_insert key l m k : mapLists (<[key := l]> m) k = put key l (mapLists m) k.
Proof.
  unfold mapLists, put. case_bool_decide as E; [by rewrite E, lookup_insert_eq|by rewrite lookup_insert_ne].
Qed.

#[export] Program Instance mapServer : RedisServer (gmap string (list string)) := {
  rd_lists := mapLists;
  rd_LPush key x m := <[key := x :: mapLists m key]> m;
  rd_LMove src dst to m :=
    match popRight (mapLists m src) with
    | None => (None, m)
    | Some (rest, x) =>
        let m := <[src := rest]> m in
        (Some x, <[dst := pushSide to x (mapLists m dst)]> m)
    end;
  rd_LRem key x m := <[key := removeFirst x (mapLists m key)]> m;
}.
Next Obligation. intros. apply mapLists_insert. Qed.
Next Obligation.
  intros src dst to m. cbn. destruct (popRight (mapLists m src)) as [[rest x]|]; [|done].
  eexists. split; [done|]. intros k. rewrite !mapLists_insert. unfold put at 1 3.
  case_bool_decide; [done|apply mapLists_insert].
Qed.
Next Obligation. intros. apply mapLists_insert. Qed.

(** ** Commands with outcomes *)

(** A command and its reply arrive, the reply is lost, or the command never arrives. *)
Inductive cmdOutcome := Replied | ReplyLost | NotSent.

(** What other clients push before a command. *)
Record event := mkEvent { ev_pushes : list (string * string); ev_outcome : cmdOutcome }.

Section Queue.
Context {R : Type} `{RedisServer R}.

(** A connection: the server, the commands to come, and every item ever pushed. *)
Record conn := mkConn { cn_redis : R; cn_events : list event; cn_pushed : list (string * string) }.

Definition pushOne (c : conn) (kx : string * string) : conn :=
  mkConn (rd_LPush kx.1 kx.2 (cn_redis c)) (cn_events c) (cn_pushed c ++ [kx]).

(** A command [f] that also logs what it pushes; [None] is an error. *)
Definition command {A} (f : conn -> A * conn) (c : conn) : option A * conn :=
  let ev := hd (mkEvent [] Replied) (cn_events c) in
  let c := foldl pushOne (mkConn (cn_redis c) (tl (cn_events c)) (cn_pushed c)) (ev_pushes ev) in
  match ev_outcome ev with
  | Replied => let '(a, c) := f c in (Some a, c)
  | ReplyLost => (None, (f c).2)
  | NotSent => (None, c)
  end.

Definition LPush (key x : string) : conn -> option unit * conn :=
  command (fun c => (tt, pushOne c (key, x))).

Definition LMove (src dst : string) (to : side) : conn -> option (option string) * conn :=
  command (fun c => let '(x, r) := rd_LMove src dst to (cn_redis c) in (x, mkConn r (cn_events c) (cn_pushed c))).

Definition LRem (key x : string) : conn -> option unit * conn :=
  command (fun c => (tt, mkConn (rd_LRem key x (cn_redis c)) (cn_events c) (cn_pushed c))).

(** ** The batch queue *)

Section Records.
Context {T : Type} (marshal : list T -> string) (unmarshal : string -> option (list T)).

(** [publishBatch]: items of up to [batchSize] records, until a push fails; the records are
    fuel enough.  The key of an item may depend on when it is reached, told by the number
    of records left. *)
Fixpoint publishLoop (fuel batchSize : nat) (key : nat -> list T -> string) (records : list T) (c : conn) : bool * conn :=
  match fuel, records with
  | S fuel, _ :: _ =>
      let chunk := take batchSize records in
      match LPush (key (length records) chunk) (marshal chunk) c with
      | (None, c) => (false, c)
      | (Some _, c) => publishLoop fuel batchSize key (drop batchSize records) c
      end
  | _, _ => (true, c)
  end.

Definition publishBatch (key : string) (batchSize : nat) (records : list T) (c : conn) : bool * conn :=
  publishLoop (length records) batchSize (fun _ _ => key) records c.

(** What a consume returns: an item with its records, nothing, or an error. *)
Inductive claimed :=
  | Batch (raw : string) (records : list T)
  | NoBatch
  | ConsumeError.

(** [RedisQueue.ack] *)
Definition ack (processingKey raw : string) (c : conn) : bool * conn :=
  let '(r, c) := LRem processingKey raw c in (bool_decide (is_Some r), c).

(** [decodeClaim], after the claim of the item. *)
Definition decodeClaim (processingKey raw : string) (c : conn) : claimed * conn :=
  match unmarshal raw with
  | Some records => (Batch raw records, c)
  | None => let '(_, c) := LRem processingKey raw c in (ConsumeError, c)
  end.

(** [BatchQueue.Consume] of a queue and its processing list. *)
Definition BatchQueue_Consume (key processingKey : string) (c : conn) : claimed * conn :=
  match LMove key processingKey LEFT c with
  | (None, c) => (ConsumeError, c)
  | (Some None, c) => (NoBatch, c)
  | (Some (Some raw), c) => decodeClaim processingKey raw c
  end.

(** [RedisQueue.reclaim]: the batches and records it moved, and whether it ended without
    an error; every turn takes an item, so the items on the list are fuel enough. *)
Fixpoint reclaimLoop (fuel : nat) (processingKey queueKey : string) (batches records : nat) (c : conn)
  : nat * nat * bool * conn :=
  match fuel with
  | O => (batches, records, true, c)
  | S fuel =>
      match LMove processingKey queueKey RIGHT c with
      | (None, c) => (batches, records, false, c)
      | (Some None, c) => (batches, records, true, c)
      | (Some (Some raw), c) =>
          reclaimLoop fuel processingKey queueKey (S batches)
            (records + from_option length 0 (unmarshal raw))%nat c
      end
  end.

Definition reclaim (processingKey queueKey : string) (c : conn) : nat * nat * bool * conn :=
  reclaimLoop (S (length (rd_lists (cn_redis c) processingKey))) processingKey queueKey 0 0 c.
End Records.

(** ** The span queues *)

Context (marshal : list SpanRecord -> string) (unmarshal : string -> option (list SpanRecord)).

(** [WriteQueueRecentKey], [WriteQueueBacklogKey] and [WriteQueueProcessingKey] *)
Definition WriteQueueRecentKey : string := "spanbarn:write-queue:recent".

Definition WriteQueueBacklogKey : string := "spanbarn:write-queue".

Definition WriteQueueProcessingKey : string := "spanbarn:write-queue:processing".

(** [maxRecordsPerItem], [ReclaimDelay] and [RecentThreshold] *)
Definition maxRecordsPerItem : nat := 500.

Definition ReclaimDelay : Z := 2 * minute.

Definition RecentThreshold : Z := 5 * minute.

(** The queue of a chunk in [RedisQueue.Publish]. *)
Definition publishKey (now : Z) (chunk : list SpanRecord) : string :=
  let maxStart := foldl (fun m r => if m <? sr_StartTimeUs r then sr_StartTimeUs r else m) 0 chunk in
  if (0 <? maxStart) && (sat64 (now - maxStart * 1000) <? RecentThreshold) then WriteQueueRecentKey
  else WriteQueueBacklogKey.

(** [RedisQueue.Publish]; [now] is the clock at each item. *)
Definition Publish (now : nat -> Z) (records : list SpanRecord) (c : conn) : bool * conn :=
  publishLoop marshal (length records) maxRecordsPerItem (fun left => publishKey (now left)) records c.

(** [RedisQueue.claim]: the recent queue, the backlog, and then the recent queue again,
    blocking. *)
Definition claim (c : conn) : option (option string) * conn :=
  match LMove WriteQueueRecentKey WriteQueueProcessingKey LEFT c with
  | (Some None, c) =>
      match LMove WriteQueueBacklogKey WriteQueueProcessingKey LEFT c with
      | (Some None, c) => LMove WriteQueueRecentKey WriteQueueProcessingKey LEFT c
      | r => r
      end
  | r => r
  end.

(** [RedisQueue.Consume] *)
Definition Consume (c : conn) : claimed * conn :=
  match claim c with
  | (None, c) => (ConsumeError, c)
  | (Some None, c) => (NoBatch, c)
  | (Some (Some raw), c) => decodeClaim unmarshal WriteQueueProcessingKey raw c
  end.

(** [RedisQueue.Ack] and [RedisQueue.Reclaim] *)
Definition Ack (raw : string) : conn -> bool * conn := ack WriteQueueProcessingKey raw.

Definition Reclaim : conn -> nat * nat * bool * conn :=
  reclaim unmarshal WriteQueueProcessingKey WriteQueueRecentKey.
End Queue.

Arguments conn R : clear implicits.
