(* ===== verification/RedisWorker.v ===== *)
(** * The writer's worker ([internal/worker/redis_worker.go], [redis_worker_ledger.go], and
    [convertRecords] of [worker.go])

    The worker claims a batch, stages it or classifies and stores it, counts it in the
    ledger, and acknowledges it.  The outcome of every insert and every Redis command is an
    argument; a worker may be killed between them.  Prompt records are not modelled. *)
From S2P Require Import Prelude Model SpanLedger Sampling Classify RedisQueue.

(** [convertRecords] *)
Definition convertRecord (r : SpanRecord) : Span :=
  mkSpan 0 (sr_ProjectID r) (sr_TraceID r) (sr_SpanID r) (sr_ParentSpanID r) (sr_Name r) (sr_Service r)
    (sr_Resource r) (sr_Kind r) (sr_Status r) (sr_StartTimeUs r) (sr_DurationUs r)
    (if bool_decide (sr_Attributes r = ""%string) then "{}" else sr_Attributes r)
    (if bool_decide (sr_Events r = ""%string) then "[]" else sr_Events r)
    None None false (sr_SampleWeight r).

Definition convertRecords (records : list SpanRecord) : list Span := convertRecord <$> records.

(** [maxRetries] *)
Definition maxRetries : nat := 5.

(** An insert attempt, and whether the context is cancelled while the worker waits after
    a failed one. *)
Inductive insertResult := InsertOK | InsertError | InsertDiskFull.

Definition attempt : Type := insertResult * bool.

(** [RedisWorker.insertWithRetry]: the result after the last attempt. *)
Fixpoint insertWithRetry (fuel : nat) (attempts : list attempt) : insertResult :=
  match fuel with
  | O => InsertError
  | S fuel =>
      let '(r, cancelled) := hd (InsertOK, false) attempts in
      match r with
      | InsertOK => InsertOK
      | InsertDiskFull => InsertDiskFull
      | InsertError => if cancelled then InsertError else insertWithRetry fuel (tl attempts)
      end
  end.

(** [RedisWorker.stageWithRetry]: a full disk is an error like any other. *)
Fixpoint stageWithRetry (fuel : nat) (attempts : list attempt) : bool :=
  match fuel with
  | O => false
  | S fuel =>
      let '(r, cancelled) := hd (InsertOK, false) attempts in
      match r with
      | InsertOK => true
      | _ => if cancelled then false else stageWithRetry fuel (tl attempts)
      end
  end.

(** [RedisWorker.settleLedger] *)
Definition settleLedger (spans lost : list Span) (t : option Tally) : option Tally :=
  let t := foldl (fun t s => Tally_Add t Processed (sp_ProjectID s) (sp_StartTimeUs s) 1) t spans in
  foldl (fun t s =>
    Tally_Add (Tally_Add t Processed (sp_ProjectID s) (sp_StartTimeUs s) (-1))
      Failed (sp_ProjectID s) (sp_StartTimeUs s) 1) t lost.

(** What became of a handled batch. *)
Inductive fate :=
  | Staged
  | StageFailed
  | Stored (interesting : list Span)
  | DeadLettered (interesting : list Span)
  | Requeued
  | RequeueLost.

(** [WorkerConfig] and the switches of a [RedisWorker]. *)
Record WorkerConfig := mkWorkerConfig {
  wc_SlowThresholdUs : Z;
  wc_BoringRetention : Z;
  wc_stageOnly : bool;
  wc_accumulator : bool;
}.

Section Worker.
Context {R : Type} `{RedisServer R}.
Context (marshal : list SpanRecord -> string) (unmarshal : string -> option (list SpanRecord)).
Context (cfg : WorkerConfig).

(** [RedisWorker] with its connection.  [rw_added], [rw_staged] and [rw_stored] are what the
    accumulator and the tables received, and [rw_handled] the batches handled. *)
Record RedisWorker := mkWorker {
  rw_conn : conn R;
  rw_reclaimFrom : Z;
  rw_floor : option MinuteFloor;
  rw_hourFloor : option MinuteFloor;
  rw_ledger : option Tally;
  rw_ProcessedCount : Z;
  rw_ErrorCount : Z;
  rw_added : list Span;
  rw_staged : list Span;
  rw_stored : list Span;
  rw_handled : list (string * list SpanRecord * fate);
}.

Definition setConn (c : conn R) (w : RedisWorker) : RedisWorker :=
  mkWorker c (rw_reclaimFrom w) (rw_floor w) (rw_hourFloor w) (rw_ledger w) (rw_ProcessedCount w)
    (rw_ErrorCount w) (rw_added w) (rw_staged w) (rw_stored w) (rw_handled w).

(** Counts a batch: the counters, and the ledger through [f]. *)
Definition countBatch (processed errors : nat) (f : option Tally -> option Tally) (w : RedisWorker) : RedisWorker :=
  mkWorker (rw_conn w) (rw_reclaimFrom w) (rw_floor w) (rw_hourFloor w) (f (rw_ledger w))
    (rw_ProcessedCount w + Z.of_nat processed) (rw_ErrorCount w + Z.of_nat errors)
    (rw_added w) (rw_staged w) (rw_stored w) (rw_handled w).

Definition feed (added staged stored : list Span) (w : RedisWorker) : RedisWorker :=
  mkWorker (rw_conn w) (rw_reclaimFrom w) (rw_floor w) (rw_hourFloor w) (rw_ledger w) (rw_ProcessedCount w)
    (rw_ErrorCount w) (rw_added w ++ added) (rw_staged w ++ staged) (rw_stored w ++ stored) (rw_handled w).

Definition setFloors (floor hour : option MinuteFloor) (w : RedisWorker) : RedisWorker :=
  mkWorker (rw_conn w) (rw_reclaimFrom w) floor hour (rw_ledger w) (rw_ProcessedCount w) (rw_ErrorCount w)
    (rw_added w) (rw_staged w) (rw_stored w) (rw_handled w).

(** What handling a batch brings with it: the clock, the clock at each item of a requeue, the
    policy, the draws, the inserts. *)
Record batchInput := mkBatchInput {
  bi_now : Z;
  bi_publish : nat -> Z;
  bi_policy : option BoringPolicyReader;
  bi_intN : nat -> Z -> Z;
  bi_attempts : list attempt;
}.

(** [RedisWorker.stageSpans] *)
Definition stageSpans (bi : batchInput) (spans : list Span) (w : RedisWorker) : fate * RedisWorker :=
  if stageWithRetry maxRetries (bi_attempts bi) then
    (Staged, countBatch (length spans) 0 (settleLedger spans []) (feed [] spans [] w))
  else (StageFailed, countBatch 0 (length spans) (settleLedger spans spans) w).

(** [RedisWorker.requeueAfterDiskFull] *)
Definition requeueAfterDiskFull (now : nat -> Z) (records : list SpanRecord) (count : nat) (w : RedisWorker)
  : fate * RedisWorker :=
  let '(ok, c) := Publish marshal now records (rw_conn w) in
  let w := setConn c w in
  if ok then (Requeued, w)
  else (RequeueLost, countBatch 0 count (fun t => Tally_AddSpans t Failed records 1) w).

(** [RedisWorker.processBatch], for a worker with a queue. *)
Definition processBatch (bi : batchInput) (records : list SpanRecord) (w : RedisWorker) : fate * RedisWorker :=
  let spans := convertRecords records in
  if wc_stageOnly cfg then stageSpans bi spans w
  else
    let w := feed (if wc_accumulator cfg then spans else []) [] [] w in
    let '(interesting, cl) :=
      classifySpansForStorage (bi_intN bi) spans (wc_SlowThresholdUs cfg) (wc_BoringRetention cfg) (bi_now bi)
        (bi_policy bi) (rw_floor w) (rw_hourFloor w) in
    let w := setFloors (cl_floor cl) (cl_hourly cl) w in
    match interesting with
    | [] => (Stored [], countBatch (length spans) 0 (settleLedger spans []) w)
    | _ =>
        match insertWithRetry maxRetries (bi_attempts bi) with
        | InsertOK =>
            (Stored interesting, countBatch (length spans) 0 (settleLedger spans []) (feed [] [] interesting w))
        | InsertDiskFull => requeueAfterDiskFull (bi_publish bi) records (length interesting) w
        | InsertError =>
            (DeadLettered interesting, countBatch 0 (length interesting) (settleLedger spans interesting) w)
        end
    end.

(** Where a worker is killed. *)
Inductive kill := Alive | BeforeProcess | BeforeAck.

Definition logHandled (raw : string) (records : list SpanRecord) (f : fate) (w : RedisWorker) : RedisWorker :=
  mkWorker (rw_conn w) (rw_reclaimFrom w) (rw_floor w) (rw_hourFloor w) (rw_ledger w) (rw_ProcessedCount w)
    (rw_ErrorCount w) (rw_added w) (rw_staged w) (rw_stored w) (rw_handled w ++ [(raw, records, f)]).

(** [RedisWorker.finish] *)
Definition finishBatch (bi : batchInput) (k : kill) (raw : string) (records : list SpanRecord) (w : RedisWorker)
  : RedisWorker :=
  match k with
  | BeforeProcess => w
  | _ =>
      let '(f, w) := processBatch bi records w in
      let w := logHandled raw records f w in
      match k with
      | Alive => setConn (Ack raw (rw_conn w)).2 w
      | _ => w
      end
  end.

(** A turn of [RedisWorker.Run] at time [now]. *)
Definition runTurn (now : Z) (bi : batchInput) (k : kill) (w : RedisWorker) : RedisWorker :=
  let w := if now <? rw_reclaimFrom w then w else setConn (Reclaim unmarshal (rw_conn w)).2 w in
  match Consume unmarshal (rw_conn w) with
  | (Batch raw records, c) => finishBatch bi k raw records (setConn c w)
  | (_, c) => setConn c w
  end.

(** [NewRedisWorker] on a server, at the start of [Run]. *)
Definition newWorker (r : R) (now : Z) (floor hour : option MinuteFloor) (ledger : option Tally) : RedisWorker :=
  mkWorker (mkConn r [] []) (now + ReclaimDelay) floor hour ledger 0 0 [] [] [] [].

(** A new worker takes the place of the old one: floors and counters start afresh in the
    code; the histories and the ledger go on. *)
Definition restart (now : Z) (floor hour : option MinuteFloor) (w : RedisWorker) : RedisWorker :=
  mkWorker (rw_conn w) (now + ReclaimDelay) floor hour (rw_ledger w) 0 0
    (rw_added w) (rw_staged w) (rw_stored w) (rw_handled w).
End Worker.

Arguments RedisWorker R : clear implicits.
