(* ===== verification/RedisWorkerProps.v ===== *)
(** * No batch leaves the queue unhandled, and every handled one is counted

    The items pushed onto the span queues are on one of their lists or were removed, and what
    was removed had been handled or could not be decoded; the ledger counts the spans of
    every batch handled, unless it went back to the queue. *)
From S2P Require Import Prelude Model SpanLedger Sampling Classify RedisQueue RedisWorker.

(** ** Lists of a server *)

Definition spanKeys : list string := [WriteQueueRecentKey; WriteQueueBacklogKey; WriteQueueProcessingKey].

(** Everything on the lists of the span queues. *)
Definition contentOf (s : lists) : list string := mjoin (s <$> spanKeys).

Lemma NoDup_spanKeys : NoDup spanKeys.
Proof. apply (bool_decide_unpack _). vm_compute. exact I. Qed.

Lemma put_eq key l s : put key l s key = l.
Proof. unfold put. by rewrite bool_decide_eq_true_2. Qed.

Lemma put_ne key l s k : k <> key -> put key l s k = s k.
Proof. intros Hne. unfold put. by rewrite bool_decide_eq_false_2. Qed.

(** One list and the rest. *)
Lemma content_split keys key (s : lists) :
  NoDup keys -> key ∈ keys -> exists rest, forall s' : lists, (forall k, k <> key -> s' k = s k) ->
    mjoin (s' <$> keys) ≡ₚ s' key ++ rest.
Proof.
  intros Hn Hk. apply list_elem_of_split in Hk as (l1 & l2 & ->).
  exists (mjoin (s <$> l1) ++ mjoin (s <$> l2)). intros s' Hs'.
  apply NoDup_app in Hn as (_ & Hd & [Hn _]%NoDup_cons).
  assert (forall l : list string, key ∉ l -> s' <$> l = s <$> l) as Hl.
  { intros l Hl. apply list_fmap_ext. intros i y Hy. apply Hs'. intros ->. apply Hl. by eapply list_elem_of_lookup_2. }
  rewrite fmap_app, fmap_cons, join_app. change (mjoin (?x :: ?k)) with (x ++ mjoin k).
  rewrite (Hl l1), (Hl l2); [solve_Permutation|done|]. intros Hk. apply (Hd key Hk). by left.
Qed.

(** Changing one list by [x]. *)
Lemma content_put key l x (s : lists) :
  key ∈ spanKeys -> l ≡ₚ x ++ s key -> contentOf (put key l s) ≡ₚ x ++ contentOf s.
Proof.
  intros Hk Hl. unfold contentOf. destruct (content_split spanKeys key s NoDup_spanKeys Hk) as [rest Hr].
  rewrite (Hr s), (Hr (put key l s)) by (done || by apply put_ne). rewrite put_eq, Hl. solve_Permutation.
Qed.

Lemma content_put_out keys key l s : key ∉ keys -> mjoin (put key l s <$> keys) = mjoin (s <$> keys).
Proof.
  intros Hk. f_equal. apply list_fmap_ext. intros i y Hy. apply put_ne. intros ->. apply Hk. by eapply list_elem_of_lookup_2.
Qed.

Lemma content_ext s s' : (forall k, s k = s' k) -> contentOf s = contentOf s'.
Proof. intros E. unfold contentOf. f_equal. apply list_fmap_ext. intros i y _. apply E. Qed.

Lemma removeFirst_perm x l : x ∈ l -> l ≡ₚ x :: removeFirst x l.
Proof.
  induction l as [|y l IH]; intros Hx; [by apply not_elem_of_nil in Hx|]. cbn [removeFirst].
  case_bool_decide as E; [by rewrite E|]. apply elem_of_cons in Hx as [?|Hx]; [congruence|].
  rewrite (IH Hx) at 1. solve_Permutation.
Qed.

Lemma removeFirst_out x l : x ∉ l -> removeFirst x l = l.
Proof.
  induction l as [|y l IH]; intros Hx; [done|]. cbn [removeFirst]. apply not_elem_of_cons in Hx as [H1 H2].
  rewrite bool_decide_eq_false_2 by congruence. by rewrite IH.
Qed.

Lemma popRight_snoc l rest x : popRight l = Some (rest, x) -> l = rest ++ [x].
Proof.
  unfold popRight. destruct (last l) as [y|] eqn:E; [|done]. intros [= <- <-].
  apply last_Some in E as [l' ->]. by rewrite removelast_last.
Qed.

Section Redis.
Context {R : Type} `{RedisServer R}.
Context (marshal : list SpanRecord -> string) (unmarshal : string -> option (list SpanRecord)).

Definition pushedSpans (c : conn R) : list string := (filter (fun kx => kx.1 ∈ spanKeys) (cn_pushed c)).*2.

Definition content (c : conn R) : list string := contentOf (rd_lists (cn_redis c)).

(** What was pushed, [before] included, is on the lists or was removed. *)
Record keeps (before removed : list string) (c : conn R) : Prop := {
  kp_lists : pushedSpans c ≡ₚ content c ++ removed;
  kp_before x : x ∈ before -> x ∈ pushedSpans c;
}.

Lemma pushOne_keeps before removed c kx : keeps before removed c -> keeps before removed (pushOne c kx).
Proof.
  intros [Hk Hb]. destruct kx as [key x]. split.
  2:{ intros y Hy%Hb. unfold pushedSpans, pushOne. cbn [cn_pushed]. rewrite filter_app, fmap_app. apply elem_of_app. by left. }
  unfold pushedSpans, content, pushOne in *. cbn [fst snd cn_redis cn_pushed].
  rewrite (content_ext _ _ (rd_LPush_spec key x (cn_redis c))). rewrite filter_app, fmap_app.
  destruct (decide (key ∈ spanKeys)) as [Hin|Hin].
  - rewrite filter_cons_True, filter_nil by done. cbn [fmap list_fmap snd].
    rewrite (content_put key _ [x]) by done. rewrite Hk. unfold contentOf. solve_Permutation.
  - rewrite filter_cons_False, filter_nil by done. rewrite app_nil_r, Hk. unfold contentOf. by rewrite content_put_out.
Qed.

Lemma command_keeps {A} (f : conn R -> A * conn R) (P : conn R -> Prop) c :
  (forall c kx, P c -> P (pushOne c kx)) -> (forall r es es' ps, P (mkConn r es ps) -> P (mkConn r es' ps)) -> P c ->
  exists c1, P c1 /\
    (command f c = (None, c1) \/ command f c = (None, (f c1).2) \/ command f c = (Some (f c1).1, (f c1).2)).
Proof.
  intros Hpush Hev HP. unfold command. destruct (hd (mkEvent [] Replied) (cn_events c)) as [pushes o]. cbn [ev_pushes ev_outcome].
  set (c0 := mkConn _ _ _). assert (P c0) as H0 by (destruct c; by eapply Hev).
  assert (P (foldl pushOne c0 pushes)) as H1.
  { revert H0. generalize c0. induction pushes as [|kx pushes IH]; intros c2 H2; [done|]. by apply IH, Hpush. }
  exists (foldl pushOne c0 pushes). split; [done|]. destruct o; [|by right; left|by left]. right; right. by destruct (f _).
Qed.

Lemma keeps_events before removed r es es' ps :
  keeps before removed (mkConn r es ps) -> keeps before removed (mkConn r es' ps).
Proof. by intros []. Qed.

Lemma LMove_keeps before removed src dst to c :
  src ∈ spanKeys -> dst ∈ spanKeys -> src <> dst -> keeps before removed c ->
  exists x c', LMove src dst to c = (x, c') /\ keeps before removed c'.
Proof.
  intros Hs Hd Hne Hk. unfold LMove.
  match goal with |- context [command ?f c] =>
    destruct (command_keeps f (keeps before removed) c (pushOne_keeps before removed) (keeps_events before removed) Hk) as (c1 & H1 & E);
    assert (keeps before removed (f c1).2) as Hf end.
  { pose proof (rd_LMove_spec src dst to (cn_redis c1)) as Hm.
    destruct (popRight (rd_lists (cn_redis c1) src)) as [[rest x]|] eqn:Ep.
    - destruct Hm as (r' & -> & Hr). destruct H1 as [H1 Hb]. split; [|done]. unfold pushedSpans, content in *. cbn [snd cn_redis cn_pushed].
      rewrite (content_ext _ _ Hr), H1. cbv zeta. f_equiv. set (s := rd_lists (cn_redis c1)) in *.
      rewrite (content_put dst _ [x] (put src rest s)) by (done || (destruct to; cbn; solve_Permutation)).
      apply popRight_snoc in Ep. rewrite <- (content_put src (s src) [x] (put src rest s));
        [|done|rewrite put_eq, Ep; solve_Permutation].
      apply reflexive_eq, content_ext. intros k. destruct (decide (k = src)) as [->|E']; [by rewrite put_eq|by rewrite !put_ne].
    - rewrite Hm. by destruct c1. }
  destruct E as [->|[->| ->]]; eexists _, _; by split.
Qed.

Lemma LRem_keeps before removed raw c :
  keeps before removed c ->
  exists x c', LRem WriteQueueProcessingKey raw c = (x, c') /\ (keeps before removed c' \/ keeps before (removed ++ [raw]) c').
Proof.
  intros Hk. unfold LRem.
  match goal with |- context [command ?f c] =>
    destruct (command_keeps f (keeps before removed) c (pushOne_keeps before removed) (keeps_events before removed) Hk) as (c1 & H1 & E);
    assert (keeps before removed (f c1).2 \/ keeps before (removed ++ [raw]) (f c1).2) as Hf end.
  { destruct H1 as [H1 Hb]. assert (forall rm, pushedSpans c1 ≡ₚ contentOf (put WriteQueueProcessingKey
      (removeFirst raw (rd_lists (cn_redis c1) WriteQueueProcessingKey)) (rd_lists (cn_redis c1))) ++ rm ->
      keeps before rm (mkConn (rd_LRem WriteQueueProcessingKey raw (cn_redis c1)) (cn_events c1) (cn_pushed c1))) as Hmk.
    { intros rm Hrm. split; [|done]. unfold content. cbn [cn_redis].
      by rewrite (content_ext _ _ (rd_LRem_spec WriteQueueProcessingKey raw (cn_redis c1))). }
    cbn [snd]. unfold content in H1.
    set (l := rd_lists (cn_redis c1) WriteQueueProcessingKey). destruct (decide (raw ∈ l)) as [Hin|Hin].
    - right. apply Hmk. rewrite H1. fold l.
      assert (WriteQueueProcessingKey ∈ spanKeys) as Hp by (unfold spanKeys; set_solver).
      set (s := rd_lists (cn_redis c1)) in *. set (s1 := put _ _ s).
      assert (contentOf s = contentOf (put WriteQueueProcessingKey l s1)) as ->.
      { apply content_ext. intros k. destruct (decide (k = WriteQueueProcessingKey)) as [->|E']; [by rewrite put_eq|].
        unfold s1. by rewrite !put_ne. }
      rewrite (content_put _ l [raw] s1); [solve_Permutation|done|]. unfold s1. rewrite put_eq. by apply removeFirst_perm.
    - left. apply Hmk. rewrite H1. fold l. rewrite (removeFirst_out raw l) by done. f_equiv. apply reflexive_eq, content_ext. intros k.
      destruct (decide (k = WriteQueueProcessingKey)) as [->|E']; [by rewrite put_eq|by rewrite put_ne]. }
  destruct E as [->|[->| ->]]; eexists _, _; (split; [done|]); [by left|done|done].
Qed.

(** ** Queue operations *)

Lemma LPush_keeps before removed key x c :
  key ∈ spanKeys -> keeps before removed c ->
  exists r c', LPush key x c = (r, c') /\ keeps before removed c' /\
    (r = Some tt -> keeps (before ++ [x]) removed c').
Proof.
  intros Hkey Hk. unfold LPush.
  match goal with |- context [command ?f c] =>
    destruct (command_keeps f (keeps before removed) c (pushOne_keeps before removed) (keeps_events before removed) Hk) as (c1 & H1 & E) end.
  assert (keeps (before ++ [x]) removed (pushOne c1 (key, x))) as H2.
  { pose proof (pushOne_keeps _ _ _ (key, x) H1) as [K1 K2]. split; [done|].
    intros y [Hy|Hy%list_elem_of_singleton]%elem_of_app; [by apply K2|]. subst y. unfold pushedSpans, pushOne. cbn [cn_pushed].
    rewrite filter_app, fmap_app. apply elem_of_app. right. rewrite filter_cons_True by done. cbn. by left. }
  cbn [fst snd] in E. destruct E as [->|[->| ->]]; eexists _, _; (split; [done|]); [done| |].
  - split; [by apply pushOne_keeps|done].
  - split; [by apply pushOne_keeps|done].
Qed.

Lemma publishKey_in now chunk : publishKey now chunk ∈ spanKeys.
Proof. unfold publishKey, spanKeys. destruct (_ && _); set_solver. Qed.

Lemma publish_keeps now removed fuel : forall before records c,
  (length records <= fuel)%nat -> keeps before removed c ->
  exists ok c', publishLoop marshal fuel maxRecordsPerItem (fun left => publishKey (now left)) records c = (ok, c') /\
    keeps before removed c' /\
    (ok = true -> exists chunks, mjoin chunks = records /\ keeps (before ++ (marshal <$> chunks)) removed c').
Proof.
  induction fuel as [|fuel IH]; intros before records c Hl Hk.
  { destruct records; [|cbn in Hl; lia]. exists true, c. split_and!; [done|done|]. intros _. exists []. split; [done|].
    cbn. by rewrite app_nil_r. }
  destruct records as [|r records].
  { exists true, c. split_and!; [done|done|]. intros _. exists []. split; [done|]. cbn. by rewrite app_nil_r. }
  cbn [publishLoop]. set (chunk := take maxRecordsPerItem (r :: records)).
  destruct (LPush_keeps before removed (publishKey (now (length (r :: records))) chunk) (marshal chunk) c (publishKey_in _ _) Hk) as (x & c1 & -> & K1 & K2).
  destruct x as [[]|]; [|exists false, c1; split_and!; done].
  destruct (IH (before ++ [marshal chunk]) (drop maxRecordsPerItem (r :: records)) c1) as (ok & c2 & -> & K3 & K4);
    [rewrite length_drop; unfold maxRecordsPerItem; cbn [length] in *; lia|by apply K2|].
  exists ok, c2. split_and!; [done| |].
  - destruct K3 as [A B]. split; [done|]. intros y Hy. apply B, elem_of_app. by left.
  - intros Hok. destruct (K4 Hok) as (chunks & E & K5). exists (chunk :: chunks). split.
    + change (mjoin (?x :: ?k)) with (x ++ mjoin k). rewrite E. unfold chunk. by rewrite take_drop.
    + rewrite fmap_cons. by rewrite <- (assoc_L app) in K5.
Qed.

Lemma claim_keeps before removed c :
  keeps before removed c -> exists r c', claim c = (r, c') /\ keeps before removed c'.
Proof.
  intros Hk. unfold claim.
  assert (forall src, src = WriteQueueRecentKey \/ src = WriteQueueBacklogKey ->
    src ∈ spanKeys /\ src <> WriteQueueProcessingKey) as Hs.
  { intros src Hsrc. split; [unfold spanKeys; set_solver|]. by destruct Hsrc as [->| ->]. }
  assert (WriteQueueProcessingKey ∈ spanKeys) as Hp by (unfold spanKeys; set_solver).
  destruct (Hs WriteQueueRecentKey) as [R1 R2]; [by left|]. destruct (Hs WriteQueueBacklogKey) as [B1 B2]; [by right|].
  destruct (LMove_keeps before removed _ _ LEFT c R1 Hp R2 Hk) as (x1 & c1 & -> & K1).
  destruct x1 as [[x|]|]; try (eexists _, _; by split).
  destruct (LMove_keeps before removed _ _ LEFT c1 B1 Hp B2 K1) as (x2 & c2 & -> & K2).
  destruct x2 as [[x|]|]; try (eexists _, _; by split).
  destruct (LMove_keeps before removed _ _ LEFT c2 R1 Hp R2 K2) as (x3 & c3 & -> & K3). eexists _, _; by split.
Qed.

Lemma Consume_keeps before removed c :
  keeps before removed c ->
  exists r c', Consume unmarshal c = (r, c') /\
    match r with
    | Batch raw records => unmarshal raw = Some records /\ keeps before removed c'
    | _ => keeps before removed c' \/ exists raw, unmarshal raw = None /\ keeps before (removed ++ [raw]) c'
    end.
Proof.
  intros Hk. unfold Consume. destruct (claim_keeps before removed c Hk) as (r & c1 & -> & K1).
  destruct r as [[raw|]|]; [|eexists _, _; split; [done|by left]..].
  unfold decodeClaim. destruct (unmarshal raw) as [records|] eqn:E; [eexists _, _; by split|].
  destruct (LRem_keeps before removed raw c1 K1) as (x & c2 & -> & K2). eexists _, _; split; [done|].
  destruct K2; [by left|right; eauto].
Qed.

Lemma Reclaim_keeps before removed c : keeps before removed c -> keeps before removed (Reclaim unmarshal c).2.
Proof.
  unfold Reclaim, reclaim.
  assert (forall fuel b n c, keeps before removed c -> keeps before removed
    (reclaimLoop unmarshal fuel WriteQueueProcessingKey WriteQueueRecentKey b n c).2) as Hl; [|apply Hl].
  clear c. induction fuel as [|fuel IH]; intros b n c Hk; [done|]. cbn [reclaimLoop].
  destruct (LMove_keeps before removed WriteQueueProcessingKey WriteQueueRecentKey RIGHT c) as (x & c1 & -> & K1);
    [unfold spanKeys; set_solver|unfold spanKeys; set_solver|done|done|].
  destruct x as [[raw|]|]; [by apply IH|done|done].
Qed.

(** ** Handling *)

(** The spans of a key. *)
Definition spanCount (k : rowKey) (l : list Span) : Z :=
  sumBy (fun s => if decide ((SpanLedgerBucket (sp_StartTimeUs s), sp_ProjectID s) = k) then 1 else 0) l.

Lemma spanCount_convert k records : spanCount k (convertRecords records) = keyCount k records.
Proof. exact (sumBy_map convertRecord _ records). Qed.

Lemma count_settle spans lost t : forall (c : Column) (k : rowKey),
  wfTally t -> exists t', settleLedger spans lost (Some t) = Some t' /\ wfTally t' /\
    ledgerCount (Some t') c k = ledgerCount (Some t) c k +
      (if decide (c = Processed) then spanCount k spans - spanCount k lost else 0) +
      (if decide (c = Failed) then spanCount k lost else 0).
Proof.
  intros c k Ht. unfold settleLedger.
  assert (exists t1, foldl (fun t s => Tally_Add t Processed (sp_ProjectID s) (sp_StartTimeUs s) 1) (Some t) spans = Some t1 /\
    wfTally t1 /\ ledgerCount (Some t1) c k = ledgerCount (Some t) c k +
      (if decide (c = Processed) then spanCount k spans else 0)) as (t1 & -> & W1 & E1).
  { revert t Ht. induction spans as [|s l IH]; intros t Ht; cbn [foldl].
    - exists t. split_and!; [done|done|]. unfold spanCount. cbn. destruct (decide _); lia.
    - destruct (IH (Tally_add Processed (sp_ProjectID s) (sp_StartTimeUs s) 1 t)) as (t1 & E & W & Hc); [by apply wfTally_add|].
      exists t1. split_and!; [exact E|done|]. rewrite Hc, count_add by done. unfold spanCount. rewrite sumBy_cons.
      destruct (decide (Processed = c)), (decide (c = Processed)); try congruence; repeat case_decide; lia. }
  assert (exists t2, foldl (fun t s => Tally_Add (Tally_Add t Processed (sp_ProjectID s) (sp_StartTimeUs s) (-1))
      Failed (sp_ProjectID s) (sp_StartTimeUs s) 1) (Some t1) lost = Some t2 /\
    wfTally t2 /\ ledgerCount (Some t2) c k = ledgerCount (Some t1) c k -
      (if decide (c = Processed) then spanCount k lost else 0) + (if decide (c = Failed) then spanCount k lost else 0))
    as (t2 & E & W2 & E2).
  { clear E1. revert t1 W1. induction lost as [|s l IH]; intros t1 W1; cbn [foldl].
    - exists t1. split_and!; [done|done|]. unfold spanCount. cbn. repeat case_decide; lia.
    - destruct (IH (Tally_add Failed (sp_ProjectID s) (sp_StartTimeUs s) 1
        (Tally_add Processed (sp_ProjectID s) (sp_StartTimeUs s) (-1) t1))) as (t2 & E & W & Hc); [by do 2 apply wfTally_add|].
      exists t2. split_and!; [exact E|done|]. rewrite Hc, !count_add by (done || by apply wfTally_add). unfold spanCount. rewrite sumBy_cons.
      repeat case_decide; try congruence; lia. }
  exists t2. split_and!; [done|done|]. rewrite E2, E1. repeat case_decide; lia.
Qed.

(** What a handled batch adds to a column of the ledger. *)
Definition fateCount (c : Column) (k : rowKey) (h : string * list SpanRecord * fate) : Z :=
  let n := keyCount k h.1.2 in
  match h.2, c with
  | Staged, Processed => n
  | Stored _, Processed => n
  | DeadLettered lost, Processed => n - spanCount k lost
  | DeadLettered lost, Failed => spanCount k lost
  | StageFailed, Failed => n
  | RequeueLost, Failed => n
  | _, _ => 0
  end.

Definition stagedOf (h : string * list SpanRecord * fate) : list Span :=
  match h.2 with Staged => convertRecords h.1.2 | _ => [] end.

Definition storedOf (h : string * list SpanRecord * fate) : list Span :=
  match h.2 with Stored spans => spans | _ => [] end.

Record workerOK (w : RedisWorker R) : Prop := {
  wo_keeps : exists removed poison, keeps [] removed (rw_conn w) /\
    removed ⊆+ (rw_handled w).*1.*1 ++ poison /\ Forall (fun raw => unmarshal raw = None) poison;
  wo_decoded h : h ∈ rw_handled w -> unmarshal h.1.1 = Some h.1.2;
  wo_requeued h : h ∈ rw_handled w -> h.2 = Requeued ->
    exists chunks, mjoin chunks = h.1.2 /\ forall ch, ch ∈ chunks -> marshal ch ∈ pushedSpans (rw_conn w);
  wo_staged : rw_staged w = mjoin (stagedOf <$> rw_handled w);
  wo_stored : rw_stored w = mjoin (storedOf <$> rw_handled w);
  wo_ledger : exists t, rw_ledger w = Some t /\ wfTally t /\
    forall c k, ledgerCount (Some t) c k = sumBy (fateCount c k) (rw_handled w);
}.

(** What handling a batch changes, before it is logged. *)
Record processed (cfg : WorkerConfig) (records : list SpanRecord) (w : RedisWorker R) (f : fate) (w' : RedisWorker R) : Prop := {
  pr_keeps before removed : keeps before removed (rw_conn w) -> keeps before removed (rw_conn w');
  pr_requeued before removed : f = Requeued -> keeps before removed (rw_conn w) ->
    exists chunks, mjoin chunks = records /\ keeps (before ++ (marshal <$> chunks)) removed (rw_conn w');
  pr_handled : rw_handled w' = rw_handled w;
  pr_staged : rw_staged w' = rw_staged w ++ stagedOf (""%string, records, f);
  pr_stored : rw_stored w' = rw_stored w ++ storedOf (""%string, records, f);
  pr_ledger t : rw_ledger w = Some t -> wfTally t -> exists t', rw_ledger w' = Some t' /\ wfTally t' /\
    forall c k, ledgerCount (Some t') c k = ledgerCount (Some t) c k + fateCount c k (""%string, records, f);
}.

Lemma settle_counts spans lost t :
  wfTally t -> exists t', settleLedger spans lost (Some t) = Some t' /\ wfTally t' /\ forall c k,
    ledgerCount (Some t') c k = ledgerCount (Some t) c k +
      (if decide (c = Processed) then spanCount k spans - spanCount k lost else 0) +
      (if decide (c = Failed) then spanCount k lost else 0).
Proof.
  intros Ht. destruct (count_settle spans lost t Processed (0, 0) Ht) as (t' & E & W & _). exists t'. split_and!; [done|done|].
  intros c k. destruct (count_settle spans lost t c k Ht) as (t2 & E2 & _ & Hc). rewrite E in E2. by injection E2 as <-.
Qed.

(** A column of a settled batch. *)
Ltac fate_count := intros c k; rewrite ?spanCount_convert; unfold fateCount; cbn [fst snd];
  change (spanCount k []) with 0; destruct c; repeat case_decide; try congruence; lia.

Lemma settle_fate cfg records w f n m lost w0 :
  rw_conn w0 = rw_conn w -> rw_handled w0 = rw_handled w -> rw_ledger w0 = rw_ledger w ->
  rw_staged w0 = rw_staged w ++ stagedOf (""%string, records, f) ->
  rw_stored w0 = rw_stored w ++ storedOf (""%string, records, f) -> f <> Requeued ->
  (forall c k, fateCount c k (""%string, records, f) =
     (if decide (c = Processed) then keyCount k records - spanCount k lost else 0) +
     (if decide (c = Failed) then spanCount k lost else 0)) ->
  processed cfg records w f (countBatch n m (settleLedger (convertRecords records) lost) w0).
Proof.
  intros Ec Eh El Es Et Hf Hn. split; cbn [countBatch rw_conn rw_handled rw_staged rw_stored rw_ledger]; rewrite ?Ec; try done.
  intros t Hl Ht. rewrite El, Hl. destruct (settle_counts (convertRecords records) lost t Ht) as (t' & E & W & Hc).
  exists t'. split_and!; [done|done|]. intros c k. rewrite Hc, Hn, spanCount_convert. lia.
Qed.

Lemma processBatch_ok cfg bi records w :
  exists f w', processBatch marshal cfg bi records w = (f, w') /\ processed cfg records w f w'.
Proof.
  unfold processBatch. destruct (wc_stageOnly cfg).
  { unfold stageSpans. destruct (stageWithRetry _ _); eexists _, _; (split; [done|]).
    - eapply settle_fate; cbn [feed rw_conn rw_handled rw_ledger rw_staged rw_stored stagedOf storedOf snd fst]; rewrite ?app_nil_r; try done.
      fate_count.
    - eapply settle_fate; cbn [feed rw_conn rw_handled rw_ledger rw_staged rw_stored stagedOf storedOf snd fst]; rewrite ?app_nil_r; try done.
      fate_count. }
  cbv zeta. destruct (classifySpansForStorage _ _ _ _ _ _ _ _) as [interesting cl].
  assert (forall c k, fateCount c k (""%string, records, Stored interesting) =
     (if decide (c = Processed) then keyCount k records - spanCount k [] else 0) +
     (if decide (c = Failed) then spanCount k [] else 0)) as Hst.
  { fate_count. }
  destruct interesting as [|s l] eqn:Ei.
  { eexists _, _. split; [done|].
    eapply settle_fate; cbn [setFloors feed rw_conn rw_handled rw_ledger rw_staged rw_stored stagedOf storedOf snd fst];
      rewrite ?app_nil_r; done. }
  rewrite <- Ei in *. destruct (insertWithRetry _ _).
  - eexists _, _. split; [done|].
    eapply settle_fate; cbn [setFloors feed rw_conn rw_handled rw_ledger rw_staged rw_stored stagedOf storedOf snd fst]; rewrite ?app_nil_r; done.
  - eexists _, _. split; [done|].
    eapply settle_fate; cbn [setFloors feed rw_conn rw_handled rw_ledger rw_staged rw_stored stagedOf storedOf snd fst]; rewrite ?app_nil_r; try done.
    fate_count.
  - unfold requeueAfterDiskFull. cbn [setFloors feed rw_conn].
    destruct (Publish marshal (bi_publish bi) records (rw_conn w)) as [ok c'] eqn:Ep.
    assert (forall before removed, keeps before removed (rw_conn w) -> keeps before removed c' /\
      (ok = true -> exists chunks, mjoin chunks = records /\ keeps (before ++ (marshal <$> chunks)) removed c')) as Hp.
    { intros before removed Hk. destruct (publish_keeps (bi_publish bi) removed (length records) before records (rw_conn w)) as (ok' & c2 & E & K1 & K2);
        [lia|done|]. unfold Publish in Ep. rewrite Ep in E. injection E as <- <-. done. }
    destruct ok; eexists _, _; (split; [done|]); split;
      cbn [countBatch setConn setFloors feed rw_conn rw_handled rw_ledger rw_staged rw_stored stagedOf storedOf snd fst]; try done;
      rewrite ?app_nil_r; try done.
    + by intros before removed [? _]%Hp.
    + intros before removed _ [_ Hx]%Hp. by apply Hx.
    + intros t -> Ht. exists t. split_and!; [done|done|]. fate_count.
    + by intros before removed [? _]%Hp.
    + intros t -> Ht. rewrite AddSpans_foldl. eexists. split; [done|]. split.
      * pose proof (wfLedger_AddSpans (Some t) Failed records 1 Ht) as Hw. by rewrite AddSpans_foldl in Hw.
      * intros c k. rewrite <- AddSpans_foldl, count_AddSpans by done. revert c k. fate_count.
Qed.

(** ** Runs *)

(** A connection on which nothing is lost, and what others still rely on. *)
Definition accounted (w : RedisWorker R) (before : list string) (c : conn R) : Prop :=
  exists removed poison, keeps before removed c /\ removed ⊆+ (rw_handled w).*1.*1 ++ poison /\
    Forall (fun raw => unmarshal raw = None) poison.

Lemma workerOK_accounted w : workerOK w -> accounted w (pushedSpans (rw_conn w)) (rw_conn w).
Proof.
  intros [(removed & poison & [K1 K2] & Hs & Hp) _ _ _ _ _]. exists removed, poison. split_and!; [by split|done|done].
Qed.

Lemma setConn_ok w c : workerOK w -> accounted w (pushedSpans (rw_conn w)) c -> workerOK (setConn c w).
Proof.
  intros [_ W2 W3 W4 W5 W6] (removed & poison & [K1 K2] & Hs & Hp). split; cbn [setConn rw_conn rw_handled rw_staged rw_stored rw_ledger]; try done.
  - exists removed, poison. split_and!; [|done|done]. split; [done|]. by intros x ?%not_elem_of_nil.
  - intros h Hh E. destruct (W3 h Hh E) as (chunks & Em & Hc). exists chunks. split; [done|]. intros ch Hch. by apply K2, Hc.
Qed.

Lemma sumBy_snoc {A} (f : A -> Z) l x : sumBy f (l ++ [x]) = sumBy f l + f x.
Proof. rewrite sumBy_app. cbn. lia. Qed.

Lemma handled_ok cfg bi raw records w :
  workerOK w -> unmarshal raw = Some records ->
  exists f w', processBatch marshal cfg bi records w = (f, w') /\ workerOK (logHandled raw records f w') /\
    exists removed poison, keeps (pushedSpans (rw_conn w')) removed (rw_conn w') /\
      removed ++ [raw] ⊆+ (rw_handled (logHandled raw records f w')).*1.*1 ++ poison /\
      Forall (fun raw => unmarshal raw = None) poison.
Proof.
  intros Hok Hu. destruct (processBatch_ok cfg bi records w) as (f & w' & E0 & [P1 P2 P3 P4 P5 P6]). exists f, w'.
  pose proof (workerOK_accounted w Hok) as (removed & poison & K & Hs & Hp).
  assert (removed ++ [raw] ⊆+ (rw_handled (logHandled raw records f w')).*1.*1 ++ poison) as Hs'.
  { cbn [logHandled rw_handled]. rewrite P3, !fmap_app. cbn.
    etrans; [by apply submseteq_app; [exact Hs|reflexivity]|]. apply Permutation_submseteq. solve_Permutation. }
  split_and!; [done| |].
  2:{ exists removed, poison. split_and!; [|done|done]. apply P1 in K as [K1 _]. by split. }
  destruct Hok as [_ W2 W3 W4 W5 (t & Et & Wt & Hc)].
  split; cbn [logHandled rw_conn rw_handled rw_staged rw_stored rw_ledger]; rewrite P3.
  - exists removed, poison. split_and!; [| |done].
    + apply P1 in K as [K1 _]. split; [done|]. by intros x ?%not_elem_of_nil.
    + cbn [logHandled rw_handled] in Hs'. rewrite P3 in Hs'. etrans; [|exact Hs']. by apply submseteq_inserts_r.
  - intros h [Hh|Hh%list_elem_of_singleton]%elem_of_app; [by apply W2|by subst h].
  - intros h [Hh|Hh%list_elem_of_singleton]%elem_of_app E.
    + destruct (W3 h Hh E) as (chunks & Em & Hch). exists chunks. split; [done|]. intros ch Hx.
      apply P1 in K as [_ K2]. by apply K2, Hch.
    + subst h. cbn [fst snd] in *. destruct (P2 _ _ E K) as (chunks & Em & [_ K2]). exists chunks. split; [done|].
      intros ch Hx. apply K2, elem_of_app. right. by apply list_elem_of_fmap_2.
  - rewrite P4, W4, fmap_app, join_app. cbn. by rewrite app_nil_r.
  - rewrite P5, W5, fmap_app, join_app. cbn. by rewrite app_nil_r.
  - destruct (P6 t Et Wt) as (t' & Et' & Wt' & Hc'). exists t'. split_and!; [done|done|]. intros c k.
    rewrite Hc', Hc, sumBy_snoc. done.
Qed.

Lemma ack_ok w raw :
  workerOK w ->
  (exists removed poison, keeps (pushedSpans (rw_conn w)) removed (rw_conn w) /\
    removed ++ [raw] ⊆+ (rw_handled w).*1.*1 ++ poison /\ Forall (fun raw => unmarshal raw = None) poison) ->
  workerOK (setConn (Ack raw (rw_conn w)).2 w).
Proof.
  intros Hok (removed & poison & K & Hs & Hp). apply setConn_ok; [done|]. unfold Ack, ack.
  destruct (LRem_keeps _ _ raw _ K) as (x & c' & -> & [K'|K']); cbn [snd].
  - exists removed, poison. split_and!; [done| |done]. etrans; [|exact Hs]. by apply submseteq_inserts_r.
  - exists (removed ++ [raw]), poison. done.
Qed.

Lemma runTurn_ok cfg now bi k w : workerOK w -> workerOK (runTurn marshal unmarshal cfg now bi k w).
Proof.
  intros Hok. unfold runTurn.
  assert (workerOK (if now <? rw_reclaimFrom w then w else setConn (Reclaim unmarshal (rw_conn w)).2 w)) as H1.
  { destruct (_ <? _); [done|]. apply setConn_ok; [done|].
    destruct (workerOK_accounted w Hok) as (removed & poison & K & Hs & Hp). exists removed, poison.
    split_and!; [by apply Reclaim_keeps|done|done]. }
  set (w1 := if now <? rw_reclaimFrom w then w else _) in *. clearbody w1. clear Hok.
  destruct (workerOK_accounted w1 H1) as (removed & poison & K & Hs & Hp).
  destruct (Consume_keeps _ _ _ K) as (r & c' & -> & Hr).
  assert (forall raw, unmarshal raw = None -> keeps (pushedSpans (rw_conn w1)) (removed ++ [raw]) c' ->
    accounted w1 (pushedSpans (rw_conn w1)) c') as Hpoison.
  { intros raw Hu K'. exists (removed ++ [raw]), (poison ++ [raw]). split_and!; [done| |by apply Forall_app_2; [done|constructor]].
    rewrite (assoc_L app). by apply submseteq_app. }
  destruct r as [raw records| |].
  - destruct Hr as [Hu K']. assert (workerOK (setConn c' w1)) as H2.
    { apply setConn_ok; [done|]. exists removed, poison. done. }
    unfold finishBatch. destruct (handled_ok cfg bi raw records (setConn c' w1) H2 Hu) as (f & w2 & -> & H3 & Hx).
    destruct k; [|done|done]. by apply ack_ok.
  - apply setConn_ok; [done|]. destruct Hr as [K'|(raw & Hu & K')]; [by exists removed, poison|by eapply Hpoison].
  - apply setConn_ok; [done|]. destruct Hr as [K'|(raw & Hu & K')]; [by exists removed, poison|by eapply Hpoison].
Qed.

(** A turn of the worker, with what happens on its connection, or a new worker. *)
Inductive workerOp :=
  | Turn (now : Z) (bi : batchInput) (k : kill) (events : list event)
  | Restart (now : Z) (floor hour : option MinuteFloor).

Definition runWorkerOp (cfg : WorkerConfig) (w : RedisWorker R) (op : workerOp) : RedisWorker R :=
  match op with
  | Turn now bi k events =>
      runTurn marshal unmarshal cfg now bi k
        (setConn (mkConn (cn_redis (rw_conn w)) events (cn_pushed (rw_conn w))) w)
  | Restart now floor hour => restart now floor hour w
  end.

(** A run on a server whose span queues are empty. *)
Definition runWorker (cfg : WorkerConfig) (r : R) (now : Z) (floor hour : option MinuteFloor) (ops : list workerOp)
  : RedisWorker R :=
  foldl (runWorkerOp cfg) (newWorker r now floor hour (Some Tally_New)) ops.

Lemma runWorker_ok cfg r now floor hour ops :
  (forall k, k ∈ spanKeys -> rd_lists r k = []) -> workerOK (runWorker cfg r now floor hour ops).
Proof.
  intros Hr. unfold runWorker. induction ops as [|op ops IH] using rev_ind.
  - split; cbn [foldl newWorker rw_conn rw_handled rw_staged rw_stored rw_ledger]; try done; try by intros h ?%not_elem_of_nil.
    + exists [], []. split_and!; [|done|constructor]. split; [|by intros x ?%not_elem_of_nil].
      unfold content, contentOf, pushedSpans. cbn [cn_redis cn_pushed]. unfold spanKeys in *. cbn.
      rewrite !Hr by set_solver. done.
    + exists Tally_New. split_and!; [done|apply wfTally_New|]. intros c k. unfold ledgerCount, Tally_row. cbn.
      rewrite lookup_empty. by apply colAt_zeroRow.
  - rewrite foldl_snoc. destruct op as [now' bi k events|now' fl ho]; cbn [runWorkerOp].
    + apply runTurn_ok, setConn_ok; [done|]. destruct (workerOK_accounted _ IH) as (removed & poison & K & Hs & Hp).
      exists removed, poison. split_and!; [|done|done]. destruct (rw_conn _). by eapply keeps_events.
    + by destruct IH.
Qed.
End Redis.

(** ** Properties *)

(** A queue of one known batch, for the examples. *)
Definition demoRecord : SpanRecord := demoSpan "t" "a" "" "GET /" "error" 600000000 5.

Definition demoMarshal (l : list SpanRecord) : string := if bool_decide (l = []) then "[]" else "[a]".

Definition demoUnmarshal (s : string) : option (list SpanRecord) :=
  if bool_decide (s = "[a]"%string) then Some [demoRecord] else None.

Definition demoBatch (attempts : list attempt) : batchInput := mkBatchInput 0 (fun _ => 0) None (fun _ _ => 0) attempts.

Definition demoInline : WorkerConfig := mkWorkerConfig 1000 0 false true.

Definition emptyServer : gmap string (list string) := ∅.

(** Another client pushes the batch; the disk is full, the batch is put back, and stored
    when it comes round again. *)
Definition demoRun : list workerOp :=
  [Turn 0 (demoBatch [(InsertDiskFull, false)]) Alive [mkEvent [(WriteQueueRecentKey, "[a]"%string)] Replied];
   Turn 1 (demoBatch []) Alive []].

Definition demoWorker : RedisWorker (gmap string (list string)) :=
  runWorker demoMarshal demoUnmarshal demoInline emptyServer 0 None None demoRun.

(** C12: no batch leaves the queue unhandled.  Whatever other clients push, whichever commands
    and replies are lost and wherever the worker is killed: the items ever pushed onto the
    span queues are, each as often as it was pushed, on one of their three lists or removed;
    what was removed had been handled, once per removal, or cannot be decoded; a handled
    batch is what its item decodes to; and a batch put back was pushed again, all of it. *)
Theorem queue_at_least_once {R} `{RedisServer R} marshal unmarshal cfg (r : R) now floor hour ops :
  (forall k, k ∈ spanKeys -> rd_lists r k = []) ->
  let w := runWorker marshal unmarshal cfg r now floor hour ops in
  (exists removed poison, pushedSpans (rw_conn w) ≡ₚ content (rw_conn w) ++ removed /\
     removed ⊆+ (rw_handled w).*1.*1 ++ poison /\ Forall (fun raw => unmarshal raw = None) poison) /\
  (forall raw records f, (raw, records, f) ∈ rw_handled w -> unmarshal raw = Some records /\
     (f = Requeued -> exists chunks, mjoin chunks = records /\
        forall ch, ch ∈ chunks -> marshal ch ∈ pushedSpans (rw_conn w))).
Proof.
  intros Hr w. destruct (runWorker_ok marshal unmarshal cfg r now floor hour ops Hr) as [(removed & poison & [K1 _] & Hs & Hp) W2 W3 _ _ _].
  split; [by exists removed, poison|]. intros raw records f Hh. split; [by apply (W2 _ Hh)|]. intros ->. by apply (W3 _ Hh).
Qed.

Lemma queue_at_least_once_witness :
  pushedSpans (rw_conn demoWorker) = ["[a]"; "[a]"]%string /\
  exists removed poison, pushedSpans (rw_conn demoWorker) ≡ₚ content (rw_conn demoWorker) ++ removed /\
     removed ⊆+ (rw_handled demoWorker).*1.*1 ++ poison /\ Forall (fun raw => demoUnmarshal raw = None) poison.
Proof.
  split; [vm_compute; reflexivity|].
  refine (proj1 (queue_at_least_once demoMarshal demoUnmarshal demoInline emptyServer 0 None None demoRun _)).
  intros k _. reflexivity.
Defined.

(** Every handled batch is accounted for.  In any run, for every project and 5-minute
    bucket, the ledger's processed and failed spans are the spans of the batches handled,
    less those put back; failed are those of batches that could not be staged or put
    back, and the spans of dead-lettered batches that were to be stored; and the tables
    received exactly the batches staged and the spans kept of the batches stored. *)
Theorem batches_settled {R} `{RedisServer R} marshal unmarshal cfg (r : R) now floor hour ops k :
  (forall k, k ∈ spanKeys -> rd_lists r k = []) ->
  let w := runWorker marshal unmarshal cfg r now floor hour ops in
  ledgerCount (rw_ledger w) Processed k + ledgerCount (rw_ledger w) Failed k =
    sumBy (fun h => match h.2 with Requeued => 0 | _ => keyCount k h.1.2 end) (rw_handled w) /\
  ledgerCount (rw_ledger w) Failed k =
    sumBy (fun h => match h.2 with
                    | StageFailed | RequeueLost => keyCount k h.1.2
                    | DeadLettered lost => spanCount k lost
                    | _ => 0
                    end) (rw_handled w) /\
  rw_staged w = mjoin (stagedOf <$> rw_handled w) /\ rw_stored w = mjoin (storedOf <$> rw_handled w).
Proof.
  intros Hr w. destruct (runWorker_ok marshal unmarshal cfg r now floor hour ops Hr) as [_ _ _ W4 W5 (t & Et & _ & Hc)].
  fold w in W4, W5, Et, Hc. rewrite Et, !Hc. split_and!; [| |done|done].
  - rewrite <- sumBy_plus. apply sumBy_ext. intros [[raw recs] f] _. unfold fateCount. cbn [fst snd]. destruct f; lia.
  - apply sumBy_ext. intros [[raw recs] f] _. unfold fateCount. cbn [fst snd]. by destruct f.
Qed.

Lemma batches_settled_witness :
  length (rw_handled demoWorker) = 2%nat /\
  ledgerCount (rw_ledger demoWorker) Processed (600, 1) + ledgerCount (rw_ledger demoWorker) Failed (600, 1) =
    sumBy (fun h => match h.2 with Requeued => 0 | _ => keyCount (600, 1) h.1.2 end) (rw_handled demoWorker).
Proof.
  split; [vm_compute; reflexivity|].
  refine (proj1 (batches_settled demoMarshal demoUnmarshal demoInline emptyServer 0 None None demoRun (600, 1) _)).
  intros k _. reflexivity.
Defined.

(** A full disk makes spans count twice.  The accumulator receives a batch before it is
    inserted; when the disk is full the batch goes back to the queue and the accumulator
    receives it again, while the ledger and the table count it once. *)
Theorem disk_full_counts_twice :
  rw_added demoWorker = [convertRecord demoRecord; convertRecord demoRecord] /\
  rw_stored demoWorker = [convertRecord demoRecord] /\
  ledgerCount (rw_ledger demoWorker) Processed (600, 1) = 1.
Proof. vm_compute. split_and!; reflexivity. Qed.
