(* ===== verification/RetentionConfig.v ===== *)
(** * Retention windows and disk pressure ([internal/retention/config.go], [pressure.go],
    [reclaim.go])

    The configured windows, the settings that override them, the pressure tiers that
    shorten the windows of raw telemetry, and the loop that evicts until the volume is
    under its target.  Fractions of the volume are rationals; the code keeps them as
    floats and only compares them. *)
From Stdlib Require Import QArith.
From S2P Require Import Prelude TraceSampling.

Open Scope Z_scope.

(** ** The configuration *)

(** [Config]: the windows and the sampling limits. *)
Record RetentionConfig := mkRetention {
  rc_InterestingRetentionHours : Z;
  rc_BoringRetentionMinutes : Z;
  rc_ErrorRetentionDays : Z;
  rc_ErrorExemplarDays : Z;
  rc_AggregateRetentionDays : Z;
  rc_MetricsRetentionDays : Z;
  rc_LogRetentionHours : Z;
  rc_ErrorLogRetentionDays : Z;
  rc_PromptRetentionDays : Z;
  rc_SlowThresholdUS : Z;
  rc_SlowSampleTraces : Z;
  rc_MetricRollupRetentionDays : Z;
  rc_HourlyRollupDays : Z;
  rc_DailyRollupDays : Z;
  rc_WeeklyRollupDays : Z;
  rc_MonthlyRollupDays : Z;
  rc_SpanRollup5mHours : Z;
  rc_SpanRollupHourlyDays : Z;
  rc_SpanRollupDailyDays : Z;
}.

(** [Config.withDefaults]; a monthly window of zero stays, it keeps the tier. *)
Definition retentionDefaults (c : RetentionConfig) : RetentionConfig :=
  let d v val := if v <=? 0 then val else v in
  mkRetention (d (rc_InterestingRetentionHours c) 48) (d (rc_BoringRetentionMinutes c) 30)
    (d (rc_ErrorRetentionDays c) 30) (d (rc_ErrorExemplarDays c) 30)
    (d (rc_AggregateRetentionDays c) 365) (d (rc_MetricsRetentionDays c) 7)
    (d (rc_LogRetentionHours c) 24) (d (rc_ErrorLogRetentionDays c) 30)
    (d (rc_PromptRetentionDays c) 30) (d (rc_SlowThresholdUS c) 1000000)
    (d (rc_SlowSampleTraces c) 10) (d (rc_MetricRollupRetentionDays c) 2)
    (d (rc_HourlyRollupDays c) 30) (d (rc_DailyRollupDays c) 365) (d (rc_WeeklyRollupDays c) 730)
    (rc_MonthlyRollupDays c) (d (rc_SpanRollup5mHours c) 72) (d (rc_SpanRollupHourlyDays c) 30)
    (d (rc_SpanRollupDailyDays c) 400).

(** [RetentionWorker.settingInt] of what the settings table answers; [None] is an error. *)
Definition settingInt (repo : string -> option string) (key : string) : Z :=
  match repo key with
  | None => 0
  | Some v =>
      if bool_decide (v = ""%string) then 0
      else match Atoi v with Some n => if n <=? 0 then 0 else n | None => 0 end
  end.

(** [RetentionWorker.effectiveConfig] *)
Definition effectiveConfig (repo : string -> option string) (c : RetentionConfig) : RetentionConfig :=
  let o key v := if 0 <? settingInt repo key then settingInt repo key else v in
  mkRetention (o "retention_interesting_hours" (rc_InterestingRetentionHours c))
    (o "boring_retention_minutes" (rc_BoringRetentionMinutes c))
    (o "retention_error_days" (rc_ErrorRetentionDays c))
    (o "retention_error_exemplar_days" (rc_ErrorExemplarDays c))
    (o "retention_aggregated_days" (rc_AggregateRetentionDays c))
    (o "metrics_retention_days" (rc_MetricsRetentionDays c))
    (o "log_retention_hours" (rc_LogRetentionHours c))
    (o "error_log_retention_days" (rc_ErrorLogRetentionDays c))
    (o "prompt_retention_days" (rc_PromptRetentionDays c))
    (rc_SlowThresholdUS c)
    (o "retention_slow_sample_traces" (rc_SlowSampleTraces c))
    (o "metric_rollup_retention_days" (rc_MetricRollupRetentionDays c))
    (o "metric_rollup_hourly_days" (rc_HourlyRollupDays c))
    (o "metric_rollup_daily_days" (rc_DailyRollupDays c))
    (o "metric_rollup_weekly_days" (rc_WeeklyRollupDays c))
    (o "metric_rollup_monthly_days" (rc_MonthlyRollupDays c))
    (o "span_rollup_5m_hours" (rc_SpanRollup5mHours c))
    (o "span_rollup_hourly_days" (rc_SpanRollupHourlyDays c))
    (o "span_rollup_daily_days" (rc_SpanRollupDailyDays c)).

(** ** Pressure tiers *)

(** [Tier] *)
Inductive pressureTier := TierNormal | TierElevated | TierCritical.

#[export] Instance pressureTier_eq_dec : EqDecision pressureTier.
Proof. solve_decision. Defined.

(** [Tier.factor] *)
Definition factor (t : pressureTier) : Q :=
  match t with TierNormal => 1 | TierElevated => 1 # 2 | TierCritical => 1 # 4 end.

(** [Watermarks] *)
Record Watermarks := mkWatermarks { wm_Elevated : Q; wm_Critical : Q }.

Definition Qltb (x y : Q) : bool := negb (Qle_bool y x).

(** [Watermarks.withDefaults] *)
Definition watermarkDefaults (w : Watermarks) : Watermarks :=
  let pick v d := if Qle_bool v 0 || Qle_bool 1 v then d else v in
  let e := pick (wm_Elevated w) (3 # 4) in
  let c := pick (wm_Critical w) (9 # 10) in
  mkWatermarks e (if Qltb c e then e else c).

(** [TierFor] *)
Definition TierFor (used : Q) (w : Watermarks) : pressureTier :=
  let w := watermarkDefaults w in
  if Qle_bool (wm_Critical w) used then TierCritical
  else if Qle_bool (wm_Elevated w) used then TierElevated
  else TierNormal.

(** [needsReclaim] *)
Definition needsReclaim (used : Q) (w : Watermarks) : bool :=
  bool_decide (TierFor used w = TierCritical).

(** [scale]: the product with the factor is exact in a float for any window. *)
Definition scale (v : Z) (f : Q) (floor : Z) : Z :=
  if Qle_bool 1 f then v
  else
    let scaled := (v * Qnum f) /t Zpos (Qden f) in
    if scaled <? floor then floor else scaled.

(** [Tier.Apply] *)
Definition Apply (t : pressureTier) (c : RetentionConfig) : RetentionConfig :=
  let f := factor t in
  if Qle_bool 1 f then c
  else
    mkRetention (scale (rc_InterestingRetentionHours c) f 1)
      (scale (rc_BoringRetentionMinutes c) f 5)
      (rc_ErrorRetentionDays c) (rc_ErrorExemplarDays c) (rc_AggregateRetentionDays c)
      (scale (rc_MetricsRetentionDays c) f 1) (scale (rc_LogRetentionHours c) f 1)
      (rc_ErrorLogRetentionDays c) (scale (rc_PromptRetentionDays c) f 1)
      (rc_SlowThresholdUS c) (rc_SlowSampleTraces c)
      (scale (rc_MetricRollupRetentionDays c) f 1)
      (rc_HourlyRollupDays c) (rc_DailyRollupDays c) (rc_WeeklyRollupDays c) (rc_MonthlyRollupDays c)
      (scale (rc_SpanRollup5mHours c) f 6) (rc_SpanRollupHourlyDays c) (rc_SpanRollupDailyDays c).

(** ** Evicting down to the target *)

(** [reclaimRounds] and [reclaimFloorMinutes] *)
Definition reclaimRounds : nat := 10.

Definition reclaimFloorMinutes : Z := 15.

(** [reclaimTarget] *)
Definition reclaimTarget (targetFraction : Q) : Q :=
  if Qle_bool targetFraction 0 || Qle_bool 1 targetFraction then 7 # 10 else targetFraction.

(** [startWindowMinutes] *)
Definition startWindowMinutes (c : RetentionConfig) : Z :=
  if rc_InterestingRetentionHours c <=? 0 then 48 * 60 else rc_InterestingRetentionHours c * 60.

(** [reclaimResult] *)
Record reclaimResult := mkReclaim {
  rr_used : Q;
  rr_rounds : nat;
  rr_evicted : Z;
  rr_windowMinutes : Z;
}.

(** What the database does to one round: the rows evicted and the usage measured after
    it, each [None] when the call fails, and whether the context is cancelled by then. *)
Record roundOutcome := mkRound {
  rnd_evicted : option Z;
  rnd_used : option Q;
  rnd_cancelled : bool;
}.

(** The loop of [evictUntilUnderTarget], with [n] rounds left: the result, whether it
    returns an error, and the windows it evicted with. *)
Fixpoint evictLoop (n : nat) (outcome : nat -> roundOutcome) (target : Q) (res : reclaimResult)
  : reclaimResult * bool * list Z :=
  match n with
  | O => (res, false, [])
  | S n =>
      if negb (Qltb target (rr_used res)) then (res, false, [])
      else
        let window := Z.max (rr_windowMinutes res /t 2) reclaimFloorMinutes in
        let round := outcome (rr_rounds res) in
        match rnd_evicted round with
        | None => (mkReclaim (rr_used res) (rr_rounds res) (rr_evicted res) window, true, [window])
        | Some rows =>
            let evicted := rr_evicted res + rows in
            match rnd_used round with
            | None => (mkReclaim (rr_used res) (rr_rounds res) evicted window, true, [window])
            | Some used =>
                if window <=? reclaimFloorMinutes then
                  (mkReclaim used (rr_rounds res) evicted window, false, [window])
                else if rnd_cancelled round then
                  (mkReclaim used (rr_rounds res) evicted window, true, [window])
                else
                  let '(r, err, ws) :=
                    evictLoop n outcome target (mkReclaim used (S (rr_rounds res)) evicted window) in
                  (r, err, window :: ws)
            end
        end
  end.

(** [RetentionWorker.evictUntilUnderTarget] *)
Definition evictUntilUnderTarget (c : RetentionConfig) (outcome : nat -> roundOutcome)
  (used target : Q) : reclaimResult * bool * list Z :=
  evictLoop reclaimRounds outcome target (mkReclaim used 0 0 (startWindowMinutes c)).

(** ** Properties of the retention windows and of the eviction loop

    Pressure shortens the windows of raw telemetry and nothing else, down to their
    floors; the eviction loop halves its window from round to round, stops at its
    target, its floor or its last round, and never evicts what is younger than the
    floor. *)

Open Scope Z_scope.

(** ** Windows under pressure *)

Lemma scale_spec v t floor :
  0 <= v ->
  scale v (factor t) floor =
    match t with TierNormal => v | TierElevated => Z.max (v / 2) floor | TierCritical => Z.max (v / 4) floor end.
Proof.
  intros Hv. destruct t; [done|..]; unfold scale; cbn [factor Qnum Qden];
    [change (Qle_bool 1 (1 # 2)) with false|change (Qle_bool 1 (1 # 4)) with false];
    rewrite Z.mul_1_r, Z.quot_div_nonneg by lia; (destruct (_ <? floor) eqn:E; to_prop; lia).
Qed.

(** The windows that pressure shortens, with their floors. *)
Definition rawWindows (c : RetentionConfig) : list (Z * Z) :=
  [(rc_InterestingRetentionHours c, 1); (rc_BoringRetentionMinutes c, 5); (rc_MetricsRetentionDays c, 1);
   (rc_LogRetentionHours c, 1); (rc_PromptRetentionDays c, 1); (rc_MetricRollupRetentionDays c, 1);
   (rc_SpanRollup5mHours c, 6)].

(** The limits that it leaves alone. *)
Definition keptWindows (c : RetentionConfig) : list Z :=
  [rc_ErrorRetentionDays c; rc_ErrorExemplarDays c; rc_AggregateRetentionDays c; rc_ErrorLogRetentionDays c;
   rc_SlowThresholdUS c; rc_SlowSampleTraces c; rc_HourlyRollupDays c; rc_DailyRollupDays c;
   rc_WeeklyRollupDays c; rc_MonthlyRollupDays c; rc_SpanRollupHourlyDays c; rc_SpanRollupDailyDays c].

Definition scaled (t : pressureTier) (p : Z * Z) : Z * Z := (scale p.1 (factor t) p.2, p.2).

Lemma Apply_fields t c :
  rawWindows (Apply t c) = scaled t <$> rawWindows c /\ keptWindows (Apply t c) = keptWindows c.
Proof. by destruct t. Qed.

Lemma scale_tiers v floor t t' :
  0 <= floor <= v -> Qle (factor t') (factor t) ->
  floor <= scale v (factor t') floor <= scale v (factor t) floor /\ scale v (factor t) floor <= v.
Proof.
  intros Hf Ht. rewrite !scale_spec by lia.
  assert (v / 4 <= v / 2 <= v /\ 0 <= v / 4).
  { pose proof (Z.div_mod v 4 ltac:(lia)). pose proof (Z.mod_pos_bound v 4 ltac:(lia)).
    pose proof (Z.div_mod v 2 ltac:(lia)). pose proof (Z.mod_pos_bound v 2 ltac:(lia)). lia. }
  destruct t, t'; try lia; exfalso; unfold Qle in Ht; cbn in Ht; lia.
Qed.

(** A configuration whose raw windows are not below their floors. *)
Definition aboveFloors (c : RetentionConfig) : Prop := Forall (fun p : Z * Z => p.2 <= p.1) (rawWindows c).

(** Disk pressure shortens windows in order.  For windows at or above their floors,
    every raw window under a higher pressure tier is at most that under a lower one and
    at most the configured one, and never below its floor; the windows of derived data
    and the sampling limits are the configured ones; and the fuller the volume the
    higher the tier. *)
Theorem pressure_shortens c w used used' :
  aboveFloors c -> Qle used used' ->
  let c1 := Apply (TierFor used w) c in
  let c2 := Apply (TierFor used' w) c in
  Forall2 (fun p q => q.1 <= p.1 /\ p.2 = q.2) (rawWindows c) (rawWindows c1) /\
  Forall2 (fun p q => q.2 <= q.1 <= p.1 /\ p.2 = q.2) (rawWindows c1) (rawWindows c2) /\
  keptWindows c1 = keptWindows c /\ keptWindows c2 = keptWindows c.
Proof.
  intros Hc Hu c1 c2. unfold c1, c2.
  destruct (Apply_fields (TierFor used w) c) as [-> ->], (Apply_fields (TierFor used' w) c) as [-> ->].
  assert (Qle (factor (TierFor used' w)) (factor (TierFor used w))) as Ht.
  { unfold TierFor. set (wd := watermarkDefaults w).
    destruct (Qle_bool (wm_Critical wd) used) eqn:E1.
    { apply Qle_bool_iff in E1. assert (Qle_bool (wm_Critical wd) used' = true) as ->
        by (apply Qle_bool_iff; by eapply Qle_trans). by apply Qle_bool_iff. }
    destruct (Qle_bool (wm_Elevated wd) used) eqn:E2.
    { apply Qle_bool_iff in E2. assert (Qle_bool (wm_Elevated wd) used' = true) as ->
        by (apply Qle_bool_iff; by eapply Qle_trans).
      destruct (Qle_bool (wm_Critical wd) used'); by apply Qle_bool_iff. }
    destruct (Qle_bool (wm_Critical wd) used'); [by apply Qle_bool_iff|].
    destruct (Qle_bool (wm_Elevated wd) used'); by apply Qle_bool_iff. }
  assert (Forall (fun p : Z * Z => 0 <= p.2 <= p.1) (rawWindows c)) as Hf.
  { assert (Forall (fun p : Z * Z => 0 <= p.2) (rawWindows c)) as H0 by (repeat constructor; cbn; lia).
    unfold aboveFloors in Hc. rewrite Forall_forall in *. auto. }
  split_and!; [..|done|done].
  - apply Forall2_fmap_r, Forall_Forall2_diag. eapply Forall_impl; [exact Hf|]. intros [v f] Hvf. cbn in *.
    destruct (scale_tiers v f _ _ Hvf Ht). split; [lia|done].
  - apply Forall2_fmap_l, Forall2_fmap_r, Forall_Forall2_diag. eapply Forall_impl; [exact Hf|].
    intros [v f] Hvf. cbn in *. destruct (scale_tiers v f _ _ Hvf Ht). split; [lia|done].
Qed.

Definition demoRetentionConfig : RetentionConfig :=
  retentionDefaults (mkRetention 0 0 0 0 0 0 0 0 0 0 0 0 0 0 0 0 0 0 0).

Lemma pressure_shortens_witness :
  keptWindows (Apply TierCritical demoRetentionConfig) = keptWindows demoRetentionConfig /\
  (rawWindows (Apply TierCritical demoRetentionConfig)).*1 = [12; 7; 1; 6; 7; 1; 18].
Proof.
  assert (aboveFloors demoRetentionConfig) as Ha by (repeat constructor; by vm_compute).
  destruct (pressure_shortens demoRetentionConfig (mkWatermarks 0 0) (95 # 100) (95 # 100) Ha
    ltac:(apply Qle_refl)) as (_ & _ & H1 & _).
  split; [exact H1|vm_compute; reflexivity].
Defined.

(** A window below its floor grows under pressure. *)
Example short_window_grows :
  scale 2 (factor TierElevated) 6 = 6 /\ scale 2 (factor TierCritical) 6 = 6.
Proof. done. Qed.

(** ** The eviction loop *)

(** The window of a round: halved each time, down to the floor. *)
Definition roundWindow (start : Z) (i : nat) : Z := Z.max (start / 2 ^ (Z.of_nat i + 1)) reclaimFloorMinutes.

Lemma roundWindow_next start i :
  0 <= start ->
  Z.max (roundWindow start i / 2) reclaimFloorMinutes = roundWindow start (S i).
Proof.
  intros Hs. unfold roundWindow, reclaimFloorMinutes.
  replace (2 ^ (Z.of_nat (S i) + 1)) with (2 ^ (Z.of_nat i + 1) * 2)
    by (replace (Z.of_nat (S i) + 1) with (Z.succ (Z.of_nat i + 1)) by lia; rewrite Z.pow_succ_r; lia).
  rewrite <- Z.div_div by (try apply Z.pow_pos_nonneg; lia).
  set (x := start / 2 ^ (Z.of_nat i + 1)). destruct (Z.max_spec x 15) as [[? ->]|[? ->]]; [|done].
  change (15 / 2) with 7. assert (x / 2 <= 15 / 2) by (apply Z.div_le_mono; lia).
  change (15 / 2) with 7 in *. lia.
Qed.

Lemma roundWindow_zero x : 0 <= x -> Z.max (x /t 2) reclaimFloorMinutes = roundWindow x 0.
Proof. intros. unfold roundWindow. rewrite Z.quot_div_nonneg by lia. done. Qed.

(** What a run of the loop shows: [i] rounds are done, [res] is the state. *)
Lemma evictLoop_spec outcome target start n : forall i res,
  0 <= start -> rr_rounds res = i ->
  Z.max (rr_windowMinutes res /t 2) reclaimFloorMinutes = roundWindow start i ->
  match evictLoop n outcome target res with
  | (r, err, ws) =>
      (length ws <= n)%nat /\
      (forall j x, ws !! j = Some x -> x = roundWindow start (i + j)) /\
      (err = false -> Qle (rr_used r) target \/ last ws = Some reclaimFloorMinutes \/ length ws = n) /\
      (ws <> [] -> Qlt target (rr_used res)) /\
      (forall j, (S j < length ws)%nat -> exists used,
        rnd_used (outcome (i + j)%nat) = Some used /\ Qlt target used)
  end.
Proof.
  induction n as [|n IH]; intros i res Hs Hi Hw; cbn [evictLoop].
  { split_and!; [done|done|by right; right|done|intros j Hj; cbn in Hj; lia]. }
  destruct (Qltb target (rr_used res)) eqn:Eq; cbn [negb].
  2:{ apply negb_false_iff, Qle_bool_iff in Eq.
      split_and!; [cbn; lia|done|by left|done|intros j Hj; cbn in Hj; lia]. }
  assert (Qlt target (rr_used res)) as Hlt.
  { apply Qnot_le_lt. intros Hle%Qle_bool_iff. unfold Qltb in Eq. by rewrite Hle in Eq. }
  rewrite Hw, Hi. set (x := roundWindow start i).
  assert (forall j y, [x] !! j = Some y -> y = roundWindow start (i + j)) as Hone.
  { intros [|j] y; cbn; [intros [= <-]; by rewrite Nat.add_0_r|done]. }
  destruct (rnd_evicted (outcome i)) as [rows|].
  2:{ split_and!; [cbn; lia|done|done|done|intros j Hj; cbn in Hj; lia]. }
  destruct (rnd_used (outcome i)) as [used|] eqn:Er.
  2:{ split_and!; [cbn; lia|done|done|done|intros j Hj; cbn in Hj; lia]. }
  destruct (x <=? reclaimFloorMinutes) eqn:Ef; to_prop.
  { split_and!; [cbn; lia|done| |done|intros j Hj; cbn in Hj; lia]. intros _. right. left. cbn. f_equal.
    unfold x, roundWindow, reclaimFloorMinutes in *. lia. }
  destruct (rnd_cancelled (outcome i)).
  { split_and!; [cbn; lia|done|done|done|intros j Hj; cbn in Hj; lia]. }
  specialize (IH (S i) (mkReclaim used (S i) (rr_evicted res + rows) x) Hs eq_refl).
  cbn [rr_windowMinutes rr_used] in IH. rewrite Z.quot_div_nonneg in IH by
    (unfold x, roundWindow, reclaimFloorMinutes in *; lia).
  specialize (IH (roundWindow_next start i Hs)).
  destruct (evictLoop n _ _ _) as [[r err] ws]. destruct IH as (I1 & I2 & I3 & I4 & I5).
  split_and!; [cbn; lia| | |done|].
  - intros [|j] y; cbn; [intros [= <-]; by rewrite Nat.add_0_r|]. intros Hj. rewrite (I2 j y Hj). f_equal. lia.
  - intros E. destruct (I3 E) as [?|[Hl|Hl]]; [by left|right; left|right; right; cbn; lia].
    destruct ws; [done|]. by rewrite last_cons_cons.
  - intros j Hj. cbn in Hj. destruct j as [|j].
    + rewrite Nat.add_0_r. exists used. split; [done|]. apply I4. intros ->. cbn in Hj. lia.
    + replace (i + S j)%nat with (S i + j)%nat by lia. apply I5. lia.
Qed.

(** Eviction is bounded and stops for a reason.  It runs at most ten rounds; round
    [i] evicts with the start window halved [i + 1] times but never less than 15
    minutes, and only while the volume is over its target; and a run without an error
    ends under the target, at the 15-minute floor, or after ten rounds. *)
Theorem evict_bounded c outcome used target :
  match evictUntilUnderTarget c outcome used target with
  | (r, err, ws) =>
      (length ws <= reclaimRounds)%nat /\
      (forall i x, ws !! i = Some x ->
        x = Z.max (startWindowMinutes c / 2 ^ (Z.of_nat i + 1)) reclaimFloorMinutes) /\
      (ws <> [] -> Qlt target used) /\
      (forall i, (S i < length ws)%nat -> exists u,
        rnd_used (outcome i) = Some u /\ Qlt target u) /\
      (err = false ->
        Qle (rr_used r) target \/ last ws = Some reclaimFloorMinutes \/ length ws = reclaimRounds)
  end.
Proof.
  assert (0 <= startWindowMinutes c) as Hs
    by (unfold startWindowMinutes; destruct (_ <=? 0) eqn:E; to_prop; lia).
  pose proof (evictLoop_spec outcome target (startWindowMinutes c) reclaimRounds 0
    (mkReclaim used 0 0 (startWindowMinutes c)) Hs eq_refl (roundWindow_zero _ Hs)) as H.
  unfold evictUntilUnderTarget. destruct (evictLoop _ _ _ _) as [[r err] ws].
  destruct H as (H1 & H2 & H3 & H4 & H5). by split_and!.
Qed.
