(* ===== verification/RetentionDrain.v ===== *)
(** * Draining old spans ([internal/retention/retention.go], [parts.go],
    [slow_samples.go], and the span deletes of [repo_spans.go] and
    [repo_trace_structure.go])

    A retention cycle reads the oldest spans in batches, copies the error, durable and
    slow ones to [error_samples] and deletes the batch by its highest id.  Every
    database call may fail: the state carries the outcomes of the calls to come, and a
    call past the end of the list succeeds.  The trace summaries that the delete
    refreshes afterwards are not part of the state. *)
From S2P Require Import Prelude Model TierStore RetentionConfig.

(** ** Slow samples *)

(** [slowKey]: project, service, operation and ingest hour. *)
Definition slowKey : Type := Z * string * string * Z.

Definition sk_hour (k : slowKey) : Z := k.2.

(** [slowSampler] *)
Record slowSampler := mkSlow { sl_traces : gmap slowKey (gset string); sl_newest : Z }.

(** [slowScopeHours] *)
Definition slowScopeHours : Z := 2.

Definition slowKeyOf (s : Span) : slowKey :=
  (sp_ProjectID s, sp_Service s, sp_Name s, Unix (ingestedNs s) /t 3600).

(** [slowSampler.forgetBefore] *)
Definition forgetBefore (h : Z) (m : gmap slowKey (gset string)) : gmap slowKey (gset string) :=
  filter (fun kv => ~ sk_hour kv.1 < h) m.

(** [slowSampler.admit] *)
Definition slow_admit (s : Span) (limit : Z) (p : slowSampler) : bool * slowSampler :=
  let key := slowKeyOf s in
  let p := if sl_newest p <? sk_hour key
           then mkSlow (forgetBefore (sk_hour key - slowScopeHours) (sl_traces p)) (sk_hour key)
           else p in
  let ids := default ∅ (sl_traces p !! key) in
  if decide (sp_TraceID s ∈ ids) then (true, p)
  else if limit <=? Z.of_nat (size ids) then (false, p)
  else (true, mkSlow (<[key := {[sp_TraceID s]} ∪ ids]> (sl_traces p)) (sl_newest p)).

(** One span of [samplesOf]. *)
Definition sampleOne (c : RetentionConfig) (st : list Span * Z * slowSampler) (s : Span)
  : list Span * Z * slowSampler :=
  let '(samples, skipped, p) := st in
  if bool_decide (sp_Status s = "error") || sp_Durable s then (samples ++ [s], skipped, p)
  else if rc_SlowThresholdUS c <? sp_DurationUs s then
    let '(ok, p) := slow_admit s (rc_SlowSampleTraces c) p in
    if ok then (samples ++ [s], skipped, p) else (samples, skipped + 1, p)
  else st.

(** [RetentionWorker.samplesOf] *)
Definition samplesOf (c : RetentionConfig) (batch : list Span) (p : slowSampler)
  : list Span * Z * slowSampler :=
  foldl (sampleOne c) ([], 0, p) batch.

(** ** The drain *)

(** [cycleStats]: what the drain counts. *)
Record drainStats := mkDrainStats {
  dst_errorsSampled : Z;
  dst_slowSamplesSkipped : Z;
  dst_spansDeleted : Z;
  dst_backlogRemains : bool;
}.

(** The [spans] and [error_samples] tables, the worker's fields, the outcomes to come. *)
Record drain := mkDrain {
  dr_spans : list Span;
  dr_samples : list Span;
  dr_slow : slowSampler;
  dr_stats : drainStats;
  dr_faults : list bool;
}.

Definition D (A : Type) : Type := drain -> option A * drain.

#[export] Instance D_ret : MRet D := fun A a d => (Some a, d).

#[export] Instance D_bind : MBind D := fun A B f m d =>
  match m d with (Some a, d) => f a d | (None, d) => (None, d) end.

(** A database call that does [f] when it succeeds. *)
Definition call {A} (f : drain -> A * drain) : D A := fun d =>
  let ok := hd true (dr_faults d) in
  let d := mkDrain (dr_spans d) (dr_samples d) (dr_slow d) (dr_stats d) (tl (dr_faults d)) in
  if ok then let '(a, d) := f d in (Some a, d) else (None, d).

Definition setSpans (l : list Span) (d : drain) : drain :=
  mkDrain l (dr_samples d) (dr_slow d) (dr_stats d) (dr_faults d).

Definition gets {A} (f : drain -> A) : D A := fun d => (Some (f d), d).

Definition modify (f : drain -> drain) : D unit := fun d => (Some tt, f d).

Definition onStats (f : drainStats -> drainStats) (d : drain) : drain :=
  mkDrain (dr_spans d) (dr_samples d) (dr_slow d) (f (dr_stats d)) (dr_faults d).

Definition addSampled (n : Z) (st : drainStats) : drainStats :=
  mkDrainStats (dst_errorsSampled st + n) (dst_slowSamplesSkipped st) (dst_spansDeleted st)
    (dst_backlogRemains st).

Definition addSkipped (n : Z) (st : drainStats) : drainStats :=
  mkDrainStats (dst_errorsSampled st) (dst_slowSamplesSkipped st + n) (dst_spansDeleted st)
    (dst_backlogRemains st).

Definition addDeleted (n : Z) (st : drainStats) : drainStats :=
  mkDrainStats (dst_errorsSampled st) (dst_slowSamplesSkipped st) (dst_spansDeleted st + n)
    (dst_backlogRemains st).

Definition markBacklog (st : drainStats) : drainStats :=
  mkDrainStats (dst_errorsSampled st) (dst_slowSamplesSkipped st) (dst_spansDeleted st) true.

(** The order of the index on [ingested_at], which ends in the row id. *)
Definition byIngest (a b : Span) : Prop :=
  ingestedNs a < ingestedNs b \/ (ingestedNs a = ingestedNs b /\ sp_ID a <= sp_ID b).

#[export] Instance byIngest_dec : RelDecision byIngest.
Proof. intros a b. unfold byIngest. apply _. Defined.

(** [Repository.GetSpansForAggregation] *)
Definition GetSpansForAggregation (cutoff : Z) (limit : nat) : D (list Span) :=
  call (fun d =>
    (take limit (merge_sort byIngest (filter (fun s => ingestedNs s <= cutoff) (dr_spans d))), d)).

(** [Repository.InsertErrorSamples]: one transaction. *)
Definition InsertErrorSamples (samples : list Span) : D unit :=
  call (fun d => (tt, mkDrain (dr_spans d) (dr_samples d ++ samples) (dr_slow d) (dr_stats d) (dr_faults d))).

(** [Repository.DeleteSpansOlderThan], the first statement of [evictOlderThan] *)
Definition DeleteSpansOlderThan (cutoff : Z) : D Z :=
  call (fun d =>
    let kept := filter (fun s => ~ ingestedNs s < cutoff) (dr_spans d) in
    (Z.of_nat (length (dr_spans d)) - Z.of_nat (length kept), setSpans kept d)).

(** [spanDeleteChunk] *)
Definition spanDeleteChunk : nat := 1000.

(** One statement of [DeleteSpansByMaxID]. *)
Definition deleteChunk (maxID : Z) : D nat :=
  call (fun d =>
    let victims := take spanDeleteChunk
      (merge_sort byID (filter (fun s => sp_ID s <= maxID) (dr_spans d))) in
    (length victims, setSpans (filter (fun s => sp_ID s ∉ sp_ID <$> victims) (dr_spans d)) d)).

(** [deleteInChunks]; a full chunk deletes rows, so the rows are fuel enough. *)
Fixpoint deleteInChunks (fuel : nat) (maxID : Z) (total : nat) : D nat :=
  match fuel with
  | O => mret total
  | S fuel =>
      n ← deleteChunk maxID;
      if (n <? spanDeleteChunk)%nat then mret (total + n)%nat
      else deleteInChunks fuel maxID (total + n)
  end.

(** [Repository.DeleteSpansByMaxIDRefreshing]: the calls before and after the deletes
    read and write trace summaries. *)
Definition DeleteSpansByMaxIDRefreshing (maxID : Z) : D nat :=
  _ ← call (fun d => (tt, d));
  fuel ← gets (fun d => S (length (dr_spans d)));
  n ← deleteInChunks fuel maxID 0;
  _ ← call (fun d => (tt, d));
  mret n.

(** The highest id of a part. *)
Definition maxIDOf (batch : list Span) : Z :=
  match batch with [] => 0 | s :: l => foldl (fun m s => Z.max m (sp_ID s)) (sp_ID s) l end.

(** The slow sampler moves on while the samples are chosen. *)
Definition takeSamples (c : RetentionConfig) (batch : list Span) : D (list Span) := fun d =>
  let '(samples, skipped, slow) := samplesOf c batch (dr_slow d) in
  (Some samples,
   onStats (addSkipped skipped) (mkDrain (dr_spans d) (dr_samples d) slow (dr_stats d) (dr_faults d))).

(** [RetentionWorker.sampleAndDelete]; the batch is not empty. *)
Definition sampleAndDelete (c : RetentionConfig) (batch : list Span) : D unit :=
  samples ← takeSamples c batch;
  _ ← (if (0 <? length samples)%nat then
         _ ← InsertErrorSamples samples;
         modify (onStats (addSampled (Z.of_nat (length samples))))
       else mret tt);
  n ← DeleteSpansByMaxIDRefreshing (maxIDOf batch);
  modify (onStats (addDeleted (Z.of_nat n))).

(** [retentionPart] *)
Definition retentionPart : nat := 1000.

(** [spanParts] *)
Definition spanParts (batch : list Span) (size : nat) : list (list Span) :=
  Chunk size (merge_sort byID batch).

(** [RetentionWorker.sampleAndDeleteInParts]; a cancelled context is a failed call. *)
Fixpoint sampleParts (c : RetentionConfig) (parts : list (list Span)) : D unit :=
  match parts with
  | [] => mret tt
  | part :: parts =>
      _ ← call (fun d => (tt, d));
      _ ← sampleAndDelete c part;
      sampleParts c parts
  end.

Definition sampleAndDeleteInParts (c : RetentionConfig) (batch : list Span) : D unit :=
  sampleParts c (spanParts batch retentionPart).

(** [defaultBatchSize] and [maxSpansPerCycle] *)
Definition defaultBatchSize : nat := 5000.

Definition maxSpansPerCycle : Z := 50000.

(** The loop of [drainOldSpans]; a full batch deletes rows, so the rows are fuel enough. *)
Fixpoint drainOldLoop (fuel : nat) (c : RetentionConfig) (cutoff : Z) : D unit :=
  match fuel with
  | O => mret tt
  | S fuel =>
      _ ← call (fun d => (tt, d));
      batch ← GetSpansForAggregation cutoff defaultBatchSize;
      if bool_decide (batch = []) then mret tt
      else
        _ ← sampleAndDeleteInParts c batch;
        if (length batch <? defaultBatchSize)%nat then mret tt
        else
          deleted ← gets (fun d => dst_spansDeleted (dr_stats d));
          if maxSpansPerCycle <=? deleted then modify (onStats markBacklog)
          else drainOldLoop fuel c cutoff
  end.

(** [RetentionWorker.drainOldSpans] *)
Definition drainOldSpans (c : RetentionConfig) (cutoff : Z) : D unit :=
  fuel ← gets (fun d => S (length (dr_spans d)));
  drainOldLoop fuel c cutoff.
