(* ===== verification/RetentionDrainProps.v ===== *)
(** * What a drain keeps: samples before deletes *)
From S2P Require Import Prelude Model TierStore RetentionConfig RetentionDrain.

(** ** Sorted lists and their chunks *)

#[export] Instance byID_total : Total byID.
Proof. intros a b. unfold byID. lia. Qed.

#[export] Instance byID_trans : Transitive byID.
Proof. intros a b c. unfold byID. lia. Qed.

#[export] Instance byIngest_total : Total byIngest.
Proof. intros a b. unfold byIngest. lia. Qed.

#[export] Instance byIngest_trans : Transitive byIngest.
Proof. intros a b c. unfold byIngest. lia. Qed.

(** The rows of a front of a sorted list come before the others. *)
Lemma sorted_take {A} (R : relation A) n l x y :
  StronglySorted R l -> x ∈ take n l -> y ∈ l -> y ∉ take n l -> R x y.
Proof.
  intros Hs Hx Hy Hn. rewrite <- (take_drop n l) in Hs, Hy.
  apply elem_of_app in Hy as [?|Hy]; [done|].
  apply StronglySorted_app in Hs as (Hs & _ & _). by apply Hs.
Qed.

Lemma maxIDOf_spec batch : batch <> [] ->
  (exists s, s ∈ batch /\ sp_ID s = maxIDOf batch) /\ forall s, s ∈ batch -> sp_ID s <= maxIDOf batch.
Proof.
  destruct batch as [|s l]; [done|]. intros _. unfold maxIDOf.
  assert (forall l m, m <= foldl (fun m s => Z.max m (sp_ID s)) m l /\
    (forall x, x ∈ l -> sp_ID x <= foldl (fun m s => Z.max m (sp_ID s)) m l) /\
    (foldl (fun m s => Z.max m (sp_ID s)) m l = m \/
     exists x, x ∈ l /\ sp_ID x = foldl (fun m s => Z.max m (sp_ID s)) m l)) as H.
  { clear. induction l as [|x l IH]; intros m; simpl; [split_and!; [lia|set_solver|by left]|].
    destruct (IH (Z.max m (sp_ID x))) as (H1 & H2 & H3). split_and!; [lia| |].
    - intros y [->|Hy]%elem_of_cons; [lia|auto].
    - destruct H3 as [H3|(y & Hy & H3)]; [|right; exists y; split; [by right|done]].
      destruct (Z.max_spec m (sp_ID x)) as [[? E]|[? E]]; rewrite E in *; [|by left].
      right. exists x. split; [by left|done]. }
  destruct (H l (sp_ID s)) as (H1 & H2 & H3). split.
  - destruct H3 as [H3|(x & Hx & H3)]; [exists s; split; [by left|done]|exists x; split; [by right|done]].
  - intros x [->|Hx]%elem_of_cons; [done|auto].
Qed.

(** ** Samples *)

(** The spans that must outlive the raw window. *)
Definition mustKeep (s : Span) : Prop := sp_Status s = "error"%string \/ sp_Durable s = true.

Lemma sampleOne_grows c st s x : x ∈ st.1.1 -> x ∈ (sampleOne c st s).1.1.
Proof.
  destruct st as [[samples skipped] p]. unfold sampleOne. cbn [fst]. intros Hx.
  destruct (_ || _); [set_solver|]. destruct (_ <? _); [|done].
  destruct (slow_admit _ _ _) as [[] p']; cbn [fst]; set_solver.
Qed.

Lemma samplesOf_must c batch p s : s ∈ batch -> mustKeep s -> s ∈ (samplesOf c batch p).1.1.
Proof.
  intros Hs Hm. unfold samplesOf.
  assert (forall l st, s ∈ st.1.1 -> s ∈ (foldl (sampleOne c) st l).1.1) as Hg.
  { induction l as [|x l IH]; intros st Hx; [done|]. by apply IH, sampleOne_grows. }
  generalize (@nil Span, 0, p) as st. induction batch as [|x l IH]; intros st;
    [by apply not_elem_of_nil in Hs|].
  apply elem_of_cons in Hs as [<-|Hs]; [|by apply IH].
  change (s ∈ (foldl (sampleOne c) (sampleOne c st s) l).1.1). apply Hg.
  destruct st as [[samples skipped] q]. unfold sampleOne. cbv beta iota.
  destruct Hm as [Hm|Hm].
  - rewrite bool_decide_eq_true_2 by done. cbn. set_solver.
  - rewrite Hm, orb_true_r. cbn. set_solver.
Qed.

(** ** The deletes *)

Definition idsUnique (l : list Span) : Prop := NoDup (sp_ID <$> l).

Lemma idsUnique_filter (P : Span -> Prop) `{!forall s, Decision (P s)} l :
  idsUnique l -> idsUnique (filter P l).
Proof. intros Hn. eapply sublist_NoDup; [exact Hn|]. apply fmap_sublist, sublist_filter. Qed.

Lemma unique_eq l x y : idsUnique l -> x ∈ l -> y ∈ l -> sp_ID x = sp_ID y -> x = y.
Proof.
  unfold idsUnique. induction l as [|a l IH]; intros Hn Hx Hy E; [by apply not_elem_of_nil in Hx|].
  apply NoDup_cons in Hn as [Ha Hn].
  apply elem_of_cons in Hx as [->|Hx], Hy as [->|Hy]; [done|..|by apply IH];
    destruct Ha; [rewrite E|rewrite <- E]; by apply list_elem_of_fmap_2.
Qed.

(** A run that touches the spans at most by deleting ids up to [m]. *)
Definition deletesUpTo (m : Z) (d d' : drain) : Prop :=
  dr_spans d' ⊆ dr_spans d /\ (length (dr_spans d') <= length (dr_spans d))%nat /\
  (idsUnique (dr_spans d) -> idsUnique (dr_spans d')) /\
  dr_samples d' = dr_samples d /\ dr_slow d' = dr_slow d /\ dr_stats d' = dr_stats d /\
  (dr_faults d = [] -> dr_faults d' = []) /\
  forall s, s ∈ dr_spans d -> s ∉ dr_spans d' -> sp_ID s <= m.

Lemma deletesUpTo_trans m d d1 d2 : deletesUpTo m d d1 -> deletesUpTo m d1 d2 -> deletesUpTo m d d2.
Proof.
  intros (A1 & A2 & A3 & A4 & A5 & A6 & A7 & A8) (B1 & B2 & B3 & B4 & B5 & B6 & B7 & B8).
  split_and!; [by transitivity (dr_spans d1)|lia|auto|congruence..|auto|].
  intros s Hs Hn. destruct (decide (s ∈ dr_spans d1)); eauto.
Qed.

Lemma call_keeps m d : deletesUpTo m d (call (fun d => (tt, d)) d).2 /\
  (dr_faults d = [] -> (call (fun d => (tt, d)) d).1 = Some tt).
Proof.
  unfold call. split; [|by intros ->].
  destruct (hd true (dr_faults d)); cbn; split_and!; try done; try (by intros ->); by intros s ? ?.
Qed.

(** One chunk deletes ids up to [m], and everything there is unless it is full. *)
Lemma deleteChunk_spec m d :
  match deleteChunk m d with
  | (res, d') => deletesUpTo m d d' /\ (dr_faults d = [] -> exists n, res = Some n) /\
      forall n, res = Some n ->
        (if (n <? spanDeleteChunk)%nat then forall s, s ∈ dr_spans d' -> m < sp_ID s
         else (length (dr_spans d') < length (dr_spans d))%nat)
  end.
Proof.
  unfold deleteChunk, call. set (ok := hd true (dr_faults d)).
  set (cands := merge_sort byID (filter (fun s => sp_ID s <= m) (dr_spans d))).
  assert (forall s, s ∈ cands <-> sp_ID s <= m /\ s ∈ dr_spans d) as Hc.
  { intros s. unfold cands. by rewrite merge_sort_Permutation, list_elem_of_filter. }
  destruct ok eqn:Eok; cbn [dr_spans setSpans dr_samples dr_slow dr_stats dr_faults fst snd].
  2: { split; [|split; [|done]].
       - split_and!; try done; try (by intros ->); by intros s ? ?.
       - intros E. unfold ok in Eok. by rewrite E in Eok. }
  fold cands. set (victims := take spanDeleteChunk cands).
  assert (forall s, s ∈ victims -> sp_ID s <= m /\ s ∈ dr_spans d) as Hv.
  { intros s Hs. apply Hc. by eapply subseteq_take. }
  split; [split_and!; try done|split].
  - intros s [_ ?]%list_elem_of_filter. done.
  - apply length_filter.
  - apply idsUnique_filter.
  - by intros ->.
  - intros s Hs Hn. cbn [dr_spans setSpans] in Hn. rewrite list_elem_of_filter in Hn.
    destruct (decide (sp_ID s ∈ sp_ID <$> victims)) as [Hin|]; [|tauto].
    apply list_elem_of_fmap in Hin as (x & -> & Hx). by apply Hv.
  - by eauto.
  - intros n [= <-]. destruct (_ <? _)%nat eqn:El.
    + apply Nat.ltb_lt in El. intros s [Hn Hs]%list_elem_of_filter.
      destruct (decide (sp_ID s <= m)) as [Hle|]; [|lia]. destruct Hn.
      apply list_elem_of_fmap_2. unfold victims. rewrite take_ge; [by apply Hc|].
      unfold victims in El. rewrite length_take in El. lia.
    + apply Nat.ltb_ge in El. destruct victims as [|x l] eqn:Ev; [unfold spanDeleteChunk in El; cbn in El; lia|].
      destruct (Hv x) as [_ Hx]; [by left|]. apply (length_filter_lt _ _ x); [done|]. intros Hn. apply Hn.
      rewrite fmap_cons. by left.
Qed.

(** Deleting up to [m] in chunks deletes nothing else, and all of it on success. *)
Lemma deleteInChunks_spec m fuel : forall total d,
  match deleteInChunks fuel m total d with
  | (res, d') => deletesUpTo m d d' /\
      ((length (dr_spans d) < fuel)%nat ->
       (dr_faults d = [] -> exists n, res = Some n) /\
       forall n, res = Some n -> forall s, s ∈ dr_spans d' -> m < sp_ID s)
  end.
Proof.
  induction fuel as [|fuel IH]; intros total d; cbn [deleteInChunks].
  { split; [|lia]. split_and!; try done. }
  unfold mbind, D_bind. pose proof (deleteChunk_spec m d) as H.
  destruct (deleteChunk m d) as [[n|] d1]; destruct H as (H1 & Hf & Hn).
  2: { split; [done|]. intros _. split; [|done]. intros E. by destruct (Hf E). }
  specialize (Hn n eq_refl). destruct (n <? spanDeleteChunk)%nat.
  { cbn. split; [done|]. intros _. split; [eauto|]. by intros ? _. }
  specialize (IH (total + n)%nat d1). destruct (deleteInChunks fuel m (total + n) d1) as [res d2].
  destruct IH as [H2 H3]. split; [by eapply deletesUpTo_trans|]. intros Hl.
  destruct H3 as [H4 H5]; [lia|]. split; [|done]. intros E. apply H4. by apply H1.
Qed.

Lemma refreshing_spec m d :
  match DeleteSpansByMaxIDRefreshing m d with
  | (res, d') => deletesUpTo m d d' /\ (dr_faults d = [] -> exists n, res = Some n) /\
      forall n, res = Some n -> forall s, s ∈ dr_spans d' -> m < sp_ID s
  end.
Proof.
  unfold DeleteSpansByMaxIDRefreshing, mbind, D_bind, gets.
  destruct (call_keeps m d) as [H1 F1]. destruct (call _ d) as [[[]|] d1]; cbn [fst snd] in *.
  2: { split; [done|split; [|done]]. by intros ?%F1. }
  pose proof (deleteInChunks_spec m (S (length (dr_spans d1))) 0 d1) as H2.
  destruct (deleteInChunks _ m 0 d1) as [[n|] d2]; destruct H2 as [H2 H3];
    destruct (H3 (Nat.lt_succ_diag_r _)) as [F2 H3']; clear H3; rename H3' into H3.
  2: { split; [by eapply deletesUpTo_trans|split; [|done]]. intros E.
       destruct (F2 (proj1 (proj2 (proj2 (proj2 (proj2 (proj2 (proj2 H1)))))) E)) as [? [=]]. }
  destruct (call_keeps m d2) as [H4 F4].
  assert (dr_spans (call (fun d => (tt, d)) d2).2 = dr_spans d2) as Es by (unfold call; by destruct (hd _ _)).
  destruct (call _ d2) as [[[]|] d3]; cbn [fst snd] in *.
  - split; [eapply deletesUpTo_trans; [done|by eapply deletesUpTo_trans]|]. split; [eauto|].
    intros k _ s. rewrite Es. exact (H3 n eq_refl s).
  - split; [eapply deletesUpTo_trans; [done|by eapply deletesUpTo_trans]|]. split; [|done].
    intros E. assert (dr_faults d2 = []) as E2 by (by apply H2, H1). by apply F4 in E2.
Qed.

(** ** Parts of a batch *)

(** What a drain may do: it deletes spans at or before the cutoff, and error and
    durable spans only once they are in [error_samples]. *)
Definition drained (cutoff : Z) (d d' : drain) : Prop :=
  dr_spans d' ⊆ dr_spans d /\ (length (dr_spans d') <= length (dr_spans d))%nat /\
  (idsUnique (dr_spans d) -> idsUnique (dr_spans d')) /\ dr_samples d ⊆ dr_samples d' /\
  (dr_faults d = [] -> dr_faults d' = []) /\
  forall s, s ∈ dr_spans d -> s ∉ dr_spans d' ->
    ingestedNs s <= cutoff /\ (mustKeep s -> s ∈ dr_samples d').

Lemma drained_refl cutoff d : drained cutoff d d.
Proof. split_and!; done. Qed.

Lemma drained_trans cutoff d d1 d2 : drained cutoff d d1 -> drained cutoff d1 d2 -> drained cutoff d d2.
Proof.
  intros (A1 & A2 & A3 & A4 & A5 & A6) (B1 & B2 & B3 & B4 & B5 & B6).
  split_and!; [by transitivity (dr_spans d1)|lia|auto|by transitivity (dr_samples d1)|auto|].
  intros s Hs Hn. destruct (decide (s ∈ dr_spans d1)) as [|Hd]; [by apply B6|].
  destruct (A6 s Hs Hd). split; [done|]. auto.
Qed.

(** A part that holds every stored span up to its highest id is drained whole. *)
Lemma sampleAndDelete_spec c cutoff part d :
  part <> [] -> (forall s, s ∈ part -> ingestedNs s <= cutoff) ->
  (forall x, x ∈ dr_spans d -> sp_ID x <= maxIDOf part -> x ∈ part) ->
  match sampleAndDelete c part d with
  | (res, d') => drained cutoff d d' /\ (dr_faults d = [] -> res = Some tt) /\
      (res = Some tt -> forall s, s ∈ dr_spans d' -> maxIDOf part < sp_ID s)
  end.
Proof.
  intros Hne Hcut Hall. unfold sampleAndDelete, mbind, D_bind, takeSamples.
  pose proof (fun s => samplesOf_must c part (dr_slow d) s) as Hm.
  destruct (samplesOf c part (dr_slow d)) as [[samples skipped] slow]. cbn [fst] in Hm.
  set (d0 := onStats _ _). assert (drained cutoff d d0) as H0 by (split_and!; done).
  assert (forall x, x ∈ dr_spans d0 -> sp_ID x <= maxIDOf part -> x ∈ part) as Hall0 by done.
  clearbody d0.
  assert (exists r1 d1, (if (0 <? length samples)%nat then
      (fun d => match InsertErrorSamples samples d with
        | (Some _, d) => modify (onStats (addSampled (Z.of_nat (length samples)))) d
        | (None, d) => (None, d) end) else mret tt) d0 = (r1, d1) /\
      drained cutoff d0 d1 /\ dr_spans d1 = dr_spans d0 /\ (dr_faults d0 = [] -> r1 = Some tt) /\
      (r1 = Some tt -> forall s, s ∈ part -> mustKeep s -> s ∈ dr_samples d1)) as
    (r1 & d1 & -> & H1 & Es & F1 & Hin).
  { destruct samples as [|x l] eqn:El; cbn [length Nat.ltb Nat.leb].
    - exists (Some tt), d0. split_and!; try done. intros _ s Hs Hk.
      by apply Hm, not_elem_of_nil in Hs.
    - rewrite <- El in *. unfold InsertErrorSamples, call.
      destruct (hd true (dr_faults d0)) eqn:Eh; eexists _, _; (split; [reflexivity|]); cbn.
      + split_and!; try done; [split_and!; try done; [by apply list_subseteq_app_l|by intros ->]|].
        intros _ s Hs Hk. apply elem_of_app. right. by apply Hm.
      + split_and!; try done; [split_and!; try done; by intros ->|]. intros E. by rewrite E in Eh. }
  pose proof (drained_trans _ _ _ _ H0 H1) as H01.
  destruct r1 as [[]|]; [|split; [done|split; [by intros E; apply F1, H0|done]]].
  specialize (Hin eq_refl). pose proof (refreshing_spec (maxIDOf part) d1) as H2.
  assert (forall d2, deletesUpTo (maxIDOf part) d1 d2 -> drained cutoff d1 d2) as Hd.
  { intros d2 (A1 & A2 & A3 & A4 & _ & _ & A7 & A8). split_and!; try done; [by rewrite A4|].
    intros s Hs Hn. assert (s ∈ part) as Hp by (apply Hall0; [by rewrite <- Es|by apply A8]).
    split; [by apply Hcut|]. rewrite A4. by apply Hin. }
  destruct (DeleteSpansByMaxIDRefreshing (maxIDOf part) d1) as [[n|] d2]; destruct H2 as (H2 & F2 & Hgone).
  - cbn. split; [|split; [done|]].
    + eapply drained_trans; [exact H01|]. eapply drained_trans; [by apply Hd|]. split_and!; done.
    + intros _. exact (Hgone n eq_refl).
  - split; [by eapply drained_trans; [exact H01|apply Hd]|]. split; [|done].
    intros E. destruct F2 as [? [=]]. by apply H01.
Qed.

Lemma sampleParts_spec c cutoff ps : forall d,
  Forall (fun p => p <> []) ps -> (forall s, s ∈ mjoin ps -> ingestedNs s <= cutoff) ->
  StronglySorted byID (mjoin ps) -> idsUnique (mjoin ps) ->
  (forall x s, x ∈ dr_spans d -> s ∈ mjoin ps -> sp_ID x <= sp_ID s -> x ∈ mjoin ps) ->
  match sampleParts c ps d with
  | (res, d') => drained cutoff d d' /\ (dr_faults d = [] -> res = Some tt) /\
      (res = Some tt -> forall s, s ∈ mjoin ps -> s ∉ dr_spans d')
  end.
Proof.
  induction ps as [|p ps IH]; intros d Hne Hcut Hsort Hid Hcl; cbn [sampleParts].
  { cbn. split; [apply drained_refl|split; [done|]]. by intros _ s ?%not_elem_of_nil. }
  apply Forall_cons in Hne as [Hp Hne]. change (mjoin (p :: ps)) with (p ++ mjoin ps) in *.
  apply StronglySorted_app in Hsort as (Hle & _ & Hsort).
  unfold idsUnique in Hid. rewrite fmap_app in Hid. apply NoDup_app in Hid as (_ & Hdis & Hid).
  destruct (maxIDOf_spec p Hp) as [(s0 & Hs0 & E0) Hmax].
  unfold mbind, D_bind. destruct (call_keeps 0 d) as [H0 F0].
  assert (dr_spans (call (fun d => (tt, d)) d).2 = dr_spans d /\
    drained cutoff d (call (fun d => (tt, d)) d).2) as [Es D0].
  { unfold call. destruct (hd _ _) eqn:Eh; cbn; (split; [done|]); split_and!; try done; by intros ->. }
  destruct (call _ d) as [[[]|] d0]; cbn [fst snd] in *.
  2: { split; [done|split; [|done]]. by intros ?%F0. }
  pose proof (sampleAndDelete_spec c cutoff p d0 Hp) as H1.
  destruct (sampleAndDelete c p d0) as [res1 d1]. destruct H1 as (H1 & F1 & Hgone).
  { intros s Hs. apply Hcut, elem_of_app. by left. }
  { intros x Hx Hle'. rewrite Es in Hx.
    assert (x ∈ p ++ mjoin ps) as [?|Hin]%elem_of_app; [|done|].
    { apply (Hcl x s0); [done|apply elem_of_app; by left|lia]. }
    exfalso. apply (Hdis (sp_ID s0)); [by apply list_elem_of_fmap_2|].
    specialize (Hle s0 x Hs0 Hin). unfold byID in Hle.
    replace (sp_ID s0) with (sp_ID x) by lia. by apply list_elem_of_fmap_2. }
  pose proof (drained_trans _ _ _ _ D0 H1) as D1.
  destruct res1 as [[]|]; [|split; [done|split; [|done]]; intros E; by apply F1, D0].
  specialize (Hgone eq_refl). specialize (IH d1 Hne).
  destruct (sampleParts c ps d1) as [res d2]. destruct IH as (H2 & F2 & G2); [|done|done|..].
  { intros s Hs. apply Hcut, elem_of_app. by right. }
  { intros x s Hx Hs Hxs. assert (x ∈ p ++ mjoin ps) as [Hin|?]%elem_of_app; [|exfalso|done].
    { apply (Hcl x s); [by apply D1|apply elem_of_app; by right|done]. }
    specialize (Hgone x Hx). specialize (Hmax x Hin). lia. }
  split; [by eapply drained_trans|]. split; [intros E; apply F2; by apply D1|].
  intros -> s [Hs|Hs]%elem_of_app Hin; [|by apply (G2 eq_refl s)].
  specialize (Hmax s Hs). assert (s ∈ dr_spans d1) as ?%Hgone by (by apply H2). lia.
Qed.

Lemma Chunk_nonempty {A} n (l : list A) : (0 < n)%nat -> Forall (fun p => p <> []) (Chunk n l).
Proof.
  intros Hn. unfold Chunk. generalize (length l) as fuel. intros fuel. revert l.
  induction fuel as [|fuel IH]; intros l; cbn [chunksOf]; [constructor|].
  destruct l as [|x l]; constructor; [|apply IH]. destruct n; [lia|done].
Qed.

(** ** The loop *)

(** Ids follow the order of arrival. *)
Definition idsFollowIngest (l : list Span) : Prop :=
  forall s s', s ∈ l -> s' ∈ l -> sp_ID s < sp_ID s' -> ingestedNs s <= ingestedNs s'.

(** The batch that a drain reads. *)
Abbreviation oldest cutoff limit l :=
  (take limit (merge_sort byIngest (filter (fun s => ingestedNs s <= cutoff) l))).

Lemma oldest_in cutoff limit l s : s ∈ oldest cutoff limit l -> s ∈ l /\ ingestedNs s <= cutoff.
Proof.
  intros Hs%subseteq_take. rewrite merge_sort_Permutation in Hs. by apply list_elem_of_filter in Hs as [? ?].
Qed.

Lemma oldest_unique cutoff limit l : idsUnique l -> idsUnique (oldest cutoff limit l).
Proof.
  intros Hu%(idsUnique_filter (fun s => ingestedNs s <= cutoff)). unfold idsUnique in *.
  eapply sublist_NoDup; [|apply fmap_sublist, sublist_take]. by rewrite merge_sort_Permutation.
Qed.

(** With ids in order of arrival a batch is closed under lower ids. *)
Lemma oldest_closed cutoff limit l x s :
  idsUnique l -> idsFollowIngest l -> x ∈ l -> s ∈ oldest cutoff limit l -> sp_ID x <= sp_ID s ->
  x ∈ oldest cutoff limit l.
Proof.
  intros Hu Ho Hx Hs Hle. destruct (oldest_in _ _ _ _ Hs) as [Hsl Hc].
  destruct (decide (x ∈ oldest cutoff limit l)) as [|Hn]; [done|exfalso].
  destruct (decide (sp_ID x = sp_ID s)) as [E|Hne].
  { by rewrite (unique_eq l x s) in Hn. }
  assert (ingestedNs x <= ingestedNs s) by (apply Ho; [done..|lia]).
  assert (byIngest s x) as Hb; [|unfold byIngest in Hb; lia].
  eapply (sorted_take byIngest limit); [apply StronglySorted_merge_sort; apply _|exact Hs| |done].
  rewrite merge_sort_Permutation, list_elem_of_filter. split; [lia|done].
Qed.

Lemma inParts_spec c cutoff limit d :
  idsUnique (dr_spans d) -> idsFollowIngest (dr_spans d) ->
  let batch := oldest cutoff limit (dr_spans d) in
  match sampleAndDeleteInParts c batch d with
  | (res, d') => drained cutoff d d' /\ (dr_faults d = [] -> res = Some tt) /\
      (res = Some tt -> forall s, s ∈ batch -> s ∉ dr_spans d')
  end.
Proof.
  intros Hu Ho batch. unfold sampleAndDeleteInParts, spanParts.
  assert (mjoin (Chunk retentionPart (merge_sort byID batch)) = merge_sort byID batch) as Ej
    by (apply concat_Chunk; unfold retentionPart; lia).
  assert (forall s, s ∈ merge_sort byID batch <-> s ∈ batch) as Hin
    by (intros s; by rewrite merge_sort_Permutation).
  pose proof (sampleParts_spec c cutoff (Chunk retentionPart (merge_sort byID batch)) d) as H.
  rewrite Ej in H. destruct (sampleParts c _ d) as [res d']. destruct H as (H1 & H2 & H3).
  - apply Chunk_nonempty. unfold retentionPart. lia.
  - intros s Hs%Hin. by apply oldest_in in Hs as [_ ?].
  - apply StronglySorted_merge_sort; apply _.
  - unfold idsUnique. rewrite merge_sort_Permutation. by apply oldest_unique.
  - intros x s Hx Hs%Hin Hle. apply Hin. by eapply oldest_closed.
  - split_and!; [done..|]. intros Hr s Hs. by apply H3, Hin.
Qed.

Lemma call_same cutoff {A} (f : drain -> A) d :
  match call (fun d => (f d, d)) d with
  | (res, d') => drained cutoff d d' /\ dr_spans d' = dr_spans d /\ (forall a, res = Some a -> a = f d') /\
      (dr_faults d = [] -> exists a, res = Some a)
  end.
Proof.
  unfold call. destruct (hd true (dr_faults d)) eqn:Eh; cbn; (split; [split_and!; try done; by intros ->|]).
  - split_and!; [done|by intros a [= ->]|eauto].
  - split_and!; [done..|]. intros E. by rewrite E in Eh.
Qed.

(** A short batch is all there is. *)
Lemma oldest_short cutoff limit l :
  (length (oldest cutoff limit l) < limit)%nat ->
  forall s, s ∈ l -> ingestedNs s <= cutoff -> s ∈ oldest cutoff limit l.
Proof.
  intros Hl s Hs Hc. rewrite length_take in Hl. rewrite take_ge by lia.
  rewrite merge_sort_Permutation, list_elem_of_filter. done.
Qed.

(** What is left when a healthy drain returns. *)
Definition drainDone (cutoff : Z) (d : drain) : Prop :=
  (forall s, s ∈ dr_spans d -> cutoff < ingestedNs s) \/
  (dst_backlogRemains (dr_stats d) = true /\ maxSpansPerCycle <= dst_spansDeleted (dr_stats d)).

Lemma drainOldLoop_spec c cutoff fuel : forall d,
  idsUnique (dr_spans d) -> idsFollowIngest (dr_spans d) -> (length (dr_spans d) < fuel)%nat ->
  match drainOldLoop fuel c cutoff d with
  | (res, d') => drained cutoff d d' /\ (dr_faults d = [] -> res = Some tt /\ drainDone cutoff d')
  end.
Proof.
  induction fuel as [|fuel IH]; intros d Hu Ho Hf; [lia|]. cbn [drainOldLoop].
  unfold mbind, D_bind, GetSpansForAggregation.
  pose proof (call_same cutoff (fun _ => tt) d) as H0.
  destruct (call (fun d => (tt, d)) d) as [[[]|] d0]; destruct H0 as (D0 & E0 & _ & F0).
  2: { split; [done|]. intros E. by destruct (F0 E). }
  pose proof (call_same cutoff (fun d => oldest cutoff defaultBatchSize (dr_spans d)) d0) as H1.
  destruct (call _ d0) as [[batch|] d1]; destruct H1 as (D1 & E1 & V1 & F1);
    pose proof (drained_trans _ _ _ _ D0 D1) as D01.
  2: { split; [done|]. intros E. destruct F1 as [? [=]]. by apply D0. }
  specialize (V1 batch eq_refl). assert (dr_spans d1 = dr_spans d) as E by congruence.
  destruct (bool_decide (batch = [])) eqn:Eb.
  { apply bool_decide_eq_true in Eb. split; [done|]. intros _. split; [done|]. left. intros s Hs. cbn in Hs.
    destruct (decide (ingestedNs s <= cutoff)) as [Hc|]; [exfalso|lia].
    assert (s ∈ batch) as Hin; [|rewrite Eb in Hin; by apply not_elem_of_nil in Hin].
    rewrite V1. apply oldest_short; [|done..]. rewrite <- V1, Eb. unfold defaultBatchSize. cbn [length]. lia. }
  apply bool_decide_eq_false in Eb. rewrite <- E in Hu, Ho.
  pose proof (inParts_spec c cutoff defaultBatchSize d1 Hu Ho) as H2. cbv zeta in H2. rewrite <- V1 in H2.
  destruct (sampleAndDeleteInParts c batch d1) as [[[]|] d2]; destruct H2 as (D2 & F2 & G2);
    pose proof (drained_trans _ _ _ _ D01 D2) as D02.
  2: { split; [done|]. intros Ef. by discriminate (F2 (proj1 (proj2 (proj2 (proj2 (proj2 D01)))) Ef)). }
  specialize (G2 eq_refl). destruct (length batch <? defaultBatchSize)%nat eqn:El.
  { apply Nat.ltb_lt in El. split; [done|]. intros _. split; [done|]. left. intros s Hs. cbn in Hs.
    destruct (decide (ingestedNs s <= cutoff)) as [Hc|]; [exfalso|lia]. apply (G2 s); [|done].
    rewrite V1. rewrite V1 in El. apply oldest_short; [done| |done]. by apply D2. }
  unfold gets. cbn beta iota. destruct (maxSpansPerCycle <=? _) eqn:Em.
  { cbn. split; [eapply drained_trans; [exact D02|]; split_and!; done|]. intros _. split; [done|].
    right. split; [done|]. cbn. lia. }
  assert (length (dr_spans d2) < length (dr_spans d1))%nat as Hlt.
  { destruct batch as [|s l] eqn:Ebt; [done|].
    assert (s ∈ dr_spans d1) as Hs by (eapply oldest_in; rewrite <- V1; by left).
    destruct D2 as (Hsub & _ & HU & _).
    assert (s :: dr_spans d2 ⊆+ dr_spans d1) as Hlen%submseteq_length; [|cbn in Hlen; lia].
    apply NoDup_submseteq; [|intros x [->|Hx]%elem_of_cons; auto].
    apply NoDup_cons. split; [by apply G2; left|].
    by apply (NoDup_fmap_1 sp_ID), HU. }
  specialize (IH d2). destruct (drainOldLoop fuel c cutoff d2) as [res d3]. destruct IH as [D3 F3].
  - destruct D2 as (_ & _ & HU & _). by apply HU.
  - intros s s' Hs Hs'. apply Ho; by apply D2.
  - rewrite E in Hlt. lia.
  - split; [by eapply drained_trans|]. intros Ef. apply F3. by apply D02.
Qed.

(** ** Properties *)

(** C10: a drain deletes no error or durable span that it has not copied to
    [error_samples], and no span ingested after the cutoff, wherever its database calls
    fail, provided ids were given in order of ingest time.  When no call fails it leaves
    no span at or before the cutoff, or it has deleted its budget for the cycle and
    reports a backlog. *)
Theorem drain_keeps_errors c cutoff d :
  idsUnique (dr_spans d) -> idsFollowIngest (dr_spans d) ->
  match drainOldSpans c cutoff d with
  | (res, d') =>
      (forall s, s ∈ dr_spans d -> s ∉ dr_spans d' ->
        ingestedNs s <= cutoff /\ (mustKeep s -> s ∈ dr_samples d')) /\
      (dr_faults d = [] -> res = Some tt /\ drainDone cutoff d')
  end.
Proof.
  intros Hu Ho. unfold drainOldSpans, mbind, D_bind, gets.
  pose proof (drainOldLoop_spec c cutoff (S (length (dr_spans d))) d Hu Ho ltac:(lia)) as H.
  destruct (drainOldLoop _ c cutoff d) as [res d']. destruct H as [D F]. split; [by apply D|done].
Qed.

(** A span of the demonstration: id, ingest second and status. *)
Definition demoSpan (id at_ : Z) (status : string) : Span :=
  mkSpan id 1 "t" "s" "" "GET /" "svc" "" "server" status 0 1000 "" "" (Some (at_ * second))
    None false 1.

Definition demoDrain (l : list Span) : drain :=
  mkDrain l [] (mkSlow ∅ 0) (mkDrainStats 0 0 0 false) [].

Lemma drain_keeps_errors_witness :
  let d := demoDrain [demoSpan 1 10 "ok"; demoSpan 2 10 "error"; demoSpan 3 20 "error"] in
  match drainOldSpans demoRetentionConfig (15 * second) d with
  | (res, d') => res = Some tt /\ drainDone (15 * second) d'
  end.
Proof.
  intros d. pose proof (drain_keeps_errors demoRetentionConfig (15 * second) d) as H.
  destruct (drainOldSpans demoRetentionConfig (15 * second) d) as [res d']. apply H; [| |reflexivity].
  - apply (bool_decide_unpack _). reflexivity.
  - assert (Forall (fun s => Forall (fun s' => sp_ID s < sp_ID s' -> ingestedNs s <= ingestedNs s')
      (dr_spans d)) (dr_spans d)) as Ha by (repeat constructor; by vm_compute).
    intros s s' Hs Hs'. rewrite Forall_forall in Ha. specialize (Ha s Hs).
    rewrite Forall_forall in Ha. by apply Ha.
Defined.

(** When ids do not follow the ingest times a drain loses error spans.  The staging
    flush stores whole traces and keeps their ingest times: a trace with spans of
    seconds 0 and 50 is stored before a trace with a span of second 10.  A drain up to
    second 20 reads the spans of seconds 0 and 10 and deletes every id up to the
    highest of them, and with it the error span of second 50, which it never read: it is
    younger than the cutoff and in neither table afterwards. *)
Theorem drain_loses_errors :
  let late := demoSpan 2 50 "error" in
  let d := demoDrain [demoSpan 1 0 "ok"; late; demoSpan 3 10 "ok"] in
  match drainOldSpans demoRetentionConfig (20 * second) d with
  | (res, d') => res = Some tt /\ idsUnique (dr_spans d) /\ late ∈ dr_spans d /\
      20 * second < ingestedNs late /\ mustKeep late /\ late ∉ dr_spans d' /\ late ∉ dr_samples d'
  end.
Proof.
  intros late d.
  assert (drainOldSpans demoRetentionConfig (20 * second) d =
    (Some tt, mkDrain [] [] (mkSlow ∅ 0) (mkDrainStats 0 0 3 false) [])) as -> by (vm_compute; reflexivity).
  split_and!; [done|apply (bool_decide_unpack _); reflexivity|right; by left|by vm_compute|by left|..];
    apply not_elem_of_nil.
Qed.

(** The emergency eviction deletes error spans of its window without copying them. *)
Example evict_drops_errors :
  let late := demoSpan 1 10 "error" in
  match DeleteSpansOlderThan (20 * second) (demoDrain [late]) with
  | (res, d') => res = Some 1 /\ dr_spans d' = [] /\ dr_samples d' = []
  end.
Proof. done. Qed.
