(* ===== verification/RetentionTiers.v ===== *)
(** * Trimming the rollup tiers ([internal/retention/span_rollup_tiers.go],
    [rollup_tiers.go], and the tier deletes of [repo_span_rollups.go], [repository.go])

    Deletes over the world of the compactor: the same tables and watermarks, and the
    same list of outcomes of database calls to come.  A delete returns the rows it
    removed and whether more remain also when it fails. *)
From S2P Require Import Prelude Model Varint SpanHist TraceSampling TierStore SpanEdges Tiers SpanPlan.
From S2P Require Import SpanMerge Compaction CompactionInv CompleteWindow CompactionWorld CompactionProps.
From S2P Require Import RetentionConfig.

(** The rows deleted, whether more remain, and whether the call failed. *)
Abbreviation deleted := (Z * bool * bool)%type.

(** ** One table *)

Section TierDelete.
Context {T K : Type} `{Countable K}.
Context (stepOf bucketOf : T -> Z) (pk : T -> K) (compare : T -> T -> comparison).
Context (get : world -> gmap K T) (set : gmap K T -> world -> world).

(** The rows of a tier before the cutoff, in the order of the key. *)
Definition olderRows (step cutoff : Z) (t : gmap K T) : list T :=
  merge_sort (rowLe compare)
    (filter (fun r => stepOf r = step /\ bucketOf r < Unix cutoff) (map_to_list t).*2).

(** The statement of [deleteTierRowsOlderThan]: the first [limit] of them. *)
Definition deleteRows (step cutoff limit : Z) (t : gmap K T) : Z * gmap K T :=
  let victims := take (Z.to_nat limit) (olderRows step cutoff t) in
  (Z.of_nat (length victims), foldl (fun t r => delete (pk r) t) t victims).

(** The loop of [batchedDeleteLimited]; a full batch deletes rows, so the rows are fuel
    enough.  The context is looked at before a batch and while
    yielding after it; a cancelled one is a failed call. *)
Fixpoint deleteBatches (fuel : nat) (step cutoff max total : Z) (w : world) : deleted * world :=
  match fuel with
  | O => (total, true, false, w)
  | S fuel =>
      if max <=? total then (total, true, false, w)
      else
        match reads (fun _ => tt) w with
        | (None, w) => (total, true, true, w)
        | (Some _, w) =>
            let batch := if max - total <? retentionDeleteBatch then max - total else retentionDeleteBatch in
            match reads (fun w => deleteRows step cutoff batch (get w)) w with
            | (None, w) => (total, true, true, w)
            | (Some (n, t), w) =>
                let w := set t w in
                if n <? batch then (total + n, false, false, w)
                else
                  match reads (fun _ => tt) w with
                  | (None, w) => (total + n, true, true, w)
                  | (Some _, w) => deleteBatches fuel step cutoff max (total + n) w
                  end
            end
        end
  end.

(** [Repository.deleteTierRowsOlderThan] *)
Definition deleteTierRowsOlderThan (step cutoff max : Z) (w : world) : deleted * world :=
  deleteBatches (S (size (get w))) step cutoff max 0 w.
End TierDelete.

(** [Repository.DeleteSpanRollupsOlderThanLimited] and [DeleteSpanEdgesOlderThanLimited] *)
Definition DeleteSpanRollupsOlderThanLimited : Z -> Z -> Z -> world -> deleted * world :=
  deleteTierRowsOlderThan ro_StepSeconds ro_Bucket spanRollupPK compareSpanRollupKey w_rollups setRollups.

Definition DeleteSpanEdgesOlderThanLimited : Z -> Z -> Z -> world -> deleted * world :=
  deleteTierRowsOlderThan ed_StepSeconds ed_Bucket spanEdgePK compareSpanEdgeKey w_edges setEdges.

(** ** The span tiers *)

(** [spanRollupTierWindows] *)
Definition spanRollupTierWindows (c : RetentionConfig) : list (Z * Z) :=
  [(Step5m, rc_SpanRollup5mHours c * hour);
   (StepHour, rc_SpanRollupHourlyDays c * (24 * hour));
   (StepDay, rc_SpanRollupDailyDays c * (24 * hour))].

(** [RetentionWorker.spanTierCutoff] *)
Definition spanTierCutoff (step cutoff : Z) : M (option Z) :=
  if step =? StepDay then mret (Some cutoff)
  else
    through ← SpanRollupWatermark step;
    mret ((fun through => if through <? cutoff then through else cutoff) <$> through).

(** [RetentionWorker.deleteSpanTier] *)
Definition deleteSpanTier (step cutoff budget : Z) (w : world) : deleted * world :=
  match DeleteSpanRollupsOlderThanLimited step cutoff budget w with
  | ((n, more, err), w) =>
      if err || more || (budget <=? n) then ((n, more || (budget <=? n), err), w)
      else
        match DeleteSpanEdgesOlderThanLimited step cutoff (budget - n) w with
        | ((m, more, err), w) => ((n + m, more, err), w)
        end
  end.

(** The loop of [deleteSpanRollupTiers]. *)
Fixpoint deleteSpanTiers (tiers : list (Z * Z)) (now budget total : Z) (w : world) : deleted * world :=
  match tiers with
  | [] => ((total, false, false), w)
  | (step, window) :: tiers =>
      if budget <=? total then ((total, true, false), w)
      else
        match spanTierCutoff step (now - window) w with
        | (None, w) => ((total, true, true), w)
        | (Some None, w) => deleteSpanTiers tiers now budget total w
        | (Some (Some cutoff), w) =>
            match deleteSpanTier step cutoff (budget - total) w with
            | ((n, more, err), w) =>
                if err then ((total + n, true, true), w)
                else if more then ((total + n, true, false), w)
                else deleteSpanTiers tiers now budget (total + n) w
            end
        end
  end.

(** [RetentionWorker.deleteSpanRollupTiers] *)
Definition deleteSpanRollupTiers (c : RetentionConfig) (now budget : Z) (w : world) : deleted * world :=
  deleteSpanTiers (spanRollupTierWindows c) now budget 0 w.

(** [maxRollupRowsPerCycle] and [maxRollupRowsPerRound] *)
Definition maxRollupRowsPerCycle : Z := 200000.

Definition maxRollupRowsPerRound : Z := 25000.

(** ** The history behind the trimmed tables

    Retention deletes rows of the tiers while the compactor reads them.  The history of
    a database holds every row in the last form the tables held it.  Compaction over
    the trimmed tables writes what it would have written over the history, because
    retention stops at the watermarks and compaction starts there. *)

(** The tables of [w] over those of [g]. *)
Definition hist (w g : world) : world :=
  mkWorld (w_rollups w ∪ w_rollups g) (w_edges w ∪ w_edges g) (w_marks w) (w_ingested w)
    (w_busy w) (w_repaired w) (w_faults w).

(** ** One table and its history *)

Section TrimmedTable.
Context {T K : Type} `{Countable K}.
Implicit Types t g : gmap K T.

(** A row that was deleted. *)
Definition trimmedRow t g (k : K) (r : T) : Prop := g !! k = Some r /\ t !! k = None.

Lemma union_cases t g k r : (t ∪ g) !! k = Some r <-> t !! k = Some r \/ trimmedRow t g k r.
Proof.
  rewrite lookup_union_Some_raw. unfold trimmedRow. naive_solver.
Qed.

Context (stepOf bucketOf : T -> Z).

(** No deleted row of the tier lies at or after [b]. *)
Definition freshFrom t g (step b : Z) : Prop :=
  forall k r, trimmedRow t g k r -> stepOf r = step -> bucketOf r < b.

Lemma window_hist t g step b from to :
  freshFrom t g step b -> b * second <= from ->
  tierWindow stepOf bucketOf (t ∪ g) step from to = tierWindow stepOf bucketOf t step from to.
Proof.
  intros Hf Hb. apply window_ext. intros k r [Hs Hr]. rewrite union_cases. split; [|by left].
  intros [?|Ht]; [done|]. specialize (Hf k r Ht Hs). exfalso.
  assert (b <= Unix from); [|lia]. unfold Unix. apply Z.div_le_lower_bound; unfold second in *; lia.
Qed.

Lemma count_hist t g step b from to :
  freshFrom t g step b -> b * second <= from ->
  countTierBuckets stepOf bucketOf (t ∪ g) step from to = countTierBuckets stepOf bucketOf t step from to.
Proof. intros Hf Hb. unfold countTierBuckets. by rewrite (window_hist t g step b). Qed.

Lemma fresh_mono t g step b b' : freshFrom t g step b -> b <= b' -> freshFrom t g step b'.
Proof. intros Hf Hb k r Ht Hs. specialize (Hf k r Ht Hs). lia. Qed.

(** More rows, fewer deleted ones. *)
Definition growsTo t t' : Prop := forall k, is_Some (t !! k) -> is_Some (t' !! k).

Lemma grows_trimmed t t' g k r : growsTo t t' -> trimmedRow t' g k r -> trimmedRow t g k r.
Proof.
  intros Hg [E1 E2]. split; [done|]. destruct (t !! k) as [x|] eqn:E; [|done].
  destruct (Hg k) as [y Hy]; [by rewrite E; eauto|]. congruence.
Qed.

Lemma grows_fresh t t' g step b : growsTo t t' -> freshFrom t g step b -> freshFrom t' g step b.
Proof. intros Hg Hf k r Ht Hs. apply (Hf k r); [by eapply grows_trimmed|done]. Qed.

(** A tier without deleted rows has the oldest bucket of its history. *)
Lemma oldest_hist t g step :
  (forall k r, trimmedRow t g k r -> stepOf r <> step) ->
  oldestTierBucket stepOf bucketOf (t ∪ g) step = oldestTierBucket stepOf bucketOf t step.
Proof.
  intros Hn. pose proof (oldest_spec stepOf bucketOf (t ∪ g) step) as H1.
  pose proof (oldest_spec stepOf bucketOf t step) as H2.
  assert (forall b, hasAt stepOf bucketOf (t ∪ g) step b <-> hasAt stepOf bucketOf t step b) as Hh.
  { intros b. split; intros (k & r & Hl & <- & <-); exists k, r; (split; [|done]).
    - apply union_cases in Hl as [?|Ht]; [done|]. by destruct (Hn k r Ht).
    - apply union_cases. by left. }
  destruct (oldestTierBucket _ _ (t ∪ g) step) as [o|], (oldestTierBucket _ _ t step) as [o'|]; try done.
  - destruct H1 as (x & -> & Hx & Hmin), H2 as (x' & -> & Hx' & Hmin').
    pose proof (Hmin x' (proj2 (Hh x') Hx')). pose proof (Hmin' x (proj1 (Hh x) Hx)).
    do 2 f_equal. lia.
  - destruct H1 as (x & _ & Hx & _). by apply Hh, H2 in Hx.
  - destruct H2 as (x & _ & Hx & _). by apply Hh, H1 in Hx.
Qed.

(** Writes that act on the table as on its history. *)
Lemma tierLoop_hist g (query : gmap K T -> T -> gmap K T) (I : gmap K T -> Prop) sorted chunks :
  (forall t r, I t -> r ∈ mjoin chunks -> query (t ∪ g) r = query t r ∪ g /\ I (query t r)) ->
  forall oks written t, I t ->
  tierLoop query oks sorted chunks written (t ∪ g) =
    ((tierLoop query oks sorted chunks written t).1, (tierLoop query oks sorted chunks written t).2 ∪ g).
Proof.
  induction chunks as [|c chunks IH]; intros Hq oks written t Ht; simpl; [done|].
  assert (forall l t, I t -> (forall r, r ∈ l -> r ∈ c) ->
    foldl query (t ∪ g) l = foldl query t l ∪ g /\ I (foldl query t l)) as Hc.
  { induction l as [|r l IHl]; intros u Hu Hl; simpl; [done|].
    destruct (Hq u r Hu) as [-> Hi]; [apply elem_of_app; left; apply Hl; by left|].
    apply IHl; [done|]. intros x Hx. apply Hl. by right. }
  destruct (hd true oks); simpl; [|done].
  destruct (Hc c t Ht ltac:(done)) as [-> Hi]. apply IH; [|done].
  intros u r Hu Hr. apply Hq; [done|]. apply elem_of_app. by right.
Qed.

Lemma writeTierRows_hist compare g (query : gmap K T -> T -> gmap K T) (I : gmap K T -> Prop) n oks rows t :
  (0 < n)%nat -> I t ->
  (forall t r, I t -> r ∈ rows -> query (t ∪ g) r = query t r ∪ g /\ I (query t r)) ->
  writeTierRows compare query n oks rows (t ∪ g) =
    ((writeTierRows compare query n oks rows t).1, (writeTierRows compare query n oks rows t).2 ∪ g).
Proof.
  intros Hn Ht Hq. unfold writeTierRows. apply (tierLoop_hist g query I); [|done].
  intros u r Hu Hr. apply Hq; [done|]. rewrite concat_Chunk in Hr by done.
  by rewrite merge_sort_Permutation in Hr.
Qed.
End TrimmedTable.

(** ** Bucket builds *)

(** Deleted rows of the source tier lie before [b], in both tables. *)
Definition freshAt (w g : world) (S b : Z) : Prop :=
  freshFrom ro_StepSeconds ro_Bucket (w_rollups w) (w_rollups g) (sourceOf S) b /\
  freshFrom ed_StepSeconds ed_Bucket (w_edges w) (w_edges g) (sourceOf S) b.

(** No rows and no watermarks are lost, and the rest stays. *)
Definition grew (w w' : world) : Prop :=
  growsTo (w_rollups w) (w_rollups w') /\ growsTo (w_edges w) (w_edges w') /\
  (forall s th, w_marks w !! s = Some th -> exists th', w_marks w' !! s = Some th' /\ th <= th').

Lemma grew_refl w : grew w w.
Proof. split_and!; [by intros k|by intros k|]. intros s th Hs. exists th. split; [done|lia]. Qed.

Lemma grew_trans w w1 w2 : grew w w1 -> grew w1 w2 -> grew w w2.
Proof.
  intros (A1 & A2 & A3) (B1 & B2 & B3). split_and!; [intros k; auto..|]. intros s th Hs.
  destruct (A3 s th Hs) as (th1 & H1 & ?), (B3 s th1 H1) as (th2 & H2 & ?). exists th2. split; [done|lia].
Qed.

Lemma grew_freshAt w w' g S b b' : grew w w' -> b <= b' -> freshAt w g S b -> freshAt w' g S b'.
Proof.
  intros (G1 & G2 & _) Hb [F1 F2].
  split; (eapply fresh_mono; [eapply grows_fresh; eassumption|done]).
Qed.

Lemma sources_count S : coarse S -> fixedStep (sourceOf S) /\ exists m, S = Z.of_nat m * sourceOf S.
Proof.
  intros [->| ->]; (split; [unfold fixedStep; auto|]); [by exists 12%nat|by exists 24%nat].
Qed.

Lemma rollupsComplete_hist w g S b :
  coarse S -> freshAt w g S b ->
  rollupsComplete (hist w g) (sourceOf S) (b * second) ((b + S) * second) =
  rollupsComplete w (sourceOf S) (b * second) ((b + S) * second).
Proof.
  intros HS [Hf _]. destruct (sources_count S HS) as (Hs & m & Em). unfold rollupsComplete.
  rewrite Em at 2 4. apply windowComplete_ext; [done|]. intros f u Hbf _. split; [|done]. f_equal.
  by apply (count_hist _ _ _ _ _ b).
Qed.

Lemma edgesComplete_hist w g S b :
  coarse S -> freshAt w g S b ->
  edgesComplete (hist w g) (sourceOf S) (b * second) ((b + S) * second) =
  edgesComplete w (sourceOf S) (b * second) ((b + S) * second).
Proof.
  intros HS [Hr He]. destruct (sources_count S HS) as (Hs & m & Em). unfold edgesComplete.
  rewrite Em at 2 4. apply windowComplete_ext; [done|]. intros f u Hbf _. split.
  - f_equal. by apply (count_hist _ _ _ _ _ b).
  - intros E5. unfold Arrivals. do 3 f_equal. apply (count_hist _ _ _ _ _ b); [by rewrite <- E5|done].
Qed.

Section BuildHistory.
Context {T K : Type} `{Countable K}.
Context (stepOf bucketOf : T -> Z) (pk : T -> K) (merge : list T -> Z -> Z -> list T).
Context (compare : T -> T -> comparison).
Context (get : world -> gmap K T) (set : gmap K T -> world -> world).
Context (complete : world -> Z -> Z -> Z -> option bool) (g : world) (tg : gmap K T).
Context (get_hist : forall w, get (hist w g) = get w ∪ tg).
Context (set_hist : forall w t, set (t ∪ tg) (hist w g) = hist (set t w) g).
Context (get_faults : forall fs w, get (setFaults fs w) = get w).
Context (set_grew : forall fs t w, growsTo (get w) t -> grew w (setFaults fs (set t w))).

Lemma replaceIn_hist rows w :
  replaceIn pk compare get set rows (hist w g) =
    ((replaceIn pk compare get set rows w).1, hist (replaceIn pk compare get set rows w).2 g) /\
  grew w (replaceIn pk compare get set rows w).2.
Proof.
  unfold replaceIn. rewrite get_hist. cbn [hist w_faults].
  rewrite (writeTierRows_hist compare tg (replaceRow pk) (fun _ => True)) by
    (done || (unfold spanRollupChunk; lia) || (intros t r _ _; split; [unfold replaceRow; by rewrite insert_union_l|done])).
  pose proof (replace_spec pk compare (w_faults w) rows (get w)) as Hr.
  destruct (writeTierRows _ _ _ _ _ _) as [err t]. destruct Hr as (wr & -> & _). cbn [fst snd]. split.
  - destruct err; by rewrite set_hist.
  - apply set_grew. intros k Hk. apply replaceAll_is_Some. by right.
Qed.

Lemma buildBucket_hist w S b :
  complete (hist w g) (sourceOf S) (b * second) ((b + S) * second) =
    complete w (sourceOf S) (b * second) ((b + S) * second) ->
  freshFrom stepOf bucketOf (get w) tg (sourceOf S) b ->
  let m := buildBucket stepOf bucketOf pk merge compare get set complete (tierOf S) (b * second)
             ((b + S) * second) in
  m (hist w g) = ((m w).1, hist (m w).2 g) /\ grew w (m w).2.
Proof.
  intros Hc Hf m. unfold m, buildBucket, mbind, M_bind. rewrite !attempt_eq.
  cbn [hist w_faults tierOf tier_Source tier_Step]. fold (hist w g). rewrite Hc.
  destruct (hd true (w_faults w)); [|split; [done|exact (grew_refl w)]].
  destruct (complete w _ _ _) as [[]|]; cbn [negb]; cbn beta iota; try (split; [done|exact (grew_refl w)]).
  rewrite !reads_eq. change (setFaults (tl (w_faults w)) (hist w g)) with (hist (setFaults (tl (w_faults w)) w) g).
  cbn [setFaults hist w_faults]. rewrite get_hist, get_faults.
  rewrite (window_hist stepOf bucketOf (get w) tg (sourceOf S) b) by (done || lia).
  destruct (hd true (tl (w_faults w))); [|split; [done|exact (grew_refl w)]].
  destruct (tierWindow _ _ _ _ _ _) as [|x src]; [split; [done|exact (grew_refl w)]|].
  cbn beta iota zeta.
  set (rows := merge (x :: src) S (Unix (b * second))). set (w0 := setFaults _ (setFaults _ w)).
  match goal with |- context [replaceIn pk compare get set rows ?wh] => change wh with (hist w0 g) end.
  destruct (replaceIn_hist rows w0) as [E Hg]. rewrite E.
  destruct (replaceIn pk compare get set rows w0) as [[[]|] w1]; cbn [fst snd] in *; (split; [done|exact Hg]).
Qed.
End BuildHistory.

(** A computation that acts on a trimmed database as on its history. *)
Definition tracksAt {A} (m : M A) (g w : world) : Prop :=
  m (hist w g) = ((m w).1, hist (m w).2 g) /\ grew w (m w).2.

Lemma rollups_grew fs t w : growsTo (w_rollups w) t -> grew w (setFaults fs (setRollups t w)).
Proof.
  intros Hg. split_and!; [done|by intros k|]. intros s th Hs. exists th. split; [done|lia].
Qed.

Lemma edges_grew fs t w : growsTo (w_edges w) t -> grew w (setFaults fs (setEdges t w)).
Proof.
  intros Hg. split_and!; [by intros k|done|]. intros s th Hs. exists th. split; [done|lia].
Qed.

Lemma compactRollupBucket_hist g w S b :
  coarse S -> freshAt w g S b ->
  tracksAt (compactRollupBucket (tierOf S) (b * second) ((b + S) * second)) g w.
Proof.
  intros HS Hf.
  apply (buildBucket_hist ro_StepSeconds ro_Bucket spanRollupPK Merge compareSpanRollupKey w_rollups
    setRollups rollupsComplete g (w_rollups g) ltac:(done) ltac:(done) ltac:(done) rollups_grew w S b).
  - by apply rollupsComplete_hist.
  - apply Hf.
Qed.

Lemma compactEdgeBucket_hist g w S b :
  coarse S -> freshAt w g S b ->
  tracksAt (compactEdgeBucket (tierOf S) (b * second) ((b + S) * second)) g w.
Proof.
  intros HS Hf.
  apply (buildBucket_hist ed_StepSeconds ed_Bucket spanEdgePK MergeEdges compareSpanEdgeKey w_edges
    setEdges edgesComplete g (w_edges g) ltac:(done) ltac:(done) ltac:(done) edges_grew w S b).
  - by apply edgesComplete_hist.
  - apply Hf.
Qed.

(** ** Passes *)

Lemma compactBucket_hist g w S b :
  coarse S -> freshAt w g S b ->
  tracksAt (compactBucket (tierOf S) (b * second) ((b + S) * second)) g w.
Proof.
  intros HS Hf. unfold tracksAt, compactBucket, mbind, M_bind.
  destruct (compactRollupBucket_hist g w S b HS Hf) as [-> G1].
  destruct (compactRollupBucket _ _ _ w) as [[n|] w1]; cbn [fst snd] in *; [|done].
  assert (freshAt w1 g S b) as Hf1 by (eapply grew_freshAt; [done|reflexivity|done]).
  destruct (compactEdgeBucket_hist g w1 S b HS Hf1) as [-> G2].
  destruct (compactEdgeBucket _ _ _ w1) as [[k|] w2]; cbn [fst snd] in *;
    (split; [done|by eapply grew_trans]).
Qed.

Lemma SetSpanRollupWatermark_hist g w step through :
  tracksAt (SetSpanRollupWatermark step through) g w.
Proof.
  unfold tracksAt, SetSpanRollupWatermark, mbind, M_bind. rewrite !reads_eq. cbn [hist w_faults].
  destruct (hd true (w_faults w)); cbn; [|split; [done|exact (grew_refl w)]]. split; [done|].
  split_and!; [by intros k..|]. intros s th Hs. cbn. rewrite lookup_insert. case_decide as E.
  - subst s. rewrite Hs. cbn. eexists. split; [done|]. lia.
  - exists th. split; [done|lia].
Qed.

Lemma compactLoop_hist g S ready n : coarse S -> forall b k rows w,
  freshAt w g S b ->
  tracksAt (compactLoop (tierOf S) ready n k rows (b * second)) g w.
Proof.
  intros HS. induction n as [|n IH]; intros b k rows w Hf; unfold tracksAt; cbn [compactLoop].
  { split; [done|exact (grew_refl w)]. }
  unfold mbind, M_bind. rewrite !reads_eq. cbn [hist w_faults].
  destruct (hd true (w_faults w)); [|split; [done|exact (grew_refl w)]].
  cbn [tierOf tier_Step tier_Source]. rewrite NextBucket_fixed by by apply coarse_fixed.
  replace (b * second + S * second) with ((b + S) * second) by lia.
  destruct (ready <? (b + S) * second); [split; [done|exact (grew_refl w)]|].
  set (w0 := setFaults _ w).
  match goal with |- context [compactBucket _ _ _ ?wh] => change wh with (hist w0 g) end.
  change (mkTier S (sourceOf S)) with (tierOf S).
  assert (freshAt w0 g S b) as Hf0 by exact Hf.
  destruct (compactBucket_hist g w0 S b HS Hf0) as [E1 G1]. rewrite E1.
  destruct (compactBucket _ _ _ w0) as [[j|] w1]; cbn [fst snd] in *; [|done].
  destruct (SetSpanRollupWatermark_hist g w1 (sourceOf S) ((b + S) * second)) as [E2 G2].
  cbn [tier_Source tierOf]. rewrite E2.
  destruct (SetSpanRollupWatermark _ _ w1) as [[[]|] w2]; cbn [fst snd] in *;
    [|split; [done|by eapply grew_trans]].
  pose proof (coarse_pos S HS).
  assert (grew w0 w2) as G02 by by eapply grew_trans.
  destruct (IH (b + S) (Datatypes.S k) (rows + j)%nat w2) as [E3 G3].
  { eapply grew_freshAt; [exact G02| |exact Hf0]. lia. }
  rewrite E3. split; [done|by eapply grew_trans].
Qed.

(** Rows of a tier below the top may be deleted before its watermark, rows of the daily
    tier at any time. *)
Definition belowMark (marks : gmap Z Z) (step b : Z) : Prop :=
  step = StepDay \/ exists th, marks !! step = Some th /\ b < th.

(** Retention never went past a watermark. *)
Definition cutOK (w g : world) : Prop :=
  (forall k r, trimmedRow (w_rollups w) (w_rollups g) k r ->
    belowMark (w_marks w) (ro_StepSeconds r) (ro_Bucket r)) /\
  (forall k e, trimmedRow (w_edges w) (w_edges g) k e ->
    belowMark (w_marks w) (ed_StepSeconds e) (ed_Bucket e)).

Lemma belowMark_grew w w' s b : grew w w' -> belowMark (w_marks w) s b -> belowMark (w_marks w') s b.
Proof.
  intros (_ & _ & G) [?|(th & Hs & ?)]; [by left|right].
  destruct (G s th Hs) as (th' & ? & ?). exists th'. split; [done|lia].
Qed.

Lemma grew_cutOK w w' g : grew w w' -> cutOK w g -> cutOK w' g.
Proof.
  intros G [C1 C2]. pose proof G as (G1 & G2 & _).
  split; intros k r Ht; eapply belowMark_grew; try done;
    [eapply C1|eapply C2]; by eapply grows_trimmed.
Qed.

Lemma source_ne_day S : coarse S -> sourceOf S <> StepDay.
Proof. by intros [->| ->]. Qed.

(** From the watermark on nothing of the source tier was deleted. *)
Lemma cutOK_fresh w g S b :
  coarse S -> cutOK w g -> (forall th, w_marks w !! sourceOf S = Some th -> th <= b) -> freshAt w g S b.
Proof.
  intros HS [C1 C2] Hb.
  split; intros k r Ht Hs; [destruct (C1 k r Ht) as [E|(th & Hm & ?)]|destruct (C2 k r Ht) as [E|(th & Hm & ?)]];
    rewrite Hs in *; try (by destruct (source_ne_day S HS)); specialize (Hb th Hm); lia.
Qed.

Lemma cutOK_unmarked w g S :
  coarse S -> cutOK w g -> w_marks w !! sourceOf S = None ->
  forall k r, trimmedRow (w_rollups w) (w_rollups g) k r -> ro_StepSeconds r <> sourceOf S.
Proof.
  intros HS [C1 _] Hm k r Ht E. destruct (C1 k r Ht) as [Hd|(th & Hth & _)]; rewrite E in *.
  - by destruct (source_ne_day S HS).
  - congruence.
Qed.

Lemma compactTier_hist hz cfg now S g w :
  coarse S -> worldInv hz (hist w g) -> cutOK w g -> tracksAt (compactTier cfg now (tierOf S)) g w.
Proof.
  intros HS Hi Hc. unfold tracksAt, compactTier, tierStart, SpanRollupWatermark, mbind, M_bind.
  rewrite !reads_eq. cbn [hist w_faults w_marks tierOf tier_Source tier_Step].
  destruct (hd true (w_faults w)); [|split; [done|exact (grew_refl w)]].
  assert (forall fs b, freshAt w g S b ->
    tracksAt (fun w => match readyThrough cfg now (tierOf S) w with
      | (Some ready, w1) => compactLoop (tierOf S) ready (cfg_BucketsPerPass cfg) 0 0 (b * second) w1
      | (None, w1) => (None, w1)
      end) g (setFaults fs w)) as Hgo.
  { intros fs b Hf. unfold readyThrough. cbn [tierOf tier_Source]. unfold tracksAt.
    destruct (coarse_source S HS) as [[-> E]|[-> E]]; rewrite E; cbn -[compactLoop hist].
    - by apply compactLoop_hist.
    - unfold SpanRollupWatermark, mbind, M_bind. rewrite !reads_eq. cbn [hist setFaults w_faults w_marks].
      destruct (hd true fs); [|split; [done|exact (grew_refl w)]].
      by apply (compactLoop_hist g StepDay _ _ HS b 0 0 (setFaults (tl fs) w)). }
  destruct Hi as (Hr & He & Hm).
  destruct (w_marks w !! sourceOf S) as [th|] eqn:Eth; cbn [fmap option_fmap option_map].
  - destruct (Hm S th HS Eth) as (Hd & H0 & _).
    assert (TruncateBucket (th * second) S = th * second) as ->.
    { apply TruncateBucket_aligned; [by apply coarse_fixed|]. by apply Z.mul_divide_mono_r. }
    apply (Hgo _ th). apply cutOK_fresh; [done..|]. intros th' E. rewrite Eth in E. injection E as <-. lia.
  - rewrite !reads_eq. cbn [hist setFaults w_faults w_rollups].
    destruct (hd true (tl (w_faults w))); [|split; [done|exact (grew_refl w)]].
    unfold OldestSpanRollupBucket.
    rewrite (oldest_hist ro_StepSeconds ro_Bucket (w_rollups w) (w_rollups g)) by by apply cutOK_unmarked.
    pose proof (oldest_spec ro_StepSeconds ro_Bucket (w_rollups w) (sourceOf S)) as Ho.
    destruct (oldestTierBucket _ _ _ _) as [o|]; [|split; [done|exact (grew_refl w)]].
    destruct Ho as (x & -> & Hx & Hmin). cbn [fmap option_fmap option_map].
    assert (0 <= x) as Hx0.
    { destruct Hx as (k & r & Hl & _ & <-). apply (ti_keys _ _ _ _ _ _ _ _ _ Hr k r).
      exact (proj2 (union_cases _ _ _ _) (or_introl Hl)). }
    destruct (Truncate_second x S HS Hx0) as (b & -> & Hd & Hb & Hle).
    apply (Hgo _ b). apply cutOK_fresh; [done..|]. intros th E. congruence.
Qed.

Lemma compactLadder_hist hz cfg now g tiers : forall w,
  Forall (fun t => exists S, coarse S /\ t = tierOf S) tiers ->
  worldInv hz (hist w g) -> now - cfg_Lag cfg <= hz -> cutOK w g ->
  tracksAt (compactLadder cfg now tiers) g w.
Proof.
  induction tiers as [|t tiers IH]; intros w Ht Hi Hn Hc; [split; [done|exact (grew_refl w)]|].
  apply Forall_cons in Ht as [(S & HS & ->) Ht]. unfold tracksAt. cbn [compactLadder]. unfold mbind, M_bind.
  destruct (compactTier_hist hz cfg now S g w HS Hi Hc) as [E G]. rewrite E.
  pose proof (compactTier_inv hz cfg now S (hist w g) _ _ HS Hi Hn E) as Hi1.
  destruct (compactTier cfg now (tierOf S) w) as [[[k rows]|] w1]; cbn [fst snd] in *; [|done].
  pose proof (grew_cutOK _ _ _ G Hc) as Hc1. unfold update. cbn [fst].
  destruct (_ <=? _)%nat.
  - change (setBusy true (hist w1 g)) with (hist (setBusy true w1) g).
    destruct (IH (setBusy true w1) Ht Hi1 Hn Hc1) as [E2 G2]. split; [exact E2|by eapply grew_trans].
  - destruct (IH w1 Ht Hi1 Hn Hc1) as [E2 G2]. split; [exact E2|by eapply grew_trans].
Qed.

(** ** Flushes *)

Section FlushHistory.
Context {T K : Type} `{Countable K}.
Context (pk : T -> K) (onConflict : T -> T -> T).

Lemma upsert_lookup (t : gmap K T) row k :
  is_Some (upsert pk onConflict t row !! k) <-> k = pk row \/ is_Some (t !! k).
Proof.
  unfold upsert. destruct (t !! pk row) eqn:E; rewrite lookup_insert; case_decide; naive_solver.
Qed.

Lemma upserts_grow l : forall t : gmap K T, growsTo t (foldl (upsert pk onConflict) t l).
Proof.
  induction l as [|r l IH]; intros t k Hk; [done|]. simpl. apply IH, upsert_lookup. by right.
Qed.

(** A flush into rows that were not deleted acts on the table as on its history. *)
Lemma flush_hist compare n oks rows (t g : gmap K T) :
  (0 < n)%nat -> (forall r, r ∈ rows -> t !! pk r = None -> g !! pk r = None) ->
  writeTierRows compare (upsert pk onConflict) n oks rows (t ∪ g) =
    ((writeTierRows compare (upsert pk onConflict) n oks rows t).1,
     (writeTierRows compare (upsert pk onConflict) n oks rows t).2 ∪ g).
Proof.
  intros Hn Hnone. apply (writeTierRows_hist compare g _
    (fun t => forall r, r ∈ rows -> t !! pk r = None -> g !! pk r = None)); [done..|].
  intros u r Hu Hr. split.
  - unfold upsert. destruct (u !! pk r) as [old|] eqn:E.
    + rewrite (lookup_union_Some_l _ _ _ old) by done. by rewrite insert_union_l.
    + assert ((u ∪ g) !! pk r = None) as -> by (apply lookup_union_None; auto). by rewrite insert_union_l.
  - intros r' Hr' E. apply Hu; [done|]. destruct (u !! pk r') eqn:E'; [|done].
    assert (is_Some (upsert pk onConflict u r !! pk r')) as [x Hx] by (apply upsert_lookup; right; by rewrite E').
    congruence.
Qed.

Context (stepOf bucketOf : T -> Z).
Context (pk_steps : forall r r', pk r = pk r' -> stepOf r = stepOf r' /\ bucketOf r = bucketOf r').

(** Rows of open buckets were not deleted. *)
Lemma open_kept hz (marks : gmap Z Z) rows (t g : gmap K T) :
  keysOk stepOf bucketOf pk (t ∪ g) ->
  (forall th, marks !! Step5m = Some th -> th * second <= hz) ->
  (forall k r, trimmedRow t g k r -> belowMark marks (stepOf r) (bucketOf r)) ->
  Forall (openRow stepOf bucketOf hz) rows ->
  forall r, r ∈ rows -> t !! pk r = None -> g !! pk r = None.
Proof.
  intros Hk Hm Hcut Ho r Hr Ht. rewrite Forall_forall in Ho. destruct (Ho r Hr) as (E5 & _ & _ & Hz).
  destruct (g !! pk r) as [x|] eqn:Eg; [exfalso|done].
  assert (trimmedRow t g (pk r) x) as Htr by done.
  assert ((t ∪ g) !! pk r = Some x) as Hl by (apply union_cases; by right).
  destruct (Hk _ _ Hl) as [Ex _]. destruct (pk_steps _ _ Ex) as [E1 E2].
  destruct (Hcut _ _ Htr) as [E|(th & Hth & Hlt)]; rewrite E1, ?E5 in *; [done|].
  specialize (Hm th Hth). rewrite E2 in Hlt. unfold second in *. lia.
Qed.
End FlushHistory.

Lemma marks_below hz w th : worldInv hz w -> w_marks w !! Step5m = Some th -> th * second <= hz.
Proof. intros (_ & _ & Hm) Hth. destruct (Hm StepHour th ltac:(by left) Hth) as (_ & _ & H5 & _). by apply H5. Qed.

Lemma rollups_flush_hist hz g w oks rows :
  worldInv hz (hist w g) -> cutOK w g -> Forall (openRow ro_StepSeconds ro_Bucket hz) rows ->
  let w' := setRollups (AddSpanRollups oks rows (w_rollups w)).2 w in
  hist w' g = setRollups (AddSpanRollups oks rows (w_rollups (hist w g))).2 (hist w g) /\ grew w w'.
Proof.
  intros Hi [C1 _] Ho w'. split.
  - cbn [hist w_rollups]. unfold AddSpanRollups. rewrite flush_hist; [done|unfold spanRollupChunk; lia|].
    eapply (open_kept spanRollupPK ro_StepSeconds ro_Bucket ltac:(intros r r' Er; by injection Er) hz);
      [apply Hi|intros th; exact (marks_below hz (hist w g) th Hi)|exact C1|done].
  - unfold w'. destruct (AddSpanRollups oks rows (w_rollups w)) as [e t'] eqn:E.
    apply tw_split in E as (written & Hp & ->). apply (rollups_grew (w_faults w)), upserts_grow.
Qed.

Lemma edges_flush_hist hz g w oks rows :
  worldInv hz (hist w g) -> cutOK w g -> Forall (openRow ed_StepSeconds ed_Bucket hz) rows ->
  let w' := setEdges (AddSpanEdges oks rows (w_edges w)).2 w in
  hist w' g = setEdges (AddSpanEdges oks rows (w_edges (hist w g))).2 (hist w g) /\ grew w w'.
Proof.
  intros Hi [_ C2] Ho w'. split.
  - cbn [hist w_edges]. unfold AddSpanEdges. rewrite flush_hist; [done|unfold spanRollupChunk; lia|].
    eapply (open_kept spanEdgePK ed_StepSeconds ed_Bucket ltac:(intros r r' Er; by injection Er) hz);
      [apply Hi|intros th; exact (marks_below hz (hist w g) th Hi)|exact C2|done].
  - unfold w'. destruct (AddSpanEdges oks rows (w_edges w)) as [e t'] eqn:E.
    apply tw_split in E as (written & Hp & ->). apply (edges_grew (w_faults w)), upserts_grow.
Qed.
