(* ===== verification/RetentionTrim.v ===== *)
(** * What a trim of the span tiers deletes

    Every row it deletes is before its tier's window and, below the daily tier, before
    the compaction watermark; the rows it counts are the rows gone, within the budget;
    and a trim that reports no backlog leaves none of the rows it may delete. *)
From S2P Require Import Prelude Model Varint SpanHist TierStore TraceSampling RetentionConfig.
From S2P Require Import Tiers SpanPlan SpanMerge Compaction CompactionInv CompleteWindow.
From S2P Require Import SpanEdges CompactionWorld CompactionProps RetentionTiers.

(** ** One table *)

Section TrimTable.
Context {T K : Type} `{Countable K}.
Context (stepOf bucketOf : T -> Z) (pk : T -> K) (compare : T -> T -> comparison).
Implicit Types t : gmap K T.

Definition keyed t : Prop := forall k r, t !! k = Some r -> pk r = k.

(** [t'] is [t] less [n] rows of the tier before the cutoff. *)
Definition trimOf (step cutoff n : Z) t t' : Prop :=
  t' ⊆ t /\ Z.of_nat (size t) = Z.of_nat (size t') + n /\
  forall k r, t !! k = Some r -> t' !! k = None -> stepOf r = step /\ bucketOf r < Unix cutoff.

(** None of those rows are left. *)
Definition noOlder (step cutoff : Z) t : Prop :=
  forall k r, t !! k = Some r -> stepOf r = step -> Unix cutoff <= bucketOf r.

Lemma keyed_sub t t' : keyed t -> t' ⊆ t -> keyed t'.
Proof. intros Hk Hs k r Hl. apply Hk. by eapply lookup_weaken. Qed.

Lemma trimOf_refl step cutoff t : trimOf step cutoff 0 t t.
Proof. split_and!; [done|lia|]. intros k r E E'. congruence. Qed.

Lemma trimOf_trans step cutoff n m t t1 t2 :
  trimOf step cutoff n t t1 -> trimOf step cutoff m t1 t2 -> trimOf step cutoff (n + m) t t2.
Proof.
  intros (A1 & A2 & A3) (B1 & B2 & B3). split_and!; [by transitivity t1|lia|].
  intros k r E E2. destruct (t1 !! k) as [x|] eqn:E1; [|by eapply A3].
  assert (x = r) as -> by (eapply lookup_weaken in E1; [|exact A1]; congruence). by eapply B3.
Qed.

Lemma olderRows_spec step cutoff t r :
  keyed t -> r ∈ olderRows stepOf bucketOf compare step cutoff t <->
  t !! pk r = Some r /\ stepOf r = step /\ bucketOf r < Unix cutoff.
Proof.
  intros Hk. unfold olderRows. rewrite merge_sort_Permutation, list_elem_of_filter, list_elem_of_fmap.
  split.
  - intros [[? ?] ([k x] & -> & Hl%elem_of_map_to_list)]. cbn in *. rewrite (Hk k x Hl). done.
  - intros (Hl & ? & ?). split; [done|]. exists (pk r, r). split; [done|]. by apply elem_of_map_to_list.
Qed.

Lemma olderRows_nodup step cutoff t :
  keyed t -> NoDup (pk <$> olderRows stepOf bucketOf compare step cutoff t).
Proof.
  intros Hk. unfold olderRows. rewrite merge_sort_Permutation.
  eapply sublist_NoDup; [|apply fmap_sublist, sublist_filter].
  replace (pk <$> (map_to_list t).*2) with ((map_to_list t).*1); [apply NoDup_fst_map_to_list|].
  rewrite <- list_fmap_compose. apply list_fmap_ext. intros i [k x] Hx.
  symmetry. apply Hk, elem_of_map_to_list. by eapply list_elem_of_lookup_2.
Qed.

(** Deleting rows of a table by their keys. *)
Lemma deletes_spec l : forall t,
  NoDup (pk <$> l) -> (forall r, r ∈ l -> t !! pk r = Some r) ->
  let t' := foldl (fun t r => delete (pk r) t) t l in
  t' ⊆ t /\ size t = (size t' + length l)%nat /\
  (forall k, t' !! k = None -> t !! k = None \/ k ∈ pk <$> l) /\
  (forall r, r ∈ l -> t' !! pk r = None).
Proof.
  induction l as [|x l IH]; intros t Hn Hl; simpl.
  { split_and!; [done|lia|by left|by intros r ?%not_elem_of_nil]. }
  apply NoDup_cons in Hn as [Hx Hn]. destruct (IH (delete (pk x) t) Hn) as (I1 & I2 & I3 & I4).
  { intros r Hr. rewrite lookup_delete_ne; [apply Hl; by right|]. intros E. destruct Hx. rewrite E.
    by apply list_elem_of_fmap_2. }
  assert (t !! pk x = Some x) as Ex by (apply Hl; by left).
  split_and!.
  - etransitivity; [exact I1|apply delete_subseteq].
  - rewrite map_size_delete_Some in I2 by by eexists.
    assert (size t <> 0%nat) by (intros E0%map_size_empty_inv; subst; by rewrite lookup_empty in Ex). lia.
  - intros k E. apply I3 in E as [E|E]; [|right; by right].
    apply lookup_delete_None in E as [<-|E]; [right; by left|by left].
  - intros r [->|Hr]%elem_of_cons; [|by apply I4].
    destruct (foldl _ _ _ !! pk x) as [y|] eqn:E; [|done].
    eapply lookup_weaken in E; [|exact I1]. by rewrite lookup_delete_eq in E.
Qed.

Lemma deleteRows_spec step cutoff limit t :
  keyed t -> 0 <= limit ->
  match deleteRows stepOf bucketOf pk compare step cutoff limit t with
  | (n, t') => trimOf step cutoff n t t' /\ 0 <= n <= limit /\ (n < limit -> noOlder step cutoff t')
  end.
Proof.
  intros Hk Hl. unfold deleteRows. set (rows := olderRows stepOf bucketOf compare step cutoff t).
  set (victims := take (Z.to_nat limit) rows).
  assert (forall r, r ∈ victims -> r ∈ rows) as Hv by (intros r Hr; by eapply subseteq_take).
  destruct (deletes_spec victims t) as (H1 & H2 & H3 & H4).
  { eapply sublist_NoDup; [by apply olderRows_nodup|apply fmap_sublist, sublist_take]. }
  { intros r Hr%Hv. by apply olderRows_spec in Hr as [? _]. }
  assert (length victims <= Z.to_nat limit)%nat as Hlen by (unfold victims; rewrite length_take; lia).
  split_and!; [split_and!; [done|lia|]|lia|lia|].
  - intros k r E E'. apply H3 in E' as [?|(x & -> & Hx)%list_elem_of_fmap]; [congruence|].
    apply Hv, olderRows_spec in Hx as (Ex & ?); [|done]. by simplify_eq.
  - intros Hlt k r E Es. destruct (Z.le_gt_cases (Unix cutoff) (bucketOf r)) as [|Hb]; [done|exfalso].
    assert (t !! k = Some r) as Et by by eapply lookup_weaken.
    assert (r ∈ victims) as Hr.
    { unfold victims. rewrite take_ge; [|unfold victims in Hlt; rewrite length_take in Hlt; lia].
      apply olderRows_spec; [done|]. by rewrite (Hk k r Et). }
    specialize (H4 r Hr). rewrite (Hk k r Et) in H4. congruence.
Qed.

Context (get : world -> gmap K T) (set : gmap K T -> world -> world).
Context (get_faults : forall fs w, get (setFaults fs w) = get w).
Context (get_set : forall t w, get (set t w) = t).
Context (set_set : forall t t' w, set t (set t' w) = set t w).
Context (set_get : forall w, set (get w) w = w).
Context (set_faults : forall fs t w, set t (setFaults fs w) = setFaults fs (set t w)).

(** What [deleteTierRowsOlderThan] does to the world. *)
Definition trimsTable (step cutoff max total : Z) (w : world) (res : deleted * world) : Prop :=
  let '((n, more, err), w') := res in
  exists t' fs, w' = setFaults fs (set t' w) /\ trimOf step cutoff (n - total) (get w) t' /\
    total <= n /\ (total <= max -> n <= max) /\
    (err = false -> more = false -> noOlder step cutoff t') /\
    (w_faults w = [] -> fs = [] /\ err = false /\ (more = true -> max <= n)).

Lemma trimsTable_stop step cutoff max total more (err : bool) fs w :
  (err = false -> more = true) ->
  (w_faults w = [] -> fs = [] /\ err = false /\ max <= total) ->
  trimsTable step cutoff max total w ((total, more, err), setFaults fs w).
Proof.
  intros He Hf. exists (get w), fs. rewrite set_get, Z.sub_diag.
  split_and!; [done|apply trimOf_refl|lia|done|intros E1 E2; specialize (He E1); congruence|].
  intros E. destruct (Hf E) as (? & ? & ?). by split_and!.
Qed.

Lemma deleteBatches_spec step cutoff max fuel : forall total w,
  keyed (get w) -> (size (get w) < fuel)%nat ->
  trimsTable step cutoff max total w
    (deleteBatches stepOf bucketOf pk compare get set fuel step cutoff max total w).
Proof.
  induction fuel as [|fuel IH]; intros total w Hk Hf; [lia|]. cbn [deleteBatches].
  destruct (max <=? total) eqn:Em; to_prop.
  { pose proof (trimsTable_stop step cutoff max total true false (w_faults w) w ltac:(done)) as Hs.
    replace (setFaults (w_faults w) w) with w in Hs by by destruct w. by apply Hs. }
  rewrite reads_eq. destruct (hd true (w_faults w)) eqn:E1.
  2: { apply trimsTable_stop; [done|]. intros E. by rewrite E in E1. }
  rewrite reads_eq, get_faults. cbn [setFaults w_faults]. fold (setFaults (tl (w_faults w)) w).
  set (batch := if _ <? _ then _ else _). assert (0 < batch /\ total + batch <= max) as [Hb Hbm].
  { unfold batch. destruct (_ <? _) eqn:E; to_prop; unfold retentionDeleteBatch in *; lia. }
  destruct (hd true (tl (w_faults w))) eqn:E2.
  2: { refine (trimsTable_stop step cutoff max total true true (tl (tl (w_faults w))) w _ _); [done|].
       intros E. by rewrite E in E2. }
  pose proof (deleteRows_spec step cutoff batch (get w) Hk ltac:(lia)) as Hd.
  destruct (deleteRows _ _ _ _ _ _ _ _) as [n t1]. destruct Hd as (Ht & Hn & Hno).
  set (w1 := set t1 _). assert (w1 = setFaults (tl (tl (w_faults w))) (set t1 w)) as Ew1
    by (unfold w1; by rewrite !set_faults).
  assert (get w1 = t1) as Eg by (unfold w1; apply get_set).
  destruct (n <? batch) eqn:En; to_prop.
  { exists t1, (tl (tl (w_faults w))). replace (total + n - total) with n by lia.
    split_and!; [done|done|lia|lia|auto|]. intros ->. done. }
  rewrite reads_eq. destruct (hd true (w_faults w1)) eqn:E3.
  2: { exists t1, (tl (w_faults w1)). replace (total + n - total) with n by lia.
       split_and!; [by rewrite Ew1|done|lia|lia|done|].
       intros E. rewrite Ew1 in E3. cbn in E3. by rewrite E in E3. }
  set (w2 := setFaults (tl (w_faults w1)) w1).
  assert (get w2 = t1) as Eg2 by (unfold w2; by rewrite get_faults).
  assert (size t1 < size (get w))%nat as Hsz by (destruct Ht as (_ & ? & _); lia).
  specialize (IH (total + n) w2). rewrite Eg2 in IH.
  destruct (deleteBatches _ _ _ _ _ _ _ _ _ _ _ w2) as [[[n' more] err] w3].
  destruct IH as (t' & fs & -> & Ht' & Hge & Hmax & Hnone & Hfs);
    [by eapply keyed_sub; [exact Hk|apply Ht]|lia|].
  exists t', fs. rewrite Eg2 in Ht'. split_and!; [|..|done|].
  - unfold w2. rewrite Ew1. rewrite !set_faults, set_set. by destruct (set t' w).
  - replace (n' - total) with (n + (n' - (total + n))) by lia. by eapply trimOf_trans.
  - lia.
  - intros _. apply Hmax. lia.
  - intros E. apply Hfs. unfold w2. rewrite Ew1. cbn. by rewrite E.
Qed.
End TrimTable.

(** ** Both tables *)

Abbreviation rollupKeyed := (keyed spanRollupPK).
Abbreviation edgeKeyed := (keyed spanEdgePK).

(** The rows of both tables. *)
Definition tierRows (w : world) : Z := Z.of_nat (size (w_rollups w)) + Z.of_nat (size (w_edges w)).

(** A row of the tier and bucket is left in one of the tables. *)
Definition holdsRow (P : Z -> Z -> Prop) (w : world) : Prop :=
  map_Exists (fun _ r => P (ro_StepSeconds r) (ro_Bucket r)) (w_rollups w) \/
  map_Exists (fun _ e => P (ed_StepSeconds e) (ed_Bucket e)) (w_edges w).

(** [w'] is [w] less [n] rows that satisfy [P]. *)
Record trimmedBy (P : Z -> Z -> Prop) (n : Z) (w w' : world) : Prop := {
  tb_rollups : w_rollups w' ⊆ w_rollups w;
  tb_edges : w_edges w' ⊆ w_edges w;
  tb_rows : tierRows w = tierRows w' + n;
  tb_marks : w_marks w' = w_marks w;
  tb_ingested : w_ingested w' = w_ingested w;
  tb_gone_rollups k r : w_rollups w !! k = Some r -> w_rollups w' !! k = None ->
    P (ro_StepSeconds r) (ro_Bucket r);
  tb_gone_edges k e : w_edges w !! k = Some e -> w_edges w' !! k = None ->
    P (ed_StepSeconds e) (ed_Bucket e);
}.

Lemma trimmedBy_refl (P : Z -> Z -> Prop) fs w : trimmedBy P 0 w (setFaults fs w).
Proof. split; try done; [unfold tierRows; cbn; lia|intros; cbn in *; congruence..]. Qed.

Lemma trimmedBy_trans (P Q : Z -> Z -> Prop) n m w w1 w2 :
  (forall s b, Q s b -> P s b) -> trimmedBy P n w w1 -> trimmedBy Q m w1 w2 -> trimmedBy P (n + m) w w2.
Proof.
  intros HQ [A1 A2 A3 A4 A5 A6 A7] [B1 B2 B3 B4 B5 B6 B7].
  split; [by transitivity (w_rollups w1)|by transitivity (w_edges w1)|lia|congruence..|eauto|eauto].
  - intros k r E E2. destruct (w_rollups w1 !! k) as [x|] eqn:E1; [|by eapply A6].
    assert (x = r) as -> by (eapply lookup_weaken in E1; [|exact A1]; congruence). eauto.
  - intros k r E E2. destruct (w_edges w1 !! k) as [x|] eqn:E1; [|by eapply A7].
    assert (x = r) as -> by (eapply lookup_weaken in E1; [|exact A2]; congruence). eauto.
Qed.

Lemma trimmedBy_weaken (P Q : Z -> Z -> Prop) n w w' :
  (forall s b, Q s b -> P s b) -> trimmedBy Q n w w' -> trimmedBy P n w w'.
Proof.
  intros HQ Ht. pose proof (trimmedBy_trans P Q 0 n w _ w' HQ (trimmedBy_refl P (w_faults w) w)) as H.
  replace (setFaults (w_faults w) w) with w in H by by destruct w. by apply H.
Qed.

Lemma trimmedBy_keyed P n w w' :
  trimmedBy P n w w' -> rollupKeyed (w_rollups w) -> edgeKeyed (w_edges w) ->
  rollupKeyed (w_rollups w') /\ edgeKeyed (w_edges w').
Proof. intros [A1 A2 _ _ _ _ _] ? ?. split; by eapply keyed_sub. Qed.

Definition tierBefore (step cutoff s b : Z) : Prop := s = step /\ b < Unix cutoff.

Lemma DeleteRollups_spec step cutoff max w :
  rollupKeyed (w_rollups w) -> 0 <= max ->
  match DeleteSpanRollupsOlderThanLimited step cutoff max w with
  | ((n, more, err), w') => trimmedBy (tierBefore step cutoff) n w w' /\ 0 <= n <= max /\
      (err = false -> more = false -> noOlder ro_StepSeconds ro_Bucket step cutoff (w_rollups w')) /\
      (w_faults w = [] -> w_faults w' = [] /\ err = false)
  end.
Proof.
  intros Hk Hm. unfold DeleteSpanRollupsOlderThanLimited, deleteTierRowsOlderThan.
  pose proof (deleteBatches_spec ro_StepSeconds ro_Bucket spanRollupPK compareSpanRollupKey w_rollups
    setRollups ltac:(done) ltac:(done) ltac:(done) ltac:(by intros []) ltac:(done) step cutoff max
    (S (size (w_rollups w))) 0 w Hk ltac:(lia)) as H.
  destruct (deleteBatches _ _ _ _ _ _ _ _ _ _ _ w) as [[[n more] err] w'].
  destruct H as (t' & fs & -> & (H1 & H2 & H3) & H4 & H5 & H6 & H7).
  split_and!; [|lia|lia|done|intros E; destruct (H7 E) as (-> & ? & _); done].
  split; try done; [unfold tierRows; cbn; lia|]. intros k r E E'. cbn in *. congruence.
Qed.

Lemma DeleteEdges_spec step cutoff max w :
  edgeKeyed (w_edges w) -> 0 <= max ->
  match DeleteSpanEdgesOlderThanLimited step cutoff max w with
  | ((n, more, err), w') => trimmedBy (tierBefore step cutoff) n w w' /\ 0 <= n <= max /\
      (err = false -> more = false -> noOlder ed_StepSeconds ed_Bucket step cutoff (w_edges w')) /\
      (w_faults w = [] -> w_faults w' = [] /\ err = false)
  end.
Proof.
  intros Hk Hm. unfold DeleteSpanEdgesOlderThanLimited, deleteTierRowsOlderThan.
  pose proof (deleteBatches_spec ed_StepSeconds ed_Bucket spanEdgePK compareSpanEdgeKey w_edges
    setEdges ltac:(done) ltac:(done) ltac:(done) ltac:(by intros []) ltac:(done) step cutoff max
    (S (size (w_edges w))) 0 w Hk ltac:(lia)) as H.
  destruct (deleteBatches _ _ _ _ _ _ _ _ _ _ _ w) as [[[n more] err] w'].
  destruct H as (t' & fs & -> & (H1 & H2 & H3) & H4 & H5 & H6 & H7).
  split_and!; [|lia|lia|done|intros E; destruct (H7 E) as (-> & ? & _); done].
  split; try done; [unfold tierRows; cbn; lia|]. intros k r E E'. cbn in *. congruence.
Qed.

Lemma deleteSpanTier_spec step cutoff budget w :
  rollupKeyed (w_rollups w) -> edgeKeyed (w_edges w) -> 0 <= budget ->
  match deleteSpanTier step cutoff budget w with
  | ((n, more, err), w') => trimmedBy (tierBefore step cutoff) n w w' /\ 0 <= n <= budget /\
      (err = false -> more = false -> ~ holdsRow (tierBefore step cutoff) w') /\
      (w_faults w = [] -> w_faults w' = [] /\ err = false)
  end.
Proof.
  intros Kr Ke Hb. unfold deleteSpanTier. pose proof (DeleteRollups_spec step cutoff budget w Kr Hb) as H1.
  destruct (DeleteSpanRollupsOlderThanLimited step cutoff budget w) as [[[n more] err] w1].
  destruct H1 as (T1 & Hn & N1 & F1).
  destruct (err || more || (budget <=? n)) eqn:E.
  { split_and!; [done|lia|lia| |done]. intros -> Em. cbn [orb] in E. congruence. }
  apply orb_false_elim in E as [[-> ->]%orb_false_elim E]. to_prop. specialize (N1 eq_refl eq_refl).
  destruct (trimmedBy_keyed _ _ _ _ T1 Kr Ke) as [Kr1 Ke1].
  pose proof (DeleteEdges_spec step cutoff (budget - n) w1 Ke1 ltac:(lia)) as H2.
  destruct (DeleteSpanEdgesOlderThanLimited step cutoff (budget - n) w1) as [[[m more] err] w2].
  destruct H2 as (T2 & Hm & N2 & F2).
  split_and!; [by eapply trimmedBy_trans|lia|lia| |intros Ef; apply F2, F1, Ef].
  intros -> -> [(k & r & Hl & Es & Hlt)|(k & e & Hl & Es & Hlt)].
  - eapply lookup_weaken in Hl; [|apply T2]. specialize (N1 k r Hl Es). lia.
  - specialize (N2 eq_refl eq_refl k e Hl Es). lia.
Qed.

(** ** The tiers *)

(** What a trim may delete: rows past the window of their tier, and below the daily tier
    only rows before the watermark. *)
Definition mayTrim (tiers : list (Z * Z)) (now : Z) (marks : gmap Z Z) (s b : Z) : Prop :=
  exists window, (s, window) ∈ tiers /\ b < Unix (now - window) /\ belowMark marks s b.

Lemma Unix_mono a b : a <= b -> Unix a <= Unix b.
Proof. intros. unfold Unix. apply Z.div_le_mono; [done|lia]. Qed.

Lemma Unix_min a b c : c < Unix (if a <? b then a else b) <-> c < Unix a /\ c < Unix b.
Proof.
  destruct (a <? b) eqn:E; to_prop; [pose proof (Unix_mono a b ltac:(lia))|pose proof (Unix_mono b a ltac:(lia))]; lia.
Qed.

(** The cutoff of a tier is the window, capped at the watermark. *)
Lemma spanTierCutoff_spec step cutoff w :
  match spanTierCutoff step cutoff w with
  | (None, w') => w' = setFaults (w_faults w') w /\ w_faults w <> []
  | (Some None, w') => w' = setFaults (w_faults w') w /\ (w_faults w = [] -> w_faults w' = []) /\
      forall b, ~ belowMark (w_marks w) step b
  | (Some (Some x), w') => w' = setFaults (w_faults w') w /\ (w_faults w = [] -> w_faults w' = []) /\
      forall b, b < Unix x <-> b < Unix cutoff /\ belowMark (w_marks w) step b
  end.
Proof.
  unfold spanTierCutoff, belowMark. destruct (step =? StepDay) eqn:E; to_prop; subst.
  { cbn. split_and!; [by destruct w|done|]. intros b. split; [intros; split; [done|by left]|by intros [? _]]. }
  unfold SpanRollupWatermark, mbind, M_bind. rewrite reads_eq.
  destruct (hd true (w_faults w)) eqn:Eh; [|split; [done|intros Ew; by rewrite Ew in Eh]].
  destruct (w_marks w !! step) as [th|]; cbn.
  - split_and!; [done|by intros ->|]. intros b. rewrite Unix_min, Unix_second. split.
    + intros [? ?]. split; [done|]. right. eauto.
    + intros [? [?|(x & [= <-] & ?)]]; done.
  - split_and!; [done|by intros ->|]. intros b [?|(x & ? & _)]; done.
Qed.

Lemma mayTrim_cons step window tiers now marks s b :
  mayTrim ((step, window) :: tiers) now marks s b <->
  (s = step /\ b < Unix (now - window) /\ belowMark marks step b) \/ mayTrim tiers now marks s b.
Proof.
  unfold mayTrim. split.
  - intros (x & [[= -> ->]|Hin]%elem_of_cons & Hx); [by left|right; by exists x].
  - intros [(-> & Hx)|(x & Hin & Hx)]; [exists window|exists x]; (split; [|done]); [by left|by right].
Qed.

Lemma holdsRow_mono (P Q : Z -> Z -> Prop) w w' :
  (forall s b, P s b -> Q s b) -> w_rollups w ⊆ w_rollups w' -> w_edges w ⊆ w_edges w' ->
  holdsRow P w -> holdsRow Q w'.
Proof.
  intros HPQ Sr Se [(k & r & Hl & Hp)|(k & e & Hl & Hp)]; [left|right]; exists k;
    eexists; (split; [by eapply lookup_weaken|auto]).
Qed.

Lemma holdsRow_or (P Q : Z -> Z -> Prop) w :
  holdsRow (fun s b => P s b \/ Q s b) w -> holdsRow P w \/ holdsRow Q w.
Proof. unfold holdsRow, map_Exists. naive_solver. Qed.

Lemma deleteSpanTiers_spec now budget tiers : forall total w,
  rollupKeyed (w_rollups w) -> edgeKeyed (w_edges w) ->
  match deleteSpanTiers tiers now budget total w with
  | ((n, more, err), w') =>
      trimmedBy (mayTrim tiers now (w_marks w)) (n - total) w w' /\ total <= n /\
      (total <= budget -> n <= budget) /\
      (err = false -> more = false -> ~ holdsRow (mayTrim tiers now (w_marks w)) w') /\
      (w_faults w = [] -> w_faults w' = [] /\ err = false)
  end.
Proof.
  induction tiers as [|[step window] tiers IH]; intros total w Kr Ke; cbn [deleteSpanTiers].
  { pose proof (trimmedBy_refl (mayTrim [] now (w_marks w)) (w_faults w) w) as Hr.
    replace (setFaults (w_faults w) w) with w in Hr by by destruct w.
    split_and!; [by rewrite Z.sub_diag|lia|done| |done].
    intros _ _ [(k & r & _ & (x & ?%not_elem_of_nil & _))|(k & r & _ & (x & ?%not_elem_of_nil & _))]; done. }
  assert (forall s b, mayTrim tiers now (w_marks w) s b ->
    mayTrim ((step, window) :: tiers) now (w_marks w) s b) as Hmore.
  { intros s b ?. apply mayTrim_cons. by right. }
  destruct (budget <=? total) eqn:Eb; to_prop.
  { pose proof (trimmedBy_refl (mayTrim ((step, window) :: tiers) now (w_marks w)) (w_faults w) w) as Hr.
    replace (setFaults (w_faults w) w) with w in Hr by by destruct w.
    split_and!; [by rewrite Z.sub_diag|lia|done|done|done]. }
  pose proof (spanTierCutoff_spec step (now - window) w) as Hc.
  destruct (spanTierCutoff step (now - window) w) as [[[cutoff|]|] w1].
  - destruct Hc as (E1 & F1 & Hc). assert (w_rollups w1 = w_rollups w /\ w_edges w1 = w_edges w /\
      w_marks w1 = w_marks w) as (Er & Ee & Em) by by rewrite E1.
    assert (trimmedBy (mayTrim ((step, window) :: tiers) now (w_marks w)) 0 w w1) as T0
      by (rewrite E1; apply trimmedBy_refl).
    pose proof (deleteSpanTier_spec step cutoff (budget - total) w1) as H1. rewrite Er, Ee in H1.
    destruct (deleteSpanTier step cutoff (budget - total) w1) as [[[n more] err] w2].
    destruct H1 as (T1 & Hn & N1 & F2); [done..|lia|].
    assert (trimmedBy (mayTrim ((step, window) :: tiers) now (w_marks w)) n w w2) as T2.
    { change n with (0 + n). eapply trimmedBy_trans; [|exact T0|exact T1]. intros s b [-> Hlt%Hc].
      apply mayTrim_cons. by left. }
    destruct err.
    { split_and!; [by replace (total + n - total) with n by lia|lia|lia|done|].
      intros Ef. by destruct (F2 (F1 Ef)). }
    destruct more.
    { split_and!; [by replace (total + n - total) with n by lia|lia|lia|done|].
      intros Ef. by destruct (F2 (F1 Ef)). }
    specialize (N1 eq_refl eq_refl). destruct (trimmedBy_keyed _ _ _ _ T2 Kr Ke) as [Kr2 Ke2].
    specialize (IH (total + n) w2 Kr2 Ke2). rewrite (tb_marks _ _ _ _ T2) in IH.
    destruct (deleteSpanTiers tiers now budget (total + n) w2) as [[[n' more] err] w3].
    destruct IH as (T3 & Hge & Hmax & N3 & F3). split_and!; [|lia|intros; apply Hmax; lia| |].
    + replace (n' - total) with (n + (n' - (total + n))) by lia. by eapply trimmedBy_trans.
    + intros E2 E3 Hh. apply (holdsRow_mono _ (fun s b => tierBefore step cutoff s b \/
        mayTrim tiers now (w_marks w) s b) w3 w3) in Hh; [|intros s b|done..].
      * apply holdsRow_or in Hh as [Hh|Hh]; [|by apply (N3 E2 E3)]. apply N1.
        by eapply holdsRow_mono; [|apply T3|apply T3|exact Hh].
      * rewrite mayTrim_cons. intros [(-> & Hx)|?]; [left; split; [done|by apply Hc]|by right].
    + intros Ef. apply F3. by apply F2, F1.
  - destruct Hc as (E1 & F1 & Hc). assert (w_rollups w1 = w_rollups w /\ w_edges w1 = w_edges w /\
      w_marks w1 = w_marks w) as (Er & Ee & Em) by by rewrite E1.
    specialize (IH total w1). rewrite Er, Ee, Em in IH.
    destruct (deleteSpanTiers tiers now budget total w1) as [[[n' more] err] w3].
    destruct (IH Kr Ke) as (T3 & Hge & Hmax & N3 & F3).
    assert (trimmedBy (mayTrim ((step, window) :: tiers) now (w_marks w)) 0 w w1) as T0
      by (rewrite E1; apply trimmedBy_refl).
    split_and!; [|lia|done| |intros Ef; apply F3; by apply F1].
    + change (n' - total) with (0 + (n' - total)). by eapply trimmedBy_trans.
    + intros E2 E3 Hh. apply (N3 E2 E3). eapply holdsRow_mono; [|done..|exact Hh]. intros s b.
      rewrite mayTrim_cons. intros [(_ & _ & Hx)|?]; [by apply Hc in Hx|done].
  - destruct Hc as (E1 & F1). split_and!; [rewrite E1, Z.sub_diag; apply trimmedBy_refl|lia|done|done|done].
Qed.
