(* ===== verification/RetentionLive.v ===== *)
(** * Compaction under retention

    Passes, flushes and trims in any order: the tables hold what the history holds,
    less rows already rolled into the tier above.  Hours wait for their day in full
    also when their 5-minute rows are gone.  A trim that stops at its budget can cut a
    bucket in two, and a repair then builds a short hour from the rest. *)
From S2P Require Import Prelude Model Varint SpanHist TierStore TraceSampling RetentionConfig.
From S2P Require Import Tiers SpanPlan SpanMerge Compaction CompactionInv CompleteWindow.
From S2P Require Import SpanEdges CompactionWorld CompactionProps RetentionTiers.
From S2P Require Import RetentionTrim.

(** ** Runs with their history *)

Definition setIngested (l : list Z) (w : world) : world :=
  mkWorld (w_rollups w) (w_edges w) (w_marks w) l (w_busy w) (w_repaired w) (w_faults w).

(** The states of the database with all rows it ever held, in their last form.  [hz] is
    how far compaction may have got.  Passes may fail at any call, flushes and trims
    may stop anywhere. *)
Inductive live (cfg : Config) : Z -> world -> world -> Prop :=
| live_init hz w :
    (forall k r, w_rollups w !! k = Some r -> spanRollupPK r = k /\ openRow ro_StepSeconds ro_Bucket hz r) ->
    (forall k r, w_edges w !! k = Some r -> spanEdgePK r = k /\ openRow ed_StepSeconds ed_Bucket hz r) ->
    w_marks w = ∅ -> live cfg hz w w
| live_pass hz w g now fs w' :
    live cfg hz w g -> (compactLadder cfg now spanLadder (setFaults fs w)).2 = w' ->
    live cfg (Z.max hz (now - cfg_Lag cfg)) w' (hist w' g)
| live_rollups hz w g oks rows w' :
    live cfg hz w g -> Forall (openRow ro_StepSeconds ro_Bucket hz) rows ->
    setRollups (AddSpanRollups oks rows (w_rollups w)).2 w = w' -> live cfg hz w' (hist w' g)
| live_edges hz w g oks rows w' :
    live cfg hz w g -> Forall (openRow ed_StepSeconds ed_Bucket hz) rows ->
    setEdges (AddSpanEdges oks rows (w_edges w)).2 w = w' -> live cfg hz w' (hist w' g)
| live_ingest hz w g t w' :
    live cfg hz w g -> hz <= t -> setIngested (t :: w_ingested w) w = w' -> live cfg hz w' (hist w' g)
| live_retention hz w g kept w' :
    live cfg hz w g -> kept ⊆ w_ingested w -> setIngested kept w = w' -> live cfg hz w' (hist w' g)
| live_trim hz w g c now budget fs w' :
    live cfg hz w g -> (deleteSpanRollupTiers c now budget (setFaults fs w)).2 = w' ->
    live cfg hz w' (hist w' g).

(** The history keeps the compaction invariant, and retention stopped at the watermarks. *)
Record liveInv (hz : Z) (w g : world) : Prop := {
  li_hist : hist w g = g;
  li_world : worldInv hz g;
  li_cut : cutOK w g;
}.

Lemma hist_twice w g : hist w (hist w g) = hist w g.
Proof. unfold hist. cbn. by rewrite !(assoc_L (∪)), !(idemp_L (∪)). Qed.

Lemma union_trimmed {T K} `{Countable K} (t g : gmap K T) k r :
  trimmedRow t (t ∪ g) k r -> trimmedRow t g k r.
Proof. intros [[?|Ht]%union_cases E]; [congruence|done]. Qed.

Lemma cutOK_hist w g : cutOK w g -> cutOK w (hist w g).
Proof.
  intros [C1 C2]. split; intros k r Ht%union_trimmed; [by eapply C1|by eapply C2].
Qed.

(** A step that acts on the tables as on their history, which stays sound. *)
Lemma live_step hz hz' w g w' :
  liveInv hz w g -> grew w w' -> worldInv hz' (hist w' g) -> liveInv hz' w' (hist w' g).
Proof.
  intros [E Hw Hc] Hg Hi. split; [apply hist_twice|done|]. by eapply cutOK_hist, grew_cutOK.
Qed.

Lemma hist_faults fs w g : hist w g = g -> hist (setFaults fs w) g = setFaults fs g.
Proof. intros E. rewrite <- E at 2. done. Qed.

Lemma hist_ingested l w g : hist w g = g -> hist (setIngested l w) g = setIngested l g.
Proof. intros E. rewrite <- E at 2. done. Qed.

Lemma pass_live hz cfg now fs w g :
  liveInv hz w g -> let w' := (compactLadder cfg now spanLadder (setFaults fs w)).2 in
  liveInv (Z.max hz (now - cfg_Lag cfg)) w' (hist w' g).
Proof.
  intros Hl w'. pose proof Hl as [E Hw Hc]. pose proof Hw as (Hr & He & _).
  assert (worldInv (Z.max hz (now - cfg_Lag cfg)) (hist (setFaults fs w) g)) as Hi.
  { rewrite (hist_faults fs w g E). apply (worldInv_frame hz _ g); try done; [lia|by eapply ti_keys..]. }
  destruct (compactLadder_hist _ cfg now g spanLadder (setFaults fs w) spanLadder_coarse Hi ltac:(lia) Hc)
    as [Et Hg].
  apply (live_step hz _ w); [done|exact Hg|].
  pose proof (pass_inv hz cfg now fs g Hw) as Hp. rewrite <- (hist_faults fs w g E), Et in Hp. exact Hp.
Qed.

Lemma rollups_live hz oks rows w g :
  liveInv hz w g -> Forall (openRow ro_StepSeconds ro_Bucket hz) rows ->
  let w' := setRollups (AddSpanRollups oks rows (w_rollups w)).2 w in liveInv hz w' (hist w' g).
Proof.
  intros Hl Ho w'. pose proof Hl as [E Hw Hc]. rewrite <- E in Hw.
  destruct (rollups_flush_hist hz g w oks rows Hw Hc Ho) as [Eh Hg].
  apply (live_step hz _ w); [done|exact Hg|]. unfold w'. rewrite Eh. by apply flushRollups_world.
Qed.

Lemma edges_live hz oks rows w g :
  liveInv hz w g -> Forall (openRow ed_StepSeconds ed_Bucket hz) rows ->
  let w' := setEdges (AddSpanEdges oks rows (w_edges w)).2 w in liveInv hz w' (hist w' g).
Proof.
  intros Hl Ho w'. pose proof Hl as [E Hw Hc]. rewrite <- E in Hw.
  destruct (edges_flush_hist hz g w oks rows Hw Hc Ho) as [Eh Hg].
  apply (live_step hz _ w); [done|exact Hg|]. unfold w'. rewrite Eh. by apply flushEdges_world.
Qed.

Lemma ingested_live hz l w g :
  liveInv hz w g -> worldInv hz (setIngested l g) ->
  liveInv hz (setIngested l w) (hist (setIngested l w) g).
Proof.
  intros Hl Hi. apply (live_step hz _ w); [done|exact (grew_refl w)|].
  by rewrite (hist_ingested l w g) by apply Hl.
Qed.

(** Deleted rows stay in the history. *)
Lemma hist_trim w w' g :
  hist w g = g -> w_rollups w' ⊆ w_rollups w -> w_edges w' ⊆ w_edges w ->
  w_rollups (hist w' g) = w_rollups g /\ w_edges (hist w' g) = w_edges g.
Proof.
  intros E Sr Se.
  assert (w_rollups w ⊆ w_rollups g /\ w_edges w ⊆ w_edges g) as [Gr Ge]
    by (rewrite <- E; split; apply map_union_subseteq_l).
  split; apply map_subseteq_union; by etrans.
Qed.

Lemma live_keyed hz w g :
  liveInv hz w g -> rollupKeyed (w_rollups w) /\ edgeKeyed (w_edges w).
Proof.
  intros [E (Hr & He & _) _].
  assert (w_rollups w ⊆ w_rollups g /\ w_edges w ⊆ w_edges g) as [Gr Ge]
    by (rewrite <- E; split; apply map_union_subseteq_l).
  split; intros k r Hl; [apply (ti_keys _ _ _ _ _ _ _ _ _ Hr k r)|apply (ti_keys _ _ _ _ _ _ _ _ _ He k r)];
    by eapply lookup_weaken.
Qed.

Lemma trim_live hz c now budget fs w g :
  liveInv hz w g -> let w' := (deleteSpanRollupTiers c now budget (setFaults fs w)).2 in
  liveInv hz w' (hist w' g).
Proof.
  intros Hl w'. destruct (live_keyed hz w g Hl) as [Kr Ke]. pose proof Hl as [E Hw [C1 C2]].
  pose proof (deleteSpanTiers_spec now budget (spanRollupTierWindows c) 0 (setFaults fs w) Kr Ke) as Hd.
  unfold w', deleteSpanRollupTiers. clear w'.
  destruct (deleteSpanTiers _ _ _ _ _) as [[[n more] err] w']. destruct Hd as ([Sr Se _ Em Ei Gr Ge] & _).
  cbn [setFaults w_rollups w_edges w_marks w_ingested snd] in *.
  destruct (hist_trim w w' g E Sr Se) as [Er Ee]. split; [apply hist_twice| |].
  - pose proof Hw as (Hr & He & _). pose proof (f_equal w_marks E) as Em'. pose proof (f_equal w_ingested E) as Ei'.
    cbn in Em', Ei'. apply (worldInv_frame hz _ g); rewrite ?Er, ?Ee; try done; [|cbn; congruence|by eapply ti_keys..].
    split_and!; rewrite ?Er, ?Ee; try done. intros f u _. cbn [hist w_ingested]. by rewrite Ei, Ei'.
  - split; rewrite ?Er, ?Ee, Em; intros k r [E1 E2].
    + destruct (w_rollups w !! k) as [x|] eqn:Ex; [|by apply (C1 k)].
      assert (w_rollups g !! k = Some x) as Eg
        by (rewrite <- E; apply union_cases; by left). rewrite Eg in E1. injection E1 as <-.
      by destruct (Gr k x Ex E2) as (_ & _ & _ & ?).
    + destruct (w_edges w !! k) as [x|] eqn:Ex; [|by apply (C2 k)].
      assert (w_edges g !! k = Some x) as Eg
        by (rewrite <- E; apply union_cases; by left). rewrite Eg in E1. injection E1 as <-.
      by destruct (Ge k x Ex E2) as (_ & _ & _ & ?).
Qed.

Lemma live_inv cfg hz w g : live cfg hz w g -> liveInv hz w g.
Proof.
  induction 1; subst; eauto using pass_live, rollups_live, edges_live, trim_live.
  - split; [unfold hist; rewrite !(idemp_L (∪)); by destruct w|by apply init_inv|].
    split; intros k r [E1 E2]; congruence.
  - apply ingested_live; [done|]. destruct IHlive as [E Hw _]. rewrite <- E in Hw |- *.
    by apply (ingest_inv hz t (hist w g)).
  - apply ingested_live; [done|]. destruct IHlive as [E Hw _]. rewrite <- E in Hw |- *.
    by apply (retention_inv hz (hist w g)).
Qed.

(** ** Properties *)

(** C7: retention takes nothing the compactor still needs.  In every state that passes
    stopping at any call, flushes into open buckets, retention of raw spans and trims
    stopping anywhere reach, in any order: the tables are part of the history; a row
    missing from them lies before the watermark of its tier or is daily; each hourly
    and daily row is one of the rows that merging its source window of the history
    gives, also when those source rows are deleted; and a coarse bucket that is
    compacted, and not yet rolled into the tier above, is absent from the history or
    in the tables with all the rows of that merge. *)
Theorem history_exact cfg hz w g S b :
  live cfg hz w g -> coarse S ->
  w_rollups w ⊆ w_rollups g /\ w_edges w ⊆ w_edges g /\
  (forall k r, w_rollups g !! k = Some r -> w_rollups w !! k = None ->
    belowMark (w_marks w) (ro_StepSeconds r) (ro_Bucket r)) /\
  (forall k e, w_edges g !! k = Some e -> w_edges w !! k = None ->
    belowMark (w_marks w) (ed_StepSeconds e) (ed_Bucket e)) /\
  (forall k r, w_rollups w !! k = Some r -> ro_StepSeconds r = S -> ro_Bucket r = b ->
    r ∈ Merge (SpanRollupWindow (w_rollups g) (sourceOf S) (b * second) ((b + S) * second)) S b) /\
  (forall k e, w_edges w !! k = Some e -> ed_StepSeconds e = S -> ed_Bucket e = b ->
    e ∈ MergeEdges (SpanEdgeWindow (w_edges g) (sourceOf S) (b * second) ((b + S) * second)) S b) /\
  (forall th, w_marks w !! sourceOf S = Some th -> b + S <= th -> ~ belowMark (w_marks w) S b ->
    (rollupHas (w_rollups g) S b -> forall r,
      r ∈ Merge (SpanRollupWindow (w_rollups g) (sourceOf S) (b * second) ((b + S) * second)) S b ->
      w_rollups w !! spanRollupPK r = Some r) /\
    (edgeHas (w_edges g) S b -> forall e,
      e ∈ MergeEdges (SpanEdgeWindow (w_edges g) (sourceOf S) (b * second) ((b + S) * second)) S b ->
      w_edges w !! spanEdgePK e = Some e)).
Proof.
  intros [E (Hr & He & _) [C1 C2]]%live_inv HS.
  assert (w_rollups w ⊆ w_rollups g /\ w_edges w ⊆ w_edges g) as [Gr Ge]
    by (rewrite <- E; split; apply map_union_subseteq_l).
  pose proof (f_equal w_marks E) as Em. cbn in Em. split_and!; try done.
  - intros k r E1 E2. by apply (C1 k r).
  - intros k r E1 E2. by apply (C2 k r).
  - intros k r Hl <- <-. apply (ti_built _ _ _ _ _ _ _ _ _ Hr k r); [by eapply lookup_weaken|done].
  - intros k e Hl <- <-. apply (ti_built _ _ _ _ _ _ _ _ _ He k e); [by eapply lookup_weaken|done].
  - intros th Hth Hle Hmark. rewrite Em in Hth. split; intros Ha r Hin.
    + pose proof (ti_whole _ _ _ _ _ _ _ _ _ Hr S b th HS Hth Hle Ha r Hin) as Hl.
      destruct (w_rollups w !! spanRollupPK r) as [x|] eqn:Ex.
      { eapply lookup_weaken in Ex; [|exact Gr]. congruence. }
      destruct Hmark. destruct (@merge_at _ _ _ _ spanRollupPK Merge rollup_laws _ _ _ _ Hin) as [Es Eb].
      pose proof (C1 _ r (conj Hl Ex)) as Hb. by rewrite Es, Eb in Hb.
    + pose proof (ti_whole _ _ _ _ _ _ _ _ _ He S b th HS Hth Hle Ha r Hin) as Hl.
      destruct (w_edges w !! spanEdgePK r) as [x|] eqn:Ex.
      { eapply lookup_weaken in Ex; [|exact Ge]. congruence. }
      destruct Hmark. destruct (@merge_at _ _ _ _ spanEdgePK MergeEdges edge_laws _ _ _ _ Hin) as [Es Eb].
      pose proof (C2 _ r (conj Hl Ex)) as Hb. by rewrite Es, Eb in Hb.
Qed.

(** C34: a trim of the span tiers deletes as many rows as it reports and at most its
    budget; every row it deletes is before the window of its tier and, below the daily
    tier, before the compaction watermark; a trim that reports neither a failure nor a
    backlog leaves none of the rows it may delete, in both tables; and without failed
    calls it reports none. *)
Theorem trim_exact c now budget w :
  rollupKeyed (w_rollups w) -> edgeKeyed (w_edges w) -> 0 <= budget ->
  match deleteSpanRollupTiers c now budget w with
  | ((n, more, err), w') =>
      0 <= n <= budget /\
      trimmedBy (mayTrim (spanRollupTierWindows c) now (w_marks w)) n w w' /\
      (err = false -> more = false -> ~ holdsRow (mayTrim (spanRollupTierWindows c) now (w_marks w)) w') /\
      (w_faults w = [] -> err = false)
  end.
Proof.
  intros Kr Ke Hb.
  pose proof (deleteSpanTiers_spec now budget (spanRollupTierWindows c) 0 w Kr Ke) as Hd.
  unfold deleteSpanRollupTiers. destruct (deleteSpanTiers _ _ _ _ _) as [[[n more] err] w'].
  destruct Hd as (Ht & H0 & Hmax & Hnone & Hf). rewrite Z.sub_0_r in Ht. specialize (Hmax Hb).
  split_and!; [lia|lia|done|done|]. intros E. by destruct (Hf E).
Qed.

(** ** Concrete runs *)

(** The 5-minute row of the compacted hour is past its window of 72 hours. *)
Definition demoTrimmed : world :=
  (deleteSpanRollupTiers demoRetentionConfig (100 * hour) 10 (setFaults [] (demoPassed []))).2.

Lemma demo_passed : live demoCfg (6600 * second) (demoPassed []) (hist (demoPassed []) (demoWorld [])).
Proof.
  apply (live_pass demoCfg 0 (demoWorld []) (demoWorld []) (2 * hour) []); [|done]. apply live_init.
  - intros k r Hl. cbn in Hl. apply lookup_singleton_Some in Hl as [<- <-]. split; [done|].
    split_and!; [done|by exists 0|done|done].
  - intros k e Hl. cbn in Hl. by rewrite lookup_empty in Hl.
  - done.
Qed.

Lemma demo_live :
  live demoCfg (6600 * second) demoTrimmed (hist demoTrimmed (hist (demoPassed []) (demoWorld []))).
Proof.
  by apply (live_trim demoCfg _ (demoPassed []) _ demoRetentionConfig (100 * hour) 10 []); [apply demo_passed|].
Qed.

Lemma history_exact_witness :
  SpanRollupWindow (w_rollups demoTrimmed) Step5m 0 (3600 * second) = [] /\
  exists r, Merge [demoSource "GET /"] StepHour 0 = [r] /\
    w_rollups demoTrimmed !! spanRollupPK r = Some r.
Proof.
  split; [vm_compute; reflexivity|]. eexists. split; [vm_compute; reflexivity|].
  destruct (history_exact demoCfg (6600 * second) _ _ StepHour 0 demo_live ltac:(by left))
    as (_ & _ & _ & _ & _ & _ & Hwhole).
  apply (Hwhole 3600).
  - vm_compute. reflexivity.
  - vm_compute. discriminate.
  - intros [E|(th & E & _)]; [discriminate|]. vm_compute in E. discriminate.
  - eexists (StepHour, 0, 1, "svc", "GET /", "server", true, "ok", 200), _.
    split; [vm_compute; reflexivity|]. by vm_compute.
  - apply list_elem_of_In. vm_compute. left. reflexivity.
Defined.

Lemma trim_exact_witness :
  match deleteSpanRollupTiers demoRetentionConfig (100 * hour) 10 (demoPassed []) with
  | ((n, _, _), w') => n = 1 /\ tierRows (demoPassed []) = tierRows w' + n
  end.
Proof.
  pose proof (trim_exact demoRetentionConfig (100 * hour) 10 (demoPassed [])) as H.
  destruct (live_keyed _ _ _ (live_inv _ _ _ _ demo_passed)) as [Kr Ke].
  specialize (H Kr Ke ltac:(lia)).
  assert ((deleteSpanRollupTiers demoRetentionConfig (100 * hour) 10 (demoPassed [])).1.1.1 = 1) as E1
    by (vm_compute; reflexivity).
  destruct (deleteSpanRollupTiers _ _ _ _) as [[[n more] err] w']. destruct H as (_ & Ht & _).
  split; [exact E1|exact (tb_rows _ _ _ _ Ht)].
Defined.

(** ** A trim that stops inside a bucket *)

(** An hour of two endpoints that a pass left out; its raw spans are deleted since. *)
Definition leftOut : world :=
  let rows := [demoSource "GET /"; demoSource "GET /a"] in
  let w := mkWorld (list_to_map ((fun r => (spanRollupPK r, r)) <$> rows)) ∅ ∅ [600 * second] false None [] in
  setIngested [] (compactLadder demoCfg (2 * hour) spanLadder w).2.

(** A repair after a trim can build a short hour.  A pass left out an hour of two
    endpoints, which a repair would now build with two rows.  A trim whose budget ends
    between the two rows of the oldest 5-minute bucket deletes one of them; the repair
    looks at the oldest bucket that is left, takes the hour for whole and builds it
    with one row.  The hour then holds rows, so no later repair touches it. *)
Theorem repair_after_trim :
  let w1 := (deleteSpanRollupTiers demoRetentionConfig (100 * hour) 1 leftOut).2 in
  let repair w := (repairTable (tierOf StepHour) rollupTable (3600 * second) w).2 in
  let hourOf w := length (SpanRollupWindow (w_rollups w) StepHour 0 (3600 * second)) in
  hourOf leftOut = 0%nat /\ hourOf (repair leftOut) = 2%nat /\
  hourOf (repair w1) = 1%nat /\ hourOf (repair (repair w1)) = 1%nat.
Proof. vm_compute. split_and!; reflexivity. Qed.
