(* ===== verification/Float64.v ===== *)
(** * Go's [float64]

    IEEE 754 binary64 as the Standard Library's [SpecFloat] defines it: rounding to
    nearest, ties to even, in exact integer arithmetic.  A conversion to [int64] truncates;
    what it gives for a NaN or a value out of range depends on the machine and is the
    argument [overflow]. *)
From S2P Require Import Prelude.
From Stdlib Require Export SpecFloat.

Abbreviation float64 := spec_float.

#[export] Instance float64_eq_dec : EqDecision float64.
Proof. solve_decision. Defined.

Declare Scope f64_scope.
Delimit Scope f64_scope with f64.
Notation "x + y" := (SFadd 53 1024 x y) : f64_scope.
Notation "x - y" := (SFsub 53 1024 x y) : f64_scope.
Notation "x * y" := (SFmul 53 1024 x y) : f64_scope.
Notation "x / y" := (SFdiv 53 1024 x y) : f64_scope.
Notation "x <? y" := (SFltb x y) : f64_scope.
Notation "x <=? y" := (SFleb x y) : f64_scope.
Notation "x >? y" := (SFltb y x) (only parsing) : f64_scope.
Notation "x >=? y" := (SFleb y x) (only parsing) : f64_scope.
Notation "x =? y" := (SFeqb x y) : f64_scope.

(** [float64(z)] *)
Definition toFloat (z : Z) : float64 := binary_normalize 53 1024 z 0 false.

(** The decimal literal [n / d] of the source, for [n] and [d] that are exact. *)
Definition literal (n d : Z) : float64 := (toFloat n / toFloat d)%f64.

(** The integer part, of a finite value. *)
Definition truncate (x : float64) : option Z :=
  match x with
  | S754_zero _ => Some 0
  | S754_finite s m e =>
      let n := if 0 <=? e then Zpos m * 2 ^ e else Zpos m / 2 ^ (- e) in
      Some (if s then - n else n)
  | _ => None
  end.

(** [int64(x)] *)
Definition toInt64 (overflow : float64 -> Z) (x : float64) : Z :=
  match truncate x with
  | Some z => if (- 2 ^ 63 <=? z) && (z <? 2 ^ 63) then z else overflow x
  | None => overflow x
  end.

(** ** Signs *)

(** Not below zero: what a quotient of counts is. *)
Definition nonNeg (x : float64) : Prop :=
  match x with S754_zero _ => True | S754_infinity s | S754_finite s _ _ => s = false | S754_nan => False end.

(** Above zero. *)
Definition positive64 (x : float64) : Prop :=
  match x with S754_infinity s | S754_finite s _ _ => s = false | _ => False end.

Lemma ltb_positive64 x : (toFloat 0 <? x)%f64 = true <-> positive64 x.
Proof. by destruct x as [|[]| |[]]. Qed.

Lemma ltb_irrefl x : (x <? x)%f64 = false.
Proof.
  destruct x as [|[]| |s m e]; try done. unfold SFltb. cbn.
  rewrite Z.compare_refl. change (Pos.compare_cont Eq m m) with (m ?= m)%positive.
  rewrite Pos.compare_refl. by destruct s.
Qed.

Lemma truncate_nonNeg x z : nonNeg x -> truncate x = Some z -> 0 <= z.
Proof.
  destruct x as [| | |s m e]; cbn; intros Hn H; simplify_eq; [lia|].
  case_match; [apply Z.mul_nonneg_nonneg; [lia|apply Z.pow_nonneg; lia]|].
  apply Z.div_pos; [lia|apply Z.pow_pos_nonneg; lia].
Qed.

(** ** Order of values that are not NaN *)

Definition notNaN (x : float64) : Prop := x <> S754_nan.

#[export] Instance notNaN_dec x : Decision (notNaN x).
Proof. unfold notNaN. apply _. Defined.

Lemma compare_swap x y c : SFcompare x y = Some c -> SFcompare y x = Some (CompOpp c).
Proof.
  destruct x as [sx|sx| |sx mx ex], y as [sy|sy| |sy my ey]; cbn; intros [= <-]; try (by destruct sx); try (by destruct sy);
    try done; f_equal; destruct sx, sy; try done; rewrite (Z.compare_antisym ex ey);
    change (Pos.compare_cont Eq my mx) with (my ?= mx)%positive;
    change (Pos.compare_cont Eq mx my) with (mx ?= my)%positive; rewrite (Pos.compare_antisym mx my);
    destruct (ex ?= ey), (mx ?= my)%positive; done.
Qed.

Lemma compare_total x y : notNaN x -> notNaN y -> exists c, SFcompare x y = Some c.
Proof. intros Hx Hy. by destruct x, y; try done; eexists. Qed.

Lemma ltb_false_leb x y : notNaN x -> notNaN y -> (y <? x)%f64 = false -> (x <=? y)%f64 = true.
Proof.
  intros Hx Hy. destruct (compare_total y x Hy Hx) as [c Hc]. unfold SFltb, SFleb. rewrite (compare_swap y x c Hc), Hc.
  by destruct c.
Qed.

(** ** Exact arithmetic on integers in a [float64]

    Integers below 2^53 are represented exactly: on them addition, subtraction and
    comparison of floats are those of the integers. *)

(** ** Digits and shifts *)

Lemma digits2_pos_log2 p : Zpos (digits2_pos p) = Z.log2 (Zpos p) + 1.
Proof.
  assert (digits2_pos p = Pos.size p) as -> by (induction p; cbn; congruence).
  destruct p as [p|p|]; cbn; lia.
Qed.

Lemma iter_pos_nat {A} (f : A -> A) p : forall x, iter_pos f p x = Nat.iter (Pos.to_nat p) f x.
Proof.
  induction p as [p IH|p IH|]; intros x; cbn [iter_pos]; [| |done].
  - rewrite !IH, <- Nat.iter_succ_r, <- Nat.iter_add, Pos2Nat.inj_xI. f_equal. lia.
  - rewrite !IH, <- Nat.iter_add, Pos2Nat.inj_xO. f_equal. lia.
Qed.

Lemma iter_xO p n : Zpos (Pos.iter xO p n) = Zpos p * 2 ^ Zpos n.
Proof.
  induction n as [|n IH] using Pos.peano_ind; [cbn; lia|].
  rewrite Pos.iter_succ, Pos2Z.inj_xO, IH, Pos2Z.inj_succ, Z.pow_succ_r by lia. ring.
Qed.

(** Shifting out zeros is exact. *)
Lemma shr_exact m n e :
  0 < m -> 0 <= n -> shr {| shr_m := m * 2 ^ n; shr_r := false; shr_s := false |} e n =
                     ({| shr_m := m; shr_r := false; shr_s := false |}, e + n).
Proof.
  intros Hm Hn. destruct n as [|n|n]; [cbn; do 2 f_equal; lia| |lia]. unfold shr. rewrite iter_pos_nat. f_equal.
  rewrite <- (positive_nat_Z n). generalize (Pos.to_nat n). clear n Hn. intros n.
  induction n as [|n IH]; [cbn; f_equal; lia|]. rewrite Nat.iter_succ_r.
  replace (shr_1 _) with {| shr_m := m * 2 ^ Z.of_nat n; shr_r := false; shr_s := false |}; [done|].
  rewrite Nat2Z.inj_succ, Z.pow_succ_r by lia. replace (m * (2 * 2 ^ Z.of_nat n)) with (2 * (m * 2 ^ Z.of_nat n)) by ring.
  assert (0 < m * 2 ^ Z.of_nat n) as Hp by (apply Z.mul_pos_pos; [lia|apply Z.pow_pos_nonneg; lia]).
  by destruct (m * 2 ^ Z.of_nat n) as [|p|p].
Qed.

Lemma fexp_normal e : -1074 <= e -> fexp 53 1024 (53 + e) = e.
Proof. unfold fexp, emin. lia. Qed.

Lemma shr_fexp_normal q n e :
  Z.log2 (Zpos q) = 52 -> 0 <= n -> -1074 <= e ->
  shr_fexp 53 1024 (Zpos q * 2 ^ n) (e - n) loc_Exact = ({| shr_m := Zpos q; shr_r := false; shr_s := false |}, e).
Proof.
  intros Hq Hn He. unfold shr_fexp. cbn [shr_record_of_loc].
  assert (Zdigits2 (Zpos q * 2 ^ n) = 53 + n) as ->.
  { destruct (Zpos q * 2 ^ n) as [|p|p] eqn:E; cbn [Zdigits2].
    - pose proof (Z.pow_pos_nonneg 2 n). nia.
    - rewrite digits2_pos_log2, <- E, Z.log2_mul_pow2 by lia. lia.
    - pose proof (Z.pow_pos_nonneg 2 n). nia. }
  replace (53 + n + (e - n)) with (53 + e) by lia. rewrite fexp_normal by lia.
  replace (e - (e - n)) with n by lia. rewrite shr_exact by lia. f_equal. lia.
Qed.

(** A value with a mantissa of 53 bits is not rounded. *)
Lemma round_aux_normal s q n e :
  Z.log2 (Zpos q) = 52 -> 0 <= n -> -1074 <= e <= 971 ->
  binary_round_aux 53 1024 s (Zpos q * 2 ^ n) (e - n) loc_Exact = S754_finite s q e.
Proof.
  intros Hq Hn He. unfold binary_round_aux. rewrite shr_fexp_normal by lia. cbn [loc_of_shr_record round_nearest_even shr_m].
  pose proof (shr_fexp_normal q 0 e Hq ltac:(lia) ltac:(lia)) as H0.
  rewrite Z.pow_0_r, Z.mul_1_r, Z.sub_0_r in H0. rewrite H0. cbn [shr_m].
  destruct (Z.leb_spec e (1024 - 53)); [done|lia].
Qed.

(** ** The normal form of an integer *)

Definition width (p : positive) : Z := Z.log2 (Zpos p) + 1.

Definition mantissa (p : positive) : positive := Z.to_pos (Zpos p * 2 ^ (53 - width p)).

Definition normal (s : bool) (p : positive) : float64 := S754_finite s (mantissa p) (width p - 53).

Definition small (z : Z) : Prop := Z.abs z < 2 ^ 53.

Lemma small_width p : small (Zpos p) -> 1 <= width p <= 53.
Proof.
  unfold small, width. intros H. pose proof (Z.log2_nonneg (Zpos p)).
  assert (Z.log2 (Zpos p) < 53) by (apply Z.log2_lt_pow2; lia). lia.
Qed.

Lemma mantissa_val p : small (Zpos p) -> Zpos (mantissa p) = Zpos p * 2 ^ (53 - width p).
Proof.
  intros H%small_width. unfold mantissa. apply Z2Pos.id. apply Z.mul_pos_pos; [lia|apply Z.pow_pos_nonneg; lia].
Qed.

Lemma mantissa_log2 p : small (Zpos p) -> Z.log2 (Zpos (mantissa p)) = 52.
Proof.
  intros H. rewrite mantissa_val by done. pose proof (small_width p H).
  rewrite Z.log2_mul_pow2 by lia. unfold width. lia.
Qed.

(** An integer scaled by a power of two, with the exponent that undoes it. *)
Lemma binary_round_scaled s p m k :
  small (Zpos p) -> 0 <= k -> Zpos m = Zpos p * 2 ^ k -> binary_round 53 1024 s m (- k) = normal s p.
Proof.
  intros Hp Hk Hm. pose proof (small_width p Hp) as Hw. unfold binary_round.
  assert (Zpos (digits2_pos m) = width p + k) as ->.
  { rewrite digits2_pos_log2, Hm, Z.log2_mul_pow2 by lia. unfold width. lia. }
  replace (fexp 53 1024 (width p + k + - k)) with (width p - 53)
    by (replace (width p + k + - k) with (53 + (width p - 53)) by lia; rewrite fexp_normal; lia).
  unfold shl_align, normal. destruct (width p - 53 - - k) as [|d|d] eqn:Ed.
  - replace (Zpos m) with (Zpos (mantissa p) * 2 ^ 0) by (rewrite mantissa_val, Hm by done; rewrite Z.pow_0_r, Z.mul_1_r; f_equal; f_equal; lia).
    replace (- k) with (width p - 53 - 0) by lia. apply round_aux_normal; [by apply mantissa_log2|lia|lia].
  - replace (Zpos m) with (Zpos (mantissa p) * 2 ^ Zpos d).
    + replace (- k) with (width p - 53 - Zpos d) by lia. apply round_aux_normal; [by apply mantissa_log2|lia|lia].
    + rewrite mantissa_val, Hm by done. rewrite <- Z.mul_assoc, <- Z.pow_add_r by lia. f_equal. f_equal. lia.
  - replace (Zpos (Pos.iter xO m d)) with (Zpos (mantissa p) * 2 ^ 0).
    + pose proof (round_aux_normal s (mantissa p) 0 (width p - 53) (mantissa_log2 p Hp) ltac:(lia) ltac:(lia)) as H.
      by rewrite Z.sub_0_r in H.
    + rewrite iter_xO, mantissa_val, Hm by done. rewrite Z.pow_0_r, Z.mul_1_r, <- Z.mul_assoc, <- Z.pow_add_r by lia.
      f_equal. f_equal. lia.
Qed.

Definition ofZ (z : Z) : float64 :=
  match z with Z0 => S754_zero false | Zpos p => normal false p | Zneg p => normal true p end.

Lemma normalize_scaled z k : small z -> 0 <= k -> binary_normalize 53 1024 (z * 2 ^ k) (- k) false = ofZ z.
Proof.
  intros Hz Hk. unfold binary_normalize. pose proof (Z.pow_pos_nonneg 2 k ltac:(lia) Hk) as Hpow.
  destruct z as [|p|p]; [done| |].
  - destruct (Zpos p * 2 ^ k) as [|m|m] eqn:E; [nia| |nia]. by apply binary_round_scaled.
  - destruct (Zneg p * 2 ^ k) as [|m|m] eqn:E; [nia|nia|].
    apply binary_round_scaled; [unfold small in *; lia|done|]. lia.
Qed.

Lemma toFloat_ofZ z : small z -> toFloat z = ofZ z.
Proof. intros Hz. rewrite <- (normalize_scaled z 0 Hz) by lia. unfold toFloat. f_equal; lia. Qed.

(** ** Operations *)

Lemma align_val p e : small (Zpos p) -> e <= width p - 53 -> e <= 0 ->
  Zpos (shl_align (mantissa p) (width p - 53) e).1 = Zpos p * 2 ^ (- e).
Proof.
  intros Hp He He0. pose proof (small_width p Hp). unfold shl_align.
  destruct (e - (width p - 53)) as [|d|d] eqn:Ed; [| lia |]; cbn [fst].
  - rewrite mantissa_val by done. f_equal. f_equal. lia.
  - rewrite iter_xO, mantissa_val by done. rewrite <- Z.mul_assoc, <- Z.pow_add_r by lia. f_equal. f_equal. lia.
Qed.

Definition signed (s : bool) (p : positive) : Z := cond_Zopp s (Zpos p).

Lemma sum_normal s p t q :
  small (Zpos p) -> small (Zpos q) ->
  let ez := Z.min (width p - 53) (width q - 53) in
  cond_Zopp s (Zpos (shl_align (mantissa p) (width p - 53) ez).1) = signed s p * 2 ^ (- ez) /\
  cond_Zopp t (Zpos (shl_align (mantissa q) (width q - 53) ez).1) = signed t q * 2 ^ (- ez) /\ 0 <= - ez.
Proof.
  intros Hp Hq ez. pose proof (small_width p Hp). pose proof (small_width q Hq).
  rewrite !align_val by (done || (subst ez; lia)). unfold signed, cond_Zopp. split_and!; [destruct s; ring|destruct t; ring|lia].
Qed.

Lemma ofZ_add a b : small a -> small b -> small (a + b) -> (ofZ a + ofZ b)%f64 = ofZ (a + b).
Proof.
  intros Ha Hb Hab.
  assert (forall s p t q, small (Zpos p) -> small (Zpos q) -> small (signed s p + signed t q) ->
            (normal s p + normal t q)%f64 = ofZ (signed s p + signed t q)) as Hf.
  { intros s p t q Hp Hq Hs. unfold normal, SFadd. destruct (sum_normal s p t q Hp Hq) as (-> & -> & Hk).
    rewrite <- Z.mul_add_distr_r. set (ez := Z.min _ _) in *.
    rewrite <- (Z.opp_involutive ez) at 2. by apply normalize_scaled. }
  destruct a as [|p|p], b as [|q|q]; try done.
  - by apply (Hf false p false q).
  - by apply (Hf false p true q).
  - by apply (Hf true p false q).
  - by apply (Hf true p true q).
Qed.

Lemma ofZ_sub a b : small a -> small b -> small (a - b) -> (ofZ a - ofZ b)%f64 = ofZ (a - b).
Proof.
  intros Ha Hb Hab.
  assert (forall s p t q, small (Zpos p) -> small (Zpos q) -> small (signed s p - signed t q) ->
            (normal s p - normal t q)%f64 = ofZ (signed s p - signed t q)) as Hf.
  { intros s p t q Hp Hq Hs. unfold normal, SFsub. destruct (sum_normal s p t q Hp Hq) as (-> & -> & Hk).
    rewrite <- Z.mul_sub_distr_r. set (ez := Z.min _ _) in *.
    rewrite <- (Z.opp_involutive ez) at 2. by apply normalize_scaled. }
  destruct a as [|p|p], b as [|q|q]; try done.
  - by apply (Hf false p false q).
  - by apply (Hf false p true q).
  - by apply (Hf true p false q).
  - by apply (Hf true p true q).
Qed.

(** Comparison of normal forms: the wider is larger, and among equally wide ones the
    mantissas compare as the integers. *)
Lemma normal_compare s p q :
  small (Zpos p) -> small (Zpos q) ->
  SFcompare (normal s p) (normal s q) = Some (if s then CompOpp (p ?= q)%positive else (p ?= q)%positive).
Proof.
  intros Hp Hq. unfold normal, SFcompare.
  assert (match (width p - 53 ?= width q - 53) with Lt => Lt | Gt => Gt | Eq => Pos.compare_cont Eq (mantissa p) (mantissa q) end
            = (p ?= q)%positive) as Hc.
  { assert (forall x y, Z.log2 (Zpos x) < Z.log2 (Zpos y) -> (x ?= y)%positive = Lt) as Hlt.
    { intros x y Hxy. apply Pos.compare_lt_iff. pose proof (Z.log2_lt_cancel (Zpos x) (Zpos y) Hxy). lia. }
    destruct (Z.compare_spec (width p - 53) (width q - 53)) as [He|He|He].
    - change (Pos.compare_cont Eq (mantissa p) (mantissa q)) with (mantissa p ?= mantissa q)%positive.
      change ((Zpos (mantissa p) ?= Zpos (mantissa q)) = (Zpos p ?= Zpos q)). rewrite !mantissa_val by done.
      replace (width q) with (width p) by lia. pose proof (small_width p Hp).
      pose proof (Z.pow_pos_nonneg 2 (53 - width p) ltac:(lia) ltac:(lia)) as Hpow.
      destruct (Z.compare_spec (Zpos p) (Zpos q)) as [E|E|E].
      + rewrite E. by rewrite Z.compare_refl.
      + apply Z.compare_lt_iff. nia.
      + apply Z.compare_gt_iff. nia.
    - symmetry. apply Hlt. unfold width in He. lia.
    - symmetry. rewrite Pos.compare_antisym, Hlt; [done|]. unfold width in He. lia. }
  destruct s; [|by rewrite Hc]. rewrite <- Hc. by destruct (width p - 53 ?= width q - 53).
Qed.

Lemma ofZ_compare a b : small a -> small b -> SFcompare (ofZ a) (ofZ b) = Some (a ?= b).
Proof.
  intros Ha Hb. destruct a as [|p|p], b as [|q|q]; try done; by apply normal_compare.
Qed.

Lemma ofZ_ltb a b : small a -> small b -> (ofZ a <? ofZ b)%f64 = (a <? b).
Proof. intros Ha Hb. unfold SFltb, Z.ltb. rewrite ofZ_compare by done. by destruct (a ?= b). Qed.

Lemma ofZ_leb a b : small a -> small b -> (ofZ a <=? ofZ b)%f64 = (a <=? b).
Proof. intros Ha Hb. unfold SFleb, Z.leb. rewrite ofZ_compare by done. by destruct (a ?= b). Qed.
