(* ===== verification/Slo.v ===== *)
(** * Service level objectives: storage, service and counting

    The tables of SLOs, burn alerts and bucket counts ([repository/repo_slos.go],
    [repo_slo_counts.go], [repo_span_filter.go]), the service that edits them
    ([service/slos.go], [slo_alerts.go], [slo_status.go]) and the arithmetic of the error
    budget ([slo/slo.go]).  The evaluator is in [SloEval].  JSON, [url.Parse],
    [mail.ParseAddress] and SQLite's evaluation of a predicate are parameters. *)
From S2P Require Import Prelude Float64 CalcParse CalcCompile Filter.

(** ** Records *)

(** [repository.SLO]; no code reads the time it was created. *)
Record SLO := mkSLO {
  slo_ID : Z;
  slo_ProjectID : Z;
  slo_Name : string;
  slo_GoodFilter : string;
  slo_TotalFilter : string;
  slo_Target : float64;
  slo_WindowDays : Z;
}.

(** [repository.SLOBurnAlert] *)
Record SLOBurnAlert := mkBurnAlert {
  ba_ID : Z;
  ba_SLOID : Z;
  ba_WindowMinutes : Z;
  ba_BurnRate : float64;
  ba_WebhookURL : string;
  ba_Email : string;
  ba_CooldownMinutes : Z;
  ba_Enabled : bool;
  ba_Firing : bool;
  ba_LastTriggeredAt : option Z;
}.

#[export] Instance SLO_eq_dec : EqDecision SLO.
Proof. solve_decision. Defined.

#[export] Instance SLOBurnAlert_eq_dec : EqDecision SLOBurnAlert.
Proof. solve_decision. Defined.

(** [repository.SLOCount] *)
Record SLOCount := mkSLOCount { sc_SLOID : Z; sc_BucketStart : Z; sc_Good : Z; sc_Total : Z }.

(** [repository.SpanWeights], with [Add] and [Estimate] *)
Record SpanWeights := mkWeights { sw_Count : Z; sw_Spans : Z }.

Definition Weights_Add (sampleWeight : Z) (w : SpanWeights) : SpanWeights :=
  if 0 <? sampleWeight then mkWeights (wrap64 (sw_Count w + sampleWeight)) (wrap64 (sw_Spans w + 1)) else w.

Definition Weights_Estimate (total : Z) (w : SpanWeights) : option Z :=
  if (total =? 0) || negb (sw_Spans w =? total) then None else Some (sw_Count w).

(** [repository.SpanCount] *)
Record SpanCount := mkSpanCount { cn_Total : Z; cn_Errors : Z; cn_Weights : SpanWeights }.

(** ** The error budget *)

(** [slo.BudgetRemaining] *)
Definition BudgetRemaining (target : float64) (good total : Z) : float64 :=
  if total <=? 0 then toFloat 1
  else
    let allowed := ((toFloat 1 - target) * toFloat total)%f64 in
    let bad := toFloat (wrap64 (total - good)) in
    if (allowed <=? toFloat 0)%f64 then
      if (bad <=? toFloat 0)%f64 then toFloat 1 else toFloat (-1)
    else (toFloat 1 - bad / allowed)%f64.

(** [slo.BurnRate] *)
Definition BurnRate (target : float64) (good total : Z) : float64 :=
  if total <=? 0 then toFloat 0
  else
    let budget := (toFloat 1 - target)%f64 in
    if (budget <=? toFloat 0)%f64 then toFloat 0
    else
      let bad := toFloat (wrap64 (total - good)) in
      (bad / toFloat total / budget)%f64.

(** ** Estimates from samples ([alert/evaluator.go]) *)

(** [sampleRateFor], with the ratio the lookup gives. *)
Definition sampleRateFor (lookup : option (Z -> Z)) (projectID : Z) : float64 :=
  match lookup with
  | None => toFloat 1
  | Some ratio =>
      if ratio projectID <=? 1 then toFloat 1 else (toFloat 1 / toFloat (ratio projectID))%f64
  end.

Section Estimates.
Context (overflow : float64 -> Z).

(** [inflateCount] *)
Definition inflateCount (count errorCount : Z) (sampleRate : float64) : Z :=
  if (sampleRate >=? toFloat 1)%f64 then count
  else
    let okCount := wrap64 (count - errorCount) in
    let okCount := if okCount <? 0 then 0 else okCount in
    wrap64 (errorCount + toInt64 overflow (toFloat okCount / sampleRate)%f64).

(** [estimateSpans] *)
Definition estimateSpans (c : SpanCount) (sampleRate : float64) : Z :=
  match Weights_Estimate (cn_Total c) (cn_Weights c) with
  | Some n => n
  | None => inflateCount (cn_Total c) (cn_Errors c) sampleRate
  end.
End Estimates.

(** ** Selecting spans ([repository/repo_spans.go], [repo_span_filter.go]) *)

(** The fields of [repository.SpanFilter] that the span list and the SLO counts set;
    [None] is a zero time. *)
Record SpanFilter := mkSpanFilter {
  sf_ProjectID : Z;
  sf_TraceID : string;
  sf_Service : string;
  sf_Operation : string;
  sf_Status : string;
  sf_MinDuration : Z;
  sf_Expr : option Node;
  sf_From : option Z;
  sf_To : option Z;
  sf_calc : option FilterResolver;
}.

(** An argument bound to a statement. *)
Inductive bound := BInt (z : Z) | BText (s : string) | BTime (t : Z) | BArg (a : arg).

Abbreviation whereArgs := (list string * list bound)%type.

(** Appends a condition with one argument when it applies. *)
Definition andIf (b : bool) (cond : string) (x : bound) (w : whereArgs) : whereArgs :=
  if b then (w.1 ++ [cond], w.2 ++ [x]) else w.

Definition andTime (t : option Z) (cond : string) (w : whereArgs) : whereArgs :=
  match t with Some t => (w.1 ++ [cond], w.2 ++ [BTime t]) | None => w end.

Definition nonEmpty (s : string) : bool := negb (bool_decide (s = ""%string)).

(** [SpanFilter.appendCommonWhere] *)
Definition appendCommonWhere (f : SpanFilter) (w : whereArgs) : whereArgs :=
  let w := andIf (negb (sf_ProjectID f =? 0)) "project_id = ?" (BInt (sf_ProjectID f)) w in
  let w := andIf (nonEmpty (sf_Service f)) "service = ?" (BText (sf_Service f)) w in
  let w := andIf (nonEmpty (sf_Operation f)) "name = ?" (BText (sf_Operation f)) w in
  let w := andIf (nonEmpty (sf_Status f)) "status = ?" (BText (sf_Status f)) w in
  let w := andIf (0 <? sf_MinDuration f) "duration_us >= ?" (BInt (sf_MinDuration f)) w in
  let w := andTime (sf_From f) "ingested_at >= ?" w in
  andTime (sf_To f) "ingested_at <= ?" w.

(** The refusals of a span query: no time range, a filter that does not compile, or
    calculated fields that cannot be read. *)
Inductive queryErr := QNoRange | QFilter (e : filterErr) | QFields.

Section Queries.
Context (ParseFloat : string -> option number).

Definition hasExpr (f : SpanFilter) : bool :=
  match sf_Expr f with None => false | Some e => negb (bool_decide (nd_Filters e = [])) end.

(** [SpanFilter.exprPredicate] *)
Definition exprPredicate (f : SpanFilter) : sqlArgs + queryErr :=
  if hasExpr f then
    match sf_From f with
    | None => inr QNoRange
    | Some _ =>
        match CompileWith ParseFloat (sf_Expr f) (sf_calc f) with inl s => inl s | inr e => inr (QFilter e) end
    end
  else inl ("", [])%string.

(** [Repository.calcResolver], with the calculated fields of each project; [None] is a
    failed read of them. *)
Definition repoCalcResolver (fields : Z -> option (list Field)) (projectID : Z)
  : option FilterResolver + queryErr :=
  if projectID =? 0 then inl None
  else
    match fields projectID with
    | None => inr QFields
    | Some [] => inl None
    | Some l => inl (Some (calcResolver (calcSet l)))
    end.

(** [Repository.withCalc] *)
Definition withCalc (fields : Z -> option (list Field)) (f : SpanFilter) : SpanFilter + queryErr :=
  if hasExpr f then
    match repoCalcResolver fields (sf_ProjectID f) with
    | inr e => inr e
    | inl calc =>
        inl (mkSpanFilter (sf_ProjectID f) (sf_TraceID f) (sf_Service f) (sf_Operation f) (sf_Status f)
               (sf_MinDuration f) (sf_Expr f) (sf_From f) (sf_To f) calc)
    end
  else inl f.

(** [SpanFilter.appendExprWhere] *)
Definition appendExprWhere (f : SpanFilter) (w : whereArgs) : whereArgs + queryErr :=
  match exprPredicate f with
  | inr e => inr e
  | inl (pred, a) =>
      if bool_decide (pred = ""%string) then inl w else inl (w.1 ++ [pred], w.2 ++ (BArg <$> a))
  end.

(** The conditions of [Repository.QuerySpans]. *)
Definition QuerySpans_where (fields : Z -> option (list Field)) (f : SpanFilter) : whereArgs + queryErr :=
  match withCalc fields f with
  | inr e => inr e
  | inl f =>
      let w := appendCommonWhere f ([], []) in
      let w := andIf (nonEmpty (sf_TraceID f)) "trace_id = ?" (BText (sf_TraceID f)) w in
      appendExprWhere f w
  end.

(** The conditions of [Repository.CountSpans]. *)
Definition CountSpans_where (f : SpanFilter) : whereArgs + queryErr :=
  appendExprWhere f (appendCommonWhere f ([], [])).
End Queries.

(** ** The tables *)

(** Why an operation fails: invalid input, no such row, a name in use, the database or
    the notifier, a query that is refused, or a cancelled context. *)
Inductive sloErr :=
| EInvalid | ENotFound | EConflict | EDB | EQuery (e : queryErr) | ESend | ECancelled | EWindow.

(** The tables in the order of their ids, the next ids of their AUTOINCREMENT keys, and the
    counts by SLO and bucket start. *)
Record sloStore := mkStore {
  st_slos : list SLO;
  st_alerts : list SLOBurnAlert;
  st_counts : gmap (Z * Z) (Z * Z);
  st_nextSLO : Z;
  st_nextAlert : Z;
}.

Section Tables.
Context (trimSpace : string -> string).

(** [jsonOrEmpty] *)
Definition jsonOrEmpty (b : string) : string :=
  if bool_decide (trimSpace b = ""%string) then "{}" else b.

(** [Repository.ListSLOs] *)
Definition ListSLOs (projectID : Z) (st : sloStore) : list SLO :=
  filter (fun s => slo_ProjectID s = projectID) (st_slos st).

(** [Repository.GetSLO] *)
Definition GetSLO (projectID id : Z) (st : sloStore) : SLO + sloErr :=
  match filter (fun s => slo_ProjectID s = projectID /\ slo_ID s = id) (st_slos st) with
  | s :: _ => inl s
  | [] => inr ENotFound
  end.

(** The constraints of the table: a name is used once in a project, and the checks on the
    target and the window. *)
Definition nameTaken (s : SLO) (st : sloStore) : bool :=
  existsb (fun t => bool_decide (slo_ProjectID t = slo_ProjectID s) && bool_decide (slo_Name t = slo_Name s) &&
                    negb (slo_ID t =? slo_ID s)) (st_slos st).

Definition sloChecks (s : SLO) : bool :=
  ((toFloat 0 <? slo_Target s)%f64 && (slo_Target s <? toFloat 1)%f64) && (0 <? slo_WindowDays s).

(** [Repository.CreateSLO] *)
Definition CreateSLO (s : SLO) (st : sloStore) : (Z + sloErr) * sloStore :=
  let id := st_nextSLO st in
  let row := mkSLO id (slo_ProjectID s) (slo_Name s) (jsonOrEmpty (slo_GoodFilter s))
               (jsonOrEmpty (slo_TotalFilter s)) (slo_Target s) (slo_WindowDays s) in
  if negb (sloChecks row) then (inr EDB, st)
  else if nameTaken row st then (inr EConflict, st)
  else (inl id, mkStore (st_slos st ++ [row]) (st_alerts st) (st_counts st) (id + 1) (st_nextAlert st)).

(** [Repository.UpdateSLO] *)
Definition UpdateSLO (s : SLO) (st : sloStore) : (unit + sloErr) * sloStore :=
  match GetSLO (slo_ProjectID s) (slo_ID s) st with
  | inr e => (inr e, st)
  | inl _ =>
      let row := mkSLO (slo_ID s) (slo_ProjectID s) (slo_Name s) (jsonOrEmpty (slo_GoodFilter s))
                   (jsonOrEmpty (slo_TotalFilter s)) (slo_Target s) (slo_WindowDays s) in
      if negb (sloChecks row) then (inr EDB, st)
      else if nameTaken row st then (inr EConflict, st)
      else
        (inl tt, mkStore ((fun t => if slo_ID t =? slo_ID s then row else t) <$> st_slos st)
                   (st_alerts st) (st_counts st) (st_nextSLO st) (st_nextAlert st))
  end.

(** [Repository.DeleteSLO]; its burn alerts and counts go with it. *)
Definition DeleteSLO (projectID id : Z) (st : sloStore) : (unit + sloErr) * sloStore :=
  match GetSLO projectID id st with
  | inr e => (inr e, st)
  | inl _ =>
      (inl tt, mkStore (filter (fun s => slo_ID s <> id) (st_slos st))
                 (filter (fun a => ba_SLOID a <> id) (st_alerts st))
                 (filter (fun kv => kv.1.1 <> id) (st_counts st)) (st_nextSLO st) (st_nextAlert st))
  end.

(** Whether the alert's SLO is in the project. *)
Definition alertIn (projectID : Z) (st : sloStore) (a : SLOBurnAlert) : Prop :=
  Exists (fun s => slo_ID s = ba_SLOID a /\ slo_ProjectID s = projectID) (st_slos st).

#[export] Instance alertIn_dec projectID st a : Decision (alertIn projectID st a).
Proof. apply Exists_dec. apply _. Defined.

(** [Repository.ListSLOBurnAlerts] *)
Definition ListSLOBurnAlerts (projectID sloID : Z) (st : sloStore) : list SLOBurnAlert :=
  filter (fun a => alertIn projectID st a /\ ba_SLOID a = sloID) (st_alerts st).

(** [Repository.GetSLOBurnAlert] *)
Definition GetSLOBurnAlert (projectID id : Z) (st : sloStore) : SLOBurnAlert + sloErr :=
  match filter (fun a => alertIn projectID st a /\ ba_ID a = id) (st_alerts st) with
  | a :: _ => inl a
  | [] => inr ENotFound
  end.

(** [Repository.CreateSLOBurnAlert] *)
Definition CreateSLOBurnAlert (projectID : Z) (a : SLOBurnAlert) (st : sloStore) : (Z + sloErr) * sloStore :=
  match GetSLO projectID (ba_SLOID a) st with
  | inr e => (inr e, st)
  | inl _ =>
      let id := st_nextAlert st in
      let row := mkBurnAlert id (ba_SLOID a) (ba_WindowMinutes a) (ba_BurnRate a) (ba_WebhookURL a) (ba_Email a)
                   (ba_CooldownMinutes a) (ba_Enabled a) false None in
      (inl id, mkStore (st_slos st) (st_alerts st ++ [row]) (st_counts st) (st_nextSLO st) (id + 1))
  end.

(** [Repository.UpdateSLOBurnAlert] *)
Definition UpdateSLOBurnAlert (projectID : Z) (a : SLOBurnAlert) (st : sloStore) : (unit + sloErr) * sloStore :=
  match GetSLOBurnAlert projectID (ba_ID a) st with
  | inr e => (inr e, st)
  | inl _ =>
      let row t := mkBurnAlert (ba_ID t) (ba_SLOID t) (ba_WindowMinutes a) (ba_BurnRate a) (ba_WebhookURL a)
                     (ba_Email a) (ba_CooldownMinutes a) (ba_Enabled a) (ba_Firing t) (ba_LastTriggeredAt t) in
      (inl tt, mkStore (st_slos st) ((fun t => if ba_ID t =? ba_ID a then row t else t) <$> st_alerts st)
                 (st_counts st) (st_nextSLO st) (st_nextAlert st))
  end.

(** [Repository.DeleteSLOBurnAlert] *)
Definition DeleteSLOBurnAlert (projectID id : Z) (st : sloStore) : (unit + sloErr) * sloStore :=
  match GetSLOBurnAlert projectID id st with
  | inr e => (inr e, st)
  | inl _ =>
      (inl tt, mkStore (st_slos st) (filter (fun a => ba_ID a <> id) (st_alerts st)) (st_counts st)
                 (st_nextSLO st) (st_nextAlert st))
  end.

(** The row with its state; [None] is the zero time, which leaves the last trigger. *)
Definition withState (firing : bool) (at_ : option Z) (t : SLOBurnAlert) : SLOBurnAlert :=
  mkBurnAlert (ba_ID t) (ba_SLOID t) (ba_WindowMinutes t) (ba_BurnRate t) (ba_WebhookURL t) (ba_Email t)
    (ba_CooldownMinutes t) (ba_Enabled t) firing
    (match at_ with Some at_ => Some at_ | None => ba_LastTriggeredAt t end).

(** [Repository.UpdateSLOBurnAlertState] *)
Definition UpdateSLOBurnAlertState (id : Z) (firing : bool) (at_ : option Z) (st : sloStore)
  : (unit + sloErr) * sloStore :=
  if existsb (fun t => ba_ID t =? id) (st_alerts st) then
    (inl tt, mkStore (st_slos st)
               ((fun t => if ba_ID t =? id then withState firing at_ t else t) <$> st_alerts st)
               (st_counts st) (st_nextSLO st) (st_nextAlert st))
  else (inr ENotFound, st).

(** [Repository.InsertSLOCounts]: one transaction, which the foreign key refuses when an
    SLO is gone. *)
Definition InsertSLOCounts (counts : list SLOCount) (st : sloStore) : (unit + sloErr) * sloStore :=
  if forallb (fun c => existsb (fun s => slo_ID s =? sc_SLOID c) (st_slos st)) counts then
    (inl tt, mkStore (st_slos st) (st_alerts st)
               (foldl (fun m c => <[(sc_SLOID c, sc_BucketStart c) := (sc_Good c, sc_Total c)]> m)
                  (st_counts st) counts) (st_nextSLO st) (st_nextAlert st))
  else (inr EDB, st).

(** The counts of the SLO in buckets that start in [from, to). *)
Definition countsIn (sloID from to : Z) (st : sloStore) : gmap (Z * Z) (Z * Z) :=
  filter (fun kv => kv.1.1 = sloID /\ from <= kv.1.2 < to) (st_counts st).

(** [Repository.SumSLOCounts]; SQLite refuses a sum out of range. *)
Definition SumSLOCounts (sloID from to : Z) (st : sloStore) : Z * Z + sloErr :=
  let good := mapSum fst (countsIn sloID from to st) in
  let total := mapSum snd (countsIn sloID from to st) in
  if bool_decide (in_int64 good) && bool_decide (in_int64 total) then inl (good, total) else inr EDB.

(** [Repository.LatestSLOBucket] *)
Definition LatestSLOBucket (sloID : Z) (st : sloStore) : option Z :=
  map_fold (fun k _ m =>
      if k.1 =? sloID then Some (match m with None => k.2 | Some b => Z.max b k.2 end) else m)
    None (st_counts st).

(** [Repository.DeleteSLOCountsBefore] *)
Definition DeleteSLOCountsBefore (cutoff : Z) (st : sloStore) : sloStore :=
  mkStore (st_slos st) (st_alerts st) (filter (fun kv => cutoff <= kv.1.2) (st_counts st)) (st_nextSLO st)
    (st_nextAlert st).
End Tables.
