(* ===== verification/SloEval.v ===== *)
(** * Service level objectives: service and evaluator

    The service that edits SLOs and burn alerts ([service/slos.go], [slo_alerts.go],
    [slo_status.go]) and the evaluator that counts their buckets and fires burn alerts
    ([alert/slo_eval.go], [slo_eval_counts.go], [slo_eval_notify.go]).  Every call to the
    database or the notifier takes its outcome from the calls to come, with the writes of
    other requests that happen before it. *)
From S2P Require Import Prelude Float64 CalcParse CalcCompile Filter Slo.

(** ** The world *)

(** [alert.SLOPayload] *)
Record SLOPayload := mkSLOPayload {
  pl_SLOID : Z;
  pl_AlertID : Z;
  pl_Name : string;
  pl_WindowMinutes : Z;
  pl_BurnRate : float64;
  pl_Threshold : float64;
  pl_BudgetRemaining : float64;
  pl_TriggeredAt : Z;
}.

(** What the evaluator did with an alert, as it had read it: a delivered webhook or email
    (the text of an email is its payload), a state recorded as firing, a state cleared. *)
Inductive alertEvent :=
| SentWebhook (a : SLOBurnAlert) (p : SLOPayload)
| SentEmail (a : SLOBurnAlert) (subject : string) (p : SLOPayload)
| Fired (a : SLOBurnAlert) (at_ : Z)
| Cleared (a : SLOBurnAlert).

(** A write of another request. *)
Inductive apiWrite :=
| ACreateSLO (s : SLO)
| AUpdateSLO (s : SLO)
| ADeleteSLO (projectID id : Z)
| ACreateAlert (projectID : Z) (a : SLOBurnAlert)
| AUpdateAlert (projectID : Z) (a : SLOBurnAlert)
| ADeleteAlert (projectID id : Z).

Definition apply_api (trimSpace : string -> string) (op : apiWrite) (st : sloStore) : sloStore :=
  match op with
  | ACreateSLO s => (CreateSLO trimSpace s st).2
  | AUpdateSLO s => (UpdateSLO trimSpace s st).2
  | ADeleteSLO p id => (DeleteSLO p id st).2
  | ACreateAlert p a => (CreateSLOBurnAlert p a st).2
  | AUpdateAlert p a => (UpdateSLOBurnAlert p a st).2
  | ADeleteAlert p id => (DeleteSLOBurnAlert p id st).2
  end.

(** The store, the outcomes of the calls to come, and two histories: the counts that were
    written, with the end of the newest bucket that could be counted then, and what
    happened to alerts. *)
Record sloWorld := mkWorld {
  w_store : sloStore;
  w_calls : list (list apiWrite * bool);
  w_counted : list (Z * SLOCount);
  w_events : list alertEvent;
}.

Definition E (A : Type) : Type := sloWorld -> (A + sloErr) * sloWorld.

#[export] Instance E_ret : MRet E := fun A a w => (inl a, w).

#[export] Instance E_bind : MBind E := fun A B f m w =>
  match m w with (inl a, w) => f a w | (inr e, w) => (inr e, w) end.

Definition throw {A} (e : sloErr) : E A := fun w => (inr e, w).

(** The error of a call as a value. *)
Definition try {A} (m : E A) : E (A + sloErr) := fun w => let '(r, w) := m w in (inl r, w).

Definition lift {A} (r : A + sloErr) : E A := fun w => (r, w).

Definition setStore (st : sloStore) (w : sloWorld) : sloWorld :=
  mkWorld st (w_calls w) (w_counted w) (w_events w).

Definition note (e : alertEvent) (w : sloWorld) : sloWorld :=
  mkWorld (w_store w) (w_calls w) (w_counted w) (w_events w ++ [e]).

Definition noteCounts (l : list (Z * SLOCount)) (w : sloWorld) : sloWorld :=
  mkWorld (w_store w) (w_calls w) (w_counted w ++ l) (w_events w).

Definition noted (f : sloWorld -> sloWorld) : E unit := fun w => (inl tt, f w).

Section World.
Context (trimSpace : string -> string).

(** The next call: the writes before it and whether it succeeds. *)
Definition nextCall (w : sloWorld) : bool * sloWorld :=
  let '(ops, ok) := hd ([], true) (w_calls w) in
  (ok, mkWorld (foldl (fun st op => apply_api trimSpace op st) (w_store w) ops) (tl (w_calls w))
         (w_counted w) (w_events w)).

(** [ctx.Err() != nil] *)
Definition ctxErr : E bool := fun w => let '(ok, w) := nextCall w in (inl (negb ok), w).

(** A read and a write of the database. *)
Definition dbRead {A} (f : sloStore -> A + sloErr) : E A := fun w =>
  let '(ok, w) := nextCall w in (if ok then f (w_store w) else inr EDB, w).

Definition dbWrite {A} (f : sloStore -> (A + sloErr) * sloStore) : E A := fun w =>
  let '(ok, w) := nextCall w in
  if ok then let '(r, st) := f (w_store w) in (r, setStore st w) else (inr EDB, w).

(** [SLONotifier.SendSLOWebhook] and [SendEmail], with the event a delivery leaves. *)
Definition send (e : alertEvent) : E unit := fun w =>
  let '(ok, w) := nextCall w in if ok then (inl tt, note e w) else (inr ESend, w).

(** ** The service *)

(** [service.SLOInput] and [service.BurnAlertInput] *)
Record SLOInput := mkSLOInput {
  in_Name : string;
  in_GoodFilter : string;
  in_TotalFilter : string;
  in_Target : float64;
  in_WindowDays : Z;
}.

Record BurnAlertInput := mkBurnAlertInput {
  ai_WindowMinutes : Z;
  ai_BurnRate : float64;
  ai_WebhookURL : string;
  ai_Email : string;
  ai_CooldownMinutes : Z;
  ai_Enabled : option bool;
}.

Definition maxSLOName : nat := 120.

Definition minSLOWindowDays : Z := 1.

Definition maxSLOWindowDays : Z := 90.

Definition DefaultBurnCooldownMinutes : Z := 30.

Section Service.
Context (decode : string -> option Node) (encode : Node -> option string).

(** [normalizeFilter] *)
Definition normalizeFilter (raw : string) : string + sloErr :=
  match Filter_Parse trimSpace decode raw with
  | inr _ => inr EInvalid
  | inl None => inl "{}"%string
  | inl (Some e) => match encode e with Some out => inl out | None => inr EInvalid end
  end.

(** [validateSLO] *)
Definition validateSLO (projectID : Z) (i : SLOInput) : SLO + sloErr :=
  let name := trimSpace (in_Name i) in
  if projectID <=? 0 then inr EInvalid
  else if bool_decide (name = ""%string) then inr EInvalid
  else if (maxSLOName <? len name)%nat then inr EInvalid
  else if negb ((toFloat 0 <? in_Target i)%f64 && (in_Target i <? toFloat 1)%f64) then inr EInvalid
  else if (in_WindowDays i <? minSLOWindowDays) || (maxSLOWindowDays <? in_WindowDays i) then inr EInvalid
  else
    match normalizeFilter (in_GoodFilter i) with
    | inr e => inr e
    | inl good =>
        match normalizeFilter (in_TotalFilter i) with
        | inr e => inr e
        | inl total => inl (mkSLO 0 projectID name good total (in_Target i) (in_WindowDays i))
        end
    end.

(** [SLOService.ListSLOs] *)
Definition Service_ListSLOs (projectID : Z) : E (list SLO) :=
  if projectID <=? 0 then throw EInvalid else dbRead (fun st => inl (ListSLOs projectID st)).

(** [SLOService.GetSLO] *)
Definition Service_GetSLO (projectID id : Z) : E SLO := dbRead (GetSLO projectID id).

(** [SLOService.CreateSLO] *)
Definition Service_CreateSLO (projectID : Z) (i : SLOInput) : E Z :=
  s ← lift (validateSLO projectID i);
  dbWrite (CreateSLO trimSpace s).

Definition withID (id : Z) (s : SLO) : SLO :=
  mkSLO id (slo_ProjectID s) (slo_Name s) (slo_GoodFilter s) (slo_TotalFilter s) (slo_Target s) (slo_WindowDays s).

(** [SLOService.UpdateSLO] *)
Definition Service_UpdateSLO (projectID id : Z) (i : SLOInput) : E unit :=
  s ← lift (validateSLO projectID i);
  dbWrite (UpdateSLO trimSpace (withID id s)).

(** [SLOService.DeleteSLO] *)
Definition Service_DeleteSLO (projectID id : Z) : E unit := dbWrite (DeleteSLO projectID id).

(** [url.Parse] as far as [validateWebhook] uses it: the scheme and the host.
    [mail.ParseAddress]: whether the text is an address. *)
Context (parseURL : string -> option (string * string)) (parseAddress : string -> bool).

(** [validateWebhook] *)
Definition validateWebhook (raw : string) : bool :=
  bool_decide (raw = ""%string) ||
  match parseURL raw with
  | None => false
  | Some (scheme, host) => isOneOf scheme ["http"; "https"] && nonEmpty host
  end.

(** [validateBurnAlert] *)
Definition validateBurnAlert (s : SLO) (i : BurnAlertInput) : SLOBurnAlert + sloErr :=
  if ai_WindowMinutes i <=? 0 then inr EInvalid
  else if wrap64 (slo_WindowDays s * 24 * 60) <=? ai_WindowMinutes i then inr EInvalid
  else if negb (toFloat 0 <? ai_BurnRate i)%f64 then inr EInvalid
  else if ai_CooldownMinutes i <? 0 then inr EInvalid
  else
    let hook := trimSpace (ai_WebhookURL i) in
    let email := trimSpace (ai_Email i) in
    if negb (validateWebhook hook) then inr EInvalid
    else if nonEmpty email && negb (parseAddress email) then inr EInvalid
    else
      let cooldown := if ai_CooldownMinutes i =? 0 then DefaultBurnCooldownMinutes else ai_CooldownMinutes i in
      inl (mkBurnAlert 0 (slo_ID s) (ai_WindowMinutes i) (ai_BurnRate i) hook email cooldown
             (default true (ai_Enabled i)) false None).

(** [SLOService.ListBurnAlerts] *)
Definition Service_ListBurnAlerts (projectID sloID : Z) : E (list SLOBurnAlert) :=
  _ ← Service_GetSLO projectID sloID;
  dbRead (fun st => inl (ListSLOBurnAlerts projectID sloID st)).

(** [SLOService.CreateBurnAlert] *)
Definition Service_CreateBurnAlert (projectID sloID : Z) (i : BurnAlertInput) : E Z :=
  s ← Service_GetSLO projectID sloID;
  a ← lift (validateBurnAlert s i);
  dbWrite (CreateSLOBurnAlert projectID a).

(** [SLOService.burnAlertOf] *)
Definition burnAlertOf (projectID sloID alertID : Z) : E SLOBurnAlert :=
  a ← dbRead (GetSLOBurnAlert projectID alertID);
  if negb (ba_SLOID a =? sloID) then throw ENotFound else mret a.

Definition withAlertID (id : Z) (a : SLOBurnAlert) : SLOBurnAlert :=
  mkBurnAlert id (ba_SLOID a) (ba_WindowMinutes a) (ba_BurnRate a) (ba_WebhookURL a) (ba_Email a)
    (ba_CooldownMinutes a) (ba_Enabled a) (ba_Firing a) (ba_LastTriggeredAt a).

(** [SLOService.UpdateBurnAlert] *)
Definition Service_UpdateBurnAlert (projectID sloID alertID : Z) (i : BurnAlertInput) : E unit :=
  _ ← burnAlertOf projectID sloID alertID;
  s ← Service_GetSLO projectID sloID;
  a ← lift (validateBurnAlert s i);
  dbWrite (UpdateSLOBurnAlert projectID (withAlertID alertID a)).

(** [SLOService.DeleteBurnAlert] *)
Definition Service_DeleteBurnAlert (projectID sloID alertID : Z) : E unit :=
  _ ← burnAlertOf projectID sloID alertID;
  dbWrite (DeleteSLOBurnAlert projectID alertID).

(** [service.BurnAlertStatus] and [service.SLOStatus] *)
Record BurnAlertStatus := mkAlertStatus {
  as_ID : Z;
  as_WindowMinutes : Z;
  as_BurnRate : float64;
  as_Enabled : bool;
  as_CurrentBurn : float64;
  as_Good : Z;
  as_Total : Z;
  as_Firing : bool;
}.

Record SLOStatus := mkSLOStatus {
  ss_ID : Z;
  ss_Name : string;
  ss_Target : float64;
  ss_WindowDays : Z;
  ss_Good : Z;
  ss_Total : Z;
  ss_BudgetRemaining : float64;
  ss_Alerts : list BurnAlertStatus;
}.

(** The loop of [SLOService.Status] over the alerts. *)
Fixpoint alertStatuses (s : SLO) (id to : Z) (alerts : list SLOBurnAlert) : E (list BurnAlertStatus) :=
  match alerts with
  | [] => mret []
  | a :: alerts =>
      gt ← dbRead (SumSLOCounts id (to + wrap64 (- ba_WindowMinutes a * minute)) to);
      rest ← alertStatuses s id to alerts;
      mret (mkAlertStatus (ba_ID a) (ba_WindowMinutes a) (ba_BurnRate a) (ba_Enabled a)
              (BurnRate (slo_Target s) gt.1 gt.2) gt.1 gt.2 (ba_Firing a) :: rest)
  end.

(** [SLOService.Status] *)
Definition Service_Status (now projectID id : Z) : E SLOStatus :=
  s ← Service_GetSLO projectID id;
  alerts ← dbRead (fun st => inl (ListSLOBurnAlerts projectID id st));
  let to := now + second in
  gt ← dbRead (SumSLOCounts id (to + wrap64 (- slo_WindowDays s * 24 * hour)) to);
  l ← alertStatuses s id to alerts;
  mret (mkSLOStatus (slo_ID s) (slo_Name s) (slo_Target s) (slo_WindowDays s) gt.1 gt.2
          (BudgetRemaining (slo_Target s) gt.1 gt.2) l).
End Service.

(** ** The evaluator *)

Definition sloBucket : Z := minute.

Definition sloIngestLag : Z := 30 * second.

Definition sloMaxCatchUp : Z := 60.

(** [sloCloseBefore]; [time.Time.Truncate] rounds down from the year 1, which is a whole
    number of minutes from the epoch. *)
Definition sloCloseBefore (now : Z) : Z :=
  let t := now - sloIngestLag in t - t mod sloBucket.

(** [sloCountStart] *)
Definition sloCountStart (latest : option Z) (closeBefore : Z) : Z :=
  let floor := closeBefore - sloMaxCatchUp * sloBucket in
  match latest with
  | None => floor
  | Some latest => let next := latest + sloBucket in if floor <? next then next else floor
  end.

(** What a tick of the evaluator reads: the clock, the sample ratios, and SQLite's answers
    to the two counts of a bucket (good first). *)
Record tickInput := mkTick {
  ti_now : Z;
  ti_ratio : option (Z -> Z);
  ti_answer : bool -> whereArgs -> SpanCount;
}.

Section Evaluator.
Context (decode : string -> option Node) (ParseFloat : string -> option number) (overflow : float64 -> Z).

(** [parseSLOFilters]: the good and the total filter. *)
Definition parseSLOFilters (s : SLO) : (option Node * option Node) + sloErr :=
  match Filter_Parse trimSpace decode (slo_GoodFilter s) with
  | inr e => inr (EQuery (QFilter e))
  | inl good =>
      match Filter_Parse trimSpace decode (slo_TotalFilter s) with
      | inr e => inr (EQuery (QFilter e))
      | inl total => inl (good, total)
      end
  end.

(** [Repository.CountSpans] *)
Definition CountSpans (answer : whereArgs -> SpanCount) (f : SpanFilter) : E SpanCount :=
  match CountSpans_where ParseFloat f with
  | inr e => throw (EQuery e)
  | inl w => dbRead (fun _ => inl (answer w))
  end.

(** The filter of a bucket. *)
Definition bucketFilter (s : SLO) (b : Z) (e : option Node) : SpanFilter :=
  mkSpanFilter (slo_ProjectID s) "" "" "" "" 0 e (Some b) (Some (b + (sloBucket - 1))) None.

(** [SLOEvaluator.countBucket] *)
Definition countBucket (ti : tickInput) (s : SLO) (f : option Node * option Node) (b : Z) (sampleRate : float64)
  : E SLOCount :=
  goodSpans ← CountSpans (ti_answer ti true) (bucketFilter s b f.1);
  totalSpans ← CountSpans (ti_answer ti false) (bucketFilter s b f.2);
  let good := estimateSpans overflow goodSpans sampleRate in
  let total := estimateSpans overflow totalSpans sampleRate in
  mret (mkSLOCount (slo_ID s) b (if total <? good then total else good) total).

(** The loop of [SLOEvaluator.countSLO]: the counts of the buckets before the first
    failure, and the failure.  It runs at most [sloMaxCatchUp] times. *)
Fixpoint countLoop (fuel : nat) (ti : tickInput) (s : SLO) (f : option Node * option Node) (b closeBefore : Z)
  (sampleRate : float64) : E (list SLOCount * option sloErr) :=
  match fuel with
  | O => mret ([], None)
  | S fuel =>
      if b <? closeBefore then
        cancelled ← ctxErr;
        if (cancelled : bool) then mret ([], Some ECancelled)
        else
          r ← try (countBucket ti s f b sampleRate);
          match r with
          | inr e => mret ([], Some e)
          | inl c =>
              rest ← countLoop fuel ti s f (b + sloBucket) closeBefore sampleRate;
              mret (c :: rest.1, rest.2)
          end
      else mret ([], None)
  end.

(** [SLOWriter.InsertSLOCounts], noted in the history. *)
Definition insertCounts (closeBefore : Z) (counts : list SLOCount) : E unit :=
  _ ← dbWrite (InsertSLOCounts counts);
  noted (noteCounts (pair closeBefore <$> counts)).

(** [SLOEvaluator.countSLO] *)
Definition countSLO (ti : tickInput) (s : SLO) (closeBefore : Z) : E unit :=
  filters ← lift (parseSLOFilters s);
  latest ← dbRead (fun st => inl (LatestSLOBucket (slo_ID s) st));
  let sampleRate := sampleRateFor (ti_ratio ti) (slo_ProjectID s) in
  r ← countLoop (Z.to_nat sloMaxCatchUp) ti s filters (sloCountStart latest closeBefore) closeBefore sampleRate;
  _ ← (if bool_decide (r.1 = []) then mret tt else insertCounts closeBefore r.1);
  match r.2 with Some e => throw e | None => mret tt end.

(** [inCooldown] *)
Definition inCooldown (a : SLOBurnAlert) (now : Z) : bool :=
  match ba_LastTriggeredAt a with
  | None => false
  | Some t => now <? t + wrap64 (ba_CooldownMinutes a * minute)
  end.

(** [SLOEvaluator.deliver]: fails when channels are set and none succeeds. *)
Definition deliver (a : SLOBurnAlert) (p : SLOPayload) : E unit :=
  r1 ← (if nonEmpty (ba_WebhookURL a) then
          r ← try (send (SentWebhook a p));
          mret (Some (match r with inl _ => true | inr _ => false end))
        else mret None);
  r2 ← (if nonEmpty (ba_Email a) then
          r ← try (send (SentEmail a ("[SpanBarn SLO] " +:+ pl_Name p +:+ " is burning its error budget") p));
          mret (Some (match r with inl _ => true | inr _ => false end))
        else mret None);
  if negb (bool_decide (r1 = Some true)) && negb (bool_decide (r2 = Some true)) &&
     (bool_decide (r1 = Some false) || bool_decide (r2 = Some false))
  then throw ESend else mret tt.

(** [SLOWriter.UpdateSLOBurnAlertState], noted in the history. *)
Definition recordState (a : SLOBurnAlert) (at_ : option Z) : E unit :=
  _ ← dbWrite (UpdateSLOBurnAlertState (ba_ID a) (bool_decide (is_Some at_)) at_);
  noted (note (match at_ with Some t => Fired a t | None => Cleared a end)).

(** [SLOEvaluator.fire] *)
Definition fire (s : SLO) (a : SLOBurnAlert) (burn : float64) (now closeBefore : Z) : E unit :=
  gt ← dbRead (SumSLOCounts (slo_ID s) (closeBefore + wrap64 (- slo_WindowDays s * 24 * hour)) closeBefore);
  let payload := mkSLOPayload (slo_ID s) (ba_ID a) (slo_Name s) (ba_WindowMinutes a) burn (ba_BurnRate a)
                   (BudgetRemaining (slo_Target s) gt.1 gt.2) now in
  _ ← deliver a payload;
  recordState a (Some now).

(** [SLOEvaluator.evaluateBurnAlert] *)
Definition evaluateBurnAlert (s : SLO) (a : SLOBurnAlert) (now closeBefore : Z) : E unit :=
  if ba_WindowMinutes a <=? 0 then throw EWindow
  else
    gt ← dbRead (SumSLOCounts (slo_ID s) (closeBefore + wrap64 (- ba_WindowMinutes a * minute)) closeBefore);
    let burn := BurnRate (slo_Target s) gt.1 gt.2 in
    let exceeds := (ba_BurnRate a <? burn)%f64 in
    if exceeds && negb (ba_Firing a) then
      if inCooldown a now then mret tt else fire s a burn now closeBefore
    else if negb exceeds && ba_Firing a then recordState a None
    else mret tt.

(** The loop of [SLOEvaluator.evaluateSLO]; the errors of single alerts are only logged,
    so the result says whether there were any. *)
Fixpoint evaluateAlerts (s : SLO) (alerts : list SLOBurnAlert) (now closeBefore : Z) : E bool :=
  match alerts with
  | [] => mret true
  | a :: alerts =>
      cancelled ← ctxErr;
      if (cancelled : bool) then mret false
      else if negb (ba_Enabled a) then evaluateAlerts s alerts now closeBefore
      else
        r ← try (evaluateBurnAlert s a now closeBefore);
        ok ← evaluateAlerts s alerts now closeBefore;
        mret (match r with inl _ => ok | inr _ => false end)
  end.

(** How long the counts of an SLO are kept. *)
Definition keepFor (s : SLO) (alerts : list SLOBurnAlert) : Z :=
  foldl (fun keep a => Z.max keep (wrap64 (ba_WindowMinutes a * minute)))
    (wrap64 (slo_WindowDays s * 24 * hour)) alerts.

(** [SLOEvaluator.evaluateSLO] after it listed the alerts: how long the counts must be
    kept, and whether all went well. *)
Definition evaluateListed (ti : tickInput) (s : SLO) (closeBefore : Z) (alerts : list SLOBurnAlert + sloErr)
  : E (Z * bool) :=
  let keep := keepFor s (match alerts with inl l => l | inr _ => [] end) in
  counted ← try (countSLO ti s closeBefore);
  match counted, alerts with
  | inl _, inl l => ok ← evaluateAlerts s l (ti_now ti) closeBefore; mret (keep, ok)
  | _, _ => mret (keep, false)
  end.

(** [SLOEvaluator.evaluateSLO] *)
Definition evaluateSLO (ti : tickInput) (s : SLO) (closeBefore : Z) : E (Z * bool) :=
  alerts ← try (dbRead (fun st => inl (ListSLOBurnAlerts (slo_ProjectID s) (slo_ID s) st)));
  evaluateListed ti s closeBefore alerts.

(** The loop of [SLOEvaluator.evaluateProject] *)
Fixpoint evaluateSLOs (ti : tickInput) (slos : list SLO) (closeBefore keep : Z) : E Z :=
  match slos with
  | [] => mret keep
  | s :: slos =>
      k ← evaluateSLO ti s closeBefore;
      evaluateSLOs ti slos closeBefore (Z.max keep k.1)
  end.

(** [SLOEvaluator.evaluateProject] *)
Definition evaluateProject (ti : tickInput) (projectID closeBefore : Z) : E Z :=
  slos ← dbRead (fun st => inl (ListSLOs projectID st));
  evaluateSLOs ti slos closeBefore 0.

(** The loop of [SLOEvaluator.Run]: [None] when the context is cancelled, and whether every
    project was read. *)
Fixpoint evaluateProjects (ti : tickInput) (projectIDs : list Z) (closeBefore keep : Z) (complete : bool)
  : E (option (Z * bool)) :=
  match projectIDs with
  | [] => mret (Some (keep, complete))
  | id :: projectIDs =>
      cancelled ← ctxErr;
      if (cancelled : bool) then mret None
      else
        r ← try (evaluateProject ti id closeBefore);
        match r with
        | inl k => evaluateProjects ti projectIDs closeBefore (Z.max keep k) complete
        | inr _ => evaluateProjects ti projectIDs closeBefore (Z.max keep 0) false
        end
  end.

(** [SLOEvaluator.prune]: an error is only logged. *)
Definition SLO_prune (cutoff : Z) : E unit :=
  _ ← try (dbWrite (fun st => (inl tt, DeleteSLOCountsBefore cutoff st)));
  mret tt.

(** [SLOEvaluator.Run] *)
Definition SLO_Run (ti : tickInput) (projectIDs : list Z) : E unit :=
  r ← evaluateProjects ti projectIDs (sloCloseBefore (ti_now ti)) 0 true;
  match r with
  | Some (keep, true) => if 0 <? keep then SLO_prune (ti_now ti - keep) else mret tt
  | _ => mret tt
  end.
End Evaluator.

(** ** Runs *)

Section Runs.
Context (decode : string -> option Node) (encode : Node -> option string) (ParseFloat : string -> option number).
Context (overflow : float64 -> Z).
Context (parseURL : string -> option (string * string)) (parseAddress : string -> bool).

(** The requests that write. *)
Inductive sloRequest :=
| RCreateSLO (projectID : Z) (i : SLOInput)
| RUpdateSLO (projectID id : Z) (i : SLOInput)
| RDeleteSLO (projectID id : Z)
| RCreateAlert (projectID sloID : Z) (i : BurnAlertInput)
| RUpdateAlert (projectID sloID alertID : Z) (i : BurnAlertInput)
| RDeleteAlert (projectID sloID alertID : Z).

Definition serve (r : sloRequest) : E unit :=
  match r with
  | RCreateSLO p i => _ ← Service_CreateSLO decode encode p i; mret tt
  | RUpdateSLO p id i => Service_UpdateSLO decode encode p id i
  | RDeleteSLO p id => Service_DeleteSLO p id
  | RCreateAlert p s i => _ ← Service_CreateBurnAlert parseURL parseAddress p s i; mret tt
  | RUpdateAlert p s a i => Service_UpdateBurnAlert parseURL parseAddress p s a i
  | RDeleteAlert p s a => Service_DeleteBurnAlert p s a
  end.

(** The write of another request has passed its validation. *)
Definition apiOK (op : apiWrite) : Prop :=
  match op with
  | ACreateSLO s => exists p i, validateSLO decode encode p i = inl s
  | AUpdateSLO s => exists p id i s', validateSLO decode encode p i = inl s' /\ s = withID id s'
  | ACreateAlert p a => exists s i, validateBurnAlert parseURL parseAddress s i = inl a
  | AUpdateAlert p a => exists s id i a', validateBurnAlert parseURL parseAddress s i = inl a' /\ a = withAlertID id a'
  | ADeleteSLO _ _ | ADeleteAlert _ _ => True
  end.

Definition callsOK (calls : list (list apiWrite * bool)) : Prop := Forall (fun c => Forall apiOK c.1) calls.

Definition withCalls (calls : list (list apiWrite * bool)) (w : sloWorld) : sloWorld :=
  mkWorld (w_store w) calls (w_counted w) (w_events w).

Definition emptyWorld : sloWorld := mkWorld (mkStore [] [] ∅ 1 1) [] [] [].

(** The worlds that requests and ticks reach, with the clock of the last tick. *)
Inductive reachable : Z -> sloWorld -> Prop :=
| reach_init T : reachable T emptyWorld
| reach_tick T w ti ids calls :
    reachable T w -> T <= ti_now ti -> callsOK calls ->
    reachable (ti_now ti) (SLO_Run decode ParseFloat overflow ti ids (withCalls calls w)).2
| reach_serve T w r calls :
    reachable T w -> callsOK calls -> reachable T (serve r (withCalls calls w)).2.
End Runs.
End World.
