(* ===== verification/SloSeries.v ===== *)
(** * The counted series of an SLO

    Over any run of evaluator ticks and service requests, with calls failing anywhere, the
    counts stored for an SLO form one series of whole buckets that goes on where it
    stopped: no bucket is counted twice and a hole only follows an outage longer than
    [sloMaxCatchUp] buckets. *)
From S2P Require Import Prelude Float64 CalcParse CalcCompile Filter Slo SloEval.

(** ** Computations and invariants *)

Lemma bind_eq {A B} (m : E A) (f : A -> E B) w a w' : m w = (inl a, w') -> (m ≫= f) w = f a w'.
Proof. intros H. unfold mbind, E_bind. by rewrite H. Qed.

Section Keeps.
Context (I : sloWorld -> Prop).

(** The computation keeps the invariant. *)
Definition keeps {A} (m : E A) : Prop := forall w, I w -> I (m w).2.

Lemma keeps_ret {A} (a : A) : keeps (mret a).
Proof. by intros w. Qed.

Lemma keeps_throw {A} e : keeps (throw e : E A).
Proof. by intros w. Qed.

Lemma keeps_lift {A} (r : A + sloErr) : keeps (lift r).
Proof. by intros w. Qed.

Lemma keeps_try {A} (m : E A) : keeps m -> keeps (try m).
Proof. intros H w Hw. unfold try. specialize (H w Hw). by destruct (m w). Qed.

Lemma keeps_bind {A B} (m : E A) (f : A -> E B) : keeps m -> (forall a, keeps (f a)) -> keeps (m ≫= f).
Proof.
  intros Hm Hf w Hw. unfold mbind, E_bind. specialize (Hm w Hw).
  destruct (m w) as [[a|e] w']; [by apply Hf|done].
Qed.

Context (trimSpace : string -> string).
Hypothesis Hnext : forall w, I w -> I (nextCall trimSpace w).2.

Lemma keeps_ctxErr : keeps (ctxErr trimSpace).
Proof. intros w Hw. unfold ctxErr. specialize (Hnext w Hw). by destruct (nextCall trimSpace w). Qed.

Lemma keeps_dbRead {A} (f : sloStore -> A + sloErr) : keeps (dbRead trimSpace f).
Proof. intros w Hw. unfold dbRead. specialize (Hnext w Hw). by destruct (nextCall trimSpace w). Qed.

Lemma keeps_dbWrite {A} (f : sloStore -> (A + sloErr) * sloStore) :
  (forall w, I w -> I (setStore (f (w_store w)).2 w)) -> keeps (dbWrite trimSpace f).
Proof.
  intros Hf w Hw. unfold dbWrite. specialize (Hnext w Hw). destruct (nextCall trimSpace w) as [ok w']. simpl in *.
  destruct ok; [|done]. specialize (Hf w' Hnext). by destruct (f (w_store w')).
Qed.

Lemma keeps_send e : (forall w, I w -> I (note e w)) -> keeps (send trimSpace e).
Proof.
  intros He w Hw. unfold send. specialize (Hnext w Hw). destruct (nextCall trimSpace w) as [ok w']. simpl in *.
  destruct ok; [by apply He|done].
Qed.

Lemma keeps_CountSpans ParseFloat answer f : keeps (CountSpans trimSpace ParseFloat answer f).
Proof. unfold CountSpans. case_match; [apply keeps_dbRead|apply keeps_throw]. Qed.
End Keeps.

Create HintDb keeps.
#[export] Hint Resolve keeps_ret keeps_throw keeps_lift keeps_try keeps_bind keeps_ctxErr keeps_dbRead
  keeps_CountSpans : keeps.

(** ** Latest bucket *)

Definition isLatest (id : Z) (m : option Z) (counts : gmap (Z * Z) (Z * Z)) : Prop :=
  match m with
  | None => forall b, counts !! (id, b) = None
  | Some x => is_Some (counts !! (id, x)) /\ forall b, is_Some (counts !! (id, b)) -> b <= x
  end.

Lemma LatestSLOBucket_spec id st : isLatest id (LatestSLOBucket id st) (st_counts st).
Proof.
  unfold LatestSLOBucket. apply (map_fold_weak_ind (fun r m => isLatest id r m)).
  - intros b. apply lookup_empty.
  - intros [i b] x m r Hm IH. cbn. destruct (Z.eqb_spec i id) as [->|Hne].
    + destruct r as [y|]; cbn in *.
      * destruct IH as [Hy IH]. split.
        -- destruct (Z.max_spec y b) as [[_ ->]|[_ ->]]; [by rewrite lookup_insert_eq|].
           destruct (decide (y = b)) as [->|]; [by rewrite lookup_insert_eq|].
           by rewrite lookup_insert_ne by congruence.
        -- intros b' Hb'. destruct (decide (b' = b)) as [->|]; [lia|].
           rewrite lookup_insert_ne in Hb' by congruence. specialize (IH b' Hb'). lia.
      * split; [by rewrite lookup_insert_eq|]. intros b' Hb'.
        destruct (decide (b' = b)) as [->|]; [done|].
        rewrite lookup_insert_ne, IH in Hb' by congruence. by destruct Hb'.
    + destruct r as [y|]; cbn in *.
      * destruct IH as [Hy IH]. split; [by rewrite lookup_insert_ne by congruence|].
        intros b'. rewrite lookup_insert_ne by congruence. apply IH.
      * intros b'. rewrite lookup_insert_ne by congruence. apply IH.
Qed.

(** ** The series *)

Abbreviation counted := (Z * SLOCount)%type.

Definition bucketOf (e : counted) : Z := sc_BucketStart e.2.

Definition ofSLO (id : Z) (e : counted) : Prop := sc_SLOID e.2 = id.

#[export] Instance ofSLO_dec id e : Decision (ofSLO id e).
Proof. unfold ofSLO. apply _. Defined.

(** The newest count of the SLO. *)
Definition newest (id : Z) (log : list counted) : option counted := last (filter (ofSLO id) log).

(** A count goes on where the newest one stopped, or, first or after a longer outage, at
    the oldest bucket that a tick reaches back to. *)
Definition goesOn (prev : option counted) (closeBefore b : Z) : Prop :=
  let floor := closeBefore - sloMaxCatchUp * sloBucket in
  match prev with
  | None => b = floor
  | Some p => bucketOf p < b /\ (b = bucketOf p + sloBucket \/ (b = floor /\ bucketOf p + sloBucket < floor))
  end.

Definition series : list counted -> Prop :=
  along (fun pre e => goesOn (newest (sc_SLOID e.2) pre) e.1 (bucketOf e)).

Lemma newest_snoc id log e :
  newest id (log ++ [e]) = if decide (ofSLO id e) then Some e else newest id log.
Proof.
  unfold newest. rewrite filter_app, filter_cons, filter_nil.
  case_decide; [by rewrite last_snoc|by rewrite app_nil_r].
Qed.

(** The newest count of an SLO has its last bucket. *)
Lemma series_newest log id e :
  series log -> e ∈ log -> ofSLO id e -> exists p, newest id log = Some p /\ p ∈ log /\ ofSLO id p /\ bucketOf e <= bucketOf p.
Proof.
  revert e. induction log as [|x log IH] using rev_ind; intros e Hs He Hid; [by apply elem_of_nil in He|].
  apply along_snoc in Hs as [Hs Hx]. rewrite newest_snoc. apply elem_of_app in He as [He|He%list_elem_of_singleton].
  - destruct (IH e Hs He Hid) as (p & Hp & Hin & Hpid & Hle). case_decide as Hd.
    + exists x. split_and!; [done|apply elem_of_app; right; apply list_elem_of_here|done|]. unfold ofSLO in Hd. rewrite Hd, Hp in Hx. cbn in Hx. lia.
    + exists p. split_and!; try done. apply elem_of_app. by left.
  - subst x. rewrite decide_True by done. exists e. split_and!; [done|apply elem_of_app; right; apply list_elem_of_here|done|lia].
Qed.

(** Counts of consecutive buckets from [b] on, all closed at [closeBefore]. *)
Fixpoint consecutive (id b closeBefore : Z) (l : list SLOCount) : Prop :=
  match l with
  | [] => True
  | k :: l =>
      sc_SLOID k = id /\ sc_BucketStart k = b /\ b < closeBefore /\ sc_Good k <= sc_Total k /\
      consecutive id (b + sloBucket) closeBefore l
  end.

Lemma sloBucket_val : sloBucket = 60000000000.
Proof. done. Qed.

Lemma series_consecutive id cb l : forall b log,
  consecutive id b cb l -> series log -> goesOn (newest id log) cb b -> series (log ++ (pair cb <$> l)).
Proof.
  induction l as [|k l IH]; intros b log Hc Hs Hb; [by rewrite fmap_nil, app_nil_r|].
  destruct Hc as (Hid & Hbk & Hlt & _ & Hc). rewrite fmap_cons, cons_middle, app_assoc.
  apply (IH (b + sloBucket)); [done| |].
  - apply along_snoc. split; [done|]. cbn. unfold bucketOf. cbn. by rewrite Hid, Hbk.
  - rewrite newest_snoc, decide_True by done. unfold goesOn, bucketOf. cbn. rewrite Hbk, sloBucket_val. lia.
Qed.

Lemma consecutive_elem id cb l : forall b k,
  consecutive id b cb l -> k ∈ l ->
  sc_SLOID k = id /\ b <= sc_BucketStart k < cb /\ (sc_BucketStart k - b) mod sloBucket = 0 /\ sc_Good k <= sc_Total k.
Proof.
  induction l as [|x l IH]; intros b k Hc Hk; [by apply elem_of_nil in Hk|].
  destruct Hc as (Hid & Hb & Hlt & Hg & Hc). apply elem_of_cons in Hk as [->|Hk].
  - rewrite Hb, Z.sub_diag. split_and!; try done; lia.
  - destruct (IH _ _ Hc Hk) as (H1 & H2 & H3 & H4). rewrite sloBucket_val in *. split_and!; try done; try lia.
    replace (sc_BucketStart k - b) with (sc_BucketStart k - (b + 60000000000) + 1 * 60000000000) by lia.
    by rewrite Z.mod_add by lia.
Qed.

(** ** The invariant *)

Section Series.
Context (trimSpace : string -> string) (decode : string -> option Node) (encode : Node -> option string).
Context (ParseFloat : string -> option number) (overflow : float64 -> Z).
Context (parseURL : string -> option (string * string)) (parseAddress : string -> bool).

Abbreviation callsOK := (callsOK trimSpace decode encode parseURL parseAddress).
Abbreviation apiOK := (apiOK trimSpace decode encode parseURL parseAddress).

Definition live (id : Z) (st : sloStore) : Prop := id ∈ slo_ID <$> st_slos st.

#[export] Instance live_dec id st : Decision (live id st).
Proof. unfold live. apply _. Defined.

(** Rows: ids are distinct and below the next one, and windows are as validated. *)
Record storeOK (st : sloStore) : Prop := {
  so_ids : NoDup (slo_ID <$> st_slos st);
  so_next : forall s, s ∈ st_slos st -> slo_ID s < st_nextSLO st;
  so_days : forall s, s ∈ st_slos st -> 1 <= slo_WindowDays s <= 90;
}.

(** A stored count is one of the history, not before the prunes so far. *)
Definition countsOK (P : Z) (st : sloStore) (log : list counted) : Prop :=
  forall id b g t, st_counts st !! (id, b) = Some (g, t) <->
    live id st /\ P <= b /\ exists c, (c, mkSLOCount id b g t) ∈ log.

(** An entry of the history at the time [T]. *)
Definition entryOK (T next : Z) (e : counted) : Prop :=
  e.1 <= sloCloseBefore T /\ e.1 mod sloBucket = 0 /\ bucketOf e + sloBucket <= e.1 /\ bucketOf e mod sloBucket = 0 /\
  sc_Good e.2 <= sc_Total e.2 /\ sc_SLOID e.2 < next.

Definition day : Z := 24 * hour.

Record invS (P T : Z) (w : sloWorld) : Prop := {
  is_store : storeOK (w_store w);
  is_counts : countsOK P (w_store w) (w_counted w);
  is_series : series (w_counted w);
  is_entries : forall e, e ∈ w_counted w -> entryOK T (st_nextSLO (w_store w)) e;
  is_prune : P <= T - day;
  is_calls : callsOK (w_calls w);
}.

(** ** Requests *)

Lemma validateSLO_days p i s : validateSLO trimSpace decode encode p i = inl s -> 1 <= slo_WindowDays s <= 90.
Proof.
  unfold validateSLO, minSLOWindowDays, maxSLOWindowDays. intros H. repeat case_match; simplify_eq; simpl; lia.
Qed.

Lemma GetSLO_live p id st s : GetSLO p id st = inl s -> live id st.
Proof.
  unfold GetSLO. case_match eqn:E; [done|]. intros [= <-].
  assert (s0 ∈ filter (fun s => slo_ProjectID s = p /\ slo_ID s = id) (st_slos st)) as H by (rewrite E; left).
  apply list_elem_of_filter in H as [[_ <-] H]. unfold live. by apply list_elem_of_fmap_2.
Qed.

(** What a write of the service leaves of the ids and the counts. *)
Definition apiStep (st st' : sloStore) : Prop :=
  st_nextSLO st <= st_nextSLO st' /\
  (forall id, id < st_nextSLO st -> live id st' -> live id st) /\
  (forall id b v, st_counts st' !! (id, b) = Some v <-> st_counts st !! (id, b) = Some v /\ live id st').

(** A step that changes neither the ids nor the counts. *)
Lemma apiStep_same st st' :
  st_nextSLO st' = st_nextSLO st -> slo_ID <$> st_slos st' = slo_ID <$> st_slos st -> st_counts st' = st_counts st ->
  (forall id b v, st_counts st !! (id, b) = Some v -> live id st) -> apiStep st st'.
Proof.
  intros Hn Hids Hc Hl. unfold apiStep, live in *. rewrite Hn, Hids, Hc. split_and!; [lia|done|].
  intros id b v. split; [intros H; split; [done|by eapply Hl]|by intros [H _]].
Qed.

Lemma UpdateSLO_ids id row (l : list SLO) :
  slo_ID row = id -> slo_ID <$> ((fun t => if slo_ID t =? id then row else t) <$> l) = slo_ID <$> l.
Proof.
  intros Hr. rewrite <- list_fmap_compose. apply list_fmap_ext. intros i s _. cbn.
  destruct (Z.eqb_spec (slo_ID s) id); congruence.
Qed.

Lemma apply_api_store st op :
  storeOK st -> (forall id b v, st_counts st !! (id, b) = Some v -> live id st) -> apiOK op ->
  storeOK (apply_api trimSpace op st) /\ apiStep st (apply_api trimSpace op st).
Proof.
  intros [Hids Hnext Hdays] Hl Hop.
  assert (storeOK st /\ apiStep st st) as Hsame by (split; [done|by apply apiStep_same]).
  destruct op as [s|s|p id|p a|p a|p id]; cbn [apply_api].
  - destruct Hop as (p & i & Hv). apply validateSLO_days in Hv. unfold CreateSLO.
    repeat case_match; cbn [snd]; try done. split.
    + constructor; cbn -[Z.le Z.lt].
      * rewrite fmap_app. apply NoDup_app. split_and!; [done| |apply NoDup_singleton].
        intros x Hx%list_elem_of_fmap Hy%list_elem_of_singleton. destruct Hx as (t & -> & Ht).
        specialize (Hnext t Ht). cbn in Hy. lia.
      * intros t [Ht|Ht%list_elem_of_singleton]%elem_of_app; [specialize (Hnext t Ht); lia|subst t; cbn; lia].
      * intros t [Ht|Ht%list_elem_of_singleton]%elem_of_app; [by apply Hdays|subst t; cbn; lia].
    + unfold apiStep, live in *. cbn. split_and!; [lia| |].
      * intros id Hid. rewrite fmap_app. intros [Hq|Hq%list_elem_of_singleton]%elem_of_app; [done|cbn in Hq; lia].
      * intros id b v. rewrite fmap_app, elem_of_app. split; [intros Hq; split; [done|left; by eapply Hl]|by intros [Hq _]].
  - destruct Hop as (p & id & i & s' & Hv & ->). apply validateSLO_days in Hv. unfold UpdateSLO.
    repeat case_match; cbn [snd]; try done. split; [|apply apiStep_same; cbn; try done; by apply UpdateSLO_ids].
    constructor; cbn [st_slos st_nextSLO].
    + by rewrite UpdateSLO_ids.
    + intros t (t0 & -> & Ht)%list_elem_of_fmap. specialize (Hnext t0 Ht).
      destruct (Z.eqb_spec (slo_ID t0) (slo_ID (withID id s'))); cbn in *; lia.
    + intros t (t0 & -> & Ht)%list_elem_of_fmap. specialize (Hdays t0 Ht). by case_match.
  - unfold DeleteSLO. case_match; cbn [snd]; [|done]. split.
    + constructor; cbn [st_slos st_nextSLO].
      * eapply sublist_NoDup; [done|]. apply fmap_sublist, sublist_filter.
      * intros t [_ Ht]%list_elem_of_filter. by apply Hnext.
      * intros t [_ Ht]%list_elem_of_filter. by apply Hdays.
    + assert (forall x, x ∈ slo_ID <$> filter (fun s => slo_ID s <> id) (st_slos st) <-> x <> id /\ x ∈ slo_ID <$> st_slos st) as Hx.
      { intros x. rewrite !list_elem_of_fmap. split.
        - intros (t & -> & [Ht1 Ht2]%list_elem_of_filter). split; [done|]. by exists t.
        - intros [Hx (t & -> & Ht)]. exists t. split; [done|]. by apply list_elem_of_filter. }
      unfold apiStep, live in *. cbn. split_and!; [lia|intros x _; rewrite Hx; by intros [_ ?]|].
      intros x b v. rewrite map_lookup_filter_Some, Hx. cbn. split; [|tauto].
      intros [Hq1 Hq2]. split_and!; try done. by eapply Hl.
  - unfold CreateSLOBurnAlert. repeat case_match; cbn [snd]; try done. split; [done|by apply apiStep_same].
  - unfold UpdateSLOBurnAlert. repeat case_match; cbn [snd]; try done. split; [done|by apply apiStep_same].
  - unfold DeleteSLOBurnAlert. repeat case_match; cbn [snd]; try done. split; [done|by apply apiStep_same].
Qed.

Lemma countsOK_live P st log id b v : countsOK P st log -> st_counts st !! (id, b) = Some v -> live id st.
Proof. destruct v as [g t]. intros H Hc. by apply H in Hc as [? _]. Qed.

(** Such a step keeps the invariant. *)
Lemma invS_api P T w st' :
  invS P T w -> storeOK st' -> apiStep (w_store w) st' -> invS P T (setStore st' w).
Proof.
  intros [Hst Hc Hs He Hp Hcl] Hst' (Hn & Hlive & Hcnt). constructor; cbn; try done.
  - intros id b g t. rewrite Hcnt, (Hc id b g t). split; [intros [(? & ? & ?) ?]; done|].
    intros (Hl & HP & c & Hin). split_and!; try done; [|by exists c].
    apply Hlive; [|done]. by destruct (He _ Hin) as (_ & _ & _ & _ & _ & ?).
  - intros e Hin. destruct (He e Hin) as (? & ? & ? & ? & ? & ?). repeat split; try done. lia.
Qed.

Lemma invS_apply P T w op : invS P T w -> apiOK op -> invS P T (setStore (apply_api trimSpace op (w_store w)) w).
Proof.
  intros Hw Hop. destruct (apply_api_store (w_store w) op) as [H1 H2]; [by destruct Hw| |done|by apply invS_api].
  intros id b v. apply (countsOK_live P _ (w_counted w)). by destruct Hw.
Qed.

(** ** Counting *)

Lemma sloCloseBefore_bounds now :
  now - 90 * second < sloCloseBefore now <= now - 30 * second /\ sloCloseBefore now mod sloBucket = 0.
Proof.
  unfold sloCloseBefore, sloIngestLag, sloBucket, minute, second in *.
  set (t := now - 30 * 1000000000). pose proof (Z.mod_pos_bound t (60 * 1000000000) ltac:(lia)).
  pose proof (Z.div_mod t (60 * 1000000000) ltac:(lia)) as Hd. split; [lia|].
  replace (t - t mod (60 * 1000000000)) with (t / (60 * 1000000000) * (60 * 1000000000)) by lia.
  apply Z.mod_mul. lia.
Qed.

Lemma sloCloseBefore_mono t t' : t <= t' -> sloCloseBefore t <= sloCloseBefore t'.
Proof.
  intros H. unfold sloCloseBefore, sloIngestLag, sloBucket, minute, second.
  set (a := t - _). set (b := t' - _). assert (a <= b) as Hab by (subst a b; lia).
  pose proof (Z.div_mod a (60 * 1000000000) ltac:(lia)). pose proof (Z.div_mod b (60 * 1000000000) ltac:(lia)).
  pose proof (Z.div_le_mono a b (60 * 1000000000) ltac:(lia) Hab). lia.
Qed.

Lemma aligned_lt b c : b mod sloBucket = 0 -> c mod sloBucket = 0 -> b < c -> b + sloBucket <= c.
Proof.
  rewrite sloBucket_val. intros Hb Hc H.
  apply Z.mod_divide in Hb as [x ->]; [|lia]. apply Z.mod_divide in Hc as [y ->]; [|lia]. nia.
Qed.

Lemma aligned_add b x : b mod sloBucket = 0 -> (x - b) mod sloBucket = 0 -> x mod sloBucket = 0.
Proof.
  rewrite sloBucket_val. intros Hb Hx.
  apply Z.mod_divide in Hb as [p ->]; [|lia]. apply Z.mod_divide in Hx as [q Hq]; [|lia].
  replace x with ((p + q) * 60000000000) by lia. apply Z.mod_mul. lia.
Qed.

(** Where a tick starts counting goes on with the series. *)
Lemma start_goesOn P T w id :
  invS P T w -> live id (w_store w) ->
  let start := sloCountStart (LatestSLOBucket id (w_store w)) (sloCloseBefore T) in
  goesOn (newest id (w_counted w)) (sloCloseBefore T) start /\ P <= start /\ start mod sloBucket = 0 /\
  sloCloseBefore T <= start + sloMaxCatchUp * sloBucket /\
  forall e, e ∈ w_counted w -> ofSLO id e -> bucketOf e < start.
Proof.
  intros [Hst Hc Hs He Hp Hcl] Hl.
  destruct (sloCloseBefore_bounds T) as [Hb Ha]. set (cb := sloCloseBefore T) in *.
  pose proof (LatestSLOBucket_spec id (w_store w)) as Hlat.
  assert ((cb - sloMaxCatchUp * sloBucket) mod sloBucket = 0) as Hfl.
  { apply (aligned_add cb); [done|].
    replace (cb - sloMaxCatchUp * sloBucket - cb) with (- sloMaxCatchUp * sloBucket) by lia. by apply Z.mod_mul. }
  assert (forall e, e ∈ w_counted w -> ofSLO id e -> is_Some (st_counts (w_store w) !! (id, bucketOf e)) \/ bucketOf e < P) as Hst'.
  { intros [c k] Hin Hid. destruct (decide (P <= bucketOf (c, k))) as [HP|]; [left|right; lia].
    exists (sc_Good k, sc_Total k). apply Hc. split_and!; [done|done|]. exists c.
    unfold ofSLO in Hid. cbn in *. subst id. by destruct k. }
  assert (forall b, is_Some (st_counts (w_store w) !! (id, b)) ->
            exists e, e ∈ w_counted w /\ ofSLO id e /\ bucketOf e = b /\ P <= b) as Hst2.
  { intros b [[g t] H]. apply Hc in H as (_ & HP & c & Hin). by exists (c, mkSLOCount id b g t). }
  assert (forall e, e ∈ w_counted w -> bucketOf e mod sloBucket = 0) as Hal.
  { intros e Hin. destruct (He e Hin) as (_ & _ & _ & H & _). done. }
  assert (forall start, (forall e, e ∈ w_counted w -> ofSLO id e -> bucketOf e < start) ->
            (match newest id (w_counted w) with None => start = cb - sloMaxCatchUp * sloBucket | Some p =>
               start = bucketOf p + sloBucket \/ (start = cb - sloMaxCatchUp * sloBucket /\ bucketOf p + sloBucket < start) end) ->
            goesOn (newest id (w_counted w)) cb start) as Hgo.
  { intros start Hlt Hn. unfold goesOn. destruct (newest id (w_counted w)) as [p|] eqn:En; [|done].
    unfold newest in En. apply last_Some_elem_of, list_elem_of_filter in En as [Hpid Hpin].
    split; [by apply Hlt|]. destruct Hn as [?|[? ?]]; [by left|right; lia]. }
  unfold sloCountStart. destruct (LatestSLOBucket id (w_store w)) as [x|]; cbn in Hlat |- *.
  - destruct Hlat as [[v Hx] Hmax]. destruct (Hst2 x (ex_intro _ v Hx)) as (ex & Hxin & Hxid & Hxb & HxP).
    destruct (series_newest _ id ex Hs Hxin Hxid) as (p & Hn & Hpin & Hpid & Hple).
    assert (bucketOf p = x) as Hpx.
    { destruct (Hst' p Hpin Hpid) as [Hsome|]; [specialize (Hmax _ Hsome); lia|lia]. }
    assert (forall e, e ∈ w_counted w -> ofSLO id e -> bucketOf e <= x) as Hall.
    { intros e Hin Hid. destruct (Hst' e Hin Hid) as [Hsome|]; [by apply Hmax|lia]. }
    pose proof (Hal _ Hpin) as Hxal. rewrite Hpx in Hxal.
    assert ((x + sloBucket) mod sloBucket = 0) as Hxn.
    { apply (aligned_add x); [done|]. by replace (x + sloBucket - x) with sloBucket by lia. }
    destruct (Z.ltb_spec (cb - sloMaxCatchUp * sloBucket) (x + sloBucket)) as [Hlt|Hge].
    + assert (forall e, e ∈ w_counted w -> ofSLO id e -> bucketOf e < x + sloBucket) as Hall'.
      { intros e Hin Hid. specialize (Hall e Hin Hid). rewrite sloBucket_val. lia. }
      split_and!; [apply Hgo; [done|rewrite Hn; left; lia]| |done| |done]; rewrite sloBucket_val in *; lia.
    + assert (forall e, e ∈ w_counted w -> ofSLO id e -> bucketOf e < cb - sloMaxCatchUp * sloBucket) as Hall'.
      { intros e Hin Hid. specialize (Hall e Hin Hid). rewrite sloBucket_val in *. lia. }
      split_and!; [apply Hgo; [done|rewrite Hn] | |done| |done].
      * destruct (decide (x + sloBucket = cb - sloMaxCatchUp * sloBucket)); [left; lia|right; lia].
      * unfold day, hour, minute, second, sloMaxCatchUp in *. rewrite sloBucket_val in *. lia.
      * lia.
  - assert (forall e, e ∈ w_counted w -> ofSLO id e -> bucketOf e < P) as Hall.
    { intros e Hin Hid. destruct (Hst' e Hin Hid) as [[v Hv]|]; [by rewrite Hlat in Hv|done]. }
    assert (P < cb - sloMaxCatchUp * sloBucket - sloBucket) as HPf.
    { unfold day, hour, minute, second, sloMaxCatchUp in *. rewrite sloBucket_val in *. lia. }
    assert (0 < sloBucket) by (rewrite sloBucket_val; lia).
    split_and!; [apply Hgo| |done| |]; try lia.
    + intros e Hin Hid. specialize (Hall e Hin Hid). lia.
    + destruct (newest id (w_counted w)) as [p|] eqn:En; [|done].
      unfold newest in En. apply last_Some_elem_of, list_elem_of_filter in En as [Hpid Hpin].
      specialize (Hall p Hpin Hpid). right. lia.
    + intros e Hin Hid. specialize (Hall e Hin Hid). lia.
Qed.

(** A count of a bucket newer than all before it. *)
Lemma countsOK_insert P st log c k :
  countsOK P st log -> live (sc_SLOID k) st -> P <= sc_BucketStart k ->
  (forall e, e ∈ log -> ofSLO (sc_SLOID k) e -> bucketOf e < sc_BucketStart k) ->
  countsOK P (mkStore (st_slos st) (st_alerts st)
                (<[(sc_SLOID k, sc_BucketStart k) := (sc_Good k, sc_Total k)]> (st_counts st))
                (st_nextSLO st) (st_nextAlert st)) (log ++ [(c, k)]).
Proof.
  intros Hc Hl HP Hlt id b g t. cbn. setoid_rewrite elem_of_app. setoid_rewrite list_elem_of_singleton.
  destruct (decide ((sc_SLOID k, sc_BucketStart k) = (id, b))) as [Heq|Hne].
  - injection Heq as <- <-. rewrite lookup_insert_eq. split.
    + intros [= <- <-]. split_and!; [done|done|]. exists c. right. by destruct k.
    + intros (_ & _ & c' & [Hin|[= _ Hk]]); [|by rewrite <- Hk].
      specialize (Hlt _ Hin eq_refl). unfold bucketOf in Hlt. cbn in Hlt. lia.
  - rewrite lookup_insert_ne, (Hc id b g t) by done. split.
    + intros (? & ? & c' & Hin). split_and!; [done..|]. exists c'. by left.
    + intros (? & ? & c' & [Hin|[= _ Hk]]); [split_and!; [done..|]; by exists c'|]. subst k. by cbn in Hne.
Qed.

Lemma countsOK_consecutive P id cb l : forall b st log,
  consecutive id b cb l -> countsOK P st log -> live id st -> P <= b ->
  (forall e, e ∈ log -> ofSLO id e -> bucketOf e < b) ->
  countsOK P (mkStore (st_slos st) (st_alerts st)
                (foldl (fun m c => <[(sc_SLOID c, sc_BucketStart c) := (sc_Good c, sc_Total c)]> m) (st_counts st) l)
                (st_nextSLO st) (st_nextAlert st)) (log ++ (pair cb <$> l)).
Proof.
  induction l as [|k l IH]; intros b st log Hcon Hc Hl HP Hlt.
  { rewrite fmap_nil, app_nil_r. by destruct st. }
  destruct Hcon as (Hid & Hb & Hcb & Hg & Hcon). rewrite fmap_cons, cons_middle, app_assoc. cbn [foldl].
  refine (IH (b + sloBucket) (mkStore (st_slos st) (st_alerts st) (<[(sc_SLOID k, sc_BucketStart k) := (sc_Good k, sc_Total k)]> (st_counts st)) (st_nextSLO st) (st_nextAlert st)) (log ++ [(cb, k)]) Hcon _ Hl _ _).
  - apply countsOK_insert; [done|by rewrite Hid|lia|]. rewrite Hid, Hb. done.
  - rewrite sloBucket_val. lia.
  - intros e [He|He%list_elem_of_singleton]%elem_of_app Hide; [specialize (Hlt e He Hide)|subst e; unfold bucketOf; cbn];
      rewrite sloBucket_val; lia.
Qed.

(** Writing the counts of a tick. *)
Lemma invS_insert P T w id b l :
  invS P T w -> live id (w_store w) -> consecutive id b (sloCloseBefore T) l ->
  goesOn (newest id (w_counted w)) (sloCloseBefore T) b -> P <= b -> b mod sloBucket = 0 ->
  (forall e, e ∈ w_counted w -> ofSLO id e -> bucketOf e < b) ->
  invS P T (noteCounts (pair (sloCloseBefore T) <$> l) (setStore (InsertSLOCounts l (w_store w)).2 w)).
Proof.
  intros [Hst Hc Hs He Hp Hcl] Hl Hcon Hgo HP Hal Hlt.
  assert (forallb (fun c => existsb (fun s => slo_ID s =? sc_SLOID c) (st_slos (w_store w))) l = true) as Hall.
  { apply forallb_forall. intros k Hk%list_elem_of_In. destruct (consecutive_elem _ _ _ _ _ Hcon Hk) as (Hid & _).
    apply existsb_exists. apply list_elem_of_fmap in Hl as (s & -> & Hs'). exists s. split; [by apply list_elem_of_In|].
    rewrite Hid. apply Z.eqb_refl. }
  unfold InsertSLOCounts. rewrite Hall. constructor; cbn; try done.
  - by destruct Hst.
  - by apply (countsOK_consecutive P id _ l b).
  - by apply (series_consecutive id _ _ b).
  - intros e [Hin|Hin]%elem_of_app; [by apply He|].
    apply list_elem_of_fmap in Hin as (k & -> & Hk).
    destruct (consecutive_elem _ _ _ _ _ Hcon Hk) as (Hid & Hbk & Hm & Hg).
    destruct (sloCloseBefore_bounds T) as [_ Hcb].
    assert (sc_BucketStart k mod sloBucket = 0) by (by apply (aligned_add b)).
    repeat split; cbn; try done.
    + apply aligned_lt; [done|done|]. unfold bucketOf. cbn. lia.
    + rewrite Hid. apply list_elem_of_fmap in Hl as (s & -> & Hs'). by apply (so_next _ Hst).
Qed.

(** A world reached by the writes of other requests. *)
Definition after (w w' : sloWorld) : Prop :=
  w_counted w' = w_counted w /\ st_nextSLO (w_store w) <= st_nextSLO (w_store w') /\
  forall id, id < st_nextSLO (w_store w) -> live id (w_store w') -> live id (w_store w).

Definition invA (P T : Z) (w w' : sloWorld) : Prop := invS P T w' /\ after w w'.

Lemma invA_refl P T w : invS P T w -> invA P T w w.
Proof. intros H. split; [done|]. repeat split; [lia|done]. Qed.

Lemma invA_api P T w w' st' :
  invA P T w w' -> storeOK st' -> apiStep (w_store w') st' -> invA P T w (setStore st' w').
Proof.
  intros [Hw (Hc & Hn & Hl)] Hst Hstep. split; [by apply invS_api|].
  destruct Hstep as (Hn' & Hl' & _). repeat split; cbn; [done|lia|]. intros id Hid Hlive. apply Hl; [done|]. apply Hl'; [lia|done].
Qed.

Lemma invA_apply P T w w' op : invA P T w w' -> apiOK op -> invA P T w (setStore (apply_api trimSpace op (w_store w')) w').
Proof.
  intros Hw Hop. destruct (apply_api_store (w_store w') op) as [H1 H2]; [by destruct Hw as [[] _]| |done|by apply invA_api].
  intros id b v. apply (countsOK_live P _ (w_counted w')). by destruct Hw as [[] _].
Qed.

Lemma invA_next P T w0 w : invA P T w0 w -> invA P T w0 (nextCall trimSpace w).2.
Proof.
  intros Hw. unfold nextCall. pose proof (is_calls _ _ _ (proj1 Hw)) as Hcl.
  destruct (w_calls w) as [|[ops ok] calls] eqn:Ec; cbn.
  { destruct w; cbn in *; subst; done. }
  apply Forall_cons in Hcl as [Hops Hcl]. cbn in Hops.
  assert (invA P T w0 (mkWorld (w_store w) calls (w_counted w) (w_events w))) as H0.
  { destruct Hw as [Hw Ha]. split; [destruct Hw; by constructor|done]. }
  clear Hw Ec. revert H0. generalize (w_store w). induction ops as [|op ops IH]; intros st H0; [done|].
  apply Forall_cons in Hops as [Hop Hops]. cbn. apply IH; [done|]. exact (invA_apply _ _ _ _ _ H0 Hop).
Qed.
Lemma invS_next P T w : invS P T w -> invS P T (nextCall trimSpace w).2.
Proof. intros H. by apply (invA_next P T w w), invA_refl. Qed.

(** ** A tick *)

(** What [countLoop] returns: consecutive buckets, and without an error all of them. *)
Lemma countLoop_spec ti s f cb rate fuel : forall b w,
  exists l e, (countLoop trimSpace ParseFloat overflow fuel ti s f b cb rate w).1 = inl (l, e) /\
    consecutive (slo_ID s) b cb l /\
    (e = None -> cb <= b + Z.of_nat fuel * sloBucket -> cb <= b + Z.of_nat (length l) * sloBucket).
Proof.
  induction fuel as [|fuel IH]; intros b w; cbn [countLoop].
  { exists [], None. split_and!; try done; lia. }
  destruct (Z.ltb_spec b cb) as [Hlt|Hge]; [|exists [], None; cbn; split_and!; try done; lia].
  unfold mbind, E_bind. destruct (ctxErr trimSpace w) as [[[]|?] w1] eqn:Ectx.
  - exists [], (Some ECancelled). by cbn.
  - unfold try. destruct (countBucket _ _ _ _ _ _ _ _ _) as [[k|e] w2] eqn:Ek; [|by exists [], (Some e)].
    assert (sc_SLOID k = slo_ID s /\ sc_BucketStart k = b /\ sc_Good k <= sc_Total k) as (Hid & Hb & Hg).
    { unfold countBucket, mbind, E_bind in Ek. repeat case_match; simplify_eq;
      unfold mret, E_ret in Ek; simplify_eq; cbn; split_and!; try done; lia. }
    destruct (IH (b + sloBucket) w2) as (l & e & El & Hc & Hlen).
    destruct (countLoop _ _ _ _ _ _ _ _ _ _ _) as [[?|?] w3]; cbn in El; simplify_eq.
    exists (k :: l), e. cbn. split_and!; try done. intros He Hf. cbn [length] in *.
    specialize (Hlen He ltac:(lia)). lia.
  - unfold ctxErr in Ectx. by destruct (nextCall trimSpace w).
Qed.

Lemma keeps_countBucket (I : sloWorld -> Prop) ti s f b rate :
  (forall w, I w -> I (nextCall trimSpace w).2) -> keeps I (countBucket trimSpace ParseFloat overflow ti s f b rate).
Proof. intros HI. unfold countBucket. eauto 10 with keeps. Qed.

Lemma keeps_countLoop (I : sloWorld -> Prop) ti s f cb rate fuel : forall b,
  (forall w, I w -> I (nextCall trimSpace w).2) ->
  keeps I (countLoop trimSpace ParseFloat overflow fuel ti s f b cb rate).
Proof.
  induction fuel as [|fuel IH]; intros b HI; cbn [countLoop]; [apply keeps_ret|].
  case_match; [|apply keeps_ret]. apply keeps_bind; [by apply keeps_ctxErr|]. intros []; [apply keeps_ret|].
  apply keeps_bind; [apply keeps_try; by apply keeps_countBucket|]. intros [k|e]; [|apply keeps_ret].
  apply keeps_bind; [by apply IH|]. intros. apply keeps_ret.
Qed.

(** The invariant with a bound on the ids already given. *)
Definition invN (P T n : Z) (w : sloWorld) : Prop := invS P T w /\ n <= st_nextSLO (w_store w).

Lemma invA_invN P T n w w' : invN P T n w -> invA P T w w' -> invN P T n w'.
Proof. intros [_ Hn] [Hw (_ & Hn' & _)]. split; [done|lia]. Qed.

Lemma invN_next P T n w : invN P T n w -> invN P T n (nextCall trimSpace w).2.
Proof. intros Hw. apply (invA_invN _ _ _ w); [done|]. apply invA_next, invA_refl, Hw. Qed.

Lemma InsertSLOCounts_dead k l st : ~ live (sc_SLOID k) st -> InsertSLOCounts (k :: l) st = (inr EDB, st).
Proof.
  intros Hdead. unfold InsertSLOCounts. cbn [forallb].
  destruct (existsb (fun s => slo_ID s =? sc_SLOID k) (st_slos st)) eqn:Hex; [|done].
  apply existsb_exists in Hex as (t & Ht & Heq%Z.eqb_eq). exfalso. apply Hdead.
  rewrite <- Heq. apply list_elem_of_fmap_2, list_elem_of_In, Ht.
Qed.

Lemma keeps_countSLO P n ti s :
  slo_ID s < n ->
  keeps (invN P (ti_now ti) n) (countSLO trimSpace decode ParseFloat overflow ti s (sloCloseBefore (ti_now ti))).
Proof.
  intros Hid w Hw. unfold countSLO. set (cb := sloCloseBefore (ti_now ti)).
  unfold lift, mbind, E_bind, dbRead. destruct (parseSLOFilters _ _ _) as [filters|e]; [|done].
  pose proof (invN_next _ _ _ _ Hw) as Hw1. destruct (nextCall trimSpace w) as [ok w1]. cbn [snd] in Hw1.
  destruct ok; [|done]. cbn beta iota zeta.
  set (start := sloCountStart _ _). set (fuel := Z.to_nat sloMaxCatchUp).
  destruct (countLoop_spec ti s filters cb (sampleRateFor (ti_ratio ti) (slo_ProjectID s)) fuel start w1)
    as (l & e & El & Hcon & _).
  pose proof (keeps_countLoop (invA P (ti_now ti) w1) ti s filters cb (sampleRateFor (ti_ratio ti) (slo_ProjectID s))
                fuel start (invA_next _ _ _) w1 (invA_refl _ _ _ (proj1 Hw1))) as Hw2.
  destruct (countLoop _ _ _ _ _ _ _ _ _ _ _) as [r w2]. cbn in El, Hw2. subst r. cbn [fst snd].
  assert (forall w', invN P (ti_now ti) n w' ->
            invN P (ti_now ti) n ((match e with Some e => throw e | None => mret tt end : E unit) w').2) as Hend
    by (intros w'; by destruct e).
  case_bool_decide as Hl; [apply Hend, (invA_invN _ _ _ w1); done|].
  unfold insertCounts, noted, mbind, E_bind, dbWrite.
  pose proof (invA_next _ _ _ _ Hw2) as Hw3. destruct (nextCall trimSpace w2) as [ok w3]. cbn [snd] in Hw3.
  destruct ok; [|by apply (invA_invN _ _ _ w1)].
  destruct (decide (live (slo_ID s) (w_store w3))) as [Hlive|Hdead].
  - destruct Hw1 as [Hw1 Hn1]. destruct Hw3 as [Hw3 (Hcnt & Hn3 & Hl3)].
    destruct (start_goesOn P (ti_now ti) w1 (slo_ID s)) as (Hgo & HP & Hal & _ & Hlt); [done|apply Hl3; [lia|done]|].
    rewrite <- Hcnt in Hgo, Hlt.
    pose proof (invS_insert P (ti_now ti) w3 (slo_ID s) start l Hw3 Hlive Hcon Hgo HP Hal Hlt) as Hins.
    assert (st_nextSLO (InsertSLOCounts l (w_store w3)).2 = st_nextSLO (w_store w3)) as Hnx
      by (unfold InsertSLOCounts; by destruct (forallb _ _)).
    destruct (InsertSLOCounts l (w_store w3)) as [[u|err] st'] eqn:Ei; cbn [snd] in *.
    + apply Hend. split; [exact Hins|]. cbn. lia.
    + unfold InsertSLOCounts in Ei. case_match; simplify_eq. split; [destruct Hw3; by constructor|cbn; lia].
  - destruct l as [|k l]; [done|]. destruct Hcon as (Hkid & _).
    rewrite InsertSLOCounts_dead by (by rewrite Hkid).
    apply (invA_invN _ _ _ w1); [done|]. destruct Hw3 as [Hw3 Ha]. split; [destruct Hw3; by constructor|done].
Qed.

Lemma invN_recordState P T n a at_ : keeps (invN P T n) (recordState trimSpace a at_).
Proof.
  unfold recordState. apply keeps_bind; [|intros ? w [[] ?]; split; [by constructor|done]].
  apply keeps_dbWrite; [apply invN_next|]. intros w [Hw Hn]. unfold UpdateSLOBurnAlertState.
  case_match; cbn [snd]; [|split; [destruct Hw; by constructor|done]].
  split; [|done]. apply invS_api; [done| |apply apiStep_same; try done].
  - destruct Hw as [[] _]. by constructor.
  - intros id b v. apply (countsOK_live P _ (w_counted w)). by destruct Hw.
Qed.

Lemma invN_send P T n e : keeps (invN P T n) (send trimSpace e).
Proof. apply keeps_send; [apply invN_next|]. intros w [[] ?]. split; [by constructor|done]. Qed.

Lemma invN_deliver P T n a p : keeps (invN P T n) (deliver trimSpace a p).
Proof.
  unfold deliver.
  apply keeps_bind; [case_match; eauto using invN_send with keeps|]. intros r1.
  apply keeps_bind; [case_match; eauto using invN_send with keeps|]. intros r2.
  case_match; eauto with keeps.
Qed.

Lemma invN_evaluateBurnAlert P T n s a now cb : keeps (invN P T n) (evaluateBurnAlert trimSpace s a now cb).
Proof.
  unfold evaluateBurnAlert, fire. case_match; [apply keeps_throw|].
  apply keeps_bind; [apply keeps_dbRead, invN_next|]. intros gt. cbn zeta.
  repeat (case_match; eauto using invN_recordState with keeps).
  apply keeps_bind; [apply keeps_dbRead, invN_next|]. intros gt'.
  apply keeps_bind; [apply invN_deliver|]. intros. apply invN_recordState.
Qed.

Lemma invN_evaluateAlerts P T n s now cb alerts : keeps (invN P T n) (evaluateAlerts trimSpace s alerts now cb).
Proof.
  induction alerts as [|a alerts IH]; cbn [evaluateAlerts]; [apply keeps_ret|].
  apply keeps_bind; [apply keeps_ctxErr, invN_next|]. intros []; [apply keeps_ret|].
  case_match; [apply IH|]. apply keeps_bind; [apply keeps_try, invN_evaluateBurnAlert|]. intros r.
  apply keeps_bind; [apply IH|]. intros. apply keeps_ret.
Qed.

Lemma invN_evaluateSLO P n ti s :
  slo_ID s < n ->
  keeps (invN P (ti_now ti) n) (evaluateSLO trimSpace decode ParseFloat overflow ti s (sloCloseBefore (ti_now ti))).
Proof.
  intros Hid. unfold evaluateSLO, evaluateListed. apply keeps_bind; [apply keeps_try, keeps_dbRead, invN_next|]. intros alerts. cbn zeta.
  apply keeps_bind; [by apply keeps_try, keeps_countSLO|]. intros counted.
  repeat case_match; try apply keeps_ret. apply keeps_bind; [apply invN_evaluateAlerts|]. intros. apply keeps_ret.
Qed.

(** How long counts are kept: not at all, or a day and more. *)
Definition keepOK (k : Z) : Prop := k = 0 \/ day <= k.

Lemma keepFor_day s alerts : 1 <= slo_WindowDays s <= 90 -> day <= keepFor s alerts.
Proof.
  intros Hd. unfold keepFor.
  assert (day <= wrap64 (slo_WindowDays s * 24 * hour)) as H0.
  { rewrite wrap64_id; unfold in_int64, day, hour, minute, second; lia. }
  revert H0. generalize (wrap64 (slo_WindowDays s * 24 * hour)). induction alerts as [|a alerts IH]; intros k Hk; [done|].
  cbn [foldl]. apply IH. lia.
Qed.

Lemma evaluateSLO_keep ti s cb w :
  1 <= slo_WindowDays s <= 90 ->
  exists k, (evaluateSLO trimSpace decode ParseFloat overflow ti s cb w).1 = inl k /\ day <= k.1.
Proof.
  intros Hd. unfold evaluateSLO, evaluateListed, mbind, E_bind, try.
  destruct (dbRead _ _ _) as [alerts w1]. destruct (countSLO _ _ _ _ _ _ _ _) as [r w2]. cbn beta iota zeta.
  assert (forall l, (exists k, (inl (keepFor s l, false) : Z * bool + sloErr) = inl k /\ day <= k.1)) as Hf.
  { intros l. eexists. split; [done|]. by apply keepFor_day. }
  destruct r, alerts; try apply Hf.
  assert (forall l w, exists b, (evaluateAlerts trimSpace s l (ti_now ti) cb w).1 = inl b) as Ha.
  { intros l0. induction l0 as [|a l0 IH]; intros w'; cbn [evaluateAlerts]; [by exists true|].
    unfold mbind, E_bind, ctxErr, try. destruct (nextCall trimSpace w') as [ok w3]. cbn beta iota.
    destruct (negb ok); [by exists false|]. destruct (negb (ba_Enabled a)); [apply IH|].
    destruct (evaluateBurnAlert _ _ _ _ _ _) as [r w4]. destruct (IH w4) as [b Hb].
    destruct (evaluateAlerts _ _ _ _ _ _) as [? w5]. cbn in Hb. subst. by eexists. }
  match goal with |- context [evaluateAlerts _ _ ?l _ _ ?w] => destruct (Ha l w) as [b Hb] end.
  destruct (evaluateAlerts _ _ _ _ _ _) as [? w5]. cbn in Hb. subst. cbn.
  eexists. split; [done|]. by apply keepFor_day.
Qed.

Lemma evaluateSLOs_spec P ti n slos : forall keep w,
  (forall s, s ∈ slos -> slo_ID s < n /\ 1 <= slo_WindowDays s <= 90) -> keepOK keep -> invN P (ti_now ti) n w ->
  let r := evaluateSLOs trimSpace decode ParseFloat overflow ti slos (sloCloseBefore (ti_now ti)) keep w in
  (exists k, r.1 = inl k /\ keepOK k) /\ invN P (ti_now ti) n r.2.
Proof.
  induction slos as [|s slos IH]; intros keep w Hs Hk Hw; [split; [by exists keep|done]|].
  cbn [evaluateSLOs]. unfold mbind, E_bind.
  destruct (Hs s) as [Hid Hd]; [by left|].
  destruct (evaluateSLO_keep ti s (sloCloseBefore (ti_now ti)) w Hd) as (k & Ek & Hkd).
  pose proof (invN_evaluateSLO P n ti s Hid w Hw) as Hw'.
  destruct (evaluateSLO _ _ _ _ _ _ _ _) as [? w']. cbn in Ek, Hw'. subst. cbn beta iota.
  apply IH; [by intros; apply Hs; right| |done].
  destruct Hk as [->|]; right; [|lia]. unfold day, hour, minute, second in *. lia.
Qed.

Lemma evaluateProject_spec P ti id w :
  invS P (ti_now ti) w ->
  let r := evaluateProject trimSpace decode ParseFloat overflow ti id (sloCloseBefore (ti_now ti)) w in
  (forall k, r.1 = inl k -> keepOK k) /\ invS P (ti_now ti) r.2.
Proof.
  intros Hw. unfold evaluateProject, mbind, E_bind, dbRead.
  pose proof (invS_next _ _ _ Hw) as Hw1. destruct (nextCall trimSpace w) as [ok w1]. cbn [snd] in Hw1.
  destruct ok; [|done]. cbn beta iota zeta.
  destruct (evaluateSLOs_spec P ti (st_nextSLO (w_store w1)) (ListSLOs id (w_store w1)) 0 w1) as [(k & Ek & Hk) [Hw2 _]].
  - intros s [_ Hs]%list_elem_of_filter. destruct Hw1 as [[] _]. auto.
  - by left.
  - split; [done|lia].
  - rewrite Ek. split; [|done]. by intros ? [= <-].
Qed.

Lemma evaluateProjects_spec P ti ids : forall keep complete w,
  keepOK keep -> invS P (ti_now ti) w ->
  let r := evaluateProjects trimSpace decode ParseFloat overflow ti ids (sloCloseBefore (ti_now ti)) keep complete w in
  (forall k c, r.1 = inl (Some (k, c)) -> keepOK k) /\ invS P (ti_now ti) r.2.
Proof.
  induction ids as [|id ids IH]; intros keep complete w Hk Hw.
  { split; [|done]. by intros k c [= <- _]. }
  cbn [evaluateProjects]. unfold mbind, E_bind, ctxErr, try.
  pose proof (invS_next _ _ _ Hw) as Hw1. destruct (nextCall trimSpace w) as [ok w1]. cbn [snd] in Hw1. cbn beta iota.
  destruct (negb ok); [split; [done|done]|].
  destruct (evaluateProject_spec P ti id w1 Hw1) as [Hk' Hw2].
  destruct (evaluateProject _ _ _ _ _ _ _ _) as [[k|e] w2]; cbn [fst snd] in *; cbn beta iota; apply IH; try done.
  - specialize (Hk' k eq_refl). unfold keepOK, day, hour, minute, second in *. lia.
  - unfold keepOK, day, hour, minute, second in *. lia.
Qed.

Lemma invS_prune P T w cutoff :
  invS P T w -> cutoff <= T - day -> invS (Z.max P cutoff) T (setStore (DeleteSLOCountsBefore cutoff (w_store w)) w).
Proof.
  intros [Hst Hc Hs He Hp Hcl] Hcut. constructor; cbn; try done; [by destruct Hst| |lia].
  intros id b g t. cbn. rewrite map_lookup_filter_Some, (Hc id b g t). cbn. unfold live. cbn. split.
  - intros [(? & ? & ?) ?]. split_and!; [done|lia|done].
  - intros (? & ? & ?). split_and!; [done|lia|done|lia].
Qed.

Lemma invS_later P T T' w : T <= T' -> invS P T w -> invS P T' w.
Proof.
  intros HT [Hst Hc Hs He Hp Hcl]. constructor; try done; [|lia].
  intros e Hin. destruct (He e Hin) as (H1 & H2). split; [|done]. pose proof (sloCloseBefore_mono T T' HT). lia.
Qed.

Lemma invS_calls P T w calls : invS P T w -> callsOK calls -> invS P T (withCalls calls w).
Proof. intros [] Hc. by constructor. Qed.

Lemma invS_Run P ti ids w :
  invS P (ti_now ti) w ->
  exists P', invS P' (ti_now ti) (SLO_Run trimSpace decode ParseFloat overflow ti ids w).2.
Proof.
  intros Hw. unfold SLO_Run, mbind, E_bind.
  destruct (evaluateProjects_spec P ti ids 0 true w) as [Hk Hw1]; [by left|done|].
  destruct (evaluateProjects _ _ _ _ _ _ _ _ _ _) as [[r|e] w1]; cbn [fst snd] in *; [|by exists P].
  destruct r as [[keep []]|]; try by exists P. destruct (Z.ltb_spec 0 keep) as [Hpos|]; [|by exists P].
  assert (day <= keep) as Hday by (destruct (Hk keep true eq_refl); lia).
  unfold SLO_prune, mbind, E_bind, try, dbWrite.
  pose proof (invS_next _ _ _ Hw1) as Hw2. destruct (nextCall trimSpace w1) as [ok w2]. cbn [snd] in Hw2.
  destruct ok; cbn; [|by exists P]. exists (Z.max P (ti_now ti - keep)). apply invS_prune; [done|lia].
Qed.

(** ** Requests *)

Lemma invS_write P T {A} (f : sloStore -> (A + sloErr) * sloStore) op :
  apiOK op -> (forall st, apply_api trimSpace op st = (f st).2) -> keeps (invS P T) (dbWrite trimSpace f).
Proof.
  intros Hop Hf. apply keeps_dbWrite; [apply invS_next|]. intros w Hw. rewrite <- Hf. by apply invS_apply.
Qed.

Lemma keeps_lift_bind (I : sloWorld -> Prop) {A B} (r : A + sloErr) (f : A -> E B) :
  (forall a, r = inl a -> keeps I (f a)) -> keeps I (lift r ≫= f).
Proof. intros H w Hw. destruct r as [a|e]; [by apply (H a)|done]. Qed.

Lemma keeps_burnAlertOf P T p s a : keeps (invS P T) (burnAlertOf trimSpace p s a).
Proof.
  unfold burnAlertOf. apply keeps_bind; [apply keeps_dbRead, invS_next|]. intros x.
  case_match; [apply keeps_throw|apply keeps_ret].
Qed.

Lemma invS_serve P T r : keeps (invS P T) (serve trimSpace decode encode parseURL parseAddress r).
Proof.
  destruct r as [p i|p id i|p id|p s i|p s a i|p s a]; cbn [serve].
  - apply keeps_bind; [|intros; apply keeps_ret]. apply keeps_lift_bind. intros s Hs.
    apply (invS_write _ _ _ (ACreateSLO s)); [by exists p, i|done].
  - apply keeps_lift_bind. intros s Hs. apply (invS_write _ _ _ (AUpdateSLO (withID id s))); [by exists p, id, i, s|done].
  - by apply (invS_write _ _ _ (ADeleteSLO p id)).
  - apply keeps_bind; [|intros; apply keeps_ret]. apply keeps_bind; [apply keeps_dbRead, invS_next|]. intros t.
    apply keeps_lift_bind. intros a Ha. apply (invS_write _ _ _ (ACreateAlert p a)); [by exists t, i|done].
  - apply keeps_bind; [apply keeps_burnAlertOf|]. intros x.
    apply keeps_bind; [apply keeps_dbRead, invS_next|]. intros t.
    apply keeps_lift_bind. intros b Hb.
    apply (invS_write _ _ _ (AUpdateAlert p (withAlertID a b))); [by exists t, a, i, b|done].
  - apply keeps_bind; [apply keeps_burnAlertOf|]. intros x. by apply (invS_write _ _ _ (ADeleteAlert p a)).
Qed.

Abbreviation reachable := (reachable trimSpace decode encode ParseFloat overflow parseURL parseAddress).

Lemma reachable_invS T w : reachable T w -> exists P, invS P T w.
Proof.
  induction 1 as [T|T w ti ids calls _ [P IH] HT Hc|T w r calls _ [P IH] Hc].
  - exists (T - day). constructor; cbn; try done.
    + constructor; cbn; [apply NoDup_nil_2|by intros s ?%elem_of_nil..].
    + intros id b g t. cbn. rewrite lookup_empty. split; [done|]. by intros (? & ? & c & ?%elem_of_nil).
    + apply along_nil.
    + by intros e ?%elem_of_nil.
    + apply Forall_nil_2.
  - apply (invS_Run P). apply invS_calls; [|done]. by apply (invS_later P T).
  - exists P. apply invS_serve. by apply invS_calls.
Qed.

(** C13: Over any run of evaluator ticks and service requests, with calls failing, contexts
    cancelled and other requests writing between any two calls, the counts of every SLO
    form one series: each is of a whole minute that ended at least 30 s before the tick,
    its good count is at most its total, it comes after all counts written before it (so no
    bucket is counted twice), and it follows the newest one directly unless more than
    [sloMaxCatchUp] buckets had passed.  The table holds only counts of that history, of
    live SLOs, and all of them of the last day. *)
Theorem slo_series T w :
  reachable T w ->
  series (w_counted w) /\
  (forall e, e ∈ w_counted w ->
     bucketOf e mod sloBucket = 0 /\ bucketOf e + sloBucket <= e.1 /\ e.1 <= T - sloIngestLag /\ sc_Good e.2 <= sc_Total e.2) /\
  (forall id b g t, st_counts (w_store w) !! (id, b) = Some (g, t) ->
     live id (w_store w) /\ exists c, (c, mkSLOCount id b g t) ∈ w_counted w) /\
  (forall e, e ∈ w_counted w -> live (sc_SLOID e.2) (w_store w) -> T - day <= bucketOf e ->
     st_counts (w_store w) !! (sc_SLOID e.2, bucketOf e) = Some (sc_Good e.2, sc_Total e.2)).
Proof.
  intros [P [Hst Hc Hs He Hp Hcl]]%reachable_invS. split_and!; [done| | |].
  - intros e Hin. destruct (He e Hin) as (? & ? & ? & ? & ? & ?).
    destruct (sloCloseBefore_bounds T). unfold sloIngestLag. split_and!; try done. lia.
  - intros id b g t H. by apply Hc in H as (? & _ & ?).
  - intros [c k] Hin Hl Hd. apply Hc. split_and!; [done|lia|]. exists c. unfold bucketOf. cbn. by destruct k.
Qed.
End Series.
