(* ===== verification/SloAlerts.v ===== *)
(** * Burn alerts

    The history of an alert alternates between firing and clearing, a notification goes out
    only while the alert is not firing and not in its cooldown, and an alert is recorded as
    firing only after a delivery.  Other requests may edit or delete alerts at any time. *)
From S2P Require Import Prelude Float64 CalcParse CalcCompile Filter Slo SloEval SloSeries.

(** ** The history of an alert *)

(** The alert of an event. *)
Definition eventAlert (e : alertEvent) : SLOBurnAlert :=
  match e with SentWebhook a _ | SentEmail a _ _ | Fired a _ | Cleared a => a end.

(** Whether the alert fires and when it last fired, after an event and after a history. *)
Definition stepState (id : Z) (st : bool * option Z) (e : alertEvent) : bool * option Z :=
  if ba_ID (eventAlert e) =? id then
    match e with Fired _ t => (true, Some t) | Cleared _ => (false, st.2) | _ => st end
  else st.

Definition alertState (id : Z) (log : list alertEvent) : bool * option Z := foldl (stepState id) (false, None) log.

Lemma alertState_snoc id log e : alertState id (log ++ [e]) = stepState id (alertState id log) e.
Proof. unfold alertState. by rewrite foldl_app. Qed.

Lemma alertState_other id log e : ba_ID (eventAlert e) <> id -> alertState id (log ++ [e]) = alertState id log.
Proof. intros H. rewrite alertState_snoc. unfold stepState. by apply Z.eqb_neq in H as ->. Qed.

Lemma alertState_new id log :
  (forall e, e ∈ log -> ba_ID (eventAlert e) <> id) -> alertState id log = (false, None).
Proof.
  induction log as [|e log IH] using rev_ind; intros H; [done|].
  rewrite alertState_other by (apply H, elem_of_app; right; apply list_elem_of_here).
  apply IH. intros e' He'. apply H, elem_of_app. by left.
Qed.

(** The row agrees with the history. *)
Definition agrees (log : list alertEvent) (a : SLOBurnAlert) : Prop :=
  (ba_Firing a, ba_LastTriggeredAt a) = alertState (ba_ID a) log.

(** The alert may notify at [t]: it does not fire and its cooldown is over. *)
Definition mayNotify (log : list alertEvent) (a : SLOBurnAlert) (t : Z) : Prop :=
  (alertState (ba_ID a) log).1 = false /\
  forall t0, (alertState (ba_ID a) log).2 = Some t0 -> t0 + wrap64 (ba_CooldownMinutes a * minute) <= t.

(** A notification of the alert at [t], over its threshold. *)
Definition notifies (a : SLOBurnAlert) (t : Z) (e : alertEvent) : Prop :=
  match e with
  | SentWebhook a' p | SentEmail a' _ p =>
      a' = a /\ pl_AlertID p = ba_ID a /\ pl_TriggeredAt p = t /\ (ba_BurnRate a <? pl_BurnRate p)%f64 = true
  | _ => False
  end.

Definition hasChannel (a : SLOBurnAlert) : bool := nonEmpty (ba_WebhookURL a) || nonEmpty (ba_Email a).

(** What may follow a history. *)
Definition eventOK (pre : list alertEvent) (e : alertEvent) : Prop :=
  match e with
  | SentWebhook a p | SentEmail a _ p => notifies a (pl_TriggeredAt p) e /\ mayNotify pre a (pl_TriggeredAt p)
  | Fired a t =>
      mayNotify pre a t /\ (hasChannel a = true -> exists n, last pre = Some n /\ notifies a t n)
  | Cleared a => (alertState (ba_ID a) pre).1 = true
  end.

(** ** The invariant *)

Record invE (w : sloWorld) : Prop := {
  ie_ids : NoDup (ba_ID <$> st_alerts (w_store w));
  ie_next : forall a, a ∈ st_alerts (w_store w) -> ba_ID a < st_nextAlert (w_store w);
  ie_rows : forall a, a ∈ st_alerts (w_store w) -> agrees (w_events w) a;
  ie_old : forall e, e ∈ w_events w -> ba_ID (eventAlert e) < st_nextAlert (w_store w);
  ie_events : along eventOK (w_events w);
}.

Section Alerts.
Context (trimSpace : string -> string) (decode : string -> option Node) (encode : Node -> option string).
Context (ParseFloat : string -> option number) (overflow : float64 -> Z).
Context (parseURL : string -> option (string * string)) (parseAddress : string -> bool).

(** The invariant with a fixed history and a bound on the ids already given. *)
Definition invL (log : list alertEvent) (n : Z) (w : sloWorld) : Prop :=
  invE w /\ w_events w = log /\ n <= st_nextAlert (w_store w).

(** A change of the store that keeps some rows and their state. *)
Lemma invL_rows log n w st' :
  invL log n w -> st_nextAlert st' = st_nextAlert (w_store w) ->
  ba_ID <$> st_alerts st' `sublist_of` ba_ID <$> st_alerts (w_store w) ->
  (forall a, a ∈ st_alerts st' -> exists a0, a0 ∈ st_alerts (w_store w) /\ ba_ID a = ba_ID a0 /\
     ba_Firing a = ba_Firing a0 /\ ba_LastTriggeredAt a = ba_LastTriggeredAt a0) ->
  invL log n (setStore st' w).
Proof.
  intros ([Hids Hnext Hrows Hold Hev] & Hlog & Hn) Hna Hsub Hr.
  split_and!; [|done|cbn; by rewrite Hna]. constructor; cbn; try done.
  - by eapply sublist_NoDup.
  - intros a Ha. destruct (Hr a Ha) as (a0 & Ha0 & -> & _). rewrite Hna. by apply Hnext.
  - intros a Ha. destruct (Hr a Ha) as (a0 & Ha0 & Hi & Hf & Ht). unfold agrees. rewrite Hi, Hf, Ht. by apply Hrows.
  - intros e He. rewrite Hna. by apply Hold.
Qed.

Lemma invL_same log n w st' :
  invL log n w -> st_nextAlert st' = st_nextAlert (w_store w) -> st_alerts st' = st_alerts (w_store w) ->
  invL log n (setStore st' w).
Proof.
  intros Hw Hn Ha. apply invL_rows; [done|done|by rewrite Ha|]. intros a. rewrite Ha. intros Hin. by exists a.
Qed.

Lemma invL_create log n w p a :
  invL log n w -> invL log n (setStore (CreateSLOBurnAlert p a (w_store w)).2 w).
Proof.
  intros Hw. unfold CreateSLOBurnAlert. case_match; cbn [snd]; [|by apply invL_same].
  destruct Hw as ([Hids Hnext Hrows Hold Hev] & Hlog & Hn). split_and!; [|done|cbn; lia]. constructor; cbn; try done.
  - rewrite fmap_app. apply NoDup_app. split_and!; [done| |apply NoDup_singleton].
    intros x (y & -> & Hy)%list_elem_of_fmap Hx%list_elem_of_singleton. specialize (Hnext y Hy). cbn in Hx. lia.
  - intros x [Hx|Hx%list_elem_of_singleton]%elem_of_app; [specialize (Hnext x Hx); lia|subst x; cbn; lia].
  - intros x [Hx|Hx%list_elem_of_singleton]%elem_of_app; [by apply Hrows|subst x].
    unfold agrees. cbn. symmetry. apply alertState_new. intros e He. specialize (Hold e He). lia.
  - intros e He. specialize (Hold e He). lia.
Qed.

Lemma update_rows id (f : SLOBurnAlert -> SLOBurnAlert) (l : list SLOBurnAlert) :
  (forall a, ba_ID (f a) = ba_ID a) ->
  ba_ID <$> ((fun t => if ba_ID t =? id then f t else t) <$> l) = ba_ID <$> l.
Proof.
  intros Hf. rewrite <- list_fmap_compose. apply list_fmap_ext. intros i a _. cbn. case_match; [apply Hf|done].
Qed.

Lemma invL_apply log n w op : invL log n w -> invL log n (setStore (apply_api trimSpace op (w_store w)) w).
Proof.
  intros Hw. destruct op as [s|s|p id|p a|p a|p id]; cbn [apply_api].
  - unfold CreateSLO. repeat case_match; by apply invL_same.
  - unfold UpdateSLO. repeat case_match; by apply invL_same.
  - unfold DeleteSLO. case_match; [|by apply invL_same]. apply invL_rows; cbn; try done.
    + apply fmap_sublist, sublist_filter.
    + intros a [_ Ha]%list_elem_of_filter. by exists a.
  - by apply invL_create.
  - unfold UpdateSLOBurnAlert. case_match; [|by apply invL_same]. apply invL_rows; cbn; try done.
    + by rewrite update_rows.
    + intros b (b0 & -> & Hb)%list_elem_of_fmap. exists b0. by case_match.
  - unfold DeleteSLOBurnAlert. case_match; [|by apply invL_same]. apply invL_rows; cbn; try done.
    + apply fmap_sublist, sublist_filter.
    + intros a [_ Ha]%list_elem_of_filter. by exists a.
Qed.

Lemma invL_next log n w : invL log n w -> invL log n (nextCall trimSpace w).2.
Proof.
  intros Hw. unfold nextCall. destruct (hd ([], true) (w_calls w)) as [ops ok]. cbn.
  assert (invL log n (mkWorld (w_store w) (tl (w_calls w)) (w_counted w) (w_events w))) as H0
    by (destruct Hw as ([] & ? & ?); split_and!; by try constructor).
  revert H0. generalize (w_store w). induction ops as [|op ops IH]; intros st H0; [done|].
  cbn. apply IH. exact (invL_apply _ _ _ op H0).
Qed.

Lemma invL_countSLO log n ti s cb : keeps (invL log n) (countSLO trimSpace decode ParseFloat overflow ti s cb).
Proof.
  unfold countSLO. apply keeps_bind; [apply keeps_lift|]. intros filters.
  apply keeps_bind; [apply keeps_dbRead, invL_next|]. intros latest. cbn zeta.
  apply keeps_bind; [apply keeps_countLoop, invL_next|]. intros [l e].
  apply keeps_bind; [|intros; case_match; auto with keeps]. case_match; [apply keeps_ret|].
  unfold insertCounts. apply keeps_bind; [apply keeps_dbWrite; [apply invL_next|]|].
  - intros w Hw. unfold InsertSLOCounts. case_match; by apply invL_same.
  - intros [] w ([] & ? & ?). by repeat (split || constructor).
Qed.

(** An event of one alert leaves the state of the others. *)
Lemma agrees_other log e a : ba_ID (eventAlert e) <> ba_ID a -> agrees log a -> agrees (log ++ [e]) a.
Proof. intros Hne Ha. unfold agrees. by rewrite alertState_other. Qed.

(** A delivered notification is added to the history. *)
Lemma invL_note log n w e :
  invL log n w -> ba_ID (eventAlert e) < n -> eventOK log e ->
  (forall a, a ∈ st_alerts (w_store w) -> agrees (log ++ [e]) a) -> invL (log ++ [e]) n (note e w).
Proof.
  intros ([Hids Hnext Hrows Hold Hev] & Hlog & Hn) Hid He Hr. split_and!; [|cbn; congruence|done].
  subst log. constructor; cbn; try done.
  - intros x [Hx|Hx%list_elem_of_singleton]%elem_of_app; [by apply Hold|subst x; lia].
  - by apply along_snoc.
Qed.

Definition isSent (e : alertEvent) : Prop := match e with SentWebhook _ _ | SentEmail _ _ _ => True | _ => False end.

Lemma alertState_sent id log e : isSent e -> alertState id (log ++ [e]) = alertState id log.
Proof. intros He. rewrite alertState_snoc. unfold stepState. destruct e; try done; by case_match. Qed.

Lemma mayNotify_sent log e a t : isSent e -> mayNotify (log ++ [e]) a t <-> mayNotify log a t.
Proof. intros He. unfold mayNotify. by rewrite alertState_sent. Qed.

Lemma notifies_sent a t e : notifies a t e -> isSent e.
Proof. by destruct e. Qed.

Lemma alertState_notified a t id sent : forall log,
  Forall (notifies a t) sent -> alertState id (log ++ sent) = alertState id log.
Proof.
  induction sent as [|e sent IH]; intros log Hs; [by rewrite app_nil_r|].
  apply Forall_cons in Hs as [He Hs]. rewrite cons_middle, app_assoc, IH by done.
  by eapply alertState_sent, notifies_sent.
Qed.

(** A delivery adds its notification or nothing. *)
Lemma send_spec log n w a t e :
  invL log n w -> ba_ID a < n -> mayNotify log a t -> notifies a t e ->
  exists sent, Forall (notifies a t) sent /\ invL (log ++ sent) n (send trimSpace e w).2 /\
    ((send trimSpace e w).1 = inl tt /\ sent = [e] \/ (send trimSpace e w).1 = inr ESend /\ sent = []).
Proof.
  intros Hw Hid Hmay He. unfold send. pose proof (invL_next _ _ _ Hw) as Hw1.
  destruct (nextCall trimSpace w) as [ok w1]. cbn [snd] in Hw1. destruct ok; cbn.
  - exists [e]. split_and!; [by apply Forall_singleton| |by left].
    assert (isSent e) as Hs by (by eapply notifies_sent).
    apply invL_note; [done| | |].
    + by destruct e as [a' p|a' sub p|a' t'|a']; try done; destruct He as [-> _].
    + destruct e as [a' p|a' sub p|a' t'|a']; try done; destruct He as (-> & ? & <- & ?); done.
    + intros b Hb. unfold agrees. rewrite alertState_sent by done. destruct Hw1 as ([_ _ Hrows _ _] & Hl & _). rewrite <- Hl. by apply Hrows.
  - exists []. rewrite app_nil_r. split_and!; [by apply Forall_nil|done|by right].
Qed.

(** One channel of [deliver]. *)
Lemma channel_spec log n w a t e (b : bool) :
  invL log n w -> ba_ID a < n -> mayNotify log a t -> notifies a t e ->
  exists r sent, (if b then r ← try (send trimSpace e); mret (Some (match r with inl _ => true | inr _ => false end))
                  else mret None) w = r /\ Forall (notifies a t) sent /\ invL (log ++ sent) n r.2 /\
    (r.1 = inl (if b then Some (negb (bool_decide (sent = []))) else None)).
Proof.
  intros Hw Hid Hmay He. destruct b.
  - destruct (send_spec log n w a t e Hw Hid Hmay He) as (sent & Hs & Hw' & Hr).
    unfold mbind, E_bind, try. destruct (send trimSpace e w) as [r w']. cbn in Hw', Hr. cbn.
    eexists _, sent. split_and!; [done|done|done|]. by destruct Hr as [[-> ->]|[-> ->]].
  - eexists _, []. rewrite app_nil_r. split_and!; [done|by apply Forall_nil|done|done].
Qed.

Lemma deliver_spec log n w a p :
  invL log n w -> ba_ID a < n -> mayNotify log a (pl_TriggeredAt p) -> pl_AlertID p = ba_ID a ->
  (ba_BurnRate a <? pl_BurnRate p)%f64 = true ->
  exists sent, Forall (notifies a (pl_TriggeredAt p)) sent /\ invL (log ++ sent) n (deliver trimSpace a p w).2 /\
    ((deliver trimSpace a p w).1 = inl tt -> hasChannel a = true -> sent <> []).
Proof.
  intros Hw Hid Hmay Hp Hb.
  destruct (channel_spec log n w a (pl_TriggeredAt p) (SentWebhook a p) (nonEmpty (ba_WebhookURL a)) Hw Hid Hmay)
    as ([r1 w1] & s1 & E1 & Hs1 & Hw1 & Hr1); [done|]. cbn [fst snd] in *. subst r1.
  assert (mayNotify (log ++ s1) a (pl_TriggeredAt p)) as Hmay1
    by (unfold mayNotify; by rewrite (alertState_notified a (pl_TriggeredAt p))).
  destruct (channel_spec (log ++ s1) n w1 a (pl_TriggeredAt p)
              (SentEmail a ("[SpanBarn SLO] " +:+ pl_Name p +:+ " is burning its error budget") p)
              (nonEmpty (ba_Email a)) Hw1 Hid Hmay1) as ([r2 w2] & s2 & E2 & Hs2 & Hw2 & Hr2); [done|].
  cbn [fst snd] in *. subst r2. exists (s1 ++ s2). rewrite <- app_assoc in Hw2.
  assert ((deliver trimSpace a p w).2 = w2 /\ ((deliver trimSpace a p w).1 = inl tt -> hasChannel a = true -> s1 ++ s2 <> []))
    as [-> Hd]; [|by split_and!; [by apply Forall_app|..]].
  unfold deliver. rewrite (bind_eq _ _ _ _ _ E1), (bind_eq _ _ _ _ _ E2). split; [by repeat case_match|].
  unfold hasChannel. intros Hr Hch Hnil. apply app_eq_nil in Hnil as [-> ->].
  by destruct (nonEmpty (ba_WebhookURL a)), (nonEmpty (ba_Email a)).
Qed.

(** Recording a state adds its event, or nothing when the write fails. *)
Lemma recordState_spec log n w a at_ :
  invL log n w -> ba_ID a < n ->
  eventOK log (match at_ with Some t => Fired a t | None => Cleared a end) ->
  let r := recordState trimSpace a at_ w in
  invL log n r.2 \/ invL (log ++ [match at_ with Some t => Fired a t | None => Cleared a end]) n r.2.
Proof.
  intros Hw Hid He. unfold recordState, mbind, E_bind, dbWrite, noted. pose proof (invL_next _ _ _ Hw) as Hw1.
  destruct (nextCall trimSpace w) as [ok w1]. cbn [snd] in Hw1. destruct ok; [|by left].
  unfold UpdateSLOBurnAlertState.
  destruct (existsb _ _) eqn:Hex; cbn; [right|left; by apply invL_same].
  set (e := match at_ with Some t => Fired a t | None => Cleared a end) in *.
  assert (eventAlert e = a) as Hea by (by destruct at_).
  destruct Hw1 as ([Hids Hnext Hrows Hold Hev] & Hlog & Hn). split_and!; [|cbn; congruence|done].
  subst log. constructor; cbn; try done.
  - by rewrite update_rows.
  - intros b (b0 & -> & Hb)%list_elem_of_fmap. specialize (Hnext b0 Hb). by case_match.
  - intros b (b0 & -> & Hb)%list_elem_of_fmap. specialize (Hrows b0 Hb). unfold agrees in *.
    destruct (Z.eqb_spec (ba_ID b0) (ba_ID a)) as [Hi|Hi].
    + cbn. rewrite alertState_snoc, Hi. unfold stepState. rewrite Hea, Z.eqb_refl.
      rewrite Hi in Hrows. subst e. destruct at_; cbn; [done|]. by rewrite <- Hrows.
    + rewrite alertState_other by (rewrite Hea; congruence). done.
  - intros x [Hx|Hx%list_elem_of_singleton]%elem_of_app; [by apply Hold|subst x; rewrite Hea; lia].
  - by apply along_snoc.
Qed.

Lemma inCooldown_may log a now :
  agrees log a -> ba_Firing a = false -> inCooldown a now = false -> mayNotify log a now.
Proof.
  unfold agrees, mayNotify, inCooldown. intros <- Hf Hc. cbn. split; [done|]. intros t0 Ht. rewrite Ht in Hc. lia.
Qed.

Lemma fire_spec log n w s a burn now cb :
  invL log n w -> ba_ID a < n -> mayNotify log a now -> (ba_BurnRate a <? burn)%f64 = true ->
  exists evs, invL (log ++ evs) n (fire trimSpace s a burn now cb w).2 /\ Forall (fun e => eventAlert e = a) evs.
Proof.
  intros Hw Hid Hmay Hb. unfold fire, dbRead. unfold mbind at 1, E_bind at 1. pose proof (invL_next _ _ _ Hw) as Hw1.
  assert (forall w', invL log n w' -> exists evs, invL (log ++ evs) n w' /\ Forall (fun e => eventAlert e = a) evs) as Hnil
    by (intros w' ?; exists []; by rewrite app_nil_r).
  destruct (nextCall trimSpace w) as [ok w1]. cbn [snd] in Hw1. destruct ok; [|by apply Hnil].
  destruct (SumSLOCounts _ _ _ _) as [gt|e]; [|by apply Hnil]. cbn beta iota zeta.
  set (p := mkSLOPayload _ _ _ _ _ _ _ _). unfold mbind, E_bind.
  destruct (deliver_spec log n w1 a p) as (sent & Hs & Hw2 & Hch); try done.
  assert (Forall (fun e => eventAlert e = a) sent) as Hsa.
  { eapply Forall_impl; [exact Hs|]. intros [] He; try done; by destruct He as [-> _]. }
  destruct (deliver trimSpace a p w1) as [[[]|e] w2]; cbn [fst snd] in *; [|by exists sent].
  destruct (recordState_spec (log ++ sent) n w2 a (Some now)) as [H|H]; try done.
  - cbn. split; [unfold mayNotify; by rewrite (alertState_notified a now)|]. intros Hc. specialize (Hch eq_refl Hc).
    destruct sent as [|x sent _] using rev_ind; [done|]. exists x. rewrite app_assoc, last_snoc. split; [done|].
    apply Forall_app in Hs as [_ Hs]. apply Forall_inv in Hs. exact Hs.
  - by exists sent.
  - exists (sent ++ [Fired a now]). rewrite app_assoc. split; [done|]. apply Forall_app. split; [done|by apply Forall_singleton].
Qed.

Lemma evaluateBurnAlert_spec log n w s a now cb :
  invL log n w -> ba_ID a < n -> agrees log a ->
  exists evs, invL (log ++ evs) n (evaluateBurnAlert trimSpace s a now cb w).2 /\ Forall (fun e => eventAlert e = a) evs.
Proof.
  intros Hw Hid Ha. unfold evaluateBurnAlert, dbRead.
  assert (forall w', invL log n w' -> exists evs, invL (log ++ evs) n w' /\ Forall (fun e => eventAlert e = a) evs) as Hnil
    by (intros w' ?; exists []; by rewrite app_nil_r).
  destruct (ba_WindowMinutes a <=? 0); [by apply Hnil|].
  unfold mbind at 1, E_bind at 1. pose proof (invL_next _ _ _ Hw) as Hw1.
  destruct (nextCall trimSpace w) as [ok w1]. cbn [snd] in Hw1. destruct ok; [|by apply Hnil].
  destruct (SumSLOCounts _ _ _ _) as [gt|e]; [|by apply Hnil]. cbn beta iota zeta.
  destruct (_ && negb (ba_Firing a)) eqn:Hx.
  - apply andb_prop in Hx as [Hb Hf%negb_true_iff].
    destruct (inCooldown a now) eqn:Hc; [by apply Hnil|]. apply fire_spec; try done. by apply inCooldown_may.
  - destruct (negb _ && ba_Firing a) eqn:Hy; [|by apply Hnil]. apply andb_prop in Hy as [_ Hf].
    destruct (recordState_spec log n w1 a None) as [H|H]; try done.
    + cbn. by rewrite <- Ha.
    + by apply Hnil.
    + exists [Cleared a]. split; [done|by apply Forall_singleton].
Qed.

Lemma agrees_others log evs a b :
  Forall (fun e => eventAlert e = a) evs -> ba_ID b <> ba_ID a -> agrees log b -> agrees (log ++ evs) b.
Proof.
  revert log. induction evs as [|e evs IH]; intros log Hs Hne Hb; [by rewrite app_nil_r|].
  apply Forall_cons in Hs as [He Hs]. rewrite cons_middle, app_assoc. apply IH; [done|done|].
  apply agrees_other; [congruence|done].
Qed.

Lemma evaluateAlerts_spec n s now cb alerts : forall log w,
  invL log n w -> (forall a, a ∈ alerts -> ba_ID a < n /\ agrees log a) -> NoDup (ba_ID <$> alerts) ->
  exists log', invL log' n (evaluateAlerts trimSpace s alerts now cb w).2.
Proof.
  induction alerts as [|a alerts IH]; intros log w Hw Hal Hnd; cbn [evaluateAlerts]; [by exists log|].
  apply NoDup_cons in Hnd as [Hna Hnd]. unfold mbind at 1, E_bind at 1, ctxErr.
  pose proof (invL_next _ _ _ Hw) as Hw1. destruct (nextCall trimSpace w) as [ok w1]. cbn [snd] in Hw1. cbn beta iota.
  destruct (negb ok); [by exists log|].
  destruct (negb (ba_Enabled a)); [apply (IH log); [done|by intros; apply Hal; right|done]|].
  unfold mbind at 1, E_bind at 1, try. destruct (Hal a) as [Hid Ha]; [by left|].
  destruct (evaluateBurnAlert_spec log n w1 s a now cb Hw1 Hid Ha) as (evs & Hw2 & Hev).
  destruct (evaluateBurnAlert _ _ _ _ _ _) as [r w2]. cbn [snd] in Hw2. cbn beta iota.
  destruct (IH (log ++ evs) w2) as [log' Hw3]; [done| |done|].
  - intros b Hb. destruct (Hal b) as [Hbid Hba]; [by right|]. split; [done|].
    apply (agrees_others _ _ a); [done| |done]. intros Heq. apply Hna. rewrite <- Heq. by apply list_elem_of_fmap_2.
  - unfold mbind, E_bind. destruct (evaluateAlerts _ _ _ _ _ _) as [[b|e] w3]; by exists log'.
Qed.

Lemma invE_invL w : invE w -> invL (w_events w) (st_nextAlert (w_store w)) w.
Proof. intros H. split_and!; [done|done|lia]. Qed.

Lemma invE_next w : invE w -> invE (nextCall trimSpace w).2.
Proof. intros H. by apply (invL_next _ _ _ (invE_invL _ H)). Qed.

Lemma invE_evaluateListed ti s cb w alerts :
  invE w ->
  (forall l, alerts = inl l -> (forall a, a ∈ l -> a ∈ st_alerts (w_store w)) /\ NoDup (ba_ID <$> l)) ->
  invE (evaluateListed trimSpace decode ParseFloat overflow ti s cb alerts w).2.
Proof.
  intros Hw Hal. unfold evaluateListed. unfold mbind at 1, E_bind at 1, try.
  pose proof (invL_countSLO _ _ ti s cb w (invE_invL _ Hw)) as Hw2.
  destruct (countSLO _ _ _ _ _ _ _ _) as [r w2]. cbn [snd] in Hw2. cbn beta iota.
  destruct r as [?|?]; [|apply Hw2]. destruct alerts as [l|?]; [|apply Hw2].
  destruct (Hal l eq_refl) as [Hin Hnd].
  destruct (evaluateAlerts_spec _ s (ti_now ti) cb l _ w2 Hw2) as [log' Hw3]; [|done|].
  - intros a Ha. destruct Hw as [? Hnext Hrows ? ?]. auto.
  - unfold mbind, E_bind. destruct (evaluateAlerts _ _ _ _ _ _) as [[b|e] w3]; apply Hw3.
Qed.

Lemma invE_evaluateSLO ti s cb : keeps invE (evaluateSLO trimSpace decode ParseFloat overflow ti s cb).
Proof.
  intros w Hw. unfold evaluateSLO. unfold mbind, E_bind, try, dbRead.
  pose proof (invE_next _ Hw) as Hw1. destruct (nextCall trimSpace w) as [ok w1]. cbn [snd] in Hw1.
  destruct ok; cbn beta iota; apply invE_evaluateListed; try done.
  intros l [= <-]. split; [by intros a [_ ?]%list_elem_of_filter|].
  eapply sublist_NoDup; [by destruct Hw1|]. apply fmap_sublist, sublist_filter.
Qed.

Lemma invE_evaluateSLOs ti cb slos : forall keep,
  keeps invE (evaluateSLOs trimSpace decode ParseFloat overflow ti slos cb keep).
Proof.
  induction slos as [|s slos IH]; intros keep; cbn [evaluateSLOs]; [apply keeps_ret|].
  apply keeps_bind; [apply invE_evaluateSLO|]. intros k. apply IH.
Qed.

Lemma invE_store w st' :
  invE w -> st_nextAlert st' = st_nextAlert (w_store w) -> st_alerts st' = st_alerts (w_store w) -> invE (setStore st' w).
Proof. intros Hw Hn Ha. by apply (invL_same _ _ _ _ (invE_invL _ Hw)). Qed.

Lemma invE_Run ti ids : keeps invE (SLO_Run trimSpace decode ParseFloat overflow ti ids).
Proof.
  unfold SLO_Run. apply keeps_bind.
  - generalize true, 0. induction ids as [|id ids IH]; intros complete keep; cbn [evaluateProjects]; [apply keeps_ret|].
    apply keeps_bind; [apply keeps_ctxErr, invE_next|]. intros []; [apply keeps_ret|].
    apply keeps_bind; [apply keeps_try|intros []; apply IH].
    unfold evaluateProject. apply keeps_bind; [apply keeps_dbRead, invE_next|]. intros l. apply invE_evaluateSLOs.
  - intros [[keep []]|]; try apply keeps_ret. case_match; [|apply keeps_ret]. unfold SLO_prune.
    apply keeps_bind; [|intros; apply keeps_ret]. apply keeps_try, keeps_dbWrite; [apply invE_next|].
    intros w Hw. by apply invE_store.
Qed.

Lemma invE_write {A} (f : sloStore -> (A + sloErr) * sloStore) op :
  (forall st, apply_api trimSpace op st = (f st).2) -> keeps invE (dbWrite trimSpace f).
Proof.
  intros Hf. apply keeps_dbWrite; [apply invE_next|]. intros w Hw. rewrite <- Hf.
  apply (invL_apply _ _ _ op (invE_invL _ Hw)).
Qed.

Lemma invE_serve r : keeps invE (serve trimSpace decode encode parseURL parseAddress r).
Proof.
  assert (forall p s a, keeps invE (burnAlertOf trimSpace p s a)) as Hof.
  { intros p s a. unfold burnAlertOf. apply keeps_bind; [apply keeps_dbRead, invE_next|]. intros x.
    case_match; [apply keeps_throw|apply keeps_ret]. }
  assert (forall p id, keeps invE (Service_GetSLO trimSpace p id)) as Hget by (intros; apply keeps_dbRead, invE_next).
  destruct r as [p i|p id i|p id|p s i|p s a i|p s a]; cbn [serve].
  - apply keeps_bind; [|intros; apply keeps_ret]. apply keeps_lift_bind. intros s Hs. by apply (invE_write _ (ACreateSLO s)).
  - apply keeps_lift_bind. intros s Hs. by apply (invE_write _ (AUpdateSLO (withID id s))).
  - by apply (invE_write _ (ADeleteSLO p id)).
  - apply keeps_bind; [|intros; apply keeps_ret]. apply keeps_bind; [apply Hget|]. intros t.
    apply keeps_lift_bind. intros a Ha. by apply (invE_write _ (ACreateAlert p a)).
  - apply keeps_bind; [apply Hof|]. intros x. apply keeps_bind; [apply Hget|]. intros t.
    apply keeps_lift_bind. intros b Hb. by apply (invE_write _ (AUpdateAlert p (withAlertID a b))).
  - apply keeps_bind; [apply Hof|]. intros x. by apply (invE_write _ (ADeleteAlert p a)).
Qed.

Lemma reachable_invE T w :
  reachable trimSpace decode encode ParseFloat overflow parseURL parseAddress T w -> invE w.
Proof.
  induction 1 as [T|T w ti ids calls _ IH HT Hc|T w r calls _ IH Hc].
  - constructor; cbn; [apply NoDup_nil_2|by intros ? ?%elem_of_nil..|apply along_nil].
  - apply invE_Run. by destruct IH.
  - apply invE_serve. by destruct IH.
Qed.

(** C14: Over any run of ticks and requests, with calls failing anywhere, the history of
    every burn alert alternates: it is recorded as firing only when it was not, no sooner
    than its cooldown after it last fired, and, if it has a channel, right after a
    delivered notification over its threshold; it is cleared only when it was firing; a
    notification goes out only when the alert neither fires nor cools down.  The stored
    state of every alert is the one its history gives. *)
Theorem burn_alerts_alternate T w :
  reachable trimSpace decode encode ParseFloat overflow parseURL parseAddress T w ->
  along eventOK (w_events w) /\ forall a, a ∈ st_alerts (w_store w) -> agrees (w_events w) a.
Proof. intros [? ? ? ? ?]%reachable_invE. done. Qed.
End Alerts.
