(* ===== verification/SloValid.v ===== *)
(** * What the service accepts, and what the evaluator makes of it

    Rows that pass validation can be evaluated; a tick without failures brings the series
    of an SLO up to date; and three places where the code does not do what its comments
    say. *)
From S2P Require Import Prelude Float64 CalcParse CalcCompile Filter Slo SloEval SloSeries SloAlerts.

(** ** Invariants of the evaluator *)

Section Closed.
Context (trimSpace : string -> string) (decode : string -> option Node).
Context (ParseFloat : string -> option number) (overflow : float64 -> Z).

(** A property that the writes of other requests, the evaluator's own writes and its
    histories keep. *)
Record closed (I : sloWorld -> Prop) : Prop := {
  cl_next : forall w, I w -> I (nextCall trimSpace w).2;
  cl_state : forall w id firing at_, I w -> I (setStore (UpdateSLOBurnAlertState id firing at_ (w_store w)).2 w);
  cl_insert : forall w counts, I w -> I (setStore (InsertSLOCounts counts (w_store w)).2 w);
  cl_delete : forall w cutoff, I w -> I (setStore (DeleteSLOCountsBefore cutoff (w_store w)) w);
  cl_note : forall w e, I w -> I (note e w);
  cl_counts : forall w l, I w -> I (noteCounts l w);
}.

Context (I : sloWorld -> Prop) (HI : closed I).

Lemma closed_read {A} (f : sloStore -> A + sloErr) : keeps I (dbRead trimSpace f).
Proof. apply keeps_dbRead, (cl_next _ HI). Qed.

Lemma closed_ctxErr : keeps I (ctxErr trimSpace).
Proof. apply keeps_ctxErr, (cl_next _ HI). Qed.

Lemma closed_send e : keeps I (send trimSpace e).
Proof. apply keeps_send; [apply (cl_next _ HI)|]. intros w. apply (cl_note _ HI). Qed.

Lemma closed_recordState a at_ : keeps I (recordState trimSpace a at_).
Proof.
  apply keeps_bind; [apply keeps_dbWrite; [apply (cl_next _ HI)|intros w; apply (cl_state _ HI)]|].
  intros ? w. apply (cl_note _ HI).
Qed.

Lemma closed_countSLO ti s cb : keeps I (countSLO trimSpace decode ParseFloat overflow ti s cb).
Proof.
  unfold countSLO. apply keeps_bind; [apply keeps_lift|]. intros filters.
  apply keeps_bind; [apply closed_read|]. intros latest. cbn zeta.
  apply keeps_bind; [apply keeps_countLoop, (cl_next _ HI)|]. intros [l e].
  apply keeps_bind; [|intros; case_match; auto with keeps]. case_match; [apply keeps_ret|].
  apply keeps_bind; [apply keeps_dbWrite; [apply (cl_next _ HI)|intros w; apply (cl_insert _ HI)]|].
  intros ? w. apply (cl_counts _ HI).
Qed.

Lemma closed_deliver a p : keeps I (deliver trimSpace a p).
Proof.
  unfold deliver.
  apply keeps_bind; [case_match; eauto using closed_send with keeps|]. intros r1.
  apply keeps_bind; [case_match; eauto using closed_send with keeps|]. intros r2.
  case_match; eauto with keeps.
Qed.

Lemma closed_evaluateBurnAlert s a now cb : keeps I (evaluateBurnAlert trimSpace s a now cb).
Proof.
  unfold evaluateBurnAlert, fire. case_match; [apply keeps_throw|].
  apply keeps_bind; [apply closed_read|]. intros gt. cbn zeta.
  repeat (case_match; eauto using closed_recordState with keeps).
  apply keeps_bind; [apply closed_read|]. intros gt'.
  apply keeps_bind; [apply closed_deliver|]. intros. apply closed_recordState.
Qed.

Lemma closed_evaluateAlerts s now cb l : keeps I (evaluateAlerts trimSpace s l now cb).
Proof.
  induction l as [|a l IH]; cbn [evaluateAlerts]; [apply keeps_ret|].
  apply keeps_bind; [apply closed_ctxErr|]. intros []; [apply keeps_ret|].
  case_match; [apply IH|]. apply keeps_bind; [apply keeps_try, closed_evaluateBurnAlert|]. intros r.
  apply keeps_bind; [apply IH|]. intros. apply keeps_ret.
Qed.

Lemma closed_evaluateSLO ti s cb : keeps I (evaluateSLO trimSpace decode ParseFloat overflow ti s cb).
Proof.
  unfold evaluateSLO, evaluateListed. apply keeps_bind; [apply keeps_try, closed_read|]. intros alerts. cbn zeta.
  apply keeps_bind; [apply keeps_try, closed_countSLO|]. intros counted.
  destruct counted, alerts as [l|]; try apply keeps_ret.
  apply keeps_bind; [apply closed_evaluateAlerts|intros; apply keeps_ret].
Qed.

Lemma closed_evaluateSLOs ti cb slos : forall keep,
  keeps I (evaluateSLOs trimSpace decode ParseFloat overflow ti slos cb keep).
Proof.
  induction slos as [|s slos IH]; intros keep; cbn [evaluateSLOs]; [apply keeps_ret|].
  apply keeps_bind; [apply closed_evaluateSLO|]. intros k. apply IH.
Qed.

Lemma closed_evaluateProject ti id cb : keeps I (evaluateProject trimSpace decode ParseFloat overflow ti id cb).
Proof. apply keeps_bind; [apply closed_read|]. intros l. apply closed_evaluateSLOs. Qed.

Lemma closed_evaluateProjects ti cb ids : forall keep complete,
  keeps I (evaluateProjects trimSpace decode ParseFloat overflow ti ids cb keep complete).
Proof.
  induction ids as [|id ids IH]; intros keep complete; cbn [evaluateProjects]; [apply keeps_ret|].
  apply keeps_bind; [apply closed_ctxErr|]. intros []; [apply keeps_ret|].
  apply keeps_bind; [apply keeps_try, closed_evaluateProject|intros []; apply IH].
Qed.

Lemma closed_prune cutoff : keeps I (SLO_prune trimSpace cutoff).
Proof.
  apply keeps_bind; [|intros; apply keeps_ret]. apply keeps_try, keeps_dbWrite; [apply (cl_next _ HI)|].
  intros w. apply (cl_delete _ HI).
Qed.

Lemma closed_Run ti ids : keeps I (SLO_Run trimSpace decode ParseFloat overflow ti ids).
Proof.
  apply keeps_bind; [apply closed_evaluateProjects|]. intros [[keep []]|]; try apply keeps_ret.
  case_match; [apply closed_prune|apply keeps_ret].
Qed.
End Closed.

(** ** Invariants of the tables *)

Section Stores.
Context (trimSpace : string -> string) (decode : string -> option Node) (encode : Node -> option string).
Context (ParseFloat : string -> option number) (overflow : float64 -> Z).
Context (parseURL : string -> option (string * string)) (parseAddress : string -> bool).

Abbreviation callsOK := (callsOK trimSpace decode encode parseURL parseAddress).
Abbreviation apiOK := (apiOK trimSpace decode encode parseURL parseAddress).
Abbreviation reachable := (reachable trimSpace decode encode ParseFloat overflow parseURL parseAddress).

(** A property of the tables that validated requests and the evaluator's writes keep. *)
Record tableInv (S : sloStore -> Prop) : Prop := {
  ti_api : forall st op, S st -> apiOK op -> S (apply_api trimSpace op st);
  ti_state : forall st id firing at_, S st -> S (UpdateSLOBurnAlertState id firing at_ st).2;
  ti_insert : forall st counts, S st -> S (InsertSLOCounts counts st).2;
  ti_delete : forall st cutoff, S st -> S (DeleteSLOCountsBefore cutoff st);
}.

Section Invariant.
Context (S : sloStore -> Prop) (HS : tableInv S).

Definition holds (w : sloWorld) : Prop := S (w_store w) /\ callsOK (w_calls w).

Lemma holds_next w : holds w -> holds (nextCall trimSpace w).2.
Proof.
  intros [Hw Hc]. unfold nextCall. destruct (w_calls w) as [|[ops ok] calls]; [done|].
  apply Forall_cons in Hc as [Hops Hc]. split; [|done]. cbn in *. clear Hc. revert Hops Hw.
  generalize (w_store w). induction ops as [|op ops IH]; intros st Hops Hst; [done|].
  apply Forall_cons in Hops as [Hop Hops]. cbn. apply IH; [done|]. by apply (ti_api _ HS).
Qed.

Lemma holds_closed : closed trimSpace holds.
Proof.
  constructor; [apply holds_next| | | |done|done]; intros w; intros; split; try by destruct select (holds w).
  - by apply (ti_state _ HS); destruct select (holds w).
  - by apply (ti_insert _ HS); destruct select (holds w).
  - by apply (ti_delete _ HS); destruct select (holds w).
Qed.

Lemma holds_api {A} (f : sloStore -> (A + sloErr) * sloStore) op :
  apiOK op -> (forall st, apply_api trimSpace op st = (f st).2) -> keeps holds (dbWrite trimSpace f).
Proof.
  intros Hop Hf. apply keeps_dbWrite; [apply holds_next|]. intros w [Hw Hc]. rewrite <- Hf.
  split; [by apply (ti_api _ HS)|done].
Qed.

Lemma holds_burnAlertOf p s a : keeps holds (burnAlertOf trimSpace p s a).
Proof.
  unfold burnAlertOf. apply keeps_bind; [apply keeps_dbRead, holds_next|]. intros x. case_match; [apply keeps_throw|apply keeps_ret].
Qed.

Lemma holds_serve r : keeps holds (serve trimSpace decode encode parseURL parseAddress r).
Proof.
  destruct r as [p i|p id i|p id|p s i|p s a i|p s a]; cbn [serve].
  - apply keeps_bind; [|intros; apply keeps_ret]. apply keeps_lift_bind. intros s Hs.
    apply (holds_api _ (ACreateSLO s)); [by exists p, i|done].
  - apply keeps_lift_bind. intros s Hs. apply (holds_api _ (AUpdateSLO (withID id s))); [by exists p, id, i, s|done].
  - by apply (holds_api _ (ADeleteSLO p id)).
  - apply keeps_bind; [|intros; apply keeps_ret]. apply keeps_bind; [apply keeps_dbRead, holds_next|]. intros t.
    apply keeps_lift_bind. intros a Ha. apply (holds_api _ (ACreateAlert p a)); [by exists t, i|done].
  - apply keeps_bind; [apply holds_burnAlertOf|]. intros x. apply keeps_bind; [apply keeps_dbRead, holds_next|]. intros t.
    apply keeps_lift_bind. intros b Hb.
    apply (holds_api _ (AUpdateAlert p (withAlertID a b))); [by exists t, a, i, b|done].
  - apply keeps_bind; [apply holds_burnAlertOf|]. intros x. by apply (holds_api _ (ADeleteAlert p a)).
Qed.

(** The property holds in every reachable world when it holds of empty tables. *)
Lemma reachable_holds T w : S (w_store emptyWorld) -> reachable T w -> S (w_store w).
Proof.
  intros H0 Hr. assert (holds w) as [? _]; [|done]. induction Hr as [T|T w ti ids calls _ IH HT Hc|T w r calls _ IH Hc].
  - split; [done|apply Forall_nil_2].
  - apply closed_Run; [apply holds_closed|]. split; [apply IH|done].
  - apply holds_serve. split; [apply IH|done].
Qed.
End Invariant.
End Stores.

(** ** Valid rows *)

Section Valid.
Context (trimSpace : string -> string) (decode : string -> option Node) (encode : Node -> option string).
Context (ParseFloat : string -> option number) (overflow : float64 -> Z).
Context (parseURL : string -> option (string * string)) (parseAddress : string -> bool).

(** What [encoding/json] and [strings.TrimSpace] promise: what is encoded decodes to the
    same filter and is neither empty nor [null], and the empty object is the empty group. *)
Record jsonLaws : Prop := {
  jl_round : forall e out, encode e = Some out -> decode (trimSpace out) = Some e;
  jl_text : forall e out, encode e = Some out -> isOneOf (trimSpace out) [""; "null"]%string = false;
  jl_trim : trimSpace "{}" = "{}"%string;
  jl_empty : decode "{}" = Some (mkNode "" "" "" [] "" []);
}.

Hypothesis HJ : jsonLaws.

(** A row the evaluator can work with. *)
Definition validRow (s : SLO) : Prop :=
  (toFloat 0 <? slo_Target s)%f64 = true /\ (slo_Target s <? toFloat 1)%f64 = true /\ 1 <= slo_WindowDays s <= 90 /\
  exists f, parseSLOFilters trimSpace decode s = inl f.

Definition validAlert (a : SLOBurnAlert) : Prop :=
  0 < ba_WindowMinutes a /\ (toFloat 0 <? ba_BurnRate a)%f64 = true /\ 0 < ba_CooldownMinutes a.

(** The tables: valid rows, and alerts of live SLOs. *)
Record validTables (st : sloStore) : Prop := {
  vt_slos : forall s, s ∈ st_slos st -> validRow s;
  vt_alerts : forall a, a ∈ st_alerts st -> validAlert a /\ live (ba_SLOID a) st;
}.

(** A normalized filter parses to what the input parses to. *)
Lemma normalizeFilter_parses raw out :
  normalizeFilter trimSpace decode encode raw = inl out ->
  jsonOrEmpty trimSpace out = out /\ Filter_Parse trimSpace decode out = Filter_Parse trimSpace decode raw.
Proof.
  destruct HJ as [Hrt Htext Htrim Hempty]. unfold normalizeFilter. destruct (Filter_Parse _ _ raw) as [[e|]|err] eqn:Ep; [| |done].
  - destruct (encode e) as [o|] eqn:Ee; [|done]. intros [= <-].
    pose proof (Htext e o Ee) as Ht. unfold isOneOf in Ht. apply bool_decide_eq_false in Ht. split.
    + unfold jsonOrEmpty. rewrite bool_decide_false; [done|]. intros H. apply Ht. rewrite H. left.
    + assert (Validate (Some e) = None /\ nd_Filters e <> []) as [Hv Hf].
      { revert Ep. unfold Filter_Parse. repeat case_match; intros; simplify_eq. split; [done|].
        by match goal with H : bool_decide _ = false |- _ => apply bool_decide_eq_false in H end. }
      unfold Filter_Parse. rewrite (Htext e o Ee), (Hrt e o Ee), Hv, bool_decide_false by done. done.
  - intros [= <-]. split; [unfold jsonOrEmpty; by rewrite Htrim|]. unfold Filter_Parse. by rewrite Htrim, Hempty.
Qed.

Lemma Filter_Parse_ok raw out :
  normalizeFilter trimSpace decode encode raw = inl out -> exists f, Filter_Parse trimSpace decode out = inl f.
Proof.
  intros H. destruct (normalizeFilter_parses raw out H) as [_ ->]. unfold normalizeFilter in H.
  destruct (Filter_Parse _ _ raw) as [f|]; [by exists f|done].
Qed.

Lemma validateSLO_row p i s id :
  validateSLO trimSpace decode encode p i = inl s ->
  validRow (mkSLO id (slo_ProjectID s) (slo_Name s) (jsonOrEmpty trimSpace (slo_GoodFilter s))
              (jsonOrEmpty trimSpace (slo_TotalFilter s)) (slo_Target s) (slo_WindowDays s)).
Proof.
  intros H. pose proof (validateSLO_days trimSpace decode encode p i s H) as Hd.
  unfold validateSLO in H. repeat case_match; simplify_eq. cbn in *.
  match goal with H1 : normalizeFilter _ _ _ (in_GoodFilter i) = inl ?g, H2 : normalizeFilter _ _ _ (in_TotalFilter i) = inl ?t |- _ =>
    destruct (normalizeFilter_parses _ _ H1) as [-> _], (normalizeFilter_parses _ _ H2) as [-> _];
    destruct (Filter_Parse_ok _ _ H1) as [fg Hg], (Filter_Parse_ok _ _ H2) as [ft Ht] end.
  match goal with H : negb (_ && _) = false |- _ => apply negb_false_iff, andb_prop in H as [? ?] end.
  split_and!; cbn; try done; try lia. unfold parseSLOFilters. cbn. rewrite Hg, Ht. by eexists.
Qed.

Lemma validateBurnAlert_valid s i a :
  validateBurnAlert trimSpace parseURL parseAddress s i = inl a -> validAlert a.
Proof.
  unfold validateBurnAlert. intros H. repeat case_match; simplify_eq; unfold validAlert; cbn.
  all: match goal with H : negb (_ <? _)%f64 = false |- _ => apply negb_false_iff in H end.
  all: split_and!; try done; unfold DefaultBurnCooldownMinutes; lia.
Qed.

Lemma validTables_alerts st alerts next :
  validTables st -> (forall a, a ∈ alerts -> validAlert a /\ live (ba_SLOID a) st) ->
  validTables (mkStore (st_slos st) alerts (st_counts st) (st_nextSLO st) next).
Proof. intros [Hs Ha] Hal. by constructor. Qed.

Lemma validTables_inv : tableInv trimSpace decode encode parseURL parseAddress validTables.
Proof.
  constructor.
  - intros st op Hst Hop. pose proof Hst as [Hs Ha]. destruct op as [s|s|p id|p a|p a|p id]; cbn [apply_api].
    + destruct Hop as (p & i & Hv). unfold CreateSLO. repeat case_match; cbn [snd]; try done. constructor; cbn.
      * intros t [Ht|Ht%list_elem_of_singleton]%elem_of_app; [by apply Hs|subst t; by eapply validateSLO_row].
      * intros t Ht. destruct (Ha t Ht) as [? Hl]. split; [done|]. unfold live in *. cbn. rewrite fmap_app. apply elem_of_app. by left.
    + destruct Hop as (p & id & i & s' & Hv & ->). unfold UpdateSLO. repeat case_match; cbn [snd]; try done.
      constructor; cbn [st_slos st_alerts].
      * intros t (t0 & -> & Ht)%list_elem_of_fmap. case_match; [exact (validateSLO_row _ _ _ id Hv)|by apply Hs].
      * intros t Ht. destruct (Ha t Ht) as [? Hl]. split; [done|]. unfold live in *. cbn [st_slos]. by rewrite UpdateSLO_ids.
    + unfold DeleteSLO. case_match; cbn [snd]; [|done]. constructor; cbn.
      * intros t [_ Ht]%list_elem_of_filter. by apply Hs.
      * intros t [Hne Ht]%list_elem_of_filter. destruct (Ha t Ht) as [? Hl]. split; [done|]. unfold live in *. cbn.
        apply list_elem_of_fmap in Hl as (x & Hx & Hin). apply list_elem_of_fmap. exists x. split; [done|].
        apply list_elem_of_filter. split; [congruence|done].
    + destruct Hop as (s & i & Hv). unfold CreateSLOBurnAlert. case_match eqn:Eg; cbn [snd]; [|done].
      apply validTables_alerts; [done|]. intros t [Ht|Ht%list_elem_of_singleton]%elem_of_app; [by apply Ha|subst t].
      split; [exact (validateBurnAlert_valid _ _ _ Hv)|by eapply GetSLO_live].
    + destruct Hop as (s & id & i & a' & Hv & ->). unfold UpdateSLOBurnAlert. case_match; cbn [snd]; [|done].
      apply validTables_alerts; [done|]. intros t (t0 & -> & Ht)%list_elem_of_fmap. destruct (Ha t0 Ht) as [? ?].
      case_match; [|done]. split; [exact (validateBurnAlert_valid _ _ _ Hv)|done].
    + unfold DeleteSLOBurnAlert. case_match; cbn [snd]; [|done].
      apply validTables_alerts; [done|]. intros t [_ Ht]%list_elem_of_filter. by apply Ha.
  - intros st id firing at_ Hst. pose proof Hst as [Hs Ha]. unfold UpdateSLOBurnAlertState. case_match; cbn [snd]; [|done].
    apply validTables_alerts; [done|]. intros t (t0 & -> & Ht)%list_elem_of_fmap. destruct (Ha t0 Ht). by case_match.
  - intros st counts [Hs Ha]. unfold InsertSLOCounts. by case_match.
  - intros st cutoff [Hs Ha]. by constructor.
Qed.

(** C16: In every reachable world the rows can be evaluated: every SLO has a target strictly
    between 0 and 1, a window of 1 to 90 days and two filters that parse, so counting never
    fails on a stored filter's text, and every burn alert belongs to a live SLO and has a
    window, a burn rate and a cooldown above 0, so no evaluation refuses its window.  This
    asks of JSON only that encoding and decoding are inverse. *)
Theorem stored_rows_valid T w :
  reachable trimSpace decode encode ParseFloat overflow parseURL parseAddress T w ->
  (forall s, s ∈ st_slos (w_store w) -> validRow s) /\
  (forall a, a ∈ st_alerts (w_store w) -> validAlert a /\ live (ba_SLOID a) (w_store w)).
Proof.
  intros Hr. destruct (reachable_holds trimSpace decode encode ParseFloat overflow parseURL parseAddress
                         validTables validTables_inv T w) as [Hs Ha]; try done.
  constructor; cbn; by intros ? ?%elem_of_nil.
Qed.
End Valid.

(** ** A healthy tick catches up *)

(** Every minute of the hour before [cb] has been counted. *)
Definition caught (id cb : Z) (log : list counted) : Prop :=
  forall b, b mod sloBucket = 0 -> cb - sloMaxCatchUp * sloBucket <= b < cb ->
    exists e, e ∈ log /\ ofSLO id e /\ bucketOf e = b.

(** The series has no hole in the hour before [cb]. *)
Lemma series_dense id cb log : forall p b,
  series log -> (forall e, e ∈ log -> e.1 <= cb /\ bucketOf e mod sloBucket = 0) ->
  newest id log = Some p -> b mod sloBucket = 0 -> cb - sloMaxCatchUp * sloBucket <= b <= bucketOf p ->
  exists e, e ∈ log /\ ofSLO id e /\ bucketOf e = b.
Proof.
  induction log as [|x log IH] using rev_ind; intros p b Hs He Hn Hb Hr; [done|].
  apply along_snoc in Hs as [Hs Hx]. rewrite newest_snoc in Hn.
  assert (forall e, e ∈ log -> e.1 <= cb /\ bucketOf e mod sloBucket = 0) as He' by (intros; apply He, elem_of_app; by left).
  destruct (He x) as [Hcx Hax]; [apply elem_of_app; right; apply list_elem_of_here|].
  assert (forall p', newest id log = Some p' -> b <= bucketOf p' -> exists e, e ∈ log ++ [x] /\ ofSLO id e /\ bucketOf e = b) as Hold.
  { intros p' Hp' Hle. destruct (IH p' b Hs He' Hp' Hb) as (e & Hin & Hid & Heq); [lia|].
    exists e. split_and!; [apply elem_of_app; by left|done|done]. }
  case_decide as Hid; [|apply (Hold p); [done|lia]]. simplify_eq.
  destruct (decide (b = bucketOf p)) as [->|Hne].
  { exists p. split_and!; [apply elem_of_app; right; apply list_elem_of_here|done|done]. }
  assert (b < bucketOf p) as Hlt by lia. unfold ofSLO in Hid. rewrite Hid in Hx.
  pose proof (aligned_lt b (bucketOf p) Hb Hax Hlt) as Hal. destruct (newest id log) as [p'|] eqn:Hp'; cbn in Hx.
  - apply (Hold p'); [done|]. destruct Hx as [_ [Hx|[Hx _]]]; lia.
  - lia.
Qed.

Section Healthy.
Context (trimSpace : string -> string) (decode : string -> option Node) (encode : Node -> option string).
Context (ParseFloat : string -> option number) (overflow : float64 -> Z).
Context (parseURL : string -> option (string * string)) (parseAddress : string -> bool).

Lemma next_quiet w : w_calls w = [] -> nextCall trimSpace w = (true, w).
Proof. destruct w. cbn. by intros ->. Qed.

(** No call fails and nobody else writes; the SLOs and what was counted so far stay. *)
Record quiet (slos : list SLO) (Q : list counted -> Prop) (w : sloWorld) : Prop := {
  qt_calls : w_calls w = [];
  qt_slos : st_slos (w_store w) = slos;
  qt_log : Q (w_counted w);
}.

Lemma quiet_closed slos Q : (forall log l, Q log -> Q (log ++ l)) -> closed trimSpace (quiet slos Q).
Proof.
  intros HQ. constructor; intros w; intros.
  - rewrite next_quiet; [done|by destruct select (quiet slos Q w)].
  - destruct select (quiet slos Q w). unfold UpdateSLOBurnAlertState. case_match; by constructor.
  - destruct select (quiet slos Q w). unfold InsertSLOCounts. case_match; by constructor.
  - by destruct select (quiet slos Q w).
  - by destruct select (quiet slos Q w).
  - destruct select (quiet slos Q w). constructor; cbn; auto.
Qed.

Lemma caught_app id cb log l : caught id cb log -> caught id cb (log ++ l).
Proof.
  intros H b Hb Hr. destruct (H b Hb Hr) as (e & Hin & ?). exists e. split; [apply elem_of_app; by left|done].
Qed.

(** The filters of the SLO compile. *)
Definition countable (s : SLO) (f : option Node * option Node) : Prop :=
  parseSLOFilters trimSpace decode s = inl f /\
  forall b, (exists g, CountSpans_where ParseFloat (bucketFilter s b f.1) = inl g) /\
            (exists t, CountSpans_where ParseFloat (bucketFilter s b f.2) = inl t).

Lemma CountSpans_healthy answer f w g :
  w_calls w = [] -> CountSpans_where ParseFloat f = inl g ->
  CountSpans trimSpace ParseFloat answer f w = (inl (answer g), w).
Proof. intros Hw Hg. unfold CountSpans, dbRead. by rewrite Hg, next_quiet by done. Qed.

Lemma countBucket_healthy ti s f b rate w :
  w_calls w = [] -> countable s f ->
  exists k, countBucket trimSpace ParseFloat overflow ti s f b rate w = (inl k, w).
Proof.
  intros Hw [_ Hc]. destruct (Hc b) as [[g Eg] [t Et]]. unfold countBucket.
  rewrite (bind_eq _ _ _ _ _ (CountSpans_healthy _ _ _ _ Hw Eg)), (bind_eq _ _ _ _ _ (CountSpans_healthy _ _ _ _ Hw Et)).
  by eexists.
Qed.

Lemma countLoop_healthy ti s f cb rate fuel : forall b w,
  w_calls w = [] -> countable s f ->
  exists l, countLoop trimSpace ParseFloat overflow fuel ti s f b cb rate w = (inl (l, None), w).
Proof.
  induction fuel as [|fuel IH]; intros b w Hw Hc; cbn [countLoop]; [by exists []|].
  case_match; [|by exists []].
  assert (ctxErr trimSpace w = (inl false, w)) as Hctx by (unfold ctxErr; by rewrite next_quiet).
  rewrite (bind_eq _ _ _ _ _ Hctx). destruct (countBucket_healthy ti s f b rate w Hw Hc) as [k Ek].
  assert (try (countBucket trimSpace ParseFloat overflow ti s f b rate) w = (inl (inl k), w)) as Ht by (unfold try; by rewrite Ek).
  rewrite (bind_eq _ _ _ _ _ Ht). destruct (IH (b + sloBucket) w Hw Hc) as [l El]. rewrite (bind_eq _ _ _ _ _ El). by eexists.
Qed.

Lemma consecutive_last id cb l : forall b,
  consecutive id b cb l -> l <> [] ->
  exists k, k ∈ l /\ sc_SLOID k = id /\ sc_BucketStart k = b + (Z.of_nat (length l) - 1) * sloBucket.
Proof.
  induction l as [|k l IH]; intros b Hcon Hne; [done|]. destruct Hcon as (Hid & Hb & _ & _ & Hc).
  destruct l as [|k' l]; [exists k; split_and!; [left|done|cbn; lia]|].
  destruct (IH _ Hc) as (x & Hx & Hxid & Hxb); [done|]. exists x. split_and!; [by right|done|].
  rewrite Hxb. cbn [length]. lia.
Qed.

(** A healthy count of a live SLO brings its series up to date. *)
Lemma countSLO_caught P ti s f w slos Q :
  invS trimSpace decode encode parseURL parseAddress P (ti_now ti) w -> quiet slos Q w -> s ∈ slos -> countable s f ->
  caught (slo_ID s) (sloCloseBefore (ti_now ti))
    (w_counted (countSLO trimSpace decode ParseFloat overflow ti s (sloCloseBefore (ti_now ti)) w).2).
Proof.
  intros Hw [Hq Hsl _] Hs Hc. set (cb := sloCloseBefore (ti_now ti)).
  assert (live (slo_ID s) (w_store w)) as Hl by (unfold live; rewrite Hsl; by apply list_elem_of_fmap_2).
  destruct (start_goesOn _ _ _ _ _ P (ti_now ti) w (slo_ID s) Hw Hl) as (Hgo & HP & Hal & Hfar & Hlt). fold cb in Hgo, Hal, Hfar, Hlt.
  pose proof (keeps_countSLO trimSpace decode encode ParseFloat overflow parseURL parseAddress P (st_nextSLO (w_store w)) ti s) as Hk.
  specialize (Hk ltac:(apply (so_next _ (is_store _ _ _ _ _ _ _ _ Hw)); by rewrite Hsl) w ltac:(split; [done|lia])) as [Hw' _].
  fold cb in Hw'. set (start := sloCountStart _ cb) in *. set (rate := sampleRateFor (ti_ratio ti) (slo_ProjectID s)).
  set (fuel := Z.to_nat sloMaxCatchUp).
  destruct (countLoop_spec trimSpace ParseFloat overflow ti s f cb rate fuel start w) as (l & e & El & Hcon & Hlen).
  destruct (countLoop_healthy ti s f cb rate fuel start w Hq Hc) as [l' Ew]. rewrite Ew in El. injection El as <- <-.
  specialize (Hlen eq_refl ltac:(subst fuel; rewrite Z2Nat.id by (unfold sloMaxCatchUp; lia); lia)).
  assert (countSLO trimSpace decode ParseFloat overflow ti s cb w =
    ((if bool_decide (l' = []) then mret tt else insertCounts trimSpace cb l') ≫= (fun _ => mret tt)) w) as Heq.
  { unfold countSLO. rewrite (proj1 Hc), (bind_eq (lift (inl f)) _ w f w eq_refl).
    assert (dbRead trimSpace (fun st => inl (LatestSLOBucket (slo_ID s) st)) w = (inl (LatestSLOBucket (slo_ID s) (w_store w)), w))
      as Hrd by (unfold dbRead; by rewrite next_quiet).
    rewrite (bind_eq _ _ _ _ _ Hrd). cbn zeta. fold rate fuel start. by rewrite (bind_eq _ _ _ _ _ Ew). }
  rewrite Heq in Hw' |- *. clear Heq. revert Hw'.
  assert (forall w' log', invS trimSpace decode encode parseURL parseAddress P (ti_now ti) w' -> w_counted w' = log' ->
            (exists e, e ∈ log' /\ ofSLO (slo_ID s) e /\ cb - sloBucket <= bucketOf e) -> caught (slo_ID s) cb log') as Hdense.
  { intros w' log' Hw' <- (e & Hin & Hid & Hge) b Hb Hr. pose proof Hw' as [_ _ Hser Hent _ _].
    destruct (series_newest _ _ e Hser Hin Hid) as (p & Hn & Hpin & Hpid & Hple).
    apply (series_dense (slo_ID s) cb (w_counted w') p b); [done| |done|done|].
    - intros x Hx. destruct (Hent x Hx) as (? & _ & _ & ? & _). done.
    - destruct (sloCloseBefore_bounds (ti_now ti)) as [_ Hcb]. fold cb in Hcb.
      assert (b + sloBucket <= cb) by (apply aligned_lt; [done|done|lia]). lia. }
  case_bool_decide as Hnil.
  - intros _. change (caught (slo_ID s) cb (w_counted w)). apply (Hdense w); [done|done|]. subst l'. cbn in Hlen.
    destruct (newest (slo_ID s) (w_counted w)) as [p|] eqn:Hp; cbn in Hgo.
    + exists p. unfold newest in Hp. apply last_Some_elem_of, list_elem_of_filter in Hp as [? ?]. split_and!; [done|done|].
      rewrite sloBucket_val in *. unfold sloMaxCatchUp in *. lia.
    + rewrite sloBucket_val in *. unfold sloMaxCatchUp in *. lia.
  - unfold insertCounts, dbWrite, noted, mbind, E_bind. rewrite next_quiet by done. cbn beta iota.
    unfold InsertSLOCounts. rewrite (proj2 (forallb_forall _ _)).
    + cbn. intros Hw'. apply (Hdense _ _ Hw'); [done|]. destruct (consecutive_last _ _ _ _ Hcon Hnil) as (k & Hk & Hkid & Hkb).
      exists (cb, k). split_and!; [apply elem_of_app; right; by apply list_elem_of_fmap_2|done|].
      unfold bucketOf. cbn. rewrite Hkb. lia.
    + intros k Hk%list_elem_of_In. destruct (consecutive_elem _ _ _ _ _ Hcon Hk) as (Hid & _).
      apply existsb_exists. exists s. split; [apply list_elem_of_In; by rewrite Hsl|]. rewrite Hid. apply Z.eqb_refl.
Qed.

Abbreviation invS := (invS trimSpace decode encode parseURL parseAddress).
Abbreviation evaluateSLO := (evaluateSLO trimSpace decode ParseFloat overflow).
Abbreviation evaluateSLOs := (evaluateSLOs trimSpace decode ParseFloat overflow).
Abbreviation evaluateProject := (evaluateProject trimSpace decode ParseFloat overflow).
Abbreviation evaluateProjects := (evaluateProjects trimSpace decode ParseFloat overflow).

(** The tables of a healthy tick at [now]. *)
Definition steady (P now : Z) (slos : list SLO) (w : sloWorld) : Prop :=
  invS P now w /\ quiet slos (fun _ => True) w.

Lemma steady_evaluateSLO P ti slos s w :
  steady P (ti_now ti) slos w -> s ∈ slos -> steady P (ti_now ti) slos (evaluateSLO ti s (sloCloseBefore (ti_now ti)) w).2.
Proof.
  intros [Hw Hq] Hs. split; [|by apply closed_evaluateSLO; [apply quiet_closed|]].
  apply (invN_evaluateSLO trimSpace decode encode ParseFloat overflow parseURL parseAddress P (st_nextSLO (w_store w)) ti s).
  - apply (so_next _ (is_store _ _ _ _ _ _ _ _ Hw)). by rewrite (qt_slos _ _ _ Hq).
  - split; [done|lia].
Qed.

Lemma evaluateSLO_caught P ti slos s f w :
  steady P (ti_now ti) slos w -> s ∈ slos -> countable s f ->
  quiet slos (caught (slo_ID s) (sloCloseBefore (ti_now ti))) (evaluateSLO ti s (sloCloseBefore (ti_now ti)) w).2.
Proof.
  intros [Hw Hq] Hs Hc. set (cb := sloCloseBefore (ti_now ti)).
  pose proof (quiet_closed slos (caught (slo_ID s) cb) (fun log l => caught_app (slo_ID s) cb log l)) as Hcl.
  unfold SloEval.evaluateSLO. pose proof (qt_calls _ _ _ Hq) as Hcalls.
  assert (try (dbRead trimSpace (fun st => inl (ListSLOBurnAlerts (slo_ProjectID s) (slo_ID s) st))) w =
            (inl (inl (ListSLOBurnAlerts (slo_ProjectID s) (slo_ID s) (w_store w))), w)) as Hrd
    by (unfold try, dbRead; by rewrite next_quiet).
  rewrite (bind_eq _ _ _ _ _ Hrd). unfold evaluateListed, mbind at 1, E_bind at 1, try.
  pose proof (countSLO_caught P ti s f w slos _ Hw Hq Hs Hc) as Hca.
  pose proof (closed_countSLO trimSpace decode ParseFloat overflow _ (quiet_closed slos (fun _ => True) (fun _ _ H => H)) ti s cb w Hq) as Hq1.
  fold cb in Hca. destruct (countSLO _ _ _ _ _ _ _ _) as [r w1]. cbn [snd] in *. cbn beta iota.
  assert (quiet slos (caught (slo_ID s) cb) w1) as Hw1 by (destruct Hq1; by constructor).
  destruct r; [|done]. revert w1 Hw1 Hca Hq1. intros w1 Hw1 _ _.
  apply (keeps_bind (quiet slos (caught (slo_ID s) cb))); [by apply closed_evaluateAlerts|intros; apply keeps_ret|done].
Qed.

Lemma evaluateSLOs_caught P ti slos s f l : forall keep w,
  steady P (ti_now ti) slos w -> (forall x, x ∈ l -> x ∈ slos) -> s ∈ l -> countable s f ->
  quiet slos (caught (slo_ID s) (sloCloseBefore (ti_now ti)))
    (evaluateSLOs ti l (sloCloseBefore (ti_now ti)) keep w).2.
Proof.
  set (cb := sloCloseBefore (ti_now ti)).
  induction l as [|x l IH]; intros keep w Hw Hl Hs Hc; [by apply elem_of_nil in Hs|]. cbn [SloEval.evaluateSLOs].
  unfold mbind, E_bind. assert (x ∈ slos) as Hx by (apply Hl; left).
  apply elem_of_cons in Hs as [->|Hs].
  - pose proof (evaluateSLO_caught P ti slos x f w Hw Hx Hc) as H. fold cb in H.
    destruct (evaluateSLO ti x cb w) as [[k|e] w1]; cbn [snd] in H; [|done].
    apply closed_evaluateSLOs; [apply quiet_closed; intros; by apply caught_app|done].
  - pose proof (steady_evaluateSLO P ti slos x w Hw Hx) as Hw1. fold cb in Hw1.
    destruct (evaluateSLO_keep trimSpace decode ParseFloat overflow ti x cb w) as (k & Ek & _).
    { apply (so_days _ (is_store _ _ _ _ _ _ _ _ (proj1 Hw))). by rewrite (qt_slos _ _ _ (proj2 Hw)). }
    destruct (evaluateSLO ti x cb w) as [r w1]. cbn in Ek, Hw1. subst r. apply IH; auto. intros y Hy. apply Hl. by right.
Qed.

Lemma steady_evaluateSLOs P ti slos l : forall keep w,
  steady P (ti_now ti) slos w -> (forall x, x ∈ l -> x ∈ slos) ->
  steady P (ti_now ti) slos (evaluateSLOs ti l (sloCloseBefore (ti_now ti)) keep w).2.
Proof.
  induction l as [|x l IH]; intros keep w Hw Hl; [done|]. cbn [SloEval.evaluateSLOs]. unfold mbind, E_bind.
  pose proof (steady_evaluateSLO P ti slos x w Hw ltac:(apply Hl; left)) as Hw1.
  destruct (evaluateSLO ti x _ w) as [[k|e] w1]; [|done]. apply IH; [done|]. intros y Hy. apply Hl. by right.
Qed.

Lemma ListSLOs_elem p st s : s ∈ ListSLOs p st <-> slo_ProjectID s = p /\ s ∈ st_slos st.
Proof. unfold ListSLOs. by rewrite list_elem_of_filter. Qed.

Lemma evaluateProjects_caught P ti slos s f ids : forall keep complete w,
  steady P (ti_now ti) slos w -> s ∈ slos -> slo_ProjectID s ∈ ids -> countable s f ->
  quiet slos (caught (slo_ID s) (sloCloseBefore (ti_now ti)))
    (evaluateProjects ti ids (sloCloseBefore (ti_now ti)) keep complete w).2.
Proof.
  set (cb := sloCloseBefore (ti_now ti)).
  pose proof (quiet_closed slos (caught (slo_ID s) cb) (fun log l => caught_app (slo_ID s) cb log l)) as Hcl.
  induction ids as [|id ids IH]; intros keep complete w Hw Hs Hin Hc; [by apply elem_of_nil in Hin|].
  cbn [SloEval.evaluateProjects]. pose proof (qt_calls _ _ _ (proj2 Hw)) as Hcalls.
  assert (ctxErr trimSpace w = (inl false, w)) as Hctx by (unfold ctxErr; by rewrite next_quiet).
  rewrite (bind_eq _ _ _ _ _ Hctx). unfold mbind, E_bind, try.
  assert (evaluateProject ti id cb w = evaluateSLOs ti (ListSLOs id (w_store w)) cb 0 w) as ->.
  { unfold SloEval.evaluateProject. apply (bind_eq _ (fun slos => evaluateSLOs ti slos cb 0) w (ListSLOs id (w_store w)) w). unfold dbRead. by rewrite next_quiet. }
  assert (forall x, x ∈ ListSLOs id (w_store w) -> x ∈ slos) as Hl
    by (intros x [_ Hx]%ListSLOs_elem; by rewrite (qt_slos _ _ _ (proj2 Hw)) in Hx).
  destruct (decide (slo_ProjectID s = id)) as [Hid|Hid].
  - pose proof (evaluateSLOs_caught P ti slos s f (ListSLOs id (w_store w)) 0 w Hw Hl) as H. fold cb in H.
    specialize (H ltac:(apply ListSLOs_elem; by rewrite (qt_slos _ _ _ (proj2 Hw))) Hc).
    destruct (evaluateSLOs ti _ cb 0 w) as [[k|e] w1]; cbn [snd] in H; cbn beta iota; by apply closed_evaluateProjects.
  - pose proof (steady_evaluateSLOs P ti slos (ListSLOs id (w_store w)) 0 w Hw Hl) as Hw1. fold cb in Hw1.
    apply elem_of_cons in Hin as [Hin|Hin]; [done|].
    destruct (evaluateSLOs ti _ cb 0 w) as [[k|e] w1]; cbn [snd] in Hw1; cbn beta iota; by apply IH.
Qed.

(** C15: A tick without failures brings every countable SLO of its projects up to date: after
    it the table holds a count for every whole minute of the hour before the ingest lag,
    whatever earlier ticks failed at. *)
Theorem tick_catches_up T w ti ids s f b :
  reachable trimSpace decode encode ParseFloat overflow parseURL parseAddress T w -> T <= ti_now ti ->
  s ∈ st_slos (w_store w) -> slo_ProjectID s ∈ ids -> countable s f ->
  b mod sloBucket = 0 -> sloCloseBefore (ti_now ti) - sloMaxCatchUp * sloBucket <= b < sloCloseBefore (ti_now ti) ->
  is_Some (st_counts (w_store (SLO_Run trimSpace decode ParseFloat overflow ti ids (withCalls [] w)).2) !! (slo_ID s, b)).
Proof.
  intros Hr HT Hs Hp Hc Hb Hrange. set (cb := sloCloseBefore (ti_now ti)) in *. set (slos := st_slos (w_store w)).
  set (w' := (SLO_Run _ _ _ _ _ _ _).2).
  assert (quiet slos (caught (slo_ID s) cb) w') as Hq.
  { destruct (reachable_invS _ _ _ _ _ _ _ T w Hr) as [P HP].
    assert (steady P (ti_now ti) slos (withCalls [] w)) as Hw0.
    { split; [|by constructor]. apply invS_calls; [by apply (invS_later _ _ _ _ _ P T)|apply Forall_nil_2]. }
    pose proof (evaluateProjects_caught P ti slos s f ids 0 true _ Hw0 Hs Hp Hc) as H. fold cb in H.
    pose proof (quiet_closed slos (caught (slo_ID s) cb) (fun log l => caught_app (slo_ID s) cb log l)) as Hcl.
    subst w'. unfold SLO_Run, mbind, E_bind. fold cb.
    destruct (evaluateProjects ti ids cb 0 true _) as [[r|e] w1]; cbn [snd] in H; [|done].
    destruct r as [[keep []]|]; try done. case_match; [by apply closed_prune|done]. }
  assert (reachable trimSpace decode encode ParseFloat overflow parseURL parseAddress (ti_now ti) w') as Hr'
    by (apply (reach_tick _ _ _ _ _ _ _ T); [done|done|apply Forall_nil_2]).
  destruct (reachable_invS _ _ _ _ _ _ _ _ _ Hr') as [P' [_ Hcnt _ _ HP' _]].
  destruct Hq as [_ Hsl Hca]. destruct (Hca b Hb Hrange) as ([c k] & Hin & Hid & Hbk).
  unfold bucketOf, ofSLO in *. cbn in *. exists (sc_Good k, sc_Total k). apply Hcnt. split_and!.
  - unfold live. rewrite Hsl. by apply list_elem_of_fmap_2.
  - destruct (sloCloseBefore_bounds (ti_now ti)) as [Hcb _]. fold cb in Hcb. revert HP' Hrange Hcb.
    unfold day, hour, minute, second, sloMaxCatchUp. rewrite sloBucket_val. lia.
  - exists c. subst b. rewrite <- Hid. by destruct k.
Qed.
End Healthy.

(** ** An example *)

(** The parameters of the example: text without blanks, the JSON of two filters, decimal
    numbers that no value is. *)
Module Demo.
Definition empty : Node := mkNode "" "" "" [] "" [].

Definition slow : Node := mkNode "" "" "" [] "and" [cond "duration_us" OpGt "abc"].

Definition trim (s : string) : string := s.

Definition decode (s : string) : option Node :=
  if bool_decide (s = "{}"%string) then Some empty
  else if bool_decide (s = "slow"%string) then Some slow else None.

Definition encode (n : Node) : option string :=
  match n with
  | mkNode k o v [] m [mkNode k' o' v' [] m' []] =>
      if bool_decide ([k; o; v; m; k'; o'; v'; m'] = [""; ""; ""; "and"; "duration_us"; ">"; "abc"; ""]%string)
      then Some "slow"%string else None
  | _ => None
  end.

Definition parseFloat (s : string) : option number := None.

Definition overflow (x : float64) : Z := - 2 ^ 63.

Definition parseURL (s : string) : option (string * string) := Some ("https", s)%string.

Definition parseAddress (s : string) : bool := true.

(** Noon of a day. *)
Definition noon : Z := 1700000000 / 86400 * 86400 * second + 12 * hour.

Definition slo : SLOInput := mkSLOInput "checkout" "" "" (literal 99 100) 1.

Definition alert : BurnAlertInput := mkBurnAlertInput 60 (toFloat 2) "hook" "" 0 None.

(** Ten spans a minute, none of them good. *)
Definition bad : tickInput :=
  mkTick noon None (fun good _ => if good then mkSpanCount 0 0 (mkWeights 0 0) else mkSpanCount 10 10 (mkWeights 10 10)).

Definition serve_ (r : sloRequest) (w : sloWorld) : sloWorld :=
  (serve trim decode encode parseURL parseAddress r w).2.

Definition tick (ti : tickInput) (w : sloWorld) : sloWorld := (SLO_Run trim decode parseFloat overflow ti [1] w).2.

Definition start : sloWorld := serve_ (RCreateAlert 1 1 alert) (withCalls [] (serve_ (RCreateSLO 1 slo) (withCalls [] emptyWorld))).

Definition firing : sloWorld := tick bad (withCalls [] start).
End Demo.

Lemma Demo_start_reachable T :
  reachable Demo.trim Demo.decode Demo.encode Demo.parseFloat Demo.overflow Demo.parseURL Demo.parseAddress T Demo.start.
Proof. do 2 (apply reach_serve; [|apply Forall_nil_2]). apply reach_init. Qed.

Lemma Demo_tick_reachable T ti w :
  reachable Demo.trim Demo.decode Demo.encode Demo.parseFloat Demo.overflow Demo.parseURL Demo.parseAddress T w ->
  T <= ti_now ti ->
  reachable Demo.trim Demo.decode Demo.encode Demo.parseFloat Demo.overflow Demo.parseURL Demo.parseAddress (ti_now ti)
    (Demo.tick ti (withCalls [] w)).
Proof. intros Hw HT. apply (reach_tick _ _ _ _ _ _ _ T); [done|done|apply Forall_nil_2]. Qed.

Lemma Demo_jsonLaws : jsonLaws Demo.trim Demo.decode Demo.encode.
Proof.
  assert (forall e out, Demo.encode e = Some out -> e = Demo.slow /\ out = "slow"%string) as He.
  { intros e out H. unfold Demo.encode in H. repeat case_match; simplify_eq.
    match goal with H : bool_decide _ = true |- _ => apply bool_decide_eq_true in H end. by simplify_eq. }
  constructor; try done; intros e out [-> ->]%He; done.
Qed.

(** The first tick counts an hour of buckets. *)
Lemma slo_series_witness :
  length (w_counted Demo.firing) = 60%nat /\ series (w_counted Demo.firing).
Proof.
  split; [vm_compute; reflexivity|].
  apply (slo_series Demo.trim Demo.decode Demo.encode Demo.parseFloat Demo.overflow Demo.parseURL Demo.parseAddress
           (ti_now Demo.bad)).
  apply (Demo_tick_reachable 0); [apply Demo_start_reachable|vm_compute; discriminate].
Defined.

(** The first tick notifies and records the alert as firing. *)
Lemma burn_alerts_alternate_witness :
  length (w_events Demo.firing) = 2%nat /\ along eventOK (w_events Demo.firing).
Proof.
  split; [vm_compute; reflexivity|].
  apply (burn_alerts_alternate Demo.trim Demo.decode Demo.encode Demo.parseFloat Demo.overflow Demo.parseURL
           Demo.parseAddress (ti_now Demo.bad)).
  apply (Demo_tick_reachable 0); [apply Demo_start_reachable|vm_compute; discriminate].
Defined.

Lemma stored_rows_valid_witness :
  length (st_slos (w_store Demo.start)) = 1%nat /\ length (st_alerts (w_store Demo.start)) = 1%nat /\
  forall s, s ∈ st_slos (w_store Demo.start) -> validRow Demo.trim Demo.decode s.
Proof.
  split_and!; [vm_compute; reflexivity..|].
  apply (stored_rows_valid Demo.trim Demo.decode Demo.encode Demo.parseFloat Demo.overflow Demo.parseURL Demo.parseAddress
           Demo_jsonLaws 0).
  apply Demo_start_reachable.
Defined.

(** The row of the example's SLO. *)
Definition demoRow : SLO := mkSLO 1 1 "checkout" "{}" "{}" (literal 99 100) 1.

Lemma tick_catches_up_witness :
  is_Some (st_counts (w_store (Demo.tick Demo.bad (withCalls [] Demo.start))) !! (1, sloCloseBefore Demo.noon - sloBucket)).
Proof.
  apply (tick_catches_up Demo.trim Demo.decode Demo.encode Demo.parseFloat Demo.overflow Demo.parseURL Demo.parseAddress
           0 Demo.start Demo.bad [1] demoRow (None, None)).
  - apply Demo_start_reachable.
  - vm_compute; discriminate.
  - vm_compute; left.
  - left.
  - split; [reflexivity|]. intros b. split; by eexists.
  - vm_compute; reflexivity.
  - vm_compute. split; [discriminate|reflexivity].
Defined.

(** ** What the code does not do *)

(** A tick on the next day, 20 s after 11:58. *)
Definition nextDay : tickInput := mkTick (Demo.noon + day - 100 * second) (ti_ratio Demo.bad) (ti_answer Demo.bad).

(** The newest bucket of the first tick. *)
Definition lastBucket : Z := sloCloseBefore Demo.noon - sloBucket.

(** The prune takes counts that the SLO's own window still needs.  A run of two healthy
    ticks a day apart: the second prunes a bucket that was counted, and one minute later
    the window of the SLO, which ends at the newest closed bucket and not at the clock,
    starts at that bucket. *)
Theorem prune_cuts_window :
  let before := Demo.firing in
  let after := Demo.tick nextDay (withCalls [] before) in
  let cb := sloCloseBefore (ti_now nextDay + minute) in
  st_counts (w_store before) !! (1, lastBucket) = Some (0, 10) /\
  st_counts (w_store after) !! (1, lastBucket) = None /\
  cb + wrap64 (- slo_WindowDays demoRow * 24 * hour) <= lastBucket < cb.
Proof. vm_compute. split_and!; [done|done|done|done]. Qed.

(** A filter that compares a column of numbers with a word. *)
Definition slowInput : SLOInput := mkSLOInput "latency" "slow" "" (literal 99 100) 30.

(** The service accepts an SLO that can never be counted: a filter whose number is not
    one passes the validation that only parses it, is stored, and no count of it is ever
    written, whatever the tick reads. *)
Theorem accepted_never_counted :
  (serve Demo.trim Demo.decode Demo.encode Demo.parseURL Demo.parseAddress (RCreateSLO 1 slowInput) emptyWorld).1 = inl tt /\
  forall s ti cb w, slo_GoodFilter s = "slow"%string ->
    w_counted (countSLO Demo.trim Demo.decode Demo.parseFloat Demo.overflow ti s cb w).2 = w_counted w.
Proof.
  split; [vm_compute; reflexivity|]. intros s ti cb w Hg. unfold countSLO, parseSLOFilters. rewrite Hg.
  change (Filter_Parse Demo.trim Demo.decode "slow") with (inl (Some Demo.slow) : option Node + filterErr).
  assert (forall w, w_counted (nextCall Demo.trim w).2 = w_counted w) as Hn
    by (intros w0; unfold nextCall; by destruct (hd _ _)).
  destruct (Filter_Parse Demo.trim Demo.decode (slo_TotalFilter s)) as [t|e]; [|done].
  unfold lift, mbind, E_bind, dbRead. specialize (Hn w) as Hw. destruct (nextCall Demo.trim w) as [[] w1]; [|done].
  cbn beta iota zeta. generalize (sloCountStart (LatestSLOBucket (slo_ID s) (w_store w1)) cb). intros start.
  destruct (Z.to_nat sloMaxCatchUp) as [|fuel]; [done|]. cbn [countLoop]. destruct (start <? cb); [|done].
  assert (forall rate w, countBucket Demo.trim Demo.parseFloat Demo.overflow ti s (Some Demo.slow, t) start rate w =
            (inr (EQuery (QFilter FNumber)), w)) as Hcb by (intros; vm_compute; reflexivity).
  unfold ctxErr, try, mbind, E_bind. specialize (Hn w1) as Hw1.
  destruct (nextCall Demo.trim w1) as [[] w2]; cbn -[countBucket] in *; [rewrite Hcb; cbn|]; congruence.
Qed.

(** A project with a calculated field, and the filter of a bucket that uses it. *)
Definition calcFields (projectID : Z) : option (list Field) := Some [mkField "latency_ms" "duration_us / 1000"].

Definition fastFilter : SpanFilter :=
  bucketFilter demoRow 0 (Some (mkNode "" "" "" [] MatchAnd [cond "latency_ms" OpLt "5"])).

(** Counting the spans of an SLO selects what the span list selects in a project without
    calculated fields, and only there: the count never loads them, so that a filter on a
    calculated field reads a span attribute of that name instead. *)
Theorem count_ignores_calc :
  (forall ParseFloat s b e,
     CountSpans_where ParseFloat (bucketFilter s b e) = QuerySpans_where ParseFloat (fun _ => Some []) (bucketFilter s b e)) /\
  CountSpans_where Demo.parseFloat fastFilter <> QuerySpans_where Demo.parseFloat calcFields fastFilter.
Proof.
  split; [|by vm_compute]. intros ParseFloat s b e. unfold QuerySpans_where, withCalc, repoCalcResolver.
  destruct (hasExpr _); [|done]. by destruct (sf_ProjectID _ =? 0).
Qed.

(** An estimate one too low: three spans kept at 1 in 75 stand for 225. *)
Lemma inflate_truncates :
  inflateCount Demo.overflow 3 0 (sampleRateFor (Some (fun _ => 75)) 1) = 224.
Proof. vm_compute. reflexivity. Qed.
