(* ===== verification/MetricSeries.v ===== *)
(** * Counters that share a series ([internal/metrics/interleaved.go], [derive.go])

    Pods that send a counter without an instance id share one label set, so their running
    totals alternate on one series.  [ChainPrevious] splits such values into rising chains;
    [deriveRate] turns the points of a counter into rates. *)
From S2P Require Import Prelude Float64.

(** ** Interleaved values *)

(** [minRebounds] *)
Definition minRebounds : nat := 2.

(** A value out of range does not occur; the default stands for Go's panic. *)
Definition at_ (values : list float64) (i : nat) : float64 := default S754_nan (values !! i).

(** The test of [Interleaved] at index [i]. *)
Definition rebound (values : list float64) (i : nat) : bool :=
  (at_ values (i - 1) <? at_ values (i - 2))%f64 && (at_ values (i - 2) <=? at_ values i)%f64.

(** [Interleaved] *)
Definition Interleaved (values : list float64) : bool :=
  (minRebounds <=? length (filter (fun i => rebound values i = true) (seq 2 (length values - 2))))%nat.

(** The [prev] slice of [ChainPrevious]; [None] is [-1]. *)
Abbreviation prevs := (list (option nat)).

(** [widestStepOver]: the best index so far and the width of its step. *)
Definition widestOne (values : list float64) (prev : prevs) (i : nat) (acc : option nat * float64) (j : nat)
  : option nat * float64 :=
  match prev !! j with
  | Some (Some p) =>
      if (at_ values i <? at_ values p)%f64 || (at_ values j <? at_ values i)%f64 then acc
      else
        let w := (at_ values j - at_ values p)%f64 in
        if (acc.2 <? w)%f64 then (Some j, w) else acc
  | _ => acc
  end.

Definition widestStepOver (values : list float64) (prev : prevs) (i : nat) : option nat :=
  (foldl (widestOne values prev i) (None, toFloat 0) (seq 0 i)).1.

(** [startChain]; every turn goes to a smaller index. *)
Fixpoint startChainLoop (fuel : nat) (values : list float64) (prev : prevs) (i : nat) : prevs :=
  match fuel with
  | O => prev
  | S fuel =>
      match widestStepOver values prev i with
      | None => <[i := None]> prev
      | Some j => startChainLoop fuel values (<[i := mjoin (prev !! j)]> prev) j
      end
  end.

Definition startChain (values : list float64) (prev : prevs) (i : nat) : prevs :=
  startChainLoop (S i) values prev i.

(** The chain whose last value is the largest one not above [v]. *)
Definition bestOne (values : list float64) (lasts : list nat) (v : float64) (best : option nat) (c : nat)
  : option nat :=
  match lasts !! c with
  | None => best
  | Some last =>
      if (at_ values last <=? v)%f64 &&
         match best with
         | None => true
         | Some b => (at_ values (default 0%nat (lasts !! b)) <? at_ values last)%f64
         end
      then Some c else best
  end.

Definition bestChain (values : list float64) (lasts : list nat) (v : float64) : option nat :=
  foldl (bestOne values lasts v) None (seq 0 (length lasts)).

(** A turn of the loop of [ChainPrevious]. *)
Definition chainOne (values : list float64) (st : prevs * list nat) (i : nat) : prevs * list nat :=
  let '(prev, lasts) := st in
  match bestChain values lasts (at_ values i) with
  | None => (startChain values prev i, lasts ++ [i])
  | Some c => (<[i := lasts !! c]> prev, <[c := i]> lasts)
  end.

(** [ChainPrevious]; Go's slice starts with zeros, which no turn reads. *)
Definition ChainPrevious (values : list float64) : prevs :=
  (foldl (chainOne values) (replicate (length values) (Some 0%nat), []) (seq 0 (length values))).1.

(** ** Rates *)

(** [metrics.InputPoint] *)
Record InputPoint := mkPoint {
  ip_T : Z;
  ip_Value : float64;
  ip_Count : Z;
  ip_Delta : bool;
  ip_IntervalNano : Z;
  ip_Extra : string;
  ip_Attributes : gmap string string;
}.

(** [metrics.DerivedPoint]; the percentiles are [P50], [P95] and [P99]. *)
Record DerivedPoint := mkDerivedPoint {
  dp_T : Z;
  dp_Value : float64;
  dp_Percentiles : option (float64 * float64 * float64);
  dp_Count : Z;
}.

(** A point without percentiles. *)
Definition mkDerived (t : Z) (value : float64) (count : Z) : DerivedPoint := mkDerivedPoint t value None count.

Definition giga : float64 := toFloat 1000000000.

(** [pointRate] *)
Definition pointRate (prev : option InputPoint) (cur : InputPoint) : option float64 :=
  if ip_Delta cur then
    let width :=
      match prev with
      | Some p => if ip_IntervalNano cur <=? 0 then wrap64 (ip_T cur - ip_T p) else ip_IntervalNano cur
      | None => ip_IntervalNano cur
      end in
    if width <=? 0 then None else Some (ip_Value cur / (toFloat width / giga))%f64
  else
    match prev with
    | None => None
    | Some p =>
        let dtSec := (toFloat (wrap64 (ip_T cur - ip_T p)) / giga)%f64 in
        if (dtSec <=? toFloat 0)%f64 then None
        else
          let delta := (ip_Value cur - ip_Value p)%f64 in
          let delta := if (delta <? toFloat 0)%f64 then ip_Value cur else delta in
          Some (delta / dtSec)%f64
    end.

(** [cumulativeValues] *)
Definition cumulativeValues (points : list InputPoint) : option (list float64) :=
  if existsb ip_Delta points then None else Some (ip_Value <$> points).

Definition pointAt (points : list InputPoint) (i : nat) : InputPoint :=
  default (mkPoint 0 S754_nan 0 false 0 "" ∅) (points !! i).

(** The step of a value on its chain. *)
Definition chainStep (values : list float64) (prev : prevs) (i : nat) : option float64 :=
  match prev !! i with
  | Some (Some p) => Some (at_ values i - at_ values p)%f64
  | _ => None
  end.

(** [reportingInterval] *)
Definition reportingInterval (points : list InputPoint) (prev : prevs) : Z :=
  let gap i :=
    match prev !! i with
    | Some (Some p) =>
        if ip_T (pointAt points p) <? ip_T (pointAt points i)
        then Some (wrap64 (ip_T (pointAt points i) - ip_T (pointAt points p))) else None
    | _ => None
    end in
  let gaps := merge_sort Z.le (omap gap (seq 0 (length prev))) in
  default 0 (gaps !! (length gaps / 2)%nat).

(** The inner loop of [interleavedRates]: the points that leave the window. *)
Fixpoint leaveWindow (fuel : nat) (points : list InputPoint) (values : list float64) (prev : prevs) (bound : Z)
  (start : nat) (inWindow : float64) : nat * float64 :=
  match fuel with
  | O => (start, inWindow)
  | S fuel =>
      if ip_T (pointAt points start) <=? bound then
        leaveWindow fuel points values prev bound (S start)
          (match chainStep values prev start with Some d => (inWindow - d)%f64 | None => inWindow end)
      else (start, inWindow)
  end.

(** A turn of the loop of [interleavedRates]. *)
Definition rateOne (points : list InputPoint) (values : list float64) (prev : prevs) (width : Z)
  (st : nat * float64 * list DerivedPoint) (i : nat) : nat * float64 * list DerivedPoint :=
  let '(start, inWindow, out) := st in
  let cur := pointAt points i in
  let inWindow := match chainStep values prev i with Some d => (inWindow + d)%f64 | None => inWindow end in
  let '(start, inWindow) := leaveWindow (length points) points values prev (ip_T cur - width) start inWindow in
  (start, inWindow,
   match chainStep values prev i with
   | Some _ => out ++ [mkDerived (ip_T cur) (inWindow / (toFloat width / giga))%f64 (ip_Count cur)]
   | None => out
   end).

(** [interleavedRates] *)
Definition interleavedRates (points : list InputPoint) (values : list float64) : list DerivedPoint :=
  let prev := ChainPrevious values in
  let width := reportingInterval points prev in
  if width <=? 0 then []
  else (foldl (rateOne points values prev width) (0%nat, toFloat 0, []) (seq 0 (length points))).2.

(** The loop of [deriveRate], with the point before. *)
Fixpoint ratesFrom (prev : option InputPoint) (points : list InputPoint) : list DerivedPoint :=
  match points with
  | [] => []
  | cur :: points =>
      match pointRate prev cur with
      | Some v => mkDerived (ip_T cur) v (ip_Count cur) :: ratesFrom (Some cur) points
      | None => ratesFrom (Some cur) points
      end
  end.

(** [deriveRate] *)
Definition deriveRate (points : list InputPoint) : list DerivedPoint :=
  match cumulativeValues points with
  | Some values => if Interleaved values then interleavedRates points values else ratesFrom None points
  | None => ratesFrom None points
  end.

(** Two pods: 40 and 8000, then 41, 8001 and so on. *)
Example chains_two : ChainPrevious (toFloat <$> [40; 8000; 41; 8001; 42]) = [None; None; Some 0; Some 1; Some 2]%nat.
Proof. vm_compute. reflexivity. Qed.

(** ** Chains *)

(** Two chains never share a value, and every chain rises. *)
Definition rises (values : list float64) (prev : prevs) (n : nat) : Prop :=
  forall i p, (i < n)%nat -> prev !! i = Some (Some p) -> (p < i)%nat /\ (at_ values p <=? at_ values i)%f64 = true.

Definition disjoint (prev : prevs) (n : nat) : Prop :=
  forall i j p, (i < n)%nat -> (j < n)%nat -> prev !! i = Some (Some p) -> prev !! j = Some (Some p) -> i = j.

Section Chains.
Context (values : list float64).
Hypothesis HN : forall i, (i < length values)%nat -> notNaN (at_ values i).

(** Every step but that of [h] is on a rising chain of its own, and no step leads to one of
    [lasts]. *)
Record chainsBut (h : option nat) (n : nat) (prev : prevs) (lasts : list nat) : Prop := {
  cb_length : length prev = length values;
  cb_rises : forall i p, (i < n)%nat -> Some i <> h -> prev !! i = Some (Some p) ->
    (p < i)%nat /\ (at_ values p <=? at_ values i)%f64 = true;
  cb_disjoint : forall i j p, (i < n)%nat -> (j < n)%nat -> Some i <> h -> Some j <> h ->
    prev !! i = Some (Some p) -> prev !! j = Some (Some p) -> i = j;
  cb_free : forall i l, (i < n)%nat -> Some i <> h -> l ∈ lasts -> prev !! i <> Some (Some l);
}.

(** The widest step over a value rises past it. *)
Lemma widestStepOver_spec prev i j :
  (i < length values)%nat -> length prev = length values -> widestStepOver values prev i = Some j ->
  (j < i)%nat /\ exists p, prev !! j = Some (Some p) /\ (at_ values i <? at_ values p)%f64 = false.
Proof.
  intros Hi Hlen. unfold widestStepOver.
  assert (forall l acc, (forall k, k ∈ l -> (k < i)%nat) ->
    (forall j, acc.1 = Some j -> (j < i)%nat /\ exists p, prev !! j = Some (Some p) /\ (at_ values i <? at_ values p)%f64 = false) ->
    forall j, (foldl (widestOne values prev i) acc l).1 = Some j ->
      (j < i)%nat /\ exists p, prev !! j = Some (Some p) /\ (at_ values i <? at_ values p)%f64 = false) as Hfold.
  { induction l as [|k l IH]; intros acc Hl Hacc; [done|]. cbn [foldl]. apply IH; [by intros; apply Hl; right|].
    unfold widestOne. destruct (prev !! k) as [[p|]|] eqn:Ek; try done.
    destruct (_ || _) eqn:Hc; [done|]. apply orb_false_elim in Hc as [Hc _].
    destruct (acc.2 <? _)%f64; [|done]. intros j' [= <-]. split; [apply Hl; left|by exists p]. }
  apply Hfold; [|done]. intros k Hk%elem_of_seq. lia.
Qed.

Lemma startChainLoop_spec n lasts fuel : forall prev i,
  (n <= length values)%nat -> (i < n)%nat -> (i < fuel)%nat -> chainsBut (Some i) n prev lasts ->
  chainsBut None n (startChainLoop fuel values prev i) lasts.
Proof.
  induction fuel as [|fuel IH]; intros prev i Hn Hi Hf Hc; [lia|]. cbn [startChainLoop].
  destruct (widestStepOver values prev i) as [j|] eqn:Ew.
  - destruct (widestStepOver_spec prev i j ltac:(lia) (cb_length _ _ _ _ Hc) Ew) as (Hj & p & Ep & Hlt).
    rewrite Ep. cbn [mjoin option_join]. apply IH; [done|lia|lia|].
    destruct Hc as [Hlen Hr Hd Hfr]. assert (Some j <> Some i) as Hji by (intros [=]; lia).
    destruct (Hr j p ltac:(lia) Hji Ep) as [Hpj _].
    constructor.
    + by rewrite length_insert.
    + intros k q Hk Hkj. destruct (decide (k = i)) as [->|Hne].
      * rewrite list_lookup_insert_eq by lia. intros [= <-]. split; [lia|].
        apply ltb_false_leb; [apply HN; lia|apply HN; lia|done].
      * rewrite list_lookup_insert_ne by done. apply Hr; [done|congruence].
    + intros k k' q Hk Hk' Hkj Hkj'.
      destruct (decide (k = i)) as [->|Hne], (decide (k' = i)) as [->|Hne']; [done| | |].
      * rewrite list_lookup_insert_eq, list_lookup_insert_ne by (done || lia). intros [= <-] Ek'.
        destruct Hkj'. f_equal. apply (Hd k' j p); try done; try lia; congruence.
      * rewrite list_lookup_insert_eq, list_lookup_insert_ne by (done || lia). intros Ek [= <-].
        destruct Hkj. f_equal. apply (Hd k j p); try done; try lia; congruence.
      * rewrite !list_lookup_insert_ne by done. apply Hd; try done; congruence.
    + intros k l Hk Hkj Hl. destruct (decide (k = i)) as [->|Hne].
      * rewrite list_lookup_insert_eq by lia. intros [= ->]. by apply (Hfr j l ltac:(lia) Hji Hl).
      * rewrite list_lookup_insert_ne by done. apply Hfr; [done|congruence|done].
  - destruct Hc as [Hlen Hr Hd Hfr]. constructor.
    + by rewrite length_insert.
    + intros k q Hk _. destruct (decide (k = i)) as [->|Hne]; [by rewrite list_lookup_insert_eq by lia|].
      rewrite list_lookup_insert_ne by done. apply Hr; [done|congruence].
    + intros k k' q Hk Hk' _ _. destruct (decide (k = i)) as [->|Hne]; [by rewrite list_lookup_insert_eq by lia|].
      destruct (decide (k' = i)) as [->|Hne']; [by rewrite (list_lookup_insert_eq _ i) by lia|].
      rewrite !list_lookup_insert_ne by done. apply Hd; try done; congruence.
    + intros k l Hk _ Hl. destruct (decide (k = i)) as [->|Hne]; [by rewrite list_lookup_insert_eq by lia|].
      rewrite list_lookup_insert_ne by done. apply Hfr; [done|congruence|done].
Qed.

Lemma bestChain_spec lasts v c :
  bestChain values lasts v = Some c -> exists l, lasts !! c = Some l /\ (at_ values l <=? v)%f64 = true.
Proof.
  unfold bestChain.
  assert (forall l acc, (forall c, acc = Some c -> exists l, lasts !! c = Some l /\ (at_ values l <=? v)%f64 = true) ->
    forall c, foldl (bestOne values lasts v) acc l = Some c ->
      exists l, lasts !! c = Some l /\ (at_ values l <=? v)%f64 = true) as Hfold; [|by apply Hfold].
  induction l as [|k l IH]; intros acc Hacc; [done|]. cbn [foldl]. apply IH. unfold bestOne.
  destruct (lasts !! k) as [x|] eqn:Ek; [|done]. destruct (_ && _) eqn:Hc; [|done].
  apply andb_prop in Hc as [Hc _]. intros c' [= <-]. by exists x.
Qed.

(** The state after [n] values. *)
Definition chainsAt (n : nat) (st : prevs * list nat) : Prop :=
  chainsBut None n st.1 st.2 /\ NoDup st.2 /\ forall l, l ∈ st.2 -> (l < n)%nat.

Lemma chainOne_spec n st : (n < length values)%nat -> chainsAt n st -> chainsAt (S n) (chainOne values st n).
Proof.
  destruct st as [prev lasts]. intros Hn (Hc & Hnd & Hl). cbn [fst snd] in *. unfold chainOne.
  assert (forall prev', (forall k, k <> n -> prev' !! k = prev !! k) -> length prev' = length prev ->
            forall lasts', (forall l, l ∈ lasts' -> l ∈ lasts \/ l = n) -> chainsBut (Some n) (S n) prev' lasts') as Hopen.
  { intros prev' Hsame Hlen lasts' Hl'. destruct Hc as [Hlen' Hr Hd Hfr]. constructor.
    - congruence.
    - intros i p Hi Hne. rewrite Hsame by congruence. apply Hr; [|done]. assert (i <> n) by congruence. lia.
    - intros i j p Hi Hj Hni Hnj. rewrite !Hsame by congruence. assert (i <> n /\ j <> n) by (split; congruence).
      apply Hd; try done; lia.
    - intros i l Hi Hni Hin. rewrite Hsame by congruence. assert (i <> n) by congruence.
      destruct (Hl' l Hin) as [Hin'| ->]; [apply Hfr; try done; lia|].
      intros E. destruct (Hr i n ltac:(lia) ltac:(done) E). lia. }
  destruct (bestChain values lasts (at_ values n)) as [c|] eqn:Eb.
  - destruct (bestChain_spec _ _ _ Eb) as (x & Ex & Hx). rewrite Ex.
    assert (x ∈ lasts) as Hxin by (by eapply list_elem_of_lookup_2). specialize (Hl x Hxin) as Hxn.
    assert (forall l, l ∈ <[c := n]> lasts -> l = n \/ (l ∈ lasts /\ l <> x)) as Hins.
    { intros l (k & Hk)%list_elem_of_lookup. destruct (decide (k = c)) as [->|Hne].
      - rewrite list_lookup_insert_eq in Hk by (by eapply lookup_lt_Some). left. congruence.
      - rewrite list_lookup_insert_ne in Hk by done. right. split; [by eapply list_elem_of_lookup_2|].
        intros ->. destruct Hne. by eapply NoDup_lookup. }
    split_and!; cbn [fst snd].
    + destruct (Hopen (<[n := Some x]> prev)) with (lasts' := <[c := n]> lasts) as [Hlen Hr Hd Hfr].
      { intros k Hk. by rewrite list_lookup_insert_ne. } { by rewrite length_insert. }
      { intros l [->|[? _]]%Hins; [by right|by left]. }
      assert (length prev = length values) as Hpl by (by destruct Hc).
      constructor; [done| | |].
      * intros i p Hi _. destruct (decide (i = n)) as [->|Hne]; [|apply Hr; [done|congruence]].
        rewrite list_lookup_insert_eq by lia. by intros [= <-].
      * intros i j p Hi Hj _ _. destruct (decide (i = n)) as [->|Hne], (decide (j = n)) as [->|Hne']; [done| | |].
        -- rewrite list_lookup_insert_eq, list_lookup_insert_ne by (done || lia). intros [= <-] Ej.
           destruct (cb_free _ _ _ _ Hc j x); [lia|done|done|done].
        -- rewrite list_lookup_insert_eq, list_lookup_insert_ne by (done || lia). intros Ei [= <-].
           destruct (cb_free _ _ _ _ Hc i x); [lia|done|done|done].
        -- apply Hd; try done; congruence.
      * intros i l Hi _ Hin. destruct (decide (i = n)) as [->|Hne]; [|apply Hfr; [done|congruence|done]].
        rewrite list_lookup_insert_eq by lia. intros [= ->]. destruct (Hins l Hin) as [->|[_ ?]]; [lia|done].
    + apply NoDup_alt. intros a b l Ha Hb.
      destruct (decide (a = c)) as [->|Hac], (decide (b = c)) as [->|Hbc]; [done| | |].
      * rewrite list_lookup_insert_eq in Ha by (by eapply lookup_lt_Some). rewrite list_lookup_insert_ne in Hb by done.
        injection Ha as <-. apply list_elem_of_lookup_2, Hl in Hb. lia.
      * rewrite list_lookup_insert_eq in Hb by (by eapply lookup_lt_Some). rewrite list_lookup_insert_ne in Ha by done.
        injection Hb as <-. apply list_elem_of_lookup_2, Hl in Ha. lia.
      * rewrite list_lookup_insert_ne in Ha, Hb by done. by eapply NoDup_lookup.
    + intros l [->|[Hin _]]%Hins; [lia|]. specialize (Hl l Hin). lia.
  - split_and!; cbn [fst snd].
    + apply startChainLoop_spec; [lia|lia|lia|]. apply Hopen; [done|done|].
      intros l [?|?%list_elem_of_singleton]%elem_of_app; [by left|by right].
    + apply NoDup_app. split_and!; [done| |apply NoDup_singleton]. intros l Hin ->%list_elem_of_singleton.
      specialize (Hl n Hin). lia.
    + intros l [Hin| ->%list_elem_of_singleton]%elem_of_app; [specialize (Hl l Hin)|]; lia.
Qed.

Lemma ChainPrevious_at n :
  (n <= length values)%nat ->
  chainsAt n (foldl (chainOne values) (replicate (length values) (Some 0%nat), []) (seq 0 n)).
Proof.
  induction n as [|n IH]; intros Hn.
  - split_and!; cbn; [|apply NoDup_nil_2|by intros l ?%elem_of_nil].
    constructor; [by rewrite length_replicate|lia|lia|lia].
  - rewrite seq_S, foldl_snoc. apply chainOne_spec; [lia|]. apply IH. lia.
Qed.
End Chains.

(** [ChainPrevious] splits the values of an interleaved counter into rising chains, for
    values that are not NaN: the value before another on its chain has a smaller index and
    is not above it, and no value comes before two others.  So every step that is counted
    is a rise, and no rise is counted twice. *)
Theorem ChainPrevious_chains values :
  Forall notNaN values ->
  let prev := ChainPrevious values in
  length prev = length values /\
  (forall i p, prev !! i = Some (Some p) -> (p < i)%nat /\ (at_ values p <=? at_ values i)%f64 = true) /\
  (forall i j p, prev !! i = Some (Some p) -> prev !! j = Some (Some p) -> i = j).
Proof.
  intros HN. assert (forall i, (i < length values)%nat -> notNaN (at_ values i)) as HN'.
  { intros i Hi. unfold at_. destruct (values !! i) as [v|] eqn:E; [|apply lookup_ge_None in E; lia].
    cbn. by eapply Forall_lookup_1. }
  destruct (ChainPrevious_at values HN' (length values) ltac:(lia)) as [[Hlen Hr Hd _] _]. cbn zeta.
  fold (ChainPrevious values) in *. split_and!; [done| |].
  - intros i p E. apply (Hr i p); [|done|done]. apply lookup_lt_Some in E. unfold ChainPrevious in *. lia.
  - intros i j p Ei Ej. apply (Hd i j p); try done; [apply lookup_lt_Some in Ei|apply lookup_lt_Some in Ej]; unfold ChainPrevious in *; lia.
Qed.

Lemma ChainPrevious_chains_witness :
  ChainPrevious (toFloat <$> [40; 8000; 40; 8001; 41]) = [None; None; Some 0; Some 1; Some 2]%nat /\
  (2 < 4)%nat /\ (at_ (toFloat <$> [40; 8000; 40; 8001; 41]) 2 <=? at_ (toFloat <$> [40; 8000; 40; 8001; 41]) 4)%f64 = true.
Proof.
  split; [vm_compute; reflexivity|].
  apply (proj1 (proj2 (ChainPrevious_chains (toFloat <$> [40; 8000; 40; 8001; 41]) ltac:(apply (bool_decide_unpack _); vm_compute; exact I)))).
  vm_compute. reflexivity.
Defined.
