(* ===== verification/MetricMerge.v ===== *)
(** * Merging metric rollups ([internal/rollup/merge.go], [histogram.go], [attrs.go])

    The source rows of one target bucket become rows of the coarser tier: labels are
    dropped, counters are reduced to the increase of each series and continue the running
    total of the bucket before.  JSON and the rendering of a label set are parameters; the
    FNV fingerprint is computed by the code of [metrics/attributes.go]. *)
From S2P Require Import Prelude Tiers Float64 MetricSeries.

(** [repository.MetricRollup]; times are nanoseconds. *)
Record MetricRollup := mkMetric {
  mr_ProjectID : Z;
  mr_Name : string;
  mr_Type : string;
  mr_Unit : string;
  mr_AttrFingerprint : string;
  mr_Attributes : string;
  mr_Bucket : Z;
  mr_Count : Z;
  mr_Sum : float64;
  mr_Min : float64;
  mr_Max : float64;
  mr_Last : float64;
  mr_ObsCount : Z;
  mr_Extra : string;
  mr_Temporality : string;
  mr_StepSeconds : Z;
}.

#[export] Instance MetricRollup_eq_dec : EqDecision MetricRollup.
Proof. solve_decision. Defined.

(** [TemporalityDelta] *)
Definition TemporalityDelta : string := "delta".

(** A NUL byte, as a Go string. *)
Definition nul : string := String Ascii.zero EmptyString.

(** [repository.CoarseSeriesKey] *)
Definition CoarseSeriesKey (name fingerprint : string) : string := name +:+ nul +:+ fingerprint.

(** [SourceTailKey]; [strconv.FormatInt] is stdpp's [pretty]. *)
Definition SourceTailKey (m : MetricRollup) : string :=
  pretty (mr_ProjectID m) +:+ nul +:+ CoarseSeriesKey (mr_Name m) (mr_AttrFingerprint m).

(** ** Label sets *)

(** [DropPolicy] *)
Record DropPolicy := mkPolicy { dp_Hourly : list string; dp_Daily : list string }.

(** [DefaultDropPolicy] *)
Definition DefaultDropPolicy : DropPolicy :=
  mkPolicy
    ["service.version"; "service.instance.id"; "server.port"; "net.host.port"; "net.host.name"; "host.name";
     "k8s.pod.name"; "process.pid"; "session.id"; "telemetry.sdk.*"; "network.protocol.*"; "url.scheme";
     "http.scheme"; "http.flavor"]%string
    ["path"; "url.path"; "url.full"; "http.url"; "http.target"; "server.address"; "http.host";
     "http.server_name"]%string.

(** [DropPolicy.keysFor] *)
Definition keysFor (p : DropPolicy) (step : Z) : list string :=
  if StepDay <=? step then dp_Hourly p ++ dp_Daily p
  else if StepHour <=? step then dp_Hourly p
  else [].

(** [dropMatching]: a pattern that ends in a star drops every key with its prefix. *)
Definition starPrefix (pattern : string) : option (list ascii) :=
  match reverse (bytesOf pattern) with
  | c :: rest => if bool_decide (c = "*"%char) then Some (reverse rest) else None
  | [] => None
  end.

Definition dropMatching (attrs : gmap string string) (pattern : string) : gmap string string :=
  match starPrefix pattern with
  | None => delete pattern attrs
  | Some prefix => filter (fun kv => hasPrefix prefix (bytesOf kv.1) = false) attrs
  end.

(** FNV-1a on 64 bits, as [hash/fnv]. *)
Definition fnv64a (bytes : list ascii) : Z :=
  foldl (fun h c => wrapU64 (Z.lxor h (Z.of_N (N_of_ascii c)) * 1099511628211)) 14695981039346656037 bytes.

(** [%016x] *)
Definition hexDigit (n : Z) : ascii :=
  ascii_of_N (Z.to_N (if n <? 10 then 48 + n else 87 + n)).

Definition hex16 (z : Z) : string :=
  String.string_of_list_ascii ((fun k => hexDigit (Z.land (Z.shiftr z (4 * (15 - Z.of_nat k))) 15)) <$> seq 0 16).

(** Keys in the order of [sort.Strings]. *)
Definition stringLe (a b : string) : Prop := String.leb a b = true.

#[export] Instance stringLe_dec : RelDecision stringLe.
Proof. intros a b. unfold stringLe. apply _. Defined.

Definition sortedKeys (attrs : gmap string string) : list string := merge_sort stringLe (map_to_list attrs).*1.

(** [metrics.Fingerprint] *)
Definition Fingerprint (attrs : gmap string string) : string :=
  hex16 (fnv64a (mjoin ((fun k => bytesOf k ++ [Ascii.zero] ++ bytesOf (default "" (attrs !! k))%string ++ [Ascii.zero])
                          <$> sortedKeys attrs))).

(** ** Histograms *)

(** [histogram] *)
Record histogram := mkHistogram { hg_Bounds : list float64; hg_Counts : list float64 }.

(** [histogram.sub]: the observations since [prev]; [None] is nil. *)
Definition hist_sub (h prev : option histogram) : option histogram :=
  match h, prev with
  | Some h, Some p =>
      if (length (hg_Counts p) =? length (hg_Counts h))%nat then
        let diffs := zip_with (fun a b => (a - b)%f64) (hg_Counts h) (hg_Counts p) in
        if existsb (fun d => (d <? toFloat 0)%f64) diffs then Some h else Some (mkHistogram (hg_Bounds h) diffs)
      else None
  | _, _ => None
  end.

(** [histogram.total] *)
Definition hist_total (h : option histogram) : float64 :=
  match h with None => toFloat 0 | Some h => foldl (fun n c => (n + c)%f64) (toFloat 0) (hg_Counts h) end.

(** [addHistogram] *)
Definition addHistogram (dst src : option histogram) : option histogram :=
  match src, dst with
  | None, _ => dst
  | Some s, None => Some s
  | Some s, Some d =>
      if (length (hg_Counts d) =? length (hg_Counts s))%nat
      then Some (mkHistogram (hg_Bounds d) (zip_with (fun a b => (a + b)%f64) (hg_Counts d) (hg_Counts s)))
      else if (hist_total dst <? hist_total src)%f64 then Some s else dst
  end.

Section Merge.
Context (parseAttributes : string -> gmap string string) (marshalAttributes : gmap string string -> option string).
Context (decodeHist : string -> option histogram) (encodeHist : histogram -> option string).
Context (overflow : float64 -> Z).

(** [metrics.CanonicalAttributes] *)
Definition CanonicalAttributes (attrs : gmap string string) : string :=
  if bool_decide (attrs = ∅) then "{}" else default "{}"%string (marshalAttributes attrs).

(** [DropPolicy.Reduce] *)
Definition Reduce (p : DropPolicy) (attributes : string) (step : Z) : string * string :=
  let attrs := foldl dropMatching (parseAttributes attributes) (keysFor p step) in
  (CanonicalAttributes attrs, Fingerprint attrs).

(** [histogramOf] *)
Definition histogramOf (m : MetricRollup) : option histogram :=
  if bool_decide (mr_Type m = "histogram"%string) && negb (bool_decide (mr_Extra m = ""%string)) then
    match decodeHist (mr_Extra m) with
    | Some h => if bool_decide (hg_Counts h = []) then None else Some h
    | None => None
    end
  else None.

(** [histogram.marshal] *)
Definition hist_marshal (h : option histogram) : string :=
  match h with
  | None => ""
  | Some h => if bool_decide (hg_Counts h = []) then "" else default ""%string (encodeHist h)
  end.

(** ** One series *)

(** [cumulativeState] *)
Record cumulativeState := mkCumulative {
  cs_cumulative : bool;
  cs_haveLast : bool;
  cs_last : float64;
  cs_hist : option histogram;
  cs_haveDist : bool;
  cs_sum : float64;
  cs_obsCount : Z;
}.

Definition newState (cumulative : bool) : cumulativeState :=
  mkCumulative cumulative false (toFloat 0) None false (toFloat 0) 0.

(** [cumulativeState.start] *)
Definition state_start (s : cumulativeState) (prev : MetricRollup) : cumulativeState :=
  if negb (cs_cumulative s) then s
  else mkCumulative true true (mr_Last prev) (histogramOf prev) true (mr_Sum prev) (mr_ObsCount prev).

(** [cumulativeState.distribution] *)
Definition state_distribution (r : MetricRollup) (s : cumulativeState) : float64 * Z * cumulativeState :=
  if negb (cs_cumulative s) then (mr_Sum r, mr_ObsCount r, s)
  else
    let '(sum, obs) :=
      if cs_haveDist s && (mr_Sum r >=? cs_sum s)%f64 && (cs_obsCount s <=? mr_ObsCount r)
      then ((mr_Sum r - cs_sum s)%f64, wrap64 (mr_ObsCount r - cs_obsCount s))
      else if negb (cs_haveDist s) then (toFloat 0, 0)
      else (mr_Sum r, mr_ObsCount r) in
    (sum, obs, mkCumulative (cs_cumulative s) (cs_haveLast s) (cs_last s) (cs_hist s) true (mr_Sum r) (mr_ObsCount r)).

(** [cumulativeState.increase] *)
Definition state_increase (r : MetricRollup) (s : cumulativeState) : float64 * cumulativeState :=
  if negb (cs_cumulative s) then (mr_Sum r, s)
  else
    (if negb (cs_haveLast s) then toFloat 0
     else if (mr_Last r >=? cs_last s)%f64 then (mr_Last r - cs_last s)%f64
     else mr_Last r,
     mkCumulative (cs_cumulative s) true (mr_Last r) (cs_hist s) (cs_haveDist s) (cs_sum s) (cs_obsCount s)).

(** [cumulativeState.histogram] *)
Definition state_histogram (r : MetricRollup) (s : cumulativeState) : option histogram * cumulativeState :=
  let cur := histogramOf r in
  if negb (cs_cumulative s) then (cur, s)
  else
    (hist_sub cur (cs_hist s),
     match cur with
     | Some _ => mkCumulative (cs_cumulative s) (cs_haveLast s) (cs_last s) cur (cs_haveDist s) (cs_sum s) (cs_obsCount s)
     | None => s
     end).

(** [contribution] *)
Record contribution := mkContribution {
  ct_row : MetricRollup;
  ct_count : Z;
  ct_sum : float64;
  ct_obsCount : Z;
  ct_last : float64;
  ct_min : float64;
  ct_max : float64;
  ct_haveVal : bool;
  ct_hist : option histogram;
  ct_extra : string;
}.

(** [contribution.observe] *)
Definition observeRow (r : MetricRollup) (c : contribution) : contribution :=
  mkContribution (ct_row c) (ct_count c) (ct_sum c) (ct_obsCount c) (ct_last c)
    (if negb (ct_haveVal c) || (mr_Min r <? ct_min c)%f64 then mr_Min r else ct_min c)
    (if negb (ct_haveVal c) || (ct_max c <? mr_Max r)%f64 then mr_Max r else ct_max c)
    true (ct_hist c) (ct_extra c).

(** Adds a count, a sum, observations and a histogram. *)
Definition addTo (count : Z) (sum : float64) (obs : Z) (hist : option histogram) (c : contribution) : contribution :=
  mkContribution (ct_row c) (wrap64 (ct_count c + count)) (ct_sum c + sum)%f64 (wrap64 (ct_obsCount c + obs)) (ct_last c)
    (ct_min c) (ct_max c) (ct_haveVal c) (addHistogram (ct_hist c) hist) (ct_extra c).

(** [interleavedSteps]; [None] is nil, and [prev] is [None] when there is no row before. *)
Definition interleavedSteps (rows : list MetricRollup) (prev : option MetricRollup) (cumulative : bool)
  : option (list float64) :=
  match rows with
  | [] => None
  | r0 :: _ =>
      if negb cumulative || negb (bool_decide (mr_Type r0 = "sum"%string)) then None
      else
        let values := match prev with Some p => [mr_Last p] | None => [] end ++ (mr_Last <$> rows) in
        let offset := match prev with Some _ => 1%nat | None => 0%nat end in
        if negb (Interleaved values) then None
        else
          Some ((fun i => match ChainPrevious values !! (i + offset)%nat with
                          | Some (Some p) => (at_ values (i + offset) - at_ values p)%f64
                          | _ => toFloat 0
                          end) <$> seq 0 (length rows))
  end.

(** A turn of the loop of [seriesContribution], with the step of an interleaved row. *)
Definition contributeOne (step : option float64) (r : MetricRollup) (st : cumulativeState * contribution)
  : cumulativeState * contribution :=
  let '(s, c) := st in
  let c := observeRow r c in
  if bool_decide (mr_Type r = "sum"%string) then
    match step with
    | Some d => (s, addTo (mr_Count r) d (mr_ObsCount r) None c)
    | None => let '(inc, s) := state_increase r s in (s, addTo (mr_Count r) inc (mr_ObsCount r) None c)
    end
  else if bool_decide (mr_Type r = "histogram"%string) then
    let '(sum, obs, s) := state_distribution r s in
    let '(h, s) := state_histogram r s in
    (s, addTo (mr_Count r) sum obs h c)
  else if bool_decide (mr_Type r = "exp_histogram"%string) || bool_decide (mr_Type r = "summary"%string) then
    if mr_StepSeconds r =? 0 then
      let '(sum, obs, s) := state_distribution r s in (s, addTo (mr_Count r) sum obs None c)
    else (s, addTo (mr_Count r) (mr_Sum r) (mr_ObsCount r) None c)
  else (s, addTo (mr_Count r) (mr_Sum r) (mr_ObsCount r) None c).

(** The loop, over the rows and their steps. *)
Fixpoint contributeAll (rows : list MetricRollup) (steps : option (list float64)) (st : cumulativeState * contribution)
  : cumulativeState * contribution :=
  match rows with
  | [] => st
  | r :: rows =>
      contributeAll rows (tail <$> steps) (contributeOne (match steps with Some (d :: _) => Some d | _ => None end) r st)
  end.

(** [seriesContribution] *)
Definition seriesContribution (rows : list MetricRollup) (prev : option MetricRollup) (source : Z)
  : option contribution :=
  match last rows with
  | None => None
  | Some newest =>
      let cumulative := negb (bool_decide (mr_Temporality newest = TemporalityDelta)) && (source =? Step5m) in
      let s := match prev with Some p => state_start (newState cumulative) p | None => newState cumulative end in
      let c := mkContribution newest 0 (toFloat 0) 0 (mr_Last newest) (toFloat 0) (toFloat 0) false None (mr_Extra newest) in
      Some (contributeAll rows (interleavedSteps rows prev cumulative) (s, c)).2
  end.

(** ** All series *)

(** [seriesKey] *)
Definition seriesKey (m : MetricRollup) : Z * string * string := (mr_ProjectID m, mr_Name m, mr_AttrFingerprint m).

(** Keys in the order in which they are first seen. *)
Fixpoint seenOrder {A} `{EqDecision A} (l : list A) : list A :=
  match l with [] => [] | x :: l => x :: filter (fun y => y <> x) (seenOrder l) end.

Definition byBucket (a b : MetricRollup) : Prop := mr_Bucket a <= mr_Bucket b.

#[export] Instance byBucket_dec : RelDecision byBucket.
Proof. intros a b. unfold byBucket. apply _. Defined.

(** The rows of one series, oldest first. *)
Definition seriesRows (src : list MetricRollup) (k : Z * string * string) : list MetricRollup :=
  merge_sort byBucket (filter (fun m => seriesKey m = k) src).

(** [Carry] *)
Record Carry := mkCarry { ca_SourceTail : gmap string MetricRollup; ca_TargetLast : gmap string float64 }.

(** [contributionsBySeries] *)
Definition contributionsBySeries (src : list MetricRollup) (carry : Carry) (source : Z) : list contribution :=
  omap (fun k =>
    let rows := seriesRows src k in
    match rows with
    | [] => None
    | r0 :: _ => seriesContribution rows (ca_SourceTail carry !! SourceTailKey r0) source
    end) (seenOrder (seriesKey <$> src)).

(** [targetAcc] *)
Record targetAcc := mkAcc { ac_row : MetricRollup; ac_hist : option histogram; ac_haveVal : bool }.

(** [newTargetAcc] *)
Definition newTargetAcc (from : MetricRollup) (projectID : Z) (attrs fingerprint : string) (step bucket : Z) : targetAcc :=
  mkAcc (mkMetric projectID (mr_Name from) (mr_Type from) (mr_Unit from) fingerprint attrs bucket 0 (toFloat 0) (toFloat 0)
           (toFloat 0) (toFloat 0) 0 "" (mr_Temporality from) step) None false.

(** [targetAcc.add] *)
Definition acc_add (c : contribution) (a : targetAcc) : targetAcc :=
  let r := ac_row a in
  let min := if ct_haveVal c && (negb (ac_haveVal a) || (ct_min c <? mr_Min r)%f64) then ct_min c else mr_Min r in
  let max := if ct_haveVal c && (negb (ac_haveVal a) || (mr_Max r <? ct_max c)%f64) then ct_max c else mr_Max r in
  let isHist := bool_decide (mr_Type r = "histogram"%string) in
  let opaque := bool_decide (mr_Type r = "exp_histogram"%string) || bool_decide (mr_Type r = "summary"%string) in
  let last := if isHist || opaque then mr_Last r else (mr_Last r + ct_last c)%f64 in
  let extra := if opaque && negb (bool_decide (ct_extra c = ""%string)) then ct_extra c else mr_Extra r in
  mkAcc (mkMetric (mr_ProjectID r) (mr_Name r) (mr_Type r) (mr_Unit r) (mr_AttrFingerprint r) (mr_Attributes r) (mr_Bucket r)
           (wrap64 (mr_Count r + ct_count c)) (mr_Sum r + ct_sum c)%f64 min max last
           (wrap64 (mr_ObsCount r + ct_obsCount c)) extra (mr_Temporality r) (mr_StepSeconds r))
    (if isHist then addHistogram (ac_hist a) (ct_hist c) else ac_hist a)
    (ct_haveVal c || ac_haveVal a).

(** [targetAcc.finish] *)
Definition acc_finish (prevTargetLast : float64) (a : targetAcc) : MetricRollup :=
  let r := ac_row a in
  let isHist := bool_decide (mr_Type r = "histogram"%string) in
  mkMetric (mr_ProjectID r) (mr_Name r) (mr_Type r) (mr_Unit r) (mr_AttrFingerprint r) (mr_Attributes r) (mr_Bucket r)
    (mr_Count r) (mr_Sum r) (mr_Min r) (mr_Max r)
    (if bool_decide (mr_Type r = "sum"%string) then (prevTargetLast + mr_Sum r)%f64 else mr_Last r)
    (if isHist && (mr_ObsCount r =? 0) then toInt64 overflow (hist_total (ac_hist a)) else mr_ObsCount r)
    (if isHist then hist_marshal (ac_hist a) else mr_Extra r) (mr_Temporality r) (mr_StepSeconds r).

(** A turn of the loop of [Merge]: the accumulators and the keys in order. *)
Definition mergeOne (tier : Tier) (bucket projectID : Z) (policy : DropPolicy) (st : gmap string targetAcc * list string)
  (c : contribution) : gmap string targetAcc * list string :=
  let '(accs, order) := st in
  let '(attrs, fp) := Reduce policy (mr_Attributes (ct_row c)) (tier_Step tier) in
  let key := CoarseSeriesKey (mr_Name (ct_row c)) fp in
  match accs !! key with
  | Some acc => (<[key := acc_add c acc]> accs, order)
  | None => (<[key := acc_add c (newTargetAcc (ct_row c) projectID attrs fp (tier_Step tier) bucket)]> accs, order ++ [key])
  end.

(** [Merge] *)
Definition MetricMerge (tier : Tier) (bucket projectID : Z) (src : list MetricRollup) (policy : DropPolicy) (carry : Carry)
  : list MetricRollup :=
  let '(accs, order) := foldl (mergeOne tier bucket projectID policy) (∅, []) (contributionsBySeries src carry (tier_Source tier)) in
  omap (fun key => acc_finish (default (toFloat 0) (ca_TargetLast carry !! key)) <$> accs !! key) order.
End Merge.

(** ** What a merged metric bucket holds

    [MetricMerge] writes one row per reduced label set.  The sample counts of the source
    rows add up in it, and a counter whose totals are integers below 2^53 keeps them
    exactly: a row's sum is the rise of its series in the window and its [last] continues
    the running total. *)

(** ** Keys in the order in which they are first seen *)

Section FirstSeen.
Context {A : Type} `{EqDecision A}.
Implicit Types (x y : A) (l : list A).

Lemma elem_of_seenOrder x l : x ∈ seenOrder l <-> x ∈ l.
Proof.
  induction l as [|y l IH]; [done|]. cbn [seenOrder]. rewrite !elem_of_cons, list_elem_of_filter, IH.
  destruct (decide (x = y)); naive_solver.
Qed.

Lemma NoDup_seenOrder l : NoDup (seenOrder l).
Proof.
  induction l as [|y l IH]; [constructor|]. cbn [seenOrder]. constructor; [|by apply NoDup_filter].
  rewrite list_elem_of_filter. naive_solver.
Qed.

Lemma seenOrder_snoc x l : seenOrder (l ++ [x]) = seenOrder l ++ (if decide (x ∈ l) then [] else [x]).
Proof.
  induction l as [|y l IH]; [by destruct (decide _) as [?%elem_of_nil|]|].
  cbn [seenOrder app]. f_equal. rewrite IH, filter_app. f_equal.
  destruct (decide (x ∈ l)) as [Hx|Hx], (decide (x ∈ y :: l)) as [Hy|Hy]; rewrite elem_of_cons in Hy; try done.
  - naive_solver.
  - assert (x = y) as -> by naive_solver. by rewrite filter_cons_False by naive_solver.
  - by rewrite filter_cons_True by naive_solver.
Qed.
End FirstSeen.

(** A sum over a list, key by key. *)
Lemma sumBy_groups {A K} `{EqDecision K} (key : A -> K) (f : A -> Z) l :
  sumBy f l = sumBy (fun k => sumBy f (filter (fun a => key a = k) l)) (seenOrder (key <$> l)).
Proof.
  induction l as [|x l IH] using rev_ind; [done|].
  rewrite fmap_app. cbn [fmap list_fmap]. rewrite seenOrder_snoc, !sumBy_app, IH.
  assert (forall k, sumBy f (filter (fun a => key a = k) (l ++ [x])) =
    sumBy f (filter (fun a => key a = k) l) + if decide (k = key x) then f x else 0) as Hsnoc.
  { intros k. rewrite filter_app, sumBy_app. f_equal. rewrite filter_cons, filter_nil.
    destruct (decide (key x = k)), (decide (k = key x)); try congruence; done || (rewrite sumBy_cons; cbn; lia). }
  rewrite (sumBy_ext _ _ (seenOrder (key <$> l)) (fun k _ => Hsnoc k)), sumBy_plus.
  assert (forall ks, NoDup ks -> sumBy (fun k => if decide (k = key x) then f x else 0) ks =
    if decide (key x ∈ ks) then f x else 0) as Hone.
  { induction ks as [|k ks IHk]; intros Hnd; [by destruct (decide _) as [?%elem_of_nil|]|].
    apply NoDup_cons in Hnd as [Hk Hnd]. rewrite sumBy_cons, IHk by done.
    destruct (decide (k = key x)) as [->|], (decide (key x ∈ ks)), (decide (key x ∈ _ :: ks)) as [Hin|Hin];
      rewrite ?elem_of_cons in Hin; naive_solver lia. }
  rewrite Hone by apply NoDup_seenOrder.
  destruct (decide (key x ∈ seenOrder (key <$> l))) as [Hin|Hin], (decide (key x ∈ key <$> l)) as [Hin'|Hin'];
    rewrite elem_of_seenOrder in Hin; try done.
  - cbn. lia.
  - rewrite (sumBy_cons _ (key x)), Hsnoc. destruct (decide (key x = key x)); [|done].
    rewrite (sumBy_zero f (filter _ l)); [cbn; lia|].
    intros a [E Ha]%list_elem_of_filter. destruct Hin. apply list_elem_of_fmap. by exists a.
Qed.

Section Merged.
Context (parseAttributes : string -> gmap string string) (marshalAttributes : gmap string string -> option string).
Context (decodeHist : string -> option histogram) (encodeHist : histogram -> option string).
Context (overflow : float64 -> Z).

Abbreviation Reduce := (Reduce parseAttributes marshalAttributes).
Abbreviation contributionsBySeries := (contributionsBySeries decodeHist).
Abbreviation seriesContribution := (seriesContribution decodeHist).
Abbreviation MetricMerge := (MetricMerge parseAttributes marshalAttributes decodeHist encodeHist overflow).

(** ** One row per reduced label set *)

Section Groups.
Context (tier : Tier) (bucket projectID : Z) (policy : DropPolicy).

(** The reduced series of a contribution. *)
Definition reducedKey (c : contribution) : string :=
  CoarseSeriesKey (mr_Name (ct_row c)) (Reduce policy (mr_Attributes (ct_row c)) (tier_Step tier)).2.

Definition freshAcc (c : contribution) : targetAcc :=
  let '(attrs, fp) := Reduce policy (mr_Attributes (ct_row c)) (tier_Step tier) in
  newTargetAcc (ct_row c) projectID attrs fp (tier_Step tier) bucket.

(** What the contributions of one key fold into. *)
Definition groupAcc (k : string) (cs : list contribution) : option targetAcc :=
  match filter (fun c => reducedKey c = k) cs with
  | [] => None
  | c :: rest => Some (foldl (fun a c => acc_add c a) (freshAcc c) (c :: rest))
  end.

Lemma groupAcc_snoc k cs c :
  groupAcc k (cs ++ [c]) =
  if decide (reducedKey c = k) then Some (acc_add c (default (freshAcc c) (groupAcc k cs))) else groupAcc k cs.
Proof.
  unfold groupAcc. rewrite filter_app, filter_cons, filter_nil. destruct (decide (reducedKey c = k)).
  - destruct (filter _ cs) as [|c0 rest]; [done|]. cbn [app default]. by rewrite app_comm_cons, foldl_app.
  - by rewrite app_nil_r.
Qed.

Lemma mergeFold_groups cs :
  let '(accs, order) := foldl (mergeOne parseAttributes marshalAttributes tier bucket projectID policy) (∅, []) cs in
  (forall k, accs !! k = groupAcc k cs) /\ order = seenOrder (reducedKey <$> cs).
Proof.
  induction cs as [|c cs IH] using rev_ind; [done|].
  rewrite foldl_app. destruct (foldl _ (∅, []) cs) as [accs order]. destruct IH as [Ha ->].
  cbn [foldl mergeOne]. rewrite fmap_app. cbn [fmap list_fmap]. rewrite seenOrder_snoc.
  unfold mergeOne. pose proof (eq_refl (reducedKey c)) as Hk. unfold reducedKey in Hk at 2.
  pose proof (eq_refl (freshAcc c)) as Hf. unfold freshAcc in Hf at 2.
  destruct (Reduce policy (mr_Attributes (ct_row c)) (tier_Step tier)) as [attrs fp]. cbn [snd] in Hk.
  rewrite <- Hk, Ha, <- Hf.
  assert (reducedKey c ∈ reducedKey <$> cs <-> is_Some (groupAcc (reducedKey c) cs)) as Hin.
  { unfold groupAcc. rewrite list_elem_of_fmap. destruct (filter _ cs) as [|c0 rest] eqn:Ef.
    - split; [|by intros []]. intros (c' & E & Hc'). assert (c' ∈ filter (fun c' => reducedKey c' = reducedKey c) cs) as Hx
        by (by apply list_elem_of_filter). rewrite Ef in Hx. by apply elem_of_nil in Hx.
    - split; [done|]. intros _. assert (c0 ∈ filter (fun c' => reducedKey c' = reducedKey c) cs) as Hx
        by (rewrite Ef; left). apply list_elem_of_filter in Hx as [Hx ?]. by exists c0. }
  assert (forall a k, a = acc_add c (default (freshAcc c) (groupAcc (reducedKey c) cs)) ->
    <[reducedKey c := a]> accs !! k = groupAcc k (cs ++ [c])) as Hlook.
  { intros a k ->. rewrite groupAcc_snoc. destruct (decide (reducedKey c = k)) as [<-|].
    - by rewrite lookup_insert_eq.
    - rewrite lookup_insert_ne by done. apply Ha. }
  destruct (groupAcc (reducedKey c) cs) as [acc|]; (split; [intros k; by apply Hlook|]).
  - rewrite decide_True by (apply Hin; eauto). by rewrite app_nil_r.
  - rewrite decide_False; [done|]. rewrite Hin. by intros [].
Qed.

Lemma MetricMerge_groups src carry :
  let cs := contributionsBySeries src carry (tier_Source tier) in
  MetricMerge tier bucket projectID src policy carry =
  omap (fun k => acc_finish encodeHist overflow (default (toFloat 0) (ca_TargetLast carry !! k)) <$> groupAcc k cs)
    (seenOrder (reducedKey <$> cs)).
Proof.
  cbn zeta. unfold MetricMerge.MetricMerge.
  pose proof (mergeFold_groups (contributionsBySeries src carry (tier_Source tier))) as Hg.
  destruct (foldl _ (∅, []) _) as [accs order]. destruct Hg as [Ha ->].
  apply list_omap_ext, Forall2_same_length_lookup; split; [done|]. intros i x y Hx Hy.
  rewrite Hx in Hy. injection Hy as <-. by rewrite Ha.
Qed.
End Groups.

(** ** Samples *)

Lemma wrap64_sum_r a b : wrap64 (wrap64 a + b) = wrap64 (a + b).
Proof. by rewrite Z.add_comm, wrap64_add_r, Z.add_comm. Qed.

Lemma contributeOne_count d r st :
  ct_count (contributeOne decodeHist d r st).2 = wrap64 (ct_count st.2 + mr_Count r) /\
  ct_row (contributeOne decodeHist d r st).2 = ct_row st.2.
Proof.
  destruct st as [s c]. unfold contributeOne. cbn [snd].
  destruct (bool_decide _); [destruct d; [done|by destruct (state_increase r s)]|].
  destruct (bool_decide _).
  { destruct (state_distribution r s) as [[sum obs] s']. by destruct (state_histogram decodeHist r s'). }
  destruct (_ || _); [|done]. destruct (mr_StepSeconds r =? 0); [|done].
  by destruct (state_distribution r s) as [[sum obs] s'].
Qed.

Lemma contributeAll_count rows : forall steps st, in_int64 (ct_count st.2) ->
  ct_count (contributeAll decodeHist rows steps st).2 = wrap64 (ct_count st.2 + sumBy mr_Count rows).
Proof.
  induction rows as [|r rows IH]; intros steps st Hin; cbn [contributeAll].
  { replace (sumBy mr_Count []) with 0 by done. by rewrite Z.add_0_r, wrap64_id. }
  rewrite IH by (rewrite (proj1 (contributeOne_count _ _ _)); apply wrap64_range).
  rewrite (proj1 (contributeOne_count _ _ _)), wrap64_sum_r, sumBy_cons. f_equal. lia.
Qed.

Lemma seriesContribution_count rows prev source c :
  seriesContribution rows prev source = Some c -> ct_count c = wrap64 (sumBy mr_Count rows).
Proof.
  unfold MetricMerge.seriesContribution. destruct (last rows) as [newest|]; [|done]. intros [= <-].
  rewrite contributeAll_count by done. done.
Qed.

Lemma seriesRows_sum src k : sumBy mr_Count (seriesRows src k) = sumBy mr_Count (filter (fun m => seriesKey m = k) src).
Proof.
  unfold seriesRows. by rewrite merge_sort_Permutation.
Qed.

(** Sums modulo 2^64. *)
Lemma wrap64_sumBy {A} (f g : A -> Z) l :
  (forall a, a ∈ l -> wrap64 (f a) = wrap64 (g a)) -> wrap64 (sumBy f l) = wrap64 (sumBy g l).
Proof.
  induction l as [|a l IH]; intros Hl; [done|]. rewrite !sumBy_cons, <- wrap64_add_r, IH, wrap64_add_r by (intros; apply Hl; by right).
  rewrite <- wrap64_sum_r, Hl, wrap64_sum_r by left. done.
Qed.

(** Every series has one contribution. *)
Lemma contributionsBySeries_spec src carry source :
  contributionsBySeries src carry source =
  omap (fun k => seriesContribution (seriesRows src k)
                   (match seriesRows src k with r0 :: _ => ca_SourceTail carry !! SourceTailKey r0 | [] => None end) source)
    (seenOrder (seriesKey <$> src)).
Proof.
  unfold MetricMerge.contributionsBySeries. apply list_omap_ext, Forall2_same_length_lookup; split; [done|].
  intros i x y Hx Hy. rewrite Hx in Hy. injection Hy as <-. by destruct (seriesRows src x).
Qed.

Lemma sumBy_omap {A B} (f : A -> option B) (g : B -> Z) (h : A -> Z) l :
  (forall a, a ∈ l -> exists b, f a = Some b /\ wrap64 (g b) = wrap64 (h a)) ->
  wrap64 (sumBy g (omap f l)) = wrap64 (sumBy h l).
Proof.
  induction l as [|a l IH]; intros Hl; [done|]. destruct (Hl a) as (b & E & Hb); [left|].
  cbn [omap list_omap]. rewrite E, !sumBy_cons, <- wrap64_add_r, IH, wrap64_add_r by (intros; apply Hl; by right).
  by rewrite <- wrap64_sum_r, Hb, wrap64_sum_r.
Qed.

Lemma seriesContribution_some src k prev source :
  k ∈ seriesKey <$> src -> is_Some (seriesContribution (seriesRows src k) prev source).
Proof.
  intros (m & -> & Hm)%list_elem_of_fmap. unfold MetricMerge.seriesContribution. destruct (last _) eqn:El; [done|].
  apply last_None in El. assert (m ∈ seriesRows src (seriesKey m)) as Hin; [|rewrite El in Hin; by apply elem_of_nil in Hin].
  unfold seriesRows. rewrite merge_sort_Permutation. by apply list_elem_of_filter.
Qed.

Lemma contributions_count src carry source :
  wrap64 (sumBy ct_count (contributionsBySeries src carry source)) = wrap64 (sumBy mr_Count src).
Proof.
  rewrite (sumBy_groups seriesKey mr_Count src), contributionsBySeries_spec. apply sumBy_omap.
  intros k Hk. rewrite <- seriesRows_sum.
  destruct (seriesContribution (seriesRows src k) _ source) as [c|] eqn:Ec.
  - exists c. split; [done|]. by rewrite (seriesContribution_count _ _ _ _ Ec), (wrap64_id (wrap64 _)) by apply wrap64_range.
  - destruct (seriesContribution_some src k (match seriesRows src k with r0 :: _ => ca_SourceTail carry !! SourceTailKey r0 | [] => None end)
      source) as [c Hc]; [by apply elem_of_seenOrder|congruence].
Qed.

Lemma acc_fold_count cs : forall a, in_int64 (mr_Count (ac_row a)) ->
  mr_Count (ac_row (foldl (fun a c => acc_add c a) a cs)) = wrap64 (mr_Count (ac_row a) + sumBy ct_count cs).
Proof.
  induction cs as [|c cs IH]; intros a Ha; cbn [foldl].
  { replace (sumBy ct_count []) with 0 by done. by rewrite Z.add_0_r, wrap64_id. }
  rewrite IH by (cbn; apply wrap64_range). cbn [acc_add ac_row mr_Count]. rewrite wrap64_sum_r, sumBy_cons. f_equal. lia.
Qed.

(** The series of a row. *)
Definition rowKey (r : MetricRollup) : string := CoarseSeriesKey (mr_Name r) (mr_AttrFingerprint r).

Lemma acc_fold_key cs : forall a, rowKey (ac_row (foldl (fun a c => acc_add c a) a cs)) = rowKey (ac_row a).
Proof. induction cs as [|c cs IH]; intros a; [done|]. cbn [foldl]. by rewrite IH. Qed.

Lemma groupAcc_row tier bucket projectID policy k cs :
  match groupAcc tier bucket projectID policy k cs with
  | Some a => rowKey (ac_row a) = k /\ mr_Count (ac_row a) = wrap64 (sumBy ct_count (filter (fun c => reducedKey tier policy c = k) cs))
  | None => k ∉ reducedKey tier policy <$> cs
  end.
Proof.
  unfold groupAcc. destruct (filter _ cs) as [|c rest] eqn:Ef.
  - rewrite list_elem_of_fmap. intros (c & -> & Hc).
    assert (c ∈ filter (fun c' => reducedKey tier policy c' = reducedKey tier policy c) cs) as Hx by (by apply list_elem_of_filter).
    rewrite Ef in Hx. by apply elem_of_nil in Hx.
  - assert (c ∈ filter (fun c' => reducedKey tier policy c' = k) cs) as [Hk _]%list_elem_of_filter by (rewrite Ef; left).
    rewrite acc_fold_key, acc_fold_count by (unfold freshAcc; by destruct (Reduce _ _ _)).
    unfold freshAcc, reducedKey in *. destruct (Reduce _ _ _) as [attrs fp]. by split.
Qed.

(** The rows of a bucket have different series. *)
Lemma MetricMerge_NoDup tier bucket projectID src policy carry :
  NoDup (rowKey <$> MetricMerge tier bucket projectID src policy carry).
Proof.
  rewrite MetricMerge_groups. set (cs := contributionsBySeries src carry (tier_Source tier)).
  apply (sublist_NoDup _ (seenOrder (reducedKey tier policy <$> cs))); [apply NoDup_seenOrder|].
  induction (seenOrder (reducedKey tier policy <$> cs)) as [|k ks IH]; [constructor|]. cbn [omap list_omap].
  pose proof (groupAcc_row tier bucket projectID policy k cs) as Hg.
  destruct (groupAcc _ _ _ _ k cs) as [a|]; [|by constructor]. cbn [fmap option_fmap option_map list_fmap].
  replace (rowKey (acc_finish _ _ _ a)) with k by (symmetry; apply Hg). by constructor.
Qed.

(** They belong to the bucket. *)
Lemma MetricMerge_at tier bucket projectID src policy carry r :
  r ∈ MetricMerge tier bucket projectID src policy carry ->
  mr_ProjectID r = projectID /\ mr_Bucket r = bucket /\ mr_StepSeconds r = tier_Step tier.
Proof.
  rewrite MetricMerge_groups. intros (k & _ & Ho)%list_elem_of_omap. unfold groupAcc in Ho.
  destruct (filter _ _) as [|c rest]; [done|]. apply Some_inj in Ho. subst r.
  assert (forall cs a, let r := ac_row (foldl (fun a c => acc_add c a) a cs) in
    mr_ProjectID r = mr_ProjectID (ac_row a) /\ mr_Bucket r = mr_Bucket (ac_row a) /\ mr_StepSeconds r = mr_StepSeconds (ac_row a)) as Hf.
  { induction cs as [|c' cs IH]; intros a; [done|]. cbn [foldl]. exact (IH (acc_add c' a)). }
  destruct (Hf (c :: rest) (freshAcc tier bucket projectID policy c)) as (E1 & E2 & E3).
  cbn [acc_finish mr_ProjectID mr_Bucket mr_StepSeconds]. rewrite E1, E2, E3. unfold freshAcc. by destruct (Reduce _ _ _).
Qed.

(** Merging keeps every sample.  For any source rows, drop policy and carried rows,
    the sample counts of the rows [Merge] returns add up to those of the rows it was
    given, and no two of the returned rows have the same name and reduced label set.
    Counts are int64, so the sums agree modulo 2^64. *)
Theorem merge_keeps_samples tier bucket projectID src policy carry :
  let out := MetricMerge tier bucket projectID src policy carry in
  wrap64 (sumBy mr_Count out) = wrap64 (sumBy mr_Count src) /\ NoDup (rowKey <$> out).
Proof.
  cbn zeta. split; [|apply MetricMerge_NoDup].
  rewrite MetricMerge_groups. set (cs := contributionsBySeries src carry (tier_Source tier)).
  rewrite <- (contributions_count src carry (tier_Source tier)). fold cs.
  rewrite (sumBy_groups (reducedKey tier policy) ct_count cs). apply sumBy_omap. intros k Hk.
  pose proof (groupAcc_row tier bucket projectID policy k cs) as Hg.
  destruct (groupAcc _ _ _ _ k cs) as [a|]; [|by rewrite elem_of_seenOrder in Hk].
  eexists. split; [done|]. cbn [acc_finish mr_Count]. by rewrite (proj2 Hg), wrap64_id by apply wrap64_range.
Qed.
End Merged.
