(* ===== verification/MetricCounter.v ===== *)
(** * Counters in the coarse tiers

    A counter whose totals are integers below 2^53 loses nothing to float64 arithmetic or
    to the merge of label sets: a coarse row's sum is the rise of its series in the window,
    restarts included, and its [last] is the total before plus that rise. *)
From S2P Require Import Prelude Tiers Float64 MetricSeries MetricMerge.

(** ** The rise of a total *)

(** The increase over the totals [vs] after [prev]: a total below the one before starts a
    count of its own, and the first total of all adds nothing. *)
Fixpoint rise (prev : option Z) (vs : list Z) : Z :=
  match vs with
  | [] => 0
  | v :: vs => (match prev with None => 0 | Some p => if p <=? v then v - p else v end) + rise (Some v) vs
  end.

(** How often the totals fall. *)
Fixpoint falls (vs : list Z) : nat :=
  match vs with
  | a :: (b :: _) as vs' => ((if (b <? a)%Z then 1 else 0) + falls vs')%nat
  | _ => 0%nat
  end.

Definition total (v : Z) : Prop := 0 <= v < 2 ^ 53.

Lemma total_small v : total v -> small v.
Proof. unfold total, small. lia. Qed.

Lemma rise_nonneg vs : forall prev, Forall total vs -> 0 <= rise prev vs.
Proof.
  induction vs as [|v vs IH]; intros prev Hv; [done|]. apply Forall_cons in Hv as [Hv Hvs]. cbn [rise].
  specialize (IH (Some v) Hvs). unfold total in Hv. destruct prev as [p|]; [|lia]. destruct (Z.leb_spec p v); lia.
Qed.

(** Totals that never fall rise from the first to the last. *)
Lemma rise_monotone vs : forall p, falls (p :: vs) = 0%nat -> rise (Some p) vs = List.last vs p - p.
Proof.
  induction vs as [|v vs IH]; intros p Hf; [cbn; lia|]. cbn [falls] in Hf.
  destruct (Z.ltb_spec v p); [lia|]. cbn [rise]. rewrite IH by exact Hf.
  destruct (Z.leb_spec p v); [|lia].
  replace (List.last (v :: vs) p) with (List.last vs v); [lia|].
  clear. revert v. induction vs as [|w vs IH]; intros v; [done|]. destruct vs; [done|]. exact (IH v).
Qed.

(** ** Rebounds *)

Fixpoint rebounds (vs : list Z) : nat :=
  match vs with
  | a :: (b :: (c :: _)) as vs' => ((if (b <? a)%Z && (a <=? c)%Z then 1 else 0) + rebounds vs')%nat
  | _ => 0%nat
  end.

Lemma rebounds_falls vs : (rebounds vs <= falls vs)%nat.
Proof.
  induction vs as [|a [|b [|c vs]] IH]; try (cbn; lia). cbn [rebounds falls] in *.
  destruct (b <? a), (a <=? c); cbn [andb]; lia.
Qed.

Lemma filter_shift (P Q : nat -> Prop) `{!forall i, Decision (P i), !forall i, Decision (Q i)} l :
  (forall i, i ∈ l -> P (S i) <-> Q i) -> length (filter P (S <$> l)) = length (filter Q l).
Proof.
  induction l as [|i l IH]; intros Hl; [done|]. cbn [fmap list_fmap]. rewrite !filter_cons.
  specialize (IH (fun i Hi => Hl i (list_elem_of_further _ _ _ Hi))).
  destruct (Hl i (list_elem_of_here _ _)). destruct (decide (P (S i))), (decide (Q i)); cbn [length]; naive_solver.
Qed.

Lemma Interleaved_rebounds vs : Forall small vs ->
  length (filter (fun i => rebound (ofZ <$> vs) i = true) (seq 2 (length (ofZ <$> vs) - 2))) = rebounds vs.
Proof.
  induction vs as [|a [|b [|c vs]] IH]; intros Hs; try done.
  apply Forall_cons in Hs as [Ha Hs]. specialize (IH Hs).
  assert (small b /\ small c) as [Hb Hc] by (split; eapply Forall_forall; try exact Hs; set_solver).
  cbn [fmap list_fmap length] in IH |- *. rewrite !length_fmap in *.
  replace (S (S (S (length vs))) - 2)%nat with (S (length vs)) by lia.
  replace (S (S (length vs)) - 2)%nat with (length vs) in IH by lia.
  cbn [seq]. rewrite <- fmap_S_seq, filter_cons. cbn [rebounds].
  assert (forall l : list nat, (forall i, i ∈ l -> (2 <= i)%nat) ->
    length (filter (fun i => rebound (ofZ a :: ofZ b :: ofZ c :: (ofZ <$> vs)) i = true) (S <$> l)) =
    length (filter (fun i => rebound (ofZ b :: ofZ c :: (ofZ <$> vs)) i = true) l)) as Hshift.
  { intros l Hl. apply filter_shift. intros i Hi. destruct i as [|[|i]]; [apply Hl in Hi; lia|apply Hl in Hi; lia|].
    unfold rebound. cbn [Nat.sub]. by rewrite Nat.sub_0_r. }
  assert (rebound (ofZ a :: ofZ b :: ofZ c :: (ofZ <$> vs)) 2 = ((b <? a) && (a <=? c))) as ->.
  { unfold rebound. cbn. by rewrite ofZ_ltb, ofZ_leb. }
  specialize (Hshift (seq 2 (length vs)) ltac:(intros i ?%elem_of_seq; lia)).
  destruct (decide _) as [Hd|Hd]; [rewrite Hd|apply not_true_is_false in Hd; rewrite Hd]; cbn [length]; rewrite Hshift; by rewrite IH.
Qed.

(** Totals that fall at most once are not interleaved. *)
Lemma falls_not_Interleaved vs : Forall total vs -> (falls vs <= 1)%nat -> Interleaved (ofZ <$> vs) = false.
Proof.
  intros Hv Hf. unfold Interleaved. rewrite Interleaved_rebounds by (by eapply Forall_impl; [|apply total_small]).
  pose proof (rebounds_falls vs). apply Nat.leb_gt. unfold minRebounds. lia.
Qed.

Section Counter.
Context (parseAttributes : string -> gmap string string) (marshalAttributes : gmap string string -> option string).
Context (decodeHist : string -> option histogram) (encodeHist : histogram -> option string).
Context (overflow : float64 -> Z).
(** The total a row holds. *)
Context (val : MetricRollup -> Z).

Definition holdsTotal (r : MetricRollup) : Prop := mr_Last r = ofZ (val r) /\ total (val r).

Definition counterRow (r : MetricRollup) : Prop :=
  mr_Type r = "sum"%string /\ mr_Temporality r <> TemporalityDelta /\ holdsTotal r.

Lemma ofZ_zero : toFloat 0 = ofZ 0.
Proof. done. Qed.

(** ** One series *)

(** The total a state goes on from. *)
Definition stateAt (prev : option Z) (s : cumulativeState) : Prop :=
  cs_cumulative s = true /\
  match prev with
  | None => cs_haveLast s = false
  | Some p => cs_haveLast s = true /\ cs_last s = ofZ p /\ total p
  end.

Lemma state_increase_rise prev r s :
  stateAt prev s -> counterRow r ->
  (state_increase r s).1 = ofZ (rise prev [val r]) /\ stateAt (Some (val r)) (state_increase r s).2.
Proof.
  intros [Hc Hp] (_ & _ & Hl & Ht). unfold state_increase. rewrite Hc. cbn [negb fst snd].
  split; [|exact (conj eq_refl (conj eq_refl (conj Hl Ht)))]. cbn [rise]. rewrite Z.add_0_r. destruct prev as [p|]; [|by rewrite Hp].
  destruct Hp as (-> & -> & Htp). cbn [negb]. rewrite Hl, ofZ_leb by (by apply total_small).
  destruct (Z.leb_spec p (val r)); [|done]. apply ofZ_sub; try (by apply total_small).
  unfold small, total in *. lia.
Qed.

Lemma contributeAll_rise rows : forall prev s c a,
  Forall counterRow rows -> stateAt prev s -> ct_sum c = ofZ a -> 0 <= a -> a + rise prev (val <$> rows) < 2 ^ 53 ->
  ct_sum (contributeAll decodeHist rows None (s, c)).2 = ofZ (a + rise prev (val <$> rows)).
Proof.
  induction rows as [|r rows IH]; intros prev s c a Hr Hs Hc Ha Hb; cbn [contributeAll]; [by rewrite Z.add_0_r|].
  apply Forall_cons in Hr as [Hr Hrs]. destruct (state_increase_rise prev r s Hs Hr) as [Hi Hs'].
  destruct Hr as (Ht & _ & _ & Htot). unfold contributeOne at 1. rewrite Ht, bool_decide_true by done.
  destruct (state_increase r s) as [inc s']. cbn [fst snd fmap list_fmap option_fmap option_map] in *.
  assert (Forall total (val <$> rows)) as Hv.
  { apply Forall_fmap. eapply Forall_impl; [exact Hrs|]. intros x (_ & _ & _ & Hx). exact Hx. }
  pose proof (rise_nonneg (val <$> rows) (Some (val r)) Hv) as Hn.
  pose proof (rise_nonneg [val r] prev ltac:(by constructor)) as Hn1.
  assert (rise prev (val r :: (val <$> rows)) = rise prev [val r] + rise (Some (val r)) (val <$> rows)) as E
    by (cbn [rise]; lia).
  rewrite E in *. rewrite Z.add_assoc. apply (IH (Some (val r))); [done|done| |lia|lia].
  cbn [addTo ct_sum observeRow]. rewrite Hc, Hi. apply ofZ_add; unfold small; lia.
Qed.

(** The carried total of a series. *)
Definition tailTotal (prev : option MetricRollup) : option Z := val <$> prev.

Definition tailList (prev : option MetricRollup) : list Z := match prev with Some p => [val p] | None => [] end.

Lemma seriesContribution_rise rows prev c :
  Forall counterRow rows -> (forall p, prev = Some p -> holdsTotal p) ->
  (falls (tailList prev ++ (val <$> rows)) <= 1)%nat -> rise (tailTotal prev) (val <$> rows) < 2 ^ 53 ->
  seriesContribution decodeHist rows prev Step5m = Some c ->
  ct_sum c = ofZ (rise (tailTotal prev) (val <$> rows)).
Proof.
  intros Hr Hp Hf Hb. unfold seriesContribution. destruct (last rows) as [newest|] eqn:El; [|done]. intros [= <-].
  assert (counterRow newest) as (_ & Htemp & _) by (eapply Forall_forall; [exact Hr|by apply last_Some_elem_of]).
  rewrite bool_decide_false by done. cbn [negb andb].
  assert (interleavedSteps rows prev true = None) as ->.
  { unfold interleavedSteps. destruct rows as [|r0 rows'] eqn:Erows; [done|]. rewrite <- Erows in *. cbn [negb orb].
    assert (counterRow r0) as (Ht & _) by (eapply Forall_forall; [exact Hr|rewrite Erows; left]).
    rewrite Ht, bool_decide_true by done. cbn [negb].
    replace (_ ++ (mr_Last <$> rows)) with (ofZ <$> (tailList prev ++ (val <$> rows))).
    - rewrite falls_not_Interleaved; [done| |done]. apply Forall_app; split.
      + destruct prev as [p|]; [|constructor]. constructor; [|constructor]. by apply Hp.
      + apply Forall_fmap. eapply Forall_impl; [exact Hr|]. intros x (_ & _ & _ & Hx). exact Hx.
    - rewrite fmap_app, <- list_fmap_compose. f_equal.
      + destruct prev as [p|]; [|done]. cbn. by rewrite (proj1 (Hp p eq_refl)).
      + apply list_fmap_ext. intros i x Hx. assert (counterRow x) as (_ & _ & Hl & _); [|done].
        eapply Forall_forall; [exact Hr|]. by eapply list_elem_of_lookup_2. }
  rewrite (contributeAll_rise rows (tailTotal prev) _ _ 0); try done.
  destruct prev as [p|]; [|done]. split; [done|]. cbn. by destruct (Hp p eq_refl).
Qed.

Lemma contributeAll_row rows : forall steps st, ct_row (contributeAll decodeHist rows steps st).2 = ct_row st.2.
Proof.
  induction rows as [|r rows IH]; intros steps st; [done|]. cbn [contributeAll]. rewrite IH. apply contributeOne_count.
Qed.

Lemma seriesContribution_row rows prev source c :
  seriesContribution decodeHist rows prev source = Some c -> last rows = Some (ct_row c).
Proof.
  unfold seriesContribution. destruct (last rows) as [newest|]; [|done]. intros [= <-]. by rewrite contributeAll_row.
Qed.

(** ** A bucket *)

Section Bucket.
Context (tier : Tier) (bucket projectID : Z) (src : list MetricRollup) (policy : DropPolicy) (carry : Carry).

(** The row a series goes on from. *)
Definition seriesTail (s : Z * string * string) : option MetricRollup :=
  match seriesRows src s with r0 :: _ => ca_SourceTail carry !! SourceTailKey r0 | [] => None end.

(** The totals a series reports from the carried row on. *)
Definition seriesTotals (s : Z * string * string) : list Z := tailList (seriesTail s) ++ (val <$> seriesRows src s).

(** The rise of a series in the window. *)
Definition seriesRise (s : Z * string * string) : Z := rise (tailTotal (seriesTail s)) (val <$> seriesRows src s).

(** The coarse series a source series merges into. *)
Definition seriesTarget (s : Z * string * string) : string :=
  match last (seriesRows src s) with
  | Some m => CoarseSeriesKey (mr_Name m) (Reduce parseAttributes marshalAttributes policy (mr_Attributes m) (tier_Step tier)).2
  | None => ""
  end.

(** The rise of every source series of a coarse series. *)
Definition targetRise (k : string) : Z :=
  sumBy seriesRise (filter (fun s => seriesTarget s = k) (seenOrder (seriesKey <$> src))).

Record counterWindow (base : string -> Z) : Prop := {
  cw_source : tier_Source tier = Step5m;
  cw_rows : Forall counterRow src;
  cw_tails : forall k r, ca_SourceTail carry !! k = Some r -> holdsTotal r;
  cw_falls : forall s, s ∈ seriesKey <$> src -> (falls (seriesTotals s) <= 1)%nat;
  cw_base : forall k, default (toFloat 0) (ca_TargetLast carry !! k) = ofZ (base k) /\ 0 <= base k;
  cw_bound : forall k, base k + targetRise k < 2 ^ 53;
}.
Context (base : string -> Z).
Hypothesis W : counterWindow base.

Lemma seriesRows_in s r : r ∈ seriesRows src s -> r ∈ src.
Proof. unfold seriesRows. rewrite merge_sort_Permutation. by intros [_ ?]%list_elem_of_filter. Qed.

Lemma seriesRows_counter s : Forall counterRow (seriesRows src s).
Proof. apply Forall_forall. intros r Hr%seriesRows_in. pose proof (cw_rows _ W) as Hw. rewrite Forall_forall in Hw. by apply Hw. Qed.

Lemma seriesRise_nonneg s : 0 <= seriesRise s.
Proof.
  apply rise_nonneg, Forall_fmap. eapply Forall_impl; [apply seriesRows_counter|]. intros x (_ & _ & _ & Hx). exact Hx.
Qed.

Lemma sumBy_le_elem {A} (f : A -> Z) l a : (forall x, 0 <= f x) -> a ∈ l -> f a <= sumBy f l.
Proof.
  intros Hf. induction l as [|x l IH]; [by intros ?%elem_of_nil|]. rewrite elem_of_cons, sumBy_cons.
  pose proof (sumBy_nonneg f l (fun a _ => Hf a)). pose proof (Hf x). intros [->|Ha]; [lia|]. specialize (IH Ha). lia.
Qed.

(** Each contribution to a bucket is the rise of one series. *)
Lemma contributions_rise :
  Forall2 (fun s c => reducedKey parseAttributes marshalAttributes tier policy c = seriesTarget s /\
                      ct_sum c = ofZ (seriesRise s) /\ counterRow (ct_row c))
    (seenOrder (seriesKey <$> src)) (contributionsBySeries decodeHist src carry (tier_Source tier)).
Proof.
  rewrite contributionsBySeries_spec, (cw_source _ W).
  assert (forall s, s ∈ seenOrder (seriesKey <$> src) -> s ∈ seriesKey <$> src) as Hin
    by (intros s; by rewrite elem_of_seenOrder).
  assert (forall s, s ∈ seenOrder (seriesKey <$> src) -> seriesRise s < 2 ^ 53) as Hb.
  { intros s Hs. pose proof (cw_bound _ W (seriesTarget s)) as Hb. destruct (cw_base _ W (seriesTarget s)) as [_ H0].
    enough (seriesRise s <= targetRise (seriesTarget s)) by lia.
    apply sumBy_le_elem; [apply seriesRise_nonneg|]. by apply list_elem_of_filter. }
  revert Hin Hb. generalize (seenOrder (seriesKey <$> src)) as l. induction l as [|s l IH]; intros Hin Hb; [constructor|].
  cbn [omap list_omap]. fold (seriesTail s).
  destruct (seriesContribution decodeHist (seriesRows src s) (seriesTail s) Step5m) as [c|] eqn:Ec.
  - constructor; [|apply IH; intros; [apply Hin|apply Hb]; by right].
    pose proof (seriesContribution_row _ _ _ _ Ec) as El. split_and!.
    + unfold reducedKey, seriesTarget. by rewrite El.
    + apply (seriesContribution_rise _ _ _ (seriesRows_counter s)) in Ec; [exact Ec| | |apply Hb; left].
      * intros p Hp. unfold seriesTail in Hp. destruct (seriesRows src s); [done|]. by eapply (cw_tails _ W).
      * apply (cw_falls _ W), Hin. left.
    + pose proof (seriesRows_counter s) as Hc. rewrite Forall_forall in Hc. by apply Hc, last_Some_elem_of.
  - destruct (seriesContribution_some decodeHist src s (seriesTail s) Step5m) as [c Hc]; [apply Hin; left|congruence].
Qed.

(** Adding contributions adds their sums. *)
Lemma acc_fold_sum {S} (f : S -> Z) (Hf : forall s, 0 <= f s) ss cs :
  Forall2 (fun s c => ct_sum c = ofZ (f s)) ss cs -> forall a z,
  mr_Sum (ac_row a) = ofZ z -> 0 <= z -> z + sumBy f ss < 2 ^ 53 ->
  mr_Sum (ac_row (foldl (fun a c => acc_add c a) a cs)) = ofZ (z + sumBy f ss) /\
  mr_Type (ac_row (foldl (fun a c => acc_add c a) a cs)) = mr_Type (ac_row a) /\
  mr_Temporality (ac_row (foldl (fun a c => acc_add c a) a cs)) = mr_Temporality (ac_row a).
Proof.
  induction 1 as [|s c ss cs Hc _ IH]; intros a z Ha Hz Hb; cbn [foldl]; [by rewrite Z.add_0_r|].
  rewrite sumBy_cons in *. pose proof (Hf s). pose proof (sumBy_nonneg f ss (fun s _ => Hf s)).
  destruct (IH (acc_add c a) (z + f s)) as (-> & -> & ->); [|lia|lia|].
  - cbn [acc_add ac_row mr_Sum]. rewrite Ha, Hc. apply ofZ_add; unfold small; lia.
  - split; [f_equal; lia|done].
Qed.

Lemma Forall2_filter {S C} (P : S -> Prop) (Q : C -> Prop) `{!forall s, Decision (P s), !forall c, Decision (Q c)}
  (R : S -> C -> Prop) ss cs :
  Forall2 (fun s c => (P s <-> Q c) /\ R s c) ss cs -> Forall2 R (filter P ss) (filter Q cs).
Proof.
  induction 1 as [|s c ss cs [Hpq Hr] _ IH]; [constructor|]. rewrite !filter_cons.
  destruct (decide (P s)), (decide (Q c)); try tauto. by constructor.
Qed.

Lemma groupAcc_rise k a :
  groupAcc parseAttributes marshalAttributes tier bucket projectID policy k
    (contributionsBySeries decodeHist src carry (tier_Source tier)) = Some a ->
  mr_Sum (ac_row a) = ofZ (targetRise k) /\ mr_Type (ac_row a) = "sum"%string /\ mr_Temporality (ac_row a) <> TemporalityDelta.
Proof.
  unfold groupAcc. pose proof contributions_rise as Hc.
  apply (Forall2_impl _ (fun s c => (seriesTarget s = k <-> reducedKey parseAttributes marshalAttributes tier policy c = k) /\
    ct_sum c = ofZ (seriesRise s) /\ counterRow (ct_row c))) in Hc; [|intros s c (-> & ? & ?); tauto].
  apply (Forall2_filter (fun s => seriesTarget s = k) (fun c => reducedKey parseAttributes marshalAttributes tier policy c = k)) in Hc.
  destruct (filter _ (contributionsBySeries _ _ _ _)) as [|c rest] eqn:Ef; [done|].
  intros [= <-]. pose proof (cw_bound _ W k) as Hb. destruct (cw_base _ W k) as [_ H0].
  assert (mr_Sum (ac_row (freshAcc parseAttributes marshalAttributes tier bucket projectID policy c)) = ofZ 0 /\
          mr_Type (ac_row (freshAcc parseAttributes marshalAttributes tier bucket projectID policy c)) = mr_Type (ct_row c) /\
          mr_Temporality (ac_row (freshAcc parseAttributes marshalAttributes tier bucket projectID policy c)) = mr_Temporality (ct_row c)) as (Hz & Ht & Hd)
    by (unfold freshAcc; by destruct (Reduce _ _ _ _ _)).
  assert (counterRow (ct_row c)) as (Hs & Hnd & _) by (by inversion Hc as [|? ? ? ? (_ & ?)]).
  eapply Forall2_impl in Hc; [|intros s c' [Hx _]; exact Hx].
  destruct (acc_fold_sum seriesRise seriesRise_nonneg _ _ Hc _ 0 Hz) as (Es & Et & Ed); [lia|unfold targetRise in Hb; lia|].
  split; [exact Es|]. rewrite <- Hs, <- Ht. split; [exact Et|]. intros E. apply Hnd. rewrite <- Hd, <- E. symmetry. exact Ed.
Qed.
End Bucket.

(** A counter in a merged bucket. *)
Lemma merge_counter tier bucket projectID src policy carry base out :
  counterWindow tier src policy carry base ->
  out ∈ MetricMerge parseAttributes marshalAttributes decodeHist encodeHist overflow tier bucket projectID src policy carry ->
  mr_Sum out = ofZ (targetRise tier src policy carry (rowKey out)) /\
  mr_Last out = ofZ (base (rowKey out) + targetRise tier src policy carry (rowKey out)) /\
  mr_Type out = "sum"%string /\ mr_Temporality out <> TemporalityDelta.
Proof.
  intros W. rewrite MetricMerge_groups. intros (k & Hk & Ho)%list_elem_of_omap.
  pose proof (groupAcc_row parseAttributes marshalAttributes tier bucket projectID policy k
    (contributionsBySeries decodeHist src carry (tier_Source tier))) as Hg.
  pose proof (groupAcc_rise tier bucket projectID src policy carry base W k) as Hr.
  destruct (groupAcc _ _ _ _ _ _ _ _) as [a|]; [|done]. destruct (Hr a eq_refl) as (Hsum & Htype & Htemp).
  apply Some_inj in Ho. rewrite <- Ho.
  assert (rowKey (acc_finish encodeHist overflow (default (toFloat 0) (ca_TargetLast carry !! k)) a) = k) as -> by apply Hg.
  cbn [acc_finish mr_Sum mr_Last mr_Type mr_Temporality]. rewrite Htype, bool_decide_true, Hsum by done.
  split; [done|]. split; [|done]. destruct (cw_base _ _ _ _ _ W k) as [-> H0]. pose proof (cw_bound _ _ _ _ _ W k).
  assert (0 <= targetRise tier src policy carry k) by (apply sumBy_nonneg; intros; by eapply seriesRise_nonneg).
  apply ofZ_add; unfold small; lia.
Qed.

(** C18: A merged counter is exact.  Take any window of 5-minute rows of cumulative counters
    whose totals are integers below 2^53 and fall at most once per series, together with
    the rows carried into it.  Every row [Merge] returns then holds in [sum] the rise of all
    source series of its reduced label set, a restart counting from zero, and in [last] the
    total of the target bucket before plus that rise. *)
Theorem merge_counter_exact tier bucket projectID src policy carry base out :
  counterWindow tier src policy carry base ->
  out ∈ MetricMerge parseAttributes marshalAttributes decodeHist encodeHist overflow tier bucket projectID src policy carry ->
  mr_Sum out = ofZ (targetRise tier src policy carry (rowKey out)) /\
  mr_Last out = ofZ (base (rowKey out) + targetRise tier src policy carry (rowKey out)).
Proof. intros W Ho. by destruct (merge_counter _ _ _ _ _ _ _ _ W Ho) as (? & ? & _). Qed.
End Counter.

(** ** An hour of two pods *)

Definition demoVal (r : MetricRollup) : Z := default 0 (truncate (mr_Last r)).

(** The label set of a pod, named by its instance. *)
Definition demoParse (attributes : string) : gmap string string :=
  <["service.name" := "web"%string]> {["service.instance.id"%string := attributes]}.

Definition demoRow (pod : string) (minute last : Z) : MetricRollup :=
  mkMetric 1 "requests" "sum" "1" pod pod (minute * Prelude.minute) 1 (toFloat last) (toFloat last) (toFloat last) (toFloat last)
    0 "" "cumulative" 0.

(** Pod a restarts in the hour; pod b is new. *)
Definition demoSrc : list MetricRollup :=
  [demoRow "a" 60 8; demoRow "b" 60 10; demoRow "a" 65 2; demoRow "b" 70 12; demoRow "a" 70 6].

Definition demoKey : string :=
  CoarseSeriesKey "requests" (Fingerprint {["service.name"%string := "web"%string]}).

Definition demoTails : gmap string MetricRollup := {[SourceTailKey (demoRow "a" 55 5) := demoRow "a" 55 5]}.

Definition demoCarry : Carry := mkCarry demoTails {[demoKey := toFloat 100]}.

Definition demoBase (k : string) : Z := if decide (k = demoKey) then 100 else 0.

Definition demoTier : Tier := mkTier StepHour Step5m.

Definition demoMerged : list MetricRollup :=
  MetricMerge demoParse (fun _ => None) (fun _ => None) (fun _ => None) (fun _ => 0) demoTier hour 1 demoSrc DefaultDropPolicy demoCarry.

Example demoMerged_row :
  (fun r => (mr_Count r, mr_Sum r, mr_Last r)) <$> demoMerged = [(5, toFloat 11, toFloat 111)].
Proof. vm_compute. reflexivity. Qed.

(** The window is one of counters, whatever totals it continues. *)
Lemma demoWindow last base :
  (forall k, default (toFloat 0) (last !! k) = ofZ (base k) /\ 0 <= base k <= 100) ->
  counterWindow demoParse (fun _ => None) demoVal demoTier demoSrc DefaultDropPolicy (mkCarry demoTails last) base.
Proof.
  intros Hbase. constructor.
  - done.
  - repeat constructor; try done; by vm_compute.
  - intros k r. cbn [ca_SourceTail]. unfold demoTails. intros [<- <-]%lookup_singleton_Some. by repeat split; vm_compute.
  - assert (Forall (fun s => (falls (seriesTotals demoVal demoSrc (mkCarry demoTails last) s) <= 1)%nat) (seriesKey <$> demoSrc)) as Hf
      by (repeat constructor; vm_compute; lia).
    by apply Forall_forall.
  - intros k. destruct (Hbase k). split; [done|lia].
  - intros k. destruct (Hbase k) as [_ Hk].
    assert (seenOrder (seriesKey <$> demoSrc) = [(1, "requests"%string, "a"%string); (1, "requests"%string, "b"%string)]) as E
      by (by vm_compute).
    assert (seriesRise demoVal demoSrc (mkCarry demoTails last) (1, "requests"%string, "a"%string) = 9) as Ea by (by vm_compute).
    assert (seriesRise demoVal demoSrc (mkCarry demoTails last) (1, "requests"%string, "b"%string) = 2) as Eb by (by vm_compute).
    unfold targetRise. rewrite E, !filter_cons, filter_nil.
    repeat case_decide; rewrite ?sumBy_cons, ?Ea, ?Eb; unfold sumBy; cbn [fold_right foldr fmap list_fmap]; lia.
Qed.

Lemma merge_counter_exact_witness :
  demoMerged <> [] /\ forall out, out ∈ demoMerged ->
    mr_Sum out = ofZ (targetRise demoParse (fun _ => None) demoVal demoTier demoSrc DefaultDropPolicy demoCarry (rowKey out)) /\
    mr_Last out = ofZ (demoBase (rowKey out) +
                       targetRise demoParse (fun _ => None) demoVal demoTier demoSrc DefaultDropPolicy demoCarry (rowKey out)).
Proof.
  split; [by vm_compute|]. intros out. apply merge_counter_exact. apply demoWindow.
  intros k. unfold demoBase. destruct (decide (k = demoKey)) as [->|]; [by rewrite lookup_singleton_eq|].
  by rewrite lookup_singleton_ne by congruence.
Defined.

(** ** Reading a counter back ([internal/metrics/totals.go], [RollupInputPoint] of
    [internal/service/metrics_insights.go])

    [increase] sums the growth of one series over its points, and a point of a counter holds
    the running total of its bucket. *)

(** [RollupInputPoint] *)
Definition RollupInputPoint (row : MetricRollup) : InputPoint :=
  let value := mr_Last row in
  let value := if bool_decide (mr_Type row = "gauge"%string) && (0 <? mr_Count row)
               then (mr_Sum row / toFloat (mr_Count row))%f64 else value in
  let delta := bool_decide (mr_Type row = "sum"%string) && bool_decide (mr_Temporality row = TemporalityDelta) in
  let value := if delta then mr_Sum row else value in
  mkPoint (mr_Bucket row) value (mr_ObsCount row) delta 0 (mr_Extra row) ∅.

(** The loop of [increase], with the point before. *)
Fixpoint increaseFrom (sum : float64) (prev : option InputPoint) (pts : list InputPoint) : float64 :=
  match pts with
  | [] => sum
  | p :: pts =>
      let sum :=
        if ip_Delta p then (sum + ip_Value p)%f64
        else match prev with
             | None => sum
             | Some q => if (ip_Value q <=? ip_Value p)%f64 then (sum + (ip_Value p - ip_Value q))%f64 else (sum + ip_Value p)%f64
             end in
      increaseFrom sum (Some p) pts
  end.

(** [increase] *)
Definition increase (pts : list InputPoint) : float64 :=
  match cumulativeValues pts with
  | Some values =>
      if Interleaved values then
        foldl (fun sum i => match ChainPrevious values !! i with
                            | Some (Some p) => (sum + (at_ values i - at_ values p))%f64
                            | _ => sum
                            end) (toFloat 0) (seq 0 (length values))
      else increaseFrom (toFloat 0) None pts
  | None => increaseFrom (toFloat 0) None pts
  end.

(** ** Counters with integer totals *)

Definition counterPoint (v : Z) (p : InputPoint) : Prop := ip_Delta p = false /\ ip_Value p = ofZ v /\ total v.

Lemma increaseFrom_rise vs pts : Forall2 counterPoint vs pts -> forall a prev q, 0 <= a ->
  match prev, q with Some p, Some v => counterPoint v p | None, None => True | _, _ => False end ->
  a + rise q vs < 2 ^ 53 -> increaseFrom (ofZ a) prev pts = ofZ (a + rise q vs).
Proof.
  induction 1 as [|v p vs pts Hp Hps IH]; intros a prev q Ha Hprev Hb; [cbn; f_equal; lia|].
  destruct Hp as (Hd & Hv & Ht). cbn [increaseFrom rise]. rewrite Hd.
  assert (Forall total vs) as Hts by (clear - Hps; induction Hps as [|v p vs pts (_ & _ & ?)]; by constructor).
  pose proof (rise_nonneg vs (Some v) Hts) as Hn. cbn [rise] in Hb. unfold total in Ht.
  destruct prev as [pp|], q as [pv|]; try done.
  - destruct Hprev as (_ & Hpv & Htp). unfold total in Htp. rewrite Hv, Hpv, ofZ_leb by (unfold small; lia).
    destruct (Z.leb_spec pv v).
    + rewrite ofZ_sub, ofZ_add by (unfold small; lia). rewrite (IH (a + (v - pv)) (Some p) (Some v)); [f_equal; lia|lia|done|lia].
    + rewrite ofZ_add by (unfold small; lia). rewrite (IH (a + v) (Some p) (Some v)); [f_equal; lia|lia|done|lia].
  - rewrite (IH a (Some p) (Some v)); [f_equal; lia|lia|done|lia].
Qed.

(** The growth of totals that fall at most once is their rise. *)
Lemma increase_rise vs pts : Forall2 counterPoint vs pts -> (falls vs <= 1)%nat -> rise None vs < 2 ^ 53 ->
  increase pts = ofZ (rise None vs).
Proof.
  intros Hp Hf Hb. unfold increase.
  assert (cumulativeValues pts = Some (ofZ <$> vs)) as ->.
  { unfold cumulativeValues. assert (existsb ip_Delta pts = false /\ ip_Value <$> pts = ofZ <$> vs) as [-> ->]; [|done].
    clear - Hp. induction Hp as [|v p vs pts (Hd & Hv & _) _ [IH1 IH2]]; [done|]. cbn [existsb fmap list_fmap].
    by rewrite Hd, Hv, IH1, IH2. }
  assert (Forall total vs) as Hts by (clear - Hp; induction Hp as [|v p vs pts (_ & _ & ?)]; by constructor).
  rewrite falls_not_Interleaved by done. change (toFloat 0) with (ofZ 0). by rewrite (increaseFrom_rise vs pts Hp 0 None None).
Qed.

(** ** Rows of one coarse series *)

(** A row of a counter whose running total is [t] and whose rise is [s]. *)
Definition coarseCounter (t s : Z) (r : MetricRollup) : Prop :=
  mr_Type r = "sum"%string /\ mr_Temporality r <> TemporalityDelta /\ mr_Last r = ofZ t /\ mr_Sum r = ofZ s /\ total t.

Lemma coarseCounter_point t s r : coarseCounter t s r -> counterPoint t (RollupInputPoint r).
Proof.
  intros (Ht & Hd & Hl & _ & Htt). unfold RollupInputPoint. rewrite Ht, (bool_decide_false (mr_Temporality r = _)) by done. done.
Qed.

(** Each row continues the total of the one before. *)
Fixpoint continues (t : Z) (ts ss : list Z) : Prop :=
  match ts, ss with
  | [], [] => True
  | t' :: ts, s :: ss => 0 <= s /\ t' = t + s /\ continues t' ts ss
  | _, _ => False
  end.

Lemma continues_rise ss : forall t ts, continues t ts ss -> falls (t :: ts) = 0%nat /\ rise (Some t) ts = sumBy id ss.
Proof.
  induction ss as [|s ss IH]; intros t ts Hc; destruct ts as [|t' ts]; cbn [continues] in Hc; try done.
  destruct Hc as (Hs & -> & Hc). destruct (IH _ _ Hc) as [Hf Hr]. rewrite sumBy_cons, <- Hr. split.
  - cbn [falls]. destruct (Z.ltb_spec (t + s) t); [lia|]. exact Hf.
  - cbn [rise]. destruct (Z.leb_spec t (t + s)); [|lia]. unfold id. lia.
Qed.

(** Reading a coarse counter back gives what was merged.  When every bucket of a series has a
    row that continues the total of the bucket before, the growth computed from the rows is
    the sum of the rises merged into all but the first. *)
Theorem totals_follow_sums t0 s0 r0 ts ss rows :
  coarseCounter t0 s0 r0 -> Forall2 (fun x r => coarseCounter x.1 x.2 r) (zip ts ss) rows ->
  length ts = length ss -> continues t0 ts ss ->
  increase (RollupInputPoint <$> r0 :: rows) = ofZ (sumBy id ss).
Proof.
  intros H0 Hrows Hlen Hc. destruct (continues_rise _ _ _ Hc) as [Hf Hr].
  assert (Forall2 counterPoint ts (RollupInputPoint <$> rows)) as Hpts.
  { clear - Hrows Hlen. revert ss rows Hrows Hlen. induction ts as [|t ts IH]; intros ss rows Hrows Hlen; destruct ss as [|s ss]; try done;
      inversion Hrows; simplify_eq/=; constructor; [by eapply coarseCounter_point|by apply (IH ss)]. }
  assert (rise None (t0 :: ts) = sumBy id ss) as E by (cbn [rise]; lia).
  rewrite <- E. apply increase_rise.
  - cbn [fmap list_fmap]. constructor; [by eapply coarseCounter_point|done].
  - lia.
  - assert (Forall total ts) as Hts by (clear - Hpts; induction Hpts as [|v p vs pts (_ & _ & ?)]; by constructor).
    cbn [rise]. rewrite rise_monotone by done. destruct H0 as (_ & _ & _ & _ & Ht0).
    assert (total (List.last ts t0)) as Hl; [|unfold total in *; lia].
    clear - Hts Ht0. revert t0 Ht0. induction Hts as [|t ts Ht Hts IH]; intros t0 Ht0; [done|].
    destruct ts; [done|]. exact (IH t0 Ht0).
Qed.

(** Three rows that continue one another. *)
Definition totalsRow (b t s : Z) : MetricRollup :=
  mkMetric 1 "requests" "sum" "1" "" "{}" b 1 (toFloat s) (toFloat 0) (toFloat 0) (toFloat t) 0 "" "cumulative" StepHour.

Lemma totals_follow_sums_witness :
  increase (RollupInputPoint <$> [totalsRow 0 5 5; totalsRow hour 12 7; totalsRow (2 * hour) 12 0]) = ofZ 7.
Proof.
  refine (totals_follow_sums 5 5 (totalsRow 0 5 5) [12; 12] [7; 0] [totalsRow hour 12 7; totalsRow (2 * hour) 12 0] _ _ _ _).
  - by repeat split; vm_compute.
  - repeat constructor; cbn [fst snd]; by repeat split; vm_compute.
  - done.
  - cbn [continues]. lia.
Defined.

(** ** A bucket without a row *)

Section Gap.
Context (parseAttributes : string -> gmap string string) (marshalAttributes : gmap string string -> option string).
Context (decodeHist : string -> option histogram) (encodeHist : histogram -> option string).
Context (overflow : float64 -> Z) (val : MetricRollup -> Z).

(** A bucket without a row hides growth.  When the target bucket before has no row of a
    counter, [Merge] starts its total again; if the rise of the bucket then reaches the total
    of the last row before the gap, the growth computed from both rows is short by that total,
    although the comment of [Merge] says that the tier stays monotonic and is rated
    correctly. *)
Theorem gap_hides_growth tier bucket projectID src policy carry base out r a s :
  counterWindow parseAttributes marshalAttributes val tier src policy carry base ->
  out ∈ MetricMerge parseAttributes marshalAttributes decodeHist encodeHist overflow tier bucket projectID src policy carry ->
  base (rowKey out) = 0 -> coarseCounter a s r ->
  let grown := targetRise parseAttributes marshalAttributes val tier src policy carry (rowKey out) in
  a <= grown -> mr_Sum out = ofZ grown /\ increase (RollupInputPoint <$> [r; out]) = ofZ (grown - a).
Proof.
  intros W Ho Hb Hr grown Hle. destruct (merge_counter _ _ _ _ _ _ _ _ _ _ _ _ _ _ W Ho) as (Hs & Hl & Ht & Hd).
  rewrite Hb, Z.add_0_l in Hl. fold grown in Hs, Hl. split; [done|].
  pose proof (cw_bound _ _ _ _ _ _ _ _ W (rowKey out)) as Hbound. fold grown in Hbound.
  assert (total a) as Hta by (by destruct Hr as (_ & _ & _ & _ & ?)). unfold total in Hta.
  assert (coarseCounter grown grown out) as Hout by (split_and!; try done; unfold total; lia).
  assert (rise None [a; grown] = grown - a) as E by (cbn [rise]; destruct (Z.leb_spec a grown); lia).
  rewrite <- E. apply increase_rise.
  - repeat constructor; by eapply coarseCounter_point.
  - cbn [falls]. destruct (Z.ltb_spec grown a); lia.
  - lia.
Qed.
End Gap.

(** The hour of two pods rises by 11 after an hour without rows; the total before was 4. *)
Definition gapMerged : list MetricRollup :=
  MetricMerge demoParse (fun _ => None) (fun _ => None) (fun _ => None) (fun _ => 0) demoTier hour 1 demoSrc DefaultDropPolicy
    (mkCarry demoTails ∅).

Lemma gapMerged_rise out : out ∈ gapMerged ->
  targetRise demoParse (fun _ => None) demoVal demoTier demoSrc DefaultDropPolicy (mkCarry demoTails ∅) (rowKey out) = 11.
Proof.
  intros Ho. assert ((fun out => targetRise demoParse (fun _ => None) demoVal demoTier demoSrc DefaultDropPolicy (mkCarry demoTails ∅)
    (rowKey out)) <$> gapMerged = [11]) as E by (by vm_compute).
  apply (list_elem_of_fmap_2 (fun out => targetRise demoParse (fun _ => None) demoVal demoTier demoSrc DefaultDropPolicy
    (mkCarry demoTails ∅) (rowKey out))) in Ho. rewrite E in Ho. by apply list_elem_of_singleton in Ho.
Qed.

Lemma gap_hides_growth_witness :
  (fun r => (mr_Sum r, mr_Last r)) <$> gapMerged = [(ofZ 11, ofZ 11)] /\
  Forall (fun out => increase (RollupInputPoint <$> [totalsRow (- hour) 4 4; out]) = ofZ 7) gapMerged.
Proof.
  split; [by vm_compute|]. apply Forall_forall. intros out Ho.
  assert (counterWindow demoParse (fun _ => None) demoVal demoTier demoSrc DefaultDropPolicy (mkCarry demoTails ∅) (fun _ => 0)) as W
    by (by apply demoWindow).
  assert (targetRise demoParse (fun _ => None) demoVal demoTier demoSrc DefaultDropPolicy (mkCarry demoTails ∅) (rowKey out) = 11) as E.
  { by apply gapMerged_rise. }
  assert (coarseCounter 4 4 (totalsRow (- hour) 4 4)) as Hc by (by repeat split; vm_compute).
  destruct (gap_hides_growth demoParse (fun _ => None) (fun _ => None) (fun _ => None) (fun _ => 0) demoVal demoTier hour 1 demoSrc
    DefaultDropPolicy (mkCarry demoTails ∅) (fun _ => 0) out _ 4 4 W Ho eq_refl Hc) as [_ Hi]; [by rewrite E|].
  rewrite E in Hi. exact Hi.
Defined.
