(* ===== verification/TierCalendar.v ===== *)
(** * Weeks and months ([internal/rollup/tiers.go])

    The calendar steps do not divide the time line evenly.  The days of a month are those
    between the first days of two consecutive months; from this follows that the buckets
    of every step partition the time line and that the source windows of consecutive target
    buckets tile it. *)
From S2P Require Import Prelude Tiers.

Ltac divs := Z.to_euclidean_division_equations; lia.

(** ** Months as numbers *)

(** Days before a year of a 400-year era; years start in March. *)
Definition yearStart (y : Z) : Z := 365 * y + y / 4 - y / 100.

(** Days before a month of such a year. *)
Definition monthOffset (mp : Z) : Z := (153 * mp + 2) / 5.

(** The first day of month [n], counted from January of year 0. *)
Definition monthDay (n : Z) : Z := daysFromCivil (n / 12) (n mod 12 + 1) 1.

(** The same, with March as the first month. *)
Definition marchDay (k : Z) : Z :=
  k / 4800 * 146097 + yearStart (k / 12 mod 400) + monthOffset (k mod 12) - 719468.

Lemma monthDay_march n : monthDay n = marchDay (n - 2).
Proof.
  unfold monthDay, marchDay, daysFromCivil, yearStart, monthOffset.
  replace ((n - 2) / 4800) with ((n - 2) / 12 / 400) by divs.
  assert (exists y m, n = 12 * y + m /\ 0 <= m < 12 /\ n / 12 = y /\ n mod 12 = m) as (y & m & E & Hm & -> & ->)
    by (exists (n / 12), (n mod 12); divs).
  subst n.
  destruct (Z.leb_spec (m + 1) 2), (Z.ltb_spec 2 (m + 1)); try lia.
  - replace ((12 * y + m - 2) / 12) with (y - 1) by divs. replace ((12 * y + m - 2) mod 12) with (m + 10) by divs.
    replace ((y - 1) mod 400) with (y - 1 - (y - 1) / 400 * 400) by divs. f_equal. replace (m + 1 + 9) with (m + 10) by lia. lia.
  - replace ((12 * y + m - 2) / 12) with y by divs. replace ((12 * y + m - 2) mod 12) with (m - 2) by divs.
    replace (y mod 400) with (y - y / 400 * 400) by divs. f_equal. replace (m + 1 - 3) with (m - 2) by lia. lia.
Qed.

(** The year of an era a day falls in. *)
Lemma yearOfEra doe : 0 <= doe < 146097 ->
  let y := (doe - doe / 1460 + doe / 36524 - doe / 146096) / 365 in
  0 <= y < 400 /\ yearStart y <= doe /\ (y < 399 -> doe < yearStart (y + 1)).
Proof.
  intros H y. subst y. unfold yearStart. destruct (decide (doe = 146096)) as [->|Hne]; [by split_and!; vm_compute|].
  rewrite (Z.div_small doe 146096) by lia.
  assert (exists c, 0 <= c <= 3 /\ doe / 36524 = c /\ 36524 * c <= doe < 36524 * (c + 1)) as (c & Hc & -> & Hr)
    by (exists (doe / 36524); divs).
  assert (c = 0 \/ c = 1 \/ c = 2 \/ c = 3) as [-> | [-> | [-> | ->]]] by lia; divs.
Qed.

Lemma yearLength y : 0 <= y < 400 -> 365 <= (if y =? 399 then 146097 else yearStart (y + 1)) - yearStart y <= 366.
Proof. intros H. unfold yearStart. destruct (Z.eqb_spec y 399) as [->|]; [by vm_compute|divs]. Qed.

(** Consecutive months of the March calendar. *)
Lemma marchDay_next e y mp : 0 <= y < 400 -> 0 <= mp < 12 ->
  marchDay (4800 * e + 12 * y + mp) = e * 146097 + yearStart y + monthOffset mp - 719468 /\
  marchDay (4800 * e + 12 * y + mp + 1) =
    e * 146097 + (if mp =? 11 then (if y =? 399 then 146097 else yearStart (y + 1)) else yearStart y + monthOffset (mp + 1)) - 719468.
Proof.
  intros Hy Hm. unfold marchDay. split.
  - replace ((4800 * e + 12 * y + mp) / 4800) with e by divs. replace ((4800 * e + 12 * y + mp) mod 12) with mp by divs.
    replace ((4800 * e + 12 * y + mp) / 12 mod 400) with y by divs. done.
  - destruct (Z.eqb_spec mp 11) as [->|].
    + destruct (Z.eqb_spec y 399) as [->|].
      * replace ((4800 * e + 12 * 399 + 11 + 1) / 4800) with (e + 1) by divs.
        replace ((4800 * e + 12 * 399 + 11 + 1) mod 12) with 0 by divs.
        replace ((4800 * e + 12 * 399 + 11 + 1) / 12 mod 400) with 0 by divs.
        change (yearStart 0) with 0. change (monthOffset 0) with 0. lia.
      * replace ((4800 * e + 12 * y + 11 + 1) / 4800) with e by divs. replace ((4800 * e + 12 * y + 11 + 1) mod 12) with 0 by divs.
        replace ((4800 * e + 12 * y + 11 + 1) / 12 mod 400) with (y + 1) by divs. change (monthOffset 0) with 0. lia.
    + replace ((4800 * e + 12 * y + mp + 1) / 4800) with e by divs. replace ((4800 * e + 12 * y + mp + 1) mod 12) with (mp + 1) by divs.
      replace ((4800 * e + 12 * y + mp + 1) / 12 mod 400) with y by divs. lia.
Qed.

Lemma marchDay_lt k : marchDay k < marchDay (k + 1).
Proof.
  assert (exists e y mp, k = 4800 * e + 12 * y + mp /\ 0 <= y < 400 /\ 0 <= mp < 12) as (e & y & mp & -> & Hy & Hm)
    by (exists (k / 4800), (k / 12 mod 400), (k mod 12); divs).
  destruct (marchDay_next e y mp Hy Hm) as [-> ->]. pose proof (yearLength y Hy). unfold monthOffset.
  destruct (Z.eqb_spec mp 11) as [->|]; divs.
Qed.

Lemma marchDay_mono k k' : k <= k' -> marchDay k <= marchDay k'.
Proof.
  intros Hk. replace k' with (k + Z.of_nat (Z.to_nat (k' - k))) by lia. generalize (Z.to_nat (k' - k)) as n.
  induction n as [|n IH]; [by rewrite Z.add_0_r|]. pose proof (marchDay_lt (k + Z.of_nat n)).
  replace (k + Z.of_nat (S n)) with (k + Z.of_nat n + 1) by lia. lia.
Qed.

Lemma monthDay_mono n n' : n <= n' -> monthDay n <= monthDay n'.
Proof. intros. rewrite !monthDay_march. apply marchDay_mono. lia. Qed.

(** A month is determined by one of its days. *)
Lemma monthDay_unique n n' d : monthDay n <= d < monthDay (n + 1) -> monthDay n' <= d < monthDay (n' + 1) -> n = n'.
Proof.
  intros H H'. destruct (Z.lt_trichotomy n n') as [Hlt|[?|Hlt]]; [|done|].
  - pose proof (monthDay_mono (n + 1) n'). lia.
  - pose proof (monthDay_mono (n' + 1) n). lia.
Qed.

(** The date of a day. *)
Lemma civil_spec D :
  exists n, civilFromDays D = (n / 12, n mod 12 + 1, D - monthDay n + 1) /\ monthDay n <= D < monthDay (n + 1).
Proof.
  unfold civilFromDays. set (e := (D + 719468) / 146097). set (doe := D + 719468 - e * 146097).
  assert (0 <= doe < 146097) as Hdoe by (subst doe e; divs).
  assert (D = e * 146097 + doe - 719468) as HD by (subst doe; lia). clearbody doe e. subst D.
  destruct (yearOfEra doe Hdoe) as (Hy & Hlo & Hhi). set (y := (doe - doe / 1460 + doe / 36524 - doe / 146096) / 365) in *.
  clearbody y. replace (365 * y + y / 4 - y / 100) with (yearStart y) by done.
  pose proof (yearLength y Hy) as Hlen. set (doy := doe - yearStart y) in *.
  assert (0 <= doy <= 365) as Hdoy by (subst doy; destruct (Z.eqb_spec y 399); lia).
  set (mp := (5 * doy + 2) / 153). assert (0 <= mp < 12 /\ monthOffset mp <= doy < monthOffset (mp + 1)) as [Hmp Hoff]
    by (subst mp; unfold monthOffset; clearbody doy; clear - Hdoy; divs).
  clearbody mp. destruct (marchDay_next e y mp Hy Hmp) as [E1 E2].
  exists (4800 * e + 12 * y + mp + 2). rewrite !monthDay_march.
  replace (4800 * e + 12 * y + mp + 2 - 2) with (4800 * e + 12 * y + mp) by lia.
  replace (4800 * e + 12 * y + mp + 2 + 1 - 2) with (4800 * e + 12 * y + mp + 1) by lia. rewrite E1, E2.
  change ((153 * mp + 2) / 5) with (monthOffset mp). split.
  - assert ((4800 * e + 12 * y + mp + 2) / 12 = y + e * 400 + (if 10 <=? mp then 1 else 0) /\
            (4800 * e + 12 * y + mp + 2) mod 12 = if 10 <=? mp then mp - 10 else mp + 2) as [-> ->]
      by (destruct (Z.leb_spec 10 mp); divs).
    destruct (Z.ltb_spec mp 10), (Z.leb_spec 10 mp); try lia;
      [destruct (Z.leb_spec (mp + 3) 2)|destruct (Z.leb_spec (mp - 9) 2)]; try lia; subst doy; (f_equal; [f_equal|]); lia.
  - subst doy. destruct (Z.eqb_spec mp 11) as [->|]; [destruct (Z.eqb_spec y 399); lia|lia].
Qed.

(** ** Dates *)

Lemma dayNs_pos : 0 < dayNs.
Proof. done. Qed.

Lemma Date_month y m d : Date y m d = (monthDay (12 * y + m - 1) + d - 1) * dayNs.
Proof.
  unfold Date, monthDay. replace (y + (m - 1) / 12) with ((12 * y + m - 1) / 12) by divs.
  by replace ((m - 1) mod 12) with ((12 * y + m - 1) mod 12) by divs.
Qed.

Lemma AddDate_days t k : AddDate t 0 0 k = t + k * dayNs.
Proof.
  unfold AddDate. destruct (civil_spec (t / dayNs)) as (n & -> & _). rewrite Date_month.
  replace (12 * (n / 12 + 0) + (n mod 12 + 1 + 0) - 1) with n by divs.
  pose proof (Z.div_mod t dayNs ltac:(done)). lia.
Qed.

Lemma civil_month n : civilFromDays (monthDay n) = (n / 12, n mod 12 + 1, 1).
Proof.
  destruct (civil_spec (monthDay n)) as (n' & -> & Hn').
  assert (n' = n) as ->; [|f_equal; lia]. apply (monthDay_unique n' n (monthDay n)); [done|].
  rewrite !monthDay_march. pose proof (marchDay_lt (n - 2)). replace (n + 1 - 2) with (n - 2 + 1) by lia. lia.
Qed.

Lemma AddDate_months n j : AddDate (monthDay n * dayNs) 0 j 0 = monthDay (n + j) * dayNs.
Proof.
  unfold AddDate. rewrite Z.div_mul, Z.mod_mul, civil_month, Date_month by done.
  replace (12 * (n / 12 + 0) + (n mod 12 + 1 + j) - 1) with (n + j) by divs. lia.
Qed.

Lemma Truncate_month t : exists n,
  TruncateBucket t StepMonth = monthDay n * dayNs /\ monthDay n * dayNs <= t < monthDay (n + 1) * dayNs.
Proof.
  change (TruncateBucket t StepMonth) with (let '(y, m, _) := civilFromDays (t / dayNs) in Date y m 1).
  destruct (civil_spec (t / dayNs)) as (n & -> & Hn). exists n. rewrite Date_month.
  replace (12 * (n / 12) + (n mod 12 + 1) - 1) with n by divs.
  pose proof (Z.div_mod t dayNs ltac:(done)). pose proof (Z.mod_pos_bound t dayNs dayNs_pos). pose proof dayNs_pos.
  split; [lia|]. nia.
Qed.

(** A week is the days from a Monday on. *)
Lemma Truncate_week t : TruncateBucket t StepWeek = (t / dayNs - (t / dayNs + 3) mod 7) * dayNs.
Proof.
  change (TruncateBucket t StepWeek) with
    (let '(y, m, d) := civilFromDays (t / dayNs) in
     let day := Date y m d in AddDate day 0 0 (- ((Weekday day + 6) mod 7))).
  destruct (civil_spec (t / dayNs)) as (n & -> & Hn). cbn zeta. rewrite AddDate_days, Date_month.
  replace (12 * (n / 12) + (n mod 12 + 1) - 1) with n by divs.
  replace (monthDay n + (t / dayNs - monthDay n + 1) - 1) with (t / dayNs) by lia.
  unfold Weekday. rewrite Z.div_mul by done. replace ((_ + 6) mod 7) with ((t / dayNs + 3) mod 7) by divs. lia.
Qed.

(** ** Laws of the buckets *)

Definition tierStep (S : Z) : Prop := fixedStep S \/ S = StepWeek \/ S = StepMonth.

(** The start of a bucket. *)
Definition tierAligned (S b : Z) : Prop := TruncateBucket b S = b.

(** What a step promises of its buckets. *)
Class BucketLaws (S : Z) : Prop := {
  bl_in : forall t, TruncateBucket t S <= t < NextBucket (TruncateBucket t S) S;
  bl_start : forall t, tierAligned S (TruncateBucket t S);
  bl_next : forall b, tierAligned S b -> tierAligned S (NextBucket b S);
  bl_prev : forall b, tierAligned S b -> tierAligned S (PrevBucket b S) /\ NextBucket (PrevBucket b S) S = b;
  bl_only : forall b t, tierAligned S b -> b <= t < NextBucket b S -> TruncateBucket t S = b;
}.

Lemma fixed_laws S : fixedStep S -> BucketLaws S.
Proof.
  intros Hf. pose proof (fixedStep_pos S Hf) as Hp.
  assert (PrevBucket 0 S = - (S * second) /\ forall b, PrevBucket b S = b - S * second) as [_ Hprev]
    by (by destruct Hf as [->|[->| ->]]).
  assert (forall b, tierAligned S b <-> (S * second | b)) as Ha by (intros; by apply TruncateBucket_aligned).
  constructor.
  - intros t. by apply TruncateBucket_spec.
  - intros t. apply Ha. by apply TruncateBucket_spec.
  - intros b. rewrite !Ha, NextBucket_fixed by done. intros ?. by apply Z.divide_add_r.
  - intros b. rewrite !Ha, Hprev, NextBucket_fixed by done. intros ?. split; [by apply Z.divide_sub_r|lia].
  - intros b t. rewrite Ha, NextBucket_fixed by done. intros [k ->] Ht. rewrite TruncateBucket_fixed by done.
    rewrite <- (Z.mod_unique_pos t (S * second) k (t - k * (S * second))) by lia. lia.
Qed.

Lemma week_aligned b : tierAligned StepWeek b <-> exists w, b = (7 * w - 3) * dayNs.
Proof.
  unfold tierAligned. rewrite Truncate_week. pose proof dayNs_pos. split.
  - intros E. exists ((b / dayNs + 3) / 7). pose proof (Z.div_mod (b / dayNs + 3) 7 ltac:(lia)). lia.
  - intros [w ->]. rewrite Z.div_mul by lia. replace ((7 * w - 3 + 3) mod 7) with 0 by divs. lia.
Qed.

Lemma week_laws : BucketLaws StepWeek.
Proof.
  assert (forall b, NextBucket b StepWeek = b + 7 * dayNs /\ PrevBucket b StepWeek = b + -7 * dayNs) as Hn
    by (intros b; split; apply AddDate_days).
  pose proof dayNs_pos.
  constructor.
  - intros t. rewrite (proj1 (Hn _)), Truncate_week. pose proof (Z.div_mod t dayNs ltac:(lia)).
    pose proof (Z.mod_pos_bound t dayNs ltac:(lia)). pose proof (Z.mod_pos_bound (t / dayNs + 3) 7 ltac:(lia)). nia.
  - intros t. apply week_aligned. rewrite Truncate_week. exists ((t / dayNs + 3) / 7).
    pose proof (Z.div_mod (t / dayNs + 3) 7 ltac:(lia)). f_equal. lia.
  - intros b. rewrite !week_aligned, (proj1 (Hn _)). intros [w ->]. exists (w + 1). lia.
  - intros b. rewrite !week_aligned, (proj1 (Hn _)), (proj2 (Hn _)). intros [w ->]. split; [exists (w - 1)|]; lia.
  - intros b t. rewrite week_aligned, (proj1 (Hn _)). intros [w ->] Ht. rewrite Truncate_week.
    assert (7 * w - 3 <= t / dayNs < 7 * w + 4) as Hd.
    { split; [apply Z.div_le_lower_bound; lia|apply Z.div_lt_upper_bound; lia]. }
    f_equal. revert Hd. generalize (t / dayNs) as D. intros D Hd. divs.
Qed.

Lemma month_laws : BucketLaws StepMonth.
Proof.
  pose proof dayNs_pos.
  assert (forall n, NextBucket (monthDay n * dayNs) StepMonth = monthDay (n + 1) * dayNs /\
                    PrevBucket (monthDay n * dayNs) StepMonth = monthDay (n - 1) * dayNs) as Hn
    by (intros n; split; apply AddDate_months).
  assert (forall n t, monthDay n * dayNs <= t < monthDay (n + 1) * dayNs -> TruncateBucket t StepMonth = monthDay n * dayNs) as Hin.
  { intros n t Ht. destruct (Truncate_month t) as (n' & -> & Hn'). do 2 f_equal.
    apply (monthDay_unique n' n (t / dayNs)); split;
      first [apply Z.div_le_lower_bound; lia|apply Z.div_lt_upper_bound; lia]. }
  assert (forall n, tierAligned StepMonth (monthDay n * dayNs)) as Hal.
  { intros n. apply Hin. rewrite !monthDay_march. pose proof (marchDay_lt (n - 2)).
    replace (n + 1 - 2) with (n - 2 + 1) by lia. nia. }
  assert (forall b, tierAligned StepMonth b -> exists n, b = monthDay n * dayNs) as Hinv.
  { intros b <-. destruct (Truncate_month b) as (n & -> & _). by exists n. }
  constructor.
  - intros t. destruct (Truncate_month t) as (n & -> & Ht). by rewrite (proj1 (Hn n)).
  - intros t. destruct (Truncate_month t) as (n & -> & _). apply Hal.
  - intros b [n ->]%Hinv. rewrite (proj1 (Hn n)). apply Hal.
  - intros b [n ->]%Hinv. rewrite (proj2 (Hn n)). split; [apply Hal|].
    rewrite (proj1 (Hn _)). do 2 f_equal. lia.
  - intros b t [n ->]%Hinv. rewrite (proj1 (Hn n)). apply Hin.
Qed.

Lemma tier_laws S : tierStep S -> BucketLaws S.
Proof. intros [?|[->| ->]]; [by apply fixed_laws|apply week_laws|apply month_laws]. Qed.

Section Laws.
Context (S : Z) `{!BucketLaws S}.

Lemma bucket_next_gt b : tierAligned S b -> b < NextBucket b S.
Proof. intros Hb. pose proof (bl_in b) as Hin. rewrite Hb in Hin. lia. Qed.

Lemma bucket_next_le b b' : tierAligned S b -> tierAligned S b' -> b < b' -> NextBucket b S <= b'.
Proof.
  intros Hb Hb' Hlt. destruct (Z.le_gt_cases (NextBucket b S) b') as [|Hgt]; [done|].
  pose proof (bl_only b b' Hb ltac:(lia)) as E. rewrite Hb' in E. lia.
Qed.

Lemma truncate_mono t t' : t <= t' -> TruncateBucket t S <= TruncateBucket t' S.
Proof.
  intros Ht. pose proof (bl_in t). pose proof (bl_in t').
  destruct (Z.le_gt_cases (TruncateBucket t S) (TruncateBucket t' S)) as [|Hgt]; [done|].
  pose proof (bucket_next_le _ _ (bl_start t') (bl_start t) ltac:(lia)). lia.
Qed.

Lemma bucket_next_mono b b' : tierAligned S b -> tierAligned S b' -> b <= b' -> NextBucket b S <= NextBucket b' S.
Proof.
  intros Hb Hb' Hle. pose proof (bucket_next_gt b' Hb'). destruct (decide (b = b')) as [->|]; [lia|].
  pose proof (bucket_next_le b b' Hb Hb' ltac:(lia)). lia.
Qed.

Lemma bucket_prev_lt b : tierAligned S b -> PrevBucket b S < b.
Proof. intros Hb. destruct (bl_prev b Hb) as [Hp E]. pose proof (bucket_next_gt _ Hp). lia. Qed.
End Laws.

Lemma ladder_steps tier : tier ∈ Ladder -> tierStep (tier_Step tier) /\ tierStep (tier_Source tier).
Proof.
  unfold Ladder, tierStep, fixedStep. rewrite !elem_of_cons, elem_of_nil.
  intros [->|[->|[->|[->|[]]]]]; cbn [tier_Step tier_Source]; tauto.
Qed.

(** C23: Every source bucket is compacted exactly once.  For each rung of the ladder,
    calendar weeks and months included, and every source bucket, there is exactly one
    target bucket whose source window holds it, namely the one in which the source bucket
    ends, and the source bucket has closed when that target bucket closes. *)
Theorem windows_tile tier s :
  tier ∈ Ladder -> tierAligned (tier_Source tier) s ->
  let owner := TruncateBucket (NextBucket s (tier_Source tier) - 1) (tier_Step tier) in
  NextBucket s (tier_Source tier) <= NextBucket owner (tier_Step tier) /\
  forall b, tierAligned (tier_Step tier) b ->
    (sourceWindow tier b).1 <= s < (sourceWindow tier b).2 <-> b = owner.
Proof.
  intros Ht Hs. cbn zeta. destruct (ladder_steps tier Ht) as [HT HS].
  apply tier_laws in HT, HS. set (T := tier_Step tier) in *. set (R := tier_Source tier) in *.
  set (e := NextBucket s R) in *. set (owner := TruncateBucket (e - 1) T).
  assert (tierAligned T owner) as Ho by apply bl_start. pose proof (bl_in (S := T) (e - 1)) as Hin. fold owner in Hin.
  pose proof (bucket_next_gt R s Hs) as Hse. fold e in Hse.
  assert (tierAligned R e) as He by (by apply bl_next).
  split; [lia|]. unfold sourceWindow. cbn [fst snd]. fold T R. intros b Hb. split.
  - intros [Hlo Hhi]. pose proof (bl_in (S := R) b) as Hb1. pose proof (bl_in (S := R) (NextBucket b T)) as Hb2.
    pose proof (bucket_next_le R s (TruncateBucket (NextBucket b T) R) Hs (bl_start _) Hhi) as Hle. fold e in Hle.
    pose proof (bucket_next_mono R _ _ (bl_start b) Hs Hlo) as Hle'. fold e in Hle'.
    symmetry. apply bl_only; [done|lia].
  - intros ->. split.
    + pose proof (truncate_mono R owner (e - 1) ltac:(lia)) as Hm.
      rewrite (bl_only s (e - 1) Hs ltac:(lia)) in Hm. done.
    + pose proof (truncate_mono R e (NextBucket owner T) ltac:(lia)) as Hm. rewrite He in Hm. lia.
Qed.

(** The week of Monday 2024-01-29 ends in February. *)
Lemma windows_tile_witness :
  let week := 1706486400 * second in
  tierAligned StepWeek week /\
  (sourceWindow (mkTier StepMonth StepWeek) (1706745600 * second)).1 = week /\
  NextBucket week StepWeek <= NextBucket (TruncateBucket (NextBucket week StepWeek - 1) StepMonth) StepMonth.
Proof.
  split; [by vm_compute|]. split; [by vm_compute|].
  assert (mkTier StepMonth StepWeek ∈ Ladder) as Ht by (unfold Ladder; do 3 right; left).
  assert (tierAligned StepWeek (1706486400 * second)) as Ha by (by vm_compute).
  exact (proj1 (windows_tile (mkTier StepMonth StepWeek) (1706486400 * second) Ht Ha)).
Defined.
