(* ===== verification/MetricCompaction.v ===== *)
(** * The metric rollup compactor ([internal/rollup/compactor.go], and the reads and writes of
    [repo_metric_rollup_compaction.go], [repo_metric_rollups.go] and
    [repo_metric_rollups_coarse.go])

    The compactor runs in a small monad over the two rollup tables, the watermarks and its
    own fields.  The world carries the calls to come: before each one other goroutines may
    have upserted 5-minute rows, the clock has a value, and the call succeeds or fails.
    Past the end of the list nothing else happens.  Times are nanoseconds; a bucket and a
    watermark are stored as times. *)
From S2P Require Import Prelude Float64 TierStore Tiers MetricSeries MetricMerge.

(** ** The tables *)

(** The keys of [metric_rollups] and [metric_rollups_coarse]. *)
Abbreviation finePK := (Z * string * string * Z)%type.

Abbreviation coarsePK := (Z * string * string * Z * Z)%type.

Definition finePKOf (m : MetricRollup) : finePK := (mr_ProjectID m, mr_Name m, mr_AttrFingerprint m, mr_Bucket m).

Definition coarsePKOf (m : MetricRollup) : coarsePK :=
  (mr_ProjectID m, mr_Name m, mr_AttrFingerprint m, mr_StepSeconds m, mr_Bucket m).

(** The values a statement stores: no attributes are an empty object, and a 5-minute row
    has no step. *)
Definition stored (step : Z) (m : MetricRollup) : MetricRollup :=
  mkMetric (mr_ProjectID m) (mr_Name m) (mr_Type m) (mr_Unit m) (mr_AttrFingerprint m)
    (if bool_decide (mr_Attributes m = ""%string) then "{}" else mr_Attributes m)
    (mr_Bucket m) (mr_Count m) (mr_Sum m) (mr_Min m) (mr_Max m) (mr_Last m) (mr_ObsCount m) (mr_Extra m)
    (mr_Temporality m) step.

(** [metricRollupUpsertSQL]: the row after a conflict; [ex] is the excluded row.  A NaN,
    which SQLite stores as NULL, is left out. *)
Definition metricRollupUpsertSQL (old ex : MetricRollup) : MetricRollup :=
  mkMetric (mr_ProjectID old) (mr_Name old) (mr_Type old) (mr_Unit old) (mr_AttrFingerprint old) (mr_Attributes old)
    (mr_Bucket old) (mr_Count old + mr_Count ex) (mr_Sum old + mr_Sum ex)%f64
    (if (mr_Min ex <? mr_Min old)%f64 then mr_Min ex else mr_Min old)
    (if (mr_Max old <? mr_Max ex)%f64 then mr_Max ex else mr_Max old)
    (mr_Last ex) (mr_ObsCount old + mr_ObsCount ex) (mr_Extra ex) (mr_Temporality ex) (mr_StepSeconds old).

(** [coarseRollupUpsertSQL]: everything but the attributes is replaced. *)
Definition coarseRollupUpsertSQL (old ex : MetricRollup) : MetricRollup :=
  mkMetric (mr_ProjectID old) (mr_Name old) (mr_Type ex) (mr_Unit ex) (mr_AttrFingerprint old) (mr_Attributes old)
    (mr_Bucket old) (mr_Count ex) (mr_Sum ex) (mr_Min ex) (mr_Max ex) (mr_Last ex) (mr_ObsCount ex) (mr_Extra ex)
    (mr_Temporality ex) (mr_StepSeconds old).

Definition metricRollupChunk : nat := 150.

Definition coarseRollupChunk : nat := 100.

(** The orders of [metricRollupChunks] and [coarseRollupChunks]. *)
Definition compareFine (a b : MetricRollup) : comparison :=
  cmpOr [Z.compare (mr_ProjectID a) (mr_ProjectID b); String.compare (mr_Name a) (mr_Name b);
    String.compare (mr_AttrFingerprint a) (mr_AttrFingerprint b); Z.compare (mr_Bucket a) (mr_Bucket b)].

Definition compareCoarse (a b : MetricRollup) : comparison :=
  cmpOr [Z.compare (mr_ProjectID a) (mr_ProjectID b); String.compare (mr_Name a) (mr_Name b);
    String.compare (mr_AttrFingerprint a) (mr_AttrFingerprint b); Z.compare (mr_StepSeconds a) (mr_StepSeconds b);
    Z.compare (mr_Bucket a) (mr_Bucket b)].

(** One execution of an upsert statement. *)
Definition upsertFine (t : gmap finePK MetricRollup) (m : MetricRollup) : gmap finePK MetricRollup :=
  upsert finePKOf metricRollupUpsertSQL t (stored 0 m).

Definition upsertCoarse (t : gmap coarsePK MetricRollup) (m : MetricRollup) : gmap coarsePK MetricRollup :=
  upsert coarsePKOf coarseRollupUpsertSQL t (stored (mr_StepSeconds m) m).

(** [Repository.UpsertMetricRollups] and [UpsertCoarseRollups]; [oks] says which chunks the
    database commits. *)
Definition UpsertMetricRollups : list bool -> list MetricRollup -> gmap finePK MetricRollup ->
  option (writeError MetricRollup) * gmap finePK MetricRollup :=
  writeTierRows compareFine upsertFine metricRollupChunk.

Definition UpsertCoarseRollups : list bool -> list MetricRollup -> gmap coarsePK MetricRollup ->
  option (writeError MetricRollup) * gmap coarsePK MetricRollup :=
  writeTierRows compareCoarse upsertCoarse coarseRollupChunk.

(** ** The world *)

(** A call to come: the 5-minute rows others have upserted before it, the clock, and
    whether it succeeds. *)
Record mcall := mkCall { cl_writes : list MetricRollup; cl_now : Z; cl_ok : bool }.

Record mworld := mkMWorld {
  mw_fine : gmap finePK MetricRollup;
  mw_coarse : gmap coarsePK MetricRollup;
  mw_marks : gmap Z Z;
  mw_busy : bool;
  mw_lowSpace : bool;
  mw_now : Z;
  mw_calls : list mcall;
}.

Definition setMFine (t : gmap finePK MetricRollup) (w : mworld) : mworld :=
  mkMWorld t (mw_coarse w) (mw_marks w) (mw_busy w) (mw_lowSpace w) (mw_now w) (mw_calls w).

Definition setMCoarse (t : gmap coarsePK MetricRollup) (w : mworld) : mworld :=
  mkMWorld (mw_fine w) t (mw_marks w) (mw_busy w) (mw_lowSpace w) (mw_now w) (mw_calls w).

Definition setMMarks (m : gmap Z Z) (w : mworld) : mworld :=
  mkMWorld (mw_fine w) (mw_coarse w) m (mw_busy w) (mw_lowSpace w) (mw_now w) (mw_calls w).

Definition setMBusy (b : bool) (w : mworld) : mworld :=
  mkMWorld (mw_fine w) (mw_coarse w) (mw_marks w) b (mw_lowSpace w) (mw_now w) (mw_calls w).

Definition setMLow (b : bool) (w : mworld) : mworld :=
  mkMWorld (mw_fine w) (mw_coarse w) (mw_marks w) (mw_busy w) b (mw_now w) (mw_calls w).

Definition setMCalls (cs : list mcall) (w : mworld) : mworld :=
  mkMWorld (mw_fine w) (mw_coarse w) (mw_marks w) (mw_busy w) (mw_lowSpace w) (mw_now w) cs.

(** The next call: what has happened before it, and its outcome. *)
Definition nextMCall (w : mworld) : bool * mworld :=
  match mw_calls w with
  | [] => (true, w)
  | c :: cs =>
      (cl_ok c, mkMWorld (foldl upsertFine (mw_fine w) (cl_writes c)) (mw_coarse w) (mw_marks w) (mw_busy w)
                  (mw_lowSpace w) (cl_now c) cs)
  end.

(** A step returns a value or an error, and the world after it. *)
Definition MC (A : Type) : Type := mworld -> option A * mworld.

#[export] Instance MC_ret : MRet MC := fun A a w => (Some a, w).

#[export] Instance MC_bind : MBind MC := fun A B f m w =>
  match m w with
  | (Some a, w) => f a w
  | (None, w) => (None, w)
  end.

(** A database call that reads. *)
Definition mreads {A} (f : mworld -> A) : MC A := fun w =>
  let '(ok, w) := nextMCall w in (if ok then Some (f w) else None, w).

Definition mupdate (f : mworld -> mworld) : MC unit := fun w => (Some tt, f w).

(** ** Reads *)

(** The first [n] elements. *)
Fixpoint takeZ {A} (n : Z) (l : list A) : list A :=
  match l with
  | [] => []
  | x :: l => if n <=? 0 then [] else x :: takeZ (n - 1) l
  end.

Definition Rollup5mStep : Z := 300.

(** The rows of a table that a [WHERE] clause selects, as [scanMetricRollups] returns them. *)
Definition selectRows {K} `{Countable K} (P : MetricRollup -> Prop) `{!forall m, Decision (P m)} (t : gmap K MetricRollup)
  : list MetricRollup := (map_to_list (filter (fun kv => P kv.2) t)).*2.

(** The rows of a tier that satisfy [P]. *)
Definition tierRows (w : mworld) (step : Z) (P : MetricRollup -> Prop) `{!forall m, Decision (P m)} : list MetricRollup :=
  if step =? Rollup5mStep then selectRows P (mw_fine w)
  else selectRows (fun m => mr_StepSeconds m = step /\ P m) (mw_coarse w).

(** [ORDER BY name, attr_fingerprint, bucket] *)
Definition windowLe (a b : MetricRollup) : Prop :=
  cmpOr [String.compare (mr_Name a) (mr_Name b); String.compare (mr_AttrFingerprint a) (mr_AttrFingerprint b);
    Z.compare (mr_Bucket a) (mr_Bucket b)] <> Gt.

#[export] Instance windowLe_dec : RelDecision windowLe.
Proof. intros a b. unfold windowLe. apply _. Defined.

(** The query of [rollupWindowForProject], without its limit. *)
Definition projectWindow (w : mworld) (step projectID from to : Z) : list MetricRollup :=
  merge_sort windowLe (tierRows w step (fun m => mr_ProjectID m = projectID /\ from <= mr_Bucket m < to)).

(** [Repository.distinctProjectIDs] of the table of a tier, in ascending order. *)
Definition distinctProjectIDs (w : mworld) (step : Z) : list Z :=
  merge_sort Z.le (elements (list_to_set (C := gset Z)
    (mr_ProjectID <$> if step =? Rollup5mStep then (map_to_list (mw_fine w)).*2 else (map_to_list (mw_coarse w)).*2))).

(** The loop of [RollupWindow]; [limit] is what is left of it. *)
Fixpoint windowLoop (w : mworld) (step from to limit : Z) (pids : list Z) : list MetricRollup :=
  match pids with
  | [] => []
  | pid :: pids =>
      let batch := takeZ limit (projectWindow w step pid from to) in
      batch ++ (if limit <=? Z.of_nat (length batch) then [] else windowLoop w step from to (limit - Z.of_nat (length batch)) pids)
  end.

Definition windowLimit : Z := 200000.

(** [Repository.RollupWindow], called with no limit of its own. *)
Definition RollupWindow (w : mworld) (step from to : Z) : list MetricRollup :=
  windowLoop w step from to windowLimit (distinctProjectIDs w step).

(** [Repository.CoarseLastBySeries] *)
Definition CoarseLastBySeries (w : mworld) (projectID step bucket : Z) : gmap string float64 :=
  list_to_map ((fun m => (CoarseSeriesKey (mr_Name m) (mr_AttrFingerprint m), mr_Last m)) <$>
    selectRows (fun m => mr_ProjectID m = projectID /\ mr_StepSeconds m = step /\ mr_Bucket m = bucket) (mw_coarse w)).

(** [Repository.OldestRollupBucket] *)
Definition OldestRollupBucket (w : mworld) (step : Z) : option Z :=
  match mr_Bucket <$> tierRows w step (fun _ => True) with
  | [] => None
  | b :: bs => Some (foldr Z.min b bs)
  end.

(** [Repository.MetricRollupWatermark] *)
Definition MetricRollupWatermark (step : Z) : MC (option Z) := mreads (fun w => mw_marks w !! step).

(** [Repository.SetMetricRollupWatermark] *)
Definition SetMetricRollupWatermark (step through : Z) : MC unit :=
  _ ← mreads (fun _ => tt);
  mupdate (fun w => setMMarks (<[step := from_option (Z.max through) through (mw_marks w !! step)]> (mw_marks w)) w).

(** The calls of the chunks of a write, up to the first that fails. *)
Fixpoint takeCalls (n : nat) (w : mworld) : list bool * mworld :=
  match n with
  | O => ([], w)
  | S n =>
      let '(ok, w) := nextMCall w in
      if ok then let '(oks, w) := takeCalls n w in (true :: oks, w) else ([false], w)
  end.

Definition upsertCoarseRollups (rows : list MetricRollup) : MC unit := fun w =>
  let '(oks, w) := takeCalls (length (Chunk coarseRollupChunk rows)) w in
  let '(err, t) := UpsertCoarseRollups oks rows (mw_coarse w) in
  (match err with None => Some tt | Some _ => None end, setMCoarse t w).

(** ** The compactor *)

(** [Config]: what a pass reads of it. *)
Record RollupConfig := mkRollupConfig { rc_BucketsPerPass : nat; rc_MinFreeBytes : Z }.

(** [Config.withDefaults] *)
Definition rollupDefaults (bucketsPerPass minFreeBytes : Z) : RollupConfig :=
  mkRollupConfig (if bucketsPerPass <=? 0 then 12 else Z.to_nat bucketsPerPass)
    (if minFreeBytes <=? 0 then 52428800 else minFreeBytes).

Definition MetricRollupLateWrite : Z := 30 * minute.

(** The fields of [repository.Space] that [haveRoom] reads. *)
Record Space := mkSpace { sp_PageSize : Z; sp_FreelistCount : Z; sp_VolumeBytes : Z; sp_VolumeFreeBytes : Z }.

(** [Space.AvailableBytes] *)
Definition AvailableBytes (s : Space) : Z :=
  wrap64 (sp_VolumeFreeBytes s + wrap64 (sp_FreelistCount s * sp_PageSize s)).

(** [Space.Measured] *)
Definition Measured (s : Space) : bool := (0 <? sp_VolumeBytes s) && (0 <? sp_PageSize s).

(** [Compactor.haveRoom]; [None] is a repository that cannot measure, no path, or an error. *)
Definition haveRoom (cfg : RollupConfig) (space : option Space) : MC bool := fun w =>
  match space with
  | None => (Some true, w)
  | Some s =>
      if negb (Measured s) then (Some true, w)
      else if rc_MinFreeBytes cfg <=? AvailableBytes s then (Some true, setMLow false w)
      else (Some false, setMLow true w)
  end.

(** [projectRows]: the projects in order of appearance, with their rows. *)
Abbreviation projectRows := (list (Z * list MetricRollup)).

(** Appends a row to those of its project. *)
Fixpoint addProjectRow (r : MetricRollup) (ps : projectRows) : projectRows :=
  match ps with
  | [] => [(mr_ProjectID r, [r])]
  | (pid, rows) :: ps =>
      if pid =? mr_ProjectID r then (pid, rows ++ [r]) :: ps else (pid, rows) :: addProjectRow r ps
  end.

(** [splitWindow] *)
Definition splitOneRow (from : Z) (st : gmap string MetricRollup * projectRows) (r : MetricRollup)
  : gmap string MetricRollup * projectRows :=
  let '(tails, out) := st in
  if mr_Bucket r <? from then
    let k := SourceTailKey r in
    (match tails !! k with
     | Some prev => if mr_Bucket prev <? mr_Bucket r then <[k := r]> tails else tails
     | None => <[k := r]> tails
     end, out)
  else (tails, addProjectRow r out).

Definition splitWindow (rows : list MetricRollup) (from : Z) : gmap string MetricRollup * projectRows :=
  foldl (splitOneRow from) (∅, []) rows.

Section Compactor.
Context (parseAttributes : string -> gmap string string) (marshalAttributes : gmap string string -> option string).
Context (decodeHist : string -> option histogram) (encodeHist : histogram -> option string).
Context (overflow : float64 -> Z).
Context (trimSpace : string -> string) (split : string -> list string).

(** [ParseDropList]; [split] is [strings.Split] at commas. *)
Definition ParseDropList (raw : string) : list string :=
  if bool_decide (trimSpace raw = ""%string) then []
  else filter (fun k => k <> ""%string) (trimSpace <$> split raw).

(** [Compactor.policy]; [None] is a setting that cannot be read. *)
Definition Compactor_policy (hourly daily : option string) : DropPolicy :=
  let override (v : option string) (d : list string) :=
    match v with
    | Some v => if bool_decide (v = ""%string) then d else ParseDropList v
    | None => d
    end in
  mkPolicy (override hourly (dp_Hourly DefaultDropPolicy)) (override daily (dp_Daily DefaultDropPolicy)).

(** The rows [compactBucket] writes for one project. *)
Definition mergedFor (tier : Tier) (bucket : Z) (policy : DropPolicy) (tails : gmap string MetricRollup)
  (last : gmap string float64) (pr : Z * list MetricRollup) : list MetricRollup :=
  MetricMerge parseAttributes marshalAttributes decodeHist encodeHist overflow tier bucket pr.1 pr.2 policy
    (mkCarry tails last).

(** The loop of [compactBucket] over the projects. *)
Fixpoint compactProjects (tier : Tier) (bucket : Z) (policy : DropPolicy) (tails : gmap string MetricRollup)
  (written : nat) (ps : projectRows) : MC nat :=
  match ps with
  | [] => mret written
  | pr :: ps =>
      last ← mreads (fun w => CoarseLastBySeries w pr.1 (tier_Step tier) (PrevBucket bucket (tier_Step tier)));
      let merged := mergedFor tier bucket policy tails last pr in
      match merged with
      | [] => compactProjects tier bucket policy tails written ps
      | _ =>
          _ ← upsertCoarseRollups merged;
          compactProjects tier bucket policy tails (written + length merged) ps
      end
  end.

(** [Compactor.compactBucket]; a window without rows has no projects. *)
Definition compactMetricBucket (tier : Tier) (bucket : Z) (policy : DropPolicy) : MC nat :=
  let '(from, to) := sourceWindow tier bucket in
  rows ← mreads (fun w => RollupWindow w (tier_Source tier) (PrevBucket from (tier_Source tier)) to);
  let '(tails, byProject) := splitWindow rows from in
  compactProjects tier bucket policy tails 0 byProject.

(** [Compactor.tierStart] *)
Definition metricTierStart (tier : Tier) : MC (option Z) :=
  through ← MetricRollupWatermark (tier_Source tier);
  match through with
  | Some through => mret (Some (TruncateBucket through (tier_Step tier)))
  | None =>
      oldest ← mreads (fun w => OldestRollupBucket w (tier_Source tier));
      mret ((fun o => TruncateBucket o (tier_Step tier)) <$> oldest)
  end.

(** [Compactor.sourceThrough]: the watermark of the first rung whose step is the source. *)
Definition sourceThrough (tier : Tier) : MC (option Z) :=
  match filter (fun below => tier_Step below = tier_Source tier) Ladder with
  | below :: _ => MetricRollupWatermark (tier_Source below)
  | [] => mret None
  end.

(** The loop of [compactTier]; [n] is what is left of [BucketsPerPass].  The call that reads
    the clock also stands for the check of the context. *)
Fixpoint metricLoop (tier : Tier) (policy : DropPolicy) (limit : option Z) (n buckets rows : nat) (start : Z)
  : MC (nat * nat) :=
  match n with
  | O => mret (buckets, rows)
  | S n =>
      now ← mreads mw_now;
      if negb (BucketClosed start (tier_Step tier) (now - MetricRollupLateWrite)) then mret (buckets, rows)
      else if match limit with
              | Some through => through <? TruncateBucket (NextBucket start (tier_Step tier)) (tier_Source tier)
              | None => false
              end
      then mret (buckets, rows)
      else
        k ← compactMetricBucket tier start policy;
        let end_ := NextBucket start (tier_Step tier) in
        _ ← SetMetricRollupWatermark (tier_Source tier) end_;
        metricLoop tier policy limit n (S buckets) (rows + k) end_
  end.

(** [Compactor.compactTier] *)
Definition compactMetricTier (cfg : RollupConfig) (policy : DropPolicy) (tier : Tier) : MC (nat * nat) :=
  start ← metricTierStart tier;
  match start with
  | None => mret (0, 0)%nat
  | Some start =>
      limit ← sourceThrough tier;
      metricLoop tier policy limit (rc_BucketsPerPass cfg) 0 0 start
  end.

(** The walk up the ladder in [RunOnce]. *)
Fixpoint metricLadder (cfg : RollupConfig) (policy : DropPolicy) (tiers : list Tier) : MC unit :=
  match tiers with
  | [] => mret tt
  | tier :: tiers =>
      r ← compactMetricTier cfg policy tier;
      _ ← mupdate (fun w => if (rc_BucketsPerPass cfg <=? r.1)%nat then setMBusy true w else w);
      metricLadder cfg policy tiers
  end.

(** [Compactor.RunOnce] *)
Definition RollupRunOnce (cfg : RollupConfig) (space : option Space) (hourly daily : option string) : MC unit :=
  room ← haveRoom cfg space;
  if negb room then mret tt
  else
    let policy := Compactor_policy hourly daily in
    _ ← mupdate (setMBusy false);
    metricLadder cfg policy Ladder.
End Compactor.
