(* ===== verification/MetricBuilt.v ===== *)
(** * What a coarse metric bucket is built from

    [built] is what [compactBucket] writes when nothing fails: the merge of the source
    window of every project.  It depends on the source rows before the end of the window and
    on the target bucket before. *)
From S2P Require Import Prelude Float64 TierStore Tiers TierCalendar MetricSeries MetricMerge.
From S2P Require Import MetricCompaction.

(** ** Selected rows *)

Lemma elem_of_selectRows {K} `{Countable K} (P : MetricRollup -> Prop) `{!forall m, Decision (P m)} (t : gmap K MetricRollup) m :
  m ∈ selectRows P t <-> P m /\ exists k, t !! k = Some m.
Proof.
  unfold selectRows. rewrite list_elem_of_fmap. split.
  - intros ([k x] & -> & [Hl HP]%elem_of_map_to_list%map_lookup_filter_Some). split; [done|by exists k].
  - intros (HP & k & Hk). exists (k, m). split; [done|]. by apply elem_of_map_to_list, map_lookup_filter_Some.
Qed.

Lemma selectRows_ext {K} `{Countable K} (P : MetricRollup -> Prop) `{!forall m, Decision (P m)} (t t' : gmap K MetricRollup) :
  (forall k m, P m -> t !! k = Some m <-> t' !! k = Some m) -> selectRows P t = selectRows P t'.
Proof.
  intros He. unfold selectRows. do 2 f_equal. apply map_eq. intros k. apply option_eq. intros m.
  rewrite !map_lookup_filter_Some. naive_solver.
Qed.

(** Two worlds with the same rows of a tier before [e]. *)
Definition sourceAgree (step e : Z) (w w' : mworld) : Prop :=
  if step =? Rollup5mStep then forall k m, mr_Bucket m < e -> mw_fine w !! k = Some m <-> mw_fine w' !! k = Some m
  else forall k m, mr_StepSeconds m = step -> mr_Bucket m < e -> mw_coarse w !! k = Some m <-> mw_coarse w' !! k = Some m.

Lemma sourceAgree_refl step e w : sourceAgree step e w w.
Proof. unfold sourceAgree. by destruct (step =? _). Qed.

Lemma tierRows_agree step e w w' (P : MetricRollup -> Prop) `{!forall m, Decision (P m)} :
  sourceAgree step e w w' -> (forall m, P m -> mr_Bucket m < e) -> tierRows w step P = tierRows w' step P.
Proof.
  unfold sourceAgree, tierRows. intros Ha HP. destruct (step =? Rollup5mStep); apply selectRows_ext.
  - intros k m Hm. apply Ha. by apply HP.
  - intros k m [Hs Hm]. apply Ha; [done|by apply HP].
Qed.

Lemma projectWindow_agree step e w w' pid from to :
  sourceAgree step e w w' -> to <= e -> projectWindow w step pid from to = projectWindow w' step pid from to.
Proof. intros Ha He. unfold projectWindow. f_equal. apply (tierRows_agree step e); [done|]. intros m (_ & ?). lia. Qed.

(** ** The window *)

Lemma windowLoop_skip w step from to pids : forall limit, 0 < limit ->
  windowLoop w step from to limit pids =
  windowLoop w step from to limit (filter (fun pid => projectWindow w step pid from to <> []) pids).
Proof.
  induction pids as [|pid pids IH]; intros limit Hl; [done|]. rewrite filter_cons. cbn [windowLoop].
  destruct (decide (projectWindow w step pid from to <> [])) as [Hne|He].
  - cbn [windowLoop]. f_equal. destruct (Z.leb_spec limit (Z.of_nat (length (takeZ limit (projectWindow w step pid from to))))); [done|].
    apply IH. lia.
  - destruct (projectWindow w step pid from to) eqn:E; [|by destruct He]. cbn [takeZ app length].
    destruct (Z.leb_spec limit (Z.of_nat 0)); [lia|]. rewrite Z.sub_0_r. by apply IH.
Qed.

Lemma windowLoop_ext w w' step from to pids : forall limit,
  (forall pid, projectWindow w step pid from to = projectWindow w' step pid from to) ->
  windowLoop w step from to limit pids = windowLoop w' step from to limit pids.
Proof. induction pids as [|pid pids IH]; intros limit He; [done|]. cbn [windowLoop]. by rewrite He, IH. Qed.

Lemma distinctProjectIDs_sorted w step : StronglySorted Z.le (distinctProjectIDs w step) /\ NoDup (distinctProjectIDs w step).
Proof.
  unfold distinctProjectIDs. split; [apply (StronglySorted_merge_sort _)|].
  rewrite merge_sort_Permutation. apply NoDup_elements.
Qed.

Lemma elem_of_projectWindow w step pid from to m :
  m ∈ projectWindow w step pid from to <->
  (mr_ProjectID m = pid /\ from <= mr_Bucket m < to) /\
  if step =? Rollup5mStep then exists k, mw_fine w !! k = Some m
  else mr_StepSeconds m = step /\ exists k, mw_coarse w !! k = Some m.
Proof.
  unfold projectWindow. rewrite merge_sort_Permutation. unfold tierRows.
  destruct (step =? Rollup5mStep); rewrite elem_of_selectRows; naive_solver.
Qed.

Lemma projectWindow_project w step pid from to :
  projectWindow w step pid from to <> [] -> pid ∈ distinctProjectIDs w step.
Proof.
  destruct (projectWindow w step pid from to) as [|m rest] eqn:E; [done|]. intros _.
  assert (m ∈ projectWindow w step pid from to) as Hm by (rewrite E; left). apply elem_of_projectWindow in Hm as [[Hp _] Hm].
  unfold distinctProjectIDs. rewrite merge_sort_Permutation, elem_of_elements, elem_of_list_to_set, list_elem_of_fmap.
  exists m. split; [done|]. destruct (step =? Rollup5mStep).
  - destruct Hm as [k Hk]. apply list_elem_of_fmap. exists (k, m). split; [done|]. by apply elem_of_map_to_list.
  - destruct Hm as [_ [k Hk]]. apply list_elem_of_fmap. exists (k, m). split; [done|]. by apply elem_of_map_to_list.
Qed.

Lemma StronglySorted_filter' {A} (R : relation A) (P : A -> Prop) `{!forall a, Decision (P a)} l :
  StronglySorted R l -> StronglySorted R (filter P l).
Proof.
  induction 1 as [|a l Hl IH Ha]; [constructor|]. rewrite filter_cons. destruct (decide (P a)); [|done].
  constructor; [done|]. apply Forall_forall. intros x [_ Hx]%list_elem_of_filter. rewrite Forall_forall in Ha. by apply Ha.
Qed.

(** The window reads nothing else. *)
Lemma RollupWindow_agree step e w w' from to :
  sourceAgree step e w w' -> to <= e -> RollupWindow w step from to = RollupWindow w' step from to.
Proof.
  intros Ha He. assert (forall pid, projectWindow w step pid from to = projectWindow w' step pid from to) as Hp
    by (intros pid; by apply (projectWindow_agree step e)).
  unfold RollupWindow. rewrite windowLoop_skip, (windowLoop_skip w') by done.
  rewrite (windowLoop_ext w w') by done. f_equal.
  destruct (distinctProjectIDs_sorted w step) as [Hs Hn], (distinctProjectIDs_sorted w' step) as [Hs' Hn'].
  apply (StronglySorted_unique Z.le); [by apply StronglySorted_filter'|by apply StronglySorted_filter'|].
  apply NoDup_Permutation; [by apply NoDup_filter|by apply NoDup_filter|].
  intros pid. rewrite !list_elem_of_filter, <- Hp. split; intros [Hne _]; (split; [done|]); apply (projectWindow_project _ _ _ from to);
    [by rewrite <- Hp|done].
Qed.

Lemma takeZ_all {A} (l : list A) : forall n, Z.of_nat (length l) <= n -> takeZ n l = l.
Proof.
  induction l as [|x l IH]; intros n Hn; [done|]. cbn [takeZ length] in *.
  destruct (Z.leb_spec n 0); [lia|]. rewrite IH by lia. done.
Qed.

Lemma takeZ_prefix {A} (l : list A) : forall n, takeZ n l `prefix_of` l.
Proof.
  induction l as [|x l IH]; intros n; [done|]. cbn [takeZ]. destruct (n <=? 0); [apply prefix_nil|]. by apply prefix_cons.
Qed.

(** A window below the limit is read whole. *)
Lemma windowLoop_all w step from to pids : forall limit,
  Z.of_nat (length (mjoin ((fun pid => projectWindow w step pid from to) <$> pids))) < limit ->
  windowLoop w step from to limit pids = mjoin ((fun pid => projectWindow w step pid from to) <$> pids).
Proof.
  induction pids as [|pid pids IH]; intros limit Hl; [done|]. cbn [windowLoop fmap list_fmap mjoin list_join] in *.
  rewrite length_app in Hl. rewrite takeZ_all by lia.
  destruct (Z.leb_spec limit (Z.of_nat (length (projectWindow w step pid from to)))); [lia|].
  rewrite IH; [done|]. rewrite Nat2Z.inj_add in Hl. apply Z.lt_add_lt_sub_l. exact Hl.
Qed.

Lemma windowLoop_in w step from to pids m : forall limit,
  m ∈ windowLoop w step from to limit pids -> exists pid, m ∈ projectWindow w step pid from to.
Proof.
  induction pids as [|pid pids IH]; intros limit Hm; [by apply elem_of_nil in Hm|]. cbn [windowLoop] in Hm.
  apply elem_of_app in Hm as [Hm|Hm].
  - exists pid. destruct (takeZ_prefix (projectWindow w step pid from to) limit) as [rest ->]. apply elem_of_app. by left.
  - destruct (limit <=? _); [by apply elem_of_nil in Hm|by eapply IH].
Qed.

(** ** Projects *)

Lemma addProjectRow_ids r ps : forall pid, pid ∈ (addProjectRow r ps).*1 <-> pid = mr_ProjectID r \/ pid ∈ ps.*1.
Proof.
  induction ps as [|[q rows] ps IH]; intros pid; cbn [addProjectRow]; [set_solver|].
  destruct (Z.eqb_spec q (mr_ProjectID r)); cbn [fmap list_fmap fst]; rewrite !elem_of_cons, ?IH; naive_solver.
Qed.

Lemma addProjectRow_NoDup r ps : NoDup ps.*1 -> NoDup (addProjectRow r ps).*1.
Proof.
  induction ps as [|[q rows] ps IH]; intros Hn; cbn [addProjectRow].
  { cbn. apply NoDup_singleton. }
  cbn [fmap list_fmap fst] in Hn. apply NoDup_cons in Hn as [Hq Hn].
  destruct (Z.eqb_spec q (mr_ProjectID r)); cbn [fmap list_fmap fst]; [by apply NoDup_cons|].
  apply NoDup_cons. split; [|by apply IH]. rewrite addProjectRow_ids. naive_solver.
Qed.

Lemma splitWindow_NoDup rows from : NoDup (splitWindow rows from).2.*1.
Proof.
  unfold splitWindow. induction rows as [|r rows IH] using rev_ind; [constructor|].
  rewrite foldl_app. cbn [foldl]. destruct (foldl _ (∅, []) rows) as [tails out]. cbn [splitOneRow snd] in *. unfold splitOneRow.
  destruct (mr_Bucket r <? from); [done|]. by apply addProjectRow_NoDup.
Qed.

(** A window without rows has no projects. *)
Lemma splitWindow_nil from : splitWindow [] from = (∅, []).
Proof. done. Qed.

Section Built.
Context (parseAttributes : string -> gmap string string) (marshalAttributes : gmap string string -> option string).
Context (decodeHist : string -> option histogram) (encodeHist : histogram -> option string).
Context (overflow : float64 -> Z) (policy : DropPolicy).

(** The carried rows and the projects of a bucket. *)
Definition bucketSplit (w : mworld) (tier : Tier) (b : Z) : gmap string MetricRollup * projectRows :=
  let '(from, to) := sourceWindow tier b in
  splitWindow (RollupWindow w (tier_Source tier) (PrevBucket from (tier_Source tier)) to) from.

Definition mergedOf (w : mworld) (tier : Tier) (b : Z) (pr : Z * list MetricRollup) : list MetricRollup :=
  mergedFor parseAttributes marshalAttributes decodeHist encodeHist overflow tier b policy (bucketSplit w tier b).1
    (CoarseLastBySeries w pr.1 (tier_Step tier) (PrevBucket b (tier_Step tier))) pr.

(** The rows of a bucket, and as they are stored. *)
Definition builtRows (w : mworld) (tier : Tier) (b : Z) : list MetricRollup :=
  mjoin (mergedOf w tier b <$> (bucketSplit w tier b).2).

Definition built (w : mworld) (tier : Tier) (b : Z) : list MetricRollup := stored (tier_Step tier) <$> builtRows w tier b.

(** Two worlds with the same rows of a target bucket. *)
Definition targetAgree (step b : Z) (w w' : mworld) : Prop :=
  forall k m, mr_StepSeconds m = step -> mr_Bucket m = b -> mw_coarse w !! k = Some m <-> mw_coarse w' !! k = Some m.

Lemma CoarseLastBySeries_agree w w' pid step b :
  targetAgree step b w w' -> CoarseLastBySeries w pid step b = CoarseLastBySeries w' pid step b.
Proof.
  intros Ha. unfold CoarseLastBySeries. f_equal. f_equal. apply selectRows_ext. intros k m (_ & Hs & Hb). by apply Ha.
Qed.

Lemma bucketSplit_agree e w w' tier b :
  sourceAgree (tier_Source tier) e w w' -> (sourceWindow tier b).2 <= e -> bucketSplit w tier b = bucketSplit w' tier b.
Proof.
  intros Ha He. unfold bucketSplit. destruct (sourceWindow tier b) as [from to]. cbn [snd] in He.
  by rewrite (RollupWindow_agree _ e w w').
Qed.

Lemma mergedOf_agree e w w' tier b pr :
  sourceAgree (tier_Source tier) e w w' -> (sourceWindow tier b).2 <= e ->
  targetAgree (tier_Step tier) (PrevBucket b (tier_Step tier)) w w' -> mergedOf w tier b pr = mergedOf w' tier b pr.
Proof.
  intros Ha He Ht. unfold mergedOf. by rewrite (bucketSplit_agree e w w'), (CoarseLastBySeries_agree w w').
Qed.

Lemma built_agree e w w' tier b :
  sourceAgree (tier_Source tier) e w w' -> (sourceWindow tier b).2 <= e ->
  targetAgree (tier_Step tier) (PrevBucket b (tier_Step tier)) w w' -> built w tier b = built w' tier b.
Proof.
  intros Ha He Ht. unfold built, builtRows. rewrite (bucketSplit_agree e w w' tier b Ha He). do 2 f_equal.
  apply list_fmap_ext. intros i pr _. by apply (mergedOf_agree e).
Qed.

Lemma mergedOf_at w tier b pr r : r ∈ mergedOf w tier b pr ->
  mr_ProjectID r = pr.1 /\ mr_Bucket r = b /\ mr_StepSeconds r = tier_Step tier.
Proof. unfold mergedOf, mergedFor. apply MetricMerge_at. Qed.

Lemma elem_of_builtRows w tier b r :
  r ∈ builtRows w tier b <-> exists pr, pr ∈ (bucketSplit w tier b).2 /\ r ∈ mergedOf w tier b pr.
Proof.
  unfold builtRows. rewrite list_elem_of_join. split.
  - intros (l & Hr & (pr & -> & Hp)%list_elem_of_fmap). by exists pr.
  - intros (pr & Hp & Hr). exists (mergedOf w tier b pr). split; [done|]. apply list_elem_of_fmap. by exists pr.
Qed.

Lemma built_at w tier b r : r ∈ built w tier b -> mr_StepSeconds r = tier_Step tier /\ mr_Bucket r = b.
Proof. intros (x & -> & (pr & _ & (_ & Hb & _)%mergedOf_at)%elem_of_builtRows)%list_elem_of_fmap. done. Qed.

(** No two rows of a bucket share a key. *)
Lemma builtRows_NoDup w tier b : NoDup (coarsePKOf <$> builtRows w tier b).
Proof.
  unfold builtRows. assert (NoDup (bucketSplit w tier b).2.*1) as Hn.
  { unfold bucketSplit. destruct (sourceWindow tier b). apply splitWindow_NoDup. }
  induction (bucketSplit w tier b).2 as [|pr ps IH]; [constructor|].
  cbn [fmap list_fmap mjoin list_join] in *. apply NoDup_cons in Hn as [Hp Hn]. rewrite fmap_app. apply NoDup_app. split_and!.
  - pose proof (MetricMerge_NoDup parseAttributes marshalAttributes decodeHist encodeHist overflow tier b pr.1 pr.2 policy
      (mkCarry (bucketSplit w tier b).1 (CoarseLastBySeries w pr.1 (tier_Step tier) (PrevBucket b (tier_Step tier))))) as Hk.
    fold (mergedFor parseAttributes marshalAttributes decodeHist encodeHist overflow tier b policy (bucketSplit w tier b).1
      (CoarseLastBySeries w pr.1 (tier_Step tier) (PrevBucket b (tier_Step tier))) pr) in Hk.
    fold (mergedOf w tier b pr) in Hk. revert Hk. generalize (mergedOf w tier b pr) as l. clear.
    induction l as [|r l IH]; [by constructor|]. cbn [fmap list_fmap]. intros [Hr Hl]%NoDup_cons. constructor; [|by apply IH].
    intros (x & E & Hx)%list_elem_of_fmap. destruct Hr. apply list_elem_of_fmap. exists x. split; [|done].
    unfold coarsePKOf in E. unfold rowKey. congruence.
  - intros k (r & -> & (Er & _)%mergedOf_at)%list_elem_of_fmap (x & E & Hx)%list_elem_of_fmap.
    apply list_elem_of_join in Hx as (l & Hx & (pr' & -> & Hp')%list_elem_of_fmap). apply mergedOf_at in Hx as [Ex _].
    destruct Hp. apply list_elem_of_fmap. exists pr'. split; [|done]. unfold coarsePKOf in E. congruence.
  - by apply IH.
Qed.

Lemma stored_key step r : mr_StepSeconds r = step -> coarsePKOf (stored step r) = coarsePKOf r.
Proof. by intros <-. Qed.

Lemma metricBuilt_inj w tier b r r' : r ∈ built w tier b -> r' ∈ built w tier b -> coarsePKOf r = coarsePKOf r' -> r = r'.
Proof.
  intros (x & -> & Hx)%list_elem_of_fmap (x' & -> & Hx')%list_elem_of_fmap.
  assert (mr_StepSeconds x = tier_Step tier /\ mr_StepSeconds x' = tier_Step tier) as [E E'].
  { split; [apply elem_of_builtRows in Hx as (? & _ & ?%mergedOf_at)|apply elem_of_builtRows in Hx' as (? & _ & ?%mergedOf_at)]; naive_solver. }
  rewrite !stored_key by done. intros Hk. pose proof (builtRows_NoDup w tier b) as Hn.
  apply list_elem_of_lookup in Hx as [i Hi], Hx' as [j Hj].
  assert (i = j) as ->; [|congruence]. apply (NoDup_lookup _ i j (coarsePKOf x) Hn); rewrite list_lookup_fmap, ?Hi, ?Hj; [done|].
  cbn. by rewrite Hk.
Qed.
End Built.
