(* ===== verification/MetricTiersInv.v ===== *)
(** * The invariant of the metric tiers

    Below its watermark a coarse tier holds exactly what [built] says; at its next bucket it
    may hold some of those rows, left by a pass that failed; above it holds nothing.  The
    source rows of a bucket are frozen when it is compacted. *)
From S2P Require Import Prelude Float64 TierStore Tiers TierCalendar MetricSeries MetricMerge.
From S2P Require Import MetricCompaction MetricBuilt.

#[local] Opaque TruncateBucket NextBucket PrevBucket.

(** ** The ladder *)

#[export] Instance Tier_eq_dec : EqDecision Tier.
Proof. solve_decision. Defined.

(** The source of the rung below. *)
Definition lowerSource (tier : Tier) : option Z :=
  match filter (fun below => tier_Step below = tier_Source tier) Ladder with
  | below :: _ => Some (tier_Source below)
  | [] => None
  end.

Lemma ladder_cases tier : tier ∈ Ladder ->
  tier = mkTier StepHour Step5m \/ tier = mkTier StepDay StepHour \/ tier = mkTier StepWeek StepDay \/
  tier = mkTier StepMonth StepWeek.
Proof. unfold Ladder. rewrite !elem_of_cons, elem_of_nil. tauto. Qed.

(** Steps are distinct, no rung is its own source, and a rung's source is the 5-minute
    tier or the rung below. *)
Lemma ladder_step_inj tier tier' : tier ∈ Ladder -> tier' ∈ Ladder -> tier_Step tier = tier_Step tier' -> tier = tier'.
Proof. intros [->|[->|[->| ->]]]%ladder_cases [->|[->|[->| ->]]]%ladder_cases; done. Qed.

Lemma ladder_source_inj tier tier' : tier ∈ Ladder -> tier' ∈ Ladder -> tier_Source tier = tier_Source tier' -> tier = tier'.
Proof. intros [->|[->|[->| ->]]]%ladder_cases [->|[->|[->| ->]]]%ladder_cases; done. Qed.

Lemma ladder_irrefl tier : tier ∈ Ladder -> tier_Step tier <> tier_Source tier.
Proof. intros [->|[->|[->| ->]]]%ladder_cases; done. Qed.

Lemma ladder_lower tier : tier ∈ Ladder ->
  (lowerSource tier = None /\ tier = mkTier StepHour Step5m) \/
  (tier_Source tier =? Rollup5mStep) = false /\
  exists below, below ∈ Ladder /\ tier_Step below = tier_Source tier /\ lowerSource tier = Some (tier_Source below).
Proof.
  intros [->|[->|[->| ->]]]%ladder_cases; [by left| | |]; right; (split; [done|]);
    [exists (mkTier StepHour Step5m)|exists (mkTier StepDay StepHour)|exists (mkTier StepWeek StepDay)];
    (split; [|done]); unfold Ladder; set_solver.
Qed.

Lemma ladder_laws tier : tier ∈ Ladder -> BucketLaws (tier_Step tier) /\ BucketLaws (tier_Source tier).
Proof. intros [? ?]%ladder_steps. split; by apply tier_laws. Qed.

(** ** Frozen rows *)

(** The source rows of a rung before [e] do not change any more. *)
Definition frozen (w : mworld) (tier : Tier) (e : Z) : Prop :=
  match lowerSource tier with
  | None => e <= mw_now w - MetricRollupLateWrite
  | Some s => exists m, mw_marks w !! s = Some m /\ e <= m
  end.

(** A 5-minute row is written while its hour is open or closed for less than the wait. *)
Definition writeOk (now : Z) (r : MetricRollup) : Prop :=
  now - MetricRollupLateWrite < NextBucket (TruncateBucket (mr_Bucket r) StepHour) StepHour.

(** Less than an hour passes between two calls of a pass. *)
Fixpoint callsOk (now : Z) (calls : list mcall) : Prop :=
  match calls with
  | [] => True
  | c :: calls => now <= cl_now c < now + hour /\ Forall (writeOk now) (cl_writes c) /\ callsOk (cl_now c) calls
  end.

(** The next bucket of a rung. *)
Definition nextBucket (w : mworld) (tier : Tier) : option Z :=
  match mw_marks w !! tier_Source tier with
  | Some m => Some m
  | None => (fun o => TruncateBucket o (tier_Step tier)) <$> OldestRollupBucket w (tier_Source tier)
  end.

Definition fineOk (w : mworld) : Prop := forall k r, mw_fine w !! k = Some r -> k = finePKOf r.

Definition coarseOk (w : mworld) : Prop := forall k r, mw_coarse w !! k = Some r ->
  k = coarsePKOf r /\ exists tier, tier ∈ Ladder /\ mr_StepSeconds r = tier_Step tier /\ tierAligned (tier_Step tier) (mr_Bucket r).

Section Inv.
Context (parseAttributes : string -> gmap string string) (marshalAttributes : gmap string string -> option string).
Context (decodeHist : string -> option histogram) (encodeHist : histogram -> option string).
Context (overflow : float64 -> Z) (policy : DropPolicy).

Abbreviation built := (built parseAttributes marshalAttributes decodeHist encodeHist overflow policy).
Abbreviation mergedOf := (mergedOf parseAttributes marshalAttributes decodeHist encodeHist overflow policy).

Record tierInv (w : mworld) (tier : Tier) : Prop := {
  ti_mark : forall m, mw_marks w !! tier_Source tier = Some m ->
    tierAligned (tier_Step tier) m /\ frozen w tier (TruncateBucket m (tier_Source tier));
  ti_exact : forall m b r, mw_marks w !! tier_Source tier = Some m -> tierAligned (tier_Step tier) b -> b < m ->
    (exists k, mw_coarse w !! k = Some r /\ mr_StepSeconds r = tier_Step tier /\ mr_Bucket r = b) <-> r ∈ built w tier b;
  ti_open : forall k r, mw_coarse w !! k = Some r -> mr_StepSeconds r = tier_Step tier ->
    (forall m, mw_marks w !! tier_Source tier = Some m -> m <= mr_Bucket r) ->
    nextBucket w tier = Some (mr_Bucket r) /\ frozen w tier (sourceWindow tier (mr_Bucket r)).2 /\
    NextBucket (mr_Bucket r) (tier_Step tier) <= mw_now w - MetricRollupLateWrite /\ r ∈ built w tier (mr_Bucket r);
}.

Record metricInv (w : mworld) : Prop := {
  mi_fine : fineOk w;
  mi_coarse : coarseOk w;
  mi_calls : callsOk (mw_now w) (mw_calls w);
  mi_tiers : forall tier, tier ∈ Ladder -> tierInv w tier;
}.

(** ** The oldest row *)

Lemma elem_of_tierRows w step P `{!forall m, Decision (P m)} m :
  m ∈ tierRows w step P <-> P m /\
  if step =? Rollup5mStep then exists k, mw_fine w !! k = Some m
  else mr_StepSeconds m = step /\ exists k, mw_coarse w !! k = Some m.
Proof. unfold tierRows. destruct (step =? Rollup5mStep); rewrite elem_of_selectRows; naive_solver. Qed.

Lemma oldestRollup_spec w step o :
  OldestRollupBucket w step = Some o <->
  (exists m, m ∈ tierRows w step (fun _ => True) /\ mr_Bucket m = o) /\
  forall m, m ∈ tierRows w step (fun _ => True) -> o <= mr_Bucket m.
Proof.
  unfold OldestRollupBucket. generalize (tierRows w step (fun _ => True)) as l. intros l.
  assert (forall b bs, (foldr Z.min b bs = b \/ foldr Z.min b bs ∈ bs) /\ foldr Z.min b bs <= b /\
    forall x, x ∈ bs -> foldr Z.min b bs <= x) as Hmin.
  { intros b. induction bs as [|x bs (H1 & H2 & H3)]; [split; [by left|split; [cbn; lia|by intros ? ?%elem_of_nil]]|].
    cbn [foldr]. split_and!; [|lia|].
    - destruct (Z.min_spec x (foldr Z.min b bs)) as [[_ ->]|[_ ->]]; [right; left|]. destruct H1; [by left|right; by right].
    - intros y [->|Hy]%elem_of_cons; [lia|]. specialize (H3 y Hy). lia. }
  destruct l as [|m l]; cbn [fmap list_fmap].
  { split; [done|]. intros [(m & []%elem_of_nil & _) _]. }
  destruct (Hmin (mr_Bucket m) (mr_Bucket <$> l)) as (H1 & H2 & H3).
  assert (forall x, x ∈ m :: l -> foldr Z.min (mr_Bucket m) (mr_Bucket <$> l) <= mr_Bucket x) as Hle.
  { intros x [->|Hx]%elem_of_cons; [done|]. apply H3, list_elem_of_fmap. by exists x. }
  split.
  - intros [= <-]. split; [|done]. destruct H1 as [->|(x & -> & Hx)%list_elem_of_fmap]; [exists m; split; [left|done]|].
    exists x. split; [by right|done].
  - intros [(x & Hx & <-) Ho]. f_equal. specialize (Hle x Hx).
    enough (mr_Bucket x <= foldr Z.min (mr_Bucket m) (mr_Bucket <$> l)) by lia.
    destruct H1 as [->|(y & -> & Hy)%list_elem_of_fmap]; apply Ho; [left|by right].
Qed.

(** ** Buckets with rows *)

Lemma splitWindow_from rows from pr :
  pr ∈ (splitWindow rows from).2 -> exists r, r ∈ rows /\ from <= mr_Bucket r.
Proof.
  unfold splitWindow. induction rows as [|r rows IH] using rev_ind; [by intros ?%elem_of_nil|].
  rewrite foldl_app. cbn [foldl]. destruct (foldl _ (∅, []) rows) as [tails out]. cbn [snd] in *. unfold splitOneRow.
  destruct (Z.ltb_spec (mr_Bucket r) from); cbn [snd].
  - intros (x & Hx & ?)%IH. exists x. split; [|done]. apply elem_of_app. by left.
  - intros _. exists r. split; [|done]. apply elem_of_app. right. left.
Qed.

(** A bucket that is not empty has a source row in its window. *)
Lemma built_source w tier b r : r ∈ built w tier b ->
  exists m, m ∈ tierRows w (tier_Source tier) (fun _ => True) /\ (sourceWindow tier b).1 <= mr_Bucket m < (sourceWindow tier b).2.
Proof.
  intros (x & _ & (pr & Hp & _)%elem_of_builtRows)%list_elem_of_fmap. unfold bucketSplit in Hp.
  destruct (sourceWindow tier b) as [from to]. cbn [fst snd]. apply splitWindow_from in Hp as (m & Hm & Hf).
  apply windowLoop_in in Hm as (pid & [[_ Hb] Hm]%elem_of_projectWindow). exists m. split; [|lia]. by apply elem_of_tierRows.
Qed.

Lemma frozen_le w tier e e' : frozen w tier e -> e' <= e -> frozen w tier e'.
Proof. unfold frozen. destruct (lowerSource tier); [|lia]. intros (m & ? & ?) ?. exists m. split; [done|lia]. Qed.

(** Windows end in order. *)
Lemma window_end_mono tier b m : tier ∈ Ladder -> tierAligned (tier_Step tier) b -> tierAligned (tier_Step tier) m -> b < m ->
  (sourceWindow tier b).2 <= TruncateBucket m (tier_Source tier).
Proof.
  intros Ht Hb Hm Hlt. destruct (ladder_laws tier Ht) as [LT LS]. cbn [sourceWindow snd].
  apply (truncate_mono (tier_Source tier)). by apply (bucket_next_le (tier_Step tier)).
Qed.

(** The oldest row stays the oldest when no older row can come. *)
Lemma oldest_agree step e w w' o :
  sourceAgree step e w w' -> OldestRollupBucket w step = Some o -> o < e -> OldestRollupBucket w' step = Some o.
Proof.
  intros Ha Eo Hlt. apply oldestRollup_spec in Eo as [(m0 & Hm0 & E0) Hle].
  assert (forall m, mr_Bucket m < e -> m ∈ tierRows w step (fun _ => True) <-> m ∈ tierRows w' step (fun _ => True)) as Hsame.
  { intros m Hm'. rewrite !elem_of_tierRows. unfold sourceAgree in Ha. destruct (step =? Rollup5mStep).
    - split; intros (_ & k' & Hk'); (split; [done|]); exists k'; by apply Ha.
    - split; intros (_ & Hs' & k' & Hk'); (split; [done|]); (split; [done|]); exists k'; by apply Ha. }
  apply oldestRollup_spec. split.
  - exists m0. split; [|done]. apply Hsame; [lia|done].
  - intros m Hm'. destruct (Z.lt_ge_cases (mr_Bucket m) e) as [Hlt'|Hge]; [|lia]. apply Hle. by apply Hsame.
Qed.

(** A change that leaves the rows of a rung, its watermark and its frozen source rows alone. *)
Lemma tierInv_frame w w' tier :
  tier ∈ Ladder -> tierInv w tier -> mw_now w <= mw_now w' ->
  mw_marks w' !! tier_Source tier = mw_marks w !! tier_Source tier ->
  (forall k r, mr_StepSeconds r = tier_Step tier -> mw_coarse w !! k = Some r <-> mw_coarse w' !! k = Some r) ->
  (forall e, frozen w tier e -> frozen w' tier e) ->
  (forall b, tierAligned (tier_Step tier) b -> frozen w tier (sourceWindow tier b).2 ->
     sourceAgree (tier_Source tier) (sourceWindow tier b).2 w w') ->
  coarseOk w -> tierInv w' tier.
Proof.
  intros Ht [Hmark Hexact Hopen] Hnow Em Hrows Hfr Hsrc Hc.
  assert (forall b, tierAligned (tier_Step tier) b -> frozen w tier (sourceWindow tier b).2 -> built w' tier b = built w tier b) as Hbuilt.
  { intros b Hb Hf. symmetry. apply (built_agree _ _ _ _ _ _ (sourceWindow tier b).2); [by apply Hsrc|lia|].
    intros k m Hs _. by apply Hrows. }
  constructor.
  - intros m. rewrite Em. intros Hm. destruct (Hmark m Hm). auto.
  - intros m b r. rewrite Em. intros Hm Hb Hlt. destruct (Hmark m Hm) as [Ham Hfm].
    rewrite Hbuilt, <- (Hexact m b r Hm Hb Hlt); [|done|eapply frozen_le; [exact Hfm|by apply window_end_mono]].
    split; intros (k & Hk & Hs & Hbr); exists k; (split; [by apply Hrows|done]).
  - intros k r Hk Hs. rewrite Em. apply Hrows in Hk; [|done]. intros Hm.
    destruct (Hopen k r Hk Hs Hm) as (Hn & Hf & Hcl & Hb).
    assert (tierAligned (tier_Step tier) (mr_Bucket r)) as Har.
    { destruct (Hc k r Hk) as (_ & t' & Ht' & E & Ha). rewrite Hs in E. by apply (ladder_step_inj tier t' Ht Ht') in E as ->. }
    split_and!; [|by apply Hfr|lia|by rewrite Hbuilt].
    revert Hn. unfold nextBucket. rewrite Em. destruct (mw_marks w !! tier_Source tier); [done|].
    destruct (OldestRollupBucket w (tier_Source tier)) as [o|] eqn:Eo; [|done].
    enough (OldestRollupBucket w' (tier_Source tier) = Some o) as -> by done.
    apply (oldest_agree _ (sourceWindow tier (mr_Bucket r)).2 w); [by apply Hsrc|done|].
    apply built_source in Hb as (m1 & Hm1 & Hlt1). apply oldestRollup_spec in Eo as [_ Hle]. specialize (Hle m1 Hm1). lia.
Qed.

(** ** Writes of others *)

Lemma upsertFine_other t r k m : (forall k m, t !! k = Some m -> k = finePKOf m) -> mr_Bucket m <> mr_Bucket r ->
  t !! k = Some m <-> upsertFine t r !! k = Some m.
Proof.
  intros Hok Hb. unfold upsertFine. destruct (decide (k = finePKOf (stored 0 r))) as [->|Hne].
  - rewrite upsert_same. split.
    + intros E. apply Hok in E. destruct Hb. unfold finePKOf in E. cbn in E. congruence.
    + destruct (t !! finePKOf (stored 0 r)) as [old|] eqn:Eo; cbn [from_option]; intros [= <-]; [|by destruct Hb].
      apply Hok in Eo. unfold finePKOf in Eo. cbn in *. congruence.
  - by rewrite upsert_other by done.
Qed.

Lemma upsertFine_ok t r : (forall k m, t !! k = Some m -> k = finePKOf m) ->
  forall k m, upsertFine t r !! k = Some m -> k = finePKOf m.
Proof.
  intros Hok k m. unfold upsertFine. destruct (decide (k = finePKOf (stored 0 r))) as [->|Hne].
  - rewrite upsert_same. destruct (t !! finePKOf (stored 0 r)) as [old|] eqn:Eo; cbn [from_option]; intros [= <-]; [|done].
    by apply Hok in Eo.
  - rewrite upsert_other by done. apply Hok.
Qed.

Lemma upsertFine_all e rows : forall t, (forall k m, t !! k = Some m -> k = finePKOf m) ->
  Forall (fun r => e <= mr_Bucket r) rows ->
  (forall k m, foldl upsertFine t rows !! k = Some m -> k = finePKOf m) /\
  forall k m, mr_Bucket m < e -> t !! k = Some m <-> foldl upsertFine t rows !! k = Some m.
Proof.
  induction rows as [|r rows IH]; intros t Hok Hr; [done|]. apply Forall_cons in Hr as [Hr Hrs]. cbn [foldl].
  destruct (IH (upsertFine t r) (upsertFine_ok t r Hok) Hrs) as [H1 H2]. split; [done|].
  intros k m Hm. rewrite <- H2 by done. apply upsertFine_other; [done|lia].
Qed.

(** A row that may be written lies past every closed hour. *)
Lemma writeOk_past now r e : tierAligned StepHour e -> e <= now - MetricRollupLateWrite -> writeOk now r -> e <= mr_Bucket r.
Proof.
  intros He Hle Hw. unfold writeOk in Hw. assert (BucketLaws StepHour) as L by (apply tier_laws; left; right; by left).
  pose proof (bl_in (S := StepHour) (mr_Bucket r)) as Hin.
  destruct (Z.le_gt_cases e (TruncateBucket (mr_Bucket r) StepHour)) as [|Hgt]; [lia|].
  pose proof (bucket_next_le StepHour _ e (bl_start (mr_Bucket r)) He Hgt). lia.
Qed.

(** The end of an hour is the end of its window. *)
Lemma hour_window b : tierAligned StepHour b -> (sourceWindow (mkTier StepHour Step5m) b).2 = NextBucket b StepHour.
Proof.
  intros Hb. cbn [sourceWindow snd tier_Source tier_Step].
  assert (fixedStep StepHour /\ fixedStep Step5m) as [Fh F5] by (split; [right; by left|by left]).
  assert (BucketLaws StepHour) as L by (by apply fixed_laws).
  apply (TruncateBucket_aligned _ Step5m F5). pose proof (bl_next b Hb) as Hn.
  apply (TruncateBucket_aligned _ StepHour Fh) in Hn. eapply Z.divide_trans; [|exact Hn]. by exists 12.
Qed.

(** What a call leaves alone. *)
Record called (w w' : mworld) : Prop := {
  cd_coarse : mw_coarse w' = mw_coarse w;
  cd_marks : mw_marks w' = mw_marks w;
  cd_now : mw_now w <= mw_now w';
  cd_fine : forall e, tierAligned StepHour e -> e <= mw_now w - MetricRollupLateWrite ->
    forall k m, mr_Bucket m < e -> mw_fine w !! k = Some m <-> mw_fine w' !! k = Some m;
}.

Lemma called_refl w : called w w.
Proof. by constructor. Qed.

Lemma called_trans w1 w2 w3 : called w1 w2 -> called w2 w3 -> called w1 w3.
Proof.
  intros [A1 A2 A3 A4] [B1 B2 B3 B4]. constructor; [congruence|congruence|lia|].
  intros e He Hle k m Hm. rewrite (A4 e He Hle k m Hm). apply (B4 e He); [lia|done].
Qed.

Lemma called_agree w w' tier b : tier ∈ Ladder -> called w w' -> tierAligned (tier_Step tier) b ->
  frozen w tier (sourceWindow tier b).2 -> sourceAgree (tier_Source tier) (sourceWindow tier b).2 w w'.
Proof.
  intros Ht Hc Hb Hf. destruct (ladder_lower tier Ht) as [[El ->]|[E5 _]].
  - unfold frozen in Hf. rewrite El in Hf. rewrite hour_window in * by done. cbn [tier_Source]. unfold sourceAgree.
    change (Step5m =? Rollup5mStep) with true. cbv iota.
    apply (cd_fine _ _ Hc); [|done]. assert (BucketLaws StepHour) as L by (apply tier_laws; left; right; by left). by apply bl_next.
  - unfold sourceAgree. rewrite E5. intros k m _ _. by rewrite (cd_coarse _ _ Hc).
Qed.

Lemma called_inv w w' : metricInv w -> called w w' -> fineOk w' -> callsOk (mw_now w') (mw_calls w') -> metricInv w'.
Proof.
  intros [Hf Hc _ Ht] Hcd Hf' Hcalls. constructor; [done| |done|].
  - intros k r. rewrite (cd_coarse _ _ Hcd). apply Hc.
  - intros tier Hin. apply (tierInv_frame w); try done.
    + by apply Ht.
    + apply (cd_now _ _ Hcd).
    + by rewrite (cd_marks _ _ Hcd).
    + intros k r _. by rewrite (cd_coarse _ _ Hcd).
    + intros e. unfold frozen. rewrite (cd_marks _ _ Hcd). pose proof (cd_now _ _ Hcd). destruct (lowerSource tier); [done|lia].
    + intros b Hb Hfz. by apply called_agree.
Qed.

Lemma nextMCall_inv w : metricInv w -> metricInv (nextMCall w).2 /\ called w (nextMCall w).2.
Proof.
  intros Hinv. unfold nextMCall. destruct (mw_calls w) as [|c cs] eqn:Ec; [split; [done|apply called_refl]|].
  pose proof (mi_calls _ Hinv) as Hcalls. rewrite Ec in Hcalls. destruct Hcalls as (Hnow & Hw & Hcs). cbn [snd].
  set (w' := mkMWorld _ _ _ _ _ _ _).
  assert (called w w') as Hcd.
  { constructor; try done; [cbn; lia|]. intros e He Hle k m Hm. apply (upsertFine_all e); [apply (mi_fine _ Hinv)| |done].
    eapply Forall_impl; [exact Hw|]. intros r. by apply writeOk_past. }
  split; [|done]. apply (called_inv w w' Hinv Hcd); [|done].
  intros k r. subst w'. cbn [mw_fine]. revert k r. pose proof (mi_fine _ Hinv) as Hok. unfold fineOk in Hok. revert Hok. generalize (mw_fine w) as t.
  clear. induction (cl_writes c) as [|r rows IH]; intros t Hok; [exact Hok|]. cbn [foldl]. apply IH. by apply upsertFine_ok.
Qed.

(** Where the buckets of the 5-minute rows come from. *)
Definition hasBucket (t : gmap finePK MetricRollup) (b : Z) : Prop := exists k m, t !! k = Some m /\ mr_Bucket m = b.

Lemma upsertFine_bucket t r b :
  (hasBucket (upsertFine t r) b -> hasBucket t b \/ b = mr_Bucket r) /\ (hasBucket t b -> hasBucket (upsertFine t r) b).
Proof.
  unfold upsertFine. set (sr := stored 0 r). assert (mr_Bucket sr = mr_Bucket r) as Eb by done. split.
  - intros (k & m & Hm & <-). destruct (decide (k = finePKOf sr)) as [->|Hne].
    + rewrite upsert_same in Hm. destruct (t !! finePKOf sr) as [old|] eqn:Eo; cbn [from_option] in Hm; injection Hm as <-.
      * left. by exists (finePKOf sr), old.
      * by right.
    + rewrite upsert_other in Hm by done. left. by exists k, m.
  - intros (k & m & Hm & <-). destruct (decide (k = finePKOf sr)) as [->|Hne].
    + exists (finePKOf sr), (metricRollupUpsertSQL m sr). by rewrite upsert_same, Hm.
    + exists k, m. by rewrite upsert_other.
Qed.

Lemma upsertFine_buckets rows : forall t b,
  (hasBucket (foldl upsertFine t rows) b -> hasBucket t b \/ exists r, r ∈ rows /\ mr_Bucket r = b) /\
  (hasBucket t b -> hasBucket (foldl upsertFine t rows) b).
Proof.
  induction rows as [|r rows IH]; intros t b; cbn [foldl]; [split; [by left|done]|].
  destruct (IH (upsertFine t r) b) as [H1 H2], (upsertFine_bucket t r b) as [H3 H4]. split; [|by auto].
  intros [Hb|(x & Hx & Hb)]%H1; [apply H3 in Hb as [?| ->]; [by left|right; exists r; split; [left|done]]|].
  right. exists x. split; [by right|done].
Qed.

(** The rows a call finds in the 5-minute table. *)
Lemma nextMCall_fine w b : metricInv w ->
  (hasBucket (mw_fine (nextMCall w).2) b -> hasBucket (mw_fine w) b \/ exists r, mr_Bucket r = b /\ writeOk (mw_now w) r) /\
  (hasBucket (mw_fine w) b -> hasBucket (mw_fine (nextMCall w).2) b) /\ mw_now (nextMCall w).2 < mw_now w + hour.
Proof.
  intros Hinv. pose proof (mi_calls _ Hinv) as Hcalls. unfold nextMCall. destruct (mw_calls w) as [|c cs]; cbn [snd].
  { split_and!; [by left|done|unfold hour, minute, second; lia]. }
  destruct Hcalls as (Hnow & Hw & _). cbn [mw_fine mw_now]. destruct (upsertFine_buckets (cl_writes c) (mw_fine w) b) as [H1 H2].
  split_and!; [|done|lia]. intros [?|(r & Hr & Hb)]%H1; [by left|]. right. exists r. split; [done|].
  rewrite Forall_forall in Hw. by apply Hw.
Qed.

(** The oldest 5-minute row, by its bucket. *)
Lemma oldest_fine w o :
  OldestRollupBucket w Step5m = Some o <-> hasBucket (mw_fine w) o /\ forall b, hasBucket (mw_fine w) b -> o <= b.
Proof.
  rewrite oldestRollup_spec. setoid_rewrite elem_of_tierRows. change (Step5m =? Rollup5mStep) with true. cbv iota. unfold hasBucket.
  split.
  - intros [(m & (_ & k & Hk) & Hb) Hle]. split; [by exists k, m|]. intros b (k' & m' & Hk' & <-). apply Hle. split; [done|by exists k'].
  - intros [(k & m & Hk & Hb) Hle]. split; [exists m; split; [split; [done|by exists k]|done]|].
    intros m' (_ & k' & Hk'). apply Hle. by exists k', m'.
Qed.
End Inv.
