(* ===== verification/MetricTiersWrite.v ===== *)
(** * One coarse metric bucket

    [compactMetricBucket] keeps the invariant whatever fails; when it succeeds the bucket
    holds exactly the rows built for it, and advancing the watermark keeps the invariant. *)
From S2P Require Import Prelude Float64 TierStore Tiers TierCalendar MetricSeries MetricMerge.
From S2P Require Import MetricCompaction MetricBuilt MetricTiersInv.

#[local] Opaque TruncateBucket NextBucket PrevBucket.

Section Write.
Context (parseAttributes : string -> gmap string string) (marshalAttributes : gmap string string -> option string).
Context (decodeHist : string -> option histogram) (encodeHist : histogram -> option string).
Context (overflow : float64 -> Z) (policy : DropPolicy).

Abbreviation builtRows := (builtRows parseAttributes marshalAttributes decodeHist encodeHist overflow policy).
Abbreviation built := (built parseAttributes marshalAttributes decodeHist encodeHist overflow policy).
Abbreviation mergedOf := (mergedOf parseAttributes marshalAttributes decodeHist encodeHist overflow policy).
Abbreviation metricInv := (metricInv parseAttributes marshalAttributes decodeHist encodeHist overflow policy).
Abbreviation tierInv := (tierInv parseAttributes marshalAttributes decodeHist encodeHist overflow policy).

Section Tier.
Context (tier : Tier) (Ht : tier ∈ Ladder) (c : Z).

(** The rung may build bucket [c]. *)
Record ready (w : mworld) : Prop := {
  rd_inv : metricInv w;
  rd_next : nextBucket w tier = Some c;
  rd_aligned : tierAligned (tier_Step tier) c;
  rd_frozen : frozen w tier (sourceWindow tier c).2;
  rd_closed : NextBucket c (tier_Step tier) <= mw_now w - MetricRollupLateWrite;
}.

(** What building the bucket may change. *)
Record grewFrom (w w' : mworld) : Prop := {
  gr_split : bucketSplit w' tier c = bucketSplit w tier c;
  gr_merged : forall pr, mergedOf w' tier c pr = mergedOf w tier c pr;
  gr_rows : forall k r, mw_coarse w !! k = Some r -> mw_coarse w' !! k = Some r;
  gr_other : forall k r, mw_coarse w' !! k = Some r -> mr_StepSeconds r <> tier_Step tier -> mw_coarse w !! k = Some r;
  gr_marks : mw_marks w' = mw_marks w;
}.

Lemma grewFrom_refl w : grewFrom w w.
Proof. by constructor. Qed.

Lemma grewFrom_trans w1 w2 w3 : grewFrom w1 w2 -> grewFrom w2 w3 -> grewFrom w1 w3.
Proof. intros [A1 A2 A3 A4 A5] [B1 B2 B3 B4 B5]. constructor; try congruence; eauto. Qed.

Lemma grew_built w w' : grewFrom w w' -> built w' tier c = built w tier c.
Proof.
  intros [E1 E2 _ _ _]. unfold MetricBuilt.built, MetricBuilt.builtRows. rewrite E1. do 2 f_equal.
  apply list_fmap_ext. intros i pr _. apply E2.
Qed.

Lemma grew_agree w w' :
  sourceAgree (tier_Source tier) (sourceWindow tier c).2 w w' ->
  targetAgree (tier_Step tier) (PrevBucket c (tier_Step tier)) w w' ->
  (forall k r, mw_coarse w !! k = Some r -> mw_coarse w' !! k = Some r) ->
  (forall k r, mw_coarse w' !! k = Some r -> mr_StepSeconds r <> tier_Step tier -> mw_coarse w !! k = Some r) ->
  mw_marks w' = mw_marks w -> grewFrom w w'.
Proof.
  intros Hs Hta H1 H2 H3. constructor; try done.
  - symmetry. by apply (bucketSplit_agree (sourceWindow tier c).2).
  - intros pr. symmetry. by apply (mergedOf_agree _ _ _ _ _ _ (sourceWindow tier c).2).
Qed.

(** A call. *)
Lemma ready_called w w' : ready w -> called w w' -> metricInv w' -> ready w' /\ grewFrom w w'.
Proof.
  intros [Hi Hn Ha Hf Hc] Hcd Hi'. pose proof (called_agree w w' tier c Ht Hcd Ha Hf) as Hagree.
  split.
  - constructor; [done| |done| |pose proof (cd_now _ _ Hcd); lia].
    + revert Hn. unfold nextBucket. rewrite (cd_marks _ _ Hcd). destruct (mw_marks w !! tier_Source tier); [done|].
      destruct (OldestRollupBucket w (tier_Source tier)) as [o|] eqn:Eo; [|done]. cbn [fmap option_fmap option_map]. intros [= <-].
      assert (OldestRollupBucket w' (tier_Source tier) = Some o) as ->; [|done].
      destruct (ladder_lower tier Ht) as [[_ ->]|[E5 _]].
      * eapply oldest_agree; [exact Hagree|done|]. cbn [tier_Step] in *. rewrite hour_window by exact Ha.
        assert (BucketLaws StepHour) as L by (apply tier_laws; left; right; by left). apply (bl_in (S := StepHour)).
      * revert Eo. unfold OldestRollupBucket, tierRows. rewrite E5, (cd_coarse _ _ Hcd). done.
    + revert Hf. unfold frozen. rewrite (cd_marks _ _ Hcd). pose proof (cd_now _ _ Hcd). destruct (lowerSource tier); [done|lia].
  - apply grew_agree; [done| | | |apply (cd_marks _ _ Hcd)]; try (intros k r; rewrite (cd_coarse _ _ Hcd); done).
Qed.

Lemma ready_nextMCall w : ready w -> ready (nextMCall w).2 /\ grewFrom w (nextMCall w).2.
Proof.
  intros Hr. destruct (nextMCall_inv parseAttributes marshalAttributes decodeHist encodeHist overflow policy w (rd_inv _ Hr)).
  by apply ready_called.
Qed.

Lemma ready_takeCalls n : forall w, ready w -> ready (takeCalls n w).2 /\ grewFrom w (takeCalls n w).2.
Proof.
  induction n as [|n IH]; intros w Hr; [split; [done|apply grewFrom_refl]|]. cbn [takeCalls].
  destruct (ready_nextMCall w Hr) as [Hr1 Hg1]. destruct (nextMCall w) as [[] w1]; cbn [snd] in *; [|done].
  destruct (IH w1 Hr1) as [Hr2 Hg2]. destruct (takeCalls n w1) as [oks w2]. cbn [snd] in *.
  split; [done|by eapply grewFrom_trans].
Qed.

(** ** Writing rows *)

Lemma coarseUpsert_self x : coarseRollupUpsertSQL x x = x.
Proof. by destruct x. Qed.

(** Rows of the bucket that are already there stay as they are. *)
Lemma upsertCoarse_insert t (B : list MetricRollup) r :
  (forall x y, x ∈ B -> y ∈ B -> coarsePKOf x = coarsePKOf y -> x = y) ->
  (forall k x, t !! k = Some x -> k = coarsePKOf x) ->
  (forall k x, t !! k = Some x -> mr_StepSeconds x = tier_Step tier -> mr_Bucket x = c -> x ∈ B) ->
  mr_StepSeconds r = tier_Step tier -> mr_Bucket r = c -> stored (tier_Step tier) r ∈ B ->
  upsertCoarse t r = <[coarsePKOf (stored (tier_Step tier) r) := stored (tier_Step tier) r]> t.
Proof.
  intros Hinj Hk HB Hs Hb Hr. unfold upsertCoarse. rewrite Hs. unfold upsert.
  destruct (t !! coarsePKOf (stored (tier_Step tier) r)) as [old|] eqn:Eo; [|done].
  assert (old = stored (tier_Step tier) r) as ->; [|by rewrite coarseUpsert_self].
  pose proof (Hk _ _ Eo) as E. apply Hinj; [|done|done].
  apply (HB _ _ Eo); unfold coarsePKOf in E; cbn in E; congruence.
Qed.

Lemma upsertCoarse_all (B rows : list MetricRollup) : forall t,
  (forall x y, x ∈ B -> y ∈ B -> coarsePKOf x = coarsePKOf y -> x = y) ->
  (forall k x, t !! k = Some x -> k = coarsePKOf x) ->
  (forall k x, t !! k = Some x -> mr_StepSeconds x = tier_Step tier -> mr_Bucket x = c -> x ∈ B) ->
  Forall (fun r => mr_StepSeconds r = tier_Step tier /\ mr_Bucket r = c /\ stored (tier_Step tier) r ∈ B) rows ->
  forall k x, foldl upsertCoarse t rows !! k = Some x <->
    t !! k = Some x \/ (k = coarsePKOf x /\ exists r, r ∈ rows /\ x = stored (tier_Step tier) r).
Proof.
  induction rows as [|r rows IH]; intros t Hinj Hk HB Hr k x; cbn [foldl].
  { split; [by left|]. intros [?|(_ & r & []%elem_of_nil & _)]; done. }
  apply Forall_cons in Hr as [(Hs & Hb & Hrb) Hrs]. rewrite (upsertCoarse_insert t B r) by done.
  set (sr := stored (tier_Step tier) r) in *. assert (mr_StepSeconds sr = tier_Step tier /\ mr_Bucket sr = c) as [Hss Hsb] by done.
  assert (forall k x, <[coarsePKOf sr := sr]> t !! k = Some x <-> t !! k = Some x \/ (k = coarsePKOf sr /\ x = sr)) as Hins.
  { intros k' x'. destruct (decide (k' = coarsePKOf sr)) as [->|Hne].
    - rewrite lookup_insert_eq. split; [intros [= <-]; by right|]. intros [E|[_ ->]]; [|done]. f_equal.
      pose proof (Hk _ _ E) as Ek. apply Hinj; [done| |done]. apply (HB _ _ E); unfold coarsePKOf in Ek; congruence.
    - rewrite lookup_insert_ne by done. naive_solver. }
  rewrite IH, Hins; [|done| | |done].
  - split.
    + intros [[?|[-> ->]]|(? & r' & ? & ?)]; [by left|right; split; [done|exists r; split; [left|done]]|].
      right. split; [done|]. exists r'. split; [by right|done].
    + intros [?|(-> & r' & [->|Hr']%elem_of_cons & ->)]; [by left; left|by left; right|]. right. split; [done|]. by exists r'.
  - intros k' x' [E|[-> ->]]%Hins; [by apply Hk|done].
  - intros k' x' [E|[-> ->]]%Hins; [by apply (HB k')|done].
Qed.

(** The watermark of the rung is at [c] or not set yet. *)
Lemma ready_mark w m : ready w -> mw_marks w !! tier_Source tier = Some m -> m = c.
Proof. intros Hr Hm. pose proof (rd_next _ Hr) as Hn. unfold nextBucket in Hn. rewrite Hm in Hn. by injection Hn. Qed.

(** Rows of the bucket are built rows. *)
Lemma ready_rows w k x : ready w -> mw_coarse w !! k = Some x -> mr_StepSeconds x = tier_Step tier -> mr_Bucket x = c ->
  x ∈ built w tier c.
Proof.
  intros Hr Hx Hs Hb. destruct (mi_tiers _ _ _ _ _ _ _ (rd_inv _ Hr) tier Ht) as [_ _ Hopen].
  rewrite <- Hb. apply (Hopen k x Hx Hs). intros m Hm%(ready_mark _ _ Hr). lia.
Qed.

Lemma setMCoarse_coarse t w : mw_coarse (setMCoarse t w) = t.
Proof. done. Qed.

(** Rows built for the bucket may be added to it. *)
Section Add.
Context (w : mworld) (rows : list MetricRollup).
Hypothesis Hr : ready w.
Hypothesis Hrows : forall r, r ∈ rows -> r ∈ builtRows w tier c.

Definition addRows : mworld := setMCoarse (foldl upsertCoarse (mw_coarse w) rows) w.

Lemma add_at r : r ∈ rows -> mr_StepSeconds r = tier_Step tier /\ mr_Bucket r = c.
Proof. intros (pr & _ & (_ & ? & ?)%mergedOf_at)%Hrows%elem_of_builtRows. done. Qed.

Lemma add_lookup k x : mw_coarse addRows !! k = Some x <->
  mw_coarse w !! k = Some x \/ (k = coarsePKOf x /\ exists r, r ∈ rows /\ x = stored (tier_Step tier) r).
Proof.
  unfold addRows. rewrite setMCoarse_coarse. apply (upsertCoarse_all (built w tier c)).
  - apply metricBuilt_inj.
  - intros k' x' Hx. by destruct (mi_coarse _ _ _ _ _ _ _ (rd_inv _ Hr) k' x' Hx).
  - intros k' x'. by apply ready_rows.
  - apply Forall_forall. intros r Hin. destruct (add_at r Hin). split; [done|]. split; [done|].
    apply list_elem_of_fmap. exists r. split; [done|by apply Hrows].
Qed.

Lemma add_other k x : mr_StepSeconds x <> tier_Step tier \/ mr_Bucket x <> c ->
  mw_coarse w !! k = Some x <-> mw_coarse addRows !! k = Some x.
Proof.
  intros Hx. rewrite add_lookup. split; [by left|]. intros [?|(_ & r & Hin & ->)]; [done|].
  destruct (add_at r Hin) as [Es Eb]. destruct Hx as [Hx|Hx]; by destruct Hx.
Qed.

(** Frozen source rows are not added to. *)
Lemma add_source tier' e : tier' ∈ Ladder -> frozen w tier' e -> sourceAgree (tier_Source tier') e w addRows.
Proof.
  intros Hin Hf. unfold sourceAgree. destruct (Z.eqb_spec (tier_Source tier') Rollup5mStep) as [|Hne]; [done|].
  intros k m Hs Hlt. apply add_other. destruct (decide (tier_Source tier' = tier_Step tier)) as [E|Hd]; [|left; congruence].
  right. unfold frozen in Hf. destruct (ladder_lower tier' Hin) as [[_ ->]|(_ & below & Hb & Eb & El)]; [done|].
  rewrite El in Hf. destruct Hf as (mk & Hmk & Hle). rewrite E in Eb. apply ladder_step_inj in Eb as ->; [|done|done].
  apply (ready_mark _ _ Hr) in Hmk. lia.
Qed.

Lemma add_target b : tierAligned (tier_Step tier) b -> b <= c -> targetAgree (tier_Step tier) (PrevBucket b (tier_Step tier)) w addRows.
Proof.
  destruct (ladder_laws tier Ht) as [LT _]. intros Hb Hle k m _ Hbm. apply add_other. right.
  pose proof (bucket_prev_lt (tier_Step tier) b Hb). lia.
Qed.

Lemma add_grew : grewFrom w addRows.
Proof.
  apply grew_agree; [apply add_source; [done|apply (rd_frozen _ Hr)]|apply add_target; [apply (rd_aligned _ Hr)|lia]| | |done].
  - intros k r Hk. apply add_lookup. by left.
  - intros k r Hk Hs. apply add_other; [by left|done].
Qed.

Lemma add_coarse : coarseOk addRows.
Proof.
  intros k x [Hx|(-> & r & Hin & ->)]%add_lookup; [by apply (mi_coarse _ _ _ _ _ _ _ (rd_inv _ Hr))|].
  split; [done|]. exists tier. split; [done|]. destruct (add_at r Hin) as [Es Eb]. split; [done|].
  change (tierAligned (tier_Step tier) (mr_Bucket r)). rewrite Eb. apply (rd_aligned _ Hr).
Qed.

Lemma add_next : nextBucket addRows tier = Some c.
Proof.
  rewrite <- (rd_next _ Hr). unfold nextBucket. change (mw_marks addRows) with (mw_marks w).
  destruct (mw_marks w !! tier_Source tier); [done|]. f_equal. unfold OldestRollupBucket, tierRows.
  destruct (Z.eqb_spec (tier_Source tier) Rollup5mStep); [done|].
  rewrite (selectRows_ext (fun m => mr_StepSeconds m = tier_Source tier /\ True) (mw_coarse w) (mw_coarse addRows)); [done|].
  intros k m [Hs _]. apply add_other. left. pose proof (ladder_irrefl tier Ht). congruence.
Qed.

Lemma add_tier : tierInv addRows tier.
Proof.
  destruct (mi_tiers _ _ _ _ _ _ _ (rd_inv _ Hr) tier Ht) as [Hmark Hexact Hopen]. destruct (ladder_laws tier Ht) as [LT LS].
  constructor.
  - exact Hmark.
  - intros m b r Hm Hb Hlt. change (mw_marks addRows) with (mw_marks w) in Hm. pose proof (ready_mark _ _ Hr Hm) as ->.
    rewrite <- (built_agree _ _ _ _ _ _ (sourceWindow tier c).2 w addRows); [|by apply add_source, (rd_frozen _ Hr)| |by apply add_target; [|lia]].
    + rewrite <- (Hexact c b r Hm Hb Hlt).
      split; intros (k & Hk & Hs & Hbr); exists k; (split; [|done]); apply add_other in Hk; try done; right; lia.
    + cbn [sourceWindow snd]. apply (truncate_mono (tier_Source tier)).
      apply (bucket_next_mono (tier_Step tier)); [done|apply (rd_aligned _ Hr)|lia].
  - intros k r Hk Hs Hm. apply add_lookup in Hk as [Hk|(_ & r0 & Hin0 & ->)].
    + destruct (Hopen k r Hk Hs Hm) as (Hn & Hf & Hc & Hb). rewrite (rd_next _ Hr) in Hn. injection Hn as Hn. rewrite <- Hn in *.
      split_and!; [apply add_next|done|done|]. by rewrite (grew_built _ _ add_grew).
    + destruct (add_at r0 Hin0) as [_ Eb]. cbn [stored mr_Bucket]. rewrite Eb.
      split_and!; [apply add_next|apply (rd_frozen _ Hr)|apply (rd_closed _ Hr)|].
      rewrite (grew_built _ _ add_grew). apply list_elem_of_fmap. exists r0. split; [done|by apply Hrows].
Qed.

Lemma ready_add : ready addRows /\ grewFrom w addRows /\
  forall r, r ∈ rows -> mw_coarse addRows !! coarsePKOf r = Some (stored (tier_Step tier) r).
Proof.
  split_and!; [|apply add_grew|].
  - destruct Hr as [[Hfine Hcoarse Hcalls Htiers] _ H3 H4 H5]. constructor; [|apply add_next|done|done|done].
    constructor; [done|apply add_coarse|done|]. intros tier' Hin. destruct (decide (tier' = tier)) as [->|Hne]; [apply add_tier|].
    apply (tierInv_frame _ _ _ _ _ _ w); try done; [by apply Htiers| |by intros; apply add_source].
    intros k r Hs. apply add_other. left. intros E. destruct Hne. apply ladder_step_inj; [done|done|congruence].
  - intros r Hin. apply add_lookup. right. destruct (add_at r Hin) as [Es _]. split; [by rewrite stored_key|by exists r].
Qed.
End Add.

Lemma grew_builtRows w w' : grewFrom w w' -> builtRows w' tier c = builtRows w tier c.
Proof.
  intros [E1 E2 _ _ _]. unfold MetricBuilt.builtRows. rewrite E1. f_equal.
  apply list_fmap_ext. intros i pr _. apply E2.
Qed.

(** ** Building the bucket *)

Definition present (w : mworld) (r : MetricRollup) : Prop :=
  mw_coarse w !! coarsePKOf r = Some (stored (tier_Step tier) r).

Lemma grew_present w w' r : grewFrom w w' -> present w r -> present w' r.
Proof. intros Hg. apply (gr_rows _ _ Hg). Qed.

Lemma upsertCoarseRollups_spec rows w : ready w -> (forall r, r ∈ rows -> r ∈ builtRows w tier c) ->
  let '(res, w') := upsertCoarseRollups rows w in
  ready w' /\ grewFrom w w' /\ (is_Some res -> forall r, r ∈ rows -> present w' r).
Proof.
  intros Hr Hrows. unfold upsertCoarseRollups.
  destruct (ready_takeCalls (length (Chunk coarseRollupChunk rows)) w Hr) as [Hr1 Hg1].
  destruct (takeCalls _ w) as [oks w1]. cbn [snd] in *.
  destruct (UpsertCoarseRollups oks rows (mw_coarse w1)) as [err t] eqn:Eu.
  apply writeTierRows_spec in Eu as (written & Hperm & -> & _); [|unfold coarseRollupChunk; lia].
  destruct (ready_add w1 written Hr1) as (Hr2 & Hg2 & Hp).
  { intros r Hin. rewrite (grew_builtRows _ _ Hg1). apply Hrows. rewrite Hperm. apply elem_of_app. by left. }
  unfold addRows in *. split; [done|]. split; [by eapply grewFrom_trans|].
  intros Hs r Hin. destruct err; [by destruct Hs|]. apply Hp. rewrite Hperm, app_nil_r in Hin. done.
Qed.

Lemma mreads_spec {A} (f : mworld -> A) w : ready w ->
  let '(res, w') := mreads f w in ready w' /\ grewFrom w w' /\ (forall a, res = Some a -> a = f w').
Proof.
  intros Hr. unfold mreads. destruct (ready_nextMCall w Hr) as [Hr1 Hg1]. destruct (nextMCall w) as [ok w1]. cbn [snd] in *.
  split; [done|]. split; [done|]. destruct ok; [by intros a [= <-]|done].
Qed.

Abbreviation compactProjects := (compactProjects parseAttributes marshalAttributes decodeHist encodeHist overflow).

Lemma compactProjects_spec ps : forall written w, ready w -> ps ⊆ (bucketSplit w tier c).2 ->
  let '(res, w') := compactProjects tier c policy (bucketSplit w tier c).1 written ps w in
  ready w' /\ grewFrom w w' /\ (is_Some res -> forall pr r, pr ∈ ps -> r ∈ mergedOf w tier c pr -> present w' r).
Proof.
  induction ps as [|pr ps IH]; intros written w Hr Hps; cbn [MetricCompaction.compactProjects].
  { cbn [mret MC_ret]. split; [done|]. split; [apply grewFrom_refl|]. by intros _ pr r ?%elem_of_nil. }
  unfold mbind at 1, MC_bind at 1.
  pose proof (mreads_spec (fun w => CoarseLastBySeries w pr.1 (tier_Step tier) (PrevBucket c (tier_Step tier))) w Hr) as Hread.
  destruct (mreads _ w) as [[last|] w1]; [|destruct Hread as (? & ? & _); split_and!; [done|done|by intros []]].
  destruct Hread as (Hr1 & Hg1 & Hl). pose proof (Hl last eq_refl) as ->. clear Hl.
  rewrite <- (gr_split _ _ Hg1).
  change (mergedFor parseAttributes marshalAttributes decodeHist encodeHist overflow tier c policy (bucketSplit w1 tier c).1
    (CoarseLastBySeries w1 pr.1 (tier_Step tier) (PrevBucket c (tier_Step tier))) pr) with (mergedOf w1 tier c pr).
  assert (forall r, r ∈ mergedOf w1 tier c pr -> r ∈ builtRows w1 tier c) as Hin.
  { intros r Hr'. apply elem_of_builtRows. exists pr. split; [|done]. rewrite (gr_split _ _ Hg1). apply Hps. left. }
  assert (forall w2 written', ready w2 -> grewFrom w1 w2 -> (forall r, r ∈ mergedOf w1 tier c pr -> present w2 r) ->
    let '(res, w') := compactProjects tier c policy (bucketSplit w1 tier c).1 written' ps w2 in
    ready w' /\ grewFrom w w' /\ (is_Some res -> forall pr' r, pr' ∈ pr :: ps -> r ∈ mergedOf w tier c pr' -> present w' r)) as Hrest.
  { intros w2 written' Hr2 Hg2 Hp2. pose proof (grewFrom_trans _ _ _ Hg1 Hg2) as Hg. rewrite <- (gr_split _ _ Hg2).
    specialize (IH written' w2 Hr2). rewrite (gr_split _ _ Hg) in IH at 1.
    specialize (IH ltac:(intros x Hx; apply Hps; by right)).
    destruct (compactProjects _ _ _ _ written' ps w2) as [res w3]. destruct IH as (Hr3 & Hg3 & Hp3).
    split; [done|]. split; [by eapply grewFrom_trans|]. intros Hs pr' r [->|Hpr']%elem_of_cons Hm.
    - eapply grew_present; [done|]. apply Hp2. by rewrite (gr_merged _ _ Hg1).
    - apply (Hp3 Hs pr'); [done|]. by rewrite (gr_merged _ _ Hg). }
  destruct (mergedOf w1 tier c pr) as [|r0 rest] eqn:Em.
  - apply Hrest; [done|apply grewFrom_refl|]. by intros r ?%elem_of_nil.
  - unfold mbind, MC_bind. rewrite <- Em in *. pose proof (upsertCoarseRollups_spec (mergedOf w1 tier c pr) w1 Hr1 Hin) as Hup.
    destruct (upsertCoarseRollups (mergedOf w1 tier c pr) w1) as [[[]|] w2]; destruct Hup as (Hr2 & Hg2 & Hp2).
    + apply Hrest; [done|done|]. by apply Hp2.
    + split; [done|]. split; [by eapply grewFrom_trans|by intros []].
Qed.

Abbreviation compactMetricBucket := (compactMetricBucket parseAttributes marshalAttributes decodeHist encodeHist overflow).

(** The bucket holds the rows built for it. *)
Lemma compactMetricBucket_spec w : ready w ->
  let '(res, w') := compactMetricBucket tier c policy w in
  ready w' /\ grewFrom w w' /\
  (is_Some res -> forall r, (exists k, mw_coarse w' !! k = Some r /\ mr_StepSeconds r = tier_Step tier /\ mr_Bucket r = c) <-> r ∈ built w' tier c).
Proof.
  intros Hr. unfold MetricCompaction.compactMetricBucket. destruct (sourceWindow tier c) as [from to] eqn:Ew.
  unfold mbind at 1, MC_bind at 1.
  pose proof (mreads_spec (fun w => RollupWindow w (tier_Source tier) (PrevBucket from (tier_Source tier)) to) w Hr) as Hread.
  destruct (mreads _ w) as [[rows|] w1]; [|destruct Hread as (? & ? & _); split_and!; [done|done|by intros []]].
  destruct Hread as (Hr1 & Hg1 & Hl). pose proof (Hl rows eq_refl) as ->. clear Hl.
  assert (splitWindow (RollupWindow w1 (tier_Source tier) (PrevBucket from (tier_Source tier)) to) from = bucketSplit w1 tier c) as ->
    by (unfold bucketSplit; by rewrite Ew).
  pose proof (compactProjects_spec (bucketSplit w1 tier c).2 0 w1 Hr1 ltac:(done)) as Hp.
  destruct (bucketSplit w1 tier c) as [tails ps] eqn:Es. cbn [fst snd] in Hp.
  destruct (compactProjects tier c policy tails 0 ps w1) as [res w2]. destruct Hp as (Hr2 & Hg2 & Hp).
  split; [done|]. split; [by eapply grewFrom_trans|]. intros Hs r. split.
  - intros (k & Hk & Hst & Hb). by eapply ready_rows.
  - rewrite (grew_built _ _ Hg2). intros (x & -> & (pr & Hpr & Hx)%elem_of_builtRows)%list_elem_of_fmap.
    rewrite Es in Hpr. exists (coarsePKOf x). split; [by apply (Hp Hs pr)|]. apply mergedOf_at in Hx as (_ & Hb & _). done.
Qed.
End Tier.
End Write.
