(* ===== verification/MetricTiersProps.v ===== *)
(** * The metric tiers are exact

    Passes of the compactor, with any calls failing and other rows being written between any
    two calls, leave every bucket below a watermark with exactly the rows built for it. *)
From S2P Require Import Prelude Float64 TierStore Tiers TierCalendar MetricSeries MetricMerge.
From S2P Require Import MetricCounter MetricCompaction MetricBuilt MetricTiersInv MetricTiersWrite.

#[local] Opaque TruncateBucket NextBucket PrevBucket.

Section Passes.
Context (parseAttributes : string -> gmap string string) (marshalAttributes : gmap string string -> option string).
Context (decodeHist : string -> option histogram) (encodeHist : histogram -> option string).
Context (overflow : float64 -> Z) (policy : DropPolicy).

Abbreviation built := (built parseAttributes marshalAttributes decodeHist encodeHist overflow policy).
Abbreviation metricInv := (metricInv parseAttributes marshalAttributes decodeHist encodeHist overflow policy).
Abbreviation tierInv := (tierInv parseAttributes marshalAttributes decodeHist encodeHist overflow policy).
Abbreviation ready := (ready parseAttributes marshalAttributes decodeHist encodeHist overflow policy).
Abbreviation grewFrom := (grewFrom parseAttributes marshalAttributes decodeHist encodeHist overflow policy).

(** A rung without a watermark has no rows. *)
Definition settled (w : mworld) (tier : Tier) : Prop :=
  mw_marks w !! tier_Source tier = None -> forall k r, mw_coarse w !! k = Some r -> mr_StepSeconds r <> tier_Step tier.

(** What working on a rung may change of the others. *)
Record stepped (tier : Tier) (w w' : mworld) : Prop := {
  st_marks : forall s, s <> tier_Source tier -> mw_marks w' !! s = mw_marks w !! s;
  st_rows : forall k r, mw_coarse w' !! k = Some r -> mr_StepSeconds r <> tier_Step tier -> mw_coarse w !! k = Some r;
}.

Lemma stepped_refl tier w : stepped tier w w.
Proof. by constructor. Qed.

Lemma stepped_trans tier w1 w2 w3 : stepped tier w1 w2 -> stepped tier w2 w3 -> stepped tier w1 w3.
Proof.
  intros [A1 A2] [B1 B2]. constructor; [|by eauto]. intros s Hs. by rewrite B1, A1.
Qed.

Lemma grew_stepped tier c w w' : grewFrom tier c w w' -> stepped tier w w'.
Proof. intros [_ _ _ Ho Hm]. constructor; [by intros; rewrite Hm|done]. Qed.

Lemma called_stepped tier w w' : called w w' -> stepped tier w w'.
Proof. intros Hc. constructor; [by intros; rewrite (cd_marks _ _ Hc)|]. intros k r. by rewrite (cd_coarse _ _ Hc). Qed.

Lemma settled_stepped tier tier' w w' : tier ∈ Ladder -> tier' ∈ Ladder -> tier' <> tier ->
  stepped tier w w' -> settled w tier' -> settled w' tier'.
Proof.
  intros Ht Ht' Hne [Hm Hr] Hs Hnone k r Hk E. rewrite Hm in Hnone by (intros ?; by destruct Hne; apply ladder_source_inj).
  apply (Hs Hnone k r); [|done]. apply Hr; [done|]. intros E'. destruct Hne. apply ladder_step_inj; [done|done|congruence].
Qed.

Section Tier.
Context (tier : Tier) (Ht : tier ∈ Ladder).

(** ** The watermark *)

Definition advance (w : mworld) (e : Z) : mworld :=
  setMMarks (<[tier_Source tier := from_option (Z.max e) e (mw_marks w !! tier_Source tier)]> (mw_marks w)) w.

Lemma advance_value c w : ready tier c w -> mw_marks (advance w (NextBucket c (tier_Step tier))) !! tier_Source tier =
  Some (NextBucket c (tier_Step tier)).
Proof.
  intros Hr. destruct (ladder_laws tier Ht) as [LT _]. cbn [advance setMMarks mw_marks]. rewrite lookup_insert_eq. f_equal.
  destruct (mw_marks w !! tier_Source tier) as [m|] eqn:Em; [|done]. cbn [from_option].
  rewrite (ready_mark _ _ _ _ _ _ _ _ _ _ Hr Em). pose proof (bucket_next_gt (tier_Step tier) c (rd_aligned _ _ _ _ _ _ _ _ _ Hr)). lia.
Qed.

(** A rung that starts has nothing before its first bucket. *)
Lemma ready_before c w b : ready tier c w -> mw_marks w !! tier_Source tier = None -> tierAligned (tier_Step tier) b -> b < c ->
  built w tier b = [].
Proof.
  intros Hr Hnone Hb Hlt. destruct (ladder_laws tier Ht) as [LT LS].
  destruct (built w tier b) as [|x l] eqn:E; [done|]. exfalso.
  destruct (built_source parseAttributes marshalAttributes decodeHist encodeHist overflow policy w tier b x) as (m & Hm & Hin);
    [rewrite E; left|].
  pose proof (rd_next _ _ _ _ _ _ _ _ _ Hr) as Hn. unfold nextBucket in Hn. rewrite Hnone in Hn.
  destruct (OldestRollupBucket w (tier_Source tier)) as [o|] eqn:Eo; [|done]. injection Hn as Hn.
  apply oldestRollup_spec in Eo as [_ Hle]. specialize (Hle m Hm).
  pose proof (bl_in (S := tier_Step tier) o) as Ho. rewrite Hn in Ho.
  pose proof (bucket_next_le (tier_Step tier) b c Hb (rd_aligned _ _ _ _ _ _ _ _ _ Hr) Hlt).
  cbn [sourceWindow snd] in Hin. pose proof (bl_in (S := tier_Source tier) (NextBucket b (tier_Step tier))). lia.
Qed.

Lemma advance_built w e tier' b : built (advance w e) tier' b = built w tier' b.
Proof.
  symmetry. apply (built_agree _ _ _ _ _ _ (sourceWindow tier' b).2); [|lia|done]. unfold sourceAgree. by destruct (_ =? _).
Qed.

Lemma advance_tier c w : ready tier c w ->
  (forall r, (exists k, mw_coarse w !! k = Some r /\ mr_StepSeconds r = tier_Step tier /\ mr_Bucket r = c) <-> r ∈ built w tier c) ->
  tierInv (advance w (NextBucket c (tier_Step tier))) tier.
Proof.
  intros Hr Hx. destruct (ladder_laws tier Ht) as [LT LS]. set (w' := advance w _).
  pose proof (advance_value c w Hr) as Hv. fold w' in Hv. pose proof (rd_aligned _ _ _ _ _ _ _ _ _ Hr) as Ha.
  destruct (mi_tiers _ _ _ _ _ _ _ (rd_inv _ _ _ _ _ _ _ _ _ Hr) tier Ht) as [Hmark Hexact Hopen].
  assert (forall e, frozen w tier e -> frozen w' tier e) as Hfr.
  { intros e. unfold frozen. destruct (ladder_lower tier Ht) as [[-> _]|(_ & below & Hb & Eb & El)]; [done|]. rewrite El.
    intros (m & Hm & Hle). exists m. split; [|done]. subst w'. cbn [advance setMMarks mw_marks].
    rewrite lookup_insert_ne; [done|]. intros E. apply ladder_source_inj in E; [|done|done]. subst below. by apply (ladder_irrefl tier Ht). }
  constructor.
  - intros m. rewrite Hv. intros [= <-]. split; [by apply bl_next|]. apply Hfr. apply (rd_frozen _ _ _ _ _ _ _ _ _ Hr).
  - intros m b r. rewrite Hv. intros [= <-] Hb Hlt. rewrite (advance_built w _ tier b : built w' tier b = _). change (mw_coarse w') with (mw_coarse w).
    destruct (Z.lt_trichotomy b c) as [Hbc|[->|Hbc]]; [|by apply Hx|pose proof (bucket_next_le (tier_Step tier) c b Ha Hb Hbc); lia].
    destruct (mw_marks w !! tier_Source tier) as [m|] eqn:Em.
    + pose proof (ready_mark _ _ _ _ _ _ _ _ _ _ Hr Em) as ->. by apply (Hexact c).
    + rewrite (ready_before c w b Hr Em Hb Hbc). split; [|by intros ?%elem_of_nil]. intros (k & Hk & Hs & Hbr).
      destruct (Hopen k r Hk Hs) as (Hn & _); [by intros m'|].
      rewrite (rd_next _ _ _ _ _ _ _ _ _ Hr) in Hn. injection Hn as Hn. lia.
  - intros k r Hk Hs Hm. exfalso. specialize (Hm _ Hv). pose proof (bucket_next_gt (tier_Step tier) c Ha).
    destruct (Hopen k r Hk Hs) as (Hn & _).
    + intros m ->%(ready_mark _ _ _ _ _ _ _ _ _ _ Hr). lia.
    + rewrite (rd_next _ _ _ _ _ _ _ _ _ Hr) in Hn. injection Hn as Hn. lia.
Qed.

Lemma advance_inv c w : ready tier c w ->
  (forall r, (exists k, mw_coarse w !! k = Some r /\ mr_StepSeconds r = tier_Step tier /\ mr_Bucket r = c) <-> r ∈ built w tier c) ->
  metricInv (advance w (NextBucket c (tier_Step tier))).
Proof.
  intros Hr Hx. destruct (rd_inv _ _ _ _ _ _ _ _ _ Hr) as [Hfine Hcoarse Hcalls Htiers].
  constructor; [done|done|done|]. intros tier' Hin. destruct (decide (tier' = tier)) as [->|Hne]; [by apply advance_tier|].
  assert (forall s m, mw_marks w !! s = Some m ->
    exists m', mw_marks (advance w (NextBucket c (tier_Step tier))) !! s = Some m' /\ m <= m') as Hmono.
  { intros s m Hm. cbn [advance setMMarks mw_marks]. destruct (decide (s = tier_Source tier)) as [->|Hd].
    - rewrite lookup_insert_eq, Hm. cbn [from_option]. eexists. split; [done|]. lia.
    - rewrite lookup_insert_ne by done. exists m. split; [done|lia]. }
  apply (tierInv_frame _ _ _ _ _ _ w); try done; [by apply Htiers| | |].
  - cbn [advance setMMarks mw_marks]. rewrite lookup_insert_ne; [done|]. intros E. destruct Hne. symmetry. by apply ladder_source_inj.
  - intros e. unfold frozen. destruct (lowerSource tier') as [s|]; [|done]. intros (m & Hm & Hle).
    destruct (Hmono s m Hm) as (m' & Hm' & ?). exists m'. split; [done|lia].
  - intros b _ _. unfold sourceAgree. by destruct (_ =? _).
Qed.

(** ** The loop *)

(** What the loop knows of the rung below. *)
Definition limitNow (w : mworld) (limit : option Z) : Prop :=
  match lowerSource tier with
  | None => limit = None
  | Some s => limit = mw_marks w !! s /\ is_Some limit
  end.

(** The check of the limit. *)
Definition behind (limit : option Z) (start : Z) : bool :=
  match limit with
  | Some through => through <? TruncateBucket (NextBucket start (tier_Step tier)) (tier_Source tier)
  | None => false
  end.

Lemma nextBucket_aligned w start : metricInv w -> nextBucket w tier = Some start -> tierAligned (tier_Step tier) start.
Proof.
  intros Hinv. destruct (ladder_laws tier Ht) as [LT _]. unfold nextBucket.
  destruct (mw_marks w !! tier_Source tier) as [m|] eqn:Em.
  - intros [= <-]. by apply (ti_mark _ _ _ _ _ _ _ _ (mi_tiers _ _ _ _ _ _ _ Hinv tier Ht) m Em).
  - destruct (OldestRollupBucket w (tier_Source tier)) as [o|]; [|done]. intros [= <-]. apply bl_start.
Qed.

(** The start that was read is still the next bucket when it has closed. *)
Lemma nextBucket_call w start : metricInv w -> nextBucket w tier = Some start ->
  NextBucket start (tier_Step tier) <= mw_now (nextMCall w).2 - MetricRollupLateWrite ->
  nextBucket (nextMCall w).2 tier = Some start.
Proof.
  intros Hinv Hn Hclosed. destruct (nextMCall_inv _ _ _ _ _ _ w Hinv) as [Hinv1 Hcd]. revert Hn. unfold nextBucket.
  rewrite (cd_marks _ _ Hcd). destruct (mw_marks w !! tier_Source tier) as [m|]; [done|].
  destruct (ladder_lower tier Ht) as [[_ E]|[E5 _]].
  - rewrite E in *. cbn [tier_Source tier_Step] in *. assert (BucketLaws StepHour) as L by (apply tier_laws; left; right; by left).
    destruct (OldestRollupBucket w Step5m) as [o|] eqn:Eo; [|done]. cbn [fmap option_fmap option_map]. intros [= Hs].
    apply oldest_fine in Eo as [Ho Hle]. set (w1 := (nextMCall w).2) in *.
    assert (forall b, hasBucket (mw_fine w1) b -> start <= b) as Hlow.
    { intros b Hb. destruct (nextMCall_fine _ _ _ _ _ _ w b Hinv) as (H1 & _ & Hgap). fold w1 in H1, Hgap.
      apply H1 in Hb as [Hb|(r & <- & Hw)].
      - specialize (Hle b Hb). pose proof (bl_in (S := StepHour) o). lia.
      - unfold writeOk in Hw. pose proof (bl_in (S := StepHour) (mr_Bucket r)).
        rewrite !NextBucket_fixed in * by (right; by left). change (StepHour * second) with hour in *.
        assert (tierAligned StepHour start) as Ha by (rewrite <- Hs; apply bl_start).
        destruct (Z.le_gt_cases start (TruncateBucket (mr_Bucket r) StepHour)) as [|Hgt]; [lia|].
        pose proof (bucket_next_le StepHour _ start (bl_start (mr_Bucket r)) Ha Hgt) as Hx.
        rewrite NextBucket_fixed in Hx by (right; by left). change (StepHour * second) with hour in Hx. lia. }
    destruct (nextMCall_fine _ _ _ _ _ _ w o Hinv) as (_ & H2 & _). fold w1 in H2. specialize (H2 Ho).
    destruct (OldestRollupBucket w1 Step5m) as [o1|] eqn:Eo1.
    + apply oldest_fine in Eo1 as [Ho1 Hle1]. cbn [fmap option_fmap option_map]. f_equal.
      apply (bl_only start o1); [rewrite <- Hs; apply bl_start|]. split; [by apply Hlow|].
      specialize (Hle1 o H2). pose proof (bl_in (S := StepHour) o) as Hin. rewrite Hs in Hin. lia.
    + exfalso. destruct H2 as (k & m & Hm & _). unfold OldestRollupBucket in Eo1.
      destruct (mr_Bucket <$> tierRows w1 Step5m (fun _ => True)) as [|x l] eqn:El; [|done]. apply fmap_nil_inv in El.
      assert (m ∈ tierRows w1 Step5m (fun _ => True)) as Hin by (apply elem_of_tierRows; split; [done|by exists k]).
      rewrite El in Hin. by apply elem_of_nil in Hin.
  - unfold OldestRollupBucket, tierRows. rewrite E5, (cd_coarse _ _ Hcd). done.
Qed.

Lemma limitNow_called w w' limit : called w w' -> limitNow w limit -> limitNow w' limit.
Proof. intros Hc. unfold limitNow. by rewrite (cd_marks _ _ Hc). Qed.

(** A turn that passes both checks may build its bucket. *)
Lemma turn_ready w start limit : metricInv w -> nextBucket w tier = Some start -> limitNow w limit ->
  BucketClosed start (tier_Step tier) (mw_now (nextMCall w).2 - MetricRollupLateWrite) = true -> behind limit start = false ->
  ready tier start (nextMCall w).2.
Proof.
  intros Hinv Hn Hl Hc Hb. apply Z.leb_le in Hc. destruct (nextMCall_inv _ _ _ _ _ _ w Hinv) as [Hinv1 Hcd].
  pose proof (nextBucket_call w start Hinv Hn Hc) as Hn1.
  constructor; [done|done|by apply (nextBucket_aligned (nextMCall w).2)| |done].
  pose proof (limitNow_called _ _ _ Hcd Hl) as Hl1. unfold limitNow, frozen in *.
  destruct (ladder_laws tier Ht) as [LT LS]. cbn [sourceWindow snd].
  destruct (lowerSource tier) as [s|].
  - destruct Hl1 as [-> [m Hm]]. exists m. split; [done|]. rewrite Hm in Hb. cbn [behind] in Hb. apply Z.ltb_ge in Hb. lia.
  - pose proof (bl_in (S := tier_Source tier) (NextBucket start (tier_Step tier))). lia.
Qed.

(** A turn that stops leaves a rung without rows or with a watermark. *)
Lemma turn_settled w start limit : metricInv w -> nextBucket w tier = Some start -> limitNow w limit ->
  (BucketClosed start (tier_Step tier) (mw_now (nextMCall w).2 - MetricRollupLateWrite) = false \/ behind limit start = true) ->
  settled (nextMCall w).2 tier.
Proof.
  intros Hinv Hn Hl Hstop. destruct (nextMCall_inv _ _ _ _ _ _ w Hinv) as [_ Hcd].
  intros Hnone k r Hk Hs. rewrite (cd_marks _ _ Hcd) in Hnone. rewrite (cd_coarse _ _ Hcd) in Hk.
  destruct (ti_open _ _ _ _ _ _ _ _ (mi_tiers _ _ _ _ _ _ _ Hinv tier Ht) k r Hk Hs) as (Hn' & Hf & Hc & _);
    [by intros m; rewrite Hnone|].
  rewrite Hn in Hn'. injection Hn' as Hn'. rewrite <- Hn' in *. destruct Hstop as [Hstop|Hstop].
  - apply Z.leb_gt in Hstop. pose proof (cd_now _ _ Hcd). lia.
  - unfold limitNow, frozen, behind in *. destruct (lowerSource tier) as [s|]; [|by rewrite Hl in Hstop].
    destruct Hl as [-> _], Hf as (m & Hm & Hle). rewrite Hm in Hstop. apply Z.ltb_lt in Hstop. cbn [sourceWindow snd] in Hle. lia.
Qed.

Lemma limitNow_stepped w w' w'' limit : stepped tier w w' -> stepped tier w' w'' -> limitNow w limit -> limitNow w'' limit.
Proof.
  intros [H1 _] [H2 _]. unfold limitNow. destruct (ladder_lower tier Ht) as [[-> _]|(_ & below & Hb & Eb & ->)]; [done|].
  assert (tier_Source below <> tier_Source tier) as Hne.
  { intros E. apply ladder_source_inj in E; [|done|done]. subst below. by apply (ladder_irrefl tier Ht). }
  by rewrite H2, H1.
Qed.

Lemma exact_grew c w w' : ready tier c w' -> grewFrom tier c w w' ->
  (forall r, (exists k, mw_coarse w !! k = Some r /\ mr_StepSeconds r = tier_Step tier /\ mr_Bucket r = c) <-> r ∈ built w tier c) ->
  forall r, (exists k, mw_coarse w' !! k = Some r /\ mr_StepSeconds r = tier_Step tier /\ mr_Bucket r = c) <-> r ∈ built w' tier c.
Proof.
  intros Hr Hg Hx r. split.
  - intros (k & Hk & Hs & Hb). by eapply (ready_rows parseAttributes marshalAttributes decodeHist encodeHist overflow policy tier Ht c).
  - rewrite (grew_built _ _ _ _ _ _ _ _ _ _ Hg), <- Hx. intros (k & Hk & ?). exists k. split; [|done]. by apply (gr_rows _ _ _ _ _ _ _ _ _ _ Hg).
Qed.

Abbreviation metricLoop := (metricLoop parseAttributes marshalAttributes decodeHist encodeHist overflow).

Lemma metricLoop_spec limit n : forall buckets rows start w,
  metricInv w -> nextBucket w tier = Some start -> limitNow w limit ->
  let '(res, w') := metricLoop tier policy limit n buckets rows start w in
  metricInv w' /\ stepped tier w w' /\
  (is_Some res -> (0 < n)%nat \/ is_Some (mw_marks w !! tier_Source tier) -> settled w' tier).
Proof.
  induction n as [|n IH]; intros buckets rows start w Hinv Hn Hl; cbn [MetricCompaction.metricLoop].
  { cbn [mret MC_ret]. split_and!; [done|apply stepped_refl|]. intros _ [?|[m Hm]]; [lia|]. intros Hnone. congruence. }
  unfold mbind at 1, MC_bind at 1. unfold mreads at 1.
  destruct (nextMCall_inv _ _ _ _ _ _ w Hinv) as [Hinv1 Hcd].
  pose proof (turn_ready w start limit Hinv Hn Hl) as Hready. pose proof (turn_settled w start limit Hinv Hn Hl) as Hsettled.
  pose proof (called_stepped tier _ _ Hcd) as Hst1. pose proof (limitNow_called _ _ _ Hcd Hl) as Hl1.
  destruct (nextMCall w) as [ok w1]. cbn [snd] in *. destruct ok; [|split_and!; [done|done|by intros []]].
  destruct (BucketClosed start (tier_Step tier) (mw_now w1 - MetricRollupLateWrite)) eqn:Ec; cbn [negb].
  2:{ cbn [mret MC_ret]. split_and!; [done|done|]. intros _ _. apply Hsettled. by left. }
  change (match limit with Some through => _ | None => false end) with (behind limit start).
  destruct (behind limit start) eqn:Eb.
  { cbn [mret MC_ret]. split_and!; [done|done|]. intros _ _. apply Hsettled. by right. }
  specialize (Hready eq_refl eq_refl). unfold mbind at 1, MC_bind at 1.
  pose proof (compactMetricBucket_spec parseAttributes marshalAttributes decodeHist encodeHist overflow policy tier Ht start w1 Hready) as Hb.
  destruct (compactMetricBucket _ _ _ _ _ tier start policy w1) as [[k|] w2]; destruct Hb as (Hr2 & Hg2 & Hx2);
    pose proof (stepped_trans _ _ _ _ Hst1 (grew_stepped _ _ _ _ Hg2)) as Hst2;
    [|split_and!; [apply (rd_inv _ _ _ _ _ _ _ _ _ Hr2)|done|by intros []]].
  unfold SetMetricRollupWatermark. unfold mbind at 1, MC_bind at 1. unfold mbind at 1, MC_bind at 1.
  pose proof (mreads_spec parseAttributes marshalAttributes decodeHist encodeHist overflow policy tier Ht start (fun _ => tt) w2 Hr2) as Hread.
  destruct (mreads (fun _ => tt) w2) as [[[]|] w3]; destruct Hread as (Hr3 & Hg3 & _);
    pose proof (stepped_trans _ _ _ _ Hst2 (grew_stepped _ _ _ _ Hg3)) as Hst3;
    [|split_and!; [apply (rd_inv _ _ _ _ _ _ _ _ _ Hr3)|done|by intros []]].
  unfold mupdate. fold (advance w3 (NextBucket start (tier_Step tier))).
  pose proof (exact_grew start w2 w3 Hr3 Hg3 (Hx2 ltac:(done))) as Hx3. pose proof (advance_value start w3 Hr3) as Hv.
  assert (stepped tier w3 (advance w3 (NextBucket start (tier_Step tier)))) as Hst4.
  { constructor; [|done]. intros s Hs. cbn [advance setMMarks mw_marks]. by rewrite lookup_insert_ne. }
  specialize (IH (S buckets) (rows + k)%nat (NextBucket start (tier_Step tier)) _ (advance_inv start w3 Hr3 Hx3)).
  rewrite Hv in IH. unfold nextBucket in IH. rewrite Hv in IH. specialize (IH eq_refl). specialize (IH (limitNow_stepped w w3 _ limit Hst3 Hst4 Hl)).
  destruct (metricLoop tier policy limit n _ _ _ _) as [res w5]. destruct IH as (Hinv5 & Hst5 & Hs5). split_and!; [done| |].
  - eapply stepped_trans; [exact Hst3|]. by eapply stepped_trans.
  - intros Hs _. apply Hs5; [done|]. right. eauto.
Qed.

(** ** One rung *)

(** A rung above the hourly one starts after the rung below it. *)
Lemma lower_mark w start below : metricInv w -> nextBucket w tier = Some start -> below ∈ Ladder ->
  tier_Step below = tier_Source tier -> (tier_Source tier =? Rollup5mStep) = false ->
  lowerSource tier = Some (tier_Source below) -> settled w below -> is_Some (mw_marks w !! tier_Source below).
Proof.
  intros Hinv Hn Hb Eb E5 El Hset. destruct (mw_marks w !! tier_Source below) as [m|] eqn:Em; [eauto|]. exfalso.
  unfold nextBucket in Hn. destruct (mw_marks w !! tier_Source tier) as [mt|] eqn:Et.
  - destruct (ti_mark _ _ _ _ _ _ _ _ (mi_tiers _ _ _ _ _ _ _ Hinv tier Ht) mt Et) as [_ Hf].
    unfold frozen in Hf. rewrite El in Hf. destruct Hf as (m & Hm & _). congruence.
  - destruct (OldestRollupBucket w (tier_Source tier)) as [o|] eqn:Eo; [|done].
    apply oldestRollup_spec in Eo as [(x & Hx & _) _]. apply elem_of_tierRows in Hx as [_ Hx]. rewrite E5 in Hx.
    destruct Hx as (Hs & k & Hk). apply (Hset Em k x Hk). congruence.
Qed.

Lemma nextBucket_called w w' : (tier_Source tier =? Rollup5mStep) = false \/ is_Some (mw_marks w !! tier_Source tier) ->
  called w w' -> nextBucket w' tier = nextBucket w tier.
Proof.
  intros Hc Hcd. unfold nextBucket. rewrite (cd_marks _ _ Hcd). destruct (mw_marks w !! tier_Source tier) as [m|] eqn:Em; [done|].
  destruct Hc as [E5|[? [=]]]. unfold OldestRollupBucket, tierRows. by rewrite E5, (cd_coarse _ _ Hcd).
Qed.

Lemma settled_called w w' tier' : called w w' -> settled w tier' -> settled w' tier'.
Proof. intros Hc. unfold settled. by rewrite (cd_marks _ _ Hc), (cd_coarse _ _ Hc). Qed.

Lemma mreads_called {A} (f : mworld -> A) w : metricInv w ->
  let '(res, w') := mreads f w in metricInv w' /\ called w w' /\ forall a, res = Some a -> a = f w'.
Proof.
  intros Hinv. unfold mreads. destruct (nextMCall_inv _ _ _ _ _ _ w Hinv) as [Hi Hc]. destruct (nextMCall w) as [[] w1]; cbn [snd] in *.
  - split_and!; [done|done|]. by intros a [= <-].
  - by split_and!.
Qed.

(** The start that is read is the next bucket. *)
Lemma metricTierStart_spec w : metricInv w ->
  let '(res, w') := metricTierStart tier w in
  metricInv w' /\ called w w' /\ forall start, res = Some start -> start = nextBucket w' tier.
Proof.
  intros Hinv. unfold metricTierStart, MetricRollupWatermark. unfold mbind at 1, MC_bind at 1.
  pose proof (mreads_called (fun w => mw_marks w !! tier_Source tier) w Hinv) as H1.
  destruct (mreads _ w) as [[[m|]|] w1]; destruct H1 as (Hi1 & Hc1 & Hv1); [| |by split_and!].
  - cbn [mret MC_ret]. split_and!; [done|done|]. intros start [= <-]. specialize (Hv1 _ eq_refl). unfold nextBucket. rewrite <- Hv1.
    f_equal. by apply (ti_mark _ _ _ _ _ _ _ _ (mi_tiers _ _ _ _ _ _ _ Hi1 tier Ht) m).
  - unfold mbind, MC_bind. pose proof (mreads_called (fun w => OldestRollupBucket w (tier_Source tier)) w1 Hi1) as H2.
    destruct (mreads _ w1) as [[o|] w2]; destruct H2 as (Hi2 & Hc2 & Hv2); [|split_and!; [done|by eapply called_trans|done]].
    cbn [mret MC_ret]. split_and!; [done|by eapply called_trans|]. intros start [= <-].
    unfold nextBucket. rewrite (cd_marks _ _ Hc2), <- (Hv1 _ eq_refl). by rewrite (Hv2 _ eq_refl).
Qed.

Lemma sourceThrough_lower :
  sourceThrough tier = match lowerSource tier with Some s => MetricRollupWatermark s | None => mret None end.
Proof. unfold sourceThrough, lowerSource. by destruct (filter _ Ladder). Qed.

Abbreviation compactMetricTier := (compactMetricTier parseAttributes marshalAttributes decodeHist encodeHist overflow).

Lemma compactMetricTier_spec cfg w : (0 < rc_BucketsPerPass cfg)%nat -> metricInv w ->
  (forall below, below ∈ Ladder -> tier_Step below = tier_Source tier -> settled w below) ->
  let '(res, w') := compactMetricTier cfg policy tier w in
  metricInv w' /\ stepped tier w w' /\ (is_Some res -> settled w' tier).
Proof.
  intros Hn Hinv Hbelow. unfold MetricCompaction.compactMetricTier. unfold mbind at 1, MC_bind at 1.
  pose proof (metricTierStart_spec w Hinv) as H1.
  destruct (metricTierStart tier w) as [[start|] w1]; destruct H1 as (Hi1 & Hc1 & Hv1);
    pose proof (called_stepped tier _ _ Hc1) as Hst1; [|split_and!; [done|done|by intros []]].
  specialize (Hv1 _ eq_refl). destruct start as [start|].
  2:{ cbn [mret MC_ret]. split_and!; [done|done|]. intros _ Hnone k r Hk Hs.
      destruct (ti_open _ _ _ _ _ _ _ _ (mi_tiers _ _ _ _ _ _ _ Hi1 tier Ht) k r Hk Hs) as [Hx _]; [by intros m; rewrite Hnone|].
      congruence. }
  rewrite sourceThrough_lower. unfold mbind, MC_bind.
  destruct (ladder_lower tier Ht) as [[El _]|(E5 & below & Hb & Eb & El)]; rewrite El.
  - cbn [mret MC_ret]. pose proof (metricLoop_spec None (rc_BucketsPerPass cfg) 0 0 start w1 Hi1 (eq_sym Hv1)) as Hloop.
    specialize (Hloop ltac:(unfold limitNow; by rewrite El)).
    destruct (metricLoop _ _ _ _ _ _ _ w1) as [res w2]. destruct Hloop as (? & Hst2 & Hs2).
    split_and!; [done|by eapply stepped_trans|]. intros Hs. apply Hs2; [done|by left].
  - unfold MetricRollupWatermark. pose proof (mreads_called (fun w => mw_marks w !! tier_Source below) w1 Hi1) as H2.
    destruct (mreads _ w1) as [[limit|] w2]; destruct H2 as (Hi2 & Hc2 & Hv2);
      pose proof (stepped_trans _ _ _ _ Hst1 (called_stepped tier _ _ Hc2)) as Hst2; [|split_and!; [done|done|by intros []]].
    specialize (Hv2 _ eq_refl).
    assert (nextBucket w2 tier = Some start) as Hn2 by (rewrite (nextBucket_called w1 w2); [done|by left|done]).
    assert (limitNow w2 limit) as Hl2.
    { unfold limitNow. rewrite El. split; [done|]. rewrite Hv2. apply (lower_mark w2 start below); try done.
      apply (settled_called w1); [done|]. apply (settled_called w); [done|]. by apply Hbelow. }
    pose proof (metricLoop_spec limit (rc_BucketsPerPass cfg) 0 0 start w2 Hi2 Hn2 Hl2) as Hloop.
    destruct (metricLoop _ _ _ _ _ _ _ w2) as [res w3]. destruct Hloop as (? & Hst3 & Hs3).
    split_and!; [done|by eapply stepped_trans|]. intros Hs. apply Hs3; [done|by left].
Qed.
End Tier.

(** ** A pass *)

Abbreviation metricLadder := (metricLadder parseAttributes marshalAttributes decodeHist encodeHist overflow).

Lemma ladder_below pre tier rest below : Ladder = pre ++ tier :: rest -> below ∈ Ladder ->
  tier_Step below = tier_Source tier -> below ∈ pre.
Proof.
  intros E Hb Es. unfold Ladder in E.
  destruct pre as [|t1 [|t2 [|t3 [|t4 pre]]]]; simplify_eq/=; [by apply ladder_cases in Hb as [->|[->|[->| ->]]]|..];
    try (apply ladder_cases in Hb as [->|[->|[->| ->]]]; try done; set_solver).
Qed.

(** The other fields of the compactor do not matter. *)
Lemma same_inv w w' : mw_fine w' = mw_fine w -> mw_coarse w' = mw_coarse w -> mw_marks w' = mw_marks w ->
  mw_now w' = mw_now w -> callsOk (mw_now w') (mw_calls w') -> metricInv w -> metricInv w'.
Proof.
  intros E1 E2 E3 E4 Hc Hinv. apply (called_inv _ _ _ _ _ _ w); [done| | |done].
  - constructor; [done|done|lia|]. intros. by rewrite E1.
  - intros k r. rewrite E1. apply (mi_fine _ _ _ _ _ _ _ Hinv).
Qed.

Lemma metricLadder_spec cfg tiers : (0 < rc_BucketsPerPass cfg)%nat -> forall pre w, Ladder = pre ++ tiers ->
  metricInv w -> (forall tier, tier ∈ pre -> settled w tier) -> metricInv (metricLadder cfg policy tiers w).2.
Proof.
  intros Hn. induction tiers as [|tier tiers IH]; intros pre w E Hinv Hset; [done|]. cbn [MetricCompaction.metricLadder].
  assert (forall t, t ∈ pre -> t ∈ Ladder) as Hpre by (intros t Ht; rewrite E; apply elem_of_app; by left).
  assert (tier ∈ Ladder) as Ht by (rewrite E; apply elem_of_app; right; left).
  pose proof (compactMetricTier_spec tier Ht cfg w Hn Hinv) as Htier.
  specialize (Htier ltac:(intros below Hb Eb; apply Hset; by eapply ladder_below)).
  unfold mbind at 1, MC_bind at 1. destruct (compactMetricTier _ _ _ _ _ cfg policy tier w) as [[res|] w1];
    destruct Htier as (Hi1 & Hst1 & Hs1); [|done].
  unfold mbind, MC_bind, mupdate. set (w2 := if (rc_BucketsPerPass cfg <=? res.1)%nat then setMBusy true w1 else w1).
  assert (metricInv w2 /\ forall t, settled w1 t -> settled w2 t) as [Hi2 Hs2].
  { subst w2. destruct (_ <=? _)%nat; [|done]. split; [|done]. apply (same_inv w1); try done. apply (mi_calls _ _ _ _ _ _ _ Hi1). }
  apply (IH (pre ++ [tier]) w2); [by rewrite <- app_assoc|done|].
  intros t [Hin|Hin]%elem_of_app; apply Hs2.
  - apply (settled_stepped tier t w w1); [done|by apply Hpre| |done|by apply Hset].
    intros ->. assert (NoDup Ladder) as Hnd by (unfold Ladder; repeat constructor; set_solver).
    rewrite E in Hnd. apply NoDup_app in Hnd as (_ & Hd & _). apply (Hd tier Hin). left.
  - apply list_elem_of_singleton in Hin as ->. by apply Hs1.
Qed.

(** A pass keeps the invariant. *)
Lemma pass_metricInv trimSpace split cfg space hourly daily w :
  policy = Compactor_policy trimSpace split hourly daily -> (0 < rc_BucketsPerPass cfg)%nat -> metricInv w ->
  metricInv (RollupRunOnce parseAttributes marshalAttributes decodeHist encodeHist overflow trimSpace split cfg space hourly daily w).2.
Proof.
  intros Ep Hn Hinv. unfold RollupRunOnce. rewrite <- Ep. unfold mbind at 1, MC_bind at 1.
  assert (exists room w1, haveRoom cfg space w = (Some room, w1) /\ metricInv w1) as (room & w1 & -> & Hi1).
  { unfold haveRoom. destruct space as [sp|]; [|by eauto]. destruct (negb (Measured sp)); [by eauto|].
    destruct (_ <=? _); eexists _, _; (split; [done|]); apply (same_inv w); try done; apply (mi_calls _ _ _ _ _ _ _ Hinv). }
  destruct (negb room); [done|]. unfold mbind, MC_bind, mupdate.
  apply (metricLadder_spec cfg Ladder Hn []); [done| |by intros ? ?%elem_of_nil].
  apply (same_inv w1); try done. apply (mi_calls _ _ _ _ _ _ _ Hi1).
Qed.
End Passes.

(** ** Reachable worlds *)

Section Reach.
Context (parseAttributes : string -> gmap string string) (marshalAttributes : gmap string string -> option string).
Context (decodeHist : string -> option histogram) (encodeHist : histogram -> option string).
Context (overflow : float64 -> Z) (trimSpace : string -> string) (split : string -> list string).
Context (hourly daily : option string).

Abbreviation policy := (Compactor_policy trimSpace split hourly daily).
Abbreviation built := (built parseAttributes marshalAttributes decodeHist encodeHist overflow policy).

(** Time passes between passes and rows are written; a pass runs with any calls failing and
    rows written between any two calls. *)
Inductive metricReach : mworld -> Prop :=
  | reach_init w : fineOk w -> mw_coarse w = ∅ -> mw_marks w = ∅ -> mw_calls w = [] -> metricReach w
  | reach_idle w now writes :
      metricReach w -> mw_now w <= now -> Forall (writeOk (mw_now w)) writes ->
      metricReach (mkMWorld (foldl upsertFine (mw_fine w) writes) (mw_coarse w) (mw_marks w) (mw_busy w) (mw_lowSpace w) now [])
  | reach_pass w cfg space calls :
      metricReach w -> (0 < rc_BucketsPerPass cfg)%nat -> callsOk (mw_now w) calls ->
      metricReach (RollupRunOnce parseAttributes marshalAttributes decodeHist encodeHist overflow trimSpace split
                     cfg space hourly daily (setMCalls calls w)).2.

Lemma reach_metricInv w : metricReach w -> metricInv parseAttributes marshalAttributes decodeHist encodeHist overflow policy w.
Proof.
  induction 1 as [w Hf Hc Hm Hcalls|w now writes _ IH Hnow Hw|w cfg space calls _ IH Hn Hcalls].
  - constructor; [done| |by rewrite Hcalls|].
    + intros k r. by rewrite Hc, lookup_empty.
    + intros tier _. constructor.
      * intros m. by rewrite Hm, lookup_empty.
      * intros m b r. by rewrite Hm, lookup_empty.
      * intros k r. by rewrite Hc, lookup_empty.
  - apply (called_inv _ _ _ _ _ _ w); [done| | |done].
    + constructor; try done. intros e He Hle k m Hlt. apply (upsertFine_all e); [apply (mi_fine _ _ _ _ _ _ _ IH)| |done].
      eapply Forall_impl; [exact Hw|]. intros r. by apply writeOk_past.
    + intros k r. cbn [mw_fine]. revert k r. pose proof (mi_fine _ _ _ _ _ _ _ IH) as Hok. unfold fineOk in Hok. revert Hok.
      generalize (mw_fine w) as t. clear. induction writes as [|r rows IH]; intros t Hok; [exact Hok|].
      cbn [foldl]. apply IH. by apply upsertFine_ok.
  - apply (pass_metricInv _ _ _ _ _ _ trimSpace split); [done|done|]. apply (same_inv _ _ _ _ _ _ w); done.
Qed.

(** The rows of a tier in a window. *)
Definition windowRow (w : mworld) (step from to : Z) (m : MetricRollup) : Prop :=
  m ∈ tierRows w step (fun m => from <= mr_Bucket m < to).

Lemma RollupWindow_whole w step from to :
  Z.of_nat (length (mjoin ((fun pid => projectWindow w step pid from to) <$> distinctProjectIDs w step))) < windowLimit ->
  forall m, m ∈ RollupWindow w step from to <-> windowRow w step from to m.
Proof.
  intros Hl m. unfold RollupWindow, windowRow. rewrite (windowLoop_all w step from to _ _ Hl), list_elem_of_join, elem_of_tierRows. split.
  - intros (l & Hm & (pid & -> & _)%list_elem_of_fmap). apply elem_of_projectWindow in Hm as [[_ Hb] Hm]. by split.
  - intros [Hb Hm]. exists (projectWindow w step (mr_ProjectID m) from to).
    assert (m ∈ projectWindow w step (mr_ProjectID m) from to) as Hin by (by apply elem_of_projectWindow). split; [done|].
    apply list_elem_of_fmap. exists (mr_ProjectID m). split; [done|]. apply (projectWindow_project w step _ from to).
    intros E. rewrite E in Hin. by apply elem_of_nil in Hin.
Qed.

(** C17: The metric tiers are exact below their watermarks.  In every world that passes of the
    compactor reach, with any database calls failing, and 5-minute rows of hours that are not
    yet closed for the wait written between any two calls, every hourly, daily, weekly and
    monthly bucket that ends at or below the watermark holds exactly the merge of its source
    window, continuing the totals of the bucket before it; a window below the read limit is
    read whole. *)
Theorem metric_tiers_exact w tier m b :
  metricReach w -> tier ∈ Ladder -> mw_marks w !! tier_Source tier = Some m ->
  tierAligned (tier_Step tier) b -> NextBucket b (tier_Step tier) <= m ->
  let from := PrevBucket (sourceWindow tier b).1 (tier_Source tier) in
  let to := (sourceWindow tier b).2 in
  (forall r, (exists k, mw_coarse w !! k = Some r /\ mr_StepSeconds r = tier_Step tier /\ mr_Bucket r = b) <-> r ∈ built w tier b) /\
  (Z.of_nat (length (mjoin ((fun pid => projectWindow w (tier_Source tier) pid from to) <$> distinctProjectIDs w (tier_Source tier))))
     < windowLimit ->
   forall x, x ∈ RollupWindow w (tier_Source tier) from to <-> windowRow w (tier_Source tier) from to x).
Proof.
  intros Hr Ht Hm Hb Hle. cbn zeta. split; [|by apply RollupWindow_whole]. intros r.
  destruct (ladder_laws tier Ht) as [LT _]. pose proof (bucket_next_gt (tier_Step tier) b Hb).
  apply (ti_exact _ _ _ _ _ _ _ _ (mi_tiers _ _ _ _ _ _ _ (reach_metricInv w Hr) tier Ht) m b r Hm Hb). lia.
Qed.
End Reach.

(** ** A pass over an hour of two pods *)

Definition demoCfg : RollupConfig := rollupDefaults 0 0.

Definition demoStartWorld : mworld :=
  mkMWorld (foldl upsertFine ∅ demoSrc) ∅ ∅ false false (3 * hour) [].

(** The first pass writes the merged row and fails to set the watermark; the second succeeds. *)
Definition demoFails : list mcall :=
  (fun ok => mkCall [] (3 * hour) ok) <$> [true; true; true; true; true; true; false].

Definition demoPass (w : mworld) : mworld :=
  (RollupRunOnce demoParse (fun _ => None) (fun _ => None) (fun _ => None) (fun _ => 0) id (fun _ => []) demoCfg None None None w).2.

Definition demoEnd : mworld := demoPass (setMCalls [] (demoPass (setMCalls demoFails demoStartWorld))).

Lemma demo_metricReach :
  metricReach demoParse (fun _ => None) (fun _ => None) (fun _ => None) (fun _ => 0) id (fun _ => []) None None demoEnd.
Proof.
  apply reach_pass; [|cbn; lia|done]. apply reach_pass; [|cbn; lia|by repeat constructor].
  apply reach_init; [|done|done|done]. unfold fineOk, demoStartWorld. cbn [mw_fine].
  assert (forall rows t, (forall k m, t !! k = Some m -> k = finePKOf m) ->
    forall k m, foldl upsertFine t rows !! k = Some m -> k = finePKOf m) as Hok
    by (induction rows as [|r rows IH]; intros t Ht; [exact Ht|apply IH; by apply upsertFine_ok]).
  apply Hok. intros k m. by rewrite lookup_empty.
Qed.

Lemma metric_tiers_exact_witness :
  mw_marks demoEnd !! Step5m = Some (2 * hour) /\ length (map_to_list (mw_coarse (demoPass (setMCalls demoFails demoStartWorld)))) = 1%nat /\
  mw_marks (demoPass (setMCalls demoFails demoStartWorld)) !! Step5m = None /\
  forall r, (exists k, mw_coarse demoEnd !! k = Some r /\ mr_StepSeconds r = StepHour /\ mr_Bucket r = hour) <->
    r ∈ built demoParse (fun _ => None) (fun _ => None) (fun _ => None) (fun _ => 0)
          (Compactor_policy id (fun _ => []) None None) demoEnd demoTier hour.
Proof.
  assert (mw_marks demoEnd !! Step5m = Some (2 * hour)) as Hm by (by vm_compute).
  assert (demoTier ∈ Ladder) as Ht by (unfold Ladder; left).
  assert (tierAligned StepHour hour) as Ha by (by vm_compute).
  assert (NextBucket hour StepHour <= 2 * hour) as Hle by (by vm_compute).
  split; [exact Hm|]. split; [by vm_compute|]. split; [by vm_compute|].
  exact (proj1 (metric_tiers_exact demoParse (fun _ => None) (fun _ => None) (fun _ => None) (fun _ => 0) id (fun _ => [])
    None None demoEnd demoTier (2 * hour) hour demo_metricReach Ht Hm Ha Hle)).
Defined.
