(* ===== verification/MetricAccumulator.v ===== *)
(** * The metric accumulator ([internal/aggregation/metric_accumulator.go], [bucket.go])

    Data points fold into one slot per series and 5-minute bucket; [Flush] writes the closed
    buckets and keeps what a failed write left for the next one.  The rollup table is the one
    the compactor reads.  Go leaves the order of a map's iteration and of rows with the same key
    open; rows come here in the order of [map_to_list] and of a stable sort. *)
From S2P Require Import Prelude TierStore Tiers Float64 MetricSeries MetricMerge TierCalendar.
From S2P Require Import MetricCompaction MetricTiersInv.

(** [model.MetricRecord]; the description is left out. *)
Record MetricRecord := mkMetricRecord {
  re_ProjectID : Z;
  re_Name : string;
  re_Unit : string;
  re_Type : string;
  re_TimeUnixNano : Z;
  re_StartTimeUnixNano : Z;
  re_Value : float64;
  re_Count : Z;
  re_Temporality : string;
  re_Attributes : string;
  re_Extra : string;
}.

(** The types. *)
Definition MetricTypeGauge : string := "gauge".

Definition MetricTypeSum : string := "sum".

Definition MetricTypeHistogram : string := "histogram".

Definition MetricTypeExponentialHistogram : string := "exp_histogram".

Definition MetricTypeSummary : string := "summary".

(** [temporalityDelta] *)
Definition temporalityDelta : string := "delta".

(** [TruncateToBucket]: [time.Time.Truncate] counts from the year 1. *)
Definition TruncateToBucket (t interval : Z) : Z :=
  if interval <=? 0 then t else t - (t + 62135596800 * second) mod interval.

(** [metricKey] *)
Abbreviation metricKey := (Z * string * string * Z)%type.

(** [metricSlot] *)
Record metricSlot := mkMetricSlot {
  ms_metricType : string;
  ms_unit : string;
  ms_attributes : string;
  ms_temporality : string;
  ms_count : Z;
  ms_sum : float64;
  ms_min : float64;
  ms_max : float64;
  ms_last : float64;
  ms_lastNano : Z;
  ms_obsCount : Z;
  ms_haveVal : bool;
  ms_hist : histogram;
  ms_haveHist : bool;
  ms_lastExtra : string;
}.

(** [MetricAccumulator] *)
Record MetricAccumulator := mkMetricAcc { ma_slots : gmap metricKey metricSlot; ma_pending : list MetricRollup }.

(** [metricRetryWindow] *)
Definition metricRetryWindow : Z := MetricRollupLateWrite.

Section Accumulator.
Context (parseAttributes : string -> gmap string string) (marshalAttributes : gmap string string -> option string).
Context (decodeHist : string -> option histogram) (encodeHist : histogram -> option string).

(** ** Adding points *)

(** A new slot. *)
Definition newMetricSlot (rec : MetricRecord) (attrs : gmap string string) : metricSlot :=
  mkMetricSlot (re_Type rec) (re_Unit rec) (CanonicalAttributes marshalAttributes attrs) (re_Temporality rec) 0 (toFloat 0)
    (toFloat 0) (toFloat 0) (toFloat 0) 0 0 false (mkHistogram [] []) false "".

(** The case of a gauge or a sum. *)
Definition addValue (sl : metricSlot) (rec : MetricRecord) : metricSlot :=
  let v := re_Value rec in
  let newest := ms_lastNano sl <=? re_TimeUnixNano rec in
  mkMetricSlot (ms_metricType sl) (ms_unit sl) (ms_attributes sl) (ms_temporality sl) (ms_count sl) (ms_sum sl + v)%f64
    (if negb (ms_haveVal sl) || (v <? ms_min sl)%f64 then v else ms_min sl)
    (if negb (ms_haveVal sl) || (ms_max sl <? v)%f64 then v else ms_max sl)
    (if newest then v else ms_last sl) (if newest then re_TimeUnixNano rec else ms_lastNano sl)
    (ms_obsCount sl) true (ms_hist sl) (ms_haveHist sl) (ms_lastExtra sl).

Definition setDist (sum : float64) (obs lastNano : Z) (h : histogram) (haveHist : bool) (extra : string) (sl : metricSlot) : metricSlot :=
  mkMetricSlot (ms_metricType sl) (ms_unit sl) (ms_attributes sl) (ms_temporality sl) (ms_count sl) sum (ms_min sl) (ms_max sl)
    (ms_last sl) lastNano obs (ms_haveVal sl) h haveHist extra.

(** [addOpaquePoint]; [int64] of the count wraps. *)
Definition addOpaquePoint (sl : metricSlot) (rec : MetricRecord) : metricSlot :=
  let newest := ms_lastNano sl <=? re_TimeUnixNano rec in
  let '(sum, obs) :=
    if bool_decide (re_Temporality rec = temporalityDelta)
    then ((ms_sum sl + re_Value rec)%f64, wrap64 (ms_obsCount sl + wrap64 (re_Count rec)))
    else if newest then (re_Value rec, wrap64 (re_Count rec)) else (ms_sum sl, ms_obsCount sl) in
  setDist sum obs (if newest then re_TimeUnixNano rec else ms_lastNano sl) (ms_hist sl) (ms_haveHist sl)
    (if newest then re_Extra rec else ms_lastExtra sl) sl.

(** The histogram of an extra, as both folds read it. *)
Definition extraHist (extra : string) : option histogram :=
  if bool_decide (extra = ""%string) then None else decodeHist extra.

(** [replaceHistogram] *)
Definition replaceHistogram (extra : string) (h : histogram) (have : bool) : histogram * bool :=
  match extraHist extra with Some n => (n, true) | None => (h, have) end.

(** [foldHistogram] *)
Definition foldHistogram (extra : string) (h : histogram) (have : bool) : histogram * bool :=
  match extraHist extra with
  | None => (h, have)
  | Some n =>
      if negb have || negb (length (hg_Counts h) =? length (hg_Counts n))%nat then (n, true)
      else (mkHistogram (hg_Bounds h) (zip_with (fun a b => (a + b)%f64) (hg_Counts h) (hg_Counts n)), have)
  end.

(** [addHistogramPoint] *)
Definition addHistogramPoint (sl : metricSlot) (rec : MetricRecord) : metricSlot :=
  if bool_decide (re_Temporality rec = temporalityDelta) then
    let '(h, have) := foldHistogram (re_Extra rec) (ms_hist sl) (ms_haveHist sl) in
    setDist (ms_sum sl + re_Value rec)%f64 (wrap64 (ms_obsCount sl + wrap64 (re_Count rec))) (ms_lastNano sl) h have (ms_lastExtra sl) sl
  else if ms_haveHist sl && (re_TimeUnixNano rec <? ms_lastNano sl) then sl
  else
    let '(h, have) := replaceHistogram (re_Extra rec) (ms_hist sl) (ms_haveHist sl) in
    setDist (re_Value rec) (wrap64 (re_Count rec)) (re_TimeUnixNano rec) h have (ms_lastExtra sl) sl.

(** [sl.count++] *)
Definition countPoint (sl : metricSlot) : metricSlot :=
  mkMetricSlot (ms_metricType sl) (ms_unit sl) (ms_attributes sl) (ms_temporality sl) (wrap64 (ms_count sl + 1)) (ms_sum sl)
    (ms_min sl) (ms_max sl) (ms_last sl) (ms_lastNano sl) (ms_obsCount sl) (ms_haveVal sl) (ms_hist sl) (ms_haveHist sl) (ms_lastExtra sl).

(** The switch of [AddMetric] on the type of the point. *)
Definition foldPoint (sl : metricSlot) (rec : MetricRecord) : metricSlot :=
  if bool_decide (re_Type rec ∈ [MetricTypeGauge; MetricTypeSum]) then addValue sl rec
  else if bool_decide (re_Type rec = MetricTypeHistogram) then addHistogramPoint sl rec
  else if bool_decide (re_Type rec ∈ [MetricTypeExponentialHistogram; MetricTypeSummary]) then addOpaquePoint sl rec
  else sl.

Definition metricKeyOf (interval : Z) (rec : MetricRecord) : metricKey :=
  (re_ProjectID rec, re_Name rec, Fingerprint (parseAttributes (re_Attributes rec)),
   TruncateToBucket (wrap64 (re_TimeUnixNano rec)) interval).

(** [AddMetric] *)
Definition AddMetric (interval : Z) (rec : MetricRecord) (a : MetricAccumulator) : MetricAccumulator :=
  let k := metricKeyOf interval rec in
  let sl := default (newMetricSlot rec (parseAttributes (re_Attributes rec))) (ma_slots a !! k) in
  mkMetricAcc (<[k := foldPoint (countPoint sl) rec]> (ma_slots a)) (ma_pending a).

(** ** Flushing *)

(** [toRollup] *)
Definition metricToRollup (k : metricKey) (sl : metricSlot) : MetricRollup :=
  let '(projectID, name, fingerprint, bucket) := k in
  let extra :=
    if bool_decide (ms_metricType sl = MetricTypeHistogram) then
      if ms_haveHist sl then default ""%string (encodeHist (ms_hist sl)) else ""%string
    else if bool_decide (ms_metricType sl ∈ [MetricTypeExponentialHistogram; MetricTypeSummary]) then ms_lastExtra sl
    else ""%string in
  mkMetric projectID name (ms_metricType sl) (ms_unit sl) fingerprint (ms_attributes sl) bucket (ms_count sl) (ms_sum sl) (ms_min sl)
    (ms_max sl) (ms_last sl) (ms_obsCount sl) extra (ms_temporality sl) 0.

(** [persist]: the rows it did not write, and the table. *)
Definition metricPersist (oks : list bool) (rollups : list MetricRollup) (t : gmap finePK MetricRollup)
  : option (list MetricRollup) * gmap finePK MetricRollup :=
  let '(err, t) := UpsertMetricRollups oks rollups t in
  (match err with
   | None => None
   | Some (UnwrittenRows rows) => Some rows
   | Some OtherError => Some rollups
   end, t).

(** [keepForRetry]: the rows kept. *)
Definition retryRows (unwritten : list MetricRollup) (now : Z) : list MetricRollup :=
  filter (fun r => now - metricRetryWindow < mr_Bucket r) unwritten.

Definition keepForRetry (unwritten : list MetricRollup) (now : Z) (a : MetricAccumulator) : MetricAccumulator :=
  mkMetricAcc (ma_slots a) (retryRows unwritten now ++ ma_pending a).

(** The slots of closed buckets. *)
Definition closedSlots (now interval : Z) (a : MetricAccumulator) : gmap metricKey metricSlot :=
  filter (fun kv => kv.1.2 <= now - interval) (ma_slots a).

Definition openSlots (now interval : Z) (a : MetricAccumulator) : gmap metricKey metricSlot :=
  filter (fun kv => ~ kv.1.2 <= now - interval) (ma_slots a).

Definition slotRollups (slots : gmap metricKey metricSlot) : list MetricRollup :=
  (fun kv => metricToRollup kv.1 kv.2) <$> map_to_list slots.

(** [Flush], up to and after the write.  Points may be added between the two, since the lock
    is not held during the write. *)
Definition takeClosed (now interval : Z) (a : MetricAccumulator) : list MetricRollup * MetricAccumulator :=
  (ma_pending a ++ slotRollups (closedSlots now interval a), mkMetricAcc (openSlots now interval a) []).

Definition finishFlush (now : Z) (unwritten : option (list MetricRollup)) (a : MetricAccumulator) : MetricAccumulator :=
  match unwritten with Some rows => keepForRetry rows now a | None => a end.

(** [flushAll]: every slot and everything pending. *)
Definition takeAll (a : MetricAccumulator) : list MetricRollup * MetricAccumulator :=
  (ma_pending a ++ slotRollups (ma_slots a), mkMetricAcc ∅ []).
End Accumulator.

(** ** No metric sample disappears unnoticed

    Points are added and flushed in any order, with points added while a flush writes and any
    chunks of a write failing.  Every point is counted once: in a slot, in a row being written or
    waiting, in the table, or among the rows reported lost. *)

Section Samples.
Context (parseAttributes : string -> gmap string string) (marshalAttributes : gmap string string -> option string).
Context (decodeHist : string -> option histogram) (encodeHist : histogram -> option string).
Context (interval : Z).

(** The accumulator, a write under way with its time, the table, and how many samples were added
    and lost. *)
Record accState := mkAccState {
  as_acc : MetricAccumulator;
  as_inflight : option (list MetricRollup * Z);
  as_table : gmap finePK MetricRollup;
  as_added : Z;
  as_lost : Z;
}.

Definition rowSamples (rows : list MetricRollup) : Z := sumBy mr_Count rows.

Inductive accStep : accState -> accState -> Prop :=
  | acc_add s rec :
      accStep s (mkAccState (AddMetric parseAttributes marshalAttributes decodeHist interval rec (as_acc s)) (as_inflight s)
                   (as_table s) (as_added s + 1) (as_lost s))
  | acc_begin s now rows a :
      as_inflight s = None -> takeClosed encodeHist now interval (as_acc s) = (rows, a) ->
      accStep s (mkAccState a (Some (rows, now)) (as_table s) (as_added s) (as_lost s))
  | acc_end s oks rows now unwritten t :
      as_inflight s = Some (rows, now) -> metricPersist oks rows (as_table s) = (unwritten, t) ->
      accStep s (mkAccState (finishFlush now unwritten (as_acc s)) None t (as_added s)
                   (as_lost s + (rowSamples (default [] unwritten) - rowSamples (retryRows (default [] unwritten) now))))
  | acc_final s oks rows a unwritten t :
      as_inflight s = None -> takeAll encodeHist (as_acc s) = (rows, a) ->
      metricPersist oks rows (as_table s) = (unwritten, t) ->
      accStep s (mkAccState a None t (as_added s) (as_lost s + rowSamples (default [] unwritten))).

(** The samples held outside the table. *)
Definition heldSamples (s : accState) : Z :=
  mapSum ms_count (ma_slots (as_acc s)) + rowSamples (ma_pending (as_acc s)) +
  rowSamples (default [] (fst <$> as_inflight s)).

Definition countsOk (s : accState) : Prop :=
  (forall k sl, ma_slots (as_acc s) !! k = Some sl -> 0 <= ms_count sl) /\
  Forall (fun r => 0 <= mr_Count r) (ma_pending (as_acc s)) /\
  Forall (fun r => 0 <= mr_Count r) (default [] (fst <$> as_inflight s)).

Record samplesInv (t0 : gmap finePK MetricRollup) (s : accState) : Prop := {
  si_counts : countsOk s;
  si_lost : 0 <= as_lost s;
  si_table : mapSum mr_Count t0 <= mapSum mr_Count (as_table s);
  si_sum : mapSum mr_Count (as_table s) + heldSamples s + as_lost s = mapSum mr_Count t0 + as_added s;
}.

(** ** The pieces *)

Lemma foldPoint_count sl rec : ms_count (foldPoint decodeHist sl rec) = ms_count sl.
Proof.
  unfold foldPoint. destruct (bool_decide _); [done|]. destruct (bool_decide _).
  - unfold addHistogramPoint. destruct (bool_decide _); [by destruct (foldHistogram _ _ _ _)|].
    destruct (_ && _); [done|]. by destruct (replaceHistogram _ _ _ _).
  - destruct (bool_decide _); [|done]. unfold addOpaquePoint. destruct (bool_decide _); [done|]. by destruct (_ <=? _).
Qed.

Lemma metricToRollup_count k sl : mr_Count (metricToRollup encodeHist k sl) = ms_count sl.
Proof. by destruct k as [[[p n] f] b]. Qed.

Lemma slotRollups_samples slots : rowSamples (slotRollups encodeHist slots) = mapSum ms_count slots.
Proof.
  unfold rowSamples, slotRollups, mapSum. etransitivity; [apply (sumBy_map (fun kv => metricToRollup encodeHist kv.1 kv.2))|].
  apply sumBy_ext. intros [k sl] _. apply metricToRollup_count.
Qed.

Lemma mapSum_split (P : metricKey * metricSlot -> Prop) `{!forall x, Decision (P x)} slots :
  mapSum ms_count (filter P slots) + mapSum ms_count (filter (fun x => ~ P x) slots) = mapSum ms_count slots.
Proof.
  induction slots as [|k sl slots Hk IH] using map_ind; [by rewrite !map_filter_empty|].
  rewrite mapSum_insert_None by done. destruct (decide (P (k, sl))) as [HP|HP].
  - rewrite map_filter_insert_True, (map_filter_insert_False (fun x => ~ P x)) by tauto.
    rewrite mapSum_insert_None by (by apply map_lookup_filter_None_2; left). rewrite delete_id by done. lia.
  - rewrite map_filter_insert_False, (map_filter_insert_True (fun x => ~ P x)) by tauto.
    rewrite mapSum_insert_None by (by apply map_lookup_filter_None_2; left). rewrite delete_id by done. lia.
Qed.

Lemma upsertFine_samples rows : forall t, mapSum mr_Count (foldl upsertFine t rows) = mapSum mr_Count t + rowSamples rows.
Proof.
  induction rows as [|r rows IH]; intros t; cbn [foldl]; [unfold rowSamples; cbn; lia|].
  rewrite IH. unfold rowSamples. rewrite sumBy_cons.
  enough (mapSum mr_Count (upsertFine t r) = mapSum mr_Count t + mr_Count r) by lia.
  unfold upsertFine, upsert. destruct (t !! finePKOf (stored 0 r)) as [old|] eqn:Eo; rewrite mapSum_insert, Eo; cbn; lia.
Qed.

(** A write adds what it does not report. *)
Lemma metricPersist_samples oks rows t unwritten t' : metricPersist oks rows t = (unwritten, t') ->
  mapSum mr_Count t' + rowSamples (default [] unwritten) = mapSum mr_Count t + rowSamples rows /\
  (Forall (fun r => 0 <= mr_Count r) rows -> Forall (fun r => 0 <= mr_Count r) (default [] unwritten) /\
     mapSum mr_Count t <= mapSum mr_Count t').
Proof.
  unfold metricPersist. destruct (UpsertMetricRollups oks rows t) as [err t1] eqn:Eu.
  apply writeTierRows_spec in Eu as (written & Hperm & -> & _); [|unfold metricRollupChunk; lia].
  intros E. assert (default [] unwritten = unwrittenRows rows err /\ t' = foldl upsertFine t written) as [-> ->]
    by (destruct err as [[]|]; by injection E as <- <-).
  rewrite upsertFine_samples. unfold rowSamples. split.
  - rewrite (sumBy_perm mr_Count rows (written ++ unwrittenRows rows err)) by done. rewrite sumBy_app. lia.
  - intros Hr. rewrite Hperm in Hr. apply Forall_app in Hr as [Hw Hu]. split; [done|].
    enough (0 <= sumBy mr_Count written) by lia. apply sumBy_nonneg. by apply Forall_forall.
Qed.

Lemma slots_nonneg slots : (forall k sl, slots !! k = Some sl -> 0 <= ms_count sl) ->
  Forall (fun r => 0 <= mr_Count r) (slotRollups encodeHist slots).
Proof.
  intros Hs. apply Forall_forall. intros r ([k sl] & -> & Hk%elem_of_map_to_list)%list_elem_of_fmap.
  rewrite metricToRollup_count. by apply (Hs k).
Qed.

Lemma rowSamples_nonneg rows : Forall (fun r => 0 <= mr_Count r) rows -> 0 <= rowSamples rows.
Proof. intros Hr. apply sumBy_nonneg. by apply Forall_forall. Qed.

Lemma rowSamples_app l l' : rowSamples (l ++ l') = rowSamples l + rowSamples l'.
Proof. apply sumBy_app. Qed.

Lemma rowSamples_nil : rowSamples [] = 0.
Proof. done. Qed.

Lemma held_some a rows now t n l : heldSamples (mkAccState a (Some (rows, now)) t n l) =
  mapSum ms_count (ma_slots a) + rowSamples (ma_pending a) + rowSamples rows.
Proof. done. Qed.

Lemma held_none a t n l : heldSamples (mkAccState a None t n l) = mapSum ms_count (ma_slots a) + rowSamples (ma_pending a).
Proof. unfold heldSamples. cbn [as_acc as_inflight fmap option_fmap option_map default]. rewrite rowSamples_nil. lia. Qed.

(** ** The steps *)

Lemma add_samples t0 s rec : samplesInv t0 s -> as_added s + 1 < 2 ^ 63 ->
  samplesInv t0 (mkAccState (AddMetric parseAttributes marshalAttributes decodeHist interval rec (as_acc s)) (as_inflight s)
                   (as_table s) (as_added s + 1) (as_lost s)).
Proof.
  intros [(Hs & Hp & Hi) Hl Ht Hsum] Hb. unfold AddMetric.
  set (k := metricKeyOf parseAttributes interval rec). set (sl := default _ (ma_slots (as_acc s) !! k)).
  pose proof (rowSamples_nonneg _ Hp). pose proof (rowSamples_nonneg _ Hi). pose proof (mapSum_nonneg ms_count _ Hs).
  assert (0 <= ms_count sl <= mapSum ms_count (ma_slots (as_acc s)) /\
    mapSum ms_count (<[k := foldPoint decodeHist (countPoint sl) rec]> (ma_slots (as_acc s))) =
    mapSum ms_count (ma_slots (as_acc s)) - ms_count sl + ms_count (foldPoint decodeHist (countPoint sl) rec)) as [Hsl Hins].
  { rewrite mapSum_insert. subst sl. destruct (ma_slots (as_acc s) !! k) as [sl|] eqn:Ek; cbn [default from_option newMetricSlot ms_count id].
    - pose proof (Hs k sl Ek). pose proof (mapSum_ge ms_count _ k sl Hs Ek). lia.
    - lia. }
  unfold heldSamples in Hsum.
  assert (ms_count (foldPoint decodeHist (countPoint sl) rec) = ms_count sl + 1) as Hc.
  { rewrite foldPoint_count. cbn [countPoint ms_count]. apply wrap64_id. unfold in_int64. lia. }
  constructor; cbn [as_acc as_inflight as_table as_added as_lost ma_slots ma_pending]; [|done|done|].
  - split_and!; [|done|done]. cbn [as_acc ma_slots]. intros k' sl'. destruct (decide (k' = k)) as [->|Hne].
    + rewrite lookup_insert_eq. intros [= <-]. lia.
    + rewrite lookup_insert_ne by done. apply Hs.
  - unfold heldSamples. cbn [as_acc as_inflight ma_slots ma_pending]. rewrite Hins, Hc. lia.
Qed.

Lemma begin_samples t0 s now rows a : samplesInv t0 s -> as_inflight s = None ->
  takeClosed encodeHist now interval (as_acc s) = (rows, a) ->
  samplesInv t0 (mkAccState a (Some (rows, now)) (as_table s) (as_added s) (as_lost s)).
Proof.
  destruct s as [acc infl t n l]. cbn [as_acc as_inflight as_table as_added as_lost].
  intros [(Hs & Hp & Hi) Hl Ht Hsum] -> [= <- <-]. cbn [as_acc as_inflight as_table as_added as_lost] in *. rewrite held_none in Hsum.
  constructor; [|done|done|].
  - split_and!; cbn [as_acc as_inflight ma_slots ma_pending].
    + intros k sl [Hk _]%map_lookup_filter_Some. by apply (Hs k).
    + constructor.
    + apply Forall_app. split; [done|]. apply slots_nonneg. intros k sl [Hk _]%map_lookup_filter_Some. by apply (Hs k).
  - cbn [as_table as_added as_lost]. rewrite held_some. cbn [ma_slots ma_pending].
    assert (mapSum ms_count (closedSlots now interval acc) + mapSum ms_count (openSlots now interval acc) = mapSum ms_count (ma_slots acc)) as Hsp
      by exact (mapSum_split (fun kv => kv.1.2 <= now - interval) (ma_slots acc)).
    rewrite rowSamples_app, slotRollups_samples, rowSamples_nil. lia.
Qed.

Lemma retry_nonneg rows now : Forall (fun r => 0 <= mr_Count r) rows ->
  Forall (fun r => 0 <= mr_Count r) (retryRows rows now) /\ rowSamples (retryRows rows now) <= rowSamples rows.
Proof.
  intros Hr. unfold retryRows, rowSamples. split; [apply Forall_forall; intros r [_ Hin]%list_elem_of_filter; rewrite Forall_forall in Hr; by apply Hr|].
  rewrite (sumBy_filter_split mr_Count (fun r => now - metricRetryWindow < mr_Bucket r) rows).
  enough (0 <= sumBy mr_Count (filter (fun r => ~ now - metricRetryWindow < mr_Bucket r) rows)) by lia.
  apply sumBy_nonneg. intros r [_ Hin]%list_elem_of_filter. rewrite Forall_forall in Hr. by apply Hr.
Qed.

Lemma end_samples t0 s oks rows now unwritten t : samplesInv t0 s -> as_inflight s = Some (rows, now) ->
  metricPersist oks rows (as_table s) = (unwritten, t) ->
  samplesInv t0 (mkAccState (finishFlush now unwritten (as_acc s)) None t (as_added s)
    (as_lost s + (rowSamples (default [] unwritten) - rowSamples (retryRows (default [] unwritten) now)))).
Proof.
  destruct s as [acc infl tb n l]. cbn [as_acc as_inflight as_table as_added as_lost].
  intros [(Hs & Hp & Hr) Hl Ht Hsum] -> He. cbn [as_acc as_inflight as_table as_added as_lost] in *. rewrite held_some in Hsum.
  destruct (metricPersist_samples _ _ _ _ _ He) as [E Hn]. destruct (Hn Hr) as [Hu Hle]. destruct (retry_nonneg _ now Hu) as [Hk Hkl].
  constructor; cbn [as_acc as_inflight as_table as_added as_lost]; [|lia|lia|].
  - split_and!; cbn [as_acc as_inflight]; [by destruct unwritten|destruct unwritten; [by apply Forall_app|done]|constructor].
  - rewrite held_none. destruct unwritten as [un|]; cbn [finishFlush keepForRetry ma_slots ma_pending default id] in *.
    + rewrite rowSamples_app. lia.
    + rewrite rowSamples_nil in *. change (retryRows [] now) with (@nil MetricRollup). rewrite rowSamples_nil. lia.
Qed.

Lemma final_samples t0 s oks rows a unwritten t : samplesInv t0 s -> as_inflight s = None ->
  takeAll encodeHist (as_acc s) = (rows, a) -> metricPersist oks rows (as_table s) = (unwritten, t) ->
  samplesInv t0 (mkAccState a None t (as_added s) (as_lost s + rowSamples (default [] unwritten))).
Proof.
  destruct s as [acc infl tb n l]. cbn [as_acc as_inflight as_table as_added as_lost].
  intros [(Hs & Hp & _) Hl Ht Hsum] -> [= <- <-] He. cbn [as_acc as_inflight as_table as_added as_lost] in *. rewrite held_none in Hsum.
  destruct (metricPersist_samples _ _ _ _ _ He) as [E Hn].
  destruct Hn as [Hu Hle]; [apply Forall_app; split; [done|by apply slots_nonneg]|].
  pose proof (rowSamples_nonneg _ Hu). rewrite rowSamples_app, slotRollups_samples in E.
  constructor; cbn [as_acc as_inflight as_table as_added as_lost]; [|lia|lia|].
  - split_and!; cbn; [intros k sl; by rewrite lookup_empty|constructor|constructor].
  - rewrite held_none. cbn [ma_slots ma_pending]. rewrite mapSum_empty, rowSamples_nil. lia.
Qed.

Lemma step_samples t0 s s' : samplesInv t0 s -> accStep s s' -> as_added s' < 2 ^ 63 -> samplesInv t0 s'.
Proof.
  intros Hinv Hstep Hb. destruct Hstep; [by apply add_samples|by apply begin_samples|by eapply end_samples|by eapply final_samples].
Qed.

Lemma steps_added s s' : rtc accStep s s' -> as_added s <= as_added s'.
Proof. induction 1 as [|s s1 s2 H1 _ IH]; [lia|]. inversion H1; subst; cbn in *; lia. Qed.

(** C19: Every metric data point is counted once.  Points are added to the accumulator, also
    while a flush is writing, buckets are flushed, failed chunks are retried and the final
    flush drains everything, in any order and with any chunks of a write failing: as long as
    fewer than 2^63 points were added, the samples in the table, in memory and in the
    rows reported lost add up to those in the table at the start and the points added. *)
Theorem metric_samples_conserved t0 s :
  rtc accStep (mkAccState (mkMetricAcc ∅ []) None t0 0 0) s -> as_added s < 2 ^ 63 ->
  mapSum mr_Count (as_table s) + heldSamples s + as_lost s = mapSum mr_Count t0 + as_added s.
Proof.
  intros Hs Hb. apply (si_sum t0).
  assert (samplesInv t0 (mkAccState (mkMetricAcc ∅ []) None t0 0 0)) as H0.
  { constructor; cbn [as_table as_added as_lost]; [|done|lia|rewrite held_none; cbn [ma_slots ma_pending]; rewrite mapSum_empty, rowSamples_nil; lia].
    split_and!; cbn; [intros k sl; by rewrite lookup_empty|constructor|constructor]. }
  revert H0. induction Hs as [|s s1 s2 H1 Hs IH]; intros H0; [done|]. apply IH; [done|].
  apply (step_samples t0 s); [done|done|]. pose proof (steps_added _ _ Hs). lia.
Qed.

(** ** Late points *)

(** A late data point is written whatever its age.  A point whose bucket has closed is written
    by the next flush, so the row of an hour that closed longer ago than the wait of the
    compactor reaches the 5-minute table too, although [MetricRollupLateWrite] is documented
    as how long past its bucket start a rollup can still be written. *)
Theorem late_point_written rec now :
  let bucket := TruncateToBucket (wrap64 (re_TimeUnixNano rec)) interval in
  let '(rows, _) := takeClosed encodeHist now interval
    (AddMetric parseAttributes marshalAttributes decodeHist interval rec (mkMetricAcc ∅ [])) in
  let '(unwritten, t) := metricPersist [] rows ∅ in
  bucket <= now - interval ->
  unwritten = None /\ exists k r, t !! k = Some r /\ mr_Bucket r = bucket /\ mr_Count r = 1 /\
    (NextBucket (TruncateBucket bucket StepHour) StepHour <= now - MetricRollupLateWrite -> ~ writeOk now r).
Proof.
  cbn zeta. unfold takeClosed, AddMetric. cbn [ma_slots ma_pending]. rewrite lookup_empty. cbn [default].
  set (k := metricKeyOf parseAttributes interval rec). set (sl := foldPoint decodeHist _ rec).
  destruct (metricPersist [] _ ∅) as [unwritten t] eqn:Ep. intros Hb.
  assert (ms_count sl = 1) as Hc by (unfold sl; by rewrite foldPoint_count).
  assert (slotRollups encodeHist (closedSlots now interval (mkMetricAcc (<[k := sl]> ∅) [])) = [metricToRollup encodeHist k sl]) as Er.
  { unfold closedSlots, slotRollups. cbn [ma_slots]. rewrite map_filter_insert_True by done. rewrite map_filter_empty.
    by rewrite insert_empty, map_to_list_singleton. }
  rewrite Er in Ep. cbn [app] in Ep. unfold metricPersist in Ep.
  destruct (UpsertMetricRollups [] [metricToRollup encodeHist k sl] ∅) as [err t1] eqn:Eu.
  apply writeTierRows_spec in Eu as (written & Hperm & -> & He); [|unfold metricRollupChunk; lia].
  rewrite take_nil in He. rewrite (proj2 He) in Ep, Hperm by constructor. injection Ep as <- <-. split; [done|].
  cbn [unwrittenRows] in Hperm. rewrite app_nil_r in Hperm. apply Permutation_singleton_l in Hperm as <-. cbn [foldl].
  exists (finePKOf (metricToRollup encodeHist k sl)), (stored 0 (metricToRollup encodeHist k sl)). split_and!.
  - unfold upsertFine. change (finePKOf (metricToRollup encodeHist k sl)) with (finePKOf (stored 0 (metricToRollup encodeHist k sl))).
    by rewrite upsert_same, lookup_empty.
  - done.
  - cbn [stored mr_Count]. by rewrite metricToRollup_count.
  - intros Hcl Hw. unfold writeOk in Hw. cbn [stored mr_Bucket] in Hw.
    change (mr_Bucket (metricToRollup encodeHist k sl)) with (TruncateToBucket (wrap64 (re_TimeUnixNano rec)) interval) in Hw. lia.
Qed.
End Samples.

(** A point of an hour ago, and a history with a failed flush. *)
Definition demoPoint (t : Z) : MetricRecord := mkMetricRecord 1 "requests" "1" "sum" t 0 (toFloat 7) 0 "cumulative" "a" "".

Lemma metric_samples_conserved_witness :
  exists s, rtc (accStep (fun _ => ∅) (fun _ => None) (fun _ => None) (fun _ => None) (5 * minute))
      (mkAccState (mkMetricAcc ∅ []) None ∅ 0 0) s /\
    as_added s = 2 /\ mapSum mr_Count (as_table s) + heldSamples s + as_lost s = mapSum mr_Count (∅ : gmap finePK MetricRollup) + as_added s.
Proof.
  assert (exists s, rtc (accStep (fun _ => ∅) (fun _ => None) (fun _ => None) (fun _ => None) (5 * minute))
    (mkAccState (mkMetricAcc ∅ []) None ∅ 0 0) s /\ as_added s = 2) as (s & Hs & Hn).
  { eexists. split.
    - eapply rtc_l; [apply (acc_add _ _ _ _ _ _ (demoPoint 0))|]. eapply rtc_l; [by eapply (acc_begin _ _ _ _ _ _ (10 * minute))|].
      eapply rtc_l; [apply (acc_add _ _ _ _ _ _ (demoPoint hour))|].
      eapply rtc_l; [by eapply (acc_end _ _ _ _ _ _ [false])|]. apply rtc_refl.
    - done. }
  exists s. split; [exact Hs|]. split; [exact Hn|]. apply (metric_samples_conserved _ _ _ _ _ ∅ s Hs). by rewrite Hn.
Defined.

Lemma late_point_written_witness :
  exists k r, (metricPersist [] (takeClosed (fun _ => None) (2 * hour) (5 * minute)
      (AddMetric (fun _ => ∅) (fun _ => None) (fun _ => None) (5 * minute) (demoPoint 0) (mkMetricAcc ∅ []))).1 ∅).2 !! k = Some r /\
    mr_Bucket r = 0 /\ ~ writeOk (2 * hour) r.
Proof.
  pose proof (late_point_written (fun _ => ∅) (fun _ => None) (fun _ => None) (fun _ => None) (5 * minute) (demoPoint 0) (2 * hour)) as H.
  cbn zeta in H. destruct (takeClosed _ _ _ _) as [rows a]. cbn [fst]. destruct (metricPersist [] rows ∅) as [unwritten t]. cbn [snd].
  destruct H as (_ & k & r & Hk & Hb & _ & Hw); [by vm_compute|].
  exists k, r. split; [exact Hk|]. split; [exact Hb|]. apply Hw. by vm_compute.
Defined.
