(* ===== verification/MetricRepeats.v ===== *)
(** * Repeated cumulative points ([internal/aggregation/metric_repeats.go])

    The filter holds a point that repeats its stream and writes it just before the stream
    changes.  Every change of a stream thus reaches the raw table with the point right before
    it. *)
From S2P Require Import Prelude Float64 MetricAccumulator.

#[export] Instance MetricRecord_eq_dec : EqDecision MetricRecord.
Proof. solve_decision. Defined.

(** [repeatSeries] and [repeatKey] *)
Abbreviation repeatSeries := (Z * string * string)%type.

Abbreviation repeatKey := (repeatSeries * Z)%type.

(** [repeatStream]; [held] is nil or the last point. *)
Record repeatStream := mkStream {
  rs_value : float64;
  rs_count : Z;
  rs_extra : string;
  rs_written : Z;
  rs_held : option MetricRecord;
  rs_seen : Z;
}.

(** [MetricRepeatFilter]; the clock is an argument of the operations. *)
Record MetricRepeatFilter := mkFilter {
  rf_heartbeat : Z;
  rf_streams : gmap repeatKey repeatStream;
  rf_starts : gmap repeatSeries (list Z);
  rf_lastSweep : Z;
}.

(** [time.Time{}] *)
Definition noSweep : Z := -62135596800 * second.

(** [NewMetricRepeatFilter]; [None] is nil. *)
Definition NewMetricRepeatFilter (heartbeat : Z) : option MetricRepeatFilter :=
  if heartbeat <=? 0 then None else Some (mkFilter heartbeat ∅ ∅ noSweep).

(** [repeatFiltered] *)
Definition repeatFiltered (rec : MetricRecord) : bool :=
  bool_decide (re_Temporality rec = "cumulative"%string) && negb (re_StartTimeUnixNano rec =? 0) &&
  bool_decide (re_Type rec ∈ [MetricTypeSum; MetricTypeHistogram; MetricTypeExponentialHistogram]).

Definition repeatSeriesOf (rec : MetricRecord) : repeatSeries := (re_ProjectID rec, re_Name rec, re_Attributes rec).

Definition repeatKeyOf (rec : MetricRecord) : repeatKey := (repeatSeriesOf rec, re_StartTimeUnixNano rec).

(** A turn of the loop of [release].  A start without a stream would be a nil dereference. *)
Definition releaseOne (series : repeatSeries) (st : list MetricRecord * gmap repeatKey repeatStream) (start : Z)
  : list MetricRecord * gmap repeatKey repeatStream :=
  let '(out, streams) := st in
  match streams !! (series, start) with
  | Some s =>
      match rs_held s with
      | Some h => (out ++ [h], <[(series, start) := mkStream (rs_value s) (rs_count s) (rs_extra s) (re_TimeUnixNano h) None (rs_seen s)]> streams)
      | None => (out, streams)
      end
  | None => (out, streams)
  end.

(** [release] *)
Definition release (f : MetricRepeatFilter) (out : list MetricRecord) (series : repeatSeries)
  : list MetricRecord * gmap repeatKey repeatStream :=
  foldl (releaseOne series) (out, rf_streams f) (default [] (rf_starts f !! series)).

(** The comparison of [keep]. *)
Definition repeats (s : repeatStream) (rec : MetricRecord) : bool :=
  (rs_value s =? re_Value rec)%f64 && (rs_count s =? re_Count rec) && bool_decide (rs_extra s = re_Extra rec).

Definition setStreams (streams : gmap repeatKey repeatStream) (f : MetricRepeatFilter) : MetricRepeatFilter :=
  mkFilter (rf_heartbeat f) streams (rf_starts f) (rf_lastSweep f).

(** [keep] *)
Definition keep (rec : MetricRecord) (now : Z) (st : list MetricRecord * MetricRepeatFilter)
  : list MetricRecord * MetricRepeatFilter :=
  let '(out, f) := st in
  if negb (repeatFiltered rec) then (out ++ [rec], f)
  else
    let series := repeatSeriesOf rec in
    let key := repeatKeyOf rec in
    match rf_streams f !! key with
    | None =>
        let '(out, streams) := release f out series in
        (out ++ [rec],
         mkFilter (rf_heartbeat f)
           (<[key := mkStream (re_Value rec) (re_Count rec) (re_Extra rec) (re_TimeUnixNano rec) None now]> streams)
           (<[series := default [] (rf_starts f !! series) ++ [re_StartTimeUnixNano rec]]> (rf_starts f)) (rf_lastSweep f))
    | Some s =>
        if repeats s rec then
          if wrapU64 (rs_written s + rf_heartbeat f) <=? re_TimeUnixNano rec then
            (out ++ [rec], setStreams (<[key := mkStream (rs_value s) (rs_count s) (rs_extra s) (re_TimeUnixNano rec) None now]> (rf_streams f)) f)
          else
            (out, setStreams (<[key := mkStream (rs_value s) (rs_count s) (rs_extra s) (rs_written s) (Some rec) now]> (rf_streams f)) f)
        else
          (out ++ option_list (rs_held s) ++ [rec],
           setStreams (<[key := mkStream (re_Value rec) (re_Count rec) (re_Extra rec) (re_TimeUnixNano rec) None now]> (rf_streams f)) f)
    end.

(** The idle time of [sweep], a [time.Duration]. *)
Definition sweepIdle (f : MetricRepeatFilter) : Z := wrap64 (3 * wrap64 (rf_heartbeat f)).

(** The streams [sweep] forgets. *)
Definition idleStream (f : MetricRepeatFilter) (now : Z) (s : repeatStream) : bool := sweepIdle f <=? sat64 (now - rs_seen s).

(** [sweep] *)
Definition sweep (now : Z) (f : MetricRepeatFilter) : MetricRepeatFilter :=
  if sat64 (now - rf_lastSweep f) <? sweepIdle f then f
  else
    let gone := filter (fun ks => idleStream f now ks.2 = true) (rf_streams f) in
    mkFilter (rf_heartbeat f) (filter (fun ks => idleStream f now ks.2 = false) (rf_streams f))
      (map_imap (fun series starts =>
         match filter (fun start => gone !! (series, start) = None) starts with
         | [] => None
         | starts => Some starts
         end) (rf_starts f)) now.

(** [Keep] *)
Definition Keep (f : option MetricRepeatFilter) (recs : list MetricRecord) (now : Z)
  : list MetricRecord * option MetricRepeatFilter :=
  match f with
  | None => (recs, None)
  | Some f => let '(out, f) := foldl (fun st rec => keep rec now st) ([], f) recs in (out, Some (sweep now f))
  end.

(** ** The repeat filter keeps every change

    As long as a stream is not forgotten, the points written for it have the same changes as the
    points received: each with the same point right before it. *)

(** ** Equality of floats *)

Lemma eqb_cases x y : (x =? y)%f64 = true -> x = y /\ notNaN x \/ exists s t, x = S754_zero s /\ y = S754_zero t.
Proof.
  unfold SFeqb. destruct x as [s|s| |s m e], y as [t|t| |t n d]; cbn; try done; try (by destruct s); try (by destruct t).
  - intros _. right. by exists s, t.
  - destruct s, t; try done; intros _; by left.
  - assert (Pos.compare_cont Eq m n = Eq -> m = n) as Hm by apply Pos.compare_eq.
    destruct s, t; try done; destruct (Z.compare_spec e d) as [->| |]; try done;
      destruct (Pos.compare_cont Eq m n) eqn:E; cbn; try done; intros _; rewrite (Hm eq_refl); by left.
Qed.

Lemma eqb_refl x : notNaN x -> (x =? x)%f64 = true.
Proof.
  unfold SFeqb. destruct x as [s|s| |s m e]; cbn; try done; [by destruct s|].
  assert (Pos.compare_cont Eq m m = Eq) as Hm by apply Pos.compare_refl. destruct s; by rewrite Z.compare_refl, Hm.
Qed.

Lemma eqb_sym x y : (x =? y)%f64 = true -> (y =? x)%f64 = true.
Proof. intros [[-> ?]|(s & t & -> & ->)]%eqb_cases; [by apply eqb_refl|done]. Qed.

Lemma eqb_trans x y z : (x =? y)%f64 = true -> (y =? z)%f64 = true -> (x =? z)%f64 = true.
Proof.
  intros Hx. destruct (eqb_cases _ _ Hx) as [[-> _]|(s & t & -> & ->)]; [done|].
  intros [[<- _]|(t' & u & _ & ->)]%eqb_cases; done.
Qed.

(** ** Changes *)

(** Two points with the same payload. *)
Definition same (a b : MetricRecord) : bool :=
  (re_Value a =? re_Value b)%f64 && (re_Count a =? re_Count b) && bool_decide (re_Extra a = re_Extra b).

(** The changes of a list of points: two neighbours with different payloads. *)
Fixpoint changes (l : list MetricRecord) : list (MetricRecord * MetricRecord) :=
  match l with
  | a :: (b :: _) as l' => (if same a b then [] else [(a, b)]) ++ changes l'
  | _ => []
  end.

Lemma changes_snoc l x : changes (l ++ [x]) =
  changes l ++ match last l with Some y => if same y x then [] else [(y, x)] | None => [] end.
Proof.
  induction l as [|a [|b l] IH]; [done|cbn; by destruct (same a x)|].
  change (changes ((a :: b :: l) ++ [x])) with ((if same a b then [] else [(a, b)]) ++ changes ((b :: l) ++ [x])).
  rewrite IH. change (changes (a :: b :: l)) with ((if same a b then [] else [(a, b)]) ++ changes (b :: l)).
  by rewrite <- app_assoc.
Qed.

Lemma option_list_some {A} (x : A) : option_list (Some x) = [x].
Proof. done. Qed.

Lemma option_list_none {A} : option_list (@None A) = [].
Proof. done. Qed.

(** A stream stands for a point. *)
Definition standsFor (s : repeatStream) (y : MetricRecord) : Prop :=
  (rs_value s = re_Value y \/ (rs_value s =? re_Value y)%f64 = true) /\ rs_count s = re_Count y /\ rs_extra s = re_Extra y.

Lemma standsFor_repeats s y r : standsFor s y -> repeats s r = same y r.
Proof.
  intros (Hv & Hc & He). unfold repeats, same. rewrite Hc, He. do 2 f_equal.
  destruct Hv as [->|Hv]; [done|]. apply eq_true_iff_eq. split; intros H.
  - eapply eqb_trans; [|exact H]. by apply eqb_sym.
  - by eapply eqb_trans.
Qed.

Lemma repeats_standsFor s r : repeats s r = true -> standsFor s r.
Proof.
  unfold repeats, standsFor. intros [[Hv Hc%Z.eqb_eq]%andb_prop He%bool_decide_eq_true]%andb_prop. by split_and!; [right| |].
Qed.

Lemma standsFor_same s y r : standsFor s y -> repeats s r = true -> same y r = true.
Proof. intros Hy <-. symmetry. by apply standsFor_repeats. Qed.

Section Stream.
Context (K : repeatKey).

(** The points of the stream. *)
Definition mine (r : MetricRecord) : Prop := repeatFiltered r = true /\ repeatKeyOf r = K.

#[export] Instance mine_dec r : Decision (mine r).
Proof. unfold mine. apply _. Defined.

(** The points received and written for the stream, with the one held. *)
Definition tracks (hb : Z) (h o : list MetricRecord) (st : option repeatStream) : Prop :=
  match st with
  | None => h = [] /\ o = []
  | Some s =>
      changes h = changes (o ++ option_list (rs_held s)) /\ last h = last (o ++ option_list (rs_held s)) /\
      (o ++ option_list (rs_held s)) `sublist_of` h /\
      (exists q, last o = Some q /\ standsFor s q /\ rs_written s = re_TimeUnixNano q) /\
      (forall p, rs_held s = Some p -> repeats s p = true /\ re_TimeUnixNano p < wrapU64 (rs_written s + hb))
  end.

(** The last point, written or held, has the payload of the stream. *)
Lemma tracks_last hb h o s : tracks hb h o (Some s) -> exists y, last h = Some y /\ standsFor s y.
Proof.
  intros (_ & Hl & _ & (q & Hq & Hsq & _) & Hheld). rewrite Hl. destruct (rs_held s) as [p|].
  - exists p. rewrite option_list_some, last_snoc. split; [done|]. apply repeats_standsFor, (Hheld p eq_refl).
  - exists q. by rewrite option_list_none, app_nil_r.
Qed.

(** A repeat leaves no change, written or held. *)
Lemma tracks_repeat hb h o s r : tracks hb h o (Some s) -> repeats s r = true -> changes (h ++ [r]) = changes (o ++ [r]).
Proof.
  intros Ht Hr. destruct (tracks_last _ _ _ _ Ht) as (y & Hy & Hsy). destruct Ht as (Hc & _ & _ & (q & Hq & Hsq & _) & Hheld).
  rewrite changes_snoc, Hy, (standsFor_same _ _ _ Hsy Hr), app_nil_r, Hc, changes_snoc, Hq, (standsFor_same _ _ _ Hsq Hr), app_nil_r.
  destruct (rs_held s) as [p|]; [|by rewrite option_list_none, app_nil_r].
  by rewrite option_list_some, changes_snoc, Hq, (standsFor_same _ _ _ Hsq (proj1 (Hheld p eq_refl))), app_nil_r.
Qed.

Lemma tracks_written hb h o s r now : tracks hb h o (Some s) -> repeats s r = true ->
  tracks hb (h ++ [r]) (o ++ [r]) (Some (mkStream (rs_value s) (rs_count s) (rs_extra s) (re_TimeUnixNano r) None now)).
Proof.
  intros Ht Hr. pose proof (tracks_repeat _ _ _ _ _ Ht Hr) as Hc. destruct Ht as (_ & _ & Hsub & _). unfold tracks. cbn [rs_held rs_written].
  rewrite option_list_none, app_nil_r, !last_snoc. split_and!; try done.
  - apply sublist_app; [|done]. etrans; [|exact Hsub]. apply sublist_inserts_r. done.
  - exists r. split_and!; [done| |done]. by apply repeats_standsFor in Hr.
Qed.

Lemma tracks_held hb h o s r now : tracks hb h o (Some s) -> repeats s r = true ->
  re_TimeUnixNano r < wrapU64 (rs_written s + hb) ->
  tracks hb (h ++ [r]) o (Some (mkStream (rs_value s) (rs_count s) (rs_extra s) (rs_written s) (Some r) now)).
Proof.
  intros Ht Hr Hlt. pose proof (tracks_repeat _ _ _ _ _ Ht Hr) as Hc. destruct Ht as (_ & _ & Hsub & Hq & _). unfold tracks. cbn [rs_held rs_written].
  rewrite option_list_some, !last_snoc. split_and!; try done.
  - apply sublist_app; [|done]. etrans; [|exact Hsub]. apply sublist_inserts_r. done.
  - by intros p [= <-].
Qed.

Lemma tracks_changed hb h o s r now : tracks hb h o (Some s) -> repeats s r = false ->
  tracks hb (h ++ [r]) (o ++ option_list (rs_held s) ++ [r])
    (Some (mkStream (re_Value r) (re_Count r) (re_Extra r) (re_TimeUnixNano r) None now)).
Proof.
  intros (Hc & Hl & Hsub & _) Hr. unfold tracks. cbn [rs_held rs_written].
  rewrite option_list_none, app_nil_r, app_assoc, !changes_snoc, Hc, <- Hl, !last_snoc. split_and!; try done.
  - by apply sublist_app.
  - exists r. split_and!; try done. by split; [left|].
Qed.

Lemma tracks_released hb h o s p : tracks hb h o (Some s) -> rs_held s = Some p ->
  tracks hb h (o ++ [p]) (Some (mkStream (rs_value s) (rs_count s) (rs_extra s) (re_TimeUnixNano p) None (rs_seen s))).
Proof.
  intros (Hc & Hl & Hsub & _ & Hheld) Hp. rewrite Hp, option_list_some in *. unfold tracks. cbn [rs_held rs_written].
  rewrite option_list_none, app_nil_r. split_and!; try done. exists p. rewrite last_snoc. split_and!; try done.
  apply (repeats_standsFor s p), (Hheld p eq_refl).
Qed.

(** ** Releasing the streams of a series *)

Definition heldOk (streams : gmap repeatKey repeatStream) : Prop :=
  forall k s p, streams !! k = Some s -> rs_held s = Some p -> repeatFiltered p = true /\ repeatKeyOf p = k.

Lemma heldOk_insert streams k s : heldOk streams ->
  (forall p, rs_held s = Some p -> repeatFiltered p = true /\ repeatKeyOf p = k) -> heldOk (<[k := s]> streams).
Proof.
  intros Hh Hs k' s' p. destruct (decide (k' = k)) as [->|Hne]; [rewrite lookup_insert_eq; intros [= <-]; apply Hs|].
  rewrite lookup_insert_ne by done. apply Hh.
Qed.

(** A step of the loops keeps the history of the stream. *)
Definition follows (hb : Z) (streams streams' : gmap repeatKey repeatStream) (out out' : list MetricRecord) : Prop :=
  heldOk streams -> heldOk streams' /\ (forall k, is_Some (streams' !! k) <-> is_Some (streams !! k)) /\
  forall h o, tracks hb h (o ++ filter mine out) (streams !! K) -> tracks hb h (o ++ filter mine out') (streams' !! K).

Lemma releaseOne_follows hb series start out streams :
  let '(out', streams') := releaseOne series (out, streams) start in follows hb streams streams' out out'.
Proof.
  unfold releaseOne. destruct (streams !! (series, start)) as [s|] eqn:Es; [|done].
  destruct (rs_held s) as [p|] eqn:Ep; [|done]. intros Hh. destruct (Hh _ _ _ Es Ep) as [Hfp Hkp]. split_and!.
  - by apply heldOk_insert.
  - intros k. destruct (decide (k = (series, start))) as [->|Hne]; [rewrite lookup_insert_eq, Es; split; eauto|].
    by rewrite lookup_insert_ne.
  - intros h o Ht. rewrite filter_app, filter_cons, filter_nil. destruct (decide (K = (series, start))) as [E|Hne].
    + rewrite decide_True by (split; [done|congruence]). rewrite E, lookup_insert_eq, app_assoc. rewrite E, Es in Ht.
      by apply tracks_released.
    + rewrite decide_False by (intros [_ ?]; congruence). rewrite app_nil_r, lookup_insert_ne by done. done.
Qed.

Lemma releaseAll_follows hb series starts : forall out streams,
  let '(out', streams') := foldl (releaseOne series) (out, streams) starts in follows hb streams streams' out out'.
Proof.
  induction starts as [|start starts IH]; intros out streams; [done|]. cbn [foldl].
  pose proof (releaseOne_follows hb series start out streams) as H1. destruct (releaseOne series (out, streams) start) as [out1 streams1].
  specialize (IH out1 streams1). destruct (foldl _ (out1, streams1) starts) as [out2 streams2].
  intros Hh. destruct (H1 Hh) as (Hh1 & Hk1 & Ht1). destruct (IH Hh1) as (Hh2 & Hk2 & Ht2).
  split_and!; [done| |eauto]. intros k. by rewrite Hk2, Hk1.
Qed.

(** ** A point, a sweep, a batch *)

(** What is held belongs to its stream, and every listed start has a stream. *)
Record filterOk (f : MetricRepeatFilter) : Prop := {
  fo_held : heldOk (rf_streams f);
  fo_starts : forall series starts start, rf_starts f !! series = Some starts -> start ∈ starts ->
    is_Some (rf_streams f !! (series, start));
}.

Lemma filterOk_insert f k s : filterOk f -> is_Some (rf_streams f !! k) ->
  (forall p, rs_held s = Some p -> repeatFiltered p = true /\ repeatKeyOf p = k) ->
  filterOk (setStreams (<[k := s]> (rf_streams f)) f).
Proof.
  intros [Hh Hs] Hk Hp. split; cbn; [by apply heldOk_insert|].
  intros series starts start Hl Hin. apply lookup_insert_is_Some'. right. eauto.
Qed.

Lemma keep_ok rec now out f : filterOk f ->
  let '(_, f') := keep rec now (out, f) in filterOk f' /\ rf_heartbeat f' = rf_heartbeat f.
Proof.
  intros Hok. unfold keep. destruct (repeatFiltered rec) eqn:Ef; cbn [negb]; [|done].
  destruct (rf_streams f !! repeatKeyOf rec) as [s|] eqn:Es.
  - destruct (repeats s rec) eqn:Er; [destruct (_ <=? re_TimeUnixNano rec)|]; (split; [|done]); apply filterOk_insert; eauto; try done.
    by intros p [= <-].
  - unfold release. pose proof (releaseAll_follows 0 (repeatSeriesOf rec) (default [] (rf_starts f !! repeatSeriesOf rec)) out (rf_streams f)) as Hr.
    destruct (foldl _ _ _) as [out1 streams1]. destruct Hok as [Hh Hs]. destruct (Hr Hh) as (Hh1 & Hk1 & _).
    split; [|done]. split; cbn; [by apply heldOk_insert|]. intros series starts start Hl Hin. apply lookup_insert_is_Some'.
    destruct (decide (series = repeatSeriesOf rec)) as [->|Hne].
    + rewrite lookup_insert_eq in Hl. injection Hl as <-. apply elem_of_app in Hin as [Hin|Hin%list_elem_of_singleton].
      * right. apply Hk1. destruct (rf_starts f !! repeatSeriesOf rec) as [l|] eqn:El; [|by apply elem_of_nil in Hin]. eauto.
      * left. by subst start.
    + rewrite lookup_insert_ne in Hl by done. right. apply Hk1. eauto.
Qed.

Lemma keep_tracks rec now out f h o : filterOk f ->
  tracks (rf_heartbeat f) h (o ++ filter mine out) (rf_streams f !! K) ->
  let '(out', f') := keep rec now (out, f) in
  tracks (rf_heartbeat f) (h ++ filter mine [rec]) (o ++ filter mine out') (rf_streams f' !! K).
Proof.
  intros [Hh Hs] Ht. unfold keep. destruct (repeatFiltered rec) eqn:Ef; cbn [negb].
  2:{ rewrite filter_app, !(filter_cons _ rec), filter_nil, decide_False, !app_nil_r by (intros [? _]; congruence). done. }
  assert (repeatKeyOf rec <> K -> filter mine [rec] = []) as Hother.
  { intros Hne. by rewrite filter_cons, decide_False, filter_nil by (by intros [_ ?]). }
  assert (repeatKeyOf rec = K -> filter mine [rec] = [rec]) as Hsame.
  { intros E. by rewrite filter_cons, decide_True, filter_nil by (by split). }
  destruct (rf_streams f !! repeatKeyOf rec) as [s|] eqn:Es.
  - assert (repeatKeyOf rec <> K -> filter mine (option_list (rs_held s)) = []) as Hotherheld.
    { intros Hne. destruct (rs_held s) as [p|] eqn:Ep; [|done]. rewrite option_list_some, filter_cons, decide_False, filter_nil; [done|].
      intros [_ ?]. destruct (Hh _ _ _ Es Ep). congruence. }
    assert (repeatKeyOf rec = K -> filter mine (option_list (rs_held s)) = option_list (rs_held s)) as Hsameheld.
    { intros E. destruct (rs_held s) as [p|] eqn:Ep; [|done]. destruct (Hh _ _ _ Es Ep).
      by rewrite option_list_some, filter_cons, decide_True, filter_nil by (split; congruence). }
    destruct (decide (repeatKeyOf rec = K)) as [E|Hne].
    + rewrite <- E, Es in Ht.
      destruct (repeats s rec) eqn:Er; [destruct (_ <=? re_TimeUnixNano rec) eqn:Ew|]; unfold setStreams; cbn [rf_streams]; rewrite ?filter_app, E, lookup_insert_eq, (Hsame E), ?(Hsameheld E), ?app_assoc.
      * by apply tracks_written.
      * apply Z.leb_gt in Ew. by apply tracks_held.
      * rewrite <- (app_assoc (o ++ _)). by apply tracks_changed.
    + destruct (repeats s rec) eqn:Er; [destruct (_ <=? re_TimeUnixNano rec) eqn:Ew|]; unfold setStreams; cbn [rf_streams];
        rewrite ?filter_app, lookup_insert_ne, (Hother Hne), ?(Hotherheld Hne), ?app_nil_r by done; done.
  - unfold release. pose proof (releaseAll_follows (rf_heartbeat f) (repeatSeriesOf rec) (default [] (rf_starts f !! repeatSeriesOf rec)) out (rf_streams f)) as Hr.
    destruct (foldl _ _ _) as [out1 streams1]. destruct (Hr Hh) as (_ & Hk1 & Ht1). apply Ht1 in Ht. cbn [rf_streams].
    rewrite filter_app, app_assoc. destruct (decide (repeatKeyOf rec = K)) as [E|Hne].
    + rewrite E, lookup_insert_eq, (Hsame E). assert (streams1 !! K = None) as Hnone.
      { apply eq_None_not_Some. rewrite Hk1, <- E, Es. by apply is_Some_None. }
      rewrite Hnone in Ht. destruct Ht as [-> ->]. unfold tracks. cbn. split_and!; try done. exists rec. split_and!; try done. by split; [left|].
    + by rewrite lookup_insert_ne, (Hother Hne), !app_nil_r.
Qed.

Lemma sweep_ok now f : filterOk f -> filterOk (sweep now f) /\ rf_heartbeat (sweep now f) = rf_heartbeat f.
Proof.
  intros [Hh Hs]. unfold sweep. destruct (_ <? _); [done|]. split; [|done]. split; cbn [rf_streams rf_starts].
  - intros k s p [Hk _]%map_lookup_filter_Some. by apply Hh.
  - intros series starts start. rewrite map_lookup_imap. destruct (rf_starts f !! series) as [l|] eqn:El; [|done]. cbn.
    intros Hl Hin. set (left := filter (fun start => filter (fun ks => idleStream f now ks.2 = true) (rf_streams f) !! (series, start) = None) l) in Hl.
    assert (start ∈ left) as Hleft by (destruct left; [done|by injection Hl as <-]).
    apply list_elem_of_filter in Hleft as [Hgone Hin'].
    destruct (Hs _ _ _ El Hin') as [s Es]. exists s. apply map_lookup_filter_Some. split; [done|].
    destruct (idleStream f now s) eqn:Ei; [|done]. by rewrite (proj2 (map_lookup_filter_Some _ _ _ _) (conj Es Ei)) in Hgone.
Qed.

Lemma sweep_keeps now f : is_Some (rf_streams (sweep now f) !! K) -> rf_streams (sweep now f) !! K = rf_streams f !! K.
Proof.
  unfold sweep. destruct (_ <? _); [done|]. cbn [rf_streams]. intros [s Hs]. rewrite Hs.
  by apply map_lookup_filter_Some in Hs as [-> _].
Qed.

Lemma batch_tracks now recs : forall out f h o, filterOk f ->
  tracks (rf_heartbeat f) h (o ++ filter mine out) (rf_streams f !! K) ->
  let '(out', f') := foldl (fun st rec => keep rec now st) (out, f) recs in
  filterOk f' /\ rf_heartbeat f' = rf_heartbeat f /\
  tracks (rf_heartbeat f) (h ++ filter mine recs) (o ++ filter mine out') (rf_streams f' !! K).
Proof.
  induction recs as [|rec recs IH]; intros out f h o Hok Ht; [cbn; by rewrite app_nil_r|]. cbn [foldl].
  pose proof (keep_ok rec now out f Hok) as H1. pose proof (keep_tracks rec now out f h o Hok Ht) as H2.
  destruct (keep rec now (out, f)) as [out1 f1]. destruct H1 as [Hok1 Hb1]. rewrite <- Hb1 in H2.
  specialize (IH out1 f1 _ o Hok1 H2). destruct (foldl _ (out1, f1) recs) as [out2 f2]. destruct IH as (Hok2 & Hb2 & Ht2).
  rewrite Hb1 in *. split_and!; try done. by rewrite <- (app_assoc h), <- filter_app in Ht2.
Qed.

(** The filter after a sequence of batches, with the points received and written for the stream since
    it was last forgotten. *)
Inductive filterRun : MetricRepeatFilter -> list MetricRecord -> list MetricRecord -> Prop :=
| run_new heartbeat f : NewMetricRepeatFilter heartbeat = Some f -> filterRun f [] []
| run_keep f h o recs now out f' : filterRun f h o -> Keep (Some f) recs now = (out, Some f') ->
    is_Some (rf_streams f' !! K) -> filterRun f' (h ++ filter mine recs) (o ++ filter mine out)
| run_forget f h o recs now out f' : filterRun f h o -> Keep (Some f) recs now = (out, Some f') ->
    rf_streams f' !! K = None -> filterRun f' [] [].

Lemma filterRun_tracks f h o : filterRun f h o -> filterOk f /\ tracks (rf_heartbeat f) h o (rf_streams f !! K).
Proof.
  assert (forall f recs now out f' h o, filterOk f -> tracks (rf_heartbeat f) h o (rf_streams f !! K) ->
    Keep (Some f) recs now = (out, Some f') -> filterOk f' /\ (is_Some (rf_streams f' !! K) ->
    tracks (rf_heartbeat f') (h ++ filter mine recs) (o ++ filter mine out) (rf_streams f' !! K))) as Hstep.
  { intros f0 recs now out f' h0 o0 Hok Ht. unfold Keep. rewrite <- (app_nil_r o0) in Ht.
    pose proof (batch_tracks now recs [] f0 h0 o0 Hok Ht) as Hb. destruct (foldl _ ([], f0) recs) as [out1 f1]. destruct Hb as (Hok1 & Hb1 & Ht1).
    intros [= <- <-]. destruct (sweep_ok now f1 Hok1) as [Hok2 Hb2]. split; [done|]. intros Hk. by rewrite Hb2, Hb1, (sweep_keeps _ _ Hk). }
  induction 1 as [hb f Hnew|f h o recs now out f' _ [Hok Ht] Hk Hsome|f h o recs now out f' _ [Hok Ht] Hk Hnone].
  - unfold NewMetricRepeatFilter in Hnew. destruct (hb <=? 0); [done|]. injection Hnew as <-. split; [|cbn [rf_streams]; by rewrite lookup_empty].
    split; [intros k s p|intros series starts start]; cbn [rf_streams rf_starts]; by rewrite lookup_empty.
  - destruct (Hstep _ _ _ _ _ _ _ Hok Ht Hk) as [? ?]. by split; [|auto].
  - destruct (Hstep _ _ _ _ _ _ _ Hok Ht Hk) as [? ?]. rewrite Hnone. done.
Qed.
End Stream.

(** C20: The repeat filter loses no change.  In every state the filter reaches by batches of points from any
    series, at any clock readings, for every stream it still knows: the points written for the stream, followed by the
    point it holds, are points received for it, in the order received; they have exactly the changes the received points have, each
    change with the same point right before it; and a held point comes less than one heartbeat after the
    last point written.  Every start time listed for a series has a stream, so writing out the held points of a
    restarted series never follows a nil pointer. *)
Theorem repeats_keep_changes K f h o s : filterRun K f h o -> rf_streams f !! K = Some s ->
  (o ++ option_list (rs_held s)) `sublist_of` h /\ changes (o ++ option_list (rs_held s)) = changes h /\
  (forall p, rs_held s = Some p -> exists q, last o = Some q /\ re_TimeUnixNano p < wrapU64 (re_TimeUnixNano q + rf_heartbeat f)) /\
  (forall series starts start, rf_starts f !! series = Some starts -> start ∈ starts -> is_Some (rf_streams f !! (series, start))).
Proof.
  intros [[_ Hs] Ht]%filterRun_tracks E. rewrite E in Ht. destruct Ht as (Hc & _ & Hsub & (q & Hq & _ & Hw) & Hheld).
  split_and!; try done. intros p Hp. exists q. destruct (Hheld p Hp) as [_ Hlt]. by rewrite Hw in Hlt.
Qed.

(** A counter: two repeats, a change, a repeat; then its process restarts. *)
Definition demoRepeat (start at_ : Z) (v : float64) : MetricRecord :=
  mkMetricRecord 1 "requests" "1" MetricTypeSum at_ start v 0 "cumulative" "{}" "".

Definition demoBatch : list MetricRecord :=
  [demoRepeat 1 100 (toFloat 3); demoRepeat 1 200 (toFloat 3); demoRepeat 1 300 (toFloat 3); demoRepeat 1 400 (toFloat 5); demoRepeat 1 500 (toFloat 5)].

Definition demoKey : repeatKey := ((1, "requests"%string, "{}"%string), 1).

Definition demoFilter : MetricRepeatFilter := mkFilter 1000 ∅ ∅ noSweep.

Definition demoKept : list MetricRecord * MetricRepeatFilter := foldl (fun st rec => keep rec 7 st) ([], demoFilter) demoBatch.

(** The points at 300 (held when the change came), 100 and 400 are written; the one at 500 is held. *)
Lemma demoKept_times : re_TimeUnixNano <$> demoKept.1 = [100; 300; 400] /\
  (re_TimeUnixNano <$> filter (mine demoKey) demoKept.1) = [100; 300; 400] /\
  (rf_streams (sweep 7 demoKept.2) !! demoKey) ≫= rs_held = Some (demoRepeat 1 500 (toFloat 5)).
Proof. vm_compute. done. Qed.

Lemma repeats_keep_changes_witness : exists f h o s, filterRun demoKey f h o /\ rf_streams f !! demoKey = Some s /\
  length h = 5%nat /\ length o = 3%nat /\ (o ++ option_list (rs_held s)) `sublist_of` h /\
  changes (o ++ option_list (rs_held s)) = changes h.
Proof.
  destruct (rf_streams (sweep 7 demoKept.2) !! demoKey) as [s|] eqn:Es; [|vm_compute in Es; discriminate Es].
  assert (filterRun demoKey (sweep 7 demoKept.2) ([] ++ filter (mine demoKey) demoBatch) ([] ++ filter (mine demoKey) demoKept.1)) as Hrun.
  { apply (run_keep demoKey demoFilter [] [] demoBatch 7); [by apply (run_new demoKey 1000)|vm_compute; reflexivity|by exists s]. }
  destruct (repeats_keep_changes demoKey _ _ _ s Hrun Es) as (Hsub & Hc & _).
  eexists _, _, _, s. split; [exact Hrun|]. split; [exact Es|]. split; [vm_compute; reflexivity|]. split; [vm_compute; reflexivity|].
  split; [exact Hsub|exact Hc].
Defined.
