(* ===== verification/Aggregates.v ===== *)
(** * Per-operation aggregates ([internal/aggregation/accumulator.go], [aggregator.go],
    [percentile.go]; [repository/repo_aggregates.go], [percentile_weighted.go])

    The accumulator folds every span into a slot of its operation and bucket and writes all
    slots with each flush; the aggregator does the same to a batch of spans at once.  Go leaves
    the order in which it ranges over a map open; rows come here in the order of
    [map_to_list]. *)
From S2P Require Import Prelude Model TierStore DurationStats SlotFlush SpanEdges Float64.
From S2P Require Import MetricAccumulator.

(** [repository.Aggregate], without its row id; times are nanoseconds. *)
Record Aggregate := mkAggregate {
  ag_ProjectID : Z;
  ag_Service : string;
  ag_Operation : string;
  ag_Resource : string;
  ag_Kind : string;
  ag_Bucket : Z;
  ag_Count : Z;
  ag_ErrorCount : Z;
  ag_P50Us : Z;
  ag_P95Us : Z;
  ag_P99Us : Z;
  ag_MaxUs : Z;
  ag_SumDurationUs : Z;
  ag_WeightedCount : Z;
  ag_WeightedSpans : Z;
}.

(** [accKey]: project, service, operation, resource, kind and bucket. *)
Abbreviation accKey := (Z * string * string * string * string * Z)%type.

(** [accSlot] *)
Record accSlot := mkAccSlot {
  os_count : Z;
  os_errorCount : Z;
  os_durations : list Z;
  os_sampleWeights : list Z;
  os_weights : spanWeights;
}.

Definition zeroAccSlot : accSlot := mkAccSlot 0 0 [] [] (mkSpanWeights 0 0).

(** ** Percentiles *)

Definition half : float64 := literal 1 2.

(** [math.Ceil] of a finite value. *)
Definition Ceil (x : float64) : float64 :=
  match truncate x with
  | Some z => if (toFloat z <? x)%f64 then toFloat (z + 1) else toFloat z
  | None => x
  end.

Section Percentiles.
Context (overflow : float64 -> Z).

(** [Compute] *)
Definition Compute (values : list Z) (percentile : float64) : Z :=
  let sorted := merge_sort Z.le values in
  let n := Z.of_nat (length values) in
  if n =? 0 then 0
  else if n =? 1 then default 0 (sorted !! 0%nat)
  else
    let idx := wrap64 (toInt64 overflow (percentile / toFloat 100 * toFloat n + half)%f64 - 1) in
    let idx := if idx <? 0 then 0 else idx in
    let idx := if n <=? idx then n - 1 else idx in
    default 0 (sorted !! Z.to_nat idx).

(** The order of [WeightedPercentile]: values with their weights, by value. *)
Definition byValue (a b : Z * Z) : Prop := a.1 <= b.1.

#[export] Instance byValue_dec : RelDecision byValue.
Proof. intros a b. unfold byValue. apply _. Defined.

(** The loop of [WeightedPercentile]; [last] is the value before. *)
Fixpoint reachShare (target cum last : Z) (sorted : list (Z * Z)) : Z :=
  match sorted with
  | [] => last
  | (v, w) :: sorted => let cum := wrap64 (cum + w) in if target <=? cum then v else reachShare target cum v sorted
  end.

(** [repository.WeightedPercentile] *)
Definition WeightedPercentile (values weights : list Z) (percentile : float64) : Z :=
  if bool_decide (values = []) || negb (length weights =? length values)%nat then 0
  else
    let total := foldl (fun t w => wrap64 (t + w)) 0 weights in
    let target := toInt64 overflow (Ceil (percentile / toFloat 100 * toFloat total)%f64) in
    reachShare target 0 0 (merge_sort byValue (zip values weights)).

(** [repository.FullyWeighted] *)
Definition FullyWeighted (weights : list Z) : bool := negb (bool_decide (weights = [])) && forallb (fun w => 0 <? w) weights.

(** [percentilesOf] *)
Definition percentilesOf (durations weights : list Z) : Z * Z * Z :=
  if (length weights =? length durations)%nat && FullyWeighted weights then
    (WeightedPercentile durations weights (toFloat 50), WeightedPercentile durations weights (toFloat 95),
     WeightedPercentile durations weights (toFloat 99))
  else (Compute durations (toFloat 50), Compute durations (toFloat 95), Compute durations (toFloat 99)).

(** ** The accumulator *)

(** [Status == "error"] *)
Definition isError (s : Span) : bool := bool_decide (sp_Status s = "error"%string).

(** The key of a span; [time.UnixMicro] of the start time. *)
Definition accKeyOf (interval : Z) (s : Span) : accKey :=
  (sp_ProjectID s, sp_Service s, sp_Name s, sp_Resource s, sp_Kind s, TruncateToBucket (sp_StartTimeUs s * 1000) interval).

(** What [addSlot] does to the slot. *)
Definition acc_observe (sl : accSlot) (s : Span) : accSlot :=
  mkAccSlot (wrap64 (os_count sl + 1)) (if isError s then wrap64 (os_errorCount sl + 1) else os_errorCount sl)
    (os_durations sl ++ [sp_DurationUs s]) (os_sampleWeights sl ++ [sp_SampleWeight s]) (spanWeights_add (os_weights sl) s).

(** [addSlot] *)
Definition addSlot (interval : Z) (slots : gmap accKey accSlot) (s : Span) : gmap accKey accSlot :=
  observeSlot zeroAccSlot acc_observe (accKeyOf interval s) s slots.

(** The sum and the largest of the durations, as [Flush] computes them. *)
Definition sumMax (durations : list Z) : Z * Z :=
  foldl (fun st d => (wrap64 (st.1 + d), if st.2 <? d then d else st.2)) (0, 0) durations.

(** The row [Flush] writes for a slot. *)
Definition aggregateRow (k : accKey) (sl : accSlot) : Aggregate :=
  let '(projectID, service, operation, resource, kind, bucket) := k in
  let '(sumUs, maxUs) := sumMax (os_durations sl) in
  let '(p50, p95, p99) := percentilesOf (os_durations sl) (os_sampleWeights sl) in
  mkAggregate projectID service operation resource kind bucket (os_count sl) (os_errorCount sl) p50 p95 p99 maxUs sumUs
    (w_count (os_weights sl)) (w_spans (os_weights sl)).

(** [repository.AggregateFilter]: empty strings, zero and [None] match everything. *)
Record AggregateFilter := mkAggFilter {
  af_ProjectID : Z;
  af_Service : string;
  af_Operation : string;
  af_Kind : string;
  af_From : option Z;
  af_To : option Z;
  af_Limit : Z;
  af_Offset : Z;
}.

Definition matchText (want have : string) : bool := bool_decide (want = ""%string) || bool_decide (want = have).

Definition matchAggregate (f : AggregateFilter) (a : Aggregate) : bool :=
  ((af_ProjectID f =? 0) || (ag_ProjectID a =? af_ProjectID f)) && matchText (af_Service f) (ag_Service a) &&
  matchText (af_Operation f) (ag_Operation a) && matchText (af_Kind f) (ag_Kind a) &&
  match af_From f with Some t => t <=? ag_Bucket a | None => true end &&
  match af_To f with Some t => ag_Bucket a <=? t | None => true end.

(** [QueryRecent]; it leaves the maximum and the sum at zero. *)
Definition QueryRecent (f : AggregateFilter) (slots : gmap accKey accSlot) : list Aggregate :=
  filter (fun a => matchAggregate f a = true)
    ((fun a => mkAggregate (ag_ProjectID a) (ag_Service a) (ag_Operation a) (ag_Resource a) (ag_Kind a) (ag_Bucket a)
                 (ag_Count a) (ag_ErrorCount a) (ag_P50Us a) (ag_P95Us a) (ag_P99Us a) 0 0 (ag_WeightedCount a)
                 (ag_WeightedSpans a)) <$> slotRows aggregateRow slots).

(** [accSlot.merge] *)
Definition acc_merge (sl o : accSlot) : accSlot :=
  mkAccSlot (wrap64 (os_count sl + os_count o)) (wrap64 (os_errorCount sl + os_errorCount o))
    (os_durations sl ++ os_durations o) (os_sampleWeights sl ++ os_sampleWeights o)
    (mkSpanWeights (wrap64 (w_count (os_weights sl) + w_count (os_weights o)))
       (wrap64 (w_spans (os_weights sl) + w_spans (os_weights o)))).

(** [aggregateKey] *)
Definition aggregateKey (row : Aggregate) : accKey :=
  (ag_ProjectID row, ag_Service row, ag_Operation row, ag_Resource row, ag_Kind row, ag_Bucket row).

(** ** The table *)

(** [upsertAggregateSQL]: the row after a conflict. *)
Definition upsertAggregateSQL (old ex : Aggregate) : Aggregate :=
  mkAggregate (ag_ProjectID old) (ag_Service old) (ag_Operation old) (ag_Resource old) (ag_Kind old) (ag_Bucket old)
    (ag_Count old + ag_Count ex) (ag_ErrorCount old + ag_ErrorCount ex) (ag_P50Us ex) (ag_P95Us ex) (ag_P99Us ex)
    (Z.max (ag_MaxUs old) (ag_MaxUs ex)) (ag_SumDurationUs old + ag_SumDurationUs ex)
    (ag_WeightedCount old + ag_WeightedCount ex) (ag_WeightedSpans old + ag_WeightedSpans ex).

Definition aggregateChunk : nat := 150.

(** [compareAggregateKey] *)
Definition compareKey (a b : accKey) : comparison :=
  let '(p, s, o, r, k, t) := a in
  let '(p', s', o', r', k', t') := b in
  cmpOr [Z.compare p p'; String.compare s s'; String.compare o o'; String.compare r r'; String.compare k k'; Z.compare t t'].

Definition compareAggregateKey (a b : Aggregate) : comparison := compareKey (aggregateKey a) (aggregateKey b).

(** [Repository.UpsertAggregates]; [oks] says which chunks the database commits. *)
Definition UpsertAggregates : list bool -> list Aggregate -> gmap accKey Aggregate ->
  option (writeError Aggregate) * gmap accKey Aggregate :=
  writeTierRows compareAggregateKey (upsert aggregateKey upsertAggregateSQL) aggregateChunk.

(** [ORDER BY bucket DESC] *)
Definition newestFirst (a b : Aggregate) : Prop := ag_Bucket b <= ag_Bucket a.

#[export] Instance newestFirst_dec : RelDecision newestFirst.
Proof. intros a b. unfold newestFirst. apply _. Defined.

(** [Repository.QueryAggregates], over the rows in the order SQLite reads them. *)
Definition QueryAggregates (f : AggregateFilter) (rows : list Aggregate) : list Aggregate :=
  let limit := if af_Limit f <=? 0 then 100 else af_Limit f in
  take (Z.to_nat limit) (drop (Z.to_nat (if 0 <? af_Offset f then af_Offset f else 0))
    (merge_sort newestFirst (filter (fun a => matchAggregate f a = true) rows))).

(** ** Flushing *)

(** [Flush] takes the slots; it adds spans while the write runs.  [requeue] puts back what
    the write left, the slots past [spanRollupRequeueAge] excepted. *)
Definition acc_requeue (now : Z) (slots : gmap accKey accSlot) (err : writeError Aggregate) (cur : gmap accKey accSlot)
  : Z * gmap accKey accSlot :=
  requeueSlots cur (unwrittenSlots slots err aggregateKey)
    (fun k => negb (k.2 <? now - spanRollupRequeueAge)) acc_merge.

(** The write of [Flush], with the slots [cur] that came in meanwhile: the error, the slots
    and the table after it, and the number of slots dropped. *)
Definition acc_write (now : Z) (oks : list bool) (slots cur : gmap accKey accSlot) (t : gmap accKey Aggregate)
  : option (writeError Aggregate) * gmap accKey accSlot * gmap accKey Aggregate * Z :=
  if bool_decide (slots = ∅) then (None, cur, t, 0)
  else
    match UpsertAggregates oks (slotRows aggregateRow slots) t with
    | (None, t) => (None, cur, t, 0)
    | (Some err, t) => let '(lost, cur) := acc_requeue now slots err cur in (Some err, cur, t, lost)
    end.

(** [Aggregator.AggregateSpans]: the groups and their rows. *)
Definition groupSpans (interval : Z) (spans : list Span) : gmap accKey (list Span) :=
  foldl (fun groups s => <[accKeyOf interval s := default [] (groups !! accKeyOf interval s) ++ [s]]> groups) ∅ spans.

Definition groupRow (k : accKey) (bucket : list Span) : Aggregate :=
  let '(projectID, service, operation, resource, kind, t) := k in
  let durations := sp_DurationUs <$> bucket in
  let '(sumUs, maxUs) := sumMax durations in
  let weights := foldl spanWeights_add (mkSpanWeights 0 0) bucket in
  let '(p50, p95, p99) := percentilesOf durations (sp_SampleWeight <$> bucket) in
  mkAggregate projectID service operation resource kind t (Z.of_nat (length bucket))
    (foldl (fun n s => if isError s then wrap64 (n + 1) else n) 0 bucket) p50 p95 p99 maxUs sumUs (w_count weights) (w_spans weights).

Definition AggregateSpans (interval : Z) (spans : list Span) : list Aggregate :=
  slotRows groupRow (groupSpans interval spans).
End Percentiles.

(** [Compute] rounds its rank to the nearest integer; the nearest-rank method rounds it up. *)
Example Compute_rounds :
  Compute (fun _ => 0) [1; 2; 3; 4; 5; 6; 7; 8; 9; 10; 11; 12] (toFloat 95) = 11 /\
  truncate (Ceil (toFloat 95 / toFloat 100 * toFloat 12)%f64) = Some 12.
Proof. by vm_compute. Qed.

(** ** The percentile of weighted durations *)

(** The weight of the pairs up to a value. *)
Definition weightUpTo (u : Z) (pairs : list (Z * Z)) : Z := sumBy snd (filter (fun x => x.1 <= u) pairs).

Lemma weightUpTo_nonneg u pairs : Forall (fun x => 0 < x.2) pairs -> 0 <= weightUpTo u pairs <= sumBy snd pairs.
Proof.
  unfold weightUpTo. induction 1 as [|x l Hx Hl IH]; [done|]. rewrite filter_cons, sumBy_cons.
  case_decide; rewrite ?sumBy_cons; lia.
Qed.

(** The first value of a sorted list whose cumulative weight reaches the target. *)
Lemma reachShare_spec target pairs : forall cum last,
  StronglySorted byValue pairs -> Forall (fun x => 0 < x.2) pairs -> 0 <= cum -> cum + sumBy snd pairs < 2 ^ 63 ->
  cum < target -> target <= cum + sumBy snd pairs ->
  let v := reachShare target cum last pairs in
  v ∈ pairs.*1 /\ target <= cum + weightUpTo v pairs /\ forall u, u < v -> cum + weightUpTo u pairs < target.
Proof.
  induction pairs as [|[v w] pairs IH]; intros cum last Hs Hw Hc Hb Hlt Ht; [cbn in *; lia|]; rewrite sumBy_cons in *.
  apply StronglySorted_inv in Hs as [Hs Hv]. apply Forall_cons in Hw as [Hw0 Hw]. cbn [snd] in *.
  pose proof (weightUpTo_nonneg 0 pairs Hw).
  cbn [reachShare]. rewrite wrap64_id by (unfold in_int64; lia). destruct (Z.leb_spec target (cum + w)) as [Hle|Hgt]; cbn zeta.
  - split_and!; [by left| |].
    + unfold weightUpTo. rewrite filter_cons, decide_True, sumBy_cons by (cbn; lia). cbn [snd]. pose proof (weightUpTo_nonneg v pairs Hw). unfold weightUpTo in *. lia.
    + intros u Hu. unfold weightUpTo. rewrite filter_cons, decide_False by (cbn; lia).
      assert (filter (fun x : Z * Z => x.1 <= u) pairs = []) as ->.
      { clear -Hv Hu. induction Hv as [|x l Hx Hl IH]; [done|]. rewrite filter_cons, decide_False; [done|]. unfold byValue in Hx. cbn in Hx. lia. }
      cbn. lia.
  - destruct (IH (cum + w) v Hs Hw ltac:(lia) ltac:(lia) ltac:(lia) ltac:(lia)) as (Hin & Hreach & Hmin).
    set (r := reachShare _ _ _ _) in *. assert (v <= r) as Hvr.
    { apply list_elem_of_fmap in Hin as (x & -> & Hx). rewrite Forall_forall in Hv. by apply (Hv x). }
    split_and!; [by right| |].
    + unfold weightUpTo. rewrite filter_cons, decide_True, sumBy_cons by (cbn; lia). cbn [snd]. unfold weightUpTo in Hreach. lia.
    + intros u Hu. specialize (Hmin u Hu). unfold weightUpTo in *. rewrite filter_cons.
      pose proof (weightUpTo_nonneg u pairs Hw). case_decide; rewrite ?sumBy_cons; cbn [snd]; unfold weightUpTo in *; lia.
Qed.

#[export] Instance byValue_total : Total byValue.
Proof. intros a b. unfold byValue. lia. Qed.

#[export] Instance byValue_trans : Transitive byValue.
Proof. intros a b c. unfold byValue. lia. Qed.

Lemma weightUpTo_perm u l l' : l ≡ₚ l' -> weightUpTo u l = weightUpTo u l'.
Proof. intros Hp. unfold weightUpTo. by rewrite Hp. Qed.

Lemma total_wrapped ws : forall t, 0 <= t -> Forall (Z.lt 0) ws -> t + sumBy id ws < 2 ^ 63 ->
  foldl (fun t w => wrap64 (t + w)) t ws = t + sumBy id ws.
Proof.
  induction ws as [|w ws IH]; intros t Ht Hw Hb; [cbn; lia|]. rewrite sumBy_cons in *. cbn [foldl id] in *.
  apply Forall_cons in Hw as [Hw0 Hw].
  assert (0 <= sumBy id ws) by (clear -Hw; induction Hw; [done|]; rewrite sumBy_cons; cbn [id]; lia).
  rewrite wrap64_id by (unfold in_int64; lia). rewrite IH by (done || lia). lia.
Qed.

Lemma sumBy_snd_zip (vs ws : list Z) : length ws = length vs -> sumBy snd (zip vs ws) = sumBy id ws.
Proof. revert ws. induction vs as [|v vs IH]; intros [|w ws] Hl; try done. change (zip (v :: vs) (w :: ws)) with ((v, w) :: zip vs ws).
  rewrite !sumBy_cons, IH; [done|]. cbn in Hl. lia.
Qed.

(** A weighted percentile is the smallest duration up to which the sample weights reach the
    percentile's share.  For durations with known positive weights whose total fits, and a share between one and the total,
    the result is one of the durations, the weights of the durations up to it reach the share, and those of the
    durations up to any smaller value do not; the order among equal durations does not matter. *)
Theorem WeightedPercentile_exact overflow values weights percentile :
  length weights = length values -> Forall (Z.lt 0) weights -> sumBy id weights < 2 ^ 63 ->
  let share := toInt64 overflow (Ceil (percentile / toFloat 100 * toFloat (sumBy id weights))%f64) in
  0 < share <= sumBy id weights ->
  let v := WeightedPercentile overflow values weights percentile in
  let pairs := zip values weights in
  v ∈ values /\ share <= weightUpTo v pairs /\ forall u, u < v -> weightUpTo u pairs < share.
Proof.
  intros Hl Hw Hb share Hs. cbn zeta. unfold WeightedPercentile.
  destruct (bool_decide_reflect (values = [])) as [->|Hne]; [destruct weights; cbn in *; [lia|done]|].
  rewrite (proj2 (Nat.eqb_eq _ _) Hl). cbn [negb orb]. rewrite (total_wrapped _ 0), Z.add_0_l by (done || lia). fold share.
  pose proof (merge_sort_Permutation byValue (zip values weights)) as Hp.
  assert (Forall (fun x : Z * Z => 0 < x.2) (merge_sort byValue (zip values weights))) as Hw'.
  { rewrite Hp. clear -Hw Hl. revert weights Hw Hl. induction values as [|v vs IH]; intros [|w ws] Hw Hl; cbn in *; try done.
    apply Forall_cons in Hw as [? ?]. constructor; [done|]. apply IH; [done|lia]. }
  assert (sumBy snd (merge_sort byValue (zip values weights)) = sumBy id weights) as Hsum by (rewrite Hp; by apply sumBy_snd_zip).
  destruct (reachShare_spec share (merge_sort byValue (zip values weights)) 0 0) as (Hin & Hr & Hm); rewrite ?Hsum; try lia; try done.
  { apply (StronglySorted_merge_sort byValue). }
  apply list_elem_of_fmap in Hin as ([a b] & Ev & Hx). rewrite Hp in Hx. split_and!.
  - rewrite Ev. by apply elem_of_zip_l in Hx.
  - rewrite (weightUpTo_perm _ _ _ Hp) in Hr. done.
  - intros u Hu. specialize (Hm u Hu). by rewrite (weightUpTo_perm _ _ _ Hp) in Hm.
Qed.

Lemma WeightedPercentile_exact_witness :
  let v := WeightedPercentile (fun _ => 0) [40; 10; 30; 20] [1; 75; 2; 75] (toFloat 95) in
  v = 20 /\ 146 <= weightUpTo v [(40, 1); (10, 75); (30, 2); (20, 75)].
Proof.
  split; [vm_compute; reflexivity|].
  refine (proj1 (proj2 (WeightedPercentile_exact (fun _ => 0) [40; 10; 30; 20] [1; 75; 2; 75] (toFloat 95) _ _ _ _)));
    [reflexivity|repeat constructor; lia|vm_compute; reflexivity|vm_compute; split; [reflexivity|discriminate]].
Defined.

(** ** The aggregator and the accumulator agree *)

(** The slot of the spans of a key. *)
Definition slotOfSpans (l : list Span) : accSlot :=
  mkAccSlot (Z.of_nat (length l)) (foldl (fun n s => if isError s then wrap64 (n + 1) else n) 0 l)
    (sp_DurationUs <$> l) (sp_SampleWeight <$> l) (foldl spanWeights_add (mkSpanWeights 0 0) l).

Lemma groupSpans_snoc interval spans s :
  groupSpans interval (spans ++ [s]) =
  <[accKeyOf interval s := default [] (groupSpans interval spans !! accKeyOf interval s) ++ [s]]> (groupSpans interval spans).
Proof. unfold groupSpans. by rewrite foldl_snoc. Qed.

Lemma groupSpans_short interval spans k l : groupSpans interval spans !! k = Some l -> (length l <= length spans)%nat.
Proof.
  revert k l. induction spans as [|s spans IH] using rev_ind; intros k l; [change (groupSpans interval []) with (∅ : gmap accKey (list Span)); by rewrite lookup_empty|].
  rewrite groupSpans_snoc, length_app. destruct (decide (k = accKeyOf interval s)) as [->|Hne].
  - rewrite lookup_insert_eq. intros [= <-]. rewrite length_app. cbn.
    destruct (groupSpans interval spans !! _) as [l'|] eqn:E; cbn; [specialize (IH _ _ E); lia|lia].
  - rewrite lookup_insert_ne by done. intros H%IH. lia.
Qed.

Lemma addSlot_groups interval spans : Z.of_nat (length spans) < 2 ^ 63 ->
  foldl (addSlot interval) ∅ spans = slotOfSpans <$> groupSpans interval spans.
Proof.
  induction spans as [|s spans IH] using rev_ind; intros Hb; [change (groupSpans interval []) with (∅ : gmap accKey (list Span)); by rewrite fmap_empty|].
  rewrite length_app in Hb. cbn in Hb. rewrite foldl_snoc, IH, groupSpans_snoc, fmap_insert by lia. unfold addSlot, observeSlot. f_equal.
  rewrite lookup_fmap. destruct (groupSpans interval spans !! accKeyOf interval s) as [l|] eqn:E; cbn.
  - apply groupSpans_short in E. unfold acc_observe, slotOfSpans. cbn. rewrite !foldl_snoc, !fmap_app, length_app, wrap64_id by (unfold in_int64; lia).
    f_equal. cbn. lia.
  - done.
Qed.

(** Aggregating a batch at once and folding it span by span give the same rows.  The rows the aggregator
    computes from any batch of spans are those the accumulator writes after the spans of the batch were
    added to it one by one. *)
Theorem AggregateSpans_accumulates overflow interval spans : Z.of_nat (length spans) < 2 ^ 63 ->
  slotRows (aggregateRow overflow) (foldl (addSlot interval) ∅ spans) ≡ₚ AggregateSpans overflow interval spans.
Proof.
  intros Hb. rewrite addSlot_groups by done. unfold AggregateSpans, slotRows. rewrite map_to_list_fmap, <- list_fmap_compose.
  apply reflexive_eq, list_fmap_ext. intros _ [k l] _. by destruct k as [[[[[? ?] ?] ?] ?] ?].
Qed.

(** ** Every span is aggregated once

    The slots of the accumulator keep their durations in order, so the slot of a set of spans
    is not unique.  What the table adds up is: [accTotals] forgets the order, and the flush of
    the slots is simulated by a flush of their totals, which [SlotFlush] accounts for. *)

(** ** Sorting and mapping *)

Section SortMap.
Context {A B : Type} (f : A -> B) (R : relation A) (R' : relation B) `{!RelDecision R, !RelDecision R'}.
Context (HR : forall a b, R' (f a) (f b) <-> R a b).

Lemma list_merge_fmap l1 l2 : list_merge R' (f <$> l1) (f <$> l2) = f <$> list_merge R l1 l2.
Proof.
  revert l2. induction l1 as [|a l1 IH1]; [intros l2; by destruct l2|]. induction l2 as [|b l2 IH2]; [done|].
  change (f <$> a :: l1) with (f a :: (f <$> l1)). change (f <$> b :: l2) with (f b :: (f <$> l2)).
  rewrite !list_merge_cons. rewrite (decide_ext (R' (f a) (f b)) (R a b)) by apply HR. destruct (decide (R a b)).
  - change (f b :: (f <$> l2)) with (f <$> (b :: l2)). rewrite IH1. done.
  - change (f a :: (f <$> l1)) with (f <$> (a :: l1)). rewrite IH2. done.
Qed.

Definition stackMap (st : list (option (list A))) : list (option (list B)) := fmap (M := option) (fmap (M := list) f) <$> st.

Lemma merge_list_to_stack_fmap st : forall l,
  merge_list_to_stack R' (stackMap st) (f <$> l) = stackMap (merge_list_to_stack R st l).
Proof. induction st as [|[l'|] st IH]; intros l; cbn; [done| |done]. rewrite list_merge_fmap. f_equal. apply IH. Qed.

Lemma merge_stack_fmap st : merge_stack R' (stackMap st) = f <$> merge_stack R st.
Proof. induction st as [|[l|] st IH]; cbn; [done| |done]. fold (stackMap st). by rewrite IH, list_merge_fmap. Qed.

Lemma merge_sort_aux_fmap l : forall st, merge_sort_aux R' (stackMap st) (f <$> l) = f <$> merge_sort_aux R st l.
Proof.
  induction l as [|x l IH]; intros st; cbn; [apply merge_stack_fmap|].
  change [f x] with (f <$> [x]). by rewrite merge_list_to_stack_fmap, IH.
Qed.

Lemma merge_sort_fmap l : merge_sort R' (f <$> l) = f <$> merge_sort R l.
Proof. apply (merge_sort_aux_fmap l []). Qed.
End SortMap.

(** ** Simulating a flush *)

Definition mapError {R R'} (f : R -> R') (e : writeError R) : writeError R' :=
  match e with UnwrittenRows rows => UnwrittenRows (f <$> rows) | OtherError => OtherError end.

Section Simulation.
Context {K V V' R R' : Type} `{Countable K} (alpha : V -> V') (beta : R -> R').

Lemma slotRows_map (toRow : K -> V -> R) (toRow' : K -> V' -> R') m :
  (forall k v, beta (toRow k v) = toRow' k (alpha v)) -> beta <$> slotRows toRow m = slotRows toRow' (alpha <$> m).
Proof.
  intros Hr. unfold slotRows. rewrite map_to_list_fmap, <- !list_fmap_compose. apply list_fmap_ext. intros _ [k v] _. apply Hr.
Qed.

Lemma unwrittenSlots_map (m : gmap K V) err (keyOf : R -> K) (keyOf' : R' -> K) :
  (forall r, keyOf' (beta r) = keyOf r) ->
  alpha <$> unwrittenSlots m err keyOf = unwrittenSlots (alpha <$> m) (mapError beta err) keyOf'.
Proof.
  intros Hk. destruct err as [rows|]; [|done]. cbn [unwrittenSlots mapError]. replace (∅ : gmap K V') with (alpha <$> (∅ : gmap K V)) by apply fmap_empty. generalize (∅ : gmap K V).
  induction rows as [|r rows IH]; intros acc; [done|]. cbn [foldl fmap list_fmap]. rewrite IH, Hk, lookup_fmap.
  destruct (m !! keyOf r); [|done]. cbn. by rewrite fmap_insert.
Qed.

Lemma requeueSlots_map (dst src : gmap K V) keep (mrg : V -> V -> V) (mrg' : V' -> V' -> V') :
  (forall a b, alpha (mrg a b) = mrg' (alpha a) (alpha b)) ->
  alpha <$> (requeueSlots dst src keep mrg).2 = (requeueSlots (alpha <$> dst) (alpha <$> src) keep mrg').2.
Proof.
  intros Hm. unfold requeueSlots. rewrite map_to_list_fmap. generalize 0. revert dst.
  induction (map_to_list src) as [|[k v] l IH]; intros dst z; [done|]. cbn [foldl fmap list_fmap prod_map fst snd id requeueOne].
  destruct (keep k); cbn [negb]; [|apply IH]. rewrite lookup_fmap. destruct (dst !! k) as [cur|]; cbn; rewrite IH, fmap_insert, ?Hm; done.
Qed.

Context (pk : R -> K) (pk' : R' -> K) (conflict : R -> R -> R) (conflict' : R' -> R' -> R').
Context (compare : R -> R -> comparison) (compare' : R' -> R' -> comparison).
Context (Hpk : forall r, pk' (beta r) = pk r).
Context (Hc : forall a b, beta (conflict a b) = conflict' (beta a) (beta b)).
Context (Hcmp : forall a b, compare' (beta a) (beta b) = compare a b).

Lemma upsert_map (t : gmap K R) r : beta <$> upsert pk conflict t r = upsert pk' conflict' (beta <$> t) (beta r).
Proof. unfold upsert. rewrite Hpk, lookup_fmap. destruct (t !! pk r); cbn; by rewrite fmap_insert, ?Hc. Qed.

Lemma upserts_map rows : forall t : gmap K R,
  beta <$> foldl (upsert pk conflict) t rows = foldl (upsert pk' conflict') (beta <$> t) (beta <$> rows).
Proof. induction rows as [|r rows IH]; intros t; [done|]. cbn [foldl fmap list_fmap]. by rewrite IH, upsert_map. Qed.

Lemma chunksOf_map fuel n : forall l : list R, chunksOf fuel n (fmap (M := list) beta l) = fmap (M := list) beta <$> chunksOf fuel n l.
Proof.
  induction fuel as [|fuel IH]; intros [|x l]; try done. cbn [chunksOf].
  change (chunksOf (S fuel) n (fmap (M := list) beta (x :: l))) with
    (take n (fmap (M := list) beta (x :: l)) :: chunksOf fuel n (drop n (fmap (M := list) beta (x :: l)))).
  by rewrite <- fmap_take, <- fmap_drop, IH.
Qed.

Lemma tierLoop_map sorted chunks : forall oks written (t : gmap K R),
  tierLoop (upsert pk' conflict') oks (fmap (M := list) beta sorted) (fmap (M := list) beta <$> chunks) written (beta <$> t) =
  let '(e, t') := tierLoop (upsert pk conflict) oks sorted chunks written t in (mapError beta <$> e, beta <$> t').
Proof.
  induction chunks as [|c chunks IH]; intros oks written t; [done|]. cbn [tierLoop fmap list_fmap]. unfold writeTierChunk.
  destruct (hd true oks); [|cbn; by rewrite <- fmap_drop]. rewrite <- upserts_map, length_fmap. apply IH.
Qed.

Lemma writeTierRows_map chunk oks rows (t : gmap K R) :
  writeTierRows compare' (upsert pk' conflict') chunk oks (beta <$> rows) (beta <$> t) =
  let '(e, t') := writeTierRows compare (upsert pk conflict) chunk oks rows t in (mapError beta <$> e, beta <$> t').
Proof.
  unfold writeTierRows. rewrite (merge_sort_fmap beta (rowLe compare) (rowLe compare')) by (intros; unfold rowLe; by rewrite Hcmp).
  unfold Chunk. rewrite length_fmap, chunksOf_map. apply tierLoop_map.
Qed.
End Simulation.

(** ** Totals *)

(** What the table adds up of a slot. *)
Record accTotals := mkTotals { at_count : Z; at_errors : Z; at_weights : spanWeights; at_sum : Z; at_max : Z }.

Definition maxZero (l : list Z) : Z := foldr Z.max 0 l.

Definition totalsOf (sl : accSlot) : accTotals :=
  mkTotals (os_count sl) (os_errorCount sl) (os_weights sl) (sumBy id (os_durations sl)) (maxZero (os_durations sl)).

(** A row as its key and totals. *)
Definition rowTotals (a : Aggregate) : accKey * accTotals :=
  (aggregateKey a, mkTotals (ag_Count a) (ag_ErrorCount a) (mkSpanWeights (ag_WeightedCount a) (ag_WeightedSpans a))
                     (ag_SumDurationUs a) (ag_MaxUs a)).

Definition totalsRow (k : accKey) (v : accTotals) : accKey * accTotals :=
  (k, mkTotals (at_count v) (at_errors v) (at_weights v) (wrap64 (at_sum v)) (at_max v)).

Definition zeroTotals : accTotals := mkTotals 0 0 (mkSpanWeights 0 0) 0 0.

Definition totals_observe (v : accTotals) (s : Span) : accTotals :=
  mkTotals (wrap64 (at_count v + 1)) (if isError s then wrap64 (at_errors v + 1) else at_errors v)
    (spanWeights_add (at_weights v) s) (at_sum v + sp_DurationUs s) (Z.max (at_max v) (sp_DurationUs s)).

Definition totals_merge (v o : accTotals) : accTotals :=
  mkTotals (wrap64 (at_count v + at_count o)) (wrap64 (at_errors v + at_errors o))
    (mkSpanWeights (wrap64 (w_count (at_weights v) + w_count (at_weights o)))
       (wrap64 (w_spans (at_weights v) + w_spans (at_weights o))))
    (at_sum v + at_sum o) (Z.max (at_max v) (at_max o)).

Definition totals_conflict (a b : accKey * accTotals) : accKey * accTotals :=
  (a.1, mkTotals (at_count a.2 + at_count b.2) (at_errors a.2 + at_errors b.2)
          (mkSpanWeights (w_count (at_weights a.2) + w_count (at_weights b.2)) (w_spans (at_weights a.2) + w_spans (at_weights b.2)))
          (at_sum a.2 + at_sum b.2) (Z.max (at_max a.2) (at_max b.2))).

(** The reference: the totals of a list of spans. *)
Definition errorOf (s : Span) : Z := if isError s then 1 else 0.

Definition exactTotals (l : list Span) : accTotals :=
  mkTotals (Z.of_nat (length l)) (sumBy errorOf l) (mkSpanWeights (sumBy weightOf l) (sumBy weighted l))
    (sumBy sp_DurationUs l) (maxZero (sp_DurationUs <$> l)).

Lemma maxZero_app l1 l2 : maxZero (l1 ++ l2) = Z.max (maxZero l1) (maxZero l2).
Proof.
  unfold maxZero. induction l1 as [|x l1 IH]; cbn [foldr app]; [|lia]. induction l2 as [|y l2 IH2]; cbn [foldr]; lia.
Qed.

Lemma maxZero_nonneg l : 0 <= maxZero l.
Proof. unfold maxZero. induction l; cbn [foldr]; lia. Qed.

#[export] Instance maxZero_perm : Proper ((≡ₚ) ==> (=)) maxZero.
Proof. intros l1 l2 Hp. unfold maxZero. induction Hp; cbn [foldr]; lia. Qed.

Lemma sumBy_errorOf_bound l : 0 <= sumBy errorOf l <= Z.of_nat (length l).
Proof. induction l as [|s l IH]; [done|]. rewrite sumBy_cons. cbn [length].
  assert (0 <= errorOf s <= 1) by (unfold errorOf; destruct (isError s); lia). lia.
Qed.

(** The totals of two lists, when those of both together fit. *)
Lemma exactTotals_merge l1 l2 : fitsInt64 (l1 ++ l2) -> totals_merge (exactTotals l1) (exactTotals l2) = exactTotals (l1 ++ l2).
Proof.
  intros (Hn & Hw & _). rewrite length_app, sumBy_app in *. unfold totals_merge, exactTotals. cbn [at_count at_errors at_weights at_sum at_max w_count w_spans].
  pose proof (sumBy_errorOf_bound l1). pose proof (sumBy_errorOf_bound l2). pose proof (sumBy_weightOf_nonneg l1).
  pose proof (sumBy_weightOf_nonneg l2). pose proof (sumBy_weighted_bound l1). pose proof (sumBy_weighted_bound l2).
  rewrite !wrap64_id by (unfold in_int64; lia). rewrite fmap_app, maxZero_app, length_app, !sumBy_app. f_equal. lia.
Qed.

Lemma totals_observe_merge l s : fitsInt64 (l ++ [s]) -> totals_observe (exactTotals l) s = totals_merge (exactTotals l) (exactTotals [s]).
Proof.
  intros (Hn & Hw & _). rewrite length_app, sumBy_app in *. unfold totals_merge, totals_observe, exactTotals.
  cbn [at_count at_errors at_weights at_sum at_max w_count w_spans]. rewrite !sumBy_cons. cbn [length fmap list_fmap maxZero foldr] in *.
  change (sumBy errorOf []) with 0. change (sumBy weightOf []) with 0 in *. change (sumBy weighted []) with 0. change (sumBy sp_DurationUs []) with 0.
  rewrite ?sumBy_cons in Hw. change (sumBy weightOf []) with 0 in Hw.
  pose proof (sumBy_weightOf_nonneg l). pose proof (sumBy_weighted_bound l). pose proof (maxZero_nonneg (sp_DurationUs <$> l)).
  pose proof (sumBy_errorOf_bound l). rewrite !Z.add_0_r in *. f_equal; try lia.
  - assert (errorOf s = if isError s then 1 else 0) as -> by done. destruct (isError s); [done|].
    rewrite wrap64_id by (unfold in_int64; lia). lia.
  - assert (weightOf s = Z.max 0 (sp_SampleWeight s)) as Ew by done. assert (weighted s = if sp_SampleWeight s <=? 0 then 0 else 1) as Ed by done.
    rewrite Ew, Ed in *. unfold spanWeights_add. cbn [w_count w_spans]. destruct (Z.leb_spec (sp_SampleWeight s) 0).
    + rewrite Z.max_l, !wrap64_id by (unfold in_int64 in *; lia). f_equal; lia.
    + by rewrite Z.max_r by lia.
Qed.

#[export] Instance totals_slots :
  SlotAlgebra zeroTotals totals_observe totals_merge totalsRow fst fst totals_conflict fitsInt64 exactTotals.
Proof.
  split.
  - intros l l' Hf (k & Hp)%submseteq_Permutation. rewrite Hp in Hf. by destruct (fitsInt64_app _ _ Hf).
  - intros l l' Hp. unfold exactTotals. by rewrite Hp.
  - intros i Hf. change zeroTotals with (exactTotals []). rewrite totals_observe_merge by done. by apply (exactTotals_merge [] [i]).
  - intros l i _ Hf. by rewrite totals_observe_merge, exactTotals_merge.
  - intros l l' _ _. apply exactTotals_merge.
  - intros k l l' _ _ Hf. pose proof Hf as (Hn & Hw & Hd). unfold totals_conflict, totalsRow, exactTotals.
    cbn [fst snd at_count at_errors at_weights at_sum at_max w_count w_spans].
    rewrite length_app, fmap_app, maxZero_app, !sumBy_app in *. pose proof (sumBy_abs_bound l). pose proof (sumBy_abs_bound l').
    rewrite !wrap64_id by (unfold in_int64; lia). do 2 f_equal. lia.
  - done.
  - intros k k' v v'. by split; [intros [= ->]|intros ->].
Qed.

(** ** Slots and rows against totals *)

Lemma totalsOf_observe sl s : totalsOf (acc_observe sl s) = totals_observe (totalsOf sl) s.
Proof.
  unfold totalsOf, acc_observe, totals_observe. cbn [os_count os_errorCount os_weights os_durations at_count at_errors at_weights at_sum at_max].
  pose proof (maxZero_nonneg (os_durations sl)). f_equal; [rewrite sumBy_app, sumBy_cons; unfold id; cbn [sumBy foldr]; lia|].
  rewrite maxZero_app. cbn [maxZero foldr]. lia.
Qed.

Lemma totalsOf_merge a b : totalsOf (acc_merge a b) = totals_merge (totalsOf a) (totalsOf b).
Proof. unfold totalsOf, acc_merge, totals_merge. cbn. f_equal; [apply sumBy_app|apply maxZero_app]. Qed.

Lemma wrap64_add_l a b : wrap64 (wrap64 a + b) = wrap64 (a + b).
Proof. by rewrite Z.add_comm, wrap64_add_r, Z.add_comm. Qed.

Lemma sumMax_totals l : sumMax l = (wrap64 (sumBy id l), maxZero l).
Proof.
  unfold sumMax. induction l as [|d l IH] using rev_ind; [done|]. rewrite foldl_snoc, IH. cbn [fst snd].
  rewrite wrap64_add_l, sumBy_app, maxZero_app. pose proof (maxZero_nonneg l). f_equal; [f_equal; rewrite sumBy_cons; unfold id; cbn [sumBy foldr]; lia|].
  cbn [maxZero foldr]. destruct (Z.ltb_spec (maxZero l) d); lia.
Qed.

Lemma rowTotals_row overflow k sl : rowTotals (aggregateRow overflow k sl) = totalsRow k (totalsOf sl).
Proof.
  destruct k as [[[[[p s] o] r] kd] b]. unfold rowTotals, totalsRow, aggregateRow. rewrite sumMax_totals.
  destruct (percentilesOf _ _ _) as [[p50 p95] p99]. cbn. destruct (os_weights sl). done.
Qed.

(** ** Runs *)

(** Spans added, or a flush: the spans added while it writes, its clock when it puts slots back and
    which chunks of the write commit. *)
Inductive accOp :=
| AccAdd (spans : list Span)
| AccFlush (during : list Span) (now : Z) (oks : list bool).

Definition accSystem : Type := gmap accKey accSlot * gmap accKey Aggregate * list (accKey * Span).

Section Run.
Context (overflow : float64 -> Z) (interval : Z).

Definition keyed (spans : list Span) : list (accKey * Span) := (fun s => (accKeyOf interval s, s)) <$> spans.

Definition accStepOp (st : accSystem) (op : accOp) : accSystem :=
  let '(slots, t, log) := st in
  match op with
  | AccAdd spans => (foldl (addSlot interval) slots spans, t, log ++ keyed spans)
  | AccFlush during now oks =>
      let '(_, cur, t, _) := acc_write overflow now oks slots (foldl (addSlot interval) ∅ during) t in
      (cur, t, log ++ keyed during)
  end.

Definition accRun (ops : list accOp) : accSystem := foldl accStepOp (∅, ∅, []) ops.

Definition accSpans (op : accOp) : list Span := match op with AccAdd spans => spans | AccFlush during _ _ => during end.

(** A bucket a failed flush found more than an hour old. *)
Definition givenUp (ops : list accOp) (b : Z) : Prop :=
  exists during now oks, AccFlush during now oks ∈ ops /\ false ∈ oks /\ b < now - spanRollupRequeueAge.

Definition accAccounted (late : accKey -> Prop) (st : accSystem) : Prop :=
  accounted zeroTotals totalsRow fst exactTotals (fun _ => True) late (totalsOf <$> st.1.1) (rowTotals <$> st.1.2) st.2.

Lemma keyed_spans spans : (keyed spans).*2 = spans.
Proof. unfold keyed. rewrite <- list_fmap_compose. apply list_fmap_id. Qed.

Lemma addSlots_fold spans : forall m log,
  folds fitsInt64 exactTotals (totalsOf <$> m) log (totalsOf <$> foldl (addSlot interval) m spans) (log ++ keyed spans).
Proof.
  induction spans as [|s spans IH]; intros m log; [rewrite app_nil_r; eapply folds_refl, totals_slots|]. cbn [foldl].
  change (keyed (s :: spans)) with ([(accKeyOf interval s, s)] ++ keyed spans). rewrite app_assoc. eapply folds_trans; [apply totals_slots| |apply IH].
  assert (totalsOf <$> addSlot interval m s = observeSlot zeroTotals totals_observe (accKeyOf interval s) s (totalsOf <$> m)) as ->.
  { unfold addSlot, observeSlot. rewrite fmap_insert, totalsOf_observe, lookup_fmap. by destruct (m !! accKeyOf interval s). }
  eapply folds_observe, totals_slots.
Qed.

(** The flush of the totals of slots. *)
Definition upsertTotals : list bool -> list (accKey * accTotals) -> gmap accKey (accKey * accTotals) ->
  option (writeError (accKey * accTotals)) * gmap accKey (accKey * accTotals) :=
  writeTierRows (fun a b => compareKey a.1 b.1) (upsert fst totals_conflict) aggregateChunk.

#[export] Instance upsertTotals_writer : TierWriter fst totals_conflict upsertTotals.
Proof. apply writeTierRows_writer. unfold aggregateChunk. lia. Qed.

Lemma UpsertAggregates_map (oks : list bool) (rows : list Aggregate) (t : gmap accKey Aggregate) :
  upsertTotals oks (rowTotals <$> rows) (rowTotals <$> t) =
  let '(e, t') := UpsertAggregates oks rows t in (mapError rowTotals <$> e, rowTotals <$> t').
Proof. apply writeTierRows_map; done. Qed.

Lemma flush_accounted late slots t log during now oks :
  accAccounted late (slots, t, log) -> fitsInt64 (log ++ keyed during).*2 ->
  (false ∈ oks -> forall k, k.2 < now - spanRollupRequeueAge -> late k) ->
  accAccounted late (accStepOp (slots, t, log) (AccFlush during now oks)).
Proof.
  intros HA Hf Hlate. cbn [accStepOp]. unfold acc_write. set (cur := foldl (addSlot interval) ∅ during).
  assert (folds fitsInt64 exactTotals ∅ log (totalsOf <$> cur) (log ++ keyed during)) as Hfold.
  { pose proof (addSlots_fold during ∅ log) as Hd. by rewrite fmap_empty in Hd. }
  pose proof (UpsertAggregates_map oks (slotRows (aggregateRow overflow) slots) t) as Hw.
  rewrite (slotRows_map totalsOf rowTotals _ totalsRow) in Hw by apply rowTotals_row.
  assert (forall e t', upsertTotals oks (slotRows totalsRow (totalsOf <$> slots)) (rowTotals <$> t) = (e, t') ->
    accounted zeroTotals totalsRow fst exactTotals (fun _ => True) late
      (from_option (fun err => (requeueSlots (totalsOf <$> cur) (unwrittenSlots (totalsOf <$> slots) err fst)
         (fun k : accKey => negb (bool_decide (false ∈ oks)) || negb (k.2 <? now - spanRollupRequeueAge)) totals_merge).2)
         (totalsOf <$> cur) e) t' (log ++ keyed during)) as Hacc.
  { intros e t' Hu. eapply (accounted_flush zeroTotals totals_observe totals_merge totalsRow fst fst totals_conflict fitsInt64 exactTotals
      (fun _ => True) late upsertTotals [] _ (totalsOf <$> slots) (rowTotals <$> t) log _ _ oks e t'); try done; try exact Hu.
    - by apply Forall_true.
    - by intros ? ?%not_elem_of_nil.
    - constructor.
    - intros k [Ho%negb_false_iff%bool_decide_eq_true Hk%negb_false_iff%Z.ltb_lt]%orb_false_iff. by apply Hlate. }
  match goal with |- context [bool_decide (slots = ?m)] => destruct (bool_decide_reflect (slots = m)) as [He|He] end;
    [|destruct (UpsertAggregates oks _ t) as [[err|] t'] eqn:Eu].
  - rewrite He in *. unfold accAccounted. cbn [fst snd].
    assert (upsertTotals oks (slotRows totalsRow (totalsOf <$> (∅ : gmap accKey accSlot))) (rowTotals <$> t) = (None, rowTotals <$> t)) as E0.
    { rewrite fmap_empty. done. }
    apply (Hacc _ _ E0).
  - specialize (Hacc _ _ Hw). rewrite bool_decide_eq_true_2 in Hacc by by eapply writeTierRows_fails.
    cbn [negb orb] in Hacc. unfold acc_requeue. destruct (requeueSlots cur _ _ _) as [lost cur'] eqn:Er. unfold accAccounted. cbn [fst snd fmap option_fmap option_map from_option] in *.
    pose proof (requeueSlots_map totalsOf cur (unwrittenSlots slots err aggregateKey) (fun k : accKey => negb (k.2 <? now - spanRollupRequeueAge))
      acc_merge totals_merge totalsOf_merge) as Hm. rewrite Er in Hm. cbn [snd] in Hm. rewrite Hm.
    by rewrite (unwrittenSlots_map totalsOf rowTotals slots err aggregateKey fst) by done.
  - specialize (Hacc _ _ Hw). exact Hacc.
Qed.
End Run.

Lemma accRun_log overflow interval ops : (accRun overflow interval ops).2.*2 = mjoin (accSpans <$> ops).
Proof.
  unfold accRun. induction ops as [|op ops IH] using rev_ind; [done|]. rewrite foldl_snoc, fmap_app, join_app. cbn [fmap list_fmap mjoin list_join].
  rewrite app_nil_r. destruct (foldl _ _ ops) as [[slots t] log]. cbn [snd] in IH. rewrite <- IH.
  destruct op as [spans|during now oks]; cbn [accStepOp accSpans]; [|destruct (acc_write _ _ _ _ _ _) as [[[? ?] ?] ?]]; cbn [snd];
    by rewrite fmap_app, keyed_spans.
Qed.

Lemma accRun_accounted overflow interval ops :
  fitsInt64 (mjoin (accSpans <$> ops)) -> accAccounted (fun k => givenUp ops k.2) (accRun overflow interval ops).
Proof.
  unfold accRun. induction ops as [|op ops IH] using rev_ind; intros Hf; [unfold accAccounted; cbn; rewrite !fmap_empty; apply accounted_empty|].
  pose proof (accRun_log overflow interval (ops ++ [op])) as Hlog. unfold accRun in Hlog. rewrite foldl_snoc in *.
  rewrite <- Hlog in Hf. rewrite fmap_app, join_app in Hlog.
  pose proof (accRun_log overflow interval ops) as Hlog0. unfold accRun in Hlog0.
  assert (accAccounted (fun k => givenUp (ops ++ [op]) k.2) (foldl (accStepOp overflow interval) (∅, ∅, []) ops)) as HA.
  { eapply accounted_late, IH.
    - intros k (d & n & o & Hin & Hlt). exists d, n, o. split; [by apply elem_of_app; left|done].
    - rewrite Hlog in Hf. by destruct (fitsInt64_app _ _ Hf). }
  destruct (foldl _ _ ops) as [[slots t] log]. destruct op as [spans|during now oks].
  - eapply (accounted_folds zeroTotals totals_observe); [apply totals_slots|exact HA| |exact Hf]. apply addSlots_fold.
  - apply flush_accounted; [done| |].
    + cbn [accStepOp] in Hf. by destruct (acc_write _ _ _ _ _ _) as [[[? ?] ?] ?].
    + intros Ho k Hk. exists during, now, oks. split; [apply elem_of_app; right; by left|done].
Qed.

(** C22: The accumulator counts every span once.  After any spans added and any flushes, with chunks of
    a write failing and spans added while it runs, the spans of a key are split between its open slot, its stored
    row and those given up: slot and row hold exactly the count, errors, weights, sum and maximum of their share, and spans are
    given up only when a failed flush found their bucket more than an hour old. *)
Theorem aggregates_count_once overflow interval ops :
  fitsInt64 (mjoin (accSpans <$> ops)) ->
  let '(slots, t, log) := accRun overflow interval ops in
  log.*2 = mjoin (accSpans <$> ops) /\
  forall k, exists inSlot inRow lost,
    under k log ≡ₚ inSlot ++ inRow ++ lost /\
    totalsOf <$> slots !! k = slotOf exactTotals inSlot /\
    rowTotals <$> t !! k = totalsRow k <$> slotOf exactTotals inRow /\
    (lost <> [] -> givenUp ops k.2).
Proof.
  intros Hf. pose proof (accRun_log overflow interval ops) as Hlog. pose proof (accRun_accounted overflow interval ops Hf) as HA.
  destruct (accRun overflow interval ops) as [[slots t] log]. split; [done|].
  destruct HA as (go & gs & gl & Hm & Ht & Hp & Hl). intros k. exists (go k), (gs k), (gl k). split_and!; auto.
  - specialize (Hm k). by rewrite lookup_fmap in Hm.
  - specialize (Ht k I). cbn [fst totalsRow] in Ht. by rewrite lookup_fmap in Ht.
Qed.

(** Two spans of one operation; the first flush fails, a third span comes in meanwhile, the second flush commits. *)
Definition demoSpan (us : Z) (status : string) : Span :=
  mkSpan 0 1 "t" "s" "" "GET /" "web" "" "server" status us 250 "" "" None None false 2.

Definition demoOps : list accOp :=
  [AccAdd [demoSpan 1 "ok"; demoSpan 2 "error"]; AccFlush [demoSpan 3 "ok"] 0 [false]; AccFlush [] 0 []].

Lemma aggregates_count_once_witness :
  let '(slots, t, log) := accRun (fun _ => 0) minute demoOps in
  log.*2 = mjoin (accSpans <$> demoOps) /\
  (ag_Count <$> t !! accKeyOf minute (demoSpan 1 "ok")) = Some 3 /\
  exists inSlot inRow lost, under (accKeyOf minute (demoSpan 1 "ok")) log ≡ₚ inSlot ++ inRow ++ lost.
Proof.
  pose proof (aggregates_count_once (fun _ => 0) minute demoOps ltac:(vm_compute; done)) as H.
  assert ((ag_Count <$> (accRun (fun _ => 0) minute demoOps).1.2 !! accKeyOf minute (demoSpan 1 "ok")) = Some 3) as Hc
    by (vm_compute; reflexivity).
  destruct (accRun (fun _ => 0) minute demoOps) as [[slots t] log]. destruct H as [Hl H]. split; [exact Hl|]. split; [exact Hc|].
  destruct (H (accKeyOf minute (demoSpan 1 "ok"))) as (a & b & c & Hp & _). exists a, b, c. exact Hp.
Defined.
