(* ===== verification/MetricDerive.v ===== *)
(** * From raw points to series ([internal/metrics/derive.go], [totals.go], [interleaved.go])

    Points are grouped by their label set, or by chosen keys of it, and derived by the type of
    the metric: counters as rates, distributions as percentiles, gauges as they are.  Decoding
    the JSON of a distribution and [math.Pow] are parameters. *)
From S2P Require Import Prelude Float64 MetricSeries MetricMerge MetricCounter.

(** [RenderKind] *)
Inductive RenderKind := RenderLine | RenderRate | RenderPercentile.

#[export] Instance RenderKind_eq_dec : EqDecision RenderKind.
Proof. solve_decision. Defined.

(** [RenderFor] *)
Definition RenderFor (metricType : string) : RenderKind :=
  if bool_decide (metricType = "sum"%string) then RenderRate
  else if bool_decide (metricType ∈ ["histogram"; "exp_histogram"; "summary"]%string) then RenderPercentile
  else RenderLine.

(** ** Percentiles of a distribution *)

(** The loop of [histogramQuantile] over the buckets from index [i] on; [None] is its end. *)
Fixpoint quantileLoop (bounds : list float64) (target cum : float64) (i : nat) (counts : list float64) : option float64 :=
  match counts with
  | [] => None
  | c :: counts =>
      if (cum + c <? target)%f64 then quantileLoop bounds target (cum + c)%f64 (S i) counts
      else
        let lower := match i with
                     | O => toFloat 0
                     | S j => default (toFloat 0) (bounds !! j)
                     end in
        Some (match bounds !! i with
              | None => lower
              | Some upper =>
                  if (c <=? toFloat 0)%f64 then lower
                  else let frac := ((target - cum) / c)%f64 in (lower + frac * (upper - lower))%f64
              end)
  end.

(** [histogramQuantile] *)
Definition histogramQuantile (bounds counts : list float64) (q : float64) : float64 :=
  if bool_decide (counts = []) then toFloat 0
  else
    let total := foldl (fun t c => (t + c)%f64) (toFloat 0) counts in
    if (total =? toFloat 0)%f64 then toFloat 0
    else
      match quantileLoop bounds (q * total)%f64 (toFloat 0) 0 counts with
      | Some v => v
      | None => default (toFloat 0) (last bounds)
      end.

Definition q50 : float64 := literal 50 100.

Definition q95 : float64 := literal 95 100.

Definition q99 : float64 := literal 99 100.

(** [expExtra], with the positive buckets; no code reads the negative ones. *)
Record expExtra := mkExp { ex_Scale : Z; ex_ZeroCount : Z; ex_Offset : Z; ex_BucketCounts : list Z }.

(** [summaryQuantile] *)
Record summaryQuantile := mkQuantile { sq_Quantile : float64; sq_Value : float64 }.

(** [math.Abs] *)
Definition Abs (x : float64) : float64 := SFabs x.

(** [math.MaxFloat64] *)
Definition MaxFloat64 : float64 := S754_finite false 9007199254740991 971.

(** [nearestQuantile] *)
Definition nearestQuantile (qs : list summaryQuantile) (q : float64) : float64 :=
  (foldl (fun st sq => let d := Abs (sq_Quantile sq - q)%f64 in if (d <? st.2)%f64 then (sq_Value sq, d) else st)
     (toFloat 0, MaxFloat64) qs).1.

Section Derive.
(** [json.Unmarshal] into [histExtra], [expExtra] and [summaryExtra]; [math.Pow]. *)
Context (decodeHist : string -> option histogram) (decodeExp : string -> option expExtra).
Context (decodeSummary : string -> option (list summaryQuantile)) (Pow : float64 -> float64 -> float64).

(** [expToExplicit]; [int] arithmetic on indices wraps. *)
Definition expToExplicit (e : expExtra) : list float64 * list float64 :=
  let base := Pow (toFloat 2) (Pow (toFloat 2) (toFloat (wrap64 (- ex_Scale e)))) in
  let zero := 0 <? ex_ZeroCount e in
  ((if zero then [toFloat 0] else []) ++
     imap (fun j _ => Pow base (toFloat (wrap64 (ex_Offset e + Z.of_nat j + 1)))) (ex_BucketCounts e),
   (if zero then [toFloat (ex_ZeroCount e)] else []) ++ (toFloat <$> ex_BucketCounts e) ++ [toFloat 0]).

Definition quantiles (bounds counts : list float64) : float64 * float64 * float64 :=
  (histogramQuantile bounds counts q50, histogramQuantile bounds counts q95, histogramQuantile bounds counts q99).

Definition noPercentiles : float64 * float64 * float64 := (toFloat 0, toFloat 0, toFloat 0).

(** [histogramPercentiles], [expHistogramPercentiles] and [summaryPercentiles] *)
Definition histogramPercentiles (extra : string) : float64 * float64 * float64 :=
  if bool_decide (extra = ""%string) then noPercentiles
  else match decodeHist extra with Some h => quantiles (hg_Bounds h) (hg_Counts h) | None => noPercentiles end.

Definition expHistogramPercentiles (extra : string) : float64 * float64 * float64 :=
  if bool_decide (extra = ""%string) then noPercentiles
  else match decodeExp extra with Some e => let '(b, c) := expToExplicit e in quantiles b c | None => noPercentiles end.

Definition summaryPercentiles (extra : string) : float64 * float64 * float64 :=
  if bool_decide (extra = ""%string) then noPercentiles
  else match decodeSummary extra with
       | Some qs => (nearestQuantile qs q50, nearestQuantile qs q95, nearestQuantile qs q99)
       | None => noPercentiles
       end.

(** [derivePercentiles] *)
Definition derivePercentiles (metricType : string) (points : list InputPoint) : list DerivedPoint :=
  (fun p =>
     let ps := if bool_decide (metricType = "histogram"%string) then histogramPercentiles (ip_Extra p)
               else if bool_decide (metricType = "exp_histogram"%string) then expHistogramPercentiles (ip_Extra p)
               else if bool_decide (metricType = "summary"%string) then summaryPercentiles (ip_Extra p)
               else noPercentiles in
     mkDerivedPoint (ip_T p) (toFloat 0) (Some ps) (ip_Count p)) <$> points.

(** [deriveGauge] *)
Definition deriveGauge (points : list InputPoint) : list DerivedPoint :=
  (fun p => mkDerived (ip_T p) (ip_Value p) (ip_Count p)) <$> points.

(** [Derive] *)
Definition Derive (metricType : string) (points : list InputPoint) : list DerivedPoint :=
  match RenderFor metricType with
  | RenderRate => deriveRate points
  | RenderPercentile => derivePercentiles metricType points
  | RenderLine => deriveGauge points
  end.

(** ** Grouping *)

(** The labels of [seriesKey]; a key given twice counts once. *)
Definition seriesLabels (groupBy : list string) (attrs : gmap string string) : gmap string string :=
  if bool_decide (groupBy = []) then attrs else filter (fun kv => kv.1 ∈ groupBy) attrs.

(** The bytes of [seriesKey]. *)
Definition labelBytes (labels : gmap string string) : list ascii :=
  mjoin ((fun k => bytesOf k ++ [Ascii.zero] ++ bytesOf (default "" (labels !! k))%string ++ [Ascii.zero]) <$> sortedKeys labels).

(** [seriesKey] of [derive.go] *)
Definition pointKey (groupBy : list string) (p : InputPoint) : list ascii := labelBytes (seriesLabels groupBy (ip_Attributes p)).

(** Points grouped by a key, in the order in which the keys are first seen. *)
Definition groupPoints (key : InputPoint -> list ascii) (points : list InputPoint) : list (list InputPoint) :=
  (fun k => filter (fun p => key p = k) points) <$> seenOrder (key <$> points).

(** [sharedPoints] *)
Definition sharedPoints (points : list InputPoint) : bool :=
  existsb (fun g => Interleaved (ip_Value <$> g))
    (groupPoints (pointKey []) (filter (fun p => ip_Delta p = false) points)).

(** [Series] *)
Record Series := mkSeries { se_Labels : gmap string string; se_Points : list DerivedPoint; se_SharedSeries : bool }.

(** The labels of a group are those of its first point. *)
Definition groupLabels (groupBy : list string) (points : list InputPoint) : gmap string string :=
  match points with p :: _ => seriesLabels groupBy (ip_Attributes p) | [] => ∅ end.

(** [BuildSeries] *)
Definition BuildSeries (metricType : string) (input : list InputPoint) (groupBy : list string) : list Series :=
  (fun points => mkSeries (groupLabels groupBy points) (Derive metricType points)
     (bool_decide (RenderFor metricType = RenderRate) && sharedPoints points)) <$> groupPoints (pointKey groupBy) input.

(** [Total] *)
Record Total := mkTotal { tt_Labels : gmap string string; tt_Total : float64; tt_SharedSeries : bool }.

(** Largest first: [b] does not come before [a]. *)
Definition largerTotal (a b : Total) : Prop := (tt_Total a <? tt_Total b)%f64 = false.

#[export] Instance largerTotal_dec : RelDecision largerTotal.
Proof. intros a b. unfold largerTotal. apply _. Defined.

(** The totals of [Totals], one per group of series. *)
Definition groupTotals (groupBy : list string) (series : list (list InputPoint)) : list Total :=
  (fun k =>
     let mine := filter (fun pts => labelBytes (groupLabels groupBy pts) = k) series in
     mkTotal (match mine with pts :: _ => groupLabels groupBy pts | [] => ∅ end)
       (foldl (fun t pts => (t + increase pts)%f64) (toFloat 0) mine) (existsb sharedPoints mine))
  <$> seenOrder ((fun pts => labelBytes (groupLabels groupBy pts)) <$> series).

(** [Totals] *)
Definition Totals (metricType : string) (input : list InputPoint) (groupBy : list string) : list Total :=
  if negb (bool_decide (metricType = "sum"%string)) then []
  else merge_sort largerTotal (groupTotals groupBy (groupPoints (pointKey []) input)).
End Derive.

(** ** Label sets and their keys *)

Definition noNul (s : string) : Prop := Ascii.zero ∉ bytesOf s.

(** No key or value has a NUL byte. *)
Definition labelsOk (labels : gmap string string) : Prop := map_Forall (fun k v => noNul k /\ noNul v) labels.

Lemma nul_split (a b x y : list ascii) : Ascii.zero ∉ a -> Ascii.zero ∉ b ->
  a ++ Ascii.zero :: x = b ++ Ascii.zero :: y -> a = b /\ x = y.
Proof.
  revert b. induction a as [|c a IH]; intros [|d b] Ha Hb E; cbn in E.
  - by injection E.
  - injection E as E1 E2. destruct Hb. rewrite <- E1. by left.
  - injection E as E1 E2. destruct Ha. rewrite E1. by left.
  - injection E as E1 E2. destruct (IH b) as [-> ->]; [by intros ?; apply Ha; right|by intros ?; apply Hb; right|done|by subst].
Qed.

(** The pairs whose bytes [labelBytes] concatenates. *)
Definition labelPairs (labels : gmap string string) : list (string * string) :=
  (fun k => (k, default "" (labels !! k))%string) <$> sortedKeys labels.

Definition pairBytes (kv : string * string) : list ascii := bytesOf kv.1 ++ [Ascii.zero] ++ bytesOf kv.2 ++ [Ascii.zero].

Lemma labelBytes_pairs labels : labelBytes labels = mjoin (pairBytes <$> labelPairs labels).
Proof. unfold labelBytes, labelPairs. by rewrite <- list_fmap_compose. Qed.

Lemma bytesOf_inj s t : bytesOf s = bytesOf t -> s = t.
Proof.
  unfold bytesOf. intros E. by rewrite <- (String.string_of_list_ascii_of_string s), E, String.string_of_list_ascii_of_string.
Qed.

Lemma pairBytes_inj ps : forall qs,
  Forall (fun kv => noNul kv.1 /\ noNul kv.2) ps -> Forall (fun kv => noNul kv.1 /\ noNul kv.2) qs ->
  mjoin (pairBytes <$> ps) = mjoin (pairBytes <$> qs) -> ps = qs.
Proof.
  assert (forall kv (l : list ascii), [] <> pairBytes kv ++ l) as Hne by (intros [k v] l E; unfold pairBytes in E; cbn [fst] in E; by destruct (bytesOf k)).
  induction ps as [|[k v] ps IH]; intros [|[k' v'] qs] Hp Hq E; [done| | |].
  { by destruct (Hne (k', v') (mjoin (pairBytes <$> qs)) E). }
  { by destruct (Hne (k, v) (mjoin (pairBytes <$> ps)) (eq_sym E)). }
  apply Forall_cons in Hp as [[Hk Hv] Hp]. apply Forall_cons in Hq as [[Hk' Hv'] Hq]. cbn [fst snd] in *.
  change (mjoin (pairBytes <$> (k, v) :: ps)) with (pairBytes (k, v) ++ mjoin (pairBytes <$> ps)) in E.
  change (mjoin (pairBytes <$> (k', v') :: qs)) with (pairBytes (k', v') ++ mjoin (pairBytes <$> qs)) in E.
  unfold pairBytes at 1 3 in E. cbn [fst snd] in E. rewrite <- !app_assoc in E. cbn [app] in E.
  apply nul_split in E as [Ek%bytesOf_inj E]; [|done|done]. apply nul_split in E as [Ev%bytesOf_inj E]; [|done|done].
  by rewrite Ek, Ev, (IH qs).
Qed.

Lemma elem_of_sortedKeys k labels : k ∈ sortedKeys labels <-> is_Some (labels !! k).
Proof.
  unfold sortedKeys. rewrite merge_sort_Permutation, list_elem_of_fmap. split.
  - intros ([k' v] & -> & Hin%elem_of_map_to_list). by exists v.
  - intros [v Hv]. exists (k, v). by rewrite elem_of_map_to_list.
Qed.

Lemma labelPairs_lookup labels k v : (k, v) ∈ labelPairs labels <-> labels !! k = Some v.
Proof.
  unfold labelPairs. rewrite list_elem_of_fmap. split.
  - intros (k' & [= -> ->] & [w Hw]%elem_of_sortedKeys). by rewrite Hw.
  - intros Hv. exists k. rewrite Hv. split; [done|]. apply elem_of_sortedKeys. by exists v.
Qed.

Lemma labelPairs_ok labels : labelsOk labels -> Forall (fun kv => noNul kv.1 /\ noNul kv.2) (labelPairs labels).
Proof. intros Hok. apply Forall_forall. intros [k v] Hv%labelPairs_lookup. by apply Hok in Hv. Qed.

Lemma labelBytes_inj l1 l2 : labelsOk l1 -> labelsOk l2 -> labelBytes l1 = labelBytes l2 -> l1 = l2.
Proof.
  intros H1 H2. rewrite !labelBytes_pairs. intros E%pairBytes_inj; [|by apply labelPairs_ok|by apply labelPairs_ok].
  apply map_eq. intros k. apply option_eq. intros v. rewrite <- !labelPairs_lookup. by rewrite E.
Qed.

Lemma seriesLabels_ok groupBy attrs : labelsOk attrs -> labelsOk (seriesLabels groupBy attrs).
Proof.
  intros Hok. unfold seriesLabels. case_bool_decide; [done|]. intros k v [Hv _]%map_lookup_filter_Some. by apply Hok.
Qed.

(** Grouping by an injective image of a key is grouping by the key. *)
Lemma seenOrder_fmap {A B} `{EqDecision A, EqDecision B} (f : A -> B) l :
  (forall a b, a ∈ l -> b ∈ l -> f a = f b -> a = b) -> seenOrder (f <$> l) = f <$> seenOrder l.
Proof.
  induction l as [|a l IH]; intros Hf; [done|]. cbn [fmap list_fmap seenOrder]. f_equal.
  rewrite IH by (intros; apply Hf; [by right|by right|done]).
  assert (forall k, k ∈ seenOrder l -> f k = f a -> k = a) as Hk.
  { intros k Hk E. apply Hf; [right; by apply elem_of_seenOrder|by left|done]. }
  clear IH Hf. induction (seenOrder l) as [|k s IHs]; [done|]. cbn [fmap list_fmap]. rewrite !filter_cons.
  rewrite (decide_ext (f k <> f a) (k <> a)) by (split; intros Hne E; apply Hne; [by subst|by apply Hk; [left|]]).
  destruct (decide (k <> a)); cbn [fmap list_fmap]; rewrite IHs by (intros; apply Hk; [by right|done]); done.
Qed.

(** C25: Points are grouped by their labels.  For label sets without NUL bytes, the series [BuildSeries] returns
    are one per distinct label set, in the order of first appearance: each carries that label set, and its points are derived from
    exactly the points with that label set (or with those values of the grouping keys), in the order given. *)
Theorem BuildSeries_by_labels decodeHist decodeExp decodeSummary Pow metricType input groupBy :
  Forall (fun p => labelsOk (ip_Attributes p)) input ->
  BuildSeries decodeHist decodeExp decodeSummary Pow metricType input groupBy =
  (fun labels =>
     let points := filter (fun p => seriesLabels groupBy (ip_Attributes p) = labels) input in
     mkSeries labels (Derive decodeHist decodeExp decodeSummary Pow metricType points)
       (bool_decide (RenderFor metricType = RenderRate) && sharedPoints points))
  <$> seenOrder ((fun p => seriesLabels groupBy (ip_Attributes p)) <$> input).
Proof.
  intros Hok. unfold BuildSeries, groupPoints. set (lab := fun p => seriesLabels groupBy (ip_Attributes p)).
  assert (forall p, p ∈ input -> labelsOk (lab p)) as Hl.
  { intros p Hp. apply seriesLabels_ok. by apply (proj1 (Forall_forall _ _) Hok). }
  assert (pointKey groupBy <$> input = labelBytes <$> (lab <$> input)) as -> by (rewrite <- list_fmap_compose; done).
  rewrite seenOrder_fmap.
  2:{ intros a b (p & -> & Hp)%list_elem_of_fmap (q & -> & Hq)%list_elem_of_fmap. by apply labelBytes_inj; apply Hl. }
  rewrite <- !list_fmap_compose. apply list_fmap_ext. intros i labels Hi. cbn [compose].
  assert (labels ∈ lab <$> input) as (p0 & E0 & Hp0)%list_elem_of_fmap by (apply elem_of_seenOrder, list_elem_of_lookup; by exists i).
  assert (labelsOk labels) as Hlok by (rewrite E0; by apply Hl).
  assert (filter (fun p => pointKey groupBy p = labelBytes labels) input = filter (fun p => lab p = labels) input) as Hfilter.
  { clear Hi Hok. revert Hl. generalize input. intros l Hl. induction l as [|p l IH]; [done|]. rewrite !filter_cons.
    rewrite (decide_ext (pointKey groupBy p = labelBytes labels) (lab p = labels)).
    2:{ split; [|by intros <-]. intros E. apply labelBytes_inj; [apply Hl; by left|done|done]. }
    rewrite IH by (intros q Hq; apply Hl; by right). done. }
  unfold compose. rewrite Hfilter. f_equal.
  assert (p0 ∈ filter (fun p => lab p = labels) input) as Hin by (by apply list_elem_of_filter).
  destruct (filter (fun p => lab p = labels) input) as [|p ps] eqn:Ef; [by apply elem_of_nil in Hin|]. cbn [groupLabels].
  assert (p ∈ filter (fun p => lab p = labels) input) as [Hlab _]%list_elem_of_filter by (rewrite Ef; by left). done.
Qed.

Definition exampleLabels (v : string) : gmap string string := {["host" := v]}.

Lemma BuildSeries_by_labels_witness :
  let points := [mkPoint 0 (toFloat 1) 1 true 60 "" (exampleLabels "a"); mkPoint 0 (toFloat 2) 1 true 60 "" (exampleLabels "b");
                 mkPoint 60 (toFloat 3) 1 true 60 "" (exampleLabels "a")] in
  se_Labels <$> BuildSeries (fun _ => None) (fun _ => None) (fun _ => None) (fun a _ => a) "sum" points ["host"%string]
  = [exampleLabels "a"; exampleLabels "b"].
Proof.
  intros points. rewrite (BuildSeries_by_labels (fun _ => None) (fun _ => None) (fun _ => None) (fun a _ => a) "sum" points ["host"%string]).
  - vm_compute. reflexivity.
  - assert (forall v, noNul v -> labelsOk (exampleLabels v)) as Hl.
    { intros v Hv. apply map_Forall_singleton. split; [|done]. apply (bool_decide_unpack _). by vm_compute. }
    repeat apply Forall_cons_2; [| | |by apply Forall_nil_2]; apply Hl, (bool_decide_unpack _); by vm_compute.
Defined.
