(* ===== verification/Alerts.v ===== *)
(** * Threshold alerts ([internal/alert/evaluator.go], [metric_eval.go], [evalfail.go],
    [runner.go]; [repository/repo_alerts.go], [api/alerts.go])

    Every tick the runner evaluates the alerts of every project against the aggregates or the
    metric rollups, notifies when a value passes its threshold and records the time.  Calls to
    the database and the notifier take their outcome from the calls to come, with the writes of
    other requests before them.  A Go panic ends the runner and is an outcome of its own.  JSON
    is a parameter. *)
From S2P Require Import Prelude Model TierStore Float64 Slo MetricSeries MetricMerge MetricCompaction.
From S2P Require Import Aggregates MetricDerive.

(** ** Records *)

(** [repository.Alert] *)
Record Alert := mkAlert {
  al_ID : Z;
  al_ProjectID : Z;
  al_Service : string;
  al_Operation : string;
  al_Type : string;
  al_Threshold : float64;
  al_ComparisonWindow : Z;
  al_CooldownMinutes : Z;
  al_WebhookURL : string;
  al_Email : string;
  al_Enabled : bool;
  al_MetricName : string;
  al_MetricAgg : string;
  al_LabelFilters : string;
  al_LastTriggeredAt : option Z;
}.

(** [AlertPayload] *)
Record AlertPayload := mkPayload {
  pa_AlertID : Z;
  pa_Service : string;
  pa_Operation : string;
  pa_Type : string;
  pa_Threshold : float64;
  pa_Current : float64;
  pa_Average : float64;
  pa_TriggeredAt : Z;
}.

(** An error that is a timeout or a cancelled context, or another one. *)
Inductive alertErr := ATimedOut | AFailed.

(** What stops a computation: an error or a panic. *)
Inductive alertStop := AErr (e : alertErr) | APanic.

(** What the evaluator did: notifications, a trigger recorded (with the alert as it was read), a
    trigger that could not be recorded, and log lines. *)
Inductive alertEvent :=
| AWebhook (url : string) (p : AlertPayload)
| AMail (to_ subject : string) (p : AlertPayload)
| ATriggered (a : Alert) (at_ : Z)
| AUnrecorded (a : Alert) (at_ : Z)
| ALogged (error : bool) (id : Z) (e : alertErr).

(** A write of another request, or of ingest. *)
Inductive alertWrite :=
| WCreateAlert (a : Alert)
| WUpdateAlert (a : Alert)
| WDeleteAlert (id : Z)
| WAggregates (rows : list Aggregate)
| WRollups (rows : list MetricRollup).

(** The alerts in the order of their ids and the next id; the rows of the aggregates and metric
    rollups as SQLite reads them; the counts of [evalFailures]; the calls to come and the
    history. *)
Record alertWorld := mkAlertWorld {
  aw_alerts : list Alert;
  aw_next : Z;
  aw_aggs : list Aggregate;
  aw_rollups : list MetricRollup;
  aw_failures : gmap Z Z;
  aw_calls : list (list alertWrite * option alertErr);
  aw_events : list alertEvent;
}.

(** ** The table *)

Section Table.
Context (trimSpace : string -> string).

(** [normalizeLabelFilters] *)
Definition normalizeLabelFilters (s : string) : string := if bool_decide (trimSpace s = ""%string) then "{}" else s.

(** [Repository.ListAlerts] *)
Definition ListAlerts (projectID : Z) (alerts : list Alert) : list Alert :=
  if projectID =? 0 then alerts else filter (fun a => al_ProjectID a = projectID) alerts.

(** The columns [CreateAlert] and [UpdateAlert] write. *)
Definition alertRow (id projectID : Z) (lastTriggered : option Z) (a : Alert) : Alert :=
  mkAlert id projectID (al_Service a) (al_Operation a) (al_Type a) (al_Threshold a) (al_ComparisonWindow a)
    (al_CooldownMinutes a) (al_WebhookURL a) (al_Email a) (al_Enabled a) (al_MetricName a) (al_MetricAgg a)
    (normalizeLabelFilters (al_LabelFilters a)) lastTriggered.

(** [Repository.CreateAlert] *)
Definition CreateAlert (a : Alert) (next : Z) (alerts : list Alert) : list Alert :=
  alerts ++ [alertRow next (al_ProjectID a) None a].

(** [Repository.UpdateAlert] *)
Definition UpdateAlert (a : Alert) (alerts : list Alert) : list Alert :=
  (fun t => if al_ID t =? al_ID a then alertRow (al_ID t) (al_ProjectID t) (al_LastTriggeredAt t) a else t) <$> alerts.

(** [Repository.DeleteAlert] *)
Definition DeleteAlert (id : Z) (alerts : list Alert) : list Alert := filter (fun a => al_ID a <> id) alerts.

(** [Repository.UpdateAlertLastTriggered] *)
Definition withTriggered (at_ : Z) (t : Alert) : Alert :=
  mkAlert (al_ID t) (al_ProjectID t) (al_Service t) (al_Operation t) (al_Type t) (al_Threshold t) (al_ComparisonWindow t)
    (al_CooldownMinutes t) (al_WebhookURL t) (al_Email t) (al_Enabled t) (al_MetricName t) (al_MetricAgg t)
    (al_LabelFilters t) (Some at_).

Definition UpdateAlertLastTriggered (id at_ : Z) (alerts : list Alert) : list Alert :=
  (fun t => if al_ID t =? id then withTriggered at_ t else t) <$> alerts.

(** ** The monad *)

Definition AM (A : Type) : Type := alertWorld -> (A + alertStop) * alertWorld.

#[export] Instance AM_ret : MRet AM := fun A a w => (inl a, w).

#[export] Instance AM_bind : MBind AM := fun A B f m w =>
  match m w with (inl a, w) => f a w | (inr e, w) => (inr e, w) end.

Definition fail {A} (e : alertErr) : AM A := fun w => (inr (AErr e), w).

Definition panic {A} : AM A := fun w => (inr APanic, w).

(** The error of a call as a value; a panic goes on. *)
Definition catch (m : AM unit) : AM (option alertErr) := fun w =>
  match m w with
  | (inl _, w) => (inl None, w)
  | (inr (AErr e), w) => (inl (Some e), w)
  | (inr APanic, w) => (inr APanic, w)
  end.

Definition setAlerts (alerts : list Alert) (w : alertWorld) : alertWorld :=
  mkAlertWorld alerts (aw_next w) (aw_aggs w) (aw_rollups w) (aw_failures w) (aw_calls w) (aw_events w).

Definition noteAlert (e : alertEvent) (w : alertWorld) : alertWorld :=
  mkAlertWorld (aw_alerts w) (aw_next w) (aw_aggs w) (aw_rollups w) (aw_failures w) (aw_calls w) (aw_events w ++ [e]).

Definition setFailures (f : gmap Z Z) (w : alertWorld) : alertWorld :=
  mkAlertWorld (aw_alerts w) (aw_next w) (aw_aggs w) (aw_rollups w) f (aw_calls w) (aw_events w).

Definition applyAlertWrite (w : alertWorld) (op : alertWrite) : alertWorld :=
  match op with
  | WCreateAlert a =>
      mkAlertWorld (CreateAlert a (aw_next w) (aw_alerts w)) (aw_next w + 1) (aw_aggs w) (aw_rollups w) (aw_failures w)
        (aw_calls w) (aw_events w)
  | WUpdateAlert a => setAlerts (UpdateAlert a (aw_alerts w)) w
  | WDeleteAlert id => setAlerts (DeleteAlert id (aw_alerts w)) w
  | WAggregates rows =>
      mkAlertWorld (aw_alerts w) (aw_next w) rows (aw_rollups w) (aw_failures w) (aw_calls w) (aw_events w)
  | WRollups rows => mkAlertWorld (aw_alerts w) (aw_next w) (aw_aggs w) rows (aw_failures w) (aw_calls w) (aw_events w)
  end.

(** The next call: the writes before it and its outcome. *)
Definition nextAlertCall (w : alertWorld) : option alertErr * alertWorld :=
  let '(ops, out) := hd ([], None) (aw_calls w) in
  let w := mkAlertWorld (aw_alerts w) (aw_next w) (aw_aggs w) (aw_rollups w) (aw_failures w) (tl (aw_calls w)) (aw_events w) in
  (out, foldl applyAlertWrite w ops).

(** A call that reads. *)
Definition aread {A} (f : alertWorld -> A) : AM A := fun w =>
  let '(out, w) := nextAlertCall w in
  match out with None => (inl (f w), w) | Some e => (inr (AErr e), w) end.

(** A delivery; its error is only logged. *)
Definition deliverAlert (e : alertEvent) : AM unit := fun w =>
  let '(out, w) := nextAlertCall w in
  match out with None => (inl tt, noteAlert e w) | Some _ => (inl tt, w) end.

(** [triggers.UpdateAlertLastTriggered] *)
Definition recordTrigger (a : Alert) (now : Z) : AM unit := fun w =>
  let '(out, w) := nextAlertCall w in
  match out with
  | None => (inl tt, noteAlert (ATriggered a now) (setAlerts (UpdateAlertLastTriggered (al_ID a) now (aw_alerts w)) w))
  | Some e => (inr (AErr e), noteAlert (AUnrecorded a now) w)
  end.

(** ** Aggregates of an alert *)

Definition aggregateLookback : Z := 24 * hour.

Definition aggregateRowCap : Z := 50000.

Definition minLookback : Z := hour.

(** [lookbackFor] *)
Definition lookbackFor (comparisonWindow interval : Z) : Z :=
  let comparisonWindow := if comparisonWindow <? 0 then 0 else comparisonWindow in
  let d := wrap64 (wrap64 (comparisonWindow + 1) * interval) in
  if d <? minLookback then minLookback else if aggregateLookback <? d then aggregateLookback else d.

Section Evaluator.
Context (overflow : float64 -> Z).

(** [Aggregate.WeightedEstimate] *)
Definition WeightedEstimate (a : Aggregate) : option Z :=
  Weights_Estimate (ag_Count a) (mkWeights (ag_WeightedCount a) (ag_WeightedSpans a)).

(** [estimateCount] *)
Definition estimateCount (a : Aggregate) (sampleRate : float64) : Z :=
  match WeightedEstimate a with
  | Some n => n
  | None => inflateCount overflow (ag_Count a) (ag_ErrorCount a) sampleRate
  end.

(** The bucket that [sumByBucket] starts for a row, and a row added to it, with the weighted sum
    of percentiles. *)
Definition newBucket (r : Aggregate) : Aggregate * float64 :=
  (mkAggregate (ag_ProjectID r) (ag_Service r) "" "" "" (ag_Bucket r) 0 0 0 0 0 0 0 0 0, toFloat 0).

Definition addToBucket (b : Aggregate * float64) (r : Aggregate) : Aggregate * float64 :=
  let '(b, weighted) := b in
  (mkAggregate (ag_ProjectID b) (ag_Service b) (ag_Operation b) (ag_Resource b) (ag_Kind b) (ag_Bucket b)
     (wrap64 (ag_Count b + ag_Count r)) (wrap64 (ag_ErrorCount b + ag_ErrorCount r)) (ag_P50Us b) (ag_P95Us b) (ag_P99Us b)
     (ag_MaxUs b) (ag_SumDurationUs b) (wrap64 (ag_WeightedCount b + ag_WeightedCount r))
     (wrap64 (ag_WeightedSpans b + ag_WeightedSpans r)),
   (weighted + toFloat (ag_P95Us r) * toFloat (ag_Count r))%f64).

(** The last loop of [sumByBucket]. *)
Definition finishBucket (b : Aggregate * float64) : Aggregate :=
  let '(b, weighted) := b in
  mkAggregate (ag_ProjectID b) (ag_Service b) (ag_Operation b) (ag_Resource b) (ag_Kind b) (ag_Bucket b) (ag_Count b)
    (ag_ErrorCount b) (ag_P50Us b)
    (if 0 <? ag_Count b then toInt64 overflow (weighted / toFloat (ag_Count b))%f64 else ag_P95Us b)
    (ag_P99Us b) (ag_MaxUs b) (ag_SumDurationUs b) (ag_WeightedCount b) (ag_WeightedSpans b).

(** A turn of its first loop; the newest bucket built comes first in [out]. *)
Definition sumRow (out : list (Aggregate * float64)) (r : Aggregate) : list (Aggregate * float64) :=
  match out with
  | b :: out => if ag_Bucket b.1 =? ag_Bucket r then addToBucket b r :: out else addToBucket (newBucket r) r :: b :: out
  | [] => [addToBucket (newBucket r) r]
  end.

(** [sumByBucket] *)
Definition sumByBucket (rows : list Aggregate) : list Aggregate := finishBucket <$> reverse (foldl sumRow [] rows).

(** [Evaluator.serviceBuckets] *)
Definition serviceBuckets (aggInterval : Z) (a : Alert) (now : Z) : AM (list Aggregate) :=
  rows ← aread (fun w => QueryAggregates
    (mkAggFilter (al_ProjectID a) (al_Service a) (al_Operation a) "" (Some (now - lookbackFor (al_ComparisonWindow a) aggInterval))
       (Some now) aggregateRowCap 0) (aw_aggs w));
  mret (sumByBucket rows).

(** ** The trigger gate *)

Definition fifth : float64 := literal 20 100.

(** Whether [maybeTrigger] goes on: the threshold is reached, and the value is more than a fifth
    above the average where there is one. *)
Definition passesGate (threshold currentVal avgVal : float64) (hasHistory : bool) : bool :=
  negb (currentVal <? threshold)%f64 &&
  negb (hasHistory && (avgVal >? toFloat 0)%f64 && (((currentVal - avgVal) / avgVal) <=? fifth)%f64).

(** [Evaluator.maybeTrigger] *)
Definition maybeTrigger (a : Alert) (currentVal avgVal : float64) (hasHistory : bool) (now : Z) : AM unit :=
  if negb (passesGate (al_Threshold a) currentVal avgVal hasHistory) then mret tt
  else
    let target := if bool_decide (al_Type a = "metric_threshold"%string) then al_MetricName a else al_Service a in
    let payload := mkPayload (al_ID a) (al_Service a) (al_Operation a) (al_Type a) (al_Threshold a) currentVal avgVal now in
    _ ← (if nonEmpty (al_WebhookURL a) then deliverAlert (AWebhook (al_WebhookURL a) payload) else mret tt);
    _ ← (if nonEmpty (al_Email a)
         then deliverAlert (AMail (al_Email a) ("[SpanBarn Alert] " +:+ al_Type a +:+ " regression on " +:+ target) payload)
         else mret tt);
    recordTrigger a now.

(** ** Values *)

Definition thousand : float64 := toFloat 1000.

Definition hundred : float64 := toFloat 100.

(** The values of a latency alert: the current one and the average of the history. *)
Definition latencyValues (current : Aggregate) (history : list Aggregate) : float64 * float64 :=
  ((toFloat (ag_P95Us current) / thousand)%f64,
   if bool_decide (history = []) then toFloat 0
   else let sum := foldl (fun s h => wrap64 (s + ag_P95Us h)) 0 history in
        (toFloat sum / toFloat (Z.of_nat (length history)) / thousand)%f64).

(** The values of an error-rate alert. *)
Definition errorRateValues (sr : float64) (current : Aggregate) (history : list Aggregate) : float64 * float64 :=
  let eff := estimateCount current sr in
  (if 0 <? eff then (toFloat (ag_ErrorCount current) / toFloat eff * hundred)%f64 else toFloat 0,
   if bool_decide (history = []) then toFloat 0
   else let totals := foldl (fun t h => (wrap64 (t.1 + ag_ErrorCount h), wrap64 (t.2 + estimateCount h sr))) (0, 0) history in
        if 0 <? totals.2 then (toFloat totals.1 / toFloat totals.2 * hundred)%f64 else toFloat 0).

(** ** Metric alerts *)

Context (parseAttributes : string -> gmap string string) (attrsQuery : gmap string string -> option (string -> bool)).
Context (decodeHist : string -> option histogram) (encodeHist : histogram -> option string).
Context (decodeExp : string -> option expExtra) (decodeSummary : string -> option (list summaryQuantile)).
Context (Pow : float64 -> float64 -> float64).

(** [metricLookbackPadding] *)
Definition metricLookbackPadding : Z := 2.

(** [parseLabelFilters] *)
Definition parseLabelFilters (raw : string) : gmap string string :=
  if bool_decide (raw = ""%string) then ∅ else parseAttributes raw.

(** [ORDER BY bucket DESC] *)
Definition newerRollup (a b : MetricRollup) : Prop := mr_Bucket b <= mr_Bucket a.

#[export] Instance newerRollup_dec : RelDecision newerRollup.
Proof. intros a b. unfold newerRollup. apply _. Defined.

(** [Repository.QueryMetricRollups] without a limit of its own; [attrsQuery] is the predicate of
    [appendAttrFilters], [None] when it refuses a key. *)
Definition QueryMetricRollups (projectID : Z) (name : string) (from to : Z) (attrs : gmap string string)
  (rows : list MetricRollup) : option (list MetricRollup) :=
  match attrsQuery attrs with
  | None => None
  | Some pred =>
      Some (reverse (takeZ 10000 (merge_sort newerRollup
        (filter (fun m => mr_ProjectID m = projectID /\ mr_Name m = name /\ from <= mr_Bucket m <= to /\ pred (mr_Attributes m) = true) rows))))
  end.

(** [bucketAgg] *)
Record bucketAgg := mkBucketAgg {
  bg_count : Z;
  bg_obs : Z;
  bg_sum : float64;
  bg_last : float64;
  bg_typ : string;
  bg_delta : bool;
  bg_hist : option histogram;
  bg_lastExtra : string;
}.

(** [bucketAgg.mergeExtra] *)
Definition mergeExtra (r : MetricRollup) (hist : option histogram) (lastExtra : string) : option histogram * string :=
  if bool_decide (mr_Extra r = ""%string) then (hist, lastExtra)
  else if negb (bool_decide (mr_Type r = "histogram"%string)) then (hist, mr_Extra r)
  else
    match decodeHist (mr_Extra r) with
    | None => (hist, lastExtra)
    | Some h =>
        (match hist with
         | Some g => if negb (length (hg_Counts g) =? length (hg_Counts h))%nat then Some h
                     else Some (mkHistogram (hg_Bounds g) (zip_with (fun a b => (a + b)%f64) (hg_Counts g) (hg_Counts h)))
         | None => Some h
         end, lastExtra)
    end.

(** The turn of [mergeRollupsByBucket] for a row. *)
Definition mergeRollup (byBucket : gmap Z bucketAgg) (r : MetricRollup) : gmap Z bucketAgg :=
  let g := default (mkBucketAgg 0 0 (toFloat 0) (toFloat 0) (mr_Type r)
                      (bool_decide (mr_Type r = "sum"%string) && bool_decide (mr_Temporality r = TemporalityDelta)) None "")
             (byBucket !! mr_Bucket r) in
  let '(hist, lastExtra) := mergeExtra r (bg_hist g) (bg_lastExtra g) in
  <[mr_Bucket r := mkBucketAgg (wrap64 (bg_count g + mr_Count r)) (wrap64 (bg_obs g + mr_ObsCount r)) (bg_sum g + mr_Sum r)%f64
                     (bg_last g + mr_Last r)%f64 (bg_typ g) (bg_delta g) hist lastExtra]> byBucket.

(** The point of a bucket. *)
Definition bucketPoint (t : Z) (g : bucketAgg) : InputPoint :=
  let value := bg_last g in
  let value := if bg_delta g then bg_sum g else value in
  let value := if bool_decide (bg_typ g = "gauge"%string) && (0 <? bg_count g) then (bg_sum g / toFloat (bg_count g))%f64 else value in
  let extra := match bg_hist g with
               | Some h => default "" (encodeHist h)
               | None => bg_lastExtra g
               end in
  mkPoint t value (bg_obs g) (bg_delta g) (Rollup5mStep * second) extra ∅.

(** The order of [mergeRollupsByBucket]. *)
Definition earlierBucket (a b : Z * bucketAgg) : Prop := a.1 <= b.1.

#[export] Instance earlierBucket_dec : RelDecision earlierBucket.
Proof. intros a b. unfold earlierBucket. apply _. Defined.

(** [mergeRollupsByBucket] *)
Definition mergeRollupsByBucket (rows : list MetricRollup) : list InputPoint :=
  let byBucket := foldl mergeRollup ∅ rows in
  (fun tg => bucketPoint tg.1 tg.2) <$> merge_sort earlierBucket (map_to_list byBucket).

(** [metricScalar] *)
Definition metricScalar (agg : string) (render : RenderKind) (d : DerivedPoint) : float64 :=
  if bool_decide (agg = "p95"%string) || bool_decide (render = RenderPercentile) then
    match dp_Percentiles d with Some (_, p95, _) => p95 | None => toFloat 0 end
  else dp_Value d.

(** The values of a metric alert, and whether there is history: the last scalar and the average of the
    others; [None] when no point was derived. *)
Definition metricValues (agg : string) (rows : list MetricRollup) : option (float64 * float64 * bool) :=
  let metricType := default "" (mr_Type <$> head rows) in
  let derived := Derive decodeHist decodeExp decodeSummary Pow metricType (mergeRollupsByBucket rows) in
  let scalars := metricScalar agg (RenderFor metricType) <$> derived in
  match last scalars with
  | None => None
  | Some currentVal =>
      let history := removelast scalars in
      let hasHistory := (1 <? length scalars)%nat in
      Some (currentVal,
        if hasHistory then (foldl (fun s v => (s + v)%f64) (toFloat 0) history / toFloat (Z.of_nat (length history)))%f64 else toFloat 0,
        hasHistory)
  end.

(** [Evaluator.evaluateMetricAlert] *)
Definition evaluateMetricAlert (a : Alert) (now : Z) : AM unit :=
  if bool_decide (al_MetricName a = ""%string) then fail AFailed
  else
    let window := if al_ComparisonWindow a <=? 0 then 10 else al_ComparisonWindow a in
    let from := now + wrap64 (- wrap64 (window + metricLookbackPadding) * minute) in
    rows ← aread (fun w => QueryMetricRollups (al_ProjectID a) (al_MetricName a) from now (parseLabelFilters (al_LabelFilters a)) (aw_rollups w));
    match rows with
    | None => fail AFailed
    | Some [] => mret tt
    | Some rows =>
        match metricValues (al_MetricAgg a) rows with
        | None => mret tt
        | Some (currentVal, avgVal, hasHistory) => maybeTrigger a currentVal avgVal hasHistory now
        end
    end.

(** ** Evaluation *)

(** [historyAggs[:a.ComparisonWindow]] panics below zero. *)
Definition historyWindow (comparisonWindow : Z) (history : list Aggregate) : AM (list Aggregate) :=
  if comparisonWindow <? Z.of_nat (length history) then
    if comparisonWindow <? 0 then panic else mret (take (Z.to_nat comparisonWindow) history)
  else mret history.

(** [Evaluator.evaluateAlert]; [ratio] is the sample ratio lookup. *)
Definition evaluateAlert (aggInterval : Z) (ratio : option (Z -> Z)) (a : Alert) (now : Z) : AM unit :=
  if bool_decide (al_Type a = "metric_threshold"%string) then evaluateMetricAlert a now
  else
    buckets ← serviceBuckets aggInterval a now;
    match buckets with
    | [] => mret tt
    | current :: history =>
        history ← historyWindow (al_ComparisonWindow a) history;
        let hasHistory := negb (bool_decide (history = [])) in
        if bool_decide (al_Type a = "latency"%string) then
          let '(c, v) := latencyValues current history in maybeTrigger a c v hasHistory now
        else if bool_decide (al_Type a = "error_rate"%string) then
          let '(c, v) := errorRateValues (sampleRateFor ratio (al_ProjectID a)) current history in maybeTrigger a c v hasHistory now
        else fail AFailed
    end.

Definition evalFailConfirm : Z := 3.

(** [evalFailures.record]: whether to log an error, and the counts. *)
Definition recordFailure (alertID : Z) (err : option alertErr) (counts : gmap Z Z) : bool * gmap Z Z :=
  match err with
  | Some ATimedOut =>
      let n := default 0 (counts !! alertID) + 1 in (evalFailConfirm <=? n, <[alertID := n]> counts)
  | None => (false, delete alertID counts)
  | Some AFailed => (true, delete alertID counts)
  end.

(** The cooldown test of [Evaluate]. *)
Definition coolingDown (now : Z) (a : Alert) : bool :=
  match al_LastTriggeredAt a with
  | Some t => now <? t + wrap64 (al_CooldownMinutes a * minute)
  | None => false
  end.

(** The record and the log line after an evaluation. *)
Definition afterEvaluation (id : Z) (err : option alertErr) : AM unit := fun w =>
  let '(log, counts) := recordFailure id err (aw_failures w) in
  let w := setFailures counts w in
  (inl tt, match err with Some e => noteAlert (ALogged log id e) w | None => w end).

(** The loop of [Evaluate]. *)
Fixpoint evaluateEnabled (aggInterval : Z) (ratio : option (Z -> Z)) (now : Z) (alerts : list Alert) : AM unit :=
  match alerts with
  | [] => mret tt
  | a :: alerts =>
      _ ← aread (fun _ => tt);
      _ ← (if negb (al_Enabled a) || coolingDown now a then mret tt
           else err ← catch (evaluateAlert aggInterval ratio a now); afterEvaluation (al_ID a) err);
      evaluateEnabled aggInterval ratio now alerts
  end.

(** [Evaluator.Evaluate] *)
Definition Evaluate (aggInterval : Z) (ratio : option (Z -> Z)) (now projectID : Z) : AM unit :=
  alerts ← aread (fun w => ListAlerts projectID (aw_alerts w));
  evaluateEnabled aggInterval ratio now alerts.

(** The loop of [Runner.tick] over the projects; a clock reading per project. *)
Fixpoint tickProjects (aggInterval : Z) (ratio : option (Z -> Z)) (ids : list (Z * Z)) : AM unit :=
  match ids with
  | [] => mret tt
  | (id, now) :: ids =>
      _ ← aread (fun _ => tt);
      _ ← catch (Evaluate aggInterval ratio now id);
      tickProjects aggInterval ratio ids
  end.

(** [Runner.tick], without the SLO pass; a cancelled context or a failed list of projects ends it. *)
Definition tick (aggInterval : Z) (ratio : option (Z -> Z)) (ids : list (Z * Z)) : AM unit :=
  _ ← aread (fun _ => tt);
  tickProjects aggInterval ratio ids.
End Evaluator.

(** ** Editing alerts ([api/alerts.go]) *)

(** [alertRequest] *)
Record alertRequest := mkAlertRequest {
  rq_ProjectID : Z;
  rq_Service : string;
  rq_Operation : string;
  rq_Type : string;
  rq_Threshold : float64;
  rq_ComparisonWindow : Z;
  rq_CooldownMinutes : Z;
  rq_WebhookURL : string;
  rq_Email : string;
  rq_Enabled : bool;
  rq_MetricName : string;
  rq_MetricAgg : string;
  rq_LabelFilters : gmap string string;
}.

(** [validMetricAggs] *)
Definition validMetricAggs : list string := ["rate"; "avg"; "p95"; "last"]%string.

(** [validateAlertType] *)
Definition validateAlertType (t : string) : bool := bool_decide (t ∈ ["latency"; "error_rate"; "metric_threshold"]%string).

Definition setDefaults (agg : string) (window cooldown : Z) (r : alertRequest) : alertRequest :=
  mkAlertRequest (rq_ProjectID r) (rq_Service r) (rq_Operation r) (rq_Type r) (rq_Threshold r) window cooldown (rq_WebhookURL r)
    (rq_Email r) (rq_Enabled r) (rq_MetricName r) agg (rq_LabelFilters r).

(** The default aggregation of a metric alert. *)
Definition metricAggOf (r : alertRequest) : string :=
  if bool_decide (rq_Type r = "metric_threshold"%string) && bool_decide (rq_MetricAgg r = ""%string) then "last" else rq_MetricAgg r.

(** [normalizeCreateAlertRequest]; an invalid request is refused. *)
Definition normalizeCreateAlertRequest (r : alertRequest) : option alertRequest :=
  if (rq_ProjectID r =? 0) || bool_decide (rq_Type r = ""%string) then None
  else if negb (validateAlertType (rq_Type r)) then None
  else
    let agg := metricAggOf r in
    if bool_decide (rq_Type r = "metric_threshold"%string) then
      if bool_decide (rq_MetricName r = ""%string) then None
      else if negb (bool_decide (agg ∈ validMetricAggs)) then None
      else Some (setDefaults agg (if rq_ComparisonWindow r <=? 0 then 10 else rq_ComparisonWindow r)
                   (if rq_CooldownMinutes r <=? 0 then 30 else rq_CooldownMinutes r) r)
    else if bool_decide (rq_Service r = ""%string) then None
    else Some (setDefaults agg (if rq_ComparisonWindow r <=? 0 then 10 else rq_ComparisonWindow r)
                 (if rq_CooldownMinutes r <=? 0 then 30 else rq_CooldownMinutes r) r).

(** [marshalLabelFilters] *)
Definition marshalLabelFilters (marshal : gmap string string -> option string) (m : gmap string string) : string :=
  if bool_decide (m = ∅) then "{}" else default "{}"%string (marshal m).

(** The alert of a request. *)
Definition requestAlert (marshal : gmap string string -> option string) (id projectID : Z) (r : alertRequest) : Alert :=
  mkAlert id projectID (rq_Service r) (rq_Operation r) (rq_Type r) (rq_Threshold r) (rq_ComparisonWindow r) (rq_CooldownMinutes r)
    (rq_WebhookURL r) (rq_Email r) (rq_Enabled r) (rq_MetricName r) (rq_MetricAgg r) (marshalLabelFilters marshal (rq_LabelFilters r)) None.

(** What [handleCreate] writes; [None] is a bad request. *)
Definition handleCreate (marshal : gmap string string -> option string) (r : alertRequest) : option alertWrite :=
  (fun r => WCreateAlert (requestAlert marshal 0 (rq_ProjectID r) r)) <$> normalizeCreateAlertRequest r.

(** What [handleUpdate] writes. *)
Definition handleUpdate (marshal : gmap string string -> option string) (id : Z) (r : alertRequest) : option alertWrite :=
  if negb (bool_decide (rq_Type r = ""%string)) && negb (validateAlertType (rq_Type r)) then None
  else
    let agg := metricAggOf r in
    if bool_decide (rq_Type r = "metric_threshold"%string) && negb (bool_decide (agg ∈ validMetricAggs)) then None
    else Some (WUpdateAlert (requestAlert marshal id 0 (setDefaults agg (rq_ComparisonWindow r) (rq_CooldownMinutes r) r))).
End Table.
