(* ===== verification/AlertsProps.v ===== *)
(** * Threshold alerts: properties

    Over any run of ticks, with calls failing and alerts edited between any two calls, triggers
    respect the cooldown; a runner whose alerts have no negative comparison window never
    panics, but the update handler lets such a window in. *)
From S2P Require Import Prelude Model TierStore Float64 Slo MetricSeries MetricMerge MetricCompaction.
From S2P Require Import Aggregates MetricDerive Alerts.

(** ** Buckets of an alert *)

(** The rows of a bucket, and their sum. *)
Definition inBucket (b : Z) (rows : list Aggregate) : list Aggregate := filter (fun r => ag_Bucket r = b) rows.

Lemma inBucket_snoc b rows r : inBucket b (rows ++ [r]) = inBucket b rows ++ (if decide (ag_Bucket r = b) then [r] else []).
Proof. unfold inBucket. rewrite filter_app, filter_cons, filter_nil. done. Qed.

Definition groupSum (rows : list Aggregate) (b : Z) : Aggregate * float64 :=
  match inBucket b rows with r :: l => foldl addToBucket (newBucket r) (r :: l) | [] => (mkAggregate 0 "" "" "" "" b 0 0 0 0 0 0 0 0 0, toFloat 0) end.

Lemma addToBucket_bucket l : forall b, ag_Bucket (foldl addToBucket b l).1 = ag_Bucket b.1.
Proof. induction l as [|r l IH]; intros [b w]; [done|]. cbn [foldl]. by rewrite IH. Qed.

Lemma groupSum_bucket rows b : ag_Bucket (groupSum rows b).1 = b.
Proof.
  unfold groupSum. destruct (inBucket b rows) as [|r l] eqn:E; [done|]. rewrite addToBucket_bucket. cbn.
  assert (r ∈ inBucket b rows) as [? _]%list_elem_of_filter by (rewrite E; by left). done.
Qed.

(** The order of the rows puts the rows of a bucket next to each other. *)
Lemma sorted_snoc rows r : StronglySorted newestFirst (rows ++ [r]) ->
  StronglySorted newestFirst rows /\ forall x, x ∈ rows -> ag_Bucket r <= ag_Bucket x.
Proof.
  induction rows as [|y rows IH]; intros Hs; [split; [constructor|by intros x ?%not_elem_of_nil]|].
  apply StronglySorted_inv in Hs as [Hs Hy]. destruct (IH Hs) as [IH1 IH2]. apply Forall_app in Hy as [Hy1 Hy2].
  apply Forall_cons in Hy2 as [Hy2 _]. unfold newestFirst in Hy2. split; [by constructor|]. intros x [->|Hx]%elem_of_cons; [done|auto].
Qed.

Lemma groupSum_new rows r : (forall x, x ∈ rows -> ag_Bucket x <> ag_Bucket r) ->
  groupSum (rows ++ [r]) (ag_Bucket r) = addToBucket (newBucket r) r.
Proof.
  intros Hn. unfold groupSum. rewrite inBucket_snoc, decide_True by done.
  assert (inBucket (ag_Bucket r) rows = []) as ->; [|done].
  unfold inBucket. induction rows as [|x rows IH]; [done|]. rewrite filter_cons, decide_False by (apply Hn; by left).
  apply IH. intros y Hy. apply Hn. by right.
Qed.

Lemma groupSum_more rows r y : y ∈ rows -> ag_Bucket y = ag_Bucket r ->
  groupSum (rows ++ [r]) (ag_Bucket r) = addToBucket (groupSum rows (ag_Bucket r)) r.
Proof.
  intros Hy E. unfold groupSum. rewrite inBucket_snoc, decide_True by done.
  assert (y ∈ inBucket (ag_Bucket r) rows) as Hin by (by apply list_elem_of_filter).
  destruct (inBucket (ag_Bucket r) rows) as [|x l]; [by apply not_elem_of_nil in Hin|].
  change ((x :: l) ++ [r]) with (x :: (l ++ [r])). cbn [foldl]. by rewrite foldl_snoc.
Qed.

(** Below the newest bucket the groups are those of the rows before. *)
Lemma sumRow_groups rows : StronglySorted newestFirst rows ->
  reverse (foldl sumRow [] rows) = groupSum rows <$> seenOrder (ag_Bucket <$> rows) /\
  (forall b out, foldl sumRow [] rows = b :: out -> exists y, y ∈ rows /\ ag_Bucket b.1 = ag_Bucket y /\ forall x, x ∈ rows -> ag_Bucket y <= ag_Bucket x).
Proof.
  induction rows as [|r rows IH] using rev_ind; intros Hs; [done|]. apply sorted_snoc in Hs as [Hs Hr].
  destruct (IH Hs) as [Hrev Hhd]. clear IH. rewrite foldl_snoc, fmap_app. cbn [fmap list_fmap]. rewrite seenOrder_snoc, fmap_app.
  assert (groupSum (rows ++ [r]) <$> seenOrder (ag_Bucket <$> rows) =
    (fun b => if decide (b = ag_Bucket r) then groupSum (rows ++ [r]) b else groupSum rows b) <$> seenOrder (ag_Bucket <$> rows)) as ->.
  { apply list_fmap_ext. intros _ b _. case_decide; [done|]. unfold groupSum. by rewrite inBucket_snoc, decide_False, app_nil_r. }
  assert (forall b out, foldl sumRow [] rows = b :: out -> ag_Bucket r <= ag_Bucket b.1) as Hle.
  { intros b out E. destruct (Hhd _ _ E) as (y & Hy & -> & _). auto. }
  destruct (decide (ag_Bucket r ∈ ag_Bucket <$> rows)) as [Hin|Hnin].
  - apply list_elem_of_fmap in Hin as (y & Ey & Hy). cbn [fmap list_fmap]. rewrite app_nil_r.
    destruct (foldl sumRow [] rows) as [|b out] eqn:Eo.
    { destruct (seenOrder (ag_Bucket <$> rows)) eqn:Es; [|done]. assert (ag_Bucket r ∈ seenOrder (ag_Bucket <$> rows)) as Hb
        by (apply elem_of_seenOrder; rewrite Ey; by apply list_elem_of_fmap_2). rewrite Es in Hb. by apply not_elem_of_nil in Hb. }
    destruct (Hhd b out eq_refl) as (z & Hz & Eb & Hmin). assert (ag_Bucket b.1 = ag_Bucket r) as Ebr.
    { pose proof (Hmin y Hy). pose proof (Hr z Hz). lia. }
    cbn [sumRow]. rewrite (proj2 (Z.eqb_eq _ _) Ebr). rewrite reverse_cons in Hrev. split.
    + rewrite reverse_cons. pose proof (NoDup_seenOrder (ag_Bucket <$> rows)) as Hnd.
      destruct (seenOrder (ag_Bucket <$> rows)) as [|k ks _] using rev_ind; [by destruct (reverse out)|].
      rewrite fmap_app in Hrev |- *. cbn [fmap list_fmap] in Hrev |- *. apply app_inj_tail in Hrev as [Hout Eb'].
      assert (k = ag_Bucket r) as -> by (rewrite <- Ebr, Eb'; by rewrite groupSum_bucket).
      rewrite decide_True by done. rewrite (groupSum_more rows r y Hy (eq_sym Ey)), <- Eb'. f_equal. rewrite Hout.
      apply list_fmap_ext. intros i b' Hb'. rewrite decide_False; [done|]. intros ->.
      apply NoDup_app in Hnd as (_ & Hd & _). apply (Hd (ag_Bucket r)); [by eapply list_elem_of_lookup_2|by left].
    + intros b' out' [= <- <-]. exists r. split; [apply elem_of_app; right; by left|]. split; [by destruct b; cbn in *|].
      intros x [Hx|Hx%list_elem_of_singleton]%elem_of_app; [auto|subst x; lia].
  - cbn [fmap list_fmap]. assert (forall x, x ∈ rows -> ag_Bucket x <> ag_Bucket r) as Hn.
    { intros x Hx E. apply Hnin. rewrite <- E. by apply list_elem_of_fmap_2. }
    assert (sumRow (foldl sumRow [] rows) r = addToBucket (newBucket r) r :: foldl sumRow [] rows) as ->.
    { destruct (foldl sumRow [] rows) as [|b out] eqn:Eo; [done|]. cbn [sumRow]. destruct (Hhd b out eq_refl) as (z & Hz & Eb & _).
      rewrite (proj2 (Z.eqb_neq _ _)); [done|]. rewrite Eb. by apply Hn. }
    split.
    + rewrite reverse_cons, Hrev, groupSum_new by done. f_equal. apply list_fmap_ext. intros i b Hb. rewrite decide_False; [done|].
      intros ->. apply Hnin, elem_of_seenOrder. by eapply list_elem_of_lookup_2.
    + intros b out [= <- <-]. exists r. split; [apply elem_of_app; right; by left|]. split; [done|].
      intros x [Hx|Hx%list_elem_of_singleton]%elem_of_app; [auto|subst x; lia].
Qed.

(** An alert sees its aggregates summed per bucket.  For rows that come newest first, as the query returns
    them, [sumByBucket] gives one row per bucket, in the same order, and each is the sum of exactly the rows of its
    bucket. *)
Theorem sumByBucket_exact overflow rows : StronglySorted newestFirst rows ->
  sumByBucket overflow rows = (fun b => finishBucket overflow (groupSum rows b)) <$> seenOrder (ag_Bucket <$> rows).
Proof. intros Hs. unfold sumByBucket. destruct (sumRow_groups rows Hs) as [-> _]. by rewrite <- list_fmap_compose. Qed.

(** ** Triggers and cooldowns *)

(** The time of a trigger of the alert. *)
Definition triggerOf (id : Z) (e : alertEvent) : option Z :=
  match e with ATriggered a t => if al_ID a =? id then Some t else None | _ => None end.

(** The last time the alert triggered. *)
Definition lastTrigger (id : Z) (events : list alertEvent) : option Z := last (omap (triggerOf id) events).

(** Every trigger was of an enabled alert whose cooldown since its last trigger was over. *)
Definition spaced (events : list alertEvent) : Prop :=
  forall pre a t post, events = pre ++ ATriggered a t :: post ->
    al_Enabled a = true /\ al_LastTriggeredAt a = lastTrigger (al_ID a) pre /\ coolingDown t a = false.

Lemma lastTrigger_snoc id events e : lastTrigger id (events ++ [e]) = match triggerOf id e with Some t => Some t | None => lastTrigger id events end.
Proof.
  unfold lastTrigger. rewrite omap_app. cbn [omap list_omap]. destruct (triggerOf id e); [by rewrite last_snoc|by rewrite app_nil_r].
Qed.

Lemma spaced_snoc events e : spaced events ->
  (forall a t, e = ATriggered a t -> al_Enabled a = true /\ al_LastTriggeredAt a = lastTrigger (al_ID a) events /\ coolingDown t a = false) ->
  spaced (events ++ [e]).
Proof.
  intros Hs He pre a t post E. destruct post as [|x post _] using rev_ind.
  - apply app_inj_tail in E as [-> ->]. by apply He.
  - rewrite app_comm_cons, app_assoc in E. apply app_inj_tail in E as [-> _]. by eapply Hs.
Qed.

(** The stored times are those of the history, and ids are not used again. *)
Record alertInv (w : alertWorld) : Prop := {
  ai_nodup : NoDup (al_ID <$> aw_alerts w);
  ai_next : forall a, a ∈ aw_alerts w -> al_ID a < aw_next w;
  ai_old : forall id, aw_next w <= id -> lastTrigger id (aw_events w) = None;
  ai_last : forall a, a ∈ aw_alerts w -> al_LastTriggeredAt a = lastTrigger (al_ID a) (aw_events w);
  ai_spaced : spaced (aw_events w);
}.

(** [w'] comes after [w]; only the alert [id] may have triggered. *)
Definition after (id : option Z) (w w' : alertWorld) : Prop :=
  alertInv w' /\ aw_next w <= aw_next w' /\
  forall j, id <> Some j -> lastTrigger j (aw_events w') = lastTrigger j (aw_events w).

Lemma after_refl id w : alertInv w -> after id w w.
Proof. intros H. by split_and!. Qed.

Lemma after_trans id w w1 w2 : after id w w1 -> after id w1 w2 -> after id w w2.
Proof. intros (_ & Hn1 & Ht1) (Hi & Hn2 & Ht2). split_and!; [done|lia|]. intros j Hj. by rewrite Ht2, Ht1. Qed.

Lemma after_weaken id w w' : after None w w' -> after id w w'.
Proof. intros (Hi & Hn & Ht). split_and!; [done|done|]. intros j _. by apply Ht. Qed.

Section Steps.
Context (trimSpace : string -> string).

Lemma write_after w op : alertInv w -> after None w (applyAlertWrite trimSpace w op).
Proof.
  intros Hi. destruct Hi as [Hnd Hnx Hold Hl Hs]. destruct op as [a|a|id|rows|rows]; cbn [applyAlertWrite];
    (split_and!; [|unfold setAlerts; cbn [aw_next]; lia|done]); [| | |by constructor|by constructor];
    unfold setAlerts; constructor; cbn [aw_alerts aw_next aw_events]; try done.
  - unfold CreateAlert. rewrite fmap_app. apply NoDup_app. split_and!; [done| |apply NoDup_singleton].
    intros x (b & -> & Hb)%list_elem_of_fmap Hx%list_elem_of_singleton. cbn in Hx. pose proof (Hnx b Hb). lia.
  - intros b [Hb|Hb%list_elem_of_singleton]%elem_of_app; [pose proof (Hnx b Hb); lia|subst b; cbn; lia].
  - intros id Hid. apply Hold. lia.
  - intros b [Hb|Hb%list_elem_of_singleton]%elem_of_app; [auto|]. subst b. cbn. symmetry. apply Hold. lia.
  - unfold UpdateAlert. rewrite <- list_fmap_compose.
    assert (al_ID ∘ (fun t => if al_ID t =? al_ID a then alertRow trimSpace (al_ID t) (al_ProjectID t) (al_LastTriggeredAt t) a else t)
      <$> aw_alerts w = al_ID <$> aw_alerts w) as -> by (apply list_fmap_ext; intros _ x _; cbn; by destruct (al_ID x =? al_ID a)). done.
  - intros b (x & -> & Hx)%list_elem_of_fmap. destruct (al_ID x =? al_ID a); by apply Hnx in Hx.
  - intros b (x & -> & Hx)%list_elem_of_fmap. destruct (al_ID x =? al_ID a); by apply Hl in Hx.
  - unfold DeleteAlert. eapply sublist_NoDup; [exact Hnd|]. by apply fmap_sublist, sublist_filter.
  - intros b [_ Hb]%list_elem_of_filter. by apply Hnx.
  - intros b [_ Hb]%list_elem_of_filter. by apply Hl.
Qed.

Lemma call_after w : alertInv w -> after None w (nextAlertCall trimSpace w).2.
Proof.
  intros Hi. unfold nextAlertCall. destruct (hd _ (aw_calls w)) as [ops out]. cbn [snd].
  set (w0 := mkAlertWorld _ _ _ _ _ _ _). assert (alertInv w0) as H0 by (destruct Hi; by constructor).
  assert (after None w w0) as Ha by (by split_and!). clearbody w0. revert w0 H0 Ha.
  induction ops as [|op ops IH]; intros w0 H0 Ha; [done|]. cbn [foldl]. pose proof (write_after w0 op H0) as Hw.
  apply IH; [by destruct Hw|by eapply after_trans].
Qed.

Lemma note_after w e : alertInv w -> (forall a t, e <> ATriggered a t) -> after None w (noteAlert e w).
Proof.
  intros [Hnd Hnx Hold Hl Hs] He. assert (forall id, triggerOf id e = None) as Ht by (intros id; destruct e; try done; by destruct (He a at_)).
  assert (forall id, lastTrigger id (aw_events w ++ [e]) = lastTrigger id (aw_events w)) as Hsame by (intros id; by rewrite lastTrigger_snoc, Ht).
  split_and!; [|done|intros j _; apply Hsame]. constructor; cbn; try done.
  - intros id Hid. rewrite Hsame. auto.
  - intros a Ha. rewrite Hsame. auto.
  - apply spaced_snoc; [done|]. intros a t ->. by destruct (He a t).
Qed.

Lemma deliver_after w e : alertInv w -> (forall a t, e <> ATriggered a t) -> after None w (deliverAlert trimSpace e w).2.
Proof.
  intros Hi He. unfold deliverAlert. pose proof (call_after w Hi) as Hc. destruct (nextAlertCall trimSpace w) as [[e'|] w1]; cbn [snd] in *; [done|].
  eapply after_trans; [exact Hc|]. apply note_after; [by destruct Hc|done].
Qed.

Lemma record_after w a now : alertInv w -> al_ID a < aw_next w -> al_LastTriggeredAt a = lastTrigger (al_ID a) (aw_events w) ->
  al_Enabled a = true -> coolingDown now a = false -> after (Some (al_ID a)) w (recordTrigger trimSpace a now w).2.
Proof.
  intros Hi Hid Hl He Hc. unfold recordTrigger. pose proof (call_after w Hi) as Ha. destruct (nextAlertCall trimSpace w) as [[e'|] w1]; cbn [snd] in *.
  { eapply after_weaken, after_trans; [exact Ha|]. apply note_after; [by destruct Ha|done]. }
  eapply after_trans; [apply after_weaken; exact Ha|]. destruct Ha as ([Hnd Hnx Hold Hl1 Hs] & Hn & Ht). rewrite <- Ht in Hl by done.
  unfold setAlerts, noteAlert. cbn [aw_alerts aw_next aw_aggs aw_rollups aw_failures aw_calls aw_events].
  split_and!; [|cbn; lia|].
  2:{ intros j Hj. cbn [aw_events]. rewrite lastTrigger_snoc. cbn. destruct (Z.eqb_spec (al_ID a) j); [congruence|done]. }
  constructor; cbn [aw_alerts aw_next aw_events].
  - unfold UpdateAlertLastTriggered. rewrite <- list_fmap_compose.
    assert (al_ID ∘ (fun t => if al_ID t =? al_ID a then withTriggered now t else t) <$> aw_alerts w1 = al_ID <$> aw_alerts w1) as -> by
      (apply list_fmap_ext; intros _ x _; cbn; by destruct (al_ID x =? al_ID a)). done.
  - intros b (x & -> & Hx)%list_elem_of_fmap. destruct (al_ID x =? al_ID a); by apply Hnx in Hx.
  - intros id Hge. rewrite lastTrigger_snoc. cbn. destruct (Z.eqb_spec (al_ID a) id); [lia|auto].
  - intros b (x & -> & Hx)%list_elem_of_fmap. rewrite lastTrigger_snoc. cbn [triggerOf].
    destruct (Z.eqb_spec (al_ID x) (al_ID a)) as [E|E]; cbn [withTriggered al_ID al_LastTriggeredAt].
    + by rewrite E, Z.eqb_refl.
    + rewrite (proj2 (Z.eqb_neq _ _)) by congruence. auto.
  - apply spaced_snoc; [done|]. by intros b t [= <- <-].
Qed.
End Steps.

(** ** Evaluations *)

Section Runs.
Context (trimSpace : string -> string) (overflow : float64 -> Z).
Context (parseAttributes : string -> gmap string string) (attrsQuery : gmap string string -> option (string -> bool)).
Context (decodeHist : string -> option histogram) (encodeHist : histogram -> option string).
Context (decodeExp : string -> option expExtra) (decodeSummary : string -> option (list summaryQuantile)).
Context (Pow : float64 -> float64 -> float64).

Abbreviation evaluateOne := (evaluateAlert trimSpace overflow parseAttributes attrsQuery decodeHist encodeHist decodeExp decodeSummary Pow).

(** An evaluation reads at most once and then does nothing or goes through the gate. *)
Lemma evaluate_cases interval ratio a now w r : evaluateOne interval ratio a now w = r ->
  exists w1, (w1 = w \/ w1 = (nextAlertCall trimSpace w).2) /\
    (r.2 = w1 \/ exists c v h, maybeTrigger trimSpace a c v h now w1 = r).
Proof.
  unfold evaluateAlert. case_bool_decide as Ht.
  - unfold evaluateMetricAlert. case_bool_decide; [intros <-; exists w; split; [by left|by left]|].
    unfold mbind, AM_bind, aread. intros Hr. exists (nextAlertCall trimSpace w).2. split; [by right|].
    destruct (nextAlertCall trimSpace w) as [[e|] w1]; cbn [snd]; [left; by subst r|].
    destruct (QueryMetricRollups _ _ _ _ _ _ _) as [[|x rows]|]; [left; by subst r| |left; by subst r].
    destruct (metricValues _ _ _ _ _ _ (x :: rows)) as [[[c v] h]|]; [right; by exists c, v, h|left; by subst r].
  - unfold serviceBuckets, mbind, AM_bind, aread. intros Hr. exists (nextAlertCall trimSpace w).2. split; [by right|].
    destruct (nextAlertCall trimSpace w) as [[e|] w1]; cbn [snd]; [left; by subst r|]. cbn [mret AM_ret] in Hr.
    destruct (sumByBucket _ _) as [|current history]; [left; by subst r|]. unfold historyWindow in Hr.
    destruct (_ <? Z.of_nat _); [destruct (_ <? 0); [left; by subst r|]|]; unfold mret, AM_ret in Hr; unfold latencyValues in Hr;
      (case_bool_decide; [right; by eexists _, _, _|]);
      (case_bool_decide; [right; destruct (errorRateValues _ _ _ _) as [c v]; by eexists _, _, _|left; by subst r]).
Qed.

Lemma trigger_after a c v h now w : alertInv w -> al_ID a < aw_next w -> al_LastTriggeredAt a = lastTrigger (al_ID a) (aw_events w) ->
  al_Enabled a = true -> coolingDown now a = false -> after (Some (al_ID a)) w (maybeTrigger trimSpace a c v h now w).2.
Proof.
  intros Hi Hid Hl He Hc. unfold maybeTrigger. destruct (passesGate _ _ _ _); cbn [negb]; [|by apply after_refl].
  set (hook := if nonEmpty (al_WebhookURL a) then _ else _). set (mail := if nonEmpty (al_Email a) then _ else _).
  assert (forall w, alertInv w -> after None w (hook w).2 /\ exists u, (hook w).1 = inl u) as Hh.
  { intros w0 H0. unfold hook. destruct (nonEmpty _); [|by split; [apply after_refl|exists tt]]. split; [by apply deliver_after|].
    unfold deliverAlert. destruct (nextAlertCall _ _) as [[]]; by exists tt. }
  assert (forall w, alertInv w -> after None w (mail w).2 /\ exists u, (mail w).1 = inl u) as Hm.
  { intros w0 H0. unfold mail. destruct (nonEmpty (al_Email a)); [|by split; [apply after_refl|exists tt]]. split; [by apply deliver_after|].
    unfold deliverAlert. destruct (nextAlertCall _ _) as [[]]; by exists tt. }
  clearbody hook mail. unfold mbind, AM_bind. destruct (Hh w Hi) as [H1 [u1 E1]]. destruct (hook w) as [r1 w1]. cbn in E1. subst r1. cbn [snd] in H1.
  destruct (Hm w1 (proj1 H1)) as [H2 [u2 E2]]. destruct (mail w1) as [r2 w2]. cbn in E2. subst r2. cbn [snd] in H2.
  assert (after None w w2) as H12 by (by eapply after_trans). eapply after_trans; [apply after_weaken; exact H12|].
  destruct H12 as (Hi2 & Hn2 & Ht2). apply record_after; [done|lia| |done|done]. by rewrite Ht2.
Qed.

Lemma evaluateAlert_after interval ratio a now w : alertInv w -> al_ID a < aw_next w ->
  al_LastTriggeredAt a = lastTrigger (al_ID a) (aw_events w) -> al_Enabled a = true -> coolingDown now a = false ->
  after (Some (al_ID a)) w (evaluateOne interval ratio a now w).2.
Proof.
  intros Hi Hid Hl He Hc. destruct (evaluate_cases interval ratio a now w _ eq_refl) as (w1 & Hw1 & Hcase).
  assert (after None w w1) as H1 by (destruct Hw1 as [->| ->]; [by apply after_refl|by apply call_after]).
  destruct Hcase as [->|(c & v & h & <-)]; [by apply after_weaken|]. eapply after_trans; [apply after_weaken; exact H1|].
  destruct H1 as (Hi1 & Hn1 & Ht1). apply trigger_after; [done|lia| |done|done]. by rewrite Ht1.
Qed.

Lemma evaluation_after id err w : alertInv w -> after None w (afterEvaluation id err w).2.
Proof.
  intros Hi. unfold afterEvaluation. destruct (recordFailure id err (aw_failures w)) as [log counts]. cbn [snd].
  assert (alertInv (setFailures counts w)) as H0 by (destruct Hi; by constructor).
  assert (after None w (setFailures counts w)) as Ha by (by split_and!).
  destruct err; [|done]. eapply after_trans; [exact Ha|]. by apply note_after.
Qed.

Lemma catch_world (m : AM unit) w : (catch m w).2 = (m w).2.
Proof. unfold catch. destruct (m w) as [[?|[?|]] ?]; done. Qed.

(** The alerts still to be evaluated are as the table has them. *)
Lemma evaluateAlerts_inv interval ratio now alerts : forall w, alertInv w -> NoDup (al_ID <$> alerts) ->
  (forall a, a ∈ alerts -> al_ID a < aw_next w /\ al_LastTriggeredAt a = lastTrigger (al_ID a) (aw_events w)) ->
  alertInv (evaluateEnabled trimSpace overflow parseAttributes attrsQuery decodeHist encodeHist decodeExp decodeSummary Pow interval ratio now alerts w).2.
Proof.
  induction alerts as [|a alerts IH]; intros w Hi Hnd Hal; [done|]. apply NoDup_cons in Hnd as [Hna Hnd]. cbn [evaluateEnabled].
  unfold mbind at 1, AM_bind at 1, aread at 1. pose proof (call_after trimSpace w Hi) as Hc. destruct (nextAlertCall trimSpace w) as [[e|] w1]; cbn [snd] in *; [by destruct Hc|].
  destruct (Hal a ltac:(by left)) as [Hida Hla]. destruct Hc as (Hi1 & Hn1 & Ht1). rewrite <- Ht1 in Hla by done.
  set (body := if negb (al_Enabled a) || coolingDown now a then _ else _).
  assert (after (Some (al_ID a)) w1 (body w1).2) as Hb.
  { unfold body. destruct (al_Enabled a) eqn:He, (coolingDown now a) eqn:Hcd; cbn [negb orb]; try (by apply after_refl).
    unfold mbind, AM_bind. pose proof (evaluateAlert_after interval ratio a now w1 Hi1 ltac:(lia) Hla He Hcd) as Hev.
    rewrite <- catch_world in Hev. destruct (catch _ w1) as [[err|stop] w2]; cbn [snd] in *; [|done].
    eapply after_trans; [exact Hev|]. apply after_weaken, evaluation_after. by destruct Hev. }
  unfold mbind, AM_bind. destruct (body w1) as [[u|stop] w2]; cbn [snd] in *; [|by destruct Hb]. destruct Hb as (Hi2 & Hn2 & Ht2).
  apply IH; [done|done|]. intros b Hb. destruct (Hal b ltac:(by right)) as [Hidb Hlb]. split; [lia|].
  rewrite Ht2; [by rewrite Ht1|]. intros [= E]. apply Hna. rewrite E. by apply list_elem_of_fmap_2.
Qed.

Abbreviation EvaluateP := (Evaluate trimSpace overflow parseAttributes attrsQuery decodeHist encodeHist decodeExp decodeSummary Pow).
Abbreviation tickW := (tick trimSpace overflow parseAttributes attrsQuery decodeHist encodeHist decodeExp decodeSummary Pow).

Lemma Evaluate_inv interval ratio now projectID w : alertInv w -> alertInv (EvaluateP interval ratio now projectID w).2.
Proof.
  intros Hi. unfold Evaluate. unfold mbind at 1, AM_bind at 1, aread at 1. pose proof (call_after trimSpace w Hi) as Hc.
  destruct (nextAlertCall trimSpace w) as [[e|] w1]; cbn [snd] in *; destruct Hc as (Hi1 & _ & _); [done|].
  assert (ListAlerts projectID (aw_alerts w1) `sublist_of` aw_alerts w1) as Hsub.
  { unfold ListAlerts. destruct (projectID =? 0); [done|apply sublist_filter]. }
  apply evaluateAlerts_inv; [done| |].
  - eapply sublist_NoDup; [apply (ai_nodup _ Hi1)|]. by apply fmap_sublist.
  - intros a Ha. assert (a ∈ aw_alerts w1) as Ha' by (revert Ha; unfold ListAlerts; destruct (projectID =? 0); [done|by intros [_ ?]%list_elem_of_filter]). split; [by apply ai_next|by apply ai_last].
Qed.

Lemma tickProjects_inv interval ratio ids : forall w, alertInv w ->
  alertInv (tickProjects trimSpace overflow parseAttributes attrsQuery decodeHist encodeHist decodeExp decodeSummary Pow interval ratio ids w).2.
Proof.
  induction ids as [|[id now] ids IH]; intros w Hi; [done|]. cbn [tickProjects]. unfold mbind at 1, AM_bind at 1, aread at 1.
  pose proof (call_after trimSpace w Hi) as Hc. destruct (nextAlertCall trimSpace w) as [[e|] w1]; cbn [snd] in *; destruct Hc as (Hi1 & _ & _); [done|].
  pose proof (Evaluate_inv interval ratio now id w1 Hi1) as He. rewrite <- catch_world in He. unfold mbind, AM_bind.
  destruct (catch _ w1) as [[err|stop] w2]; cbn [snd] in *; [by apply IH|done].
Qed.

Definition setCalls (calls : list (list alertWrite * option alertErr)) (w : alertWorld) : alertWorld :=
  mkAlertWorld (aw_alerts w) (aw_next w) (aw_aggs w) (aw_rollups w) (aw_failures w) calls (aw_events w).

(** The worlds that ticks reach from an empty table, with any outcomes of their calls and any
    writes between them. *)
Inductive alertReach : alertWorld -> Prop :=
| reach_start aggs rollups next : alertReach (mkAlertWorld [] next aggs rollups ∅ [] [])
| reach_tick w interval ratio ids calls : alertReach w -> alertReach (tickW interval ratio ids (setCalls calls w)).2.

Lemma alertReach_inv w : alertReach w -> alertInv w.
Proof.
  induction 1 as [aggs rollups next|w interval ratio ids calls _ Hi].
  - constructor; cbn [aw_alerts aw_next aw_events].
    + constructor.
    + by intros a ?%not_elem_of_nil.
    + done.
    + by intros a ?%not_elem_of_nil.
    + by intros [|? ?].
  - assert (alertInv (setCalls calls w)) as H0 by (destruct Hi; by constructor). unfold tick. unfold mbind at 1, AM_bind at 1, aread at 1.
    pose proof (call_after trimSpace _ H0) as Hc. destruct (nextAlertCall trimSpace _) as [[e|] w1]; cbn [snd] in *; destruct Hc as (Hi1 & _ & _); [done|].
    by apply tickProjects_inv.
Qed.

(** C21: Alerts respect their cooldown.  Over any run of ticks, with any calls failing and alerts created, changed and
    deleted between any two calls: every trigger that was recorded was of an enabled alert and came no sooner than its cooldown after
    the last trigger recorded for it, and the stored time of every alert is the time of its last recorded trigger. *)
Theorem alerts_cool_down w pre a t post : alertReach w -> aw_events w = pre ++ ATriggered a t :: post ->
  al_Enabled a = true /\
  (forall t0, lastTrigger (al_ID a) pre = Some t0 -> t0 + wrap64 (al_CooldownMinutes a * minute) <= t) /\
  (forall b, b ∈ aw_alerts w -> al_LastTriggeredAt b = lastTrigger (al_ID b) (aw_events w)).
Proof.
  intros Hi%alertReach_inv E. destruct (ai_spaced w Hi _ _ _ _ E) as (He & Hl & Hc). split_and!; [done| |apply (ai_last w Hi)].
  intros t0 Ht. unfold coolingDown in Hc. rewrite Hl, Ht in Hc. by apply Z.ltb_ge in Hc.
Qed.
End Runs.

(** ** Panics *)

(** No write sets a negative comparison window. *)
Definition windowOk (op : alertWrite) : Prop :=
  match op with WCreateAlert a | WUpdateAlert a => 0 <= al_ComparisonWindow a | _ => True end.

Definition windowsOk (w : alertWorld) : Prop :=
  (forall a, a ∈ aw_alerts w -> 0 <= al_ComparisonWindow a) /\ Forall (fun c => Forall windowOk c.1) (aw_calls w).

(** A computation that keeps the windows and does not panic. *)
Definition safe {A} (m : AM A) : Prop := forall w, windowsOk w -> windowsOk (m w).2 /\ (m w).1 <> inr APanic.

Lemma safe_ret {A} (a : A) : safe (mret a).
Proof. by intros w Hw. Qed.

Lemma safe_fail {A} e : safe (fail e : AM A).
Proof. by intros w Hw. Qed.

Lemma safe_bind {A B} (m : AM A) (f : A -> AM B) : safe m -> (forall a, safe (f a)) -> safe (m ≫= f).
Proof.
  intros Hm Hf w Hw. unfold mbind, AM_bind. destruct (Hm w Hw) as [H1 H2]. destruct (m w) as [[a|e] w1]; cbn in *; [by apply Hf|].
  split; [done|]. intros [= ->]. done.
Qed.

Create HintDb safe.

#[export] Hint Resolve safe_ret safe_fail safe_bind : safe.

Section Safe.
Context (trimSpace : string -> string) (overflow : float64 -> Z).
Context (parseAttributes : string -> gmap string string) (attrsQuery : gmap string string -> option (string -> bool)).
Context (decodeHist : string -> option histogram) (encodeHist : histogram -> option string).
Context (decodeExp : string -> option expExtra) (decodeSummary : string -> option (list summaryQuantile)).
Context (Pow : float64 -> float64 -> float64).

Lemma call_windows w : windowsOk w -> windowsOk (nextAlertCall trimSpace w).2.
Proof.
  intros [Ha Hc]. unfold nextAlertCall. destruct (aw_calls w) as [|[ops out] calls] eqn:Ec; cbn [hd tl snd].
  { split; [done|constructor]. }
  apply Forall_cons in Hc as [Hops Hc]. cbn [fst] in Hops. set (w0 := mkAlertWorld _ _ _ _ _ _ _).
  assert (windowsOk w0) as H0 by done. clearbody w0. clear -Hops H0. revert w0 H0.
  induction Hops as [|op ops Hop Hops IH]; intros w0 [Ha Hc]; [done|]. cbn [foldl]. apply IH. destruct op as [a|a|id|rows|rows]; cbn [applyAlertWrite]; (split; [|exact Hc]); cbn; try done.
  - intros b [Hb|Hb%list_elem_of_singleton]%elem_of_app; [auto|]. by subst b.
  - intros b (x & -> & Hx)%list_elem_of_fmap. destruct (al_ID x =? al_ID a); [done|auto].
  - intros b [_ Hb]%list_elem_of_filter. auto.
Qed.

Lemma safe_aread {A} (f : alertWorld -> A) : safe (aread trimSpace f).
Proof.
  intros w Hw. unfold aread. pose proof (call_windows w Hw) as Hc. by destruct (nextAlertCall trimSpace w) as [[e|] w1].
Qed.

Lemma safe_deliver e : safe (deliverAlert trimSpace e).
Proof.
  intros w Hw. unfold deliverAlert. pose proof (call_windows w Hw) as Hc. by destruct (nextAlertCall trimSpace w) as [[e'|] w1].
Qed.

Lemma safe_record a now : safe (recordTrigger trimSpace a now).
Proof.
  intros w Hw. unfold recordTrigger. pose proof (call_windows w Hw) as Hc. destruct (nextAlertCall trimSpace w) as [[e'|] w1]; [done|].
  destruct Hc as [Ha Hc]. split; [|done]. split; [|done]. cbn. intros b (x & -> & Hx)%list_elem_of_fmap. destruct (al_ID x =? al_ID a); cbn; auto.
Qed.

Hint Resolve safe_aread safe_deliver safe_record : safe.

Lemma safe_trigger a c v h now : safe (maybeTrigger trimSpace a c v h now).
Proof. unfold maybeTrigger. repeat case_match; auto with safe. Qed.

Hint Resolve safe_trigger : safe.

Lemma safe_history window history : 0 <= window -> safe (historyWindow window history).
Proof. intros Hw. unfold historyWindow. destruct (_ <? Z.of_nat _); [|auto with safe]. destruct (Z.ltb_spec window 0); [lia|auto with safe]. Qed.

Lemma safe_evaluate interval ratio a now : 0 <= al_ComparisonWindow a ->
  safe (evaluateAlert trimSpace overflow parseAttributes attrsQuery decodeHist encodeHist decodeExp decodeSummary Pow interval ratio a now).
Proof.
  intros Hw. unfold evaluateAlert, evaluateMetricAlert, serviceBuckets. case_bool_decide; [case_bool_decide; [auto with safe|]|].
  - apply safe_bind; [auto with safe|]. intros [[|r rows]|]; [auto with safe| |auto with safe].
    destruct (metricValues _ _ _ _ _ _ _) as [[[c v] h]|]; auto with safe.
  - apply safe_bind; [apply safe_bind; auto with safe|]. intros [|current history]; [auto with safe|]. apply safe_bind; [by apply safe_history|].
    intros l. unfold latencyValues. destruct (errorRateValues _ _ _ _) as [c v]. repeat case_bool_decide; auto with safe.
Qed.

Lemma safe_catch m : safe m -> safe (catch m).
Proof. intros Hm w Hw. unfold catch. destruct (Hm w Hw) as [H1 H2]. destruct (m w) as [[?|[?|]] w1]; done. Qed.

Lemma safe_after id err : safe (afterEvaluation id err).
Proof. intros w Hw. unfold afterEvaluation. destruct (recordFailure _ _ _). by destruct err. Qed.

Hint Resolve safe_catch safe_after safe_evaluate : safe.

Lemma safe_alerts interval ratio now alerts : Forall (fun a => 0 <= al_ComparisonWindow a) alerts ->
  safe (evaluateEnabled trimSpace overflow parseAttributes attrsQuery decodeHist encodeHist decodeExp decodeSummary Pow interval ratio now alerts).
Proof.
  induction 1 as [|a alerts Ha _ IH]; cbn [evaluateEnabled]; [auto with safe|]. apply safe_bind; [auto with safe|]. intros _.
  apply safe_bind; [|done]. destruct (_ || _); auto with safe.
Qed.

Lemma safe_Evaluate interval ratio now projectID :
  safe (Evaluate trimSpace overflow parseAttributes attrsQuery decodeHist encodeHist decodeExp decodeSummary Pow interval ratio now projectID).
Proof.
  intros w Hw. unfold Evaluate. unfold mbind, AM_bind, aread. pose proof (call_windows w Hw) as Hc.
  destruct (nextAlertCall trimSpace w) as [[e|] w1]; [done|]. cbn [snd] in Hc. apply safe_alerts; [|done].
  apply Forall_forall. intros a Ha. apply (proj1 Hc). revert Ha. unfold ListAlerts. destruct (projectID =? 0); [done|by intros [_ ?]%list_elem_of_filter].
Qed.

Lemma safe_projects interval ratio ids :
  safe (tickProjects trimSpace overflow parseAttributes attrsQuery decodeHist encodeHist decodeExp decodeSummary Pow interval ratio ids).
Proof.
  induction ids as [|[id now] ids IH]; cbn [tickProjects]; [auto with safe|]. apply safe_bind; [auto with safe|]. intros _.
  apply safe_bind; [|done]. apply safe_catch, safe_Evaluate.
Qed.

(** C24: Without a negative comparison window the alert runner never panics.  A tick over alerts whose comparison windows
    are not negative, with any calls failing and any other alerts created or changed to such windows meanwhile, returns without a panic and
    leaves the windows that way; every alert the create handler accepts has a positive window and a positive cooldown. *)
Theorem runner_survives marshal interval ratio ids w r op : windowsOk w -> handleCreate marshal r = Some op ->
  windowsOk (tick trimSpace overflow parseAttributes attrsQuery decodeHist encodeHist decodeExp decodeSummary Pow interval ratio ids w).2 /\
  (tick trimSpace overflow parseAttributes attrsQuery decodeHist encodeHist decodeExp decodeSummary Pow interval ratio ids w).1 <> inr APanic /\
  exists a, op = WCreateAlert a /\ 0 < al_ComparisonWindow a /\ 0 < al_CooldownMinutes a.
Proof.
  intros Hw Hr. assert (safe (tick trimSpace overflow parseAttributes attrsQuery decodeHist encodeHist decodeExp decodeSummary Pow interval ratio ids)) as Hs.
  { unfold tick. apply safe_bind; [auto with safe|]. intros _. apply safe_projects. }
  destruct (Hs w Hw) as [H1 H2]. split_and!; [done|done|]. revert Hr. unfold handleCreate, normalizeCreateAlertRequest.
  repeat case_match; try done; intros [= <-]; eexists; (split; [reflexivity|]); cbn; repeat case_match; lia.
Qed.

(** A call that nothing precedes and that does not fail leaves the world as it is. *)
Lemma call_idle w : aw_calls w = [] -> nextAlertCall trimSpace w = (None, w).
Proof. destruct w. cbn. by intros ->. Qed.

(** An update can stop every alert.  The update handler accepts a negative comparison window, which the create handler replaces by its default;
    as soon as the alert has an aggregate to evaluate, its evaluation slices its history with the negative window and
    panics, although [lookbackFor] takes such a window for zero, and the panic ends the loop over the alerts. *)
Theorem update_stops_alerts marshal interval ratio id projectID last r now rest w :
  rq_ComparisonWindow r < 0 -> rq_Type r = "latency"%string -> rq_Enabled r = true -> aw_calls w = [] ->
  let a := alertRow trimSpace id projectID last (requestAlert marshal id 0 r) in
  coolingDown now a = false -> (serviceBuckets trimSpace overflow interval a now w).1 <> inl [] ->
  handleUpdate marshal id r = Some (WUpdateAlert (requestAlert marshal id 0 r)) /\
  (evaluateEnabled trimSpace overflow parseAttributes attrsQuery decodeHist encodeHist decodeExp decodeSummary Pow interval ratio now (a :: rest) w).1 = inr APanic.
Proof.
  intros Hneg Ht He Hc a Hcool Hb. split.
  { unfold handleUpdate, metricAggOf. rewrite Ht. cbn. by destruct r. }
  assert (exists w1, evaluateAlert trimSpace overflow parseAttributes attrsQuery decodeHist encodeHist decodeExp decodeSummary Pow interval ratio a now w
    = (inr APanic, w1)) as [w1 Hp].
  { destruct (serviceBuckets _ _ interval a now w) as [[[|current history]|e] w1] eqn:Hs; [done| |].
    - exists w1. unfold evaluateAlert. rewrite (bool_decide_false (al_Type a = _)) by (unfold a; cbn; rewrite Ht; done).
      unfold mbind at 1, AM_bind at 1. rewrite Hs. unfold mbind at 1, AM_bind at 1, historyWindow. change (al_ComparisonWindow a) with (rq_ComparisonWindow r).
      destruct (Z.ltb_spec (rq_ComparisonWindow r) (Z.of_nat (length history))); [|lia].
      destruct (Z.ltb_spec (rq_ComparisonWindow r) 0); [done|lia].
    - revert Hs. unfold serviceBuckets, mbind, AM_bind, aread. by rewrite call_idle. }
  cbn [evaluateEnabled]. unfold mbind at 1, AM_bind at 1, aread. rewrite call_idle by done. rewrite Hcool. change (al_Enabled a) with (rq_Enabled r). rewrite He.
  cbn [negb orb]. unfold mbind at 1, AM_bind at 1. unfold mbind at 1, AM_bind at 1, catch. by rewrite Hp.
Qed.
End Safe.

(** ** Concrete runs *)

Definition aRow (op : string) (bucket p95 : Z) : Aggregate := mkAggregate 1 "api" op "" "" bucket 2 1 0 p95 0 0 0 0 0.

Lemma sumByBucket_exact_witness :
  sumByBucket (fun _ => 0) [aRow "a" 120 5000; aRow "b" 120 7000; aRow "a" 60 9000] =
  (fun b => finishBucket (fun _ => 0) (groupSum [aRow "a" 120 5000; aRow "b" 120 7000; aRow "a" 60 9000] b)) <$> [120; 60].
Proof. apply (sumByBucket_exact (fun _ => 0) [aRow "a" 120 5000; aRow "b" 120 7000; aRow "a" 60 9000]).
  repeat first [apply SSorted_nil | apply SSorted_cons | apply Forall_nil_2 | apply Forall_cons_2 | (unfold newestFirst; cbn; lia)]. Defined.

Abbreviation atExample f := (f (fun s : string => s) (fun _ : float64 => 0) (fun _ : string => (∅ : gmap string string)) (fun _ : gmap string string => Some (fun _ : string => true))
  (fun _ : string => (None : option histogram)) (fun _ : histogram => (None : option string)) (fun _ : string => (None : option expExtra))
  (fun _ : string => (None : option (list summaryQuantile))) (fun a _ : float64 => a)).

Definition exampleRequest (window : Z) : alertRequest :=
  mkAlertRequest 1 "api" "" "latency" (toFloat 1) window 30 "" "" true "" "" ∅.

(** A tick over the one project. *)
Definition exampleTick (calls : list (list alertWrite * option alertErr)) (now : Z) (w : alertWorld) : alertWorld :=
  ((atExample tick) minute None [(1, now)] (setCalls calls w)).2.

(** A tick before which the alert is created, and two more, the last one after the cooldown. *)
Definition exampleWorld : alertWorld :=
  exampleTick [] (31 * minute) (exampleTick [] (60 * second)
    (exampleTick [([WCreateAlert (requestAlert (fun _ => None) 0 1 (exampleRequest 10))], None)] (10 * second)
      (mkAlertWorld [] 1 [aRow "a" 0 5000] [] ∅ [] []))).

Lemma exampleTick_reach calls now w : (atExample alertReach) w -> (atExample alertReach) (exampleTick calls now w).
Proof. apply reach_tick. Qed.

(** The alert as the table holds it. *)
Definition exampleAlert (last : option Z) : Alert := alertRow (fun s => s) 1 1 last (requestAlert (fun _ => None) 0 1 (exampleRequest 10)).

Lemma alerts_cool_down_witness :
  aw_events exampleWorld = [ATriggered (exampleAlert None) (10 * second)] ++ [ATriggered (exampleAlert (Some (10 * second))) (31 * minute)] /\
  10 * second + wrap64 (30 * minute) <= 31 * minute.
Proof.
  assert (aw_events exampleWorld = [ATriggered (exampleAlert None) (10 * second)] ++ [ATriggered (exampleAlert (Some (10 * second))) (31 * minute)])
    as E by (vm_compute; reflexivity).
  split; [exact E|].
  assert ((atExample alertReach) exampleWorld) as Hr by (unfold exampleWorld; do 3 apply exampleTick_reach; constructor).
  exact (proj1 (proj2 (atExample alerts_cool_down exampleWorld _ _ _ _ Hr E)) (10 * second) eq_refl).
Defined.

(** The alert in the table, and an aggregate. *)
Definition exampleStart : alertWorld := mkAlertWorld [exampleAlert None] 2 [aRow "a" 0 5000] [] ∅ [] [].

Lemma runner_survives_witness :
  ((atExample tick) minute None [(1, 40 * minute)] exampleStart).1 <> inr APanic.
Proof.
  refine (proj1 (proj2 (atExample runner_survives (fun _ => None) minute None [(1, 40 * minute)] exampleStart (exampleRequest (-1)) _ _ eq_refl))).
  split; [|constructor]. intros a Ha%list_elem_of_singleton. subst a. by vm_compute.
Defined.

Lemma update_stops_alerts_witness :
  ((atExample evaluateEnabled) minute None (40 * minute)
     [alertRow (fun s => s) 1 1 None (requestAlert (fun _ => None) 1 0 (exampleRequest (-1)))] exampleStart).1 = inr APanic.
Proof.
  refine (proj2 (atExample update_stops_alerts (fun _ => None) minute None 1 1 None (exampleRequest (-1)) (40 * minute) [] exampleStart _ _ _ _ _ _));
    [by vm_compute|reflexivity|reflexivity|reflexivity|reflexivity|by vm_compute].
Defined.
