(* ===== verification/RollupReads.v ===== *)
(** * Reading the span tiers ([internal/repository/repo_span_rollups_read.go],
    [repo_dashboard_rollups.go]; [service/query_span_rollups.go],
    [query_services_rollups.go], [query_edges_rollups.go], [query_dashboard_rollups.go])

    A read plans which tier answers which part of its range, checks the planned buckets for
    gaps, and folds the rows it selects.  The world and its failing calls are those of the
    compactor.  A time that Go leaves zero is [None].  [math.Log2], [math.Pow] and the float
    steps of a percentile are parameters. *)
From S2P Require Import Prelude Model Varint SpanHist Sampling TierStore Tiers SpanPlan SpanMerge Compaction.
From S2P Require Import Float64 Slo MetricMerge.

(** ** Coverage and plans *)

(** [spanRollupSteps] *)
Definition spanRollupSteps : list Z := [300; 3600; 86400].

(** The loop of [Repository.tierCoverage]. *)
Fixpoint coverageLoop (oldest : world -> Z -> option Z) (steps : list Z) (cov : SpanRollupCoverage)
  : M SpanRollupCoverage :=
  match steps with
  | [] => mret cov
  | step :: steps =>
      o ← reads (fun w => oldest w step);
      through ← SpanRollupWatermark step;
      coverageLoop oldest steps
        (mkCoverage (match o with Some o => <[step := o]> (cov_Oldest cov) | None => cov_Oldest cov end)
           (match through with Some t => <[step := t]> (cov_Through cov) | None => cov_Through cov end))
  end.

Definition tierCoverage (oldest : world -> Z -> option Z) : M SpanRollupCoverage :=
  coverageLoop oldest spanRollupSteps (mkCoverage ∅ ∅).

(** [Repository.SpanRollupCoverage] and [SpanEdgeCoverage] *)
Definition readRollupCoverage : M SpanRollupCoverage := tierCoverage (fun w => OldestSpanRollupBucket (w_rollups w)).

Definition readEdgeCoverage : M SpanRollupCoverage := tierCoverage (fun w => OldestSpanEdgeBucket (w_edges w)).

Definition spanRollupCoverageTTL : Z := minute.

Definition spanRollupFlushGrace : Z := 4 * minute.

(** [spanRollupCoverage] *)
Record coverageCache := mkCoverageCache { cc_cov : SpanRollupCoverage; cc_read : option Z }.

(** The clock readings of a planned read: before and after the coverage is read, and before
    the gap check. *)
Record planClock := mkPlanClock { pk_asked : Z; pk_stamp : Z; pk_check : Z }.

(** [spanRollupCoverage.get] *)
Definition coverage_get (k : planClock) (read : M SpanRollupCoverage) (c : coverageCache) (w : world)
  : (option SpanRollupCoverage * coverageCache) * world :=
  let again :=
    match read w with
    | (Some cov, w) => ((Some cov, mkCoverageCache cov (Some (pk_stamp k))), w)
    | (None, w) => ((None, c), w)
    end in
  match cc_read c with
  | Some t => if pk_asked k - t <? spanRollupCoverageTTL then ((Some (cc_cov c), c), w) else again
  | None => again
  end.

(** [QueryService.tierPlan]; the gap check is one call. *)
Definition tierPlan (enabled : bool) (k : planClock) (from to align : Z) (c : coverageCache) (read : M SpanRollupCoverage)
  (count : world -> Z -> Z -> Z -> Z) (arrivals : world -> Z -> Z -> bool) (w : world)
  : (option (list SpanRollupSegment) * coverageCache) * world :=
  if negb enabled then ((None, c), w)
  else
    match coverage_get k read c w with
    | ((None, c), w) => ((None, c), w)
    | ((Some cov, c), w) =>
        match Plan from to align cov with
        | None => ((None, c), w)
        | Some segs =>
            match attempt (fun w => Complete (fun s f t => Some (count w s f t)) (Some (fun f t => Some (arrivals w f t)))
                                      segs (pk_check k - spanRollupFlushGrace)) w with
            | (Some true, w) => ((Some segs, c), w)
            | (_, w) => ((None, c), w)
            end
        end
    end.

(** [QueryService.spanRollupPlan] and [spanEdgePlan] *)
Definition spanRollupPlan (enabled : bool) (k : planClock) (from to align : Z) (c : coverageCache)
  : world -> (option (list SpanRollupSegment) * coverageCache) * world :=
  tierPlan enabled k from to align c readRollupCoverage (fun w => CountSpanRollupBuckets (w_rollups w))
    (fun w => SpansIngestedBetween (w_ingested w)).

Definition spanEdgePlan (enabled : bool) (k : planClock) (from to align : Z) (c : coverageCache)
  : world -> (option (list SpanRollupSegment) * coverageCache) * world :=
  tierPlan enabled k from to align c readEdgeCoverage (fun w => CountSpanEdgeBuckets (w_edges w))
    (fun w => Arrivals (w_rollups w) (w_ingested w)).

(** ** Scans *)

(** [SpanRollupScan] *)
Record SpanRollupScan := mkScan {
  sc_Segments : list SpanRollupSegment;
  sc_ProjectID : Z;
  sc_Service : string;
  sc_Name : string;
  sc_Kind : string;
  sc_Status : string;
  sc_RootOnly : bool;
  sc_ExcludeNames : list string;
}.

Definition textFilter (want have : string) : bool := bool_decide (want = ""%string) || bool_decide (have = want).

(** The conditions of [SpanRollupScan.where] besides the segment's own. *)
Definition rollupSelected (q : SpanRollupScan) (r : SpanRollup) : bool :=
  ((sc_ProjectID q =? 0) || (ro_ProjectID r =? sc_ProjectID q)) && textFilter (sc_Service q) (ro_Service r) &&
  textFilter (sc_Name q) (ro_Name r) && textFilter (sc_Kind q) (ro_Kind r) && textFilter (sc_Status q) (ro_Status r) &&
  (negb (sc_RootOnly q) || ro_IsRoot r) && negb (bool_decide (ro_Name r ∈ sc_ExcludeNames q)).

(** The rows a scan reads in one segment. *)
Definition segmentRows (q : SpanRollupScan) (t : gmap rollupPK SpanRollup) (s : SpanRollupSegment) : list SpanRollup :=
  filter (fun r => rollupSelected q r = true) (SpanRollupWindow t (sg_Step s) (sg_From s) (sg_To s)).

(** [Repository.ScanSpanRollups], with the rows it hands on. *)
Fixpoint scanLoop (q : SpanRollupScan) (segs : list SpanRollupSegment) : M (list SpanRollup) :=
  match segs with
  | [] => mret []
  | s :: segs =>
      rows ← reads (fun w => segmentRows q (w_rollups w) s);
      rest ← scanLoop q segs;
      mret (rows ++ rest)
  end.

Definition ScanSpanRollups (q : SpanRollupScan) : M (list SpanRollup) := scanLoop q (sc_Segments q).

(** [SpanEdgeScan] *)
Record SpanEdgeScan := mkEdgeScan { es_Segments : list SpanRollupSegment; es_ProjectID : Z; es_Source : string; es_Markers : bool }.

Definition edgeSelected (q : SpanEdgeScan) (e : SpanEdge) : bool :=
  ((es_ProjectID q =? 0) || (ed_ProjectID e =? es_ProjectID q)) && textFilter (es_Source q) (ed_Source e) &&
  (es_Markers q || negb (bool_decide (ed_Target e = ""%string))).

(** [Repository.ScanSpanEdges] *)
Fixpoint scanEdgeLoop (q : SpanEdgeScan) (segs : list SpanRollupSegment) : M (list SpanEdge) :=
  match segs with
  | [] => mret []
  | s :: segs =>
      rows ← reads (fun w => filter (fun e => edgeSelected q e = true) (SpanEdgeWindow (w_edges w) (sg_Step s) (sg_From s) (sg_To s)));
      rest ← scanEdgeLoop q segs;
      mret (rows ++ rest)
  end.

Definition ScanSpanEdges (q : SpanEdgeScan) : M (list SpanEdge) := scanEdgeLoop q (es_Segments q).

(** ** Root span groups *)

(** [RootSpanGroup] *)
Record RootSpanGroup := mkRootGroup {
  rg_Operation : string;
  rg_Service : string;
  rg_Count : Z;
  rg_ErrorCount : Z;
  rg_Weights : SpanWeights;
  rg_Hist : Hist;
}.

Definition mergeHist (h : Hist) (encoded : list Z) : Hist :=
  match Decode encoded with Some x => Hist_Merge h x | None => h end.

(** A row added to its group. *)
Definition rootAdd (g : RootSpanGroup) (s : SpanRollup) : RootSpanGroup :=
  mkRootGroup (rg_Operation g) (rg_Service g) (wrap64 (rg_Count g + ro_Count s))
    (if bool_decide (ro_Status s = "error"%string) then wrap64 (rg_ErrorCount g + ro_Count s) else rg_ErrorCount g)
    (mkWeights (wrap64 (sw_Count (rg_Weights g) + ro_WeightedCount s)) (wrap64 (sw_Spans (rg_Weights g) + ro_WeightedSpans s)))
    (mergeHist (rg_Hist g) (ro_Hist s)).

Definition rootKey (s : SpanRollup) : string * string := (ro_Name s, ro_Service s).

Definition newRootGroup (k : string * string) : RootSpanGroup := mkRootGroup k.1 k.2 0 0 (mkWeights 0 0) emptyHist.

(** A turn of the callback of [QueryRootSpanGroupsFromRollups]: the groups, and their keys in
    the order of their first rows. *)
Definition rootStep (st : gmap (string * string) RootSpanGroup * list (string * string)) (s : SpanRollup)
  : gmap (string * string) RootSpanGroup * list (string * string) :=
  let k := rootKey s in
  let '(g, order) := match st.1 !! k with Some g => (g, st.2) | None => (newRootGroup k, st.2 ++ [k]) end in
  (<[k := rootAdd g s]> st.1, order).

Definition rootGroupsOf (rows : list SpanRollup) : list RootSpanGroup :=
  let st := foldl rootStep (∅, []) rows in omap (fun k => st.1 !! k) st.2.

Definition setRootOnly (q : SpanRollupScan) : SpanRollupScan :=
  mkScan (sc_Segments q) (sc_ProjectID q) (sc_Service q) (sc_Name q) (sc_Kind q) (sc_Status q) true (sc_ExcludeNames q).

(** [Repository.QueryRootSpanGroupsFromRollups] *)
Definition QueryRootSpanGroupsFromRollups (q : SpanRollupScan) : M (list RootSpanGroup) :=
  rows ← ScanSpanRollups (setRootOnly q);
  mret (rootGroupsOf rows).

(** ** The query service *)

(** [rollupStatus] *)
Definition rollupStatus (status : string) : bool := bool_decide (status ∈ [""; "ok"; "error"; "unset"]%string).

Definition traceGroupRollupMinWindow : Z := hour.

(** Which store answered: [SourceRollups], [SourceSpans]. *)
Inductive source := SourceRollups | SourceSpans.

(** What [SpanFilter] holds of a read of root groups; [raw] is [QueryRootSpanGroups] for it. *)
Record rootFilter := mkRootFilter {
  rf_ProjectID : Z;
  rf_Service : string;
  rf_Status : string;
  rf_MinDuration : Z;
  rf_From : option Z;
  rf_To : option Z;
  rf_Exclude : list string;
}.

(** [QueryService.rootSpanGroups] *)
Definition rootSpanGroups (enabled : bool) (k : planClock) (sf : rootFilter) (raw : M (list RootSpanGroup)) (c : coverageCache) (w : world)
  : (option (list RootSpanGroup) * source * coverageCache) * world :=
  let stored c w := let '(r, w) := raw w in ((r, SourceSpans, c), w) in
  match rf_From sf, rf_To sf with
  | Some from, Some to =>
      if (rf_MinDuration sf =? 0) && rollupStatus (rf_Status sf) && (traceGroupRollupMinWindow <=? to - from) then
        match spanRollupPlan enabled k from to 0 c w with
        | ((Some segs, c), w) =>
            let '(r, w) := QueryRootSpanGroupsFromRollups
              (mkScan segs (rf_ProjectID sf) (rf_Service sf) "" "" (rf_Status sf) false (rf_Exclude sf)) w in
            ((r, SourceRollups, c), w)
        | ((None, c), w) => stored c w
        end
      else stored c w
  | _, _ => stored c w
  end.

(** [rollupFold] *)
Record rollupFold := mkFold { fo_errorCount : Z; fo_effective : Z; fo_hist : Hist }.

Definition zeroFold : rollupFold := mkFold 0 0 emptyHist.

Section Service.
Context (overflow : float64 -> Z) (interp : Z -> Z -> Z -> Z) (rank : Z -> Z -> Z).

(** [rollupFold.addCounts] *)
Definition addCounts (count errors : Z) (weights : SpanWeights) (hist : list Z) (rate : float64) (f : rollupFold) : rollupFold :=
  mkFold (wrap64 (fo_errorCount f + errors)) (wrap64 (fo_effective f + estimateSpans overflow (mkSpanCount count errors weights) rate))
    (mergeHist (fo_hist f) hist).

(** [rollupFold.add] *)
Definition fold_add (s : SpanRollup) (rate : float64) (f : rollupFold) : rollupFold :=
  addCounts (ro_Count s) (if bool_decide (ro_Status s = "error"%string) then ro_Count s else 0)
    (mkWeights (ro_WeightedCount s) (ro_WeightedSpans s)) (ro_Hist s) rate f.

(** [rollupFold.errorRate] *)
Definition errorRate (f : rollupFold) : float64 :=
  if fo_effective f =? 0 then toFloat 0 else (toFloat (fo_errorCount f) / toFloat (fo_effective f))%f64.

(** [opRates.rate]; [lookup] is the ratio of a project's operation. *)
Definition opRate (lookup : option (Z -> string -> Z)) (projectID : Z) (operation : string) : float64 :=
  match lookup with
  | None => toFloat 1
  | Some ratio => if 1 <? ratio projectID operation then (toFloat 1 / toFloat (ratio projectID operation))%f64 else toFloat 1
  end.

(** The callback of [foldSpanRollups]. *)
Definition foldRow {K} `{Countable K} (lookup : option (Z -> string -> Z)) (projectID : Z) (key : SpanRollup -> K)
  (out : gmap K rollupFold) (r : SpanRollup) : gmap K rollupFold :=
  <[key r := fold_add r (opRate lookup projectID (ro_Name r)) (default zeroFold (out !! key r))]> out.

(** [foldSpanRollups] *)
Definition foldSpanRollups {K} `{Countable K} (lookup : option (Z -> string -> Z)) (projectID : Z) (q : SpanRollupScan) (key : SpanRollup -> K)
  : M (gmap K rollupFold) :=
  rows ← ScanSpanRollups q;
  mret (foldl (foldRow lookup projectID key) ∅ rows).

Definition percentileOf (p : Z) (h : Hist) : Z := Hist_Percentile interp (rank p (h_total h)) h.

(** [ServiceSummary], as [servicesFromRollups] fills it. *)
Record ServiceSummary := mkService {
  ss_Service : string;
  ss_SpanCount : Z;
  ss_ErrorCount : Z;
  ss_ErrorRate : float64;
  ss_P50Us : Z;
  ss_P95Us : Z;
  ss_P99Us : Z;
}.

Definition serviceSummary (svc : string) (f : rollupFold) : ServiceSummary :=
  mkService svc (fo_effective f) (fo_errorCount f) (errorRate f) (percentileOf 50 (fo_hist f)) (percentileOf 95 (fo_hist f))
    (percentileOf 99 (fo_hist f)).

(** More spans first, then by name. *)
Definition busierService (a b : ServiceSummary) : Prop :=
  ss_SpanCount b < ss_SpanCount a \/ (ss_SpanCount a = ss_SpanCount b /\ stringLe (ss_Service a) (ss_Service b)).

#[export] Instance busierService_dec : RelDecision busierService.
Proof. intros a b. unfold busierService. apply _. Defined.

(** [QueryService.servicesFromRollups]; [None] first says that the rollups cannot answer. *)
Definition servicesFromRollups (enabled : bool) (lookup : option (Z -> string -> Z)) (k : planClock) (projectID : Z) (from to : option Z)
  (kind : string) (c : coverageCache) (w : world) : (option (option (list ServiceSummary)) * coverageCache) * world :=
  match from, to with
  | Some from, Some to =>
      if to - from <? traceGroupRollupMinWindow then ((None, c), w)
      else
        match spanRollupPlan enabled k from to 0 c w with
        | ((None, c), w) => ((None, c), w)
        | ((Some segs, c), w) =>
            let '(r, w) := foldSpanRollups lookup projectID (mkScan segs projectID "" "" kind "" false []) ro_Service w in
            ((Some ((fun byService => merge_sort busierService ((fun sf => serviceSummary sf.1 sf.2) <$> map_to_list byService)) <$> r), c), w)
        end
  | _, _ => ((None, c), w)
  end.

(** [TimeseriesBucket], as [timeseriesFromRollups] fills it. *)
Record TimeseriesBucket := mkTimeseries { tb_Bucket : Z; tb_Count : Z; tb_ErrorCount : Z; tb_P50Us : Z; tb_P95Us : Z; tb_P99Us : Z }.

Definition timeseriesBucket (b : Z) (f : rollupFold) : TimeseriesBucket :=
  mkTimeseries b (fo_effective f) (fo_errorCount f) (percentileOf 50 (fo_hist f)) (percentileOf 95 (fo_hist f)) (percentileOf 99 (fo_hist f)).

Definition earlierTimeseries (a b : TimeseriesBucket) : Prop := tb_Bucket a <= tb_Bucket b.

#[export] Instance earlierTimeseries_dec : RelDecision earlierTimeseries.
Proof. intros a b. unfold earlierTimeseries. apply _. Defined.

(** [QueryService.timeseriesFromRollups]; a bucket is a Unix time, and [timeseriesInterval] is positive. *)
Definition timeseriesFromRollups (enabled : bool) (lookup : option (Z -> string -> Z)) (k : planClock) (projectID : Z)
  (svcName operation : string) (from to : option Z) (interval : Z) (c : coverageCache) (w : world)
  : (option (option (list TimeseriesBucket)) * coverageCache) * world :=
  let sec := Z.quot interval second in
  match from, to with
  | Some from, Some to =>
      if negb (Z.rem interval second =? 0) then ((None, c), w)
      else
        match spanRollupPlan enabled k from to sec c w with
        | ((None, c), w) => ((None, c), w)
        | ((Some segs, c), w) =>
            let name := if bool_decide (operation = "*"%string) then ""%string else operation in
            let '(r, w) := foldSpanRollups lookup projectID (mkScan segs projectID svcName name "" "" false [])
                             (fun r => ro_Bucket r - Z.rem (ro_Bucket r) sec) w in
            ((Some ((fun byBucket => merge_sort earlierTimeseries ((fun bf => timeseriesBucket bf.1 bf.2) <$> map_to_list byBucket)) <$> r), c), w)
        end
  | _, _ => ((None, c), w)
  end.

(** [foldSpanEdges] *)
Definition foldEdge {K} `{Countable K} (rate : float64) (key : SpanEdge -> option K) (out : gmap K rollupFold) (e : SpanEdge)
  : gmap K rollupFold :=
  match key e with
  | None => out
  | Some k =>
      <[k := addCounts (ed_Count e) (ed_ErrorCount e) (mkWeights (ed_WeightedCount e) (ed_WeightedSpans e)) (ed_Hist e) rate
               (default zeroFold (out !! k))]> out
  end.

Definition foldSpanEdges {K} `{Countable K} (lookup : option (Z -> Z)) (q : SpanEdgeScan) (key : SpanEdge -> option K)
  : M (gmap K rollupFold) :=
  rows ← ScanSpanEdges q;
  mret (foldl (foldEdge (sampleRateFor lookup (es_ProjectID q)) key) ∅ rows).

(** [DependencySummary], as [dependenciesFromRollups] fills it. *)
Record DependencySummary := mkDependency {
  de_Target : string;
  de_TargetType : string;
  de_CallCount : Z;
  de_ErrorCount : Z;
  de_ErrorRate : float64;
  de_P50Us : Z;
  de_P95Us : Z;
  de_P99Us : Z;
}.

Definition dependencySummary (k : string * string) (f : rollupFold) : DependencySummary :=
  mkDependency k.1 k.2 (fo_effective f) (fo_errorCount f) (errorRate f) (percentileOf 50 (fo_hist f)) (percentileOf 95 (fo_hist f))
    (percentileOf 99 (fo_hist f)).

(** More calls first, then by target; Go leaves targets that differ only in their type in any order. *)
Definition busierDependency (a b : DependencySummary) : Prop :=
  de_CallCount b < de_CallCount a \/ (de_CallCount a = de_CallCount b /\ stringLe (de_Target a) (de_Target b)).

#[export] Instance busierDependency_dec : RelDecision busierDependency.
Proof. intros a b. unfold busierDependency. apply _. Defined.

(** [edgeRollupWindow] and [QueryService.dependenciesFromRollups] *)
Definition dependenciesFromRollups (enabled : bool) (lookup : option (Z -> Z)) (k : planClock) (projectID : Z) (from to : option Z)
  (svc : string) (c : coverageCache) (w : world) : (option (option (list DependencySummary)) * coverageCache) * world :=
  match from, to with
  | Some from, Some to =>
      if to - from <? traceGroupRollupMinWindow then ((None, c), w)
      else
        match spanEdgePlan enabled k from to 0 c w with
        | ((None, c), w) => ((None, c), w)
        | ((Some segs, c), w) =>
            let '(r, w) := foldSpanEdges lookup (mkEdgeScan segs projectID svc false) (fun e => Some (ed_Target e, ed_TargetType e)) w in
            ((Some ((fun byDep => merge_sort busierDependency ((fun kf => dependencySummary kf.1 kf.2) <$> map_to_list byDep)) <$> r), c), w)
        end
  | _, _ => ((None, c), w)
  end.
End Service.

(** ** Dashboard reads *)

(** [DashboardGroup]; any other name is refused. *)
Inductive DashboardGroup := GroupService | GroupName | GroupHTTPStatus | GroupStatus.

#[export] Instance DashboardGroup_eq_dec : EqDecision DashboardGroup.
Proof. solve_decision. Defined.

(** [DashboardRollupQuery] *)
Record DashboardRollupQuery := mkDashboardQuery { dq_Scan : SpanRollupScan; dq_Interval : Z; dq_BinLo : Z; dq_BinHi : Z }.

(** [DashboardRollupQuery.banded] *)
Definition banded (q : DashboardRollupQuery) : bool := (0 <? dq_BinLo q) || (0 <? dq_BinHi q).

(** [SpanRollup.Received] *)
Definition Received (s : SpanRollup) : Z := wrap64 (wrap64 (ro_Count s - ro_WeightedSpans s) + ro_WeightedCount s).

(** [DashboardRollupQuery.band] *)
Definition band (q : DashboardRollupQuery) (s : SpanRollup) : Hist * float64 :=
  match Decode (ro_Hist s) with
  | None => (emptyHist, toFloat 0)
  | Some h =>
      let hi := if dq_BinHi q <=? 0 then Bins else dq_BinHi q in
      let inside := Hist_Between h (dq_BinLo q) hi in
      if ro_Count s =? 0 then (inside, toFloat 0)
      else (inside, (toFloat (Received s) * toFloat (Hist_Count inside) / toFloat (ro_Count s))%f64)
  end.

(** [DashboardRollupQuery.chartBucket] *)
Definition chartBucket (q : DashboardRollupQuery) (s : SpanRollup) : Z := ro_Bucket s - Z.rem (ro_Bucket s) (dq_Interval q).

(** [rollupGroup] *)
Definition rollupGroup (g : DashboardGroup) (s : SpanRollup) : option string :=
  match g with
  | GroupService => Some (ro_Service s)
  | GroupName => Some (ro_Name s)
  | GroupStatus => Some (ro_Status s)
  | GroupHTTPStatus => if 0 <? ro_HTTPStatus s then Some (FormatInt (ro_HTTPStatus s)) else None
  end.

Definition addTotal {K} `{Countable K} (k : K) (n : float64) (totals : gmap K float64) : gmap K float64 :=
  <[k := (default (toFloat 0) (totals !! k) + n)%f64]> totals.

(** A row's key in the sums; [None] for a row the query leaves out. *)
Definition pointKeyOf (q : DashboardRollupQuery) (g : DashboardGroup) (s : SpanRollup) : option (Z * string) :=
  (fun name => (chartBucket q s, name)) <$> rollupGroup g s.

(** The integer sums of one query of [sumSpanRollups], by chart bucket and group; SQLite divides
    truncating as Go does.  [validate] gives positive intervals. *)
Definition sumRows (q : DashboardRollupQuery) (g : DashboardGroup) (rows : list SpanRollup) : gmap (Z * string) Z :=
  foldl (fun sums s =>
    match pointKeyOf q g s with
    | Some k => <[k := default 0 (sums !! k) + Received s]> sums
    | None => sums
    end) ∅ rows.

(** [Repository.sumSpanRollups]; an interval that is no multiple of a step is refused.  A sum past
    [int64] is an error of SQLite. *)
Fixpoint sumSpanRollups (q : DashboardRollupQuery) (g : DashboardGroup) (segs : list SpanRollupSegment) (totals : gmap (Z * string) float64)
  : M (gmap (Z * string) float64) :=
  match segs with
  | [] => mret totals
  | s :: segs =>
      if negb (Z.rem (dq_Interval q) (sg_Step s) =? 0) then fun w => (None, w)
      else
        sums ← attempt (fun w =>
          let sums := sumRows q g (segmentRows (dq_Scan q) (w_rollups w) s) in
          if bool_decide (map_Forall (fun _ n => in_int64 n) sums) then Some sums else None);
        sumSpanRollups q g segs (map_fold (fun k n totals => addTotal k (toFloat n) totals) totals sums)
  end.

(** The callback of the banded count. *)
Definition bandedRow (q : DashboardRollupQuery) (g : DashboardGroup) (totals : gmap (Z * string) float64) (s : SpanRollup)
  : gmap (Z * string) float64 :=
  match rollupGroup g s with
  | None => totals
  | Some name =>
      let '(inside, received) := band q s in
      if 0 <? Hist_Count inside then addTotal (chartBucket q s, name) received totals else totals
  end.

(** [math.Round] of a finite value: half away from zero. *)
Definition Round (x : float64) : float64 :=
  match x with
  | S754_finite s m e =>
      if 0 <=? e then x
      else let q := (2 * Zpos m + 2 ^ (- e)) / 2 ^ (1 - e) in toFloat (if s then - q else q)
  | _ => x
  end.

(** [DashboardCountPoint] *)
Record DashboardCountPoint := mkCountPoint { dp_Bucket : Z; dp_Group : string; dp_Count : Z }.

(** By bucket, then by group. *)
Definition pointLe (a b : DashboardCountPoint) : Prop :=
  dp_Bucket a < dp_Bucket b \/ (dp_Bucket a = dp_Bucket b /\ stringLe (dp_Group a) (dp_Group b)).

#[export] Instance pointLe_dec : RelDecision pointLe.
Proof. intros a b. unfold pointLe. apply _. Defined.

(** Higher totals first, then by name. *)
Definition largerGroup (a b : string * Z) : Prop := b.2 < a.2 \/ (a.2 = b.2 /\ stringLe a.1 b.1).

#[export] Instance largerGroup_dec : RelDecision largerGroup.
Proof. intros a b. unfold largerGroup. apply _. Defined.

(** [topGroups] *)
Definition topGroups (totals : gmap string Z) (n : Z) : list string :=
  (take (Z.to_nat n) (merge_sort largerGroup (map_to_list totals))).*1.

(** The totals by group of [foldCountPoints]. *)
Definition groupSums (points : list DashboardCountPoint) : gmap string Z :=
  foldl (fun totals p => <[dp_Group p := wrap64 (default 0 (totals !! dp_Group p) + dp_Count p)]> totals) ∅ points.

(** A point whose group is folded into [DashboardOtherGroup]. *)
Definition renamed (keep : list string) (p : DashboardCountPoint) : DashboardCountPoint :=
  mkCountPoint (dp_Bucket p) (if bool_decide (dp_Group p ∈ keep) then dp_Group p else "other") (dp_Count p).

Definition mergePoints (points : list DashboardCountPoint) : list DashboardCountPoint :=
  (fun k => mkCountPoint k.1 k.2
     (foldl (fun n p => wrap64 (n + dp_Count p)) 0 (filter (fun p => (dp_Bucket p, dp_Group p) = k) points)))
  <$> seenOrder ((fun p => (dp_Bucket p, dp_Group p)) <$> points).

(** [foldCountPoints] *)
Definition foldCountPoints (points : list DashboardCountPoint) (topN : Z) : list DashboardCountPoint :=
  let totals := groupSums points in
  if (topN <=? 0) || (Z.of_nat (size totals) <=? topN) then points
  else mergePoints (renamed (topGroups totals topN) <$> points).

Section Dashboard.
Context (overflow : float64 -> Z).

(** The points of the totals, in order. *)
Definition pointsOf (totals : gmap (Z * string) float64) : list DashboardCountPoint :=
  merge_sort pointLe ((fun kn => mkCountPoint kn.1.1 kn.1.2 (toInt64 overflow (Round kn.2))) <$> map_to_list totals).

(** [Repository.QueryDashboardCountsFromRollups] *)
Definition QueryDashboardCountsFromRollups (q : DashboardRollupQuery) (g : DashboardGroup) (topN : Z) : M (list DashboardCountPoint) :=
  totals ← (if banded q then rows ← ScanSpanRollups (dq_Scan q); mret (foldl (bandedRow q g) ∅ rows)
            else sumSpanRollups q g (sc_Segments (dq_Scan q)) ∅);
  mret (foldCountPoints (pointsOf totals) topN).

(** [DashboardHeatmapCell] *)
Record DashboardHeatmapCell := mkCell { ce_Bucket : Z; ce_DurationBucket : Z; ce_Count : Z }.

(** The callback of the heatmap: each bin scaled to the received spans of its row. *)
Definition heatmapRow (q : DashboardRollupQuery) (totals : gmap (Z * Z) float64) (s : SpanRollup) : gmap (Z * Z) float64 :=
  let '(inside, n) := band q s in
  if Hist_Count inside =? 0 then totals
  else
    let scale := (n / toFloat (Hist_Count inside))%f64 in
    foldl (fun totals b => addTotal (chartBucket q s, Z.shiftr (b_Index b) 1) (toFloat (b_Count b) * scale)%f64 totals) totals (h_bins inside).

Definition cellLe (a b : DashboardHeatmapCell) : Prop :=
  ce_Bucket a < ce_Bucket b \/ (ce_Bucket a = ce_Bucket b /\ ce_DurationBucket a <= ce_DurationBucket b).

#[export] Instance cellLe_dec : RelDecision cellLe.
Proof. intros a b. unfold cellLe. apply _. Defined.

(** [Repository.QueryDashboardHeatmapFromRollups] *)
Definition QueryDashboardHeatmapFromRollups (q : DashboardRollupQuery) : M (list DashboardHeatmapCell) :=
  rows ← ScanSpanRollups (dq_Scan q);
  let cells := (fun kn => mkCell kn.1.1 kn.1.2 (toInt64 overflow (Round kn.2))) <$> map_to_list (foldl (heatmapRow q) ∅ rows) in
  mret (merge_sort cellLe (filter (fun c => 0 < ce_Count c) cells)).

(** ** Dashboard cards *)

Context (Pow : float64 -> float64 -> float64) (Log2 : float64 -> float64).

(** [HeatmapBucketLowerUs] *)
Definition HeatmapBucketLowerUs (idx : Z) : Z :=
  if idx <=? 0 then 0 else wrap64 (toInt64 overflow (Round (Pow (toFloat 2) (toFloat idx / toFloat 2)%f64)) - 1).

(** [heatmapEdge] *)
Definition heatmapEdge (us : Z) : option Z :=
  let guess := toInt64 overflow (Round (toFloat 2 * Log2 (toFloat us + toFloat 1))%f64) in
  head (filter (fun i => 0 <= i /\ HeatmapBucketLowerUs i = us) [guess - 1; guess; guess + 1]).

(** [rollupBand] *)
Definition rollupBand (minUs maxUs : Z) : option (Z * Z) :=
  lo ← (if 0 <? minUs then (fun i => 2 * i) <$> heatmapEdge minUs else Some 0);
  hi ← (if 0 <? maxUs then (fun i => 2 * i) <$> heatmapEdge maxUs else Some 0);
  Some (lo, hi).

(** [DashboardQuery] *)
Record DashboardQuery := mkCardQuery {
  da_ProjectID : Z;
  da_Service : string;
  da_Name : string;
  da_Status : string;
  da_MinDurationUs : Z;
  da_MaxDurationUs : Z;
  da_From : Z;
  da_To : Z;
}.

(** [QueryService.dashboardRollupQuery] *)
Definition dashboardRollupQuery (enabled : bool) (k : planClock) (q : DashboardQuery) (interval : Z) (rootOnly : bool) (c : coverageCache)
  (w : world) : (option DashboardRollupQuery * coverageCache) * world :=
  if negb (rollupStatus (da_Status q)) then ((None, c), w)
  else
    match rollupBand (da_MinDurationUs q) (da_MaxDurationUs q) with
    | None => ((None, c), w)
    | Some (lo, hi) =>
        match spanRollupPlan enabled k (da_From q) (da_To q) interval c w with
        | ((None, c), w) => ((None, c), w)
        | ((Some segs, c), w) =>
            ((Some (mkDashboardQuery (mkScan segs (da_ProjectID q) (da_Service q) (da_Name q) "" (da_Status q) rootOnly []) interval lo hi), c), w)
        end
    end.

(** [dashboardTopN] *)
Definition dashboardTopN : Z := 10.

(** [QueryService.dashboardCountPoints]; [raw] is [QueryDashboardCounts]. *)
Definition dashboardCountPoints (enabled httpStatus : bool) (k : planClock) (q : DashboardQuery) (interval : Z) (g : DashboardGroup)
  (rootOnly : bool) (raw : M (list DashboardCountPoint)) (c : coverageCache) (w : world)
  : (option (list DashboardCountPoint) * source * coverageCache) * world :=
  let stored c w := let '(r, w) := raw w in ((r, SourceSpans, c), w) in
  if negb (bool_decide (g = GroupHTTPStatus)) || (rootOnly && httpStatus) then
    match dashboardRollupQuery enabled k q interval rootOnly c w with
    | ((Some rq, c), w) => let '(r, w) := QueryDashboardCountsFromRollups rq g dashboardTopN w in ((r, SourceRollups, c), w)
    | ((None, c), w) => stored c w
    end
  else stored c w.
(** [QueryService.dashboardHeatmapCells]; [raw] is [QueryDashboardHeatmap]. *)
Definition dashboardHeatmapCells (enabled : bool) (k : planClock) (q : DashboardQuery) (interval : Z) (rootOnly : bool)
  (raw : M (list DashboardHeatmapCell)) (c : coverageCache) (w : world)
  : (option (list DashboardHeatmapCell) * source * coverageCache) * world :=
  match dashboardRollupQuery enabled k q interval rootOnly c w with
  | ((Some rq, c), w) => let '(r, w) := QueryDashboardHeatmapFromRollups rq w in ((r, SourceRollups, c), w)
  | ((None, c), w) => let '(r, w) := raw w in ((r, SourceSpans, c), w)
  end.
End Dashboard.

(** ** Dashboard requests *)

Definition MaxDashboardWindow : Z := 48 * hour.

Definition MinDashboardWindow : Z := minute.

Definition dashboardFineGrain : Z := 15 * second.

Definition dashboardCoarseGrain : Z := 15 * minute.

Definition dashboardCoarseFrom : Z := 12 * hour.

(** [dashboardGrain] and [DashboardQuery.grain] *)
Definition dashboardGrain (window : Z) : Z := if dashboardCoarseFrom <=? window then dashboardCoarseGrain else dashboardFineGrain.

Definition grain (q : DashboardQuery) : Z := dashboardGrain (da_To q - da_From q).

(** [DashboardQuery.snapped]; both grains divide the time from Go's zero time to 1970. *)
Definition snapped (q : DashboardQuery) : DashboardQuery :=
  mkCardQuery (da_ProjectID q) (da_Service q) (da_Name q) (da_Status q) (da_MinDurationUs q) (da_MaxDurationUs q)
    (da_From q - da_From q mod grain q) (da_To q - da_To q mod grain q).

(** [dashboardInterval] *)
Definition dashboardInterval (window : Z) : Z :=
  if window <=? 15 * minute then 15
  else if window <=? hour then 60
  else if window <=? 4 * hour then 300
  else if window <=? 24 * hour then 900
  else 1800.

(** What [DashboardQuery.validate] refuses. *)
Inductive dashboardError := RangeMissing | RangeReversed | RangeTooShort | BadDurations | RangeTooLong.

(** [DashboardQuery.validate] *)
Definition validate (q : DashboardQuery) : dashboardError + Z :=
  let window := da_To q - da_From q in
  if (da_From q =? zeroTime) || (da_To q =? zeroTime) then inl RangeMissing
  else if window <=? 0 then inl RangeReversed
  else if window <? MinDashboardWindow then inl RangeTooShort
  else if (da_MinDurationUs q <? 0) || (da_MaxDurationUs q <? 0) || ((0 <? da_MaxDurationUs q) && (da_MaxDurationUs q <? da_MinDurationUs q))
  then inl BadDurations
  else if MaxDashboardWindow <? window then inl RangeTooLong
  else inr (dashboardInterval window).

(** [timeseriesInterval] *)
Definition timeseriesInterval (from to : option Z) (interval : Z) : Z :=
  if 0 <? interval then interval
  else match from, to with
       | Some from, Some to => Z.max (dashboardInterval (to - from) * second) minute
       | _, _ => minute
       end.
