(* ===== verification/RollupReadsProps.v ===== *)
(** * Reads of the tiers see every span once

    What a read finds in the tiers of its plan is what it would find in all 5-minute rows ever
    written, although the tiers hold them merged and retention has deleted the 5-minute rows of
    compacted hours. *)
From S2P Require Import Prelude Model Varint SpanHist Sampling TierStore Tiers SpanPlan SpanMerge Compaction.
From S2P Require Import CompactionInv CompleteWindow CompactionWorld CompactionProps RetentionConfig RetentionTiers RetentionLive.
From S2P Require Import Float64 Slo MetricMerge RollupReads.

(** ** Totals that merging keeps *)

(** A total of rows that depends on no order, can be taken in parts, and is the same for source rows and
    the rows they merge into. *)
Class TierTotals {A} (tot : list SpanRollup -> A) : Prop := {
  tot_perm l l' : l ≡ₚ l' -> tot l = tot l';
  tot_app l1 l1' l2 l2' : tot l1 = tot l1' -> tot l2 = tot l2' -> tot (l1 ++ l2) = tot (l1' ++ l2');
  tot_merge (p : rollupKey -> bool) rows step b :
    tot (filter (fun r => p (rollupKeyOf r) = true) (Merge rows step b)) =
    tot (filter (fun r => p (rollupKeyOf r) = true) rows);
}.

Lemma wrap64_congr a a' b b' : wrap64 a = wrap64 a' -> wrap64 b = wrap64 b' -> wrap64 (a + b) = wrap64 (a' + b').
Proof. intros Ha Hb. rewrite <- wrap64_add_r, Hb, wrap64_add_r, Z.add_comm, <- wrap64_add_r, Ha, wrap64_add_r. f_equal. lia. Qed.

Lemma sumBy_if_eq {K} `{EqDecision K} (x : Z) (k0 : K) (order : list K) : NoDup order -> k0 ∈ order ->
  sumBy (fun k => if decide (k0 = k) then x else 0) order = x.
Proof.
  intros Hn Hk. apply list_elem_of_split in Hk as (l1 & l2 & ->). rewrite sumBy_app, sumBy_cons, decide_True by done.
  apply NoDup_app in Hn as (_ & H1 & [H2 _]%NoDup_cons).
  rewrite !sumBy_zero; [lia| |]; intros k Hk; rewrite decide_False; try done; intros <-.
  - done.
  - apply (H1 _ Hk). by left.
Qed.

(** The sum over rows is the sum over their keys of the rows of each key. *)
Lemma sumBy_keys {R K} `{EqDecision K} (key : R -> K) (f : R -> Z) (order : list K) rows : NoDup order ->
  (forall r, r ∈ rows -> key r ∈ order) ->
  sumBy f rows = sumBy (fun k => sumBy f (filter (fun r => key r = k) rows)) order.
Proof.
  intros Hn. induction rows as [|r rows IH]; intros Hk.
  { symmetry. by apply sumBy_zero. }
  rewrite sumBy_cons, IH by (intros; apply Hk; by right). rewrite <- (sumBy_if_eq (f r) (key r) order Hn) at 1 by (apply Hk; by left).
  rewrite <- sumBy_plus. apply sumBy_ext. intros k _. rewrite filter_cons. case_decide; [by rewrite sumBy_cons|done].
Qed.

(** The fields of a row that add up. *)
Definition additive (f : SpanRollup -> Z) : Prop :=
  (forall step b r, f (rollupFirst step b r) = 0) /\ (forall a r, f (rollupAdd a r) = wrap64 (f a + f r)) /\
  (forall h r, f (setRollupHist h r) = f r).

Lemma additive_fold f rows : additive f -> forall a, wrap64 (f (foldl rollupAdd a rows)) = wrap64 (f a + sumBy f rows).
Proof.
  intros (_ & Ha & _). induction rows as [|r rows IH]; intros a; cbn [foldl]; [cbn; by rewrite Z.add_0_r|].
  rewrite IH, Ha, sumBy_cons. rewrite Z.add_comm, wrap64_add_r. f_equal. lia.
Qed.

Lemma sumBy_filter_omap {K R} (f : R -> Z) (p : R -> bool) (g : K -> option R) order :
  sumBy f (filter (fun r => p r = true) (omap g order)) =
  sumBy (fun k => match g k with Some x => if p x then f x else 0 | None => 0 end) order.
Proof.
  induction order as [|k order IH]; [done|]. rewrite sumBy_cons, <- IH. cbn [omap list_omap]. destruct (g k) as [x|]; [|done].
  rewrite filter_cons. destruct (p x) eqn:E; [rewrite decide_True by done; by rewrite sumBy_cons|by rewrite decide_False].
Qed.

Lemma filter_none {R} (P : R -> Prop) `{!forall r, Decision (P r)} l : filter P l = [] <-> forall r, r ∈ l -> ~ P r.
Proof.
  split.
  - intros E r Hr Hp. eapply filter_nil_not_elem_of; done.
  - induction l as [|r l IH]; intros Hn; [done|]. rewrite filter_cons, decide_False by (apply Hn; by left). apply IH. intros; apply Hn; by right.
Qed.

Lemma filter_key_pred {R K} `{EqDecision K} (key : R -> K) (p : K -> bool) k rows :
  filter (fun r => key r = k) (filter (fun r => p (key r) = true) rows) =
  if p k then filter (fun r => key r = k) rows else [].
Proof.
  rewrite list_filter_filter. destruct (p k) eqn:E.
  - apply list_filter_iff. intros r. split; [by intros [? ?]|intros Ek; split; [done|by rewrite Ek]].
  - apply filter_none. intros r _ [Ek Hp]. congruence.
Qed.

(** The row that the rows of a key merge into has that key. *)
Lemma merged_key step b rows k a : accOf rollupKeyOf (rollupFirst step b) rollupAdd ro_Hist k rows = Some a ->
  rollupKeyOf (setRollupHist (Hist_Encode a.2) a.1) = k.
Proof. intros (r0 & l & <- & ->)%accOf_key. unfold rollupKeyOf, setRollupHist. simpl. by rewrite !foldl_keeps by done. Qed.

Lemma additive_totals f : additive f -> TierTotals (fun l => wrap64 (sumBy f l)).
Proof.
  intros Hf. split.
  - intros l l' Hl. by rewrite Hl.
  - intros l1 l1' l2 l2' H1 H2. rewrite !sumBy_app. by apply wrap64_congr.
  - intros p rows step b. unfold Merge, mergeTier. destruct (foldl _ _ rows) as [bk od] eqn:E.
    destruct (mergeFold_spec _ _ _ _ rows bk od E) as (Hb & Hn & Ho).
    rewrite (sumBy_filter_omap f (fun r => p (rollupKeyOf r))), (sumBy_keys rollupKeyOf f od (filter _ rows) Hn).
    2:{ intros r [_ Hr]%list_elem_of_filter. apply Ho. unfold accOf. destruct (filter _ rows) as [|r0 l] eqn:Ef; [|done].
        assert (r ∈ filter (fun x => rollupKeyOf x = rollupKeyOf r) rows) as Hin by (by apply list_elem_of_filter).
        rewrite Ef in Hin. by apply not_elem_of_nil in Hin. }
    apply wrap64_sumBy. intros k Hk. apply Ho in Hk as [a Ha]. rewrite Hb, Ha. cbn [fmap option_fmap option_map].
    rewrite (merged_key _ _ _ _ _ Ha), filter_key_pred. destruct (p k); [|done].
    destruct Hf as (H0 & H1 & H2). rewrite H2. unfold accOf in Ha. destruct (filter _ rows) as [|r l]; [done|]. injection Ha as <-. cbn [fst].
    rewrite additive_fold by done. rewrite H1, H0, sumBy_cons, Z.add_comm, wrap64_add_r. f_equal. lia.
Qed.

#[export] Instance count_totals : TierTotals (fun l => wrap64 (sumBy ro_Count l)).
Proof. by apply additive_totals. Qed.

#[export] Instance weighted_totals : TierTotals (fun l => wrap64 (sumBy ro_WeightedCount l)).
Proof. by apply additive_totals. Qed.

#[export] Instance spans_totals : TierTotals (fun l => wrap64 (sumBy ro_WeightedSpans l)).
Proof. by apply additive_totals. Qed.

(** Whether there is no row at all. *)
Definition noRows (l : list SpanRollup) : bool := bool_decide (l = []).

#[export] Instance some_totals : TierTotals noRows.
Proof.
  unfold noRows. split.
  - intros l l' Hl. apply bool_decide_ext. split; intros ->; [by apply Permutation_nil_l in Hl|by apply Permutation_nil_r in Hl].
  - intros l1 l1' l2 l2'.
    assert (forall l l' : list SpanRollup, bool_decide (l = []) = bool_decide (l' = []) -> l = [] <-> l' = []) as Hd.
    { intros l l' E. rewrite <- (bool_decide_eq_true (l = [])), E. apply bool_decide_eq_true. }
    intros H1%Hd H2%Hd. apply bool_decide_ext. rewrite !app_nil. tauto.
  - intros p rows step b. apply bool_decide_ext. rewrite !filter_none. split; intros H.
    + intros r Hr Hp. unfold Merge in H.
      destruct (accOf rollupKeyOf (rollupFirst step b) rollupAdd ro_Hist (rollupKeyOf r) rows) as [a|] eqn:Ea.
      * apply (H (setRollupHist (Hist_Encode a.2) a.1)); [apply mergeTier_in; eauto|]. by rewrite (merged_key _ _ _ _ _ Ea).
      * unfold accOf in Ea. destruct (filter _ rows) eqn:Ef; [|done].
        assert (r ∈ filter (fun x => rollupKeyOf x = rollupKeyOf r) rows) as Hin by (by apply list_elem_of_filter).
        rewrite Ef in Hin. by apply not_elem_of_nil in Hin.
    + intros r (k & a & Ha & ->)%mergeTier_in Hp. rewrite (merged_key _ _ _ _ _ Ha) in Hp. unfold accOf in Ha.
      destruct (filter _ rows) as [|r0 l] eqn:Ef; [done|].
      assert (r0 ∈ filter (fun x => rollupKeyOf x = k) rows) as [Hk Hin]%list_elem_of_filter by (rewrite Ef; by left).
      apply (H r0 Hin). by rewrite Hk.
Qed.

(** ** Windows of a table *)

(** The rows of a step with buckets from [a] up to [b], in seconds. *)
Abbreviation win t S a b := (SpanRollupWindow t S (a * second) (b * second)).

Lemma elem_of_win t S a b r : r ∈ win t S a b <-> ro_StepSeconds r = S /\ a <= ro_Bucket r < b /\ exists k, t !! k = Some r.
Proof. unfold SpanRollupWindow. rewrite elem_of_window. unfold inWindow. rewrite !Unix_second. tauto. Qed.

Lemma NoDup_win t S a b : rollupKeys t -> NoDup (win t S a b).
Proof.
  intros Hk. unfold SpanRollupWindow, tierWindow. apply NoDup_fmap_2_strong; [|apply NoDup_map_to_list].
  intros [k r] [k' r'] [H1 _]%elem_of_map_to_list%map_lookup_filter_Some [H2 _]%elem_of_map_to_list%map_lookup_filter_Some E.
  cbn in E. subst r'. destruct (Hk _ _ H1) as [<- _], (Hk _ _ H2) as [<- _]. done.
Qed.

Lemma win_split t S a m b : rollupKeys t -> a <= m <= b -> win t S a b ≡ₚ win t S a m ++ win t S m b.
Proof.
  intros Hk Hm. apply NoDup_Permutation; [by apply NoDup_win| |].
  - apply NoDup_app. split_and!; [by apply NoDup_win| |by apply NoDup_win].
    intros r (_ & H1 & _)%elem_of_win (_ & H2 & _)%elem_of_win. lia.
  - intros r. rewrite elem_of_app, !elem_of_win. split; [|intros [?|?]; naive_solver lia].
    intros (? & ? & ?). destruct (Z.lt_ge_cases (ro_Bucket r) m); [left|right]; split_and!; done || lia.
Qed.

Lemma win_nil t S a : win t S a a = [].
Proof.
  destruct (win t S a a) as [|r l] eqn:El; [done|]. assert (r ∈ win t S a a) as (_ & ? & _)%elem_of_win by (rewrite El; by left). lia.
Qed.

Section Chains.
Context {A : Type} (tot : list SpanRollup -> A) `{!TierTotals tot}.
Context (p : rollupKey -> Z -> bool) (chart : Z -> Z).

(** The rows a read counts: by their key and the chart bucket they lie in. *)
Definition counted (r : SpanRollup) : Prop := p (rollupKeyOf r) (chart (ro_Bucket r)) = true.

#[export] Instance counted_dec r : Decision (counted r).
Proof. unfold counted. apply _. Defined.

Abbreviation total t S a b := (tot (filter counted (win t S a b))).

(** Two ranges that agree in each part agree. *)
Lemma total_parts t t' S S' a m b : rollupKeys t -> rollupKeys t' -> a <= m <= b ->
  total t S a m = total t' S' a m -> total t S m b = total t' S' m b -> total t S a b = total t' S' a b.
Proof.
  intros Hk Hk' Hm H1 H2.
  rewrite (tot_perm _ _ (filter_Permutation _ _ _ (win_split t S a m b Hk Hm))), (tot_perm _ _ (filter_Permutation _ _ _ (win_split t' S' a m b Hk' Hm))).
  rewrite !filter_app. by apply tot_app.
Qed.

Lemma total_empty t t' S S' a : total t S a a = total t' S' a a.
Proof. by rewrite !win_nil. Qed.

(** ** Coarse buckets and their sources *)

Section History.
Context (c5 : Z -> Prop) (marks : gmap Z Z) (hz : Z) (older : Z -> Z -> Prop) (h : gmap rollupPK SpanRollup).
Context (Hinv : rollupInv c5 marks hz older h).

(** All of [a .. b) lies in one chart bucket. *)
Definition oneChart (a b : Z) : Prop := forall x y, a <= x < b -> a <= y < b -> chart x = chart y.

Lemma bucket_rows S b th : coarse S -> (S | b) -> rollupHas h S b -> marks !! sourceOf S = Some th -> b + S <= th ->
  win h S b (b + S) ≡ₚ rollupBuilt h S b.
Proof.
  intros HS Hd Hb Hm Hth. pose proof (coarse_pos S HS) as Hp. apply NoDup_Permutation.
  - apply NoDup_win, Hinv.
  - eapply NoDup_fmap_1, (@merge_nodup _ _ _ _ spanRollupPK Merge rollup_laws).
  - intros r. rewrite elem_of_win. split.
    + intros (Es & Hr & k & Hk). destruct (ti_keys _ _ _ _ _ _ _ _ _ Hinv _ _ Hk) as (_ & _ & Hdr & _). rewrite Es in Hdr.
      assert (ro_Bucket r = b) as Eb by (apply (aligned_between S); done || lia).
      pose proof (ti_built _ _ _ _ _ _ _ _ _ Hinv k r Hk) as H1. rewrite Es, Eb in H1. by apply H1.
    + intros Hr. pose proof (ti_whole _ _ _ _ _ _ _ _ _ Hinv S b th HS Hm Hth Hb r Hr) as Hk.
      destruct (@merge_at _ _ _ _ spanRollupPK Merge rollup_laws _ _ _ _ Hr) as [Es Eb]. split_and!; [done|lia|lia|eauto].
Qed.

(** A bucket holds what its source window holds. *)
Lemma bucket_total S b th : coarse S -> (S | b) -> rollupHas h S b -> marks !! sourceOf S = Some th -> b + S <= th ->
  oneChart b (b + S) -> total h S b (b + S) = total h (sourceOf S) b (b + S).
Proof.
  intros HS Hd Hb Hm Hth Hc. pose proof (coarse_pos S HS) as Hp.
  rewrite (tot_perm _ _ (filter_Permutation _ _ _ (bucket_rows S b th HS Hd Hb Hm Hth))).
  assert (forall l : list SpanRollup, (forall r, r ∈ l -> b <= ro_Bucket r < b + S) ->
    filter counted l = filter (fun r => p (rollupKeyOf r) (chart b) = true) l) as He.
  { intros l Hl. apply filter_ext_in. intros r Hr. unfold counted. rewrite (Hc (ro_Bucket r) b); [done|auto|lia]. }
  rewrite He.
  2:{ intros r Hr. destruct (@merge_at _ _ _ _ spanRollupPK Merge rollup_laws _ _ _ _ Hr) as [_ ->]. lia. }
  rewrite (He (win h (sourceOf S) b (b + S))) by (intros r (_ & ? & _)%elem_of_win; lia).
  unfold built. apply (tot_merge (fun k => p k (chart b))).
Qed.

Lemma oneChart_part a b a' b' : oneChart a b -> a <= a' -> b' <= b -> oneChart a' b'.
Proof. intros Hc Ha Hb x y Hx Hy. apply Hc; lia. Qed.

(** So do runs of hours. *)
Lemma hours_total th (n : nat) : marks !! Step5m = Some th -> forall b, (StepHour | b) -> b + Z.of_nat n * StepHour <= th ->
  (forall x, (StepHour | x) -> b <= x < b + Z.of_nat n * StepHour -> rollupHas h StepHour x /\ oneChart x (x + StepHour)) ->
  total h StepHour b (b + Z.of_nat n * StepHour) = total h Step5m b (b + Z.of_nat n * StepHour).
Proof.
  intros Hm. induction n as [|n IH]; intros b Hd Hth Hx.
  { rewrite Z.add_0_r. apply total_empty. }
  assert (0 < StepHour) as Hp by done. rewrite Nat2Z.inj_succ in *.
  destruct (Hx b Hd) as [Hb Hc]; [nia|].
  apply (total_parts _ _ _ _ _ (b + StepHour)); [apply Hinv|apply Hinv|nia| |].
  - apply (bucket_total StepHour b th); try done; [by left|nia].
  - replace (b + Z.succ (Z.of_nat n) * StepHour) with (b + StepHour + Z.of_nat n * StepHour) by lia. apply IH.
    + by apply Z.divide_add_r; [|exists 1].
    + lia.
    + intros x Hdx Hbx. apply Hx; [done|nia].
Qed.

(** And buckets of any coarse tier. *)
Lemma bucket_5m S b th : coarse S -> (S | b) -> rollupHas h S b -> marks !! sourceOf S = Some th -> b + S <= th ->
  oneChart b (b + S) -> total h S b (b + S) = total h Step5m b (b + S).
Proof.
  intros HS Hd Hb Hm Hth Hc. rewrite (bucket_total S b th) by done. destruct (coarse_source S HS) as [[-> E]|[-> E]]; rewrite E; [done|].
  destruct (ti_day _ _ _ _ _ _ _ _ _ Hinv b Hb) as [(th5 & Hm5 & Hth5) Hh].
  change (b + StepDay) with (b + Z.of_nat 24 * StepHour). apply (hours_total th5); [done| |done|].
  - eapply Z.divide_trans; [|exact Hd]. by exists 24.
  - intros x Hdx Hx. change (Z.of_nat 24 * StepHour) with StepDay in Hx. split; [by apply Hh|].
    destruct Hd as [y ->], Hdx as [z ->]. eapply oneChart_part; [exact Hc|lia|unfold StepDay, StepHour in *; lia].
Qed.

Lemma run_total S th (n : nat) : coarse S -> marks !! sourceOf S = Some th -> forall b, (S | b) -> b + Z.of_nat n * S <= th ->
  (forall x, (S | x) -> b <= x < b + Z.of_nat n * S -> rollupHas h S x /\ oneChart x (x + S)) ->
  total h S b (b + Z.of_nat n * S) = total h Step5m b (b + Z.of_nat n * S).
Proof.
  intros HS Hm. induction n as [|n IH]; intros b Hd Hth Hx.
  { rewrite Z.add_0_r. apply total_empty. }
  pose proof (coarse_pos S HS) as Hp. rewrite Nat2Z.inj_succ in *. destruct (Hx b Hd) as [Hb Hc]; [nia|].
  apply (total_parts _ _ _ _ _ (b + S)); [apply Hinv|apply Hinv|nia| |].
  - apply (bucket_5m S b th); try done. nia.
  - replace (b + Z.succ (Z.of_nat n) * S) with (b + S + Z.of_nat n * S) by lia. apply IH.
    + apply Z.divide_add_r; [done|by exists 1; lia].
    + lia.
    + intros x Hdx Hbx. apply Hx; [done|nia].
Qed.
End History.
End Chains.

(** ** What a plan reads *)

(** Retention took the rows it deleted from the front of their tier, and whole 5-minute buckets. *)
Definition cutInFront (w g : world) : Prop :=
  forall k r, trimmedRow (w_rollups w) (w_rollups g) k r ->
  forall k' r', w_rollups w !! k' = Some r' -> ro_StepSeconds r' = ro_StepSeconds r ->
  ro_Bucket r < ro_Bucket r' \/ (ro_StepSeconds r <> Step5m /\ ro_Bucket r = ro_Bucket r').

Lemma foldr_min_in b bs : foldr Z.min b bs ∈ b :: bs.
Proof.
  induction bs as [|x bs IH]; [by left|]. cbn [foldr]. destruct (Z.min_spec x (foldr Z.min b bs)) as [[_ ->]|[_ ->]]; [set_solver|].
  apply elem_of_cons in IH as [->|IH]; [by left|]. by do 2 right.
Qed.

Lemma oldest_row t S o : OldestSpanRollupBucket t S = Some o ->
  exists k r, t !! k = Some r /\ ro_StepSeconds r = S /\ ro_Bucket r * second = o.
Proof.
  unfold OldestSpanRollupBucket, oldestTierBucket. destruct (ro_Bucket <$> _) as [|b bs] eqn:E; [done|]. intros [= <-].
  pose proof (foldr_min_in b bs) as Hin. rewrite <- E in Hin. apply list_elem_of_fmap in Hin as (r & Er & [Hs Hr]%list_elem_of_filter).
  apply list_elem_of_fmap in Hr as ([k x] & -> & Hk%elem_of_map_to_list). exists k, x. cbn in *. by rewrite Er.
Qed.

(** Every segment of a plan ends on a 5-minute boundary. *)
Lemma held_boundary to align cov s : segmentHeld to align cov s -> (Step5m * second | sg_To s).
Proof.
  intros (_ & _ & [z ->] & Hk). assert (coarse (sg_Step s) \/ sg_Step s = Step5m) as [[->| ->]| ->].
  { destruct Hk as [(-> & _)|(Hcf & _)]; [by right|left; unfold coarse, coarseFirst in *; set_solver]. }
  - exists (z * 12). unfold StepHour, Step5m. lia.
  - exists (z * 288). unfold StepDay, Step5m. lia.
  - by exists z.
Qed.

(** The 5-minute windows of segments that follow each other make up the window of the whole. *)
Lemma tiles_windows t segs : rollupKeys t -> Forall (fun s => (Step5m * second | sg_To s)) segs -> forall start e, tiles start segs e -> (Step5m * second | start) ->
  mjoin ((fun s => SpanRollupWindow t Step5m (sg_From s) (sg_To s)) <$> segs) ≡ₚ SpanRollupWindow t Step5m start e /\ start <= e /\ (Step5m * second | e).
Proof.
  intros Hk. induction 1 as [|s segs Hd' _ IH]; intros start e.
  { cbn [tiles]. intros <- [y Ey]. replace start with (y * Step5m * second) by lia. rewrite win_nil. split_and!; [done|lia|exists y; lia]. }
  intros (<- & Hlt & Ht) Hd. destruct (IH (sg_To s) e Ht Hd') as (Hp & Hle & He). cbn [fmap list_fmap]. change (mjoin (?a :: ?l)) with (a ++ mjoin l). rewrite Hp.
  split_and!; [|lia|done]. destruct Hd as [y Ey], Hd' as [z Ez], He as [u Eu]. rewrite Ey, Ez, Eu in *.
  replace (y * (Step5m * second)) with (y * Step5m * second) by lia. replace (z * (Step5m * second)) with (z * Step5m * second) by lia.
  replace (u * (Step5m * second)) with (u * Step5m * second) by lia. symmetry. apply win_split; [done|]. unfold Step5m, second in *. lia.
Qed.

(** A coverage read from the tables. *)
Definition coverageOf (w : world) (cov : SpanRollupCoverage) : Prop :=
  forall S, fixedStep S -> cov_Oldest cov !! S = OldestSpanRollupBucket (w_rollups w) S /\
    cov_Through cov !! S = (fun s => s * second) <$> w_marks w !! S.

Section Read.
Context (hz : Z) (w g : world) (Hl : liveInv hz w g) (Hcut : cutInFront w g).
Context (cov : SpanRollupCoverage) (Hcov : coverageOf w cov).

Lemma read_sub k r : w_rollups w !! k = Some r -> w_rollups g !! k = Some r.
Proof. intros Hk. rewrite <- (li_hist _ _ _ Hl). cbn. by apply lookup_union_Some_l. Qed.

Lemma read_marks : w_marks g = w_marks w.
Proof. by rewrite <- (li_hist _ _ _ Hl). Qed.

Lemma read_keys : rollupKeys (w_rollups g) /\ rollupKeys (w_rollups w).
Proof.
  destruct (li_world _ _ _ Hl) as (Hr & _ & _). split; [by eapply ti_keys|].
  intros k r Hk%read_sub. by apply (ti_keys _ _ _ _ _ _ _ _ _ Hr).
Qed.

(** The planned windows are whole in the tables. *)
Lemma planned_window to align s : segmentHeld to align cov s ->
  SpanRollupWindow (w_rollups w) (sg_Step s) (sg_From s) (sg_To s) = SpanRollupWindow (w_rollups g) (sg_Step s) (sg_From s) (sg_To s).
Proof.
  intros (_ & Hd & _ & Hs). apply window_ext. intros k r [Es Hb]. split; [apply read_sub|]. intros Hg.
  destruct (w_rollups w !! k) as [r0|] eqn:Ew; [apply read_sub in Ew; congruence|exfalso].
  assert (fixedStep (sg_Step s) /\ exists o, OldestSpanRollupBucket (w_rollups w) (sg_Step s) = Some o /\
    (sg_Step s = Step5m /\ o <= sg_From s \/ sg_Step s <> Step5m /\ o < sg_From s)) as (Hf & o & Ho & Hc).
  { destruct Hs as [(E & o & Ho & Hle)|(Hc & _ & o & th & Ho & Hle & _)].
    - rewrite E in *. split; [unfold fixedStep; auto|]. exists o. rewrite <- (proj1 (Hcov Step5m ltac:(unfold fixedStep; auto))). auto.
    - unfold coarseFirst in Hc. assert (coarse (sg_Step s)) as HS by (unfold coarse; set_solver).
      pose proof (coarse_fixed _ HS) as Hf. split; [done|]. exists o. rewrite <- (proj1 (Hcov _ Hf)). split; [done|]. right. split; [|done].
      by destruct HS as [->| ->]. }
  destruct (oldest_row _ _ _ Ho) as (k' & r' & Hk' & Es' & Eb'). pose proof (fixedStep_pos _ Hf) as Hp.
  destruct Hd as [y Ey]. assert (sg_From s = y * sg_Step s * second) as Ef by lia. rewrite Ef, Unix_second in Hb.
  assert (0 < second) by done.
  destruct (Hcut k r (conj Hg Ew) k' r' Hk' ltac:(congruence)) as [Hlt|[Hn5 Heq]]; destruct Hc as [[E5 Hle]|[En Hlt']]; try congruence; nia.
Qed.

(** ** What the gap check shows *)

Lemma bucketsLoop_open step to open fuel : to <= open -> forall b n e, bucketsLoop fuel step to open b n e = bucketsLoop fuel step to to b n e.
Proof.
  intros Ho. induction fuel as [|fuel IH]; intros b n e; cbn [bucketsLoop]; [done|]. rewrite IH.
  destruct (Z.ltb_spec b to); [|done]. by rewrite (proj2 (Z.ltb_lt b open)) by lia.
Qed.

Abbreviation checked segs open :=
  (Complete (fun s f t => Some (CountSpanRollupBuckets (w_rollups w) s f t))
     (Some (fun f t => Some (SpansIngestedBetween (w_ingested w) f t))) segs open).

Lemma checked_each segs open s : checked segs open = Some true -> s ∈ segs ->
  segmentCovered (fun s f t => Some (CountSpanRollupBuckets (w_rollups w) s f t))
    (Some (fun f t => Some (SpansIngestedBetween (w_ingested w) f t))) s open = Some true.
Proof.
  induction segs as [|s0 segs IH]; [by intros _ ?%not_elem_of_nil|]. cbn [Complete]. destruct (segmentCovered _ _ s0 open) as [[|]|] eqn:E; [|done..].
  cbn. intros Hc [->|Hs]%elem_of_cons; [done|auto].
Qed.

(** Every bucket of a checked coarse segment that was closed holds rows. *)
Lemma checked_has S a (n : nat) open : coarse S -> (S | a) -> (a + Z.of_nat n * S) * second <= open ->
  segmentCovered (fun s f t => Some (CountSpanRollupBuckets (w_rollups w) s f t))
    (Some (fun f t => Some (SpansIngestedBetween (w_ingested w) f t))) (mkSegment S (a * second) ((a + Z.of_nat n * S) * second)) open = Some true ->
  forall x, (S | x) -> a <= x < a + Z.of_nat n * S -> rollupHas (w_rollups g) S x.
Proof.
  intros HS Hd Ho Hc x Hdx Hx. pose proof (coarse_fixed S HS) as Hf. pose proof (coarse_pos S HS) as Hp.
  destruct (windowComplete_spec ro_StepSeconds ro_Bucket spanRollupPK (w_rollups w) (SpansIngestedBetween (w_ingested w)) (proj2 read_keys)
    S n a Hf Hd) as (ok & Ec & Hok).
  unfold windowComplete, segmentCovered, bucketsBefore in Ec, Hc. cbn [sg_Step sg_From sg_To] in Ec, Hc.
  rewrite (bucketsLoop_open _ _ open) in Hc by done. change (countTierBuckets ro_StepSeconds ro_Bucket) with CountSpanRollupBuckets in Ec.
  rewrite Hc in Ec. injection Ec as <-. destruct (proj1 Hok eq_refl) as [Hh|(E5 & _)]; [|by destruct HS as [->| ->]].
  destruct (Hh x) as (k & r & Hk & ?); [by apply elem_of_bucketStarts|]. exists k, r. split; [by apply read_sub|done].
Qed.

(** ** The total of a plan *)

Context {A : Type} (tot : list SpanRollup -> A) `{!TierTotals tot}.
Context (p : rollupKey -> Z -> bool) (chart : Z -> Z) (align open : Z).
Context (Hchart : forall S x, aligned align S = true -> fixedStep S -> (S | x) -> 0 <= x -> oneChart chart x (x + S)).
Context (Hopen : forall S th, coarse S -> w_marks w !! sourceOf S = Some th -> th * second <= open).

Abbreviation sums rows := (tot (filter (counted p chart) rows)).

Lemma segment_total to s : segmentHeld to align cov s -> sg_From s < sg_To s ->
  segmentCovered (fun s f t => Some (CountSpanRollupBuckets (w_rollups w) s f t))
    (Some (fun f t => Some (SpansIngestedBetween (w_ingested w) f t))) s open = Some true ->
  sums (SpanRollupWindow (w_rollups w) (sg_Step s) (sg_From s) (sg_To s)) = sums (SpanRollupWindow (w_rollups g) Step5m (sg_From s) (sg_To s)).
Proof.
  intros Hs Hlt Hc. rewrite (planned_window to align s Hs). pose proof Hs as (Ha & [y Ey] & [z Ez] & [(-> & _)|(Hcf & _ & o & th & Ho & Hof & Ht & Hth)]); [done|].
  assert (coarse (sg_Step s)) as HS by (unfold coarse, coarseFirst in *; set_solver). pose proof (coarse_fixed _ HS) as Hf.
  pose proof (coarse_pos _ HS) as Hp. assert (0 < second) as Hsec by done.
  destruct (Hcov _ Hf) as [Eo _]. rewrite Eo in Ho. destruct (oldest_row _ _ _ Ho) as (k & r & Hk & _ & Eb).
  destruct (proj2 read_keys k r Hk) as (_ & _ & _ & Hr0).
  destruct (Hcov (sourceOf (sg_Step s))) as [_ Em]; [unfold fixedStep; destruct (coarse_source _ HS) as [[_ ->]|[_ ->]]; auto|].
  rewrite Em in Ht. destruct (w_marks w !! sourceOf (sg_Step s)) as [m|] eqn:Emk; [|done]. injection Ht as <-.
  set (S := sg_Step s) in *. assert (sg_From s = y * S * second) as Ef by lia. assert (sg_To s = z * S * second) as Et by lia.
  rewrite Ef, Et in *. assert (0 <= y < z) as Hyz.
  { assert (0 < S * second) by nia. assert (0 <= o) by nia. rewrite <- Z.mul_assoc in Hof. rewrite <- !Z.mul_assoc in Hlt. split; [|by eapply Z.mul_lt_mono_pos_r].
    destruct (Z.lt_ge_cases y 0); [|done]. assert (y * (S * second) < 0) by (by apply Z.mul_neg_pos). lia. }
  assert (z * S = y * S + Z.of_nat (Z.to_nat (z - y)) * S) as En by (rewrite Z2Nat.id by lia; lia).
  assert (forall x, (S | x) -> y * S <= x < z * S -> rollupHas (w_rollups g) S x) as Hhas.
  { rewrite En. eapply (checked_has S (y * S) (Z.to_nat (z - y)) open HS); [by exists y| |].
    - rewrite <- En. pose proof (Hopen _ _ HS Emk). nia.
    - rewrite <- En, <- Ef, <- Et. destruct s. exact Hc. }
  rewrite En. destruct (li_world _ _ _ Hl) as (Hinv & _ & _).
  eapply (run_total tot p chart _ _ _ _ _ Hinv S m); [done|by rewrite read_marks|by exists y|rewrite <- En; nia|].
  intros x Hdx Hx. rewrite <- En in Hx. split; [by apply Hhas|]. apply Hchart; [done|done|done|nia].
Qed.

(** The rows of all segments. *)
Lemma plan_total to segs : Forall (segmentHeld to align cov) segs -> checked segs open = Some true -> forall start e,
  tiles start segs e -> (Step5m * second | start) ->
  sums (mjoin ((fun s => SpanRollupWindow (w_rollups w) (sg_Step s) (sg_From s) (sg_To s)) <$> segs)) =
  sums (SpanRollupWindow (w_rollups g) Step5m start e).
Proof.
  intros Hh Hc start e Ht Hd.
  rewrite <- (tot_perm _ _ (filter_Permutation _ _ _ (proj1 (tiles_windows (w_rollups g) segs (proj1 read_keys)
    (Forall_impl _ _ _ Hh (held_boundary to align cov)) start e Ht Hd)))).
  clear Hd. revert start Ht. induction Hh as [|s segs Hs Hh IH]; intros start Ht; [done|]. destruct Ht as (_ & Hlt & Ht).
  assert (segmentCovered (fun s f t => Some (CountSpanRollupBuckets (w_rollups w) s f t))
    (Some (fun f t => Some (SpansIngestedBetween (w_ingested w) f t))) s open = Some true) as H1 by (eapply checked_each; [exact Hc|by left]).
  cbn [Complete] in Hc. rewrite H1 in Hc. cbn [fmap list_fmap]. change (mjoin (?a :: ?l)) with (a ++ mjoin l). rewrite !filter_app.
  apply tot_app; [by apply (segment_total to s)|by eapply IH].
Qed.
End Read.

(** ** The calls of a read *)

(** The same tables. *)
Definition sameTables (w w' : world) : Prop :=
  w_rollups w' = w_rollups w /\ w_edges w' = w_edges w /\ w_marks w' = w_marks w /\ w_ingested w' = w_ingested w.

Lemma tables_trans a b c : sameTables a b -> sameTables b c -> sameTables a c.
Proof. unfold sameTables. intuition congruence. Qed.

Lemma M_bind_some {X Y} (m : M X) (f : X -> M Y) w y w' : (m ≫= f) w = (Some y, w') ->
  exists x w1, m w = (Some x, w1) /\ f x w1 = (Some y, w').
Proof. unfold mbind, M_bind. destruct (m w) as [[x|] w1]; [|done]. eauto. Qed.

Lemma attempt_some {X} (f : world -> option X) w x w' : attempt f w = (Some x, w') -> f w = Some x /\ sameTables w w'.
Proof. unfold attempt. destruct (hd true (w_faults w)); intros [= <- <-]; done. Qed.

Lemma reads_some {X} (f : world -> X) w x w' : reads f w = (Some x, w') -> x = f w /\ sameTables w w'.
Proof. intros [[= <-] ?]%attempt_some. done. Qed.

Lemma coverageLoop_spec (oldest : world -> Z -> option Z) steps : (forall w w' S, sameTables w w' -> oldest w' S = oldest w S) -> NoDup steps ->
  forall cov w cov' w', (forall S, S ∈ steps -> cov_Oldest cov !! S = None /\ cov_Through cov !! S = None) ->
  coverageLoop oldest steps cov w = (Some cov', w') ->
  sameTables w w' /\
  (forall S, S ∈ steps -> cov_Oldest cov' !! S = oldest w S /\ cov_Through cov' !! S = (fun s => s * second) <$> w_marks w !! S) /\
  (forall S, S ∉ steps -> cov_Oldest cov' !! S = cov_Oldest cov !! S /\ cov_Through cov' !! S = cov_Through cov !! S).
Proof.
  intros Ho. induction steps as [|step steps IH]; intros Hn cov w cov' w' Hnone; cbn [coverageLoop].
  { intros [= <- <-]. split_and!; [done|by intros S ?%not_elem_of_nil|done]. }
  apply NoDup_cons in Hn as [Hstep Hn]. intros (o & w1 & [-> S1]%reads_some & Hr)%M_bind_some.
  apply M_bind_some in Hr as (th & w2 & [-> S2]%reads_some & Hr).
  pose proof (tables_trans _ _ _ S1 S2) as S12. apply IH in Hr as (S3 & Hin & Hout); [|done|].
  2:{ intros S HS. destruct (Hnone S) as [E1 E2]; [by right|]. assert (step <> S) by congruence. cbn.
      destruct (oldest w step), (w_marks w1 !! step); cbn; rewrite ?lookup_insert_ne by done; done. }
  destruct (Hnone step) as [N1 N2]; [by left|]. pose proof S1 as (_ & _ & Em & _). pose proof S12 as (_ & _ & Em2 & _).
  split_and!; [by eapply tables_trans| |].
  - intros S [->|HS]%elem_of_cons.
    + destruct (Hout step Hstep) as [-> ->]. cbn. rewrite Em.
      destruct (oldest w step), (w_marks w !! step); cbn; rewrite ?lookup_insert_eq; done.
    + destruct (Hin S HS) as [-> ->]. by rewrite (Ho w w2 S S12), Em2.
  - intros S [Hne HS]%not_elem_of_cons. destruct (Hout S HS) as [-> ->]. cbn.
    destruct (oldest w step), (w_marks w1 !! step); cbn; rewrite ?lookup_insert_ne by done; done.
Qed.

Lemma readRollupCoverage_spec w cov w' : readRollupCoverage w = (Some cov, w') -> coverageOf w cov /\ sameTables w w'.
Proof.
  intros H. apply coverageLoop_spec in H as (Hs & Hin & _).
  - split; [|done]. intros S HS. apply Hin. unfold spanRollupSteps. destruct HS as [->|[->| ->]]; [left|right; left|do 2 right; left].
  - by intros w1 w2 S (-> & _).
  - by apply (bool_decide_unpack _).
  - done.
Qed.

(** A plan that does not use a coverage read before. *)
Definition readsCoverage (k : planClock) (c : coverageCache) : Prop :=
  forall t, cc_read c = Some t -> spanRollupCoverageTTL <= pk_asked k - t.

Lemma spanRollupPlan_spec enabled k from to align c w segs c' w' : readsCoverage k c ->
  spanRollupPlan enabled k from to align c w = ((Some segs, c'), w') ->
  sameTables w w' /\ exists cov, coverageOf w cov /\ Plan from to align cov = Some segs /\
    Complete (fun s f t => Some (CountSpanRollupBuckets (w_rollups w) s f t))
      (Some (fun f t => Some (SpansIngestedBetween (w_ingested w) f t))) segs (pk_check k - spanRollupFlushGrace) = Some true.
Proof.
  intros Hc. unfold spanRollupPlan, tierPlan. destruct enabled; [|done]. cbn [negb].
  assert (coverage_get k readRollupCoverage c w = match readRollupCoverage w with
    | (Some cov, w) => ((Some cov, mkCoverageCache cov (Some (pk_stamp k))), w) | (None, w) => ((None, c), w) end) as ->.
  { unfold coverage_get. destruct (cc_read c) as [t|] eqn:E; [|done]. specialize (Hc t E). by rewrite (proj2 (Z.ltb_ge _ _)). }
  destruct (readRollupCoverage w) as [[cov|] w1] eqn:Er; [|done]. apply readRollupCoverage_spec in Er as [Hcov S1].
  destruct (Plan from to align cov) as [segs0|] eqn:Ep; [|done].
  destruct (attempt _ w1) as [[[|]|] w2] eqn:Ea; [|done..]. intros [= <- <- <-]. apply attempt_some in Ea as [Hk S2].
  split; [by eapply tables_trans|]. exists cov. destruct S1 as (E1 & _ & _ & E2). rewrite E1, E2 in Hk. done.
Qed.

Lemma scanLoop_spec q segs : forall w rows w', scanLoop q segs w = (Some rows, w') ->
  rows = mjoin (segmentRows q (w_rollups w) <$> segs) /\ sameTables w w'.
Proof.
  induction segs as [|s segs IH]; intros w rows w'; cbn [scanLoop]; [by intros [= <- <-]|].
  intros (r & w1 & [-> S1]%reads_some & Hr)%M_bind_some. apply M_bind_some in Hr as (rest & w2 & [-> S2]%IH & Hr).
  injection Hr as <- <-. split; [|by eapply tables_trans]. pose proof S1 as (-> & _). done.
Qed.

(** ** Root span groups *)

(** What a group counts: its name and sums. *)
Definition rootTotals (g : RootSpanGroup) : (string * string) * Z * Z * SpanWeights :=
  ((rg_Operation g, rg_Service g), rg_Count g, rg_ErrorCount g, rg_Weights g).

Definition isErrorRow (r : SpanRollup) : Prop := ro_Status r = "error"%string.

Definition totalsAt (k : string * string) (rows : list SpanRollup) : (string * string) * Z * Z * SpanWeights :=
  (k, wrap64 (sumBy ro_Count rows), wrap64 (sumBy ro_Count (filter isErrorRow rows)),
   mkWeights (wrap64 (sumBy ro_WeightedCount rows)) (wrap64 (sumBy ro_WeightedSpans rows))).

Lemma rootAdd_totals k rows : rootTotals (foldl rootAdd (newRootGroup k) rows) = totalsAt k rows.
Proof.
  induction rows as [|r rows IH] using rev_ind; [by destruct k|]. rewrite foldl_snoc. unfold totalsAt in *. rewrite filter_app, !sumBy_app, filter_cons, filter_nil.
  unfold rootTotals, isErrorRow in *. cbn [rootAdd rg_Operation rg_Service rg_Count rg_ErrorCount rg_Weights]. injection IH as E1 E2 E3 E4. rewrite E1, E2, E3, E4.
  cbn [sw_Count sw_Spans]. f_equal; [f_equal; [f_equal|]|f_equal].
  - rewrite Z.add_comm, wrap64_add_r. f_equal. cbn. lia.
  - case_bool_decide as Hs; [rewrite decide_True by done|rewrite decide_False by done]; cbn [sumBy foldr].
    + rewrite Z.add_comm, wrap64_add_r. f_equal. lia.
    + f_equal. lia.
  - rewrite Z.add_comm, wrap64_add_r. f_equal. cbn. lia.
  - rewrite Z.add_comm, wrap64_add_r. f_equal. cbn. lia.
Qed.

(** The group of a key. *)
Definition groupAt (k : string * string) (rows : list SpanRollup) : option RootSpanGroup :=
  match filter (fun r => rootKey r = k) rows with [] => None | l => Some (foldl rootAdd (newRootGroup k) l) end.

Lemma groupAt_snoc k rows r : groupAt k (rows ++ [r]) =
  if decide (rootKey r = k) then Some (rootAdd (default (newRootGroup k) (groupAt k rows)) r) else groupAt k rows.
Proof.
  unfold groupAt. rewrite filter_app, filter_cons, filter_nil. case_decide; [|by rewrite app_nil_r].
  destruct (filter _ rows) as [|r0 l]; [done|]. cbn [app default]. by rewrite app_comm_cons, foldl_snoc.
Qed.

Lemma rootFold_spec rows : let st := foldl rootStep (∅, []) rows in
  (forall k, st.1 !! k = groupAt k rows) /\ NoDup st.2 /\ (forall k, k ∈ st.2 <-> is_Some (groupAt k rows)).
Proof.
  induction rows as [|r rows IH] using rev_ind.
  { split_and!; [done|constructor|]. intros k. split; [by intros ?%not_elem_of_nil|by intros [? ?]]. }
  rewrite foldl_snoc. destruct IH as (Hl & Hn & Ho). cbn zeta. unfold rootStep at 1 3 5.
  destruct ((foldl rootStep (∅, []) rows).1 !! rootKey r) as [g|] eqn:E; cbn [fst snd]; rewrite Hl in E.
  - split_and!; [|done|].
    + intros k. rewrite lookup_insert, groupAt_snoc. case_decide as Hk; [|by rewrite Hl]. subst k. by rewrite E.
    + intros k. rewrite Ho, groupAt_snoc. case_decide as Hk; [|done]. subst k. rewrite E. naive_solver.
  - split_and!.
    + intros k. rewrite lookup_insert, groupAt_snoc. case_decide as Hk; [|by rewrite Hl]. subst k. by rewrite E.
    + apply NoDup_app. split_and!; [done| |apply NoDup_singleton]. intros k Hk ->%list_elem_of_singleton. rewrite Ho, E in Hk. by destruct Hk.
    + intros k. rewrite elem_of_app, list_elem_of_singleton, Ho, groupAt_snoc. case_decide as Hk; [|naive_solver]. subst k. rewrite E. naive_solver.
Qed.

Lemma rootGroups_totals rows x :
  x ∈ rootTotals <$> rootGroupsOf rows <-> exists k, filter (fun r => rootKey r = k) rows <> [] /\ x = totalsAt k (filter (fun r => rootKey r = k) rows).
Proof.
  destruct (rootFold_spec rows) as (Hl & Hn & Ho). unfold rootGroupsOf. rewrite list_elem_of_fmap. split.
  - intros (g & -> & (k & Hk & Eg)%list_elem_of_omap). rewrite Hl in Eg. unfold groupAt in Eg.
    exists k. destruct (filter _ rows) as [|r l]; [done|]. injection Eg as <-. split; [done|]. exact (rootAdd_totals k (r :: l)).
  - intros (k & Hne & ->). exists (foldl rootAdd (newRootGroup k) (filter (fun r => rootKey r = k) rows)). split; [by rewrite rootAdd_totals|].
    apply list_elem_of_omap. exists k. rewrite Hl, Ho. unfold groupAt. destruct (filter _ rows); [done|]. eauto.
Qed.

Lemma rootGroups_keys rows : NoDup (rootTotals <$> rootGroupsOf rows).
Proof.
  destruct (rootFold_spec rows) as (Hl & Hn & Ho). unfold rootGroupsOf.
  assert (forall order, NoDup order -> (fun x => x.1.1.1) <$> (rootTotals <$> omap (fun k => (foldl rootStep (∅, []) rows).1 !! k) order)
    = filter (fun k => is_Some (groupAt k rows)) order) as He.
  { intros order _. induction order as [|k order IH]; [done|]. cbn [omap list_omap]. rewrite Hl, filter_cons.
    destruct (groupAt k rows) as [gr|] eqn:E; [rewrite decide_True by eauto|by rewrite decide_False by (by intros [? ?])].
    cbn [fmap list_fmap]. rewrite IH. f_equal. unfold groupAt in E. destruct (filter _ rows) as [|r l]; [done|]. injection E as <-.
    change (foldl rootAdd (rootAdd (newRootGroup k) r) l) with (foldl rootAdd (newRootGroup k) (r :: l)). by rewrite rootAdd_totals. }
  eapply NoDup_fmap_1. rewrite He by done. by apply NoDup_filter.
Qed.

(** Rows with the same groups and the same sums in each. *)
Lemma rootGroups_same rows rows' :
  (forall k, noRows (filter (fun r => rootKey r = k) rows) = noRows (filter (fun r => rootKey r = k) rows') /\
     totalsAt k (filter (fun r => rootKey r = k) rows) = totalsAt k (filter (fun r => rootKey r = k) rows')) ->
  rootTotals <$> rootGroupsOf rows ≡ₚ rootTotals <$> rootGroupsOf rows'.
Proof.
  unfold noRows. intros Hk. apply NoDup_Permutation; [apply rootGroups_keys..|]. intros x. rewrite !rootGroups_totals.
  split; intros (k & Hne & ->); exists k; destruct (Hk k) as [E1 E2]; rewrite <- ?E2, ?E2; (split; [|done]); intros E; apply Hne; apply (bool_decide_eq_true (_ = []));
    [rewrite E1|rewrite <- E1]; by apply bool_decide_eq_true.
Qed.

(** The rows of a scan, by key. *)
Definition keySelected (q : SpanRollupScan) (k : rollupKey) : bool :=
  let '(project, service, name, kind, root, status, _) := k in
  ((sc_ProjectID q =? 0) || (project =? sc_ProjectID q)) && textFilter (sc_Service q) service && textFilter (sc_Name q) name &&
  textFilter (sc_Kind q) kind && textFilter (sc_Status q) status && (negb (sc_RootOnly q) || root) &&
  negb (bool_decide (name ∈ sc_ExcludeNames q)).

Definition keyGroup (k : rollupKey) : string * string := let '(_, service, name, _, _, _, _) := k in (name, service).

Definition keyError (k : rollupKey) : bool := let '(_, _, _, _, _, status, _) := k in bool_decide (status = "error"%string).

Definition noChart (_ : Z) : Z := 0.

Definition inGroup (q : SpanRollupScan) (k : string * string) (key : rollupKey) (_ : Z) : bool :=
  keySelected q key && bool_decide (keyGroup key = k).

Definition inGroupError (q : SpanRollupScan) (k : string * string) (key : rollupKey) (c : Z) : bool := inGroup q k key c && keyError key.

Abbreviation windowsOf t segs := (mjoin ((fun s => SpanRollupWindow t (sg_Step s) (sg_From s) (sg_To s)) <$> segs)).

Lemma scan_group q k t segs :
  filter (fun r => rootKey r = k) (mjoin (segmentRows q t <$> segs)) = filter (counted (inGroup q k) noChart) (windowsOf t segs).
Proof.
  induction segs as [|s segs IH]; [done|]. cbn [fmap list_fmap]. change (mjoin (?a :: ?l)) with (a ++ mjoin l). rewrite !filter_app, IH. f_equal.
  unfold segmentRows. rewrite list_filter_filter. apply list_filter_iff. intros r. unfold counted, inGroup.
  rewrite andb_true_iff, bool_decide_eq_true. change (keySelected q (rollupKeyOf r)) with (rollupSelected q r). change (keyGroup (rollupKeyOf r)) with (rootKey r). tauto.
Qed.

Lemma group_errors q k (rows : list SpanRollup) :
  filter isErrorRow (filter (counted (inGroup q k) noChart) rows) = filter (counted (inGroupError q k) noChart) rows.
Proof.
  rewrite list_filter_filter. apply list_filter_iff. intros r. unfold counted, inGroupError. rewrite andb_true_iff.
  change (keyError (rollupKeyOf r)) with (bool_decide (ro_Status r = "error"%string)). rewrite bool_decide_eq_true. unfold isErrorRow. tauto.
Qed.

(** The scan of [rootSpanGroups]. *)
Definition rootScan (sf : rootFilter) (segs : list SpanRollupSegment) : SpanRollupScan :=
  setRootOnly (mkScan segs (rf_ProjectID sf) (rf_Service sf) "" "" (rf_Status sf) false (rf_Exclude sf)).

Lemma rootScan_segments sf segs segs' t s : segmentRows (rootScan sf segs) t s = segmentRows (rootScan sf segs') t s.
Proof. done. Qed.

Lemma rootSpanGroups_plan enabled k sf raw c w groups c' w' : readsCoverage k c ->
  rootSpanGroups enabled k sf raw c w = ((Some groups, SourceRollups, c'), w') ->
  exists from to segs cov, rf_From sf = Some from /\ rf_To sf = Some to /\ coverageOf w cov /\ Plan from to 0 cov = Some segs /\
    Complete (fun s f t => Some (CountSpanRollupBuckets (w_rollups w) s f t))
      (Some (fun f t => Some (SpansIngestedBetween (w_ingested w) f t))) segs (pk_check k - spanRollupFlushGrace) = Some true /\
    groups = rootGroupsOf (mjoin (segmentRows (rootScan sf []) (w_rollups w) <$> segs)).
Proof.
  intros Hc. unfold rootSpanGroups. destruct (rf_From sf) as [from|], (rf_To sf) as [to|]; [|by destruct (raw w)..].
  destruct (_ && _ && _); [|by destruct (raw w)]. destruct (spanRollupPlan enabled k from to 0 c w) as [[[segs|] c1] w1] eqn:Ep; [|by destruct (raw w1)].
  apply (spanRollupPlan_spec enabled k from to 0 c w segs c1 w1 Hc) in Ep as [(Er & _) (cov & Hcov & Hp & Hk)].
  destruct (QueryRootSpanGroupsFromRollups _ w1) as [[r|] w2] eqn:Eq; [|done]. intros [= <- <- <-].
  unfold QueryRootSpanGroupsFromRollups in Eq. apply M_bind_some in Eq as (rows & w3 & [-> _]%scanLoop_spec & Eq).
  injection Eq as <- <-. exists from, to, segs, cov. split_and!; try done. rewrite Er. done.
Qed.

Section RootGroups.
Context (hz : Z) (w g : world) (Hl : liveInv hz w g) (Hcut : cutInFront w g).

Lemma marks_open open : hz <= open -> forall S th, coarse S -> w_marks w !! sourceOf S = Some th -> th * second <= open.
Proof.
  intros Ho S th HS Hm. destruct (li_world _ _ _ Hl) as (_ & _ & Hmk). rewrite <- (read_marks hz w g Hl) in Hm.
  destruct (Hmk S th HS Hm) as (_ & _ & H5 & Hd). destruct HS as [->| ->]; [specialize (H5 eq_refl); lia|].
  destruct (Hd eq_refl) as (th5 & Hm5 & Hle). destruct (Hmk StepHour th5 ltac:(by left) Hm5) as (_ & _ & H5' & _).
  specialize (H5' eq_refl). assert (0 < second) by done. nia.
Qed.

Lemma groups_total {A} (tot : list SpanRollup -> A) `{!TierTotals tot} (p : rollupKey -> Z -> bool) cov from to segs open : coverageOf w cov -> hz <= open ->
  Plan from to 0 cov = Some segs ->
  Complete (fun s f t => Some (CountSpanRollupBuckets (w_rollups w) s f t))
    (Some (fun f t => Some (SpansIngestedBetween (w_ingested w) f t))) segs open = Some true ->
  forall e, tiles (TruncateBucket from Step5m) segs e -> Forall (segmentHeld to 0 cov) segs ->
  tot (filter (counted p noChart) (windowsOf (w_rollups w) segs)) =
  tot (filter (counted p noChart) (windowsOf (w_rollups g) [mkSegment Step5m (TruncateBucket from Step5m) e])).
Proof.
  intros Hcov Ho Hp Hc e Ht Hh. destruct (TruncateBucket_spec from Step5m ltac:(unfold fixedStep; auto)) as [_ Hd].
  change (windowsOf (w_rollups g) [mkSegment Step5m (TruncateBucket from Step5m) e]) with (SpanRollupWindow (w_rollups g) Step5m (TruncateBucket from Step5m) e ++ []).
  rewrite app_nil_r. eapply (plan_total hz w g Hl Hcut cov Hcov tot p noChart 0 open); [done| |exact Hh|exact Hc|exact Ht|exact Hd].
  by apply marks_open.
Qed.
End RootGroups.

(** C8: A read of root spans from the rollups counts every span of its range once.  In every state of the tiers that
    passes, flushes, retention and trims reach, when the trims took whole 5-minute buckets: whenever [rootSpanGroups] answers from the rollups,
    with a coverage it has just read and a clock past the compacted range, its groups have the names, counts, error
    counts and weights of the groups of all 5-minute rows that were ever written for the range, whichever tiers it read. *)
Theorem root_groups_exact cfg hz w g enabled k sf raw c groups c' w' :
  live cfg hz w g -> cutInFront w g -> readsCoverage k c -> hz <= pk_check k - spanRollupFlushGrace ->
  rootSpanGroups enabled k sf raw c w = ((Some groups, SourceRollups, c'), w') ->
  exists from to e, rf_From sf = Some from /\ rf_To sf = Some to /\ to <= e < to + Step5m * second /\
    rootTotals <$> groups ≡ₚ
    rootTotals <$> rootGroupsOf (segmentRows (rootScan sf []) (w_rollups g) (mkSegment Step5m (TruncateBucket from Step5m) e)).
Proof.
  intros Hl%live_inv Hcut Hc Ho Hr. destruct (rootSpanGroups_plan _ _ _ _ _ _ _ _ _ Hc Hr) as (from & to & segs & cov & Ef & Et & Hcov & Hp & Hk & ->).
  pose proof (Plan_spec from to 0 cov) as Hs. rewrite Hp in Hs. destruct Hs as (Hh & e & Ht & He).
  exists from, to, e. split_and!; [done|done|lia|lia|]. set (seg := mkSegment Step5m (TruncateBucket from Step5m) e).
  replace (segmentRows (rootScan sf []) (w_rollups g) seg) with (mjoin (segmentRows (rootScan sf []) (w_rollups g) <$> [seg]))
    by (cbn [fmap list_fmap]; apply app_nil_r).
  assert (forall A (tot : list SpanRollup -> A) (Ht' : TierTotals tot) p, tot (filter (counted p noChart) (windowsOf (w_rollups w) segs)) =
    tot (filter (counted p noChart) (windowsOf (w_rollups g) [seg]))) as Hall
    by (intros A tot Ht' p; by apply (groups_total hz w g Hl Hcut tot p cov from to segs _ Hcov Ho Hp Hk e Ht)).
  apply rootGroups_same. intros n. rewrite !scan_group. split; [apply (Hall _ noRows some_totals)|].
  unfold totalsAt. rewrite !group_errors. f_equal; [f_equal; [f_equal|]|f_equal].
  - apply (Hall _ _ count_totals).
  - apply (Hall _ _ count_totals).
  - apply (Hall _ _ weighted_totals).
  - apply (Hall _ _ spans_totals).
Qed.

(** ** A concrete read *)

(** Two 5-minute rows in the first two hours, compacted and then trimmed. *)
Definition hourSource (b : Z) : SpanRollup :=
  mkSpanRollup Step5m b 1 "svc" "GET /" "server" true "ok" 200 3 4 3 10 10 10 (Hist_Encode emptyHist).

Definition hoursStart : world :=
  mkWorld {[spanRollupPK (hourSource 0) := hourSource 0; spanRollupPK (hourSource 3900) := hourSource 3900]} ∅ ∅ [] false None [].

Definition hoursPassed : world := (compactLadder demoCfg (3 * hour) spanLadder (setFaults [] hoursStart)).2.

Definition hoursTrimmed : world := (deleteSpanRollupTiers demoRetentionConfig (100 * hour) 10 (setFaults [] hoursPassed)).2.

Definition hoursHistory : world := hist hoursTrimmed (hist hoursPassed hoursStart).

Lemma hours_live : live demoCfg (Z.max 0 (3 * hour - cfg_Lag demoCfg)) hoursTrimmed hoursHistory.
Proof.
  apply (live_trim demoCfg _ hoursPassed _ demoRetentionConfig (100 * hour) 10 []); [|done].
  apply (live_pass demoCfg 0 hoursStart hoursStart (3 * hour) []); [|done]. apply live_init; [| |done].
  - intros k r Hk. cbn in Hk. apply lookup_insert_Some in Hk as [[<- <-]|[_ Hk]]; [|apply lookup_singleton_Some in Hk as [<- <-]]; (split; [done|]).
    + split_and!; [done|by exists 0|done|done].
    + split_and!; [done|by exists 13|done|done].
  - intros k e Hk. cbn in Hk. by rewrite lookup_empty in Hk.
Qed.

Lemma hours_cut : cutInFront hoursTrimmed hoursHistory.
Proof.
  assert (map_Forall (fun k r => is_Some (w_rollups hoursTrimmed !! k) \/
    map_Forall (fun _ r' => ro_StepSeconds r' <> ro_StepSeconds r) (w_rollups hoursTrimmed)) (w_rollups hoursHistory)) as H
    by (apply (bool_decide_unpack _); vm_compute; done).
  intros k r [Hg Hw] k' r' Hk' Es. destruct (H k r Hg) as [[x Hx]|Hn]; [congruence|]. by destruct (Hn k' r' Hk').
Qed.

Definition hoursFilter : rootFilter := mkRootFilter 1 "" "" 0 (Some (3600 * second)) (Some (7200 * second)) [].

Definition hoursAnswer : (option (list RootSpanGroup) * source * coverageCache) * world :=
  rootSpanGroups true (mkPlanClock (100 * hour) (100 * hour) (100 * hour)) hoursFilter (fun w => (None, w)) (mkCoverageCache (mkCoverage ∅ ∅) None) hoursTrimmed.

Lemma answer_parts {A B C D} (x : A * B * C * D) a b : x.1.1 = (a, b) -> x = ((a, b, x.1.2), x.2).
Proof. destruct x as [[[? ?] ?] ?]. cbn. by intros [= -> ->]. Qed.

Lemma hours_answer : exists groups, hoursAnswer.1.1 = (Some groups, SourceRollups) /\
  rootTotals <$> groups = [(("GET /", "svc")%string, 3, 0, mkWeights 4 3)].
Proof. eexists. split; [vm_compute; reflexivity|vm_compute; reflexivity]. Qed.

Lemma root_groups_exact_witness :
  SpanRollupWindow (w_rollups hoursTrimmed) Step5m 0 (7200 * second) = [] /\
  exists groups e, hoursAnswer.1.1 = (Some groups, SourceRollups) /\
    rootTotals <$> groups = [(("GET /", "svc")%string, 3, 0, mkWeights 4 3)] /\
    rootTotals <$> groups ≡ₚ
    rootTotals <$> rootGroupsOf (segmentRows (rootScan hoursFilter []) (w_rollups hoursHistory) (mkSegment Step5m (3600 * second) e)).
Proof.
  split; [vm_compute; reflexivity|]. destruct hours_answer as (groups & Ea & Eg).
  destruct (root_groups_exact demoCfg _ hoursTrimmed hoursHistory true (mkPlanClock (100 * hour) (100 * hour) (100 * hour)) hoursFilter
    (fun w => (None, w)) (mkCoverageCache (mkCoverage ∅ ∅) None) groups hoursAnswer.1.2 hoursAnswer.2 hours_live hours_cut) as (from & to & e & Ef & Et & He & Hp);
    [by intros t Ht|by vm_compute|exact (answer_parts hoursAnswer _ _ Ea)|]. injection Ef as <-. injection Et as <-.
  exists groups, e. split_and!; [done|done|exact Hp].
Defined.

(** ** Dashboard counts *)

Lemma wrap64_wrap64 a : wrap64 (wrap64 a) = wrap64 a.
Proof. apply wrap64_id, wrap64_range. Qed.

Lemma Received_sum rows : wrap64 (sumBy Received rows) = wrap64 (sumBy ro_Count rows - sumBy ro_WeightedSpans rows + sumBy ro_WeightedCount rows).
Proof.
  induction rows as [|r rows IH]; [done|]. rewrite !sumBy_cons.
  replace (ro_Count r + sumBy ro_Count rows - (ro_WeightedSpans r + sumBy ro_WeightedSpans rows) + (ro_WeightedCount r + sumBy ro_WeightedCount rows))
    with (ro_Count r - ro_WeightedSpans r + ro_WeightedCount r + (sumBy ro_Count rows - sumBy ro_WeightedSpans rows + sumBy ro_WeightedCount rows)) by lia.
  apply wrap64_congr; [|done]. unfold Received. rewrite wrap64_wrap64. apply wrap64_congr; [apply wrap64_wrap64|done].
Qed.

Lemma wrap64_opp a b : wrap64 a = wrap64 b -> wrap64 (- a) = wrap64 (- b).
Proof.
  intros E. replace (- a) with (b - a + - b) by lia. replace (- b) with (0 + - b) at 2 by lia. apply wrap64_congr; [|done].
  replace (b - a) with (b + - a) by lia. replace 0 with (a + - a) by lia. by apply wrap64_congr.
Qed.

#[export] Instance received_totals : TierTotals (fun l => wrap64 (sumBy Received l)).
Proof.
  split.
  - intros l l' Hl. by rewrite Hl.
  - intros l1 l1' l2 l2' H1 H2. rewrite !sumBy_app. by apply wrap64_congr.
  - intros p rows step b. rewrite !Received_sum. apply wrap64_congr; [|apply (tot_merge (TierTotals := weighted_totals))].
    rewrite <- !Z.add_opp_r. apply wrap64_congr; [apply (tot_merge (TierTotals := count_totals))|].
    apply wrap64_opp, (tot_merge (TierTotals := spans_totals)).
Qed.

(** The sum of a key, when it has rows. *)
Lemma sumRows_lookup q g rows k : sumRows q g rows !! k =
  let l := filter (fun r => pointKeyOf q g r = Some k) rows in if noRows l then None else Some (sumBy Received l).
Proof.
  unfold sumRows, noRows. induction rows as [|r rows IH] using rev_ind; [done|]. rewrite foldl_snoc, filter_app, filter_cons, filter_nil.
  destruct (pointKeyOf q g r) as [k0|] eqn:E; [|rewrite decide_False by done; by rewrite app_nil_r].
  rewrite lookup_insert, IH. cbn zeta in *. case_decide as Hk.
  - subst k0. rewrite decide_True by done. rewrite IH. destruct (filter _ rows) as [|r0 l]; [cbn; f_equal; lia|].
    rewrite (bool_decide_false (_ ++ _ = [])) by done. rewrite bool_decide_false by done. cbn [default]. rewrite sumBy_app. change (sumBy Received [r]) with (Received r + 0). unfold id. f_equal. lia.
  - rewrite decide_False by congruence. by rewrite app_nil_r.
Qed.

Lemma chart_aligned (interval S x y : Z) : aligned interval S = true -> 0 < S -> (S | x) -> 0 <= x -> x <= y < x + S ->
  y - Z.rem y interval = x - Z.rem x interval.
Proof.
  unfold aligned. intros Ha HS [a ->] Hx Hy. destruct (Z.eqb_spec interval 0) as [->|Hi]; [rewrite !Z.rem_0_r_ext by done; lia|].
  cbn [orb] in Ha. apply andb_true_iff in Ha as [H1 H2]. apply Z.leb_le in H1.
  assert (exists m, interval = m * S) as [m ->].
  { apply Z.eqb_eq in H2. destruct (Z.rem_divide interval S ltac:(lia)) as [H _]. by apply H. }
  rewrite !Z.rem_mod_nonneg by nia. rewrite !Z.mod_eq by nia.
  replace (y / (m * S)) with (a * S / (m * S)); [lia|]. rewrite Z.div_mul_cancel_r by nia.
  rewrite (Z.mul_comm m S), <- Z.div_div by nia. f_equal. apply Z.div_unique with (y - a * S); lia.
Qed.

(** The points of a dashboard query, by the key of a row. *)
Definition chartOf (q : DashboardRollupQuery) (b : Z) : Z := b - Z.rem b (dq_Interval q).

Definition keyDash (g : DashboardGroup) (k : rollupKey) : option string :=
  let '(_, service, name, _, _, status, http) := k in
  match g with
  | GroupService => Some service
  | GroupName => Some name
  | GroupStatus => Some status
  | GroupHTTPStatus => if 0 <? http then Some (FormatInt http) else None
  end.

Definition inPoint (q : DashboardRollupQuery) (g : DashboardGroup) (k : Z * string) (key : rollupKey) (c : Z) : bool :=
  keySelected (dq_Scan q) key && bool_decide (keyDash g key = Some k.2) && (c =? k.1).

Lemma point_rows q g k t step from to :
  filter (fun r => pointKeyOf q g r = Some k) (segmentRows (dq_Scan q) t (mkSegment step from to)) =
  filter (counted (inPoint q g k) (chartOf q)) (SpanRollupWindow t step from to).
Proof.
  unfold segmentRows. cbn [sg_Step sg_From sg_To]. rewrite list_filter_filter. apply list_filter_iff. intros r. unfold counted, inPoint.
  rewrite !andb_true_iff, bool_decide_eq_true, Z.eqb_eq. change (keySelected (dq_Scan q) (rollupKeyOf r)) with (rollupSelected (dq_Scan q) r).
  change (keyDash g (rollupKeyOf r)) with (rollupGroup g r). change (chartOf q (ro_Bucket r)) with (chartBucket q r).
  unfold pointKeyOf. destruct k as [b name]. destruct (rollupGroup g r) as [x|]; cbn; naive_solver.
Qed.

(** The 5-minute rows of the history behind a segment. *)
Abbreviation partOf q t s := (segmentRows (dq_Scan q) t (mkSegment Step5m (sg_From s) (sg_To s))).

(** Rows whose sums are exact in a [float64]. *)
Definition exactSums (q : DashboardRollupQuery) (g : DashboardGroup) (rows : list SpanRollup) : Prop :=
  Forall (fun r => 0 <= Received r) rows /\
  (forall k, sumBy Received (filter (fun r => pointKeyOf q g r = Some k) rows) < 2 ^ 53).

Lemma exactSums_parts q g l1 l2 : exactSums q g (l1 ++ l2) -> exactSums q g l1 /\ exactSums q g l2.
Proof.
  intros [[F1 F2]%Forall_app Hs].
  assert (forall l k, Forall (fun r => 0 <= Received r) l -> 0 <= sumBy Received (filter (fun r => pointKeyOf q g r = Some k) l)) as Hn.
  { intros l k Hl. apply sumBy_nonneg. intros r [_ Hr]%list_elem_of_filter. rewrite Forall_forall in Hl. auto. }
  split; (split; [done|]); intros k; specialize (Hs k); rewrite filter_app, sumBy_app in Hs; [pose proof (Hn l2 k F2)|pose proof (Hn l1 k F1)]; lia.
Qed.

Lemma exactSums_small q g rows k n : exactSums q g rows -> sumRows q g rows !! k = Some n -> small n.
Proof.
  intros [Hn Hs]. rewrite sumRows_lookup. cbn zeta. destruct (noRows _); [done|]. intros [= <-]. specialize (Hs k). unfold small.
  assert (0 <= sumBy Received (filter (fun r => pointKeyOf q g r = Some k) rows)); [|lia].
  apply sumBy_nonneg. intros r [_ Hr]%list_elem_of_filter. rewrite Forall_forall in Hn. auto.
Qed.

Lemma exactSums_perm q g l l' : l ≡ₚ l' -> exactSums q g l -> exactSums q g l'.
Proof.
  intros Hp [Hn Hs]. split; [by rewrite <- Hp|]. intros k. specialize (Hs k).
  by rewrite <- (filter_Permutation (fun r => pointKeyOf q g r = Some k) _ _ Hp).
Qed.

Lemma sumRows_perm q g l l' : l ≡ₚ l' -> sumRows q g l = sumRows q g l'.
Proof.
  intros Hp. apply map_eq. intros k. rewrite !sumRows_lookup. cbn zeta.
  assert (filter (fun r => pointKeyOf q g r = Some k) l ≡ₚ filter (fun r => pointKeyOf q g r = Some k) l') as E by (by apply filter_Permutation).
  rewrite (tot_perm (TierTotals := some_totals) _ _ E). by rewrite E.
Qed.

(** The sums of all segments so far and of one more. *)
Lemma addSums q g pre part : exactSums q g (pre ++ part) ->
  map_fold (fun k n totals => addTotal k (toFloat n) totals) (ofZ <$> sumRows q g pre) (sumRows q g part) = ofZ <$> sumRows q g (pre ++ part).
Proof.
  intros He. apply map_eq. intros k.
  assert (forall (sums : gmap (Z * string) Z) (t : gmap (Z * string) float64),
    map_fold (fun k n totals => addTotal k (toFloat n) totals) t sums !! k =
    match sums !! k with Some n => Some (default (toFloat 0) (t !! k) + toFloat n)%f64 | None => t !! k end) as Hf.
  { intros sums t. apply (map_fold_weak_ind (fun r sums => r !! k = match sums !! k with Some n => Some (default (toFloat 0) (t !! k) + toFloat n)%f64 | None => t !! k end)).
    - done.
    - intros i x m r Hi Hr. unfold addTotal. rewrite !lookup_insert. case_decide as E; [|done]. subst i. rewrite Hi in Hr. by rewrite Hr. }
  rewrite Hf, !lookup_fmap. pose proof (exactSums_parts _ _ _ _ He) as [H1 H2].
  pose proof (exactSums_small q g pre k) as S1. pose proof (exactSums_small q g part k) as S2. pose proof (exactSums_small q g (pre ++ part) k) as S3.
  rewrite !sumRows_lookup in *. cbn zeta in *. rewrite filter_app in *. set (P := filter _ pre) in *. set (Q := filter _ part) in *. unfold noRows in *.
  destruct Q as [|r0 Q]; [by rewrite app_nil_r|]. rewrite (bool_decide_false (r0 :: Q = [])) in * by done.
  rewrite (bool_decide_false (P ++ r0 :: Q = [])) in * by (by destruct P). rewrite sumBy_app in *. specialize (S2 _ H2 eq_refl). specialize (S3 _ He eq_refl).
  cbn [fmap option_fmap option_map]. f_equal. rewrite (toFloat_ofZ _ S2). destruct P as [|p0 P].
  - rewrite bool_decide_true by done. cbn [fmap option_fmap option_map default sumBy foldr]. change (toFloat 0) with (ofZ 0). by rewrite ofZ_add by done.
  - rewrite bool_decide_false in * by done. specialize (S1 _ H1 eq_refl). cbn [fmap option_fmap option_map default]. unfold id. by rewrite ofZ_add.
Qed.

(** An integer survives [int64(math.Round(x))]. *)
Lemma Round_ofZ overflow n : small n -> toInt64 overflow (Round (ofZ n)) = n.
Proof.
  intros Hn. assert (forall z, small z -> toInt64 overflow (ofZ z) = z) as Hi.
  { intros z Hz. unfold toInt64. assert (truncate (ofZ z) = Some z) as ->.
    { destruct z as [|p|p]; [done| |]; unfold ofZ, normal, truncate; pose proof (small_width p ltac:(unfold small in *; lia)) as Hw;
        rewrite mantissa_val by (unfold small in *; lia); (destruct (Z.leb_spec 0 (width p - 53)); [replace (width p - 53) with 0 by lia; replace (53 - width p) with 0 by lia|
        replace (- (width p - 53)) with (53 - width p) by lia; rewrite Z.div_mul by (apply Z.pow_nonzero; lia)]); f_equal; lia. }
    unfold small in Hz. rewrite (proj2 (Z.leb_le _ _)), (proj2 (Z.ltb_lt _ _)) by lia. done. }
  unfold Round. destruct n as [|p|p]; [done| |]; unfold ofZ, normal; pose proof (small_width p ltac:(unfold small in *; lia)) as Hw;
    (destruct (Z.leb_spec 0 (width p - 53)) as [H0|H0]; [by apply (Hi _ Hn)|]); rewrite mantissa_val by (unfold small in *; lia);
    replace ((2 * (Zpos p * 2 ^ (53 - width p)) + 2 ^ (- (width p - 53))) / 2 ^ (1 - (width p - 53))) with (Zpos p); try (rewrite toFloat_ofZ by done; by apply Hi).
  all: replace (- (width p - 53)) with (53 - width p) by lia; replace (1 - (width p - 53)) with (Z.succ (53 - width p)) by lia;
    rewrite Z.pow_succ_r by lia; assert (0 < 2 ^ (53 - width p)) by (apply Z.pow_pos_nonneg; lia);
    apply Z.div_unique with (2 ^ (53 - width p)); lia.
Qed.

Section DashboardCounts.
Context (hz : Z) (w g : world) (Hl : liveInv hz w g) (Hcut : cutInFront w g).
Context (cov : SpanRollupCoverage) (Hcov : coverageOf w cov) (q : DashboardRollupQuery) (grp : DashboardGroup) (open : Z) (Ho : hz <= open).

Lemma point_total {A} (tot : list SpanRollup -> A) `{!TierTotals tot} to s k : segmentHeld to (dq_Interval q) cov s -> sg_From s < sg_To s ->
  segmentCovered (fun s f t => Some (CountSpanRollupBuckets (w_rollups w) s f t))
    (Some (fun f t => Some (SpansIngestedBetween (w_ingested w) f t))) s open = Some true ->
  tot (filter (fun r => pointKeyOf q grp r = Some k) (segmentRows (dq_Scan q) (w_rollups w) s)) =
  tot (filter (fun r => pointKeyOf q grp r = Some k) (partOf q (w_rollups g) s)).
Proof.
  intros Hs Hlt Hc. destruct s as [step from to']. cbn [sg_From sg_To]. rewrite !point_rows.
  apply (segment_total hz w g Hl Hcut cov Hcov tot (inPoint q grp k) (chartOf q) (dq_Interval q) open) with (to := to) (s := mkSegment step from to');
    [|by apply (marks_open hz w g Hl)|done..].
  intros S x Ha Hf Hd Hx a b Ha' Hb'. assert (0 < S) as H by (destruct Hf as [->|[->| ->]]; done). unfold chartOf.
  rewrite (chart_aligned (dq_Interval q) S x a Ha H Hd Hx Ha'). by rewrite (chart_aligned (dq_Interval q) S x b Ha H Hd Hx Hb').
Qed.

(** One query of [sumSpanRollups] finds the sums of the 5-minute rows. *)
Lemma segment_sums to s : segmentHeld to (dq_Interval q) cov s -> sg_From s < sg_To s ->
  segmentCovered (fun s f t => Some (CountSpanRollupBuckets (w_rollups w) s f t))
    (Some (fun f t => Some (SpansIngestedBetween (w_ingested w) f t))) s open = Some true ->
  exactSums q grp (partOf q (w_rollups g) s) ->
  map_Forall (fun _ n => in_int64 n) (sumRows q grp (segmentRows (dq_Scan q) (w_rollups w) s)) ->
  sumRows q grp (segmentRows (dq_Scan q) (w_rollups w) s) = sumRows q grp (partOf q (w_rollups g) s).
Proof.
  intros Hs Hlt Hc He Hi. apply map_eq. intros k. specialize (Hi k). pose proof (fun n => exactSums_small q grp (partOf q (w_rollups g) s) k n He) as Hsm.
  rewrite !sumRows_lookup in *. cbn zeta in *. rewrite (point_total noRows to s k Hs Hlt Hc) in *.
  pose proof (point_total (fun l => wrap64 (sumBy Received l)) to s k Hs Hlt Hc) as Et. cbn beta in Et.
  destruct (noRows _); [done|]. specialize (Hi _ eq_refl). specialize (Hsm _ eq_refl). f_equal.
  rewrite wrap64_id in Et by exact Hi. rewrite Et. apply wrap64_id. unfold small, in_int64 in *. lia.
Qed.

Lemma sumSpanRollups_spec to segs : Forall (segmentHeld to (dq_Interval q) cov) segs ->
  Complete (fun s f t => Some (CountSpanRollupBuckets (w_rollups w) s f t))
    (Some (fun f t => Some (SpansIngestedBetween (w_ingested w) f t))) segs open = Some true ->
  forall start e pre w0 totals w1, tiles start segs e -> w_rollups w0 = w_rollups w ->
  exactSums q grp (pre ++ mjoin ((fun s => partOf q (w_rollups g) s) <$> segs)) ->
  sumSpanRollups q grp segs (ofZ <$> sumRows q grp pre) w0 = (Some totals, w1) ->
  totals = ofZ <$> sumRows q grp (pre ++ mjoin ((fun s => partOf q (w_rollups g) s) <$> segs)).
Proof.
  induction 1 as [|s segs Hs Hh IH]; intros Hc start e pre w0 totals w1 Ht Ew He Hr; cbn [sumSpanRollups] in Hr.
  { injection Hr as <- _. by rewrite app_nil_r. }
  destruct Ht as (_ & Hlt & Ht). destruct (Z.rem _ _ =? 0); [|done]. cbn [negb] in Hr.
  apply M_bind_some in Hr as (sums & w2 & [Hq (E2 & _)]%attempt_some & Hr). rewrite Ew in Hq, E2.
  destruct (bool_decide _) eqn:Eb; [|done]. apply bool_decide_eq_true in Eb. injection Hq as <-.
  cbn [Complete] in Hc. destruct (segmentCovered _ _ s open) as [[|]|] eqn:Es; [|done..]. cbn in Hc.
  cbn [fmap list_fmap] in *. change (mjoin (?a :: ?l)) with (a ++ mjoin l) in *. rewrite app_assoc in He. rewrite app_assoc.
  destruct (exactSums_parts _ _ _ _ He) as [Hpre _]. destruct (exactSums_parts _ _ _ _ Hpre) as [_ Hpart].
  rewrite (segment_sums to s Hs Hlt Es Hpart Eb), addSums in Hr by done. by eapply IH.
Qed.
End DashboardCounts.

(** The read of a card, when it counts from the rollups. *)
Lemma dashboardCountPoints_plan overflow Pow Log2 enabled http k q interval grp rootOnly raw c w points c' w' : readsCoverage k c ->
  dashboardCountPoints overflow Pow Log2 enabled http k q interval grp rootOnly raw c w = ((Some points, SourceRollups, c'), w') ->
  exists rq w1 w2 cov, dashboardRollupQuery overflow Pow Log2 enabled k q interval rootOnly c w = ((Some rq, c'), w1) /\ sameTables w w1 /\
    coverageOf w cov /\ dq_Interval rq = interval /\ Plan (da_From q) (da_To q) interval cov = Some (sc_Segments (dq_Scan rq)) /\
    Complete (fun s f t => Some (CountSpanRollupBuckets (w_rollups w) s f t))
      (Some (fun f t => Some (SpansIngestedBetween (w_ingested w) f t))) (sc_Segments (dq_Scan rq)) (pk_check k - spanRollupFlushGrace) = Some true /\
    QueryDashboardCountsFromRollups overflow rq grp dashboardTopN w1 = (Some points, w2).
Proof.
  intros Hc. unfold dashboardCountPoints. destruct (_ || _); [|by destruct (raw w)].
  destruct (dashboardRollupQuery _ _ _ _ _ _ _ _ _ _) as [[[rq|] c1] w1] eqn:Eq; [|by destruct (raw w1)].
  destruct (QueryDashboardCountsFromRollups _ _ _ _ w1) as [r w2] eqn:Ep. intros [= -> <- <-]. pose proof Eq as Eq'.
  unfold dashboardRollupQuery in Eq'. destruct (negb _); [done|]. destruct (rollupBand _ _ _ _ _) as [[lo hi]|]; [|done].
  destruct (spanRollupPlan _ _ _ _ _ _ _) as [[[segs|] c2] w3] eqn:Es; [|done]. injection Eq' as <- <- <-.
  apply spanRollupPlan_spec in Es as (Hs & cov & Hcov & Hp & Hk); [|done]. exists
    (mkDashboardQuery (mkScan segs (da_ProjectID q) (da_Service q) (da_Name q) "" (da_Status q) rootOnly []) interval lo hi), w3, w2, cov. done.
Qed.

(** The points of integer totals. *)
Definition pointsOfSums (sums : gmap (Z * string) Z) : list DashboardCountPoint :=
  merge_sort pointLe ((fun kn => mkCountPoint kn.1.1 kn.1.2 kn.2) <$> map_to_list sums).

Lemma pointsOf_ofZ overflow sums : map_Forall (fun _ n => small n) sums -> pointsOf overflow (ofZ <$> sums) = pointsOfSums sums.
Proof.
  intros Hs. unfold pointsOf, pointsOfSums. f_equal. rewrite map_to_list_fmap, <- list_fmap_compose. apply list_fmap_ext.
  intros i [k n] Hi%list_elem_of_lookup_2%elem_of_map_to_list. cbn. f_equal. apply Round_ofZ, (Hs k n Hi).
Qed.

(** C9: A dashboard card counts every span of its range once.  In every state of the tiers that passes, flushes,
    retention and trims reach, when the trims took whole 5-minute buckets: whenever [dashboardCountPoints] answers a query
    without a duration band from the rollups, with a coverage it has just read and a clock past the compacted range, its
    points are those of all 5-minute rows ever written for the range: per chart bucket and group the received spans,
    with the groups past the tenth folded into one, whichever tiers it read.  The counts are not negative and the sums below
    [2^53], where a [float64] is exact. *)
Theorem dashboard_counts_exact overflow Pow Log2 cfg hz w g enabled http k q interval grp rootOnly raw c points c' w' :
  live cfg hz w g -> cutInFront w g -> readsCoverage k c -> hz <= pk_check k - spanRollupFlushGrace ->
  dashboardCountPoints overflow Pow Log2 enabled http k q interval grp rootOnly raw c w = ((Some points, SourceRollups, c'), w') ->
  exists rq e, (dashboardRollupQuery overflow Pow Log2 enabled k q interval rootOnly c w).1 = (Some rq, c') /\
    da_To q <= e < da_To q + Step5m * second /\
    let rows := segmentRows (dq_Scan rq) (w_rollups g) (mkSegment Step5m (TruncateBucket (da_From q) Step5m) e) in
    (banded rq = false -> exactSums rq grp rows -> points = foldCountPoints (pointsOfSums (sumRows rq grp rows)) dashboardTopN).
Proof.
  intros Hl%live_inv Hcut Hc Ho Hr.
  destruct (dashboardCountPoints_plan _ _ _ _ _ _ _ _ _ _ _ _ _ _ _ _ Hc Hr) as (rq & w1 & w2 & cov & Eq & Hsame & Hcov & Ei & Hp & Hk & Hq).
  pose proof (Plan_spec (da_From q) (da_To q) interval cov) as Hs. rewrite Hp in Hs. destruct Hs as (Hh & e & Ht & He).
  exists rq, e. rewrite Eq. split_and!; [done|lia|lia|]. cbn zeta. intros Hb Hex.
  unfold QueryDashboardCountsFromRollups in Hq. rewrite Hb in Hq. apply M_bind_some in Hq as (totals & w3 & Hsum & Hq). injection Hq as <- <-.
  destruct (TruncateBucket_spec (da_From q) Step5m ltac:(unfold fixedStep; auto)) as [_ Hd].
  destruct (tiles_windows (w_rollups g) _ (proj1 (read_keys hz w g Hl)) (Forall_impl _ _ _ Hh (held_boundary (da_To q) interval cov)) _ _ Ht Hd) as (Hperm & _).
  set (rows := segmentRows _ _ _) in *. assert (mjoin ((fun s => partOf rq (w_rollups g) s) <$> sc_Segments (dq_Scan rq)) ≡ₚ rows) as Hrows.
  { apply (filter_Permutation (fun r => rollupSelected (dq_Scan rq) r = true)) in Hperm. etransitivity; [|exact Hperm]. clear. induction (sc_Segments (dq_Scan rq)) as [|s l IH]; [done|].
    cbn [fmap list_fmap]. change (mjoin (?a :: ?l)) with (a ++ mjoin l). rewrite filter_app, IH. done. }
  assert (totals = ofZ <$> sumRows rq grp rows) as ->; [|rewrite pointsOf_ofZ; [done|]; intros ki n Hn; by eapply exactSums_small].
  rewrite <- (sumRows_perm rq grp _ _ Hrows). rewrite <- Ei in Hh.
  eapply (sumSpanRollups_spec hz w g Hl Hcut cov Hcov rq grp _ Ho (da_To q) _ Hh Hk _ _ [] w1 totals); [exact Ht|by destruct Hsame| |exact Hsum].
  by apply (exactSums_perm _ _ rows).
Qed.

(** ** A concrete card *)

Lemma sumBy_submseteq {R} (f : R -> Z) l l' : (forall a, a ∈ l' -> 0 <= f a) -> l ⊆+ l' -> sumBy f l <= sumBy f l'.
Proof.
  intros Hf [rest Hp]%submseteq_Permutation. rewrite Hp, sumBy_app. assert (0 <= sumBy f rest); [|lia].
  apply sumBy_nonneg. intros a Ha. apply Hf. rewrite Hp. set_solver.
Qed.

(** Few enough rows: any selection of them has exact sums. *)
Lemma exactSums_table q g t step from to :
  map_Forall (fun _ r => 0 <= Received r) t -> sumBy Received (map_to_list t).*2 < 2 ^ 53 -> exactSums q g (segmentRows (dq_Scan q) t (mkSegment step from to)).
Proof.
  intros Hn Hs. assert (forall r, r ∈ (map_to_list t).*2 -> 0 <= Received r) as Hr.
  { intros r ([k x] & -> & Hx%elem_of_map_to_list)%list_elem_of_fmap. by apply (Hn k). }
  assert (segmentRows (dq_Scan q) t (mkSegment step from to) ⊆+ (map_to_list t).*2) as Hsub.
  { unfold segmentRows. etrans; [apply sublist_submseteq, sublist_filter|]. apply fmap_submseteq, map_to_list_submseteq, map_filter_subseteq. }
  split.
  - apply Forall_forall. intros r H. by apply Hr, (elem_of_submseteq _ _ _ H).
  - intros k. eapply Z.le_lt_trans; [|exact Hs]. apply sumBy_submseteq; [done|]. etrans; [apply sublist_submseteq, sublist_filter|done].
Qed.

Definition hoursCard : DashboardQuery := mkCardQuery 1 "" "" "" 0 0 (3600 * second) (7200 * second).

Definition cardAnswer (w : world) : (option (list DashboardCountPoint) * source * coverageCache) * world :=
  dashboardCountPoints (fun _ => 0) (fun x _ => x) (fun x => x) true false (mkPlanClock (100 * hour) (100 * hour) (100 * hour)) hoursCard 3600 GroupService
    true (fun w => (None, w)) (mkCoverageCache (mkCoverage ∅ ∅) None) w.

Lemma card_answer : (cardAnswer hoursTrimmed).1.1 = (Some [mkCountPoint 3600 "svc" 4], SourceRollups).
Proof. vm_compute. reflexivity. Qed.

Lemma dashboard_counts_exact_witness :
  SpanRollupWindow (w_rollups hoursTrimmed) Step5m 0 (7200 * second) = [] /\
  exists rq e, [mkCountPoint 3600 "svc" 4] =
    foldCountPoints (pointsOfSums (sumRows rq GroupService (segmentRows (dq_Scan rq) (w_rollups hoursHistory) (mkSegment Step5m (3600 * second) e)))) dashboardTopN.
Proof.
  split; [vm_compute; reflexivity|].
  destruct (dashboard_counts_exact (fun _ => 0) (fun x _ => x) (fun x => x) demoCfg _ hoursTrimmed hoursHistory true false
    (mkPlanClock (100 * hour) (100 * hour) (100 * hour)) hoursCard 3600 GroupService true (fun w => (None, w)) (mkCoverageCache (mkCoverage ∅ ∅) None)
    [mkCountPoint 3600 "svc" 4] (cardAnswer hoursTrimmed).1.2 (cardAnswer hoursTrimmed).2 hours_live hours_cut) as (rq & e & Eq & He & Hp);
    [by intros t Ht|by vm_compute|exact (answer_parts (cardAnswer hoursTrimmed) _ _ card_answer)|].
  exists rq, e. apply Hp.
  - assert (option_map banded (Some rq) = Some false) as [= <-]; [|done]. change (Some rq) with (Some rq, (cardAnswer hoursTrimmed).1.2).1. rewrite <- Eq. vm_compute. reflexivity.
  - apply exactSums_table; [apply (bool_decide_unpack _); by vm_compute|by vm_compute].
Defined.

(** ** Requests *)

(** Snapping both ends of a range to a grain keeps it between multiples of the grain. *)
Lemma snap_bounds G from to m : 0 < G -> (m * G <= to - from -> m * G <= (to - to mod G) - (from - from mod G)) /\
  (to - from <= m * G -> (to - to mod G) - (from - from mod G) <= m * G).
Proof.
  intros HG. pose proof (Z.mod_pos_bound from G HG). pose proof (Z.mod_pos_bound to G HG).
  rewrite !Z.mod_eq in * by lia. set (a := from / G) in *. set (b := to / G) in *.
  split; intros H'; apply Z.le_ngt; intros Hlt.
  - assert (G * (b - a + 1) <= G * m) by (apply Z.mul_le_mono_nonneg_l; nia). nia.
  - assert (G * m + G <= G * (b - a)) by (replace (G * m + G) with (G * (m + 1)) by lia; apply Z.mul_le_mono_nonneg_l; nia). nia.
Qed.

(** A request that is served is served with its range snapped: the second [validate], behind the cache, does not
    refuse it, and the bucket width is positive. *)
Lemma snapped_valid q interval : validate q = inr interval -> da_From (snapped q) <> zeroTime -> da_To (snapped q) <> zeroTime ->
  exists interval', validate (snapped q) = inr interval' /\ 0 < interval'.
Proof.
  unfold validate. cbn [da_From da_To da_MinDurationUs da_MaxDurationUs snapped]. intros Hv Hf Ht.
  rewrite (proj2 (Z.eqb_neq _ _) Hf), (proj2 (Z.eqb_neq _ _) Ht). cbn [orb].
  destruct (_ || _) in Hv; [done|]. destruct (Z.leb_spec (da_To q - da_From q) 0) as [|H0]; [done|].
  destruct (Z.ltb_spec (da_To q - da_From q) MinDashboardWindow) as [|H1]; [done|]. destruct (_ || _); [done|].
  destruct (Z.ltb_spec MaxDashboardWindow (da_To q - da_From q)) as [|H2]; [done|]. clear Hv.
  assert (MinDashboardWindow <= (da_To q - da_To q mod grain q) - (da_From q - da_From q mod grain q) <= MaxDashboardWindow) as [Hlo Hhi].
  { unfold grain, dashboardGrain. destruct (Z.leb_spec dashboardCoarseFrom (da_To q - da_From q)) as [Hw|Hw].
    - pose proof (proj1 (snap_bounds dashboardCoarseGrain (da_From q) (da_To q) 48 eq_refl) Hw) as Hlo.
      pose proof (proj2 (snap_bounds dashboardCoarseGrain (da_From q) (da_To q) 192 eq_refl) H2) as Hhi.
      split; [etrans; [|exact Hlo]; done|done].
    - pose proof (proj1 (snap_bounds dashboardFineGrain (da_From q) (da_To q) 4 eq_refl) H1) as Hlo.
      pose proof (proj2 (snap_bounds dashboardFineGrain (da_From q) (da_To q) 11520 eq_refl) H2) as Hhi. done. }
  rewrite (proj2 (Z.leb_gt _ _)) by (eapply Z.lt_le_trans; [|exact Hlo]; done). rewrite (proj2 (Z.ltb_ge _ _) Hlo), (proj2 (Z.ltb_ge _ _) Hhi).
  eexists. split; [reflexivity|]. unfold dashboardInterval. repeat case_match; done.
Qed.
